(* ===== verification/_CoqProject ===== *)
-Q . S2P
Prelude.v
Bytes.v
Super.v
Crc.v
Blknum.v
Csum.v
CsumProps.v
Mem.v
SepLogic.v
ExtMem.v
RbShape.v
RbTree.v
BitOps.v
Bitmap.v
RbExtents.v
BlkmapRB.v
BlkmapBA.v
GenBitmap.v
GenBitmapSpec.v
BitmapProps.v
Bitmaps.v
BitmapTrace.v
Clusters.v
Alloc.v
GroupSpec.v
AllocProps.v
BlockProps.v
BlockRange.v
NewBlock.v
NewInode.v
IoManager.v
IBlock.v
Services.v
Jbd.v
Revoke.v
Recovery.v
RecoverySpec.v
RecoveryProps.v
BlockIter.v
FileMap.v
Dirent.v
DirSpec.v
DirProps.v
DirOps.v
Extent.v
ExtentIter.v
Bmap.v
BmapProps.v
Punch.v
PunchProps.v
FileIo.v
FileIoProps.v
