(* ===== verification/Prelude.v ===== *)
(** * A verification development for e2fsprogs 1.46.5

    The sources are under src/e2fsprogs-1.46.5/; paths below are relative to it,
    and file names without a directory are of lib/ext2fs/.

    ** The program and the parts modelled

    libext2fs reads and writes ext2/3/4 file systems: on-disk structures with
    checksums, bitmaps of used inodes and blocks, the allocator that keeps the
    bitmaps and the counters of the block groups in step, and channels to the
    device.  The programs (e2fsck, mke2fs, resize2fs, debugfs, ...) are built on
    it; e2fsck also replays the journal, with code shared with the kernel.  The
    development follows these layers from the bottom up; a layer's theorems use
    only the contract of the one below.

    - Numbers, bytes and structures.  Bytes: little-endian fields in buffers.
      Super: the super block, group descriptors and inodes as buffers with the
      fields' offsets (ext2_fs.h, ext2fs.h).  Blknum: block and group arithmetic
      and every accessor of blknum.c, the place of backups and descriptors
      (closefs.c, openfs.c), the number of directories (get_num_dirs.c).
    - Checksums.  Crc: crc16.c, crc32c.c with the tables that
      gen_crc32ctable.c computes.  Csum, CsumProps: csum.c.
    - Memory.  Mem: a memory of cells with allocated blocks, a monad for code
      that changes it; SepLogic: a separation logic for it, an instance of
      Iris's proof mode; ExtMem: the allocation functions of ext2fs.h.
    - Bitmaps.  RbShape, RbTree: the intrusive red-black trees of rbtree.c,
      pointer by pointer.  RbExtents, BlkmapRB: bitmaps as trees of extents
      (blkmap64_rb.c).  BlkmapBA: bit arrays (blkmap64_ba.c); BitOps: bitops.c
      and bitops.h.  Bitmap: the table of methods (bmap64.h) and the interface
      [BitmapImpl] that both implement.  GenBitmap: gen_bitmap.c and
      gen_bitmap64.c, which choose by magic number between the legacy 32-bit
      bitmaps and the new ones; GenBitmapSpec, BitmapProps: what they do to the
      set of bits, proved once from the interface.  Bitmaps, BitmapTrace,
      Clusters: bitmaps.c, bitmaps of clusters, counting.
    - Allocation.  Alloc: alloc.c and alloc_stats.c.  GroupSpec: descriptors as
      records of numbers; AllocProps, BlockProps, BlockRange, NewBlock,
      NewInode: the theorems.
    - Devices and the journal.  IoManager: io_manager.c, with the interface
      [Works] of a device that does not fail.  Jbd: the journal's format
      (kernel-jbd.h, jfs_compat.h, e2fsck/jfs_user.h) and e2fsck's buffers
      (e2fsck/journal.c).  Revoke: e2fsck/revoke.c.  Recovery:
      e2fsck/recovery.c; RecoverySpec: logs and their replay, abstractly;
      RecoveryProps: recovery implements it.
    - Files and directories.  BlockIter: the iteration over the blocks of an
      inode (block.c, ind_block.c); FileMap: the map of a file and the calls of
      the iteration.  Dirent: directory entries, blocks and their iteration
      (dir_iterate.c, dirblock.c), linking, unlinking, looking up and new blocks
      (link.c, unlink.c, lookup.c, newdir.c); DirSpec: directories as lists of
      entries; DirProps, DirOps: the operations implement those on lists.
    - Access to files.  Services: what this layer uses of the rest (blocks,
      inodes, the allocator) as a class, with its laws, a monad for operations
      on an open object and rules for it.  IBlock: the count of blocks of an
      inode (i_block.c).  Extent: trees of extents (extent.c), and the goal for
      new blocks (alloc.c), which searches them; ExtentIter: the part of the
      iteration for them (block.c).  Bmap: the map of a file, looked up, set and
      extended (bmap.c); BmapProps: for files with pointers it is the map of
      FileMap, and new blocks are counted.  Punch: taking a range of blocks out of
      a file (punch.c), for pointers and extents; PunchProps: truncating a file
      with pointers.  FileIo: reading, writing and truncating open files (fileio.c);
      FileIoProps: an open file as the bytes that its blocks and its buffer show.

    ** How code becomes definitions

    The machine is LP64 and little-endian, as the common builds are.  Integers
    are [Z]; wherever a value is stored in a type or an arithmetic operation can
    leave it, the wrap-around is written ([u8], [u16], [u32], [u64], [s32],
    [s64] below).  A structure on disk is the buffer that holds it.  A structure
    in memory is a record when no pointer into it is kept, and lies in the
    memory of Mem when there is (tree nodes, extents, bit arrays).  A function
    that changes an argument returns it; names are those of the source, and a
    loop or a branch worth a lemma is a definition of its own, named after what
    it does.

    Errors are values: [errcode_t] numbers (the constants [EXT2_ET_...]), negative
    [errno] values in the journal code, [option] where the program would
    dereference NULL, divide by zero or leave a buffer, and the outcomes
    [Fault], [Abort] and out-of-fuel of the memory monad.

    What is not under src/ is an argument: the C library's [malloc] (class
    [Malloc], with the contract of the C standard), the managers of devices, and
    call-backs.  Parts of the library that are not modelled (reading an inode,
    data kept in inodes, hashed directories) are arguments of the definitions
    that call them, and so is for Dirent and BlockIter what a later file defines.

    ** Loops and fuel

    A loop is a structural recursion on fuel.  Where the code bounds the number
    of rounds, the definition gives that bound (the bytes of a block, the groups
    of the file system, the depth of a word), and a lemma proves that the loop
    ends before it runs out.  In the memory monad the fuel is an argument of
    every run and [wp] says that some amount is enough, so that all theorems
    stated with it include termination.  The scan of the journal need not end
    ([RecoveryProps.scan_diverges]): it returns [option], and
    [recover_replays] proves for every log that enough fuel gives the result.

    ** The theorems

    - Refinement.  A client of the block bitmaps sees a finite set, whatever the
      implementation, and so cannot tell the three apart but for two answers of
      the red-black tree ([block_bitmap_refines], [block_bitmaps_equivalent]).  Journal recovery is the replay of the
      committed transactions ([recover_replays]), and the revoke table a map
      ([revoke_table_correct]).
    - Files and directories.  The iteration calls its function on exactly the
      blocks that the map of the file has ([block_iterate_correct]).  On it,
      linking, unlinking and looking up are operations on the list of entries
      ([ext2fs_link_correct], [ext2fs_unlink_correct], [ext2fs_lookup_correct],
      [link_unlink_roundtrip], [ext2fs_new_dir_block_correct]), and no content of
      a block makes them loop or leave the block ([dir_operations_safe]).
      Looking up a block in the map of a file, adding blocks and setting them
      agree with the abstract map ([ext2fs_bmap2_correct], [bmap_set_get]), and so
      does truncating it, which gives back exactly the blocks that go
      ([ext2fs_punch_truncates]).
      Reading and writing an open file are reading and writing a list of bytes
      with a position and a size, whatever buffers, holes and errors of the
      allocator are in between, and touch no other file
      ([ext2fs_file_read_correct], [ext2fs_file_write_correct],
      [write_close_open_read]).
    - Invariants.  Red-black trees keep order and balance under insertion and
      removal, changing nothing else ([rb_insert_correct], [rb_erase_correct]);
      extents stay disjoint ([rb_insert_extent_correct],
      [rb_remove_extent_correct]); the counters of descriptors and super block
      agree with the bitmaps after every allocation
      ([inode_alloc_stats_correct], [block_alloc_stats_correct],
      [block_alloc_stats_range_correct]).
    - Searches find what there is, and end ([find_first_correct],
      [new_block_correct], [new_inode_correct]).
    - Checksums: the fast loops equal the bitwise definition and detect every
      burst of 32 bits ([crc_bitwise], [crc_detects_burst]); what is stored is
      accepted, what is changed or moved is not ([csum_set_verify],
      [csum_detects_corruption], [csum_detects_misplacement], ...).
    - Ranges, resizing, clusters ([block_ranges_correct], [resize_correct],
      [count_used_clusters_correct], ...); layout ([group_partition],
      [sparse_super_groups]); round trips of fields ([group_desc_fields],
      [range_copy_correct]); errors ([out_of_range_harmless]).

    Where the code does not do what it means to, a theorem or an example shows
    it ([rb_remove_extent_spurious], [scan_diverges], [count_misses_last_block],
    [resize_leaves_stale_bits], [copy_of_resized_faults],
    [compare_misses_difference], [write_errors_are_lost], [link_long_name],
    [ref_offset_of_skipped], [iterate_error_is_lost], [trace_tree],
    [empty_tree_fills_nothing], [failed_write_is_read], [punch_stops_early],
    [punch_frees_too_many]).

    ** Not modelled

    Inodes on the device (inode.c), data kept in inodes, hashed directories and
    extended attributes, opening and closing (openfs.c, closefs.c, but for the
    layout),
    undo files and images, mke2fs, resize2fs, tune2fs and debugfs, and e2fsck's
    passes: they need the layers below first, and much of them is interaction
    with the user.  The device managers (unix_io.c and others) are system calls.
    tdb.c is a copy of another project, utf8data.h is generated, lib/et, lib/ss,
    lib/uuid, lib/blkid and lib/support serve the programs only.  Statistics,
    debugging output and the printing of warnings are left out everywhere.

    ** This file

    Machine integers, bits, lists and tactics that all files share. *)
From Stdlib Require Export ZArith Lia ZifyBool.
From stdpp Require Export base gmap list numbers strings ssreflect.
#[export] Set Warnings "-rewrite-rw,-clear-no-such-hyp".

#[global] Open Scope Z_scope.
#[global] Open Scope general_if_scope.

(** ** Lists *)
Lemma app_cons_split {A} (xs ys l1 l2 : list A) (a b : A) :
  xs ++ b :: ys = l1 ++ a :: l2 →
  (∃ m, xs = l1 ++ a :: m ∧ l2 = m ++ b :: ys) ∨
  (xs = l1 ∧ b = a ∧ ys = l2) ∨
  (∃ m, ys = m ++ a :: l2 ∧ l1 = xs ++ b :: m).
Proof.
  revert l1. induction xs as [|x xs IH]; intros [|y l1] Heq; simpl in Heq; injection Heq as -> Heq.
  - right; left. by rewrite Heq.
  - right; right. by exists l1.
  - left. by exists xs; rewrite Heq.
  - destruct (IH _ Heq) as [(m & -> & ->)|[(-> & -> & ->)|(m & -> & ->)]].
    + left. by exists m.
    + by right; left.
    + right; right. by exists m.
Qed.

(** Equality of concatenations, up to associativity. *)
Ltac solve_app := csimpl; repeat (rewrite -app_assoc; csimpl); reflexivity.

(** Case analysis on one condition of an [if]. *)
Tactic Notation "decide_case" constr(P) "as" ident(H) :=
  destruct (decide P) as [H|H];
  [rewrite (bool_decide_eq_true_2 P H)|rewrite (bool_decide_eq_false_2 P H)].

(** ** Machine integers

    An unsigned [w]-bit value is the [Z] in [0, 2^w); every operation that can
    leave the range is reduced where the code's type says so. *)
Definition u8 (x : Z) : Z := x mod 2^8.
Definition u16 (x : Z) : Z := x mod 2^16.
Definition u32 (x : Z) : Z := x mod 2^32.
Definition u64 (x : Z) : Z := x mod 2^64.

(** Conversion to a 32-bit [int] (two's complement). *)
Definition s32 (x : Z) : Z := (x + 2^31) mod 2^32 - 2^31.
Definition s64 (x : Z) : Z := (x + 2^63) mod 2^64 - 2^63.

Lemma u8_small x : 0 ≤ x < 2^8 → u8 x = x.
Proof. apply Z.mod_small. Qed.
Lemma u16_small x : 0 ≤ x < 2^16 → u16 x = x.
Proof. apply Z.mod_small. Qed.
Lemma u32_small x : 0 ≤ x < 2^32 → u32 x = x.
Proof. apply Z.mod_small. Qed.
Lemma u64_small x : 0 ≤ x < 2^64 → u64 x = x.
Proof. apply Z.mod_small. Qed.
Lemma s32_small x : - 2^31 ≤ x < 2^31 → s32 x = x.
Proof. intros Hx. unfold s32. rewrite Z.mod_small; lia. Qed.

Lemma s64_small x : - 2^63 ≤ x < 2^63 → s64 x = x.
Proof. intros Hx. unfold s64. rewrite Z.mod_small; lia. Qed.

Lemma u8_range x : 0 ≤ u8 x < 2^8.
Proof. by apply Z.mod_pos_bound. Qed.
Lemma u32_range x : 0 ≤ u32 x < 2^32.
Proof. by apply Z.mod_pos_bound. Qed.
Lemma u64_range x : 0 ≤ u64 x < 2^64.
Proof. by apply Z.mod_pos_bound. Qed.

(** [wrap] drops the reductions whose argument is in range by linear
    arithmetic. *)
Ltac wrap :=
  repeat match goal with
  | |- context [u64 ?x] => rewrite (u64_small x); [|lia]
  | |- context [u32 ?x] => rewrite (u32_small x); [|lia]
  | |- context [s32 ?x] => rewrite (s32_small x); [|lia]
  | |- context [s64 ?x] => rewrite (s64_small x); [|lia]
  end.

(** ** Ranges of integers, as finite sets *)
Definition zrange (a n : Z) : gset Z := list_to_set (seqZ a n).

Lemma elem_of_zrange x a n : x ∈ zrange a n ↔ a ≤ x < a + n.
Proof. unfold zrange. rewrite elem_of_list_to_set elem_of_seqZ. done. Qed.

#[export] Instance set_unfold_zrange x a n : SetUnfoldElemOf x (zrange a n) (a ≤ x < a + n).
Proof. constructor. apply elem_of_zrange. Qed.

Lemma zrange_empty a n : n ≤ 0 → zrange a n = ∅.
Proof. intros. apply set_eq. intros x. rewrite elem_of_zrange elem_of_empty. lia. Qed.

#[global] Opaque zrange.

Lemma elem_of_bool (x : Z) (A : gset Z) : x ∈ A ↔ bool_decide (x ∈ A) = true.
Proof. by rewrite bool_decide_eq_true. Qed.

(** [mem_lia]: linear arithmetic with memberships in sets of integers as
    atoms; [set_lia]: an equality of such sets, pointwise, instantiating the
    hypotheses that quantify over integers. *)
Ltac mem_lia :=
  repeat match goal with H : context [@elem_of Z (gset Z) _ _ _] |- _ => revert H end;
  set_unfold;
  repeat match goal with
  | |- context [@elem_of Z (gset Z) _ ?x ?A] =>
      rewrite (elem_of_bool x A);
      let b := fresh "b" in generalize (bool_decide (x ∈ A)); intros b
  end;
  lia.

Ltac set_lia :=
  let x := fresh "x" in
  apply set_eq; intros x;
  repeat match goal with H : ∀ y : Z, _ |- _ => specialize (H x) end;
  mem_lia.

(** The bytes of a string literal. *)
Definition string_bytes (s : string) : list Z :=
  (λ a, Z.of_nat (Ascii.nat_of_ascii a)) <$> String.list_ascii_of_string s.

(** ** Error codes

    The codes of lib/ext2fs/ext2_err.et.in and of <errno.h> that the modelled
    functions return; [E_OK] is 0. *)
Inductive errcode :=
  | E_OK
  | EINVAL
  | ENOENT
  | EXT2_ET_NO_MEMORY
  | EXT2_ET_MAGIC_GENERIC_BITMAP
  | EXT2_ET_MAGIC_BLOCK_BITMAP
  | EXT2_ET_MAGIC_INODE_BITMAP
  | EXT2_ET_MAGIC_GENERIC_BITMAP64
  | EXT2_ET_MAGIC_BLOCK_BITMAP64
  | EXT2_ET_MAGIC_INODE_BITMAP64
  | EXT2_ET_MAGIC_BADBLOCKS_LIST
  | EXT2_ET_MAGIC_BADBLOCKS_ITERATE
  | EXT2_ET_NEQ_BLOCK_BITMAP
  | EXT2_ET_NEQ_INODE_BITMAP
  | EXT2_ET_INVALID_ARGUMENT
  | EXT2_ET_FILE_TOO_BIG
  | EXT2_ET_MAGIC_EXT2FS_FILSYS
  | EXT2_ET_CANT_USE_LEGACY_BITMAPS
  | EXT2_ET_FUDGE_BLOCK_BITMAP_END
  | EXT2_ET_FUDGE_INODE_BITMAP_END
  | EXT2_ET_DB_NOT_FOUND
  | EXT2_ET_DIR_NO_SPACE_FOR_CSUM
  | EXT2_ET_DIR_CORRUPTED
  | EXT2_ET_NO_INODE_BITMAP
  | EXT2_ET_NO_BLOCK_BITMAP
  | EXT2_ET_INODE_ALLOC_FAIL
  | EXT2_ET_BLOCK_ALLOC_FAIL
  | EXT2_FILSYS_CORRUPTED
  | ENOMEM.

#[export] Instance errcode_eq_dec : EqDecision errcode.
Proof. solve_decision. Defined.

(** Their numbers, for the functions that return a code as an [int]. *)
Definition EXT2_ET_BASE : Z := 2133571328.

Definition errno (e : errcode) : Z :=
  match e with
  | E_OK => 0
  | ENOENT => 2
  | ENOMEM => 12
  | EINVAL => 22
  | EXT2_ET_MAGIC_EXT2FS_FILSYS => EXT2_ET_BASE + 1
  | EXT2_ET_MAGIC_BADBLOCKS_LIST => EXT2_ET_BASE + 2
  | EXT2_ET_MAGIC_BADBLOCKS_ITERATE => EXT2_ET_BASE + 3
  | EXT2_ET_MAGIC_BLOCK_BITMAP => EXT2_ET_BASE + 8
  | EXT2_ET_MAGIC_INODE_BITMAP => EXT2_ET_BASE + 9
  | EXT2_ET_MAGIC_GENERIC_BITMAP => EXT2_ET_BASE + 10
  | EXT2_ET_FUDGE_BLOCK_BITMAP_END => EXT2_ET_BASE + 51
  | EXT2_ET_FUDGE_INODE_BITMAP_END => EXT2_ET_BASE + 52
  | EXT2_ET_NEQ_BLOCK_BITMAP => EXT2_ET_BASE + 56
  | EXT2_ET_NEQ_INODE_BITMAP => EXT2_ET_BASE + 57
  | EXT2_ET_NO_MEMORY => EXT2_ET_BASE + 70
  | EXT2_ET_INVALID_ARGUMENT => EXT2_ET_BASE + 71
  | EXT2_ET_FILE_TOO_BIG => EXT2_ET_BASE + 82
  | EXT2_ET_MAGIC_GENERIC_BITMAP64 => EXT2_ET_BASE + 109
  | EXT2_ET_MAGIC_BLOCK_BITMAP64 => EXT2_ET_BASE + 110
  | EXT2_ET_MAGIC_INODE_BITMAP64 => EXT2_ET_BASE + 111
  | EXT2_ET_CANT_USE_LEGACY_BITMAPS => EXT2_ET_BASE + 137
  | EXT2_ET_DB_NOT_FOUND => EXT2_ET_BASE + 78
  | EXT2_ET_DIR_NO_SPACE_FOR_CSUM => EXT2_ET_BASE + 149
  | EXT2_ET_DIR_CORRUPTED => EXT2_ET_BASE + 35
  | EXT2_ET_NO_INODE_BITMAP => EXT2_ET_BASE + 39
  | EXT2_ET_NO_BLOCK_BITMAP => EXT2_ET_BASE + 40
  | EXT2_ET_INODE_ALLOC_FAIL => EXT2_ET_BASE + 73
  | EXT2_ET_BLOCK_ALLOC_FAIL => EXT2_ET_BASE + 72
  | EXT2_FILSYS_CORRUPTED => EXT2_ET_BASE + 180
  end.
