(* ===== verification/Bytes.v ===== *)
(** * Bytes: little-endian fields in byte buffers

    The on-disk structures of the file system (super block, group descriptors,
    inodes, directory entries) are byte buffers; a field is a little-endian
    number at an offset, which is also how an LP64 little-endian machine sees
    the C structures.  [get_le] and [set_le] read and write such a field, and
    their laws are the ones of an array of disjoint fields. *)
From S2P Require Import Prelude.
#[local] Open Scope Z_scope.

(** ** Numbers and bytes *)
Fixpoint le_decode (bs : list Z) : Z :=
  match bs with
  | [] => 0
  | b :: bs' => b + 256 * le_decode bs'
  end.

Fixpoint le_encode (k : nat) (v : Z) : list Z :=
  match k with
  | O => []
  | S k' => v mod 256 :: le_encode k' (v / 256)
  end.

Definition is_bytes (bs : list Z) : Prop := Forall (λ b, 0 ≤ b < 256) bs.

Lemma length_le_encode k v : length (le_encode k v) = k.
Proof. revert v. induction k as [|k IH]; intros v; simpl; [done|]. by rewrite IH. Qed.

Lemma le_encode_bytes k v : is_bytes (le_encode k v).
Proof.
  revert v. induction k as [|k IH]; intros v; simpl; constructor; [|apply IH].
  by apply Z.mod_pos_bound.
Qed.

Lemma pow256_S k : 256 ^ Z.of_nat (S k) = 256 * 256 ^ Z.of_nat k.
Proof. rewrite Nat2Z.inj_succ Z.pow_succ_r //; lia. Qed.

Lemma pow256_pos k : 0 < 256 ^ Z.of_nat k.
Proof. apply Z.pow_pos_nonneg; lia. Qed.

Lemma le_decode_encode k v : le_decode (le_encode k v) = v mod 256 ^ Z.of_nat k.
Proof.
  revert v. induction k as [|k IH]; intros v; cbn [le_encode le_decode].
  - rewrite Z.mod_1_r //.
  - rewrite IH pow256_S. pose proof (pow256_pos k).
    rewrite (Z.rem_mul_r v 256) //.
Qed.

Lemma le_decode_range bs : is_bytes bs → 0 ≤ le_decode bs < 256 ^ Z.of_nat (length bs).
Proof.
  induction 1 as [|b bs Hb _ IH]; cbn [le_decode length]; [done|]. rewrite pow256_S. lia.
Qed.

Lemma le_encode_decode bs : is_bytes bs → le_encode (length bs) (le_decode bs) = bs.
Proof.
  induction 1 as [|b bs Hb _ IH]; cbn [le_encode le_decode length]; [done|].
  rewrite (Z.mul_comm 256) Z.mod_add // Z.mod_small // Z.div_add // Z.div_small // Z.add_0_l.
  by rewrite IH.
Qed.

(** ** Fields *)
Definition get_le (k : nat) (off : Z) (bs : list Z) : Z :=
  le_decode (take k (drop (Z.to_nat off) bs)).

Definition set_le (k : nat) (off v : Z) (bs : list Z) : list Z :=
  take (Z.to_nat off) bs ++ le_encode k v ++ drop (Z.to_nat off + k) bs.

(** The field lies in the buffer. *)
Definition in_buf (k : nat) (off : Z) (bs : list Z) : Prop :=
  0 ≤ off ∧ off + Z.of_nat k ≤ Z.of_nat (length bs).

#[export] Instance in_buf_dec k off bs : Decision (in_buf k off bs).
Proof. unfold in_buf. apply _. Defined.

Lemma length_set_le k off v bs : in_buf k off bs → length (set_le k off v bs) = length bs.
Proof.
  intros [? ?]. unfold set_le. rewrite !length_app length_take length_le_encode length_drop. lia.
Qed.

Lemma in_buf_set k off bs k' off' v :
  in_buf k off bs → in_buf k' off' bs → in_buf k off (set_le k' off' v bs).
Proof. intros H H'. unfold in_buf. by rewrite length_set_le. Qed.

Lemma get_set_le k off v bs :
  in_buf k off bs → get_le k off (set_le k off v bs) = v mod 256 ^ Z.of_nat k.
Proof.
  intros [? ?]. unfold get_le, set_le.
  assert (length (take (Z.to_nat off) bs) = Z.to_nat off) as Hl by (rewrite length_take; lia).
  rewrite -{1}Hl drop_app_length -{1}(length_le_encode k v) take_app_length.
  apply le_decode_encode.
Qed.

Lemma lookup_set_le_ne k off v bs (i : nat) :
  in_buf k off bs → Z.of_nat i < off ∨ off + Z.of_nat k ≤ Z.of_nat i →
  set_le k off v bs !! i = bs !! i.
Proof.
  intros [? ?] Hi. unfold set_le.
  assert (length (take (Z.to_nat off) bs) = Z.to_nat off) as Hl by (rewrite length_take; lia).
  destruct (decide (Z.of_nat i < off)).
  - assert (i < length (take (Z.to_nat off) bs))%nat by lia.
    rewrite lookup_app_l //. apply lookup_take_lt. lia.
  - assert (length (take (Z.to_nat off) bs) ≤ i)%nat by lia.
    rewrite lookup_app_r // Hl.
    assert (length (le_encode k v) ≤ i - Z.to_nat off)%nat by (rewrite length_le_encode; lia).
    rewrite lookup_app_r // length_le_encode lookup_drop. f_equal. lia.
Qed.

Lemma get_le_ext k off bs bs' :
  (∀ i : nat, off ≤ Z.of_nat i < off + Z.of_nat k → bs !! i = bs' !! i) →
  0 ≤ off → get_le k off bs = get_le k off bs'.
Proof.
  intros Heq Hoff. unfold get_le. f_equal. apply list_eq. intros i.
  destruct (decide (i < k)%nat).
  - rewrite !lookup_take_lt // !lookup_drop. apply Heq. lia.
  - rewrite !lookup_take_ge //; lia.
Qed.

(** A field is not touched by a write to another one. *)
Lemma get_set_le_ne k off k' off' v bs :
  in_buf k' off' bs → 0 ≤ off →
  off + Z.of_nat k ≤ off' ∨ off' + Z.of_nat k' ≤ off →
  get_le k off (set_le k' off' v bs) = get_le k off bs.
Proof.
  intros Hb Hoff Hdis. apply get_le_ext; [|done]. intros i Hi.
  apply lookup_set_le_ne; [done|lia].
Qed.

Lemma get_le_range k off bs : is_bytes bs → 0 ≤ get_le k off bs < 256 ^ Z.of_nat k.
Proof.
  intros Hb. unfold get_le.
  assert (is_bytes (take k (drop (Z.to_nat off) bs))) as Ht by by apply Forall_take, Forall_drop.
  pose proof (le_decode_range _ Ht) as [? Hlt]. split; [done|].
  eapply Z.lt_le_trans; [exact Hlt|]. apply Z.pow_le_mono_r; [done|]. rewrite length_take. lia.
Qed.

Lemma set_le_bytes k off v bs : is_bytes bs → is_bytes (set_le k off v bs).
Proof.
  intros Hb. unfold set_le, is_bytes. rewrite !Forall_app. split; [by apply Forall_take|].
  split; [apply le_encode_bytes|by apply Forall_drop].
Qed.

(** Writing back what is there changes nothing. *)
Lemma set_get_le k off bs :
  in_buf k off bs → is_bytes bs → set_le k off (get_le k off bs) bs = bs.
Proof.
  intros [? ?] Hb. unfold set_le, get_le.
  set (mid := take k (drop (Z.to_nat off) bs)).
  assert (length mid = k) as Hk by (unfold mid; rewrite length_take length_drop; lia).
  assert (is_bytes mid) as Hmid by by apply Forall_take, Forall_drop.
  rewrite -{1}Hk le_encode_decode //.
  unfold mid. rewrite -drop_drop take_drop. apply take_drop.
Qed.

Abbreviation get8 := (get_le 1).
Abbreviation get16 := (get_le 2).
Abbreviation get32 := (get_le 4).
Abbreviation get64 := (get_le 8).
Abbreviation set8 := (set_le 1).
Abbreviation set16 := (set_le 2).
Abbreviation set32 := (set_le 4).
Abbreviation set64 := (set_le 8).
