(* ===== verification/Super.v ===== *)
(** * Super: the super block, the group descriptors, the inode and [ext2_filsys]

    The structures of lib/ext2fs/ext2_fs.h as the byte buffers they are, with
    the offset of every field the modelled code uses, the feature tests that
    the macros [EXT4_FEATURE_*_FUNCS] generate, and the part of
    [struct struct_ext2_filsys] (ext2fs.h) that the block-number functions
    read. *)
From S2P Require Import Prelude.
From S2P Require Import Bytes.
#[local] Open Scope Z_scope.

(** ** [struct ext2_super_block] *)
Definition SUPERBLOCK_SIZE : nat := 1024.

Definition s_inodes_count (sb : list Z) : Z := get32 0 sb.
Definition s_blocks_count (sb : list Z) : Z := get32 4 sb.
Definition s_r_blocks_count (sb : list Z) : Z := get32 8 sb.
Definition s_free_blocks_count (sb : list Z) : Z := get32 12 sb.
Definition s_first_data_block (sb : list Z) : Z := get32 20 sb.
Definition s_free_inodes_count (sb : list Z) : Z := get32 16 sb.
Definition s_log_block_size (sb : list Z) : Z := get32 24 sb.
Definition s_log_cluster_size (sb : list Z) : Z := get32 28 sb.
Definition s_blocks_per_group (sb : list Z) : Z := get32 32 sb.
Definition s_clusters_per_group (sb : list Z) : Z := get32 36 sb.
Definition s_inodes_per_group (sb : list Z) : Z := get32 40 sb.
Definition s_rev_level (sb : list Z) : Z := get32 76 sb.
Definition s_first_ino (sb : list Z) : Z := get32 84 sb.
Definition s_inode_size (sb : list Z) : Z := get16 88 sb.
Definition s_feature_compat (sb : list Z) : Z := get32 92 sb.
Definition s_feature_incompat (sb : list Z) : Z := get32 96 sb.
Definition s_feature_ro_compat (sb : list Z) : Z := get32 100 sb.
Definition s_uuid (sb : list Z) : list Z := take 16 (drop 104 sb).
Definition s_reserved_gdt_blocks (sb : list Z) : Z := get16 206 sb.
Definition s_desc_size (sb : list Z) : Z := get16 254 sb.
Definition s_first_meta_bg (sb : list Z) : Z := get32 260 sb.
Definition s_blocks_count_hi (sb : list Z) : Z := get32 336 sb.
Definition s_r_blocks_count_hi (sb : list Z) : Z := get32 340 sb.
Definition s_free_blocks_hi (sb : list Z) : Z := get32 344 sb.
Definition s_log_groups_per_flex (sb : list Z) : Z := get8 372 sb.
Definition s_checksum_type (sb : list Z) : Z := get8 373 sb.
Definition s_backup_bgs_0 (sb : list Z) : Z := get32 588 sb.
Definition s_backup_bgs_1 (sb : list Z) : Z := get32 592 sb.

Definition s_checksum_seed (sb : list Z) : Z := get32 624 sb.
Definition s_checksum (sb : list Z) : Z := get32 1020 sb.

(** ** Features *)
Definition EXT4_FEATURE_COMPAT_SPARSE_SUPER2 : Z := 512.
Definition EXT2_FEATURE_RO_COMPAT_SPARSE_SUPER : Z := 1.
Definition EXT2_FEATURE_RO_COMPAT_LARGE_FILE : Z := 2.
Definition EXT4_FEATURE_RO_COMPAT_HUGE_FILE : Z := 8.
Definition EXT4_FEATURE_RO_COMPAT_GDT_CSUM : Z := 16.
Definition EXT4_FEATURE_RO_COMPAT_METADATA_CSUM : Z := 1024.
Definition EXT4_FEATURE_INCOMPAT_EA_INODE : Z := 1024.
Definition EXT4_FEATURE_INCOMPAT_CSUM_SEED : Z := 8192.
Definition EXT2_FEATURE_INCOMPAT_META_BG : Z := 16.
Definition EXT4_FEATURE_INCOMPAT_64BIT : Z := 128.
Definition EXT4_FEATURE_INCOMPAT_LARGEDIR : Z := 16384.

Definition ext2fs_has_feature_sparse_super2 (sb : list Z) : bool :=
  bool_decide (Z.land (s_feature_compat sb) EXT4_FEATURE_COMPAT_SPARSE_SUPER2 ≠ 0).
Definition ext2fs_has_feature_sparse_super (sb : list Z) : bool :=
  bool_decide (Z.land (s_feature_ro_compat sb) EXT2_FEATURE_RO_COMPAT_SPARSE_SUPER ≠ 0).
Definition ext2fs_has_feature_large_file (sb : list Z) : bool :=
  bool_decide (Z.land (s_feature_ro_compat sb) EXT2_FEATURE_RO_COMPAT_LARGE_FILE ≠ 0).
Definition ext2fs_has_feature_huge_file (sb : list Z) : bool :=
  bool_decide (Z.land (s_feature_ro_compat sb) EXT4_FEATURE_RO_COMPAT_HUGE_FILE ≠ 0).
Definition ext2fs_has_feature_gdt_csum (sb : list Z) : bool :=
  bool_decide (Z.land (s_feature_ro_compat sb) EXT4_FEATURE_RO_COMPAT_GDT_CSUM ≠ 0).
Definition ext2fs_has_feature_metadata_csum (sb : list Z) : bool :=
  bool_decide (Z.land (s_feature_ro_compat sb) EXT4_FEATURE_RO_COMPAT_METADATA_CSUM ≠ 0).
Definition ext2fs_has_feature_ea_inode (sb : list Z) : bool :=
  bool_decide (Z.land (s_feature_incompat sb) EXT4_FEATURE_INCOMPAT_EA_INODE ≠ 0).
Definition ext2fs_has_feature_csum_seed (sb : list Z) : bool :=
  bool_decide (Z.land (s_feature_incompat sb) EXT4_FEATURE_INCOMPAT_CSUM_SEED ≠ 0).
Definition ext2fs_has_feature_meta_bg (sb : list Z) : bool :=
  bool_decide (Z.land (s_feature_incompat sb) EXT2_FEATURE_INCOMPAT_META_BG ≠ 0).
Definition ext2fs_has_feature_64bit (sb : list Z) : bool :=
  bool_decide (Z.land (s_feature_incompat sb) EXT4_FEATURE_INCOMPAT_64BIT ≠ 0).
Definition ext2fs_has_feature_largedir (sb : list Z) : bool :=
  bool_decide (Z.land (s_feature_incompat sb) EXT4_FEATURE_INCOMPAT_LARGEDIR ≠ 0).

Definition ext2fs_set_feature_large_file (sb : list Z) : list Z :=
  set32 100 (Z.lor (s_feature_ro_compat sb) EXT2_FEATURE_RO_COMPAT_LARGE_FILE) sb.
Definition ext2fs_set_feature_largedir (sb : list Z) : list Z :=
  set32 96 (Z.lor (s_feature_incompat sb) EXT4_FEATURE_INCOMPAT_LARGEDIR) sb.

(** ** Sizes *)
Definition EXT2_BLOCK_SIZE (sb : list Z) : Z := s32 (Z.shiftl 1024 (s_log_block_size sb)).
Definition EXT2_CLUSTER_SIZE (sb : list Z) : Z := s32 (Z.shiftl 1024 (s_log_cluster_size sb)).
Definition EXT2_MIN_DESC_SIZE : Z := 32.
Definition EXT2_DESC_SIZE (sb : list Z) : Z :=
  if ext2fs_has_feature_64bit sb then s_desc_size sb else EXT2_MIN_DESC_SIZE.
Definition EXT2_DESC_PER_BLOCK (sb : list Z) : Z := EXT2_BLOCK_SIZE sb / EXT2_DESC_SIZE sb.
Definition EXT2_GROUPS_TO_BLOCKS (sb : list Z) (g : Z) : Z := u64 (s_blocks_per_group sb * g).

(** ** [struct ext4_group_desc]: offsets *)
Definition bg_block_bitmap : Z := 0.
Definition bg_inode_bitmap : Z := 4.
Definition bg_inode_table : Z := 8.
Definition bg_free_blocks_count : Z := 12.
Definition bg_free_inodes_count : Z := 14.
Definition bg_used_dirs_count : Z := 16.
Definition bg_flags : Z := 18.
Definition bg_block_bitmap_csum_lo : Z := 24.
Definition bg_inode_bitmap_csum_lo : Z := 26.
Definition bg_itable_unused : Z := 28.
Definition bg_checksum : Z := 30.
Definition bg_block_bitmap_hi : Z := 32.
Definition bg_inode_bitmap_hi : Z := 36.
Definition bg_inode_table_hi : Z := 40.
Definition bg_free_blocks_count_hi : Z := 44.
Definition bg_free_inodes_count_hi : Z := 46.
Definition bg_used_dirs_count_hi : Z := 48.
Definition bg_itable_unused_hi : Z := 50.
Definition bg_block_bitmap_csum_hi : Z := 56.
Definition bg_inode_bitmap_csum_hi : Z := 58.
Definition EXT4_BG_INODE_BITMAP_CSUM_HI_END : Z := 60.
Definition EXT4_BG_BLOCK_BITMAP_CSUM_HI_LOCATION : Z := 58.

(** ** [struct ext2_inode] *)
Definition i_mode (inode : list Z) : Z := get16 0 inode.
Definition i_size (inode : list Z) : Z := get32 4 inode.
Definition i_blocks (inode : list Z) : Z := get32 28 inode.
Definition i_flags (inode : list Z) : Z := get32 32 inode.
Definition i_file_acl (inode : list Z) : Z := get32 104 inode.
Definition i_size_high (inode : list Z) : Z := get32 108 inode.
Definition i_generation (inode : list Z) : Z := get32 100 inode.
Definition l_i_blocks_hi (inode : list Z) : Z := get16 116 inode.
Definition l_i_file_acl_high (inode : list Z) : Z := get16 118 inode.

Definition i_checksum_lo (inode : list Z) : Z := get16 124 inode.
Definition i_extra_isize (inode : list Z) : Z := get16 128 inode.
Definition i_checksum_hi (inode : list Z) : Z := get16 130 inode.
Definition EXT4_INODE_CSUM_HI_EXTRA_END : Z := 4.

Definition EXT4_HUGE_FILE_FL : Z := 262144.
Definition LINUX_S_IFMT : Z := 61440.
Definition LINUX_S_ISREG (m : Z) : bool := bool_decide (Z.land m LINUX_S_IFMT = 32768).
Definition LINUX_S_ISDIR (m : Z) : bool := bool_decide (Z.land m LINUX_S_IFMT = 16384).

(** ** [struct struct_ext2_filsys]

    [fs_group_desc] is [None] when the descriptors have not been read in;
    [fs_io_read blk] is what reading one block from the device gives. *)
Record ext2_filsys := Filsys {
  fs_magic : errcode;
  fs_super : list Z;
  fs_flags : Z;
  fs_blocksize : Z;
  fs_group_desc_count : Z;
  fs_desc_blocks : Z;
  fs_inode_blocks_per_group : Z;
  fs_cluster_ratio_bits : Z;
  fs_default_bitmap_type : Z;
  fs_csum_seed : Z;
  fs_group_desc : option (list Z);
  fs_io_read : Z → option (list Z);
}.

Definition set_super (sb : list Z) (fs : ext2_filsys) : ext2_filsys :=
  Filsys (fs_magic fs) sb (fs_flags fs) (fs_blocksize fs) (fs_group_desc_count fs) (fs_desc_blocks fs)
    (fs_inode_blocks_per_group fs) (fs_cluster_ratio_bits fs) (fs_default_bitmap_type fs)
    (fs_csum_seed fs) (fs_group_desc fs) (fs_io_read fs).

Definition set_group_desc (gd : list Z) (fs : ext2_filsys) : ext2_filsys :=
  Filsys (fs_magic fs) (fs_super fs) (fs_flags fs) (fs_blocksize fs) (fs_group_desc_count fs)
    (fs_desc_blocks fs) (fs_inode_blocks_per_group fs) (fs_cluster_ratio_bits fs)
    (fs_default_bitmap_type fs) (fs_csum_seed fs) (Some gd) (fs_io_read fs).

Definition EXT2_FLAG_CHANGED : Z := 2.
Definition EXT2_FLAG_DIRTY : Z := 4.

Definition ext2fs_mark_super_dirty (fs : ext2_filsys) : ext2_filsys :=
  Filsys (fs_magic fs) (fs_super fs) (Z.lor (fs_flags fs) (Z.lor EXT2_FLAG_DIRTY EXT2_FLAG_CHANGED))
    (fs_blocksize fs) (fs_group_desc_count fs) (fs_desc_blocks fs)
    (fs_inode_blocks_per_group fs) (fs_cluster_ratio_bits fs) (fs_default_bitmap_type fs)
    (fs_csum_seed fs) (fs_group_desc fs) (fs_io_read fs).

Definition set_csum_seed (seed : Z) (fs : ext2_filsys) : ext2_filsys :=
  Filsys (fs_magic fs) (fs_super fs) (fs_flags fs) (fs_blocksize fs) (fs_group_desc_count fs)
    (fs_desc_blocks fs) (fs_inode_blocks_per_group fs) (fs_cluster_ratio_bits fs)
    (fs_default_bitmap_type fs) seed (fs_group_desc fs) (fs_io_read fs).

Definition ext2fs_has_group_desc_csum (fs : ext2_filsys) : bool :=
  ext2fs_has_feature_metadata_csum (fs_super fs) || ext2fs_has_feature_gdt_csum (fs_super fs).

Definition EXT2FS_CLUSTER_RATIO (fs : ext2_filsys) : Z := s32 (Z.shiftl 1 (fs_cluster_ratio_bits fs)).
Definition EXT2FS_CLUSTER_MASK (fs : ext2_filsys) : Z := EXT2FS_CLUSTER_RATIO fs - 1.
Definition EXT2FS_B2C (fs : ext2_filsys) (blk : Z) : Z := Z.shiftr blk (fs_cluster_ratio_bits fs).
Definition EXT2FS_C2B (fs : ext2_filsys) (cluster : Z) : Z :=
  u64 (Z.shiftl cluster (fs_cluster_ratio_bits fs)).
Definition EXT2FS_NUM_B2C (fs : ext2_filsys) (blks : Z) : Z :=
  Z.shiftr (u64 (blks + EXT2FS_CLUSTER_MASK fs)) (fs_cluster_ratio_bits fs).

(** A super block of the right size. *)
Definition super_ok (sb : list Z) : Prop := is_bytes sb ∧ length sb = SUPERBLOCK_SIZE.

(** The low and the high half of a 64-bit value. *)
Lemma lor_halves lo hi : 0 ≤ lo < 2^32 → 0 ≤ hi → Z.lor lo (Z.shiftl hi 32) = lo + hi * 2^32.
Proof.
  intros Hlo Hhi. rewrite Z.shiftl_mul_pow2 //.
  assert (Z.land lo (hi * 2^32) = 0) as Hl.
  { apply Z.bits_inj'. intros i Hi. rewrite Z.land_spec Z.bits_0. destruct (decide (i < 32)).
    - rewrite Z.mul_pow2_bits_low //. by rewrite andb_false_r.
    - rewrite -(Z.mod_small lo (2^32)) // Z.mod_pow2_bits_high //. lia. }
  by rewrite Z.add_nocarry_lxor // Z.lxor_lor.
Qed.

Lemma join_halves v : 0 ≤ v < 2^64 → Z.lor (v mod 2^32) (Z.shiftl (Z.shiftr v 32 mod 2^32) 32) = v.
Proof.
  intros Hv. pose proof (Z.mod_pos_bound v (2^32) eq_refl) as ?.
  rewrite Z.shiftr_div_pow2 //.
  pose proof (Z.div_mod v (2^32)). assert (0 ≤ v / 2^32 < 2^32) as Hq by lia.
  rewrite (Z.mod_small (v / 2^32)) // lor_halves //; lia.
Qed.

Lemma get32_range off sb : is_bytes sb → 0 ≤ get32 off sb < 2^32.
Proof. apply get_le_range. Qed.

Lemma get16_range off sb : is_bytes sb → 0 ≤ get16 off sb < 2^16.
Proof. apply get_le_range. Qed.
