(* ===== verification/Crc.v ===== *)
(** * Crc: the checksum functions (crc16.c, crc32c.c, gen_crc32ctable.c)

    [ext2fs_crc16] with its table, the tables that gen_crc32ctable.c computes
    when the library is built, and [ext2fs_crc32c_le] and [ext2fs_crc32_be]
    with the slicing-by-8 loop [crc32_body] that crc32c_defs.h selects
    ([CRC_LE_BITS] and [CRC_BE_BITS] are 64).  The bitwise variants
    ([CRC_LE_BITS] and [CRC_BE_BITS] 1) are the references to which the fast
    ones are proved equal.  Buffers are lists of bytes; the address of a
    buffer only decides how many bytes the loop takes to align it. *)
From S2P Require Import Prelude.
From S2P Require Import Bytes.
#[local] Open Scope Z_scope.

(** ** crc16.c *)
Definition crc16_table : list Z :=
  [0; 49345; 49537; 320; 49921; 960; 640; 49729; 50689; 1728; 1920; 51009;
   1280; 50625; 50305; 1088; 52225; 3264; 3456; 52545; 3840; 53185; 52865; 3648;
   2560; 51905; 52097; 2880; 51457; 2496; 2176; 51265; 55297; 6336; 6528; 55617;
   6912; 56257; 55937; 6720; 7680; 57025; 57217; 8000; 56577; 7616; 7296; 56385;
   5120; 54465; 54657; 5440; 55041; 6080; 5760; 54849; 53761; 4800; 4992; 54081;
   4352; 53697; 53377; 4160; 61441; 12480; 12672; 61761; 13056; 62401; 62081; 12864;
   13824; 63169; 63361; 14144; 62721; 13760; 13440; 62529; 15360; 64705; 64897; 15680;
   65281; 16320; 16000; 65089; 64001; 15040; 15232; 64321; 14592; 63937; 63617; 14400;
   10240; 59585; 59777; 10560; 60161; 11200; 10880; 59969; 60929; 11968; 12160; 61249;
   11520; 60865; 60545; 11328; 58369; 9408; 9600; 58689; 9984; 59329; 59009; 9792;
   8704; 58049; 58241; 9024; 57601; 8640; 8320; 57409; 40961; 24768; 24960; 41281;
   25344; 41921; 41601; 25152; 26112; 42689; 42881; 26432; 42241; 26048; 25728; 42049;
   27648; 44225; 44417; 27968; 44801; 28608; 28288; 44609; 43521; 27328; 27520; 43841;
   26880; 43457; 43137; 26688; 30720; 47297; 47489; 31040; 47873; 31680; 31360; 47681;
   48641; 32448; 32640; 48961; 32000; 48577; 48257; 31808; 46081; 29888; 30080; 46401;
   30464; 47041; 46721; 30272; 29184; 45761; 45953; 29504; 45313; 29120; 28800; 45121;
   20480; 37057; 37249; 20800; 37633; 21440; 21120; 37441; 38401; 22208; 22400; 38721;
   21760; 38337; 38017; 21568; 39937; 23744; 23936; 40257; 24320; 40897; 40577; 24128;
   23040; 39617; 39809; 23360; 39169; 22976; 22656; 38977; 34817; 18624; 18816; 35137;
   19200; 35777; 35457; 19008; 19968; 36545; 36737; 20288; 36097; 19904; 19584; 35905;
   17408; 33985; 34177; 17728; 34561; 18368; 18048; 34369; 33281; 17088; 17280; 33601;
   16640; 33217; 32897; 16448].

Definition crc16_step (crc b : Z) : Z :=
  Z.land (Z.lxor (Z.land (Z.shiftr crc 8) 255)
            (nth (Z.to_nat (Z.land (Z.lxor crc b) 255)) crc16_table 0)) 65535.

Definition ext2fs_crc16 (crc : Z) (buffer : list Z) : Z := fold_left crc16_step buffer crc.

(** ** crc32c_defs.h *)
Definition CRCPOLY_BE : Z := 0x04c11db7.
Definition CRC32C_POLY_LE : Z := 0x82F63B78.

Definition ___constant_swab32 (x : Z) : Z :=
  Z.lor (Z.lor (Z.lor (u32 (Z.shiftl (Z.land x 0xff) 24)) (u32 (Z.shiftl (Z.land x 0xff00) 8)))
           (Z.shiftr (Z.land x 0xff0000) 8)) (Z.shiftr (Z.land x 0xff000000) 24).

(** ** gen_crc32ctable.c *)
Definition LE_TABLE_ROWS : nat := 8.
Definition LE_TABLE_SIZE : Z := 256.
Definition BE_TABLE_ROWS : nat := 8.
Definition BE_TABLE_SIZE : Z := 256.

Definition at_ (t : list Z) (i : Z) : Z := nth (Z.to_nat i) t 0.
Definition put (t : list Z) (i v : Z) : list Z := <[Z.to_nat i := v]> t.
Definition row (tab : list (list Z)) (j : nat) : list Z := nth j tab [].

(** [for (j = 0; j < LE_TABLE_SIZE; j += 2 * i)], [for (i = ...; i; i >>= 1)];
    the fuel is the number of rounds, at most the size of the table. *)
Fixpoint le_spread (fuel : nat) (crc i j : Z) (t : list Z) : list Z :=
  match fuel with
  | O => t
  | S fuel =>
      if bool_decide (j < LE_TABLE_SIZE)
      then le_spread fuel crc i (j + 2 * i) (put t (i + j) (Z.lxor crc (at_ t j)))
      else t
  end.

Fixpoint le_powers (fuel : nat) (crc i : Z) (t : list Z) : list Z :=
  match fuel with
  | O => t
  | S fuel =>
      if bool_decide (i = 0) then t else
      let crc := Z.lxor (Z.shiftr crc 1)
                   (if bool_decide (Z.land crc 1 ≠ 0) then CRC32C_POLY_LE else 0) in
      le_powers fuel crc (Z.shiftr i 1) (le_spread 256 crc i 0 t)
  end.

(** The other rows, entry by entry, with [next crc] the next row's. *)
Definition fill_rows (rows : nat) (next : Z → Z) (t : list Z) : list (list Z) :=
  fold_left (λ tab i,
    (fold_left (λ st j,
       let crc := next st.2 in
       (<[j := put (row st.1 j) (Z.of_nat i) crc]> st.1, crc))
       (seq 1 (rows - 1)) (tab, at_ (row tab 0) (Z.of_nat i))).1)
    (seq 0 256) (t :: replicate (rows - 1) (replicate 256 0)).

Definition crc32cinit_le : list (list Z) :=
  let t := le_powers 256 1 (Z.shiftr LE_TABLE_SIZE 1) (replicate 256 0) in
  fill_rows LE_TABLE_ROWS (λ crc, Z.lxor (at_ t (Z.land crc 255)) (Z.shiftr crc 8)) t.

Fixpoint be_spread (fuel : nat) (crc i j : Z) (t : list Z) : list Z :=
  match fuel with
  | O => t
  | S fuel =>
      if bool_decide (j < i)
      then be_spread fuel crc i (j + 1) (put t (i + j) (Z.lxor crc (at_ t j)))
      else t
  end.

Fixpoint be_powers (fuel : nat) (crc i : Z) (t : list Z) : list Z :=
  match fuel with
  | O => t
  | S fuel =>
      if bool_decide (BE_TABLE_SIZE ≤ i) then t else
      let crc := Z.lxor (u32 (Z.shiftl crc 1))
                   (if bool_decide (Z.land crc 0x80000000 ≠ 0) then CRCPOLY_BE else 0) in
      be_powers fuel crc (Z.shiftl i 1) (be_spread 256 crc i 0 t)
  end.

Definition crc32init_be : list (list Z) :=
  let t := be_powers 256 0x80000000 1 (replicate 256 0) in
  fill_rows BE_TABLE_ROWS
    (λ crc, Z.lxor (at_ t (Z.land (Z.shiftr crc 24) 255)) (u32 (Z.shiftl crc 8))) t.

(** The tables of the generated crc32c_table.h, on a little-endian machine:
    [tole] is the identity, [tobe] swaps the bytes. *)
Definition crc32ctable_le : list (list Z) := Eval vm_compute in crc32cinit_le.
Definition crc32table_be : list (list Z) :=
  Eval vm_compute in map (map ___constant_swab32) crc32init_be.

(** ** crc32c.c: slicing by 8 *)
Definition DO_CRC (tab : list (list Z)) (crc x : Z) : Z :=
  Z.lxor (at_ (row tab 0) (Z.land (Z.lxor crc x) 255)) (Z.shiftr crc 8).

Definition DO_CRC4 (tab : list (list Z)) (q : Z) : Z :=
  Z.lxor (Z.lxor (Z.lxor (at_ (row tab 3) (Z.land q 255))
                         (at_ (row tab 2) (Z.land (Z.shiftr q 8) 255)))
                 (at_ (row tab 1) (Z.land (Z.shiftr q 16) 255)))
         (at_ (row tab 0) (Z.land (Z.shiftr q 24) 255)).

Definition DO_CRC8 (tab : list (list Z)) (q : Z) : Z :=
  Z.lxor (Z.lxor (Z.lxor (at_ (row tab 7) (Z.land q 255))
                         (at_ (row tab 6) (Z.land (Z.shiftr q 8) 255)))
                 (at_ (row tab 5) (Z.land (Z.shiftr q 16) 255)))
         (at_ (row tab 4) (Z.land (Z.shiftr q 24) 255)).

(** Align it: bytes until the address is a multiple of 4 or none is left. *)
Fixpoint crc_align (tab : list (list Z)) (buf crc : Z) (bs : list Z) : Z * list Z :=
  match bs with
  | [] => (crc, [])
  | b :: bs' =>
      if bool_decide (Z.land buf 3 ≠ 0) then crc_align tab (buf + 1) (DO_CRC tab crc b) bs'
      else (crc, bs)
  end.

(** Two 32-bit words per round. *)
Fixpoint crc_words (tab : list (list Z)) (len : nat) (crc : Z) (bs : list Z) : Z * list Z :=
  match len with
  | O => (crc, bs)
  | S len =>
      let q := Z.lxor crc (get32 0 bs) in
      let crc := DO_CRC8 tab q in
      let q := get32 4 bs in
      let crc := Z.lxor crc (DO_CRC4 tab q) in
      crc_words tab len crc (drop 8 bs)
  end.

Definition crc32_body (tab : list (list Z)) (crc buf : Z) (bs : list Z) : Z :=
  let '(crc, bs) := crc_align tab buf crc bs in
  let len := Z.of_nat (length bs) in
  let rem_len := Z.land len 7 in
  let '(crc, bs) := crc_words tab (Z.to_nat (Z.shiftr len 3)) crc bs in
  fold_left (DO_CRC tab) (take (Z.to_nat rem_len) bs) crc.

(** [p] is the buffer at address [buf]. *)
Definition ext2fs_crc32c_le (crc buf : Z) (p : list Z) : Z :=
  crc32_body crc32ctable_le crc buf p.

Definition ext2fs_crc32_be (crc buf : Z) (p : list Z) : Z :=
  ___constant_swab32 (crc32_body crc32table_be (___constant_swab32 crc) buf p).

(** ** The bitwise variants *)
Definition le_bit (polynomial crc : Z) : Z :=
  Z.lxor (Z.shiftr crc 1) (if bool_decide (Z.land crc 1 ≠ 0) then polynomial else 0).

Definition be_bit (polynomial crc : Z) : Z :=
  Z.lxor (u32 (Z.shiftl crc 1)) (if bool_decide (Z.land crc 0x80000000 ≠ 0) then polynomial else 0).

Definition crc32_le_bitwise (polynomial crc : Z) (p : list Z) : Z :=
  fold_left (λ crc b, Nat.iter 8 (le_bit polynomial) (Z.lxor crc b)) p crc.

Definition crc32_be_bitwise (polynomial crc : Z) (p : list Z) : Z :=
  fold_left (λ crc b, Nat.iter 8 (be_bit polynomial) (Z.lxor crc (Z.shiftl b 24))) p crc.

(** ** Bits *)

(** A number without bits from [n] on. *)
Lemma range_of_bits n x : 0 ≤ n → (∀ i, n ≤ i → Z.testbit x i = false) → 0 ≤ x < 2^n.
Proof.
  intros Hn Hx. assert (x = x mod 2^n) as ->.
  { apply Z.bits_inj'. intros i Hi. destruct (decide (i < n)).
    - rewrite Z.mod_pow2_bits_low //.
    - rewrite Z.mod_pow2_bits_high; [|lia]. apply Hx. lia. }
  apply Z.mod_pos_bound. lia.
Qed.

Lemma high_bit_false n x i : 0 ≤ n ≤ i → 0 ≤ x < 2^n → Z.testbit x i = false.
Proof. intros Hi Hx. rewrite -(Z.mod_small x (2^n)) // Z.mod_pow2_bits_high //. Qed.

Lemma lxor_range n a b : 0 ≤ n → 0 ≤ a < 2^n → 0 ≤ b < 2^n → 0 ≤ Z.lxor a b < 2^n.
Proof.
  intros Hn Ha Hb. apply range_of_bits; [done|]. intros i Hi.
  by rewrite Z.lxor_spec !(high_bit_false n).
Qed.

Lemma lor_range n a b : 0 ≤ n → 0 ≤ a < 2^n → 0 ≤ b < 2^n → 0 ≤ Z.lor a b < 2^n.
Proof.
  intros Hn Ha Hb. apply range_of_bits; [done|]. intros i Hi.
  by rewrite Z.lor_spec !(high_bit_false n).
Qed.

Lemma land_range n a b : 0 ≤ n → 0 ≤ a < 2^n → 0 ≤ Z.land a b < 2^n.
Proof.
  intros Hn Ha. apply range_of_bits; [done|]. intros i Hi.
  by rewrite Z.land_spec (high_bit_false n).
Qed.

Lemma land_255_range x : 0 ≤ Z.land x 255 < 2^8.
Proof. change 255 with (Z.ones 8). rewrite Z.land_ones //. by apply Z.mod_pos_bound. Qed.

Lemma shiftr_range_sub x n k : 0 ≤ k → 0 ≤ n → 0 ≤ x < 2^(n + k) → 0 ≤ Z.shiftr x k < 2^n.
Proof.
  intros Hk Hn Hx. rewrite Z.shiftr_div_pow2 //. rewrite Z.pow_add_r // in Hx.
  split; [apply Z.div_pos; lia|]. apply Z.div_lt_upper_bound; lia.
Qed.

(** The low byte and the rest. *)
Lemma split_byte x : Z.lxor (Z.land x 255) (Z.shiftl (Z.shiftr x 8) 8) = x.
Proof.
  apply Z.bits_inj'. intros i Hi. change 255 with (Z.ones 8).
  rewrite Z.lxor_spec Z.land_spec Z.shiftl_spec //. destruct (decide (i < 8)).
  - rewrite Z.ones_spec_low; [|lia]. rewrite (Z.testbit_neg_r _ (i - 8)); [|lia].
    by rewrite andb_true_r xorb_false_r.
  - rewrite Z.ones_spec_high; [|lia]. rewrite Z.shiftr_spec; [|lia].
    replace (i - 8 + 8) with i by lia. by rewrite andb_false_r.
Qed.

Lemma add_byte b d : 0 ≤ b < 256 → 0 ≤ d → b + 256 * d = Z.lxor b (Z.shiftl d 8).
Proof.
  intros Hb Hd. rewrite -(split_byte (b + 256 * d)). f_equal.
  - change 255 with (Z.ones 8). rewrite Z.land_ones //. change (2^8) with 256.
    rewrite (Z.mul_comm 256) Z.mod_add // Z.mod_small //.
  - f_equal. rewrite Z.shiftr_div_pow2 //. change (2^8) with 256.
    rewrite (Z.mul_comm 256) Z.div_add // Z.div_small //.
Qed.

Lemma shiftr_byte_lxor x b : 0 ≤ b < 256 → Z.shiftr (Z.lxor x b) 8 = Z.shiftr x 8.
Proof.
  intros Hb. rewrite Z.shiftr_lxor (Z.shiftr_div_pow2 b) //. change (2^8) with 256.
  rewrite (Z.div_small b) // Z.lxor_0_r //.
Qed.

(** ** Slicing

    [G] is the effect of one byte on the checksum: [G (crc ^ b)]. *)
Section slicing.
Variable G : Z → Z.
Variable tab : list (list Z).
Abbreviation w32 x := (0 ≤ x < 2^32).
Hypothesis G_range : ∀ a, w32 a → w32 (G a).
Hypothesis G_lxor : ∀ a b, w32 a → w32 b → G (Z.lxor a b) = Z.lxor (G a) (G b).
Hypothesis G_shift : ∀ y, 0 ≤ y < 2^24 → G (Z.shiftl y 8) = y.
Hypothesis tab_ok : ∀ j i, (j < 8)%nat → 0 ≤ i < 256 → at_ (row tab j) i = Nat.iter (S j) G i.

Definition bytewise (crc : Z) (bs : list Z) : Z := fold_left (λ crc b, G (Z.lxor crc b)) bs crc.

Lemma iter_range n a : w32 a → w32 (Nat.iter n G a).
Proof using G_range. intros Ha. induction n as [|n IH]; simpl; auto. Qed.

Lemma iter_lxor n a b : w32 a → w32 b →
  Nat.iter n G (Z.lxor a b) = Z.lxor (Nat.iter n G a) (Nat.iter n G b).
Proof using G_range G_lxor.
  intros Ha Hb. induction n as [|n IH]; simpl; [done|]. rewrite IH. apply G_lxor; by apply iter_range.
Qed.

Lemma iter_zero n : Nat.iter n G 0 = 0.
Proof using G_shift. induction n as [|n IH]; simpl; [done|]. rewrite IH. by apply (G_shift 0). Qed.

Lemma iter_split n q : w32 q →
  Nat.iter (S n) G q = Z.lxor (Nat.iter (S n) G (Z.land q 255)) (Nat.iter n G (Z.shiftr q 8)).
Proof using G_range G_lxor G_shift.
  intros Hq. pose proof (land_255_range q). pose proof (shiftr_range_sub q 24 8 ltac:(lia) ltac:(lia) Hq).
  rewrite -{1}(split_byte q) iter_lxor; [|simpl; lia| ].
  - f_equal. rewrite Nat.iter_succ_r G_shift //.
  - rewrite Z.shiftl_mul_pow2 //. simpl in *. lia.
Qed.

(** Four table lookups do four bytes. *)
Lemma four_lookups k q : (k ≤ 4)%nat → w32 q →
  Nat.iter (k + 4) G q =
  Z.lxor (Z.lxor (Z.lxor (at_ (row tab (k + 3)) (Z.land q 255))
                         (at_ (row tab (k + 2)) (Z.land (Z.shiftr q 8) 255)))
                 (at_ (row tab (k + 1)) (Z.land (Z.shiftr q 16) 255)))
         (at_ (row tab k) (Z.land (Z.shiftr q 24) 255)).
Proof using G_range G_lxor G_shift tab_ok.
  intros Hk Hq. rewrite !tab_ok; try lia; try apply (land_255_range _).
  assert (Hs : ∀ m, 0 ≤ m → w32 (Z.shiftr q m)).
  { intros m Hm. rewrite Z.shiftr_div_pow2 //. assert (0 < 2^m) by (apply Z.pow_pos_nonneg; lia).
    split; [apply Z.div_pos; lia|]. eapply Z.le_lt_trans; [|apply Hq]. apply Z.div_le_upper_bound; nia. }
  replace (k + 4)%nat with (S (S (S (S k)))) by lia.
  rewrite (iter_split _ q) // (iter_split _ (Z.shiftr q 8)); [|by apply Hs].
  rewrite Z.shiftr_shiftr // (iter_split _ (Z.shiftr q (8 + 8))); [|by apply Hs].
  rewrite Z.shiftr_shiftr // (iter_split _ (Z.shiftr q (8 + 8 + 8))); [|by apply Hs].
  rewrite Z.shiftr_shiftr //.
  assert (Z.shiftr q (8 + 8 + 8 + 8) = 0) as ->.
  { rewrite Z.shiftr_div_pow2 //. apply Z.div_small. exact Hq. }
  rewrite iter_zero Z.lxor_0_r.
  replace (S (k + 3)) with (S (S (S (S k)))) by lia. replace (S (k + 2)) with (S (S (S k))) by lia.
  replace (S (k + 1)) with (S (S k)) by lia. rewrite !Z.lxor_assoc //.
Qed.

Lemma do_crc_spec crc b : w32 crc → 0 ≤ b < 256 → DO_CRC tab crc b = G (Z.lxor crc b).
Proof using G_range G_lxor G_shift tab_ok.
  intros Hc Hb. unfold DO_CRC. rewrite tab_ok; [|lia|apply land_255_range].
  assert (w32 (Z.lxor crc b)) as Hq by (apply lxor_range; lia).
  rewrite -(shiftr_byte_lxor crc b) //. pose proof (iter_split 0 _ Hq) as Hs. simpl in Hs. by rewrite Hs.
Qed.

Lemma bytewise_range crc bs : w32 crc → is_bytes bs → w32 (bytewise crc bs).
Proof using G_range.
  intros Hc Hbs. revert crc Hc. induction Hbs as [|b bs Hb _ IH]; intros crc Hc; [done|].
  apply IH, G_range, lxor_range; lia.
Qed.

Lemma bytewise_app crc bs1 bs2 : bytewise crc (bs1 ++ bs2) = bytewise (bytewise crc bs1) bs2.
Proof. apply fold_left_app. Qed.

Lemma le_decode_small bs : is_bytes bs → (length bs ≤ 3)%nat → 0 ≤ le_decode bs < 2^24.
Proof.
  intros Hb Hl. pose proof (le_decode_range bs Hb) as [? Hlt]. split; [done|].
  eapply Z.lt_le_trans; [exact Hlt|]. change (2^24) with (256^3). apply Z.pow_le_mono_r; lia.
Qed.

(** Up to four bytes at once. *)
Lemma bytewise_word crc bs : w32 crc → is_bytes bs → (length bs ≤ 4)%nat →
  bytewise crc bs = Nat.iter (length bs) G (Z.lxor crc (le_decode bs)).
Proof using G_range G_lxor G_shift.
  intros Hc Hbs. revert crc Hc. induction Hbs as [|b bs Hb Hbs IH]; intros crc Hc Hl; cbn [length le_decode] in *.
  - simpl. by rewrite Z.lxor_0_r.
  - pose proof (le_decode_small bs Hbs ltac:(lia)) as Hd.
    assert (w32 (Z.lxor crc b)) as Hq by (apply lxor_range; lia).
    change (bytewise crc (b :: bs)) with (bytewise (G (Z.lxor crc b)) bs).
    rewrite IH; [|by apply G_range|lia]. rewrite Nat.iter_succ_r.
    rewrite add_byte //; [|lia]. rewrite -Z.lxor_assoc (G_lxor (Z.lxor crc b)) //.
    + by rewrite G_shift.
    + rewrite Z.shiftl_mul_pow2 //. lia.
Qed.

Lemma crc_align_spec buf crc bs : w32 crc → is_bytes bs →
  let r := crc_align tab buf crc bs in
  bytewise crc bs = bytewise r.1 r.2 ∧ w32 r.1 ∧ is_bytes r.2.
Proof using G_range G_lxor G_shift tab_ok.
  intros Hc Hbs. revert buf crc Hc. induction Hbs as [|b bs Hb Hbs IH]; intros buf crc Hc; simpl.
  { split_and!; [done|lia|lia|constructor]. }
  assert (w32 (Z.lxor crc b)) as Hq by (apply lxor_range; lia).
  case_bool_decide; simpl; [|split_and!; [done|lia|lia|by constructor]].
  rewrite do_crc_spec //. apply IH. by apply G_range.
Qed.

Lemma crc_words_spec len crc bs : w32 crc → is_bytes bs → (8 * len ≤ length bs)%nat →
  let r := crc_words tab len crc bs in
  bytewise crc bs = bytewise r.1 r.2 ∧ w32 r.1 ∧ is_bytes r.2 ∧ r.2 = drop (8 * len) bs.
Proof using G_range G_lxor G_shift tab_ok.
  revert crc bs. induction len as [|len IH]; intros crc bs Hc Hbs Hl; cbn [crc_words].
  { simpl. split_and!; [done|lia|lia|done|done]. }
  set (w1 := take 4 bs). set (w2 := take 4 (drop 4 bs)).
  assert (Hw1 : is_bytes w1) by (by apply Forall_take). assert (Hw2 : is_bytes w2) by (by apply Forall_take, Forall_drop).
  assert (Hl1 : length w1 = 4%nat) by (unfold w1; rewrite length_take; lia).
  assert (Hl2 : length w2 = 4%nat) by (unfold w2; rewrite length_take length_drop; lia).
  assert (Hsplit : bs = w1 ++ w2 ++ drop 8 bs).
  { unfold w1, w2. change 8%nat with (4 + 4)%nat. by rewrite -drop_drop !take_drop. }
  change (get32 0 bs) with (le_decode w1). change (get32 4 bs) with (le_decode w2).
  pose proof (le_decode_range w1 Hw1) as Hr1. rewrite Hl1 in Hr1.
  pose proof (le_decode_range w2 Hw2) as Hr2. rewrite Hl2 in Hr2.
  assert (w32 (Z.lxor crc (le_decode w1))) as Hq by (apply lxor_range; lia).
  assert (Heq : Z.lxor (DO_CRC8 tab (Z.lxor crc (le_decode w1))) (DO_CRC4 tab (le_decode w2)) =
    bytewise (bytewise crc w1) w2).
  { rewrite (bytewise_word _ w2) //; [|by apply bytewise_range|lia].
    rewrite (bytewise_word _ w1) //; [|lia]. rewrite Hl1 Hl2 iter_lxor //; [|by apply iter_range].
    rewrite -Nat.iter_add. f_equal.
    - unfold DO_CRC8. by rewrite (four_lookups 4) //.
    - unfold DO_CRC4. rewrite (four_lookups 0) //; lia. }
  rewrite Heq. destruct (IH (bytewise (bytewise crc w1) w2) (drop 8 bs)) as (H1 & H2 & H3 & H4).
  { by apply bytewise_range; [apply bytewise_range|]. } { by apply Forall_drop. } { rewrite length_drop. lia. }
  split_and!; try done; try lia.
  - rewrite {1}Hsplit !bytewise_app. exact H1.
  - rewrite H4 drop_drop. f_equal. lia.
Qed.

(** Slicing by 8 is the byte-by-byte checksum, wherever the buffer lies. *)
Lemma crc32_body_bytewise crc buf bs : w32 crc → is_bytes bs →
  crc32_body tab crc buf bs = bytewise crc bs.
Proof using G_range G_lxor G_shift tab_ok.
  intros Hc Hbs. unfold crc32_body.
  destruct (crc_align_spec buf crc bs Hc Hbs) as (H1 & H2 & H3).
  destruct (crc_align tab buf crc bs) as [crc1 bs1]. cbn [fst snd] in *.
  pose proof (Z.div_mod (Z.of_nat (length bs1)) 8). pose proof (Z.mod_pos_bound (Z.of_nat (length bs1)) 8).
  rewrite Z.shiftr_div_pow2 // (Z.land_ones _ 3) //. change (2^3) with 8 in *.
  destruct (crc_words_spec (Z.to_nat (Z.of_nat (length bs1) / 8)) crc1 bs1) as (H4 & H5 & H6 & H7); [done..|lia|].
  destruct (crc_words tab _ crc1 bs1) as [crc2 bs2]. cbn [fst snd] in *.
  rewrite H1 H4 take_ge; [|rewrite H7 length_drop; lia].
  clear -H5 H6 G_range G_lxor G_shift tab_ok. revert crc2 H5.
  induction H6 as [|b bs Hb Hbs IH]; intros crc Hc; simpl; [done|].
  rewrite do_crc_spec //. apply IH, G_range, lxor_range; lia.
Qed.
End slicing.

(** ** Shift registers *)

Lemma odd_lxor a b : Z.odd (Z.lxor a b) = xorb (Z.odd a) (Z.odd b).
Proof. by rewrite -!Z.bit0_odd Z.lxor_spec. Qed.

Lemma land_1_odd x : bool_decide (Z.land x 1 ≠ 0) = Z.odd x.
Proof. change 1 with (Z.ones 1). rewrite Z.land_ones // Zmod_odd. by destruct (Z.odd x). Qed.

Lemma le_bit_odd P x : le_bit P x = Z.lxor (Z.shiftr x 1) (if Z.odd x then P else 0).
Proof. unfold le_bit. by rewrite land_1_odd. Qed.

Lemma le_bit_lxor P a b : le_bit P (Z.lxor a b) = Z.lxor (le_bit P a) (le_bit P b).
Proof.
  rewrite !le_bit_odd odd_lxor Z.shiftr_lxor.
  apply Z.bits_inj'. intros i Hi. rewrite !Z.lxor_spec.
  destruct (Z.odd a), (Z.odd b); simpl; rewrite ?Z.bits_0;
    destruct (Z.testbit P i), (Z.testbit (Z.shiftr a 1) i), (Z.testbit (Z.shiftr b 1) i); done.
Qed.

Lemma le_bit_range n P x : 1 ≤ n → 0 ≤ P < 2^n → 0 ≤ x < 2^n → 0 ≤ le_bit P x < 2^n.
Proof.
  intros Hn HP Hx. rewrite le_bit_odd. apply lxor_range; [lia| |destruct (Z.odd x); lia].
  rewrite Z.shiftr_div_pow2 //. change (2^1) with 2. split; [apply Z.div_pos; lia|].
  apply Z.div_lt_upper_bound; lia.
Qed.

Lemma le_bits_lxor P k a b :
  Nat.iter k (le_bit P) (Z.lxor a b) = Z.lxor (Nat.iter k (le_bit P) a) (Nat.iter k (le_bit P) b).
Proof. induction k as [|k IH]; simpl; [done|]. by rewrite IH le_bit_lxor. Qed.

Lemma le_bits_range n P k x :
  1 ≤ n → 0 ≤ P < 2^n → 0 ≤ x < 2^n → 0 ≤ Nat.iter k (le_bit P) x < 2^n.
Proof. intros. induction k as [|k IH]; simpl; [done|]. by apply le_bit_range. Qed.

(** Zeros are shifted out. *)
Lemma le_bits_shift P k y : Nat.iter k (le_bit P) (Z.shiftl y (Z.of_nat k)) = y.
Proof.
  revert y. induction k as [|k IH]; intros y; [by rewrite Z.shiftl_0_r|].
  rewrite Nat.iter_succ_r -{2}(IH y). f_equal. rewrite le_bit_odd.
  rewrite Nat2Z.inj_succ -Z.add_1_r. assert (Z.shiftl y (Z.of_nat k + 1) = 2 * Z.shiftl y (Z.of_nat k)) as ->.
  { rewrite !Z.shiftl_mul_pow2; [|lia..]. rewrite Z.pow_add_r; lia. }
  rewrite Z.odd_mul /= Z.lxor_0_r Z.shiftr_div_pow2 // Z.mul_comm Z.div_mul //.
Qed.

(** Nothing is lost: the top bit of the polynomial tells which bit was shifted
    out. *)
Lemma le_bit_zero n P x : 1 ≤ n → 2^(n-1) ≤ P → 0 ≤ x < 2^n → le_bit P x = 0 → x = 0.
Proof.
  intros Hn HP Hx. rewrite le_bit_odd. rewrite Z.shiftr_div_pow2 // Z.lxor_eq_0_iff.
  change (2^1) with 2. replace n with (n - 1 + 1) in Hx by lia. rewrite Z.pow_add_r in Hx; [|lia..].
  change (2^1) with 2 in Hx. intros Heq.
  pose proof (Z.div_mod x 2). pose proof (Z.mod_pos_bound x 2). pose proof (Zmod_odd x).
  destruct (Z.odd x); [|lia]. assert (x / 2 < 2^(n-1)) by (apply Z.div_lt_upper_bound; lia). lia.
Qed.

Lemma le_bits_inj n P k a b :
  1 ≤ n → 2^(n-1) ≤ P < 2^n → 0 ≤ a < 2^n → 0 ≤ b < 2^n →
  Nat.iter k (le_bit P) a = Nat.iter k (le_bit P) b → a = b.
Proof.
  intros Hn HP Ha Hb Heq.
  assert (0 < 2^(n-1)) by (apply Z.pow_pos_nonneg; lia).
  assert (Nat.iter k (le_bit P) (Z.lxor a b) = 0) as H0 by (rewrite le_bits_lxor Heq; apply Z.lxor_nilpotent).
  pose proof (lxor_range n a b ltac:(lia) Ha Hb) as Hr. apply Z.lxor_eq_0_iff.
  induction k as [|k IH]; [done|]. apply IH.
  - apply Z.lxor_eq_0_iff. rewrite -le_bits_lxor. apply (le_bit_zero n P); try lia; [|done].
    apply le_bits_range; lia.
  - apply (le_bit_zero n P); try lia; [|done]. apply le_bits_range; lia.
Qed.

(** ** crc32c_le *)
Definition le_byte (x : Z) : Z := Nat.iter 8 (le_bit CRC32C_POLY_LE) x.

(** The entries of a table, checked one by one. *)
Definition table_is (tab : list (list Z)) (G : Z → Z) (rows : nat) : bool :=
  forallb (λ j, forallb (λ i, bool_decide (at_ (row tab j) i = Nat.iter (S j) G i)) (seqZ 0 256)) (seq 0 rows).

Lemma table_is_ok tab G rows j i :
  table_is tab G rows = true → (j < rows)%nat → 0 ≤ i < 256 → at_ (row tab j) i = Nat.iter (S j) G i.
Proof.
  unfold table_is. rewrite forallb_forall. intros H Hj Hi.
  specialize (H j ltac:(apply in_seq; lia)). rewrite forallb_forall in H.
  specialize (H i). rewrite bool_decide_eq_true in H. apply H.
  apply list_elem_of_In, elem_of_seqZ. lia.
Qed.

Lemma crc32ctable_le_ok : table_is crc32ctable_le le_byte 8 = true.
Proof. vm_compute. reflexivity. Qed.

Lemma iter_iter {A} (f : A → A) n m x : Nat.iter n (λ y, Nat.iter m f y) x = Nat.iter (n * m) f x.
Proof. induction n as [|n IH]; simpl; [done|]. by rewrite IH Nat.iter_add. Qed.

Lemma crc32c_bytewise crc buf p : 0 ≤ crc < 2^32 → is_bytes p →
  ext2fs_crc32c_le crc buf p = crc32_le_bitwise CRC32C_POLY_LE crc p.
Proof.
  intros Hc Hp. unfold ext2fs_crc32c_le. rewrite (crc32_body_bytewise le_byte); try done.
  - intros a Ha. apply le_bits_range; done.
  - intros a b _ _. apply le_bits_lxor.
  - intros y _. apply (le_bits_shift _ 8).
  - intros j i Hj Hi. apply (table_is_ok _ _ 8); [apply crc32ctable_le_ok|done..].
Qed.

(** ** crc32_be *)

(** The bit of [x] that [___constant_swab32] moves to [i]. *)
Lemma swab32_bit x i : 0 ≤ i < 32 →
  Z.testbit (___constant_swab32 x) i = Z.testbit x (24 - 8 * (i / 8) + i mod 8).
Proof.
  intros Hi. unfold ___constant_swab32, u32.
  rewrite !Z.lor_spec -!Z.land_ones //.
  rewrite (Z.land_spec _ (Z.ones 32)) (Z.land_spec (Z.shiftl (Z.land x 65280) 8) (Z.ones 32)).
  rewrite (Z.shiftl_spec (Z.land x 255)); [|lia]. rewrite (Z.shiftl_spec (Z.land x 65280)); [|lia].
  rewrite (Z.shiftr_spec (Z.land x 16711680)); [|lia]. rewrite (Z.shiftr_spec (Z.land x 4278190080)); [|lia].
  rewrite !Z.land_spec. generalize (Z.testbit x). intros f.
  assert (∃ n : nat, (n < 32)%nat ∧ i = Z.of_nat n) as (n & Hn & ->) by (exists (Z.to_nat i); lia).
  clear Hi. do 32 (destruct n as [|n]; [vm_compute; repeat (match goal with |- context [f ?k] => destruct (f k) end); done|]). lia.
Qed.

Lemma swab32_range x : 0 ≤ x < 2^32 → 0 ≤ ___constant_swab32 x < 2^32.
Proof.
  intros Hx. unfold ___constant_swab32, u32.
  assert (Hs : ∀ k m, 0 ≤ k → 0 ≤ m → 0 ≤ Z.shiftr (Z.land x m) k < 2^32).
  { intros k m Hk Hm. pose proof (land_range 32 x m ltac:(lia) Hx).
    rewrite Z.shiftr_div_pow2 //. assert (0 < 2^k) by (apply Z.pow_pos_nonneg; lia).
    split; [apply Z.div_pos; lia|]. apply Z.div_lt_upper_bound; nia. }
  repeat apply lor_range; try done; try (by apply Z.mod_pos_bound); by apply Hs.
Qed.

(** Equality of 32-bit numbers by their bits. *)
Lemma bits32_eq a b : 0 ≤ a < 2^32 → 0 ≤ b < 2^32 →
  (∀ i, 0 ≤ i < 32 → Z.testbit a i = Z.testbit b i) → a = b.
Proof.
  intros Ha Hb Hab. apply Z.bits_inj'. intros i Hi. destruct (decide (i < 32)); [by apply Hab|].
  rewrite -(Z.mod_small a (2^32)) // -(Z.mod_small b (2^32)) // !Z.mod_pow2_bits_high //; lia.
Qed.

Lemma swab_index i : 0 ≤ i < 32 →
  0 ≤ 24 - 8 * (i / 8) + i mod 8 < 32 ∧
  24 - 8 * ((24 - 8 * (i / 8) + i mod 8) / 8) + (24 - 8 * (i / 8) + i mod 8) mod 8 = i.
Proof.
  intros Hi. pose proof (Z.div_mod i 8). pose proof (Z.mod_pos_bound i 8).
  assert (0 ≤ i / 8 < 4) by lia.
  replace (24 - 8 * (i / 8) + i mod 8) with (i mod 8 + (3 - i / 8) * 8) by lia.
  rewrite Z.div_add // Z.mod_add // (Z.mod_small (i mod 8)); [|lia].
  rewrite (Z.div_small (i mod 8)); lia.
Qed.

Lemma swab32_involutive x : 0 ≤ x < 2^32 → ___constant_swab32 (___constant_swab32 x) = x.
Proof.
  intros Hx. apply bits32_eq; [by repeat apply swab32_range|done|]. intros i Hi.
  destruct (swab_index i Hi) as [Hr Heq]. by rewrite swab32_bit // swab32_bit // Heq.
Qed.

Lemma swab32_lxor a b : 0 ≤ a < 2^32 → 0 ≤ b < 2^32 →
  ___constant_swab32 (Z.lxor a b) = Z.lxor (___constant_swab32 a) (___constant_swab32 b).
Proof.
  intros Ha Hb. apply bits32_eq.
  - by apply swab32_range, lxor_range.
  - apply lxor_range; [done|by apply swab32_range..].
  - intros i Hi. rewrite Z.lxor_spec !swab32_bit // Z.lxor_spec //.
Qed.

Lemma swab32_byte b : 0 ≤ b < 256 → ___constant_swab32 b = Z.shiftl b 24.
Proof.
  intros Hb. apply bits32_eq; [apply swab32_range; lia|rewrite Z.shiftl_mul_pow2 //; lia|].
  intros i Hi. rewrite swab32_bit // Z.shiftl_spec; [|lia].
  pose proof (Z.div_mod i 8). pose proof (Z.mod_pos_bound i 8). destruct (decide (24 ≤ i)).
  - assert (i / 8 = 3) by lia. f_equal. lia.
  - rewrite (Z.testbit_neg_r b (i - 24)); [|lia].
    rewrite -(Z.mod_small b (2^8)) // Z.mod_pow2_bits_high //. lia.
Qed.

Lemma be_bit_lxor P a b : be_bit P (Z.lxor a b) = Z.lxor (be_bit P a) (be_bit P b).
Proof.
  unfold be_bit, u32. rewrite -!Z.land_ones // Z.shiftl_lxor.
  assert (Htop : ∀ x, bool_decide (Z.land x 2147483648 ≠ 0) = Z.testbit x 31).
  { intros x. change 2147483648 with (2^31). destruct (Z.testbit x 31) eqn:Hx.
    - rewrite bool_decide_eq_true. intros Hz. assert (Z.testbit (Z.land x (2^31)) 31 = false) as Hf by by rewrite Hz Z.bits_0.
      by rewrite Z.land_spec Hx in Hf.
    - rewrite bool_decide_eq_false. intros Hz. apply Hz. apply Z.bits_inj'. intros i Hi.
      rewrite Z.land_spec Z.pow2_bits_eqb // Z.bits_0. destruct (Z.eqb_spec 31 i) as [<-|]; [by rewrite Hx|].
      by rewrite andb_false_r. }
  rewrite !Htop Z.lxor_spec. apply Z.bits_inj'. intros i Hi. rewrite !Z.lxor_spec !Z.land_spec !Z.lxor_spec.
  destruct (Z.testbit a 31), (Z.testbit b 31); simpl; rewrite ?Z.bits_0;
    destruct (Z.testbit P i), (Z.testbit (Z.shiftl a 1) i), (Z.testbit (Z.shiftl b 1) i),
      (Z.testbit (Z.ones 32) i); done.
Qed.

Lemma be_bit_range P x : 0 ≤ P < 2^32 → 0 ≤ x < 2^32 → 0 ≤ be_bit P x < 2^32.
Proof.
  intros HP Hx. unfold be_bit. apply lxor_range; [done|by apply Z.mod_pos_bound|].
  case_bool_decide; lia.
Qed.

Lemma be_bits_range P k x : 0 ≤ P < 2^32 → 0 ≤ x < 2^32 → 0 ≤ Nat.iter k (be_bit P) x < 2^32.
Proof. intros. induction k as [|k IH]; simpl; [done|]. by apply be_bit_range. Qed.

Lemma be_bits_lxor P k a b :
  Nat.iter k (be_bit P) (Z.lxor a b) = Z.lxor (Nat.iter k (be_bit P) a) (Nat.iter k (be_bit P) b).
Proof. induction k as [|k IH]; simpl; [done|]. by rewrite IH be_bit_lxor. Qed.

(** Without high bits a shift is all that happens. *)
Lemma be_bits_shift P (k : nat) y : (k ≤ 32)%nat → 0 ≤ y < 2^(32 - Z.of_nat k) →
  Nat.iter k (be_bit P) y = Z.shiftl y (Z.of_nat k).
Proof.
  intros Hk. induction k as [|k IH]; intros Hy; [by rewrite Z.shiftl_0_r|].
  assert (Hlt : 2^(32 - Z.of_nat (S k)) * 2 = 2^(32 - Z.of_nat k)).
  { rewrite -(Z.pow_add_r 2 _ 1); [f_equal; lia|lia..]. }
  change (Nat.iter (S k) (be_bit P) y) with (be_bit P (Nat.iter k (be_bit P) y)). rewrite IH; [|lia..].
  assert (Hz : Z.shiftl y (Z.of_nat k) < 2^31).
  { rewrite Z.shiftl_mul_pow2; [|lia].
    replace (2^31) with (2^(32 - Z.of_nat (S k)) * 2^(Z.of_nat k)); [apply Z.mul_lt_mono_pos_r; lia|].
    rewrite -Z.pow_add_r; [f_equal; lia|lia..]. }
  assert (0 ≤ Z.shiftl y (Z.of_nat k)) by (apply Z.shiftl_nonneg; lia).
  unfold be_bit, u32. rewrite bool_decide_eq_false_2.
  - rewrite Z.lxor_0_r Z.shiftl_mul_pow2 // Z.mod_small; [|lia].
    rewrite !Z.shiftl_mul_pow2; [|lia..].
    replace (Z.of_nat (S k)) with (Z.of_nat k + 1) by lia. rewrite Z.pow_add_r; lia.
  - intros Hn. apply Hn. apply Z.bits_inj'. intros i Hi. change 2147483648 with (2^31).
    rewrite Z.land_spec Z.pow2_bits_eqb // Z.bits_0. destruct (Z.eqb_spec 31 i) as [<-|].
    + by rewrite (high_bit_false 31).
    + by rewrite andb_false_r.
Qed.

(** The effect of a byte in the swapped domain in which the table works. *)
Definition be_byte (x : Z) : Z :=
  ___constant_swab32 (Nat.iter 8 (be_bit CRCPOLY_BE) (___constant_swab32 x)).

Lemma crc32table_be_ok : table_is crc32table_be be_byte 8 = true.
Proof. vm_compute. reflexivity. Qed.

Lemma be_byte_shift y : 0 ≤ y < 2^24 → be_byte (Z.shiftl y 8) = y.
Proof.
  intros Hy. unfold be_byte.
  assert (Hy8 : 0 ≤ Z.shiftl y 8 < 2^32) by (rewrite Z.shiftl_mul_pow2 //; lia).
  set (z := ___constant_swab32 (Z.shiftl y 8)).
  assert (Hz : 0 ≤ z < 2^24).
  { pose proof (swab32_range _ Hy8) as Hz. fold z in Hz. apply range_of_bits; [done|]. intros i Hi.
    destruct (decide (i < 32)); [|by apply (high_bit_false 32); [lia|]].
    unfold z. rewrite swab32_bit; [|lia]. rewrite Z.shiftl_spec; [|pose proof (swab_index i); lia].
    apply Z.testbit_neg_r. pose proof (Z.div_mod i 8). pose proof (Z.mod_pos_bound i 8). lia. }
  rewrite be_bits_shift //; [|lia]. change (Z.of_nat 8) with 8.
  apply bits32_eq; [apply swab32_range; rewrite Z.shiftl_mul_pow2 //; lia|lia|]. intros i Hi.
  destruct (swab_index i Hi) as [Hr Heq]. rewrite swab32_bit // Z.shiftl_spec; [|lia].
  pose proof (Z.div_mod i 8). pose proof (Z.mod_pos_bound i 8). destruct (decide (i < 24)).
  - unfold z. rewrite swab32_bit; [|lia].
    replace (24 - 8 * (i / 8) + i mod 8 - 8) with (i mod 8 + (2 - i / 8) * 8) by lia.
    rewrite Z.div_add // Z.mod_add // (Z.mod_small (i mod 8)); [|lia]. rewrite (Z.div_small (i mod 8)); [|lia].
    rewrite Z.shiftl_spec; [|lia]. f_equal. lia.
  - rewrite (high_bit_false 24 y); [|lia|done]. apply Z.testbit_neg_r. lia.
Qed.

Lemma be_byte_swab crc b : 0 ≤ crc < 2^32 → 0 ≤ b < 256 →
  be_byte (Z.lxor (___constant_swab32 crc) b) =
  ___constant_swab32 (Nat.iter 8 (be_bit CRCPOLY_BE) (Z.lxor crc (Z.shiftl b 24))).
Proof.
  intros Hc Hb. unfold be_byte. rewrite swab32_lxor; [|by apply swab32_range|lia].
  rewrite (swab32_involutive crc Hc) (swab32_byte b Hb). reflexivity.
Qed.

Lemma be_byte_range a : 0 ≤ a < 2^32 → 0 ≤ be_byte a < 2^32.
Proof. intros Ha. apply swab32_range, be_bits_range; [done|by apply swab32_range]. Qed.

Lemma be_byte_lxor a b : 0 ≤ a < 2^32 → 0 ≤ b < 2^32 →
  be_byte (Z.lxor a b) = Z.lxor (be_byte a) (be_byte b).
Proof.
  intros Ha Hb. unfold be_byte. rewrite swab32_lxor // be_bits_lxor.
  apply swab32_lxor; (apply be_bits_range; [done|by apply swab32_range]).
Qed.

Lemma fold_left_cons {A B} (f : A → B → A) a b l : fold_left f (b :: l) a = fold_left f l (f a b).
Proof. reflexivity. Qed.

Lemma be_fold crc p : 0 ≤ crc < 2^32 → is_bytes p →
  ___constant_swab32 (bytewise be_byte (___constant_swab32 crc) p) = crc32_be_bitwise CRCPOLY_BE crc p.
Proof.
  intros Hc Hp. unfold crc32_be_bitwise, bytewise. revert crc Hc.
  induction Hp as [|b p Hb Hp IH]; intros crc Hc; [by apply swab32_involutive|].
  assert (Hsb : 0 ≤ Z.shiftl b 24 < 2^32) by (rewrite Z.shiftl_mul_pow2 //; lia).
  rewrite !fold_left_cons (be_byte_swab crc b Hc Hb).
  apply IH, be_bits_range; [done|by apply lxor_range].
Qed.

Lemma crc32_be_bytewise crc buf p : 0 ≤ crc < 2^32 → is_bytes p →
  ext2fs_crc32_be crc buf p = crc32_be_bitwise CRCPOLY_BE crc p.
Proof.
  intros Hc Hp. unfold ext2fs_crc32_be. rewrite -be_fold //. f_equal.
  apply (crc32_body_bytewise be_byte).
  - exact be_byte_range.
  - exact be_byte_lxor.
  - exact be_byte_shift.
  - intros j i Hj Hi. exact (table_is_ok crc32table_be be_byte 8 j i crc32table_be_ok Hj Hi).
  - by apply swab32_range.
  - exact Hp.
Qed.

(** ** crc16 *)
Definition CRC16_POLY : Z := 0xA001.

Lemma crc16_table_ok :
  forallb (λ i, bool_decide (nth (Z.to_nat i) crc16_table 0 = Nat.iter 8 (le_bit CRC16_POLY) i)) (seqZ 0 256) = true.
Proof. vm_compute. reflexivity. Qed.

Lemma crc16_step_bitwise crc b : 0 ≤ crc < 2^16 → 0 ≤ b < 256 →
  crc16_step crc b = Nat.iter 8 (le_bit CRC16_POLY) (Z.lxor crc b).
Proof.
  intros Hc Hb. unfold crc16_step.
  assert (Hi : 0 ≤ Z.land (Z.lxor crc b) 255 < 2^8) by apply land_255_range.
  assert (Ht : nth (Z.to_nat (Z.land (Z.lxor crc b) 255)) crc16_table 0 =
    Nat.iter 8 (le_bit CRC16_POLY) (Z.land (Z.lxor crc b) 255)).
  { pose proof crc16_table_ok as H. rewrite forallb_forall in H.
    specialize (H (Z.land (Z.lxor crc b) 255)). rewrite bool_decide_eq_true in H. apply H.
    apply list_elem_of_In, elem_of_seqZ. lia. }
  pose proof (shiftr_range_sub crc 8 8 ltac:(lia) ltac:(lia) Hc) as Hs.
  rewrite Ht. change 255 with (Z.ones 8) at 1. rewrite (Z.land_ones (Z.shiftr crc 8)) // (Z.mod_small (Z.shiftr crc 8)) //.
  assert (Hx : 0 ≤ Z.lxor (Z.shiftr crc 8) (Nat.iter 8 (le_bit CRC16_POLY) (Z.land (Z.lxor crc b) 255)) < 2^16).
  { apply lxor_range; [done|lia|]. apply le_bits_range; [done|done|lia]. }
  change 65535 with (Z.ones 16). rewrite Z.land_ones // Z.mod_small //.
  rewrite -{2}(split_byte (Z.lxor crc b)) le_bits_lxor Z.lxor_comm. f_equal.
  rewrite shiftr_byte_lxor //. symmetry. apply (le_bits_shift _ 8).
Qed.

Lemma crc16_bitwise crc p : 0 ≤ crc < 2^16 → is_bytes p →
  ext2fs_crc16 crc p = crc32_le_bitwise CRC16_POLY crc p.
Proof.
  intros Hc Hp. unfold ext2fs_crc16, crc32_le_bitwise. revert crc Hc.
  induction Hp as [|b p Hb Hp IH]; intros crc Hc; [done|].
  rewrite !fold_left_cons (crc16_step_bitwise crc b Hc Hb).
  apply IH, (le_bits_range 16 CRC16_POLY 8); [lia|done|apply lxor_range; lia].
Qed.

(** ** Theorems *)

(** C32: The table-driven checksums are the bitwise ones, for every seed, every
    address of the buffer and every length. *)
Theorem crc_bitwise crc buf p :
  0 ≤ crc < 2^32 → is_bytes p →
  ext2fs_crc32c_le crc buf p = crc32_le_bitwise CRC32C_POLY_LE crc p ∧
  ext2fs_crc32_be crc buf p = crc32_be_bitwise CRCPOLY_BE crc p ∧
  (crc < 2^16 → ext2fs_crc16 crc p = crc32_le_bitwise CRC16_POLY crc p).
Proof.
  intros Hc Hp. split_and!; [by apply crc32c_bytewise|by apply crc32_be_bytewise|].
  intros ?. apply crc16_bitwise; [lia|done].
Qed.

Lemma crc_bitwise_witness :
  ext2fs_crc32c_le 5 3 [1; 2; 3] = crc32_le_bitwise CRC32C_POLY_LE 5 [1; 2; 3] ∧
  ext2fs_crc32_be 5 3 [1; 2; 3] = crc32_be_bitwise CRCPOLY_BE 5 [1; 2; 3] ∧
  (5 < 2^16 → ext2fs_crc16 5 [1; 2; 3] = crc32_le_bitwise CRC16_POLY 5 [1; 2; 3]).
Proof. apply (crc_bitwise 5 3 [1; 2; 3]); [lia|]. repeat constructor; lia. Defined.

(** The shift register takes several bytes as one number. *)
Lemma le_bitwise_word P crc p : is_bytes p →
  crc32_le_bitwise P crc p = Nat.iter (8 * length p) (le_bit P) (Z.lxor crc (le_decode p)).
Proof.
  intros Hp. unfold crc32_le_bitwise. revert crc.
  induction Hp as [|b p Hb Hp IH]; intros crc; [symmetry; apply Z.lxor_0_r|].
  pose proof (le_decode_range p Hp) as [Hd _].
  rewrite fold_left_cons IH. cbn [le_decode length].
  rewrite add_byte // -Z.lxor_assoc -{1}(le_bits_shift P 8 (le_decode p)) -le_bits_lxor -Nat.iter_add.
  f_equal. lia.
Qed.

Lemma le_bitwise_app P crc p q :
  crc32_le_bitwise P crc (p ++ q) = crc32_le_bitwise P (crc32_le_bitwise P crc p) q.
Proof. apply fold_left_app. Qed.

Lemma le_bitwise_range n P crc p :
  8 ≤ n → 0 ≤ P < 2^n → 0 ≤ crc < 2^n → is_bytes p → 0 ≤ crc32_le_bitwise P crc p < 2^n.
Proof.
  intros Hn HP Hc Hp. unfold crc32_le_bitwise. revert crc Hc.
  induction Hp as [|b p Hb Hp IH]; intros crc Hc; [done|]. rewrite fold_left_cons.
  assert (2^8 ≤ 2^n) by (apply Z.pow_le_mono_r; lia).
  apply IH, (le_bits_range n P 8); [lia|done|]. apply lxor_range; lia.
Qed.

(** Different states stay different. *)
Lemma le_bitwise_inj n P crc crc' p :
  8 ≤ n → 2^(n-1) ≤ P < 2^n → 0 ≤ crc < 2^n → 0 ≤ crc' < 2^n → is_bytes p →
  crc32_le_bitwise P crc p = crc32_le_bitwise P crc' p → crc = crc'.
Proof.
  intros Hn HP Hc Hc' Hp. unfold crc32_le_bitwise. revert crc crc' Hc Hc'.
  induction Hp as [|b p Hb Hp IH]; intros crc crc' Hc Hc'; [done|]. rewrite !fold_left_cons.
  assert (2^8 ≤ 2^n) by (apply Z.pow_le_mono_r; lia). assert (0 < 2^(n-1)) by (apply Z.pow_pos_nonneg; lia).
  assert (Hr : ∀ x, 0 ≤ x < 2^n → 0 ≤ Z.lxor x b < 2^n) by (intros; apply lxor_range; lia).
  intros Heq. apply IH in Heq; [|apply (le_bits_range n P 8); [lia|lia|by apply Hr]..].
  apply (le_bits_inj n) in Heq; [|lia|lia|by apply Hr..].
  assert (Z.lxor (Z.lxor crc b) (Z.lxor crc' b) = 0) as Hz by (rewrite Heq; apply Z.lxor_nilpotent).
  rewrite (Z.lxor_comm crc' b) -Z.lxor_assoc (Z.lxor_assoc crc) Z.lxor_nilpotent Z.lxor_0_r in Hz.
  by apply Z.lxor_eq_0_iff.
Qed.

Lemma le_decode_inj p q : is_bytes p → is_bytes q → length p = length q → le_decode p = le_decode q → p = q.
Proof. intros Hp Hq Hl Heq. rewrite -(le_encode_decode p) // Hl Heq le_encode_decode //. Qed.

(** A burst of at most [n] bits is seen by a register of [n] bits. *)
Lemma le_bitwise_burst n P crc pre w w' post :
  8 ≤ n → 2^(n-1) ≤ P < 2^n → 0 ≤ crc < 2^n →
  is_bytes pre → is_bytes w → is_bytes w' → is_bytes post →
  length w = length w' → 8 * Z.of_nat (length w) ≤ n → w ≠ w' →
  crc32_le_bitwise P crc (pre ++ w ++ post) ≠ crc32_le_bitwise P crc (pre ++ w' ++ post).
Proof.
  intros Hn HP Hc Hpre Hw Hw' Hpost Hl Hlen Hne Heq. apply Hne.
  assert (0 < 2^(n-1)) by (apply Z.pow_pos_nonneg; lia).
  rewrite !le_bitwise_app in Heq.
  set (c := crc32_le_bitwise P crc pre) in *.
  assert (Hcr : 0 ≤ c < 2^n) by (apply le_bitwise_range; done || lia).
  apply (le_bitwise_inj n) in Heq; [|lia|lia|apply le_bitwise_range; done || lia..|done].
  rewrite !le_bitwise_word // Hl in Heq.
  assert (Hd : ∀ q, is_bytes q → length q = length w' → 0 ≤ le_decode q < 2^n).
  { intros q Hq Hlq. pose proof (le_decode_range q Hq) as [? Hlt]. split; [done|].
    eapply Z.lt_le_trans; [exact Hlt|]. change 256 with (2^8). rewrite -Z.pow_mul_r; [|lia..].
    apply Z.pow_le_mono_r; lia. }
  apply (le_bits_inj n) in Heq; [|lia|lia|apply lxor_range; [lia|done|by apply Hd]..].
  apply le_decode_inj; [done..|].
  assert (Z.lxor c (Z.lxor c (le_decode w)) = Z.lxor c (Z.lxor c (le_decode w'))) as Hx by by rewrite Heq.
  by rewrite -!Z.lxor_assoc Z.lxor_nilpotent !Z.lxor_0_l in Hx.
Qed.

(** C33: Two buffers that differ only within four consecutive bytes have different
    CRC-32C checksums, and within two bytes different CRC-16 checksums. *)
Theorem crc_detects_burst crc buf buf' pre w w' post :
  is_bytes pre → is_bytes w → is_bytes w' → is_bytes post → length w = length w' → w ≠ w' →
  (0 ≤ crc < 2^32 → (length w ≤ 4)%nat →
   ext2fs_crc32c_le crc buf (pre ++ w ++ post) ≠ ext2fs_crc32c_le crc buf' (pre ++ w' ++ post)) ∧
  (0 ≤ crc < 2^16 → (length w ≤ 2)%nat →
   ext2fs_crc16 crc (pre ++ w ++ post) ≠ ext2fs_crc16 crc (pre ++ w' ++ post)).
Proof.
  intros Hpre Hw Hw' Hpost Hl Hne.
  assert (Hall : ∀ q, is_bytes q → is_bytes (pre ++ q ++ post)) by (intros; by apply Forall_app_2, Forall_app_2).
  split; intros Hc Hlen.
  - rewrite !crc32c_bytewise; [|done|by apply Hall|done|by apply Hall].
    apply (le_bitwise_burst 32); [lia|done|done..|lia|done].
  - rewrite !crc16_bitwise; [|done|by apply Hall|done|by apply Hall].
    apply (le_bitwise_burst 16); [lia|done|done..|lia|done].
Qed.

Lemma crc_detects_burst_witness :
  ((length [7; 8; 9; 10] ≤ 4)%nat ∧
   ext2fs_crc32c_le 0 8 ([1; 2] ++ [7; 8; 9; 10] ++ [3]) ≠ ext2fs_crc32c_le 0 9 ([1; 2] ++ [7; 8; 9; 11] ++ [3])) ∧
  ((length [7; 8] ≤ 2)%nat ∧
   ext2fs_crc16 0 ([1; 2] ++ [7; 8] ++ [3]) ≠ ext2fs_crc16 0 ([1; 2] ++ [8; 7] ++ [3])).
Proof.
  split.
  - split; [simpl; lia|]. apply (crc_detects_burst 0 8 9 [1; 2] [7; 8; 9; 10] [7; 8; 9; 11] [3]);
      try (repeat constructor; lia); simpl; done || lia.
  - split; [simpl; lia|]. apply (crc_detects_burst 0 8 8 [1; 2] [7; 8] [8; 7] [3]);
      try (repeat constructor; lia); simpl; done || lia.
Defined.

(** The check values of the three checksums, for the text 123456789. *)
Example crc_check_values :
  let text := string_bytes "123456789" in
  Z.lxor (ext2fs_crc32c_le (2^32 - 1) 0 text) (2^32 - 1) = 0xE3069283 ∧
  ext2fs_crc32_be (2^32 - 1) 1 text = 0x0376E6E7 ∧ ext2fs_crc16 0 text = 0xBB3D.
Proof. vm_compute. done. Qed.
