(* ===== verification/Blknum.v ===== *)
(** * Blknum: lib/ext2fs/blknum.c, and the layout functions it uses

    Block numbers, group arithmetic and the accessors of the super block, the
    group descriptors and the inode (blknum.c); where super block backups and
    group descriptors lie ([ext2fs_bg_has_super], [ext2fs_super_and_bgd_loc2]
    of closefs.c, [ext2fs_descriptor_block_loc2] of openfs.c); the number of
    directories (get_num_dirs.c).  [None] is a NULL dereference, an access
    outside a buffer or a division by zero. *)
From S2P Require Import Prelude.
From S2P Require Import Bytes.
From S2P Require Import Super.
#[local] Open Scope Z_scope.

(** ** The super block's counters *)
Definition ext2fs_blocks_count (super : list Z) : Z :=
  Z.lor (s_blocks_count super)
    (if ext2fs_has_feature_64bit super then Z.shiftl (s_blocks_count_hi super) 32 else 0).

Definition ext2fs_blocks_count_set (super : list Z) (blk : Z) : list Z :=
  let super := set32 4 (u32 blk) super in
  if ext2fs_has_feature_64bit super then set32 336 (u32 (Z.shiftr blk 32)) super else super.

Definition ext2fs_blocks_count_add (super : list Z) (blk : Z) : list Z :=
  let tmp := u64 (ext2fs_blocks_count super + blk) in
  ext2fs_blocks_count_set super tmp.

Definition ext2fs_r_blocks_count (super : list Z) : Z :=
  Z.lor (s_r_blocks_count super)
    (if ext2fs_has_feature_64bit super then Z.shiftl (s_r_blocks_count_hi super) 32 else 0).

Definition ext2fs_r_blocks_count_set (super : list Z) (blk : Z) : list Z :=
  let super := set32 8 (u32 blk) super in
  if ext2fs_has_feature_64bit super then set32 340 (u32 (Z.shiftr blk 32)) super else super.

Definition ext2fs_r_blocks_count_add (super : list Z) (blk : Z) : list Z :=
  let tmp := u64 (ext2fs_r_blocks_count super + blk) in
  ext2fs_r_blocks_count_set super tmp.

Definition ext2fs_free_blocks_count (super : list Z) : Z :=
  Z.lor (s_free_blocks_count super)
    (if ext2fs_has_feature_64bit super then Z.shiftl (s_free_blocks_hi super) 32 else 0).

Definition ext2fs_free_blocks_count_set (super : list Z) (blk : Z) : list Z :=
  let super := set32 12 (u32 blk) super in
  if ext2fs_has_feature_64bit super then set32 344 (u32 (Z.shiftr blk 32)) super else super.

Definition ext2fs_free_blocks_count_add (super : list Z) (blk : Z) : list Z :=
  let tmp := u64 (ext2fs_free_blocks_count super + blk) in
  ext2fs_free_blocks_count_set super tmp.

(** ** Groups and blocks *)
Definition ext2fs_group_of_blk2 (fs : ext2_filsys) (blk : Z) : Z :=
  u32 (u64 (blk - s_first_data_block (fs_super fs)) / s_blocks_per_group (fs_super fs)).

Definition ext2fs_group_first_block2 (fs : ext2_filsys) (group : Z) : Z :=
  u64 (s_first_data_block (fs_super fs) + EXT2_GROUPS_TO_BLOCKS (fs_super fs) group).

Definition ext2fs_group_last_block2 (fs : ext2_filsys) (group : Z) : Z :=
  if bool_decide (group = u32 (fs_group_desc_count fs - 1)) then
    u64 (ext2fs_blocks_count (fs_super fs) - 1)
  else
    u64 (ext2fs_group_first_block2 fs group + u32 (s_blocks_per_group (fs_super fs) - 1)).

Definition ext2fs_group_blocks_count (fs : ext2_filsys) (group : Z) : Z :=
  if bool_decide (group = u32 (fs_group_desc_count fs - 1)) then
    let num_blocks := s32 (u64 (ext2fs_blocks_count (fs_super fs) -
                                s_first_data_block (fs_super fs))
                           mod s_blocks_per_group (fs_super fs)) in
    if bool_decide (num_blocks = 0) then s32 (s_blocks_per_group (fs_super fs))
    else num_blocks
  else s32 (s_blocks_per_group (fs_super fs)).

(** ** Inodes *)
Definition ext2fs_inode_i_blocks (fs : ext2_filsys) (inode : list Z) : Z :=
  Z.lor (i_blocks inode)
    (if ext2fs_has_feature_huge_file (fs_super fs) then Z.shiftl (l_i_blocks_hi inode) 32 else 0).

Definition ext2fs_inode_data_blocks2 (fs : ext2_filsys) (inode : list Z) : Z :=
  u64 (Z.lor (i_blocks inode)
         (if ext2fs_has_feature_huge_file (fs_super fs)
          then Z.shiftl (l_i_blocks_hi inode) 32 else 0)
       - (if bool_decide (i_file_acl inode ≠ 0)
          then Z.shiftr (EXT2_CLUSTER_SIZE (fs_super fs)) 9 else 0)).

Definition ext2fs_get_stat_i_blocks (fs : ext2_filsys) (inode : list Z) : Z :=
  let ret := i_blocks inode in
  if ext2fs_has_feature_huge_file (fs_super fs) then
    let ret := u64 (ret + Z.shiftl (l_i_blocks_hi inode) 32) in
    if bool_decide (Z.land (i_flags inode) EXT4_HUGE_FILE_FL ≠ 0)
    then u64 (ret * (fs_blocksize fs / 512)) else ret
  else ret.

(** [fs] may be NULL in the two functions on the ACL block. *)
Definition ext2fs_file_acl_block (fs : option ext2_filsys) (inode : list Z) : Z :=
  let blk := i_file_acl inode in
  match fs with
  | Some fs =>
      if ext2fs_has_feature_64bit (fs_super fs)
      then Z.lor blk (Z.shiftl (l_i_file_acl_high inode) 32) else blk
  | None => blk
  end.

Definition ext2fs_file_acl_block_set (fs : option ext2_filsys) (inode : list Z) (blk : Z) :
    list Z :=
  let inode := set32 104 (u32 blk) inode in
  match fs with
  | Some fs =>
      if ext2fs_has_feature_64bit (fs_super fs)
      then set16 118 (u16 (Z.shiftr blk 32)) inode else inode
  | None => inode
  end.

Definition ext2fs_needs_large_file_feature (file_size : Z) : bool :=
  bool_decide (2^31 ≤ file_size).

Definition EXT2_GOOD_OLD_REV : Z := 0.
Definition EXT2_DYNAMIC_REV : Z := 1.
Definition EXT2_GOOD_OLD_FIRST_INO : Z := 11.
Definition EXT2_GOOD_OLD_INODE_SIZE : Z := 128.

Definition ext2fs_update_dynamic_rev (fs : ext2_filsys) : ext2_filsys :=
  let sb := fs_super fs in
  if bool_decide (EXT2_GOOD_OLD_REV < s_rev_level sb) then fs else
  let sb := set32 76 EXT2_DYNAMIC_REV sb in
  let sb := set32 84 EXT2_GOOD_OLD_FIRST_INO sb in
  let sb := set16 88 EXT2_GOOD_OLD_INODE_SIZE sb in
  set_super sb fs.

(** [size] is signed.  The result is the error, and the file system and the
    inode, both changed in place. *)
Definition ext2fs_inode_size_set (fs : ext2_filsys) (inode : list Z) (size : Z) :
    errcode * ext2_filsys * list Z :=
  if bool_decide (size < 0) then (EINVAL, fs, inode) else
  let r :=
    if ext2fs_needs_large_file_feature size then
      let finish fs :=
        let fs := if bool_decide (s_rev_level (fs_super fs) = EXT2_GOOD_OLD_REV)
                  then ext2fs_update_dynamic_rev fs else fs in
        ext2fs_mark_super_dirty fs in
      if LINUX_S_ISREG (i_mode inode) then
        if ext2fs_has_feature_large_file (fs_super fs) then Some fs
        else Some (finish (set_super (ext2fs_set_feature_large_file (fs_super fs)) fs))
      else if LINUX_S_ISDIR (i_mode inode) then
        if ext2fs_has_feature_largedir (fs_super fs) then Some fs
        else Some (finish (set_super (ext2fs_set_feature_largedir (fs_super fs)) fs))
      else None
    else Some fs in
  match r with
  | None => (EXT2_ET_FILE_TOO_BIG, fs, inode)
  | Some fs =>
      let inode := set32 4 (Z.land size 4294967295) inode in
      (E_OK, fs, set32 108 (u32 (Z.shiftr size 32)) inode)
  end.

(** ** Super block backups *)

(** The loop of [test_root]; the fuel bounds the number of divisions. *)
Fixpoint test_root_fuel (fuel : nat) (a b : Z) : option bool :=
  match fuel with
  | O => None
  | S fuel' =>
      if bool_decide (a < b) then Some false
      else if bool_decide (a = b) then Some true
      else if bool_decide (a mod b ≠ 0) then Some false
      else test_root_fuel fuel' (a / b) b
  end.

Definition test_root (a b : Z) : bool := default false (test_root_fuel 32 a b).

Definition ext2fs_bg_has_super (fs : ext2_filsys) (group : Z) : bool :=
  if bool_decide (group = 0) then true else
  if ext2fs_has_feature_sparse_super2 (fs_super fs) then
    bool_decide (group = s_backup_bgs_0 (fs_super fs) ∨ group = s_backup_bgs_1 (fs_super fs))
  else if bool_decide (group ≤ 1) || negb (ext2fs_has_feature_sparse_super (fs_super fs))
  then true
  else if bool_decide (Z.land group 1 = 0) then false
  else test_root group 3 || test_root group 5 || test_root group 7.

Definition b2z (b : bool) : Z := if b then 1 else 0.

(** The results are those written through the four pointers. *)
Definition ext2fs_super_and_bgd_loc2 (fs : ext2_filsys) (group : Z) : Z * Z * Z * Z :=
  let sb := fs_super fs in
  let group_block := ext2fs_group_first_block2 fs group in
  let group_block := if bool_decide (group_block = 0 ∧ fs_blocksize fs = 1024)
                     then 1 else group_block in
  let old_desc_blocks :=
    if ext2fs_has_feature_meta_bg sb then s_first_meta_bg sb
    else u64 (fs_desc_blocks fs + s_reserved_gdt_blocks sb) in
  let has_super := ext2fs_bg_has_super fs group in
  let super_blk := if has_super then group_block else 0 in
  let numblocks := b2z has_super in
  let meta_bg_size := EXT2_DESC_PER_BLOCK sb in
  let meta_bg := group / meta_bg_size in
  if negb (ext2fs_has_feature_meta_bg sb) || bool_decide (meta_bg < s_first_meta_bg sb) then
    if has_super then
      (super_blk, u64 (group_block + 1), 0, u32 (numblocks + old_desc_blocks))
    else (super_blk, 0, 0, numblocks)
  else if bool_decide (group mod meta_bg_size = 0 ∨ group mod meta_bg_size = 1 ∨
                       group mod meta_bg_size = meta_bg_size - 1)
  then (super_blk, 0, u64 (group_block + b2z has_super), numblocks + 1)
  else (super_blk, 0, 0, numblocks).

Definition ext2fs_descriptor_block_loc2 (fs : ext2_filsys) (group_block i : Z) : Z :=
  let sb := fs_super fs in
  let group_zero_adjust :=
    b2z (bool_decide (i = 0 ∧ fs_blocksize fs = 1024 ∧ 1 < EXT2FS_CLUSTER_RATIO fs)) in
  if negb (ext2fs_has_feature_meta_bg sb) || bool_decide (i < s_first_meta_bg sb) then
    u64 (group_block + i + 1 + group_zero_adjust)
  else
    let bg := s32 (EXT2_DESC_PER_BLOCK sb * i) in
    let has_super := b2z (ext2fs_bg_has_super fs (u32 bg)) in
    let ret_blk := ext2fs_group_first_block2 fs (u32 bg) in
    if bool_decide (group_block ≠ s_first_data_block sb ∧
                    u64 (ret_blk + has_super + s_blocks_per_group sb) < ext2fs_blocks_count sb)
    then u64 (u64 (ret_blk + s_blocks_per_group sb) +
              b2z (ext2fs_bg_has_super fs (u32 (bg + 1))) + group_zero_adjust)
    else u64 (ret_blk + has_super + group_zero_adjust).

(** ** Group descriptors *)

(** The buffer and the offset of a descriptor in it; [None] is NULL. *)
Definition ext2fs_group_desc (fs : ext2_filsys) (gdp : option (list Z)) (group : Z) :
    option (list Z * Z) :=
  let desc_size := Z.land (EXT2_DESC_SIZE (fs_super fs)) (Z.lnot 7) in
  if bool_decide (EXT2_DESC_SIZE (fs_super fs) = 0) then None else
  let desc_per_blk := EXT2_DESC_PER_BLOCK (fs_super fs) in
  if bool_decide (fs_group_desc_count fs < group) then None else
  match gdp with
  | Some gdp => Some (gdp, u32 (group * desc_size))
  | None =>
      if bool_decide (desc_per_blk = 0) then None else
      let blk := ext2fs_descriptor_block_loc2 fs (s_first_data_block (fs_super fs))
                   (group / desc_per_blk) in
      buf ← fs_io_read fs blk;
      Some (buf, (group mod desc_per_blk) * desc_size)
  end.

(** Reading and writing a field of a descriptor.  A write to a descriptor that
    was read on demand is to the scratch buffer: it is lost. *)
Definition gd_get (k : nat) (field : Z) (fs : ext2_filsys) (group : Z) : option Z :=
  '(buf, base) ← ext2fs_group_desc fs (fs_group_desc fs) group;
  if decide (in_buf k (base + field) buf) then Some (get_le k (base + field) buf) else None.

Definition gd_set (k : nat) (field v : Z) (fs : ext2_filsys) (group : Z) :
    option ext2_filsys :=
  '(buf, base) ← ext2fs_group_desc fs (fs_group_desc fs) group;
  if decide (in_buf k (base + field) buf) then
    match fs_group_desc fs with
    | Some _ => Some (set_group_desc (set_le k (base + field) v buf) fs)
    | None => Some fs
    end
  else None.

(** A field split into a low and, with the 64-bit feature, a high half. *)
Definition gd_get_hilo (k : nat) (lo hi sh : Z) (fs : ext2_filsys) (group : Z) : option Z :=
  l ← gd_get k lo fs group;
  if ext2fs_has_feature_64bit (fs_super fs) then
    h ← gd_get k hi fs group;
    Some (Z.lor l (Z.shiftl h sh))
  else Some l.

Definition gd_set_hilo (k : nat) (lo hi sh v : Z) (fs : ext2_filsys) (group : Z) :
    option ext2_filsys :=
  fs ← gd_set k lo v fs group;
  if ext2fs_has_feature_64bit (fs_super fs) then gd_set k hi (Z.shiftr v sh) fs group
  else Some fs.

Definition ext2fs_block_bitmap_checksum (fs : ext2_filsys) (group : Z) : option Z :=
  csum ← gd_get 2 bg_block_bitmap_csum_lo fs group;
  if bool_decide (EXT4_BG_BLOCK_BITMAP_CSUM_HI_LOCATION ≤ EXT2_DESC_SIZE (fs_super fs)) then
    hi ← gd_get 2 bg_block_bitmap_csum_hi fs group;
    Some (Z.lor csum (Z.shiftl hi 16))
  else Some csum.

Definition ext2fs_inode_bitmap_checksum (fs : ext2_filsys) (group : Z) : option Z :=
  csum ← gd_get 2 bg_inode_bitmap_csum_lo fs group;
  if bool_decide (EXT4_BG_INODE_BITMAP_CSUM_HI_END ≤ EXT2_DESC_SIZE (fs_super fs)) then
    hi ← gd_get 2 bg_inode_bitmap_csum_hi fs group;
    Some (Z.lor csum (Z.shiftl hi 16))
  else Some csum.

Definition ext2fs_block_bitmap_loc : ext2_filsys → Z → option Z :=
  gd_get_hilo 4 bg_block_bitmap bg_block_bitmap_hi 32.
Definition ext2fs_block_bitmap_loc_set (fs : ext2_filsys) (group blk : Z) : option ext2_filsys :=
  gd_set_hilo 4 bg_block_bitmap bg_block_bitmap_hi 32 blk fs group.
Definition ext2fs_inode_bitmap_loc : ext2_filsys → Z → option Z :=
  gd_get_hilo 4 bg_inode_bitmap bg_inode_bitmap_hi 32.
Definition ext2fs_inode_bitmap_loc_set (fs : ext2_filsys) (group blk : Z) : option ext2_filsys :=
  gd_set_hilo 4 bg_inode_bitmap bg_inode_bitmap_hi 32 blk fs group.
Definition ext2fs_inode_table_loc : ext2_filsys → Z → option Z :=
  gd_get_hilo 4 bg_inode_table bg_inode_table_hi 32.
Definition ext2fs_inode_table_loc_set (fs : ext2_filsys) (group blk : Z) : option ext2_filsys :=
  gd_set_hilo 4 bg_inode_table bg_inode_table_hi 32 blk fs group.
Definition ext2fs_bg_free_blocks_count : ext2_filsys → Z → option Z :=
  gd_get_hilo 2 bg_free_blocks_count bg_free_blocks_count_hi 16.
Definition ext2fs_bg_free_blocks_count_set (fs : ext2_filsys) (group n : Z) : option ext2_filsys :=
  gd_set_hilo 2 bg_free_blocks_count bg_free_blocks_count_hi 16 n fs group.
Definition ext2fs_bg_free_inodes_count : ext2_filsys → Z → option Z :=
  gd_get_hilo 2 bg_free_inodes_count bg_free_inodes_count_hi 16.
Definition ext2fs_bg_free_inodes_count_set (fs : ext2_filsys) (group n : Z) : option ext2_filsys :=
  gd_set_hilo 2 bg_free_inodes_count bg_free_inodes_count_hi 16 n fs group.
Definition ext2fs_bg_used_dirs_count : ext2_filsys → Z → option Z :=
  gd_get_hilo 2 bg_used_dirs_count bg_used_dirs_count_hi 16.
Definition ext2fs_bg_used_dirs_count_set (fs : ext2_filsys) (group n : Z) : option ext2_filsys :=
  gd_set_hilo 2 bg_used_dirs_count bg_used_dirs_count_hi 16 n fs group.
Definition ext2fs_bg_itable_unused : ext2_filsys → Z → option Z :=
  gd_get_hilo 2 bg_itable_unused bg_itable_unused_hi 16.
Definition ext2fs_bg_itable_unused_set (fs : ext2_filsys) (group n : Z) : option ext2_filsys :=
  gd_set_hilo 2 bg_itable_unused bg_itable_unused_hi 16 n fs group.

Definition ext2fs_bg_flags : ext2_filsys → Z → option Z := gd_get 2 bg_flags.
Definition ext2fs_bg_flags_zap : ext2_filsys → Z → option ext2_filsys := gd_set 2 bg_flags 0.
Definition ext2fs_bg_flags_test (fs : ext2_filsys) (group bg_flag : Z) : option Z :=
  f ← gd_get 2 bg_flags fs group; Some (Z.land f bg_flag).
Definition ext2fs_bg_flags_set (fs : ext2_filsys) (group flags : Z) : option ext2_filsys :=
  f ← gd_get 2 bg_flags fs group; gd_set 2 bg_flags (Z.lor f flags) fs group.
Definition ext2fs_bg_flags_clear (fs : ext2_filsys) (group flags : Z) : option ext2_filsys :=
  f ← gd_get 2 bg_flags fs group; gd_set 2 bg_flags (Z.land f (Z.lnot flags)) fs group.
Definition ext2fs_bg_checksum : ext2_filsys → Z → option Z := gd_get 2 bg_checksum.
Definition ext2fs_bg_checksum_set (fs : ext2_filsys) (group checksum : Z) : option ext2_filsys :=
  gd_set 2 bg_checksum checksum fs group.

(** ** The number of directories (get_num_dirs.c) *)
Fixpoint num_dirs_loop (k : nat) (fs : ext2_filsys) (i max_dirs num_dirs : Z) : option Z :=
  match k with
  | O => Some num_dirs
  | S k' =>
      d ← ext2fs_bg_used_dirs_count fs i;
      num_dirs_loop k' fs (i + 1) max_dirs
        (u32 (num_dirs + if bool_decide (max_dirs < d) then max_dirs / 8 else d))
  end.

Definition ext2fs_get_num_dirs (fs : ext2_filsys) : option (errcode * Z) :=
  if bool_decide (fs_magic fs ≠ EXT2_ET_MAGIC_EXT2FS_FILSYS)
  then Some (EXT2_ET_MAGIC_EXT2FS_FILSYS, 0) else
  let max_dirs := s_inodes_per_group (fs_super fs) in
  num_dirs ← num_dirs_loop (Z.to_nat (fs_group_desc_count fs)) fs 0 max_dirs 0;
  Some (E_OK, if bool_decide (s_inodes_count (fs_super fs) < num_dirs)
              then s_inodes_count (fs_super fs) else num_dirs).

(** ** The super block's counters *)
Lemma super_in k off sb : length sb = SUPERBLOCK_SIZE → 0 ≤ off → off + Z.of_nat k ≤ 1024 → in_buf k off sb.
Proof. intros Hl ? ?. unfold in_buf. rewrite Hl. unfold SUPERBLOCK_SIZE. lia. Qed.

Ltac buf_side :=
  solve [ done | lia | apply super_in; (done || lia)
        | apply in_buf_set; apply super_in; (done || lia) ].

Lemma s_feature_incompat_set off v sb :
  length sb = SUPERBLOCK_SIZE → 0 ≤ off → off + 4 ≤ 96 ∨ 100 ≤ off → off + 4 ≤ 1024 →
  ext2fs_has_feature_64bit (set32 off v sb) = ext2fs_has_feature_64bit sb.
Proof.
  intros. unfold ext2fs_has_feature_64bit, s_feature_incompat.
  rewrite get_set_le_ne; buf_side.
Qed.

(** A counter in two halves, at [lo] and [hi]. *)
Definition counter_get (lo hi : Z) (sb : list Z) : Z :=
  Z.lor (get32 lo sb) (if ext2fs_has_feature_64bit sb then Z.shiftl (get32 hi sb) 32 else 0).

Definition counter_set (lo hi v : Z) (sb : list Z) : list Z :=
  let sb := set32 lo (u32 v) sb in
  if ext2fs_has_feature_64bit sb then set32 hi (u32 (Z.shiftr v 32)) sb else sb.

(** The bits of a value that a super block keeps. *)
Definition counter_fits (sb : list Z) (v : Z) : Z :=
  if ext2fs_has_feature_64bit sb then v else v mod 2^32.

Lemma counter_64bit lo hi v sb :
  length sb = SUPERBLOCK_SIZE → 0 ≤ lo ≤ 92 → 100 ≤ hi ≤ 1020 →
  ext2fs_has_feature_64bit (counter_set lo hi v sb) = ext2fs_has_feature_64bit sb.
Proof.
  intros Hl ??. unfold counter_set.
  assert (ext2fs_has_feature_64bit (set32 lo (u32 v) sb) = ext2fs_has_feature_64bit sb) as Hf.
  { apply s_feature_incompat_set; buf_side. }
  rewrite Hf. destruct (ext2fs_has_feature_64bit sb) eqn:E; [|done].
  rewrite s_feature_incompat_set //; try lia. rewrite length_set_le //. buf_side.
Qed.

Lemma counter_set_length lo hi v sb :
  length sb = SUPERBLOCK_SIZE → 0 ≤ lo ≤ 92 → 100 ≤ hi ≤ 1020 →
  length (counter_set lo hi v sb) = SUPERBLOCK_SIZE.
Proof.
  intros Hl ??. unfold counter_set.
  assert (in_buf 4 lo sb) by buf_side.
  assert (in_buf 4 hi (set32 lo (u32 v) sb)) by buf_side.
  destruct (ext2fs_has_feature_64bit _); by rewrite !length_set_le.
Qed.

Lemma counter_get_set lo hi v sb :
  length sb = SUPERBLOCK_SIZE → 0 ≤ lo ≤ 92 → 100 ≤ hi ≤ 1020 → 0 ≤ v < 2^64 →
  counter_get lo hi (counter_set lo hi v sb) = counter_fits sb v.
Proof.
  intros Hl ?? Hv. unfold counter_get, counter_fits. rewrite counter_64bit //.
  unfold counter_set.
  assert (ext2fs_has_feature_64bit (set32 lo (u32 v) sb) = ext2fs_has_feature_64bit sb) as Hf.
  { apply s_feature_incompat_set; buf_side. }
  rewrite Hf. assert (in_buf 4 lo sb) by buf_side.
  assert (in_buf 4 hi (set32 lo (u32 v) sb)) by buf_side.
  destruct (ext2fs_has_feature_64bit sb).
  - rewrite get_set_le // get_set_le_ne //; try lia. rewrite get_set_le //.
    change (256 ^ Z.of_nat 4) with (2^32). unfold u32. rewrite !Z.mod_mod //. by apply join_halves.
  - rewrite get_set_le // Z.lor_0_r. change (256 ^ Z.of_nat 4) with (2^32). unfold u32. by rewrite Z.mod_mod.
Qed.

Lemma get_counter_set k off lo hi v sb :
  length sb = SUPERBLOCK_SIZE → 0 ≤ lo ≤ 92 → 100 ≤ hi ≤ 1020 → 0 ≤ off →
  (off + Z.of_nat k ≤ lo ∨ lo + 4 ≤ off) → (off + Z.of_nat k ≤ hi ∨ hi + 4 ≤ off) →
  get_le k off (counter_set lo hi v sb) = get_le k off sb.
Proof.
  intros Hl ?????. unfold counter_set.
  assert (in_buf 4 lo sb) by buf_side.
  assert (in_buf 4 hi (set32 lo (u32 v) sb)) by buf_side.
  destruct (ext2fs_has_feature_64bit _); [|by rewrite get_set_le_ne].
  rewrite get_set_le_ne // get_set_le_ne //.
Qed.

Lemma counter_get_other lo hi lo' hi' v sb :
  length sb = SUPERBLOCK_SIZE → 0 ≤ lo ≤ 92 → 100 ≤ hi ≤ 1020 → 0 ≤ lo' ≤ 92 → 100 ≤ hi' ≤ 1020 →
  (lo' + 4 ≤ lo ∨ lo + 4 ≤ lo') → (hi' + 4 ≤ hi ∨ hi + 4 ≤ hi') →
  counter_get lo' hi' (counter_set lo hi v sb) = counter_get lo' hi' sb.
Proof.
  intros. unfold counter_get. rewrite counter_64bit // !get_counter_set //; lia.
Qed.

Lemma blocks_count_counter :
  ext2fs_blocks_count = counter_get 4 336 ∧
  ∀ sb v, ext2fs_blocks_count_set sb v = counter_set 4 336 v sb.
Proof. done. Qed.

Lemma r_blocks_count_counter :
  ext2fs_r_blocks_count = counter_get 8 340 ∧
  ∀ sb v, ext2fs_r_blocks_count_set sb v = counter_set 8 340 v sb.
Proof. done. Qed.

Lemma free_blocks_count_counter :
  ext2fs_free_blocks_count = counter_get 12 344 ∧
  ∀ sb v, ext2fs_free_blocks_count_set sb v = counter_set 12 344 v sb.
Proof. done. Qed.

(** The three counters of the super block are independent cells of 64 (or 32)
    bits. *)
Theorem super_counters sb v :
  length sb = SUPERBLOCK_SIZE → 0 ≤ v < 2^64 →
  (ext2fs_blocks_count (ext2fs_blocks_count_set sb v) = counter_fits sb v ∧
   ext2fs_r_blocks_count (ext2fs_blocks_count_set sb v) = ext2fs_r_blocks_count sb ∧
   ext2fs_free_blocks_count (ext2fs_blocks_count_set sb v) = ext2fs_free_blocks_count sb) ∧
  (ext2fs_r_blocks_count (ext2fs_r_blocks_count_set sb v) = counter_fits sb v ∧
   ext2fs_blocks_count (ext2fs_r_blocks_count_set sb v) = ext2fs_blocks_count sb ∧
   ext2fs_free_blocks_count (ext2fs_r_blocks_count_set sb v) = ext2fs_free_blocks_count sb) ∧
  (ext2fs_free_blocks_count (ext2fs_free_blocks_count_set sb v) = counter_fits sb v ∧
   ext2fs_blocks_count (ext2fs_free_blocks_count_set sb v) = ext2fs_blocks_count sb ∧
   ext2fs_r_blocks_count (ext2fs_free_blocks_count_set sb v) = ext2fs_r_blocks_count sb) ∧
  ext2fs_free_blocks_count (ext2fs_free_blocks_count_add sb v) =
    counter_fits sb (u64 (ext2fs_free_blocks_count sb + v)).
Proof.
  intros Hl Hv. pose proof (u64_range (ext2fs_free_blocks_count sb + v)).
  unfold ext2fs_free_blocks_count_add.
  destruct blocks_count_counter as [-> Hb], r_blocks_count_counter as [-> Hr],
    free_blocks_count_counter as [-> Hf].
  rewrite Hb Hr !Hf.
  split_and!; (apply counter_get_set || apply counter_get_other); lia || done || idtac.
  all: by destruct free_blocks_count_counter as [<- _].
Qed.

(** ** Groups *)
Record layout_ok (fs : ext2_filsys) : Prop := {
  lo_super : is_bytes (fs_super fs);
  lo_bpg : 0 < s_blocks_per_group (fs_super fs) < 2^31;
  lo_count : s_first_data_block (fs_super fs) < ext2fs_blocks_count (fs_super fs) < 2^64;
  lo_groups : fs_group_desc_count fs =
    (ext2fs_blocks_count (fs_super fs) - s_first_data_block (fs_super fs) - 1)
      / s_blocks_per_group (fs_super fs) + 1;
  lo_gcount : fs_group_desc_count fs < 2^32;
}.

Lemma div_interval x p g : 0 < p → x / p = g ↔ p * g ≤ x < p * g + p.
Proof.
  intros Hp. pose proof (Z.div_mod x p). pose proof (Z.mod_pos_bound x p Hp). split.
  - intros <-. lia.
  - intros Hx. symmetry. apply (Z.div_unique_pos _ _ _ (x - p * g)); lia.
Qed.

(** C31: Every block of the file system lies in the group [ext2fs_group_of_blk2]
    says: the groups' intervals [first, last] cover the blocks, they do not
    overlap, and [ext2fs_group_blocks_count] is their length. *)
Theorem group_partition fs blk g :
  layout_ok fs →
  s_first_data_block (fs_super fs) ≤ blk < ext2fs_blocks_count (fs_super fs) →
  0 ≤ g < fs_group_desc_count fs →
  0 ≤ ext2fs_group_of_blk2 fs blk < fs_group_desc_count fs ∧
  (ext2fs_group_of_blk2 fs blk = g ↔
     ext2fs_group_first_block2 fs g ≤ blk ≤ ext2fs_group_last_block2 fs g) ∧
  ext2fs_group_blocks_count fs g =
    ext2fs_group_last_block2 fs g - ext2fs_group_first_block2 fs g + 1.
Proof.
  intros [Hsb Hbpg Hcount Hgroups Hgc] Hblk Hg.
  pose proof (get32_range 20 _ Hsb) as Hfirst.
  change (get32 20 (fs_super fs)) with (s_first_data_block (fs_super fs)) in Hfirst.
  unfold ext2fs_group_of_blk2, ext2fs_group_first_block2, ext2fs_group_last_block2,
    ext2fs_group_blocks_count, ext2fs_group_first_block2, EXT2_GROUPS_TO_BLOCKS.
  set (f := s_first_data_block (fs_super fs)) in *.
  set (p := s_blocks_per_group (fs_super fs)) in *.
  set (c := ext2fs_blocks_count (fs_super fs)) in *.
  set (n := fs_group_desc_count fs) in *. clearbody f p c n.
  pose proof (Z.div_mod (c - f - 1) p) as Hd1. pose proof (Z.mod_pos_bound (c - f - 1) p) as Hm1.
  pose proof (Z.div_mod (blk - f) p) as Hd2. pose proof (Z.mod_pos_bound (blk - f) p) as Hm2.
  pose proof (div_interval (blk - f) p g ltac:(lia)) as Hint.
  set (q1 := (c - f - 1) / p) in *. set (q2 := (blk - f) / p) in *.
  set (m1 := (c - f - 1) mod p) in *. set (m2 := (blk - f) mod p) in *.
  assert (Hmod : (c - f) mod p = if decide (m1 + 1 = p) then 0 else m1 + 1).
  { case_decide.
    - symmetry. apply (Z.mod_unique_pos _ _ (q1 + 1)); lia.
    - symmetry. apply (Z.mod_unique_pos _ _ q1); lia. }
  assert (Hu : u64 (blk - f) / p = q2) by (rewrite (u64_small (blk - f)); [done|lia]). rewrite Hu.
  clearbody q1 q2 m1 m2.
  assert (0 ≤ q2 ≤ q1) by nia. assert (p * g ≤ p * q1) by nia.
  rewrite (u32_small q2); [|lia]. rewrite (u32_small (n - 1)); [|lia].
  rewrite (u64_small (p * g)); [|nia]. rewrite (u64_small (f + p * g)); [|lia].
  rewrite (u64_small (c - 1)); [|lia]. rewrite (u64_small (c - f)); [|lia]. rewrite Hmod.
  rewrite (u32_small (p - 1)); [|lia].
  destruct (decide (g = n - 1)) as [->|Hne].
  - rewrite bool_decide_eq_true_2 //. replace (n - 1) with q1 in * by lia.
    split_and!; [lia..| |].
    + rewrite Hint. lia.
    + case_decide.
      * rewrite s32_small; [|lia]. rewrite bool_decide_eq_true_2 // s32_small; lia.
      * rewrite s32_small; [|lia]. rewrite bool_decide_eq_false_2; lia.
  - rewrite bool_decide_eq_false_2 //. assert (g ≤ q1 - 1) by lia.
    assert (p * g + p ≤ p * q1) by nia.
    rewrite (u64_small (f + p * g + (p - 1))); [|lia]. split_and!; [lia..| |].
    + rewrite Hint. lia.
    + rewrite s32_small; lia.
Qed.

(** ** Super block backups *)
Lemma pow_ge_1 b k : 2 ≤ b → (1 ≤ k)%nat → b ≤ b ^ Z.of_nat k.
Proof.
  intros Hb Hk. rewrite -{1}(Z.pow_1_r b). apply Z.pow_le_mono_r; lia.
Qed.

Lemma test_root_fuel_spec n a b :
  2 ≤ b → 0 ≤ a < 2 ^ Z.of_nat n →
  ∃ r, test_root_fuel n a b = Some r ∧ (r = true ↔ ∃ k, (1 ≤ k)%nat ∧ a = b ^ Z.of_nat k) ∨
       (n = 0%nat ∧ a = 0).
Proof.
  intros Hb. revert a. induction n as [|n IH]; intros a Ha.
  { exists false. right. split; [done|]. simpl in Ha. lia. }
  cbn [test_root_fuel]. case_bool_decide as Hlt.
  { exists false. left. split; [done|]. split; [done|]. intros (k & Hk & ->).
    pose proof (pow_ge_1 b k Hb Hk). lia. }
  case_bool_decide as Heq.
  { exists true. left. split; [done|]. split; [|done]. intros _. exists 1%nat.
    split; [done|]. by rewrite Z.pow_1_r. }
  pose proof (Z.div_mod a b) as Hdm. pose proof (Z.mod_pos_bound a b) as Hmb.
  case_bool_decide as Hmod.
  { exists false. left. split; [done|]. split; [done|]. intros ([|k] & Hk & ->); [lia|].
    rewrite Nat2Z.inj_succ Z.pow_succ_r in Hmod; [|lia]. rewrite Z.mul_comm Z.mod_mul in Hmod; lia. }
  assert (a = b * (a / b)) as Hab by lia.
  rewrite Nat2Z.inj_succ Z.pow_succ_r in Ha; [|lia].
  destruct (IH (a / b)) as (r & [[Hr Hiff]|[-> H0]]); [nia| |].
  - exists r. left. split; [done|]. rewrite Hiff. split; intros (k & Hk & Hak).
    + exists (S k). split; [lia|]. rewrite Nat2Z.inj_succ Z.pow_succ_r; [|lia]. by rewrite -Hak.
    + destruct k as [|[|k]]; [lia|rewrite Z.pow_1_r in Hak; lia|].
      exists (S k). split; [lia|]. rewrite (Nat2Z.inj_succ (S k)) Z.pow_succ_r in Hak; [|lia]. nia.
  - simpl in *. lia.
Qed.

Definition power_of (b a : Z) : Prop := ∃ k, (1 ≤ k)%nat ∧ a = b ^ Z.of_nat k.

Lemma test_root_power a b : 2 ≤ b → 0 ≤ a < 2^32 → test_root a b = true ↔ power_of b a.
Proof.
  intros Hb Ha. destruct (test_root_fuel_spec 32 a b Hb Ha) as (r & [[Hr Hiff]|[? _]]); [|done].
  unfold test_root. by rewrite Hr.
Qed.

(** The loop of [test_root] ends within 32 divisions and recognises the powers;
    so with the sparse_super feature, the groups with a super block are 0, 1
    and the powers of 3, 5 and 7. *)
Theorem sparse_super_groups fs g :
  0 ≤ g < 2^32 →
  ext2fs_has_feature_sparse_super2 (fs_super fs) = false →
  ext2fs_has_feature_sparse_super (fs_super fs) = true →
  (∀ b, 2 ≤ b → is_Some (test_root_fuel 32 g b)) ∧
  (ext2fs_bg_has_super fs g = true ↔
   g = 0 ∨ g = 1 ∨ power_of 3 g ∨ power_of 5 g ∨ power_of 7 g).
Proof.
  intros Hg H2 H1. split.
  { intros b Hb. destruct (test_root_fuel_spec 32 g b Hb Hg) as (r & [[-> _]|[? _]]); by eauto. }
  unfold ext2fs_bg_has_super. rewrite H2 H1 orb_false_r.
  case_bool_decide as H0; [tauto|]. case_bool_decide as Hle; [split; [|done]; intros; lia|].
  rewrite -!test_root_power //.
  assert (Hodd : ∀ b, Z.odd b = true → power_of b g → Z.odd g = true).
  { intros b Hb (k & Hk & ->). rewrite Z.odd_pow //. lia. }
  assert (Hl : Z.land g 1 = if Z.odd g then 1 else 0).
  { change 1 with (Z.ones 1) at 1. rewrite Z.land_ones // Zmod_odd //. }
  rewrite Hl. destruct (Z.odd g) eqn:Hog; simpl.
  - rewrite !orb_true_iff. assert (g ≠ 1) by lia. generalize dependent (test_root g 3). generalize (test_root g 5), (test_root g 7). clear -H0 H. intros b5 b7 b3. destruct b3, b5, b7; naive_solver.
  - split; [done|]. intros [?|[?|[H|[H|H]]]]; [lia..| | |].
    all: rewrite ->?test_root_power in H by (lia || done).
    + apply (Hodd 3) in H; [congruence|done].
    + apply (Hodd 5) in H; [congruence|done].
    + apply (Hodd 7) in H; [congruence|done].
Qed.

(** ** Group descriptors: an array of fields *)
Inductive gd_field :=
  | GdBlockBitmap | GdInodeBitmap | GdInodeTable
  | GdFreeBlocks | GdFreeInodes | GdUsedDirs | GdItableUnused
  | GdFlags | GdChecksum.

#[export] Instance gd_field_eq_dec : EqDecision gd_field.
Proof. solve_decision. Defined.

(** The accessor that reads each field. *)
Definition gd_read (f : gd_field) : ext2_filsys → Z → option Z :=
  match f with
  | GdBlockBitmap => ext2fs_block_bitmap_loc
  | GdInodeBitmap => ext2fs_inode_bitmap_loc
  | GdInodeTable => ext2fs_inode_table_loc
  | GdFreeBlocks => ext2fs_bg_free_blocks_count
  | GdFreeInodes => ext2fs_bg_free_inodes_count
  | GdUsedDirs => ext2fs_bg_used_dirs_count
  | GdItableUnused => ext2fs_bg_itable_unused
  | GdFlags => ext2fs_bg_flags
  | GdChecksum => ext2fs_bg_checksum
  end.

(** The functions that write a descriptor, the field each of them writes, and
    what becomes of the field's value. *)
Inductive gd_writer :=
  | StoreBlockBitmap | StoreInodeBitmap | StoreInodeTable
  | StoreFreeBlocks | StoreFreeInodes | StoreUsedDirs | StoreItableUnused | StoreChecksum
  | ZapFlags | SetFlags | ClearFlags.

Definition gd_write (w : gd_writer) : ext2_filsys → Z → Z → option ext2_filsys :=
  match w with
  | StoreBlockBitmap => ext2fs_block_bitmap_loc_set
  | StoreInodeBitmap => ext2fs_inode_bitmap_loc_set
  | StoreInodeTable => ext2fs_inode_table_loc_set
  | StoreFreeBlocks => ext2fs_bg_free_blocks_count_set
  | StoreFreeInodes => ext2fs_bg_free_inodes_count_set
  | StoreUsedDirs => ext2fs_bg_used_dirs_count_set
  | StoreItableUnused => ext2fs_bg_itable_unused_set
  | StoreChecksum => ext2fs_bg_checksum_set
  | ZapFlags => λ fs g _, ext2fs_bg_flags_zap fs g
  | SetFlags => ext2fs_bg_flags_set
  | ClearFlags => ext2fs_bg_flags_clear
  end.

Definition gd_target (w : gd_writer) : gd_field :=
  match w with
  | StoreBlockBitmap => GdBlockBitmap | StoreInodeBitmap => GdInodeBitmap
  | StoreInodeTable => GdInodeTable | StoreFreeBlocks => GdFreeBlocks
  | StoreFreeInodes => GdFreeInodes | StoreUsedDirs => GdUsedDirs
  | StoreItableUnused => GdItableUnused | StoreChecksum => GdChecksum
  | ZapFlags | SetFlags | ClearFlags => GdFlags
  end.

Definition gd_result (w : gd_writer) (old v : Z) : Z :=
  match w with
  | ZapFlags => 0
  | SetFlags => Z.lor old v
  | ClearFlags => Z.land old (Z.lnot v)
  | _ => v
  end.

(** Size of a half, its offset, and the offset of the high half. *)
Definition gd_k (f : gd_field) : nat :=
  match f with GdBlockBitmap | GdInodeBitmap | GdInodeTable => 4 | _ => 2 end.
Definition gd_lo (f : gd_field) : Z :=
  match f with
  | GdBlockBitmap => 0 | GdInodeBitmap => 4 | GdInodeTable => 8 | GdFreeBlocks => 12
  | GdFreeInodes => 14 | GdUsedDirs => 16 | GdItableUnused => 28 | GdFlags => 18
  | GdChecksum => 30
  end.
Definition gd_hi (f : gd_field) : option Z :=
  match f with
  | GdBlockBitmap => Some 32 | GdInodeBitmap => Some 36 | GdInodeTable => Some 40
  | GdFreeBlocks => Some 44 | GdFreeInodes => Some 46 | GdUsedDirs => Some 48
  | GdItableUnused => Some 50 | GdFlags | GdChecksum => None
  end.

(** The number of bits the accessors of a field keep. *)
Definition gd_bits (sb : list Z) (f : gd_field) : Z :=
  let k := 8 * Z.of_nat (gd_k f) in
  match gd_hi f with
  | Some _ => if ext2fs_has_feature_64bit sb then 2 * k else k
  | None => k
  end.

(** The descriptors are in memory, and there is one per group. *)
Record gd_ok (fs : ext2_filsys) (gd : list Z) : Prop := {
  gd_some : fs_group_desc fs = Some gd;
  gd_bytes : is_bytes gd;
  gd_size : EXT2_MIN_DESC_SIZE ≤ EXT2_DESC_SIZE (fs_super fs);
  gd_size64 : ext2fs_has_feature_64bit (fs_super fs) = true → 64 ≤ EXT2_DESC_SIZE (fs_super fs);
  gd_aligned : Z.land (EXT2_DESC_SIZE (fs_super fs)) (Z.lnot 7) = EXT2_DESC_SIZE (fs_super fs);
  gd_len : Z.of_nat (length gd) = fs_group_desc_count fs * EXT2_DESC_SIZE (fs_super fs);
  gd_len32 : Z.of_nat (length gd) < 2^32;
}.

(** A field of the descriptor at [b], read and written in the buffer. *)
Definition rd_field (is64 : bool) (f : gd_field) (b : Z) (gd : list Z) : Z :=
  let l := get_le (gd_k f) (b + gd_lo f) gd in
  match gd_hi f with
  | Some h => if is64 then Z.lor l (Z.shiftl (get_le (gd_k f) (b + h) gd) (8 * Z.of_nat (gd_k f)))
              else l
  | None => l
  end.

Definition wr_field (is64 : bool) (f : gd_field) (b v : Z) (gd : list Z) : list Z :=
  let gd := set_le (gd_k f) (b + gd_lo f) v gd in
  match gd_hi f with
  | Some h => if is64 then set_le (gd_k f) (b + h) (Z.shiftr v (8 * Z.of_nat (gd_k f))) gd else gd
  | None => gd
  end.

(** The pieces of a descriptor do not overlap. *)
Definition pieces (is64 : bool) (f : gd_field) : list Z :=
  gd_lo f :: match gd_hi f with Some h => if is64 then [h] else [] | None => [] end.

Lemma pieces_bound is64 f o : o ∈ pieces is64 f →
  0 ≤ o ∧ o + Z.of_nat (gd_k f) ≤ if is64 then 64 else 32.
Proof. destruct f, is64; simpl; set_unfold; lia. Qed.

Lemma pieces_disjoint is64 f f' o o' :
  o ∈ pieces is64 f → o' ∈ pieces is64 f' → f ≠ f' →
  o + Z.of_nat (gd_k f) ≤ o' ∨ o' + Z.of_nat (gd_k f') ≤ o.
Proof. destruct f, f', is64; simpl; set_unfold; lia || done. Qed.

Lemma lor_shift_join n v : 0 ≤ n →
  Z.lor (v mod 2^n) (Z.shiftl (Z.shiftr v n mod 2^n) n) = v mod 2^(2 * n).
Proof.
  intros Hn. apply Z.bits_inj'. intros i Hi.
  rewrite Z.lor_spec Z.shiftl_spec // !Z.testbit_mod_pow2; [|lia..].
  destruct (decide (i < n)).
  - rewrite (proj2 (Z.ltb_lt i n)) // (proj2 (Z.ltb_lt i (2 * n))); [|lia].
    rewrite (Z.testbit_neg_r _ (i - n)); [|lia]. by rewrite andb_false_r orb_false_r.
  - rewrite (proj2 (Z.ltb_ge i n)); [|lia]. simpl.
    rewrite Z.shiftr_spec; [|lia]. replace (i - n + n) with i by lia. f_equal. lia.
Qed.

Lemma wr_bytes is64 f b v gd : is_bytes gd → is_bytes (wr_field is64 f b v gd).
Proof.
  intros Hb. unfold wr_field. destruct (gd_hi f); [destruct is64|]; by repeat apply set_le_bytes.
Qed.

Section gd.
Context (is64 : bool) (ds : Z) (Hds : (if is64 then 64 else 32) ≤ ds).

(** The descriptor at [b] lies in the buffer. *)
Definition gd_in (b : Z) (gd : list Z) : Prop := 0 ≤ b ∧ b + ds ≤ Z.of_nat (length gd).

Lemma piece_in_buf f o b gd : gd_in b gd → o ∈ pieces is64 f → in_buf (gd_k f) (b + o) gd.
Proof. intros [? ?] Ho%pieces_bound. split; lia. Qed.

Lemma length_wr f b v gd : gd_in b gd → length (wr_field is64 f b v gd) = length gd.
Proof.
  intros Hb. pose proof (λ o, piece_in_buf f o b gd Hb) as Hin. unfold wr_field, pieces in *.
  destruct (gd_hi f) as [h|] eqn:Hh; [destruct is64|]; rewrite ?length_set_le //;
    try apply in_buf_set; apply Hin; set_solver.
Qed.

(** A read of another piece does not see the write. *)
Lemma get_wr_ne f b v gd k o :
  gd_in b gd → 0 ≤ o →
  (∀ p, p ∈ pieces is64 f → o + Z.of_nat k ≤ b + p ∨ b + p + Z.of_nat (gd_k f) ≤ o) →
  get_le k o (wr_field is64 f b v gd) = get_le k o gd.
Proof.
  intros Hb Ho Hdis. pose proof (λ o, piece_in_buf f o b gd Hb) as Hin.
  unfold wr_field, pieces in *.
  destruct (gd_hi f) as [h|] eqn:Hh; [destruct is64|];
    rewrite ?get_set_le_ne //; try apply in_buf_set; try apply Hin; try apply Hdis; set_solver.
Qed.

Lemma rd_wr_ne f b v gd f' b' :
  gd_in b gd → gd_in b' gd → f ≠ f' ∨ b + ds ≤ b' ∨ b' + ds ≤ b → b = b' ∨ b + ds ≤ b' ∨ b' + ds ≤ b →
  rd_field is64 f' b' (wr_field is64 f b v gd) = rd_field is64 f' b' gd.
Proof.
  intros Hb Hb' Hne Hbb. assert (0 < ds) by (destruct is64; lia).
  assert (Hp : ∀ o, o ∈ pieces is64 f' →
    get_le (gd_k f') (b' + o) (wr_field is64 f b v gd) = get_le (gd_k f') (b' + o) gd).
  { intros o Ho. pose proof (pieces_bound _ _ _ Ho). destruct Hb, Hb'.
    apply get_wr_ne; [done|lia|]. intros p Hp. pose proof (pieces_bound _ _ _ Hp).
    destruct (decide (b = b')) as [->|]; [|lia].
    destruct (decide (f = f')) as [->|Hff]; [exfalso; destruct Hne as [?|?]; [done|lia]|].
    pose proof (pieces_disjoint _ _ _ _ _ Hp Ho Hff). lia. }
  unfold rd_field, pieces in *.
  destruct (gd_hi f') as [h|]; [destruct is64|]; rewrite ?Hp //; set_solver.
Qed.

Lemma rd_wr_eq f b v gd :
  gd_in b gd → 0 ≤ v →
  rd_field is64 f b (wr_field is64 f b v gd) =
    v mod 2 ^ (match gd_hi f with
               | Some _ => if is64 then 2 * (8 * Z.of_nat (gd_k f)) else 8 * Z.of_nat (gd_k f)
               | None => 8 * Z.of_nat (gd_k f) end).
Proof.
  intros Hb Hv. pose proof (λ o, piece_in_buf f o b gd Hb) as Hin.
  assert (Hpow : 256 ^ Z.of_nat (gd_k f) = 2 ^ (8 * Z.of_nat (gd_k f))).
  { rewrite Z.pow_mul_r; [|lia..]. done. }
  assert (Hd : ∀ h, gd_hi f = Some h → gd_lo f + Z.of_nat (gd_k f) ≤ h).
  { destruct f; simpl; intros ? [= <-]; lia. }
  unfold rd_field, wr_field, pieces in *.
  destruct (gd_hi f) as [h|]; [destruct is64|].
  - assert (in_buf (gd_k f) (b + gd_lo f) gd) by (apply Hin; set_solver).
    assert (in_buf (gd_k f) (b + h) gd) by (apply Hin; set_solver).
    specialize (Hd h eq_refl).
    rewrite get_set_le_ne; [|by apply in_buf_set|by destruct H|lia].
    rewrite !get_set_le //; [|by apply in_buf_set]. rewrite Hpow lor_shift_join //. lia.
  - rewrite get_set_le ?Hpow //. apply Hin; set_solver.
  - rewrite get_set_le ?Hpow //. apply Hin; set_solver.
Qed.
End gd.

Section gd_fs.
Context (fs : ext2_filsys) (gd : list Z) (Hok : gd_ok fs gd).
Let sb := fs_super fs.
Let ds := EXT2_DESC_SIZE sb.
Let is64 := ext2fs_has_feature_64bit sb.

Lemma gd_ds : (if is64 then 64 else 32) ≤ ds.
Proof.
  destruct Hok. unfold ds, sb. destruct is64 eqn:H64; [by auto|]. done.
Qed.

Lemma gd_in_group g : 0 ≤ g < fs_group_desc_count fs → gd_in ds (g * ds) gd.
Proof.
  intros Hg. pose proof gd_ds. destruct Hok. fold sb ds in gd_len0.
  assert (0 ≤ ds) by (destruct is64; lia). split; nia.
Qed.

Lemma group_desc_eq g : 0 ≤ g < fs_group_desc_count fs →
  ext2fs_group_desc fs (fs_group_desc fs) g = Some (gd, g * ds).
Proof.
  intros Hg. pose proof gd_ds. destruct (gd_in_group g Hg) as [? Hlt]. destruct Hok.
  unfold ext2fs_group_desc. fold sb ds. fold sb ds in gd_aligned0.
  assert (0 < ds) by (destruct is64; lia).
  rewrite bool_decide_eq_false_2; [|lia]. rewrite bool_decide_eq_false_2; [|lia].
  rewrite gd_some0 gd_aligned0 u32_small //. nia.
Qed.

Lemma gd_get_eq k o g : 0 ≤ g < fs_group_desc_count fs → 0 ≤ o → o + Z.of_nat k ≤ ds →
  gd_get k o fs g = Some (get_le k (g * ds + o) gd).
Proof.
  intros Hg Ho Hk. destruct (gd_in_group g Hg). unfold gd_get. rewrite group_desc_eq //=.
  rewrite decide_True //. split; lia.
Qed.

Lemma gd_set_eq k o v g : 0 ≤ g < fs_group_desc_count fs → 0 ≤ o → o + Z.of_nat k ≤ ds →
  gd_set k o v fs g = Some (set_group_desc (set_le k (g * ds + o) v gd) fs).
Proof.
  intros Hg Ho Hk. destruct (gd_in_group g Hg). unfold gd_set. rewrite group_desc_eq //=.
  rewrite decide_True //; [|split; lia]. by destruct Hok as [-> _ _ _ _ _ _].
Qed.

Lemma gd_ok_set gd' : is_bytes gd' → length gd' = length gd → gd_ok (set_group_desc gd' fs) gd'.
Proof. intros ? Hl. destruct Hok. constructor; rewrite ?Hl //. Qed.

Lemma gd_read_eq f g : 0 ≤ g < fs_group_desc_count fs →
  gd_read f fs g = Some (rd_field is64 f (g * ds) gd).
Proof.
  intros Hg. pose proof gd_ds as Hds.
  destruct f; unfold gd_read, ext2fs_block_bitmap_loc, ext2fs_inode_bitmap_loc,
    ext2fs_inode_table_loc, ext2fs_bg_free_blocks_count, ext2fs_bg_free_inodes_count,
    ext2fs_bg_used_dirs_count, ext2fs_bg_itable_unused, ext2fs_bg_flags, ext2fs_bg_checksum,
    gd_get_hilo, rd_field; cbn [gd_k gd_hi gd_lo];
    unfold bg_block_bitmap, bg_inode_bitmap, bg_inode_table, bg_free_blocks_count,
      bg_free_inodes_count, bg_used_dirs_count, bg_flags, bg_itable_unused, bg_checksum,
      bg_block_bitmap_hi, bg_inode_bitmap_hi, bg_inode_table_hi, bg_free_blocks_count_hi,
      bg_free_inodes_count_hi, bg_used_dirs_count_hi, bg_itable_unused_hi.
  all: fold sb is64; destruct is64; rewrite !gd_get_eq //; lia.
Qed.
End gd_fs.

Lemma gd_write_eq fs gd w g v : gd_ok fs gd → 0 ≤ g < fs_group_desc_count fs →
  let is64 := ext2fs_has_feature_64bit (fs_super fs) in
  let b := g * EXT2_DESC_SIZE (fs_super fs) in
  let f := gd_target w in
  gd_write w fs g v =
    Some (set_group_desc (wr_field is64 f b (gd_result w (rd_field is64 f b gd) v) gd) fs).
Proof.
  intros Hok Hg. pose proof (gd_ds fs gd Hok) as Hds. pose proof (gd_in_group fs gd Hok g Hg) as [? ?].
  assert (Hset : ∀ k o v, 0 ≤ o → o + Z.of_nat k ≤ EXT2_DESC_SIZE (fs_super fs) →
    gd_ok (set_group_desc (set_le k (g * EXT2_DESC_SIZE (fs_super fs) + o) v gd) fs)
      (set_le k (g * EXT2_DESC_SIZE (fs_super fs) + o) v gd)).
  { intros k o v' ? ?. apply (gd_ok_set _ gd); [done|apply set_le_bytes, Hok|].
    apply length_set_le. split; lia. }
  assert (32 ≤ EXT2_DESC_SIZE (fs_super fs)) by (destruct ext2fs_has_feature_64bit; lia).
  assert (gd_get 2 bg_flags fs g = Some (get_le 2 (g * EXT2_DESC_SIZE (fs_super fs) + bg_flags) gd)) as Hfl
    by (apply gd_get_eq; unfold bg_flags; done || lia).
  destruct w; unfold gd_write, ext2fs_block_bitmap_loc_set, ext2fs_inode_bitmap_loc_set,
    ext2fs_inode_table_loc_set, ext2fs_bg_free_blocks_count_set, ext2fs_bg_free_inodes_count_set,
    ext2fs_bg_used_dirs_count_set, ext2fs_bg_itable_unused_set, ext2fs_bg_checksum_set,
    ext2fs_bg_flags_zap, ext2fs_bg_flags_set, ext2fs_bg_flags_clear,
    gd_set_hilo, wr_field, rd_field; rewrite ?Hfl; cbv zeta; cbn [gd_k gd_hi gd_lo gd_target gd_result];
    unfold bg_block_bitmap, bg_inode_bitmap, bg_inode_table, bg_free_blocks_count,
      bg_free_inodes_count, bg_used_dirs_count, bg_flags, bg_itable_unused, bg_checksum,
      bg_block_bitmap_hi, bg_inode_bitmap_hi, bg_inode_table_hi, bg_free_blocks_count_hi,
      bg_free_inodes_count_hi, bg_used_dirs_count_hi, bg_itable_unused_hi; cbn [mbind option_bind].
  all: destruct (ext2fs_has_feature_64bit (fs_super fs)) eqn:H64;
    rewrite (gd_set_eq fs gd Hok) //; try lia; cbn [mbind option_bind];
    change (fs_super (set_group_desc _ fs)) with (fs_super fs); rewrite ?H64 //.
  all: erewrite (gd_set_eq (set_group_desc _ fs)); [|apply Hset; lia|done|lia|cbn; lia]; done.
Qed.

Lemma gd_result_nonneg is64 w b v gd : is_bytes gd → 0 ≤ v →
  0 ≤ gd_result w (rd_field is64 (gd_target w) b gd) v.
Proof.
  intros Hb Hv. pose proof (get_le_range 2 (b + 18) gd Hb) as [Hr _].
  destruct w; [done..| | |]; unfold rd_field; cbn [gd_result gd_target gd_hi gd_lo gd_k]; [done| |].
  - by apply Z.lor_nonneg.
  - apply Z.land_nonneg. by left.
Qed.

(** The parts of a descriptor that the writers of blknum.c leave alone, with
    their offsets and sizes: the place of the exclude bitmap, the checksums of
    the bitmaps (stored by csum.c), in their halves, and the reserved word. *)
Definition gd_rest : list (Z * nat) :=
  [(20, 4%nat); (bg_block_bitmap_csum_lo, 2%nat); (bg_inode_bitmap_csum_lo, 2%nat);
   (52, 4%nat); (bg_block_bitmap_csum_hi, 2%nat); (bg_inode_bitmap_csum_hi, 2%nat); (60, 4%nat)].

Lemma gd_rest_pieces is64 f p o k : (o, k) ∈ gd_rest → p ∈ pieces is64 f →
  o + Z.of_nat k ≤ p ∨ p + Z.of_nat (gd_k f) ≤ o.
Proof.
  unfold gd_rest, bg_block_bitmap_csum_lo, bg_inode_bitmap_csum_lo, bg_block_bitmap_csum_hi,
    bg_inode_bitmap_csum_hi.
  destruct f, is64; simpl; set_unfold; intros Ho Hp;
    repeat (destruct Ho as [[= -> ->]|Ho]; [simpl in *; lia|]); done.
Qed.

Lemma gd_rest_bound o k : (o, k) ∈ gd_rest → 0 ≤ o.
Proof.
  assert (Forall (λ p : Z * nat, 0 ≤ p.1) gd_rest) as H by (unfold gd_rest; by repeat constructor).
  rewrite Forall_forall in H. apply H.
Qed.

Lemma bitmap_checksums_same fs fs' g :
  fs_super fs' = fs_super fs → 32 ≤ EXT2_DESC_SIZE (fs_super fs) →
  (∀ o k, (o, k) ∈ gd_rest → o + Z.of_nat k ≤ EXT2_DESC_SIZE (fs_super fs) →
     gd_get k o fs' g = gd_get k o fs g) →
  ext2fs_block_bitmap_checksum fs' g = ext2fs_block_bitmap_checksum fs g ∧
  ext2fs_inode_bitmap_checksum fs' g = ext2fs_inode_bitmap_checksum fs g.
Proof.
  intros Hs Hds Hg. unfold ext2fs_block_bitmap_checksum, ext2fs_inode_bitmap_checksum. rewrite Hs.
  rewrite (Hg bg_block_bitmap_csum_lo 2%nat); [|unfold gd_rest; set_solver|unfold bg_block_bitmap_csum_lo; lia].
  rewrite (Hg bg_inode_bitmap_csum_lo 2%nat); [|unfold gd_rest; set_solver|unfold bg_inode_bitmap_csum_lo; lia].
  split; case_bool_decide as Hd; try done.
  - by rewrite (Hg bg_block_bitmap_csum_hi 2%nat); [|unfold gd_rest; set_solver|].
  - by rewrite (Hg bg_inode_bitmap_csum_hi 2%nat); [|unfold gd_rest; set_solver|].
Qed.

(** C30: The descriptors are an array of independent fields: each function that
    writes one leaves in its field of the group the value it has to, cut to the
    field's width (the value given, for the flags also none, their union with
    those given or their difference), and every reader returns what it did
    before for every other field and group; the exclude bitmap's place, the
    bitmaps' checksums and the reserved word, which none of them writes, are
    what they were in every group. *)
Theorem group_desc_fields fs gd w g v :
  gd_ok fs gd → 0 ≤ g < fs_group_desc_count fs → 0 ≤ v →
  ∃ fs' gd' old, gd_read (gd_target w) fs g = Some old ∧
    gd_write w fs g v = Some fs' ∧ gd_ok fs' gd' ∧ fs_super fs' = fs_super fs ∧
    fs_group_desc_count fs' = fs_group_desc_count fs ∧
    (∀ f' g', 0 ≤ g' < fs_group_desc_count fs →
      gd_read f' fs' g' =
        if decide (f' = gd_target w ∧ g' = g)
        then Some (gd_result w old v mod 2 ^ gd_bits (fs_super fs) f') else gd_read f' fs g') ∧
    ∀ g', 0 ≤ g' < fs_group_desc_count fs →
      ext2fs_block_bitmap_checksum fs' g' = ext2fs_block_bitmap_checksum fs g' ∧
      ext2fs_inode_bitmap_checksum fs' g' = ext2fs_inode_bitmap_checksum fs g' ∧
      ∀ o k, (o, k) ∈ gd_rest → o + Z.of_nat k ≤ EXT2_DESC_SIZE (fs_super fs) →
        gd_get k o fs' g' = gd_get k o fs g'.
Proof.
  intros Hok Hg Hv. rewrite (gd_write_eq fs gd) // (gd_read_eq fs gd Hok) //. cbv zeta.
  pose proof (gd_ds fs gd Hok) as Hds. pose proof (gd_in_group fs gd Hok g Hg) as Hin.
  set (ds := EXT2_DESC_SIZE (fs_super fs)) in *. set (r := gd_result w _ v). set (gd' := wr_field _ _ _ _ _).
  assert (Hr : 0 ≤ r) by (apply gd_result_nonneg; [apply Hok|done]).
  assert (Hok' : gd_ok (set_group_desc gd' fs) gd').
  { apply (gd_ok_set _ gd); [done|apply wr_bytes, Hok|]. by apply (length_wr _ _ Hds _ _ _ _ Hin). }
  assert (Hapart : ∀ g', g ≠ g' → g * ds + ds ≤ g' * ds ∨ g' * ds + ds ≤ g * ds).
  { intros g' ?. assert (0 < ds) by (destruct ext2fs_has_feature_64bit; lia). nia. }
  assert (Hrest : ∀ g', 0 ≤ g' < fs_group_desc_count fs → ∀ o k, (o, k) ∈ gd_rest →
    o + Z.of_nat k ≤ ds → gd_get k o (set_group_desc gd' fs) g' = gd_get k o fs g').
  { intros g' Hg' o k Ho Hk. pose proof (gd_rest_bound _ _ Ho).
    rewrite (gd_get_eq _ gd' Hok') // (gd_get_eq _ gd Hok) //. f_equal.
    pose proof (gd_in_group fs gd Hok g' Hg') as [? ?].
    apply (get_wr_ne _ ds Hds); [done|lia|]. intros p Hp. pose proof (pieces_bound _ _ _ Hp).
    destruct (decide (g = g')) as [->|Hne].
    - pose proof (gd_rest_pieces _ _ _ _ _ Ho Hp). lia.
    - destruct (Hapart g' Hne); fold ds; destruct ext2fs_has_feature_64bit; lia. }
  exists (set_group_desc gd' fs), gd'. eexists. split_and!; [done..| |].
  - intros f' g' Hg'. pose proof (gd_in_group fs gd Hok g' Hg') as Hin'.
    rewrite (gd_read_eq _ gd' Hok') // (gd_read_eq _ gd Hok) //.
    change (fs_super (set_group_desc gd' fs)) with (fs_super fs). fold ds. unfold gd'.
    case_decide as Hd.
    + destruct Hd as [-> ->]. f_equal. apply (rd_wr_eq _ _ Hds _ _ _ _ Hin Hr).
    + f_equal. apply (rd_wr_ne _ _ Hds); [done..| |].
      * destruct (decide (gd_target w = f')) as [<-|]; [right|by left]. apply Hapart. naive_solver.
      * destruct (decide (g = g')) as [->|]; [by left|right; auto].
  - intros g' Hg'. assert (32 ≤ ds) by (destruct ext2fs_has_feature_64bit; lia).
    destruct (bitmap_checksums_same fs (set_group_desc gd' fs) g'); [done..|by apply Hrest|].
    split_and!; [done..|by apply Hrest].
Qed.

(** ** The size of an inode *)
Definition EXT2_I_SIZE (inode : list Z) : Z :=
  Z.lor (i_size inode) (Z.shiftl (i_size_high inode) 32).

(** What the super block must record for a file of [2^31] bytes or more. *)
Definition size_feature (sb : list Z) (inode : list Z) : bool :=
  (LINUX_S_ISREG (i_mode inode) && ext2fs_has_feature_large_file sb) ||
  (LINUX_S_ISDIR (i_mode inode) && ext2fs_has_feature_largedir sb).

Lemma set_size_roundtrip inode size :
  in_buf 4 108 inode → 0 ≤ size < 2^64 →
  let inode' := set32 108 (u32 (Z.shiftr size 32)) (set32 4 (Z.land size 4294967295) inode) in
  EXT2_I_SIZE inode' = size ∧ i_mode inode' = i_mode inode ∧
  ∀ k off, 0 ≤ off → off + Z.of_nat k ≤ 4 ∨ (8 ≤ off ∧ off + Z.of_nat k ≤ 108) ∨ 112 ≤ off →
    get_le k off inode' = get_le k off inode.
Proof.
  intros Hb Hs inode'.
  assert (in_buf 4 4 inode) as Hb4 by (destruct Hb; split; lia).
  assert (Hne : ∀ k off, 0 ≤ off →
    off + Z.of_nat k ≤ 4 ∨ (8 ≤ off ∧ off + Z.of_nat k ≤ 108) ∨ 112 ≤ off →
    get_le k off inode' = get_le k off inode).
  { intros k off ? ?. unfold inode'.
    rewrite get_set_le_ne; [|by apply in_buf_set|done|lia].
    rewrite get_set_le_ne //; lia. }
  split; [|split; [|done]].
  - unfold EXT2_I_SIZE, i_size, i_size_high, inode'.
    rewrite get_set_le_ne; [|by apply in_buf_set|lia|lia].
    rewrite !get_set_le //; [|by apply in_buf_set].
    change (256 ^ Z.of_nat 4) with (2^32). change 4294967295 with (Z.ones 32).
    rewrite Z.land_ones // Z.mod_mod // /u32 Z.mod_mod //.
    by apply join_halves.
  - unfold i_mode. apply Hne; lia.
Qed.

Lemma lor_bit_set x b : 0 < b < 2^32 → Z.land (Z.lor x b mod 2^32) b ≠ 0.
Proof.
  intros Hb. rewrite -Z.land_ones // -Z.land_assoc (Z.land_comm (Z.ones 32)) Z.land_ones //.
  rewrite Z.mod_small; [|lia]. rewrite Z.land_lor_distr_l Z.land_diag.
  intros H%Z.lor_eq_0_iff. lia.
Qed.

(** Setting a feature bit for a large inode, as [ext2fs_inode_size_set] does. *)
Lemma set_size_feature fs off bit :
  length (fs_super fs) = SUPERBLOCK_SIZE → 92 ≤ off ≤ 100 → 0 < bit < 2^32 →
  let fs1 := set_super (set32 off (Z.lor (get32 off (fs_super fs)) bit) (fs_super fs)) fs in
  let fs2 := ext2fs_mark_super_dirty
      (if bool_decide (s_rev_level (fs_super fs1) = EXT2_GOOD_OLD_REV)
       then ext2fs_update_dynamic_rev fs1 else fs1) in
  bool_decide (Z.land (get32 off (fs_super fs2)) bit ≠ 0) = true ∧ 0 ≠ s_rev_level (fs_super fs2).
Proof.
  intros Hl Hoff Hbit fs1 fs2.
  assert (Hin : ∀ k' o, 0 ≤ o → o + Z.of_nat k' ≤ 1024 → in_buf k' o (fs_super fs)).
  { intros. split; [done|]. rewrite Hl. done. }
  assert (Hin1 : ∀ k' o, 0 ≤ o → o + Z.of_nat k' ≤ 1024 → in_buf k' o (fs_super fs1)).
  { intros. apply in_buf_set; apply Hin; lia. }
  assert (Hget : get32 off (fs_super fs1) = Z.lor (get32 off (fs_super fs)) bit mod 2^32).
  { apply (get_set_le 4). apply Hin; lia. }
  unfold fs2. clearbody fs1. clear fs2. rewrite bool_decide_eq_true.
  case_bool_decide as Hrev; simpl.
  2: { unfold EXT2_GOOD_OLD_REV in Hrev. split; [|lia]. rewrite Hget. by apply lor_bit_set. }
  unfold ext2fs_update_dynamic_rev. rewrite Hrev. simpl. unfold s_rev_level.
  assert (Hin2 := λ v, in_buf_set 2 88 _ _ _ v (Hin1 2%nat 88 ltac:(lia) ltac:(lia)) (Hin1 4%nat 76 ltac:(lia) ltac:(lia))).
  assert (Hin3 := λ v, in_buf_set 4 84 _ _ _ v (Hin1 4%nat 84 ltac:(lia) ltac:(lia)) (Hin1 4%nat 76 ltac:(lia) ltac:(lia))).
  assert (Hin4 := λ v v', in_buf_set 2 88 _ _ _ v' (Hin2 v) (Hin3 v)).
  rewrite !(get_set_le_ne _ _ 2 88) ?(get_set_le_ne _ _ 4 84); try lia; try done.
  rewrite get_set_le; [|apply Hin1; lia]. rewrite get_set_le_ne ?Hget; [|apply Hin1; lia|lia|lia].
  split; [by apply lor_bit_set|done].
Qed.

(** Setting the size of an inode: negative sizes are refused, a size of
    [2^31] or more is refused for anything but a file or a directory, and
    otherwise the inode's 64-bit size reads back as the one set, nothing else
    of the inode changes, and the super block has the feature that such a
    size needs and, if it was set here, a dynamic revision. *)
Theorem inode_size_set_correct fs inode size :
  super_ok (fs_super fs) → in_buf 4 108 inode → size < 2^63 →
  let '(err, fs', inode') := ext2fs_inode_size_set fs inode size in
  (size < 0 ∧ err = EINVAL ∧ fs' = fs ∧ inode' = inode) ∨
  (2^31 ≤ size ∧ LINUX_S_ISREG (i_mode inode) = false ∧ LINUX_S_ISDIR (i_mode inode) = false ∧
   err = EXT2_ET_FILE_TOO_BIG ∧ fs' = fs ∧ inode' = inode) ∨
  (0 ≤ size ∧ err = E_OK ∧ EXT2_I_SIZE inode' = size ∧
   (∀ k off, 0 ≤ off → off + Z.of_nat k ≤ 4 ∨ (8 ≤ off ∧ off + Z.of_nat k ≤ 108) ∨ 112 ≤ off →
      get_le k off inode' = get_le k off inode) ∧
   (if bool_decide (size < 2^31) || size_feature (fs_super fs) inode then fs' = fs
    else size_feature (fs_super fs') inode' = true ∧ 0 ≠ s_rev_level (fs_super fs'))).
Proof.
  intros [Hsb Hl] Hb Hs. unfold ext2fs_inode_size_set.
  case_bool_decide as Hneg; [by left|].
  destruct (set_size_roundtrip inode size Hb) as (Hsize & Hmode & Hne); [lia|].
  unfold ext2fs_needs_large_file_feature.
  case_bool_decide as Hbig.
  2: { right; right. split_and!; [lia|done..|]. by rewrite bool_decide_eq_true_2 //; lia. }
  rewrite (bool_decide_eq_false_2 (size < 2^31)); [|lia]. simpl.
  destruct (LINUX_S_ISREG (i_mode inode)) eqn:Hreg.
  - assert (LINUX_S_ISDIR (i_mode inode) = false) as Hdir.
    { unfold LINUX_S_ISREG, LINUX_S_ISDIR in *. apply bool_decide_eq_true in Hreg.
      apply bool_decide_eq_false. rewrite Hreg. done. }
    unfold size_feature. rewrite Hreg Hdir orb_false_r. simpl.
    destruct (ext2fs_has_feature_large_file (fs_super fs)) eqn:Hf; right; right; [split_and!; [lia|done..]|].
    split_and!; [lia|done..| |]; rewrite ?Hmode ?Hreg /=;
      [apply orb_true_iff; left|]; by apply (set_size_feature fs 100 2).
  - destruct (LINUX_S_ISDIR (i_mode inode)) eqn:Hdir.
    + unfold size_feature. rewrite Hreg Hdir. simpl.
      destruct (ext2fs_has_feature_largedir (fs_super fs)) eqn:Hf; right; right; [split_and!; [lia|done..]|].
      split_and!; [lia|done..| |]; rewrite ?Hmode ?Hreg ?Hdir /=;
        by apply (set_size_feature fs 96 16384).
    + right; left. split_and!; done.
Qed.

(** ** A small file system: 100 blocks of 1024 bytes in 4 groups of 32 *)
Definition demo_super : list Z :=
  set32 20 1 (set32 4 100 (set32 32 32 (set32 100 1 (replicate SUPERBLOCK_SIZE 0)))).
Definition demo_gd : list Z := replicate 128 0.
Definition demo_fs : ext2_filsys :=
  Filsys EXT2_ET_MAGIC_EXT2FS_FILSYS demo_super 0 1024 4 1 2 0 0 0 (Some demo_gd) (λ _, None).

Lemma demo_super_ok : super_ok demo_super.
Proof. split; [repeat apply set_le_bytes; by apply Forall_replicate|done]. Qed.

Lemma demo_layout_ok : layout_ok demo_fs.
Proof. constructor; try done. apply demo_super_ok. Qed.

Lemma demo_gd_ok : gd_ok demo_fs demo_gd.
Proof. constructor; try done. by apply Forall_replicate. Qed.

Lemma super_counters_witness :
  ext2fs_blocks_count (ext2fs_blocks_count_set demo_super 500) = counter_fits demo_super 500.
Proof. apply (super_counters demo_super 500); [reflexivity|split; reflexivity || done]. Defined.

Lemma group_partition_witness :
  ext2fs_group_of_blk2 demo_fs 70 = 2 ∧ ext2fs_group_blocks_count demo_fs 2 = 32.
Proof.
  destruct (group_partition demo_fs 70 2 demo_layout_ok) as (_ & Hg & Hc);
    [done..|split].
  - apply Hg. done.
  - rewrite Hc. reflexivity.
Defined.

Lemma sparse_super_groups_witness : ext2fs_bg_has_super demo_fs 27 = true.
Proof.
  apply (sparse_super_groups demo_fs 27); [done|reflexivity|reflexivity|].
  right; right; left. exists 3%nat. split; [lia|reflexivity].
Defined.

Lemma group_desc_fields_witness :
  ∃ fs', ext2fs_inode_table_loc_set demo_fs 2 70000 = Some fs' ∧
    ext2fs_inode_table_loc fs' 2 = Some 70000 ∧ ext2fs_inode_table_loc fs' 3 = Some 0.
Proof.
  destruct (group_desc_fields demo_fs demo_gd StoreInodeTable 2 70000 demo_gd_ok)
    as (fs' & gd' & old & _ & Hw & _ & _ & _ & Hr & _); [done..|].
  exists fs'. split; [exact Hw|].
  split; [apply (Hr GdInodeTable 2); done|apply (Hr GdInodeTable 3); done].
Defined.

Lemma inode_size_set_witness :
  let inode := set16 0 32768 (replicate 128 0) in
  let '(err, fs', inode') := ext2fs_inode_size_set demo_fs inode (2^33) in
  err = E_OK ∧ EXT2_I_SIZE inode' = 2^33 ∧ size_feature (fs_super fs') inode' = true.
Proof.
  intros inode.
  pose proof (inode_size_set_correct demo_fs inode (2^33) demo_super_ok) as H.
  destruct (ext2fs_inode_size_set demo_fs inode (2^33)) as [[err fs'] inode'] eqn:E.
  destruct H as [(H & _)|[(_ & H & _)|(_ & -> & Hs & _ & Hf)]]; [split; done|done|lia|discriminate H|].
  split_and!; [done..|]. apply Hf.
Defined.
