(* ===== verification/Csum.v ===== *)
(** * Csum: checksums of the on-disk structures (csum.c)

    Every checksum that csum.c computes, stores and verifies, but for
    [ext2fs_set_gdt_csum], which walks the inode bitmap and is in Alloc.
    A structure is the byte buffer that holds it; a function that stores a
    checksum returns the new buffer, and a verification returns whether it
    accepts.  [ext2fs_read_inode] reads the device: it is a parameter. The
    theorems are in CsumProps. *)
From S2P Require Import Prelude.
From S2P Require Import Bytes.
From S2P Require Import Super.
From S2P Require Import Crc.
From S2P Require Import Blknum.
#[local] Open Scope Z_scope.

(** The checksum does not depend on the address of the buffer
    ([crc_bitwise]); the definitions below give it address 0. *)
Definition crc32c (crc : Z) (p : list Z) : Z := ext2fs_crc32c_le crc 0 p.

(** [~0] as the seed. *)
Definition all_ones : Z := 2^32 - 1.

Definition EXT2_CRC32C_CHKSUM : Z := 1.
Definition EXT2_INODE_SIZE (sb : list Z) : Z :=
  if bool_decide (s_rev_level sb = EXT2_GOOD_OLD_REV) then EXT2_GOOD_OLD_INODE_SIZE
  else s_inode_size sb.

Definition ext2fs_init_csum_seed (fs : ext2_filsys) : ext2_filsys :=
  if ext2fs_has_feature_csum_seed (fs_super fs) then
    set_csum_seed (s_checksum_seed (fs_super fs)) fs
  else if ext2fs_has_feature_metadata_csum (fs_super fs) || ext2fs_has_feature_ea_inode (fs_super fs)
  then set_csum_seed (crc32c all_ones (s_uuid (fs_super fs))) fs
  else fs.

(** ** Multiple mount protection *)
Definition mmp_checksum_off : Z := 1020.

Definition ext2fs_mmp_csum (fs : ext2_filsys) (mmp : list Z) : Z :=
  crc32c (fs_csum_seed fs) (take (Z.to_nat mmp_checksum_off) mmp).

Definition ext2fs_mmp_csum_verify (fs : ext2_filsys) (mmp : list Z) : bool :=
  if negb (ext2fs_has_feature_metadata_csum (fs_super fs)) then true else
  bool_decide (get32 mmp_checksum_off mmp = ext2fs_mmp_csum fs mmp).

Definition ext2fs_mmp_csum_set (fs : ext2_filsys) (mmp : list Z) : errcode * list Z :=
  if negb (ext2fs_has_feature_metadata_csum (fs_super fs)) then (E_OK, mmp) else
  (E_OK, set32 mmp_checksum_off (ext2fs_mmp_csum fs mmp) mmp).

(** ** The super block *)
Definition ext2fs_verify_csum_type (fs : ext2_filsys) (sb : list Z) : bool :=
  if negb (ext2fs_has_feature_metadata_csum (fs_super fs)) then true else
  bool_decide (s_checksum_type sb = EXT2_CRC32C_CHKSUM).

Definition s_checksum_off : Z := 1020.

Definition ext2fs_superblock_csum (fs : ext2_filsys) (sb : list Z) : Z :=
  crc32c all_ones (take (Z.to_nat s_checksum_off) sb).

Definition ext2fs_superblock_csum_verify (fs : ext2_filsys) (sb : list Z) : bool :=
  if bool_decide (Z.land (s_feature_ro_compat (fs_super fs)) EXT4_FEATURE_RO_COMPAT_METADATA_CSUM = 0)
  then true
  else bool_decide (s_checksum sb = ext2fs_superblock_csum fs sb).

Definition ext2fs_superblock_csum_set (fs : ext2_filsys) (sb : list Z) : errcode * list Z :=
  if bool_decide (Z.land (s_feature_ro_compat (fs_super fs)) EXT4_FEATURE_RO_COMPAT_METADATA_CSUM = 0)
  then (E_OK, sb)
  else (E_OK, set32 s_checksum_off (ext2fs_superblock_csum fs sb) sb).

(** ** Blocks of extended attributes *)
Definition h_checksum_off : Z := 16.

Definition ext2fs_ext_attr_block_csum (fs : ext2_filsys) (block : Z) (hdr : list Z) : Z :=
  let buf := set32 h_checksum_off 0 hdr in
  let crc := crc32c (fs_csum_seed fs) (le_encode 8 block) in
  crc32c crc (take (Z.to_nat (fs_blocksize fs)) buf).

Definition ext2fs_ext_attr_block_csum_verify (fs : ext2_filsys) (block : Z) (hdr : list Z) : bool :=
  if negb (ext2fs_has_feature_metadata_csum (fs_super fs)) then true else
  bool_decide (get32 h_checksum_off hdr = ext2fs_ext_attr_block_csum fs block hdr).

Definition ext2fs_ext_attr_block_csum_set (fs : ext2_filsys) (block : Z) (hdr : list Z) :
    errcode * list Z :=
  if negb (ext2fs_has_feature_metadata_csum (fs_super fs)) then (E_OK, hdr) else
  (E_OK, set32 h_checksum_off (ext2fs_ext_attr_block_csum fs block hdr) hdr).

(** ** Directory blocks

    The offsets of the count and limit of a hash tree node, and of the tail
    entry of a block of entries, or why there is none. *)
Definition sizeof_dx_entry : Z := 8.
Definition sizeof_dx_tail : Z := 8.
Definition sizeof_dx_root_info : Z := 8.
Definition sizeof_dirent_tail : Z := 12.
Definition EXT2_DIR_NAME_LEN_CSUM : Z := 0xDE00.

Definition dirent_rec_len (off : Z) (buf : list Z) : Z := get16 (off + 4) buf.
Definition dirent_name_len (off : Z) (buf : list Z) : Z := get16 (off + 6) buf.

Definition dx_limit (off : Z) (buf : list Z) : Z := get16 off buf.
Definition dx_count (off : Z) (buf : list Z) : Z := get16 (off + 2) buf.

Definition __get_dx_countlimit (fs : ext2_filsys) (dirent : list Z) : errcode * Z :=
  let rec_len := dirent_rec_len 0 dirent in
  let found count_offset :=
    let max_sane_entries := u32 (fs_blocksize fs - count_offset) / sizeof_dx_entry in
    if bool_decide (max_sane_entries < dx_limit count_offset dirent ∨
                    max_sane_entries < dx_count count_offset dirent)
    then (EXT2_ET_DIR_NO_SPACE_FOR_CSUM, 0)
    else (E_OK, count_offset) in
  if bool_decide (rec_len = fs_blocksize fs ∧ dirent_name_len 0 dirent = 0) then found 8
  else if bool_decide (rec_len = 12) then
    let dp := rec_len in
    let rec_len := dirent_rec_len dp dirent in
    if bool_decide (rec_len ≠ u32 (fs_blocksize fs - 12)) then (EXT2_ET_DB_NOT_FOUND, 0) else
    let root := dp + 12 in
    if bool_decide (get32 root dirent ≠ 0 ∨ get8 (root + 5) dirent ≠ sizeof_dx_root_info)
    then (EXT2_ET_DB_NOT_FOUND, 0)
    else found 32
  else (EXT2_ET_DB_NOT_FOUND, 0).

Definition ext2fs_get_dx_countlimit (fs : ext2_filsys) (dirent : list Z) : errcode * Z :=
  __get_dx_countlimit fs dirent.

(** [while ((void * ) d < top)]: each entry takes at least 8 bytes. *)
Fixpoint dirent_walk (fuel : nat) (buf : list Z) (top d : Z) : option (errcode * Z) :=
  match fuel with
  | O => None
  | S fuel =>
      if bool_decide (d < top) then
        let rec_len := dirent_rec_len d buf in
        if bool_decide (rec_len < 8 ∨ Z.land rec_len 3 ≠ 0) then Some (EXT2_ET_DIR_CORRUPTED, d)
        else dirent_walk fuel buf top (d + rec_len)
      else Some (E_OK, d)
  end.

Definition __get_dirent_tail (fs : ext2_filsys) (dirent : list Z) : errcode * Z :=
  if bool_decide (fs_blocksize fs < 1024) then (EXT2_FILSYS_CORRUPTED, 0) else
  let top := fs_blocksize fs - sizeof_dirent_tail in
  match dirent_walk (S (Z.to_nat top)) dirent top 0 with
  | None => (EXT2_FILSYS_CORRUPTED, 0)
  | Some (retval, d) =>
      if bool_decide (retval ≠ E_OK) then (retval, 0) else
      if bool_decide (fs_blocksize fs < d) then (EXT2_ET_DIR_CORRUPTED, 0) else
      if bool_decide (d ≠ top) then (EXT2_ET_DIR_NO_SPACE_FOR_CSUM, 0) else
      if bool_decide (get32 d dirent ≠ 0 ∨ dirent_rec_len d dirent ≠ sizeof_dirent_tail ∨
                      dirent_name_len d dirent ≠ EXT2_DIR_NAME_LEN_CSUM)
      then (EXT2_ET_DIR_NO_SPACE_FOR_CSUM, 0)
      else (E_OK, d)
  end.

Definition ext2fs_dirent_has_tail (fs : ext2_filsys) (dirent : list Z) : bool :=
  bool_decide ((__get_dirent_tail fs dirent).1 ≠ EXT2_ET_DIR_NO_SPACE_FOR_CSUM).

Section inodes.
Variable ext2fs_read_inode : ext2_filsys → Z → errcode * list Z.

(** The seed with the number and the generation of the inode. *)
Definition inum_gen_csum (fs : ext2_filsys) (inum gen : Z) : Z :=
  crc32c (crc32c (fs_csum_seed fs) (le_encode 4 inum)) (le_encode 4 gen).

Definition ext2fs_dirent_csum (fs : ext2_filsys) (inum : Z) (dirent : list Z) (size : Z) :
    errcode * Z :=
  let '(retval, inode) := ext2fs_read_inode fs inum in
  if bool_decide (retval ≠ E_OK) then (retval, 0) else
  (E_OK, crc32c (inum_gen_csum fs inum (i_generation inode)) (take (Z.to_nat size) dirent)).

Definition det_checksum_off (t : Z) : Z := t + 8.

Definition ext2fs_dirent_csum_verify (fs : ext2_filsys) (inum : Z) (dirent : list Z) : bool :=
  let '(retval, t) := __get_dirent_tail fs dirent in
  if bool_decide (retval ≠ E_OK) then true else
  let '(retval, calculated) := ext2fs_dirent_csum fs inum dirent t in
  if bool_decide (retval ≠ E_OK) then false else
  bool_decide (get32 (det_checksum_off t) dirent = calculated).

Definition ext2fs_dirent_csum_set (fs : ext2_filsys) (inum : Z) (dirent : list Z) :
    errcode * list Z :=
  let '(retval, t) := __get_dirent_tail fs dirent in
  if bool_decide (retval ≠ E_OK) then (retval, dirent) else
  let '(retval, crc) := ext2fs_dirent_csum fs inum dirent t in
  if bool_decide (retval ≠ E_OK) then (retval, dirent) else
  (E_OK, set32 (det_checksum_off t) crc dirent).

(** With the offset of the [struct ext2_dx_tail]. *)
Definition ext2fs_dx_csum (fs : ext2_filsys) (inum : Z) (dirent : list Z) : errcode * (Z * Z) :=
  let '(retval, count_offset) := __get_dx_countlimit fs dirent in
  if bool_decide (retval ≠ E_OK) then (retval, (0, 0)) else
  let limit := dx_limit count_offset dirent in
  let count := dx_count count_offset dirent in
  if bool_decide (fs_blocksize fs - sizeof_dx_tail < count_offset + limit * sizeof_dx_entry)
  then (EXT2_ET_DIR_NO_SPACE_FOR_CSUM, (0, 0)) else
  let t := count_offset + limit * sizeof_dx_entry in
  let size := count_offset + count * sizeof_dx_entry in
  let '(retval, inode) := ext2fs_read_inode fs inum in
  if bool_decide (retval ≠ E_OK) then (retval, (0, 0)) else
  let crc := inum_gen_csum fs inum (i_generation inode) in
  let crc := crc32c crc (take (Z.to_nat size) dirent) in
  let crc := crc32c crc (take 4 (drop (Z.to_nat t) dirent)) in
  (E_OK, (crc32c crc [0; 0; 0; 0], t)).

Definition dt_checksum_off (t : Z) : Z := t + 4.

Definition ext2fs_dx_csum_verify (fs : ext2_filsys) (inum : Z) (dirent : list Z) : bool :=
  let '(retval, (calculated, t)) := ext2fs_dx_csum fs inum dirent in
  if bool_decide (retval ≠ E_OK) then false else
  bool_decide (get32 (dt_checksum_off t) dirent = calculated).

Definition ext2fs_dx_csum_set (fs : ext2_filsys) (inum : Z) (dirent : list Z) : errcode * list Z :=
  let '(retval, (crc, t)) := ext2fs_dx_csum fs inum dirent in
  if bool_decide (retval ≠ E_OK) then (retval, dirent) else
  (E_OK, set32 (dt_checksum_off t) crc dirent).

Definition EXT2_FLAG_IGNORE_CSUM_ERRORS : Z := 0x200000.

Definition ext2fs_dir_block_csum_verify (fs : ext2_filsys) (inum : Z) (dirent : list Z) : bool :=
  if negb (ext2fs_has_feature_metadata_csum (fs_super fs)) then true else
  if bool_decide ((__get_dirent_tail fs dirent).1 = E_OK) then ext2fs_dirent_csum_verify fs inum dirent else
  if bool_decide ((__get_dx_countlimit fs dirent).1 = E_OK) then ext2fs_dx_csum_verify fs inum dirent
  else false.

Definition ext2fs_dir_block_csum_set (fs : ext2_filsys) (inum : Z) (dirent : list Z) :
    errcode * list Z :=
  if negb (ext2fs_has_feature_metadata_csum (fs_super fs)) then (E_OK, dirent) else
  if bool_decide ((__get_dirent_tail fs dirent).1 = E_OK) then ext2fs_dirent_csum_set fs inum dirent else
  if bool_decide ((__get_dx_countlimit fs dirent).1 = E_OK) then ext2fs_dx_csum_set fs inum dirent else
  if bool_decide (Z.land (fs_flags fs) EXT2_FLAG_IGNORE_CSUM_ERRORS ≠ 0) then (E_OK, dirent)
  else (EXT2_ET_DIR_NO_SPACE_FOR_CSUM, dirent).

(** ** Blocks of extents

    The place of the checksum comes from the block itself: [None] is an access
    outside the block. *)
Definition eh_max (eh : list Z) : Z := get16 4 eh.
Definition EXT3_EXTENT_TAIL_OFFSET (eh : list Z) : Z := 12 + 12 * eh_max eh.

Definition ext2fs_extent_block_csum (fs : ext2_filsys) (inum : Z) (eh : list Z) : option (errcode * Z) :=
  let size := EXT3_EXTENT_TAIL_OFFSET eh in
  let '(retval, inode) := ext2fs_read_inode fs inum in
  if bool_decide (retval ≠ E_OK) then Some (retval, 0) else
  if bool_decide (Z.of_nat (length eh) < size) then None else
  Some (E_OK, crc32c (inum_gen_csum fs inum (i_generation inode)) (take (Z.to_nat size) eh)).

Definition ext2fs_extent_block_csum_verify (fs : ext2_filsys) (inum : Z) (eh : list Z) : option bool :=
  let t := EXT3_EXTENT_TAIL_OFFSET eh in
  if negb (ext2fs_has_feature_metadata_csum (fs_super fs)) then Some true else
  if decide (in_buf 4 t eh) then
    let provided := get32 t eh in
    r ← ext2fs_extent_block_csum fs inum eh;
    if bool_decide (r.1 ≠ E_OK) then Some false else
    Some (bool_decide (provided = r.2))
  else None.

Definition ext2fs_extent_block_csum_set (fs : ext2_filsys) (inum : Z) (eh : list Z) :
    option (errcode * list Z) :=
  let t := EXT3_EXTENT_TAIL_OFFSET eh in
  if negb (ext2fs_has_feature_metadata_csum (fs_super fs)) then Some (E_OK, eh) else
  r ← ext2fs_extent_block_csum fs inum eh;
  if bool_decide (r.1 ≠ E_OK) then Some (r.1, eh) else
  if decide (in_buf 4 t eh) then Some (E_OK, set32 t r.2 eh) else None.
End inodes.

(** ** Inodes *)
Definition i_checksum_lo_off : Z := 124.
Definition i_checksum_hi_off : Z := 130.

Definition ext2fs_inode_csum (fs : ext2_filsys) (inum : Z) (inode : list Z) (has_hi : bool) : Z :=
  let inode0 := set16 i_checksum_lo_off 0 inode in
  let inode0 := if has_hi then set16 i_checksum_hi_off 0 inode0 else inode0 in
  crc32c (inum_gen_csum fs inum (i_generation inode0))
    (take (Z.to_nat (EXT2_INODE_SIZE (fs_super fs))) inode0).

Definition inode_has_hi (fs : ext2_filsys) (inode : list Z) : bool :=
  bool_decide (EXT2_GOOD_OLD_INODE_SIZE < EXT2_INODE_SIZE (fs_super fs) ∧
               EXT4_INODE_CSUM_HI_EXTRA_END ≤ i_extra_isize inode).

Definition ext2fs_inode_csum_verify (fs : ext2_filsys) (inum : Z) (inode : list Z) : bool :=
  if negb (ext2fs_has_feature_metadata_csum (fs_super fs)) then true else
  let has_hi := inode_has_hi fs inode in
  let provided := i_checksum_lo inode in
  let calculated := ext2fs_inode_csum fs inum inode has_hi in
  let provided := if has_hi then Z.lor provided (u32 (Z.shiftl (i_checksum_hi inode) 16)) else provided in
  let calculated := if has_hi then calculated else Z.land calculated 0xFFFF in
  if bool_decide (provided = calculated) then true else
  forallb (λ b, bool_decide (b = 0)) (take 128 inode).

Definition ext2fs_inode_csum_set (fs : ext2_filsys) (inum : Z) (inode : list Z) : errcode * list Z :=
  if negb (ext2fs_has_feature_metadata_csum (fs_super fs)) then (E_OK, inode) else
  let has_hi := inode_has_hi fs inode in
  let crc := ext2fs_inode_csum fs inum inode has_hi in
  let inode := set16 i_checksum_lo_off (Z.land crc 0xFFFF) inode in
  (E_OK, if has_hi then set16 i_checksum_hi_off (Z.shiftr crc 16) inode else inode).

(** ** Bitmaps

    The checksum of a bitmap is in the group descriptor, its high half only
    when the descriptor is large enough.  [bitmap] is the first [size] bytes
    of the block; [None] is an access outside the descriptors. *)
Definition bitmap_csum_verify (lo hi last : Z) (fs : ext2_filsys) (group : Z) (bitmap : list Z) :
    option bool :=
  if negb (ext2fs_has_feature_metadata_csum (fs_super fs)) then Some true else
  provided ← gd_get 2 lo fs group;
  let calculated := crc32c (fs_csum_seed fs) bitmap in
  if bool_decide (last ≤ EXT2_DESC_SIZE (fs_super fs)) then
    h ← gd_get 2 hi fs group;
    Some (bool_decide (Z.lor provided (u32 (Z.shiftl h 16)) = calculated))
  else Some (bool_decide (provided = Z.land calculated 0xFFFF)).

Definition bitmap_csum_set (lo hi last : Z) (fs : ext2_filsys) (group : Z) (bitmap : list Z) :
    option (errcode * ext2_filsys) :=
  if negb (ext2fs_has_feature_metadata_csum (fs_super fs)) then Some (E_OK, fs) else
  let crc := crc32c (fs_csum_seed fs) bitmap in
  fs ← gd_set 2 lo (Z.land crc 0xFFFF) fs group;
  if bool_decide (last ≤ EXT2_DESC_SIZE (fs_super fs)) then
    fs ← gd_set 2 hi (Z.shiftr crc 16) fs group;
    Some (E_OK, fs)
  else Some (E_OK, fs).

Definition ext2fs_inode_bitmap_csum_verify : ext2_filsys → Z → list Z → option bool :=
  bitmap_csum_verify bg_inode_bitmap_csum_lo bg_inode_bitmap_csum_hi EXT4_BG_INODE_BITMAP_CSUM_HI_END.
Definition ext2fs_inode_bitmap_csum_set : ext2_filsys → Z → list Z → option (errcode * ext2_filsys) :=
  bitmap_csum_set bg_inode_bitmap_csum_lo bg_inode_bitmap_csum_hi EXT4_BG_INODE_BITMAP_CSUM_HI_END.
Definition ext2fs_block_bitmap_csum_verify : ext2_filsys → Z → list Z → option bool :=
  bitmap_csum_verify bg_block_bitmap_csum_lo bg_block_bitmap_csum_hi EXT4_BG_BLOCK_BITMAP_CSUM_HI_LOCATION.
Definition ext2fs_block_bitmap_csum_set : ext2_filsys → Z → list Z → option (errcode * ext2_filsys) :=
  bitmap_csum_set bg_block_bitmap_csum_lo bg_block_bitmap_csum_hi EXT4_BG_BLOCK_BITMAP_CSUM_HI_LOCATION.

(** ** Group descriptors *)
Definition group_desc_csum_bytes (fs : ext2_filsys) (group : Z) (desc : list Z) : Z :=
  if ext2fs_has_feature_metadata_csum (fs_super fs) then
    let crc32 := crc32c (fs_csum_seed fs) (le_encode 4 group) in
    Z.land (crc32c crc32 (set16 bg_checksum 0 desc)) 0xFFFF
  else
    let crc := ext2fs_crc16 0xFFFF (s_uuid (fs_super fs)) in
    let crc := ext2fs_crc16 crc (le_encode 4 group) in
    let crc := ext2fs_crc16 crc (take (Z.to_nat bg_checksum) desc) in
    ext2fs_crc16 crc (drop (Z.to_nat bg_checksum + 2) desc).

Definition ext2fs_group_desc_csum (fs : ext2_filsys) (group : Z) : option Z :=
  '(buf, base) ← ext2fs_group_desc fs (fs_group_desc fs) group;
  let size := EXT2_DESC_SIZE (fs_super fs) in
  if decide (in_buf (Z.to_nat size) base buf)
  then Some (group_desc_csum_bytes fs group (take (Z.to_nat size) (drop (Z.to_nat base) buf)))
  else None.

Definition ext2fs_group_desc_csum_verify (fs : ext2_filsys) (group : Z) : option bool :=
  if ext2fs_has_group_desc_csum fs then
    provided ← ext2fs_bg_checksum fs group;
    calculated ← ext2fs_group_desc_csum fs group;
    Some (bool_decide (provided = calculated))
  else Some true.

Definition ext2fs_group_desc_csum_set (fs : ext2_filsys) (group : Z) : option ext2_filsys :=
  if negb (ext2fs_has_group_desc_csum fs) then Some fs else
  csum ← ext2fs_group_desc_csum fs group;
  ext2fs_bg_checksum_set fs group csum.
