(* ===== verification/CsumProps.v ===== *)
(** * CsumProps: what the checksums of Csum guarantee

    What is stored is accepted, with everything but the field left alone; a
    structure in which up to four consecutive bytes are changed afterwards, or
    that turns up in the place of another, is not; and the walk over the
    entries of a directory block ends. *)
From S2P Require Import Prelude.
From S2P Require Import Bytes.
From S2P Require Import Super.
From S2P Require Import Crc.
From S2P Require Import Blknum.
From S2P Require Import Csum.
#[local] Open Scope Z_scope.

(** ** Lemmas on checksums *)
Lemma crc32c_range crc p : 0 ≤ crc < 2^32 → is_bytes p → 0 ≤ crc32c crc p < 2^32.
Proof.
  intros Hc Hp. unfold crc32c. rewrite crc32c_bytewise //.
  apply (le_bitwise_range 32); [lia|done..].
Qed.

Lemma crc32c_inj crc crc' p : 0 ≤ crc < 2^32 → 0 ≤ crc' < 2^32 → is_bytes p →
  crc32c crc p = crc32c crc' p → crc = crc'.
Proof.
  intros Hc Hc' Hp. unfold crc32c. rewrite !crc32c_bytewise //.
  apply (le_bitwise_inj 32); [lia|done..].
Qed.

Lemma all_ones_range : 0 ≤ all_ones < 2^32.
Proof. unfold all_ones. lia. Qed.

(** [burst a n b b']: the buffers [b] and [b'] differ, and only in the [n]
    bytes from [a]. *)
Record burst (a : Z) (n : nat) (b b' : list Z) : Prop := Burst {
  burst_length : length b = length b';
  burst_in : in_buf n a b;
  burst_same : ∀ i : nat, Z.of_nat i < a ∨ a + Z.of_nat n ≤ Z.of_nat i → b !! i = b' !! i;
  burst_ne : b ≠ b';
}.

Lemma burst_split a n b b' : burst a n b b' →
  ∃ pre w w' post, b = pre ++ w ++ post ∧ b' = pre ++ w' ++ post ∧
    length w = n ∧ length w' = n ∧ w ≠ w'.
Proof.
  intros [Hl [Ha Hin] Hs Hne].
  exists (take (Z.to_nat a) b), (take n (drop (Z.to_nat a) b)), (take n (drop (Z.to_nat a) b')),
    (drop n (drop (Z.to_nat a) b)).
  assert (Hpre : take (Z.to_nat a) b' = take (Z.to_nat a) b).
  { apply list_eq. intros i. destruct (decide (i < Z.to_nat a)%nat).
    - rewrite !lookup_take_lt //. symmetry. apply Hs. lia.
    - rewrite !lookup_take_ge //; lia. }
  assert (Hpost : drop n (drop (Z.to_nat a) b') = drop n (drop (Z.to_nat a) b)).
  { apply list_eq. intros i. rewrite !lookup_drop. symmetry. apply Hs. lia. }
  assert (Hb' : b' = take (Z.to_nat a) b ++ take n (drop (Z.to_nat a) b') ++ drop n (drop (Z.to_nat a) b)).
  { rewrite -Hpost take_drop -Hpre take_drop //. }
  assert (Hb : b = take (Z.to_nat a) b ++ take n (drop (Z.to_nat a) b) ++ drop n (drop (Z.to_nat a) b)).
  { rewrite !take_drop //. }
  split_and!; [exact Hb|exact Hb'|rewrite length_take length_drop; lia..|].
  intros Heq. apply Hne. rewrite Hb Hb'. by rewrite Heq.
Qed.

Lemma crc32c_burst crc pre w w' post :
  0 ≤ crc < 2^32 → is_bytes pre → is_bytes w → is_bytes w' → is_bytes post →
  length w = length w' → (length w ≤ 4)%nat → w ≠ w' →
  crc32c crc (pre ++ w ++ post) ≠ crc32c crc (pre ++ w' ++ post).
Proof.
  intros Hc Hpre Hw Hw' Hpost Hl Hlen Hne. unfold crc32c.
  rewrite !crc32c_bytewise //; [|by apply Forall_app_2, Forall_app_2..].
  apply (le_bitwise_burst 32); [lia|done..|lia|done].
Qed.

#[local] Opaque crc32c.

(** A burst of at most four bytes changes the checksum. *)
Lemma burst_crc a n b b' crc : burst a n b b' → (n ≤ 4)%nat → 0 ≤ crc < 2^32 →
  is_bytes b → is_bytes b' → crc32c crc b ≠ crc32c crc b'.
Proof.
  intros (pre & w & w' & post & -> & -> & Hw & Hw' & Hne)%burst_split Hn Hc Hb Hb'.
  unfold is_bytes in Hb, Hb'. rewrite !Forall_app in Hb Hb'.
  destruct Hb as (Hp & Hbw & Hpost), Hb' as (_ & Hbw' & _).
  apply crc32c_burst; [done..|by rewrite Hw Hw'|by rewrite Hw|done].
Qed.

Lemma burst_take a n b b' (m : nat) : burst a n b b' → a + Z.of_nat n ≤ Z.of_nat m →
  burst a n (take m b) (take m b').
Proof.
  intros [Hl [Ha Hin] Hs Hne] Hm. constructor.
  - rewrite !length_take. lia.
  - split; [done|]. rewrite length_take. lia.
  - intros i Hi. destruct (decide (i < m)%nat).
    + rewrite !lookup_take_lt //. by apply Hs.
    + rewrite !lookup_take_ge //; lia.
  - intros Heq. apply Hne, list_eq. intros i. destruct (decide (i < m)%nat); [|apply Hs; lia].
    rewrite -(lookup_take_lt b m i) // Heq lookup_take_lt //.
Qed.

Lemma lookup_set_le_eq k off v b (i : nat) : in_buf k off b → off ≤ Z.of_nat i < off + Z.of_nat k →
  set_le k off v b !! i = le_encode k v !! (i - Z.to_nat off)%nat.
Proof.
  intros [Hoff Hin] Hi. unfold set_le.
  assert (length (take (Z.to_nat off) b) = Z.to_nat off) as Hl by (rewrite length_take; lia).
  assert (length (take (Z.to_nat off) b) ≤ i)%nat by lia.
  assert (i - Z.to_nat off < length (le_encode k v))%nat by (rewrite length_le_encode; lia).
  rewrite lookup_app_r // Hl lookup_app_l //.
Qed.

(** The field does not meet the burst. *)
Definition apart (k : nat) (off a : Z) (n : nat) : Prop :=
  off + Z.of_nat k ≤ a ∨ a + Z.of_nat n ≤ off.

Lemma burst_get a n b b' k off : burst a n b b' → 0 ≤ off → apart k off a n →
  get_le k off b = get_le k off b'.
Proof.
  intros Hb Hoff Hap. apply get_le_ext; [|done]. intros i Hi. apply (burst_same _ _ _ _ Hb).
  unfold apart in Hap. lia.
Qed.

Lemma burst_set a n b b' k off v : burst a n b b' → in_buf k off b → apart k off a n →
  burst a n (set_le k off v b) (set_le k off v b').
Proof.
  intros [Hl Hin Hs Hne] Hoff Hap.
  assert (Hoff' : in_buf k off b') by (unfold in_buf in *; lia).
  assert (Hd : ∀ i : nat, off ≤ Z.of_nat i < off + Z.of_nat k →
    set_le k off v b !! i = set_le k off v b' !! i).
  { intros i Hi. by rewrite !lookup_set_le_eq. }
  constructor.
  - rewrite !length_set_le //.
  - split; [apply Hin|]. rewrite length_set_le //. apply Hin.
  - intros i Hi. destruct (decide (off ≤ Z.of_nat i < off + Z.of_nat k)) as [Ho|Ho]; [by apply Hd|].
    rewrite !lookup_set_le_ne //; [by apply Hs|lia..].
  - intros Heq. apply Hne, list_eq. intros i.
    destruct (decide (off ≤ Z.of_nat i < off + Z.of_nat k)) as [Ho|Ho].
    + apply Hs. unfold apart in Hap. lia.
    + rewrite -(lookup_set_le_ne k off v b) //; [|lia]. rewrite Heq. apply lookup_set_le_ne; [done|lia].
Qed.

(** Writing a field twice. *)
Lemma set_set_le k off v v' b : in_buf k off b → set_le k off v (set_le k off v' b) = set_le k off v b.
Proof.
  intros Hin. pose proof (in_buf_set k off b k off v' Hin Hin) as Hin'.
  pose proof (length_set_le k off v' b Hin) as Hl.
  apply list_eq. intros i. destruct (decide (Z.of_nat i < off ∨ off + Z.of_nat k ≤ Z.of_nat i)) as [Ho|Ho].
  - rewrite !lookup_set_le_ne //.
  - rewrite !lookup_set_le_eq //; lia.
Qed.

(** A field past the first [m] bytes does not change them. *)
Lemma take_set_le (m : nat) k off v b : in_buf k off b → Z.of_nat m ≤ off →
  take m (set_le k off v b) = take m b.
Proof.
  intros Hin Hm. apply list_eq. intros i. destruct (decide (i < m)%nat).
  - rewrite !lookup_take_lt //. apply lookup_set_le_ne; [done|lia].
  - rewrite !lookup_take_ge //; lia.
Qed.

(** A stored checksum that does not depend on its own field is what is read back. *)
Lemma stored32 (f : list Z → Z) off b : in_buf 4 off b → 0 ≤ f b < 2^32 → f (set32 off (f b) b) = f b →
  get32 off (set32 off (f b) b) = f (set32 off (f b) b).
Proof. intros Hin Hf Heq. rewrite get_set_le // Heq Z.mod_small //. Qed.

(** The seeds that the checksums start from. *)
Definition seed_ok (fs : ext2_filsys) : Prop := 0 ≤ fs_csum_seed fs < 2^32.

Lemma seed_bytes_range fs k v : seed_ok fs → 0 ≤ crc32c (fs_csum_seed fs) (le_encode k v) < 2^32.
Proof. intros Hs. apply crc32c_range; [done|apply le_encode_bytes]. Qed.

Lemma inum_gen_csum_range fs inum gen : seed_ok fs → 0 ≤ inum_gen_csum fs inum gen < 2^32.
Proof. intros Hs. apply crc32c_range; [by apply seed_bytes_range|apply le_encode_bytes]. Qed.

Lemma mmp_csum_range fs b : seed_ok fs → is_bytes b → 0 ≤ ext2fs_mmp_csum fs b < 2^32.
Proof. intros Hs Hb. apply crc32c_range; [done|by apply Forall_take]. Qed.

Lemma superblock_csum_range fs b : is_bytes b → 0 ≤ ext2fs_superblock_csum fs b < 2^32.
Proof. intros Hb. apply crc32c_range; [apply all_ones_range|by apply Forall_take]. Qed.

Lemma ext_attr_csum_range fs block b : seed_ok fs → is_bytes b →
  0 ≤ ext2fs_ext_attr_block_csum fs block b < 2^32.
Proof.
  intros Hs Hb. apply crc32c_range; [by apply seed_bytes_range|]. by apply Forall_take, set_le_bytes.
Qed.

Lemma inode_csum_range fs inum inode has_hi : seed_ok fs → is_bytes inode →
  0 ≤ ext2fs_inode_csum fs inum inode has_hi < 2^32.
Proof.
  intros Hs Hb. apply crc32c_range; [by apply inum_gen_csum_range|]. apply Forall_take.
  by destruct has_hi; repeat apply set_le_bytes.
Qed.

(** An inode in memory is as large as on disk. *)
Record inode_ok (fs : ext2_filsys) (inode : list Z) : Prop := InodeOk {
  inode_bytes : is_bytes inode;
  inode_length : Z.of_nat (length inode) = EXT2_INODE_SIZE (fs_super fs);
  inode_size : EXT2_INODE_SIZE (fs_super fs) = EXT2_GOOD_OLD_INODE_SIZE ∨
               256 ≤ EXT2_INODE_SIZE (fs_super fs);
}.

Lemma inode_in_lo fs inode : inode_ok fs inode → in_buf 2 i_checksum_lo_off inode.
Proof. intros [_ Hl Hs]. unfold EXT2_GOOD_OLD_INODE_SIZE in Hs. unfold i_checksum_lo_off. split; lia. Qed.

Lemma inode_in_hi fs inode : inode_ok fs inode → inode_has_hi fs inode = true →
  in_buf 2 i_checksum_hi_off inode.
Proof.
  intros [_ Hl Hs] [Hh _]%bool_decide_eq_true. unfold EXT2_GOOD_OLD_INODE_SIZE in *.
  unfold i_checksum_hi_off. split; lia.
Qed.

(** The fields of the checksum are those of the checksum only. *)
Lemma inode_has_hi_set fs inode k off v : in_buf k off inode → apart 2 128 off k →
  inode_has_hi fs (set_le k off v inode) = inode_has_hi fs inode.
Proof.
  intros Hin Hap. unfold inode_has_hi, i_extra_isize. by rewrite get_set_le_ne.
Qed.

Lemma set_set_le_comm k off v k' off' v' b : in_buf k off b → in_buf k' off' b → apart k off off' k' →
  set_le k off v (set_le k' off' v' b) = set_le k' off' v' (set_le k off v b).
Proof.
  intros Hin Hin' Hap. unfold apart in Hap.
  pose proof (in_buf_set _ _ _ _ _ v' Hin Hin'). pose proof (in_buf_set _ _ _ _ _ v Hin' Hin).
  apply list_eq. intros i.
  destruct (decide (off ≤ Z.of_nat i < off + Z.of_nat k)) as [Ho|Ho].
  - rewrite lookup_set_le_eq // lookup_set_le_ne //; [|lia]. by rewrite lookup_set_le_eq.
  - rewrite (lookup_set_le_ne k off v (set_le k' off' v' b)) //; [|lia].
    destruct (decide (off' ≤ Z.of_nat i < off' + Z.of_nat k')) as [Ho'|Ho'].
    + by rewrite !lookup_set_le_eq.
    + rewrite !lookup_set_le_ne //; lia.
Qed.

(** The inode with its checksum cleared, which is what the checksum is of. *)
Definition inode_cleared (has_hi : bool) (inode : list Z) : list Z :=
  let inode0 := set16 i_checksum_lo_off 0 inode in
  if has_hi then set16 i_checksum_hi_off 0 inode0 else inode0.

Lemma inode_csum_cleared fs inum inode has_hi :
  ext2fs_inode_csum fs inum inode has_hi =
    crc32c (inum_gen_csum fs inum (i_generation (inode_cleared has_hi inode)))
      (take (Z.to_nat (EXT2_INODE_SIZE (fs_super fs))) (inode_cleared has_hi inode)).
Proof. reflexivity. Qed.

Lemma inode_cleared_set has_hi inode lo hi :
  in_buf 2 i_checksum_lo_off inode → (has_hi = true → in_buf 2 i_checksum_hi_off inode) →
  inode_cleared has_hi (if has_hi then set16 i_checksum_hi_off hi (set16 i_checksum_lo_off lo inode)
                        else set16 i_checksum_lo_off lo inode) = inode_cleared has_hi inode.
Proof.
  intros Hlo Hhi. unfold inode_cleared. destruct has_hi; [|by apply set_set_le].
  specialize (Hhi eq_refl).
  assert (Hap : apart 2 i_checksum_lo_off i_checksum_hi_off 2).
  { unfold apart, i_checksum_lo_off, i_checksum_hi_off. lia. }
  assert (H1 : in_buf 2 i_checksum_hi_off (set16 i_checksum_lo_off lo inode)) by by apply in_buf_set.
  rewrite (set_set_le_comm 2 i_checksum_lo_off); [|by apply in_buf_set|done|done].
  rewrite (set_set_le 2 i_checksum_hi_off); [|by repeat apply in_buf_set].
  by rewrite set_set_le.
Qed.

Lemma split16 crc : 0 ≤ crc < 2^32 →
  Z.lor (Z.land crc 0xFFFF mod 2^16) (u32 (Z.shiftl (Z.shiftr crc 16 mod 2^16) 16)) = crc.
Proof.
  intros Hc. change 0xFFFF with (Z.ones 16). rewrite Z.land_ones // Z.mod_mod //.
  rewrite u32_small.
  - rewrite lor_shift_join // Z.mod_small //.
  - rewrite Z.shiftl_mul_pow2 //. pose proof (Z.mod_pos_bound (Z.shiftr crc 16) (2^16) eq_refl). lia.
Qed.

(** The checksum of an inode, once stored, is the one that is read back. *)
Lemma inode_csum_stored fs inum inode : seed_ok fs → inode_ok fs inode →
  let r := ext2fs_inode_csum_set fs inum inode in
  r.1 = E_OK ∧ ext2fs_inode_csum_verify fs inum r.2 = true ∧ length r.2 = length inode ∧
  ∀ i : nat, Z.of_nat i ∉ seqZ 124 2 ++ seqZ 130 2 → r.2 !! i = inode !! i.
Proof.
  intros Hs Hok r. unfold r, ext2fs_inode_csum_set, ext2fs_inode_csum_verify.
  destruct (ext2fs_has_feature_metadata_csum (fs_super fs)); [|done]. cbn [negb fst snd].
  set (has_hi := inode_has_hi fs inode). set (crc := ext2fs_inode_csum fs inum inode has_hi).
  pose proof (inode_in_lo _ _ Hok) as Hlo.
  assert (Hhi : has_hi = true → in_buf 2 i_checksum_hi_off inode) by (intros; by eapply inode_in_hi).
  set (lo := set16 i_checksum_lo_off (Z.land crc 0xFFFF) inode).
  set (out := if has_hi then set16 i_checksum_hi_off (Z.shiftr crc 16) lo else lo).
  assert (Hcrc : 0 ≤ crc < 2^32) by (apply inode_csum_range; [done|apply Hok]).
  assert (Hin : has_hi = true → in_buf 2 i_checksum_hi_off lo) by (intros; apply in_buf_set; auto).
  assert (Hout : inode_has_hi fs out = has_hi).
  { unfold out. destruct has_hi eqn:Eh; unfold lo;
      rewrite ?inode_has_hi_set ?Eh //; auto; unfold apart, i_checksum_lo_off, i_checksum_hi_off; lia. }
  assert (Hcs : ext2fs_inode_csum fs inum out has_hi = crc).
  { pose proof (inode_cleared_set has_hi inode (Z.land crc 0xFFFF) (Z.shiftr crc 16) Hlo Hhi) as Hcl.
    fold lo in Hcl. fold out in Hcl. unfold crc. by rewrite !inode_csum_cleared Hcl. }
  rewrite Hout Hcs. clear Hcs. clearbody crc. split; [done|]. split; [|split].
  - rewrite bool_decide_eq_true_2; [done|]. unfold out, i_checksum_lo, i_checksum_hi. destruct has_hi.
    + specialize (Hin eq_refl). rewrite !(get_set_le 2 i_checksum_hi_off) //.
      rewrite get_set_le_ne //; [|unfold i_checksum_hi_off; lia].
      unfold lo. rewrite get_set_le //. change (256 ^ Z.of_nat 2) with (2^16). by apply split16.
    + unfold lo. rewrite get_set_le //. change (256 ^ Z.of_nat 2) with (2^16).
      change 0xFFFF with (Z.ones 16). rewrite Z.land_ones // Z.mod_mod //.
  - unfold out, lo. destruct has_hi; rewrite !length_set_le //; auto.
  - intros i Hi. rewrite elem_of_app !elem_of_seqZ in Hi.
    unfold out, lo. destruct has_hi; rewrite !lookup_set_le_ne //; auto;
      unfold i_checksum_lo_off, i_checksum_hi_off; lia.
Qed.

(** ** Theorems *)

(** What [r], the result of storing a checksum in [buf], is: the checksum is in
    the bytes [field], and [verify] accepts it. *)
Definition stored (verify : list Z → bool) (field : list Z) (buf : list Z) (r : errcode * list Z) : Prop :=
  r.1 = E_OK ∧ verify r.2 = true ∧ length r.2 = length buf ∧
  ∀ i : nat, Z.of_nat i ∉ field → r.2 !! i = buf !! i.

Lemma stored_field (f : list Z → Z) (verify : list Z → bool) (on : bool) off buf :
  in_buf 4 off buf → 0 ≤ f buf < 2^32 → f (set32 off (f buf) buf) = f buf →
  (∀ b, verify b = if on then bool_decide (get32 off b = f b) else true) →
  stored verify (seqZ off 4) buf (E_OK, if on then set32 off (f buf) buf else buf).
Proof.
  intros Hin Hf Heq Hv. split; [done|]. cbn [snd]. rewrite Hv. destruct on; [|done].
  split; [by apply bool_decide_eq_true_2, stored32|].
  split; [by apply length_set_le|]. intros i Hi. rewrite elem_of_seqZ in Hi.
  apply lookup_set_le_ne; [done|lia].
Qed.

(** C34: Storing the checksum of a super block, of a block of the multiple mount
    protection, of a block of extended attributes or of an inode succeeds,
    changes the bytes of the checksum only, and gives a structure that the
    verification accepts. *)
Theorem csum_set_verify fs block inum sb mmp hdr inode :
  seed_ok fs → is_bytes sb → is_bytes mmp → is_bytes hdr →
  length sb = SUPERBLOCK_SIZE → (1024 ≤ length mmp)%nat → (32 ≤ length hdr)%nat → inode_ok fs inode →
  stored (ext2fs_superblock_csum_verify fs) (seqZ 1020 4) sb (ext2fs_superblock_csum_set fs sb) ∧
  stored (ext2fs_mmp_csum_verify fs) (seqZ 1020 4) mmp (ext2fs_mmp_csum_set fs mmp) ∧
  stored (ext2fs_ext_attr_block_csum_verify fs block) (seqZ 16 4) hdr
    (ext2fs_ext_attr_block_csum_set fs block hdr) ∧
  stored (ext2fs_inode_csum_verify fs inum) (seqZ 124 2 ++ seqZ 130 2) inode
    (ext2fs_inode_csum_set fs inum inode).
Proof.
  intros Hs Hsb Hmmp Hhdr Hlsb Hlmmp Hlhdr Hinode. unfold SUPERBLOCK_SIZE in Hlsb.
  split; [|split; [|split; [|by apply inode_csum_stored]]].
  - pose proof (stored_field (ext2fs_superblock_csum fs) (ext2fs_superblock_csum_verify fs)
      (negb (bool_decide (Z.land (s_feature_ro_compat (fs_super fs)) EXT4_FEATURE_RO_COMPAT_METADATA_CSUM = 0)))
      1020 sb) as H.
    unfold ext2fs_superblock_csum_verify, ext2fs_superblock_csum_set in *.
    destruct (bool_decide _); apply H; try done; try (split; lia); try by apply superblock_csum_range.
    all: unfold ext2fs_superblock_csum; rewrite take_set_le //; unfold in_buf; lia.
  - pose proof (stored_field (ext2fs_mmp_csum fs) (ext2fs_mmp_csum_verify fs)
      (ext2fs_has_feature_metadata_csum (fs_super fs)) 1020 mmp) as H.
    unfold ext2fs_mmp_csum_verify, ext2fs_mmp_csum_set in *.
    destruct (ext2fs_has_feature_metadata_csum _); apply H; try done; try (split; lia); try by apply mmp_csum_range.
    all: unfold ext2fs_mmp_csum; rewrite take_set_le //; unfold in_buf; lia.
  - pose proof (stored_field (ext2fs_ext_attr_block_csum fs block) (ext2fs_ext_attr_block_csum_verify fs block)
      (ext2fs_has_feature_metadata_csum (fs_super fs)) 16 hdr) as H.
    unfold ext2fs_ext_attr_block_csum_verify, ext2fs_ext_attr_block_csum_set in *.
    destruct (ext2fs_has_feature_metadata_csum _); apply H; try done; try (split; lia); try by apply ext_attr_csum_range.
    all: unfold ext2fs_ext_attr_block_csum; rewrite set_set_le //; unfold in_buf, h_checksum_off; lia.
Qed.

(** A verification that compares a field with a checksum of other bytes does
    not accept both of two structures with the same field and different
    checksums. *)
Lemma not_both (x y x' y' : Z) : x = x' → y ≠ y' → bool_decide (x = y) = true → bool_decide (x' = y') = false.
Proof. rewrite bool_decide_eq_true bool_decide_eq_false. congruence. Qed.

Lemma inode_cleared_bytes has_hi inode : is_bytes inode → is_bytes (inode_cleared has_hi inode).
Proof. intros Hb. unfold inode_cleared. by destruct has_hi; repeat apply set_le_bytes. Qed.

Lemma length_inode_cleared fs inode : inode_ok fs inode → inode_has_hi fs inode = true →
  length (inode_cleared true inode) = length inode.
Proof.
  intros Hok Hhi. pose proof (inode_in_lo _ _ Hok). pose proof (inode_in_hi _ _ Hok Hhi).
  unfold inode_cleared. rewrite length_set_le ?length_set_le //. by apply in_buf_set.
Qed.

(** The bytes of an inode that the checksum takes as they are: all but the
    generation, the size of the extra part and the checksum. *)
Definition inode_apart (a : Z) (n : nat) : Prop :=
  apart 4 100 a n ∧ apart 2 124 a n ∧ apart 2 128 a n ∧ apart 2 130 a n.

Lemma inode_cleared_burst fs a n b b' : inode_ok fs b → inode_ok fs b' → inode_has_hi fs b = true →
  burst a n b b' → inode_apart a n → burst a n (inode_cleared true b) (inode_cleared true b').
Proof.
  intros Hok Hok' Hhi Hb (H1 & H2 & H3 & H4). unfold inode_cleared.
  pose proof (inode_in_lo _ _ Hok). pose proof (inode_in_hi _ _ Hok Hhi).
  apply burst_set; [|by apply in_buf_set|done]. by apply burst_set.
Qed.

Lemma i_generation_cleared fs inode : inode_ok fs inode → inode_has_hi fs inode = true →
  i_generation (inode_cleared true inode) = i_generation inode.
Proof.
  intros Hok Hhi. pose proof (inode_in_lo _ _ Hok). pose proof (inode_in_hi _ _ Hok Hhi).
  unfold i_generation, inode_cleared, i_checksum_lo_off, i_checksum_hi_off in *.
  rewrite !get_set_le_ne //; [lia|by apply in_buf_set|lia].
Qed.

(** The verification of an inode with a checksum of 32 bits. *)
Lemma inode_verify_hi fs inum inode :
  ext2fs_has_feature_metadata_csum (fs_super fs) = true → inode_has_hi fs inode = true →
  ext2fs_inode_csum_verify fs inum inode =
    bool_decide (Z.lor (i_checksum_lo inode) (u32 (Z.shiftl (i_checksum_hi inode) 16)) =
                 ext2fs_inode_csum fs inum inode true)
    || forallb (λ b, bool_decide (b = 0)) (take 128 inode).
Proof.
  intros Hm Hhi. unfold ext2fs_inode_csum_verify. rewrite Hm Hhi. cbn [negb].
  by destruct (bool_decide _).
Qed.

(** [inode] is not all zero: the verification accepts an inode that is. *)
Definition not_zero (inode : list Z) : Prop := forallb (λ b, bool_decide (b = 0)) (take 128 inode) = false.

Lemma inode_burst_detected fs inum a n b b' :
  ext2fs_has_feature_metadata_csum (fs_super fs) = true → seed_ok fs →
  inode_ok fs b → inode_ok fs b' → inode_has_hi fs b = true → burst a n b b' → (n ≤ 4)%nat →
  inode_apart a n → not_zero b → not_zero b' →
  ext2fs_inode_csum_verify fs inum b = true → ext2fs_inode_csum_verify fs inum b' = false.
Proof.
  intros Hm Hs Hok Hok' Hhi Hb Hn Hap Hz Hz'. pose proof Hap as (H1 & H2 & H3 & H4).
  assert (Hhi' : inode_has_hi fs b' = true).
  { rewrite -Hhi. unfold inode_has_hi, i_extra_isize. by rewrite (burst_get a n b b'). }
  rewrite !inode_verify_hi // Hz Hz' !orb_false_r. apply not_both.
  - unfold i_checksum_lo, i_checksum_hi. by rewrite !(burst_get a n b b').
  - rewrite !inode_csum_cleared !(i_generation_cleared fs) //.
    unfold i_generation. rewrite (burst_get a n b b') //.
    rewrite !take_ge.
    + eapply burst_crc; [by eapply inode_cleared_burst|done|by apply inum_gen_csum_range|..];
        apply inode_cleared_bytes; [apply Hok|apply Hok'].
    + rewrite (length_inode_cleared fs) //. pose proof (inode_length _ _ Hok'). lia.
    + rewrite (length_inode_cleared fs) //. pose proof (inode_length _ _ Hok). lia.
Qed.

(** C37: With metadata checksums, of two structures that differ, but only within
    four consecutive bytes that the checksum covers, the verification accepts
    one at most: the super block, a block of the multiple mount protection, a
    block of extended attributes, and an inode with a checksum of 32 bits that
    is not all zero, where the bytes must not be of its generation, which also
    seeds the checksum, or of the size of its extra part ([inode_apart]). *)
Theorem csum_detects_corruption fs block inum a n b b' :
  ext2fs_has_feature_metadata_csum (fs_super fs) = true → seed_ok fs →
  is_bytes b → is_bytes b' → burst a n b b' → (n ≤ 4)%nat →
  (a + Z.of_nat n ≤ 1020 →
   ext2fs_superblock_csum_verify fs b = true → ext2fs_superblock_csum_verify fs b' = false) ∧
  (a + Z.of_nat n ≤ 1020 →
   ext2fs_mmp_csum_verify fs b = true → ext2fs_mmp_csum_verify fs b' = false) ∧
  (a + Z.of_nat n ≤ fs_blocksize fs → apart 4 16 a n → (32 ≤ length b)%nat →
   ext2fs_ext_attr_block_csum_verify fs block b = true →
   ext2fs_ext_attr_block_csum_verify fs block b' = false) ∧
  (inode_ok fs b → inode_ok fs b' → inode_has_hi fs b = true → inode_apart a n →
   not_zero b → not_zero b' →
   ext2fs_inode_csum_verify fs inum b = true → ext2fs_inode_csum_verify fs inum b' = false).
Proof.
  intros Hm Hs Hb Hb' Hbu Hn. pose proof (burst_in _ _ _ _ Hbu) as Hin.
  split_and!.
  - intros Ha. unfold ext2fs_superblock_csum_verify, s_checksum.
    unfold ext2fs_has_feature_metadata_csum in Hm. apply bool_decide_eq_true in Hm.
    rewrite bool_decide_eq_false_2 //. apply not_both; [apply (burst_get a n _ _ _ _ Hbu); [done|unfold apart; lia]|].
    unfold ext2fs_superblock_csum, s_checksum_off. eapply burst_crc; [|done|apply all_ones_range|by apply Forall_take..].
    apply burst_take; [done|lia].
  - intros Ha. unfold ext2fs_mmp_csum_verify. rewrite Hm. cbn [negb].
    apply not_both; [apply (burst_get a n _ _ _ _ Hbu); [done|unfold apart, mmp_checksum_off; lia]|].
    unfold ext2fs_mmp_csum, mmp_checksum_off. eapply burst_crc; [|done|done|by apply Forall_take..].
    apply burst_take; [done|lia].
  - intros Ha Hap Hl. unfold ext2fs_ext_attr_block_csum_verify. rewrite Hm. cbn [negb].
    apply not_both; [by apply (burst_get a n _ _ _ _ Hbu)|].
    unfold ext2fs_ext_attr_block_csum. eapply burst_crc; [|done|by apply seed_bytes_range|by apply Forall_take, set_le_bytes..].
    apply burst_take; [apply burst_set; [done|unfold in_buf, h_checksum_off; lia|done]|lia].
  - intros. by eapply (inode_burst_detected fs inum a n b b').
Qed.

(** The tests of a return code that is [E_OK]. *)
Lemma ok_eq : bool_decide (E_OK = E_OK) = true.
Proof. reflexivity. Qed.
Lemma ok_ne : bool_decide (E_OK ≠ E_OK) = false.
Proof. reflexivity. Qed.

(** ** The walk through a directory block *)
Lemma land3_range x : 0 ≤ Z.land x 3 < 4.
Proof. change 3 with (Z.ones 2). rewrite Z.land_ones //. by apply Z.mod_pos_bound. Qed.

(** The result of the walk from [d] with enough fuel. *)
Lemma dirent_walk_enough fuel fuel' buf top d :
  Z.of_nat fuel > (top - d) → Z.of_nat fuel' > (top - d) → (0 < fuel)%nat → (0 < fuel')%nat →
  ∃ r, dirent_walk fuel buf top d = Some r ∧ dirent_walk fuel' buf top d = Some r ∧
    (r.1 = E_OK → top ≤ r.2) ∧ d ≤ r.2.
Proof.
  revert fuel' d. induction fuel as [|fuel IH]; intros [|fuel'] d Hf Hf' H0 H0'; [lia..|].
  cbn [dirent_walk]. decide_case (d < top) as Hd; [|exists (E_OK, d); cbn; split_and!; [done..|lia|lia]].
  set (rl := dirent_rec_len d buf). decide_case (rl < 8 ∨ Z.land rl 3 ≠ 0) as Hr.
  - exists (EXT2_ET_DIR_CORRUPTED, d). cbn. split_and!; [done..|discriminate|lia].
  - assert (8 ≤ rl) by lia.
    destruct (IH fuel' (d + rl)) as (r & ? & ? & ? & ?); [lia..|].
    exists r. split_and!; [done..|lia].
Qed.

Lemma dirent_walk_ext fuel b b' top d :
  (∀ i : nat, Z.of_nat i < top + 8 → b !! i = b' !! i) → 0 ≤ d →
  dirent_walk fuel b top d = dirent_walk fuel b' top d.
Proof.
  intros Heq. revert d. induction fuel as [|fuel IH]; intros d Hd; [done|]. cbn [dirent_walk].
  decide_case (d < top) as Hlt; [|done].
  assert (Hr : dirent_rec_len d b = dirent_rec_len d b').
  { apply get_le_ext; [|lia]. intros i Hi. apply Heq. lia. }
  rewrite Hr. decide_case (dirent_rec_len d b' < 8 ∨ Z.land (dirent_rec_len d b') 3 ≠ 0) as Hc; [done|].
  apply IH. lia.
Qed.

(** The tail entry is the last of the block. *)
Lemma dirent_tail_at fs b t : __get_dirent_tail fs b = (E_OK, t) →
  1024 ≤ fs_blocksize fs ∧ t = fs_blocksize fs - 12.
Proof.
  unfold __get_dirent_tail. decide_case (fs_blocksize fs < 1024) as Hbs; [done|].
  destruct (dirent_walk _ _ _ _) as [[e d]|]; [|done].
  decide_case (e ≠ E_OK) as He; [intros [= ->]; by destruct He|].
  decide_case (fs_blocksize fs < d) as Hd; [done|].
  decide_case (d ≠ fs_blocksize fs - sizeof_dirent_tail) as Ht; [done|].
  destruct (bool_decide _); [done|]. intros [= <-]. split; [lia|].
  destruct (decide (d = fs_blocksize fs - sizeof_dirent_tail)) as [->|?]; [done|by destruct Ht].
Qed.

Lemma get_dirent_tail_ext fs b b' :
  (∀ i : nat, Z.of_nat i < fs_blocksize fs - 4 → b !! i = b' !! i) →
  __get_dirent_tail fs b = __get_dirent_tail fs b'.
Proof.
  intros Heq. unfold __get_dirent_tail. decide_case (fs_blocksize fs < 1024) as Hbs; [done|].
  unfold sizeof_dirent_tail.
  rewrite (dirent_walk_ext _ b b') //; [|intros i Hi; apply Heq; lia].
  destruct (dirent_walk _ _ _ _) as [[e d]|] eqn:Hw; [|done].
  destruct (decide (d = fs_blocksize fs - 12)) as [->|Hd].
  - assert (Hg : ∀ k off, 0 ≤ off → off + Z.of_nat k ≤ fs_blocksize fs - 4 → get_le k off b = get_le k off b').
    { intros k off ? ?. apply get_le_ext; [|done]. intros i Hi. apply Heq. lia. }
    unfold dirent_rec_len, dirent_name_len. rewrite !Hg //; lia.
  - destruct (bool_decide (e ≠ E_OK)); [done|].
    destruct (bool_decide (fs_blocksize fs < d)); [done|]. by rewrite bool_decide_eq_true_2.
Qed.

(** A block with a count and a limit has no tail entry: it holds one entry, or
    the entries of the directory and its parent, up to its end. *)
Lemma countlimit_no_tail fs b off : fs_blocksize fs ≤ 2^16 → is_bytes b →
  __get_dx_countlimit fs b = (E_OK, off) → (__get_dirent_tail fs b).1 ≠ E_OK ∧
  off ∈ [8; 32] ∧
  (∀ b', (∀ i : nat, Z.of_nat i < off + 4 → b !! i = b' !! i) →
    __get_dx_countlimit fs b' = (E_OK, off) ∧ (__get_dirent_tail fs b').1 ≠ E_OK).
Proof.
  intros Hbs Hb Hcl.
  assert (Htail : ∀ b', (dirent_rec_len 0 b' = fs_blocksize fs ∨
      dirent_rec_len 0 b' = 12 ∧ dirent_rec_len 12 b' = u32 (fs_blocksize fs - 12)) →
    (__get_dirent_tail fs b').1 ≠ E_OK).
  { intros b' Hr Hok. destruct (__get_dirent_tail fs b') as [e t] eqn:Ht. cbn in Hok. subst e.
    pose proof (dirent_tail_at _ _ _ Ht) as [H1024 _].
    rewrite u32_small in Hr; [|lia].
    revert Ht. unfold __get_dirent_tail. rewrite bool_decide_eq_false_2; [|lia].
    unfold sizeof_dirent_tail. destruct (Z.to_nat (fs_blocksize fs - 12)) as [|[|n]] eqn:Hn; [lia..|].
    cbn [dirent_walk]. rewrite bool_decide_eq_true_2; [|lia].
    destruct (bool_decide (dirent_rec_len 0 b' < 8 ∨ _)); [done|].
    destruct Hr as [->|[-> Hr12]].
    - rewrite (bool_decide_eq_false_2 (_ < _)); [|lia].
      rewrite ok_ne.
      rewrite (bool_decide_eq_false_2 (_ < _)); [|lia]. rewrite bool_decide_eq_true_2; [done|lia].
    - rewrite bool_decide_eq_true_2; [|lia]. change (0 + 12) with 12. rewrite Hr12.
      destruct (bool_decide (_ ∨ _)); [done|].
      rewrite (bool_decide_eq_false_2 (_ < _)); [|lia].
      rewrite ok_ne.
      rewrite (bool_decide_eq_false_2 (_ < _)); [|lia]. rewrite bool_decide_eq_true_2; [done|lia]. }
  assert (Hcase : (off = 8 ∧ dirent_rec_len 0 b = fs_blocksize fs) ∨
    (off = 32 ∧ dirent_rec_len 0 b = 12 ∧ dirent_rec_len 12 b = u32 (fs_blocksize fs - 12))).
  { revert Hcl. unfold __get_dx_countlimit.
    decide_case (dirent_rec_len 0 b = fs_blocksize fs ∧ dirent_name_len 0 b = 0) as H1.
    { destruct (bool_decide _); [done|]. intros [= <-]. left. split; [done|apply H1]. }
    decide_case (dirent_rec_len 0 b = 12) as H2; [|done]. rewrite H2.
    decide_case (dirent_rec_len 12 b ≠ u32 (fs_blocksize fs - 12)) as H3; [done|].
    destruct (bool_decide _); [done|]. destruct (bool_decide _); [done|]. intros [= <-]. right.
    split_and!; [done..|lia]. }
  split; [apply Htail; tauto|]. split; [set_unfold; lia|].
  intros b' Heq.
  assert (Hg : ∀ k o, 0 ≤ o → o + Z.of_nat k ≤ off + 4 → get_le k o b' = get_le k o b).
  { intros k o ? ?. apply get_le_ext; [|done]. intros i Hi. symmetry. apply Heq. lia. }
  destruct Hcase as [[-> Hr]|[-> [Hr Hr12]]].
  - split; [|apply Htail; left; by unfold dirent_rec_len; rewrite Hg].
    rewrite -Hcl. unfold __get_dx_countlimit, dirent_rec_len, dirent_name_len in *. rewrite !(Hg 2%nat (0+4)) //.
    rewrite !(Hg 2%nat (0+6)) //. rewrite Hr.
    decide_case (fs_blocksize fs = fs_blocksize fs ∧ get16 (0 + 6) b = 0) as H1.
    + unfold dx_limit, dx_count. by rewrite !Hg.
    + revert Hcl. rewrite Hr. rewrite (bool_decide_eq_false_2 _ H1).
      decide_case (fs_blocksize fs = 12) as H12; [|done]. rewrite H12.
      repeat (destruct (bool_decide _); [done|]). done.
  - split; [|apply Htail; right; unfold dirent_rec_len; by rewrite !Hg].
    rewrite -Hcl. unfold __get_dx_countlimit, dirent_rec_len, dirent_name_len, dx_limit, dx_count in *.
    rewrite !(Hg 2%nat (0+4)) // !(Hg 2%nat (0+6)) // Hr. by rewrite !Hg.
Qed.

Section dir_csum.
Context (ext2fs_read_inode : ext2_filsys → Z → errcode * list Z) (fs : ext2_filsys) (inum : Z) (inode : list Z).
Context (Hread : ext2fs_read_inode fs inum = (E_OK, inode)).
Context (Hm : ext2fs_has_feature_metadata_csum (fs_super fs) = true) (Hs : seed_ok fs).

Lemma dirent_csum_eq b size :
  ext2fs_dirent_csum ext2fs_read_inode fs inum b size =
    (E_OK, crc32c (inum_gen_csum fs inum (i_generation inode)) (take (Z.to_nat size) b)).
Proof. unfold ext2fs_dirent_csum. by rewrite Hread. Qed.

Lemma dirent_csum_stored b t : is_bytes b → fs_blocksize fs ≤ Z.of_nat (length b) →
  __get_dirent_tail fs b = (E_OK, t) →
  stored (ext2fs_dir_block_csum_verify ext2fs_read_inode fs inum) (seqZ (det_checksum_off t) 4) b
    (ext2fs_dir_block_csum_set ext2fs_read_inode fs inum b).
Proof.
  intros Hb Hl Ht. destruct (dirent_tail_at _ _ _ Ht) as [Hbs Ht12].
  assert (Hin : in_buf 4 (det_checksum_off t) b) by (unfold det_checksum_off; split; lia).
  set (crc := crc32c (inum_gen_csum fs inum (i_generation inode)) (take (Z.to_nat t) b)).
  assert (Hcrc : 0 ≤ crc < 2^32).
  { apply crc32c_range; [by apply inum_gen_csum_range|by apply Forall_take]. }
  assert (Hset : ext2fs_dir_block_csum_set ext2fs_read_inode fs inum b =
    (E_OK, set32 (det_checksum_off t) crc b)).
  { unfold ext2fs_dir_block_csum_set, ext2fs_dirent_csum_set. by rewrite Hm Ht dirent_csum_eq. }
  assert (Ht' : __get_dirent_tail fs (set32 (det_checksum_off t) crc b) = (E_OK, t)).
  { rewrite -Ht. apply get_dirent_tail_ext. intros i Hi. apply lookup_set_le_ne; [done|].
    unfold det_checksum_off. lia. }
  rewrite Hset. split; [done|]. cbn [snd]. split; [|split; [by apply length_set_le|]].
  - unfold ext2fs_dir_block_csum_verify, ext2fs_dirent_csum_verify. rewrite Hm Ht' dirent_csum_eq.
    rewrite get_set_le // take_set_le //; [|unfold det_checksum_off; lia].
    fold crc. cbn [negb fst]. rewrite ok_eq ok_ne. apply bool_decide_eq_true_2. by rewrite Z.mod_small.
  - intros i Hi. rewrite elem_of_seqZ in Hi. apply lookup_set_le_ne; [done|lia].
Qed.

Lemma take_drop_set (m n : nat) k off v b : in_buf k off b → Z.of_nat m + Z.of_nat n ≤ off →
  take n (drop m (set_le k off v b)) = take n (drop m b).
Proof.
  intros Hin Hm'. apply list_eq. intros i. destruct (decide (i < n)%nat).
  - rewrite !lookup_take_lt // !lookup_drop. apply lookup_set_le_ne; [done|lia].
  - rewrite !lookup_take_ge //; lia.
Qed.

Lemma dx_csum_stored b off : is_bytes b → fs_blocksize fs ≤ Z.of_nat (length b) → fs_blocksize fs ≤ 2^16 →
  __get_dx_countlimit fs b = (E_OK, off) → dx_count off b ≤ dx_limit off b →
  off + dx_limit off b * sizeof_dx_entry ≤ fs_blocksize fs - sizeof_dx_tail →
  stored (ext2fs_dir_block_csum_verify ext2fs_read_inode fs inum)
    (seqZ (dt_checksum_off (off + dx_limit off b * sizeof_dx_entry)) 4) b
    (ext2fs_dir_block_csum_set ext2fs_read_inode fs inum b).
Proof.
  intros Hb Hl Hbs Hcl Hcount Hfit. unfold sizeof_dx_entry, sizeof_dx_tail in *.
  destruct (countlimit_no_tail _ _ _ Hbs Hb Hcl) as (Hnt & Hoff & Hsame).
  pose proof (get16_range (off + 2) b Hb) as [Hc0 _]. fold (dx_count off b) in Hc0.
  set (t := off + dx_limit off b * 8) in *.
  assert (off = 8 ∨ off = 32) by (set_unfold; lia).
  assert (Hin : in_buf 4 (dt_checksum_off t) b) by (unfold dt_checksum_off; split; lia).
  set (g := inum_gen_csum fs inum (i_generation inode)).
  set (crc b := crc32c (crc32c (crc32c g (take (Z.to_nat (off + dx_count off b * 8)) b))
                  (take 4 (drop (Z.to_nat t) b))) [0; 0; 0; 0]).
  assert (Hcrc : 0 ≤ crc b < 2^32).
  { unfold crc. apply crc32c_range; [|repeat constructor; lia].
    apply crc32c_range; [|by apply Forall_take, Forall_drop].
    apply crc32c_range; [by apply inum_gen_csum_range|by apply Forall_take]. }
  assert (Heq : ∀ b', (∀ i : nat, Z.of_nat i < off + 4 → b !! i = b' !! i) →
    ext2fs_dx_csum ext2fs_read_inode fs inum b' = (E_OK, (crc b', t))).
  { intros b' Hb'. destruct (Hsame b' Hb') as [Hcl' _]. unfold ext2fs_dx_csum. rewrite Hcl'.
    assert (Hlim : dx_limit off b' = dx_limit off b).
    { apply get_le_ext; [|lia]. intros i Hi. symmetry. apply Hb'. lia. }
    rewrite ok_ne. unfold sizeof_dx_entry, sizeof_dx_tail.
    rewrite Hlim. fold t. rewrite bool_decide_eq_false_2; [|lia].
    rewrite Hread. done. }
  assert (Hb' : ∀ i : nat, Z.of_nat i < off + 4 → b !! i = set32 (dt_checksum_off t) (crc b) b !! i).
  { intros i Hi. symmetry. apply lookup_set_le_ne; [done|]. unfold dt_checksum_off, t. lia. }
  assert (Hset : ext2fs_dir_block_csum_set ext2fs_read_inode fs inum b =
    (E_OK, set32 (dt_checksum_off t) (crc b) b)).
  { unfold ext2fs_dir_block_csum_set, ext2fs_dx_csum_set. rewrite Hm Hcl Heq //.
    cbn [negb fst]. rewrite ok_eq ok_ne. by rewrite (bool_decide_eq_false_2 _ Hnt). }
  assert (Hcrc' : ∀ v, crc (set32 (dt_checksum_off t) v b) = crc b).
  { intros v. unfold crc. rewrite take_drop_set //; [|unfold dt_checksum_off; lia].
    assert (dx_count off (set32 (dt_checksum_off t) v b) = dx_count off b) as ->.
    { apply get_set_le_ne; [done|lia|]. unfold dt_checksum_off. lia. }
    rewrite take_set_le //. unfold dt_checksum_off. lia. }
  rewrite Hset. split; [done|]. cbn [snd]. split; [|split; [by apply length_set_le|]].
  - destruct (Hsame _ Hb') as [Hcl' Hnt'].
    unfold ext2fs_dir_block_csum_verify, ext2fs_dx_csum_verify. rewrite Hm Hcl' Heq // Hcrc'.
    cbn [negb fst]. rewrite ok_eq ok_ne. rewrite (bool_decide_eq_false_2 _ Hnt') get_set_le //.
    apply bool_decide_eq_true_2. by rewrite Z.mod_small.
  - intros i Hi. rewrite elem_of_seqZ in Hi. apply lookup_set_le_ne; [done|lia].
Qed.

Lemma extent_csum_stored eh : is_bytes eh → in_buf 4 (EXT3_EXTENT_TAIL_OFFSET eh) eh →
  ∃ r, ext2fs_extent_block_csum_set ext2fs_read_inode fs inum eh = Some r ∧
  stored (λ b, bool_decide (ext2fs_extent_block_csum_verify ext2fs_read_inode fs inum b = Some true))
    (seqZ (EXT3_EXTENT_TAIL_OFFSET eh) 4) eh r.
Proof.
  intros Hb Hin. set (t := EXT3_EXTENT_TAIL_OFFSET eh) in *.
  assert (12 ≤ t). { unfold t, EXT3_EXTENT_TAIL_OFFSET. pose proof (get16_range 4 eh Hb). unfold eh_max. lia. }
  set (crc := crc32c (inum_gen_csum fs inum (i_generation inode)) (take (Z.to_nat t) eh)).
  assert (Hcrc : 0 ≤ crc < 2^32).
  { apply crc32c_range; [by apply inum_gen_csum_range|by apply Forall_take]. }
  exists (E_OK, set32 t crc eh).
  assert (Hc : ∀ b, EXT3_EXTENT_TAIL_OFFSET b = t → length b = length eh →
    ext2fs_extent_block_csum ext2fs_read_inode fs inum b =
    Some (E_OK, crc32c (inum_gen_csum fs inum (i_generation inode)) (take (Z.to_nat t) b))).
  { intros b Hbt Hl. unfold ext2fs_extent_block_csum. rewrite Hread Hbt Hl.
    rewrite ok_ne bool_decide_eq_false_2 //.
    destruct Hin. lia. }
  assert (Ht : EXT3_EXTENT_TAIL_OFFSET (set32 t crc eh) = t).
  { unfold EXT3_EXTENT_TAIL_OFFSET at 1, eh_max. rewrite get_set_le_ne //; lia. }
  split; [|split; [done|]].
  - unfold ext2fs_extent_block_csum_set. fold t. rewrite Hm Hc //. cbn. by rewrite decide_True.
  - cbn [snd]. split; [|split; [by apply length_set_le|]].
    + apply bool_decide_eq_true. unfold ext2fs_extent_block_csum_verify. rewrite Ht Hm Hc //; [|by apply length_set_le].
      rewrite decide_True; [|by apply in_buf_set]. cbn. f_equal.
      apply bool_decide_eq_true_2. rewrite get_set_le // take_set_le //; [|lia]. by apply Z.mod_small.
    + intros i Hi. rewrite elem_of_seqZ in Hi. apply lookup_set_le_ne; [done|lia].
Qed.
End dir_csum.

(** The node of a hash tree at which [__get_dx_countlimit] finds its count and
    limit has room for its entries and for the checksum. *)
Definition dx_room (fs : ext2_filsys) (b : list Z) (off : Z) : Prop :=
  dx_count off b ≤ dx_limit off b ∧
  off + dx_limit off b * sizeof_dx_entry ≤ fs_blocksize fs - sizeof_dx_tail.

(** C35: With metadata checksums and a readable inode, storing the checksum of a
    directory block that has a tail entry, of a node of a hash tree with room
    for it, or of a block of extents succeeds, changes four bytes, those of the
    checksum, and gives a block that the verification accepts. *)
Theorem dir_csum_set_verify ext2fs_read_inode fs inum inode b :
  ext2fs_read_inode fs inum = (E_OK, inode) →
  ext2fs_has_feature_metadata_csum (fs_super fs) = true → seed_ok fs →
  is_bytes b → fs_blocksize fs ≤ Z.of_nat (length b) → fs_blocksize fs ≤ 2^16 →
  (∀ t, __get_dirent_tail fs b = (E_OK, t) →
   stored (ext2fs_dir_block_csum_verify ext2fs_read_inode fs inum) (seqZ (t + 8) 4) b
     (ext2fs_dir_block_csum_set ext2fs_read_inode fs inum b)) ∧
  (∀ off, __get_dx_countlimit fs b = (E_OK, off) → dx_room fs b off →
   stored (ext2fs_dir_block_csum_verify ext2fs_read_inode fs inum)
     (seqZ (off + dx_limit off b * sizeof_dx_entry + 4) 4) b
     (ext2fs_dir_block_csum_set ext2fs_read_inode fs inum b)) ∧
  (in_buf 4 (EXT3_EXTENT_TAIL_OFFSET b) b →
   ∃ r, ext2fs_extent_block_csum_set ext2fs_read_inode fs inum b = Some r ∧
   stored (λ b, bool_decide (ext2fs_extent_block_csum_verify ext2fs_read_inode fs inum b = Some true))
     (seqZ (EXT3_EXTENT_TAIL_OFFSET b) 4) b r).
Proof.
  intros Hread Hm Hs Hb Hl Hbs. split_and!.
  - intros t Ht. by apply (dirent_csum_stored _ _ _ inode).
  - intros off Hcl [Hcount Hfit]. by apply (dx_csum_stored _ _ _ inode).
  - intros Hin. by apply (extent_csum_stored _ _ _ inode).
Qed.

(** ** Checksums in the group descriptors *)
Section gd_csum.
Context (fs : ext2_filsys) (gd : list Z) (Hok : gd_ok fs gd) (g : Z).
Context (Hg : 0 ≤ g < fs_group_desc_count fs).
Abbreviation ds := (EXT2_DESC_SIZE (fs_super fs)).

(** The offset [o] of group [g]'s descriptor. *)
Lemma gd_in_field (k : nat) o : 0 ≤ o → o + Z.of_nat k ≤ ds → in_buf k (g * ds + o) gd.
Proof.
  intros Ho Hk. destruct (gd_in_group fs gd Hok g Hg) as [? ?].  split; lia.
Qed.

Lemma gd_set_ok (k : nat) o v : 0 ≤ o → o + Z.of_nat k ≤ ds →
  gd_set k o v fs g = Some (set_group_desc (set_le k (g * ds + o) v gd) fs) ∧
  gd_ok (set_group_desc (set_le k (g * ds + o) v gd) fs) (set_le k (g * ds + o) v gd).
Proof.
  intros Ho Hk. split; [by apply (gd_set_eq fs gd Hok)|].
  apply (gd_ok_set fs gd Hok); [apply set_le_bytes, Hok|]. apply length_set_le. by apply gd_in_field.
Qed.
End gd_csum.

(** [fs] with other bytes in its descriptors. *)
Definition same_but_gd (fs fs' : ext2_filsys) (gd' : list Z) : Prop :=
  fs' = set_group_desc gd' fs ∧ gd_ok fs' gd'.

(** The 16 bits of a field of the descriptor of [g]. *)
Definition desc16 (fs : ext2_filsys) (g o : Z) (gd : list Z) : Z :=
  get16 (g * EXT2_DESC_SIZE (fs_super fs) + o) gd.

(** The descriptors of the other groups are the same. *)
Definition outside_same (fs : ext2_filsys) (g : Z) (gd gd' : list Z) : Prop :=
  ∀ i : nat, Z.of_nat i < g * EXT2_DESC_SIZE (fs_super fs) ∨
    g * EXT2_DESC_SIZE (fs_super fs) + EXT2_DESC_SIZE (fs_super fs) ≤ Z.of_nat i → gd' !! i = gd !! i.

Definition bitmap_stored (lo hi last : Z) (fs : ext2_filsys) (g : Z) (gd bitmap : list Z) : Prop :=
  desc16 fs g lo gd = Z.land (crc32c (fs_csum_seed fs) bitmap) 0xFFFF ∧
  (last ≤ EXT2_DESC_SIZE (fs_super fs) →
   desc16 fs g hi gd = Z.shiftr (crc32c (fs_csum_seed fs) bitmap) 16).

Lemma land_ffff x : Z.land x 0xFFFF = x mod 2^16.
Proof. change 0xFFFF with (Z.ones 16). by rewrite Z.land_ones. Qed.

Lemma shiftr16_range x : 0 ≤ x < 2^32 → 0 ≤ Z.shiftr x 16 < 2^16.
Proof. intros Hx. apply shiftr_range_sub; [lia|lia|exact Hx]. Qed.

(** What the verification of a bitmap compares. *)
Lemma bitmap_csum_verify_eq lo hi last fs gd g bitmap :
  gd_ok fs gd → 0 ≤ g < fs_group_desc_count fs → seed_ok fs → is_bytes bitmap →
  ext2fs_has_feature_metadata_csum (fs_super fs) = true →
  0 ≤ lo → lo + 2 ≤ 32 → 0 ≤ hi → hi + 2 ≤ last →
  bitmap_csum_verify lo hi last fs g bitmap = Some (bool_decide (bitmap_stored lo hi last fs g gd bitmap)).
Proof.
  intros Hok Hg Hs Hb Hm Hlo Hlo32 Hhi Hlast. pose proof (gd_ds fs gd Hok) as Hds.
  assert (32 ≤ EXT2_DESC_SIZE (fs_super fs)) by (destruct ext2fs_has_feature_64bit; lia).
  pose proof (crc32c_range (fs_csum_seed fs) bitmap Hs Hb) as Hc.
  unfold bitmap_csum_verify, bitmap_stored, desc16. rewrite Hm. cbn [negb].
  set (crc := crc32c (fs_csum_seed fs) bitmap) in *. clearbody crc.
  rewrite (gd_get_eq fs gd Hok 2 lo); [|exact Hg|lia|lia]. cbn [mbind option_bind].
  set (l := get16 (g * _ + lo) gd). assert (Hl : 0 ≤ l < 2^16) by (apply get16_range, Hok).
  decide_case (last ≤ EXT2_DESC_SIZE (fs_super fs)) as Hd.
  - rewrite (gd_get_eq fs gd Hok 2 hi); [|exact Hg|lia|lia]. cbn [mbind option_bind]. f_equal. apply bool_decide_ext.
    set (h := get16 (g * _ + hi) gd). assert (Hh : 0 ≤ h < 2^16) by (apply get16_range, Hok).
    rewrite u32_small; [|rewrite Z.shiftl_mul_pow2 //; lia].
    assert (Hj : Z.lor l (Z.shiftl h 16) = l + h * 2^16).
    { pose proof (lor_shift_join 16 (l + h * 2^16) ltac:(lia)) as Hj.
      rewrite Z.shiftr_div_pow2 // Z.div_add // Z.mod_add // in Hj.
      rewrite (Z.div_small l) // Z.add_0_l !(Z.mod_small _ (2^16)) // in Hj.
      rewrite Hj. apply Z.mod_small. lia. }
    rewrite Hj land_ffff Z.shiftr_div_pow2 //. clearbody l h. clear Hj. split; [intros <-; split; [rewrite Z.mod_add // Z.mod_small //|intros _; rewrite Z.div_add // Z.div_small //]|].
    intros [-> Hh2]. rewrite (Hh2 Hd). pose proof (Z.div_mod crc (2^16)). lia.
  - f_equal. apply bool_decide_ext. split; [|tauto]. intros ->. done.
Qed.

(** Setting it. *)
Lemma bitmap_csum_set_eq lo hi last fs gd g bitmap :
  gd_ok fs gd → 0 ≤ g < fs_group_desc_count fs → seed_ok fs → is_bytes bitmap →
  ext2fs_has_feature_metadata_csum (fs_super fs) = true →
  0 ≤ lo → lo + 2 ≤ 32 → 32 ≤ hi → hi + 2 ≤ last →
  ∃ fs' gd', bitmap_csum_set lo hi last fs g bitmap = Some (E_OK, fs') ∧ same_but_gd fs fs' gd' ∧
    length gd' = length gd ∧ bitmap_stored lo hi last fs g gd' bitmap ∧
    outside_same fs g gd gd' ∧
    ∀ o, 0 ≤ o → (o + 2 ≤ lo ∨ lo + 2 ≤ o) → (o + 2 ≤ hi ∨ hi + 2 ≤ o) → desc16 fs g o gd' = desc16 fs g o gd.
Proof.
  intros Hok Hg Hs Hb Hm Hlo Hlo32 Hhi Hlast. pose proof (gd_ds fs gd Hok) as Hds.
  assert (32 ≤ EXT2_DESC_SIZE (fs_super fs)) by (destruct ext2fs_has_feature_64bit; lia).
  pose proof (crc32c_range (fs_csum_seed fs) bitmap Hs Hb) as Hc. pose proof (shiftr16_range _ Hc).
  unfold bitmap_csum_set, bitmap_stored, desc16, outside_same. rewrite Hm. cbn [negb].
  set (crc := crc32c (fs_csum_seed fs) bitmap) in *. clearbody crc.
  set (ds := EXT2_DESC_SIZE (fs_super fs)) in *. assert (Hgds : 0 ≤ g * ds) by nia.
  destruct (gd_set_ok fs gd Hok g Hg 2 lo (Z.land crc 0xFFFF)) as [Hset Hok']; [done|fold ds; lia|].
  fold ds in Hset, Hok'. rewrite Hset. cbn [mbind option_bind]. set (gd1 := set16 (g * ds + lo) _ gd) in *.
  pose proof (gd_in_field fs gd Hok g Hg 2 lo ltac:(lia) ltac:(fold ds; lia)) as Hin. fold ds in Hin.
  assert (Hl1 : length gd1 = length gd) by (by apply length_set_le).
  assert (Hg1 : get16 (g * ds + lo) gd1 = Z.land crc 65535).
  { unfold gd1. rewrite get_set_le // land_ffff. change (256 ^ Z.of_nat 2) with (2^16). by rewrite Z.mod_mod. }
  change (EXT2_DESC_SIZE (fs_super (set_group_desc gd1 fs))) with ds.
  decide_case (last ≤ ds) as Hd.
  - destruct (gd_set_ok _ gd1 Hok' g Hg 2 hi (Z.shiftr crc 16)) as [Hset2 Hok2]; [lia|cbn; fold ds; lia|].
    change (EXT2_DESC_SIZE (fs_super (set_group_desc gd1 fs))) with ds in Hset2, Hok2.
    pose proof (gd_in_field _ gd1 Hok' g Hg 2 hi ltac:(lia) ltac:(cbn; fold ds; lia)) as Hin2.
    change (EXT2_DESC_SIZE (fs_super (set_group_desc gd1 fs))) with ds in Hin2.
    rewrite Hset2. cbn [mbind option_bind]. eexists _, _. split; [reflexivity|].
    split; [split; [reflexivity|exact Hok2]|]. split; [by rewrite length_set_le|]. split; [split|split].
    + rewrite get_set_le_ne //; lia.
    + intros _. rewrite get_set_le // Z.mod_small //.
    + intros i Hi. rewrite lookup_set_le_ne //; [|lia]. unfold gd1. rewrite lookup_set_le_ne //; lia.
    + intros o ? ? ?. rewrite get_set_le_ne //; [|lia|lia]. unfold gd1. rewrite get_set_le_ne //; lia.
  - eexists _, _. split; [reflexivity|]. split; [split; [reflexivity|exact Hok']|]. split; [done|].
    split; [done|]. split; [intros i Hi; unfold gd1; rewrite lookup_set_le_ne //; lia|].
    intros o ? ? ?. unfold gd1. rewrite get_set_le_ne //; lia.
Qed.

(** A descriptor within the descriptors. *)
Lemma slice_set_le m (n k : nat) o v b : 0 ≤ m → 0 ≤ o → o + Z.of_nat k ≤ Z.of_nat n →
  m + Z.of_nat n ≤ Z.of_nat (length b) →
  take n (drop (Z.to_nat m) (set_le k (m + o) v b)) = set_le k o v (take n (drop (Z.to_nat m) b)).
Proof.
  intros Hm0 Ho Hn Hm.
  assert (Hin : in_buf k (m + o) b) by (split; lia).
  assert (Hin' : in_buf k o (take n (drop (Z.to_nat m) b))) by (split; rewrite ?length_take ?length_drop; lia).
  apply list_eq. intros i. destruct (decide (i < n)%nat).
  - rewrite lookup_take_lt // lookup_drop.
    destruct (decide (o ≤ Z.of_nat i < o + Z.of_nat k)).
    + rewrite !lookup_set_le_eq //; [|lia]. f_equal. lia.
    + rewrite !lookup_set_le_ne //; [|lia|lia]. by rewrite lookup_take_lt // lookup_drop.
  - rewrite lookup_take_ge; [|lia]. rewrite lookup_set_le_ne //; [|lia]. rewrite lookup_take_ge //; lia.
Qed.

Lemma drop_set_le (m : nat) k off v b : in_buf k off b → off + Z.of_nat k ≤ Z.of_nat m →
  drop m (set_le k off v b) = drop m b.
Proof.
  intros Hin Hm. apply list_eq. intros i. rewrite !lookup_drop. apply lookup_set_le_ne; [done|lia].
Qed.

Lemma crc16_range crc p : 0 ≤ crc < 2^16 → is_bytes p → 0 ≤ ext2fs_crc16 crc p < 2^16.
Proof.
  intros Hc Hp. rewrite crc16_bitwise //. apply (le_bitwise_range 16); [lia|done..].
Qed.

Lemma group_desc_csum_range fs g desc : super_ok (fs_super fs) → is_bytes desc →
  0 ≤ group_desc_csum_bytes fs g desc < 2^16.
Proof.
  intros [Hsb _] Hd. unfold group_desc_csum_bytes. destruct (ext2fs_has_feature_metadata_csum _).
  - rewrite land_ffff. by apply Z.mod_pos_bound.
  - do 4 (apply crc16_range; [|by first [apply Forall_take, Forall_drop|apply Forall_drop|apply Forall_take|apply le_encode_bytes]]).
    lia.
Qed.

(** The checksum of a descriptor does not depend on the field that holds it. *)
Lemma group_desc_csum_set16 fs g v desc : (32 ≤ length desc)%nat →
  group_desc_csum_bytes fs g (set16 bg_checksum v desc) = group_desc_csum_bytes fs g desc.
Proof.
  intros Hl. assert (in_buf 2 bg_checksum desc) by (unfold bg_checksum; split; lia).
  unfold group_desc_csum_bytes. rewrite set_set_le // take_set_le // drop_set_le //.
Qed.

Lemma group_desc_csum_stored fs gd g : gd_ok fs gd → super_ok (fs_super fs) → 0 ≤ g < fs_group_desc_count fs →
  ∃ fs' gd', ext2fs_group_desc_csum_set fs g = Some fs' ∧ same_but_gd fs fs' gd' ∧ length gd' = length gd ∧
    ext2fs_group_desc_csum_verify fs' g = Some true ∧ outside_same fs g gd gd' ∧
    ∀ o, 0 ≤ o → (o + 2 ≤ bg_checksum ∨ bg_checksum + 2 ≤ o) → desc16 fs g o gd' = desc16 fs g o gd.
Proof.
  intros Hok Hsb Hg. unfold ext2fs_group_desc_csum_set, ext2fs_group_desc_csum_verify.
  destruct (ext2fs_has_group_desc_csum fs) eqn:Hc; cbn [negb].
  2: { exists fs, gd. rewrite Hc. assert (set_group_desc gd fs = fs) as Heq.
       { destruct fs, Hok. unfold set_group_desc. cbn in *. by subst. }
       split_and!; [done|by split|done|done|by intros i|done]. }
  pose proof (gd_ds fs gd Hok) as Hds.
  assert (32 ≤ EXT2_DESC_SIZE (fs_super fs)) by (destruct ext2fs_has_feature_64bit; lia).
  assert (Hcs : ∀ fs' gd', gd_ok fs' gd' → fs_super fs' = fs_super fs → fs_csum_seed fs' = fs_csum_seed fs →
    fs_group_desc_count fs' = fs_group_desc_count fs →
    ext2fs_group_desc_csum fs' g = Some (group_desc_csum_bytes fs g
      (take (Z.to_nat (EXT2_DESC_SIZE (fs_super fs))) (drop (Z.to_nat (g * EXT2_DESC_SIZE (fs_super fs))) gd')))).
  { intros fs' gd' Hok' E1 E2 E3. destruct (gd_in_group fs' gd' Hok' g) as [H1 H2]; [by rewrite E3|].
    rewrite E1 in H1, H2. unfold ext2fs_group_desc_csum. rewrite (group_desc_eq fs' gd' Hok'); [|by rewrite E3].
    cbn [mbind option_bind]. rewrite E1 decide_True; [|split; lia]. unfold group_desc_csum_bytes.
    by rewrite E1 E2. }
  rewrite (Hcs fs gd) //. cbn [mbind option_bind].
  set (ds := EXT2_DESC_SIZE (fs_super fs)) in *.
  set (desc := take (Z.to_nat ds) _). set (csum := group_desc_csum_bytes fs g desc).
  assert (Hb : is_bytes desc) by (apply Forall_take, Forall_drop, Hok).
  assert (Hr : 0 ≤ csum < 2^16) by (by apply group_desc_csum_range).
  destruct (gd_in_group fs gd Hok g Hg) as [H1 H2]. fold ds in H1, H2.
  destruct (gd_set_ok fs gd Hok g Hg 2 bg_checksum csum) as [Hset Hok']; [done|unfold bg_checksum; fold ds; lia|].
  fold ds in Hset, Hok'. set (gd' := set16 _ csum gd) in *.
  assert (Hin : in_buf 2 (g * ds + bg_checksum) gd) by (unfold bg_checksum; split; lia).
  assert (Hlen : (32 ≤ length desc)%nat) by (unfold desc; rewrite length_take length_drop; lia).
  exists (set_group_desc gd' fs), gd'.
  split; [exact Hset|]. split; [by split|]. split; [by apply length_set_le|].
  split; [|split].
  - change (ext2fs_has_group_desc_csum (set_group_desc gd' fs)) with (ext2fs_has_group_desc_csum fs).
    unfold ext2fs_bg_checksum. rewrite Hc (Hcs _ gd') //.
    rewrite (gd_get_eq _ gd' Hok'); [|done|done|unfold bg_checksum; cbn; fold ds; lia].
    cbn [mbind option_bind]. f_equal.
    apply bool_decide_eq_true_2. change (EXT2_DESC_SIZE (fs_super (set_group_desc gd' fs))) with ds.
    unfold gd' at 1. rewrite get_set_le //. change (256 ^ Z.of_nat 2) with (2^16). rewrite Z.mod_small //.
    unfold gd'. rewrite slice_set_le; [|lia|done|unfold bg_checksum; lia|lia].
    by rewrite group_desc_csum_set16.
  - intros i Hi. fold ds in Hi. apply lookup_set_le_ne; [done|]. unfold bg_checksum. lia.
  - intros o Ho Hap. unfold desc16. fold ds. apply get_set_le_ne; [done|lia|lia].
Qed.

(** C36: Writing the checksums of the two bitmaps of a group to its descriptor and
    then the checksum of the descriptor, as ext2fs_flush does, succeeds and
    gives descriptors with which all three are verified; the descriptors of the
    other groups keep their bytes. *)
Theorem group_csums_set_verify fs gd g inode_bitmap block_bitmap :
  gd_ok fs gd → super_ok (fs_super fs) → 0 ≤ g < fs_group_desc_count fs → seed_ok fs →
  is_bytes inode_bitmap → is_bytes block_bitmap →
  ∃ fs1 fs2 fs3 gd3,
    ext2fs_inode_bitmap_csum_set fs g inode_bitmap = Some (E_OK, fs1) ∧
    ext2fs_block_bitmap_csum_set fs1 g block_bitmap = Some (E_OK, fs2) ∧
    ext2fs_group_desc_csum_set fs2 g = Some fs3 ∧
    ext2fs_inode_bitmap_csum_verify fs3 g inode_bitmap = Some true ∧
    ext2fs_block_bitmap_csum_verify fs3 g block_bitmap = Some true ∧
    ext2fs_group_desc_csum_verify fs3 g = Some true ∧
    same_but_gd fs fs3 gd3 ∧ length gd3 = length gd ∧ outside_same fs g gd gd3.
Proof.
  intros Hok Hsb Hg Hs Hi Hb.
  destruct (ext2fs_has_feature_metadata_csum (fs_super fs)) eqn:Hm.
  2: { destruct (group_desc_csum_stored fs gd g Hok Hsb Hg) as (fs3 & gd3 & Hset & [-> Hok3] & Hl & Hv & Ho & _).
       exists fs, fs, (set_group_desc gd3 fs), gd3.
       unfold ext2fs_inode_bitmap_csum_set, ext2fs_block_bitmap_csum_set, ext2fs_inode_bitmap_csum_verify,
         ext2fs_block_bitmap_csum_verify, bitmap_csum_set, bitmap_csum_verify.
       cbn [fs_super set_group_desc]. rewrite Hm. split_and!; done. }
  destruct (bitmap_csum_set_eq bg_inode_bitmap_csum_lo bg_inode_bitmap_csum_hi EXT4_BG_INODE_BITMAP_CSUM_HI_END
    fs gd g inode_bitmap) as (fs1 & gd1 & Hset1 & [-> Hok1] & Hl1 & [Hlo1 Hhi1] & Ho1 & Hsame1); [done..|].
  destruct (bitmap_csum_set_eq bg_block_bitmap_csum_lo bg_block_bitmap_csum_hi EXT4_BG_BLOCK_BITMAP_CSUM_HI_LOCATION
    (set_group_desc gd1 fs) gd1 g block_bitmap) as (fs2 & gd2 & Hset2 & [-> Hok2] & Hl2 & [Hlo2 Hhi2] & Ho2 & Hsame2); [done..|].
  destruct (group_desc_csum_stored (set_group_desc gd2 (set_group_desc gd1 fs)) gd2 g Hok2 Hsb Hg)
    as (fs3 & gd3 & Hset3 & [-> Hok3] & Hl3 & Hv3 & Ho3 & Hsame3).
  eexists _, _, _, gd3. split; [exact Hset1|]. split; [exact Hset2|]. split; [exact Hset3|].
  unfold ext2fs_inode_bitmap_csum_verify, ext2fs_block_bitmap_csum_verify.
  rewrite !(bitmap_csum_verify_eq _ _ _ _ gd3) //.
  split; [|split; [|split; [exact Hv3|split; [by split|split; [congruence|]]]]].
  - f_equal. apply bool_decide_eq_true_2. split.
    + etrans; [apply Hsame3; unfold bg_inode_bitmap_csum_lo, bg_checksum; lia|].
      etrans; [apply Hsame2; unfold bg_inode_bitmap_csum_lo, bg_block_bitmap_csum_lo, bg_block_bitmap_csum_hi; lia|].
      exact Hlo1.
    + intros Hd. etrans; [apply Hsame3; unfold bg_inode_bitmap_csum_hi, bg_checksum; lia|].
      etrans; [apply Hsame2; unfold bg_inode_bitmap_csum_hi, bg_block_bitmap_csum_lo, bg_block_bitmap_csum_hi; lia|].
      exact (Hhi1 Hd).
  - f_equal. apply bool_decide_eq_true_2. split.
    + etrans; [apply Hsame3; unfold bg_block_bitmap_csum_lo, bg_checksum; lia|]. exact Hlo2.
    + intros Hd. etrans; [apply Hsame3; unfold bg_block_bitmap_csum_hi, bg_checksum; lia|]. exact (Hhi2 Hd).
  - intros i Hi'. rewrite Ho3 // Ho2 // Ho1 //.
Qed.

(** ** Numbers in the seed *)
Lemma le_encode_app j k v : le_encode (j + k) v = le_encode j v ++ le_encode k (v / 256 ^ Z.of_nat j).
Proof.
  revert v. induction j as [|j IH]; intros v; [by rewrite Z.div_1_r|].
  rewrite pow256_S. cbn [Nat.add le_encode app]. rewrite IH Z.div_div //. apply pow256_pos.
Qed.

Lemma le_encode_inj k x y : 0 ≤ x < 256 ^ Z.of_nat k → 0 ≤ y < 256 ^ Z.of_nat k →
  le_encode k x = le_encode k y → x = y.
Proof.
  intros Hx Hy Heq. rewrite -(Z.mod_small x (256 ^ Z.of_nat k)) // -(Z.mod_small y (256 ^ Z.of_nat k)) //.
  by rewrite -!le_decode_encode Heq.
Qed.

Lemma crc32c_number crc k x y : 0 ≤ crc < 2^32 → x / 2^32 = y / 2^32 → x ≠ y →
  crc32c crc (le_encode (4 + k) x) ≠ crc32c crc (le_encode (4 + k) y).
Proof.
  intros Hc Hhi Hne. rewrite !le_encode_app. change (256 ^ Z.of_nat 4) with (2^32). rewrite Hhi.
  apply (crc32c_burst crc []); try apply le_encode_bytes; [done|constructor|..].
  - by rewrite !length_le_encode.
  - by rewrite length_le_encode.
  - intros Heq. apply Hne. rewrite (Z.div_mod x (2^32)) // (Z.div_mod y (2^32)) // Hhi. f_equal.
    change (2^32) with (256 ^ Z.of_nat 4). by rewrite -!le_decode_encode Heq.
Qed.

Lemma crc32c_next crc crc' p : 0 ≤ crc < 2^32 → 0 ≤ crc' < 2^32 → is_bytes p → crc ≠ crc' →
  crc32c crc p ≠ crc32c crc' p.
Proof. intros Hc Hc' Hp Hne Heq. by apply Hne, (crc32c_inj crc crc' p). Qed.

Lemma inum_gen_csum_inum fs inum inum' gen : seed_ok fs → 0 ≤ inum < 2^32 → 0 ≤ inum' < 2^32 → inum ≠ inum' →
  inum_gen_csum fs inum gen ≠ inum_gen_csum fs inum' gen.
Proof.
  intros Hs Hi Hi' Hne. apply crc32c_next; [by apply seed_bytes_range..|apply le_encode_bytes|].
  apply (crc32c_number _ 0); [done|by rewrite !Z.div_small|done].
Qed.

(** C38: With metadata checksums, a block of extended attributes that is verified as
    one block is not verified as another whose number has the same upper 32
    bits; an inode with a checksum of 32 bits that is not all zero, a directory
    block with a tail entry or a block of extents that is verified for one
    inode is not verified for another one with the same generation. *)
Theorem csum_detects_misplacement fs ext2fs_read_inode block block' inum inum' inode inode' b :
  ext2fs_has_feature_metadata_csum (fs_super fs) = true → seed_ok fs → is_bytes b →
  0 ≤ block < 2^64 → 0 ≤ block' < 2^64 → block / 2^32 = block' / 2^32 → block ≠ block' →
  0 ≤ inum < 2^32 → 0 ≤ inum' < 2^32 → inum ≠ inum' →
  ext2fs_read_inode fs inum = (E_OK, inode) → ext2fs_read_inode fs inum' = (E_OK, inode') →
  i_generation inode = i_generation inode' →
  (ext2fs_ext_attr_block_csum_verify fs block b = true →
   ext2fs_ext_attr_block_csum_verify fs block' b = false) ∧
  (inode_ok fs b → inode_has_hi fs b = true → not_zero b →
   ext2fs_inode_csum_verify fs inum b = true → ext2fs_inode_csum_verify fs inum' b = false) ∧
  ((__get_dirent_tail fs b).1 = E_OK →
   ext2fs_dir_block_csum_verify ext2fs_read_inode fs inum b = true →
   ext2fs_dir_block_csum_verify ext2fs_read_inode fs inum' b = false) ∧
  (ext2fs_extent_block_csum_verify ext2fs_read_inode fs inum b = Some true →
   ext2fs_extent_block_csum_verify ext2fs_read_inode fs inum' b = Some false).
Proof.
  intros Hm Hs Hb Hbl Hbl' Hhalf Hne Hi Hi' Hni Hr Hr' Hgen.
  assert (Hnext : ∀ p, is_bytes p →
    crc32c (inum_gen_csum fs inum (i_generation inode)) p ≠
    crc32c (inum_gen_csum fs inum' (i_generation inode')) p).
  { intros p Hp. rewrite -Hgen. apply crc32c_next; [by apply inum_gen_csum_range..|done|].
    by apply inum_gen_csum_inum. }
  split_and!.
  - unfold ext2fs_ext_attr_block_csum_verify. rewrite Hm. cbn [negb]. apply not_both; [done|].
    apply crc32c_next; [by apply seed_bytes_range..|by apply Forall_take, set_le_bytes|].
    by apply (crc32c_number _ 4).
  - intros Hok Hhi Hz. rewrite !inode_verify_hi // Hz !orb_false_r. apply not_both; [done|].
    rewrite !inode_csum_cleared. apply crc32c_next; [by apply inum_gen_csum_range..| |by apply inum_gen_csum_inum].
    by apply Forall_take, inode_cleared_bytes.
  - unfold ext2fs_dir_block_csum_verify, ext2fs_dirent_csum_verify.
    destruct (__get_dirent_tail fs b) as [e t]. cbn [fst]. intros ->. rewrite Hm. cbn [negb].
    rewrite ok_eq ok_ne (dirent_csum_eq _ _ _ _ Hr) (dirent_csum_eq _ _ _ _ Hr') ok_ne.
    apply not_both; [done|]. by apply Hnext, Forall_take.
  - unfold ext2fs_extent_block_csum_verify, ext2fs_extent_block_csum. rewrite Hm Hr Hr' ok_ne. cbn [negb].
    destruct (decide (in_buf 4 _ b)) as [Hin|]; [|done]. destruct (bool_decide (_ < _)); [done|].
    cbn [mbind option_bind fst snd]. rewrite ok_ne. intros [= H]. f_equal. revert H.
    apply not_both; [done|]. by apply Hnext, Forall_take.
Qed.

(** The walk over the entries of a directory block, whatever the block holds,
    ends within as many steps as the block has bytes: [__get_dirent_tail] never
    runs out of fuel, more fuel gives the same result, and a walk that succeeds
    has reached the place of the tail entry, where the tail is if it has one. *)
Theorem dirent_walk_terminates fs dirent fuel :
  1024 ≤ fs_blocksize fs → (Z.to_nat (fs_blocksize fs - sizeof_dirent_tail) < fuel)%nat →
  ∃ retval d, dirent_walk fuel dirent (fs_blocksize fs - sizeof_dirent_tail) 0 = Some (retval, d) ∧
    dirent_walk (S (Z.to_nat (fs_blocksize fs - sizeof_dirent_tail))) dirent
      (fs_blocksize fs - sizeof_dirent_tail) 0 = Some (retval, d) ∧
    (retval = E_OK → fs_blocksize fs - sizeof_dirent_tail ≤ d) ∧ 0 ≤ d ∧
    (∀ t, __get_dirent_tail fs dirent = (E_OK, t) → d = t ∧ t = fs_blocksize fs - sizeof_dirent_tail).
Proof.
  intros Hbs Hf. set (top := fs_blocksize fs - sizeof_dirent_tail) in *.
  assert (0 ≤ top) by (unfold top, sizeof_dirent_tail; lia).
  destruct (dirent_walk_enough (S (Z.to_nat top)) fuel dirent top 0) as ([e d] & H1 & H2 & H3 & H4); [lia..|].
  exists e, d. cbn in H3, H4. split_and!; [done..|].
  intros t Ht. destruct (dirent_tail_at _ _ _ Ht) as [_ ->]. fold sizeof_dirent_tail.
  revert Ht. unfold __get_dirent_tail. rewrite bool_decide_eq_false_2; [|lia]. fold top. rewrite H1.
  destruct (bool_decide (e ≠ E_OK)) eqn:He; [intros [= ->]; by apply bool_decide_eq_true in He|].
  destruct (bool_decide (fs_blocksize fs < d)); [done|]. destruct (bool_decide (d ≠ top)); [done|].
  destruct (bool_decide (_ ∨ _)); [done|]. intros [= Hd]. done.
Qed.

(** ** A file system with metadata checksums, and its structures *)
Definition csum_super : list Z := set16 88 256 (set32 76 1 (set32 100 0x401 demo_super)).
Definition csum_fs : ext2_filsys :=
  Filsys EXT2_ET_MAGIC_EXT2FS_FILSYS csum_super 0 1024 4 1 2 0 0 0x12345678 (Some demo_gd) (λ _, None).
Definition csum_inode : list Z := set16 128 32 (replicate 256 3).
Definition csum_read_inode (fs : ext2_filsys) (inum : Z) : errcode * list Z := (E_OK, csum_inode).
(** One unused entry and the tail entry. *)
Definition csum_dir : list Z := set16 1018 0xDE00 (set16 1016 12 (set16 4 1012 (replicate 1024 0))).

Lemma csum_seed_ok : seed_ok csum_fs.
Proof. by split. Qed.

Lemma csum_super_ok : super_ok csum_super.
Proof. split; [do 3 apply set_le_bytes; apply demo_super_ok|done]. Qed.

Lemma csum_inode_ok : inode_ok csum_fs csum_inode.
Proof.
  constructor; [apply set_le_bytes; by apply Forall_replicate|done|right; vm_compute; discriminate].
Qed.

Lemma csum_dir_bytes : is_bytes csum_dir.
Proof. repeat apply set_le_bytes. by apply Forall_replicate. Qed.

Lemma csum_gd_ok : gd_ok csum_fs demo_gd.
Proof. constructor; try done. by apply Forall_replicate. Qed.

Lemma csum_set_witness :
  ext2fs_superblock_csum_verify csum_fs (ext2fs_superblock_csum_set csum_fs csum_super).2 = true ∧
  ext2fs_inode_csum_verify csum_fs 12 (ext2fs_inode_csum_set csum_fs 12 csum_inode).2 = true.
Proof.
  destruct (csum_set_verify csum_fs 50 12 csum_super (replicate 1024 7) (replicate 1024 1) csum_inode)
    as (H1 & _ & _ & H2); [exact csum_seed_ok|apply csum_super_ok|by apply Forall_replicate..|done| | |
      exact csum_inode_ok|].
  - rewrite length_replicate. lia.
  - rewrite length_replicate. lia.
  - split; [apply H1|apply H2].
Defined.

Lemma dir_csum_set_witness :
  let b := (ext2fs_dir_block_csum_set csum_read_inode csum_fs 12 csum_dir).2 in
  ext2fs_dir_block_csum_verify csum_read_inode csum_fs 12 b = true ∧
  ∀ i : nat, Z.of_nat i ∉ seqZ (1012 + 8) 4 → b !! i = csum_dir !! i.
Proof.
  intros b. destruct (dir_csum_set_verify csum_read_inode csum_fs 12 csum_inode csum_dir) as (H & _ & _);
    [done|reflexivity|exact csum_seed_ok|exact csum_dir_bytes|by vm_compute|done|].
  destruct (H 1012) as (_ & Hv & _ & Hs); [vm_compute; reflexivity|]. split; [exact Hv|exact Hs].
Defined.

Lemma group_csums_set_witness :
  ∃ fs3, ext2fs_inode_bitmap_csum_verify fs3 2 (replicate 32 255) = Some true ∧
    ext2fs_group_desc_csum_verify fs3 2 = Some true.
Proof.
  destruct (group_csums_set_verify csum_fs demo_gd 2 (replicate 32 255) (replicate 32 1))
    as (fs1 & fs2 & fs3 & gd3 & _ & _ & _ & H1 & _ & H3 & _);
    [exact csum_gd_ok|exact csum_super_ok|done|exact csum_seed_ok|by apply Forall_replicate..|].
  exists fs3. split; [exact H1|exact H3].
Defined.

Lemma csum_detects_corruption_witness :
  let b := (ext2fs_superblock_csum_set csum_fs csum_super).2 in
  ext2fs_superblock_csum_verify csum_fs b = true ∧
  ext2fs_superblock_csum_verify csum_fs (set32 200 77 b) = false.
Proof.
  intros b. assert (Hb : ext2fs_superblock_csum_verify csum_fs b = true) by (vm_compute; reflexivity).
  split; [exact Hb|].
  assert (Hin : in_buf 4 200 b) by (split; vm_compute; discriminate).
  assert (Hby : is_bytes b) by (apply (bool_decide_unpack _); vm_compute; exact I).
  destruct (csum_detects_corruption csum_fs 50 12 200 4 b (set32 200 77 b)) as (H & _).
  - reflexivity.
  - exact csum_seed_ok.
  - exact Hby.
  - by apply set_le_bytes.
  - constructor; [by rewrite length_set_le|exact Hin|intros i Hi; symmetry; by apply lookup_set_le_ne|].
    intros Heq. apply (f_equal (get32 200)) in Heq. vm_compute in Heq. discriminate Heq.
  - lia.
  - apply H; [lia|exact Hb].
Defined.

Lemma csum_detects_misplacement_witness :
  let b := (ext2fs_inode_csum_set csum_fs 12 csum_inode).2 in
  ext2fs_inode_csum_verify csum_fs 12 b = true ∧ ext2fs_inode_csum_verify csum_fs 13 b = false.
Proof.
  intros b. assert (Hb : ext2fs_inode_csum_verify csum_fs 12 b = true) by (vm_compute; reflexivity).
  split; [exact Hb|]. assert (Hby : is_bytes b) by (apply (bool_decide_unpack _); vm_compute; exact I).
  destruct (csum_detects_misplacement csum_fs csum_read_inode 50 51 12 13 csum_inode csum_inode b) as (_ & H & _);
    [reflexivity|exact csum_seed_ok|exact Hby|lia|lia|reflexivity|lia..|reflexivity|reflexivity|reflexivity|].
  apply H; [|vm_compute; reflexivity|vm_compute; reflexivity|exact Hb].
  constructor; [exact Hby|vm_compute; reflexivity|right; vm_compute; discriminate].
Defined.

Lemma dirent_walk_terminates_witness : dirent_walk 2000 csum_dir 1012 0 = Some (E_OK, 1012).
Proof.
  destruct (dirent_walk_terminates csum_fs csum_dir 2000) as (e & d & H & _ & He & _ & Ht);
    [vm_compute; discriminate|change (fs_blocksize csum_fs) with 1024; unfold sizeof_dirent_tail; lia|].
  destruct (Ht 1012) as [-> _]; [vm_compute; reflexivity|].
  change (fs_blocksize csum_fs - sizeof_dirent_tail) with 1012 in H. rewrite H.
  vm_compute in H. injection H as <-. reflexivity.
Defined.
