(* ===== verification/Mem.v ===== *)
(** * Mem: the C memory model and the monad of heap-manipulating code

    The code under src/ is C on an LP64 machine.  Its pointers are byte
    addresses ([Z], [0] is NULL), its memory a finite map from addresses to
    cells.  A field of a structure whose fields are 64-bit words sits at the
    field's offset (0, 8, 16, ...) and is one cell; a byte of a [char] array is
    one cell.  A cell that [malloc] returned and nobody wrote is [Undef]:
    reading it, or any address outside the allocated blocks, is a [Fault].

    [M A] is the type of computations: they take a fuel (the number of loop
    iterations they may still run) and the memory, and return a value and the
    new memory, or stop.  The C library's [malloc] is not under src/: it is the
    class [Malloc], with the behaviour the C standard documents. *)
From S2P Require Import Prelude.

(** One memory cell: a value, or the indeterminate contents of fresh memory. *)
Inductive cell :=
  | Undef
  | Val (v : Z).

Abbreviation heap := (gmap Z cell).

(** Results: a value with the memory, [abort()], undefined behaviour (an
    invalid memory access), or the fuel ran out. *)
Inductive res (A : Type) :=
  | Ok (a : A) (h : heap)
  | Abort
  | Fault
  | OutOfFuel.
Arguments Ok {A} a h.
Arguments Abort {A}.
Arguments Fault {A}.
Arguments OutOfFuel {A}.

Definition M (A : Type) : Type := nat → heap → res A.

#[export] Instance M_ret : MRet M := λ A a n h, Ok a h.

#[export] Instance M_bind : MBind M := λ A B k m n h,
  match m n h with
  | Ok a h' => k a n h'
  | Abort => Abort
  | Fault => Fault
  | OutOfFuel => OutOfFuel
  end.

(** [abort()]. *)
Definition m_abort {A} : M A := λ n h, Abort.

(** An access outside the program's objects. *)
Definition m_fault {A} : M A := λ n h, Fault.

(** Read the word or byte at address [a]. *)
Definition load (a : Z) : M Z := λ n h,
  match h !! a with
  | Some (Val v) => Ok v h
  | _ => Fault
  end.

(** Write the word or byte at address [a]. *)
Definition store (a v : Z) : M unit := λ n h,
  match h !! a with
  | Some _ => Ok tt (<[a := Val v]> h)
  | None => Fault
  end.

(** ** Loops

    [loop body s] runs [body] on the state until it returns [inr b]; every
    iteration uses one unit of fuel. *)
Fixpoint loop_fuel {S B} (body : S → M (S + B)) (n : nat) (s : S) (h : heap) : res B :=
  match n with
  | O => OutOfFuel
  | Datatypes.S n' =>
      match body s n' h with
      | Ok (inl s') h' => loop_fuel body n' s' h'
      | Ok (inr b) h' => Ok b h'
      | Abort => Abort
      | Fault => Fault
      | OutOfFuel => OutOfFuel
      end
  end.

Definition loop {S B} (body : S → M (S + B)) (s : S) : M B :=
  λ n h, loop_fuel body n s h.

(** Go round the loop with state [s]; leave it with [b]. *)
Definition continue_ {S B} (s : S) : M (S + B) := mret (inl s).
Definition break_ {S B} (b : B) : M (S + B) := mret (inr b).

(** [for (i = lo; i < lo + k; i++) body] *)
Fixpoint for_range (k : nat) (lo : Z) (body : Z → M unit) : M unit :=
  match k with
  | O => mret tt
  | S k' => body lo ;; for_range k' (lo + 1) body
  end.

(** ** Allocation

    A block is [k] cells, [stride] apart: words (stride 8) or bytes (stride
    1). *)
Fixpoint alloc_cells (p stride : Z) (k : nat) (h : heap) : heap :=
  match k with
  | O => h
  | S k' => <[p := Undef]> (alloc_cells (p + stride) stride k' h)
  end.

Fixpoint free_cells (p stride : Z) (k : nat) (h : heap) : heap :=
  match k with
  | O => h
  | S k' => delete p (free_cells (p + stride) stride k' h)
  end.

Fixpoint cells_allocated (p stride : Z) (k : nat) (h : heap) : bool :=
  match k with
  | O => true
  | S k' => bool_decide (is_Some (h !! p)) && cells_allocated (p + stride) stride k' h
  end.

(** The C library's allocator: where [malloc(size)] puts its block in memory
    [h], or [None] when it fails.  The block is non-NULL, aligned for any type
    (16 on LP64), and does not overlap a live one. *)
Class Malloc := {
  malloc_addr : heap → Z → option Z;
  malloc_valid : ∀ h sz p, malloc_addr h sz = Some p →
    0 < p ∧ p mod 16 = 0 ∧ ∀ i, 0 ≤ i < sz → h !! (p + i) = None;
}.

(** The allocator can fail on some memory. *)
Definition malloc_can_fail {ML : Malloc} : Prop :=
  ∃ h sz, malloc_addr h sz = None.

(** [malloc] of a block of [k] cells; [0] is the NULL it returns on failure. *)
Definition malloc {ML : Malloc} (stride : Z) (k : nat) : M Z := λ n h,
  match malloc_addr h (stride * Z.of_nat k) with
  | Some p => Ok p (alloc_cells p stride k h)
  | None => Ok 0 h
  end.

(** [free]: nothing for NULL; freeing what is not a live block is undefined. *)
Definition free (stride : Z) (k : nat) (p : Z) : M unit := λ n h,
  if bool_decide (p = 0) then Ok tt h
  else if cells_allocated p stride k h then Ok tt (free_cells p stride k h)
  else Fault.

(** An allocator that never fails and always takes memory above every live
    block: it shows that the class is inhabited, and runs the examples. *)
Definition heap_top (h : heap) : Z :=
  map_fold (λ a _ top, Z.max top (a + 1)) 1 h.

Lemma heap_top_pos h : 0 < heap_top h.
Proof.
  unfold heap_top. apply (map_fold_weak_ind (λ top _, 0 < top)); [lia|].
  intros; lia.
Qed.

Lemma heap_top_above h a : is_Some (h !! a) → a < heap_top h.
Proof.
  unfold heap_top.
  apply (map_fold_weak_ind (λ top m, is_Some (m !! a) → a < top)).
  - intros [c Hc]. by rewrite lookup_empty in Hc.
  - intros i c m top Hm IH. rewrite lookup_insert. case_decide; [lia|].
    intros Ha%IH. lia.
Qed.

#[export] Program Instance bump_malloc : Malloc := {|
  malloc_addr h sz := Some (16 * (heap_top h `div` 16 + 1));
|}.
Next Obligation.
  simpl. intros h sz p [= <-]. pose proof (heap_top_pos h).
  split; [|split].
  - pose proof (Z.div_pos (heap_top h) 16). lia.
  - rewrite Z.mul_comm. apply Z.mod_mul. lia.
  - intros i Hi. destruct (h !! _) eqn:E; [|done].
    pose proof (heap_top_above h _ (mk_is_Some _ _ E)).
    pose proof (Z.mod_pos_bound (heap_top h) 16).
    pose proof (Z.div_mod (heap_top h) 16). lia.
Qed.

Lemma bump_malloc_total : ¬ malloc_can_fail (ML := bump_malloc).
Proof. by intros (h & sz & [=]). Qed.

(** Run a computation from the empty memory, keeping only its value. *)
Definition run {A} (fuel : nat) (m : M A) : option A :=
  match m fuel ∅ with
  | Ok a _ => Some a
  | _ => None
  end.
