(* ===== verification/SepLogic.v ===== *)
(** * SepLogic: a separation logic for the memory model

    [hProp] is the type of assertions: predicates on the part of the memory
    they own, upwards closed (memory may be given up).  It is an instance of
    Iris's [bi] interface, so its proof mode is available.  [wp m Q] says that
    [m], run in a memory that contains the owned part, performs no invalid
    access, and with enough fuel returns a value satisfying [Q] without
    touching the rest of the memory; the only other outcome is [abort()], and
    only when [malloc] can fail. *)
#[export] Set Warnings "-rewrite-rw".
From iris.proofmode Require Import coq_tactics reduction.
From iris.proofmode Require Export proofmode.
From S2P Require Import Prelude.
From S2P Require Import Mem.

Record hProp := HProp {
  hholds :> heap → Prop;
  hholds_mono : ∀ h1 h2, h1 ⊆ h2 → hholds h1 → hholds h2;
}.
Add Printing Constructor hProp.
Bind Scope bi_scope with hProp.

(** ** The connectives *)
Section connectives.
Local Obligation Tactic := idtac.

#[export] Instance hProp_equiv : Equiv hProp := λ P Q, ∀ h, P h ↔ Q h.

(** Entailment; a record, so that the proof mode does not look through it. *)
Record hp_entails (P Q : hProp) : Prop := HpEntails {
  hp_entails_holds : ∀ h, P h → Q h;
}.

Program Definition hp_pure (φ : Prop) : hProp := HProp (λ _, φ) _.
Next Obligation. done. Qed.

Definition hp_emp : hProp := hp_pure True.

Program Definition hp_and (P Q : hProp) : hProp := HProp (λ h, P h ∧ Q h) _.
Next Obligation.
  intros P Q h1 h2 Hh [HP HQ]. split; by eapply hholds_mono.
Qed.

Program Definition hp_or (P Q : hProp) : hProp := HProp (λ h, P h ∨ Q h) _.
Next Obligation.
  intros P Q h1 h2 Hh [HP|HQ]; [left|right]; by eapply hholds_mono.
Qed.

Program Definition hp_impl (P Q : hProp) : hProp :=
  HProp (λ h, ∀ h', h ⊆ h' → P h' → Q h') _.
Next Obligation.
  intros P Q h1 h2 Hh HPQ h' Hh' HP. apply HPQ; [by etrans|done].
Qed.

Program Definition hp_forall (A : Type) (Φ : A → hProp) : hProp :=
  HProp (λ h, ∀ x, Φ x h) _.
Next Obligation. intros A Φ h1 h2 Hh HΦ x. by eapply hholds_mono. Qed.

Program Definition hp_exist (A : Type) (Φ : A → hProp) : hProp :=
  HProp (λ h, ∃ x, Φ x h) _.
Next Obligation.
  intros A Φ h1 h2 Hh [x HΦ]. exists x. by eapply hholds_mono.
Qed.

Program Definition hp_sep (P Q : hProp) : hProp :=
  HProp (λ h, ∃ h1 h2, h1 ##ₘ h2 ∧ h1 ∪ h2 ⊆ h ∧ P h1 ∧ Q h2) _.
Next Obligation.
  intros P Q h1 h2 Hh (ha & hb & Hd & Hu & HP & HQ).
  exists ha, hb. split_and!; try done. by etrans.
Qed.

Program Definition hp_wand (P Q : hProp) : hProp :=
  HProp (λ h, ∀ h', h ##ₘ h' → P h' → Q (h ∪ h')) _.
Next Obligation.
  intros P Q h1 h2 Hh HPQ h' Hd HP.
  apply hholds_mono with (h1 ∪ h').
  - by apply map_union_mono_r.
  - apply HPQ; [|done]. by eapply map_disjoint_weaken_l.
Qed.

Definition hp_persistently (P : hProp) : hProp := hp_pure (hp_entails hp_emp P).

Definition hp_later (P : hProp) : hProp := P.
End connectives.

(** ** The laws *)
Lemma hProp_equivalence : Equivalence (≡@{hProp}).
Proof.
  split; [done| |].
  - intros P Q HPQ h. by rewrite (HPQ h).
  - intros P Q R HPQ HQR h. by rewrite (HPQ h) (HQR h).
Qed.

#[export] Instance hProp_dist : Dist hProp := discrete_dist.

Definition hProp_ofe_mixin : OfeMixin hProp := discrete_ofe_mixin hProp_equivalence.
Canonical Structure hPropO := Ofe hProp hProp_ofe_mixin.

#[export] Instance hProp_cofe : Cofe hPropO := discrete_cofe hProp_equivalence.

Lemma hp_bi_mixin : BiMixin
  hp_entails hp_emp hp_pure hp_and hp_or hp_impl hp_forall hp_exist hp_sep hp_wand.
Proof.
  split.
  - (* preorder *) split; [by intros P; split|]. intros P Q R [HPQ] [HQR]. split. auto.
  - (* equivalence *) intros P Q. split; [intros HPQ; split; split; intros h; apply HPQ|].
    intros [[HPQ] [HQP]] h. split; auto.
  - intros n φ1 φ2 Hφ h. exact Hφ.
  - intros n P1 P2 HP Q1 Q2 HQ h. by rewrite /= (HP h) (HQ h).
  - intros n P1 P2 HP Q1 Q2 HQ h. by rewrite /= (HP h) (HQ h).
  - intros n P1 P2 HP Q1 Q2 HQ h. split; intros H h' Hh' HP';
      apply HQ, H, HP, HP'; done.
  - intros A n Φ1 Φ2 HΦ h. split; intros H x; by apply (HΦ x h).
  - intros A n Φ1 Φ2 HΦ h. split; intros [x Hx]; exists x; by apply (HΦ x h).
  - intros n P1 P2 HP Q1 Q2 HQ h.
    split; intros (h1 & h2 & ? & ? & H1 & H2); exists h1, h2; split_and!; try done;
      by [apply HP|apply HQ].
  - intros n P1 P2 HP Q1 Q2 HQ h. split; intros H h' Hd HP';
      apply HQ, H, HP, HP'; done.
  - intros φ P Hφ. by split.
  - intros φ P HφP. split=> h Hφ. by apply (HφP Hφ).
  - intros P Q. by split=> h [].
  - intros P Q. by split=> h [].
  - intros P Q R [HQ] [HR]. split=> h HP. split; auto.
  - intros P Q. split=> h HP. by left.
  - intros P Q. split=> h HQ. by right.
  - intros P Q R [HP] [HQ]. split=> h [?|?]; auto.
  - intros P Q R [HR]. split=> h HP h' Hh HQ. apply HR. split; [by eapply hholds_mono|done].
  - intros P Q R [HR]. split=> h [HP HQ]. by apply (HR h HP h).
  - intros A P Ψ HΨ. split=> h HP x. by apply HΨ.
  - intros A Ψ x. split=> h HΨ. apply HΨ.
  - intros A Ψ x. split=> h HΨ. by exists x.
  - intros A Φ Q HΦ. split=> h [x Hx]. by apply (HΦ x).
  - intros P P' Q Q' [HP] [HQ]. split. intros h (h1 & h2 & ? & ? & ? & ?). exists h1, h2. split_and!; auto.
  - intros P. split=> h HP. exists ∅, h. split_and!; try done; [solve_map_disjoint|].
    by rewrite left_id_L.
  - intros P. split. intros h (h1 & h2 & ? & Hu & _ & HP). eapply hholds_mono, HP.
    etrans; [|exact Hu]. by apply map_union_subseteq_r.
  - intros P Q. split. intros h (h1 & h2 & ? & ? & ? & ?). exists h2, h1. split_and!; try done.
    by rewrite map_union_comm.
  - intros P Q R. split.
    intros h (h12 & h3 & Hd & Hu & (h1 & h2 & Hd' & Hu' & HP & HQ) & HR).
    exists h1, (h2 ∪ h3).
    assert (h1 ∪ h2 ##ₘ h3) as Hd3 by by eapply map_disjoint_weaken_l.
    apply map_disjoint_union_l in Hd3 as [??].
    split_and!; [solve_map_disjoint| |done|].
    + rewrite assoc_L. etrans; [|exact Hu]. by apply map_union_mono_r.
    + exists h2, h3. split_and!; done.
  - intros P Q R [HR]. split=> h HP h' Hd HQ. apply HR. by exists h, h'.
  - intros P Q R [HR]. split. intros h (h1 & h2 & Hd & Hu & HP & HQ).
    eapply hholds_mono; [exact Hu|]. by apply (HR h1 HP h2).
Qed.

Lemma hp_persistently_mixin : BiPersistentlyMixin
  hp_entails hp_emp hp_and hp_exist hp_sep hp_persistently.
Proof.
  eapply bi_persistently_mixin_discrete, hp_bi_mixin.
  - by intros n P Q.
  - intros A Φ [HΦ]. destruct (HΦ ∅ I) as [x Hx]. exists x. split=> h _.
    eapply hholds_mono, Hx. apply map_empty_subseteq.
  - done.
Qed.

Lemma hp_later_mixin : BiLaterMixin
  hp_entails hp_pure hp_or hp_impl hp_forall hp_exist hp_sep hp_persistently hp_later.
Proof. eapply bi_later_mixin_id, hp_bi_mixin. done. Qed.

Canonical Structure hPropI : bi :=
  {| bi_ofe_mixin := ofe_mixin_of hProp;
     bi_bi_mixin := hp_bi_mixin;
     bi_bi_persistently_mixin := hp_persistently_mixin;
     bi_bi_later_mixin := hp_later_mixin |}.

#[export] Instance hProp_affine : BiAffine hPropI | 0.
Proof. intros P. by split. Qed.

#[export] Instance hProp_pure_forall : BiPureForall hPropI.
Proof. intros A φ. by split. Qed.

(** ** Ownership of memory *)

(** The cell at [a] is allocated, whatever it holds. *)
Program Definition owns (a : Z) : hProp := HProp (λ h, is_Some (h !! a)) _.
Next Obligation. intros a h1 h2 Hh [c Hc]. eexists. by eapply lookup_weaken. Qed.

(** The cell at [a] holds [v]. *)
Program Definition pointsto (a v : Z) : hProp := HProp (λ h, h !! a = Some (Val v)) _.
Next Obligation. simpl. intros a v h1 h2 Hh Ha. exact (lookup_weaken _ _ _ _ Ha Hh). Qed.

Notation "a ↦ v" := (pointsto a v) (at level 20, format "a  ↦  v") : bi_scope.

(** A block of [k] cells, contents unknown. *)
Fixpoint owns_block (p stride : Z) (k : nat) : hProp :=
  match k with
  | O => emp
  | S k' => owns p ∗ owns_block (p + stride) stride k'
  end%I.

(** The words [vs] stored from [p] on, [stride] apart. *)
Fixpoint array_at (p stride : Z) (vs : list Z) : hProp :=
  match vs with
  | [] => emp
  | v :: vs' => p ↦ v ∗ array_at (p + stride) stride vs'
  end%I.

Lemma pointsto_owns a v : a ↦ v ⊢ owns a.
Proof. split=> h Ha. by exists (Val v). Qed.

Lemma owns_ne a b : owns a ∗ owns b ⊢ ⌜a ≠ b⌝.
Proof.
  split. intros h (h1 & h2 & Hd & _ & [c1 H1] & [c2 H2]) ->.
  by eapply map_disjoint_spec.
Qed.

Lemma pointsto_ne a b v w : a ↦ v -∗ b ↦ w -∗ ⌜a ≠ b⌝.
Proof.
  iIntros "Ha Hb". iApply owns_ne.
  iSplitL "Ha"; [by iApply (pointsto_owns with "Ha")|by iApply (pointsto_owns with "Hb")].
Qed.

Lemma pointsto_agree_false a v w : a ↦ v -∗ a ↦ w -∗ False.
Proof. iIntros "Ha Hb". iDestruct (pointsto_ne with "Ha Hb") as %[]. done. Qed.

(** ** Weakest preconditions *)
Lemma heap_split (h1 h2 : heap) : h1 ⊆ h2 → ∃ h3, h2 = h1 ∪ h3 ∧ h1 ##ₘ h3.
Proof.
  intros Hh. exists (h2 ∖ h1). split.
  - by rewrite map_difference_union.
  - by apply map_disjoint_difference_r1.
Qed.

Section wp.
Context {ML : Malloc}.

Definition wp_holds {A} (m : M A) (Q : A → hProp) (h : heap) : Prop :=
  ∀ hf, h ##ₘ hf → ∃ n0 : nat,
    (∃ a h', h' ##ₘ hf ∧ Q a h' ∧
      ∀ n, (n0 ≤ n)%nat → m n (h ∪ hf) = Ok a (h' ∪ hf)) ∨
    (malloc_can_fail ∧ ∀ n, (n0 ≤ n)%nat → m n (h ∪ hf) = Abort).

Lemma wp_holds_mono {A} (m : M A) Q h1 h2 :
  h1 ⊆ h2 → wp_holds m Q h1 → wp_holds m Q h2.
Proof.
  intros (h3 & -> & H13)%heap_split Hwp hf [H1f H3f]%map_disjoint_union_l.
  rewrite -assoc_L. destruct (Hwp (h3 ∪ hf)) as (n0 & Hn0).
  { by apply map_disjoint_union_r. }
  exists n0. destruct Hn0 as [(a & h' & Hd & HQ & Hm)|Hab]; [left|by right].
  apply map_disjoint_union_r in Hd as [??]. exists a, (h' ∪ h3). split_and!.
  - by apply map_disjoint_union_l.
  - eapply hholds_mono, HQ. by apply map_union_subseteq_l.
  - intros n Hn. by rewrite -assoc_L Hm.
Qed.

Definition wp {A} (m : M A) (Q : A → hProp) : hProp :=
  HProp (wp_holds m Q) (wp_holds_mono m Q).

(** Partial-failure triples: from any memory in which [P] holds. *)
Definition hoare {A} (P : hProp) (m : M A) (Q : A → hProp) : Prop :=
  ∀ h, P h → ∃ n0 : nat,
    (∃ a h', Q a h' ∧ ∀ n, (n0 ≤ n)%nat → m n h = Ok a h') ∨
    (malloc_can_fail ∧ ∀ n, (n0 ≤ n)%nat → m n h = Abort).

Lemma wp_adequate {A} P (m : M A) Q : (P ⊢ wp m Q) → hoare P m Q.
Proof.
  intros [HPm] h HP. destruct (HPm h HP ∅) as (n0 & Hn0); [solve_map_disjoint|].
  rewrite right_id_L in Hn0. exists n0.
  destruct Hn0 as [(a & h' & _ & HQ & Hm)|Hab]; [left|by right].
  exists a, h'. split; [done|]. by rewrite right_id_L in Hm.
Qed.

Implicit Types h hf : heap.

Lemma wp_ret {A} (a : A) Q : Q a ⊢ wp (mret a) Q.
Proof. split=> h HQ hf Hd. exists 0%nat. left. by exists a, h. Qed.

Lemma wp_mono {A} (m : M A) Q R : (∀ a, Q a ⊢ R a) → wp m Q ⊢ wp m R.
Proof.
  intros HQR. split=> h Hwp hf Hd. destruct (Hwp hf Hd) as (n0 & [Hn0|Hab]);
    exists n0; [left|by right].
  destruct Hn0 as (a & h' & ? & HQ & ?). exists a, h'.
  split_and!; [done|by apply HQR|done].
Qed.

Lemma wp_frame {A} (m : M A) Q R : R ∗ wp m Q ⊢ wp m (λ a, R ∗ Q a).
Proof.
  split. intros h (h1 & h2 & Hd & Hu & HR & Hwp). eapply hholds_mono; [exact Hu|].
  clear h Hu. intros hf [H1f H2f]%map_disjoint_union_l.
  destruct (Hwp (h1 ∪ hf)) as (n0 & Hn0).
  { apply map_disjoint_union_r. by split; [symmetry|]. }
  exists n0. rewrite (map_union_comm h1) // -assoc_L.
  destruct Hn0 as [(a & h' & Hdf & HQ & Hm)|Hab]; [left|by right].
  apply map_disjoint_union_r in Hdf as [??].
  exists a, (h' ∪ h1). split_and!.
  - by apply map_disjoint_union_l.
  - exists h1, h'. split_and!; [by symmetry| |done|done].
    by rewrite map_union_comm.
  - intros n Hn. by rewrite -assoc_L Hm.
Qed.

Lemma wp_wand {A} (m : M A) Q R : wp m Q -∗ (∀ a, Q a -∗ R a) -∗ wp m R.
Proof.
  iIntros "Hwp HQR".
  iApply (wp_mono m (λ a, (∀ a, Q a -∗ R a) ∗ Q a)%I).
  - intros a. iIntros "[HQR HQ]". by iApply "HQR".
  - iApply wp_frame. iFrame.
Qed.

Lemma wp_bind {A B} (m : M A) (k : A → M B) Q :
  wp m (λ a, wp (k a) Q) ⊢ wp (m ≫= k) Q.
Proof.
  split=> h Hwp hf Hd. destruct (Hwp hf Hd) as (n1 & Hn1).
  destruct Hn1 as [(a & h' & Hd' & Hk & Hm)|[Hf Hab]].
  - destruct (Hk hf Hd') as (n2 & Hn2). exists (n1 + n2)%nat.
    destruct Hn2 as [(b & h'' & Hd'' & HQ & Hm')|[Hf Hab]]; [left|right].
    + exists b, h''. split_and!; [done..|]. intros n Hn.
      rewrite /mbind /M_bind Hm; [|lia]. apply Hm'. lia.
    + split; [done|]. intros n Hn. rewrite /mbind /M_bind Hm; [|lia].
      apply Hab. lia.
  - exists n1. right. split; [done|]. intros n Hn.
    by rewrite /mbind /M_bind Hab.
Qed.

(** The first two commands of a sequence, as one. *)
Lemma wp_assoc {A B C} (m : M A) (f : A → M B) (g : B → M C) Q :
  wp ((m ≫= f) ≫= g) Q ⊢ wp (m ≫= λ x, f x ≫= g) Q.
Proof.
  split=> h Hwp hf Hd. destruct (Hwp hf Hd) as (n0 & Hn0). exists n0.
  assert (∀ n h, ((m ≫= f) ≫= g) n h = (m ≫= λ x, f x ≫= g) n h) as Heq.
  { intros n h'. unfold mbind, M_bind. by destruct (m n h'). }
  destruct Hn0 as [(a & h' & ? & ? & Hm)|[? Hm]]; [left|right].
  - exists a, h'. split_and!; [done..|]. intros n Hn. by rewrite -Heq Hm.
  - split; [done|]. intros n Hn. by rewrite -Heq Hm.
Qed.

Lemma wp_abort {A} (Q : A → hProp) : ⌜malloc_can_fail⌝ ⊢ wp m_abort Q.
Proof. split=> h Hf hf Hd. exists 0%nat. by right. Qed.

Lemma wp_load a v Q : a ↦ v ∗ (a ↦ v -∗ Q v) ⊢ wp (load a) Q.
Proof.
  split. intros h (h1 & h2 & Hd & Hu & Ha & HQ). eapply hholds_mono; [exact Hu|].
  clear h Hu. intros hf Hdf. exists 0%nat. left. exists v, (h1 ∪ h2).
  split_and!; [done| |].
  - rewrite map_union_comm //. by apply HQ.
  - intros n _. by rewrite /load -assoc_L (lookup_union_Some_l _ _ _ _ Ha).
Qed.

Lemma wp_store a v Q : owns a ∗ (a ↦ v -∗ Q tt) ⊢ wp (store a v) Q.
Proof.
  split. intros h (h1 & h2 & Hd & Hu & [c Hc] & HQ). eapply hholds_mono; [exact Hu|].
  clear h Hu. intros hf Hdf. exists 0%nat. left.
  apply map_disjoint_union_l in Hdf as [??].
  exists tt, (<[a:=Val v]> h1 ∪ h2).
  assert (∀ h', h1 ##ₘ h' → <[a:=Val v]> h1 ##ₘ h') as Hins.
  { intros h' Hh'. apply map_disjoint_insert_l_2; [|done].
    by eapply map_disjoint_Some_l. }
  split_and!; [by apply map_disjoint_union_l; auto| |].
  - rewrite map_union_comm; [|by apply Hins]. apply HQ; [symmetry; by apply Hins|].
    by apply lookup_insert_eq.
  - intros n _. rewrite /store -assoc_L (lookup_union_Some_l _ _ _ _ Hc).
    by rewrite insert_union_l assoc_L.
Qed.

Lemma wp_loop {S B} (body : S → M (S + B)) s Q :
  wp (body s) (λ r, match r with inl s' => wp (loop body s') Q | inr b => Q b end)
  ⊢ wp (loop body s) Q.
Proof.
  split=> h Hwp hf Hd. destruct (Hwp hf Hd) as (n1 & Hn1).
  destruct Hn1 as [(r & h' & Hd' & Hr & Hm)|[Hf Hab]].
  - destruct r as [s'|b].
    + destruct (Hr hf Hd') as (n2 & Hn2). exists (1 + n1 + n2)%nat.
      assert (∀ n, (1 + n1 + n2 ≤ n)%nat →
        loop body s n (h ∪ hf) = loop body s' (pred n) (h' ∪ hf)) as Hstep.
      { intros [|n] Hn; [lia|]. rewrite /loop /= Hm //. lia. }
      destruct Hn2 as [(b & h'' & ? & ? & Hm')|[? Hm']]; [left|right].
      * exists b, h''. split_and!; [done..|]. intros n Hn.
        rewrite Hstep // Hm' //. lia.
      * split; [done|]. intros n Hn. rewrite Hstep // Hm' //. lia.
    + exists (1 + n1)%nat. left. exists b, h'. split_and!; [done..|].
      intros [|n] Hn; [lia|]. rewrite /loop /= Hm //. lia.
  - exists (1 + n1)%nat. right. split; [done|]. intros [|n] Hn; [lia|].
    rewrite /loop /= Hab //. lia.
Qed.
End wp.

(** ** Allocation, counted loops *)
Lemma alloc_cells_union p stride k (h : heap) :
  alloc_cells p stride k h = alloc_cells p stride k ∅ ∪ h.
Proof.
  revert p. induction k as [|k IH]; intros p; simpl; [by rewrite left_id_L|].
  by rewrite IH insert_union_l.
Qed.

Lemma alloc_cells_Some p stride k a :
  is_Some (alloc_cells p stride k (∅ : heap) !! a) →
  ∃ i, 0 ≤ i < Z.of_nat k ∧ a = p + stride * i.
Proof.
  revert p. induction k as [|k IH]; intros p; simpl.
  - intros [c Hc]. by rewrite lookup_empty in Hc.
  - rewrite lookup_insert. case_decide as Hpa.
    + intros _. exists 0. lia.
    + intros (i & ? & ->)%IH. exists (i + 1). lia.
Qed.

Lemma owns_block_alloc p stride k :
  0 < stride → owns_block p stride k (alloc_cells p stride k ∅).
Proof.
  intros Hst. revert p. induction k as [|k IH]; intros p; simpl; [done|].
  exists {[p := Undef]}, (alloc_cells (p + stride) stride k ∅).
  assert (alloc_cells (p + stride) stride k (∅ : heap) !! p = None).
  { apply eq_None_not_Some. intros (i & ? & ?)%alloc_cells_Some. nia. }
  split_and!; [|by rewrite insert_union_singleton_l| |done].
  - by apply map_disjoint_singleton_l_2.
  - exists Undef. by apply lookup_singleton_eq.
Qed.

Section wp_blocks.
Context {ML : Malloc}.

Lemma wp_malloc stride k Q :
  0 < stride →
  (∀ p, ⌜0 < p ∧ p mod 16 = 0⌝ -∗ owns_block p stride k -∗ Q p) ∧
  (⌜malloc_can_fail⌝ -∗ Q 0)
  ⊢ wp (malloc stride k) Q.
Proof.
  intros Hst. split=> h [HQ HQ0] hf Hd. exists 0%nat. left.
  rewrite /malloc.
  destruct (malloc_addr (h ∪ hf) (stride * Z.of_nat k)) as [p|] eqn:Hp.
  - destruct (malloc_valid _ _ _ Hp) as (Hp0 & Hp16 & Hfree).
    set (hb := alloc_cells p stride k (∅ : heap)).
    assert (hb ##ₘ h ∪ hf) as Hb.
    { apply map_disjoint_alt. intros a.
      destruct (hb !! a) eqn:Ha; [right|by left].
      destruct (alloc_cells_Some p stride k a) as (i & Hi & ->); [by eexists|].
      apply Hfree. nia. }
    apply map_disjoint_union_r in Hb as [Hbh Hbf].
    exists p, (h ∪ hb). split_and!.
    + by apply map_disjoint_union_l.
    + specialize (HQ p ∅). rewrite right_id_L in HQ.
      apply HQ; [solve_map_disjoint|done|by symmetry|].
      by apply owns_block_alloc.
    + intros n _. rewrite alloc_cells_union -/hb assoc_L. f_equal.
      by rewrite (map_union_comm hb h).
  - exists 0, h. split_and!; [done| |done].
    rewrite -(right_id_L ∅ (∪) h). apply HQ0; [solve_map_disjoint|].
    by exists (h ∪ hf), (stride * Z.of_nat k).
Qed.

Lemma free_block_holds p stride k (h hf : heap) :
  0 < stride → h ##ₘ hf → owns_block p stride k h →
  cells_allocated p stride k (h ∪ hf) = true ∧
  ∃ h', h' ##ₘ hf ∧ free_cells p stride k (h ∪ hf) = h' ∪ hf ∧ h' ⊆ h.
Proof.
  intros Hst. revert p h hf. induction k as [|k IH]; intros p h hf Hd; simpl.
  { intros _. split; [done|]. by exists h. }
  intros (h1 & h2 & Hd12 & Hu & [c Hc] & Hb).
  destruct (heap_split (h1 ∪ h2) h Hu) as (h3 & -> & Hd3).
  apply map_disjoint_union_l in Hd as [Hdf Hd3f].
  apply map_disjoint_union_l in Hdf as [H1f H2f].
  apply map_disjoint_union_l in Hd3 as [H13 H23].
  destruct (IH (p + stride) h2 (h1 ∪ h3 ∪ hf)) as (Hal & h' & Hd' & Hfr & Hsub).
  { rewrite !map_disjoint_union_r. split_and!; [by symmetry|done..]. }
  { done. }
  assert (h1 ∪ h2 ∪ h3 ∪ hf = h2 ∪ (h1 ∪ h3 ∪ hf)) as ->.
  { rewrite (map_union_comm h1 h2) // !assoc_L //. }
  apply map_disjoint_union_r in Hd' as [[H'1 H'3]%map_disjoint_union_r H'f].
  split.
  - rewrite Hal andb_true_r. apply bool_decide_eq_true.
    exists c. rewrite lookup_union_r; [|exact (map_disjoint_Some_l _ _ _ _ Hd12 Hc)].
    rewrite -assoc_L. by apply lookup_union_Some_l.
  - rewrite Hfr. exists (delete p h1 ∪ (h' ∪ h3)).
    assert (h' !! p = None) by exact (map_disjoint_Some_r _ _ _ _ H'1 Hc).
    assert (h3 !! p = None) by exact (map_disjoint_Some_l _ _ _ _ H13 Hc).
    assert (hf !! p = None) by exact (map_disjoint_Some_l _ _ _ _ H1f Hc).
    split_and!.
    + rewrite !map_disjoint_union_l. split_and!; [|done..].
      by apply map_disjoint_delete_l.
    + rewrite !delete_union (delete_id h') // (delete_id h3) // (delete_id hf) //.
      rewrite -!assoc_L. rewrite !(assoc_L _ h' (delete p h1)).
      rewrite (map_union_comm h' (delete p h1)) -?assoc_L //.
      by apply map_disjoint_delete_r.
    + apply map_union_least; [|apply map_union_least].
      * etrans; [apply delete_subseteq|].
        rewrite -assoc_L. by apply map_union_subseteq_l.
      * etrans; [exact Hsub|]. rewrite (map_union_comm h1) // -assoc_L.
        by apply map_union_subseteq_l.
      * apply map_union_subseteq_r. by apply map_disjoint_union_l.
Qed.

Lemma wp_free stride k p Q :
  0 < stride → p ≠ 0 →
  owns_block p stride k ∗ Q tt ⊢ wp (free stride k p) Q.
Proof.
  intros Hst Hp. split. intros h (h1 & h2 & Hd & Hu & Hb & HQ).
  eapply hholds_mono; [exact Hu|]. clear h Hu.
  intros hf [H1f H2f]%map_disjoint_union_l. exists 0%nat. left.
  destruct (free_block_holds p stride k h1 (h2 ∪ hf)) as (Hal & h' & Hd' & Hfr & _).
  { done. }
  { by apply map_disjoint_union_r. }
  { done. }
  apply map_disjoint_union_r in Hd' as [??].
  exists tt, (h' ∪ h2). split_and!.
  - by apply map_disjoint_union_l.
  - eapply hholds_mono, HQ. by apply map_union_subseteq_r.
  - intros n _. rewrite /free bool_decide_eq_false_2 // -!assoc_L Hal Hfr //.
Qed.

Lemma wp_free_null stride k Q : Q tt ⊢ wp (free stride k 0) Q.
Proof.
  split=> h HQ hf Hd. exists 0%nat. left. exists tt, h. split_and!; [done..|].
  intros n _. by rewrite /free bool_decide_eq_true_2.
Qed.

(** A counted loop keeps the invariant [I], which mentions the counter. *)
Lemma wp_for_range (I : Z → hProp) k lo body :
  (∀ i, lo ≤ i < lo + Z.of_nat k → I i ⊢ wp (body i) (λ _, I (i + 1))) →
  I lo ⊢ wp (for_range k lo body) (λ _, I (lo + Z.of_nat k)).
Proof.
  revert lo. induction k as [|k IH]; intros lo Hbody; simpl.
  - iIntros "HI". iApply wp_ret. by rewrite Z.add_0_r.
  - iIntros "HI". iApply wp_bind.
    iApply (wp_wand with "[HI]"); [iApply (Hbody with "HI"); lia|].
    iIntros (_) "HI". replace (lo + Z.of_nat (S k)) with (lo + 1 + Z.of_nat k) by lia.
    iApply (IH with "HI"). intros i Hi. apply Hbody. lia.
Qed.
End wp_blocks.

(** ** Tactics

    [wp_bind] focuses the first command of a sequence; [wp_load] and [wp_store]
    run a memory access whose cell is in the context; [wp_ret] a return;
    [wp_steps] all of these as long as they apply; [wp_apply t] uses the
    specification [t] for the first command. *)
Section tactic_lemmas.
Context {ML : Malloc}.
Implicit Types Δ : envs hPropI.

Lemma tac_load Δ i a v (Q : Z → hProp) :
  envs_lookup i Δ = Some (false, (a ↦ v)%I) →
  envs_entails Δ (Q v) →
  envs_entails Δ (wp (load a) Q).
Proof.
  rewrite envs_entails_unseal=> Hi HQ.
  iIntros "Henv". iDestruct (envs_lookup_split with "Henv") as "[Ha Henv]"; [done|].
  iApply wp_load. iFrame "Ha". iIntros "Ha". iApply HQ. by iApply "Henv".
Qed.

Lemma tac_store Δ Δ' i a v P (Q : unit → hProp) :
  envs_lookup i Δ = Some (false, P) →
  (P ⊢ owns a) →
  envs_simple_replace i false (Esnoc Enil i (a ↦ v)%I) Δ = Some Δ' →
  envs_entails Δ' (Q tt) →
  envs_entails Δ (wp (store a v) Q).
Proof.
  rewrite envs_entails_unseal=> Hi HP Hrep HQ.
  iIntros "Henv".
  iDestruct (envs_simple_replace_sound with "Henv") as "[HPa Hcl]"; [done..|].
  iApply wp_store. iSplitL "HPa"; [by iApply HP|].
  iIntros "Ha". iApply HQ. iApply "Hcl". simpl. by iFrame.
Qed.
End tactic_lemmas.

Ltac wp_beta := cbv beta; pm_prettify.

Ltac wp_bind :=
  lazymatch goal with
  | |- envs_entails _ (wp (_ ≫= _) _) => iApply wp_bind; wp_beta
  end.

Ltac wp_ret :=
  lazymatch goal with
  | |- envs_entails _ (wp (mret _) _) => iApply wp_ret; wp_beta
  | |- envs_entails _ (wp (continue_ _) _) => unfold continue_; iApply wp_ret; wp_beta
  | |- envs_entails _ (wp (break_ _) _) => unfold break_; iApply wp_ret; wp_beta
  end.

Ltac wp_load :=
  iStartProof; repeat wp_bind;
  lazymatch goal with
  | |- envs_entails _ (wp (load ?a) _) =>
      eapply tac_load; [iAssumptionCore || fail "wp_load: no cell at" a|wp_beta]
  end.

Ltac wp_store :=
  iStartProof; repeat wp_bind;
  lazymatch goal with
  | |- envs_entails ?Δ (wp (store ?a ?v) _) =>
      first
        [ eapply (tac_store _ _ _ a v);
          [ match goal with |- _ = Some (_, _) =>
              first [ instantiate (1 := (a ↦ _)%I); iAssumptionCore
                    | instantiate (1 := owns a); iAssumptionCore ] end
          | first [ done | apply pointsto_owns ]
          | pm_reflexivity
          | wp_beta ]
        | fail 1 "wp_store: no cell at" a ]
  end.

Ltac wp_step := first [wp_bind | wp_ret | wp_load | wp_store].
Ltac wp_steps := iStartProof; repeat wp_step.

Tactic Notation "wp_apply" open_constr(t) :=
  iStartProof; repeat wp_bind; iApply t.

(** Unfold a function in the running command only; start a loop. *)
Tactic Notation "wp_unfold" reference(f) :=
  iStartProof;
  lazymatch goal with
  | |- envs_entails ?Δ (wp ?m ?Q) =>
      let m' := eval unfold f in m in
      let m' := eval cbv beta in m' in
      change (envs_entails Δ (wp m' Q))
  end.

Tactic Notation "wp_loop" reference(f) :=
  iStartProof; iApply wp_loop;
  lazymatch goal with
  | |- envs_entails ?Δ (wp ?m ?Q) =>
      let m' := eval unfold f in m in
      let m' := eval simpl in m' in
      change (envs_entails Δ (wp m' Q))
  end.

(** ** Triples

    [⦃ P ⦄ m ⦃ x, Q ⦄]: from [P], [m] is safe, terminates, and ends in [Q]. *)
#[warnings="-closed-notation-not-level-0"]
Notation "⦃ P ⦄ m ⦃ x , Q ⦄" :=
  (∀ Φ, P -∗ (∀ x, Q -∗ Φ x) -∗ wp m Φ)
  (at level 20, P at level 200, m at level 200, x binder, Q at level 200,
   format "⦃  P  ⦄  m  ⦃  x ,  Q  ⦄") : stdpp_scope.

Lemma triple_hoare `{ML : Malloc} {A} P (m : M A) Q :
  ⦃ P ⦄ m ⦃ a, Q a ⦄ → hoare P m Q.
Proof.
  intros Ht. apply wp_adequate. iIntros "HP".
  iApply (Ht with "HP"). iIntros (a) "HQ". done.
Qed.

#[global] Open Scope Z_scope.

Lemma entails_holds (P Q : hProp) (h : heap) : (P ⊢ Q) → P h → Q h.
Proof. intros [HPQ]. apply HPQ. Qed.

(** Adding a fresh cell to a memory. *)
Lemma pointsto_insert a v (P : hProp) (h : heap) :
  h !! a = None → P h → (a ↦ v ∗ P)%I (<[a := Val v]> h).
Proof.
  intros Ha HP. exists {[a := Val v]}, h. split_and!.
  - by apply map_disjoint_singleton_l_2.
  - by rewrite -insert_union_singleton_l.
  - by apply lookup_singleton_eq.
  - done.
Qed.
