(* ===== verification/ExtMem.v ===== *)
(** * ExtMem: the allocation wrappers of ext2fs.h, and memory blocks

    [ext2fs_get_mem], [ext2fs_free_mem] and their variants
    (lib/ext2fs/ext2fs.h), with the C library's [memset] and [memcpy] as the
    loops they stand for, and the lemmas on arrays in memory that their users
    share. *)
From S2P Require Import Prelude.
From S2P Require Import Mem.
From S2P Require Import SepLogic.
#[local] Set Warnings "-rewrite-rw".
#[local] Open Scope Z_scope.

(** ** The C library *)

(** [memset(p, v, k)] on bytes. *)
Definition memset (p v : Z) (k : nat) : M unit :=
  for_range k p (λ a, store a v).

(** [memcpy(d, s, k)], cell by cell. *)
Fixpoint memcpy (stride d s : Z) (k : nat) : M unit :=
  match k with
  | O => mret tt
  | S k' => v ← load s; store d v ;; memcpy stride (d + stride) (s + stride) k'
  end.

(** ** ext2fs.h

    A size is given as a number of cells and their distance. *)
Definition ext2fs_get_mem {ML : Malloc} (stride : Z) (k : nat) : M (errcode * Z) :=
  pp ← malloc stride k;
  if bool_decide (pp = 0) then mret (EXT2_ET_NO_MEMORY, 0)
  else mret (E_OK, pp).

Definition ext2fs_free_mem (stride : Z) (k : nat) (p : Z) : M unit :=
  free stride k p.

(** [memset(p, 0, ...)] on a block of cells. *)
Fixpoint zero_cells (p stride : Z) (k : nat) : M unit :=
  match k with
  | O => mret tt
  | S k' => store p 0 ;; zero_cells (p + stride) stride k'
  end.

Definition ext2fs_get_memzero {ML : Malloc} (stride : Z) (k : nat) : M (errcode * Z) :=
  r ← ext2fs_get_mem stride k;
  if bool_decide (r.1 ≠ E_OK) then mret r else
  zero_cells r.2 stride k ;;
  mret r.

Section specs.
Context {ML : Malloc}.

Lemma wp_get_mem stride k Φ :
  0 < stride →
  (∀ p, ⌜0 < p ∧ p mod 16 = 0⌝ -∗ owns_block p stride k -∗ Φ (E_OK, p)) ∧
  (⌜malloc_can_fail⌝ -∗ Φ (EXT2_ET_NO_MEMORY, 0))
  ⊢ wp (ext2fs_get_mem stride k) Φ.
Proof.
  iIntros (Hst) "HΦ". unfold ext2fs_get_mem. iApply wp_bind. iApply wp_malloc; [done|].
  iSplit.
  - iIntros (p [??]) "Hp". rewrite bool_decide_eq_false_2; [|lia]. wp_steps.
    iDestruct "HΦ" as "[HΦ _]". iApply ("HΦ" with "[%] Hp"). done.
  - iIntros (Hf). rewrite bool_decide_eq_true_2 //. wp_steps. iDestruct "HΦ" as "[_ HΦ]". iApply ("HΦ" with "[%]"). done.
Qed.
End specs.

Section memzero.
Context {ML : Malloc}.

Lemma wp_zero_cells p stride k Φ :
  owns_block p stride k -∗ (owns_block p stride k -∗ Φ tt) -∗ wp (zero_cells p stride k) Φ.
Proof.
  revert p Φ. induction k as [|k IH]; intros p Φ; simpl.
  - iIntros "_ HΦ". wp_steps. by iApply "HΦ".
  - iIntros "[Hp H] HΦ". wp_store. iApply (IH with "H"). iIntros "H". iApply "HΦ".
    iFrame. by iApply pointsto_owns.
Qed.

Lemma wp_get_memzero stride k Φ :
  0 < stride →
  (∀ p, ⌜0 < p ∧ p mod 16 = 0⌝ -∗ owns_block p stride k -∗ Φ (E_OK, p)) ∧
  (⌜malloc_can_fail⌝ -∗ Φ (EXT2_ET_NO_MEMORY, 0))
  ⊢ wp (ext2fs_get_memzero stride k) Φ.
Proof.
  iIntros (Hst) "HΦ". unfold ext2fs_get_memzero. iApply wp_bind. iApply wp_get_mem; [done|].
  iSplit.
  - iIntros (p Hp) "Hp". simpl. iApply wp_bind. iApply (wp_zero_cells with "Hp").
    iIntros "Hp". wp_steps. iDestruct "HΦ" as "[HΦ _]". by iApply ("HΦ" with "[%] Hp").
  - iIntros (Hf). simpl. wp_steps. iDestruct "HΦ" as "[_ HΦ]". by iApply "HΦ".
Qed.
End memzero.

(** ** Arrays in memory *)
Lemma array_at_acc p stride bs j b :
  bs !! j = Some b →
  array_at p stride bs ⊢
    (p + stride * Z.of_nat j) ↦ b ∗
    (∀ b', (p + stride * Z.of_nat j) ↦ b' -∗ array_at p stride (<[j:=b']> bs)).
Proof.
  revert p j. induction bs as [|v bs IH]; intros p [|j] Hj; simplify_eq/=.
  - replace (p + stride * Z.of_nat 0) with p by lia. iIntros "[$ $]". by iIntros (b') "$".
  - iIntros "[$ H]". iDestruct (IH (p + stride) j with "H") as "[H Hcl]"; [done|].
    replace (p + stride + stride * Z.of_nat j) with (p + stride * Z.of_nat (S j)) by lia.
    iFrame.
Qed.

Lemma array_at_app p stride xs ys :
  array_at p stride (xs ++ ys) ⊣⊢
  array_at p stride xs ∗ array_at (p + stride * Z.of_nat (length xs)) stride ys.
Proof.
  revert p. induction xs as [|x xs IH]; intros p; cbn [array_at app length].
  - rewrite left_id. by replace (p + stride * Z.of_nat 0) with p by lia.
  - rewrite IH -bi.sep_assoc.
    by replace (p + stride + stride * Z.of_nat (length xs))
      with (p + stride * Z.of_nat (S (length xs))) by lia.
Qed.

Lemma array_owns_block p stride vs :
  array_at p stride vs ⊢ owns_block p stride (length vs).
Proof.
  revert p. induction vs as [|v vs IH]; intros p; simpl; [done|].
  by rewrite IH pointsto_owns.
Qed.

Lemma owns_block_app p stride k1 k2 :
  owns_block p stride (k1 + k2) ⊣⊢
  owns_block p stride k1 ∗ owns_block (p + stride * Z.of_nat k1) stride k2.
Proof.
  revert p. induction k1 as [|k IH]; intros p; cbn [owns_block Nat.add].
  - rewrite left_id. by replace (p + stride * Z.of_nat 0) with p by lia.
  - rewrite IH -bi.sep_assoc.
    by replace (p + stride + stride * Z.of_nat k) with (p + stride * Z.of_nat (S k)) by lia.
Qed.

Section libc_specs.
Context {ML : Malloc}.

Lemma wp_memset p v k Φ :
  owns_block p 1 k -∗ (array_at p 1 (replicate k v) -∗ Φ tt) -∗
  wp (memset p v k) Φ.
Proof.
  unfold memset. revert p Φ. induction k as [|k IH]; intros p Φ; simpl.
  - iIntros "_ HΦ". wp_steps. by iApply "HΦ".
  - iIntros "[Hp H] HΦ". wp_store. iApply (IH with "H").
    iIntros "H". iApply "HΦ". iFrame.
Qed.

Lemma wp_memcpy stride d s vs Φ :
  owns_block d stride (length vs) -∗ array_at s stride vs -∗
  (array_at d stride vs -∗ array_at s stride vs -∗ Φ tt) -∗
  wp (memcpy stride d s (length vs)) Φ.
Proof.
  revert d s Φ. induction vs as [|v vs IH]; intros d s Φ; simpl.
  - iIntros "_ _ HΦ". wp_steps. by iApply "HΦ".
  - iIntros "[Hd Hds] [Hs Hss] HΦ". wp_load. wp_store.
    iApply (IH with "Hds Hss"). iIntros "Hds Hss". iApply ("HΦ" with "[$] [$]").
Qed.
End libc_specs.

#[global] Arguments memcpy : simpl never.

(** ** Resizing a block

    The C library's [realloc], for a block whose first cells are initialised: a
    new block with the old contents, the old block freed.  [NULL] leaves the
    old block alone. *)
Definition realloc {ML : Malloc} (stride : Z) (old new : nat) (p : Z) : M Z :=
  q ← malloc stride new;
  if bool_decide (q = 0) then mret 0 else
  memcpy stride q p (old `min` new) ;;
  free stride old p ;;
  mret q.

Definition ext2fs_resize_mem {ML : Malloc} (stride : Z) (old_size size : nat) (ptr : Z) :
    M (errcode * Z) :=
  p ← realloc stride old_size size ptr;
  if bool_decide (p = 0) then mret (EXT2_ET_NO_MEMORY, ptr)
  else mret (E_OK, p).

Section resize_spec.
Context {ML : Malloc}.

(** What follows the copied cells is fresh memory. *)
Lemma wp_resize_mem stride p vs new Φ :
  0 < stride → p ≠ 0 →
  array_at p stride vs -∗
  ((∀ q, ⌜0 < q ∧ q mod 16 = 0⌝ -∗
      array_at q stride (take new vs) -∗
      owns_block (q + stride * Z.of_nat (length vs `min` new)) stride (new - length vs) -∗
      Φ (E_OK, q)) ∧
   (⌜malloc_can_fail⌝ -∗ array_at p stride vs -∗ Φ (EXT2_ET_NO_MEMORY, p))) -∗
  wp (ext2fs_resize_mem stride (length vs) new p) Φ.
Proof.
  iIntros (Hst Hp) "Hvs HΦ". unfold ext2fs_resize_mem, realloc. iApply wp_bind. iApply wp_bind.
  iApply wp_malloc; [done|]. iSplit; last first.
  { iIntros (Hf). rewrite bool_decide_eq_true_2 //. wp_steps.
    rewrite bool_decide_eq_true_2 //. wp_steps.
    iDestruct "HΦ" as "[_ HΦ]". by iApply ("HΦ" with "[%]"). }
  iIntros (q [Hq Hal]) "Hq". rewrite bool_decide_eq_false_2; [|lia].
  remember (length vs `min` new)%nat as k eqn:Hkd.
  replace new with (k + (new - length vs))%nat at 1 by lia.
  rewrite owns_block_app. iDestruct "Hq" as "[Hq Hrest]".
  assert (length (take k vs) = k) as Hk by (rewrite length_take; lia).
  iAssert (array_at p stride (take k vs ++ drop k vs)) with "[Hvs]" as "Hvs".
  { by rewrite take_drop. }
  rewrite array_at_app. iDestruct "Hvs" as "[H1 H2]".
  iAssert (owns_block q stride (length (take k vs))) with "[Hq]" as "Hq"; [by rewrite Hk|].
  replace (memcpy stride q p k) with (memcpy stride q p (length (take k vs))) by (by rewrite Hk).
  iApply wp_bind. iApply (wp_memcpy with "Hq H1"). iIntros "Hq H1".
  iAssert (array_at p stride (take k vs ++ drop k vs)) with "[H1 H2]" as "Hvs".
  { rewrite array_at_app. iFrame. }
  rewrite take_drop.
  iApply wp_bind. iApply wp_free; [done|lia|]. iSplitL "Hvs".
  { by iApply array_owns_block. }
  wp_steps. rewrite bool_decide_eq_false_2; [|lia]. wp_steps.
  iDestruct "HΦ" as "[HΦ _]". iApply ("HΦ" with "[//] [Hq] Hrest").
  replace (take new vs) with (take k vs); [done|].
  subst k. destruct (Nat.min_spec (length vs) new) as [[? ->]|[? ->]]; [|done].
  rewrite !take_ge //. lia.
Qed.
End resize_spec.
