(* ===== verification/RbShape.v ===== *)
(** * RbShape: red-black trees and their contexts, as mathematical objects

    The shapes that the pointer code of lib/ext2fs/rbtree.c builds in memory:
    trees whose nodes are labelled by addresses, contexts (a tree with a hole,
    as the path from the hole to the root), the in-order sequence of addresses,
    and the red-black balance invariant for trees and contexts. *)
From iris.proofmode Require Import proofmode.
From S2P Require Import Prelude.
#[local] Set Warnings "-rewrite-rw".
#[local] Open Scope Z_scope.

Inductive color := Red | Black.

#[export] Instance color_eq_dec : EqDecision color.
Proof. solve_decision. Defined.

Definition is_red (c : color) : bool := match c with Red => true | Black => false end.
Definition is_black (c : color) : bool := match c with Red => false | Black => true end.

(** The two children of a node, and the opposite side. *)
Inductive side := L | R.

#[export] Instance side_eq_dec : EqDecision side.
Proof. solve_decision. Defined.

Definition flip (d : side) : side := match d with L => R | R => L end.

Inductive rbtree :=
  | Leaf
  | Node (c : color) (l : rbtree) (a : Z) (r : rbtree).

#[export] Instance rbtree_eq_dec : EqDecision rbtree.
Proof. solve_decision. Defined.

(** The pointer to a tree: its root's address, NULL for the empty tree. *)
Definition ptr (t : rbtree) : Z :=
  match t with Leaf => 0 | Node _ _ a _ => a end.

(** The addresses in order. *)
Fixpoint inorder (t : rbtree) : list Z :=
  match t with
  | Leaf => []
  | Node _ l a r => inorder l ++ a :: inorder r
  end.

(** The node whose child on side [d] is [s] and on the other side [t]. *)
Definition mk (d : side) (c : color) (s : rbtree) (a : Z) (t : rbtree) : rbtree :=
  match d with L => Node c s a t | R => Node c t a s end.

(** A frame: a node [a] of colour [c] with a hole as its child on side [d] and
    [t] as the other child.  A context lists the frames from the hole up. *)
Record frame := Frame { f_side : side; f_color : color; f_addr : Z; f_sib : rbtree }.

Abbreviation ctx := (list frame).

Fixpoint plug (k : ctx) (t : rbtree) : rbtree :=
  match k with
  | [] => t
  | Frame d c a s :: k' => plug k' (mk d c t a s)
  end.

(** The parent pointer of whatever fills the hole. *)
Definition ctx_ptr (k : ctx) : Z :=
  match k with [] => 0 | f :: _ => f_addr f end.

(** The addresses before and after the hole. *)
Fixpoint ctx_before (k : ctx) : list Z :=
  match k with
  | [] => []
  | Frame L c a s :: k' => ctx_before k'
  | Frame R c a s :: k' => ctx_before k' ++ inorder s ++ [a]
  end.

Fixpoint ctx_after (k : ctx) : list Z :=
  match k with
  | [] => []
  | Frame L c a s :: k' => a :: inorder s ++ ctx_after k'
  | Frame R c a s :: k' => ctx_after k'
  end.

(** Equality of in-order sequences, up to associativity. *)
Ltac solve_inorder := simpl; repeat (rewrite -assoc_L /=); reflexivity.

Lemma inorder_plug k t :
  inorder (plug k t) = ctx_before k ++ inorder t ++ ctx_after k.
Proof.
  revert t. induction k as [|[[] c a s] k IH]; intros t; simpl.
  - by rewrite right_id_L.
  - rewrite IH. simpl. by rewrite -!assoc_L.
  - rewrite IH. simpl. by rewrite -!assoc_L.
Qed.

Lemma inorder_plug_eq k t t' :
  inorder t = inorder t' → inorder (plug k t) = inorder (plug k t').
Proof. rewrite !inorder_plug. by intros ->. Qed.

Lemma plug_app k1 k2 t : plug (k1 ++ k2) t = plug k2 (plug k1 t).
Proof. revert t. induction k1 as [|[d c a s] k1 IH]; intros t; simpl; auto. Qed.

Lemma ctx_before_app k1 k2 : ctx_before (k1 ++ k2) = ctx_before k2 ++ ctx_before k1.
Proof.
  induction k1 as [|[[] c a s] k1 IH]; simpl; [by rewrite right_id_L|exact IH|].
  by rewrite IH -!assoc_L.
Qed.

Lemma ctx_after_app k1 k2 : ctx_after (k1 ++ k2) = ctx_after k1 ++ ctx_after k2.
Proof.
  induction k1 as [|[[] c a s] k1 IH]; simpl; [done| |exact IH].
  by rewrite IH -!assoc_L.
Qed.

(** Every address of a tree is the root of a subtree in some context. *)
Lemma inorder_split t l1 a l2 :
  inorder t = l1 ++ a :: l2 →
  ∃ k c l r, t = plug k (Node c l a r) ∧
    l1 = ctx_before k ++ inorder l ∧ l2 = inorder r ++ ctx_after k.
Proof.
  revert l1 l2. induction t as [|c l IHl b r IHr]; intros l1 l2 Heq; simpl in Heq.
  { by destruct l1. }
  apply app_cons_split in Heq as [(m & Hm & ->)|[(<- & -> & <-)|(m & Hm & ->)]].
  - destruct (IHl _ _ Hm) as (k & c' & l' & r' & -> & -> & ->).
    exists (k ++ [Frame L c b r]), c', l', r'.
    rewrite plug_app ctx_before_app ctx_after_app /= right_id_L. by rewrite -!assoc_L.
  - exists [], c, l, r. by rewrite /= right_id_L.
  - destruct (IHr _ _ Hm) as (k & c' & l' & r' & -> & -> & ->).
    exists (k ++ [Frame R c b l]), c', l', r'.
    rewrite plug_app ctx_before_app ctx_after_app /= right_id_L.
    by rewrite -!assoc_L.
Qed.

Lemma plug_nonleaf k t : t ≠ Leaf → plug k t ≠ Leaf.
Proof.
  revert t. induction k as [|[d c a s] k IH]; intros t Ht; simpl; [done|].
  apply IH. by destruct d.
Qed.

(** ** Balance

    [is_rb c h t]: [t] is a red-black tree whose root has colour [c] (empty
    trees are black), every path of which crosses [h] black nodes, and in which
    no red node has a red child. *)
Inductive is_rb : color → nat → rbtree → Prop :=
  | rb_leaf : is_rb Black 0 Leaf
  | rb_red h l a r :
      is_rb Black h l → is_rb Black h r → is_rb Red h (Node Red l a r)
  | rb_black c1 c2 h l a r :
      is_rb c1 h l → is_rb c2 h r → is_rb Black (S h) (Node Black l a r).

(** The invariant of a whole tree: balanced, with a black root. *)
Definition rb_inv (t : rbtree) : Prop := ∃ h, is_rb Black h t.

(** [ctx_rb k c h]: a tree of colour [c] and height [h] may fill the hole. *)
Inductive ctx_rb : ctx → color → nat → Prop :=
  | ctx_rb_nil h : ctx_rb [] Black h
  | ctx_rb_red d a s k h :
      is_rb Black h s → ctx_rb k Red h → ctx_rb (Frame d Red a s :: k) Black h
  | ctx_rb_black d a s k cs c h :
      is_rb cs h s → ctx_rb k Black (S h) → ctx_rb (Frame d Black a s :: k) c h.

Create HintDb rb.
#[export] Hint Constructors is_rb ctx_rb : rb.

Lemma is_rb_mk_red d h s a t :
  is_rb Black h s → is_rb Black h t → is_rb Red h (mk d Red s a t).
Proof. destruct d; simpl; eauto with rb. Qed.

Lemma is_rb_mk_black d c1 c2 h s a t :
  is_rb c1 h s → is_rb c2 h t → is_rb Black (S h) (mk d Black s a t).
Proof. destruct d; simpl; eauto with rb. Qed.

Lemma is_rb_mk_red_inv d c h s a t :
  is_rb c h (mk d Red s a t) → c = Red ∧ is_rb Black h s ∧ is_rb Black h t.
Proof. destruct d; inversion 1; auto. Qed.

Lemma is_rb_mk_black_inv d c h s a t :
  is_rb c h (mk d Black s a t) →
  ∃ h' c1 c2, h = S h' ∧ c = Black ∧ is_rb c1 h' s ∧ is_rb c2 h' t.
Proof. destruct d; inversion 1; subst; eauto 10. Qed.

#[export] Hint Resolve is_rb_mk_red is_rb_mk_black : rb.

Lemma is_rb_plug k c h t : is_rb c h t → ctx_rb k c h → rb_inv (plug k t).
Proof.
  intros Ht Hk. revert t Ht.
  induction Hk as [h|d a s k h Hs Hk IH|d a s k cs c h Hs Hk IH]; intros t Ht; simpl.
  - by exists h.
  - apply IH. eauto with rb.
  - apply IH. eauto with rb.
Qed.

Lemma is_rb_unplug k c h t :
  is_rb c h (plug k t) → c = Black → ∃ c' h', is_rb c' h' t ∧ ctx_rb k c' h'.
Proof.
  revert t. induction k as [|[d c0 a s] k IH]; intros t Ht Hc; simpl in Ht.
  { subst. eauto with rb. }
  destruct (IH _ Ht Hc) as (c' & h' & Hmk & Hk). destruct c0.
  - apply is_rb_mk_red_inv in Hmk as (-> & ? & ?). eauto with rb.
  - apply is_rb_mk_black_inv in Hmk as (h'' & c1 & c2 & -> & -> & ? & ?).
    eauto with rb.
Qed.

Lemma rb_inv_unplug k t :
  rb_inv (plug k t) → ∃ c h, is_rb c h t ∧ ctx_rb k c h.
Proof. intros [h Ht]. by eapply is_rb_unplug. Qed.

Lemma rb_inv_black t :
  rb_inv t → t ≠ Leaf → ∃ l a r, t = Node Black l a r.
Proof. intros [h Ht] Hne. inversion Ht; subst; [done|by do 3 eexists]. Qed.

(** A context that takes a red tree takes a black one. *)
Lemma ctx_rb_weaken k c h : ctx_rb k c h → ctx_rb k Black h.
Proof. inversion 1; subst; eauto with rb. Qed.

(** Only the innermost frame constrains the colour: a red hole needs a black
    parent. *)
Lemma ctx_rb_red_inv k h :
  ctx_rb k Red h →
  ∃ d a s k' cs, k = Frame d Black a s :: k' ∧ is_rb cs h s ∧ ctx_rb k' Black (S h).
Proof. inversion 1; subst. eauto 10. Qed.

(** The address stored in a frame is irrelevant for the balance. *)
Lemma ctx_rb_relabel k d c a b s k' c' h :
  ctx_rb (k ++ Frame d c a s :: k') c' h → ctx_rb (k ++ Frame d c b s :: k') c' h.
Proof.
  revert c' h. induction k as [|[d0 c0 a0 s0] k IH]; intros c' h; simpl.
  - inversion 1; subst; eauto with rb.
  - inversion 1; subst; eauto with rb.
Qed.

Lemma is_rb_nonleaf c h t : is_rb c (S h) t → t ≠ Leaf.
Proof. by inversion 1. Qed.

Lemma is_rb_leaf_inv c h : is_rb c h Leaf → c = Black ∧ h = 0%nat.
Proof. by inversion 1. Qed.

Lemma mk_flip d c s a t : mk (flip d) c s a t = mk d c t a s.
Proof. by destruct d. Qed.

Lemma inorder_mk d c c' s a t : inorder (mk d c s a t) = inorder (mk d c' s a t).
Proof. by destruct d. Qed.

(** A node is [mk d] of its children, for either [d]. *)
Lemma mk_cases d t : t = Leaf ∨ ∃ c s a s', t = mk d c s a s'.
Proof. destruct t as [|c l a r]; [by left|right]. destruct d; simpl; eauto 10. Qed.

Lemma ptr_mk d c s a t : ptr (mk d c s a t) = a.
Proof. by destruct d. Qed.

(** Rotations keep the order. *)
Lemma inorder_rotate d cx cy cx' cy' s x t y u :
  inorder (mk d cy' (mk d cx' s x t) y u) =
  inorder (mk d cx s x (mk d cy t y u)).
Proof. destruct d; simpl; by rewrite -!assoc_L. Qed.

#[export] Hint Resolve is_rb_plug : rb.

(** The height of a balanced tree is at most twice its black height, which is
    logarithmic in the number of nodes. *)
Fixpoint height (t : rbtree) : nat :=
  match t with
  | Leaf => 0
  | Node _ l _ r => S (max (height l) (height r))
  end.

Lemma is_rb_height c h t :
  is_rb c h t → (height t ≤ 2 * h + (if decide (c = Red) then 1 else 0))%nat.
Proof.
  induction 1 as [|h l a r _ IHl _ IHr|c1 c2 h l a r _ IHl _ IHr]; simpl in *; [lia|lia|].
  destruct (decide (c1 = Red)), (decide (c2 = Red)); lia.
Qed.

Lemma is_rb_size c h t : is_rb c h t → (2 ^ h ≤ S (length (inorder t)))%nat.
Proof.
  induction 1 as [|h l a r _ IHl _ IHr|c1 c2 h l a r _ IHl _ IHr]; simpl;
    rewrite ?length_app /=; lia.
Qed.

(** The root of a tree is outside every proper subtree. *)
Lemma ptr_plug_ctx f k t :
  ptr (plug (f :: k) t) ∈ ctx_before (f :: k) ++ ctx_after (f :: k).
Proof.
  revert f t. induction k as [|g k IH]; intros [d c a s] t.
  - destruct d; simpl; rewrite ?elem_of_app !elem_of_cons; auto.
  - specialize (IH g (mk d c t a s)). rewrite elem_of_app in IH.
    destruct d; simpl in *; rewrite ?elem_of_app ?elem_of_cons ?elem_of_app;
      tauto.
Qed.

(** Below a proper context the root does not depend on the subtree. *)
Lemma ptr_plug f k t t' : ptr (plug (f :: k) t) = ptr (plug (f :: k) t').
Proof.
  revert f t t'. induction k as [|g k IH]; intros [d c a s] t t'.
  - destruct d; done.
  - apply (IH g).
Qed.

(** The first node of a tree has no left child, and hangs on left links only. *)
Lemma inorder_first t s xs :
  inorder t = s :: xs →
  ∃ k c r, t = plug k (Node c Leaf s r) ∧ ctx_before k = [] ∧
    xs = inorder r ++ ctx_after k.
Proof.
  intros Heq. destruct (inorder_split t [] s xs Heq) as (k & c & l & r & -> & Hnil & ->).
  symmetry in Hnil. destruct (app_eq_nil _ _ Hnil) as [Hk Hl].
  exists k, c, r. split_and!; [|done..].
  destruct l as [|c' l a r']; [done|]. simpl in Hl. by destruct (inorder l).
Qed.
