(* ===== verification/RbTree.v ===== *)
(** * RbTree: lib/ext2fs/rbtree.c and rbtree.h

    The intrusive red-black trees of libext2fs, pointer by pointer.  A
    [struct rb_node] is three words: [rb_parent_color] (the parent's address
    with the colour in bit 0), [rb_right], [rb_left].  The definitions follow
    the C text; the theorems say that they keep the in-order sequence of nodes
    and the balance invariant of [RbShape], never touch memory outside the
    tree, and terminate. *)
From iris.proofmode Require Import environments.
From S2P Require Import Prelude.
From S2P Require Import Mem.
From S2P Require Import SepLogic.
From S2P Require Import RbShape.
#[local] Set Warnings "-rewrite-rw".
#[local] Open Scope Z_scope.

(** ** Fields of [struct rb_node] and [struct rb_root] *)
Definition rb_parent_color (r : Z) : Z := r.
Definition rb_right (r : Z) : Z := r + 8.
Definition rb_left (r : Z) : Z := r + 16.
Definition rb_node (root : Z) : Z := root.

Definition RB_RED : Z := 0.
Definition RB_BLACK : Z := 1.

(** ** rbtree.h: parent and colour share a word *)
Definition ext2fs_rb_parent (r : Z) : M Z :=
  pc ← load (rb_parent_color r);
  mret (Z.land pc (Z.lnot 3)).

Definition ext2fs_rb_color (r : Z) : M Z :=
  pc ← load (rb_parent_color r);
  mret (Z.land pc 1).

Definition ext2fs_rb_is_red (r : Z) : M bool :=
  c ← ext2fs_rb_color r;
  mret (bool_decide (c = 0)).

Definition ext2fs_rb_is_black (r : Z) : M bool :=
  c ← ext2fs_rb_color r;
  mret (bool_decide (c ≠ 0)).

Definition ext2fs_rb_set_red (r : Z) : M unit :=
  pc ← load (rb_parent_color r);
  store (rb_parent_color r) (Z.land pc (Z.lnot 1)).

Definition ext2fs_rb_set_black (r : Z) : M unit :=
  pc ← load (rb_parent_color r);
  store (rb_parent_color r) (Z.lor pc 1).

Definition ext2fs_rb_set_parent (rb p : Z) : M unit :=
  pc ← load (rb_parent_color rb);
  store (rb_parent_color rb) (Z.lor (Z.land pc 3) p).

Definition ext2fs_rb_set_color (rb color : Z) : M unit :=
  pc ← load (rb_parent_color rb);
  store (rb_parent_color rb) (Z.lor (Z.land pc (Z.lnot 1)) color).

Definition ext2fs_rb_empty_root (root : Z) : M bool :=
  n ← load (rb_node root);
  mret (bool_decide (n = 0)).

Definition ext2fs_rb_empty_node (node : Z) : M bool :=
  p ← ext2fs_rb_parent node;
  mret (bool_decide (p = node)).

Definition ext2fs_rb_clear_node (node : Z) : M unit :=
  ext2fs_rb_set_parent node node.

Definition ext2fs_rb_link_node (node parent rb_link : Z) : M unit :=
  store (rb_parent_color node) parent ;;
  store (rb_right node) 0 ;;
  store (rb_left node) 0 ;;
  store rb_link node.

(** ** Rotations *)
Definition __rb_rotate_left (node root : Z) : M unit :=
  right ← load (rb_right node);
  parent ← ext2fs_rb_parent node;
  right_left ← load (rb_left right);
  store (rb_right node) right_left ;;
  (if bool_decide (right_left ≠ 0) then
     right_left' ← load (rb_left right);
     ext2fs_rb_set_parent right_left' node
   else mret tt) ;;
  store (rb_left right) node ;;
  ext2fs_rb_set_parent right parent ;;
  (if bool_decide (parent ≠ 0) then
     parent_left ← load (rb_left parent);
     if bool_decide (node = parent_left)
     then store (rb_left parent) right
     else store (rb_right parent) right
   else store (rb_node root) right) ;;
  ext2fs_rb_set_parent node right.

Definition __rb_rotate_right (node root : Z) : M unit :=
  left ← load (rb_left node);
  parent ← ext2fs_rb_parent node;
  left_right ← load (rb_right left);
  store (rb_left node) left_right ;;
  (if bool_decide (left_right ≠ 0) then
     left_right' ← load (rb_right left);
     ext2fs_rb_set_parent left_right' node
   else mret tt) ;;
  store (rb_right left) node ;;
  ext2fs_rb_set_parent left parent ;;
  (if bool_decide (parent ≠ 0) then
     parent_right ← load (rb_right parent);
     if bool_decide (node = parent_right)
     then store (rb_right parent) left
     else store (rb_left parent) left
   else store (rb_node root) left) ;;
  ext2fs_rb_set_parent node left.

(** ** Insertion *)

(** One round of the loop of [ext2fs_rb_insert_color]. *)
Definition insert_color_step (root node : Z) : M (Z + unit) :=
  parent ← ext2fs_rb_parent node;
  if bool_decide (parent = 0) then break_ tt else
  parent_red ← ext2fs_rb_is_red parent;
  if negb parent_red then break_ tt else
  gparent ← ext2fs_rb_parent parent;
  gparent_left ← load (rb_left gparent);
  if bool_decide (parent = gparent_left) then
    uncle ← load (rb_right gparent);
    uncle_red ← (if bool_decide (uncle ≠ 0) then ext2fs_rb_is_red uncle else mret false);
    if (uncle_red : bool) then
      ext2fs_rb_set_black uncle ;;
      ext2fs_rb_set_black parent ;;
      ext2fs_rb_set_red gparent ;;
      continue_ gparent
    else
      parent_right ← load (rb_right parent);
      np ← (if bool_decide (parent_right = node) then
              __rb_rotate_left parent root ;; mret (parent, node)
            else mret (node, parent));
      ext2fs_rb_set_black np.2 ;;
      ext2fs_rb_set_red gparent ;;
      __rb_rotate_right gparent root ;;
      continue_ np.1
  else
    uncle ← load (rb_left gparent);
    uncle_red ← (if bool_decide (uncle ≠ 0) then ext2fs_rb_is_red uncle else mret false);
    if (uncle_red : bool) then
      ext2fs_rb_set_black uncle ;;
      ext2fs_rb_set_black parent ;;
      ext2fs_rb_set_red gparent ;;
      continue_ gparent
    else
      parent_left ← load (rb_left parent);
      np ← (if bool_decide (parent_left = node) then
              __rb_rotate_right parent root ;; mret (parent, node)
            else mret (node, parent));
      ext2fs_rb_set_black np.2 ;;
      ext2fs_rb_set_red gparent ;;
      __rb_rotate_left gparent root ;;
      continue_ np.1.

Definition ext2fs_rb_insert_color (node root : Z) : M unit :=
  loop (insert_color_step root) node ;;
  top ← load (rb_node root);
  ext2fs_rb_set_black top.

(** ** Deletion *)

(** [!n || ext2fs_rb_is_black(n)] *)
Definition null_or_black (n : Z) : M bool :=
  if bool_decide (n = 0) then mret true else ext2fs_rb_is_black n.

(** Neither child of [other] is red. *)
Definition children_black (other : Z) : M bool :=
  other_left ← load (rb_left other);
  lb ← null_or_black other_left;
  if (lb : bool) then
    other_right ← load (rb_right other);
    null_or_black other_right
  else mret false.

(** One round of the loop of [__rb_erase_color]; the state is the pair of the
    variables [node] and [parent]. *)
Definition erase_color_step (root : Z) (st : Z * Z) : M (Z * Z + Z) :=
  let node := st.1 in
  let parent := st.2 in
  nb ← null_or_black node;
  go ← (if (nb : bool) then
          top ← load (rb_node root); mret (bool_decide (node ≠ top))
        else mret false);
  if negb go then break_ node else
  parent_left ← load (rb_left parent);
  if bool_decide (parent_left = node) then
    other ← load (rb_right parent);
    other_red ← ext2fs_rb_is_red other;
    other ← (if (other_red : bool) then
               ext2fs_rb_set_black other ;;
               ext2fs_rb_set_red parent ;;
               __rb_rotate_left parent root ;;
               load (rb_right parent)
             else mret other);
    bb ← children_black other;
    if (bb : bool) then
      ext2fs_rb_set_red other ;;
      parent' ← ext2fs_rb_parent parent;
      continue_ (parent, parent')
    else
      far ← load (rb_right other);
      far_black ← null_or_black far;
      other ← (if (far_black : bool) then
                 other_left ← load (rb_left other);
                 ext2fs_rb_set_black other_left ;;
                 ext2fs_rb_set_red other ;;
                 __rb_rotate_right other root ;;
                 load (rb_right parent)
               else mret other);
      pcolor ← ext2fs_rb_color parent;
      ext2fs_rb_set_color other pcolor ;;
      ext2fs_rb_set_black parent ;;
      other_right ← load (rb_right other);
      ext2fs_rb_set_black other_right ;;
      __rb_rotate_left parent root ;;
      top ← load (rb_node root);
      break_ top
  else
    other ← load (rb_left parent);
    other_red ← ext2fs_rb_is_red other;
    other ← (if (other_red : bool) then
               ext2fs_rb_set_black other ;;
               ext2fs_rb_set_red parent ;;
               __rb_rotate_right parent root ;;
               load (rb_left parent)
             else mret other);
    bb ← children_black other;
    if (bb : bool) then
      ext2fs_rb_set_red other ;;
      parent' ← ext2fs_rb_parent parent;
      continue_ (parent, parent')
    else
      far ← load (rb_left other);
      far_black ← null_or_black far;
      other ← (if (far_black : bool) then
                 other_right ← load (rb_right other);
                 ext2fs_rb_set_black other_right ;;
                 ext2fs_rb_set_red other ;;
                 __rb_rotate_left other root ;;
                 load (rb_left parent)
               else mret other);
      pcolor ← ext2fs_rb_color parent;
      ext2fs_rb_set_color other pcolor ;;
      ext2fs_rb_set_black parent ;;
      other_left ← load (rb_left other);
      ext2fs_rb_set_black other_left ;;
      __rb_rotate_right parent root ;;
      top ← load (rb_node root);
      break_ top.

Definition __rb_erase_color (node parent root : Z) : M unit :=
  node ← loop (erase_color_step root) (node, parent);
  if bool_decide (node ≠ 0) then ext2fs_rb_set_black node else mret tt.

(** [while ((left = node->rb_left) != NULL) node = left;] and its mirror. *)
Definition go_leftmost (node : Z) : M Z :=
  loop (λ node,
    left ← load (rb_left node);
    if bool_decide (left ≠ 0) then continue_ left else break_ node) node.

Definition go_rightmost (node : Z) : M Z :=
  loop (λ node,
    right ← load (rb_right node);
    if bool_decide (right ≠ 0) then continue_ right else break_ node) node.

Definition ext2fs_rb_erase (node root : Z) : M unit :=
  left ← load (rb_left node);
  right ← load (rb_right node);
  if bool_decide (left ≠ 0 ∧ right ≠ 0) then
    let old := node in
    node ← load (rb_right old);
    node ← go_leftmost node;
    old_parent ← ext2fs_rb_parent old;
    (if bool_decide (old_parent ≠ 0) then
       old_parent_left ← load (rb_left old_parent);
       if bool_decide (old_parent_left = old)
       then store (rb_left old_parent) node
       else store (rb_right old_parent) node
     else store (rb_node root) node) ;;
    child ← load (rb_right node);
    parent ← ext2fs_rb_parent node;
    color ← ext2fs_rb_color node;
    parent ← (if bool_decide (parent = old) then mret node
              else
                (if bool_decide (child ≠ 0) then ext2fs_rb_set_parent child parent
                 else mret tt) ;;
                store (rb_left parent) child ;;
                old_right ← load (rb_right old);
                store (rb_right node) old_right ;;
                old_right ← load (rb_right old);
                ext2fs_rb_set_parent old_right node ;;
                mret parent);
    old_pc ← load (rb_parent_color old);
    store (rb_parent_color node) old_pc ;;
    old_left ← load (rb_left old);
    store (rb_left node) old_left ;;
    old_left ← load (rb_left old);
    ext2fs_rb_set_parent old_left node ;;
    if bool_decide (color = RB_BLACK)
    then __rb_erase_color child parent root else mret tt
  else
    let child := if bool_decide (left = 0) then right else left in
    parent ← ext2fs_rb_parent node;
    color ← ext2fs_rb_color node;
    (if bool_decide (child ≠ 0) then ext2fs_rb_set_parent child parent
     else mret tt) ;;
    (if bool_decide (parent ≠ 0) then
       parent_left ← load (rb_left parent);
       if bool_decide (parent_left = node)
       then store (rb_left parent) child
       else store (rb_right parent) child
     else store (rb_node root) child) ;;
    if bool_decide (color = RB_BLACK)
    then __rb_erase_color child parent root else mret tt.

(** ** Traversal *)
Definition ext2fs_rb_first (root : Z) : M Z :=
  n ← load (rb_node root);
  if bool_decide (n = 0) then mret 0 else go_leftmost n.

Definition ext2fs_rb_last (root : Z) : M Z :=
  n ← load (rb_node root);
  if bool_decide (n = 0) then mret 0 else go_rightmost n.

Definition ext2fs_rb_next (node : Z) : M Z :=
  p ← ext2fs_rb_parent node;
  if bool_decide (p = node) then mret 0 else
  right ← load (rb_right node);
  if bool_decide (right ≠ 0) then
    node ← load (rb_right node);
    go_leftmost node
  else
    loop (λ node,
      parent ← ext2fs_rb_parent node;
      if bool_decide (parent = 0) then break_ parent else
      parent_right ← load (rb_right parent);
      if bool_decide (node = parent_right) then continue_ parent
      else break_ parent) node.

Definition ext2fs_rb_prev (node : Z) : M Z :=
  p ← ext2fs_rb_parent node;
  if bool_decide (p = node) then mret 0 else
  left ← load (rb_left node);
  if bool_decide (left ≠ 0) then
    node ← load (rb_left node);
    go_rightmost node
  else
    loop (λ node,
      parent ← ext2fs_rb_parent node;
      if bool_decide (parent = 0) then break_ parent else
      parent_left ← load (rb_left parent);
      if bool_decide (node = parent_left) then continue_ parent
      else break_ parent) node.

(** ** Replacement of a node in place *)
Definition ext2fs_rb_replace_node (victim new root : Z) : M unit :=
  parent ← ext2fs_rb_parent victim;
  (if bool_decide (parent ≠ 0) then
     parent_left ← load (rb_left parent);
     if bool_decide (victim = parent_left)
     then store (rb_left parent) new
     else store (rb_right parent) new
   else store (rb_node root) new) ;;
  left ← load (rb_left victim);
  (if bool_decide (left ≠ 0) then
     left ← load (rb_left victim); ext2fs_rb_set_parent left new
   else mret tt) ;;
  right ← load (rb_right victim);
  (if bool_decide (right ≠ 0) then
     right ← load (rb_right victim); ext2fs_rb_set_parent right new
   else mret tt) ;;
  pc ← load (rb_parent_color victim);
  store (rb_parent_color new) pc ;;
  r ← load (rb_right victim);
  store (rb_right new) r ;;
  l ← load (rb_left victim);
  store (rb_left new) l.

(** ** Parent and colour in one word *)
Definition color_bit (c : color) : Z := match c with Red => RB_RED | Black => RB_BLACK end.

Definition aligned (p : Z) : Prop := p mod 4 = 0.

(** The word [rb_parent_color] of a node of parent [par] and colour [c]. *)
Definition pc_word (par : Z) (c : color) : Z := par + color_bit c.

Lemma color_bit_range c : 0 ≤ color_bit c ≤ 1.
Proof. destruct c; unfold color_bit, RB_RED, RB_BLACK; lia. Qed.

Lemma color_bit_black c : color_bit c = RB_BLACK ↔ c = Black.
Proof. by destruct c. Qed.

Lemma land_lnot_ones x n : 0 ≤ n → Z.land x (Z.lnot (Z.ones n)) = x - x mod 2 ^ n.
Proof.
  intros Hn. rewrite -Z.ldiff_land Z.ldiff_ones_r // Z.shiftr_div_pow2 // Z.shiftl_mul_pow2 //.
  pose proof (Z.div_mod x (2 ^ n)). nia.
Qed.

Lemma aligned_add_mod par c : aligned par → (par + color_bit c) mod 4 = color_bit c.
Proof.
  intros Hp. rewrite -Zplus_mod_idemp_l Hp. apply Z.mod_small.
  pose proof (color_bit_range c). lia.
Qed.

Lemma pc_word_parent par c : aligned par → Z.land (pc_word par c) (Z.lnot 3) = par.
Proof.
  intros Hp. change 3 with (Z.ones 2). rewrite land_lnot_ones // /pc_word.
  change (2 ^ 2) with 4. rewrite aligned_add_mod //. lia.
Qed.

Lemma pc_word_color par c : aligned par → Z.land (pc_word par c) 1 = color_bit c.
Proof.
  intros Hp. change 1 with (Z.ones 1). rewrite Z.land_ones // /pc_word.
  change (2 ^ 1) with 2.
  assert (color_bit c = (par + color_bit c) mod 4) as Hc by by rewrite aligned_add_mod.
  pose proof (color_bit_range c).
  rewrite (Z.mod_eq (par + color_bit c) 4) in Hc; [|lia].
  symmetry. apply (Zmod_unique _ _ (2 * ((par + color_bit c) / 4))); lia.
Qed.

Lemma pc_word_set_red par c : aligned par → Z.land (pc_word par c) (Z.lnot 1) = pc_word par Red.
Proof.
  intros Hp. change 1 with (Z.ones 1). rewrite land_lnot_ones //.
  pose proof (pc_word_color par c Hp) as Hc. change 1 with (Z.ones 1) in Hc.
  rewrite Z.land_ones // in Hc. rewrite Hc /pc_word /=. unfold RB_RED. lia.
Qed.

Lemma lor_small par b : aligned par → 0 ≤ b < 4 → Z.lor par b = par + b.
Proof.
  intros Hp Hb. rewrite -Z.add_lor_land.
  enough (Z.land par b = 0) as -> by lia.
  replace b with (Z.land b (Z.ones 2)).
  2:{ rewrite Z.land_ones //. by apply Z.mod_small. }
  rewrite (Z.land_comm b) Z.land_assoc Z.land_ones //.
  change (2 ^ 2) with 4. by rewrite Hp.
Qed.

Lemma pc_word_set_black par c : aligned par → Z.lor (pc_word par c) 1 = pc_word par Black.
Proof.
  intros Hp. rewrite /pc_word -!lor_small //; [|pose proof (color_bit_range c); lia..].
  rewrite -Z.lor_assoc. f_equal. by destruct c.
Qed.

Lemma pc_word_set_parent par par' c :
  aligned par → aligned par' → Z.lor (Z.land (pc_word par c) 3) par' = pc_word par' c.
Proof.
  intros Hp Hp'. change 3 with (Z.ones 2). rewrite Z.land_ones // /pc_word.
  change (2 ^ 2) with 4. rewrite aligned_add_mod // Z.lor_comm lor_small //.
  pose proof (color_bit_range c). lia.
Qed.

Lemma pc_word_set_color par c c' :
  aligned par → Z.lor (Z.land (pc_word par c) (Z.lnot 1)) (color_bit c') = pc_word par c'.
Proof.
  intros Hp. rewrite pc_word_set_red // /pc_word /= Z.add_0_r lor_small //.
  pose proof (color_bit_range c'). lia.
Qed.

Lemma aligned_0 : aligned 0.
Proof. done. Qed.

(** ** Nodes, trees and contexts in memory *)
Definition child (d : side) (r : Z) : Z :=
  match d with L => rb_left r | R => rb_right r end.
#[global] Arguments child : simpl never.

(** A node at [a] with parent [par], colour [c], the child [p] on side [d] and
    the child [q] on the other. *)
Definition node_at (d : side) (a par : Z) (c : color) (p q : Z) : hProp :=
  (⌜(0 < a ∧ aligned a) ∧ aligned par⌝ ∗
   rb_parent_color a ↦ pc_word par c ∗ child d a ↦ p ∗ child (flip d) a ↦ q)%I.

(** The tree [t] hangs under the node [par]. *)
Fixpoint tree_at (par : Z) (t : rbtree) : hProp :=
  match t with
  | Leaf => emp
  | Node c l a r => node_at L a par c (ptr l) (ptr r) ∗ tree_at a l ∗ tree_at a r
  end%I.

(** The context [k], with [p] stored in its hole. *)
Fixpoint ctx_at (root : Z) (k : ctx) (p : Z) : hProp :=
  match k with
  | [] => rb_node root ↦ p
  | Frame d c a s :: k' =>
      node_at d a (ctx_ptr k') c p (ptr s) ∗ tree_at a s ∗ ctx_at root k' a
  end%I.

(** The tree [t] rooted at the [struct rb_root] at [root]. *)
Definition root_at (root : Z) (t : rbtree) : hProp :=
  (rb_node root ↦ ptr t ∗ tree_at 0 t)%I.

(** The three words of a node that is in no tree. *)
Definition node_cells (a : Z) : hProp :=
  (⌜0 < a ∧ aligned a⌝ ∗ owns (rb_parent_color a) ∗ owns (rb_right a) ∗ owns (rb_left a))%I.

Lemma node_at_flip d a par c p q :
  node_at d a par c p q ⊣⊢ node_at (flip d) a par c q p.
Proof.
  rewrite /node_at. destruct d; simpl; iSplit; iIntros "($ & $ & $ & $)".
Qed.

Lemma node_at_unflip d a par c p q :
  node_at (flip d) a par c p q ⊣⊢ node_at d a par c q p.
Proof. by rewrite -node_at_flip. Qed.

Lemma node_at_facts d a par c p q :
  node_at d a par c p q ⊢ ⌜(0 < a ∧ aligned a) ∧ aligned par⌝.
Proof. by iIntros "[$ _]". Qed.

Lemma node_at_ne d a par c p q d' b par' c' p' q' :
  node_at d a par c p q -∗ node_at d' b par' c' p' q' -∗ ⌜a ≠ b⌝.
Proof.
  iIntros "(_ & Ha & _) (_ & Hb & _)". by iDestruct (pointsto_ne with "Ha Hb") as %?.
Qed.

Lemma tree_at_mk d par c s a t :
  tree_at par (mk d c s a t) ⊣⊢ node_at d a par c (ptr s) (ptr t) ∗ tree_at a s ∗ tree_at a t.
Proof.
  destruct d; simpl; [done|]. rewrite (node_at_flip L). simpl.
  iSplit; iIntros "($ & $ & $)".
Qed.

Lemma tree_at_ptr_ne t par d a par' c p q :
  tree_at par t -∗ node_at d a par' c p q -∗ ⌜ptr t ≠ a⌝.
Proof.
  iIntros "Ht Ha". destruct t as [|c' l b r]; simpl.
  - iDestruct (node_at_facts with "Ha") as %[[??] ?]. iPureIntro. lia.
  - iDestruct "Ht" as "(Hb & _)". iApply (node_at_ne with "Hb Ha").
Qed.

Lemma tree_at_ptr_nonneg t par : tree_at par t ⊢ ⌜0 ≤ ptr t⌝.
Proof.
  destruct t as [|c' l b r]; simpl; [by iIntros "_"|].
  iIntros "(Hb & _)". iDestruct (node_at_facts with "Hb") as %[[??] ?]. iPureIntro. lia.
Qed.

Lemma tree_at_nonnull t par : t ≠ Leaf → tree_at par t ⊢ ⌜ptr t ≠ 0⌝.
Proof.
  intros Ht. destruct t as [|c' l b r]; simpl; [done|].
  iIntros "(Hb & _)". iDestruct (node_at_facts with "Hb") as %[[??] ?]. iPureIntro. lia.
Qed.

Lemma tree_at_null t par : ptr t = 0 → tree_at par t ⊢ ⌜t = Leaf⌝.
Proof.
  intros Ht. destruct t as [|c' l b r]; simpl in *; [by iIntros "_"|].
  iIntros "(Hb & _)". iDestruct (node_at_facts with "Hb") as %[[??] ?]. lia.
Qed.

(** A tree in memory, seen as a subtree in its context. *)
Lemma root_at_plug root k t :
  root_at root (plug k t) ⊣⊢ ctx_at root k (ptr t) ∗ tree_at (ctx_ptr k) t.
Proof.
  revert t. induction k as [|[d c a s] k IH]; intros t; simpl; [done|].
  rewrite IH tree_at_mk ptr_mk. iSplit.
  - iIntros "(Hk & Ha & Ht & Hs)". iFrame.
  - iIntros "((Ha & Hs & Hk) & Ht)". iFrame.
Qed.

Lemma ctx_at_aligned root k p : ctx_at root k p ⊢ ⌜aligned (ctx_ptr k)⌝.
Proof.
  destruct k as [|[d c a s] k]; simpl; [by iIntros "_"|].
  iIntros "(Ha & _)". by iDestruct (node_at_facts with "Ha") as %[[??] ?].
Qed.

(** The address where the hole of a context is stored. *)
Definition ctx_slot (root : Z) (k : ctx) : Z :=
  match k with [] => rb_node root | Frame d c a s :: _ => child d a end.

Lemma ctx_at_slot root k p :
  ctx_at root k p ⊢ ctx_slot root k ↦ p ∗ (∀ q, ctx_slot root k ↦ q -∗ ctx_at root k q).
Proof.
  destruct k as [|[d c a s] k]; simpl.
  - iIntros "$". by iIntros (q) "$".
  - iIntros "((%Hf & Hpc & $ & Ho) & Hs & Hk)". iIntros (q) "Hp". by iFrame.
Qed.

(** The nodes of a tree in memory are distinct. *)
Lemma tree_at_owns par t : tree_at par t ⊢ [∗ list] a ∈ inorder t, owns a.
Proof.
  revert par. induction t as [|c l IHl a r IHr]; intros par; simpl; [done|].
  rewrite big_sepL_app /= IHl IHr.
  iIntros "((_ & Ha & _) & $ & $)". by iApply (pointsto_owns with "Ha").
Qed.

Lemma owns_list_NoDup l : ([∗ list] a ∈ l, owns a) ⊢ ⌜NoDup l⌝.
Proof.
  induction l as [|a l IH]; simpl; [iIntros "_"; iPureIntro; constructor|].
  iIntros "[Ha Hl]". rewrite NoDup_cons. iSplit.
  - iIntros (Hin). apply list_elem_of_lookup in Hin as [i Hi].
    iDestruct (big_sepL_lookup _ _ _ _ Hi with "Hl") as "Hb".
    by iDestruct (owns_ne with "[$Ha $Hb]") as %[].
  - by iApply IH.
Qed.

Lemma tree_at_NoDup par t : tree_at par t ⊢ ⌜NoDup (inorder t)⌝.
Proof. by rewrite tree_at_owns owns_list_NoDup. Qed.

Lemma tree_at_top_ne f k t par :
  tree_at par (plug (f :: k) t) ⊢ ⌜ptr t ≠ ptr (plug (f :: k) t)⌝.
Proof.
  iIntros "H". iDestruct (tree_at_NoDup with "H") as %Hnd.
  iDestruct (tree_at_nonnull with "H") as %Hnn.
  { destruct f as [d c a s]. simpl. apply plug_nonleaf. by destruct d. }
  iPureIntro. intros Heq. destruct t as [|c l a r]; [by rewrite -Heq in Hnn|].
  pose proof (ptr_plug_ctx f k (Node c l a r)) as Hin. rewrite -Heq in Hin.
  rewrite inorder_plug in Hnd. rewrite elem_of_app in Hin. simpl in Hnd, Hin.
  rewrite !NoDup_app in Hnd. destruct Hnd as (_ & Hb & (_ & Ha & _)).
  destruct Hin as [Hin|Hin].
  - apply (Hb a Hin). rewrite !elem_of_app elem_of_cons. auto.
  - apply (Ha a); [|done]. rewrite elem_of_app elem_of_cons. auto.
Qed.

(** ** Specifications of the accessors *)
Section accessors.
Context {ML : Malloc}.
Implicit Types (a par p q : Z) (c : color) (t : rbtree).

Lemma wp_rb_parent d a par c p q Φ :
  node_at d a par c p q -∗ (node_at d a par c p q -∗ Φ par) -∗
  wp (ext2fs_rb_parent a) Φ.
Proof.
  iIntros "(%Hf & Hpc & Hp & Hq) HΦ". unfold ext2fs_rb_parent. wp_steps.
  rewrite pc_word_parent; [|tauto]. iApply "HΦ". by iFrame.
Qed.

Lemma wp_rb_color d a par c p q Φ :
  node_at d a par c p q -∗ (node_at d a par c p q -∗ Φ (color_bit c)) -∗
  wp (ext2fs_rb_color a) Φ.
Proof.
  iIntros "(%Hf & Hpc & Hp & Hq) HΦ". unfold ext2fs_rb_color. wp_steps.
  rewrite pc_word_color; [|tauto]. iApply "HΦ". by iFrame.
Qed.

Lemma wp_rb_is_red d a par c p q Φ :
  node_at d a par c p q -∗ (node_at d a par c p q -∗ Φ (is_red c)) -∗
  wp (ext2fs_rb_is_red a) Φ.
Proof.
  iIntros "Ha HΦ". unfold ext2fs_rb_is_red.
  wp_apply (wp_rb_color with "Ha"). iIntros "Ha". wp_steps.
  replace (bool_decide (color_bit c = 0)) with (is_red c) by by destruct c.
  by iApply "HΦ".
Qed.

Lemma wp_rb_is_black d a par c p q Φ :
  node_at d a par c p q -∗ (node_at d a par c p q -∗ Φ (is_black c)) -∗
  wp (ext2fs_rb_is_black a) Φ.
Proof.
  iIntros "Ha HΦ". unfold ext2fs_rb_is_black.
  wp_apply (wp_rb_color with "Ha"). iIntros "Ha". wp_steps.
  replace (bool_decide (color_bit c ≠ 0)) with (is_black c) by by destruct c.
  by iApply "HΦ".
Qed.

Lemma wp_rb_set_red d a par c p q Φ :
  node_at d a par c p q -∗ (node_at d a par Red p q -∗ Φ tt) -∗
  wp (ext2fs_rb_set_red a) Φ.
Proof.
  iIntros "(%Hf & Hpc & Hp & Hq) HΦ". unfold ext2fs_rb_set_red. wp_steps.
  rewrite pc_word_set_red; [|tauto]. iApply "HΦ". by iFrame.
Qed.

Lemma wp_rb_set_black d a par c p q Φ :
  node_at d a par c p q -∗ (node_at d a par Black p q -∗ Φ tt) -∗
  wp (ext2fs_rb_set_black a) Φ.
Proof.
  iIntros "(%Hf & Hpc & Hp & Hq) HΦ". unfold ext2fs_rb_set_black. wp_steps.
  rewrite pc_word_set_black; [|tauto]. iApply "HΦ". by iFrame.
Qed.

Lemma wp_rb_set_parent d a par par' c p q Φ :
  aligned par' →
  node_at d a par c p q -∗ (node_at d a par' c p q -∗ Φ tt) -∗
  wp (ext2fs_rb_set_parent a par') Φ.
Proof.
  iIntros (Hp') "(%Hf & Hpc & Hp & Hq) HΦ". unfold ext2fs_rb_set_parent. wp_steps.
  rewrite pc_word_set_parent; [|tauto..]. iApply "HΦ". iFrame. iPureIntro. tauto.
Qed.

Lemma wp_rb_set_color d a par c c' p q Φ :
  node_at d a par c p q -∗ (node_at d a par c' p q -∗ Φ tt) -∗
  wp (ext2fs_rb_set_color a (color_bit c')) Φ.
Proof.
  iIntros "(%Hf & Hpc & Hp & Hq) HΦ". unfold ext2fs_rb_set_color. wp_steps.
  rewrite pc_word_set_color; [|tauto]. iApply "HΦ". by iFrame.
Qed.

Lemma wp_child d a par c p q Φ :
  node_at d a par c p q -∗ (node_at d a par c p q -∗ Φ p) -∗
  wp (load (child d a)) Φ.
Proof.
  iIntros "(%Hf & Hpc & Hp & Hq) HΦ". wp_steps. iApply "HΦ". by iFrame.
Qed.

Lemma wp_child_flip d a par c p q Φ :
  node_at d a par c p q -∗ (node_at d a par c p q -∗ Φ q) -∗
  wp (load (child (flip d) a)) Φ.
Proof.
  iIntros "(%Hf & Hpc & Hp & Hq) HΦ". wp_steps. iApply "HΦ". by iFrame.
Qed.

Lemma wp_set_child d a par c p q p' Φ :
  node_at d a par c p q -∗ (node_at d a par c p' q -∗ Φ tt) -∗
  wp (store (child d a) p') Φ.
Proof.
  iIntros "(%Hf & Hpc & Hp & Hq) HΦ". wp_steps. iApply "HΦ". by iFrame.
Qed.

Lemma wp_set_child_flip d a par c p q q' Φ :
  node_at d a par c p q -∗ (node_at d a par c p q' -∗ Φ tt) -∗
  wp (store (child (flip d) a) q') Φ.
Proof.
  iIntros "(%Hf & Hpc & Hp & Hq) HΦ". wp_steps. iApply "HΦ". by iFrame.
Qed.

(** The parent of a whole subtree changes. *)
Lemma wp_set_parent_tree par par' t Φ :
  aligned par' → t ≠ Leaf →
  tree_at par t -∗ (tree_at par' t -∗ Φ tt) -∗
  wp (ext2fs_rb_set_parent (ptr t) par') Φ.
Proof.
  iIntros (Hp' Ht) "H HΦ". destruct t as [|c l a r]; simpl; [done|].
  iDestruct "H" as "(Ha & Hl & Hr)".
  iApply (wp_rb_set_parent with "Ha"); [done|]. iIntros "Ha".
  iApply "HΦ". iFrame.
Qed.

Lemma wp_set_parent_opt par par' t Φ :
  aligned par' →
  tree_at par t -∗ (tree_at par' t -∗ Φ tt) -∗
  wp (if bool_decide (ptr t ≠ 0) then ext2fs_rb_set_parent (ptr t) par'
      else mret tt) Φ.
Proof.
  iIntros (Hp') "H HΦ". case_bool_decide as Ht.
  - iApply (wp_set_parent_tree with "H HΦ"); [done|]. by intros ->.
  - iDestruct (tree_at_null with "H") as %->; [lia|].
    wp_ret. by iApply "HΦ".
Qed.

(** Redirect the link that holds the subtree [p] to [new]: the block
    [if (parent) { if (parent->rb_left == node) ... } else root->rb_node = ...]
    that the functions below share.  [p] must not be the sibling. *)
Lemma wp_change_child_test d root k p new (test : Z → bool) Φ :
  (∀ x, test x = bool_decide (p = x)) →
  (∀ d0 c a s k', k = Frame d0 c a s :: k' → ptr s ≠ p) →
  ctx_at root k p -∗ (ctx_at root k new -∗ Φ tt) -∗
  wp (if bool_decide (ctx_ptr k ≠ 0) then
        x ← load (child d (ctx_ptr k));
        if test x
        then store (child d (ctx_ptr k)) new
        else store (child (flip d) (ctx_ptr k)) new
      else store (rb_node root) new) Φ.
Proof.
  iIntros (Htest Hne) "Hk HΦ". destruct k as [|[d0 c a s] k]; simpl.
  - wp_steps. by iApply "HΦ".
  - iDestruct "Hk" as "(Ha & Hs & Hk)".
    iDestruct (node_at_facts with "Ha") as %[[??] ?].
    rewrite bool_decide_eq_true_2; [|lia].
    specialize (Hne _ _ _ _ _ eq_refl).
    destruct (decide (d0 = d)) as [->|Hd].
    + wp_apply (wp_child with "Ha"). iIntros "Ha".
      rewrite Htest bool_decide_eq_true_2 //.
      iApply (wp_set_child with "Ha"). iIntros "Ha". iApply "HΦ". iFrame.
    + assert (d0 = flip d) as -> by by destruct d0, d.
      rewrite (node_at_flip (flip d)). assert (flip (flip d) = d) as -> by by destruct d.
      wp_apply (wp_child with "Ha"). iIntros "Ha".
      rewrite Htest bool_decide_eq_false_2; [|done].
      iApply (wp_set_child_flip with "Ha"). iIntros "Ha". iApply "HΦ".
      rewrite (node_at_flip d). iFrame.
Qed.

Lemma wp_change_child d root k p new Φ :
  (∀ d0 c a s k', k = Frame d0 c a s :: k' → ptr s ≠ p) →
  ctx_at root k p -∗ (ctx_at root k new -∗ Φ tt) -∗
  wp (if bool_decide (ctx_ptr k ≠ 0) then
        x ← load (child d (ctx_ptr k));
        if bool_decide (p = x)
        then store (child d (ctx_ptr k)) new
        else store (child (flip d) (ctx_ptr k)) new
      else store (rb_node root) new) Φ.
Proof. by apply (wp_change_child_test d root k p new (λ x, bool_decide (p = x))). Qed.

Lemma wp_change_child_sym d root k p new Φ :
  (∀ d0 c a s k', k = Frame d0 c a s :: k' → ptr s ≠ p) →
  ctx_at root k p -∗ (ctx_at root k new -∗ Φ tt) -∗
  wp (if bool_decide (ctx_ptr k ≠ 0) then
        x ← load (child d (ctx_ptr k));
        if bool_decide (x = p)
        then store (child d (ctx_ptr k)) new
        else store (child (flip d) (ctx_ptr k)) new
      else store (rb_node root) new) Φ.
Proof.
  apply (wp_change_child_test d root k p new (λ x, bool_decide (x = p))).
  intros x. by apply bool_decide_ext.
Qed.

(** A node that is not in the context cannot be the sibling of the hole. *)
Lemma ctx_at_sib_ne root k p d a par c l r :
  ctx_at root k p -∗ node_at d a par c l r -∗
  ⌜∀ d0 c0 b s k', k = Frame d0 c0 b s :: k' → ptr s ≠ a⌝.
Proof.
  iIntros "Hk Ha". destruct k as [|[d0 c0 b s] k]; simpl; [by iPureIntro|].
  iDestruct "Hk" as "(Hb & Hs & Hk)".
  iDestruct (tree_at_ptr_ne with "Hs Ha") as %Hne.
  iPureIntro. by intros ????? [= -> -> -> -> ->].
Qed.
End accessors.

(** [rb_step] runs the first command when it is an access to a node that the
    proof context holds as a [node_at]; [rb_steps] repeats it. *)
Ltac rb_step :=
  repeat wp_bind;
  lazymatch goal with
  | |- envs_entails _ (wp (ext2fs_rb_parent ?a) _) =>
      match goal with
      | |- context [Esnoc _ ?i (node_at ?d a _ _ _ _)] =>
          iApply (wp_rb_parent d a with i); iIntros i
      end
  | |- envs_entails _ (wp (ext2fs_rb_color ?a) _) =>
      match goal with
      | |- context [Esnoc _ ?i (node_at ?d a _ _ _ _)] =>
          iApply (wp_rb_color d a with i); iIntros i
      end
  | |- envs_entails _ (wp (ext2fs_rb_is_red ?a) _) =>
      match goal with
      | |- context [Esnoc _ ?i (node_at ?d a _ _ _ _)] =>
          iApply (wp_rb_is_red d a with i); iIntros i
      end
  | |- envs_entails _ (wp (ext2fs_rb_is_black ?a) _) =>
      match goal with
      | |- context [Esnoc _ ?i (node_at ?d a _ _ _ _)] =>
          iApply (wp_rb_is_black d a with i); iIntros i
      end
  | |- envs_entails _ (wp (ext2fs_rb_set_red ?a) _) =>
      match goal with
      | |- context [Esnoc _ ?i (node_at ?d a _ _ _ _)] =>
          iApply (wp_rb_set_red d a with i); iIntros i
      end
  | |- envs_entails _ (wp (ext2fs_rb_set_black ?a) _) =>
      match goal with
      | |- context [Esnoc _ ?i (node_at ?d a _ _ _ _)] =>
          iApply (wp_rb_set_black d a with i); iIntros i
      end
  | |- envs_entails _ (wp (ext2fs_rb_set_parent ?a _) _) =>
      match goal with
      | |- context [Esnoc _ ?i (node_at ?d a _ _ _ _)] =>
          iApply (wp_rb_set_parent d a with i); [tauto|]; iIntros i
      end
  | |- envs_entails _ (wp (ext2fs_rb_set_color ?a (color_bit _)) _) =>
      match goal with
      | |- context [Esnoc _ ?i (node_at ?d a _ _ _ _)] =>
          iApply (wp_rb_set_color d a with i); iIntros i
      end
  | |- envs_entails _ (wp (load (child ?d ?a)) _) =>
      match goal with
      | |- context [Esnoc _ ?i (node_at d a _ _ _ _)] =>
          iApply (wp_child d a with i); iIntros i
      | |- context [Esnoc _ ?i (node_at ?d' a _ _ _ _)] =>
          change d with (flip d'); iApply (wp_child_flip d' a with i); iIntros i
      end
  | |- envs_entails _ (wp (store (child ?d ?a) _) _) =>
      match goal with
      | |- context [Esnoc _ ?i (node_at d a _ _ _ _)] =>
          iApply (wp_set_child d a with i); iIntros i
      | |- context [Esnoc _ ?i (node_at ?d' a _ _ _ _)] =>
          change d with (flip d'); iApply (wp_set_child_flip d' a with i); iIntros i
      end
  | _ => wp_ret
  end; wp_beta.

Ltac rb_steps := iStartProof; repeat rb_step; repeat wp_bind.

(** ** Rotations

    The two rotations are one up to the side; [rb_rotate] is their common
    form. *)
Definition rb_rotate (d : side) (node root : Z) : M unit :=
  y ← load (child (flip d) node);
  parent ← ext2fs_rb_parent node;
  b ← load (child d y);
  store (child (flip d) node) b ;;
  (if bool_decide (b ≠ 0) then
     b' ← load (child d y);
     ext2fs_rb_set_parent b' node
   else mret tt) ;;
  store (child d y) node ;;
  ext2fs_rb_set_parent y parent ;;
  (if bool_decide (parent ≠ 0) then
     x ← load (child d parent);
     if bool_decide (node = x)
     then store (child d parent) y
     else store (child (flip d) parent) y
   else store (rb_node root) y) ;;
  ext2fs_rb_set_parent node y.

Lemma rotate_left_eq : __rb_rotate_left = rb_rotate L.
Proof. reflexivity. Qed.

Lemma rotate_right_eq : __rb_rotate_right = rb_rotate R.
Proof. reflexivity. Qed.

Section rotate.
Context {ML : Malloc}.

Lemma rb_rotate_spec d root k cx cy s x t y u :
  ⦃ ctx_at root k x ∗ tree_at (ctx_ptr k) (mk d cx s x (mk d cy t y u)) ⦄
    rb_rotate d x root
  ⦃ v, ctx_at root k y ∗ tree_at (ctx_ptr k) (mk d cy (mk d cx s x t) y u) ⦄.
Proof.
  iIntros (Φ) "[Hk H] HΦ". rewrite !tree_at_mk !ptr_mk.
  iDestruct "H" as "(Hx & Hs & Hy & Ht & Hu)".
  iDestruct (node_at_facts with "Hx") as %[[??] ?].
  iDestruct (node_at_facts with "Hy") as %[[??] ?].
  iDestruct (ctx_at_sib_ne with "Hk Hx") as %Hne.
  unfold rb_rotate. rb_steps.
  iAssert (wp (if bool_decide (ptr t ≠ 0) then
      b' ← load (child d y); ext2fs_rb_set_parent b' x else mret tt)
    (λ _, node_at d y x cy (ptr t) (ptr u) ∗ tree_at x t))%I with "[Hy Ht]" as "Hwp".
  { case_bool_decide as Hb.
    - rb_steps. iApply (wp_set_parent_tree with "Ht"); [done|by intros ->|].
      iIntros "Ht". iFrame.
    - iDestruct (tree_at_null with "Ht") as %->; [lia|]. rb_steps. iFrame. }
  iApply (wp_wand with "Hwp"). iIntros (_) "[Hy Ht]". rb_steps.
  wp_apply (wp_change_child with "Hk"); [done|]. iIntros "Hk".
  rb_steps. iApply "HΦ". rewrite !tree_at_mk !ptr_mk. iFrame.
Qed.

Lemma rotate_left_spec root k cx cy s x t y u :
  ⦃ ctx_at root k x ∗ tree_at (ctx_ptr k) (Node cx s x (Node cy t y u)) ⦄
    __rb_rotate_left x root
  ⦃ v, ctx_at root k y ∗ tree_at (ctx_ptr k) (Node cy (Node cx s x t) y u) ⦄.
Proof. rewrite rotate_left_eq. apply (rb_rotate_spec L). Qed.

Lemma rotate_right_spec root k cx cy s x t y u :
  ⦃ ctx_at root k y ∗ tree_at (ctx_ptr k) (Node cy (Node cx s x t) y u) ⦄
    __rb_rotate_right y root
  ⦃ v, ctx_at root k x ∗ tree_at (ctx_ptr k) (Node cx s x (Node cy t y u)) ⦄.
Proof. rewrite rotate_right_eq. apply (rb_rotate_spec R). Qed.
End rotate.

(** ** Insertion: the rebalancing loop *)

(** The two mirrored halves of [insert_color_step], as one. *)
Definition insert_side (d : side) (root node parent gparent : Z) : M (Z + unit) :=
  uncle ← load (child (flip d) gparent);
  uncle_red ← (if bool_decide (uncle ≠ 0) then ext2fs_rb_is_red uncle else mret false);
  if (uncle_red : bool) then
    ext2fs_rb_set_black uncle ;;
    ext2fs_rb_set_black parent ;;
    ext2fs_rb_set_red gparent ;;
    continue_ gparent
  else
    parent_other ← load (child (flip d) parent);
    np ← (if bool_decide (parent_other = node) then
            rb_rotate d parent root ;; mret (parent, node)
          else mret (node, parent));
    ext2fs_rb_set_black np.2 ;;
    ext2fs_rb_set_red gparent ;;
    rb_rotate (flip d) gparent root ;;
    continue_ np.1.

Lemma insert_color_step_sides root node :
  insert_color_step root node =
  (parent ← ext2fs_rb_parent node;
   if bool_decide (parent = 0) then break_ tt else
   parent_red ← ext2fs_rb_is_red parent;
   if negb parent_red then break_ tt else
   gparent ← ext2fs_rb_parent parent;
   gparent_left ← load (child L gparent);
   if bool_decide (parent = gparent_left)
   then insert_side L root node parent gparent
   else insert_side R root node parent gparent).
Proof. reflexivity. Qed.

Section insert_color.
Context {ML : Malloc}.

(** The loop invariant: a red node at the hole of a context that takes black
    trees; only the node and its parent may both be red. *)
Definition insert_inv (root : Z) (xs : list Z) (k : ctx) (n : Z) : hProp :=
  ∃ dx l r h,
    ⌜is_rb Black h l ∧ is_rb Black h r ∧ ctx_rb k Black h ∧
     inorder (plug k (mk dx Red l n r)) = xs⌝ ∗
    ctx_at root k n ∗ tree_at (ctx_ptr k) (mk dx Red l n r).

Lemma wp_uncle_red g unc cu h Φ :
  is_rb cu h unc →
  tree_at g unc -∗
  (tree_at g unc -∗ Φ (is_red cu)) -∗
  wp (if bool_decide (ptr unc ≠ 0) then ext2fs_rb_is_red (ptr unc)
      else mret false) Φ.
Proof.
  iIntros (Hu) "Hunc HΦ". destruct unc as [|c ul u ur]; simpl.
  - apply is_rb_leaf_inv in Hu as [-> _]. rb_step. by iApply "HΦ".
  - iDestruct "Hunc" as "(Hu & Hul & Hur)".
    iDestruct (node_at_facts with "Hu") as %[[??] ?].
    rewrite (bool_decide_eq_true_2 (u ≠ 0)); [|lia]. rb_step.
    assert (c = cu) as -> by by inversion Hu.
    iApply "HΦ". iFrame.
Qed.

Lemma insert_side_red d root p g dn N unc sib k h :
  is_rb Red h unc → is_rb Black h sib → is_rb Red h N → ctx_rb k Black (S h) →
  ⦃ ctx_at root (Frame dn Red p sib :: Frame d Black g unc :: k) (ptr N) ∗
    tree_at p N ⦄
    insert_side d root (ptr N) p g
  ⦃ v, ⌜v = inl g⌝ ∗ insert_inv root
    (inorder (plug (Frame dn Red p sib :: Frame d Black g unc :: k) N)) k g ⦄.
Proof.
  iIntros (Hunc Hsib HN Hk Φ) "[Hk HN] HΦ". simpl.
  iDestruct "Hk" as "(Hp & Hsib & Hg & Hunc & Hk)".
  unfold insert_side. rb_steps.
  iApply (wp_uncle_red with "Hunc"); [done|]. iIntros "Hunc". simpl.
  inversion Hunc as [|? ul u ur Hul Hur|]; subst; simpl.
  iDestruct "Hunc" as "(Hu & Hul & Hur)". rb_steps.
  iApply "HΦ". iSplit; [done|].
  iExists d, (mk dn Black N p sib), (Node Black ul u ur), (S h). iSplitR.
  - iPureIntro. split_and!; eauto with rb.
    apply inorder_plug_eq. destruct d; simpl; by rewrite (inorder_mk dn Black Red).
  - rewrite !tree_at_mk /= !ptr_mk. iFrame.
Qed.

Lemma insert_side_outer d root p g N unc cu sib k h dx l n r :
  N = mk dx Red l n r → is_rb Black h l → is_rb Black h r →
  is_rb cu h unc → cu = Black → is_rb Black h sib → ctx_rb k Black (S h) →
  ⦃ ctx_at root (Frame d Red p sib :: Frame d Black g unc :: k) n ∗ tree_at p N ⦄
    insert_side d root n p g
  ⦃ v, ⌜v = inl n⌝ ∗ insert_inv root
    (inorder (plug (Frame d Red p sib :: Frame d Black g unc :: k) N))
    (Frame d Black p (mk d Red sib g unc) :: k) n ⦄.
Proof.
  iIntros (HeqN Hl Hr Hunc -> Hsib Hk Φ) "[Hk HN] HΦ". simpl.
  iDestruct "Hk" as "(Hp & Hsib & Hg & Hunc & Hk)".
  iAssert ⌜ptr sib ≠ n⌝%I as %Hne.
  { rewrite HeqN tree_at_mk. iDestruct "HN" as "(Hn & _)".
    iApply (tree_at_ptr_ne with "Hsib Hn"). }
  unfold insert_side. rb_steps.
  iApply (wp_uncle_red with "Hunc"); [done|]. iIntros "Hunc". simpl.
  rb_steps. rewrite bool_decide_eq_false_2 //. rb_steps. simpl. rb_steps.
  wp_apply (rb_rotate_spec (flip d) root k Red Black unc g sib p N
    with "[Hk Hp Hsib Hg Hunc HN]").
  { rewrite !mk_flip !tree_at_mk !ptr_mk HeqN ptr_mk. iFrame. }
  iIntros (v) "[Hk H]". wp_steps. iApply "HΦ". iSplit; [done|].
  iExists dx, l, r, h. iSplitR.
  - iPureIntro. split_and!; eauto with rb. subst N.
    simpl. apply inorder_plug_eq. destruct d; solve_inorder.
  - rewrite HeqN /= !mk_flip !tree_at_mk !ptr_mk.
    iDestruct "H" as "($ & $ & $)". iFrame.
Qed.

Lemma insert_side_inner d root p g unc cu sib k h s n t :
  is_rb Black h s → is_rb Black h t →
  is_rb cu h unc → cu = Black → is_rb Black h sib → ctx_rb k Black (S h) →
  ⦃ ctx_at root (Frame (flip d) Red p sib :: Frame d Black g unc :: k) n ∗
    tree_at p (mk d Red s n t) ⦄
    insert_side d root n p g
  ⦃ v, ⌜v = inl p⌝ ∗ insert_inv root
    (inorder (plug (Frame (flip d) Red p sib :: Frame d Black g unc :: k) (mk d Red s n t)))
    (Frame d Black n (mk d Red t g unc) :: k) p ⦄.
Proof.
  iIntros (Hs Ht Hunc -> Hsib Hk Φ) "[Hk HN] HΦ". simpl.
  iDestruct "Hk" as "(Hp & Hsib & Hg & Hunc & Hk)". rewrite node_at_unflip.
  unfold insert_side. rb_steps.
  iApply (wp_uncle_red with "Hunc"); [done|]. iIntros "Hunc". simpl.
  rb_steps. rewrite bool_decide_eq_true_2 //.
  wp_apply (rb_rotate_spec d root (Frame d Black g unc :: k) Red Red sib p s n t
    with "[Hk Hp Hsib Hg Hunc HN]").
  { rewrite /= !tree_at_mk !ptr_mk. iFrame. }
  iIntros (v) "[Hk H]". simpl. iDestruct "Hk" as "(Hg & Hunc & Hk)".
  rewrite !tree_at_mk ptr_mk. iDestruct "H" as "(Hn & (Hp & Hsib & Hs) & Ht)".
  rb_steps. simpl. rb_steps.
  wp_apply (rb_rotate_spec (flip d) root k Red Black unc g t n (mk d Red sib p s)
    with "[Hk Hp Hsib Hg Hunc Hn Hs Ht]").
  { rewrite !mk_flip !tree_at_mk !ptr_mk. iFrame. }
  iIntros (v') "[Hk H]". wp_steps. iApply "HΦ". iSplit; [done|].
  iExists d, sib, s, h. iSplitR.
  - iPureIntro. split_and!; eauto with rb.
    simpl. apply inorder_plug_eq. destruct d; solve_inorder.
  - rewrite /= !mk_flip !tree_at_mk !ptr_mk.
    iDestruct "H" as "($ & ($ & $ & $) & $ & $ & $)". iFrame.
Qed.

(** One round from a state where the parent is red. *)
Lemma insert_side_spec d root p g dn unc cu sib k h dx l n r :
  is_rb Black h l → is_rb Black h r →
  is_rb cu h unc → is_rb Black h sib → ctx_rb k Black (S h) →
  let k0 := Frame dn Red p sib :: Frame d Black g unc :: k in
  ⦃ ctx_at root k0 n ∗ tree_at p (mk dx Red l n r) ⦄
    insert_side d root n p g
  ⦃ v, ∃ k' n', ⌜v = inl n' ∧ (length k' < length k0)%nat⌝ ∗
    insert_inv root (inorder (plug k0 (mk dx Red l n r))) k' n' ⦄.
Proof.
  iIntros (Hl Hr Hunc Hsib Hk k0 Φ) "H HΦ". destruct cu.
  - pose proof (ptr_mk dx Red l n r) as Hptr.
    iPoseProof (insert_side_red d root p g dn (mk dx Red l n r) with "[H]") as "Hwp";
      [done..|by eauto with rb|done|by rewrite Hptr|].
    rewrite Hptr. iApply "Hwp". iIntros (v) "[-> H]". iApply "HΦ".
    iExists k, g. iFrame. iPureIntro. split; [done|simpl; lia].
  - destruct (decide (dn = d)) as [->|Hdn].
    + iApply (insert_side_outer with "H"); [done..|].
      iIntros (v) "[-> H]". iApply "HΦ". iExists _, _. iFrame "H".
      iPureIntro. split; [done|simpl; lia].
    + assert (dn = flip d) as -> by by destruct dn, d.
      assert (∃ s t, mk dx Red l n r = mk d Red s n t ∧ is_rb Black h s ∧ is_rb Black h t)
        as (s & t & Heq & Hs & Ht).
      { destruct (decide (dx = d)) as [->|]; [by eauto|].
        assert (dx = flip d) as -> by by destruct dx, d.
        rewrite mk_flip. eauto. }
      rewrite Heq /k0.
      iApply (insert_side_inner with "H"); [done..|].
      iIntros (v) "[-> H]". iApply "HΦ". iExists _, _. iFrame "H".
      iPureIntro. split; [done|simpl; lia].
Qed.

(** The whole tree when the loop ends: only the root may still be red. *)
Definition red_root_at (root : Z) (xs : list Z) : hProp :=
  ∃ c l a r, ⌜rb_inv (Node Black l a r) ∧ inorder (Node c l a r) = xs⌝ ∗
    root_at root (Node c l a r).

Lemma red_root_plug root k t :
  rb_inv (plug k t) → t ≠ Leaf →
  ctx_at root k (ptr t) -∗ tree_at (ctx_ptr k) t -∗
  red_root_at root (inorder (plug k t)).
Proof.
  iIntros (Hinv Ht) "Hk Ht".
  pose proof (plug_nonleaf k t Ht) as Hne.
  destruct (rb_inv_black _ Hinv Hne) as (l & a & r & Heq).
  iAssert (root_at root (plug k t)) with "[Hk Ht]" as "Hroot".
  { rewrite root_at_plug. iFrame. }
  rewrite Heq in Hinv. rewrite Heq. iExists Black, l, a, r. by iFrame.
Qed.

Lemma insert_color_step_spec root xs k n :
  ⦃ insert_inv root xs k n ⦄
    insert_color_step root n
  ⦃ v, match v with
       | inl n' => ∃ k', ⌜(length k' < length k)%nat⌝ ∗ insert_inv root xs k' n'
       | inr _ => red_root_at root xs
       end ⦄.
Proof.
  iIntros (Φ) "(%dx & %l & %r & %h & (%Hl & %Hr & %Hk & %Hxs) & Hk & HN) HΦ".
  rewrite insert_color_step_sides tree_at_mk.
  iDestruct "HN" as "(Hn & Hl & Hr)". rb_steps.
  destruct k as [|[dn c p sib] k1]; simpl.
  { rb_steps. iApply "HΦ". simpl in Hxs.
    iExists Red, (if dx is L then l else r), n, (if dx is L then r else l).
    iSplitR; [iPureIntro; split|].
    - exists (S h). destruct dx; simpl; eauto with rb.
    - by destruct dx.
    - iAssert (tree_at 0 (mk dx Red l n r)) with "[Hn Hl Hr]" as "H".
      { rewrite tree_at_mk. iFrame. }
      rewrite /root_at. iFrame. by destruct dx. }
  iDestruct "Hk" as "(Hp & Hsib & Hk)".
  iDestruct (node_at_facts with "Hp") as %[[??] ?].
  rewrite (bool_decide_eq_false_2 (p = 0)); [|lia]. rb_steps.
  destruct c; simpl.
  2:{ (* black parent: done *)
    rb_steps. iApply "HΦ". rewrite -Hxs.
    iApply (red_root_plug _ (Frame dn Black p sib :: k1) (mk dx Red l n r)
      with "[Hp Hsib Hk]").
    - inversion Hk; subst. apply (is_rb_plug _ Red h); eauto with rb.
    - by destruct dx.
    - rewrite /= ptr_mk. iFrame.
    - rewrite tree_at_mk. iFrame. }
  inversion Hk as [|? ? ? ? ? Hsib Hk1|]; subst.
  destruct (ctx_rb_red_inv _ _ Hk1) as (d & g & unc & k & cu & -> & Hunc & Hk').
  simpl. rb_steps. iDestruct "Hk" as "(Hg & Hunc & Hk)".
  iAssert ⌜ptr unc ≠ p⌝%I as %Hne.
  { iApply (tree_at_ptr_ne with "Hunc Hp"). }
  destruct d.
  - rb_steps. rewrite bool_decide_eq_true_2 //.
    iApply (insert_side_spec L root p g dn unc cu sib k h dx l n r
      with "[Hn Hl Hr Hp Hsib Hg Hunc Hk]"); [done..| |].
    { rewrite tree_at_mk /=. iFrame. }
    iIntros (v) "(%k' & %n' & (-> & %Hlen) & H)". iApply "HΦ". iExists k'. by iFrame.
  - rb_steps. rewrite bool_decide_eq_false_2 //.
    iApply (insert_side_spec R root p g dn unc cu sib k h dx l n r
      with "[Hn Hl Hr Hp Hsib Hg Hunc Hk]"); [done..| |].
    { rewrite tree_at_mk /=. iFrame. }
    iIntros (v) "(%k' & %n' & (-> & %Hlen) & H)". iApply "HΦ". iExists k'. by iFrame.
Qed.

Lemma insert_loop_spec root xs k n :
  insert_inv root xs k n ⊢
    wp (loop (insert_color_step root) n) (λ _, red_root_at root xs).
Proof.
  remember (length k) as len eqn:Hlen. revert k n Hlen.
  induction (lt_wf len) as [len _ IH]. iIntros (k n ->) "H".
  iApply wp_loop. iApply (insert_color_step_spec with "H").
  iIntros ([n'|[]]) "H"; [|done].
  iDestruct "H" as (k' Hlen) "H". by iApply (IH with "H").
Qed.

Lemma insert_color_spec root xs k n :
  ⦃ insert_inv root xs k n ⦄
    ext2fs_rb_insert_color n root
  ⦃ v, ∃ t, ⌜rb_inv t ∧ inorder t = xs⌝ ∗ root_at root t ⦄.
Proof.
  iIntros (Φ) "H HΦ". unfold ext2fs_rb_insert_color.
  iApply wp_bind. iApply (wp_wand with "[H]"); [by iApply insert_loop_spec|].
  iIntros (_) "(%c & %l & %a & %r & (%Hinv & %Hxs) & Htop & Ha & Hl & Hr)".
  wp_load. simpl. rb_steps.
  iApply "HΦ". iExists (Node Black l a r). rewrite /root_at /=. iFrame. done.
Qed.

(** Linking a fresh node into an empty slot, and rebalancing. *)
Lemma link_insert_spec root k n :
  rb_inv (plug k Leaf) →
  ⦃ ctx_at root k 0 ∗ node_cells n ⦄
    ext2fs_rb_link_node n (ctx_ptr k) (ctx_slot root k) ;;
    ext2fs_rb_insert_color n root
  ⦃ v, ∃ t, ⌜rb_inv t ∧ inorder t = ctx_before k ++ n :: ctx_after k⌝ ∗
       root_at root t ⦄.
Proof.
  iIntros (Hinv Φ) "(Hk & (%Hn & Hpc & Hr & Hl)) HΦ".
  apply rb_inv_unplug in Hinv as (c & h & Hleaf & Hk).
  apply is_rb_leaf_inv in Hleaf as [-> ->].
  iDestruct (ctx_at_aligned with "Hk") as %Hal.
  iDestruct (ctx_at_slot with "Hk") as "[Hslot Hk]".
  unfold ext2fs_rb_link_node. wp_store. wp_store. wp_store. wp_store.
  iApply (insert_color_spec _ (ctx_before k ++ n :: ctx_after k) k
    with "[-HΦ] HΦ").
  iExists L, Leaf, Leaf, 0%nat. iSplitR.
  - iPureIntro. split_and!; eauto with rb. by rewrite inorder_plug.
  - iDestruct ("Hk" with "Hslot") as "$". rewrite /=.
    rewrite /node_at /pc_word /= Z.add_0_r. by iFrame.
Qed.
End insert_color.

(** ** Deletion: the rebalancing loop *)

(** The two mirrored halves of [erase_color_step], as one, in three parts. *)
Definition erase_final (d : side) (root parent other : Z) : M (Z * Z + Z) :=
  pcolor ← ext2fs_rb_color parent;
  ext2fs_rb_set_color other pcolor ;;
  ext2fs_rb_set_black parent ;;
  far ← load (child (flip d) other);
  ext2fs_rb_set_black far ;;
  rb_rotate d parent root ;;
  top ← load (rb_node root);
  break_ top.

Definition erase_black_sib (d : side) (root parent other : Z) : M (Z * Z + Z) :=
  bb ← children_black other;
  if (bb : bool) then
    ext2fs_rb_set_red other ;;
    parent' ← ext2fs_rb_parent parent;
    continue_ (parent, parent')
  else
    far ← load (child (flip d) other);
    far_black ← null_or_black far;
    other ← (if (far_black : bool) then
               near ← load (child d other);
               ext2fs_rb_set_black near ;;
               ext2fs_rb_set_red other ;;
               rb_rotate (flip d) other root ;;
               load (child (flip d) parent)
             else mret other);
    erase_final d root parent other.

Definition erase_side (d : side) (root parent : Z) : M (Z * Z + Z) :=
  other ← load (child (flip d) parent);
  other_red ← ext2fs_rb_is_red other;
  other ← (if (other_red : bool) then
             ext2fs_rb_set_black other ;;
             ext2fs_rb_set_red parent ;;
             rb_rotate d parent root ;;
             load (child (flip d) parent)
           else mret other);
  erase_black_sib d root parent other.

Lemma erase_color_step_sides root node parent :
  erase_color_step root (node, parent) =
  (nb ← null_or_black node;
   go ← (if (nb : bool) then
           top ← load (rb_node root); mret (bool_decide (node ≠ top))
         else mret false);
   if negb go then break_ node else
   parent_left ← load (child L parent);
   if bool_decide (parent_left = node)
   then erase_side L root parent
   else erase_side R root parent).
Proof. reflexivity. Qed.

Section erase_color.
Context {ML : Malloc}.

Lemma wp_null_or_black par t c h Φ :
  is_rb c h t →
  tree_at par t -∗ (tree_at par t -∗ Φ (is_black c)) -∗
  wp (null_or_black (ptr t)) Φ.
Proof.
  iIntros (Ht) "H HΦ". unfold null_or_black. destruct t as [|c' l a r]; simpl.
  - apply is_rb_leaf_inv in Ht as [-> _]. rb_step. by iApply "HΦ".
  - iDestruct "H" as "(Ha & Hl & Hr)".
    iDestruct (node_at_facts with "Ha") as %[[??] ?].
    rewrite (bool_decide_eq_false_2 (a = 0)); [|lia]. rb_step.
    assert (c' = c) as -> by by inversion Ht.
    iApply "HΦ". iFrame.
Qed.

Lemma wp_children_black d o par c s t cs ct hs ht Φ :
  is_rb cs hs s → is_rb ct ht t →
  node_at d o par c (ptr s) (ptr t) -∗ tree_at o s -∗ tree_at o t -∗
  (node_at d o par c (ptr s) (ptr t) -∗ tree_at o s -∗ tree_at o t -∗
   Φ (is_black cs && is_black ct)) -∗
  wp (children_black o) Φ.
Proof.
  iIntros (Hs Ht) "Ho Hs Ht HΦ". unfold children_black.
  change (rb_left o) with (child L o). change (rb_right o) with (child R o).
  destruct d; rb_steps.
  - iApply (wp_null_or_black with "Hs"); [done|]. iIntros "Hs".
    destruct cs; simpl; rb_steps; [iApply ("HΦ" with "[$] [$] [$]")|].
    iApply (wp_null_or_black with "Ht"); [done|]. iIntros "Ht".
    iApply ("HΦ" with "[$] [$] [$]").
  - iApply (wp_null_or_black with "Ht"); [done|]. iIntros "Ht".
    rewrite andb_comm.
    destruct ct; simpl; rb_steps; [iApply ("HΦ" with "[$] [$] [$]")|].
    iApply (wp_null_or_black with "Hs"); [done|]. iIntros "Hs".
    iApply ("HΦ" with "[$] [$] [$]").
Qed.

(** A subtree one black node short of height [S h]; if its root is red it is
    enough to blacken it. *)
Definition short (c : color) (h : nat) (t : rbtree) : Prop :=
  match c with
  | Black => is_rb Black h t
  | Red => ∃ d l a r, t = mk d Red l a r ∧ is_rb Black (S h) (mk d Black l a r)
  end.

(** What the context [k] of a node of colour [c] takes, when the node's
    children have height [h]. *)
Definition ctx_up (k : ctx) (c : color) (h : nat) : Prop :=
  match c with Red => ctx_rb k Red h | Black => ctx_rb k Black (S h) end.

(** The loop invariant; [m] bounds the rounds left. *)
Definition erase_inv (root : Z) (xs : list Z) (m : nat) (st : Z * Z) : hProp :=
  ∃ k t c h,
    ⌜short c h t ∧ ctx_rb k Black (S h) ∧ inorder (plug k t) = xs ∧
     st = (ptr t, ctx_ptr k) ∧
     m = (2 * length k + if decide (c = Red) then 0 else 1)%nat⌝ ∗
    ctx_at root k (ptr t) ∗ tree_at (ctx_ptr k) t.

(** When the loop ends: blackening [n] makes the tree balanced. *)
Definition erase_done (root : Z) (xs : list Z) (n : Z) : hProp :=
  ∃ k t,
    ⌜n = ptr t ∧ inorder (plug k t) = xs ∧
     ((t = Leaf ∧ rb_inv (plug k Leaf)) ∨
      ∃ d c l a r, t = mk d c l a r ∧ rb_inv (plug k (mk d Black l a r)))⌝ ∗
    ctx_at root k (ptr t) ∗ tree_at (ctx_ptr k) t.

Lemma erase_final_spec d root k cp p t o near cn far f h :
  is_rb Black h t → is_rb cn h near → is_rb Red h far → ptr far = f →
  ctx_up k cp (S h) →
  ⦃ ctx_at root k p ∗ node_at d p (ctx_ptr k) cp (ptr t) o ∗ tree_at p t ∗
    node_at d o p Black (ptr near) f ∗ tree_at o near ∗ tree_at o far ⦄
    erase_final d root p o
  ⦃ v, ∃ n, ⌜v = inr n⌝ ∗
    erase_done root (inorder (plug k (mk d cp t p (mk d Black near o far)))) n ⦄.
Proof.
  iIntros (Ht Hnear Hfar <- Hk Φ) "(Hk & Hp & Ht & Ho & Hnear & Hfar) HΦ".
  inversion Hfar as [|? fl f fr Hfl Hfr|]; subst; simpl.
  iDestruct "Hfar" as "(Hf & Hfl & Hfr)".
  unfold erase_final. rb_steps.
  wp_apply (rb_rotate_spec d root k Black cp t p near o (Node Black fl f fr)
    with "[Hk Hp Ht Ho Hnear Hf Hfl Hfr]").
  { rewrite !tree_at_mk !ptr_mk /=. iFrame. }
  iIntros (v) "[Hk H]".
  set (t' := mk d cp (mk d Black t p near) o (Node Black fl f fr)).
  assert (rb_inv (plug k t')) as Hinv.
  { destruct cp; simpl in Hk.
    - apply (is_rb_plug _ Red (S h)); eauto with rb.
    - apply (is_rb_plug _ Black (S (S h))); eauto with rb. }
  assert (t' ≠ Leaf) as Hne by by destruct d.
  destruct (rb_inv_black _ Hinv (plug_nonleaf _ _ Hne)) as (l & a & r & Heq).
  iAssert (root_at root (plug k t')) with "[Hk H]" as "[Htop H]".
  { rewrite root_at_plug ptr_mk. iFrame. }
  wp_load. wp_steps. iApply "HΦ". iExists _. iSplit; [done|].
  iExists [], (plug k t'). iSplitR; [|by iFrame].
  iPureIntro. split_and!; [done| |].
  - simpl. apply inorder_plug_eq. destruct d; solve_inorder.
  - right. exists L, Black, l, a, r. by rewrite /= -Heq.
Qed.

Lemma erase_black_sib_spec d root k cp p t o near cn far cf h :
  is_rb Black h t → is_rb cn h near → is_rb cf h far → ctx_up k cp (S h) →
  ⦃ ctx_at root k p ∗ node_at d p (ctx_ptr k) cp (ptr t) o ∗ tree_at p t ∗
    node_at d o p Black (ptr near) (ptr far) ∗ tree_at o near ∗ tree_at o far ⦄
    erase_black_sib d root p o
  ⦃ v, let xs := inorder (plug k (mk d cp t p (mk d Black near o far))) in
       match v with
       | inl st => erase_inv root xs
           (2 * length k + if decide (cp = Red) then 0 else 1)%nat st
       | inr n => erase_done root xs n
       end ⦄.
Proof.
  iIntros (Ht Hnear Hfar Hk Φ) "(Hk & Hp & Ht & Ho & Hnear & Hfar) HΦ".
  unfold erase_black_sib.
  wp_apply (wp_children_black with "Ho Hnear Hfar"); [done..|].
  iIntros "Ho Hnear Hfar".
  destruct (is_black cn && is_black cf) eqn:Hcol.
  - destruct cn, cf; try done. rb_steps.
    iApply "HΦ". iExists k, (mk d cp t p (mk d Red near o far)), cp.
    iExists (match cp with Red => h | Black => S h end). iSplitR.
    + iPureIntro. rewrite ptr_mk. split_and!; [| | |done|done].
      * destruct cp; simpl; [|by eauto with rb].
        exists d, t, p, (mk d Red near o far). eauto with rb.
      * destruct cp; simpl in Hk; [by eapply ctx_rb_weaken|done].
      * apply inorder_plug_eq. destruct d; done.
    + rewrite !tree_at_mk !ptr_mk. iFrame.
  - rb_steps. iApply (wp_null_or_black with "Hfar"); [done|]. iIntros "Hfar".
    destruct cf; simpl.
    + rb_steps. iApply (erase_final_spec with "[$Hk $Hp $Ht $Ho $Hnear $Hfar]");
        [done..|].
      iIntros (v) "(%n & -> & H)". by iApply "HΦ".
    + destruct cn; [|done].
      destruct (mk_cases d near) as [->|(cn & nl & n & nr & ->)]; [by inversion Hnear|].
      assert (cn = Red) as -> by (destruct d; by inversion Hnear).
      apply is_rb_mk_red_inv in Hnear as (_ & Hnl & Hnr).
      rewrite tree_at_mk ptr_mk. iDestruct "Hnear" as "(Hn & Hnl & Hnr)". rb_steps.
      wp_apply (rb_rotate_spec (flip d) root (Frame (flip d) cp p t :: k)
        Red Black far o nr n nl with "[Hk Hp Ht Ho Hfar Hn Hnl Hnr]").
      { rewrite /= !mk_flip !tree_at_mk !ptr_mk node_at_unflip. iFrame. }
      iIntros (v) "[Hk H]". simpl. iDestruct "Hk" as "(Hp & Ht & Hk)".
      rewrite node_at_unflip !mk_flip tree_at_mk ptr_mk.
      iDestruct "H" as "(Hn & Hnl & Hfar)". rb_steps.
      iApply (erase_final_spec d root k cp p t n nl Black (mk d Red nr o far) o h
        with "[$Hk $Hp $Ht $Hn $Hnl $Hfar]");
        [done|done|by eauto with rb|by rewrite ptr_mk|done|].
      iIntros (v') "(%n' & -> & H)". iApply "HΦ".
      rewrite (inorder_plug_eq k _ (mk d cp t p (mk d Black (mk d Red nl n nr) o far))) //.
      destruct d; solve_inorder.
Qed.

Lemma erase_side_spec d root k cp p t sib h :
  is_rb Black h t →
  ctx_rb (Frame d cp p sib :: k) Black (S h) →
  let k0 := Frame d cp p sib :: k in
  ⦃ ctx_at root k0 (ptr t) ∗ tree_at p t ⦄
    erase_side d root p
  ⦃ v, match v with
       | inl st => ∃ m, ⌜(m < 2 * length k0 + 1)%nat⌝ ∗
           erase_inv root (inorder (plug k0 t)) m st
       | inr n => erase_done root (inorder (plug k0 t)) n
       end ⦄.
Proof.
  iIntros (Ht Hk k0 Φ) "[(Hp & Hsib & Hk) Ht] HΦ". rewrite /k0 /=.
  assert (∃ cs, is_rb cs (S h) sib ∧ ctx_up k cp (S h) ∧ (cp = Red → cs = Black))
    as (cs & Hsib & Hup & Hcs) by (inversion Hk; subst; eexists; split_and!; [done..|]; done).
  destruct (mk_cases d sib) as [->|(c & near & o & far & ->)]; [by inversion Hsib|].
  rewrite tree_at_mk ptr_mk. iDestruct "Hsib" as "(Ho & Hnear & Hfar)".
  unfold erase_side. rb_steps.
  destruct c; simpl.
  - (* the sibling is red: rotate it above the parent *)
    apply is_rb_mk_red_inv in Hsib as (-> & Hnear & Hfar).
    destruct cp; [by specialize (Hcs eq_refl)|]. rb_steps.
    wp_apply (rb_rotate_spec d root k Red Black t p near o far
      with "[Hk Hp Ht Ho Hnear Hfar]").
    { rewrite !tree_at_mk !ptr_mk. iFrame. }
    iIntros (v) "[Hk H]". rewrite !tree_at_mk ptr_mk.
    iDestruct "H" as "(Ho & (Hp & Ht & Hnear) & Hfar)". rb_steps.
    destruct (mk_cases d near) as [->|(c' & nn & o' & nf & ->)]; [by inversion Hnear|].
    assert (c' = Black) as -> by (destruct d; by inversion Hnear).
    apply is_rb_mk_black_inv in Hnear as (h' & c1 & c2 & [= <-] & _ & Hnn & Hnf).
    rewrite tree_at_mk ptr_mk. iDestruct "Hnear" as "(Ho' & Hnn & Hnf)".
    iApply (erase_black_sib_spec d root (Frame d Black o far :: k) Red p t o' nn c1 nf c2 h
      with "[Hk Hp Ht Ho Hfar Ho' Hnn Hnf]"); [done..|simpl; eauto with rb| |].
    { simpl. iFrame. }
    iIntros (v') "H". iApply "HΦ".
    replace (inorder (plug (Frame d Black o far :: k) (mk d Red t p (mk d Black nn o' nf))))
      with (inorder (plug k (mk d Black t p (mk d Red (mk d Black nn o' nf) o far)))).
    2:{ simpl. apply inorder_plug_eq. destruct d; solve_inorder. }
    destruct v' as [st|n]; [|done]. iExists _. iFrame "H".
    iPureIntro. simpl. lia.
  - apply is_rb_mk_black_inv in Hsib as (h' & c1 & c2 & [= <-] & _ & Hnear & Hfar).
    rb_steps.
    iApply (erase_black_sib_spec with "[$Hk $Hp $Ht $Ho $Hnear $Hfar]"); [done..|].
    iIntros (v) "H". iApply "HΦ". destruct v as [st|n]; [|done].
    iExists _. iFrame "H". iPureIntro. case_decide; simpl; lia.
Qed.

(** The root of a tree, seen from a hole strictly below it. *)
Lemma ctx_at_top root f k t Φ :
  ctx_at root (f :: k) (ptr t) -∗ tree_at (f_addr f) t -∗
  (∀ top, ⌜ptr t ≠ top⌝ -∗ ctx_at root (f :: k) (ptr t) -∗
     tree_at (f_addr f) t -∗ Φ top) -∗
  wp (load (rb_node root)) Φ.
Proof.
  iIntros "Hk Ht HΦ".
  iAssert (root_at root (plug (f :: k) t)) with "[Hk Ht]" as "[Htop H]".
  { rewrite root_at_plug. iFrame. }
  iDestruct (tree_at_top_ne with "H") as %Hne.
  wp_load. iAssert (root_at root (plug (f :: k) t)) with "[$]" as "H".
  rewrite root_at_plug. iDestruct "H" as "[Hk Ht]".
  iApply ("HΦ" with "[] Hk Ht"). by iPureIntro.
Qed.

Lemma erase_color_step_spec root xs m st :
  ⦃ erase_inv root xs m st ⦄
    erase_color_step root st
  ⦃ v, match v with
       | inl st' => ∃ m', ⌜(m' < m)%nat⌝ ∗ erase_inv root xs m' st'
       | inr n => erase_done root xs n
       end ⦄.
Proof.
  iIntros (Φ) "(%k & %t & %c & %h & (%Hs & %Hk & <- & -> & ->) & Hk & Ht) HΦ".
  rewrite erase_color_step_sides. destruct c; simpl in Hs.
  { (* a red node: done *)
    destruct Hs as (d & l & a & r & -> & Hb). rewrite tree_at_mk ptr_mk.
    iDestruct "Ht" as "(Ha & Hl & Hr)".
    iDestruct (node_at_facts with "Ha") as %[[??] ?].
    unfold null_or_black. rewrite bool_decide_eq_false_2; [|lia].
    rb_steps. simpl. rb_steps. simpl. rb_steps. iApply "HΦ". iExists k, (mk d Red l a r).
    rewrite tree_at_mk ptr_mk. iFrame. iPureIntro. split_and!; [done..|].
    right. exists d, Red, l, a, r. eauto with rb. }
  wp_apply (wp_null_or_black with "Ht"); [done|]. iIntros "Ht". simpl.
  destruct k as [|[d cp p sib] k].
  { (* the root *)
    simpl. wp_load. wp_steps. rewrite bool_decide_eq_false_2; [|tauto].
    simpl. wp_steps. iApply "HΦ". iExists [], t. iFrame. iPureIntro.
    split_and!; [done..|]. simpl.
    destruct t as [|c l a r]; [left|right]; split_and?; [done|by exists h|].
    assert (c = Black) as -> by by inversion Hs.
    exists L, Black, l, a, r. split; [done|]. by exists h. }
  wp_apply (ctx_at_top with "Hk Ht"). iIntros (top Htop) "Hk Ht". wp_steps.
  rewrite bool_decide_eq_true_2 //. simpl. iDestruct "Hk" as "(Hp & Hsib & Hk)".
  destruct d; rb_steps.
  - rewrite bool_decide_eq_true_2 //.
    iApply (erase_side_spec L root k cp p t sib h with "[$Ht Hp Hsib Hk]"); [done..| |].
    { simpl. iFrame. }
    iIntros (v) "H". iApply "HΦ". destruct v; [|done].
    iDestruct "H" as (m Hm) "H". iExists m. by iFrame.
  - iAssert ⌜ptr sib ≠ ptr t⌝%I as %Hne.
    { assert (∃ cs, is_rb cs (S h) sib) as [cs Hsib] by (inversion Hk; subst; eauto).
      destruct sib as [|cs' sl s sr]; [by inversion Hsib|].
      simpl. iDestruct "Hsib" as "(Hs & _)".
      iDestruct (tree_at_ptr_ne with "Ht Hs") as %?. iPureIntro. congruence. }
    rewrite bool_decide_eq_false_2 //.
    iApply (erase_side_spec R root k cp p t sib h with "[$Ht Hp Hsib Hk]"); [done..| |].
    { simpl. iFrame. }
    iIntros (v) "H". iApply "HΦ". destruct v; [|done].
    iDestruct "H" as (m Hm) "H". iExists m. by iFrame.
Qed.

Lemma erase_loop_spec root xs m st :
  erase_inv root xs m st ⊢
    wp (loop (erase_color_step root) st) (λ n, erase_done root xs n).
Proof.
  revert st. induction (lt_wf m) as [m _ IH]. iIntros (st) "H".
  iApply wp_loop. iApply (erase_color_step_spec with "H").
  iIntros ([st'|n]) "H"; [|done].
  iDestruct "H" as (m' Hlt) "H". by iApply (IH with "H").
Qed.

Lemma erase_color_spec root xs m n p :
  ⦃ erase_inv root xs m (n, p) ⦄
    __rb_erase_color n p root
  ⦃ v, ∃ t, ⌜rb_inv t ∧ inorder t = xs⌝ ∗ root_at root t ⦄.
Proof.
  iIntros (Φ) "H HΦ". unfold __rb_erase_color.
  iApply wp_bind. iApply (wp_wand with "[H]"); [by iApply erase_loop_spec|].
  iIntros (n') "(%k & %t & (-> & %Hxs & %Ht) & Hk & Ht)".
  destruct Ht as [[-> Hinv]|(d & c & l & a & r & -> & Hinv)].
  - simpl. wp_steps. iApply "HΦ". iExists _. iSplit; [done|].
    rewrite root_at_plug. iFrame.
  - rewrite tree_at_mk ptr_mk. iDestruct "Ht" as "(Ha & Hl & Hr)".
    iDestruct (node_at_facts with "Ha") as %[[??] ?].
    rewrite bool_decide_eq_true_2; [|lia]. rb_steps.
    iApply "HΦ". iExists (plug k (mk d Black l a r)). iSplit.
    + iPureIntro. split; [done|]. rewrite -Hxs. apply inorder_plug_eq, inorder_mk.
    + rewrite root_at_plug tree_at_mk ptr_mk. iFrame.
Qed.

(** The end of [ext2fs_rb_erase]: a node of colour [c] with at most one child
    [t] has been cut out above the hole of [k]. *)
Lemma erase_finish_spec root k c h t n :
  is_rb c h (Node c Leaf n t) → ctx_rb k c h →
  ⦃ ctx_at root k (ptr t) ∗ tree_at (ctx_ptr k) t ⦄
    if bool_decide (color_bit c = RB_BLACK)
    then __rb_erase_color (ptr t) (ctx_ptr k) root else mret tt
  ⦃ v, ∃ t', ⌜rb_inv t' ∧ inorder t' = inorder (plug k t)⌝ ∗ root_at root t' ⦄.
Proof.
  iIntros (Hn Hk Φ) "[Hk Ht] HΦ". destruct c; simpl.
  - inversion Hn as [|? ? ? ? Hl Hr|]; subst.
    wp_steps. iApply "HΦ". iExists (plug k t). iSplit.
    + iPureIntro. split; [|done]. eapply is_rb_plug; [done|]. by eapply ctx_rb_weaken.
    + rewrite root_at_plug. iFrame.
  - inversion Hn as [| |? ? h' ? ? ? Hl Hr]; subst.
    apply is_rb_leaf_inv in Hl as [-> ->].
    iApply (erase_color_spec with "[Hk Ht]"); [|done].
    iExists k, t. iExists c2, 0%nat. iFrame. iPureIntro. split_and!; try done.
    destruct c2; simpl; [|done].
    inversion Hr; subst. exists L. do 3 eexists. split; [done|]. simpl. eauto with rb.
Qed.
End erase_color.

(** ** Deletion *)
Section erase.
Context {ML : Malloc}.

Lemma node_at_cells d a par c p q : node_at d a par c p q ⊢ node_cells a.
Proof.
  iIntros "(%Hf & Hpc & Hp & Hq)". iSplitR; [by iPureIntro; tauto|].
  rewrite !pointsto_owns. destruct d; simpl; iFrame.
Qed.

(** The two ends of an in-order sequence. *)
Definition end_of (d : side) (xs : list Z) : option Z :=
  match d with L => head xs | R => last xs end.

Definition go_side (d : side) (node : Z) : M Z :=
  loop (λ node,
    next ← load (child d node);
    if bool_decide (next ≠ 0) then continue_ next else break_ node) node.

(** Running down the links of one side ends at that end of the tree. *)
Lemma go_side_spec d par t Φ :
  t ≠ Leaf →
  tree_at par t -∗
  (∀ s, ⌜end_of d (inorder t) = Some s⌝ -∗ tree_at par t -∗ Φ s) -∗
  wp (go_side d (ptr t)) Φ.
Proof.
  intros Hne. revert par Φ.
  assert (∃ c u a v, t = mk d c u a v) as (c & u & a & v & ->).
  { destruct (mk_cases d t) as [|H]; done. }
  clear Hne. revert c a v.
  induction u as [|c' l' IHl a' r' IHr]; intros c a v par Φ.
  - iIntros "H HΦ". rewrite ptr_mk. rewrite {1}tree_at_mk.
    iDestruct "H" as "(Ha & Hu & Hv)". unfold go_side. iApply wp_loop. rb_steps. simpl. rb_steps.
    iApply ("HΦ" with "[%]"); [|rewrite tree_at_mk; iFrame].
    destruct d; simpl; [done|]. by rewrite last_snoc.
  - iIntros "H HΦ". rewrite ptr_mk. rewrite {1}tree_at_mk.
    iDestruct "H" as "(Ha & Hu & Hv)". unfold go_side. iApply wp_loop. rb_steps.
    iDestruct (tree_at_nonnull with "Hu") as %Hu0; [done|].
    rewrite bool_decide_eq_true_2 //. rb_steps.
    destruct d.
    + iApply (IHl c' a' r' with "Hu"). iIntros (s Hs) "Hu".
      iApply ("HΦ" with "[%]"); [|rewrite (tree_at_mk L _ _ (Node c' l' a' r')); iFrame].
      simpl in *. rewrite -assoc_L. by destruct (inorder l').
    + iApply (IHr c' a' l' with "Hu"). iIntros (s Hs) "Hu".
      iApply ("HΦ" with "[%]"); [|rewrite (tree_at_mk R _ _ (Node c' l' a' r')); iFrame].
      simpl in *. by rewrite last_app last_cons Hs.
Qed.

Lemma go_leftmost_spec par t Φ :
  t ≠ Leaf →
  tree_at par t -∗
  (∀ s xs, ⌜inorder t = s :: xs⌝ -∗ tree_at par t -∗ Φ s) -∗
  wp (go_leftmost (ptr t)) Φ.
Proof.
  iIntros (Hne) "H HΦ". change go_leftmost with (go_side L).
  iApply (go_side_spec with "H"); [done|]. simpl. iIntros (s [xs Hs]%head_Some) "H".
  by iApply ("HΦ" with "[%] H").
Qed.

(** A stretch of context below the parent pointer [par]. *)
Fixpoint seg_at (par : Z) (k : ctx) (p : Z) : hProp :=
  match k with
  | [] => emp
  | Frame d c a s :: k' =>
      node_at d a (match k' with [] => par | f :: _ => f_addr f end) c p (ptr s) ∗
      tree_at a s ∗ seg_at par k' a
  end%I.

Lemma tree_at_plug par k t :
  tree_at par (plug k t) ⊣⊢
  seg_at par k (ptr t) ∗
  tree_at (match k with [] => par | f :: _ => f_addr f end) t.
Proof.
  revert t. induction k as [|[d c a s] k IH]; intros t; simpl; [by rewrite left_id|].
  rewrite IH tree_at_mk ptr_mk. iSplit.
  - iIntros "(Hk & Ha & Ht & Hs)". iFrame.
  - iIntros "((Ha & Hs & Hk) & Ht)". iFrame.
Qed.


Lemma erase_one_child root k d c n t :
  rb_inv (plug k (mk d c Leaf n t)) →
  ⦃ ctx_at root k n ∗ node_at d n (ctx_ptr k) c 0 (ptr t) ∗ tree_at n t ⦄
    parent ← ext2fs_rb_parent n;
    color ← ext2fs_rb_color n;
    (if bool_decide (ptr t ≠ 0) then ext2fs_rb_set_parent (ptr t) parent
     else mret tt) ;;
    (if bool_decide (parent ≠ 0) then
       parent_left ← load (rb_left parent);
       if bool_decide (parent_left = n)
       then store (rb_left parent) (ptr t)
       else store (rb_right parent) (ptr t)
     else store (rb_node root) (ptr t)) ;;
    if bool_decide (color = RB_BLACK)
    then __rb_erase_color (ptr t) parent root else mret tt
  ⦃ v, ∃ t', ⌜rb_inv t' ∧ inorder t' = inorder (plug k t)⌝ ∗
       root_at root t' ∗ node_cells n ⦄.
Proof.
  iIntros (Hinv Φ) "(Hk & Hn & Ht) HΦ".
  iDestruct (ctx_at_sib_ne with "Hk Hn") as %Hne.
  iDestruct (ctx_at_aligned with "Hk") as %Hal. rb_steps.
  wp_apply (wp_set_parent_opt with "Ht"); [done|]. iIntros "Ht".
  wp_apply (wp_change_child_sym L with "Hk"); [done|]. iIntros "Hk".
  destruct (rb_inv_unplug _ _ Hinv) as (c' & h & Hrb & Hctx).
  assert (c' = c) as -> by (destruct d; by inversion Hrb).
  iApply (erase_finish_spec root k c h t n with "[$Hk $Ht]"); [|done|].
  { destruct d; [done|]. inversion Hrb; subst; eauto with rb. }
  iIntros (v) "(%t' & % & H)". iApply "HΦ". iExists t'. iFrame "H".
  iSplit; [done|]. by iApply node_at_cells.
Qed.

(** The successor [s] of [old] leaves the right subtree of [old] and becomes
    its new root. *)
Lemma erase_detach_spec {B} old par0 c0 lq kl cs s r (K : Z → Z → Z → M B) Φ :
  ctx_before kl = [] →
  let t := plug kl (Node cs Leaf s r) in
  node_at L old par0 c0 lq (ptr t) -∗ tree_at old t -∗
  (∀ x, node_at L old par0 c0 lq (ptr t) -∗
     node_at L s x cs 0 (ptr (plug kl r)) -∗ tree_at s (plug kl r) -∗
     wp (K (ptr r) (match kl with [] => s | f :: _ => f_addr f end) (color_bit cs)) Φ) -∗
  wp (child ← load (rb_right s);
      parent ← ext2fs_rb_parent s;
      color ← ext2fs_rb_color s;
      parent ← (if bool_decide (parent = old) then mret s
                else
                  (if bool_decide (child ≠ 0) then ext2fs_rb_set_parent child parent
                   else mret tt) ;;
                  store (rb_left parent) child ;;
                  old_right ← load (rb_right old);
                  store (rb_right s) old_right ;;
                  old_right ← load (rb_right old);
                  ext2fs_rb_set_parent old_right s ;;
                  mret parent);
      K child parent color) Φ.
Proof.
  iIntros (Hkl t) "Hold Ht HΦ".
  iDestruct (node_at_facts with "Hold") as %[[??] ?].
  rewrite /t tree_at_plug. destruct kl as [|[[] c1 a1 s1] kl].
  3: { simpl in Hkl. by destruct (app_eq_nil _ _ Hkl) as [_ [_ [=]]%app_eq_nil]. }
  - simpl. iDestruct "Ht" as "(_ & Hs & _ & Hr)".
    change (rb_right s) with (child R s). rb_steps.
    rewrite bool_decide_eq_true_2 //. rb_steps.
    iApply ("HΦ" with "Hold Hs Hr").
  - iDestruct "Ht" as "((Ha1 & Hs1 & Hseg) & Hs & _ & Hr)". fold seg_at.
    change (rb_right s) with (child R s). change (rb_right old) with (child R old).
    change (rb_left ?x) with (child L x). rb_steps.
    iDestruct (node_at_ne with "Ha1 Hold") as %Hne.
    iDestruct (node_at_facts with "Hs") as %[[??] ?].
    rewrite (bool_decide_eq_false_2 (a1 = old)) //.
    wp_apply (wp_set_parent_opt with "Hr"); [done|]. iIntros "Hr".
    cbn [f_addr]. change (rb_left a1) with (child L a1). rb_steps.
    rewrite (ptr_plug _ _ (Node cs Leaf s r) r).
    wp_apply (wp_set_parent_tree old s (plug (Frame L c1 a1 s1 :: kl) r)
      with "[Ha1 Hs1 Hseg Hr]"); [done|by apply (plug_nonleaf kl (mk L c1 r a1 s1))| |].
    { rewrite tree_at_plug. simpl. iFrame. }
    iIntros "Ht". rb_steps. iApply ("HΦ" with "Hold Hs Ht").
Qed.

Lemma erase_two_children root k c l n r :
  l ≠ Leaf → r ≠ Leaf → rb_inv (plug k (Node c l n r)) →
  ⦃ ctx_at root k n ∗ node_at L n (ctx_ptr k) c (ptr l) (ptr r) ∗
    tree_at n l ∗ tree_at n r ⦄
    ext2fs_rb_erase n root
  ⦃ v, ∃ t', ⌜rb_inv t' ∧
         inorder t' = ctx_before k ++ inorder l ++ inorder r ++ ctx_after k⌝ ∗
       root_at root t' ∗ node_cells n ⦄.
Proof.
  iIntros (Hl Hr Hinv Φ) "(Hk & Hn & Hl & Hr) HΦ".
  iDestruct (tree_at_nonnull with "Hl") as %Hl0; [done|].
  iDestruct (tree_at_nonnull with "Hr") as %Hr0; [done|].
  iDestruct (ctx_at_sib_ne with "Hk Hn") as %Hne.
  unfold ext2fs_rb_erase.
  change (rb_left n) with (child L n). change (rb_right n) with (child R n).
  rb_steps. rewrite bool_decide_eq_true_2 //. rb_steps.
  wp_apply (go_leftmost_spec with "Hr"); [done|]. iIntros (s xs Hxs) "Hr".
  destruct (inorder_first r s xs Hxs) as (kl & cs & sr & -> & Hkl & ->). rb_steps.
  wp_apply (wp_change_child_sym L with "Hk"); [done|]. iIntros "Hk".
  change (rb_left s) with (child L s).
  iApply (erase_detach_spec with "Hn Hr"); [done|]. iIntros (x) "Hn Hs Hr".
  iDestruct "Hn" as "(%Hn & Hpc & Hnl & Hnr)".
  iDestruct "Hs" as "(%Hs & Hspc & Hsl & Hsr)". wp_steps.
  wp_apply (wp_set_parent_tree n s with "Hl"); [tauto|done|]. iIntros "Hl".
  (* the successor is in place: finish in its context *)
  set (K := kl ++ Frame R c s l :: k).
  assert (ctx_before K = ctx_before k ++ inorder l ++ [s]) as HK.
  { by rewrite /K ctx_before_app Hkl right_id_L. }
  assert (∃ h, is_rb cs h (Node cs Leaf s sr) ∧ ctx_rb K cs h) as (h & Hrb & Hctx).
  { change (plug k (Node c l n (plug kl (Node cs Leaf s sr)))) with
      (plug (Frame R c n l :: k) (plug kl (Node cs Leaf s sr))) in Hinv.
    rewrite -plug_app in Hinv.
    destruct (rb_inv_unplug _ _ Hinv) as (c' & h & Hrb & Hctx).
    assert (c' = cs) as -> by by inversion Hrb.
    exists h. split; [done|]. by eapply ctx_rb_relabel. }
  iAssert (ctx_at root K (ptr sr) ∗ tree_at (ctx_ptr K) sr)%I
    with "[Hk Hspc Hsl Hsr Hl Hr]" as "[Hk Hr]".
  { rewrite -root_at_plug /K plug_app root_at_plug. simpl. iFrame.
    iPureIntro; tauto. }
  replace (match kl with [] => s | f :: _ => f_addr f end) with (ctx_ptr K)
    by by destruct kl.
  iApply (erase_finish_spec root K cs h sr s with "[$Hk $Hr]"); [done..|].
  iIntros (v) "(%t' & (% & %Ht') & H)". iApply "HΦ". iExists t'. iFrame "H".
  rewrite !pointsto_owns. iFrame. iPureIntro. split; [|tauto]. split; [done|].
  rewrite Ht' inorder_plug HK inorder_plug Hkl /K ctx_after_app. solve_inorder.
Qed.

Lemma erase_spec root t l1 n l2 :
  rb_inv t → inorder t = l1 ++ n :: l2 →
  ⦃ root_at root t ⦄
    ext2fs_rb_erase n root
  ⦃ v, ∃ t', ⌜rb_inv t' ∧ inorder t' = l1 ++ l2⌝ ∗ root_at root t' ∗ node_cells n ⦄.
Proof.
  iIntros (Hinv Hin Φ) "H HΦ".
  destruct (inorder_split _ _ _ _ Hin) as (k & c & l & r & -> & -> & ->).
  rewrite root_at_plug. simpl. iDestruct "H" as "(Hk & Hn & Hl & Hr)".
  destruct (decide (l = Leaf)) as [->|Hl]; [|destruct (decide (r = Leaf)) as [->|Hr]].
  - unfold ext2fs_rb_erase.
    change (rb_left n) with (child L n). change (rb_right n) with (child R n).
    rb_steps. rewrite bool_decide_eq_false_2; [|simpl; tauto]. simpl.
    iApply (erase_one_child root k L with "[$Hk $Hn $Hr]"); [done|].
    iIntros (v) "(%t' & (% & %Ht') & H)". iApply "HΦ". iExists t'. iFrame.
    iPureIntro. split; [done|]. by rewrite Ht' inorder_plug right_id_L.
  - unfold ext2fs_rb_erase.
    iDestruct (tree_at_nonnull with "Hl") as %Hl0; [done|].
    change (rb_left n) with (child L n). change (rb_right n) with (child R n).
    rb_steps. rewrite bool_decide_eq_false_2; [|simpl; tauto].
    rewrite bool_decide_eq_false_2 //. rewrite (node_at_flip L).
    iApply (erase_one_child root k R with "[$Hk $Hn $Hl]"); [done|].
    iIntros (v) "(%t' & (% & %Ht') & H)". iApply "HΦ". iExists t'. iFrame.
    iPureIntro. split; [done|]. rewrite Ht' inorder_plug. solve_inorder.
  - iApply (erase_two_children with "[$Hk $Hn $Hl $Hr]"); [done..|].
    iIntros (v) "(%t' & (% & %Ht') & H)". iApply "HΦ". iExists t'. iFrame.
    iPureIntro. split; [done|]. rewrite Ht'. solve_inorder.
Qed.
End erase.

(** ** Traversal *)

(** [ext2fs_rb_next] and [ext2fs_rb_prev], as one. *)
Definition rb_walk (d : side) (node : Z) : M Z :=
  p ← ext2fs_rb_parent node;
  if bool_decide (p = node) then mret 0 else
  down ← load (child d node);
  if bool_decide (down ≠ 0) then
    node ← load (child d node);
    go_side (flip d) node
  else
    loop (λ node,
      parent ← ext2fs_rb_parent node;
      if bool_decide (parent = 0) then break_ parent else
      down ← load (child d parent);
      if bool_decide (node = down) then continue_ parent
      else break_ parent) node.

Lemma rb_next_eq : ext2fs_rb_next = rb_walk R.
Proof. reflexivity. Qed.

Lemma rb_prev_eq : ext2fs_rb_prev = rb_walk L.
Proof. reflexivity. Qed.

(** A possibly null pointer. *)
Definition opt_ptr (o : option Z) : Z := default 0 o.

Section traversal.
Context {ML : Malloc}.

(** The addresses beyond the hole on one side. *)
Definition ctx_beyond (d : side) (k : ctx) : list Z :=
  match d with R => ctx_after k | L => ctx_before k end.

Lemma walk_up_spec d root k t Φ :
  t ≠ Leaf →
  ctx_at root k (ptr t) -∗ tree_at (ctx_ptr k) t -∗
  (ctx_at root k (ptr t) -∗ tree_at (ctx_ptr k) t -∗
   Φ (opt_ptr (end_of (flip d) (ctx_beyond d k)))) -∗
  wp (loop (λ node,
    parent ← ext2fs_rb_parent node;
    if bool_decide (parent = 0) then break_ parent else
    down ← load (child d parent);
    if bool_decide (node = down) then continue_ parent
    else break_ parent) (ptr t)) Φ.
Proof.
  revert t Φ. induction k as [|[d' c a s] k IH]; intros t Φ;
    iIntros (Hne) "Hk Ht HΦ"; iApply wp_loop;
    (destruct t as [|ct l b r]; [done|]); iDestruct "Ht" as "(Hb & Hl & Hr)".
  - simpl. rb_steps. simpl. rb_steps.
    replace (opt_ptr (end_of (flip d) (ctx_beyond d []))) with 0 by by destruct d.
    iApply ("HΦ" with "Hk"). iFrame.
  - simpl. iDestruct "Hk" as "(Ha & Hs & Hk)". rb_steps.
    iDestruct (node_at_facts with "Ha") as %[[??] ?].
    rewrite bool_decide_eq_false_2; [|lia].
    destruct (decide (d' = d)) as [->|Hd].
    + rb_steps. rewrite bool_decide_eq_true_2 //. rb_steps.
      pose proof (IH (mk d c (Node ct l b r) a s) Φ) as IH'. rewrite ptr_mk in IH'.
      iApply (IH' with "Hk [Ha Hb Hl Hr Hs]"); [by destruct d|rewrite tree_at_mk; iFrame|].
      iIntros "Hk H". rewrite tree_at_mk. iDestruct "H" as "(Ha & (Hb & Hl & Hr) & Hs)".
      replace (opt_ptr (end_of (flip d) (ctx_beyond d (Frame d c a s :: k))))
        with (opt_ptr (end_of (flip d) (ctx_beyond d k))) by by destruct d.
      iApply ("HΦ" with "[Ha Hs Hk]"); iFrame.
    + assert (d' = flip d) as -> by by destruct d, d'.
      iAssert ⌜ptr s ≠ b⌝%I as %Hsb.
      { iApply (tree_at_ptr_ne with "Hs Hb"). }
      rewrite node_at_unflip. rb_steps. rewrite bool_decide_eq_false_2 //. rb_steps.
      rewrite (node_at_flip d).
      replace (opt_ptr (end_of (flip d) (ctx_beyond d (Frame (flip d) c a s :: k))))
        with a; [|destruct d; simpl; by rewrite ?app_assoc ?last_snoc].
      iApply ("HΦ" with "[Ha Hs Hk]"); iFrame.
Qed.

Lemma ctx_at_ptr_ne root k p d a par c l r :
  ctx_at root k p -∗ node_at d a par c l r -∗ ⌜ctx_ptr k ≠ a⌝.
Proof.
  iIntros "Hk Ha". destruct k as [|[d0 c0 b s] k]; simpl.
  - iDestruct (node_at_facts with "Ha") as %[[??] ?]. iPureIntro. lia.
  - iDestruct "Hk" as "(Hb & _)". iApply (node_at_ne with "Hb Ha").
Qed.

Lemma rb_walk_spec d root k c l n r :
  ⦃ root_at root (plug k (mk d c l n r)) ⦄
    rb_walk d n
  ⦃ v, ⌜v = opt_ptr (end_of (flip d)
          (match d with R => inorder l ++ ctx_after k | L => ctx_before k ++ inorder l end))⌝ ∗
       root_at root (plug k (mk d c l n r)) ⦄.
Proof.
  iIntros (Φ) "H HΦ". rewrite {1}root_at_plug {1}tree_at_mk ptr_mk.
  iDestruct "H" as "(Hk & Hn & Hl & Hr)".
  iDestruct (ctx_at_ptr_ne with "Hk Hn") as %Hne.
  unfold rb_walk. rb_steps. rewrite bool_decide_eq_false_2 //. rb_steps.
  case_bool_decide as Hl0.
  - rb_steps. iApply (go_side_spec with "Hl"); [by intros ->|].
    iIntros (s Hs) "Hl". iApply "HΦ". rewrite root_at_plug tree_at_mk ptr_mk.
    iFrame. iPureIntro. destruct d; simpl in *.
    + by rewrite last_app Hs.
    + by rewrite head_app Hs.
  - iDestruct (tree_at_null with "Hl") as %->; [lia|].
    pose proof (walk_up_spec d root k (mk d c Leaf n r)) as Hup.
    rewrite ptr_mk in Hup. iApply (Hup with "Hk [Hn Hl Hr]"); [by destruct d| |].
    { rewrite tree_at_mk. iFrame. }
    iIntros "Hk H". rewrite tree_at_mk. iDestruct "H" as "(Hn & Hl & Hr)".
    iApply "HΦ". rewrite root_at_plug tree_at_mk ptr_mk. iFrame.
    iPureIntro. destruct d; simpl; [by rewrite right_id_L|done].
Qed.

Lemma rb_next_spec root t l1 n l2 :
  inorder t = l1 ++ n :: l2 →
  ⦃ root_at root t ⦄ ext2fs_rb_next n
  ⦃ v, ⌜v = opt_ptr (head l2)⌝ ∗ root_at root t ⦄.
Proof.
  iIntros (Hin Φ) "H HΦ". rewrite rb_next_eq.
  destruct (inorder_split _ _ _ _ Hin) as (k & c & l & r & -> & -> & ->).
  by iApply (rb_walk_spec R _ _ _ r _ l with "H").
Qed.

Lemma rb_prev_spec root t l1 n l2 :
  inorder t = l1 ++ n :: l2 →
  ⦃ root_at root t ⦄ ext2fs_rb_prev n
  ⦃ v, ⌜v = opt_ptr (last l1)⌝ ∗ root_at root t ⦄.
Proof.
  iIntros (Hin Φ) "H HΦ". rewrite rb_prev_eq.
  destruct (inorder_split _ _ _ _ Hin) as (k & c & l & r & -> & -> & ->).
  by iApply (rb_walk_spec L _ _ _ l _ r with "H").
Qed.

(** [ext2fs_rb_first] and [ext2fs_rb_last], as one. *)
Lemma rb_end_spec d root t :
  ⦃ root_at root t ⦄
    n ← load (rb_node root);
    if bool_decide (n = 0) then mret 0 else go_side d n
  ⦃ v, ⌜v = opt_ptr (end_of d (inorder t))⌝ ∗ root_at root t ⦄.
Proof.
  iIntros (Φ) "[Htop Ht] HΦ". wp_load. case_bool_decide as H0.
  - iDestruct (tree_at_null with "Ht") as %->; [done|]. wp_steps.
    iApply "HΦ". iFrame. by destruct d.
  - iApply (go_side_spec with "Ht"); [by intros ->|]. iIntros (s Hs) "Ht".
    iApply "HΦ". iFrame. by rewrite Hs.
Qed.

Lemma rb_first_spec root t :
  ⦃ root_at root t ⦄ ext2fs_rb_first root
  ⦃ v, ⌜v = opt_ptr (head (inorder t))⌝ ∗ root_at root t ⦄.
Proof. apply (rb_end_spec L). Qed.

Lemma rb_last_spec root t :
  ⦃ root_at root t ⦄ ext2fs_rb_last root
  ⦃ v, ⌜v = opt_ptr (last (inorder t))⌝ ∗ root_at root t ⦄.
Proof. apply (rb_end_spec R). Qed.

(** ** Replacement *)
Lemma replace_node_spec root t l1 n l2 m :
  rb_inv t → inorder t = l1 ++ n :: l2 →
  ⦃ root_at root t ∗ node_cells m ⦄
    ext2fs_rb_replace_node n m root
  ⦃ v, ∃ t', ⌜rb_inv t' ∧ inorder t' = l1 ++ m :: l2⌝ ∗ root_at root t' ∗ node_cells n ⦄.
Proof.
  iIntros (Hinv Hin Φ) "(H & (%Hm & Hmpc & Hmr & Hml)) HΦ".
  destruct (inorder_split _ _ _ _ Hin) as (k & c & l & r & -> & -> & ->).
  rewrite root_at_plug. simpl. iDestruct "H" as "(Hk & Hn & Hl & Hr)".
  iDestruct (ctx_at_sib_ne with "Hk Hn") as %Hne.
  unfold ext2fs_rb_replace_node.
  change (rb_left n) with (child L n). change (rb_right n) with (child R n). rb_steps.
  wp_apply (wp_change_child L with "Hk"); [done|]. iIntros "Hk". rb_steps.
  assert (∀ d par u v Ψ,
    node_at d n par c (ptr u) v -∗ tree_at n u -∗
    (node_at d n par c (ptr u) v -∗ tree_at m u -∗ Ψ tt) -∗
    wp (if bool_decide (ptr u ≠ 0) then
          x ← load (child d n); ext2fs_rb_set_parent x m else mret tt) Ψ) as Hset.
  { iIntros (d par u v Ψ) "Hn Hu HΨ". case_bool_decide as Hu.
    - rb_steps. iApply (wp_set_parent_tree with "Hu"); [tauto|by intros ->|].
      iIntros "Hu". iApply ("HΨ" with "Hn Hu").
    - iDestruct (tree_at_null with "Hu") as %->; [lia|]. wp_steps. by iApply ("HΨ" with "Hn"). }
  iApply (Hset with "Hn Hl"). iIntros "Hn Hl". rb_steps.
  rewrite (node_at_flip L). iApply (Hset with "Hn Hr"). iIntros "Hn Hr".
  iDestruct "Hn" as "(%Hn & Hpc & Hnr & Hnl)". simpl. wp_steps.
  iApply "HΦ". iExists (plug k (Node c l m r)). iSplitR.
  { iPureIntro. split.
    - destruct (rb_inv_unplug _ _ Hinv) as (c' & h & Hrb & Hctx).
      apply (is_rb_plug _ c' h); [|done]. inversion Hrb; subst; eauto with rb.
    - rewrite inorder_plug. solve_inorder. }
  iSplitR "Hpc Hnr Hnl".
  - rewrite root_at_plug /=. iFrame. iPureIntro. tauto.
  - rewrite !pointsto_owns. iFrame. iPureIntro. tauto.
Qed.
End traversal.

(** ** The functions on concrete memory

    A tree laid out in memory: the nodes are at fixed addresses, and the
    functions run on it. *)
Definition put_node (a par : Z) (c : color) (l r : Z) (h : heap) : heap :=
  <[rb_parent_color a := Val (pc_word par c)]>
    (<[rb_right a := Val r]> (<[rb_left a := Val l]> h)).

Fixpoint put_tree (par : Z) (t : rbtree) (h : heap) : heap :=
  match t with
  | Leaf => h
  | Node c l a r => put_node a par c (ptr l) (ptr r) (put_tree a l (put_tree a r h))
  end.

Definition tree_heap (root : Z) (t : rbtree) : heap :=
  <[rb_node root := Val (ptr t)]> (put_tree 0 t ∅).

(** The addresses a traversal with [ext2fs_rb_first] and [ext2fs_rb_next]
    meets. *)
Definition traverse (root : Z) : M (list Z) :=
  n ← ext2fs_rb_first root;
  loop (λ st : Z * list Z,
    if bool_decide (st.1 = 0) then break_ (rev st.2) else
    next ← ext2fs_rb_next st.1;
    continue_ (next, st.1 :: st.2)) (n, []).

(** The nodes of [t] can be placed in [h] without overlap. *)
Fixpoint tree_fits (par : Z) (t : rbtree) (h : heap) : bool :=
  match t with
  | Leaf => true
  | Node c l a r =>
      let hr := put_tree a r h in
      let hl := put_tree a l hr in
      tree_fits a r h && tree_fits a l hr &&
      bool_decide (0 < a ∧ a mod 4 = 0 ∧ par mod 4 = 0) &&
      bool_decide (hl !! rb_left a = None ∧ hl !! rb_right a = None ∧
                   hl !! rb_parent_color a = None)
  end.

Lemma put_tree_holds par t (P : hProp) h :
  tree_fits par t h = true → P h → (tree_at par t ∗ P)%I (put_tree par t h).
Proof.
  revert par P h. induction t as [|c l IHl a r IHr]; intros par P h Hfit HP; cbn [tree_fits put_tree tree_at] in *.
  { refine (entails_holds _ _ _ _ HP). iIntros "$". }
  apply andb_true_iff in Hfit as [Hfit (Hl & Hr & Hp)%bool_decide_eq_true].
  apply andb_true_iff in Hfit as [Hfit Hpure%bool_decide_eq_true].
  apply andb_true_iff in Hfit as [Hfr Hfl].
  specialize (IHr a P h Hfr HP). specialize (IHl a _ _ Hfl IHr).
  assert ((rb_parent_color a ↦ pc_word par c ∗ rb_right a ↦ ptr r ∗ rb_left a ↦ ptr l ∗
    tree_at a l ∗ tree_at a r ∗ P)%I
    (put_node a par c (ptr l) (ptr r) (put_tree a l (put_tree a r h)))) as Hall.
  { unfold put_node. repeat apply pointsto_insert; [..|exact IHl].
    - rewrite !lookup_insert_ne; [done|unfold rb_left, rb_parent_color; lia
        |unfold rb_right, rb_parent_color; lia].
    - rewrite lookup_insert_ne; [done|unfold rb_left, rb_right; lia].
    - done. }
  refine (entails_holds _ _ _ _ Hall). iIntros "(Hpc & Hr & Hl & $ & $ & $)".
  unfold node_at. simpl. iFrame. iPureIntro. unfold aligned. tauto.
Qed.

Lemma tree_heap_holds root t :
  tree_fits 0 t ∅ && bool_decide (put_tree 0 t ∅ !! rb_node root = None) = true →
  root_at root t (tree_heap root t).
Proof.
  intros [Hfit Hroot%bool_decide_eq_true]%andb_true_iff.
  unfold root_at, tree_heap. apply pointsto_insert; [done|].
  pose proof (put_tree_holds 0 t emp%I ∅ Hfit I) as Ht.
  refine (entails_holds _ _ _ _ Ht). iIntros "[$ _]".
Qed.

Definition sample_tree : rbtree :=
  Node Black (Node Black Leaf 32 Leaf) 64 (Node Black Leaf 96 (Node Red Leaf 128 Leaf)).

Lemma sample_tree_inv : rb_inv sample_tree.
Proof. exists 2%nat. unfold sample_tree. eauto 10 with rb. Qed.

(** What [traverse] sees, as a boolean to be evaluated. *)
Definition traverses_to (r : res (list Z)) (xs : list Z) : bool :=
  match r with Ok ys _ => bool_decide (ys = xs) | _ => false end.

Example traverse_sample :
  traverses_to (traverse 16 20%nat (tree_heap 16 sample_tree)) [32; 64; 96; 128] = true.
Proof. vm_compute. reflexivity. Qed.

Example erase_sample :
  traverses_to ((ext2fs_rb_erase 64 16 ;; traverse 16) 20%nat (tree_heap 16 sample_tree))
    [32; 96; 128] = true.
Proof. vm_compute. reflexivity. Qed.

Lemma sample_tree_at : root_at 16 sample_tree (tree_heap 16 sample_tree).
Proof. apply tree_heap_holds. vm_compute. reflexivity. Qed.

(** ** Properties *)

(** C16: Linking a node into an empty slot of a tree and recolouring touches only
    the tree and the node, terminates, and leaves a balanced tree whose in-order
    sequence has the node exactly at the slot. *)
Theorem rb_insert_correct `{ML : Malloc} root k n :
  rb_inv (plug k Leaf) →
  hoare (ctx_at root k 0 ∗ node_cells n)
    (ext2fs_rb_link_node n (ctx_ptr k) (ctx_slot root k) ;;
     ext2fs_rb_insert_color n root)
    (λ _, ∃ t, ⌜rb_inv t ∧ inorder t = ctx_before k ++ n :: ctx_after k⌝ ∗
       root_at root t)%I.
Proof. intros Hinv. by apply triple_hoare, link_insert_spec. Qed.

(** The slot to the right of 128 in [sample_tree]: its parent is red. *)
Definition sample_slot : ctx :=
  [Frame R Red 128 Leaf; Frame R Black 96 Leaf;
   Frame R Black 64 (Node Black Leaf 32 Leaf)].

Definition sample_slot_heap : heap :=
  alloc_cells 256 8 3 (tree_heap 16 sample_tree).

Lemma sample_slot_at :
  (ctx_at 16 sample_slot 0 ∗ node_cells 256)%I sample_slot_heap.
Proof.
  assert (Hh : sample_slot_heap !! 256 = Some Undef ∧ sample_slot_heap !! 264 = Some Undef ∧
    sample_slot_heap !! 272 = Some Undef) by (split_and!; vm_compute; reflexivity).
  assert (Hc : (root_at 16 sample_tree ∗ owns_block 256 8 3)%I sample_slot_heap).
  { exists (tree_heap 16 sample_tree), (alloc_cells 256 8 3 ∅). split_and!.
    - apply map_disjoint_spec. intros a c1 c2 H1 H2.
      destruct (alloc_cells_Some 256 8 3 a) as (i & Hi & ->); [by eexists|].
      revert H1. assert (i = 0 ∨ i = 1 ∨ i = 2) as [-> | [-> | ->]] by lia;
        vm_compute; discriminate.
    - unfold sample_slot_heap. rewrite alloc_cells_union map_union_comm; [done|].
      apply map_disjoint_spec. intros a c1 c2 H2 H1.
      destruct (alloc_cells_Some 256 8 3 a) as (i & Hi & ->); [by eexists|].
      revert H1. assert (i = 0 ∨ i = 1 ∨ i = 2) as [-> | [-> | ->]] by lia;
        vm_compute; discriminate.
    - apply sample_tree_at.
    - by apply owns_block_alloc. }
  refine (entails_holds _ _ _ _ Hc).
  change sample_tree with (plug sample_slot Leaf). rewrite root_at_plug /=.
  iIntros "[[$ _] ($ & $ & $ & _)]". done.
Qed.

Lemma rb_insert_witness :
  rb_inv (plug sample_slot Leaf) ∧
  (ctx_at 16 sample_slot 0 ∗ node_cells 256)%I sample_slot_heap ∧
  hoare (ML := bump_malloc) (ctx_at 16 sample_slot 0 ∗ node_cells 256)
    (ext2fs_rb_link_node 256 128 (128 + 8) ;; ext2fs_rb_insert_color 256 16)
    (λ _, ∃ t, ⌜rb_inv t ∧ inorder t = [32; 64; 96; 128; 256]⌝ ∗ root_at 16 t)%I.
Proof.
  split; [exact sample_tree_inv|]. split; [exact sample_slot_at|].
  exact (rb_insert_correct (ML := bump_malloc) 16 sample_slot 256 sample_tree_inv).
Defined.

(** C15: [ext2fs_rb_erase] takes the given node out of the tree: the sequence of the
    other nodes is kept, the tree is balanced again, and the node's memory is
    returned to the caller. *)
Theorem rb_erase_correct `{ML : Malloc} root t l1 n l2 :
  rb_inv t → inorder t = l1 ++ n :: l2 →
  hoare (root_at root t) (ext2fs_rb_erase n root)
    (λ _, ∃ t', ⌜rb_inv t' ∧ inorder t' = l1 ++ l2⌝ ∗ root_at root t' ∗ node_cells n)%I.
Proof. intros Hinv Hin. by apply triple_hoare, erase_spec. Qed.

Lemma rb_erase_witness :
  root_at 16 sample_tree (tree_heap 16 sample_tree) ∧
  hoare (ML := bump_malloc) (root_at 16 sample_tree) (ext2fs_rb_erase 64 16)
    (λ _, ∃ t', ⌜rb_inv t' ∧ inorder t' = [32; 96; 128]⌝ ∗ root_at 16 t' ∗ node_cells 64)%I.
Proof.
  split; [exact sample_tree_at|].
  exact (rb_erase_correct (ML := bump_malloc) 16 sample_tree [32] 64 [96; 128]
    sample_tree_inv eq_refl).
Defined.

(** [ext2fs_rb_next] returns the next node in order, NULL after the last, and
    [ext2fs_rb_prev] the previous one; neither changes the tree. *)
Theorem rb_next_prev_correct `{ML : Malloc} root t l1 n l2 :
  inorder t = l1 ++ n :: l2 →
  hoare (root_at root t)
    (next ← ext2fs_rb_next n; prev ← ext2fs_rb_prev n; mret (next, prev))
    (λ v, ⌜v = (opt_ptr (head l2), opt_ptr (last l1))⌝ ∗ root_at root t)%I.
Proof.
  intros Hin. apply wp_adequate. iIntros "H".
  wp_apply (rb_next_spec with "H"); [done|]. iIntros (v) "[-> H]".
  wp_apply (rb_prev_spec with "H"); [done|]. iIntros (v) "[-> H]". wp_steps. by iFrame.
Qed.

Lemma rb_next_prev_witness :
  root_at 16 sample_tree (tree_heap 16 sample_tree) ∧
  hoare (ML := bump_malloc) (root_at 16 sample_tree)
    (next ← ext2fs_rb_next 96; prev ← ext2fs_rb_prev 96; mret (next, prev))
    (λ v, ⌜v = (128, 64)⌝ ∗ root_at 16 sample_tree)%I.
Proof.
  split; [exact sample_tree_at|].
  exact (rb_next_prev_correct (ML := bump_malloc) 16 sample_tree [32; 64] 96 [128] eq_refl).
Defined.

(** [ext2fs_rb_replace_node] puts a new node in the victim's place: same
    balance, same order of the others. *)
Theorem rb_replace_correct `{ML : Malloc} root t l1 n l2 m :
  rb_inv t → inorder t = l1 ++ n :: l2 →
  hoare (root_at root t ∗ node_cells m) (ext2fs_rb_replace_node n m root)
    (λ _, ∃ t', ⌜rb_inv t' ∧ inorder t' = l1 ++ m :: l2⌝ ∗ root_at root t' ∗ node_cells n)%I.
Proof. intros Hinv Hin. by apply triple_hoare, replace_node_spec. Qed.

Lemma rb_replace_witness :
  rb_inv sample_tree ∧
  hoare (ML := bump_malloc) (root_at 16 sample_tree ∗ node_cells 256)
    (ext2fs_rb_replace_node 64 256 16)
    (λ _, ∃ t', ⌜rb_inv t' ∧ inorder t' = [32; 256; 96; 128]⌝ ∗ root_at 16 t' ∗ node_cells 64)%I.
Proof.
  split; [exact sample_tree_inv|].
  exact (rb_replace_correct (ML := bump_malloc) 16 sample_tree [32] 64 [96; 128] 256
    sample_tree_inv eq_refl).
Defined.
