(* ===== verification/BitOps.v ===== *)
(** * BitOps: lib/ext2fs/bitops.c and the inline functions of bitops.h

    Bits in byte arrays.  [bits_at p n B] says that the [n] bytes at [p] hold
    exactly the set [B] of bits, bit [i] being bit [i mod 8] of byte [i / 8];
    the theorems state each function on such sets. *)
From S2P Require Import Prelude.
From S2P Require Import Mem.
From S2P Require Import SepLogic.
From S2P Require Import ExtMem.
#[local] Open Scope Z_scope.

(** ** The functions *)

(** [1 << (nr & 0x07)] *)
Definition bit_mask (nr : Z) : Z := Z.shiftl 1 (Z.land nr 7).

Definition ext2fs_set_bit64 (nr addr : Z) : M Z :=
  let ADDR := addr + Z.shiftr nr 3 in
  let mask := bit_mask nr in
  b ← load ADDR;
  let retval := Z.land mask b in
  store ADDR (u8 (Z.lor b mask)) ;;
  mret retval.

Definition ext2fs_clear_bit64 (nr addr : Z) : M Z :=
  let ADDR := addr + Z.shiftr nr 3 in
  let mask := bit_mask nr in
  b ← load ADDR;
  let retval := Z.land mask b in
  store ADDR (u8 (Z.land b (Z.lnot mask))) ;;
  mret retval.

Definition ext2fs_test_bit64 (nr addr : Z) : M Z :=
  let ADDR := addr + Z.shiftr nr 3 in
  let mask := bit_mask nr in
  b ← load ADDR;
  mret (Z.land mask b).

(** The 32-bit functions: the same, on an [unsigned int]. *)
Definition ext2fs_set_bit (nr addr : Z) : M Z :=
  let ADDR := addr + Z.shiftr nr 3 in
  let mask := bit_mask nr in
  b ← load ADDR;
  let retval := Z.land mask b in
  store ADDR (u8 (Z.lor b mask)) ;;
  mret retval.

Definition ext2fs_clear_bit (nr addr : Z) : M Z :=
  let ADDR := addr + Z.shiftr nr 3 in
  let mask := bit_mask nr in
  b ← load ADDR;
  let retval := Z.land mask b in
  store ADDR (u8 (Z.land b (Z.lnot mask))) ;;
  mret retval.

Definition ext2fs_test_bit (nr addr : Z) : M Z :=
  let ADDR := addr + Z.shiftr nr 3 in
  let mask := bit_mask nr in
  b ← load ADDR;
  mret (Z.land mask b).

Definition ext2fs_fast_set_bit64 (nr addr : Z) : M unit :=
  let ADDR := addr + Z.shiftr nr 3 in
  b ← load ADDR;
  store ADDR (u8 (Z.lor b (u8 (bit_mask nr)))).

Definition ext2fs_fast_clear_bit64 (nr addr : Z) : M unit :=
  let ADDR := addr + Z.shiftr nr 3 in
  b ← load ADDR;
  store ADDR (u8 (Z.land b (u8 (Z.lnot (bit_mask nr))))).

Definition ext2fs_fast_set_bit (nr addr : Z) : M unit :=
  let ADDR := addr + Z.shiftr nr 3 in
  b ← load ADDR;
  store ADDR (u8 (Z.lor b (u8 (bit_mask nr)))).

Definition ext2fs_fast_clear_bit (nr addr : Z) : M unit :=
  let ADDR := addr + Z.shiftr nr 3 in
  b ← load ADDR;
  store ADDR (u8 (Z.land b (u8 (Z.lnot (bit_mask nr))))).

(** ** Bytes *)
Lemma byte_testbit_high b i : 0 ≤ b < 256 → 8 ≤ i → Z.testbit b i = false.
Proof.
  intros Hb Hi. rewrite -(Z.mod_small b (2^8)); [|done].
  apply Z.mod_pow2_bits_high. lia.
Qed.

Lemma u8_testbit x i : 0 ≤ i < 8 → Z.testbit (u8 x) i = Z.testbit x i.
Proof. intros. unfold u8. apply Z.mod_pow2_bits_low. lia. Qed.

Lemma shiftr3 nr : Z.shiftr nr 3 = nr / 8.
Proof. by rewrite Z.shiftr_div_pow2. Qed.

Lemma land7 nr : Z.land nr 7 = nr mod 8.
Proof. change 7 with (Z.ones 3). by rewrite Z.land_ones. Qed.

Lemma bit_mask_testbit nr i :
  0 ≤ i → Z.testbit (bit_mask nr) i = bool_decide (i = nr mod 8).
Proof.
  intros Hi. unfold bit_mask. rewrite land7 Z.shiftl_1_l.
  rewrite Z.pow2_bits_eqb; [|by apply Z.mod_pos_bound].
  case_bool_decide; lia.
Qed.

(** [mask & b] is the mask if the bit is set and 0 otherwise. *)
Lemma mask_land nr b :
  Z.land (bit_mask nr) b = if Z.testbit b (nr mod 8) then 2 ^ (nr mod 8) else 0.
Proof.
  unfold bit_mask. rewrite land7 Z.shiftl_1_l.
  pose proof (Z.mod_pos_bound nr 8 eq_refl) as Hm.
  apply Z.bits_inj'. intros i Hi. rewrite Z.land_spec Z.pow2_bits_eqb; [|lia].
  destruct (Z.eqb_spec (nr mod 8) i) as [<-|Hne]; simpl.
  - destruct (Z.testbit b (nr mod 8)); [by rewrite Z.pow2_bits_true; [|lia]|by rewrite Z.bits_0].
  - destruct (Z.testbit b (nr mod 8)); [by rewrite Z.pow2_bits_false|by rewrite Z.bits_0].
Qed.

(** ** Sets of bits in memory *)

(** The bytes [bs] hold the bits [B]. *)
Definition bytes_bits (bs : list Z) (B : gset Z) : Prop :=
  Forall (λ b, 0 ≤ b < 256) bs ∧
  (∀ x, x ∈ B → 0 ≤ x < 8 * Z.of_nat (length bs)) ∧
  ∀ j b i, bs !! j = Some b → 0 ≤ i < 8 →
    (Z.testbit b i = true ↔ 8 * Z.of_nat j + i ∈ B).

Definition bits_at (p : Z) (n : nat) (B : gset Z) : hProp :=
  ∃ bs, ⌜length bs = n ∧ bytes_bits bs B⌝ ∗ array_at p 1 bs.

Lemma bits_at_range p n B x : x ∈ B → bits_at p n B ⊢ ⌜0 ≤ x < 8 * Z.of_nat n⌝.
Proof. iIntros (Hx) "(%bs & (<- & _ & %Hr & _) & _)". iPureIntro. auto. Qed.

(** One byte of a bit array, and putting another one in its place. *)
Lemma bits_at_byte p n B k :
  0 ≤ k < Z.of_nat n →
  bits_at p n B ⊢ ∃ b,
    ⌜0 ≤ b < 256 ∧ ∀ i, 0 ≤ i < 8 → (Z.testbit b i = true ↔ (8 * k + i)%Z ∈ B)⌝ ∗
    (p + k) ↦ b ∗
    (∀ b' B', ⌜0 ≤ b' < 256 ∧
        (∀ i, 0 ≤ i < 8 → (Z.testbit b' i = true ↔ (8 * k + i)%Z ∈ B')) ∧
        (∀ x, ¬ (8 * k ≤ x < 8 * k + 8)%Z → (x ∈ B' ↔ x ∈ B))⌝ -∗
       (p + k) ↦ b' -∗ bits_at p n B').
Proof.
  iIntros (Hk) "(%bs & (%Hlen & %Hby & %Hr & %HB) & H)".
  set (j := Z.to_nat k). assert (Z.of_nat j = k) as Hj by lia.
  destruct (lookup_lt_is_Some_2 bs j) as [b Hb]; [lia|].
  iDestruct (array_at_acc with "H") as "[Hb H]"; [exact Hb|].
  replace (p + 1 * Z.of_nat j) with (p + k) by lia.
  iExists b. iFrame "Hb". iSplit.
  { iPureIntro. split; [exact (Forall_lookup_1 _ _ _ _ Hby Hb)|].
    intros i Hi. by rewrite (HB j b i) // Hj. }
  iIntros (b' B' (Hb' & Hin & Hout)) "Hb". iDestruct ("H" with "Hb") as "H".
  iExists (<[j:=b']> bs). iFrame "H". iPureIntro. split; [by rewrite length_insert|].
  split; [by apply Forall_insert|]. rewrite length_insert. split.
  - intros x Hx. destruct (decide (8 * k ≤ x < 8 * k + 8)); [lia|]. apply Hr. by rewrite -Hout.
  - intros j' b'' i Hb'' Hi. destruct (decide (j' = j)) as [->|Hne].
    + rewrite list_lookup_insert_eq in Hb''; [|lia]. injection Hb'' as <-.
      rewrite Hj. by apply Hin.
    + rewrite list_lookup_insert_ne in Hb''; [|done]. rewrite (HB j' b'' i) // Hout //. lia.
Qed.

Section bitops.
Context {ML : Malloc}.

(** What the C functions return for a bit: its mask or 0. *)
Definition mask_of (B : gset Z) (nr : Z) : Z := if decide (nr ∈ B) then 2 ^ (nr mod 8) else 0.

Lemma mask_of_nonzero B nr : mask_of B nr ≠ 0 ↔ nr ∈ B.
Proof.
  unfold mask_of. pose proof (Z.mod_pos_bound nr 8 eq_refl).
  pose proof (Z.pow_pos_nonneg 2 (nr mod 8)). case_decide; split; try done. lia.
Qed.

(** The byte of a bit. *)
Lemma bits_at_bit p n B nr :
  0 ≤ nr < 8 * Z.of_nat n →
  bits_at p n B ⊢ ∃ b,
    ⌜0 ≤ b < 256 ∧ Z.land (bit_mask nr) b = mask_of B nr⌝ ∗
    (p + Z.shiftr nr 3) ↦ b ∗
    (∀ b' B', ⌜(∀ i, 0 ≤ i < 8 → Z.testbit b' i =
          if decide (i = nr mod 8) then bool_decide (nr ∈ B') else Z.testbit b i) ∧
        (∀ x, x ≠ nr → (x ∈ B' ↔ x ∈ B))⌝ -∗
       (p + Z.shiftr nr 3) ↦ u8 b' -∗ bits_at p n B').
Proof.
  iIntros (Hnr) "H". rewrite shiftr3.
  pose proof (Z.div_mod nr 8). pose proof (Z.mod_pos_bound nr 8 eq_refl) as Hm.
  iDestruct (bits_at_byte _ _ _ (nr / 8) with "H") as (b (Hb & HB)) "[Hb H]"; [lia|].
  iExists b. iFrame "Hb". iSplit.
  { iPureIntro. split; [done|]. rewrite mask_land /mask_of.
    specialize (HB (nr mod 8) Hm). replace (8 * (nr / 8) + nr mod 8) with nr in HB by lia.
    case_decide as Hin; [by rewrite (proj2 HB Hin)|].
    destruct (Z.testbit b (nr mod 8)); [|done]. by destruct Hin; apply HB. }
  iIntros (b' B' (Hb' & Hout)) "Hb". iApply ("H" $! (u8 b') B' with "[%] Hb").
  split; [apply u8_range|split].
  - intros i Hi. rewrite u8_testbit // Hb' //.
    destruct (decide (i = nr mod 8)) as [->|Him].
    + rewrite bool_decide_eq_true.
      by replace (8 * (nr / 8) + nr mod 8) with nr by lia.
    + rewrite HB // Hout //. lia.
  - intros x Hx. rewrite Hout; [done|intros ->; lia].
Qed.

Lemma wp_set_bit64 p n B nr Φ :
  0 ≤ nr < 8 * Z.of_nat n →
  bits_at p n B -∗ (bits_at p n ({[nr]} ∪ B) -∗ Φ (mask_of B nr)) -∗
  wp (ext2fs_set_bit64 nr p) Φ.
Proof.
  iIntros (Hnr) "H HΦ". unfold ext2fs_set_bit64.
  iDestruct (bits_at_bit with "H") as (b (Hb & Hmask)) "[Hb H]"; [done|].
  wp_load. wp_store. wp_steps. rewrite Hmask. iApply "HΦ".
  iApply ("H" with "[%] Hb"). split; [|set_solver].
  intros i Hi. rewrite Z.lor_spec bit_mask_testbit; [|lia]. case_decide as Him.
  - rewrite bool_decide_eq_true_2 // orb_true_r. symmetry. apply bool_decide_eq_true. set_solver.
  - by rewrite bool_decide_eq_false_2 // orb_false_r.
Qed.

Lemma wp_clear_bit64 p n B nr Φ :
  0 ≤ nr < 8 * Z.of_nat n →
  bits_at p n B -∗ (bits_at p n (B ∖ {[nr]}) -∗ Φ (mask_of B nr)) -∗
  wp (ext2fs_clear_bit64 nr p) Φ.
Proof.
  iIntros (Hnr) "H HΦ". unfold ext2fs_clear_bit64.
  iDestruct (bits_at_bit with "H") as (b (Hb & Hmask)) "[Hb H]"; [done|].
  wp_load. wp_store. wp_steps. rewrite Hmask. iApply "HΦ".
  iApply ("H" with "[%] Hb"). split; [|set_solver].
  intros i Hi. rewrite Z.land_spec Z.lnot_spec; [|lia]. rewrite bit_mask_testbit; [|lia].
  case_decide as Him.
  - rewrite bool_decide_eq_true_2 // andb_false_r. symmetry. apply bool_decide_eq_false. set_solver.
  - by rewrite bool_decide_eq_false_2 // andb_true_r.
Qed.

Lemma wp_test_bit64 p n B nr Φ :
  0 ≤ nr < 8 * Z.of_nat n →
  bits_at p n B -∗ (bits_at p n B -∗ Φ (mask_of B nr)) -∗
  wp (ext2fs_test_bit64 nr p) Φ.
Proof.
  iIntros (Hnr) "H HΦ". unfold ext2fs_test_bit64.
  pose proof (Z.mod_pos_bound nr 8 eq_refl). pose proof (Z.div_mod nr 8).
  iDestruct (bits_at_bit with "H") as (b (Hb & Hmask)) "[Hb H]"; [done|].
  wp_load. wp_steps. rewrite Hmask. iApply "HΦ".
  rewrite -{1}(u8_small b); [|done]. iApply ("H" with "[%] Hb"). split; [|done].
  intros i Hi. case_decide as Him; [|done]. subst i.
  rewrite mask_land /mask_of in Hmask. pose proof (Z.pow_pos_nonneg 2 (nr mod 8)).
  case_bool_decide; destruct (Z.testbit b (nr mod 8)); repeat case_decide; done || lia.
Qed.

Lemma wp_fast_set_bit64 p n B nr Φ :
  0 ≤ nr < 8 * Z.of_nat n →
  bits_at p n B -∗ (bits_at p n ({[nr]} ∪ B) -∗ Φ tt) -∗
  wp (ext2fs_fast_set_bit64 nr p) Φ.
Proof.
  iIntros (Hnr) "H HΦ". unfold ext2fs_fast_set_bit64.
  iDestruct (bits_at_bit with "H") as (b (Hb & Hmask)) "[Hb H]"; [done|].
  wp_load. wp_store. iApply "HΦ".
  iApply ("H" with "[%] Hb"). split; [|set_solver].
  intros i Hi. rewrite Z.lor_spec u8_testbit // bit_mask_testbit; [|lia]. case_decide as Him.
  - rewrite bool_decide_eq_true_2 // orb_true_r. symmetry. apply bool_decide_eq_true. set_solver.
  - by rewrite bool_decide_eq_false_2 // orb_false_r.
Qed.

Lemma wp_fast_clear_bit64 p n B nr Φ :
  0 ≤ nr < 8 * Z.of_nat n →
  bits_at p n B -∗ (bits_at p n (B ∖ {[nr]}) -∗ Φ tt) -∗
  wp (ext2fs_fast_clear_bit64 nr p) Φ.
Proof.
  iIntros (Hnr) "H HΦ". unfold ext2fs_fast_clear_bit64.
  iDestruct (bits_at_bit with "H") as (b (Hb & Hmask)) "[Hb H]"; [done|].
  wp_load. wp_store. iApply "HΦ".
  iApply ("H" with "[%] Hb"). split; [|set_solver].
  intros i Hi. rewrite Z.land_spec u8_testbit // Z.lnot_spec; [|lia].
  rewrite bit_mask_testbit; [|lia]. case_decide as Him.
  - rewrite bool_decide_eq_true_2 // andb_false_r. symmetry. apply bool_decide_eq_false. set_solver.
  - by rewrite bool_decide_eq_false_2 // andb_true_r.
Qed.
End bitops.

(** The 32-bit functions compute the same. *)
Lemma set_bit_64 : ext2fs_set_bit = ext2fs_set_bit64.
Proof. reflexivity. Qed.

Lemma clear_bit_64 : ext2fs_clear_bit = ext2fs_clear_bit64.
Proof. reflexivity. Qed.

Lemma test_bit_64 : ext2fs_test_bit = ext2fs_test_bit64.
Proof. reflexivity. Qed.

Lemma fast_set_bit_64 : ext2fs_fast_set_bit = ext2fs_fast_set_bit64.
Proof. reflexivity. Qed.

Lemma fast_clear_bit_64 : ext2fs_fast_clear_bit = ext2fs_fast_clear_bit64.
Proof. reflexivity. Qed.

(** ** Filling bytes *)
Section fill.
Context {ML : Malloc}.

Lemma wp_memset_ones p n B k j Φ :
  0 ≤ k → k + Z.of_nat j ≤ Z.of_nat n →
  bits_at p n B -∗ (bits_at p n (zrange (8 * k) (8 * Z.of_nat j) ∪ B) -∗ Φ tt) -∗
  wp (memset (p + k) 255 j) Φ.
Proof.
  unfold memset. revert k B Φ. induction j as [|j IH]; intros k B Φ Hk Hj; simpl.
  - iIntros "H HΦ". wp_steps. rewrite zrange_empty // left_id_L. by iApply "HΦ".
  - iIntros "H HΦ". iDestruct (bits_at_byte _ _ _ k with "H") as (b [Hb HB]) "[Hb H]"; [lia|].
    wp_store. iDestruct ("H" $! 255 (zrange (8 * k) 8 ∪ B) with "[%] Hb") as "H".
    { split; [lia|split].
      - intros i Hi. change 255 with (Z.ones 8). rewrite Z.ones_spec_low; [|lia]. set_solver by lia.
      - set_solver by lia. }
    replace (p + k + 1) with (p + (k + 1)) by lia. iApply (IH with "H"); [lia..|].
    replace (zrange (8 * k) (8 * Z.of_nat (S j)) ∪ B)
      with (zrange (8 * (k + 1)) (8 * Z.of_nat j) ∪ (zrange (8 * k) 8 ∪ B)); [done|].
    set_lia.
Qed.

Lemma zero_bytes_bits n : bytes_bits (replicate n 0) ∅.
Proof.
  split; [|split; [set_solver|]].
  - apply Forall_replicate. lia.
  - intros j b i [-> _]%lookup_replicate Hi. rewrite Z.bits_0. set_solver.
Qed.

Lemma wp_memset_zero p n Φ :
  owns_block p 1 n -∗ (bits_at p n ∅ -∗ Φ tt) -∗ wp (memset p 0 n) Φ.
Proof.
  iIntros "H HΦ". iApply (wp_memset with "H"). iIntros "H". iApply "HΦ".
  iExists _. iFrame. iPureIntro. split; [by rewrite length_replicate|apply zero_bytes_bits].
Qed.

Lemma bits_at_owns p n B : bits_at p n B ⊢ owns_block p 1 n.
Proof. iIntros "(%bs & (<- & _) & H)". by iApply array_owns_block. Qed.
Lemma wp_load_bits p n B k Φ :
  0 ≤ k < Z.of_nat n →
  bits_at p n B -∗
  (∀ b, ⌜0 ≤ b < 256 ∧ ∀ i, 0 ≤ i < 8 → (Z.testbit b i = true ↔ (8 * k + i)%Z ∈ B)⌝ -∗
     bits_at p n B -∗ Φ b) -∗
  wp (load (p + k)) Φ.
Proof.
  iIntros (Hk) "H HΦ". iDestruct (bits_at_byte with "H") as (b [Hb HB]) "[Hb H]"; [done|].
  wp_load. iApply ("HΦ" with "[%]"); [done|]. iApply ("H" with "[%] Hb"). done.
Qed.
End fill.
