(* ===== verification/Bitmap.v ===== *)
(** * Bitmap: the bitmap structure and the contract of its implementations

    [struct ext2fs_struct_generic_bitmap_64] and [struct ext2_bitmap_ops] of
    lib/ext2fs/bmap64.h.  The fields the implementations use are a record that
    is passed to their methods and returned by those that change it; the table
    of methods is a record of functions.  [BitmapImpl] is what an
    implementation promises: a predicate [bm_at bm B], saying that the bitmap
    [bm] holds the set [B] of bits, and the contract of every method in terms
    of such sets. *)
From S2P Require Import Prelude.
From S2P Require Import Mem.
From S2P Require Import SepLogic.
From S2P Require Import ExtMem.
From S2P Require Import BitOps.
#[local] Open Scope Z_scope.

(** The fields that the implementations read and write. *)
Record bmap64 := Bmap64 {
  b_start : Z;
  b_end : Z;
  b_real_end : Z;
  b_private : Z;
}.

Definition set_private (bm : bmap64) (p : Z) : bmap64 :=
  Bmap64 (b_start bm) (b_end bm) (b_real_end bm) p.

Definition set_ends (bm : bmap64) (e re : Z) : bmap64 :=
  Bmap64 (b_start bm) e re (b_private bm).

(** The types of 64-bit bitmaps (bmap64.h). *)
Definition EXT2FS_BMAP64_BITARRAY : Z := 1.
Definition EXT2FS_BMAP64_RBTREE : Z := 2.
Definition EXT2FS_BMAP64_AUTODIR : Z := 3.

(** [struct ext2_bitmap_ops].  A method that writes through an [out] pointer
    returns the value with its error code; [print_stats] only prints. *)
Record ext2_bitmap_ops := {
  bmap_type : Z;
  new_bmap : bmap64 → M (errcode * bmap64);
  free_bmap : bmap64 → M unit;
  copy_bmap : bmap64 → bmap64 → M (errcode * bmap64);
  resize_bmap : bmap64 → Z → Z → M (errcode * bmap64);
  mark_bmap : bmap64 → Z → M Z;
  unmark_bmap : bmap64 → Z → M Z;
  test_bmap : bmap64 → Z → M Z;
  mark_bmap_extent : bmap64 → Z → Z → M unit;
  unmark_bmap_extent : bmap64 → Z → Z → M unit;
  test_clear_bmap_extent : bmap64 → Z → Z → M Z;
  set_bmap_range : bmap64 → Z → Z → Z → M errcode;
  get_bmap_range : bmap64 → Z → Z → Z → M errcode;
  clear_bmap : bmap64 → M unit;
  find_first_zero : option (bmap64 → Z → Z → M (errcode * Z));
  find_first_set : option (bmap64 → Z → Z → M (errcode * Z));
}.

(** A bitmap's bounds make sense: its positions, and the one after the last,
    are 64-bit. *)
Definition bounds_ok (bm : bmap64) : Prop :=
  0 ≤ b_start bm ∧ b_start bm ≤ b_end bm ∧ b_end bm ≤ b_real_end bm ∧
  b_real_end bm + 1 < 2^64.

(** All the positions of a bitmap. *)
Definition positions (bm : bmap64) : gset Z :=
  zrange (b_start bm) (b_real_end bm + 1 - b_start bm).

(** The first position of [start, end] with a given property, or none. *)
Definition is_first (P : Z → Prop) (s e : Z) (r : errcode * Z) : Prop :=
  (r.1 = E_OK ∧ s ≤ r.2 ≤ e ∧ P r.2 ∧ ∀ x, s ≤ x < r.2 → ¬ P x) ∨
  (r.1 = ENOENT ∧ ∀ x, s ≤ x ≤ e → ¬ P x).

(** A range of [num] bits from [s] that the range methods take: inside the
    bitmap, aligned to the bytes of the bit array, and with a buffer of [n]
    bytes.  The bit array finds its byte by [s >> 3], so the bitmap must start
    in the first byte. *)
Definition range_ok (bm : bmap64) (s num : Z) (n : nat) : Prop :=
  b_start bm ≤ s ∧ 0 ≤ num < 2^31 ∧ s + num ≤ b_real_end bm + 1 ∧
  b_start bm < 8 ∧ (s - b_start bm) mod 8 = 0 ∧ Z.of_nat n = (num + 7) / 8.

(** The set [B], moved by [d]. *)
Definition shift_set (d : Z) (B : gset Z) : gset Z := set_map (λ x, x + d) B.

Lemma elem_of_shift_set x d B : x ∈ shift_set d B ↔ x - d ∈ B.
Proof.
  unfold shift_set. rewrite elem_of_map. split.
  - intros (y & -> & Hy). by replace (y + d - d) with y by lia.
  - intros Hx. exists (x - d). split; [lia|done].
Qed.

#[export] Instance set_unfold_shift_set x d B Q :
  SetUnfoldElemOf (x - d) B Q → SetUnfoldElemOf x (shift_set d B) Q.
Proof. constructor. rewrite elem_of_shift_set. by apply set_unfold_elem_of. Qed.

Lemma shift_set_shift_set d d' B : shift_set d (shift_set d' B) = shift_set (d' + d) B.
Proof.
  apply set_eq. intros x. rewrite !elem_of_shift_set.
  by replace (x - d - d') with (x - (d' + d)) by lia.
Qed.

Lemma shift_set_zrange d a n : shift_set d (zrange a n) = zrange (a + d) n.
Proof. apply set_eq. intros x. rewrite elem_of_shift_set !elem_of_zrange. lia. Qed.

Lemma shift_set_0 B : shift_set 0 B = B.
Proof. apply set_eq. intros x. rewrite elem_of_shift_set. by rewrite Z.sub_0_r. Qed.

Lemma shift_set_union d A B : shift_set d (A ∪ B) = shift_set d A ∪ shift_set d B.
Proof. apply set_eq. intros x. rewrite elem_of_union !elem_of_shift_set. set_solver. Qed.

Lemma shift_set_difference d A B : shift_set d (A ∖ B) = shift_set d A ∖ shift_set d B.
Proof. apply set_eq. intros x. rewrite elem_of_difference !elem_of_shift_set. set_solver. Qed.

Lemma shift_set_empty d : shift_set d ∅ = ∅.
Proof. apply set_eq. intros x. rewrite elem_of_shift_set. set_solver. Qed.

#[global] Opaque shift_set.

(** The part of [B] in the range of [num] bits at [start], relative to it. *)
Definition range_part (start num : Z) (B : gset Z) : gset Z :=
  shift_set (- start) B ∩ zrange 0 num.

Lemma elem_of_range_part start num B x :
  x ∈ range_part start num B ↔ x + start ∈ B ∧ 0 ≤ x < num.
Proof.
  unfold range_part. rewrite elem_of_intersection elem_of_shift_set elem_of_zrange.
  replace (x - - start) with (x + start) by lia. by rewrite Z.add_0_l.
Qed.

Lemma range_part_out start num B :
  (∀ x, x ∈ B → x < start ∨ start + num ≤ x) → range_part start num B = ∅.
Proof.
  intros HB. apply set_eq. intros x. rewrite elem_of_range_part elem_of_empty.
  split; [|done]. intros [Hx ?]. apply HB in Hx. lia.
Qed.

Lemma range_part_union start num A B :
  range_part start num (A ∪ B) = range_part start num A ∪ range_part start num B.
Proof. apply set_eq. intros x. rewrite elem_of_union !elem_of_range_part. set_solver. Qed.

Lemma range_part_zrange start num a k :
  range_part start num (zrange a k) =
  zrange (Z.max a start - start) (Z.min (a + k) (start + num) - Z.max a start).
Proof. apply set_eq. intros x. rewrite elem_of_range_part !elem_of_zrange. lia. Qed.

(** ** The contract *)

(** The two methods in which the red-black tree is not like the others: what
    unmarking returns, and the search for a clear bit in an empty bitmap. *)
Definition is_tree (ops : ext2_bitmap_ops) : bool :=
  bool_decide (bmap_type ops = EXT2FS_BMAP64_RBTREE).

Class BitmapImpl {ML : Malloc} (ops : ext2_bitmap_ops) := {
  (** The bitmap holds the bits [B], all between [b_start] and [b_real_end]. *)
  bm_at : bmap64 → gset Z → hProp;

  bm_at_facts bm B : bm_at bm B ⊢ ⌜bounds_ok bm ∧ B ⊆ positions bm⌝;

  bm_new bm : bounds_ok bm →
    ⦃ emp ⦄ new_bmap ops bm
    ⦃ r, (⌜r.1 = E_OK ∧ r.2 = set_private bm (b_private r.2)⌝ ∗ bm_at r.2 ∅) ∨
         ⌜r.1 = EXT2_ET_NO_MEMORY ∧ malloc_can_fail⌝ ⦄;

  bm_free bm B : ⦃ bm_at bm B ⦄ free_bmap ops bm ⦃ v, emp ⦄;

  bm_copy src dst B :
    b_start dst = b_start src → b_end dst = b_end src → b_real_end dst = b_real_end src →
    ⦃ bm_at src B ⦄ copy_bmap ops src dst
    ⦃ r, bm_at src B ∗
         ((⌜r.1 = E_OK ∧ r.2 = set_private dst (b_private r.2)⌝ ∗ bm_at r.2 B) ∨
          ⌜r.1 = EXT2_ET_NO_MEMORY ∧ malloc_can_fail⌝) ⦄;

  bm_mark bm B arg : b_start bm ≤ arg ≤ b_real_end bm →
    ⦃ bm_at bm B ⦄ mark_bmap ops bm arg
    ⦃ v, ⌜v ≠ 0 ↔ arg ∈ B⌝ ∗ bm_at bm ({[arg]} ∪ B) ⦄;

  (** A tree also reports the bit after the one unmarked. *)
  bm_unmark bm B arg : b_start bm ≤ arg ≤ b_real_end bm →
    ⦃ bm_at bm B ⦄ unmark_bmap ops bm arg
    ⦃ v, ⌜v ≠ 0 ↔ arg ∈ B ∨ (is_tree ops = true ∧ (arg + 1)%Z ∈ B)⌝ ∗ bm_at bm (B ∖ {[arg]}) ⦄;

  bm_test bm B arg : b_start bm ≤ arg ≤ b_real_end bm →
    ⦃ bm_at bm B ⦄ test_bmap ops bm arg
    ⦃ v, ⌜v ≠ 0 ↔ arg ∈ B⌝ ∗ bm_at bm B ⦄;

  bm_mark_extent bm B arg num :
    b_start bm ≤ arg → 0 ≤ num → arg + num ≤ b_real_end bm + 1 →
    ⦃ bm_at bm B ⦄ mark_bmap_extent ops bm arg num
    ⦃ v, bm_at bm (zrange arg num ∪ B) ⦄;

  bm_unmark_extent bm B arg num :
    b_start bm ≤ arg → 0 ≤ num → arg + num ≤ b_real_end bm + 1 →
    ⦃ bm_at bm B ⦄ unmark_bmap_extent ops bm arg num
    ⦃ v, bm_at bm (B ∖ zrange arg num) ⦄;

  bm_test_clear_extent bm B arg num :
    b_start bm ≤ arg → 0 ≤ num < 2^32 → arg + num ≤ b_real_end bm + 1 →
    ⦃ bm_at bm B ⦄ test_clear_bmap_extent ops bm arg num
    ⦃ v, ⌜(v = 0 ∨ v = 1) ∧ (v = 1 ↔ zrange arg num ## B)⌝ ∗ bm_at bm B ⦄;

  bm_clear bm B : ⦃ bm_at bm B ⦄ clear_bmap ops bm ⦃ v, bm_at bm ∅ ⦄;

  (** A tree without extents reports no zero bit at all. *)
  bm_find_first_zero bm B s e f : find_first_zero ops = Some f →
    b_start bm ≤ s ≤ e → e ≤ b_real_end bm →
    ⦃ bm_at bm B ⦄ f bm s e
    ⦃ r, ⌜if decide (is_tree ops = true ∧ B = ∅) then r.1 = ENOENT
          else is_first (λ x, x ∉ B) s e r⌝ ∗ bm_at bm B ⦄;

  bm_tree_search : is_tree ops = true → is_Some (find_first_zero ops);

  bm_find_first_set bm B s e f : find_first_set ops = Some f →
    b_start bm ≤ s ≤ e → e ≤ b_real_end bm →
    ⦃ bm_at bm B ⦄ f bm s e
    ⦃ r, ⌜is_first (λ x, x ∈ B) s e r⌝ ∗ bm_at bm B ⦄;

  (** The bits in use are kept, as far as the new bounds allow; those between
      the new [end] and [real_end] may be anything.  To grow beyond
      [real_end], a bit array must end with a whole byte. *)
  bm_resize bm B ne nre :
    bounds_ok (set_ends bm ne nre) →
    ne ≤ b_real_end bm ∨ (b_real_end bm + 1 - b_start bm) mod 8 = 0 →
    ⦃ bm_at bm B ⦄ resize_bmap ops bm ne nre
    ⦃ r, (⌜r.1 = E_OK ∧ r.2 = set_ends bm ne nre⌝ ∗
          ∃ B', ⌜∀ x, x ≤ ne → (x ∈ B' ↔ x ∈ B ∧ x ≤ b_end bm)⌝ ∗ bm_at r.2 B') ∨
         (⌜r.1 = EXT2_ET_NO_MEMORY ∧ r.2 = bm ∧ malloc_can_fail⌝ ∗ ∃ B', bm_at bm B') ⦄;

  (** The end in use can be moved up to [real_end]. *)
  bm_fudge bm B e : b_start bm ≤ e ≤ b_real_end bm →
    bm_at bm B ⊢ bm_at (set_ends bm e (b_real_end bm)) B;

  (** Loading a byte-aligned range that is clear. *)
  bm_set_range bm B s num inp n I :
    range_ok bm s num n → I ⊆ zrange 0 num → zrange s (8 * Z.of_nat n) ## B →
    ⦃ bm_at bm B ∗ bits_at inp n I ⦄ set_bmap_range ops bm s num inp
    ⦃ r, ⌜r = E_OK⌝ ∗ bm_at bm (shift_set s I ∪ B) ∗ bits_at inp n I ⦄;

  (** Reading a byte-aligned range; a tree without extents leaves the buffer
      alone. *)
  bm_get_range bm B s num out n :
    range_ok bm s num n → B ≠ ∅ →
    ⦃ bm_at bm B ∗ owns_block out 1 n ⦄ get_bmap_range ops bm s num out
    ⦃ r, ⌜r = E_OK⌝ ∗ bm_at bm B ∗
         ∃ O, ⌜∀ i, (0 ≤ i < num)%Z → (i ∈ O ↔ (s + i)%Z ∈ B)⌝ ∗ bits_at out n O ⦄;
}.
