(* ===== verification/RbExtents.v ===== *)
(** * RbExtents: the extents of lib/ext2fs/blkmap64_rb.c

    Bitmaps as red-black trees of extents.  The private structure and the
    extents live in memory; an extent starts with its [rb_node], so that the
    tree code of [RbTree] works on it.  The theorems relate every operation to
    the set of bits the extents cover. *)
From S2P Require Import Prelude.
From S2P Require Import Mem.
From S2P Require Import SepLogic.
From S2P Require Import ExtMem.
From S2P Require Import RbShape.
From S2P Require Import RbTree.
From S2P Require Import Bitmap.
#[local] Open Scope Z_scope.

(** ** Structures *)

(** [struct bmap_rb_extent]: the node, then [start] and [count]. *)
Definition ext_start (ext : Z) : Z := ext + 24.
Definition ext_count (ext : Z) : Z := ext + 32.
Definition ext_words : nat := 5.

(** [struct ext2fs_rb_private]: the root and the three cursors. *)
Definition bp_root (bp : Z) : Z := bp.
Definition bp_wcursor (bp : Z) : Z := bp + 8.
Definition bp_rcursor (bp : Z) : Z := bp + 16.
Definition bp_rcursor_next (bp : Z) : Z := bp + 24.
Definition bp_words : nat := 4.

(** [ext->start + ext->count] *)
Definition load_ext_end (ext : Z) : M Z :=
  s ← load (ext_start ext);
  c ← load (ext_count ext);
  mret (u64 (s + c)).

(** ** The descent

    The loop [while ( *n) { parent = *n; ext = node_to_extent(parent); if (start
    < ext->start) n = &( *n)->rb_left; else if (far) n = &( *n)->rb_right; else
    ... }] that seven functions of the file contain.  [far start end] is the
    second test, and [found ext x] what the function does with the extent when
    both fail: go round again ([inl]) or leave the loop ([inr]).  The state is
    [parent], [n] and the function's own variables [x]; the result is that
    state when [*n] is NULL. *)
Section rb_descend.
Context {X Y : Type}.

Definition descend_step (far : Z → Z → bool) (start : Z) (found : Z → X → M (X + Y))
    (st : Z * Z * X) : M (Z * Z * X + (Z * Z * X + Y)) :=
  let parent := st.1.1 in
  let n := st.1.2 in
  let x := st.2 in
  node ← load n;
  if bool_decide (node = 0) then break_ (inl (parent, n, x)) else
  s ← load (ext_start node);
  if bool_decide (start < s) then continue_ (node, rb_left node, x) else
  e ← load_ext_end node;
  if far start e then continue_ (node, rb_right node, x) else
  r ← found node x;
  match r with
  | inl x' => continue_ (node, n, x')
  | inr y => break_ (inr y)
  end.

Definition rb_descend (far : Z → Z → bool) (start : Z) (found : Z → X → M (X + Y))
    (root : Z) (x : X) : M (Z * Z * X + Y) :=
  loop (descend_step far start found) (0, rb_node root, x).
End rb_descend.

(** The two second tests: [start >= end] and [start > end]. *)
Definition at_or_after (start e : Z) : bool := bool_decide (e ≤ start).
Definition strictly_after (start e : Z) : bool := bool_decide (e < start).

(** A descent that stops at the extent it finds. *)
Definition rb_find (far : Z → Z → bool) (start root : Z) : M (Z * Z + Z) :=
  r ← rb_descend far start (λ ext _, mret (inr ext)) root tt;
  match r with
  | inl st => mret (inl st.1)
  | inr ext => mret (inr ext)
  end.

(** ** Extents *)
Definition rb_get_new_extent {ML : Malloc} (start count : Z) : M Z :=
  r ← ext2fs_get_mem 8 ext_words;
  if bool_decide (r.1 ≠ E_OK) then m_abort else
  let new_ext := r.2 in
  store (ext_start new_ext) start ;;
  store (ext_count new_ext) count ;;
  mret new_ext.

Definition rb_free_extent (bp ext : Z) : M unit :=
  w ← load (bp_wcursor bp);
  (if bool_decide (w = ext) then store (bp_wcursor bp) 0 else mret tt) ;;
  r ← load (bp_rcursor bp);
  (if bool_decide (r = ext) then store (bp_rcursor bp) 0 else mret tt) ;;
  rn ← load (bp_rcursor_next bp);
  (if bool_decide (rn = ext) then store (bp_rcursor_next bp) 0 else mret tt) ;;
  ext2fs_free_mem 8 ext_words ext.

(** ** Testing a bit *)
Definition in_extent (bit ext : Z) : M bool :=
  s ← load (ext_start ext);
  e ← load_ext_end ext;
  mret (bool_decide (s ≤ bit ∧ bit < e)).

(** The label [search_tree:] of [rb_test_bit]. *)
Definition test_bit_search (bp bit : Z) : M Z :=
  r ← rb_find at_or_after bit (bp_root bp);
  match r with
  | inl _ => mret 0
  | inr ext =>
      store (bp_rcursor bp) ext ;;
      store (bp_rcursor_next bp) 0 ;;
      mret 1
  end.

Definition rb_test_bit (bp bit : Z) : M Z :=
  rcursor ← load (bp_rcursor bp);
  if bool_decide (rcursor = 0) then test_bit_search bp bit else
  hit ← in_extent bit rcursor;
  if (hit : bool) then mret 1 else
  next_ext ← load (bp_rcursor_next bp);
  next_ext ← (if bool_decide (next_ext = 0) then
                next ← ext2fs_rb_next rcursor;
                store (bp_rcursor_next bp) next ;;
                mret next
              else mret next_ext);
  hole ← (if bool_decide (next_ext ≠ 0) then
            e ← load_ext_end rcursor;
            ns ← load (ext_start next_ext);
            mret (bool_decide (e ≤ bit ∧ bit < ns))
          else mret false);
  if (hole : bool) then mret 0 else
  store (bp_rcursor bp) 0 ;;
  store (bp_rcursor_next bp) 0 ;;
  wcursor ← load (bp_wcursor bp);
  if bool_decide (wcursor = 0) then test_bit_search bp bit else
  hit ← in_extent bit wcursor;
  if (hit : bool) then mret 1 else test_bit_search bp bit.

(** ** Insertion *)

(** One round of the merge loop; the state is [node] and [count]. *)
Definition merge_step (bp start : Z) (st : Z * Z) : M (Z * Z + Z) :=
  let node := st.1 in
  let count := st.2 in
  if bool_decide (node = 0) then break_ count else
  next ← ext2fs_rb_next node;
  e ← load_ext_end node;
  if bool_decide (e ≤ start) then continue_ (next, count) else
  s ← load (ext_start node);
  if bool_decide (u64 (start + count) < s) then break_ count else
  if bool_decide (e ≤ u64 (start + count)) then
    ext2fs_rb_erase node (bp_root bp) ;;
    rb_free_extent bp node ;;
    continue_ (next, count)
  else
    let count := u64 (count + u64 (e - u64 (start + count))) in
    ext2fs_rb_erase node (bp_root bp) ;;
    rb_free_extent bp node ;;
    break_ count.

(** The label [skip_insert:]. *)
Definition insert_skip (bp start count new_ext retval : Z) : M Z :=
  node ← ext2fs_rb_next new_ext;
  count ← loop (merge_step bp start) (node, count);
  store (ext_start new_ext) start ;;
  store (ext_count new_ext) count ;;
  mret retval.

(** The label [got_extent:]. *)
Definition insert_got_extent (bp start count ext : Z) : M Z :=
  e ← load_ext_end ext;
  if bool_decide (u64 (start + count) ≤ e) then mret 1 else
  let retval := if bool_decide (e = start) then 0 else 1 in
  s ← load (ext_start ext);
  let count := u64 (count + u64 (start - s)) in
  insert_skip bp s count ext retval.

Definition rb_insert_extent {ML : Malloc} (start count bp : Z) : M Z :=
  if bool_decide (count = 0) then mret 0 else
  store (bp_rcursor_next bp) 0 ;;
  ext ← load (bp_wcursor bp);
  hit ← (if bool_decide (ext ≠ 0) then
           s ← load (ext_start ext);
           e ← load_ext_end ext;
           mret (bool_decide (s ≤ start ∧ start ≤ e))
         else mret false);
  if (hit : bool) then insert_got_extent bp start count ext else
  r ← rb_find strictly_after start (bp_root bp);
  match r with
  | inr ext => insert_got_extent bp start count ext
  | inl pn =>
      new_ext ← rb_get_new_extent start count;
      ext2fs_rb_link_node new_ext pn.1 pn.2 ;;
      ext2fs_rb_insert_color new_ext (bp_root bp) ;;
      store (bp_wcursor bp) new_ext ;;
      node ← ext2fs_rb_prev new_ext;
      sc ← (if bool_decide (node ≠ 0) then
              e ← load_ext_end node;
              if bool_decide (e = start) then
                s ← load (ext_start node);
                c ← load (ext_count node);
                ext2fs_rb_erase node (bp_root bp) ;;
                rb_free_extent bp node ;;
                mret (s, u64 (count + c))
              else mret (start, count)
            else mret (start, count));
      insert_skip bp sc.1 sc.2 new_ext 0
  end.

(** ** Removal *)

(** What [rb_remove_extent] does with an extent that contains [start]; the
    variable is [retval], and leaving the loop is a [return] ([inl]) or a
    [break] with the new [parent] and [retval] ([inr]). *)
Definition remove_found {ML : Malloc} (bp start count ext retval : Z) :
    M (Z + (Z + Z * Z)) :=
  s ← load (ext_start ext);
  e ← load_ext_end ext;
  if bool_decide (s < start ∧ u64 (start + count) < e) then
    let new_start := u64 (start + count) in
    let new_count := u64 (e - new_start) in
    store (ext_count ext) (u64 (start - s)) ;;
    rb_insert_extent new_start new_count bp ;;
    mret (inr (inl 1))
  else
    retval ← (if bool_decide (e ≤ u64 (start + count)) then
                store (ext_count ext) (u64 (start - s)) ;; mret 1
              else mret retval);
    c ← load (ext_count ext);
    if bool_decide (c = 0) then
      parent ← ext2fs_rb_next ext;
      ext2fs_rb_erase ext (bp_root bp) ;;
      rb_free_extent bp ext ;;
      mret (inr (inr (parent, retval)))
    else if bool_decide (start = s) then
      store (ext_start ext) (u64 (s + count)) ;;
      store (ext_count ext) (u64 (c - count)) ;;
      mret (inr (inl 1))
    else mret (inl retval).

(** One round of the second loop; the state is [parent] and [retval]. *)
Definition remove_right_step (bp start count : Z) (st : Z * Z) : M (Z * Z + Z) :=
  let parent := st.1 in
  let retval := st.2 in
  if bool_decide (parent = 0) then break_ retval else
  node ← ext2fs_rb_next parent;
  e ← load_ext_end parent;
  if bool_decide (e ≤ start) then continue_ (node, retval) else
  s ← load (ext_start parent);
  if bool_decide (u64 (start + count) < s) then break_ retval else
  if bool_decide (e ≤ u64 (start + count)) then
    ext2fs_rb_erase parent (bp_root bp) ;;
    rb_free_extent bp parent ;;
    continue_ (node, 1)
  else
    c ← load (ext_count parent);
    store (ext_count parent) (u64 (c - u64 (u64 (start + count) - s))) ;;
    store (ext_start parent) (u64 (start + count)) ;;
    break_ 1.

Definition rb_remove_extent {ML : Malloc} (start count bp : Z) : M Z :=
  empty ← ext2fs_rb_empty_root (bp_root bp);
  if (empty : bool) then mret 0 else
  r ← rb_descend at_or_after start (remove_found bp start count) (bp_root bp) 0;
  match r with
  | inr (inl v) => mret v
  | inr (inr (parent, retval)) =>
      loop (remove_right_step bp start count) (parent, retval)
  | inl (parent, _, retval) =>
      loop (remove_right_step bp start count) (parent, retval)
  end.

(** ** The extents of a tree, as a list *)
Record extent := Extent { e_addr : Z; e_start : Z; e_count : Z }.

Definition e_end (e : extent) : Z := e_start e + e_count e.

Abbreviation addrs E := (e_addr <$> E).

(** Sorted, non-empty, separated by at least one clear bit, in range. *)
Fixpoint exts_wf (lo : Z) (E : list extent) : Prop :=
  match E with
  | [] => True
  | e :: E' =>
      lo ≤ e_start e ∧ 0 < e_count e ∧ e_end e < 2^64 ∧ exts_wf (e_end e + 1) E'
  end.

(** The bits the extents cover. *)
Fixpoint ext_set (E : list extent) : gset Z :=
  match E with
  | [] => ∅
  | e :: E' => zrange (e_start e) (e_count e) ∪ ext_set E'
  end.

(** All extents end at or before [b]; all start after [b]. *)
Definition exts_before (b : Z) (E : list extent) : Prop :=
  Forall (λ e, e_end e ≤ b) E.
Definition exts_after (b : Z) (E : list extent) : Prop :=
  Forall (λ e, b < e_start e) E.

Lemma ext_set_app E1 E2 : ext_set (E1 ++ E2) = ext_set E1 ∪ ext_set E2.
Proof.
  induction E1 as [|e E1 IH]; simpl; [by rewrite left_id_L|]. by rewrite IH assoc_L.
Qed.

Lemma exts_wf_weaken lo lo' E : lo' ≤ lo → exts_wf lo E → exts_wf lo' E.
Proof. destruct E; simpl; [done|]. intuition lia. Qed.

Lemma exts_wf_range lo E x : exts_wf lo E → x ∈ ext_set E → lo ≤ x < 2^64.
Proof.
  revert lo. induction E as [|e E IH]; intros lo; simpl; [set_solver|].
  intros (Hlo & Hc & He & HE) [Hx|Hx]%elem_of_union.
  - apply elem_of_zrange in Hx. unfold e_end in *. lia.
  - specialize (IH _ HE Hx). unfold e_end in *. lia.
Qed.

Lemma exts_wf_elem lo E e :
  exts_wf lo E → e ∈ E → lo ≤ e_start e ∧ 0 < e_count e ∧ e_end e < 2^64.
Proof.
  revert lo. induction E as [|e' E IH]; intros lo; simpl; [set_solver|].
  intros (Hlo & Hc & He & HE) [->|Hx]%elem_of_cons; [done|].
  specialize (IH _ HE Hx). unfold e_end in *. lia.
Qed.

Lemma exts_wf_app lo E1 E2 :
  exts_wf lo (E1 ++ E2) ↔
  exts_wf lo E1 ∧ exts_wf (from_option (λ e, e_end e + 1) lo (last E1)) E2.
Proof.
  revert lo. induction E1 as [|e E1 IH]; intros lo; simpl; [tauto|].
  rewrite IH last_cons. destruct (last E1); simpl; tauto.
Qed.

(** What surrounds an extent. *)
Lemma exts_wf_mid lo E1 e E2 :
  exts_wf lo (E1 ++ e :: E2) ↔
  exts_wf lo E1 ∧ Forall (λ e1, e_end e1 < e_start e) E1 ∧
  lo ≤ e_start e ∧ 0 < e_count e ∧ e_end e < 2^64 ∧ exts_wf (e_end e + 1) E2.
Proof.
  rewrite exts_wf_app /=. split.
  - intros (H1 & Hlo & Hc & He & H2). split_and!; try done.
    + clear H2. revert lo H1 Hlo. induction E1 as [|e1 E1 IH]; intros lo; simpl; [done|].
      intros (Hlo1 & Hc1 & He1 & HE1) Hlo. rewrite last_cons in Hlo.
      assert (from_option (λ e, e_end e + 1) (e_end e1 + 1) (last E1) ≤ e_start e) as Hle.
      { by destruct (last E1). }
      constructor; [|by eapply IH].
      assert (e_end e1 + 1 ≤ from_option (λ e, e_end e + 1) (e_end e1 + 1) (last E1)).
      { destruct (last E1) as [e2|] eqn:Hl; simpl; [|lia].
        destruct (exts_wf_elem _ _ e2 HE1) as (? & ? & ?).
        - by apply last_Some_elem_of.
        - unfold e_end in *. lia. }
      lia.
    + destruct (last E1) as [e2|] eqn:Hl; simpl in *; [|lia].
      destruct (exts_wf_elem _ _ e2 H1) as (? & ? & ?); [by apply last_Some_elem_of|].
      unfold e_end in *. lia.
  - intros (H1 & Hb & Hlo & Hc & He & H2). split_and!; try done.
    destruct (last E1) as [e2|] eqn:Hl; simpl; [|done].
    rewrite Forall_forall in Hb. specialize (Hb e2 (last_Some_elem_of _ _ Hl)). lia.
Qed.

Lemma exts_before_set b E x : exts_before b E → x ∈ ext_set E → x < b.
Proof.
  induction 1 as [|e E He _ IH]; simpl; [set_solver|].
  intros [Hx|Hx]%elem_of_union; [|auto]. apply elem_of_zrange in Hx.
  unfold e_end in He. lia.
Qed.

Lemma exts_after_wf b E : exts_wf b E → exts_after (b - 1) E.
Proof.
  intros HE. apply Forall_forall. intros e He.
  destruct (exts_wf_elem _ _ _ HE He). lia.
Qed.

Lemma exts_after_set b E x : exts_after b E → x ∈ ext_set E → b < x.
Proof.
  induction 1 as [|e E He _ IH]; simpl; [set_solver|].
  intros [Hx|Hx]%elem_of_union; [|auto]. apply elem_of_zrange in Hx. lia.
Qed.

(** ** Extents in memory *)
Definition ext_at (e : extent) : hProp :=
  (ext_start (e_addr e) ↦ e_start e ∗ ext_count (e_addr e) ↦ e_count e)%I.

Definition exts_at (E : list extent) : hProp := ([∗ list] e ∈ E, ext_at e)%I.

(** The tree rooted at [root] holds the extents [E]. *)
Definition exts_tree (root : Z) (E : list extent) : hProp :=
  ∃ t, ⌜rb_inv t ∧ inorder t = addrs E⌝ ∗ root_at root t ∗ exts_at E.

(** The memory of an extent that is in no tree. *)
Definition ext_block (a : Z) : hProp :=
  (node_cells a ∗ owns (ext_start a) ∗ owns (ext_count a))%I.

Lemma exts_at_app E1 E2 : exts_at (E1 ++ E2) ⊣⊢ exts_at E1 ∗ exts_at E2.
Proof. apply big_sepL_app. Qed.

Lemma exts_at_mid E1 e E2 :
  exts_at (E1 ++ e :: E2) ⊣⊢ ext_at e ∗ exts_at E1 ∗ exts_at E2.
Proof.
  rewrite exts_at_app /exts_at /=.
  iSplit; [iIntros "($ & $ & $)"|iIntros "($ & $ & $)"].
Qed.

Lemma ext_block_owns a :
  0 < a ∧ a mod 16 = 0 → owns_block a 8 ext_words ⊢ ext_block a.
Proof.
  iIntros ([Ha Hal]) "H". simpl.
  rewrite /ext_block /node_cells /rb_parent_color /rb_right /rb_left /ext_start /ext_count.
  rewrite -!(Z.add_assoc a) /=.
  iDestruct "H" as "($ & $ & $ & $ & $ & _)". iPureIntro. split; [done|].
  unfold aligned. Z.to_euclidean_division_equations. lia.
Qed.

Lemma owns_ext_block a : ext_block a ⊢ ⌜0 < a⌝ ∗ owns_block a 8 ext_words.
Proof.
  rewrite /ext_block /node_cells /rb_parent_color /rb_right /rb_left /ext_start /ext_count /=.
  rewrite -!(Z.add_assoc a) /=. iIntros "((%Ha & $ & $ & $) & $ & $)". by destruct Ha.
Qed.

Section rb_wp.
Context {ML : Malloc}.
Implicit Types (E : list extent) (e : extent).

(** ** Accesses to the extents of a list *)
Lemma wp_ext_start E1 e E2 Φ :
  exts_at (E1 ++ e :: E2) -∗ (exts_at (E1 ++ e :: E2) -∗ Φ (e_start e)) -∗
  wp (load (ext_start (e_addr e))) Φ.
Proof.
  rewrite exts_at_mid. iIntros "([Hs Hc] & HE) HΦ". wp_load. iApply "HΦ". by iFrame.
Qed.

Lemma wp_ext_count E1 e E2 Φ :
  exts_at (E1 ++ e :: E2) -∗ (exts_at (E1 ++ e :: E2) -∗ Φ (e_count e)) -∗
  wp (load (ext_count (e_addr e))) Φ.
Proof.
  rewrite exts_at_mid. iIntros "([Hs Hc] & HE) HΦ". wp_load. iApply "HΦ". by iFrame.
Qed.

Lemma wp_ext_end E1 e E2 Φ :
  0 ≤ e_end e < 2^64 →
  exts_at (E1 ++ e :: E2) -∗ (exts_at (E1 ++ e :: E2) -∗ Φ (e_end e)) -∗
  wp (load_ext_end (e_addr e)) Φ.
Proof.
  iIntros (He) "HE HΦ". unfold load_ext_end.
  wp_apply (wp_ext_start with "HE"). iIntros "HE".
  wp_apply (wp_ext_count with "HE"). iIntros "HE". wp_steps.
  rewrite u64_small //. by iApply "HΦ".
Qed.

Lemma wp_set_ext_start E1 a s c E2 s' Φ :
  exts_at (E1 ++ Extent a s c :: E2) -∗ (exts_at (E1 ++ Extent a s' c :: E2) -∗ Φ tt) -∗
  wp (store (ext_start a) s') Φ.
Proof.
  rewrite !exts_at_mid. iIntros "([Hs Hc] & HE) HΦ". simpl. wp_store.
  iApply "HΦ". by iFrame.
Qed.

Lemma wp_set_ext_count E1 a s c E2 c' Φ :
  exts_at (E1 ++ Extent a s c :: E2) -∗ (exts_at (E1 ++ Extent a s c' :: E2) -∗ Φ tt) -∗
  wp (store (ext_count a) c') Φ.
Proof.
  rewrite !exts_at_mid. iIntros "([Hs Hc] & HE) HΦ". simpl. wp_store.
  iApply "HΦ". by iFrame.
Qed.

(** ** The descent *)

(** The hole of [k] splits the extents into those before and those after. *)
Definition ctx_split (k : ctx) (EB EA : list extent) : Prop :=
  ctx_before k = addrs EB ∧ ctx_after k = addrs EA.

Lemma ctx_split_left k EB EA c a r e ER :
  ctx_split k EB EA → a = e_addr e → inorder r = addrs ER →
  ctx_split (Frame L c a r :: k) EB (e :: ER ++ EA).
Proof. intros [Hb Ha] -> Hr. split; csimpl; [done|]. by rewrite fmap_app Ha Hr. Qed.

Lemma ctx_split_right k EB EA c a l EL e :
  ctx_split k EB EA → a = e_addr e → inorder l = addrs EL →
  ctx_split (Frame R c a l :: k) (EB ++ EL ++ [e]) EA.
Proof. intros [Hb Ha] -> Hl. split; csimpl; [|done]. by rewrite !fmap_app Hb Hl. Qed.

Lemma addrs_app_inv E l1 a l2 :
  addrs E = l1 ++ a :: l2 →
  ∃ E1 e E2, E = E1 ++ e :: E2 ∧ l1 = addrs E1 ∧ a = e_addr e ∧ l2 = addrs E2.
Proof.
  intros (E1 & E' & -> & Heq & ->)%fmap_app_inv.
  symmetry in Heq. apply fmap_cons_inv in Heq as (e & E2 & -> & -> & ->).
  by exists E1, e, E2.
Qed.

Context {X Y : Type} (far : Z → Z → bool) (start : Z) (found : Z → X → M (X + Y)).
Hypothesis far_mono : ∀ a b, a ≤ b → far start b = true → far start a = true.

(** [far] holds of the extents before the hole, [start] precedes those after. *)
Definition descend_bounds (EB EA : list extent) : Prop :=
  Forall (λ e, far start (e_end e) = true) EB ∧ exts_after start EA.

Lemma wp_descend root k t EB EM EA x Φ :
  exts_wf 0 (EB ++ EM ++ EA) → ctx_split k EB EA → inorder t = addrs EM →
  descend_bounds EB EA →
  ctx_at root k (ptr t) -∗ tree_at (ctx_ptr k) t -∗ exts_at (EB ++ EM ++ EA) -∗
  ((∀ k' E1 E2,
      ⌜EB ++ EM ++ EA = E1 ++ E2 ∧ ctx_split k' E1 E2 ∧ descend_bounds E1 E2 ∧
       plug k' Leaf = plug k t⌝ -∗
      ctx_at root k' 0 -∗ exts_at (E1 ++ E2) -∗
      Φ (inl (ctx_ptr k', ctx_slot root k', x))) ∧
   (∀ k' c l r E1 EL e ER E2,
      let t' := Node c l (e_addr e) r in
      ⌜EB ++ EM ++ EA = E1 ++ (EL ++ e :: ER) ++ E2 ∧ ctx_split k' E1 E2 ∧
       inorder l = addrs EL ∧ inorder r = addrs ER ∧ descend_bounds E1 E2 ∧
       plug k' t' = plug k t ∧ e_start e ≤ start ∧ far start (e_end e) = false⌝ -∗
      ctx_at root k' (e_addr e) -∗ tree_at (ctx_ptr k') t' -∗
      exts_at (E1 ++ (EL ++ e :: ER) ++ E2) -∗
      wp (found (e_addr e) x) (λ v,
        match v with
        | inl x' => wp (loop (descend_step far start found)
                          (e_addr e, ctx_slot root k', x')) Φ
        | inr y => Φ (inr y)
        end))) -∗
  wp (loop (descend_step far start found) (ctx_ptr k, ctx_slot root k, x)) Φ.
Proof.
  revert k EB EM EA. induction t as [|c l IHl a r IHr]; intros k EB EM EA.
  - iIntros (Hwf Hk HM Hbd) "Hk Ht HE HΦ". simpl in HM.
    symmetry in HM. apply fmap_nil_inv in HM as ->.
    wp_loop descend_step.
    iDestruct (ctx_at_slot with "Hk") as "[Hslot Hk]". wp_load.
    simpl. wp_steps. iDestruct "HΦ" as "[HΦ _]".
    iApply ("HΦ" with "[%] [Hk Hslot] HE"); [done|]. by iApply "Hk".
  - iIntros (Hwf Hk HM Hbd) "Hk Ht HE HΦ". simpl in HM. symmetry in HM.
    apply addrs_app_inv in HM as (EL & e & ER & -> & Hl & -> & Hr).
    wp_loop descend_step.
    iDestruct (ctx_at_slot with "Hk") as "[Hslot Hk]". wp_load.
    iDestruct ("Hk" with "Hslot") as "Hk".
    iDestruct "Ht" as "(He & Hl & Hr)".
    iDestruct (node_at_facts with "He") as %[[??] ?].
    rewrite bool_decide_eq_false_2; [|simpl; lia].
    replace (EB ++ (EL ++ e :: ER) ++ EA) with ((EB ++ EL) ++ e :: ER ++ EA)
      by solve_app.
    assert (Hwf' : exts_wf 0 ((EB ++ EL) ++ e :: ER ++ EA)).
    { by replace ((EB ++ EL) ++ e :: ER ++ EA) with (EB ++ (EL ++ e :: ER) ++ EA) by solve_app. }
    apply exts_wf_mid in Hwf' as (_ & Hbef & Hlo & Hc & Hend & Haft).
    wp_apply (wp_ext_start with "HE"). iIntros "HE".
    destruct Hbd as [Hfar Haf]. case_bool_decide as Hs.
    { (* left *)
      wp_steps.
      replace ((EB ++ EL) ++ e :: ER ++ EA) with (EB ++ EL ++ (e :: ER ++ EA)) by solve_app.
      iApply (IHl (Frame L c (e_addr e) r :: k) EB EL (e :: ER ++ EA)
        with "[Hk He Hr] Hl HE"); [| | | | |].
      - by replace (EB ++ EL ++ e :: ER ++ EA) with (EB ++ (EL ++ e :: ER) ++ EA) by solve_app.
      - by apply ctx_split_left.
      - done.
      - split; [done|]. constructor; [done|]. apply exts_after_wf in Haft.
        eapply Forall_impl; [done|]. unfold e_end. simpl. intros; lia.
      - simpl. iFrame.
      - by replace (EB ++ EL ++ e :: ER ++ EA) with (EB ++ (EL ++ e :: ER) ++ EA) by solve_app. }
    wp_apply (wp_ext_end with "HE"); [unfold e_end in *; lia|]. iIntros "HE".
    destruct (far start (e_end e)) eqn:Hf.
    { (* right *)
      wp_steps.
      replace ((EB ++ EL) ++ e :: ER ++ EA) with ((EB ++ EL ++ [e]) ++ ER ++ EA)
        by solve_app.
      iApply (IHr (Frame R c (e_addr e) l :: k) (EB ++ EL ++ [e]) ER EA
        with "[Hk He Hl] Hr HE"); [| | | | |].
      - by replace ((EB ++ EL ++ [e]) ++ ER ++ EA) with (EB ++ (EL ++ e :: ER) ++ EA)
          by solve_app.
      - by apply ctx_split_right.
      - done.
      - split; [|done]. rewrite !Forall_app Forall_singleton. split_and!; [done| |done].
        apply Forall_app in Hbef as [_ Hbef]. eapply Forall_impl; [done|].
        simpl. intros e' He'. apply (far_mono _ (e_end e)); [|done].
        unfold e_end in *. lia.
      - simpl. rewrite (node_at_flip L). iFrame.
      - by replace ((EB ++ EL ++ [e]) ++ ER ++ EA) with (EB ++ (EL ++ e :: ER) ++ EA)
          by solve_app. }
    (* found *)
    iDestruct "HΦ" as "[_ HΦ]".
    replace ((EB ++ EL) ++ e :: ER ++ EA) with (EB ++ (EL ++ e :: ER) ++ EA)
      by solve_app.
    iApply wp_bind.
    iApply (wp_wand with "[-]").
    { iApply ("HΦ" with "[%] Hk [He Hl Hr] HE").
      - split_and!; try done. lia.
      - iFrame. }
    iIntros ([x'|y]) "H"; wp_steps; done.
Qed.
End rb_wp.

Section rb_tree_wp.
Context {ML : Malloc}.
Implicit Types (E : list extent) (e : extent).

(** ** The tree operations, on the list of extents *)
Lemma exts_tree_intro root k E1 E2 :
  ctx_split k E1 E2 → rb_inv (plug k Leaf) →
  ctx_at root k 0 -∗ exts_at (E1 ++ E2) -∗ exts_tree root (E1 ++ E2).
Proof.
  iIntros ([H1 H2] Hinv) "Hk HE". iExists (plug k Leaf).
  rewrite root_at_plug /=. iFrame. iPureIntro. split; [done|].
  by rewrite inorder_plug fmap_app H1 H2.
Qed.

Lemma wp_rb_find far start root E Φ :
  (∀ a b, a ≤ b → far start b = true → far start a = true) →
  exts_wf 0 E →
  exts_tree root E -∗
  ((∀ k E1 E2,
      ⌜E = E1 ++ E2 ∧ ctx_split k E1 E2 ∧ descend_bounds far start E1 E2 ∧
       rb_inv (plug k Leaf)⌝ -∗
      ctx_at root k 0 -∗ exts_at (E1 ++ E2) -∗
      Φ (inl (ctx_ptr k, ctx_slot root k))) ∧
   (∀ E1 e E2,
      ⌜E = E1 ++ e :: E2 ∧ e_start e ≤ start ∧ far start (e_end e) = false⌝ -∗
      exts_tree root E -∗ Φ (inr (e_addr e)))) -∗
  wp (rb_find far start root) Φ.
Proof.
  iIntros (Hmono Hwf) "(%t & (%Hinv & %HE) & [Htop Ht] & Hex) HΦ".
  unfold rb_find, rb_descend. iApply wp_bind.
  iApply (wp_descend far start _ Hmono root [] t [] E [] tt with "[Htop] Ht [Hex]");
    rewrite /= ?app_nil_r //.
  { by split; constructor. }
  iSplit.
  - iIntros (k E1 E2 (-> & Hk & Hbd & Hplug)) "Hk Hex". wp_steps.
    iDestruct "HΦ" as "[HΦ _]". iApply ("HΦ" with "[%] Hk Hex").
    by rewrite Hplug.
  - iIntros (k c l r E1 EL e ER E2 (-> & Hk & Hl & Hr & Hbd & Hplug & Hs & Hf)) "Hk Ht Hex".
    wp_steps. iDestruct "HΦ" as "[_ HΦ]".
    iApply ("HΦ" $! (E1 ++ EL) e (ER ++ E2) with "[%] [-]").
    + split_and!; [solve_app|done..].
    + iExists t. rewrite -Hplug root_at_plug. iFrame. rewrite Hplug. done.
Qed.

Lemma wp_tree_next root E1 e E2 Φ :
  exts_tree root (E1 ++ e :: E2) -∗
  (exts_tree root (E1 ++ e :: E2) -∗ Φ (opt_ptr (head (addrs E2)))) -∗
  wp (ext2fs_rb_next (e_addr e)) Φ.
Proof.
  iIntros "(%t & (%Hinv & %HE) & Ht & Hex) HΦ". rewrite fmap_app /= in HE.
  iApply (rb_next_spec with "Ht"); [done|]. iIntros (v) "[-> Ht]".
  iApply "HΦ". iExists t. iFrame. by rewrite fmap_app.
Qed.

Lemma wp_tree_prev root E1 e E2 Φ :
  exts_tree root (E1 ++ e :: E2) -∗
  (exts_tree root (E1 ++ e :: E2) -∗ Φ (opt_ptr (last (addrs E1)))) -∗
  wp (ext2fs_rb_prev (e_addr e)) Φ.
Proof.
  iIntros "(%t & (%Hinv & %HE) & Ht & Hex) HΦ". rewrite fmap_app /= in HE.
  iApply (rb_prev_spec with "Ht"); [done|]. iIntros (v) "[-> Ht]".
  iApply "HΦ". iExists t. iFrame. by rewrite fmap_app.
Qed.

Lemma wp_tree_first root E Φ :
  exts_tree root E -∗ (exts_tree root E -∗ Φ (opt_ptr (head (addrs E)))) -∗
  wp (ext2fs_rb_first root) Φ.
Proof.
  iIntros "(%t & (%Hinv & %HE) & Ht & Hex) HΦ".
  iApply (rb_first_spec with "Ht"). iIntros (v) "[-> Ht]". rewrite HE.
  iApply "HΦ". iExists t. by iFrame.
Qed.

Lemma wp_tree_last root E Φ :
  exts_tree root E -∗ (exts_tree root E -∗ Φ (opt_ptr (last (addrs E)))) -∗
  wp (ext2fs_rb_last root) Φ.
Proof.
  iIntros "(%t & (%Hinv & %HE) & Ht & Hex) HΦ".
  iApply (rb_last_spec with "Ht"). iIntros (v) "[-> Ht]". rewrite HE.
  iApply "HΦ". iExists t. by iFrame.
Qed.

Lemma wp_tree_erase root E1 e E2 Φ :
  exts_tree root (E1 ++ e :: E2) -∗
  (exts_tree root (E1 ++ E2) -∗ ext_block (e_addr e) -∗ Φ tt) -∗
  wp (ext2fs_rb_erase (e_addr e) root) Φ.
Proof.
  iIntros "(%t & (%Hinv & %HE) & Ht & Hex) HΦ". rewrite fmap_app /= in HE.
  iApply (erase_spec with "Ht"); [done..|].
  iIntros ([]) "(%t' & (%Hinv' & %HE') & Ht & Ha)". rewrite exts_at_mid.
  iDestruct "Hex" as "([Hs Hc] & H1 & H2)". iApply ("HΦ" with "[Ht H1 H2]").
  - iExists t'. rewrite exts_at_app fmap_app. by iFrame.
  - rewrite !pointsto_owns. iFrame.
Qed.

Lemma wp_tree_insert {B} root k E1 a s c E2 (m : M B) Φ :
  ctx_split k E1 E2 → rb_inv (plug k Leaf) →
  ctx_at root k 0 -∗ exts_at (E1 ++ E2) -∗ node_cells a -∗
  ext_at (Extent a s c) -∗
  (exts_tree root (E1 ++ Extent a s c :: E2) -∗ wp m Φ) -∗
  wp (ext2fs_rb_link_node a (ctx_ptr k) (ctx_slot root k) ;;
      ext2fs_rb_insert_color a root ;; m) Φ.
Proof.
  iIntros ([H1 H2] Hinv) "Hk Hex Ha He HΦ".
  iApply wp_assoc. iApply wp_bind.
  iApply (link_insert_spec with "[$Hk $Ha]"); [done|].
  iIntros ([]) "(%t & (%Hinv' & %HE) & Ht)". iApply "HΦ".
  iExists t. rewrite exts_at_mid exts_at_app. iFrame. iPureIntro.
  split; [done|]. by rewrite HE fmap_app /= H1 H2.
Qed.

(** An extent of the tree, taken out and put back. *)
Lemma exts_tree_exts root E :
  exts_tree root E ⊢ exts_at E ∗ (∀ E', ⌜addrs E' = addrs E⌝ -∗ exts_at E' -∗ exts_tree root E').
Proof.
  iIntros "(%t & (%Hinv & %HE) & Ht & $)". iIntros (E' Heq) "HE'".
  iExists t. iFrame. by rewrite Heq.
Qed.

Lemma exts_tree_facts root E :
  exts_tree root E ⊢ ⌜NoDup (addrs E) ∧ Forall (λ e, 0 < e_addr e) E⌝.
Proof.
  iIntros "(%t & (%Hinv & %HE) & [Htop Ht] & Hex)".
  iDestruct (tree_at_NoDup with "Ht") as %Hnd. rewrite HE in Hnd.
  iSplit; [done|]. rewrite Forall_forall. iIntros (e He).
  assert (e_addr e ∈ inorder t) as Hin by (rewrite HE; by apply list_elem_of_fmap_2).
  apply list_elem_of_split in Hin as (l1 & l2 & Hin).
  destruct (inorder_split _ _ _ _ Hin) as (k & c & l & r & -> & _).
  iAssert (root_at root (plug k (Node c l (e_addr e) r))) with "[$]" as "H".
  rewrite root_at_plug /=. iDestruct "H" as "(_ & Ha & _)".
  by iDestruct (node_at_facts with "Ha") as %[[??] ?].
Qed.

Lemma wp_tree_start root E1 e E2 Φ :
  exts_tree root (E1 ++ e :: E2) -∗
  (exts_tree root (E1 ++ e :: E2) -∗ Φ (e_start e)) -∗
  wp (load (ext_start (e_addr e))) Φ.
Proof.
  iIntros "H HΦ". iDestruct (exts_tree_exts with "H") as "[Hex H]".
  iApply (wp_ext_start with "Hex"). iIntros "Hex". iApply "HΦ". by iApply "H".
Qed.

Lemma wp_tree_count root E1 e E2 Φ :
  exts_tree root (E1 ++ e :: E2) -∗
  (exts_tree root (E1 ++ e :: E2) -∗ Φ (e_count e)) -∗
  wp (load (ext_count (e_addr e))) Φ.
Proof.
  iIntros "H HΦ". iDestruct (exts_tree_exts with "H") as "[Hex H]".
  iApply (wp_ext_count with "Hex"). iIntros "Hex". iApply "HΦ". by iApply "H".
Qed.

Lemma wp_tree_end root E1 e E2 Φ :
  0 ≤ e_end e < 2^64 →
  exts_tree root (E1 ++ e :: E2) -∗
  (exts_tree root (E1 ++ e :: E2) -∗ Φ (e_end e)) -∗
  wp (load_ext_end (e_addr e)) Φ.
Proof.
  iIntros (He) "H HΦ". iDestruct (exts_tree_exts with "H") as "[Hex H]".
  iApply (wp_ext_end with "Hex"); [done|]. iIntros "Hex". iApply "HΦ". by iApply "H".
Qed.

Lemma wp_tree_set_start root E1 a s c E2 s' Φ :
  exts_tree root (E1 ++ Extent a s c :: E2) -∗
  (exts_tree root (E1 ++ Extent a s' c :: E2) -∗ Φ tt) -∗
  wp (store (ext_start a) s') Φ.
Proof.
  iIntros "H HΦ". iDestruct (exts_tree_exts with "H") as "[Hex H]".
  iApply (wp_set_ext_start with "Hex"). iIntros "Hex". iApply "HΦ".
  iApply ("H" with "[%] Hex"). by rewrite !fmap_app.
Qed.

Lemma wp_tree_set_count root E1 a s c E2 c' Φ :
  exts_tree root (E1 ++ Extent a s c :: E2) -∗
  (exts_tree root (E1 ++ Extent a s c' :: E2) -∗ Φ tt) -∗
  wp (store (ext_count a) c') Φ.
Proof.
  iIntros "H HΦ". iDestruct (exts_tree_exts with "H") as "[Hex H]".
  iApply (wp_set_ext_count with "Hex"). iIntros "Hex". iApply "HΦ".
  iApply ("H" with "[%] Hex"). by rewrite !fmap_app.
Qed.
End rb_tree_wp.

(** ** The private structure *)

(** A cursor is NULL or an extent of the tree; [rcursor_next], when it is used,
    is the extent after [rcursor]. *)
Definition is_cursor (l : list Z) (p : Z) : Prop := p = 0 ∨ p ∈ l.

Definition next_of (l : list Z) (r rn : Z) : Prop :=
  ∃ l1 l2, l = l1 ++ r :: l2 ∧ rn = opt_ptr (head l2).

Definition cursors_ok (l : list Z) (w r rn : Z) : Prop :=
  is_cursor l w ∧ is_cursor l r ∧ (r = 0 ∨ rn = 0 ∨ next_of l r rn).

Definition cursors_at (bp w r rn : Z) : hProp :=
  (bp_wcursor bp ↦ w ∗ bp_rcursor bp ↦ r ∗ bp_rcursor_next bp ↦ rn)%I.

Definition rb_private (bp : Z) (E : list extent) : hProp :=
  ∃ w r rn, ⌜cursors_ok (addrs E) w r rn⌝ ∗ cursors_at bp w r rn ∗
    exts_tree (bp_root bp) E.

Definition drop_cursor (a p : Z) : Z := if decide (p = a) then 0 else p.

Lemma is_cursor_drop l1 a l2 p :
  is_cursor (l1 ++ a :: l2) p → is_cursor (l1 ++ l2) (drop_cursor a p).
Proof.
  unfold is_cursor, drop_cursor. case_decide; [by left|].
  rewrite !elem_of_app elem_of_cons. tauto.
Qed.

Lemma is_cursor_mid l1 a l2 : is_cursor (l1 ++ a :: l2) a.
Proof. right. rewrite elem_of_app elem_of_cons. auto. Qed.

Lemma is_cursor_insert l1 a l2 p : is_cursor (l1 ++ l2) p → is_cursor (l1 ++ a :: l2) p.
Proof. unfold is_cursor. rewrite !elem_of_app elem_of_cons. tauto. Qed.

Lemma cursors_ok_drop l1 a l2 w r rn :
  cursors_ok (l1 ++ a :: l2) w r rn →
  cursors_ok (l1 ++ l2) (drop_cursor a w) (drop_cursor a r) (drop_cursor a rn).
Proof.
  intros (Hw & Hr & Hrn). split_and!; [by apply is_cursor_drop..|].
  unfold drop_cursor. case_decide as Ha; [by left|]. case_decide as Hn; [by right; left|].
  destruct Hrn as [?|[?|(m1 & m2 & Heq & ->)]]; [by left|by right; left|right; right].
  apply app_cons_split in Heq as [(m & -> & ->)|[(-> & ? & ->)|(m & -> & ->)]].
  - exists m1, (m ++ l2). split; [solve_app|]. by destruct m.
  - done.
  - exists (l1 ++ m), m2. split; [solve_app|done].
Qed.

Section insert.
Context {ML : Malloc}.
Implicit Types (E : list extent) (e : extent).

Lemma wp_free_extent bp w r rn a Φ :
  cursors_at bp w r rn -∗ ext_block a -∗
  (cursors_at bp (drop_cursor a w) (drop_cursor a r) (drop_cursor a rn) -∗ Φ tt) -∗
  wp (rb_free_extent bp a) Φ.
Proof.
  iIntros "(Hw & Hr & Hrn) Ha HΦ". unfold rb_free_extent. wp_load.
  assert (∀ p q Ψ, p ↦ q -∗ (p ↦ drop_cursor a q -∗ Ψ tt) -∗
    wp (if bool_decide (q = a) then store p 0 else mret tt) Ψ) as Hset.
  { iIntros (p q Ψ) "Hp HΨ". unfold drop_cursor. case_bool_decide.
    - rewrite decide_True //. wp_store. by iApply "HΨ".
    - rewrite decide_False //. wp_steps. by iApply "HΨ". }
  wp_apply (Hset with "Hw"). iIntros "Hw". wp_load.
  wp_apply (Hset with "Hr"). iIntros "Hr". wp_load.
  wp_apply (Hset with "Hrn"). iIntros "Hrn".
  rewrite owns_ext_block. iDestruct "Ha" as (Ha) "Ha".
  iApply wp_free; [done|lia|]. iFrame "Ha". iApply "HΦ". iFrame.
Qed.

(** Erasing an extent and freeing it, as the code always does in a row. *)
Lemma wp_erase_free {B} bp E1 e E2 (m : M B) Φ :
  rb_private bp (E1 ++ e :: E2) -∗
  (rb_private bp (E1 ++ E2) -∗ wp m Φ) -∗
  wp (ext2fs_rb_erase (e_addr e) (bp_root bp) ;; rb_free_extent bp (e_addr e) ;; m) Φ.
Proof.
  iIntros "(%w & %r & %rn & %Hok & Hcur & Ht) HΦ".
  wp_apply (wp_tree_erase with "Ht"). iIntros "Ht Ha".
  wp_apply (wp_free_extent with "Hcur Ha"). iIntros "Hcur". iApply "HΦ".
  iExists _, _, _. iFrame. iPureIntro. rewrite fmap_app /= in Hok.
  rewrite fmap_app. by apply cursors_ok_drop.
Qed.

Lemma rb_private_tree bp E :
  rb_private bp E ⊢ exts_tree (bp_root bp) E ∗
    (∀ E', ⌜addrs E' = addrs E⌝ -∗ exts_tree (bp_root bp) E' -∗ rb_private bp E').
Proof.
  iIntros "(%w & %r & %rn & %Hok & Hcur & $)". iIntros (E' Heq) "Ht".
  iExists w, r, rn. rewrite Heq. by iFrame.
Qed.

(** ** Merging to the right *)
Lemma merge_loop_spec bp start P E lo count Φ :
  exts_wf lo E → 0 ≤ start < lo → 0 < count → start + count < 2^64 →
  rb_private bp (P ++ E) -∗
  (∀ E' count',
     ⌜exts_wf (start + count' + 1) E' ∧ count ≤ count' ∧ start + count' < 2^64 ∧
      zrange start count' ∪ ext_set E' = zrange start count ∪ ext_set E⌝ -∗
     rb_private bp (P ++ E') -∗ Φ count') -∗
  wp (loop (merge_step bp start) (opt_ptr (head (addrs E)), count)) Φ.
Proof.
  revert lo count. induction E as [|e E IH]; intros lo count;
    iIntros (Hwf Hst Hc Hsc) "H HΦ"; wp_loop merge_step.
  - wp_steps. iApply ("HΦ" $! [] with "[%] H"). simpl. split_and!; [done|lia..|done].
  - destruct Hwf as (Hlo & Hce & Hee & Hwf).
    iDestruct (rb_private_tree with "H") as "[Ht H]".
    iDestruct (exts_tree_facts with "Ht") as %[_ Hpos].
    apply Forall_app in Hpos as [_ [Hpos _]%Forall_cons].
    rewrite bool_decide_eq_false_2; [|lia].
    wp_apply (wp_tree_next with "Ht"). iIntros "Ht".
    wp_apply (wp_tree_end with "Ht"); [unfold e_end in *; lia|]. iIntros "Ht".
    rewrite bool_decide_eq_false_2; [|unfold e_end; lia].
    wp_apply (wp_tree_start with "Ht"). iIntros "Ht".
    iDestruct ("H" with "[%] Ht") as "H"; [done|]. wrap.
    case_bool_decide as Hgap.
    { wp_steps. iApply ("HΦ" $! (e :: E) with "[%] H"). simpl. split_and!; try done; lia. }
    case_bool_decide as Hemb.
    { iApply (wp_erase_free with "H"). iIntros "H". wp_steps.
      iApply (IH (e_end e + 1) count with "H"); [done|unfold e_end in *; lia|done..|].
      iIntros (E' count' (Hwf' & Hle & Hlt & Heq)) "H".
      iApply ("HΦ" $! E' with "[%] H"). split_and!; [done..|].
      rewrite Heq. unfold e_end in *. set_lia. }
    iApply (wp_erase_free with "H"). iIntros "H". wp_steps.
    unfold e_end in *. wrap.
    replace (count + (e_start e + e_count e - (start + count)))
      with (e_start e + e_count e - start) by lia.
    iApply ("HΦ" $! E with "[%] H"). split_and!; [|lia|lia|set_lia].
    by replace (start + (e_start e + e_count e - start) + 1) with (e_start e + e_count e + 1) by lia.
Qed.

Lemma insert_skip_spec bp start count a s0 c0 E1 E2 lo v Φ :
  exts_wf 0 E1 → Forall (λ e, e_end e < start) E1 →
  exts_wf lo E2 → 0 ≤ start < lo → 0 < count → start + count < 2^64 →
  rb_private bp (E1 ++ Extent a s0 c0 :: E2) -∗
  (∀ E', ⌜exts_wf 0 E' ∧
      ext_set E' = ext_set E1 ∪ zrange start count ∪ ext_set E2⌝ -∗
     rb_private bp E' -∗ Φ v) -∗
  wp (insert_skip bp start count a v) Φ.
Proof.
  iIntros (Hwf1 Hb1 Hwf2 Hst Hc Hsc) "H HΦ". unfold insert_skip.
  iDestruct (rb_private_tree with "H") as "[Ht H]".
  wp_apply (wp_tree_next _ E1 (Extent a s0 c0) with "Ht"). iIntros "Ht".
  iDestruct ("H" with "[%] Ht") as "H"; [done|].
  rewrite (cons_middle _ E1) app_assoc.
  wp_apply (merge_loop_spec with "H"); [done..|].
  iIntros (E' count' (Hwf' & Hle & Hlt & Heq)) "H". rewrite -app_assoc /=.
  iDestruct (rb_private_tree with "H") as "[Ht H]".
  wp_apply (wp_tree_set_start with "Ht"). iIntros "Ht".
  wp_apply (wp_tree_set_count with "Ht"). iIntros "Ht". wp_steps.
  iDestruct ("H" with "[%] Ht") as "H"; [by rewrite !fmap_app|].
  iApply ("HΦ" with "[%] H"). split.
  - apply exts_wf_mid. unfold e_end at 2 3. simpl. split_and!; [done..|lia|lia|lia|done].
  - rewrite ext_set_app /= -!assoc_L Heq. done.
Qed.

Lemma insert_got_spec bp start count E1 e E2 Φ :
  exts_wf 0 (E1 ++ e :: E2) → e_start e ≤ start ≤ e_end e →
  0 < count → start + count < 2^64 →
  rb_private bp (E1 ++ e :: E2) -∗
  (∀ E', ⌜exts_wf 0 E' ∧
      ext_set E' = zrange start count ∪ ext_set (E1 ++ e :: E2)⌝ -∗
     rb_private bp E' -∗ Φ (if decide (start = e_end e) then 0 else 1)) -∗
  wp (insert_got_extent bp start count (e_addr e)) Φ.
Proof.
  iIntros (Hwf Hin Hc Hsc) "H HΦ". unfold insert_got_extent.
  pose proof Hwf as (Hwf1 & Hb1 & Hlo & Hce & Hee & Hwf2)%exts_wf_mid.
  iDestruct (rb_private_tree with "H") as "[Ht H]".
  wp_apply (wp_tree_end with "Ht"); [unfold e_end in *; lia|]. iIntros "Ht". wrap.
  case_bool_decide as Hfull.
  { iDestruct ("H" with "[%] Ht") as "H"; [done|]. wp_steps.
    rewrite decide_False; [|lia].
    iApply ("HΦ" with "[%] H"). split; [done|].
    rewrite !ext_set_app /=. unfold e_end in *. set_lia. }
  wp_apply (wp_tree_start with "Ht"). iIntros "Ht".
  iDestruct ("H" with "[%] Ht") as "H"; [done|].
  unfold e_end in *. wrap. destruct e as [a s c]; simpl in *.
  iApply (insert_skip_spec with "H"); [done|done|exact Hwf2|lia|lia|lia|].
  iIntros (E' (Hwf' & Heq)) "H".
  replace (if bool_decide (s + c = start) then 0 else 1)
    with (if decide (start = s + c) then 0 else 1) by (case_decide; case_bool_decide; lia).
  iApply ("HΦ" with "[%] H"). split; [done|].
  rewrite Heq ext_set_app /=. set_lia.
Qed.
End insert.

(** The value the C functions return for a bit: 1 or 0. *)
Definition bit_of (B : gset Z) (x : Z) : Z := if decide (x ∈ B) then 1 else 0.

Lemma bit_of_true B x : x ∈ B → bit_of B x = 1.
Proof. intros. unfold bit_of. by rewrite decide_True. Qed.

Lemma bit_of_false B x : x ∉ B → bit_of B x = 0.
Proof. intros. unfold bit_of. by rewrite decide_False. Qed.

Lemma exts_wf_after lo b E : exts_wf lo E → exts_after b E → exts_wf (b + 1) E.
Proof.
  destruct E as [|e E]; simpl; [done|]. intros (? & ? & ? & ?) [? _]%Forall_cons.
  split_and!; [lia|done..].
Qed.

Lemma exts_after_tail b E1 e E2 :
  exts_wf b (E1 ++ e :: E2) → exts_after (e_end e) E2.
Proof.
  intros (_ & _ & _ & _ & _ & Hwf)%exts_wf_mid.
  pose proof (exts_after_wf _ _ Hwf) as Haf. by rewrite Z.add_simpl_r in Haf.
Qed.

(** The bit [x] of a list, read off the extent around it. *)
Lemma ext_set_hit lo E1 e E2 x :
  exts_wf lo (E1 ++ e :: E2) → e_start e ≤ x < e_end e →
  x ∈ ext_set (E1 ++ e :: E2).
Proof.
  intros Hwf Hx. rewrite ext_set_app /= !elem_of_union elem_of_zrange.
  unfold e_end in *. lia.
Qed.

Lemma ext_set_miss E1 E2 x :
  exts_before x E1 → exts_after x E2 → x ∉ ext_set (E1 ++ E2).
Proof.
  intros H1 H2. rewrite ext_set_app elem_of_union. intros [H|H].
  - apply (exts_before_set _ _ _ H1) in H. lia.
  - apply (exts_after_set _ _ _ H2) in H. lia.
Qed.

Lemma elem_of_addrs E p : p ∈ addrs E → ∃ E1 e E2, E = E1 ++ e :: E2 ∧ p = e_addr e.
Proof.
  intros (l1 & l2 & Heq)%list_elem_of_split.
  apply addrs_app_inv in Heq as (E1 & e & E2 & -> & _ & -> & _). by exists E1, e, E2.
Qed.

Section insert_extent.
Context {ML : Malloc}.
Implicit Types (E : list extent) (e : extent).

Lemma wp_get_new_extent start count Φ :
  (∀ a, node_cells a -∗ ext_at (Extent a start count) -∗ Φ a) -∗
  wp (rb_get_new_extent start count) Φ.
Proof.
  iIntros "HΦ". unfold rb_get_new_extent. wp_apply wp_get_mem; [done|].
  iSplit.
  - iIntros (a Ha) "Ha". rewrite ext_block_owns //. simpl.
    iDestruct "Ha" as "(Ha & Hs & Hc)". wp_steps.
    iApply ("HΦ" with "Ha"). iFrame.
  - iIntros (Hf). simpl. iApply wp_abort. done.
Qed.

(** The part of [rb_insert_extent] after a failed search. *)
Lemma insert_new_spec bp k E1 E2 start count w r Φ :
  exts_wf 0 (E1 ++ E2) → 0 ≤ start → 0 < count → start + count < 2^64 →
  ctx_split k E1 E2 → descend_bounds strictly_after start E1 E2 →
  rb_inv (plug k Leaf) → is_cursor (addrs (E1 ++ E2)) r →
  cursors_at bp w r 0 -∗ ctx_at (bp_root bp) k 0 -∗ exts_at (E1 ++ E2) -∗
  (∀ E', ⌜exts_wf 0 E' ∧ ext_set E' = zrange start count ∪ ext_set (E1 ++ E2)⌝ -∗
     rb_private bp E' -∗ Φ 0) -∗
  wp (new_ext ← rb_get_new_extent start count;
      ext2fs_rb_link_node new_ext (ctx_ptr k) (ctx_slot (bp_root bp) k) ;;
      ext2fs_rb_insert_color new_ext (bp_root bp) ;;
      store (bp_wcursor bp) new_ext ;;
      node ← ext2fs_rb_prev new_ext;
      sc ← (if bool_decide (node ≠ 0) then
              e ← load_ext_end node;
              if bool_decide (e = start) then
                s ← load (ext_start node);
                c ← load (ext_count node);
                ext2fs_rb_erase node (bp_root bp) ;;
                rb_free_extent bp node ;;
                mret (s, u64 (count + c))
              else mret (start, count)
            else mret (start, count));
      insert_skip bp sc.1 sc.2 new_ext 0) Φ.
Proof.
  iIntros (Hwf Hst Hc Hsc Hk [Hbef Haft] Hinv Hr) "(Hw & Hr & Hrn) Hk HE HΦ".
  wp_apply wp_get_new_extent. iIntros (a) "Ha Hea".
  iApply (wp_tree_insert with "Hk HE Ha Hea"); [done..|]. iIntros "Ht". wp_store.
  wp_apply (wp_tree_prev with "Ht"). iIntros "Ht".
  iAssert (rb_private bp (E1 ++ Extent a start count :: E2)) with "[Hw Hr Hrn Ht]" as "H".
  { iExists a, r, 0. iFrame. iPureIntro. rewrite fmap_app in Hr. rewrite fmap_app /=.
    split_and!; [apply is_cursor_mid|by apply is_cursor_insert|by right; left]. }
  apply exts_wf_app in Hwf as Hwf12. destruct Hwf12 as [Hwf1 Hwf2].
  assert (Forall (λ e, e_end e < start) E1) as Hlt.
  { eapply Forall_impl; [exact Hbef|]. simpl. intros e. unfold strictly_after.
    rewrite bool_decide_eq_true. done. }
  iAssert (wp (if bool_decide (opt_ptr (last (addrs E1)) ≠ 0) then
      e ← load_ext_end (opt_ptr (last (addrs E1)));
      if bool_decide (e = start) then
        s ← load (ext_start (opt_ptr (last (addrs E1))));
        c ← load (ext_count (opt_ptr (last (addrs E1))));
        ext2fs_rb_erase (opt_ptr (last (addrs E1))) (bp_root bp) ;;
        rb_free_extent bp (opt_ptr (last (addrs E1))) ;;
        mret (s, u64 (count + c))
      else mret (start, count)
    else mret (start, count))
    (λ sc, ⌜sc = (start, count)⌝ ∗ rb_private bp (E1 ++ Extent a start count :: E2)))%I
    with "[H]" as "Hwp".
  { destruct E1 as [|e0 E1 _] using rev_ind; [simpl; wp_steps; by iFrame|].
    rewrite fmap_app /= last_snoc /=. case_bool_decide; [|wp_steps; by iFrame].
    apply Forall_app in Hlt as [_ [Hlt _]%Forall_cons].
    destruct (exts_wf_elem _ _ e0 Hwf1) as (? & ? & ?); [set_solver|].
    rewrite -app_assoc /=. iDestruct (rb_private_tree with "H") as "[Ht H]".
    wp_apply (wp_tree_end with "Ht"); [unfold e_end in *; lia|]. iIntros "Ht".
    rewrite bool_decide_eq_false_2; [|lia]. wp_steps. iSplit; [done|].
    by iApply ("H" with "[%] Ht"). }
  iApply wp_bind. iApply (wp_wand with "Hwp"). iIntros (sc) "[-> H]". simpl.
  pose proof (exts_wf_after _ _ _ Hwf2 Haft) as Hwf2'.
  iApply (insert_skip_spec with "H"); [done|done|exact Hwf2'|lia|done|done|].
  iIntros (E' (Hwf' & Heq)) "H". iApply ("HΦ" with "[%] H"). split; [done|].
  rewrite Heq ext_set_app. set_lia.
Qed.

(** [insert_got_spec], with the returned value as a bit. *)
Lemma insert_got_bit_spec bp E1 e E2 start count Φ :
  exts_wf 0 (E1 ++ e :: E2) → e_start e ≤ start ≤ e_end e →
  0 < count → start + count < 2^64 →
  rb_private bp (E1 ++ e :: E2) -∗
  (∀ E', ⌜exts_wf 0 E' ∧
      ext_set E' = zrange start count ∪ ext_set (E1 ++ e :: E2)⌝ -∗
     rb_private bp E' -∗ Φ (bit_of (ext_set (E1 ++ e :: E2)) start)) -∗
  wp (insert_got_extent bp start count (e_addr e)) Φ.
Proof.
  iIntros (Hwf Hin Hc Hsc) "H HΦ".
  replace (bit_of (ext_set (E1 ++ e :: E2)) start)
    with (if decide (start = e_end e) then 0 else 1); [by iApply (insert_got_spec with "H")|].
  symmetry. case_decide as Hend.
  - apply bit_of_false. pose proof Hwf as (_ & Hb & _ & Hce & _ & Hwf2)%exts_wf_mid.
    rewrite ext_set_app /= !elem_of_union elem_of_zrange.
    intros [H1|[H1|H1]]; [|unfold e_end in *; lia|].
    + apply (exts_before_set (e_start e)) in H1; [unfold e_end in *; lia|].
      eapply Forall_impl; [exact Hb|]. simpl. intros; lia.
    + eapply exts_wf_range in H1; [|done]. lia.
  - apply bit_of_true. eapply ext_set_hit; [done|lia].
Qed.

(** A cursor that is not NULL, tested. *)
Lemma wp_cursor_test root E w Φ (test : Z → Z → bool) :
  exts_wf 0 E → is_cursor (addrs E) w → w ≠ 0 →
  exts_tree root E -∗
  (∀ E1 e E2, ⌜E = E1 ++ e :: E2 ∧ w = e_addr e⌝ -∗ exts_tree root E -∗
     Φ (test (e_start e) (e_end e))) -∗
  wp (s ← load (ext_start w); e ← load_ext_end w; mret (test s e)) Φ.
Proof.
  iIntros (Hwf [?|Hw] Hw0) "Ht HΦ"; [done|].
  apply elem_of_addrs in Hw as (E1 & e & E2 & -> & ->).
  wp_apply (wp_tree_start with "Ht"). iIntros "Ht".
  pose proof Hwf as (_ & _ & ? & ? & ? & _)%exts_wf_mid.
  wp_apply (wp_tree_end with "Ht"); [unfold e_end in *; lia|]. iIntros "Ht". wp_steps.
  iApply ("HΦ" with "[%] Ht"). done.
Qed.

Lemma strictly_after_mono start a b :
  a ≤ b → strictly_after start b = true → strictly_after start a = true.
Proof. unfold strictly_after. rewrite !bool_decide_eq_true. lia. Qed.

Lemma at_or_after_mono start a b :
  a ≤ b → at_or_after start b = true → at_or_after start a = true.
Proof. unfold at_or_after. rewrite !bool_decide_eq_true. lia. Qed.

Lemma insert_extent_spec bp E start count Φ :
  exts_wf 0 E → 0 ≤ start → 0 ≤ count → start + count < 2^64 →
  rb_private bp E -∗
  (∀ E', ⌜exts_wf 0 E' ∧ ext_set E' = zrange start count ∪ ext_set E⌝ -∗
     rb_private bp E' -∗
     Φ (if decide (count = 0) then 0 else bit_of (ext_set E) start)) -∗
  wp (rb_insert_extent start count bp) Φ.
Proof.
  iIntros (Hwf Hst Hc Hsc) "Hp HΦ". unfold rb_insert_extent. case_bool_decide as Hc0.
  { wp_steps. rewrite decide_True //. iApply ("HΦ" with "[%] Hp"). split; [done|].
    rewrite zrange_empty; [|lia]. set_solver. }
  rewrite decide_False //.
  iDestruct "Hp" as "(%w & %r & %rn & (%Hw & %Hr & _) & (Hw & Hr & Hrn) & Ht)".
  wp_store. wp_load. iApply wp_bind.
  iApply (wp_wand _ (λ hit, exts_tree (bp_root bp) E ∗
      ⌜if (hit : bool) then ∃ E1 e E2, E = E1 ++ e :: E2 ∧ e_start e ≤ start ≤ e_end e ∧ w = e_addr e
      else True⌝)%I with "[Ht]").
  { case_bool_decide as Hw0; [|wp_steps; by iFrame].
    iApply (wp_cursor_test _ _ _ _ (λ lo hi, bool_decide (lo ≤ start ∧ start ≤ hi)) with "Ht"); [done..|].
    iIntros (E1 e E2 (-> & ->)) "$". iPureIntro. case_bool_decide; [|done]. eauto 10. }
  iIntros ([]) "[Ht %Hhit]".
  - destruct Hhit as (E1 & e & E2 & -> & Hin & ->).
    iApply (insert_got_bit_spec with "[-HΦ] HΦ"); [done..|lia|done|].
    iExists _, _, 0. iFrame. iPureIntro. split_and!; [done..|by right; left].
  - iApply wp_bind. iApply (wp_rb_find with "Ht"); [apply strictly_after_mono|done|].
    iSplit.
    + iIntros (k E1 E2 (-> & Hk & Hbd & Hinv)) "Hk HE".
      iApply (insert_new_spec with "[$Hw $Hr $Hrn] Hk HE"); [done|done|lia|done..|].
      iIntros (E') "% H".
      rewrite bit_of_false; [by iApply ("HΦ" with "[%] H")|].
      destruct Hbd as [Hb Ha]. apply ext_set_miss; [|done].
      eapply Forall_impl; [exact Hb|]. simpl. intros e. unfold strictly_after.
      rewrite bool_decide_eq_true. lia.
    + iIntros (E1 e E2 (-> & Hle & Hnf)) "Ht".
      apply bool_decide_eq_false in Hnf.
      iApply (insert_got_bit_spec with "[-HΦ] HΦ"); [done|lia|lia|done|].
      iExists _, _, 0. iFrame. iPureIntro. split_and!; [done..|by right; left].
Qed.
End insert_extent.

(** ** Testing a bit *)
Section test_bit.
Context {ML : Malloc}.
Implicit Types (E : list extent) (e : extent).

Lemma next_of_unique l l1 r l2 rn :
  NoDup l → l = l1 ++ r :: l2 → next_of l r rn → rn = opt_ptr (head l2).
Proof.
  intros Hnd -> (m1 & m2 & Heq & ->). rewrite NoDup_app NoDup_cons in Hnd.
  destruct Hnd as (_ & Hd & Hr & _).
  apply app_cons_split in Heq as [(m & -> & ->)|[(_ & _ & ->)|(m & -> & ->)]]; [|done|].
  - exfalso. apply (Hd r); rewrite ?elem_of_app ?elem_of_cons; auto.
  - exfalso. apply Hr. rewrite elem_of_app elem_of_cons. auto.
Qed.

(** A bit in the gap after an extent is clear. *)
Lemma ext_set_gap E1 e E2 x :
  exts_wf 0 (E1 ++ e :: E2) → e_end e ≤ x →
  (∀ e2, head E2 = Some e2 → x < e_start e2) → x ∉ ext_set (E1 ++ e :: E2).
Proof.
  intros Hwf Hx Hn. pose proof Hwf as (_ & Hb & _ & Hc & _ & Hwf2)%exts_wf_mid.
  replace (E1 ++ e :: E2) with ((E1 ++ [e]) ++ E2) by solve_app. apply ext_set_miss.
  - apply Forall_app. split; [|by constructor]. eapply Forall_impl; [exact Hb|].
    simpl. unfold e_end in *. intros; lia.
  - destruct E2 as [|e2 E2]; [constructor|]. specialize (Hn e2 eq_refl).
    destruct Hwf2 as (_ & ? & _ & Hwf2). constructor; [done|].
    apply exts_after_wf in Hwf2. eapply Forall_impl; [exact Hwf2|].
    simpl. unfold e_end in *. intros; lia.
Qed.

Lemma descend_miss E1 E2 x :
  descend_bounds at_or_after x E1 E2 → x ∉ ext_set (E1 ++ E2).
Proof.
  intros [Hb Ha]. apply ext_set_miss; [|done].
  eapply Forall_impl; [exact Hb|]. simpl. intros e. unfold at_or_after.
  by rewrite bool_decide_eq_true.
Qed.

Lemma descend_hit E1 e E2 x :
  exts_wf 0 (E1 ++ e :: E2) → e_start e ≤ x → at_or_after x (e_end e) = false →
  x ∈ ext_set (E1 ++ e :: E2).
Proof.
  intros Hwf Hle Hf%bool_decide_eq_false. eapply ext_set_hit; [done|lia].
Qed.

Lemma test_bit_search_spec bp E b Φ :
  exts_wf 0 E →
  rb_private bp E -∗ (rb_private bp E -∗ Φ (bit_of (ext_set E) b)) -∗
  wp (test_bit_search bp b) Φ.
Proof.
  iIntros (Hwf) "(%w & %r & %rn & %Hok & Hcur & Ht) HΦ". unfold test_bit_search.
  iApply wp_bind. iApply (wp_rb_find with "Ht"); [apply at_or_after_mono|done|]. iSplit.
  - iIntros (k E1 E2 (-> & Hk & Hbd & Hinv)) "Hk HE". wp_steps.
    rewrite bit_of_false; [|by apply descend_miss].
    iApply "HΦ". iExists w, r, rn. iFrame "Hcur". iSplit; [done|].
    iApply (exts_tree_intro with "Hk HE"); done.
  - iIntros (E1 e E2 (-> & Hle & Hf)) "Ht". iDestruct "Hcur" as "(Hw & Hr & Hrn)".
    wp_steps. rewrite bit_of_true; [|by eapply descend_hit].
    iApply "HΦ". iExists w, (e_addr e), 0. iFrame. iPureIntro.
    destruct Hok as (Hw & _). rewrite fmap_app /=. rewrite fmap_app /= in Hw.
    split_and!; [done|apply is_cursor_mid|by right; left].
Qed.

Lemma in_extent_spec root E w b Φ :
  exts_wf 0 E → is_cursor (addrs E) w → w ≠ 0 →
  exts_tree root E -∗
  (∀ E1 e E2, ⌜E = E1 ++ e :: E2 ∧ w = e_addr e⌝ -∗ exts_tree root E -∗
     Φ (bool_decide (e_start e ≤ b ∧ b < e_end e))) -∗
  wp (in_extent b w) Φ.
Proof.
  iIntros (Hwf Hw Hw0) "Ht HΦ". unfold in_extent.
  iApply (wp_cursor_test _ _ _ _ (λ lo hi, bool_decide (lo ≤ b ∧ b < hi)) with "Ht"); done.
Qed.

(** The part of [rb_test_bit] after the read cursor has not answered. *)
Lemma test_bit_wcursor_spec bp E w r rn b Φ :
  exts_wf 0 E → is_cursor (addrs E) w →
  cursors_at bp w r rn -∗ exts_tree (bp_root bp) E -∗
  (rb_private bp E -∗ Φ (bit_of (ext_set E) b)) -∗
  wp (store (bp_rcursor bp) 0 ;;
      store (bp_rcursor_next bp) 0 ;;
      wcursor ← load (bp_wcursor bp);
      if bool_decide (wcursor = 0) then test_bit_search bp b else
      hit ← in_extent b wcursor;
      if (hit : bool) then mret 1 else test_bit_search bp b) Φ.
Proof.
  iIntros (Hwf Hw) "(Hw & Hr & Hrn) Ht HΦ". wp_store. wp_store. wp_load.
  iAssert (∀ E', ⌜E' = E⌝ -∗ exts_tree (bp_root bp) E' -∗ rb_private bp E)%I
    with "[Hw Hr Hrn]" as "Hp".
  { iIntros (E' ->) "Ht". iExists w, 0, 0. iFrame. iPureIntro.
    split_and!; [done|by left..]. }
  case_bool_decide as Hw0.
  - iApply (test_bit_search_spec with "[-HΦ] HΦ"); [done|]. by iApply ("Hp" with "[%] Ht").
  - wp_apply (in_extent_spec with "Ht"); [done..|].
    iIntros (E1 e E2 (-> & ->)) "Ht". iDestruct ("Hp" with "[%] Ht") as "Hp"; [done|].
    case_bool_decide as Hin.
    + wp_steps. rewrite bit_of_true; [by iApply "HΦ"|]. by eapply ext_set_hit.
    + by iApply (test_bit_search_spec with "Hp HΦ").
Qed.

Lemma test_bit_spec bp E b Φ :
  exts_wf 0 E →
  rb_private bp E -∗ (rb_private bp E -∗ Φ (bit_of (ext_set E) b)) -∗
  wp (rb_test_bit bp b) Φ.
Proof.
  iIntros (Hwf) "(%w & %r & %rn & (%Hw & %Hr & %Hrn) & (Hw & Hr & Hrn) & Ht) HΦ".
  unfold rb_test_bit. wp_load. case_bool_decide as Hr0.
  { iApply (test_bit_search_spec with "[-HΦ] HΦ"); [done|].
    iExists w, r, rn. by iFrame. }
  wp_apply (in_extent_spec with "Ht"); [done..|].
  iIntros (E1 e E2 (-> & ->)) "Ht". case_bool_decide as Hin.
  { wp_steps. rewrite bit_of_true; [|by eapply ext_set_hit].
    iApply "HΦ". iExists w, (e_addr e), rn. by iFrame. }
  wp_load. iDestruct (exts_tree_facts with "Ht") as %[Hnd Hpos].
  pose proof Hwf as (_ & _ & Hlo & Hce & Hee & Hwf2)%exts_wf_mid.
  iApply wp_bind. iApply (wp_wand _ (λ v, ⌜v = opt_ptr (head (addrs E2))⌝ ∗
      exts_tree (bp_root bp) (E1 ++ e :: E2) ∗ bp_rcursor_next bp ↦ v)%I
      with "[Hrn Ht]").
  { case_bool_decide as Hrn0.
    - wp_apply (wp_tree_next with "Ht"). iIntros "Ht". wp_steps. by iFrame.
    - wp_steps. iFrame. iPureIntro. destruct Hrn as [?|[?|Hrn]]; [done..|].
      eapply next_of_unique; [exact Hnd| |exact Hrn]. by rewrite fmap_app. }
  iIntros (v) "(-> & Ht & Hrn)".
  assert (Hok : cursors_ok (addrs (E1 ++ e :: E2)) w (e_addr e) (opt_ptr (head (addrs E2)))).
  { split_and!; [done..|]. right; right. exists (addrs E1), (addrs E2).
    by rewrite fmap_app. }
  iApply wp_bind. iApply (wp_wand _ (λ hole, exts_tree (bp_root bp) (E1 ++ e :: E2) ∗
      ⌜if (hole : bool) then b ∉ ext_set (E1 ++ e :: E2) else True⌝)%I with "[Ht]").
  { destruct E2 as [|e2 E2]; [simpl; wp_steps; by iFrame|].
    apply Forall_app in Hpos as [_ [_ [Hpos _]%Forall_cons]%Forall_cons]. simpl.
    rewrite bool_decide_eq_true_2; [|lia].
    wp_apply (wp_tree_end with "Ht"); [unfold e_end in *; lia|]. iIntros "Ht".
    replace (E1 ++ e :: e2 :: E2) with ((E1 ++ [e]) ++ e2 :: E2) by solve_app.
    wp_apply (wp_tree_start with "Ht"). iIntros "Ht". wp_steps.
    replace ((E1 ++ [e]) ++ e2 :: E2) with (E1 ++ e :: e2 :: E2) by solve_app.
    iFrame. iPureIntro. case_bool_decide; [|done].
    apply ext_set_gap; [done|lia|]. intros ? [= <-]. lia. }
  iIntros ([]) "[Ht %Hhole]".
  - wp_steps. rewrite bit_of_false //. iApply "HΦ". iExists w, _, _. by iFrame.
  - by iApply (test_bit_wcursor_spec with "[$Hw $Hr $Hrn] Ht HΦ").
Qed.
End test_bit.

(** ** Removal *)

(** What [rb_remove_extent] returns: whether a bit of [start, start + count] was
    set.  The range is one bit longer than the one removed: the test [<] of the
    second loop lets through an extent that starts at [start + count]. *)
Definition removed_any (B : gset Z) (start count : Z) : Z :=
  if decide (zrange start (count + 1) ## B) then 0 else 1.

Lemma removed_any_1 B start count x :
  x ∈ B → start ≤ x ≤ start + count → removed_any B start count = 1.
Proof.
  intros Hx Hr. unfold removed_any. rewrite decide_False; [done|].
  intros Hd. apply (Hd x); [|done]. apply elem_of_zrange. lia.
Qed.

Lemma removed_any_0 B start count :
  (∀ x, x ∈ B → ¬ start ≤ x ≤ start + count) → removed_any B start count = 0.
Proof.
  intros HB. unfold removed_any. rewrite decide_True; [done|].
  intros x Hx%elem_of_zrange Hx'. apply (HB x); [done|lia].
Qed.

Lemma removed_any_range B start count : 0 ≤ removed_any B start count ≤ 1.
Proof. unfold removed_any. case_decide; lia. Qed.

Lemma removed_any_ext B B' start count :
  (∀ x, start ≤ x ≤ start + count → (x ∈ B ↔ x ∈ B')) →
  removed_any B start count = removed_any B' start count.
Proof.
  intros HB. unfold removed_any.
  assert (zrange start (count + 1) ## B ↔ zrange start (count + 1) ## B') as Hiff.
  { split; intros Hd x Hx; pose proof Hx as Hr%elem_of_zrange;
      [rewrite -HB|rewrite HB]; (lia || by apply Hd). }
  repeat case_decide; tauto.
Qed.

Section remove.
Context {ML : Malloc}.
Implicit Types (E : list extent) (e : extent).

Lemma ctx_parent k E1 E2 :
  ctx_split k E1 E2 →
  (ctx_ptr k = 0 ∧ E1 = [] ∧ E2 = []) ∨
  (∃ E1' e, E1 = E1' ++ [e] ∧ ctx_ptr k = e_addr e) ∨
  (∃ e E2', E2 = e :: E2' ∧ ctx_ptr k = e_addr e).
Proof.
  intros [Hb Ha]. destruct k as [|[[] c a s] k]; simpl in *.
  - left. symmetry in Hb, Ha. apply fmap_nil_inv in Hb, Ha. done.
  - right; right. symmetry in Ha. apply fmap_cons_inv in Ha as (e & E2' & -> & _ & ->).
    by exists e, E2'.
  - right; left. symmetry in Hb. rewrite app_assoc in Hb.
    apply addrs_app_inv in Hb as (E1' & e & E2' & -> & _ & -> & Hnil).
    symmetry in Hnil. apply fmap_nil_inv in Hnil as ->. by exists E1', e.
Qed.

Lemma remove_right_spec bp start count P E lo v Φ :
  exts_wf lo E → 0 ≤ lo → 0 ≤ start → 0 ≤ count → start + count < 2^64 → 0 ≤ v ≤ 1 →
  Forall (λ e, e_end e ≤ start ∨ start < e_start e) E →
  rb_private bp (P ++ E) -∗
  (∀ E', ⌜exts_wf lo E' ∧ ext_set E' = ext_set E ∖ zrange start count⌝ -∗
     rb_private bp (P ++ E') -∗
     Φ (Z.max v (removed_any (ext_set E) start count))) -∗
  wp (loop (remove_right_step bp start count) (opt_ptr (head (addrs E)), v)) Φ.
Proof.
  revert P lo v. induction E as [|e E IH]; intros P lo v;
    iIntros (Hwf Hlo0 Hst Hc Hsc Hv Hout) "H HΦ"; wp_loop remove_right_step.
  { wp_steps. rewrite removed_any_0; [|set_solver]. rewrite Z.max_l; [|lia].
    iApply ("HΦ" $! [] with "[%] H"). simpl. split; [done|set_solver]. }
  pose proof Hwf as (Hlo & Hce & Hee & Hwf'). unfold e_end in Hee.
  assert (Hrest : ∀ x, x ∈ ext_set E → e_end e + 1 ≤ x).
  { intros x Hx. by eapply exts_wf_range. }
  apply Forall_cons in Hout as [Hoe Hout]. unfold e_end in Hoe, Hrest.
  iDestruct (rb_private_tree with "H") as "[Ht H]".
  iDestruct (exts_tree_facts with "Ht") as %[_ Hpos].
  apply Forall_app in Hpos as [_ [Hpos _]%Forall_cons].
  rewrite bool_decide_eq_false_2; [|lia].
  wp_apply (wp_tree_next with "Ht"). iIntros "Ht".
  wp_apply (wp_tree_end with "Ht"); [unfold e_end in *; lia|]. iIntros "Ht".
  case_bool_decide as Hbef; unfold e_end in Hbef.
  { (* before the range *)
    wp_steps. iDestruct ("H" with "[%] Ht") as "H"; [done|].
    replace (P ++ e :: E) with ((P ++ [e]) ++ E) by solve_app.
    iApply (IH (P ++ [e]) (e_end e + 1) v with "H"); [done|unfold e_end; lia|done..|].
    iIntros (E' (HE' & Heq)) "H".
    rewrite (removed_any_ext (ext_set (e :: E)) (ext_set E)); last first.
    { simpl. intros x Hx. mem_lia. }
    iApply ("HΦ" $! (e :: E') with "[%] [H]").
    - split; [done|]. simpl. rewrite Heq. set_lia.
    - by replace (P ++ e :: E') with ((P ++ [e]) ++ E') by solve_app. }
  wp_apply (wp_tree_start with "Ht"). iIntros "Ht". wrap.
  case_bool_decide as Haft.
  { (* after the range *)
    iDestruct ("H" with "[%] Ht") as "H"; [done|]. wp_steps.
    rewrite removed_any_0; last first.
    { simpl. intros x [Hx%elem_of_zrange|Hx%Hrest]%elem_of_union; lia. }
    rewrite Z.max_l; [|lia]. iApply ("HΦ" $! (e :: E) with "[%] H").
    split; [done|]. simpl. set_lia. }
  destruct Hoe as [?|Hse]; [lia|].
  rewrite (removed_any_1 _ _ _ (e_start e)); [|simpl; rewrite elem_of_union elem_of_zrange; lia|lia].
  rewrite Z.max_r; [|lia].
  case_bool_decide as Hemb; unfold e_end in Hemb.
  { (* inside the range *)
    iDestruct ("H" with "[%] Ht") as "H"; [done|].
    iApply (wp_erase_free with "H"). iIntros "H". wp_steps.
    iApply (IH P lo 1 with "H"); [|done..|lia|done|].
    { eapply exts_wf_weaken; [|exact Hwf']. unfold e_end. lia. }
    pose proof (removed_any_range (ext_set E) start count).
    rewrite Z.max_l; [|lia]. iIntros (E' (HE' & Heq)) "H".
    iApply ("HΦ" with "[%] H"). split; [done|]. rewrite Heq /=. set_lia. }
  (* across the end of the range *)
  destruct e as [a s c]. simpl in *. unfold e_end in *. simpl in *.
  wp_apply (wp_tree_count _ P (Extent a s c) with "Ht"). iIntros "Ht".
  wp_apply (wp_tree_set_count with "Ht"). iIntros "Ht".
  wp_apply (wp_tree_set_start with "Ht"). iIntros "Ht". wp_steps. simpl. wrap.
  iDestruct ("H" with "[%] Ht") as "H"; [by rewrite !fmap_app|].
  iApply ("HΦ" with "[%] H"). simpl. unfold e_end. simpl. split.
  - split_and!; [lia..|]. by replace (start + count + (c - (start + count - s)) + 1) with (s + c + 1) by lia.
  - set_lia.
Qed.

(** The same loop, with what is left of [start] in the prefix. *)
Lemma remove_right_all bp start count P E v Φ :
  exts_wf 0 (P ++ E) → exts_before start P →
  0 ≤ start → 0 ≤ count → start + count < 2^64 → 0 ≤ v ≤ 1 →
  Forall (λ e, e_end e ≤ start ∨ start < e_start e) E →
  rb_private bp (P ++ E) -∗
  (∀ E', ⌜exts_wf 0 E' ∧ ext_set E' = ext_set (P ++ E) ∖ zrange start count⌝ -∗
     rb_private bp E' -∗
     Φ (Z.max v (removed_any (ext_set (P ++ E)) start count))) -∗
  wp (loop (remove_right_step bp start count) (opt_ptr (head (addrs E)), v)) Φ.
Proof.
  iIntros (Hwf Hb Hst Hc Hsc Hv Hout) "H HΦ".
  apply exts_wf_app in Hwf as [HwfP HwfE].
  assert (0 ≤ from_option (λ e, e_end e + 1) 0 (last P)).
  { destruct (last P) as [e|] eqn:Hl; simpl; [|lia].
    destruct (exts_wf_elem _ _ e HwfP) as (? & ? & ?); [by apply last_Some_elem_of|].
    unfold e_end in *. lia. }
  iApply (remove_right_spec with "H"); [exact HwfE|done..|].
  iIntros (E' (Hwf' & Heq)) "H".
  rewrite (removed_any_ext _ (ext_set (P ++ E))); last first.
  { intros x Hx. rewrite ext_set_app elem_of_union. split; [by right|].
    intros [H1|?]; [|done]. apply (exts_before_set _ _ _ Hb) in H1. lia. }
  iApply ("HΦ" with "[%] H"). split; [by apply exts_wf_app|].
  rewrite !ext_set_app Heq. pose proof (λ x, exts_before_set start P x Hb) as Hlt.
  set_lia.
Qed.

(** The second loop, from the parent that a failed descent leaves. *)
Lemma remove_finish_spec bp k start count E1 E2 v Φ :
  exts_wf 0 (E1 ++ E2) → ctx_split k E1 E2 → descend_bounds at_or_after start E1 E2 →
  0 ≤ start → 0 ≤ count → start + count < 2^64 → 0 ≤ v ≤ 1 →
  rb_private bp (E1 ++ E2) -∗
  (∀ E', ⌜exts_wf 0 E' ∧ ext_set E' = ext_set (E1 ++ E2) ∖ zrange start count⌝ -∗
     rb_private bp E' -∗
     Φ (Z.max v (removed_any (ext_set (E1 ++ E2)) start count))) -∗
  wp (loop (remove_right_step bp start count) (ctx_ptr k, v)) Φ.
Proof.
  iIntros (Hwf Hk [Hb Ha] Hst Hc Hsc Hv) "H HΦ".
  assert (Hb' : exts_before start E1).
  { eapply Forall_impl; [exact Hb|]. intros e. apply bool_decide_eq_true. }
  assert (Hout2 : Forall (λ e, e_end e ≤ start ∨ start < e_start e) E2).
  { eapply Forall_impl; [exact Ha|]. auto. }
  apply ctx_parent in Hk as [(-> & -> & ->)|[(E1' & e & -> & ->)|(e & E2' & -> & ->)]].
  - by iApply (remove_right_all bp start count [] [] v with "H").
  - rewrite -app_assoc /= in Hwf |- *. apply Forall_app in Hb' as [Hb' [He _]%Forall_cons].
    iApply (remove_right_all bp start count E1' (e :: E2) v with "H"); try done.
    constructor; auto.
  - by iApply (remove_right_all bp start count E1 (e :: E2') v with "H").
Qed.

(** Cutting the middle out of one extent. *)
Lemma remove_split_spec bp start count E1 a s c E2 Φ :
  exts_wf 0 (E1 ++ Extent a s c :: E2) → s < start → start + count < s + c → 0 ≤ count →
  rb_private bp (E1 ++ Extent a s (start - s) :: E2) -∗
  (∀ E', ⌜exts_wf 0 E' ∧
      ext_set E' = ext_set (E1 ++ Extent a s c :: E2) ∖ zrange start count⌝ -∗
     rb_private bp E' -∗ Φ (inr (inl 1))) -∗
  wp (rb_insert_extent (start + count) (s + c - (start + count)) bp ;;
      mret (inr (inl 1)) : M (Z + (Z + Z * Z))) Φ.
Proof.
  iIntros (Hwf Hs He Hc) "H HΦ".
  pose proof Hwf as (Hwf1 & Hb & Hlo & Hce & Hee & Hwf2)%exts_wf_mid.
  unfold e_end in Hee, Hwf2. simpl in *.
  assert (Hb' : exts_before s E1).
  { eapply Forall_impl; [exact Hb|]. simpl. intros; lia. }
  wp_apply (insert_extent_spec with "H"); [|lia..|].
  { apply exts_wf_mid. unfold e_end at 2 3. simpl. split_and!; [done..|lia|lia|lia|].
    eapply exts_wf_weaken; [|exact Hwf2]. lia. }
  iIntros (E' (Hwf' & Heq)) "H". wp_steps. iApply ("HΦ" with "[%] H"). split; [done|].
  rewrite Heq !ext_set_app /=. pose proof (λ x, exts_before_set s E1 x Hb') as Hlt.
  pose proof (λ x, exts_wf_range _ E2 x Hwf2) as Hgt. set_lia.
Qed.

(** A subtree and its context, with extents at the same addresses. *)
Lemma exts_tree_focus root k t E :
  rb_inv (plug k t) → inorder (plug k t) = addrs E →
  ctx_at root k (ptr t) -∗ tree_at (ctx_ptr k) t -∗ exts_at E -∗ exts_tree root E.
Proof.
  iIntros (Hinv HE) "Hk Ht Hex". iExists (plug k t). rewrite root_at_plug. by iFrame.
Qed.

(** The descent goes on below an extent that has been cut at [start]. *)
Lemma remove_again_spec bp start count k cc l r E1 EL a s EA ER w rc rn Φ :
  let E := E1 ++ EL ++ Extent a s (start - s) :: ER ++ EA in
  exts_wf 0 E → ctx_split k E1 EA → inorder l = addrs EL → inorder r = addrs ER →
  descend_bounds at_or_after start E1 EA → exts_after start ER →
  rb_inv (plug k (Node cc l a r)) → cursors_ok (addrs E) w rc rn →
  s < start → 0 ≤ count → start + count < 2^64 →
  cursors_at bp w rc rn -∗ ctx_at (bp_root bp) k a -∗
  tree_at (ctx_ptr k) (Node cc l a r) -∗ exts_at E -∗
  (∀ E', ⌜exts_wf 0 E' ∧ ext_set E' = ext_set E ∖ zrange start count⌝ -∗
     rb_private bp E' -∗ Φ 1) -∗
  wp (loop (descend_step at_or_after start (remove_found bp start count))
        (a, ctx_slot (bp_root bp) k, 1))
     (λ v, wp (match v with
               | inr (inl v) => mret v
               | inr (inr (parent, retval)) =>
                   loop (remove_right_step bp start count) (parent, retval)
               | inl (parent, _, retval) =>
                   loop (remove_right_step bp start count) (parent, retval)
               end) Φ).
Proof.
  iIntros (E Hwf Hk Hl Hr [Hb Ha] HER Hinv Hok Hs Hc Hsc) "Hcur Hk Ht Hex HΦ".
  set (e := Extent a s (start - s)) in E.
  assert (HEq : E = (E1 ++ EL) ++ e :: ER ++ EA) by (unfold E; solve_app).
  pose proof Hwf as Hwf0. rewrite HEq in Hwf0.
  apply exts_wf_mid in Hwf0 as (_ & Hbef & Hlo & Hce & Hee & Hwf2). simpl in Hlo, Hbef.
  wp_loop descend_step. iDestruct (ctx_at_slot with "Hk") as "[Hslot Hk]". wp_load.
  iDestruct ("Hk" with "Hslot") as "Hk". simpl. iDestruct "Ht" as "(Hn & Hl & Hr)".
  iDestruct (node_at_facts with "Hn") as %[[??] ?].
  rewrite bool_decide_eq_false_2; [|lia]. rewrite HEq.
  wp_apply (wp_ext_start _ e with "Hex"). iIntros "Hex". simpl.
  rewrite bool_decide_eq_false_2; [|lia].
  wp_apply (wp_ext_end _ e with "Hex"); [unfold e_end in *; simpl in *; lia|].
  iIntros "Hex". assert (e_end e = start) as -> by (unfold e_end; simpl; lia).
  assert (at_or_after start start = true) as -> by by apply bool_decide_eq_true_2.
  wp_steps.
  assert (HEq' : E = (E1 ++ EL ++ [e]) ++ ER ++ EA) by (unfold E; solve_app).
  rewrite -HEq HEq'.
  iApply (wp_descend at_or_after start _ (at_or_after_mono start) (bp_root bp)
    (Frame R cc a l :: k) r (E1 ++ EL ++ [e]) ER EA 1 with "[Hk Hn Hl] Hr Hex").
  { by rewrite -HEq'. }
  { by apply (ctx_split_right k E1 EA cc a l EL e). }
  { done. }
  { split; [|done]. rewrite !Forall_app Forall_singleton. apply Forall_app in Hbef as [_ Hbef].
    split_and!; [done| |unfold e_end; simpl; apply bool_decide_eq_true_2; lia].
    eapply Forall_impl; [exact Hbef|]. intros e'. simpl. intros. apply bool_decide_eq_true_2. lia. }
  { simpl. rewrite (node_at_flip L). iFrame. }
  iSplit.
  - iIntros (k' E1' E2' (Heq & Hk' & Hbd' & Hplug)) "Hk Hex". simpl.
    rewrite -HEq' in Heq. rewrite -HEq'. rewrite Heq in Hwf Hok |- *.
    iApply (remove_finish_spec with "[Hcur Hk Hex]"); [done|done|done|lia|done|done|lia| |].
    { iExists w, rc, rn. iFrame "Hcur". iSplit; [done|].
      iApply (exts_tree_intro with "Hk Hex"); [done|]. by rewrite Hplug. }
    pose proof (removed_any_range (ext_set (E1' ++ E2')) start count).
    rewrite Z.max_l; [iApply "HΦ"|lia].
  - iIntros (k' c' l' r' E1' EL' e' ER' E2' (Heq & _ & _ & _ & _ & _ & Hle & Hf)).
    exfalso. apply bool_decide_eq_false in Hf.
    assert (Hnot : start ∉ ext_set E).
    { rewrite HEq'. apply ext_set_miss.
      - rewrite !/exts_before !Forall_app Forall_singleton. apply Forall_app in Hbef as [Hb1 Hb2].
        split_and!; [| |unfold e_end; simpl; lia];
          (eapply Forall_impl; [done|]; simpl; intros; lia).
      - by apply Forall_app. }
    apply Hnot. rewrite HEq' Heq.
    assert (HEq2 : E1' ++ (EL' ++ e' :: ER') ++ E2' = (E1' ++ EL') ++ e' :: ER' ++ E2')
      by solve_app.
    rewrite HEq' Heq HEq2 in Hwf. rewrite HEq2. eapply ext_set_hit; [exact Hwf|lia].
Qed.

Lemma remove_extent_spec bp E start count Φ :
  exts_wf 0 E → 0 ≤ start → 0 ≤ count → start + count < 2^64 →
  rb_private bp E -∗
  (∀ E', ⌜exts_wf 0 E' ∧ ext_set E' = ext_set E ∖ zrange start count⌝ -∗
     rb_private bp E' -∗ Φ (removed_any (ext_set E) start count)) -∗
  wp (rb_remove_extent start count bp) Φ.
Proof.
  iIntros (Hwf Hst Hc Hsc) "(%w & %r & %rn & %Hok & Hcur & Ht) HΦ".
  unfold rb_remove_extent, ext2fs_rb_empty_root.
  iDestruct "Ht" as "(%t & (%Hinv & %HE) & [Htop Ht] & Hex)". wp_load. wp_steps.
  case_bool_decide as Ht0.
  { (* the empty tree *)
    iDestruct (tree_at_null with "Ht") as %->; [done|].
    simpl in HE. symmetry in HE. apply fmap_nil_inv in HE as ->. wp_steps.
    iSpecialize ("HΦ" $! []). rewrite (removed_any_0 (ext_set [])); [|set_solver].
    iApply ("HΦ" with "[%] [-]"); [split; [done|set_solver]|].
    iExists w, r, rn. iFrame "Hcur". iSplit; [done|]. iExists Leaf. by iFrame. }
  unfold rb_descend. iApply wp_bind.
  iApply (wp_descend at_or_after start _ (at_or_after_mono start) (bp_root bp) [] t [] E [] 0
    with "[Htop] Ht [Hex]"); rewrite /= ?app_nil_r //.
  { by split; constructor. }
  iSplit.
  - (* no extent contains start *)
    iIntros (k E1 E2 (-> & Hk & Hbd & Hplug)) "Hk Hex".
    iApply (remove_finish_spec with "[Hcur Hk Hex]"); [done..| |].
    { iExists w, r, rn. iFrame "Hcur". iSplit; [done|].
      iApply (exts_tree_intro with "Hk Hex"); [done|]. by rewrite Hplug. }
    pose proof (removed_any_range (ext_set (E1 ++ E2)) start count).
    rewrite Z.max_r; [iApply "HΦ"|lia].
  - iIntros (k cc l rt E1 EL e ER E2 (-> & Hk & Hl & Hr & Hbd & Hplug & Hs & Hf)) "Hk Ht Hex".
    apply bool_decide_eq_false in Hf. destruct e as [a s c]. simpl in *.
    set (P := E1 ++ EL). set (S := ER ++ E2).
    assert (HPS : ∀ e, E1 ++ (EL ++ e :: ER) ++ E2 = P ++ e :: S).
    { intros e. unfold P, S. solve_app. }
    assert (HPS2 : ∀ e, P ++ e :: S = E1 ++ EL ++ e :: ER ++ E2).
    { intros e. unfold P, S. solve_app. }
    assert (HSER : ∀ Q, Forall Q S → Forall Q ER) by (by intros Q [? _]%Forall_app).
    rewrite !HPS in HE Hwf Hok |- *. clearbody P S. wp_unfold remove_found.
    pose proof Hwf as (Hwf1 & Hb & Hlo & Hce & Hee & Hwf2)%exts_wf_mid.
    unfold e_end in Hee, Hwf2, Hf. simpl in *.
    assert (Hstset : start ∈ ext_set (P ++ Extent a s c :: S)).
    { eapply ext_set_hit; [done|]. unfold e_end. simpl. lia. }
    rewrite (removed_any_1 _ _ _ start); [|done|lia].
    wp_apply (wp_ext_start with "Hex"). iIntros "Hex".
    wp_apply (wp_ext_end with "Hex"); [unfold e_end; simpl; lia|]. iIntros "Hex".
    unfold e_end; simpl. wrap.
    assert (Haddr : ∀ s' c', addrs (P ++ Extent a s' c' :: S) = addrs (P ++ Extent a s c :: S)).
    { intros. by rewrite !fmap_app. }
    decide_case (s < start ∧ start + count < s + c) as Hsplit.
    { (* split *)
      destruct Hsplit. wrap.
      wp_apply (wp_set_ext_count with "Hex"). iIntros "Hex".
      iApply (remove_split_spec bp start count P a s c S with "[Hcur Hk Ht Hex]");
        [exact Hwf|lia|lia|done| |].
      - iExists w, r, rn. iFrame "Hcur". iSplit; [by rewrite Haddr|].
        iApply (exts_tree_focus _ k (Node cc l a rt) with "Hk Ht Hex"); rewrite Hplug //. by rewrite Haddr.
      - iIntros (E') "% H". wp_steps. by iApply ("HΦ" with "[%] H"). }
    decide_case (s + c ≤ start + count) as Hall.
    + (* cut the extent at start *)
      wp_apply (wp_set_ext_count with "Hex"). iIntros "Hex". wp_steps. wrap.
      wp_apply (wp_ext_count with "Hex"). iIntros "Hex". simpl.
      decide_case (start - s = 0) as Hzero.
      * (* nothing is left of it *)
        assert (s = start) as -> by lia. rewrite Z.sub_diag.
        iDestruct (exts_tree_focus _ k (Node cc l a rt) with "Hk Ht Hex") as "Ht"; [by rewrite Hplug|by rewrite Hplug Haddr|].
        wp_apply (wp_tree_next _ _ (Extent a start 0) with "Ht"). iIntros "Ht".
        iApply (wp_erase_free bp P (Extent a start 0) S with "[Hcur Ht]").
        { iExists w, r, rn. iFrame "Hcur". iSplit; [by rewrite Haddr|]. done. }
        iIntros "H". wp_steps.
        iApply (remove_right_all with "H"); [| |done|done|done|lia| |].
        { apply exts_wf_app. apply exts_wf_app in Hwf as [? Hwf']. split; [done|].
          destruct Hwf' as (? & ? & _ & Hwf'). eapply exts_wf_weaken; [|exact Hwf'].
          change (e_end (Extent a start c)) with (start + c). simpl in *. lia. }
        { eapply Forall_impl; [exact Hb|]. simpl. intros; lia. }
        { apply exts_after_wf in Hwf2. eapply Forall_impl; [exact Hwf2|]. simpl. intros; lia. }
        pose proof (removed_any_range (ext_set (P ++ S)) start count).
        rewrite Z.max_l; [|lia]. iIntros (E' (Hwf' & Heq)) "H".
        iApply ("HΦ" with "[%] H"). split; [done|]. rewrite Heq !ext_set_app /=.
        set_lia.
      * rewrite bool_decide_eq_false_2; [|lia]. wp_steps.
        rewrite (HPS2 (Extent a s (start - s))).
        iApply (remove_again_spec bp start count k cc l rt E1 EL a s E2 ER w r rn
          with "Hcur Hk Ht Hex"); rewrite -?HPS2 ?Haddr ?Hplug //; [| |lia|].
        { apply exts_wf_mid. unfold e_end at 2 3. simpl. split_and!; [done..|lia|lia|lia|].
          eapply exts_wf_weaken; [|exact Hwf2]. lia. }
        { apply exts_after_wf, HSER in Hwf2.
          eapply Forall_impl; [exact Hwf2|]. simpl. intros; lia. }
        iIntros (E' (Hwf' & Heq)) "H". iApply ("HΦ" with "[%] H"). split; [done|].
        rewrite Heq !ext_set_app /=. pose proof (λ x, exts_wf_range _ S x Hwf2). set_lia.
    + (* cut its beginning off *)
      assert (s = start) as -> by lia. wp_steps.
      wp_apply (wp_ext_count with "Hex"). iIntros "Hex". simpl.
      rewrite bool_decide_eq_false_2; [|lia]. rewrite bool_decide_eq_true_2 //. wrap.
      wp_apply (wp_set_ext_start with "Hex"). iIntros "Hex".
      wp_apply (wp_set_ext_count with "Hex"). iIntros "Hex". wp_steps.
      iApply ("HΦ" $! (P ++ Extent a (start + count) (c - count) :: S) with "[%] [-]"); last first.
      { iExists w, r, rn. iFrame "Hcur". iSplit; [by rewrite Haddr|].
        iApply (exts_tree_focus _ k (Node cc l a rt) with "Hk Ht Hex"); rewrite Hplug //. by rewrite Haddr. }
      split.
      * apply exts_wf_mid. unfold e_end at 2 3. simpl.
        split_and!; [done| |lia|lia|lia|].
        -- eapply Forall_impl; [exact Hb|]. simpl. intros; lia.
        -- by replace (start + count + (c - count) + 1) with (start + c + 1) by lia.
      * rewrite !ext_set_app /=. pose proof (λ x, exts_wf_range _ S x Hwf2).
        assert (Hb' : exts_before start P) by (eapply Forall_impl; [exact Hb|]; simpl; intros; lia).
        pose proof (λ x, exts_before_set start P x Hb'). set_lia.
Qed.
End remove.

(** ** A concrete private structure

    The extents [2, 5) and [7, 9), with both cursors set. *)
Definition sample_exts : list extent := [Extent 64 2 3; Extent 112 7 2].

Definition sample_ext_tree : rbtree := Node Black Leaf 64 (Node Red Leaf 112 Leaf).

Definition put_ext (e : extent) (h : heap) : heap :=
  <[ext_start (e_addr e) := Val (e_start e)]>
    (<[ext_count (e_addr e) := Val (e_count e)]> h).

Definition sample_private_heap : heap :=
  <[bp_wcursor 16 := Val 64]> (<[bp_rcursor 16 := Val 112]>
    (<[bp_rcursor_next 16 := Val 0]>
      (put_ext (Extent 64 2 3) (put_ext (Extent 112 7 2)
        (tree_heap 16 sample_ext_tree))))).

Lemma sample_exts_wf : exts_wf 0 sample_exts.
Proof. unfold sample_exts, e_end. simpl. split_and!; done. Qed.

Lemma sample_private_at : rb_private 16 sample_exts sample_private_heap.
Proof.
  assert (root_at 16 sample_ext_tree (tree_heap 16 sample_ext_tree)) as Ht.
  { apply tree_heap_holds. vm_compute. reflexivity. }
  assert ((bp_wcursor 16 ↦ 64 ∗ bp_rcursor 16 ↦ 112 ∗ bp_rcursor_next 16 ↦ 0 ∗
    ext_start 64 ↦ 2 ∗ ext_count 64 ↦ 3 ∗ ext_start 112 ↦ 7 ∗ ext_count 112 ↦ 2 ∗
    root_at 16 sample_ext_tree)%I sample_private_heap) as Hall.
  { unfold sample_private_heap, put_ext. cbn [e_addr e_start e_count].
    do 7 (apply pointsto_insert; [vm_compute; reflexivity|]). exact Ht. }
  refine (entails_holds _ _ _ _ Hall). iIntros "($ & $ & $ & H1 & H2 & H3 & H4 & H)".
  iSplitR.
  - iPureIntro. split_and!; [right; simpl; set_solver..|by right; left].
  - iExists sample_ext_tree. iFrame. iSplit; [|done]. iPureIntro. split; [|done].
    exists 1%nat. unfold sample_ext_tree. eauto with rb.
Qed.

(** ** Properties *)

(** C24: [rb_insert_extent] adds exactly the bits of the range, whatever the cursors
    hold, keeps the extents sorted, disjoint and merged, and returns whether the
    first bit was set. *)
Theorem rb_insert_extent_correct `{ML : Malloc} bp E start count :
  exts_wf 0 E → 0 ≤ start → 0 ≤ count → start + count < 2^64 →
  hoare (rb_private bp E) (rb_insert_extent start count bp)
    (λ v, ∃ E', ⌜exts_wf 0 E' ∧ ext_set E' = zrange start count ∪ ext_set E ∧
        v = if decide (count = 0) then 0 else bit_of (ext_set E) start⌝ ∗
      rb_private bp E')%I.
Proof.
  intros. apply wp_adequate. iIntros "H".
  iApply (insert_extent_spec with "H"); [done..|].
  iIntros (E' [??]) "H". iExists E'. by iFrame.
Qed.

Lemma rb_insert_extent_witness :
  rb_private 16 sample_exts sample_private_heap ∧
  hoare (ML := bump_malloc) (rb_private 16 sample_exts) (rb_insert_extent 4 4 16)
    (λ v, ∃ E', ⌜exts_wf 0 E' ∧ ext_set E' = zrange 4 4 ∪ ext_set sample_exts ∧ v = 1⌝ ∗
      rb_private 16 E')%I.
Proof.
  split; [exact sample_private_at|].
  exact (rb_insert_extent_correct (ML := bump_malloc) 16 sample_exts 4 4
    sample_exts_wf ltac:(lia) ltac:(lia) ltac:(lia)).
Defined.

(** C25: [rb_remove_extent] clears exactly the bits of the range. *)
Theorem rb_remove_extent_correct `{ML : Malloc} bp E start count :
  exts_wf 0 E → 0 ≤ start → 0 ≤ count → start + count < 2^64 →
  hoare (rb_private bp E) (rb_remove_extent start count bp)
    (λ v, ∃ E', ⌜exts_wf 0 E' ∧ ext_set E' = ext_set E ∖ zrange start count ∧
        v = removed_any (ext_set E) start count⌝ ∗
      rb_private bp E')%I.
Proof.
  intros. apply wp_adequate. iIntros "H".
  iApply (remove_extent_spec with "H"); [done..|].
  iIntros (E' [??]) "H". iExists E'. by iFrame.
Qed.

Lemma rb_remove_extent_witness :
  rb_private 16 sample_exts sample_private_heap ∧
  hoare (ML := bump_malloc) (rb_private 16 sample_exts) (rb_remove_extent 3 5 16)
    (λ v, ∃ E', ⌜exts_wf 0 E' ∧ ext_set E' = ext_set sample_exts ∖ zrange 3 5 ∧
        v = removed_any (ext_set sample_exts) 3 5⌝ ∗
      rb_private 16 E')%I.
Proof.
  split; [exact sample_private_at|].
  exact (rb_remove_extent_correct (ML := bump_malloc) 16 sample_exts 3 5
    sample_exts_wf ltac:(lia) ltac:(lia) ltac:(lia)).
Defined.

(** The value of [rb_remove_extent] is not whether it cleared a bit: when the
    range is clear and the bit after it is set, it returns 1 and changes no
    bit. *)
Theorem rb_remove_extent_spurious `{ML : Malloc} bp E start count :
  exts_wf 0 E → 0 ≤ start → 0 ≤ count → start + count < 2^64 →
  zrange start count ## ext_set E → start + count ∈ ext_set E →
  hoare (rb_private bp E) (rb_remove_extent start count bp)
    (λ v, ∃ E', ⌜exts_wf 0 E' ∧ ext_set E' = ext_set E ∧ v = 1⌝ ∗ rb_private bp E')%I.
Proof.
  intros Hwf Hst Hc Hsc Hd Hin. apply wp_adequate. iIntros "H".
  iApply (remove_extent_spec with "H"); [done..|].
  iIntros (E' [Hwf' Heq]) "H". iExists E'. iFrame. iPureIntro. split_and!; [done| |].
  - rewrite Heq. set_solver.
  - apply (removed_any_1 _ _ _ (start + count)); [done|lia].
Qed.

Lemma rb_remove_extent_spurious_witness :
  rb_private 16 sample_exts sample_private_heap ∧
  hoare (ML := bump_malloc) (rb_private 16 sample_exts) (rb_remove_extent 6 1 16)
    (λ v, ∃ E', ⌜exts_wf 0 E' ∧ ext_set E' = ext_set sample_exts ∧ v = 1⌝ ∗
      rb_private 16 E')%I.
Proof.
  split; [exact sample_private_at|].
  apply (rb_remove_extent_spurious (ML := bump_malloc) 16 sample_exts 6 1
    sample_exts_wf ltac:(lia) ltac:(lia) ltac:(lia)).
  - unfold sample_exts. simpl. intros x. set_unfold. lia.
  - unfold sample_exts. simpl. set_unfold. lia.
Defined.

(** [rb_test_bit] returns the bit and does not change the bitmap, whichever of
    its three ways (read cursor, write cursor, tree) finds the answer. *)
Theorem rb_test_bit_correct `{ML : Malloc} bp E b :
  exts_wf 0 E →
  hoare (rb_private bp E) (rb_test_bit bp b)
    (λ v, ⌜v = bit_of (ext_set E) b⌝ ∗ rb_private bp E)%I.
Proof.
  intros Hwf. apply wp_adequate. iIntros "H".
  iApply (test_bit_spec with "H"); [done|]. iIntros "H". by iFrame.
Qed.

Lemma rb_test_bit_witness :
  rb_private 16 sample_exts sample_private_heap ∧
  hoare (ML := bump_malloc) (rb_private 16 sample_exts) (rb_test_bit 16 8)
    (λ v, ⌜v = bit_of (ext_set sample_exts) 8⌝ ∗ rb_private 16 sample_exts)%I.
Proof.
  split; [exact sample_private_at|].
  exact (rb_test_bit_correct (ML := bump_malloc) 16 sample_exts 8 sample_exts_wf).
Defined.
