(* ===== verification/BlkmapRB.v ===== *)
(** * BlkmapRB: the methods of lib/ext2fs/blkmap64_rb.c

    The methods of the table [ext2fs_blkmap64_rbtree], on top of the extents of
    [RbExtents], and their proof that they implement [BitmapImpl]. *)
From S2P Require Import Prelude.
From S2P Require Import Mem.
From S2P Require Import SepLogic.
From S2P Require Import ExtMem.
From S2P Require Import RbShape.
From S2P Require Import RbTree.
From S2P Require Import BitOps.
From S2P Require Import Bitmap.
From S2P Require Import RbExtents.
#[local] Open Scope Z_scope.

(** ** Creation and destruction *)
Definition rb_alloc_private_data {ML : Malloc} (bitmap : bmap64) : M (errcode * bmap64) :=
  r ← ext2fs_get_mem 8 bp_words;
  if bool_decide (r.1 ≠ E_OK) then mret (r.1, bitmap) else
  let bp := r.2 in
  store (rb_node (bp_root bp)) 0 ;;
  store (bp_rcursor bp) 0 ;;
  store (bp_rcursor_next bp) 0 ;;
  store (bp_wcursor bp) 0 ;;
  mret (E_OK, set_private bitmap bp).

Definition rb_new_bmap {ML : Malloc} (bitmap : bmap64) : M (errcode * bmap64) :=
  r ← rb_alloc_private_data bitmap;
  if bool_decide (r.1 ≠ E_OK) then mret (r.1, bitmap) else
  mret (E_OK, r.2).

Definition free_tree_step (root node : Z) : M (Z + unit) :=
  if bool_decide (node = 0) then break_ tt else
  next ← ext2fs_rb_next node;
  ext2fs_rb_erase node root ;;
  ext2fs_free_mem 8 ext_words node ;;
  continue_ next.

Definition rb_free_tree (root : Z) : M unit :=
  node ← ext2fs_rb_first root;
  loop (free_tree_step root) node.

Definition rb_free_bmap (bitmap : bmap64) : M unit :=
  let bp := b_private bitmap in
  rb_free_tree (bp_root bp) ;;
  ext2fs_free_mem 8 bp_words bp.

(** One round of the loop of [rb_copy_bmap]; the result is [retval]. *)
Definition copy_step {ML : Malloc} (dest_bp src_node : Z) : M (Z + errcode) :=
  if bool_decide (src_node = 0) then break_ E_OK else
  r ← ext2fs_get_mem 8 ext_words;
  if bool_decide (r.1 ≠ E_OK) then break_ r.1 else
  let dest_ext := r.2 in
  memcpy 8 dest_ext src_node ext_words ;;
  top ← load (rb_node (bp_root dest_bp));
  pn ← (if bool_decide (top ≠ 0) then
          dest_last ← ext2fs_rb_last (bp_root dest_bp);
          mret (dest_last, rb_right dest_last)
        else mret (0, rb_node (bp_root dest_bp)));
  ext2fs_rb_link_node dest_ext pn.1 pn.2 ;;
  ext2fs_rb_insert_color dest_ext (bp_root dest_bp) ;;
  src_node ← ext2fs_rb_next src_node;
  continue_ src_node.

Definition rb_copy_bmap {ML : Malloc} (src dest : bmap64) : M (errcode * bmap64) :=
  r ← rb_alloc_private_data dest;
  if bool_decide (r.1 ≠ E_OK) then mret (r.1, dest) else
  let dest := r.2 in
  let src_bp := b_private src in
  let dest_bp := b_private dest in
  store (bp_rcursor src_bp) 0 ;;
  store (bp_rcursor dest_bp) 0 ;;
  src_node ← ext2fs_rb_first (bp_root src_bp);
  retval ← loop (copy_step dest_bp) src_node;
  mret (retval, dest).

(** ** Resizing *)
Definition truncate_step (new_max root node : Z) : M (Z + unit) :=
  if bool_decide (node = 0) then break_ tt else
  e ← load_ext_end node;
  if bool_decide (u64 (e - 1) ≤ new_max) then break_ tt else
  s ← load (ext_start node);
  if bool_decide (new_max < s) then
    ext2fs_rb_erase node root ;;
    ext2fs_free_mem 8 ext_words node ;;
    node ← ext2fs_rb_last root;
    continue_ node
  else
    store (ext_count node) (u64 (u64 (new_max - s) + 1)) ;;
    continue_ node.

Definition rb_truncate (new_max root : Z) : M unit :=
  node ← ext2fs_rb_last root;
  loop (truncate_step new_max root) node.

Definition rb_resize_bmap {ML : Malloc} (bmap : bmap64) (new_end new_real_end : Z) :
    M (errcode * bmap64) :=
  let bp := b_private bmap in
  store (bp_rcursor bp) 0 ;;
  store (bp_wcursor bp) 0 ;;
  rb_truncate (u64 ((if bool_decide (new_end < b_end bmap) then new_end else b_end bmap)
                    - b_start bmap)) (bp_root bp) ;;
  let bmap := set_ends bmap new_end new_real_end in
  (if bool_decide (b_end bmap < b_real_end bmap) then
     rb_insert_extent (u64 (u64 (b_end bmap + 1) - b_start bmap))
       (u64 (b_real_end bmap - b_end bmap)) bp ;; mret tt
   else mret tt) ;;
  mret (E_OK, bmap).

(** ** Single bits and ranges *)
Definition rb_mark_bmap {ML : Malloc} (bitmap : bmap64) (arg : Z) : M Z :=
  rb_insert_extent (u64 (arg - b_start bitmap)) 1 (b_private bitmap).

Definition rb_unmark_bmap {ML : Malloc} (bitmap : bmap64) (arg : Z) : M Z :=
  rb_remove_extent (u64 (arg - b_start bitmap)) 1 (b_private bitmap).

Definition rb_test_bmap (bitmap : bmap64) (arg : Z) : M Z :=
  rb_test_bit (b_private bitmap) (u64 (arg - b_start bitmap)).

Definition rb_mark_bmap_extent {ML : Malloc} (bitmap : bmap64) (arg num : Z) : M unit :=
  rb_insert_extent (u64 (arg - b_start bitmap)) num (b_private bitmap) ;; mret tt.

Definition rb_unmark_bmap_extent {ML : Malloc} (bitmap : bmap64) (arg num : Z) : M unit :=
  rb_remove_extent (u64 (arg - b_start bitmap)) num (b_private bitmap) ;; mret tt.

(** The loop that looks for the first extent ending after [start]. *)
Definition test_clear_step (start len node : Z) : M (Z + Z) :=
  if bool_decide (node = 0) then break_ 1 else
  next ← ext2fs_rb_next node;
  e ← load_ext_end node;
  if bool_decide (e ≤ start) then continue_ next else
  s ← load (ext_start node);
  if bool_decide (u64 (start + len) ≤ s) then break_ 1 else
  break_ 0.

Definition rb_test_clear_bmap_extent (bitmap : bmap64) (start len : Z) : M Z :=
  let bp := b_private bitmap in
  let start := u64 (start - b_start bitmap) in
  empty ← (if bool_decide (len = 0) then mret true else ext2fs_rb_empty_root (bp_root bp));
  if (empty : bool) then mret 1 else
  r ← rb_find at_or_after start (bp_root bp);
  match r with
  | inr _ => mret 0
  | inl (parent, _) => loop (test_clear_step start len) parent
  end.

(** One round of the loop of [rb_set_bmap_range]; the state is [i] and
    [first_set], which is an [int]. *)
Definition set_range_step {ML : Malloc} (bitmap : bmap64) (start num inp : Z)
    (st : Z * Z) : M (Z * Z + Z) :=
  let i := st.1 in
  let first_set := st.2 in
  if bool_decide (num ≤ i) then break_ first_set else
  skip ← (if bool_decide (Z.land i 7 = 0) then
            c ← load (inp + i / 8);
            if bool_decide (c = 255) then
              mret (Some (if bool_decide (first_set = -1) then s32 i else first_set))
            else if bool_decide (c = 0 ∧ first_set = -1) then mret (Some first_set)
            else mret None
          else mret None);
  match skip with
  | Some first_set => continue_ (u64 (u64 (i + 7) + 1), first_set)
  | None =>
      b ← ext2fs_test_bit (u32 i) inp;
      if bool_decide (b ≠ 0) then
        continue_ (u64 (i + 1), if bool_decide (first_set = -1) then s32 i else first_set)
      else if bool_decide (first_set = -1) then continue_ (u64 (i + 1), first_set)
      else
        rb_insert_extent (u64 (u64 (start + first_set) - b_start bitmap))
          (u64 (i - first_set)) (b_private bitmap) ;;
        continue_ (u64 (i + 1), -1)
  end.

Definition rb_set_bmap_range {ML : Malloc} (bitmap : bmap64) (start num inp : Z) :
    M errcode :=
  first_set ← loop (set_range_step bitmap start num inp) (0, -1);
  (if bool_decide (first_set ≠ -1) then
     rb_insert_extent (u64 (u64 (start + first_set) - b_start bitmap))
       (u64 (num - first_set)) (b_private bitmap) ;; mret tt
   else mret tt) ;;
  mret E_OK.

(** The [while (count > 0)] loop of [rb_get_bmap_range]. *)
Definition fill_step (start out : Z) (st : Z * Z) : M (Z * Z + unit) :=
  let pos := st.1 in
  let count := st.2 in
  if bool_decide (count = 0) then break_ tt else
  if bool_decide (8 ≤ count ∧ u64 (pos - start) mod 8 = 0) then
    let nbytes := s32 (Z.shiftr count 3) in
    let offset := s32 (Z.shiftr (u64 (pos - start)) 3) in
    memset (out + offset) 255 (Z.to_nat nbytes) ;;
    continue_ (u64 (pos + Z.shiftl nbytes 3), u64 (count - Z.shiftl nbytes 3))
  else
    ext2fs_fast_set_bit64 (u64 (pos - start)) out ;;
    continue_ (u64 (pos + 1), u64 (count - 1)).

(** The [for] loop of [rb_get_bmap_range] over the extents. *)
Definition get_range_step (start num out parent : Z) : M (Z + unit) :=
  if bool_decide (parent = 0) then break_ tt else
  next ← ext2fs_rb_next parent;
  pos ← load (ext_start parent);
  count ← load (ext_count parent);
  if bool_decide (u64 (start + num) ≤ pos) then break_ tt else
  if bool_decide (pos < start ∧ u64 (pos + count) < start) then continue_ next else
  let pc := if bool_decide (pos < start)
            then (start, u64 (count - u64 (start - pos))) else (pos, count) in
  let pos := pc.1 in
  let count := if bool_decide (u64 (start + num) < u64 (pos + pc.2))
               then u64 (u64 (start + num) - pos) else pc.2 in
  loop (fill_step start out) (pos, count) ;;
  continue_ next.

Definition rb_get_bmap_range (bitmap : bmap64) (start num out : Z) : M errcode :=
  let bp := b_private bitmap in
  let start := u64 (start - b_start bitmap) in
  empty ← ext2fs_rb_empty_root (bp_root bp);
  if (empty : bool) then mret E_OK else
  r ← rb_find at_or_after start (bp_root bp);
  let parent := match r with inl (parent, _) => parent | inr ext => ext end in
  memset out 0 (Z.to_nat (Z.shiftr (u64 (num + 7)) 3)) ;;
  loop (get_range_step start num out) parent ;;
  mret E_OK.

Definition rb_clear_bmap (bitmap : bmap64) : M unit :=
  let bp := b_private bitmap in
  rb_free_tree (bp_root bp) ;;
  store (bp_rcursor bp) 0 ;;
  store (bp_rcursor_next bp) 0 ;;
  store (bp_wcursor bp) 0.

(** ** Searching *)
Definition rb_find_first_zero (bitmap : bmap64) (start end_ : Z) : M (errcode * Z) :=
  let bp := b_private bitmap in
  let start := u64 (start - b_start bitmap) in
  let end_ := u64 (end_ - b_start bitmap) in
  if bool_decide (end_ < start) then mret (EINVAL, 0) else
  empty ← ext2fs_rb_empty_root (bp_root bp);
  if (empty : bool) then mret (ENOENT, 0) else
  r ← rb_find at_or_after start (bp_root bp);
  match r with
  | inl _ => mret (E_OK, u64 (start + b_start bitmap))
  | inr ext =>
      e ← load_ext_end ext;
      if bool_decide (e ≤ end_) then mret (E_OK, u64 (e + b_start bitmap))
      else mret (ENOENT, 0)
  end.

Definition rb_find_first_set (bitmap : bmap64) (start end_ : Z) : M (errcode * Z) :=
  let bp := b_private bitmap in
  let start := u64 (start - b_start bitmap) in
  let end_ := u64 (end_ - b_start bitmap) in
  if bool_decide (end_ < start) then mret (EINVAL, 0) else
  empty ← ext2fs_rb_empty_root (bp_root bp);
  if (empty : bool) then mret (ENOENT, 0) else
  r ← rb_find at_or_after start (bp_root bp);
  match r with
  | inr _ => mret (E_OK, u64 (start + b_start bitmap))
  | inl (node, _) =>
      s ← load (ext_start node);
      node ← (if bool_decide (s < start) then ext2fs_rb_next node else mret node);
      if bool_decide (node = 0) then mret (ENOENT, 0) else
      s ← load (ext_start node);
      if bool_decide (s ≤ end_) then mret (E_OK, u64 (s + b_start bitmap))
      else mret (ENOENT, 0)
  end.

(** ** The table of methods *)
Definition ext2fs_blkmap64_rbtree {ML : Malloc} : ext2_bitmap_ops := {|
  bmap_type := EXT2FS_BMAP64_RBTREE;
  new_bmap := rb_new_bmap;
  free_bmap := rb_free_bmap;
  copy_bmap := rb_copy_bmap;
  resize_bmap := rb_resize_bmap;
  mark_bmap := rb_mark_bmap;
  unmark_bmap := rb_unmark_bmap;
  test_bmap := rb_test_bmap;
  mark_bmap_extent := rb_mark_bmap_extent;
  unmark_bmap_extent := rb_unmark_bmap_extent;
  test_clear_bmap_extent := rb_test_clear_bmap_extent;
  set_bmap_range := rb_set_bmap_range;
  get_bmap_range := rb_get_bmap_range;
  clear_bmap := rb_clear_bmap;
  find_first_zero := Some rb_find_first_zero;
  find_first_set := Some rb_find_first_set;
|}.

(** ** Specifications *)
Section blkmap_rb.
Context {ML : Malloc}.
Implicit Types (E : list extent) (e : extent).

(** The private structure, with the memory it was given. *)
Definition rb_block (bp : Z) (E : list extent) : hProp :=
  ⌜0 < bp⌝ ∗ rb_private bp E.

Lemma exts_tree_nil root : exts_tree root [] ⊣⊢ rb_node root ↦ 0.
Proof.
  iSplit.
  - iIntros "(%t & (%Hinv & %HE) & [Htop Ht] & _)".
    destruct t as [|c l a r]; [done|]. simpl in HE. by destruct (inorder l).
  - iIntros "H". iExists Leaf. unfold root_at, exts_at. simpl. iFrame.
    iPureIntro. split; [|done]. exists 0%nat. constructor.
Qed.

Lemma wp_rb_alloc bm Φ :
  ((∀ bp, rb_block bp [] -∗ Φ (E_OK, set_private bm bp)) ∧
   (⌜malloc_can_fail⌝ -∗ Φ (EXT2_ET_NO_MEMORY, bm))) -∗
  wp (rb_alloc_private_data bm) Φ.
Proof.
  iIntros "HΦ". unfold rb_alloc_private_data. wp_apply wp_get_mem; [done|]. iSplit.
  - iIntros (p [Hp _]) "Hp". simpl. iDestruct "HΦ" as "[HΦ _]".
    iDestruct "Hp" as "(H0 & H1 & H2 & H3 & _)".
    rewrite -!(Z.add_assoc p) /=. unfold rb_node, bp_root, bp_rcursor, bp_rcursor_next, bp_wcursor.
    wp_steps. iApply "HΦ". iSplit; [done|]. iExists 0, 0, 0. iFrame.
    iSplit; [iPureIntro; split_and!; by left|]. by rewrite exts_tree_nil.
  - iIntros "Hf". simpl. wp_steps. iDestruct "HΦ" as "[_ HΦ]". by iApply "HΦ".
Qed.

Lemma wp_tree_erase_free {B} root E1 e E2 (m : M B) Φ :
  exts_tree root (E1 ++ e :: E2) -∗
  (exts_tree root (E1 ++ E2) -∗ wp m Φ) -∗
  wp (ext2fs_rb_erase (e_addr e) root ;; ext2fs_free_mem 8 ext_words (e_addr e) ;; m) Φ.
Proof.
  iIntros "Ht HΦ". wp_apply (wp_tree_erase with "Ht"). iIntros "Ht Ha".
  rewrite owns_ext_block. iDestruct "Ha" as (Ha) "Ha". unfold ext2fs_free_mem.
  iApply wp_bind. iApply wp_free; [done|lia|]. iFrame "Ha". by iApply "HΦ".
Qed.

Lemma free_tree_spec root E Φ :
  exts_tree root E -∗ (exts_tree root [] -∗ Φ tt) -∗ wp (rb_free_tree root) Φ.
Proof.
  iIntros "Ht HΦ". unfold rb_free_tree.
  wp_apply (wp_tree_first with "Ht"). iIntros "Ht".
  iInduction E as [|e E] "IH"; wp_loop free_tree_step.
  - wp_steps. by iApply "HΦ".
  - iDestruct (exts_tree_facts with "Ht") as %[_ [Hpos _]%Forall_cons].
    rewrite bool_decide_eq_false_2; [|lia].
    wp_apply (wp_tree_next _ [] with "Ht"). iIntros "Ht".
    iApply (wp_tree_erase_free _ [] with "Ht"). iIntros "Ht". wp_steps.
    iApply ("IH" with "HΦ Ht").
Qed.

Lemma rb_free_bmap_spec bm E Φ :
  rb_block (b_private bm) E -∗ Φ tt -∗ wp (rb_free_bmap bm) Φ.
Proof.
  iIntros "(%Hbp & %w & %r & %rn & _ & (Hw & Hr & Hrn) & Ht) HΦ". unfold rb_free_bmap.
  wp_apply (free_tree_spec with "Ht"). iIntros "Ht". rewrite exts_tree_nil.
  unfold ext2fs_free_mem. iApply wp_free; [done|lia|]. iFrame "HΦ".
  simpl. unfold bp_root, bp_wcursor, bp_rcursor, bp_rcursor_next, rb_node.
  rewrite -!(Z.add_assoc (b_private bm)) /= !pointsto_owns. iFrame.
Qed.

Lemma rb_clear_bmap_spec bm E Φ :
  rb_block (b_private bm) E -∗ (rb_block (b_private bm) [] -∗ Φ tt) -∗
  wp (rb_clear_bmap bm) Φ.
Proof.
  iIntros "(%Hbp & %w & %r & %rn & _ & (Hw & Hr & Hrn) & Ht) HΦ". unfold rb_clear_bmap.
  wp_apply (free_tree_spec with "Ht"). iIntros "Ht". wp_steps. iApply "HΦ".
  iSplit; [done|]. iExists 0, 0, 0. iFrame. iPureIntro. split_and!; by left.
Qed.

(** ** Truncation *)
Lemma truncate_loop_spec root E new_max Φ :
  exts_wf 0 E → 0 ≤ new_max < 2^64 →
  exts_tree root E -∗
  (∀ E', ⌜exts_wf 0 E' ∧ ∀ x, x ∈ ext_set E' ↔ x ∈ ext_set E ∧ x ≤ new_max⌝ -∗
     exts_tree root E' -∗ Φ tt) -∗
  wp (loop (truncate_step new_max root) (opt_ptr (last (addrs E)))) Φ.
Proof.
  iIntros (Hwf Hmax) "Ht HΦ". iInduction E as [|e E] "IH" using rev_ind; wp_loop truncate_step.
  { wp_steps. iApply ("HΦ" with "[%] Ht"). split; [done|]. set_solver. }
  rewrite fmap_app last_snoc /=.
  iDestruct (exts_tree_facts with "Ht") as %[_ Hpos].
  apply Forall_app in Hpos as [_ [Hpos _]%Forall_cons].
  rewrite bool_decide_eq_false_2; [|lia].
  pose proof Hwf as (Hwf1 & Hb & Hlo & Hc & He & _)%exts_wf_mid.
  assert (Hbs : ∀ x, x ∈ ext_set E → x < e_start e).
  { intros x. apply exts_before_set. eapply Forall_impl; [exact Hb|]. simpl. intros; lia. }
  unfold e_end in *.
  wp_apply (wp_tree_end with "Ht"); [unfold e_end; lia|]. iIntros "Ht". unfold e_end.
  wrap. decide_case (e_start e + e_count e - 1 ≤ new_max) as Hle.
  { wp_steps. iApply ("HΦ" with "[%] Ht"). split; [done|].
    intros x. rewrite ext_set_app /=. specialize (Hbs x). mem_lia. }
  wp_apply (wp_tree_start with "Ht"). iIntros "Ht".
  decide_case (new_max < e_start e) as Hlt.
  - iApply (wp_tree_erase_free with "Ht"). iIntros "Ht". rewrite app_nil_r.
    wp_apply (wp_tree_last with "Ht"). iIntros "Ht". wp_steps.
    iApply ("IH" with "[%] Ht"); [done|]. iIntros (E' [Hwf' Heq]) "Ht".
    iApply ("HΦ" with "[%] Ht"). split; [done|].
    intros x. rewrite Heq ext_set_app /=. mem_lia.
  - destruct e as [a s c]. simpl in *. wrap.
    wp_apply (wp_tree_set_count with "Ht"). iIntros "Ht". wp_steps.
    wp_loop truncate_step. rewrite bool_decide_eq_false_2; [|lia].
    wp_apply (wp_tree_end _ E (Extent a s (new_max - s + 1)) [] with "Ht");
      [unfold e_end; simpl; lia|].
    iIntros "Ht". unfold e_end; simpl. wrap. rewrite bool_decide_eq_true_2; [|lia].
    wp_steps. iApply ("HΦ" with "[%] Ht"). split.
    + apply exts_wf_mid. unfold e_end. simpl. split_and!; try done; lia.
    + intros x. rewrite !ext_set_app /=. specialize (Hbs x). mem_lia.
Qed.

(** ** The bitmap *)
Definition rb_bm_at (bm : bmap64) (B : gset Z) : hProp :=
  ∃ E, ⌜bounds_ok bm ∧ exts_wf 0 E ∧ B = shift_set (b_start bm) (ext_set E) ∧
        B ⊆ positions bm⌝ ∗ rb_block (b_private bm) E.

Lemma elem_of_positions bm x : x ∈ positions bm ↔ b_start bm ≤ x ≤ b_real_end bm.
Proof. unfold positions. rewrite elem_of_zrange. lia. Qed.

(** A new list of extents for the same bitmap. *)
Lemma rb_bm_at_intro bm B E :
  bounds_ok bm → exts_wf 0 E → B = shift_set (b_start bm) (ext_set E) →
  B ⊆ positions bm → 0 < b_private bm →
  rb_private (b_private bm) E -∗ rb_bm_at bm B.
Proof. iIntros (????? ) "H". iExists E. by iFrame. Qed.

(** The extents of a bitmap lie within its bounds. *)
Lemma ext_set_bounds bm E x :
  shift_set (b_start bm) (ext_set E) ⊆ positions bm → x ∈ ext_set E →
  0 ≤ x ≤ b_real_end bm - b_start bm.
Proof.
  intros HB Hx. specialize (HB (x + b_start bm)).
  rewrite elem_of_shift_set elem_of_positions in HB.
  replace (x + b_start bm - b_start bm) with x in HB by lia. specialize (HB Hx). lia.
Qed.

Lemma rb_insert_bm bm B arg num Φ :
  b_start bm ≤ arg → 0 ≤ num → arg + num ≤ b_real_end bm + 1 →
  rb_bm_at bm B -∗
  (rb_bm_at bm (zrange arg num ∪ B) -∗ Φ (if decide (num = 0) then 0 else bit_of B arg)) -∗
  wp (rb_insert_extent (u64 (arg - b_start bm)) num (b_private bm)) Φ.
Proof.
  iIntros (Harg Hnum Hend) "(%E & (%Hok & %Hwf & -> & %HB) & %Hbp & Hp) HΦ".
  destruct Hok as (? & ? & ? & ?). wrap.
  iApply (insert_extent_spec with "Hp"); [done|lia..|].
  iIntros (E' [Hwf' Heq]) "Hp".
  replace (bit_of (ext_set E) (arg - b_start bm))
    with (bit_of (shift_set (b_start bm) (ext_set E)) arg); last first.
  { unfold bit_of. pose proof (elem_of_shift_set arg (b_start bm) (ext_set E)).
    repeat case_decide; tauto. }
  iApply "HΦ". iApply (rb_bm_at_intro with "Hp"); [done|done| |..|done].
  - rewrite Heq shift_set_union shift_set_zrange. by replace (arg - b_start bm + b_start bm) with arg by lia.
  - intros x. rewrite elem_of_union elem_of_zrange elem_of_positions.
    intros [?|Hx]; [lia|]. apply HB, elem_of_positions in Hx. done.
Qed.

Lemma rb_remove_bm bm B arg num Φ :
  b_start bm ≤ arg → 0 ≤ num → arg + num ≤ b_real_end bm + 1 →
  rb_bm_at bm B -∗
  (rb_bm_at bm (B ∖ zrange arg num) -∗ Φ (removed_any B arg num)) -∗
  wp (rb_remove_extent (u64 (arg - b_start bm)) num (b_private bm)) Φ.
Proof.
  iIntros (Harg Hnum Hend) "(%E & (%Hok & %Hwf & -> & %HB) & %Hbp & Hp) HΦ".
  destruct Hok as (? & ? & ? & ?). wrap.
  iApply (remove_extent_spec with "Hp"); [done|lia..|].
  iIntros (E' [Hwf' Heq]) "Hp".
  replace (removed_any (ext_set E) (arg - b_start bm) num)
    with (removed_any (shift_set (b_start bm) (ext_set E)) arg num); last first.
  { unfold removed_any.
    assert (zrange arg (num + 1) ## shift_set (b_start bm) (ext_set E) ↔
      zrange (arg - b_start bm) (num + 1) ## ext_set E) as Hiff.
    { split; intros Hd x Hx%elem_of_zrange Hx'.
      - apply (Hd (x + b_start bm)); [apply elem_of_zrange; lia|].
        apply elem_of_shift_set. by replace (x + b_start bm - b_start bm) with x by lia.
      - apply elem_of_shift_set in Hx'. apply (Hd (x - b_start bm)); [|done].
        apply elem_of_zrange. lia. }
    repeat case_decide; tauto. }
  iApply "HΦ". iApply (rb_bm_at_intro with "Hp"); [done|done| |..|done].
  - rewrite Heq shift_set_difference shift_set_zrange.
    by replace (arg - b_start bm + b_start bm) with arg by lia.
  - set_solver.
Qed.

Lemma removed_any_one B x : removed_any B x 1 ≠ 0 ↔ x ∈ B ∨ x + 1 ∈ B.
Proof.
  split.
  - intros Hr. destruct (decide (x ∈ B)) as [|Hx]; [by left|].
    destruct (decide (x + 1 ∈ B)) as [|Hx']; [by right|]. destruct Hr. apply removed_any_0.
    intros y Hy ?. assert (y = x ∨ y = x + 1) as [-> | ->] by lia; done.
  - intros Hin. assert (∃ y, y ∈ B ∧ x ≤ y ≤ x + 1) as (y & Hy & Hr).
    { destruct Hin; [exists x|exists (x + 1)]; (split; [done|lia]). }
    rewrite (removed_any_1 _ _ _ y) //.
Qed.

Lemma rb_test_bm bm B arg Φ :
  b_start bm ≤ arg ≤ b_real_end bm →
  rb_bm_at bm B -∗ (rb_bm_at bm B -∗ Φ (bit_of B arg)) -∗
  wp (rb_test_bmap bm arg) Φ.
Proof.
  iIntros (Harg) "(%E & (%Hok & %Hwf & -> & %HB) & %Hbp & Hp) HΦ".
  destruct Hok as (? & ? & ? & ?). unfold rb_test_bmap. wrap.
  iApply (test_bit_spec with "Hp"); [done|]. iIntros "Hp".
  replace (bit_of (ext_set E) (arg - b_start bm))
    with (bit_of (shift_set (b_start bm) (ext_set E)) arg); last first.
  { unfold bit_of. pose proof (elem_of_shift_set arg (b_start bm) (ext_set E)).
    repeat case_decide; tauto. }
  iApply "HΦ". iApply (rb_bm_at_intro with "Hp"); done.
Qed.

Lemma bit_of_nonzero B x : bit_of B x ≠ 0 ↔ x ∈ B.
Proof. unfold bit_of. case_decide; split; done || lia. Qed.

(** ** Resizing *)
Lemma rb_resize_spec bm B ne nre Φ :
  bounds_ok (set_ends bm ne nre) →
  rb_bm_at bm B -∗
  (∀ B', ⌜∀ x, x ≤ ne → (x ∈ B' ↔ x ∈ B ∧ x ≤ b_end bm)⌝ -∗
     rb_bm_at (set_ends bm ne nre) B' -∗ Φ (E_OK, set_ends bm ne nre)) -∗
  wp (rb_resize_bmap bm ne nre) Φ.
Proof.
  iIntros (Hok') "(%E & (%Hok & %Hwf & -> & %HB) & %Hbp & Hp) HΦ".
  destruct Hok as (? & ? & ? & ?). pose proof Hok' as (? & ? & ? & ?). simpl in *.
  iDestruct "Hp" as "(%w & %r & %rn & _ & (Hw & Hr & Hrn) & Ht)".
  unfold rb_resize_bmap, rb_truncate. wp_steps.
  wp_apply (wp_tree_last with "Ht"). iIntros "Ht".
  set (m := if bool_decide (ne < b_end bm) then ne else b_end bm).
  assert (m = Z.min ne (b_end bm)) as -> by (unfold m; case_bool_decide; lia).
  wrap. wp_apply (truncate_loop_spec with "Ht"); [done|lia|].
  iIntros (E' [Hwf' Heq]) "Ht".
  iAssert (rb_private (b_private bm) E') with "[Hw Hr Hrn Ht]" as "Hp".
  { iExists 0, 0, rn. iFrame. iPureIntro. split_and!; by left. }
  assert (Hmem : ∀ x, x ∈ shift_set (b_start bm) (ext_set E') ↔
    x ∈ shift_set (b_start bm) (ext_set E) ∧ x ≤ Z.min ne (b_end bm)).
  { intros x. rewrite !elem_of_shift_set Heq. mem_lia. }
  case_bool_decide as Hpad; simpl in *.
  - wrap. wp_apply (insert_extent_spec with "Hp"); [done|lia..|].
    iIntros (E'' [Hwf'' Heq'']) "Hp". wp_steps.
    iApply ("HΦ" $! (zrange (ne + 1) (nre - ne) ∪ shift_set (b_start bm) (ext_set E')) with "[%]").
    { intros x Hx. rewrite elem_of_union elem_of_zrange Hmem. clear -Hx. mem_lia. }
    iApply (rb_bm_at_intro (set_ends bm ne nre) with "Hp"); simpl; [done|done| | |done].
    + rewrite Heq'' shift_set_union shift_set_zrange.
      by replace (ne + 1 - b_start bm + b_start bm) with (ne + 1) by lia.
    + intros x. rewrite elem_of_union elem_of_zrange elem_of_positions Hmem /=.
      intros [?|[Hx ?]]; [lia|]. apply HB, elem_of_positions in Hx. lia.
  - wp_steps. iApply ("HΦ" $! (shift_set (b_start bm) (ext_set E')) with "[%]").
    { intros x Hx. rewrite Hmem. clear -Hx. mem_lia. }
    iApply (rb_bm_at_intro (set_ends bm ne nre) with "Hp"); simpl; [done|done|done| |done].
    intros x. rewrite elem_of_positions Hmem /=.
    intros [Hx ?]. apply HB, elem_of_positions in Hx. lia.
Qed.

(** ** Searching *)
Lemma exts_tree_null_root root E :
  exts_tree root E -∗ ∃ top, rb_node root ↦ top ∗ ⌜top = 0 ↔ E = []⌝ ∗
    (rb_node root ↦ top -∗ exts_tree root E).
Proof.
  iIntros "(%t & (%Hinv & %HE) & [Htop Ht] & Hex)".
  iAssert ⌜ptr t = 0 ↔ E = []⌝%I as %Hiff.
  { destruct t as [|c l a r]; simpl in *.
    - symmetry in HE. apply fmap_nil_inv in HE as ->. done.
    - iDestruct "Ht" as "(Ha & _)". iDestruct (node_at_facts with "Ha") as %[[??] ?].
      iPureIntro. split; [lia|]. intros ->. by destruct (inorder l). }
  iExists (ptr t). iFrame. iSplit; [done|]. iIntros "Htop". by iFrame.
Qed.

Lemma wp_empty_root root E Φ :
  exts_tree root E -∗ (exts_tree root E -∗ Φ (bool_decide (E = []))) -∗
  wp (ext2fs_rb_empty_root root) Φ.
Proof.
  iIntros "Ht HΦ". iDestruct (exts_tree_null_root with "Ht") as (top) "(Htop & %Htop & Ht)".
  unfold ext2fs_rb_empty_root. wp_load. wp_steps.
  rewrite (bool_decide_ext _ _ Htop). iApply "HΦ". by iApply "Ht".
Qed.

(** A descent on the private structure. *)
Lemma wp_private_find bp E start Φ :
  exts_wf 0 E →
  rb_private bp E -∗
  ((∀ k E1 E2, ⌜E = E1 ++ E2 ∧ ctx_split k E1 E2 ∧ exts_before start E1 ∧
       exts_after start E2⌝ -∗ rb_private bp E -∗
     Φ (inl (ctx_ptr k, ctx_slot (bp_root bp) k))) ∧
   (∀ E1 e E2, ⌜E = E1 ++ e :: E2 ∧ e_start e ≤ start < e_end e⌝ -∗
     rb_private bp E -∗ Φ (inr (e_addr e)))) -∗
  wp (rb_find at_or_after start (bp_root bp)) Φ.
Proof.
  iIntros (Hwf) "H HΦ". iDestruct (rb_private_tree with "H") as "[Ht H]".
  iApply (wp_rb_find with "Ht"); [apply at_or_after_mono|done|]. iSplit.
  - iIntros (k E1 E2 (-> & Hk & [Hb Ha] & Hinv)) "Hk Hex". iDestruct "HΦ" as "[HΦ _]".
    iApply ("HΦ" with "[%]").
    { split_and!; [done..| |done]. eapply Forall_impl; [exact Hb|].
      intros e. apply bool_decide_eq_true. }
    iApply ("H" with "[%]"); [done|]. iApply (exts_tree_intro with "Hk Hex"); done.
  - iIntros (E1 e E2 (-> & Hle & Hf)) "Ht". iDestruct "HΦ" as "[_ HΦ]".
    apply bool_decide_eq_false in Hf. iApply ("HΦ" with "[%]"); [split; [done|lia]|].
    by iApply ("H" with "[%] Ht").
Qed.

(** The loops over the extents start at the one before the bit or at the one
    after it. *)
Lemma parent_list k E1 E2 :
  ctx_split k E1 E2 →
  ∃ P Q, E1 ++ E2 = P ++ Q ∧ ctx_ptr k = opt_ptr (head (addrs Q)) ∧
    ((P = E1 ∧ Q = E2 ∧ (E2 = [] → E1 = [])) ∨ ∃ e, E1 = P ++ [e] ∧ Q = e :: E2).
Proof.
  intros [(-> & -> & ->)|[(E1' & e & -> & ->)|(e & E2' & -> & ->)]]%ctx_parent.
  - exists [], []. auto 6.
  - exists E1', (e :: E2). split_and!; [solve_app|done|]. right. by exists e.
  - exists E1, (e :: E2'). split_and!; [done..|]. by left.
Qed.

Lemma test_clear_loop_spec bp start len P Q Φ :
  exts_wf 0 (P ++ Q) → 0 ≤ start → 0 ≤ len → start + len < 2^64 →
  Forall (λ e, e_end e ≤ start ∨ start < e_start e) Q →
  rb_private bp (P ++ Q) -∗
  (rb_private bp (P ++ Q) -∗ Φ (if decide (zrange start len ## ext_set Q) then 1 else 0)) -∗
  wp (loop (test_clear_step start len) (opt_ptr (head (addrs Q)))) Φ.
Proof.
  revert P. induction Q as [|e Q IH]; intros P; iIntros (Hwf Hst Hlen Hsl Hout) "H HΦ";
    wp_loop test_clear_step.
  { wp_steps. rewrite decide_True; [by iApply "HΦ"|set_solver]. }
  pose proof Hwf as (_ & _ & Hlo & Hc & He & Hwf2)%exts_wf_mid.
  apply Forall_cons in Hout as [Hoe Hout].
  iDestruct (rb_private_tree with "H") as "[Ht H]".
  iDestruct (exts_tree_facts with "Ht") as %[_ Hpos].
  apply Forall_app in Hpos as [_ [Hpos _]%Forall_cons].
  rewrite bool_decide_eq_false_2; [|lia].
  wp_apply (wp_tree_next with "Ht"). iIntros "Ht".
  wp_apply (wp_tree_end with "Ht"); [unfold e_end in *; lia|]. iIntros "Ht".
  decide_case (e_end e ≤ start) as Hbef.
  - wp_steps. iDestruct ("H" with "[%] Ht") as "H"; [done|].
    replace (P ++ e :: Q) with ((P ++ [e]) ++ Q) in Hwf |- * by solve_app.
    iApply (IH (P ++ [e]) with "H"); [done..|].
    replace ((P ++ [e]) ++ Q) with (P ++ e :: Q) by solve_app.
    assert (zrange start len ## ext_set (e :: Q) ↔ zrange start len ## ext_set Q) as Hiff.
    { simpl. unfold e_end in *. split; intros Hd x Hx; specialize (Hd x Hx); [set_solver|].
      apply elem_of_zrange in Hx. rewrite elem_of_union elem_of_zrange. intros [?|?]; [lia|done]. }
    iIntros "H". iSpecialize ("HΦ" with "H").
    by rewrite (decide_ext _ _ _ _ Hiff).
  - wp_apply (wp_tree_start with "Ht"). iIntros "Ht".
    iDestruct ("H" with "[%] Ht") as "H"; [done|]. wrap.
    destruct Hoe as [?|Hoe]; [lia|].
    decide_case (start + len ≤ e_start e) as Haft; wp_steps.
    + rewrite decide_True; [by iApply "HΦ"|]. intros x Hx%elem_of_zrange. simpl.
      intros [Hx'%elem_of_zrange|Hx']%elem_of_union; [lia|].
      eapply exts_wf_range in Hx'; [|done]. unfold e_end in *. lia.
    + rewrite decide_False; [by iApply "HΦ"|]. intros Hd. apply (Hd (e_start e)).
      * apply elem_of_zrange. lia.
      * simpl. rewrite elem_of_union elem_of_zrange. lia.
Qed.

Lemma rb_test_clear_spec bm B arg num Φ :
  b_start bm ≤ arg → 0 ≤ num → arg + num ≤ b_real_end bm + 1 →
  rb_bm_at bm B -∗
  (∀ v, ⌜(v = 0 ∨ v = 1) ∧ (v = 1 ↔ zrange arg num ## B)⌝ -∗ rb_bm_at bm B -∗ Φ v) -∗
  wp (rb_test_clear_bmap_extent bm arg num) Φ.
Proof.
  iIntros (Harg Hnum Hend) "(%E & (%Hok & %Hwf & -> & %HB) & %Hbp & Hp) HΦ".
  destruct Hok as (? & ? & ? & ?).
  iAssert (∀ v, ⌜(v = 0 ∨ v = 1) ∧ (v = 1 ↔ zrange (arg - b_start bm) num ## ext_set E)⌝ -∗
    rb_private (b_private bm) E -∗ Φ v)%I with "[HΦ]" as "HΦ".
  { iIntros (v [Hv Hiff]) "Hp". iApply ("HΦ" with "[%]"); [|by iApply (rb_bm_at_intro with "Hp")].
    split; [done|]. rewrite Hiff. split; intros Hd x Hx%elem_of_zrange Hx'.
    - apply elem_of_shift_set in Hx'. apply (Hd (x - b_start bm)); [|done].
      apply elem_of_zrange. lia.
    - apply (Hd (x + b_start bm)); [apply elem_of_zrange; lia|]. apply elem_of_shift_set.
      by replace (x + b_start bm - b_start bm) with x by lia. }
  unfold rb_test_clear_bmap_extent. wrap. set (start := arg - b_start bm).
  iApply wp_bind. iApply (wp_wand _ (λ b, rb_private (b_private bm) E ∗
    ⌜b = bool_decide (num = 0 ∨ E = [])⌝)%I with "[Hp]").
  { decide_case (num = 0) as Hn.
    - wp_steps. iFrame. iPureIntro. symmetry. apply bool_decide_eq_true. auto.
    - iDestruct (rb_private_tree with "Hp") as "[Ht Hp]".
      iApply (wp_empty_root with "Ht"). iIntros "Ht".
      iDestruct ("Hp" with "[%] Ht") as "$"; [done|].
      iPureIntro. apply bool_decide_ext. tauto. }
  iIntros (b) "[Hp ->]". decide_case (num = 0 ∨ E = []) as Hnone.
  { wp_steps. iApply ("HΦ" with "[%] Hp"). split; [by right|]. split; [|done]. intros _.
    destruct Hnone as [-> | ->]; [|simpl; set_solver]. rewrite zrange_empty; [set_solver|lia]. }
  iApply wp_bind. iApply (wp_private_find with "Hp"); [done|]. iSplit.
  - iIntros (k E1 E2 (-> & Hk & Hb & Ha)) "Hp".
    destruct (parent_list _ _ _ Hk) as (P & Q & HPQ & -> & Hcase). rewrite HPQ in Hwf |- *.
    assert (exts_before start P ∧ Forall (λ e, e_end e ≤ start ∨ start < e_start e) Q)
      as [HbP Hout].
    { destruct Hcase as [(-> & -> & _)|(e & -> & ->)].
      - split; [done|]. eapply Forall_impl; [exact Ha|]. auto.
      - apply Forall_app in Hb as [? [? _]%Forall_cons]. split; [done|].
        constructor; [auto|]. eapply Forall_impl; [exact Ha|]. auto. }
    iApply (test_clear_loop_spec with "Hp"); [done|lia..|done|]. iIntros "Hp".
    iApply ("HΦ" with "[%] Hp"). split; [case_decide; auto|].
    rewrite ext_set_app. pose proof (λ x, exts_before_set start P x HbP) as Hlt.
    assert (zrange start num ## ext_set P).
    { intros x Hx%elem_of_zrange Hx'%Hlt. lia. }
    case_decide as Hd; split; intros; [set_solver|done|done|]. destruct Hd. set_solver.
  - iIntros (E1 e E2 (-> & Hin)) "Hp". wp_steps. iApply ("HΦ" with "[%] Hp").
    split; [by left|]. split; [done|]. intros Hd. exfalso. apply (Hd start).
    + apply elem_of_zrange. lia.
    + by eapply ext_set_hit.
Qed.

Lemma shift_ext_set_ne bm E :
  exts_wf 0 E → E ≠ [] → shift_set (b_start bm) (ext_set E) ≠ ∅.
Proof.
  intros Hwf HE Hemp. destruct E as [|e E]; [done|].
  assert (e_start e ∈ ext_set (e :: E)) as Hin.
  { pose proof (proj1 (exts_wf_mid 0 [] e E) Hwf) as (_ & _ & _ & ? & _).
    eapply (ext_set_hit 0 [] e E); [done|]. unfold e_end. lia. }
  assert (e_start e + b_start bm ∈ shift_set (b_start bm) (ext_set (e :: E))); [|set_solver].
  apply elem_of_shift_set. by replace (e_start e + b_start bm - b_start bm) with (e_start e) by lia.
Qed.

Lemma rb_find_first_zero_spec bm B s (e : Z) Φ :
  b_start bm ≤ s ≤ e → e ≤ b_real_end bm →
  rb_bm_at bm B -∗
  (∀ r, ⌜if decide (B = ∅) then r.1 = ENOENT else is_first (λ x, x ∉ B) s e r⌝ -∗
     rb_bm_at bm B -∗ Φ r) -∗
  wp (rb_find_first_zero bm s e) Φ.
Proof.
  iIntros (Hs He) "(%E & (%Hok & %Hwf & -> & %HB) & %Hbp & Hp) HΦ".
  destruct Hok as (? & ? & ? & ?). unfold rb_find_first_zero. wrap.
  rewrite bool_decide_eq_false_2; [|lia].
  iDestruct (rb_private_tree with "Hp") as "[Ht Hp]".
  wp_apply (wp_empty_root with "Ht"). iIntros "Ht".
  iDestruct ("Hp" with "[%] Ht") as "Hp"; [done|].
  decide_case (E = []) as HE.
  { wp_steps. subst E. iApply ("HΦ" with "[%]"); [|by iApply (rb_bm_at_intro with "Hp")].
    destruct (decide _) as [|HB']; [done|]. destruct HB'. by rewrite shift_set_empty. }
  destruct (decide (shift_set (b_start bm) (ext_set E) = ∅)) as [Hemp|_];
    [by apply shift_ext_set_ne in Hemp|].
  iApply wp_bind. iApply (wp_private_find with "Hp"); [done|]. iSplit.
  - iIntros (k E1 E2 (-> & Hk & Hb & Ha)) "Hp". wp_steps.
    replace (s - b_start bm + b_start bm) with s by lia.
    iApply ("HΦ" with "[%]"); [|by iApply (rb_bm_at_intro with "Hp")].
    left. simpl. split_and!; [done|lia|lia| |intros; lia].
    rewrite elem_of_shift_set. by apply ext_set_miss.
  - iIntros (E1 e0 E2 (-> & Hin)) "Hp".
    pose proof Hwf as (_ & Hb & Hlo & Hc & Hend & Hwf2)%exts_wf_mid.
    iDestruct (rb_private_tree with "Hp") as "[Ht Hp]".
    wp_apply (wp_tree_end with "Ht"); [unfold e_end in *; lia|]. iIntros "Ht".
    iDestruct ("Hp" with "[%] Ht") as "Hp"; [done|].
    assert (Hset : ∀ x, s ≤ x < e_end e0 + b_start bm →
      x ∈ shift_set (b_start bm) (ext_set (E1 ++ e0 :: E2))).
    { intros x Hx. rewrite elem_of_shift_set. eapply ext_set_hit; [done|lia]. }
    decide_case (e_end e0 ≤ e - b_start bm) as Hfit; wp_steps.
    + rewrite u64_small; [|lia].
      iApply ("HΦ" with "[%]"); [|by iApply (rb_bm_at_intro with "Hp")].
      left. simpl. split_and!; [done|lia|lia| |].
      * rewrite elem_of_shift_set.
        replace (e_end e0 + b_start bm - b_start bm) with (e_end e0) by lia.
        apply ext_set_gap; [done|lia|]. intros e2 He2. destruct E2; [done|].
        injection He2 as ->. simpl in Hwf2. lia.
      * intros x Hx Hn. apply Hn, Hset. lia.
    + iApply ("HΦ" with "[%]"); [|by iApply (rb_bm_at_intro with "Hp")].
      right. simpl. split; [done|]. intros x Hx Hn. apply Hn, Hset. lia.
Qed.

Lemma rb_find_first_set_spec bm B s (e : Z) Φ :
  b_start bm ≤ s ≤ e → e ≤ b_real_end bm →
  rb_bm_at bm B -∗
  (∀ r, ⌜is_first (λ x, x ∈ B) s e r⌝ -∗ rb_bm_at bm B -∗ Φ r) -∗
  wp (rb_find_first_set bm s e) Φ.
Proof.
  iIntros (Hs He) "(%E & (%Hok & %Hwf & -> & %HB) & %Hbp & Hp) HΦ".
  destruct Hok as (? & ? & ? & ?). unfold rb_find_first_set. wrap.
  rewrite bool_decide_eq_false_2; [|lia].
  iDestruct (rb_private_tree with "Hp") as "[Ht Hp]".
  wp_apply (wp_empty_root with "Ht"). iIntros "Ht".
  iDestruct ("Hp" with "[%] Ht") as "Hp"; [done|].
  decide_case (E = []) as HE.
  { wp_steps. subst E. iApply ("HΦ" with "[%]"); [right|by iApply (rb_bm_at_intro with "Hp")].
    simpl. rewrite shift_set_empty. split; [done|]. set_solver. }
  iApply wp_bind. iApply (wp_private_find with "Hp"); [done|]. iSplit.
  2:{ iIntros (E1 e0 E2 (-> & Hin)) "Hp". wp_steps.
    replace (s - b_start bm + b_start bm) with s by lia.
    iApply ("HΦ" with "[%]"); [|by iApply (rb_bm_at_intro with "Hp")].
    left. simpl. split_and!; [done|lia|lia| |intros; lia].
    rewrite elem_of_shift_set. by eapply ext_set_hit. }
  iIntros (k E1 E2 (-> & Hk & Hb & Ha)) "Hp".
  destruct (parent_list _ _ _ Hk) as (P & Q & HPQ & -> & Hcase). rewrite HPQ in Hwf HB HE |- *.
  set (a := b_start bm) in *.
  assert (Hfirst : is_first (λ x, x ∈ shift_set a (ext_set (P ++ Q))) s e
    match E2 with
    | [] => (ENOENT, 0)
    | e2 :: _ => if bool_decide (e_start e2 ≤ e - a) then (E_OK, e_start e2 + a)
                 else (ENOENT, 0)
    end).
  { assert (Hnone : ∀ x, s ≤ x → x ∈ shift_set a (ext_set (P ++ Q)) → x - a ∈ ext_set E2).
    { intros x Hx. rewrite elem_of_shift_set -HPQ ext_set_app elem_of_union.
      intros [Hx'|?]; [|done]. apply (exts_before_set _ _ _ Hb) in Hx'. lia. }
    rewrite -HPQ in Hwf Hnone |- *. apply exts_wf_app in Hwf as [_ Hwf2].
    destruct E2 as [|e2 E2]; [right; split; [done|]; intros x Hx Hx'%Hnone; simpl in *; [set_solver|lia]|].
    simpl in Hwf2. destruct Hwf2 as (_ & Hc & _ & Hwf2).
    apply Forall_cons in Ha as [Ha _].
    assert (Hlow : ∀ x, x ∈ ext_set (e2 :: E2) → e_start e2 ≤ x).
    { simpl. intros x [Hx%elem_of_zrange|Hx]%elem_of_union; [lia|].
      eapply exts_wf_range in Hx; [|done]. unfold e_end in *. lia. }
    case_bool_decide as Hle.
    - left. simpl. split_and!; [done|lia|lia| |].
      + rewrite elem_of_shift_set ext_set_app /=. rewrite !elem_of_union elem_of_zrange. lia.
      + intros x Hx Hx'%Hnone; [|lia]. apply Hlow in Hx'. lia.
    - right. split; [done|]. intros x Hx Hx'%Hnone; [|lia]. apply Hlow in Hx'. lia. }
  iAssert (rb_private (b_private bm) (P ++ Q) -∗ Φ match E2 with
    | [] => (ENOENT, 0)
    | e2 :: _ => if bool_decide (e_start e2 ≤ e - a) then (E_OK, e_start e2 + a)
                 else (ENOENT, 0)
    end)%I with "[HΦ]" as "HΦ".
  { iIntros "Hp". iApply ("HΦ" with "[%] [Hp]"); [exact Hfirst|].
    by iApply (rb_bm_at_intro with "Hp"). }
  clear Hfirst. iDestruct (rb_private_tree with "Hp") as "[Ht Hp]".
  iDestruct (exts_tree_facts with "Ht") as %[_ Hpos]. apply Forall_app in Hpos as [HposP HposQ].
  destruct Hcase as [(-> & -> & Hemp)|(e1 & -> & ->)].
  - destruct E2 as [|e2 E2]; [by rewrite Hemp in HE|].
    apply Forall_cons in Ha as [Ha _]. apply Forall_cons in HposQ as [Hp2 _].
    wp_apply (wp_tree_start with "Ht"). iIntros "Ht".
    rewrite (bool_decide_eq_false_2 (e_start e2 < s - a)); [|lia]. wp_steps.
    rewrite (bool_decide_eq_false_2 (e_addr e2 = 0)); [|lia].
    wp_apply (wp_tree_start with "Ht"). iIntros "Ht".
    iDestruct ("Hp" with "[%] Ht") as "Hp"; [done|]. iSpecialize ("HΦ" with "Hp").
    decide_case (e_start e2 ≤ e - a) as Hle; wp_steps; [|done]. by wrap.
  - apply Forall_app in Hb as [_ [Hb _]%Forall_cons].
    wp_apply (wp_tree_start with "Ht"). iIntros "Ht".
    apply exts_wf_mid in Hwf as (_ & _ & Hlo & Hc & Hend & Hwf2). unfold e_end in *.
    rewrite (bool_decide_eq_true_2 (e_start e1 < s - a)); [|lia].
    wp_apply (wp_tree_next with "Ht"). iIntros "Ht".
    apply Forall_cons in HposQ as [_ HposQ].
    destruct E2 as [|e2 E2]; simpl in Hwf2 |- *.
    { wp_steps. iDestruct ("Hp" with "[%] Ht") as "Hp"; [done|]. by iApply "HΦ". }
    apply Forall_cons in HposQ as [Hp2 _].
    rewrite (bool_decide_eq_false_2 (e_addr e2 = 0)); [|lia].
    replace (P ++ e1 :: e2 :: E2) with ((P ++ [e1]) ++ e2 :: E2) by solve_app.
    wp_apply (wp_tree_start with "Ht"). iIntros "Ht".
    iDestruct ("Hp" with "[%] Ht") as "Hp"; [done|]. iSpecialize ("HΦ" with "Hp").
    decide_case (e_start e2 ≤ e - a) as Hle; wp_steps; [|done]. by wrap.
Qed.

(** ** Loading a range *)
Lemma range_bytes num i n :
  Z.of_nat n = (num + 7) / 8 → 0 ≤ i < num → i / 8 < Z.of_nat n ∧ i < 8 * Z.of_nat n.
Proof. pose proof (Z.div_mod (num + 7) 8). pose proof (Z.mod_pos_bound (num + 7) 8).
  pose proof (Z.div_mod i 8). pose proof (Z.mod_pos_bound i 8). lia. Qed.

(** The bits seen when the loop is at [i]: those before the run that starts at
    [f], or all. *)
Definition range_seen (s : Z) (I : gset Z) (i f : Z) : gset Z :=
  shift_set s (I ∩ zrange 0 (if decide (f = -1) then i else f)).

Definition range_run (num : Z) (n : nat) (I : gset Z) (i f : Z) : Prop :=
  0 ≤ i ∧ ((f = -1 ∧ i ≤ 8 * Z.of_nat n) ∨ (0 ≤ f < i ∧ i ≤ num ∧ zrange f (i - f) ⊆ I)).

Lemma range_run_set num n I i f k :
  0 ≤ i → 0 < k → range_run num n I i f → I ⊆ zrange 0 num → zrange i k ⊆ I →
  range_run num n I (i + k) (if decide (f = -1) then i else f) ∧ i + k ≤ num.
Proof.
  intros Hi Hk [_ Hf] HI Hrun. pose proof (HI (i + k - 1)) as Hl. rewrite elem_of_zrange in Hl.
  assert (i + k - 1 ∈ I) as Hin by (apply Hrun, elem_of_zrange; lia). specialize (Hl Hin).
  split; [|lia]. split; [lia|]. right. case_decide; [split_and!; [lia..|]|].
  - intros x. rewrite elem_of_zrange. intros. apply Hrun, elem_of_zrange. lia.
  - destruct Hf as [?|(? & ? & Hfi)]; [lia|]. split_and!; [lia..|].
    intros x. rewrite elem_of_zrange. intros. destruct (decide (x < i)).
    + apply Hfi, elem_of_zrange. lia.
    + apply Hrun, elem_of_zrange. lia.
Qed.

Lemma range_seen_set s I i f k :
  f = -1 ∨ 0 ≤ f < i → 0 ≤ i →
  range_seen s I (i + k) (if decide (f = -1) then i else f) = range_seen s I i f.
Proof. intros. unfold range_seen. repeat case_decide; done || lia. Qed.

Lemma range_seen_skip s I i k :
  0 ≤ i → 0 ≤ k → (∀ x, i ≤ x < i + k → x ∉ I) → range_seen s I (i + k) (-1) = range_seen s I i (-1).
Proof.
  intros Hi Hk Hno. unfold range_seen.
  destruct (decide (-1 = -1)); [|done]. f_equal.
  apply set_eq. intros x. rewrite !elem_of_intersection !elem_of_zrange.
  split; intros [? ?]; split; try done; [|lia].
  destruct (decide (i ≤ x)); [by destruct (Hno x); [lia|]|lia].
Qed.

Lemma range_seen_flush s I i f n num B :
  range_run num n I i f → f ≠ -1 → i ∉ I →
  zrange (s + f) (i - f) ∪ (range_seen s I i f ∪ B) = range_seen s I (i + 1) (-1) ∪ B.
Proof.
  intros [_ [[? _]|(? & _ & Hf)]] Hf1 Hi; [done|]. unfold range_seen.
  destruct (decide (f = -1)); [done|]. destruct (decide (-1 = -1)); [|done].
  apply set_eq. intros x. specialize (Hf (x - s)).
  rewrite !elem_of_union !elem_of_shift_set !elem_of_intersection !elem_of_zrange.
  rewrite elem_of_zrange in Hf.
  destruct (decide (x - s = i)) as [Hx|]; [rewrite Hx in Hf |- *|]; mem_lia.
Qed.

Lemma byte_all_bits b i : b = 255 → 0 ≤ i < 8 → Z.testbit b i = true.
Proof. intros -> Hi. change 255 with (Z.ones 8). apply Z.ones_spec_low. lia. Qed.

(** What the loop keeps: the bits before the current run are in the bitmap. *)
Definition range_state (bm : bmap64) (B : gset Z) (s num inp : Z) (n : nat) (I : gset Z)
    (st : Z * Z) : hProp :=
  rb_bm_at bm (range_seen s I st.1 st.2 ∪ B) ∗ bits_at inp n I ∗
  ⌜range_run num n I st.1 st.2⌝.

(** The test whether a whole byte is set or clear. *)
Lemma set_range_skip_spec inp n I i f Φ :
  0 ≤ i < 2^31 → i < 8 * Z.of_nat n →
  bits_at inp n I -∗
  (∀ r, ⌜match r with
         | Some f' => i mod 8 = 0 ∧
             ((f' = (if decide (f = -1) then i else f) ∧ zrange i 8 ⊆ I) ∨
              (f = -1 ∧ f' = -1 ∧ ∀ x, i ≤ x < i + 8 → x ∉ I))
         | None => True
         end⌝ -∗ bits_at inp n I -∗ Φ r) -∗
  wp (if bool_decide (Z.land i 7 = 0) then
        c ← load (inp + i / 8);
        if bool_decide (c = 255) then
          mret (Some (if bool_decide (f = -1) then s32 i else f))
        else if bool_decide (c = 0 ∧ f = -1) then mret (Some f)
        else mret None
      else mret None) Φ.
Proof.
  iIntros (Hi Hin) "Hin HΦ". rewrite land7.
  pose proof (Z.div_mod i 8). pose proof (Z.mod_pos_bound i 8).
  decide_case (i mod 8 = 0) as Hal; [|wp_steps; by iApply "HΦ"].
  wp_apply (wp_load_bits with "Hin"); [lia|]. iIntros (c [Hc HB]) "Hin".
  decide_case (c = 255) as Hff; [|decide_case (c = 0 ∧ f = -1) as Hz]; wp_steps;
    [|destruct Hz as [-> ->]|by iApply "HΦ"]; iApply ("HΦ" with "[%] Hin"); split; [done| |done|].
  - left. split; [repeat case_match; case_bool_decide; wrap; done|].
    intros x Hx%elem_of_zrange. specialize (HB (x - i)).
    replace (8 * (i / 8) + (x - i)) with x in HB by lia. apply HB; [lia|].
    apply byte_all_bits; [done|lia].
  - right. split_and!; [done..|]. intros x Hx HxI. specialize (HB (x - i)).
    replace (8 * (i / 8) + (x - i)) with x in HB by lia.
    apply HB in HxI; [|lia]. by rewrite Z.bits_0 in HxI.
Qed.

Lemma set_range_step_spec bm B s num inp n I i f :
  bounds_ok bm → b_start bm ≤ s → 0 ≤ num < 2^31 → s + num ≤ b_real_end bm + 1 →
  Z.of_nat n = (num + 7) / 8 → I ⊆ zrange 0 num →
  range_state bm B s num inp n I (i, f) -∗
  wp (set_range_step bm s num inp (i, f)) (λ r, match r with
    | inl st => range_state bm B s num inp n I st ∗ ⌜i < st.1 ∧ i < num⌝
    | inr f' => range_state bm B s num inp n I (i, f) ∗ ⌜f' = f ∧ num ≤ i⌝
    end).
Proof.
  iIntros ((? & ? & ? & ?) Hs Hnum Hend Hn HI) "(Hbm & Hin & %Hrun)".
  assert (8 * Z.of_nat n < num + 8) as Hn8.
  { pose proof (Z.div_mod (num + 7) 8). pose proof (Z.mod_pos_bound (num + 7) 8). lia. }
  unfold set_range_step; cbn [fst snd] in *.
  decide_case (num ≤ i) as Hdone. { wp_steps. by iFrame. }
  pose proof Hrun as [Hi Hf]. destruct (range_bytes num i n) as [Hi8 Hi8']; [done|lia|].
  wp_apply (set_range_skip_spec with "Hin"); [lia..|]. iIntros (r Hr) "Hin".
  destruct r as [f'|].
  { wrap. wp_steps. destruct Hr as [Hal Hr]. replace (i + 7 + 1) with (i + 8) by lia.
    assert (range_run num n I (i + 8) f' ∧ range_seen s I (i + 8) f' = range_seen s I i f)
      as [Hrun' Hseen].
    { destruct Hr as [[-> Hall]|(-> & -> & Hnone)].
      - split; [by eapply range_run_set|]. apply range_seen_set; lia.
      - split; [|by apply range_seen_skip]. split; [lia|]. left. split; [done|].
        pose proof (Z.div_mod i 8). lia. }
    unfold range_state. cbn [fst snd]. rewrite Hseen. iFrame. iPureIntro. split; [done|lia]. }
  rewrite u32_small; [|lia]. rewrite test_bit_64.
  wp_apply (wp_test_bit64 with "Hin"); [lia|]. iIntros "Hin".
  rewrite (bool_decide_ext _ _ (mask_of_nonzero I i)). decide_case (i ∈ I) as HiI.
  - wrap. wp_steps. unfold range_state. cbn [fst snd].
    replace (if bool_decide (f = -1) then i else f) with (if decide (f = -1) then i else f)
      by (case_decide; case_bool_decide; done).
    rewrite range_seen_set; [|lia..]. iFrame. iPureIntro. split; [|lia].
    eapply range_run_set; [done|lia|done|done|]. intros x Hx%elem_of_zrange.
    by replace x with i by lia.
  - decide_case (f = -1) as Hf1.
    + subst f. wrap. wp_steps. unfold range_state. cbn [fst snd].
      rewrite range_seen_skip; [|lia..|intros x Hx; by replace x with i by lia].
      iFrame. iPureIntro. split; [|lia]. split; [lia|]. left. lia.
    + destruct Hf as [?|(Hf & Hfn & Hrf)]; [lia|].
      rewrite (u64_small (s + f)); [|lia]. rewrite (u64_small (i - f)); [|lia].
      rewrite (u64_small (i + 1)); [|lia].
      wp_apply (rb_insert_bm with "Hbm"); [lia..|]. iIntros "Hbm". wp_steps.
      unfold range_state. cbn [fst snd].
      rewrite (range_seen_flush _ _ _ _ _ _ _ Hrun) //. iFrame. iPureIntro.
      split; [|lia]. split; [lia|]. left. lia.
Qed.

Lemma set_range_loop_spec bm B s num inp n I i f Φ :
  bounds_ok bm → b_start bm ≤ s → 0 ≤ num < 2^31 → s + num ≤ b_real_end bm + 1 →
  Z.of_nat n = (num + 7) / 8 → I ⊆ zrange 0 num →
  range_state bm B s num inp n I (i, f) -∗
  (∀ i' f', ⌜num ≤ i'⌝ -∗ range_state bm B s num inp n I (i', f') -∗ Φ f') -∗
  wp (loop (set_range_step bm s num inp) (i, f)) Φ.
Proof.
  iIntros (Hok Hs Hnum Hend Hn HI) "Hst HΦ".
  remember (Z.to_nat (num - i)) as m eqn:Hm. iInduction (lt_wf m) as [m _] "IH" forall (i f Hm).
  iApply wp_loop. iApply (wp_wand with "[Hst]"); [by iApply set_range_step_spec|].
  iIntros ([[i' f']|f']) "[Hst %Hr]".
  - cbn [fst] in Hr. iApply ("IH" with "[%] [%] Hst HΦ"); [|done]. lia.
  - destruct Hr as [-> Hi]. by iApply ("HΦ" with "[%] Hst").
Qed.

Lemma rb_set_range_spec bm B s num inp n I Φ :
  b_start bm ≤ s → 0 ≤ num < 2^31 → s + num ≤ b_real_end bm + 1 →
  Z.of_nat n = (num + 7) / 8 → I ⊆ zrange 0 num →
  rb_bm_at bm B -∗ bits_at inp n I -∗
  (rb_bm_at bm (shift_set s I ∪ B) -∗ bits_at inp n I -∗ Φ E_OK) -∗
  wp (rb_set_bmap_range bm s num inp) Φ.
Proof.
  iIntros (Hs Hnum Hend Hn HI) "Hbm Hin HΦ".
  iAssert ⌜bounds_ok bm⌝%I as %Hok. { iDestruct "Hbm" as "(% & (% & _) & _)". done. }
  pose proof Hok as (? & ? & ? & ?).
  unfold rb_set_bmap_range. iApply wp_bind.
  iAssert (range_state bm B s num inp n I (0, -1)) with "[Hbm Hin]" as "Hst".
  { unfold range_state, range_seen. cbn [fst snd]. destruct (decide _); [|done].
    rewrite zrange_empty // right_absorb_L shift_set_empty left_id_L. iFrame.
    iPureIntro. split; [lia|]. left. lia. }
  iApply (set_range_loop_spec with "Hst"); [done..|]. iIntros (i f Hi) "Hst".
  iDestruct "Hst" as "(Hbm & Hin & %Hrun)". cbn [fst snd] in *.
  destruct Hrun as [_ Hf]. unfold range_seen.
  decide_case (f ≠ -1) as Hf1.
  - destruct (decide (f = -1)); [done|]. destruct Hf as [?|(Hf & Hfn & Hrf)]; [lia|].
    rewrite (u64_small (s + f)); [|lia]. rewrite (u64_small (num - f)); [|lia].
    wp_apply (rb_insert_bm with "Hbm"); [lia..|]. iIntros "Hbm". wp_steps.
    iApply ("HΦ" with "[Hbm] Hin").
    replace (shift_set s I ∪ B) with (zrange (s + f) (num - f) ∪ (shift_set s (I ∩ zrange 0 f) ∪ B)); [done|].
    apply set_eq. intros x. specialize (Hrf (x - s)). specialize (HI (x - s)).
    rewrite !elem_of_zrange in Hrf HI.
    rewrite !elem_of_union !elem_of_shift_set !elem_of_intersection !elem_of_zrange. mem_lia.
  - destruct (decide (f = -1)); [|lia]. wp_steps. iApply ("HΦ" with "[Hbm] Hin").
    replace (I ∩ zrange 0 i) with I; [done|]. apply set_eq. intros x. specialize (HI x).
    rewrite elem_of_intersection elem_of_zrange. rewrite elem_of_zrange in HI. mem_lia.
Qed.

(** ** Reading a range *)
Lemma fill_loop_spec start out n O pos count Φ :
  0 ≤ start ≤ pos → 0 ≤ count → pos - start + count < 2^31 →
  pos - start + count ≤ 8 * Z.of_nat n → pos + count < 2^64 →
  bits_at out n O -∗
  (bits_at out n (zrange (pos - start) count ∪ O) -∗ Φ tt) -∗
  wp (loop (fill_step start out) (pos, count)) Φ.
Proof.
  remember (Z.to_nat count) as m eqn:Hm. revert O pos count Hm.
  induction (lt_wf m) as [m _ IH]. iIntros (O pos count Hm Hst Hc H31 Hn H64) "H HΦ".
  wp_loop fill_step. decide_case (count = 0) as H0.
  { wp_steps. rewrite zrange_empty; [|lia]. rewrite left_id_L. by iApply "HΦ". }
  rewrite (u64_small (pos - start)); [|lia].
  decide_case (8 ≤ count ∧ (pos - start) mod 8 = 0) as H8.
  - rewrite !Z.shiftr_div_pow2 // !Z.shiftl_mul_pow2 //. change (2^3) with 8.
    pose proof (Z.div_mod count 8). pose proof (Z.mod_pos_bound count 8).
    pose proof (Z.div_mod (pos - start) 8). rewrite !s32_small; [|lia..].
    set (nb := count / 8) in *. clearbody nb.
    wp_apply (wp_memset_ones with "H"); [lia..|]. rewrite Z2Nat.id; [|lia]. iIntros "H".
    wrap. wp_steps. iApply (IH with "H"); [|done|lia..|]; [lia|].
    replace (zrange (pos - start) count) with
      (zrange (pos + nb * 8 - start) (count - nb * 8) ∪ zrange (8 * ((pos - start) / 8)) (8 * nb));
      [by rewrite assoc_L|]. set_lia.
  - wp_apply (wp_fast_set_bit64 with "H"); [lia|]. iIntros "H". wrap. wp_steps.
    iApply (IH with "H"); [|done|lia..|]; [lia|].
    replace (zrange (pos - start) count) with
      (zrange (pos + 1 - start) (count - 1) ∪ {[pos - start]}); [by rewrite assoc_L|]. set_lia.
Qed.

Lemma get_range_loop_spec bp start num out n P Q O Φ :
  exts_wf 0 (P ++ Q) → 0 ≤ start → 0 ≤ num < 2^31 → start + num < 2^64 →
  num ≤ 8 * Z.of_nat n →
  rb_private bp (P ++ Q) -∗ bits_at out n O -∗
  (rb_private bp (P ++ Q) -∗ bits_at out n (range_part start num (ext_set Q) ∪ O) -∗ Φ tt) -∗
  wp (loop (get_range_step start num out) (opt_ptr (head (addrs Q)))) Φ.
Proof.
  revert P O. induction Q as [|e Q IH]; intros P O; iIntros (Hwf Hst Hnum Hsn Hn) "H Hout HΦ";
    wp_loop get_range_step.
  { wp_steps. rewrite range_part_out; [|set_solver]. rewrite left_id_L. by iApply ("HΦ" with "H"). }
  pose proof Hwf as (_ & _ & Hlo & Hc & He & Hwf2)%exts_wf_mid. unfold e_end in *.
  assert (Hafter : ∀ x, x ∈ ext_set Q → e_start e + e_count e + 1 ≤ x).
  { intros x Hx. eapply exts_wf_range in Hx; [|done]. lia. }
  iDestruct (rb_private_tree with "H") as "[Ht H]".
  iDestruct (exts_tree_facts with "Ht") as %[_ Hpos].
  apply Forall_app in Hpos as [_ [Hpos _]%Forall_cons].
  rewrite (bool_decide_eq_false_2 (e_addr e = 0)); [|lia].
  wp_apply (wp_tree_next with "Ht"). iIntros "Ht".
  wp_apply (wp_tree_start with "Ht"). iIntros "Ht".
  wp_apply (wp_tree_count with "Ht"). iIntros "Ht".
  iDestruct ("H" with "[%] Ht") as "H"; [done|]. rewrite (u64_small (start + num)); [|lia].
  decide_case (start + num ≤ e_start e) as Hbeyond.
  { wp_steps. rewrite range_part_out.
    - rewrite left_id_L. by iApply ("HΦ" with "H").
    - simpl. intros x [Hx%elem_of_zrange|Hx%Hafter]%elem_of_union; lia. }
  rewrite (u64_small (e_start e + e_count e)); [|lia].
  assert (Hgo : ∀ O', O' = range_part start num (zrange (e_start e) (e_count e)) ∪ O →
    rb_private bp (P ++ e :: Q) -∗ bits_at out n O' -∗
    (rb_private bp (P ++ e :: Q) -∗
       bits_at out n (range_part start num (ext_set (e :: Q)) ∪ O) -∗ Φ tt) -∗
    wp (loop (get_range_step start num out) (opt_ptr (head (addrs Q)))) Φ).
  { iIntros (O' ->) "H Hout HΦ".
    replace (P ++ e :: Q) with ((P ++ [e]) ++ Q) in Hwf |- * by solve_app.
    iApply (IH (P ++ [e]) with "H Hout"); [done..|].
    replace ((P ++ [e]) ++ Q) with (P ++ e :: Q) by solve_app.
    iIntros "H Hout". iApply ("HΦ" with "H"). simpl. rewrite range_part_union.
    rewrite assoc_L (comm_L _ (range_part start num (ext_set Q))). done. }
  decide_case (e_start e < start ∧ e_start e + e_count e < start) as Hbefore.
  { wp_steps. iApply (Hgo with "H Hout HΦ"). rewrite range_part_out; [by rewrite left_id_L|].
    intros x Hx%elem_of_zrange. lia. }
  set (lo := Z.max (e_start e) start). set (hi := Z.min (e_start e + e_count e) (start + num)).
  assert (Hpc : (if bool_decide (e_start e < start)
      then (start, u64 (e_count e - u64 (start - e_start e))) else (e_start e, e_count e))
    = (lo, e_start e + e_count e - lo)).
  { unfold lo. case_bool_decide; wrap; f_equal; lia. }
  rewrite Hpc. clear Hpc. cbn [fst snd].
  rewrite (u64_small (lo + (e_start e + e_count e - lo))); [|lia].
  replace (if bool_decide (start + num < lo + (e_start e + e_count e - lo))
    then u64 (start + num - lo) else e_start e + e_count e - lo) with (hi - lo); last first.
  { unfold hi. assert (0 ≤ lo ∧ lo ≤ e_start e + e_count e ∧ lo ≤ start + num) by lia. clearbody lo. clear Hgo.
    decide_case (start + num < lo + (e_start e + e_count e - lo)) as Hcl; wrap; lia. }
  assert (Hlo2 : start ≤ lo ∧ lo ≤ hi ∧ hi ≤ start + num) by lia.
  wp_apply (fill_loop_spec with "Hout"); [lia..|]. iIntros "Hout". wp_steps.
  iApply (Hgo with "H Hout HΦ"). by rewrite range_part_zrange.
Qed.

Lemma rb_get_range_spec bm B s num out n Φ :
  b_start bm ≤ s → 0 ≤ num < 2^31 → s + num ≤ b_real_end bm + 1 →
  Z.of_nat n = (num + 7) / 8 → B ≠ ∅ →
  rb_bm_at bm B -∗ owns_block out 1 n -∗
  (∀ O, ⌜∀ i, (0 ≤ i < num)%Z → (i ∈ O ↔ (s + i)%Z ∈ B)⌝ -∗
     rb_bm_at bm B -∗ bits_at out n O -∗ Φ E_OK) -∗
  wp (rb_get_bmap_range bm s num out) Φ.
Proof.
  iIntros (Hs Hnum Hend Hn HBne) "(%E & (%Hok & %Hwf & -> & %HB) & %Hbp & Hp) Hout HΦ".
  pose proof Hok as (? & ? & ? & ?). unfold rb_get_bmap_range.
  rewrite (u64_small (s - b_start bm)); [|lia]. set (start := s - b_start bm).
  iDestruct (rb_private_tree with "Hp") as "[Ht Hp]".
  wp_apply (wp_empty_root with "Ht"). iIntros "Ht".
  iDestruct ("Hp" with "[%] Ht") as "Hp"; [done|].
  decide_case (E = []) as HE.
  { destruct HBne. subst E. simpl. by rewrite shift_set_empty. }
  iAssert (∀ P Q, ⌜E = P ++ Q ∧ ∀ x, x ∈ ext_set P → x < start⌝ -∗
    rb_private (b_private bm) E -∗ owns_block out 1 n -∗
    wp (memset out 0 (Z.to_nat (Z.shiftr (u64 (num + 7)) 3)) ;;
        loop (get_range_step start num out) (opt_ptr (head (addrs Q))) ;; mret E_OK) Φ)%I
    with "[HΦ]" as "Hgo".
  { iIntros (P Q [-> HP]) "Hp Hout". wrap. rewrite shiftr3 -Hn Nat2Z.id.
    wp_apply (wp_memset_zero with "Hout"). iIntros "Hout".
    wp_apply (get_range_loop_spec with "Hp Hout"); [done|lia..| |].
    { pose proof (Z.div_mod (num + 7) 8). pose proof (Z.mod_pos_bound (num + 7) 8). lia. }
    iIntros "Hp Hout". wp_steps. iApply ("HΦ" with "[%] [Hp] Hout"); last first.
    { by iApply (rb_bm_at_intro with "Hp"). }
    intros i Hi. rewrite right_id_L elem_of_range_part elem_of_shift_set.
    replace (s + i - b_start bm) with (i + start) by lia. rewrite ext_set_app elem_of_union.
    specialize (HP (i + start)). split; [tauto|]. intros [Hx|Hx]; [|done].
    specialize (HP Hx). lia. }
  iApply wp_bind. iApply (wp_private_find with "Hp"); [done|]. iSplit.
  - iIntros (k E1 E2 (-> & Hk & Hb & Ha)) "Hp".
    destruct (parent_list _ _ _ Hk) as (P & Q & HPQ & -> & Hcase). rewrite HPQ.
    iApply ("Hgo" with "[%] Hp Hout"). split; [done|]. intros x Hx.
    apply (exts_before_set _ _ _ Hb). destruct Hcase as [(-> & -> & _)|(e & -> & ->)]; [done|].
    rewrite ext_set_app. set_solver.
  - iIntros (E1 e E2 (-> & Hin)) "Hp".
    change (e_addr e) with (opt_ptr (head (addrs (e :: E2)))).
    iApply ("Hgo" with "[%] Hp Hout"). split; [done|].
    apply exts_wf_mid in Hwf as (_ & Hb & _). intros x Hx.
    assert (x < e_start e); [|lia]. eapply exts_before_set; [|exact Hx].
    eapply Forall_impl; [exact Hb|]. simpl. intros; lia.
Qed.

(** ** Copying *)
Definition ext_data (e : extent) : Z * Z := (e_start e, e_count e).

Lemma ext_data_wf lo E E' : ext_data <$> E' = ext_data <$> E → exts_wf lo E → exts_wf lo E'.
Proof.
  revert lo E'. induction E as [|e E IH]; intros lo [|e' E'] Heq; try done.
  simpl in *. injection Heq as Hs Hc Heq. unfold e_end. rewrite Hs Hc.
  intros (? & ? & ? & ?). split_and!; auto.
Qed.

Lemma ext_data_set E E' : ext_data <$> E' = ext_data <$> E → ext_set E' = ext_set E.
Proof.
  revert E'. induction E as [|e E IH]; intros [|e' E'] Heq; try done.
  simpl in *. injection Heq as Hs Hc Heq. by rewrite Hs Hc (IH E').
Qed.

(** The five words of an extent of the tree. *)
Lemma exts_tree_words root E1 e E2 :
  exts_tree root (E1 ++ e :: E2) ⊢ ∃ pc r l,
    array_at (e_addr e) 8 [pc; r; l; e_start e; e_count e] ∗
    (array_at (e_addr e) 8 [pc; r; l; e_start e; e_count e] -∗
       exts_tree root (E1 ++ e :: E2)).
Proof.
  iIntros "(%t & (%Hinv & %HE) & Ht & Hex)". rewrite fmap_app /= in HE.
  destruct (inorder_split _ _ _ _ HE) as (k & c & l & r & -> & _).
  rewrite root_at_plug /= exts_at_mid.
  iDestruct "Ht" as "(Hk & (%Hf & Hpc & Hl & Hr) & Htl & Htr)".
  iDestruct "Hex" as "([Hs Hc] & Hex1 & Hex2)". simpl.
  iExists _, _, _. rewrite -!(Z.add_assoc (e_addr e)) /=.
  unfold child, rb_parent_color, rb_right, rb_left, ext_start, ext_count. simpl.
  iFrame "Hpc Hl Hr Hs Hc". iIntros "(Hpc & Hr & Hl & Hs & Hc & _)".
  iExists (plug k (Node c l (e_addr e) r)). rewrite root_at_plug /= exts_at_mid.
  iFrame. iPureIntro. split; [by split; [|rewrite fmap_app]|done].
Qed.

Lemma words_ext a vs :
  0 < a ∧ a mod 16 = 0 → length vs = ext_words →
  array_at a 8 vs ⊢ node_cells a ∗ ∃ s c, ⌜vs !! 3%nat = Some s ∧ vs !! 4%nat = Some c⌝ ∗
    ext_at (Extent a s c).
Proof.
  intros [Ha Hal] Hlen. do 5 (destruct vs as [|? vs]; [done|]). destruct vs; [|done].
  iIntros "H". simpl. rewrite -!(Z.add_assoc a) /=. iDestruct "H" as "(H0 & H1 & H2 & H3 & H4 & _)".
  unfold node_cells, ext_at, rb_parent_color, rb_right, rb_left, ext_start, ext_count. simpl.
  rewrite !(pointsto_owns a) !(pointsto_owns (a + 8)) !(pointsto_owns (a + 16)).
  iFrame. iPureIntro. split; [|done]. split; [done|]. unfold aligned.
  Z.to_euclidean_division_equations. lia.
Qed.

(** The slot after the last extent. *)
Lemma exts_tree_last_slot root E :
  exts_tree root E ⊢ ∃ k,
    ⌜ctx_split k E [] ∧ rb_inv (plug k Leaf) ∧ ctx_ptr k = opt_ptr (last (addrs E)) ∧
     ctx_slot root k = from_option rb_right (rb_node root) (last (addrs E))⌝ ∗
    ctx_at root k 0 ∗ exts_at E.
Proof.
  destruct E as [|e E _] using rev_ind.
  - rewrite exts_tree_nil. iIntros "H". iExists []. unfold exts_at; simpl.
    iSplitR; [iPureIntro|by iFrame].
    split_and!; [by split|exists 0%nat; constructor|done..].
  - iIntros "(%t & (%Hinv & %HE) & Ht & $)". rewrite fmap_app /= in HE.
    destruct (inorder_split _ _ _ _ HE) as (k & c & l & r & -> & H1 & H2).
    symmetry in H2. apply app_nil in H2 as [Hr Hk].
    assert (r = Leaf) as ->. { destruct r as [|? r1]; [done|]. simpl in Hr. by destruct (inorder r1). }
    iExists (Frame R c (e_addr e) l :: k). rewrite root_at_plug fmap_app last_snoc /=.
    iDestruct "Ht" as "(Hk & Ha & Hl & _)". rewrite (node_at_flip R). iFrame. iPureIntro.
    split_and!; [|done..]. split; simpl; [|by rewrite Hk].
    by rewrite fmap_app /= H1 -assoc_L.
Qed.

Lemma copy_loop_spec src dst P Q E' Φ :
  ext_data <$> E' = ext_data <$> P →
  exts_tree src (P ++ Q) -∗ exts_tree (bp_root dst) E' -∗
  (∀ r E', ⌜(r = E_OK ∧ ext_data <$> E' = ext_data <$> (P ++ Q)) ∨
            (r = EXT2_ET_NO_MEMORY ∧ malloc_can_fail)⌝ -∗
     exts_tree src (P ++ Q) -∗ exts_tree (bp_root dst) E' -∗ Φ r) -∗
  wp (loop (copy_step dst) (opt_ptr (head (addrs Q)))) Φ.
Proof.
  revert P E'. induction Q as [|e Q IH]; iIntros (P E' Hdata) "Hs Hd HΦ"; wp_loop copy_step.
  { wp_steps. rewrite right_id_L. iApply ("HΦ" with "[%] Hs Hd"). by left. }
  iDestruct (exts_tree_facts with "Hs") as %[_ Hpos].
  apply Forall_app in Hpos as [_ [Hpos _]%Forall_cons].
  rewrite bool_decide_eq_false_2; [|lia].
  wp_apply wp_get_mem; [done|]. iSplit; last first.
  { iIntros (Hf). simpl. wp_steps. iApply ("HΦ" with "[%] Hs Hd"). by right. }
  iIntros (d Hd) "Hb". cbn [fst snd]. rewrite (bool_decide_eq_false_2 (E_OK ≠ E_OK)); [|tauto].
  iDestruct (exts_tree_words with "Hs") as (pc rr l) "[Hw Hs]".
  wp_apply (wp_memcpy 8 d _ [pc; rr; l; e_start e; e_count e] with "Hb Hw"). iIntros "Hb Hw".
  iDestruct ("Hs" with "Hw") as "Hs".
  iDestruct (words_ext with "Hb") as "[Hcells (%s & %c & %Hsc & Hext)]"; [done..|].
  simpl in Hsc. destruct Hsc as [[= <-] [= <-]].
  iApply wp_bind. iDestruct (exts_tree_null_root with "Hd") as (top) "(Htop & %Htop & Hd)".
  wp_load. iDestruct ("Hd" with "Htop") as "Hd".
  iApply wp_bind. iApply (wp_wand _ (λ pn, exts_tree (bp_root dst) E' ∗
    ⌜pn = (opt_ptr (last (addrs E')), from_option rb_right (rb_node (bp_root dst)) (last (addrs E')))⌝)%I
    with "[Hd]").
  { decide_case (top ≠ 0) as Hne.
    - wp_apply (wp_tree_last with "Hd"). iIntros "Hd". wp_steps. iFrame. iPureIntro.
      destruct (last (addrs E')) as [a|] eqn:Hl; [done|].
      apply last_None, fmap_nil_inv in Hl. tauto.
    - wp_steps. iFrame. iPureIntro. by rewrite (proj1 Htop); [|lia]. }
  iIntros (pn) "[Hd ->]". cbn [fst snd].
  iDestruct (exts_tree_last_slot with "Hd") as (k (Hk & Hinv & <- & <-)) "[Hk Hex]".
  iApply (wp_tree_insert _ k E' d _ _ [] with "Hk [Hex] Hcells Hext"); [done..|by rewrite app_nil_r|].
  iIntros "Hd". wp_apply (wp_tree_next with "Hs"). iIntros "Hs". wp_steps.
  replace (P ++ e :: Q) with ((P ++ [e]) ++ Q) by solve_app.
  iApply (IH (P ++ [e]) with "Hs Hd HΦ"). by rewrite !fmap_app Hdata.
Qed.

Lemma rb_copy_spec src dst B Φ :
  b_start dst = b_start src → b_end dst = b_end src → b_real_end dst = b_real_end src →
  rb_bm_at src B -∗
  (rb_bm_at src B -∗
    ((∀ p, rb_bm_at (set_private dst p) B -∗ Φ (E_OK, set_private dst p)) ∧
     (∀ d, ⌜malloc_can_fail⌝ -∗ Φ (EXT2_ET_NO_MEMORY, d)))) -∗
  wp (rb_copy_bmap src dst) Φ.
Proof.
  iIntros (Hst Hen Hre) "(%E & (%Hok & %Hwf & -> & %HB) & %Hbp & Hp) HΦ".
  unfold rb_copy_bmap. wp_apply wp_rb_alloc. iSplit; last first.
  { iIntros (Hf). simpl. wp_steps. iDestruct ("HΦ" with "[Hp]") as "[_ HΦ]"; [|by iApply "HΦ"].
    by iApply (rb_bm_at_intro with "Hp"). }
  iIntros (bp) "[%Hbp' (%w' & %r' & %rn' & (%Hw0 & _) & (Hw' & Hr' & Hrn') & Hd)]". simpl.
  iDestruct "Hp" as "(%w & %r & %rn & (%Hcw & %Hcr & %Hcn) & (Hw & Hr & Hrn) & Ht)".
  wp_steps. wp_apply (wp_tree_first with "Ht"). iIntros "Ht".
  wp_apply (copy_loop_spec _ bp [] E [] with "Ht Hd"); [done|].
  iIntros (ret E' Hret) "Ht Hd". wp_steps.
  iDestruct ("HΦ" with "[Ht Hw Hr Hrn]") as "HΦ".
  { iApply (rb_bm_at_intro with "[-]"); [done..|]. iExists w, 0, rn. iFrame.
    iPureIntro. split_and!; [done|by left|by left]. }
  destruct Hret as [[-> Hdata]|[-> Hf]].
  - iDestruct "HΦ" as "[HΦ _]". iApply "HΦ".
    iApply (rb_bm_at_intro _ _ E'); [| | | |done|].
    + unfold bounds_ok in *; simpl. rewrite Hst Hen Hre. done.
    + by eapply ext_data_wf.
    + simpl. by rewrite Hst (ext_data_set E E').
    + intros x Hx%HB. unfold positions in *; simpl. by rewrite Hst Hre.
    + iExists w', 0, rn'. iFrame. iPureIntro. destruct Hw0 as [->|[]%elem_of_nil].
      split_and!; by left.
  - iDestruct "HΦ" as "[_ HΦ]". by iApply "HΦ".
Qed.

Lemma rb_new_spec bm Φ :
  bounds_ok bm →
  ((∀ p, rb_bm_at (set_private bm p) ∅ -∗ Φ (E_OK, set_private bm p)) ∧
   (⌜malloc_can_fail⌝ -∗ Φ (EXT2_ET_NO_MEMORY, bm))) -∗
  wp (rb_new_bmap bm) Φ.
Proof.
  iIntros (Hok) "HΦ". unfold rb_new_bmap. wp_apply wp_rb_alloc. iSplit.
  - iIntros (bp) "[%Hbp Hp]". simpl. wp_steps. iDestruct "HΦ" as "[HΦ _]". iApply "HΦ".
    iApply (rb_bm_at_intro (set_private bm bp) with "Hp"); simpl; [done|done|by rewrite shift_set_empty|set_solver|done].
  - iIntros (Hf). simpl. wp_steps. iDestruct "HΦ" as "[_ HΦ]". by iApply "HΦ".
Qed.

Lemma rb_bm_at_clear bm B Φ :
  rb_bm_at bm B -∗ (rb_bm_at bm ∅ -∗ Φ tt) -∗ wp (rb_clear_bmap bm) Φ.
Proof.
  iIntros "(%E & (%Hok & _) & Hb) HΦ". iApply (rb_clear_bmap_spec with "Hb").
  iIntros "[%Hbp Hp]". iApply "HΦ".
  iApply (rb_bm_at_intro with "Hp"); [done|done|by rewrite shift_set_empty|set_solver|done].
Qed.

Lemma zrange_1 a : zrange a 1 = {[a]}.
Proof. apply set_eq. intros x. rewrite elem_of_zrange elem_of_singleton. lia. Qed.

(** The extent bitmaps keep the contract. *)
#[export] Instance rb_bitmap_impl : BitmapImpl ext2fs_blkmap64_rbtree.
Proof.
  refine {| bm_at := rb_bm_at |}; simpl.
  - iIntros (bm B) "(%E & (% & _ & _ & %) & _)". done.
  - iIntros (bm Hok Φ) "_ HΦ". iApply rb_new_spec; [done|]. iSplit.
    + iIntros (p) "H". iApply "HΦ". iLeft. by iFrame.
    + iIntros (Hf). iApply "HΦ". by iRight.
  - iIntros (bm B Φ) "(%E & _ & Hb) HΦ". iApply (rb_free_bmap_spec with "Hb"). by iApply "HΦ".
  - iIntros (src dst B ??? Φ) "H HΦ". iApply (rb_copy_spec with "H"); [done..|].
    iIntros "H". iSplit.
    + iIntros (p) "H'". iApply "HΦ". iFrame "H". iLeft. by iFrame.
    + iIntros (d Hf). iApply "HΦ". iFrame "H". by iRight.
  - iIntros (bm B arg Harg Φ) "H HΦ". unfold rb_mark_bmap.
    iApply (rb_insert_bm with "H"); [lia..|]. rewrite zrange_1. iIntros "H". iApply "HΦ".
    iFrame. iPureIntro. apply bit_of_nonzero.
  - iIntros (bm B arg Harg Φ) "H HΦ". unfold rb_unmark_bmap.
    iApply (rb_remove_bm with "H"); [lia..|]. rewrite zrange_1. iIntros "H". iApply "HΦ".
    iFrame. iPureIntro. rewrite removed_any_one. naive_solver.
  - iIntros (bm B arg Harg Φ) "H HΦ". iApply (rb_test_bm with "H"); [lia|].
    iIntros "H". iApply "HΦ". iFrame. iPureIntro. apply bit_of_nonzero.
  - iIntros (bm B arg num ??? Φ) "H HΦ". unfold rb_mark_bmap_extent.
    wp_apply (rb_insert_bm with "H"); [lia..|]. iIntros "H". wp_steps. by iApply "HΦ".
  - iIntros (bm B arg num ??? Φ) "H HΦ". unfold rb_unmark_bmap_extent.
    wp_apply (rb_remove_bm with "H"); [lia..|]. iIntros "H". wp_steps. by iApply "HΦ".
  - iIntros (bm B arg num ??? Φ) "H HΦ". iApply (rb_test_clear_spec with "H"); [lia..|].
    iIntros (v Hv) "H". iApply "HΦ". by iFrame.
  - iIntros (bm B Φ) "H HΦ". by iApply (rb_bm_at_clear with "H").
  - iIntros (bm B s e f [= <-] ?? Φ) "H HΦ". iApply (rb_find_first_zero_spec with "H"); [done..|].
    iIntros (r Hr) "H". iApply "HΦ". iFrame. iPureIntro. destruct (decide (B = ∅)) as [HB|HB].
    + rewrite decide_True //.
    + rewrite decide_False //. by intros [_ ?].
  - by eexists.
  - iIntros (bm B s e f [= <-] ?? Φ) "H HΦ". iApply (rb_find_first_set_spec with "H"); [done..|].
    iIntros (r Hr) "H". iApply "HΦ". by iFrame.
  - iIntros (bm B ne nre Hok _ Φ) "H HΦ". iApply (rb_resize_spec with "H"); [done|].
    iIntros (B' HB') "H". iApply "HΦ". iLeft. iSplit; [done|]. iExists B'. by iFrame.
  - iIntros (bm B e He) "(%E & (%Hok & %Hwf & %HB & %Hsub) & Hb)". iExists E. iFrame. iPureIntro.
    destruct Hok as (? & ? & ? & ?). split_and!; try done. unfold bounds_ok. simpl. lia.
  - iIntros (bm B s num inp n I (?&?&?&?&?&?) HI _ Φ) "[H Hin] HΦ".
    iApply (rb_set_range_spec with "H Hin"); [done..|]. iIntros "H Hin". iApply "HΦ". by iFrame.
  - iIntros (bm B s num out n (?&?&?&?&?&?) HB Φ) "[H Hout] HΦ".
    iApply (rb_get_range_spec with "H Hout"); [done..|].
    iIntros (O HO) "H Hout". iApply "HΦ". iFrame. by iPureIntro.
Defined.
End blkmap_rb.
