(* ===== verification/BlkmapBA.v ===== *)
(** * BlkmapBA: the bit array bitmaps of lib/ext2fs/blkmap64_ba.c

    The methods of the table [ext2fs_blkmap64_bitarray], and their proof that
    they implement [BitmapImpl]: the bits are those of a byte array, as many
    bytes as [real_end] needs.  The bits after [real_end] in the last byte may
    hold anything.  [ext2fs_mem_is_zero] is in gen_bitmap.c. *)
From S2P Require Import Prelude.
From S2P Require Import Mem.
From S2P Require Import SepLogic.
From S2P Require Import ExtMem.
From S2P Require Import BitOps.
From S2P Require Import Bitmap.
#[local] Open Scope Z_scope.

(** ** The private structure: one pointer *)
Definition ba_bitarray (bp : Z) : Z := bp.
Definition ba_words : nat := 1.

(** [(size_t) (((bitmap->real_end - bitmap->start) / 8) + 1)] *)
Definition ba_size (bitmap : bmap64) : Z :=
  u64 (u64 (b_real_end bitmap - b_start bitmap) / 8 + 1).

Definition ba_alloc_private_data {ML : Malloc} (bitmap : bmap64) : M (errcode * bmap64) :=
  r ← ext2fs_get_mem 8 ba_words;
  if bool_decide (r.1 ≠ E_OK) then mret (r.1, bitmap) else
  let bp := r.2 in
  let size := ba_size bitmap in
  r ← ext2fs_get_mem 1 (Z.to_nat size);
  if bool_decide (r.1 ≠ E_OK) then
    ext2fs_free_mem 8 ba_words bp ;;
    mret (r.1, bitmap)
  else
    store (ba_bitarray bp) r.2 ;;
    mret (E_OK, set_private bitmap bp).

Definition ba_new_bmap {ML : Malloc} (bitmap : bmap64) : M (errcode * bmap64) :=
  r ← ba_alloc_private_data bitmap;
  if bool_decide (r.1 ≠ E_OK) then mret (r.1, bitmap) else
  let bitmap := r.2 in
  let bp := b_private bitmap in
  let size := ba_size bitmap in
  a ← load (ba_bitarray bp);
  memset a 0 (Z.to_nat size) ;;
  mret (E_OK, bitmap).

Definition ba_free_bmap (bitmap : bmap64) : M unit :=
  let bp := b_private bitmap in
  if bool_decide (bp = 0) then mret tt else
  a ← load (ba_bitarray bp);
  (if bool_decide (a ≠ 0) then
     ext2fs_free_mem 1 (Z.to_nat (ba_size bitmap)) a ;;
     store (ba_bitarray bp) 0
   else mret tt) ;;
  ext2fs_free_mem 8 ba_words bp.

Definition ba_copy_bmap {ML : Malloc} (src dest : bmap64) : M (errcode * bmap64) :=
  let src_bp := b_private src in
  r ← ba_alloc_private_data dest;
  if bool_decide (r.1 ≠ E_OK) then mret (r.1, dest) else
  let dest := r.2 in
  let dest_bp := b_private dest in
  let size := ba_size src in
  d ← load (ba_bitarray dest_bp);
  s ← load (ba_bitarray src_bp);
  memcpy 1 d s (Z.to_nat size) ;;
  mret (E_OK, dest).

(** ** Resizing *)

(** [for (; bitno > bmap->end; bitno--)] *)
Definition ba_clear_step (start end_ arr bitno : Z) : M (Z + unit) :=
  if bool_decide (end_ < bitno) then
    ext2fs_clear_bit64 (u64 (bitno - start)) arr ;;
    continue_ (u64 (bitno - 1))
  else break_ tt.

(** The part of [ba_resize_bmap] that changes the size of the array. *)
Definition ba_resize_array {ML : Malloc} (bp size new_size : Z) : M errcode :=
  r ← (if bool_decide (size ≠ new_size) then
         a ← load (ba_bitarray bp);
         r ← ext2fs_resize_mem 1 (Z.to_nat size) (Z.to_nat new_size) a;
         if bool_decide (r.1 ≠ E_OK) then mret r.1 else
         store (ba_bitarray bp) r.2 ;; mret r.1
       else mret E_OK);
  if bool_decide (r ≠ E_OK) then mret r else
  (if bool_decide (size < new_size) then
     a ← load (ba_bitarray bp);
     memset (a + size) 0 (Z.to_nat (new_size - size))
   else mret tt) ;;
  mret E_OK.

Definition ba_resize_bmap {ML : Malloc} (bmap : bmap64) (new_end new_real_end : Z) :
    M (errcode * bmap64) :=
  let bp := b_private bmap in
  (if bool_decide (b_end bmap < new_end) then
     a ← load (ba_bitarray bp);
     let bitno := b_real_end bmap in
     let bitno := if bool_decide (new_end < bitno) then new_end else bitno in
     loop (ba_clear_step (b_start bmap) (b_end bmap) a) bitno
   else mret tt) ;;
  if bool_decide (new_real_end = b_real_end bmap) then
    mret (E_OK, set_ends bmap new_end (b_real_end bmap))
  else
    let size := u64 (u64 (b_real_end bmap - b_start bmap) / 8 + 1) in
    let new_size := u64 (u64 (new_real_end - b_start bmap) / 8 + 1) in
    retval ← ba_resize_array bp size new_size;
    if bool_decide (retval ≠ E_OK) then mret (retval, bmap)
    else mret (E_OK, set_ends bmap new_end new_real_end).

(** ** Single bits and ranges *)
Definition ba_mark_bmap (bitmap : bmap64) (arg : Z) : M Z :=
  let bp := b_private bitmap in
  a ← load (ba_bitarray bp);
  ext2fs_set_bit64 (u64 (arg - b_start bitmap)) a.

Definition ba_unmark_bmap (bitmap : bmap64) (arg : Z) : M Z :=
  let bp := b_private bitmap in
  a ← load (ba_bitarray bp);
  ext2fs_clear_bit64 (u64 (arg - b_start bitmap)) a.

Definition ba_test_bmap (bitmap : bmap64) (arg : Z) : M Z :=
  let bp := b_private bitmap in
  a ← load (ba_bitarray bp);
  ext2fs_test_bit64 (u64 (arg - b_start bitmap)) a.

Definition ba_mark_bmap_extent (bitmap : bmap64) (arg num : Z) : M unit :=
  let bp := b_private bitmap in
  for_range (Z.to_nat num) 0 (λ i,
    a ← load (ba_bitarray bp);
    ext2fs_fast_set_bit64 (u64 (u64 (arg + i) - b_start bitmap)) a).

Definition ba_unmark_bmap_extent (bitmap : bmap64) (arg num : Z) : M unit :=
  let bp := b_private bitmap in
  for_range (Z.to_nat num) 0 (λ i,
    a ← load (ba_bitarray bp);
    ext2fs_fast_clear_bit64 (u64 (u64 (arg + i) - b_start bitmap)) a).

(** [memcmp(mem, zero_buf, len) == 0] *)
Fixpoint memcmp_zero (mem : Z) (len : nat) : M bool :=
  match len with
  | O => mret true
  | S len' =>
      b ← load mem;
      if bool_decide (b = 0) then memcmp_zero (mem + 1) len' else mret false
  end.

#[global] Arguments memcmp_zero : simpl never.

Definition mem_is_zero_step (st : Z * Z) : M (Z * Z + Z) :=
  let mem := st.1 in
  let len := st.2 in
  if bool_decide (256 ≤ len) then
    z ← memcmp_zero mem 256;
    if (z : bool) then continue_ (mem + 256, u64 (len - 256)) else break_ 0
  else if bool_decide (len ≠ 0) then
    z ← memcmp_zero mem (Z.to_nat len);
    break_ (if (z : bool) then 1 else 0)
  else break_ 1.

Definition ext2fs_mem_is_zero (mem len : Z) : M Z := loop mem_is_zero_step (mem, len).

(** [for (i = count; i > 0; i--, bit--) acc |= 1 << bit] *)
Fixpoint or_bits (count : nat) (bit acc : Z) : Z :=
  match count with
  | O => acc
  | S count' => or_bits count' (bit - 1) (Z.lor acc (Z.shiftl 1 bit))
  end.

(** The part of [ba_test_clear_bmap_extent] after the first byte. *)
Definition test_clear_tail (ADDR start_byte len_byte len_bit : Z) : M Z :=
  stop ← (if bool_decide (len_bit ≠ 0) then
            let last_bit := or_bits (Z.to_nat len_bit) (len_bit - 1) 0 in
            b ← load (ADDR + u64 (start_byte + len_byte));
            if bool_decide (Z.land last_bit b ≠ 0) then mret (Some 0)
            else if bool_decide (len_byte = 0) then mret (Some 1)
            else mret None
          else mret None);
  match stop with
  | Some v => mret v
  | None => ext2fs_mem_is_zero (ADDR + start_byte) len_byte
  end.

(** Whether the [len] bits from [start] of the array are clear: the part of the
    function that [ext2fs_test_clear_generic_bitmap_range] (gen_bitmap.c) has
    too. *)
Definition test_clear_bits (ADDR start len : Z) : M Z :=
  let len_byte := Z.shiftr len 3 in
  let len_bit := len mod 8 in
  let start_byte := Z.shiftr start 3 in
  let start_bit := start mod 8 in
  if bool_decide (start_bit ≠ 0) then
    let mm := if bool_decide (len < u32 (8 - start_bit))
              then (s32 len, s32 (u32 (u32 (len + start_bit) - 1)))
              else (8 - start_bit, 7) in
    let mark_count := mm.1 in
    let first_bit := or_bits (Z.to_nat mark_count) mm.2 0 in
    b ← load (ADDR + start_byte);
    if bool_decide (Z.land first_bit b ≠ 0) then mret 0
    else if bool_decide (len ≤ u32 (8 - start_bit)) then mret 1
    else
      test_clear_tail ADDR (u64 (start_byte + 1)) (Z.shiftr (u32 (len - mark_count)) 3)
        (u32 (len - mark_count) mod 8)
  else test_clear_tail ADDR start_byte len_byte len_bit.

Definition ba_test_clear_bmap_extent (bitmap : bmap64) (start len : Z) : M Z :=
  let bp := b_private bitmap in
  ADDR ← load (ba_bitarray bp);
  let start := u64 (start - b_start bitmap) in
  test_clear_bits ADDR start len.

Definition ba_set_bmap_range (bitmap : bmap64) (start num inp : Z) : M errcode :=
  let bp := b_private bitmap in
  a ← load (ba_bitarray bp);
  memcpy 1 (a + Z.shiftr start 3) inp (Z.to_nat (Z.shiftr (u64 (num + 7)) 3)) ;;
  mret E_OK.

Definition ba_get_bmap_range (bitmap : bmap64) (start num out : Z) : M errcode :=
  let bp := b_private bitmap in
  a ← load (ba_bitarray bp);
  memcpy 1 out (a + Z.shiftr start 3) (Z.to_nat (Z.shiftr (u64 (num + 7)) 3)) ;;
  mret E_OK.

Definition ba_clear_bmap (bitmap : bmap64) : M unit :=
  let bp := b_private bitmap in
  a ← load (ba_bitarray bp);
  memset a 0 (Z.to_nat (ba_size bitmap)).

(** ** Searching

    [ba_find_first_zero] and [ba_find_first_set] are the same code with other
    constants: the test of a bit, and the byte and the 64-bit word that are
    skipped. *)
Record scan_kind := ScanKind {
  sk_hit : Z → bool;    (** the value of [ext2fs_test_bit64] ends the search *)
  sk_byte : Z;          (** a byte without such a bit *)
  sk_word : Z;          (** a word without such a bit *)
}.

Definition scan_zero : scan_kind := ScanKind (λ b, bool_decide (b = 0)) 255 (2^64 - 1).
Definition scan_set : scan_kind := ScanKind (λ b, bool_decide (b ≠ 0)) 0 0.

(** A little-endian number of [k] bytes: a 64-bit read is that of eight. *)
Fixpoint load_le (k : nat) (p : Z) : M Z :=
  match k with
  | O => mret 0
  | S k' => b ← load p; w ← load_le k' (p + 1); mret (b + 256 * w)
  end.

#[global] Arguments load_le : simpl never.

(** Scan bits until a byte boundary: the position found, or where the scan
    stopped. *)
Definition scan_bits_step (sk : scan_kind) (arr : Z) (st : Z * Z) :
    M (Z * Z + (Z + Z * Z)) :=
  let bitpos := st.1 in
  let count := st.2 in
  if bool_decide (Z.land bitpos 7 ≠ 0 ∧ 0 < count) then
    b ← ext2fs_test_bit64 bitpos arr;
    if sk_hit sk b then break_ (inl bitpos)
    else continue_ (u64 (bitpos + 1), u64 (count - 1))
  else break_ (inr st).

(** Scan bytes until 64-bit aligned; the result starts with [byte_found]. *)
Definition scan_bytes_step (sk : scan_kind) (st : Z * Z * Z) :
    M (Z * Z * Z + bool * (Z * Z * Z)) :=
  let '(pos, count, bitpos) := st in
  if bool_decide (8 ≤ count ∧ Z.land pos 7 ≠ 0) then
    b ← load pos;
    if bool_decide (b ≠ sk_byte sk) then break_ (true, st)
    else continue_ (pos + 1, u64 (count - 8), u64 (bitpos + 8))
  else break_ (false, st).

(** Scan [i] words, then [i] bytes. *)
Definition scan_word_step (sk : scan_kind) (st : Z * Z) : M (Z * Z + Z * Z) :=
  if bool_decide (st.2 = 0) then break_ st else
  w ← load_le 8 st.1;
  if bool_decide (w ≠ sk_word sk) then break_ st
  else continue_ (st.1 + 8, u64 (st.2 - 1)).

Definition scan_byte_step (sk : scan_kind) (st : Z * Z) : M (Z * Z + Z * Z) :=
  if bool_decide (st.2 = 0) then break_ st else
  b ← load st.1;
  if bool_decide (b ≠ sk_byte sk) then break_ st
  else continue_ (st.1 + 1, u64 (st.2 - 1)).

Definition scan_rest_step (sk : scan_kind) (arr : Z) (st : Z * Z) : M (Z * Z + option Z) :=
  if bool_decide (0 < st.2) then
    b ← ext2fs_test_bit64 st.1 arr;
    if sk_hit sk b then break_ (Some st.1)
    else continue_ (u64 (st.1 + 1), u64 (st.2 - 1))
  else break_ None.

Definition ba_find_first (sk : scan_kind) (bitmap : bmap64) (start end_ : Z) :
    M (errcode * Z) :=
  let bp := b_private bitmap in
  arr ← load (ba_bitarray bp);
  r ← loop (scan_bits_step sk arr)
        (u64 (start - b_start bitmap), u64 (u64 (end_ - start) + 1));
  match r with
  | inl bitpos => mret (E_OK, u64 (bitpos + b_start bitmap))
  | inr (bitpos, count) =>
      if bool_decide (count = 0) then mret (ENOENT, 0) else
      let pos := arr + Z.shiftr bitpos 3 in
      r ← loop (scan_bytes_step sk) (pos, count, bitpos);
      let '(byte_found, (pos, count, bitpos)) := r in
      st ← (if (byte_found : bool) then mret (bitpos, count) else
              let max_loop_count := Z.shiftr count 6 in
              r ← loop (scan_word_step sk) (pos, max_loop_count);
              let '(pos, i) := r in
              let count := u64 (count - u64 (64 * u64 (max_loop_count - i))) in
              let bitpos := u64 (bitpos + u64 (64 * u64 (max_loop_count - i))) in
              let max_loop_count := Z.shiftr count 3 in
              r ← loop (scan_byte_step sk) (pos, max_loop_count);
              let i := r.2 in
              mret (u64 (bitpos + u64 (8 * u64 (max_loop_count - i))),
                    u64 (count - u64 (8 * u64 (max_loop_count - i)))));
      r ← loop (scan_rest_step sk arr) st;
      match r with
      | Some bitpos => mret (E_OK, u64 (bitpos + b_start bitmap))
      | None => mret (ENOENT, 0)
      end
  end.

Definition ba_find_first_zero : bmap64 → Z → Z → M (errcode * Z) := ba_find_first scan_zero.
Definition ba_find_first_set : bmap64 → Z → Z → M (errcode * Z) := ba_find_first scan_set.

(** ** The table of methods *)
Definition ext2fs_blkmap64_bitarray {ML : Malloc} : ext2_bitmap_ops := {|
  bmap_type := EXT2FS_BMAP64_BITARRAY;
  new_bmap := ba_new_bmap;
  free_bmap := ba_free_bmap;
  copy_bmap := ba_copy_bmap;
  resize_bmap := ba_resize_bmap;
  mark_bmap := ba_mark_bmap;
  unmark_bmap := ba_unmark_bmap;
  test_bmap := ba_test_bmap;
  mark_bmap_extent := ba_mark_bmap_extent;
  unmark_bmap_extent := ba_unmark_bmap_extent;
  test_clear_bmap_extent := ba_test_clear_bmap_extent;
  set_bmap_range := ba_set_bmap_range;
  get_bmap_range := ba_get_bmap_range;
  clear_bmap := ba_clear_bmap;
  find_first_zero := Some ba_find_first_zero;
  find_first_set := Some ba_find_first_set;
|}.

(** ** Specifications *)
Section blkmap_ba.
Context {ML : Malloc}.

Definition ba_len (bm : bmap64) : nat := Z.to_nat ((b_real_end bm - b_start bm) / 8 + 1).

(** The bits of the array that count. *)
Definition ba_bits (bm : bmap64) (A : gset Z) : gset Z :=
  shift_set (b_start bm) A ∩ positions bm.

Definition ba_array (bm : bmap64) (arr : Z) (A : gset Z) : hProp :=
  ⌜0 < b_private bm ∧ 0 < arr⌝ ∗ ba_bitarray (b_private bm) ↦ arr ∗ bits_at arr (ba_len bm) A.

Definition ba_bm_at (bm : bmap64) (B : gset Z) : hProp :=
  ∃ arr A, ⌜bounds_ok bm ∧ B = ba_bits bm A⌝ ∗ ba_array bm arr A.

Lemma elem_of_ba_bits bm A x :
  x ∈ ba_bits bm A ↔ x - b_start bm ∈ A ∧ b_start bm ≤ x ≤ b_real_end bm.
Proof.
  unfold ba_bits, positions. rewrite elem_of_intersection elem_of_shift_set elem_of_zrange.
  split; intros [??]; (split; [done|lia]).
Qed.

Lemma ba_len_bounds bm :
  bounds_ok bm →
  b_real_end bm - b_start bm < 8 * Z.of_nat (ba_len bm) ≤ b_real_end bm - b_start bm + 8 ∧
  8 * Z.of_nat (ba_len bm) < 2^64 + 8.
Proof.
  intros (? & ? & ? & ?). unfold ba_len.
  pose proof (Z.div_mod (b_real_end bm - b_start bm) 8).
  pose proof (Z.mod_pos_bound (b_real_end bm - b_start bm) 8).
  rewrite Z2Nat.id; lia.
Qed.

Lemma ba_len_size bm :
  bounds_ok bm → u64 (u64 (b_real_end bm - b_start bm) / 8 + 1) = Z.of_nat (ba_len bm).
Proof.
  intros Hok. pose proof (ba_len_bounds bm Hok). destruct Hok as (? & ? & ? & ?). unfold ba_len in *.
  pose proof (Z.div_mod (b_real_end bm - b_start bm) 8).
  pose proof (Z.mod_pos_bound (b_real_end bm - b_start bm) 8).
  wrap. rewrite Z2Nat.id; lia.
Qed.

Lemma ba_size_nat bm : bounds_ok bm → Z.to_nat (ba_size bm) = ba_len bm.
Proof. intros. unfold ba_size. rewrite ba_len_size //. lia. Qed.

Lemma wp_ba_alloc bm Φ :
  bounds_ok bm →
  ((∀ bp arr, ⌜0 < bp ∧ 0 < arr⌝ -∗ ba_bitarray bp ↦ arr -∗ owns_block arr 1 (ba_len bm) -∗
      Φ (E_OK, set_private bm bp)) ∧
   (⌜malloc_can_fail⌝ -∗ Φ (EXT2_ET_NO_MEMORY, bm))) -∗
  wp (ba_alloc_private_data bm) Φ.
Proof.
  iIntros (Hok) "HΦ". unfold ba_alloc_private_data. wp_apply wp_get_mem; [done|]. iSplit; last first.
  { iIntros (Hf). simpl. wp_steps. iDestruct "HΦ" as "[_ HΦ]". by iApply "HΦ". }
  iIntros (bp [Hbp _]) "Hbp". simpl. rewrite ba_size_nat //.
  iDestruct "Hbp" as "[Hbp _]". unfold ba_bitarray.
  wp_apply wp_get_mem; [done|]. iSplit.
  - iIntros (arr [Harr _]) "Harr". simpl. wp_steps. iDestruct "HΦ" as "[HΦ _]".
    iApply ("HΦ" $! bp arr with "[//] Hbp Harr").
  - iIntros (Hf). simpl. unfold ext2fs_free_mem. iApply wp_bind. iApply wp_free; [done|lia|].
    simpl. iFrame. wp_steps. iDestruct "HΦ" as "[_ HΦ]". by iApply "HΦ".
Qed.

Lemma ba_bm_at_intro bm B arr A :
  bounds_ok bm → B = ba_bits bm A → ba_array bm arr A -∗ ba_bm_at bm B.
Proof. iIntros (??) "H". iExists arr, A. by iFrame. Qed.

Lemma ba_bits_empty bm : ba_bits bm ∅ = ∅.
Proof. unfold ba_bits. rewrite shift_set_empty. set_solver. Qed.

Lemma ba_new_spec bm Φ :
  bounds_ok bm →
  ((∀ p, ba_bm_at (set_private bm p) ∅ -∗ Φ (E_OK, set_private bm p)) ∧
   (⌜malloc_can_fail⌝ -∗ Φ (EXT2_ET_NO_MEMORY, bm))) -∗
  wp (ba_new_bmap bm) Φ.
Proof.
  iIntros (Hok) "HΦ". unfold ba_new_bmap. wp_apply wp_ba_alloc; [done|]. iSplit; last first.
  { iIntros (Hf). simpl. wp_steps. iDestruct "HΦ" as "[_ HΦ]". by iApply "HΦ". }
  iIntros (bp arr [??]) "Hbp Harr". simpl. wp_steps.
  rewrite (ba_size_nat (set_private bm bp)) //. change (ba_len (set_private bm bp)) with (ba_len bm).
  wp_apply (wp_memset_zero with "Harr"). iIntros "Harr". wp_steps.
  iDestruct "HΦ" as "[HΦ _]". iApply "HΦ". iApply (ba_bm_at_intro _ _ arr ∅); [done| |].
  - by rewrite ba_bits_empty.
  - unfold ba_array. simpl. by iFrame.
Qed.

Lemma ba_free_spec bm B Φ : ba_bm_at bm B -∗ Φ tt -∗ wp (ba_free_bmap bm) Φ.
Proof.
  iIntros "(%arr & %A & (%Hok & _) & (%Hbp & %Harr) & Hbp & Harr) HΦ". unfold ba_free_bmap.
  rewrite bool_decide_eq_false_2; [|lia]. wp_load. rewrite bool_decide_eq_true_2; [|lia].
  unfold ext2fs_free_mem. rewrite bits_at_owns ba_size_nat //. iApply wp_bind. iApply wp_bind.
  iApply wp_free; [done|lia|]. iFrame "Harr". wp_store. iApply wp_free; [done|lia|].
  simpl. rewrite pointsto_owns. iFrame.
Qed.

Lemma ba_copy_spec src dst B Φ :
  b_start dst = b_start src → b_end dst = b_end src → b_real_end dst = b_real_end src →
  ba_bm_at src B -∗
  (ba_bm_at src B -∗
    ((∀ p, ba_bm_at (set_private dst p) B -∗ Φ (E_OK, set_private dst p)) ∧
     (⌜malloc_can_fail⌝ -∗ Φ (EXT2_ET_NO_MEMORY, dst)))) -∗
  wp (ba_copy_bmap src dst) Φ.
Proof.
  iIntros (Hs He Hr) "(%arr & %A & (%Hok & %HB) & (%Hbp & %Harr) & Hbp & %bs & [%Hlen %Hbits] & Harr) HΦ".
  assert (Hok' : bounds_ok dst) by (unfold bounds_ok in *; rewrite Hs He Hr; done).
  assert (Hlen' : ba_len dst = ba_len src) by (unfold ba_len; by rewrite Hs Hr).
  unfold ba_copy_bmap. wp_apply wp_ba_alloc; [done|]. iSplit; last first.
  { iIntros (Hf). simpl. wp_steps. iDestruct ("HΦ" with "[-]") as "[_ HΦ]"; [|by iApply "HΦ"].
    iApply (ba_bm_at_intro _ _ arr A); [done..|]. iSplit; [done|]. iFrame "Hbp". iExists bs. by iFrame. }
  iIntros (p arr' [Hp Harr']) "Hp Harr'". simpl. wp_load. wp_load.
  rewrite ba_size_nat // Hlen' -Hlen. wp_apply (wp_memcpy with "Harr' Harr").
  iIntros "Harr' Harr". wp_steps. iDestruct ("HΦ" with "[Hbp Harr]") as "[HΦ _]".
  { iApply (ba_bm_at_intro _ _ arr A); [done..|]. iSplit; [done|]. iFrame "Hbp". iExists bs. by iFrame. }
  iApply "HΦ". iApply (ba_bm_at_intro _ _ arr' A); [done| |].
  - rewrite HB. unfold ba_bits, positions. simpl. by rewrite Hs Hr.
  - iSplit; [done|]. iFrame "Hp". iExists bs. iFrame. iPureIntro. split; [|done].
    change (ba_len (set_private dst p)) with (ba_len dst). congruence.
Qed.

(** ** Single bits *)
Lemma ba_bits_set bm A x :
  b_start bm ≤ x ≤ b_real_end bm →
  ba_bits bm ({[x - b_start bm]} ∪ A) = {[x]} ∪ ba_bits bm A.
Proof.
  intros Hx. apply set_eq. intros y.
  rewrite elem_of_union !elem_of_ba_bits elem_of_union !elem_of_singleton.
  split; [intros [[?|?] ?]|intros [?|[? ?]]].
  - left. lia.
  - by right.
  - split; [left; lia|lia].
  - split; [by right|done].
Qed.

Lemma ba_bits_clear bm A x : ba_bits bm (A ∖ {[x - b_start bm]}) = ba_bits bm A ∖ {[x]}.
Proof.
  apply set_eq. intros y.
  rewrite elem_of_difference !elem_of_ba_bits elem_of_difference !elem_of_singleton.
  split; intros [[??]?]; split_and!; try done; try lia; split; done || lia.
Qed.

Lemma ba_bits_test bm A x :
  b_start bm ≤ x ≤ b_real_end bm → (mask_of A (x - b_start bm) ≠ 0 ↔ x ∈ ba_bits bm A).
Proof. intros. rewrite mask_of_nonzero elem_of_ba_bits. tauto. Qed.

Lemma ba_mark_spec bm B arg Φ :
  b_start bm ≤ arg ≤ b_real_end bm →
  ba_bm_at bm B -∗ (∀ v, ⌜v ≠ 0 ↔ arg ∈ B⌝ -∗ ba_bm_at bm ({[arg]} ∪ B) -∗ Φ v) -∗
  wp (ba_mark_bmap bm arg) Φ.
Proof.
  iIntros (Harg) "(%arr & %A & (%Hok & ->) & %Hp & Hbp & Harr) HΦ". unfold ba_mark_bmap.
  pose proof (ba_len_bounds _ Hok). pose proof Hok as (? & ? & ? & ?). wp_load. wrap.
  iApply (wp_set_bit64 with "Harr"); [lia|]. iIntros "Harr".
  iApply ("HΦ" with "[%]"); [by apply ba_bits_test|].
  iApply (ba_bm_at_intro _ _ arr); [done|by rewrite -ba_bits_set|]. by iFrame.
Qed.

Lemma ba_unmark_spec bm B arg Φ :
  b_start bm ≤ arg ≤ b_real_end bm →
  ba_bm_at bm B -∗ (∀ v, ⌜v ≠ 0 ↔ arg ∈ B⌝ -∗ ba_bm_at bm (B ∖ {[arg]}) -∗ Φ v) -∗
  wp (ba_unmark_bmap bm arg) Φ.
Proof.
  iIntros (Harg) "(%arr & %A & (%Hok & ->) & %Hp & Hbp & Harr) HΦ". unfold ba_unmark_bmap.
  pose proof (ba_len_bounds _ Hok). pose proof Hok as (? & ? & ? & ?). wp_load. wrap.
  iApply (wp_clear_bit64 with "Harr"); [lia|]. iIntros "Harr".
  iApply ("HΦ" with "[%]"); [by apply ba_bits_test|].
  iApply (ba_bm_at_intro _ _ arr); [done|by rewrite -ba_bits_clear|]. by iFrame.
Qed.

Lemma ba_test_spec bm B arg Φ :
  b_start bm ≤ arg ≤ b_real_end bm →
  ba_bm_at bm B -∗ (∀ v, ⌜v ≠ 0 ↔ arg ∈ B⌝ -∗ ba_bm_at bm B -∗ Φ v) -∗
  wp (ba_test_bmap bm arg) Φ.
Proof.
  iIntros (Harg) "(%arr & %A & (%Hok & ->) & %Hp & Hbp & Harr) HΦ". unfold ba_test_bmap.
  pose proof (ba_len_bounds _ Hok). pose proof Hok as (? & ? & ? & ?). wp_load. wrap.
  iApply (wp_test_bit64 with "Harr"); [lia|]. iIntros "Harr".
  iApply ("HΦ" with "[%]"); [by apply ba_bits_test|].
  iApply (ba_bm_at_intro _ _ arr); [done|done|]. by iFrame.
Qed.

Lemma ba_clear_spec bm B Φ :
  ba_bm_at bm B -∗ (ba_bm_at bm ∅ -∗ Φ tt) -∗ wp (ba_clear_bmap bm) Φ.
Proof.
  iIntros "(%arr & %A & (%Hok & ->) & %Hp & Hbp & Harr) HΦ". unfold ba_clear_bmap. wp_load.
  rewrite ba_size_nat // bits_at_owns. iApply (wp_memset_zero with "Harr"). iIntros "Harr".
  iApply "HΦ". iApply (ba_bm_at_intro _ _ _ ∅); [done|by rewrite ba_bits_empty|]. by iFrame.
Qed.

(** ** Ranges *)
Lemma ba_mark_extent_spec bm B arg num Φ :
  b_start bm ≤ arg → 0 ≤ num → arg + num ≤ b_real_end bm + 1 →
  ba_bm_at bm B -∗ (ba_bm_at bm (zrange arg num ∪ B) -∗ Φ tt) -∗
  wp (ba_mark_bmap_extent bm arg num) Φ.
Proof.
  iIntros (Ha Hn He) "(%arr & %A & (%Hok & ->) & %Hp & Hbp & Harr) HΦ".
  pose proof (ba_len_bounds _ Hok). pose proof Hok as (? & ? & ? & ?).
  unfold ba_mark_bmap_extent.
  iApply (wp_wand with "[Hbp Harr]").
  { iApply (wp_for_range (λ i, ba_bitarray (b_private bm) ↦ arr ∗
      bits_at arr (ba_len bm) (zrange (arg - b_start bm) i ∪ A))%I).
    { iIntros (i Hi) "[Hbp Harr]". wp_load. wrap. wp_apply (wp_fast_set_bit64 with "Harr"); [lia|].
      iIntros "Harr". iFrame "Hbp".
      replace (zrange (arg - b_start bm) (i + 1) ∪ A) with
        ({[arg + i - b_start bm]} ∪ (zrange (arg - b_start bm) i ∪ A)); [done|]. set_lia. }
    rewrite zrange_empty // left_id_L. iFrame. }
  iIntros ([]) "[Hbp Harr]". rewrite Z.add_0_l Z2Nat.id //. iApply "HΦ".
  iApply (ba_bm_at_intro _ _ arr with "[$Hbp $Harr //]"); [done|].
  apply set_eq. intros x. rewrite elem_of_union !elem_of_ba_bits elem_of_union !elem_of_zrange.
  split; [intros [?|[? ?]]|intros [[?|?] ?]]; try (right; done); try (left; lia).
  - split; [left; lia|lia].
  - split; [by right|done].
Qed.

Lemma ba_unmark_extent_spec bm B arg num Φ :
  b_start bm ≤ arg → 0 ≤ num → arg + num ≤ b_real_end bm + 1 →
  ba_bm_at bm B -∗ (ba_bm_at bm (B ∖ zrange arg num) -∗ Φ tt) -∗
  wp (ba_unmark_bmap_extent bm arg num) Φ.
Proof.
  iIntros (Ha Hn He) "(%arr & %A & (%Hok & ->) & %Hp & Hbp & Harr) HΦ".
  pose proof (ba_len_bounds _ Hok). pose proof Hok as (? & ? & ? & ?).
  unfold ba_unmark_bmap_extent.
  iApply (wp_wand with "[Hbp Harr]").
  { iApply (wp_for_range (λ i, ba_bitarray (b_private bm) ↦ arr ∗
      bits_at arr (ba_len bm) (A ∖ zrange (arg - b_start bm) i))%I).
    { iIntros (i Hi) "[Hbp Harr]". wp_load. wrap.
      wp_apply (wp_fast_clear_bit64 with "Harr"); [lia|].
      iIntros "Harr". iFrame "Hbp".
      replace (A ∖ zrange (arg - b_start bm) (i + 1)) with
        ((A ∖ zrange (arg - b_start bm) i) ∖ {[arg + i - b_start bm]}); [done|]. set_lia. }
    rewrite zrange_empty // difference_empty_L. iFrame. }
  iIntros ([]) "[Hbp Harr]". rewrite Z.add_0_l Z2Nat.id //. iApply "HΦ".
  iApply (ba_bm_at_intro _ _ arr with "[$Hbp $Harr //]"); [done|].
  apply set_eq. intros x.
  rewrite elem_of_difference !elem_of_ba_bits elem_of_difference !elem_of_zrange.
  split; intros [[??]?]; split_and!; try done; try lia; split; done || lia.
Qed.

(** The bytes of a range, taken out of the array and put back. *)
Lemma bytes_bits_iff bs A :
  bytes_bits bs A →
  ∀ x, x ∈ A ↔ 0 ≤ x ∧ ∃ b, bs !! Z.to_nat (x / 8) = Some b ∧ Z.testbit b (x mod 8) = true.
Proof.
  intros (Hby & Hr & HB) x. pose proof (Z.div_mod x 8). pose proof (Z.mod_pos_bound x 8).
  assert (Hx : 0 ≤ x → 8 * Z.of_nat (Z.to_nat (x / 8)) + x mod 8 = x) by lia.
  split.
  - intros HxA. pose proof (Hr x HxA). split; [lia|].
    destruct (lookup_lt_is_Some_2 bs (Z.to_nat (x / 8))) as [b Hb]; [lia|].
    exists b. split; [done|]. apply (HB _ _ _ Hb); [lia|]. by rewrite Hx; [|lia].
  - intros (Hx0 & b & Hb & Ht). rewrite -Hx //. apply (HB _ _ _ Hb); [lia|done].
Qed.

Lemma bytes_bits_intro bs A :
  Forall (λ b, 0 ≤ b < 256) bs →
  (∀ x, x ∈ A ↔ 0 ≤ x ∧ ∃ b, bs !! Z.to_nat (x / 8) = Some b ∧ Z.testbit b (x mod 8) = true) →
  bytes_bits bs A.
Proof.
  intros Hby HA. split; [done|split].
  - intros x (Hx & b & Hb & _)%HA. apply lookup_lt_Some in Hb.
    pose proof (Z.div_mod x 8). pose proof (Z.mod_pos_bound x 8). lia.
  - intros j b i Hb Hi. rewrite HA.
    assert (((8 * Z.of_nat j + i) / 8) = Z.of_nat j ∧ (8 * Z.of_nat j + i) mod 8 = i) as [-> ->].
    { pose proof (Z.div_mod (8 * Z.of_nat j + i) 8).
      pose proof (Z.mod_pos_bound (8 * Z.of_nat j + i) 8). lia. }
    rewrite Nat2Z.id Hb. split; [intros Ht; split; [lia|by exists b]|].
    by intros (_ & b' & [= <-] & Ht).
Qed.

Lemma byte_index x k : 0 ≤ k → (x - 8 * k) / 8 = x / 8 - k ∧ (x - 8 * k) mod 8 = x mod 8.
Proof.
  intros. replace (x - 8 * k) with (x + (- k) * 8) by lia.
  by rewrite Z.div_add // Z.mod_add.
Qed.

Lemma bytes_bits_app xs ys A :
  bytes_bits (xs ++ ys) A ↔
  bytes_bits xs (A ∩ zrange 0 (8 * Z.of_nat (length xs))) ∧
  bytes_bits ys (range_part (8 * Z.of_nat (length xs)) (8 * Z.of_nat (length ys)) A) ∧
  (∀ x, x ∈ A → 0 ≤ x < 8 * Z.of_nat (length xs + length ys)).
Proof.
  assert (Hdiv : ∀ x n, 0 ≤ x → x < 8 * Z.of_nat n ↔ (Z.to_nat (x / 8) < n)%nat).
  { intros x n Hx. pose proof (Z.div_mod x 8). pose proof (Z.mod_pos_bound x 8). lia. }
  split.
  - intros Hb. pose proof (bytes_bits_iff _ _ Hb) as Hiff. destruct Hb as (Hby & Hr & _).
    apply Forall_app in Hby as [Hb1 Hb2]. rewrite length_app in Hr. split_and!; [| |done].
    + apply bytes_bits_intro; [done|]. intros x. rewrite elem_of_intersection elem_of_zrange Hiff.
      split.
      * intros [(Hx & b & Hb & Ht) ?]. split; [done|]. exists b.
        rewrite lookup_app_l in Hb; [done|]. apply Hdiv; [done|lia].
      * intros (Hx & b & Hb & Ht). pose proof (lookup_lt_Some _ _ _ Hb) as Hl.
        apply Hdiv in Hl; [|done]. split; [|lia]. split; [done|]. exists b.
        by rewrite lookup_app_l; [|by apply Hdiv].
    + apply bytes_bits_intro; [done|]. intros x. rewrite elem_of_range_part Hiff.
      destruct (byte_index (x + 8 * Z.of_nat (length xs)) (Z.of_nat (length xs))) as [Hq Hm]; [lia|].
      replace (x + 8 * Z.of_nat (length xs) - 8 * Z.of_nat (length xs)) with x in Hq, Hm by lia.
      pose proof (Z.div_pos x 8).
      assert (Hi : 0 ≤ x → Z.to_nat ((x + 8 * Z.of_nat (length xs)) / 8) = (length xs + Z.to_nat (x / 8))%nat) by lia.
      split.
      * intros [(Hx & b & Hb & Ht) ?]. split; [lia|]. exists b. rewrite Hm. split; [|done].
        rewrite Hi in Hb; [|lia]. rewrite lookup_app_r in Hb; [|lia].
        by replace (length xs + Z.to_nat (x / 8) - length xs)%nat with (Z.to_nat (x / 8)) in Hb by lia.
      * intros (Hx & b & Hb & Ht). pose proof (lookup_lt_Some _ _ _ Hb) as Hl.
        apply Hdiv in Hl; [|done]. split; [|lia]. split; [lia|]. exists b. rewrite -Hm. split; [|done].
        rewrite Hi //. rewrite lookup_app_r; [|lia].
        by replace (length xs + Z.to_nat (x / 8) - length xs)%nat with (Z.to_nat (x / 8)) by lia.
  - intros (H1 & H2 & Hr). pose proof (bytes_bits_iff _ _ H1) as Hi1.
    pose proof (bytes_bits_iff _ _ H2) as Hi2.
    destruct H1 as (Hb1 & _), H2 as (Hb2 & _).
    apply bytes_bits_intro; [by apply Forall_app|]. intros x.
    set (n := Z.of_nat (length xs)) in *.
    destruct (decide (x < 8 * n)) as [Hx|Hx].
    + specialize (Hi1 x). rewrite elem_of_intersection elem_of_zrange in Hi1.
      split.
      * intros HxA. destruct (Hr x HxA). destruct (proj1 Hi1) as (? & b & Hb & Ht); [split; [done|lia]|].
        split; [done|]. exists b. rewrite lookup_app_l //. by eapply lookup_lt_Some.
      * intros (? & b & Hb & Ht). rewrite lookup_app_l in Hb; [|apply Hdiv; lia].
        apply Hi1. split; [done|]. by exists b.
    + specialize (Hi2 (x - 8 * n)). rewrite elem_of_range_part in Hi2.
      replace (x - 8 * n + 8 * n) with x in Hi2 by lia.
      destruct (byte_index x n) as [Hq Hm]; [lia|]. rewrite Hq Hm in Hi2.
      pose proof (Z.div_mod x 8). pose proof (Z.mod_pos_bound x 8).
      assert (Hi : (Z.to_nat (x / 8) - length xs)%nat = Z.to_nat (x / 8 - n)) by lia.
      split.
      * intros HxA. destruct (Hr x HxA). destruct (proj1 Hi2) as (? & b & Hb & Ht); [split; [done|lia]|].
        split; [lia|]. exists b. rewrite lookup_app_r; [|lia]. by rewrite Hi.
      * intros (? & b & Hb & Ht). rewrite lookup_app_r in Hb; [|lia]. rewrite Hi in Hb.
        apply Hi2. split; [lia|]. by exists b.
Qed.

Lemma bits_at_split p n1 n2 A :
  bits_at p (n1 + n2) A ⊣⊢
  ⌜∀ x, x ∈ A → 0 ≤ x < 8 * Z.of_nat (n1 + n2)⌝ ∗
  bits_at p n1 (A ∩ zrange 0 (8 * Z.of_nat n1)) ∗
  bits_at (p + Z.of_nat n1) n2 (range_part (8 * Z.of_nat n1) (8 * Z.of_nat n2) A).
Proof.
  iSplit.
  - iIntros "(%bs & [%Hlen %Hb] & H)".
    rewrite -(take_drop n1 bs) in Hb |- *.
    assert (length (take n1 bs) = n1) as Hl1 by (rewrite length_take; lia).
    assert (length (drop n1 bs) = n2) as Hl2 by (rewrite length_drop; lia).
    apply bytes_bits_app in Hb as (H1 & H2 & Hr). rewrite Hl1 Hl2 in H1, H2, Hr.
    rewrite array_at_app Hl1 Z.mul_1_l. iDestruct "H" as "[Ha Hb]".
    iSplit; [done|]. iSplitL "Ha"; [iExists _; by iFrame|iExists _; by iFrame].
  - iIntros "(%Hr & (%xs & [<- %H1] & Ha) & (%ys & [<- %H2] & Hb))".
    iExists (xs ++ ys). rewrite array_at_app length_app Z.mul_1_l. iFrame. iPureIntro.
    split; [done|]. by apply bytes_bits_app.
Qed.

Lemma wp_memcpy_bits d s n I Φ :
  owns_block d 1 n -∗ bits_at s n I -∗
  (bits_at d n I -∗ bits_at s n I -∗ Φ tt) -∗ wp (memcpy 1 d s n) Φ.
Proof.
  iIntros "Hd (%bs & [<- %Hb] & Hs) HΦ". iApply (wp_memcpy with "Hd Hs").
  iIntros "Hd Hs". iApply ("HΦ" with "[Hd] [Hs]"); iExists bs; by iFrame.
Qed.

Lemma bits_at_subrange p q n k A :
  bits_at p (q + (n + k)) A ⊢
  bits_at (p + Z.of_nat q) n (range_part (8 * Z.of_nat q) (8 * Z.of_nat n) A) ∗
  (∀ I, bits_at (p + Z.of_nat q) n I -∗
     bits_at p (q + (n + k))
       ((A ∖ zrange (8 * Z.of_nat q) (8 * Z.of_nat n)) ∪ shift_set (8 * Z.of_nat q) I)).
Proof.
  rewrite {1}bits_at_split. iIntros "(%HA & Hq & H)".
  rewrite {1}bits_at_split. iDestruct "H" as "(%HX & Hn & Hk)".
  iSplitL "Hn".
  { replace (range_part (8 * Z.of_nat q) (8 * Z.of_nat (n + k)) A ∩ zrange 0 (8 * Z.of_nat n))
      with (range_part (8 * Z.of_nat q) (8 * Z.of_nat n) A); [done|].
    apply set_eq. intros x. rewrite elem_of_intersection !elem_of_range_part elem_of_zrange.
    split; [intros [? ?]|intros [[? ?] ?]]; (split_and!; [done|lia..]). }
  iIntros (I) "Hn". rewrite bits_at_split.
  iAssert ⌜∀ x, x ∈ I → 0 ≤ x < 8 * Z.of_nat n⌝%I as %HI.
  { iDestruct "Hn" as "(%bs & (<- & _ & %Hr & _) & _)". done. }
  assert (Hrange : ∀ x, x ∈ (A ∖ zrange (8 * Z.of_nat q) (8 * Z.of_nat n)) ∪
    shift_set (8 * Z.of_nat q) I → 0 ≤ x < 8 * Z.of_nat (q + (n + k))).
  { intros x. rewrite elem_of_union elem_of_difference elem_of_shift_set.
    intros [[Hx _]|Hx%HI]; [by apply HA|lia]. }
  iSplit; [done|]. iSplitL "Hq".
  { replace (((A ∖ zrange (8 * Z.of_nat q) (8 * Z.of_nat n)) ∪ shift_set (8 * Z.of_nat q) I)
      ∩ zrange 0 (8 * Z.of_nat q)) with (A ∩ zrange 0 (8 * Z.of_nat q)); [done|].
    apply set_eq. intros x. specialize (HI (x - 8 * Z.of_nat q)).
    rewrite !elem_of_intersection elem_of_union elem_of_difference elem_of_shift_set !elem_of_zrange.
    mem_lia. }
  rewrite bits_at_split. iSplit.
  { iPureIntro. intros x. rewrite elem_of_range_part. lia. }
  iSplitL "Hn".
  { replace (range_part _ _ _ ∩ _) with I; [done|].
    apply set_eq. intros x. specialize (HI x).
    rewrite elem_of_intersection elem_of_range_part elem_of_union elem_of_difference elem_of_shift_set.
    rewrite !elem_of_zrange. replace (x + 8 * Z.of_nat q - 8 * Z.of_nat q) with x by lia. mem_lia. }
  replace (range_part (8 * Z.of_nat n) (8 * Z.of_nat k)
      (range_part (8 * Z.of_nat q) (8 * Z.of_nat (n + k))
         ((A ∖ zrange (8 * Z.of_nat q) (8 * Z.of_nat n)) ∪ shift_set (8 * Z.of_nat q) I)))
    with (range_part (8 * Z.of_nat n) (8 * Z.of_nat k)
      (range_part (8 * Z.of_nat q) (8 * Z.of_nat (n + k)) A)); [done|].
  apply set_eq. intros x. specialize (HI (x + 8 * Z.of_nat n)).
  rewrite !elem_of_range_part elem_of_union elem_of_difference elem_of_shift_set !elem_of_zrange.
  replace (x + 8 * Z.of_nat n + 8 * Z.of_nat q - 8 * Z.of_nat q) with (x + 8 * Z.of_nat n) by lia.
  mem_lia.
Qed.

(** Where a range lies in the array. *)
Lemma ba_range_bytes bm s num n :
  bounds_ok bm → range_ok bm s num n →
  ∃ q k, ba_len bm = (q + (n + k))%nat ∧ s - b_start bm = 8 * Z.of_nat q ∧
    Z.shiftr s 3 = Z.of_nat q ∧ Z.to_nat (Z.shiftr (u64 (num + 7)) 3) = n ∧
    num ≤ 8 * Z.of_nat n < num + 8.
Proof.
  intros (? & ? & ? & ?) (Hs & Hnum & Hend & H8 & Hal & Hn). rewrite !shiftr3. wrap.
  pose proof (Z.div_mod (num + 7) 8). pose proof (Z.mod_pos_bound (num + 7) 8).
  pose proof (Z.div_mod (s - b_start bm) 8). pose proof (Z.div_mod s 8).
  pose proof (Z.mod_pos_bound s 8). pose proof (Z.mod_pos_bound (b_real_end bm - b_start bm) 8).
  pose proof (Z.div_mod (b_real_end bm - b_start bm) 8).
  exists (Z.to_nat ((s - b_start bm) / 8)).
  exists (ba_len bm - Z.to_nat ((s - b_start bm) / 8) - n)%nat. unfold ba_len.
  split_and!; lia.
Qed.

Lemma ba_set_range_spec bm B s num inp n I Φ :
  range_ok bm s num n → I ⊆ zrange 0 num → zrange s (8 * Z.of_nat n) ## B →
  ba_bm_at bm B -∗ bits_at inp n I -∗
  (ba_bm_at bm (shift_set s I ∪ B) -∗ bits_at inp n I -∗ Φ E_OK) -∗
  wp (ba_set_bmap_range bm s num inp) Φ.
Proof.
  iIntros (Hr HI Hdisj) "(%arr & %A & (%Hok & ->) & %Hp & Hbp & Harr) Hin HΦ".
  destruct (ba_range_bytes _ _ _ _ Hok Hr) as (q & k & Hlen & Hsq & Hs3 & Hn & Hnb).
  destruct Hr as (Hs & Hnum & Hend & _). pose proof Hok as (? & ? & ? & ?).
  unfold ba_set_bmap_range, ba_array. wp_load. rewrite Hlen Hs3 Hn.
  iDestruct (bits_at_subrange with "Harr") as "[Hold Harr]". rewrite (bits_at_owns (_ + _)).
  wp_apply (wp_memcpy_bits with "Hold Hin"). iIntros "Hnew Hin". wp_steps.
  iApply ("HΦ" with "[Hbp Harr Hnew] Hin"). iDestruct ("Harr" with "Hnew") as "Harr".
  iApply (ba_bm_at_intro _ _ arr); [done| |iFrame "Hbp"; rewrite Hlen; by iFrame].
  apply set_eq. intros x. specialize (HI (x - s)). specialize (Hdisj x).
  rewrite elem_of_ba_bits elem_of_zrange in Hdisj. rewrite elem_of_zrange in HI.
  rewrite elem_of_union !elem_of_ba_bits elem_of_union elem_of_difference !elem_of_shift_set elem_of_zrange.
  replace (x - b_start bm - 8 * Z.of_nat q) with (x - s) by lia.
  rewrite -Hsq. clear Hlen. mem_lia.
Qed.

Lemma ba_get_range_spec bm B s num out n Φ :
  range_ok bm s num n →
  ba_bm_at bm B -∗ owns_block out 1 n -∗
  (∀ O, ⌜∀ i, (0 ≤ i < num)%Z → (i ∈ O ↔ (s + i)%Z ∈ B)⌝ -∗
     ba_bm_at bm B -∗ bits_at out n O -∗ Φ E_OK) -∗
  wp (ba_get_bmap_range bm s num out) Φ.
Proof.
  iIntros (Hr) "(%arr & %A & (%Hok & ->) & %Hp & Hbp & Harr) Hout HΦ".
  destruct (ba_range_bytes _ _ _ _ Hok Hr) as (q & k & Hlen & Hsq & Hs3 & Hn & Hnb).
  destruct Hr as (Hs & Hnum & Hend & _). pose proof Hok as (? & ? & ? & ?).
  unfold ba_get_bmap_range, ba_array. wp_load. rewrite Hlen Hs3 Hn.
  iDestruct (bits_at_subrange with "Harr") as "[Hpart Harr]".
  wp_apply (wp_memcpy_bits with "Hout Hpart"). iIntros "Hout Hpart". wp_steps.
  iDestruct ("Harr" with "Hpart") as "Harr".
  iApply ("HΦ" with "[%] [Hbp Harr] Hout").
  - intros i Hi. rewrite elem_of_range_part elem_of_ba_bits -Hsq.
    replace (s + i - b_start bm) with (i + (s - b_start bm)) by lia. split; intros [??]; (split; [done|lia]).
  - iApply (ba_bm_at_intro _ _ arr A); [done|done|]. iFrame "Hbp". rewrite Hlen.
    iSplit; [done|]. assert (Heq : A = A ∖ zrange (8 * Z.of_nat q) (8 * Z.of_nat n) ∪
      shift_set (8 * Z.of_nat q) (range_part (8 * Z.of_nat q) (8 * Z.of_nat n) A)).
    { apply set_eq. intros x.
      rewrite elem_of_union elem_of_difference elem_of_shift_set elem_of_range_part elem_of_zrange.
      replace (x - 8 * Z.of_nat q + 8 * Z.of_nat q) with x by lia. mem_lia. }
    by rewrite -Heq.
Qed.

(** ** Resizing *)
Lemma ba_clear_loop_spec start end_ arr n A bitno Φ :
  0 ≤ start ≤ end_ → end_ ≤ bitno < 2^64 → bitno - start < 8 * Z.of_nat n →
  bits_at arr n A -∗
  (bits_at arr n (A ∖ zrange (end_ + 1 - start) (bitno - end_)) -∗ Φ tt) -∗
  wp (loop (ba_clear_step start end_ arr) bitno) Φ.
Proof.
  remember (Z.to_nat (bitno - end_)) as m eqn:Hm. revert bitno A Hm.
  induction m as [|m IH]; iIntros (bitno A Hm Hs He Hn) "H HΦ"; wp_loop ba_clear_step.
  - rewrite bool_decide_eq_false_2; [|lia]. wp_steps.
    rewrite zrange_empty; [|lia]. rewrite difference_empty_L. by iApply "HΦ".
  - rewrite bool_decide_eq_true_2; [|lia]. wrap.
    wp_apply (wp_clear_bit64 with "H"); [lia|]. iIntros "H". wp_steps.
    iApply (IH with "H"); [lia..|].
    replace (A ∖ zrange (end_ + 1 - start) (bitno - end_)) with
      ((A ∖ {[bitno - start]}) ∖ zrange (end_ + 1 - start) (bitno - 1 - end_)); [done|]. set_lia.
Qed.

Lemma bits_at_bounds p n A : bits_at p n A ⊢ ⌜∀ x, x ∈ A → 0 ≤ x < 8 * Z.of_nat n⌝.
Proof. iIntros "(%bs & (<- & _ & %Hr & _) & _)". done. Qed.

Lemma wp_resize_bits p n new A Φ :
  p ≠ 0 →
  bits_at p n A -∗
  ((∀ q, ⌜0 < q⌝ -∗ bits_at q (n `min` new) (A ∩ zrange 0 (8 * Z.of_nat new)) -∗
      owns_block (q + Z.of_nat (n `min` new)) 1 (new - n) -∗ Φ (E_OK, q)) ∧
   (⌜malloc_can_fail⌝ -∗ bits_at p n A -∗ Φ (EXT2_ET_NO_MEMORY, p))) -∗
  wp (ext2fs_resize_mem 1 n new p) Φ.
Proof.
  iIntros (Hp) "(%bs & (<- & %Hb) & H) HΦ". iApply (wp_resize_mem with "H"); [done..|]. iSplit.
  - iIntros (q [Hq _]) "Ha Ho". iDestruct "HΦ" as "[HΦ _]". rewrite Z.mul_1_l.
    iApply ("HΦ" with "[//] [Ha] Ho"). iExists _. iFrame. iPureIntro.
    rewrite length_take. split; [lia|]. pose proof Hb as (_ & Hr & _).
    rewrite -(take_drop new bs) in Hb. apply bytes_bits_app in Hb as (Hb & _).
    rewrite length_take in Hb.
    replace (A ∩ zrange 0 (8 * Z.of_nat new))
      with (A ∩ zrange 0 (8 * Z.of_nat (new `min` length bs))); [done|].
    apply set_eq. intros x. specialize (Hr x). rewrite !elem_of_intersection !elem_of_zrange. mem_lia.
  - iIntros (Hf) "H". iDestruct "HΦ" as "[_ HΦ]". iApply ("HΦ" with "[//]"). iExists bs. by iFrame.
Qed.

(** The array of the new size. *)
Lemma ba_resize_array_spec bp arr n new A Φ :
  0 < arr → Z.of_nat n < 2^64 → Z.of_nat new < 2^64 →
  ba_bitarray bp ↦ arr -∗ bits_at arr n A -∗
  ((∀ arr', ⌜0 < arr'⌝ -∗ ba_bitarray bp ↦ arr' -∗
      bits_at arr' new (A ∩ zrange 0 (8 * Z.of_nat new)) -∗ Φ E_OK) ∧
   (⌜malloc_can_fail⌝ -∗ ba_bitarray bp ↦ arr -∗ bits_at arr n A -∗ Φ EXT2_ET_NO_MEMORY)) -∗
  wp (ba_resize_array bp (Z.of_nat n) (Z.of_nat new)) Φ.
Proof.
  iIntros (Harr Hn Hnew) "Hbp Harr HΦ". unfold ba_resize_array. rewrite !Nat2Z.id.
  iDestruct (bits_at_bounds with "Harr") as %HA.
  decide_case (Z.of_nat n ≠ Z.of_nat new) as Hne; last first.
  { wp_steps. simpl. rewrite bool_decide_eq_false_2; [|lia]. wp_steps.
    iDestruct "HΦ" as "[HΦ _]". iApply ("HΦ" with "[//] Hbp"). assert (n = new) as <- by lia.
    replace (A ∩ zrange 0 (8 * Z.of_nat n)) with A; [done|].
    apply set_eq. intros x. specialize (HA x). rewrite elem_of_intersection elem_of_zrange. mem_lia. }
  wp_load. wp_apply (wp_resize_bits with "Harr"); [lia|]. iSplit; last first.
  { iIntros (Hf) "Harr". simpl. wp_steps. simpl. wp_steps. iDestruct "HΦ" as "[_ HΦ]".
    iApply ("HΦ" with "[//] Hbp Harr"). }
  iIntros (q Hq) "Hq Ho". simpl. wp_steps. simpl. iDestruct "HΦ" as "[HΦ _]".
  decide_case (Z.of_nat n < Z.of_nat new) as Hlt; last first.
  { wp_steps. iApply ("HΦ" with "[//] Hbp"). by rewrite Nat.min_r; [|lia]. }
  rewrite Nat.min_l; [|lia]. wp_load. replace (Z.to_nat (Z.of_nat new - Z.of_nat n)) with (new - n)%nat by lia.
  wp_apply (wp_memset_zero with "Ho"). iIntros "Ho". wp_steps.
  iApply ("HΦ" with "[//] Hbp"). assert (Hnn : new = (n + (new - n))%nat) by lia.
  iEval (rewrite {1}Hnn).
  rewrite bits_at_split. iSplit.
  { iPureIntro. intros x. rewrite elem_of_intersection elem_of_zrange. lia. }
  replace (A ∩ zrange 0 (8 * Z.of_nat new) ∩ zrange 0 (8 * Z.of_nat n))
    with (A ∩ zrange 0 (8 * Z.of_nat new)); last first.
  { apply set_eq. intros x. specialize (HA x). rewrite !elem_of_intersection !elem_of_zrange. mem_lia. }
  rewrite range_part_out; [iFrame|].
  intros x. rewrite elem_of_intersection elem_of_zrange. intros [?%HA ?]. lia.
Qed.

Lemma ba_resize_spec bm B ne nre Φ :
  bounds_ok (set_ends bm ne nre) →
  ne ≤ b_real_end bm ∨ (b_real_end bm + 1 - b_start bm) mod 8 = 0 →
  ba_bm_at bm B -∗
  ((∀ B', ⌜∀ x, x ≤ ne → (x ∈ B' ↔ x ∈ B ∧ x ≤ b_end bm)⌝ -∗
      ba_bm_at (set_ends bm ne nre) B' -∗ Φ (E_OK, set_ends bm ne nre)) ∧
   (∀ B', ⌜malloc_can_fail⌝ -∗ ba_bm_at bm B' -∗ Φ (EXT2_ET_NO_MEMORY, bm))) -∗
  wp (ba_resize_bmap bm ne nre) Φ.
Proof.
  iIntros (Hok' Hgrow) "(%arr & %A & (%Hok & ->) & %Hp & Hbp & Harr) HΦ".
  pose proof (ba_len_bounds _ Hok) as Hlen. pose proof (ba_len_bounds _ Hok') as Hlen'.
  pose proof (ba_len_size _ Hok) as Hsz. pose proof (ba_len_size _ Hok') as Hsz'.
  pose proof Hok as (? & ? & ? & ?). pose proof Hok' as (? & ? & ? & ?). simpl in *.
  unfold ba_resize_bmap.
  (* the bits after the old end are cleared *)
  iApply wp_bind. iApply (wp_wand _ (λ _, ∃ A1,
    ⌜∀ x, x ≤ Z.min ne (b_real_end bm) → x - b_start bm ∈ A1 ↔ x - b_start bm ∈ A ∧ x ≤ b_end bm⌝ ∗
    ba_bitarray (b_private bm) ↦ arr ∗ bits_at arr (ba_len bm) A1)%I with "[Hbp Harr]").
  { decide_case (b_end bm < ne) as Hlt.
    - wp_load. set (bitno := if bool_decide (ne < b_real_end bm) then ne else b_real_end bm).
      assert (bitno = Z.min ne (b_real_end bm)) as -> by (unfold bitno; case_bool_decide; lia).
      iApply (ba_clear_loop_spec with "Harr"); [lia..|]. iIntros "Harr". iFrame. iPureIntro.
      intros x Hx. rewrite elem_of_difference elem_of_zrange. clear -Hx. mem_lia.
    - wp_steps. iFrame. iPureIntro. intros x Hx. clear -Hx Hlt. mem_lia. }
  iIntros ([]) "(%A1 & %HA1 & Hbp & Harr)". iDestruct (bits_at_bounds with "Harr") as %Hbd.
  (* the bits that are kept *)
  assert (HB : ∀ A2, (∀ x, x ∈ A2 ↔ x ∈ A1 ∧ x < 8 * Z.of_nat (ba_len (set_ends bm ne nre))) →
    ∀ x, x ≤ ne → x ∈ ba_bits (set_ends bm ne nre) A2 ↔ x ∈ ba_bits bm A ∧ x ≤ b_end bm).
  { intros A2 HA2 x Hx. rewrite !elem_of_ba_bits /= HA2. specialize (HA1 x).
    destruct (decide (x ≤ b_real_end bm)) as [Hr|Hr].
    - specialize (HA1 ltac:(lia)). clear -HA1 Hx Hr H H0 H1 H3 H4 H5 Hlen'. mem_lia.
    - split; [|lia]. intros [[Hin ?] ?]. apply Hbd in Hin. exfalso.
      pose proof (Z.div_mod (b_real_end bm + 1 - b_start bm) 8). lia. }
  decide_case (nre = b_real_end bm) as Heq.
  { wp_steps. subst nre. iDestruct "HΦ" as "[HΦ _]".
    iApply ("HΦ" $! (ba_bits (set_ends bm ne (b_real_end bm)) A1) with "[%]").
    - apply HB. intros x. split; [intros Hx; split; [done|]; apply Hbd in Hx; simpl; lia|tauto].
    - iApply (ba_bm_at_intro _ _ arr A1); [done..|]. by iFrame. }
  rewrite Hsz Hsz'. wp_apply (ba_resize_array_spec with "Hbp Harr"); [lia..|]. iSplit; last first.
  { iIntros (Hf) "Hbp Harr". simpl. wp_steps. iDestruct "HΦ" as "[_ HΦ]".
    iApply ("HΦ" with "[//]"). iApply (ba_bm_at_intro _ _ arr A1); [done..|]. by iFrame. }
  iIntros (arr' Harr') "Hbp Harr". simpl. wp_steps. iDestruct "HΦ" as "[HΦ _]".
  iApply ("HΦ" $! (ba_bits (set_ends bm ne nre)
    (A1 ∩ zrange 0 (8 * Z.of_nat (ba_len (set_ends bm ne nre))))) with "[%]").
  - apply HB. intros x. rewrite elem_of_intersection elem_of_zrange.
    split; intros [Hx ?]; (split; [done|]); [lia|]. apply Hbd in Hx. lia.
  - iApply (ba_bm_at_intro _ _ arr'); [done..|]. iFrame. iPureIntro. simpl. tauto.
Qed.

(** ** Testing whether a range is clear *)
Lemma byte_zero_iff b : 0 ≤ b < 256 → b = 0 ↔ ∀ i, 0 ≤ i < 8 → Z.testbit b i = false.
Proof.
  intros Hb. split; [intros -> i _; apply Z.bits_0|]. intros Hi.
  apply Z.bits_inj'. intros i ?. rewrite Z.bits_0.
  destruct (decide (i < 8)); [apply Hi; lia|apply byte_testbit_high; lia].
Qed.

Lemma byte_zero_disjoint b k A :
  0 ≤ b < 256 → (∀ i, 0 ≤ i < 8 → (Z.testbit b i = true ↔ 8 * k + i ∈ A)) →
  b = 0 ↔ zrange (8 * k) 8 ## A.
Proof.
  intros Hb HB. rewrite byte_zero_iff //. split.
  - intros Hi x Hx%elem_of_zrange HxA. specialize (Hi (x - 8 * k)). specialize (HB (x - 8 * k)).
    replace (8 * k + (x - 8 * k)) with x in HB by lia.
    apply HB in HxA; [|lia]. rewrite Hi in HxA; [done|lia].
  - intros Hd i Hi. destruct (Z.testbit b i) eqn:Ht; [|done]. apply HB in Ht; [|done].
    destruct (Hd (8 * k + i)); [|done]. apply elem_of_zrange. lia.
Qed.

Lemma zrange_split_disjoint a m n A :
  0 ≤ m ≤ n → zrange a n ## A ↔ zrange a m ## A ∧ zrange (a + m) (n - m) ## A.
Proof.
  intros Hm. assert (zrange a n = zrange a m ∪ zrange (a + m) (n - m)) as -> by set_lia.
  apply disjoint_union_l.
Qed.

Lemma memcmp_zero_spec p n A k len Φ :
  0 ≤ k → k + Z.of_nat len ≤ Z.of_nat n →
  bits_at p n A -∗
  (bits_at p n A -∗ Φ (bool_decide (zrange (8 * k) (8 * Z.of_nat len) ## A))) -∗
  wp (memcmp_zero (p + k) len) Φ.
Proof.
  revert k Φ. induction len as [|len IH]; iIntros (k Φ Hk Hn) "H HΦ"; unfold memcmp_zero; fold memcmp_zero.
  { wp_steps. rewrite bool_decide_eq_true_2; [by iApply "HΦ"|].
    rewrite zrange_empty; [set_solver|lia]. }
  wp_apply (wp_load_bits with "H"); [lia|]. iIntros (b [Hb HB]) "H".
  pose proof (byte_zero_disjoint b k A Hb HB) as Hz.
  assert (Hsplit := zrange_split_disjoint (8 * k) 8 (8 * Z.of_nat (S len)) A ltac:(lia)).
  replace (8 * k + 8) with (8 * (k + 1)) in Hsplit by lia.
  replace (8 * Z.of_nat (S len) - 8) with (8 * Z.of_nat len) in Hsplit by lia.
  decide_case (b = 0) as H0.
  - cbv iota. replace (p + k + 1) with (p + (k + 1)) by lia. iApply (IH (k + 1) Φ with "H"); [lia..|].
    iIntros "H". iSpecialize ("HΦ" with "H"). rewrite (bool_decide_ext _ _ Hsplit).
    by rewrite (bool_decide_ext (_ ∧ _) (zrange (8 * (k + 1)) (8 * Z.of_nat len) ## A)); [|tauto].
  - wp_steps. rewrite bool_decide_eq_false_2; [by iApply "HΦ"|]. tauto.
Qed.

Lemma mem_is_zero_spec p n A k len Φ :
  0 ≤ k → 0 ≤ len < 2^64 → k + len ≤ Z.of_nat n →
  bits_at p n A -∗
  (bits_at p n A -∗ Φ (if decide (zrange (8 * k) (8 * len) ## A) then 1 else 0)) -∗
  wp (ext2fs_mem_is_zero (p + k) len) Φ.
Proof.
  unfold ext2fs_mem_is_zero. remember (Z.to_nat len) as m eqn:Hm. revert k len Hm.
  induction (lt_wf m) as [m _ IH]. iIntros (k len Hm Hk Hl Hn) "H HΦ". wp_loop mem_is_zero_step.
  decide_case (256 ≤ len) as H256.
  - assert (Hsplit := zrange_split_disjoint (8 * k) (8 * 256) (8 * len) A ltac:(lia)).
    replace (8 * k + 8 * 256) with (8 * (k + 256)) in Hsplit by lia.
    replace (8 * len - 8 * 256) with (8 * (len - 256)) in Hsplit by lia.
    wp_apply (memcmp_zero_spec with "H"); [lia..|]. iIntros "H".
    change (Z.of_nat 256) with 256.
    decide_case (zrange (8 * k) (8 * 256) ## A) as Hd.
    + wrap. wp_steps. replace (p + k + 256) with (p + (k + 256)) by lia.
      iApply (IH with "H"); [|done|lia..|]; [lia|]. iIntros "H". iSpecialize ("HΦ" with "H").
      by rewrite (decide_ext _ (zrange (8 * (k + 256)) (8 * (len - 256)) ## A)); [|tauto].
    + wp_steps. rewrite decide_False; [by iApply "HΦ"|tauto].
  - decide_case (len ≠ 0) as H0.
    + wp_apply (memcmp_zero_spec with "H"); [lia..|]. iIntros "H". rewrite Z2Nat.id; [|lia].
      wp_steps. case_bool_decide; [rewrite decide_True //|rewrite decide_False //]; by iApply "HΦ".
    + wp_steps. rewrite decide_True; [by iApply "HΦ"|]. rewrite zrange_empty; [set_solver|lia].
Qed.

(** The masks of the first and of the last byte. *)
Lemma or_bits_testbit count bit acc i :
  0 ≤ i → Z.of_nat count ≤ bit + 1 →
  Z.testbit (or_bits count bit acc) i =
  Z.testbit acc i || bool_decide (bit - Z.of_nat count < i ≤ bit).
Proof.
  intros Hi. revert bit acc. induction count as [|count IH]; intros bit acc Hc; simpl.
  - rewrite bool_decide_eq_false_2; [by rewrite orb_false_r|lia].
  - rewrite IH; [|lia]. rewrite Z.lor_spec Z.shiftl_1_l Z.pow2_bits_eqb; [|lia].
    rewrite -orb_assoc. f_equal. apply eq_bool_prop_intro. rewrite orb_True !bool_decide_spec.
    destruct (Z.eqb_spec bit i); simpl; intuition lia.
Qed.

Lemma mask_disjoint b k A count bit :
  (∀ i, 0 ≤ i < 8 → (Z.testbit b i = true ↔ 8 * k + i ∈ A)) →
  Z.of_nat count ≤ bit + 1 → bit < 8 →
  Z.land (or_bits count bit 0) b = 0 ↔ zrange (8 * k + bit + 1 - Z.of_nat count) (Z.of_nat count) ## A.
Proof.
  intros HB Hc Hb. split.
  - intros Hl x Hx%elem_of_zrange HxA. specialize (HB (x - 8 * k)).
    replace (8 * k + (x - 8 * k)) with x in HB by lia. apply HB in HxA; [|lia].
    assert (Z.testbit (Z.land (or_bits count bit 0) b) (x - 8 * k) = true) as Ht; [|by rewrite Hl Z.bits_0 in Ht].
    rewrite Z.land_spec or_bits_testbit; [|lia..].
    by rewrite Z.bits_0 bool_decide_eq_true_2; [|lia].
  - intros Hd. apply Z.bits_inj'. intros i Hi. rewrite Z.bits_0 Z.land_spec or_bits_testbit // Z.bits_0 /=.
    case_bool_decide as Hin; [|done]. simpl. destruct (Z.testbit b i) eqn:Ht; [|done].
    apply HB in Ht; [|lia]. destruct (Hd (8 * k + i)); [|done]. apply elem_of_zrange. lia.
Qed.

Lemma test_clear_tail_spec arr n A q j r Φ :
  0 ≤ q → 0 ≤ j → 0 ≤ r < 8 → q + j < 2^63 → 8 * q + 8 * j + r ≤ 8 * Z.of_nat n →
  bits_at arr n A -∗
  (bits_at arr n A -∗ Φ (if decide (zrange (8 * q) (8 * j + r) ## A) then 1 else 0)) -∗
  wp (test_clear_tail arr q j r) Φ.
Proof.
  iIntros (Hq Hj Hr Hqj Hn) "H HΦ". unfold test_clear_tail.
  assert (Hsplit := zrange_split_disjoint (8 * q) (8 * j) (8 * j + r) A ltac:(lia)).
  replace (8 * j + r - 8 * j) with r in Hsplit by lia.
  decide_case (r ≠ 0) as Hr0.
  - wrap. wp_apply (wp_load_bits with "H"); [lia|]. iIntros (b [Hb HB]) "H".
    pose proof (mask_disjoint b _ A (Z.to_nat r) (r - 1) HB ltac:(lia) ltac:(lia)) as Hm.
    rewrite Z2Nat.id in Hm; [|lia].
    replace (8 * (q + j) + (r - 1) + 1 - r) with (8 * q + 8 * j) in Hm by lia.
    set (m := Z.land (or_bits (Z.to_nat r) (r - 1) 0) b) in *. clearbody m.
    decide_case (m ≠ 0) as Hne; [|decide_case (j = 0) as Hj0].
    + wp_steps. rewrite decide_False; [by iApply "HΦ"|]. tauto.
    + wp_steps. rewrite decide_True; [by iApply "HΦ"|]. apply Hsplit. split; [|assert (m = 0) by lia; tauto].
      rewrite zrange_empty; [set_solver|lia].
    + wp_steps. iApply (mem_is_zero_spec with "H"); [lia..|]. iIntros "H".
      iSpecialize ("HΦ" with "H").
      by rewrite (decide_ext _ (zrange (8 * q) (8 * j) ## A)); [|assert (m = 0) by lia; tauto].
  - wp_steps. iApply (mem_is_zero_spec with "H"); [lia..|]. iIntros "H".
    iSpecialize ("HΦ" with "H"). by replace (8 * j + r) with (8 * j) by lia.
Qed.

Lemma ba_bits_disjoint bm A arg num :
  b_start bm ≤ arg → arg + num ≤ b_real_end bm + 1 →
  zrange (arg - b_start bm) num ## A ↔ zrange arg num ## ba_bits bm A.
Proof.
  intros Ha He. split; intros Hd x Hx%elem_of_zrange Hx'.
  - apply elem_of_ba_bits in Hx' as [Hx' _]. apply (Hd (x - b_start bm)); [|done].
    apply elem_of_zrange. lia.
  - apply (Hd (x + b_start bm)); [apply elem_of_zrange; lia|]. apply elem_of_ba_bits.
    split; [|lia]. by replace (x + b_start bm - b_start bm) with x by lia.
Qed.

Lemma test_clear_bits_spec arr n A start num Φ :
  0 ≤ start → 0 ≤ num < 2^32 → start + num ≤ 8 * Z.of_nat n → start + num < 2^64 →
  bits_at arr n A -∗
  (bits_at arr n A -∗ Φ (if decide (zrange start num ## A) then 1 else 0)) -∗
  wp (test_clear_bits arr start num) Φ.
Proof.
  iIntros (Hst Hnum Hse Hse64) "Harr HΦ". unfold test_clear_bits.
  rewrite !shiftr3. pose proof (Z.div_mod start 8). pose proof (Z.mod_pos_bound start 8).
  set (sb := start mod 8) in *. set (q := start / 8) in *. clearbody sb q.
  decide_case (sb ≠ 0) as Hsb; last first.
  { pose proof (Z.div_mod num 8). pose proof (Z.mod_pos_bound num 8).
    iApply (test_clear_tail_spec with "Harr"); [lia..|].
    by replace (8 * q) with start by lia; replace (8 * (num / 8) + num mod 8) with num by lia. }
  rewrite (u32_small (8 - sb)); [|lia].
  set (mm := if bool_decide (num < 8 - sb) then _ else _).
  assert (Hmm : mm = (Z.min num (8 - sb), sb + Z.min num (8 - sb) - 1)).
  { unfold mm. case_bool_decide; [rewrite s32_small; [|lia]|]; f_equal; [lia| |lia..].
    destruct (decide (num = 0)) as [->|]; [|wrap; lia].
    rewrite (u32_small (0 + sb)); [|lia]. rewrite u32_small; [|lia]. rewrite s32_small; lia. }
  rewrite Hmm. cbn [fst snd]. clear mm Hmm. set (mc := Z.min num (8 - sb)).
  assert (Hmc : 0 ≤ mc ≤ num ∧ mc ≤ 8 - sb ∧ (mc = num ∨ mc = 8 - sb)) by lia. 
  wp_apply (wp_load_bits with "Harr"); [lia|]. iIntros (b [Hb HB]) "Harr".
  pose proof (mask_disjoint b _ A (Z.to_nat mc) (sb + mc - 1) HB ltac:(lia) ltac:(lia)) as Hm.
  rewrite Z2Nat.id in Hm; [|lia].
  replace (8 * q + (sb + mc - 1) + 1 - mc) with start in Hm by lia.
  assert (Hsplit := zrange_split_disjoint start mc num A ltac:(lia)).
  set (m := Z.land (or_bits (Z.to_nat mc) (sb + mc - 1) 0) b) in *. clearbody m.
  assert (Hle : num ≤ 8 - sb ↔ mc = num) by lia. assert (mc < num → mc = 8 - sb) by lia.
  clearbody mc.
  decide_case (m ≠ 0) as Hne; [|decide_case (num ≤ 8 - sb) as Hn0].
  - wp_steps. rewrite decide_False; [by iApply "HΦ"|]. tauto.
  - wp_steps. rewrite decide_True; [by iApply "HΦ"|]. apply Hsplit. split; [assert (m = 0) by lia; tauto|].
    rewrite zrange_empty; [set_solver|lia].
  - wrap.
    pose proof (Z.div_mod (num - mc) 8). pose proof (Z.mod_pos_bound (num - mc) 8).
    iApply (test_clear_tail_spec with "Harr"); [lia..|]. iIntros "Harr".
    iSpecialize ("HΦ" with "Harr").
    replace (8 * (q + 1)) with (start + mc) by lia.
    replace (8 * ((num - mc) / 8) + (num - mc) mod 8) with (num - mc) by lia.
    rewrite (decide_ext _ (zrange (start + mc) (num - mc) ## A)); [done|assert (m = 0) by lia; tauto].
Qed.

Lemma ba_test_clear_spec bm B arg num Φ :
  b_start bm ≤ arg → 0 ≤ num < 2^32 → arg + num ≤ b_real_end bm + 1 →
  ba_bm_at bm B -∗
  (∀ v, ⌜(v = 0 ∨ v = 1) ∧ (v = 1 ↔ zrange arg num ## B)⌝ -∗ ba_bm_at bm B -∗ Φ v) -∗
  wp (ba_test_clear_bmap_extent bm arg num) Φ.
Proof.
  iIntros (Ha Hnum He) "(%arr & %A & (%Hok & ->) & %Hp & Hbp & Harr) HΦ".
  pose proof (ba_len_bounds _ Hok) as Hlen. pose proof Hok as (? & ? & ? & ?).
  unfold ba_test_clear_bmap_extent. wp_load. rewrite (u64_small (arg - b_start bm)); [|lia].
  pose proof (ba_bits_disjoint bm A arg num Ha He) as Hdis.
  iApply (test_clear_bits_spec with "Harr"); [lia..|]. iIntros "Harr". iApply ("HΦ" with "[%]").
  - case_decide; split; try (by left); try (by right); rewrite -Hdis; split; done || tauto.
  - iApply (ba_bm_at_intro _ _ arr A); [done..|]. by iFrame.
Qed.

(** ** Searching *)
Definition none (P : Z → Prop) (lo hi : Z) : Prop := ∀ x, lo ≤ x < hi → ¬ P x.

Lemma none_app P lo mid hi : none P lo mid → none P mid hi → none P lo hi.
Proof. intros H1 H2 x Hx. destruct (decide (x < mid)); [apply H1|apply H2]; lia. Qed.

Lemma none_empty P lo hi : hi ≤ lo → none P lo hi.
Proof. intros ? x ?. lia. Qed.

Lemma none_step P lo hi : ¬ P lo → none P (lo + 1) hi → none P lo hi.
Proof. intros H1 H2 x Hx. destruct (decide (x = lo)) as [->|]; [done|apply H2; lia]. Qed.

(** [0x0101...], [k] bytes. *)
Fixpoint le_ones (k : nat) : Z := match k with O => 0 | S k' => 1 + 256 * le_ones k' end.

(** The constants of a scan fit what it looks for. *)
Definition scan_for (sk : scan_kind) (A : gset Z) (P : Z → Prop) : Prop :=
  (∀ x, sk_hit sk (mask_of A x) = true ↔ P x) ∧
  (∀ k, (∀ i, 0 ≤ i < 8 → Z.testbit (sk_byte sk) i = true ↔ 8 * k + i ∈ A) →
     none P (8 * k) (8 * k + 8)) ∧
  0 ≤ sk_byte sk < 256 ∧ sk_word sk = sk_byte sk * le_ones 8.

Lemma scan_for_zero A : scan_for scan_zero A (λ x, x ∉ A).
Proof.
  split; [|split; [|done]].
  - intros x. simpl. rewrite bool_decide_eq_true -mask_of_nonzero. lia.
  - intros k HA x Hx Hn. apply Hn. replace x with (8 * k + (x - 8 * k)) by lia.
    apply HA; [lia|]. change (sk_byte scan_zero) with (Z.ones 8). apply Z.ones_spec_low. lia.
Qed.

Lemma scan_for_set A : scan_for scan_set A (λ x, x ∈ A).
Proof.
  split; [|split; [|done]].
  - intros x. simpl. by rewrite bool_decide_eq_true mask_of_nonzero.
  - intros k HA x Hx Hin. replace x with (8 * k + (x - 8 * k)) in Hin by lia.
    apply HA in Hin; [|lia]. simpl in Hin. by rewrite Z.bits_0 in Hin.
Qed.

Section scan.
Context (sk : scan_kind) (arr : Z) (n : nat) (A : gset Z) (P : Z → Prop).
Context (Hsk : scan_for sk A P) (Hn : 8 * Z.of_nat n < 2^64 + 8).

Lemma scan_bits_spec bitpos count Φ :
  0 ≤ bitpos → 0 ≤ count → bitpos + count ≤ 8 * Z.of_nat n → bitpos + count < 2^64 →
  bits_at arr n A -∗
  ((∀ p, ⌜(bitpos ≤ p < bitpos + count ∧ P p ∧ none P bitpos p)%Z⌝ -∗ bits_at arr n A -∗ Φ (inl p)) ∧
   (∀ bp c, ⌜(bitpos ≤ bp ∧ bp + c = bitpos + count ∧ 0 ≤ c ∧ none P bitpos bp ∧
       (c = 0 ∨ bp mod 8 = 0))%Z⌝ -∗ bits_at arr n A -∗ Φ (inr (bp, c)))) -∗
  wp (loop (scan_bits_step sk arr) (bitpos, count)) Φ.
Proof using Hsk.
  destruct Hsk as [Hhit _].
  remember (Z.to_nat count) as m eqn:Hm. revert bitpos count Hm.
  induction m as [|m IH]; iIntros (bitpos count Hm Hb Hc Hend H64) "H HΦ";
    wp_loop scan_bits_step; rewrite land7.
  - rewrite bool_decide_eq_false_2; [|lia]. wp_steps. iDestruct "HΦ" as "[_ HΦ]".
    iApply ("HΦ" with "[%] H"). split_and!; [lia..|by apply none_empty|lia].
  - decide_case (bitpos mod 8 ≠ 0 ∧ 0 < count) as Hal; last first.
    { wp_steps. iDestruct "HΦ" as "[_ HΦ]". iApply ("HΦ" with "[%] H").
      split_and!; [lia..|by apply none_empty|lia]. }
    wp_apply (wp_test_bit64 with "H"); [lia|]. iIntros "H".
    destruct (sk_hit sk (mask_of A bitpos)) eqn:Hh; wp_steps.
    + iDestruct "HΦ" as "[HΦ _]". iApply ("HΦ" with "[%] H").
      split_and!; [lia..|by apply Hhit|by apply none_empty].
    + assert (¬ P bitpos) by (rewrite -Hhit Hh; done). wrap.
      iApply (IH with "H"); [lia..|]. iSplit.
      * iIntros (p (? & ? & ?)) "H". iDestruct "HΦ" as "[HΦ _]". iApply ("HΦ" with "[%] H").
        split_and!; [lia..|done|by apply none_step].
      * iIntros (bp c (? & ? & ? & ? & ?)) "H". iDestruct "HΦ" as "[_ HΦ]".
        iApply ("HΦ" with "[%] H"). split_and!; [lia..|by apply none_step|done].
Qed.

(** One byte at a byte boundary. *)
Lemma wp_scan_byte k Φ :
  0 ≤ k < Z.of_nat n →
  bits_at arr n A -∗
  (∀ b, ⌜(0 ≤ b < 256 ∧ (b = sk_byte sk → none P (8 * k) (8 * k + 8)))%Z⌝ -∗ bits_at arr n A -∗ Φ b) -∗
  wp (load (arr + k)) Φ.
Proof using Hsk.
  iIntros (Hk) "H HΦ". iApply (wp_load_bits with "H"); [done|]. iIntros (b [Hb HB]) "H".
  iApply ("HΦ" with "[%] H"). split; [done|]. intros ->. by apply Hsk.
Qed.

Lemma scan_bytes_spec k count Φ :
  0 ≤ k → 0 ≤ count → 8 * k + count ≤ 8 * Z.of_nat n → 8 * k + count < 2^64 →
  bits_at arr n A -∗
  (∀ f k' c, ⌜(k ≤ k' ∧ 8 * k' + c = 8 * k + count ∧ 0 ≤ c ∧ none P (8 * k) (8 * k'))%Z⌝ -∗
     bits_at arr n A -∗ Φ (f, (arr + k', c, 8 * k'))) -∗
  wp (loop (scan_bytes_step sk) (arr + k, count, 8 * k)) Φ.
Proof using Hsk.
  remember (Z.to_nat count) as m eqn:Hm. revert k count Hm.
  induction (lt_wf m) as [m _ IH]; iIntros (k count Hm Hk Hc Hend H64) "H HΦ";
    wp_loop scan_bytes_step.
  decide_case (8 ≤ count ∧ Z.land (arr + k) 7 ≠ 0) as H8; last first.
  { wp_steps. iApply ("HΦ" with "[%] H"). split_and!; [lia..|by apply none_empty]. }
  wp_apply (wp_scan_byte with "H"); [lia|]. iIntros (b [Hb Hnone]) "H".
  decide_case (b ≠ sk_byte sk) as Hne.
  - wp_steps. iApply ("HΦ" with "[%] H"). split_and!; [lia..|by apply none_empty].
  - wrap. wp_steps. replace (arr + k + 1) with (arr + (k + 1)) by lia.
    replace (8 * k + 8) with (8 * (k + 1)) in Hnone |- * by lia.
    iApply (IH with "H"); [|done|lia..|]; [lia|]. iIntros (f k' c (? & ? & ? & ?)) "H".
    iApply ("HΦ" with "[%] H"). split_and!; [lia..|]. eapply none_app; [apply Hnone; lia|done].
Qed.

(** A word is skipped only when all its bytes could be. *)
Lemma load_le_spec j k Φ :
  0 ≤ k → k + Z.of_nat j ≤ Z.of_nat n →
  bits_at arr n A -∗
  (∀ w, ⌜(w = sk_byte sk * le_ones j → none P (8 * k) (8 * (k + Z.of_nat j)))%Z⌝ -∗
     bits_at arr n A -∗ Φ w) -∗
  wp (load_le j (arr + k)) Φ.
Proof using Hsk.
  pose proof Hsk as (_ & _ & Hby & _). revert k Φ.
  induction j as [|j IH]; iIntros (k Φ Hk Hj) "H HΦ"; unfold load_le; fold load_le.
  - wp_steps. iApply ("HΦ" with "[%] H"). intros _. apply none_empty. lia.
  - wp_apply (wp_scan_byte with "H"); [lia|]. iIntros (b [Hb Hnone]) "H".
    replace (arr + k + 1) with (arr + (k + 1)) by lia.
    wp_apply (IH with "H"); [lia..|]. iIntros (w Hw) "H". wp_steps.
    iApply ("HΦ" with "[%] H"). cbn [le_ones]. intros Heq.
    assert (b = sk_byte sk ∧ w = sk_byte sk * le_ones j) as [??] by lia.
    eapply none_app; [by apply Hnone|]. replace (8 * k + 8) with (8 * (k + 1)) by lia.
    replace (k + Z.of_nat (S j)) with (k + 1 + Z.of_nat j) by lia. by apply Hw.
Qed.

Lemma scan_word_spec k i Φ :
  0 ≤ k → 0 ≤ i < 2^64 → k + 8 * i ≤ Z.of_nat n →
  bits_at arr n A -∗
  (∀ j, ⌜(0 ≤ j ≤ i ∧ none P (8 * k) (8 * (k + 8 * j)))%Z⌝ -∗
     bits_at arr n A -∗ Φ (arr + (k + 8 * j), i - j)) -∗
  wp (loop (scan_word_step sk) (arr + k, i)) Φ.
Proof using Hsk.
  remember (Z.to_nat i) as m eqn:Hm. revert k i Hm.
  induction m as [|m IH]; iIntros (k i Hm Hk Hi Hend) "H HΦ"; wp_loop scan_word_step.
  - rewrite bool_decide_eq_true_2; [|lia]. wp_steps. iSpecialize ("HΦ" $! 0).
    replace (arr + (k + 8 * 0)) with (arr + k) by lia. rewrite Z.sub_0_r.
    iApply ("HΦ" with "[%] H"). split; [lia|apply none_empty; lia].
  - rewrite bool_decide_eq_false_2; [|lia].
    wp_apply (load_le_spec 8 with "H"); [lia..|]. iIntros (w Hw) "H".
    pose proof Hsk as (_ & _ & _ & Hword). rewrite -Hword in Hw.
    decide_case (w ≠ sk_word sk) as Hne.
    + wp_steps. iSpecialize ("HΦ" $! 0).
      replace (arr + (k + 8 * 0)) with (arr + k) by lia. rewrite Z.sub_0_r.
      iApply ("HΦ" with "[%] H"). split; [lia|apply none_empty; lia].
    + wrap. wp_steps. replace (arr + k + 8) with (arr + (k + 8)) by lia.
      iApply (IH with "H"); [lia..|]. iIntros (j [Hj Hnone]) "H". iSpecialize ("HΦ" $! (j + 1)).
      replace (k + 8 * (j + 1)) with (k + 8 + 8 * j) by lia.
      replace (i - (j + 1)) with (i - 1 - j) by lia.
      iApply ("HΦ" with "[%] H"). split; [lia|]. eapply none_app; [apply Hw; lia|done].
Qed.

Lemma scan_byte_spec k i Φ :
  0 ≤ k → 0 ≤ i < 2^64 → k + i ≤ Z.of_nat n →
  bits_at arr n A -∗
  (∀ j, ⌜(0 ≤ j ≤ i ∧ none P (8 * k) (8 * (k + j)))%Z⌝ -∗
     bits_at arr n A -∗ Φ (arr + (k + j), i - j)) -∗
  wp (loop (scan_byte_step sk) (arr + k, i)) Φ.
Proof using Hsk.
  remember (Z.to_nat i) as m eqn:Hm. revert k i Hm.
  induction m as [|m IH]; iIntros (k i Hm Hk Hi Hend) "H HΦ"; wp_loop scan_byte_step.
  - rewrite bool_decide_eq_true_2; [|lia]. wp_steps. iSpecialize ("HΦ" $! 0).
    rewrite Z.add_0_r Z.sub_0_r.
    iApply ("HΦ" with "[%] H"). split; [lia|apply none_empty; lia].
  - rewrite bool_decide_eq_false_2; [|lia].
    wp_apply (wp_scan_byte with "H"); [lia..|]. iIntros (b [Hb Hnone]) "H".
    decide_case (b ≠ sk_byte sk) as Hne.
    + wp_steps. iSpecialize ("HΦ" $! 0). rewrite Z.add_0_r Z.sub_0_r.
      iApply ("HΦ" with "[%] H"). split; [lia|apply none_empty; lia].
    + wrap. wp_steps. replace (arr + k + 1) with (arr + (k + 1)) by lia.
      iApply (IH with "H"); [lia..|]. iIntros (j [Hj Hn1]) "H". iSpecialize ("HΦ" $! (j + 1)).
      replace (k + (j + 1)) with (k + 1 + j) by lia.
      replace (i - (j + 1)) with (i - 1 - j) by lia.
      iApply ("HΦ" with "[%] H"). split; [lia|]. eapply none_app; [apply Hnone; lia|].
      by replace (8 * k + 8) with (8 * (k + 1)) by lia.
Qed.

Lemma scan_rest_spec bitpos count Φ :
  0 ≤ bitpos → 0 ≤ count → bitpos + count ≤ 8 * Z.of_nat n → bitpos + count < 2^64 →
  bits_at arr n A -∗
  (∀ r, ⌜match r with
         | Some p => (bitpos ≤ p < bitpos + count)%Z ∧ P p ∧ none P bitpos p
         | None => none P bitpos (bitpos + count)%Z
         end⌝ -∗ bits_at arr n A -∗ Φ r) -∗
  wp (loop (scan_rest_step sk arr) (bitpos, count)) Φ.
Proof using Hsk.
  destruct Hsk as [Hhit _].
  remember (Z.to_nat count) as m eqn:Hm. revert bitpos count Hm.
  induction m as [|m IH]; iIntros (bitpos count Hm Hb Hc Hend H64) "H HΦ";
    wp_loop scan_rest_step.
  - rewrite bool_decide_eq_false_2; [|lia]. wp_steps.
    iApply ("HΦ" with "[%] H"). apply none_empty. lia.
  - rewrite bool_decide_eq_true_2; [|lia].
    wp_apply (wp_test_bit64 with "H"); [lia|]. iIntros "H".
    destruct (sk_hit sk (mask_of A bitpos)) eqn:Hh; wp_steps.
    + iApply ("HΦ" with "[%] H"). split_and!; [lia..|by apply Hhit|by apply none_empty].
    + assert (¬ P bitpos) by (rewrite -Hhit Hh; done). wrap.
      iApply (IH with "H"); [lia..|]. iIntros (r Hr) "H". iApply ("HΦ" with "[%] H").
      destruct r as [p|].
      * destruct Hr as (? & ? & ?). split_and!; [lia..|done|by apply none_step].
      * replace (bitpos + 1 + (count - 1)) with (bitpos + count) in Hr by lia. by apply none_step.
Qed.
End scan.

Lemma ba_find_first_gen sk bm arr A P s e Φ :
  bounds_ok bm → scan_for sk A P → b_start bm ≤ s ≤ e → e ≤ b_real_end bm →
  ba_array bm arr A -∗
  (∀ r, ⌜is_first (λ x, P (x - b_start bm)) s e r⌝ -∗ ba_array bm arr A -∗ Φ r) -∗
  wp (ba_find_first sk bm s e) Φ.
Proof.
  iIntros (Hok Hsk Hs He) "(%Hp & Hbp & H) HΦ".
  pose proof (ba_len_bounds _ Hok) as Hlen. pose proof Hok as (? & ? & ? & ?).
  unfold ba_find_first. wp_load. rewrite (u64_small (s - b_start bm)); [|lia].
  rewrite (u64_small (e - s)); [|lia]. rewrite (u64_small (e - s + 1)); [|lia].
  set (a := b_start bm) in *. set (s0 := s - a). set (e0 := e - a).
  replace (e - s + 1) with (e0 + 1 - s0) by lia.
  (* how the search ends *)
  iAssert (∀ r, ⌜match r with
      | Some p => (s0 ≤ p ≤ e0)%Z ∧ P p ∧ none P s0 p
      | None => none P s0 (e0 + 1)%Z end⌝ -∗
    ba_bitarray (b_private bm) ↦ arr -∗ bits_at arr (ba_len bm) A -∗
    wp (match r with
        | Some bitpos => mret (E_OK, u64 (bitpos + a))
        | None => mret (ENOENT, 0) end) Φ)%I with "[HΦ]" as "Hend".
  { iIntros (r Hr) "Hbp H". destruct r as [p|]; wp_steps.
    - destruct Hr as (? & ? & Hnone). wrap. iApply ("HΦ" with "[%]"); [|by iFrame].
      left. simpl. replace (p + a - a) with p by lia. split_and!; [done|lia..|done|].
      intros x Hx. apply Hnone. lia.
    - iApply ("HΦ" with "[%]"); [|by iFrame]. right. split; [done|]. intros x Hx. apply Hr. lia. }
  assert (0 ≤ s0 ≤ e0 ∧ e0 + 1 ≤ 8 * Z.of_nat (ba_len bm) ∧ e0 + 1 < 2^64) by lia.
  clearbody s0 e0 a.
  assert (Hn : 8 * Z.of_nat (ba_len bm) < 2^64 + 8) by lia.
  iApply wp_bind. iApply (scan_bits_spec with "H"); [done|lia..|]. iSplit.
  { iIntros (p (? & ? & ?)) "H". iApply ("Hend" $! (Some p) with "[%] Hbp H").
    split_and!; [lia..|done|done]. }
  iIntros (bp c (Hb1 & Hb2 & Hb3 & Hnone & Hal)) "H".
  decide_case (c = 0) as Hc0.
  { iApply ("Hend" $! None with "[%] Hbp H"). by replace (e0 + 1) with bp by lia. }
  destruct Hal as [?|Hal]; [lia|]. rewrite shiftr3.
  assert (∃ k, bp = 8 * k) as [k ->].
  { exists (bp / 8). pose proof (Z.div_mod bp 8). lia. }
  rewrite (Z.mul_comm 8 k) Z.div_mul // (Z.mul_comm k 8).
  iApply wp_bind. iApply (scan_bytes_spec with "H"); [done|lia..|].
  iIntros (f k' c' (Hk1 & Hk2 & Hk3 & Hnone2)) "H".
  pose proof (none_app _ _ _ _ Hnone Hnone2) as Hnone'. clear Hnone Hnone2 Hc0.
  iApply wp_bind. iApply (wp_wand _ (λ st, ∃ bp c, ⌜(st = (bp, c) ∧ 8 * k' ≤ bp ∧ bp + c = e0 + 1 ∧
      0 ≤ c)%Z ∧ none P s0 bp⌝ ∗ bits_at arr (ba_len bm) A)%I with "[H]").
  { destruct f.
    { wp_steps. iExists (8 * k'), c'. iFrame. iPureIntro. split; [split_and!; [done|lia..]|done]. }
    rewrite !Z.shiftr_div_pow2 //. change (2^6) with 64. change (2^3) with 8.
    pose proof (Z.div_mod c' 64). pose proof (Z.mod_pos_bound c' 64).
    iApply wp_bind. iApply (scan_word_spec with "H"); [done|lia..|].
    iIntros (j [Hj Hnj]) "H". cbn [fst snd].
    replace (c' / 64 - (c' / 64 - j)) with j by lia. wrap.
    rewrite Z.shiftr_div_pow2 //. change (2^3) with 8.
    pose proof (Z.div_mod (c' - 64 * j) 8). pose proof (Z.mod_pos_bound (c' - 64 * j) 8).
    iApply wp_bind. iApply (scan_byte_spec with "H"); [done|lia..|].
    iIntros (j' [Hj' Hnj']) "H". cbn [fst snd].
    replace ((c' - 64 * j) / 8 - ((c' - 64 * j) / 8 - j')) with j' by lia. wrap. wp_steps.
    iExists _, _. iFrame. iPureIntro. split; [split_and!; [done|lia..]|].
    eapply none_app; [exact Hnone'|]. eapply none_app; [exact Hnj|].
    by replace (8 * k' + 64 * j + 8 * j') with (8 * (k' + 8 * j + j')) by lia. }
  iIntros (st) "(%bp & %c2 & [%Hst %Hnn] & H)".
  destruct Hst as (-> & ? & ? & ?).
  iApply wp_bind. iApply (scan_rest_spec with "H"); [done|lia..|].
  iIntros (r Hr) "H". iApply ("Hend" with "[%] Hbp H"). destruct r as [p|].
  - destruct Hr as (? & ? & ?). split_and!; [lia..|done|]. by eapply none_app.
  - eapply none_app; [done|]. by replace (e0 + 1) with (bp + c2) by lia.
Qed.

Lemma is_first_ext P Q s e r :
  (∀ x, s ≤ x ≤ e → P x ↔ Q x) → is_first P s e r → is_first Q s e r.
Proof.
  intros HPQ [(H1 & H2 & H3 & H4)|[H1 H2]]; [left|right].
  - split_and!; [done|lia|lia| |].
    + by apply HPQ.
    + intros x Hx. rewrite -HPQ; [by apply H4|lia].
  - split; [done|]. intros x Hx. rewrite -HPQ; auto.
Qed.

Lemma ba_find_first_zero_spec bm B s e Φ :
  b_start bm ≤ s ≤ e → e ≤ b_real_end bm →
  ba_bm_at bm B -∗
  (∀ r, ⌜is_first (λ x, x ∉ B) s e r⌝ -∗ ba_bm_at bm B -∗ Φ r) -∗
  wp (ba_find_first_zero bm s e) Φ.
Proof.
  iIntros (Hs He) "(%arr & %A & (%Hok & ->) & H) HΦ".
  iApply (ba_find_first_gen with "H"); [done|apply scan_for_zero|done..|].
  iIntros (r Hr) "H". iApply ("HΦ" with "[%]"); [|by iApply (ba_bm_at_intro with "H")].
  eapply is_first_ext; [|exact Hr]. intros x Hx. simpl. rewrite elem_of_ba_bits. intuition lia.
Qed.

Lemma ba_find_first_set_spec bm B s e Φ :
  b_start bm ≤ s ≤ e → e ≤ b_real_end bm →
  ba_bm_at bm B -∗
  (∀ r, ⌜is_first (λ x, x ∈ B) s e r⌝ -∗ ba_bm_at bm B -∗ Φ r) -∗
  wp (ba_find_first_set bm s e) Φ.
Proof.
  iIntros (Hs He) "(%arr & %A & (%Hok & ->) & H) HΦ".
  iApply (ba_find_first_gen with "H"); [done|apply scan_for_set|done..|].
  iIntros (r Hr) "H". iApply ("HΦ" with "[%]"); [|by iApply (ba_bm_at_intro with "H")].
  eapply is_first_ext; [|exact Hr]. intros x Hx. simpl. rewrite elem_of_ba_bits. intuition lia.
Qed.

(** The bit arrays keep the contract. *)
#[export] Instance ba_bitmap_impl : BitmapImpl ext2fs_blkmap64_bitarray.
Proof.
  refine {| bm_at := ba_bm_at |}; simpl.
  - iIntros (bm B) "(%arr & %A & (%Hok & ->) & _)". iPureIntro. split; [done|].
    unfold ba_bits. set_solver.
  - iIntros (bm Hok Φ) "_ HΦ". iApply ba_new_spec; [done|]. iSplit.
    + iIntros (p) "H". iApply "HΦ". iLeft. by iFrame.
    + iIntros (Hf). iApply "HΦ". by iRight.
  - iIntros (bm B Φ) "H HΦ". iApply (ba_free_spec with "H"). by iApply "HΦ".
  - iIntros (src dst B ??? Φ) "H HΦ". iApply (ba_copy_spec with "H"); [done..|].
    iIntros "H". iSplit.
    + iIntros (p) "H'". iApply "HΦ". iFrame "H". iLeft. by iFrame.
    + iIntros (Hf). iApply "HΦ". iFrame "H". by iRight.
  - iIntros (bm B arg Harg Φ) "H HΦ". iApply (ba_mark_spec with "H"); [done|].
    iIntros (v Hv) "H". iApply "HΦ". by iFrame.
  - iIntros (bm B arg Harg Φ) "H HΦ". iApply (ba_unmark_spec with "H"); [done|].
    iIntros (v Hv) "H". iApply "HΦ". iFrame. iPureIntro. rewrite Hv. naive_solver.
  - iIntros (bm B arg Harg Φ) "H HΦ". iApply (ba_test_spec with "H"); [done|].
    iIntros (v Hv) "H". iApply "HΦ". by iFrame.
  - iIntros (bm B arg num ??? Φ) "H HΦ". iApply (ba_mark_extent_spec with "H"); [done..|].
    iIntros "H". by iApply "HΦ".
  - iIntros (bm B arg num ??? Φ) "H HΦ". iApply (ba_unmark_extent_spec with "H"); [done..|].
    iIntros "H". by iApply "HΦ".
  - iIntros (bm B arg num ??? Φ) "H HΦ". iApply (ba_test_clear_spec with "H"); [done..|].
    iIntros (v Hv) "H". iApply "HΦ". by iFrame.
  - iIntros (bm B Φ) "H HΦ". iApply (ba_clear_spec with "H"). iIntros "H". by iApply "HΦ".
  - iIntros (bm B s e f [= <-] ?? Φ) "H HΦ". iApply (ba_find_first_zero_spec with "H"); [done..|].
    iIntros (r Hr) "H". iApply "HΦ". by iFrame.
  - done.
  - iIntros (bm B s e f [= <-] ?? Φ) "H HΦ". iApply (ba_find_first_set_spec with "H"); [done..|].
    iIntros (r Hr) "H". iApply "HΦ". by iFrame.
  - iIntros (bm B ne nre Hok Hg Φ) "H HΦ". iApply (ba_resize_spec with "H"); [done..|]. iSplit.
    + iIntros (B' HB') "H". iApply "HΦ". iLeft. iSplit; [done|]. iExists B'. by iFrame.
    + iIntros (B' Hf) "H". iApply "HΦ". iRight. iSplit; [done|]. by iExists B'.
  - iIntros (bm B e He) "(%arr & %A & (%Hok & ->) & Harr)". destruct Hok as (? & ? & ? & ?).
    iExists arr, A. iSplit; [|iExact "Harr"]. iPureIntro. split; [unfold bounds_ok; simpl; lia|done].
  - iIntros (bm B s num inp n I Hr HI Hd Φ) "[H Hin] HΦ".
    iApply (ba_set_range_spec with "H Hin"); [done..|]. iIntros "H Hin". iApply "HΦ". by iFrame.
  - iIntros (bm B s num out n Hr HB Φ) "[H Hout] HΦ".
    iApply (ba_get_range_spec with "H Hout"); [done..|].
    iIntros (O HO) "H Hout". iApply "HΦ". iFrame. by iPureIntro.
Defined.
End blkmap_ba.
