(* ===== verification/GenBitmap.v ===== *)
(** * GenBitmap: lib/ext2fs/gen_bitmap.c, gen_bitmap64.c and bitmaps.c

    The bitmaps that the rest of the program uses: a bitmap of the old kind
    (32-bit positions, a bit array) or of the new one (64-bit positions, a
    table of methods), told apart by the magic number in their first field.
    The functions of each interface accept both kinds.

    A bitmap is the value of its structure, passed to the functions and
    returned by those that change it; the structure's own memory, its
    description and the bits are blocks of the memory.  Warnings
    ([ext2fs_warn_bitmap] and the like) only print and are left out, as are
    the statistics of an [ENABLE_BMAP_STATS] build, the [fs] field (it is
    copied, never read) and [base_error_code] (it is only printed).

    The two interfaces call each other.  A call of a [generic_bitmap] function
    on a 64-bit bitmap passes it to the [generic_bmap] function, whose branch
    for 64-bit bitmaps does the work; that branch is a definition of its own
    here ([bmap64_test] and so on), which both functions use. *)
From S2P Require Import Prelude.
From S2P Require Import Bytes.
From S2P Require Import Super.
From S2P Require Import Blknum.
From S2P Require Import Mem.
From S2P Require Import SepLogic.
From S2P Require Import ExtMem.
From S2P Require Import BitOps.
From S2P Require Import Bitmap.
From S2P Require Import BlkmapRB.
From S2P Require Import BlkmapBA.
#[local] Open Scope Z_scope.

(** ** The structures *)

(** A description: where it is, the size of its block, and the text. *)
Record description := Descr { d_addr : Z; d_size : nat; d_text : list Z }.

(** [struct ext2fs_struct_generic_bitmap_32]; [m32_size] is what the
    allocator knows of the block of [bitmap]. *)
Record bitmap32 := Bitmap32 {
  m32_addr : Z;
  m32_magic : errcode;
  m32_start : Z;
  m32_end : Z;
  m32_real_end : Z;
  m32_descr : option description;
  m32_bitmap : Z;
  m32_size : nat;
}.

(** [struct ext2fs_struct_generic_bitmap_64] *)
Record bitmap64 := Bitmap64 {
  m64_addr : Z;
  m64_magic : errcode;
  m64_ops : ext2_bitmap_ops;
  m64_bmap : bmap64;
  m64_cluster_bits : Z;
  m64_descr : option description;
}.

(** The size of both structures, in words. *)
Definition bitmap_words : nat := 11.

Inductive generic_bitmap :=
  | NullBitmap
  | IsBitmap32 (bm : bitmap32)
  | IsBitmap64 (bm : bitmap64).

Definition set_end32 (bm : bitmap32) (e : Z) : bitmap32 :=
  Bitmap32 (m32_addr bm) (m32_magic bm) (m32_start bm) e (m32_real_end bm) (m32_descr bm)
    (m32_bitmap bm) (m32_size bm).

Definition set_array32 (bm : bitmap32) (e re p : Z) (size : nat) : bitmap32 :=
  Bitmap32 (m32_addr bm) (m32_magic bm) (m32_start bm) e re (m32_descr bm) p size.

Definition set_bmap (bm : bitmap64) (b : bmap64) : bitmap64 :=
  Bitmap64 (m64_addr bm) (m64_magic bm) (m64_ops bm) b (m64_cluster_bits bm) (m64_descr bm).

Definition set_cluster_bits (bm : bitmap64) (c : Z) : bitmap64 :=
  Bitmap64 (m64_addr bm) (m64_magic bm) (m64_ops bm) (m64_bmap bm) c (m64_descr bm).

Definition EXT2FS_IS_32_BITMAP (magic : errcode) : bool :=
  bool_decide (magic = EXT2_ET_MAGIC_GENERIC_BITMAP ∨ magic = EXT2_ET_MAGIC_BLOCK_BITMAP ∨
               magic = EXT2_ET_MAGIC_INODE_BITMAP).

Definition EXT2FS_IS_64_BITMAP (magic : errcode) : bool :=
  bool_decide (magic = EXT2_ET_MAGIC_GENERIC_BITMAP64 ∨ magic = EXT2_ET_MAGIC_BLOCK_BITMAP64 ∨
               magic = EXT2_ET_MAGIC_INODE_BITMAP64).

(** The first field; the casts to one of the two structures, undefined when
    the structure is the other one. *)
Definition magic_of (gen : generic_bitmap) : M errcode :=
  match gen with
  | NullBitmap => m_fault
  | IsBitmap32 bm => mret (m32_magic bm)
  | IsBitmap64 bm => mret (m64_magic bm)
  end.

Definition as_bitmap32 (gen : generic_bitmap) : M bitmap32 :=
  match gen with IsBitmap32 bm => mret bm | _ => m_fault end.

Definition as_bitmap64 (gen : generic_bitmap) : M bitmap64 :=
  match gen with IsBitmap64 bm => mret bm | _ => m_fault end.

Definition is_null (gen : generic_bitmap) : bool :=
  match gen with NullBitmap => true | _ => false end.

(** [x & ~0xffffffffULL] *)
Definition above_32 (x : Z) : bool := bool_decide (Z.land x (2^64 - 2^32) ≠ 0).

(** ** Descriptions *)
Fixpoint store_bytes (p : Z) (bs : list Z) : M unit :=
  match bs with
  | [] => mret tt
  | b :: bs' => store p b ;; store_bytes (p + 1) bs'
  end.

(** Allocate [extra] bytes more than the text and copy the text with its NUL. *)
Definition new_description {ML : Malloc} (extra : nat) (prefix text : list Z) :
    M (errcode * option description) :=
  r ← ext2fs_get_mem 1 (length text + extra);
  if bool_decide (r.1 ≠ E_OK) then mret (r.1, None) else
  store_bytes r.2 (prefix ++ text ++ [0]) ;;
  mret (E_OK, Some (Descr r.2 (length text + extra) (prefix ++ text))).

Definition copy_description {ML : Malloc} (descr : option (list Z)) :
    M (errcode * option description) :=
  match descr with
  | Some text => new_description 1 [] text
  | None => mret (E_OK, None)
  end.

Definition free_description (d : option description) : M unit :=
  match d with
  | Some d => ext2fs_free_mem 1 (d_size d) (d_addr d)
  | None => mret tt
  end.

(** ** gen_bitmap64.c on a 64-bit bitmap *)
Definition bmap64_test (bm : bitmap64) (arg : Z) : M Z :=
  let arg := Z.shiftr arg (m64_cluster_bits bm) in
  let b := m64_bmap bm in
  if bool_decide (arg < b_start b ∨ b_end b < arg) then mret 0
  else test_bmap (m64_ops bm) b arg.

Definition bmap64_mark (bm : bitmap64) (arg : Z) : M Z :=
  let arg := Z.shiftr arg (m64_cluster_bits bm) in
  let b := m64_bmap bm in
  if bool_decide (arg < b_start b ∨ b_end b < arg) then mret 0
  else mark_bmap (m64_ops bm) b arg.

Definition bmap64_unmark (bm : bitmap64) (arg : Z) : M Z :=
  let arg := Z.shiftr arg (m64_cluster_bits bm) in
  let b := m64_bmap bm in
  if bool_decide (arg < b_start b ∨ b_end b < arg) then mret 0
  else unmark_bmap (m64_ops bm) b arg.

Definition bmap64_clear (bm : bitmap64) : M unit := clear_bmap (m64_ops bm) (m64_bmap bm).

(** ** gen_bitmap.c *)
Definition check_magic (bitmap : generic_bitmap) : M errcode :=
  if is_null bitmap then mret EXT2_ET_MAGIC_GENERIC_BITMAP else
  magic ← magic_of bitmap;
  mret (if EXT2FS_IS_32_BITMAP magic then E_OK else EXT2_ET_MAGIC_GENERIC_BITMAP).

(** The size of the array, rounded up: [(size + 7) & ~3]. *)
Definition array_size32 (start real_end : Z) : Z :=
  let size := u32 (u32 (real_end - start) / 8 + 1) in
  Z.land (u64 (size + 7)) (2^64 - 4).

(** [init_map] is the array to copy, or 0 (NULL). *)
Definition ext2fs_make_generic_bitmap {ML : Malloc} (magic : errcode) (start end_ real_end : Z)
    (descr : option (list Z)) (init_map : Z) : M (errcode * generic_bitmap) :=
  r ← ext2fs_get_mem 8 bitmap_words;
  if bool_decide (r.1 ≠ E_OK) then mret (r.1, NullBitmap) else
  let addr := r.2 in
  d ← copy_description descr;
  if bool_decide (d.1 ≠ E_OK) then
    ext2fs_free_mem 8 bitmap_words addr ;;
    mret (d.1, NullBitmap)
  else
    let size := Z.to_nat (array_size32 start real_end) in
    a ← ext2fs_get_mem 1 size;
    if bool_decide (a.1 ≠ E_OK) then
      free_description d.2 ;;
      ext2fs_free_mem 8 bitmap_words addr ;;
      mret (a.1, NullBitmap)
    else
      (if bool_decide (init_map ≠ 0) then memcpy 1 a.2 init_map size
       else memset a.2 0 size) ;;
      mret (E_OK, IsBitmap32 (Bitmap32 addr magic start end_ real_end d.2 a.2 size)).

Definition ext2fs_allocate_generic_bitmap {ML : Malloc} (start end_ real_end : Z)
    (descr : option (list Z)) : M (errcode * generic_bitmap) :=
  ext2fs_make_generic_bitmap EXT2_ET_MAGIC_GENERIC_BITMAP start end_ real_end descr 0.

Definition ext2fs_copy_generic_bitmap {ML : Malloc} (gen_src : generic_bitmap) :
    M (errcode * generic_bitmap) :=
  src ← as_bitmap32 gen_src;
  ext2fs_make_generic_bitmap (m32_magic src) (m32_start src) (m32_end src) (m32_real_end src)
    (d_text <$> m32_descr src) (m32_bitmap src).

Definition ext2fs_free_generic_bitmap (gen_bitmap : generic_bitmap) : M unit :=
  c ← check_magic gen_bitmap;
  if bool_decide (c ≠ E_OK) then mret tt else
  bitmap ← as_bitmap32 gen_bitmap;
  free_description (m32_descr bitmap) ;;
  (if bool_decide (m32_bitmap bitmap ≠ 0)
   then ext2fs_free_mem 1 (m32_size bitmap) (m32_bitmap bitmap) else mret tt) ;;
  ext2fs_free_mem 8 bitmap_words (m32_addr bitmap).

Definition ext2fs_test_generic_bitmap (bitmap : generic_bitmap) (bitno : Z) : M Z :=
  magic ← magic_of bitmap;
  if negb (EXT2FS_IS_32_BITMAP magic) then
    if EXT2FS_IS_64_BITMAP magic then
      bm ← as_bitmap64 bitmap; bmap64_test bm bitno
    else mret 0
  else
    bitmap32 ← as_bitmap32 bitmap;
    if bool_decide (bitno < m32_start bitmap32 ∨ m32_end bitmap32 < bitno) then mret 0
    else ext2fs_test_bit (u32 (bitno - m32_start bitmap32)) (m32_bitmap bitmap32).

Definition ext2fs_mark_generic_bitmap (bitmap : generic_bitmap) (bitno : Z) : M Z :=
  magic ← magic_of bitmap;
  if negb (EXT2FS_IS_32_BITMAP magic) then
    if EXT2FS_IS_64_BITMAP magic then
      bm ← as_bitmap64 bitmap; bmap64_mark bm bitno
    else mret 0
  else
    bitmap32 ← as_bitmap32 bitmap;
    if bool_decide (bitno < m32_start bitmap32 ∨ m32_end bitmap32 < bitno) then mret 0
    else ext2fs_set_bit (u32 (bitno - m32_start bitmap32)) (m32_bitmap bitmap32).

Definition ext2fs_unmark_generic_bitmap (bitmap : generic_bitmap) (bitno : Z) : M Z :=
  magic ← magic_of bitmap;
  if negb (EXT2FS_IS_32_BITMAP magic) then
    if EXT2FS_IS_64_BITMAP magic then
      bm ← as_bitmap64 bitmap; bmap64_unmark bm bitno
    else mret 0
  else
    bitmap32 ← as_bitmap32 bitmap;
    if bool_decide (bitno < m32_start bitmap32 ∨ m32_end bitmap32 < bitno) then mret 0
    else ext2fs_clear_bit (u32 (bitno - m32_start bitmap32)) (m32_bitmap bitmap32).

Definition ext2fs_get_generic_bitmap_start (bitmap : generic_bitmap) : M Z :=
  magic ← magic_of bitmap;
  if negb (EXT2FS_IS_32_BITMAP magic) then
    if EXT2FS_IS_64_BITMAP magic then
      bm ← as_bitmap64 bitmap; mret (u32 (b_start (m64_bmap bm)))
    else mret 0
  else
    bitmap32 ← as_bitmap32 bitmap; mret (m32_start bitmap32).

Definition ext2fs_get_generic_bitmap_end (bitmap : generic_bitmap) : M Z :=
  magic ← magic_of bitmap;
  if negb (EXT2FS_IS_32_BITMAP magic) then
    if EXT2FS_IS_64_BITMAP magic then
      bm ← as_bitmap64 bitmap; mret (u32 (b_end (m64_bmap bm)))
    else mret 0
  else
    bitmap32 ← as_bitmap32 bitmap; mret (m32_end bitmap32).

Definition ext2fs_clear_generic_bitmap (bitmap : generic_bitmap) : M unit :=
  magic ← magic_of bitmap;
  if negb (EXT2FS_IS_32_BITMAP magic) then
    if EXT2FS_IS_64_BITMAP magic then
      bm ← as_bitmap64 bitmap; bmap64_clear bm
    else mret tt
  else
    bitmap32 ← as_bitmap32 bitmap;
    memset (m32_bitmap bitmap32) 0
      (Z.to_nat (u32 (u32 (m32_real_end bitmap32 - m32_start bitmap32) / 8 + 1))).

(** With the old end, when it is stored through [oend]. *)
Definition ext2fs_fudge_generic_bitmap_end (gen_bitmap : generic_bitmap) (magic neq : errcode)
    (end_ : Z) : M (errcode * generic_bitmap * option Z) :=
  m ← magic_of gen_bitmap;
  if bool_decide (m ≠ magic) then mret (magic, gen_bitmap, None) else
  bitmap ← as_bitmap32 gen_bitmap;
  if bool_decide (m32_real_end bitmap < end_) then mret (neq, gen_bitmap, None)
  else mret (E_OK, IsBitmap32 (set_end32 bitmap end_), Some (m32_end bitmap)).

(** [for (; bitno > bmap->end; bitno--)] *)
Definition clear_step32 (start end_ arr bitno : Z) : M (Z + unit) :=
  if bool_decide (end_ < bitno) then
    ext2fs_clear_bit (u32 (bitno - start)) arr ;;
    continue_ (u32 (bitno - 1))
  else break_ tt.

(** The part that changes the size of the array, a block of [block] bytes. *)
Definition resize_array32 {ML : Malloc} (bitmap : Z) (block : nat) (size new_size : Z) :
    M (errcode * Z) :=
  r ← (if bool_decide (size ≠ new_size)
       then ext2fs_resize_mem 1 block (Z.to_nat new_size) bitmap
       else mret (E_OK, bitmap));
  if bool_decide (r.1 ≠ E_OK) then mret r else
  (if bool_decide (size < new_size)
   then memset (r.2 + size) 0 (Z.to_nat (new_size - size)) else mret tt) ;;
  mret r.

Definition ext2fs_resize_generic_bitmap {ML : Malloc} (magic : errcode)
    (new_end new_real_end : Z) (gen_bmap : generic_bitmap) : M (errcode * generic_bitmap) :=
  if is_null gen_bmap then mret (magic, gen_bmap) else
  m ← magic_of gen_bmap;
  if bool_decide (m ≠ magic) then mret (magic, gen_bmap) else
  bmap ← as_bitmap32 gen_bmap;
  (if bool_decide (m32_end bmap < new_end) then
     let bitno := if bool_decide (new_end < m32_real_end bmap) then new_end
                  else m32_real_end bmap in
     loop (clear_step32 (m32_start bmap) (m32_end bmap) (m32_bitmap bmap)) bitno
   else mret tt) ;;
  if bool_decide (new_real_end = m32_real_end bmap) then
    mret (E_OK, IsBitmap32 (set_end32 bmap new_end))
  else
    let size := u32 (u32 (m32_real_end bmap - m32_start bmap) / 8 + 1) in
    let new_size := u32 (u32 (new_real_end - m32_start bmap) / 8 + 1) in
    r ← resize_array32 (m32_bitmap bmap) (m32_size bmap) size new_size;
    if bool_decide (r.1 ≠ E_OK) then mret (r.1, gen_bmap) else
    mret (E_OK, IsBitmap32 (set_array32 bmap new_end new_real_end r.2
            (if bool_decide (size ≠ new_size) then Z.to_nat new_size else m32_size bmap))).

(** [memcmp(p, q, n) == 0] *)
Fixpoint memcmp_eq (p q : Z) (n : nat) : M bool :=
  match n with
  | O => mret true
  | S n' =>
      a ← load p; b ← load q;
      if bool_decide (a = b) then memcmp_eq (p + 1) (q + 1) n' else mret false
  end.

(** [for (; i <= end; i++)], on [w]-bit positions. *)
Definition compare_step (test : generic_bitmap → Z → M Z) (wrap : Z → Z) (end_ : Z)
    (gen_bm1 gen_bm2 : generic_bitmap) (i : Z) : M (Z + bool) :=
  if bool_decide (i ≤ end_) then
    t1 ← test gen_bm1 i;
    t2 ← test gen_bm2 i;
    if bool_decide (t1 ≠ t2) then break_ false else continue_ (wrap (i + 1))
  else break_ true.

Definition ext2fs_compare_generic_bitmap (magic neq : errcode) (gen_bm1 gen_bm2 : generic_bitmap) :
    M errcode :=
  if is_null gen_bm1 then mret magic else
  m1 ← magic_of gen_bm1;
  if bool_decide (m1 ≠ magic) then mret magic else
  if is_null gen_bm2 then mret magic else
  m2 ← magic_of gen_bm2;
  if bool_decide (m2 ≠ magic) then mret magic else
  bm1 ← as_bitmap32 gen_bm1;
  bm2 ← as_bitmap32 gen_bm2;
  if bool_decide (m32_start bm1 ≠ m32_start bm2 ∨ m32_end bm1 ≠ m32_end bm2) then mret neq else
  same ← memcmp_eq (m32_bitmap bm1) (m32_bitmap bm2)
           (Z.to_nat (u32 (m32_end bm1 - m32_start bm1) / 8));
  if negb same then mret neq else
  same ← loop (compare_step ext2fs_test_generic_bitmap u32 (m32_end bm1) gen_bm1 gen_bm2)
           (u32 (m32_end bm1 - u32 (m32_end bm1 - m32_start bm1) mod 8));
  mret (if (same : bool) then E_OK else neq).

Definition padding_step (map : bitmap32) (st : Z * Z) : M (Z * Z + unit) :=
  let i := st.1 in
  let j := st.2 in
  if bool_decide (i ≤ m32_real_end map ∧ m32_end map < i) then
    ext2fs_set_bit j (m32_bitmap map) ;;
    continue_ (u32 (i + 1), u32 (j + 1))
  else break_ tt.

Definition ext2fs_set_generic_bitmap_padding (gen_map : generic_bitmap) : M unit :=
  map ← as_bitmap32 gen_map;
  let i := u32 (m32_end map + 1) in
  loop (padding_step map) (i, u32 (i - m32_start map)).

Definition ext2fs_get_generic_bitmap_range (gen_bmap : generic_bitmap) (magic : errcode)
    (start num out : Z) : M errcode :=
  if is_null gen_bmap then mret magic else
  m ← magic_of gen_bmap;
  if bool_decide (m ≠ magic) then mret magic else
  bmap ← as_bitmap32 gen_bmap;
  if bool_decide (start < m32_start bmap ∨ m32_real_end bmap < u32 (u32 (start + num) - 1))
  then mret EXT2_ET_INVALID_ARGUMENT else
  memcpy 1 out (m32_bitmap bmap + Z.shiftr (u32 (start - m32_start bmap)) 3)
    (Z.to_nat (Z.shiftr (u32 (num + 7)) 3)) ;;
  mret E_OK.

Definition ext2fs_set_generic_bitmap_range (gen_bmap : generic_bitmap) (magic : errcode)
    (start num inp : Z) : M errcode :=
  if is_null gen_bmap then mret magic else
  m ← magic_of gen_bmap;
  if bool_decide (m ≠ magic) then mret magic else
  bmap ← as_bitmap32 gen_bmap;
  if bool_decide (start < m32_start bmap ∨ m32_real_end bmap < u32 (u32 (start + num) - 1))
  then mret EXT2_ET_INVALID_ARGUMENT else
  memcpy 1 (m32_bitmap bmap + Z.shiftr (u32 (start - m32_start bmap)) 3) inp
    (Z.to_nat (Z.shiftr (u32 (num + 7)) 3)) ;;
  mret E_OK.

Definition ext2fs_test_clear_generic_bitmap_range (bitmap : bitmap32) (start len : Z) : M Z :=
  let ADDR := m32_bitmap bitmap in
  let start := u32 (start - m32_start bitmap) in
  test_clear_bits ADDR start len.

(** The bit-by-bit search, for a clear ([false]) or a set bit. *)
Definition find_step32 (bitmap : bitmap32) (want : bool) (end_ start : Z) :
    M (Z + (errcode * Z)) :=
  if bool_decide (start ≤ end_) then
    b ← ext2fs_test_bit (u32 (start - m32_start bitmap)) (m32_bitmap bitmap);
    if bool_decide (bool_decide (b ≠ 0) = want) then break_ (E_OK, start)
    else continue_ (u32 (start + 1))
  else break_ (ENOENT, 0).

Definition find_first32 (want : bool) (gen_bitmap : generic_bitmap) (start end_ : Z) :
    M (errcode * Z) :=
  bitmap ← as_bitmap32 gen_bitmap;
  if bool_decide (start < m32_start bitmap ∨ m32_end bitmap < end_ ∨ end_ < start)
  then mret (EINVAL, 0)
  else loop (find_step32 bitmap want end_) start.

Definition ext2fs_find_first_zero_generic_bitmap : generic_bitmap → Z → Z → M (errcode * Z) :=
  find_first32 false.
Definition ext2fs_find_first_set_generic_bitmap : generic_bitmap → Z → Z → M (errcode * Z) :=
  find_first32 true.

(** [num] is an [int]; [block + num - 1] is unsigned. *)
Definition ext2fs_test_block_bitmap_range (gen_bitmap : generic_bitmap) (block num : Z) : M Z :=
  m ← magic_of gen_bitmap;
  if bool_decide (m ≠ EXT2_ET_MAGIC_BLOCK_BITMAP)
  then mret (errno EXT2_ET_MAGIC_BLOCK_BITMAP) else
  bitmap ← as_bitmap32 gen_bitmap;
  if bool_decide (block < m32_start bitmap ∨ m32_real_end bitmap < block ∨
                  m32_real_end bitmap < u32 (block + num - 1)) then mret 0
  else ext2fs_test_clear_generic_bitmap_range bitmap block (u32 num).

Definition ext2fs_test_inode_bitmap_range (gen_bitmap : generic_bitmap) (inode num : Z) : M Z :=
  m ← magic_of gen_bitmap;
  if bool_decide (m ≠ EXT2_ET_MAGIC_INODE_BITMAP)
  then mret (errno EXT2_ET_MAGIC_INODE_BITMAP) else
  bitmap ← as_bitmap32 gen_bitmap;
  if bool_decide (inode < m32_start bitmap ∨ m32_real_end bitmap < inode ∨
                  m32_real_end bitmap < u32 (inode + num - 1)) then mret 0
  else ext2fs_test_clear_generic_bitmap_range bitmap inode (u32 num).

Definition ext2fs_mark_block_bitmap_range (gen_bitmap : generic_bitmap) (block num : Z) : M unit :=
  bitmap ← as_bitmap32 gen_bitmap;
  if bool_decide (block < m32_start bitmap ∨ m32_end bitmap < block ∨
                  m32_end bitmap < u32 (block + num - 1)) then mret tt
  else for_range (Z.to_nat num) 0 (λ i,
         ext2fs_fast_set_bit (u32 (block + i - m32_start bitmap)) (m32_bitmap bitmap)).

Definition ext2fs_unmark_block_bitmap_range (gen_bitmap : generic_bitmap) (block num : Z) :
    M unit :=
  bitmap ← as_bitmap32 gen_bitmap;
  if bool_decide (block < m32_start bitmap ∨ m32_end bitmap < block ∨
                  m32_end bitmap < u32 (block + num - 1)) then mret tt
  else for_range (Z.to_nat num) 0 (λ i,
         ext2fs_fast_clear_bit (u32 (block + i - m32_start bitmap)) (m32_bitmap bitmap)).

(** ** gen_bitmap64.c *)

(** The choice of an implementation; [None] is a fault while counting the
    directories, [Some None] the unknown type. *)
Definition bmap64_ops_of_type {ML : Malloc} (fs : ext2_filsys) (type : Z) :
    option (option ext2_bitmap_ops) :=
  let type := if bool_decide (type = 0) then EXT2FS_BMAP64_BITARRAY else type in
  if bool_decide (type = EXT2FS_BMAP64_BITARRAY) then Some (Some ext2fs_blkmap64_bitarray)
  else if bool_decide (type = EXT2FS_BMAP64_RBTREE) then Some (Some ext2fs_blkmap64_rbtree)
  else if bool_decide (type = EXT2FS_BMAP64_AUTODIR) then
    r ← ext2fs_get_num_dirs fs;
    Some (Some (if bool_decide (r.1 ≠ E_OK ∨ s_inodes_count (fs_super fs) / 320 < r.2)
                then ext2fs_blkmap64_bitarray else ext2fs_blkmap64_rbtree))
  else Some None.

Definition ext2fs_alloc_generic_bmap {ML : Malloc} (fs : ext2_filsys) (magic : errcode)
    (type start end_ real_end : Z) (descr : option (list Z)) : M (errcode * generic_bitmap) :=
  match bmap64_ops_of_type fs type with
  | None => m_fault
  | Some None => mret (EINVAL, NullBitmap)
  | Some (Some ops) =>
      r ← ext2fs_get_memzero 8 bitmap_words;
      if bool_decide (r.1 ≠ E_OK) then mret (r.1, NullBitmap) else
      let addr := r.2 in
      let cluster_bits := if bool_decide (magic = EXT2_ET_MAGIC_BLOCK_BITMAP64)
                          then fs_cluster_ratio_bits fs else 0 in
      d ← copy_description descr;
      if bool_decide (d.1 ≠ E_OK) then
        ext2fs_free_mem 8 bitmap_words addr ;;
        mret (d.1, NullBitmap)
      else
        b ← new_bmap ops (Bmap64 start end_ real_end 0);
        if bool_decide (b.1 ≠ E_OK) then
          free_description d.2 ;;
          ext2fs_free_mem 8 bitmap_words addr ;;
          mret (b.1, NullBitmap)
        else mret (E_OK, IsBitmap64 (Bitmap64 addr magic ops b.2 cluster_bits d.2))
  end.

Definition ext2fs_free_generic_bmap (gen_bmap : generic_bitmap) : M unit :=
  if is_null gen_bmap then mret tt else
  magic ← magic_of gen_bmap;
  if EXT2FS_IS_32_BITMAP magic then ext2fs_free_generic_bitmap gen_bmap
  else if negb (EXT2FS_IS_64_BITMAP magic) then mret tt
  else
    bmap ← as_bitmap64 gen_bmap;
    free_bmap (m64_ops bmap) (m64_bmap bmap) ;;
    free_description (m64_descr bmap) ;;
    ext2fs_free_mem 8 bitmap_words (m64_addr bmap).

Definition copy_of : list Z := string_bytes "copy of ".

Definition ext2fs_copy_generic_bmap {ML : Malloc} (gen_src : generic_bitmap) :
    M (errcode * generic_bitmap) :=
  if is_null gen_src then mret (EINVAL, NullBitmap) else
  magic ← magic_of gen_src;
  if EXT2FS_IS_32_BITMAP magic then ext2fs_copy_generic_bitmap gen_src
  else if negb (EXT2FS_IS_64_BITMAP magic) then mret (EINVAL, NullBitmap)
  else
    src ← as_bitmap64 gen_src;
    r ← ext2fs_get_memzero 8 bitmap_words;
    if bool_decide (r.1 ≠ E_OK) then mret (r.1, NullBitmap) else
    let new_bmap := r.2 in
    let b := m64_bmap src in
    d ← (match m64_descr src with
         | Some descr => new_description 10 copy_of (d_text descr)
         | None => mret (E_OK, None)
         end);
    if bool_decide (d.1 ≠ E_OK) then
      ext2fs_free_mem 8 bitmap_words new_bmap ;;
      mret (d.1, NullBitmap)
    else
      c ← copy_bmap (m64_ops src) b (Bmap64 (b_start b) (b_end b) (b_real_end b) 0);
      if bool_decide (c.1 ≠ E_OK) then
        free_description d.2 ;;
        ext2fs_free_mem 8 bitmap_words new_bmap ;;
        mret (c.1, NullBitmap)
      else
        mret (E_OK, IsBitmap64 (Bitmap64 new_bmap (m64_magic src) (m64_ops src) c.2
                                  (m64_cluster_bits src) d.2)).

Definition ext2fs_resize_generic_bmap {ML : Malloc} (gen_bmap : generic_bitmap)
    (new_end new_real_end : Z) : M (errcode * generic_bitmap) :=
  if is_null gen_bmap then mret (EINVAL, gen_bmap) else
  magic ← magic_of gen_bmap;
  if EXT2FS_IS_32_BITMAP magic then
    ext2fs_resize_generic_bitmap magic (u32 new_end) (u32 new_real_end) gen_bmap
  else if negb (EXT2FS_IS_64_BITMAP magic) then mret (EINVAL, gen_bmap)
  else
    bmap ← as_bitmap64 gen_bmap;
    r ← resize_bmap (m64_ops bmap) (m64_bmap bmap) new_end new_real_end;
    mret (r.1, IsBitmap64 (set_bmap bmap r.2)).

(** With the old end, when it is stored through [oend]; on an error of the
    32-bit function an uninitialised variable is stored there. *)
Definition ext2fs_fudge_generic_bmap_end (gen_bitmap : generic_bitmap) (neq : errcode)
    (end_ : Z) : M (errcode * generic_bitmap * option Z) :=
  if is_null gen_bitmap then mret (EINVAL, gen_bitmap, None) else
  magic ← magic_of gen_bitmap;
  if EXT2FS_IS_32_BITMAP magic then
    ext2fs_fudge_generic_bitmap_end gen_bitmap magic neq (u32 end_)
  else if negb (EXT2FS_IS_64_BITMAP magic) then mret (EINVAL, gen_bitmap, None)
  else
    bitmap ← as_bitmap64 gen_bitmap;
    let b := m64_bmap bitmap in
    if bool_decide (b_real_end b < end_) then mret (neq, gen_bitmap, None)
    else mret (E_OK, IsBitmap64 (set_bmap bitmap (set_ends b end_ (b_real_end b))),
               Some (b_end b)).

Definition ext2fs_get_generic_bmap_start (gen_bitmap : generic_bitmap) : M Z :=
  if is_null gen_bitmap then mret (errno EINVAL) else
  magic ← magic_of gen_bitmap;
  if EXT2FS_IS_32_BITMAP magic then ext2fs_get_generic_bitmap_start gen_bitmap
  else if negb (EXT2FS_IS_64_BITMAP magic) then mret (errno EINVAL)
  else bitmap ← as_bitmap64 gen_bitmap; mret (b_start (m64_bmap bitmap)).

Definition ext2fs_get_generic_bmap_end (gen_bitmap : generic_bitmap) : M Z :=
  if is_null gen_bitmap then mret (errno EINVAL) else
  magic ← magic_of gen_bitmap;
  if EXT2FS_IS_32_BITMAP magic then ext2fs_get_generic_bitmap_end gen_bitmap
  else if negb (EXT2FS_IS_64_BITMAP magic) then mret (errno EINVAL)
  else bitmap ← as_bitmap64 gen_bitmap; mret (b_end (m64_bmap bitmap)).

Definition ext2fs_clear_generic_bmap (gen_bitmap : generic_bitmap) : M unit :=
  magic ← magic_of gen_bitmap;
  if EXT2FS_IS_32_BITMAP magic then ext2fs_clear_generic_bitmap gen_bitmap
  else bitmap ← as_bitmap64 gen_bitmap; bmap64_clear bitmap.

Definition ext2fs_mark_generic_bmap (gen_bitmap : generic_bitmap) (arg : Z) : M Z :=
  if is_null gen_bitmap then mret 0 else
  magic ← magic_of gen_bitmap;
  if EXT2FS_IS_32_BITMAP magic then
    if above_32 arg then mret 0 else ext2fs_mark_generic_bitmap gen_bitmap (u32 arg)
  else if negb (EXT2FS_IS_64_BITMAP magic) then mret 0
  else bitmap ← as_bitmap64 gen_bitmap; bmap64_mark bitmap arg.

Definition ext2fs_unmark_generic_bmap (gen_bitmap : generic_bitmap) (arg : Z) : M Z :=
  if is_null gen_bitmap then mret 0 else
  magic ← magic_of gen_bitmap;
  if EXT2FS_IS_32_BITMAP magic then
    if above_32 arg then mret 0 else ext2fs_unmark_generic_bitmap gen_bitmap (u32 arg)
  else if negb (EXT2FS_IS_64_BITMAP magic) then mret 0
  else bitmap ← as_bitmap64 gen_bitmap; bmap64_unmark bitmap arg.

Definition ext2fs_test_generic_bmap (gen_bitmap : generic_bitmap) (arg : Z) : M Z :=
  if is_null gen_bitmap then mret 0 else
  magic ← magic_of gen_bitmap;
  if EXT2FS_IS_32_BITMAP magic then
    if above_32 arg then mret 0 else ext2fs_test_generic_bitmap gen_bitmap (u32 arg)
  else if negb (EXT2FS_IS_64_BITMAP magic) then mret 0
  else bitmap ← as_bitmap64 gen_bitmap; bmap64_test bitmap arg.

Definition ext2fs_set_generic_bmap_range (gen_bmap : generic_bitmap) (start num inp : Z) :
    M errcode :=
  if is_null gen_bmap then mret EINVAL else
  magic ← magic_of gen_bmap;
  if EXT2FS_IS_32_BITMAP magic then
    if above_32 (u64 (u64 (start + num) - 1)) then mret EINVAL
    else ext2fs_set_generic_bitmap_range gen_bmap magic (u32 start) num inp
  else if negb (EXT2FS_IS_64_BITMAP magic) then mret EINVAL
  else
    bmap ← as_bitmap64 gen_bmap;
    set_bmap_range (m64_ops bmap) (m64_bmap bmap) start num inp.

Definition ext2fs_get_generic_bmap_range (gen_bmap : generic_bitmap) (start num out : Z) :
    M errcode :=
  if is_null gen_bmap then mret EINVAL else
  magic ← magic_of gen_bmap;
  if EXT2FS_IS_32_BITMAP magic then
    if above_32 (u64 (u64 (start + num) - 1)) then mret EINVAL
    else ext2fs_get_generic_bitmap_range gen_bmap magic (u32 start) num out
  else if negb (EXT2FS_IS_64_BITMAP magic) then mret EINVAL
  else
    bmap ← as_bitmap64 gen_bmap;
    get_bmap_range (m64_ops bmap) (m64_bmap bmap) start num out.

Definition ext2fs_compare_generic_bmap (neq : errcode) (gen_bm1 gen_bm2 : generic_bitmap) :
    M errcode :=
  if is_null gen_bm1 || is_null gen_bm2 then mret EINVAL else
  magic1 ← magic_of gen_bm1;
  magic2 ← magic_of gen_bm2;
  if bool_decide (magic1 ≠ magic2) then mret EINVAL
  else if EXT2FS_IS_32_BITMAP magic1 then
    ext2fs_compare_generic_bitmap magic1 neq gen_bm1 gen_bm2
  else if negb (EXT2FS_IS_64_BITMAP magic1) then mret EINVAL
  else
    bm1 ← as_bitmap64 gen_bm1;
    bm2 ← as_bitmap64 gen_bm2;
    let b1 := m64_bmap bm1 in
    let b2 := m64_bmap bm2 in
    if bool_decide (b_start b1 ≠ b_start b2 ∨ b_end b1 ≠ b_end b2) then mret neq else
    same ← loop (compare_step ext2fs_test_generic_bmap u64 (b_end b1) gen_bm1 gen_bm2)
             (u64 (b_end b1 - u64 (b_end b1 - b_start b1) mod 8));
    mret (if (same : bool) then E_OK else neq).

(** [num] of [mark_bmap_extent] is an [unsigned int]. *)
Definition ext2fs_set_generic_bmap_padding (gen_bmap : generic_bitmap) : M unit :=
  magic ← magic_of gen_bmap;
  if EXT2FS_IS_32_BITMAP magic then ext2fs_set_generic_bitmap_padding gen_bmap
  else
    bmap ← as_bitmap64 gen_bmap;
    let b := m64_bmap bmap in
    let start := u64 (b_end b + 1) in
    let num := u64 (b_real_end b - b_end b) in
    mark_bmap_extent (m64_ops bmap) b start (u32 num).

(** The clusters of [num] blocks at [block], as the first and the number. *)
Definition to_clusters (bm : bitmap64) (block num : Z) : Z * Z :=
  let cb := m64_cluster_bits bm in
  let first := Z.shiftr block cb in
  let end_ := Z.shiftr (u64 (u64 (block + num) + s32 (s32 (Z.shiftl 1 cb) - 1))) cb in
  (first, u32 (u64 (end_ - first))).

Definition outside (b : bmap64) (block num : Z) : bool :=
  bool_decide (block < b_start b ∨ b_end b < block ∨ b_end b < u64 (u64 (block + num) - 1)).

Definition ext2fs_test_block_bitmap_range2 (gen_bmap : generic_bitmap) (block num : Z) : M Z :=
  if is_null gen_bmap then mret (errno EINVAL) else
  if bool_decide (num = 1) then
    t ← ext2fs_test_generic_bmap gen_bmap block;
    mret (if bool_decide (t = 0) then 1 else 0)
  else
    magic ← magic_of gen_bmap;
    if EXT2FS_IS_32_BITMAP magic then
      if above_32 block || above_32 (u64 (u64 (block + num) - 1)) then mret (errno EINVAL)
      else ext2fs_test_block_bitmap_range gen_bmap (u32 block) (s32 num)
    else if negb (EXT2FS_IS_64_BITMAP magic) then mret (errno EINVAL)
    else
      bmap ← as_bitmap64 gen_bmap;
      let c := to_clusters bmap block num in
      if outside (m64_bmap bmap) c.1 c.2 then mret (errno EINVAL)
      else test_clear_bmap_extent (m64_ops bmap) (m64_bmap bmap) c.1 c.2.

Definition ext2fs_mark_block_bitmap_range2 (gen_bmap : generic_bitmap) (block num : Z) : M unit :=
  if is_null gen_bmap then mret tt else
  magic ← magic_of gen_bmap;
  if EXT2FS_IS_32_BITMAP magic && (above_32 block || above_32 (u64 (u64 (block + num) - 1)))
  then mret tt else
  (if EXT2FS_IS_32_BITMAP magic
   then ext2fs_mark_block_bitmap_range gen_bmap (u32 block) (s32 num) else mret tt) ;;
  if negb (EXT2FS_IS_64_BITMAP magic) then mret tt else
  bmap ← as_bitmap64 gen_bmap;
  let c := to_clusters bmap block num in
  if outside (m64_bmap bmap) c.1 c.2 then mret tt
  else mark_bmap_extent (m64_ops bmap) (m64_bmap bmap) c.1 c.2.

Definition ext2fs_unmark_block_bitmap_range2 (gen_bmap : generic_bitmap) (block num : Z) :
    M unit :=
  if is_null gen_bmap then mret tt else
  magic ← magic_of gen_bmap;
  if EXT2FS_IS_32_BITMAP magic && (above_32 block || above_32 (u64 (u64 (block + num) - 1)))
  then mret tt else
  (if EXT2FS_IS_32_BITMAP magic
   then ext2fs_unmark_block_bitmap_range gen_bmap (u32 block) (s32 num) else mret tt) ;;
  if negb (EXT2FS_IS_64_BITMAP magic) then mret tt else
  bmap ← as_bitmap64 gen_bmap;
  let c := to_clusters bmap block num in
  if outside (m64_bmap bmap) c.1 c.2 then mret tt
  else unmark_bmap_extent (m64_ops bmap) (m64_bmap bmap) c.1 c.2.

(** The search for a clear or a set bit: the 32-bit function, the method of
    the implementation and the loop for an implementation without one. *)
Definition find_loop_step (bm : bitmap64) (want : bool) (cend cout : Z) : M (Z + option Z) :=
  if bool_decide (cout ≤ cend) then
    t ← test_bmap (m64_ops bm) (m64_bmap bm) cout;
    if bool_decide (bool_decide (t ≠ 0) = want) then break_ (Some cout)
    else continue_ (u64 (cout + 1))
  else break_ None.

Definition found_at (bm : bitmap64) (start cout : Z) : Z :=
  let cout := u64 (Z.shiftl cout (m64_cluster_bits bm)) in
  if bool_decide (start ≤ cout) then cout else start.

Definition find_first_bmap (want : bool) (gen_bitmap : generic_bitmap) (start end_ : Z) :
    M (errcode * Z) :=
  if is_null gen_bitmap then mret (EINVAL, 0) else
  magic ← magic_of gen_bitmap;
  if EXT2FS_IS_32_BITMAP magic then
    if above_32 start || above_32 end_ then mret (EINVAL, 0)
    else find_first32 want gen_bitmap (u32 start) (u32 end_)
  else if negb (EXT2FS_IS_64_BITMAP magic) then mret (EINVAL, 0)
  else
    bmap64 ← as_bitmap64 gen_bitmap;
    let b := m64_bmap bmap64 in
    let cstart := Z.shiftr start (m64_cluster_bits bmap64) in
    let cend := Z.shiftr end_ (m64_cluster_bits bmap64) in
    if bool_decide (cstart < b_start b ∨ b_end b < cend ∨ end_ < start) then mret (EINVAL, 0)
    else
      match (if want then find_first_set else find_first_zero) (m64_ops bmap64) with
      | Some f =>
          r ← f b cstart cend;
          if bool_decide (r.1 ≠ E_OK) then mret (r.1, 0)
          else mret (E_OK, found_at bmap64 start r.2)
      | None =>
          r ← loop (find_loop_step bmap64 want cend) cstart;
          mret (match r with
                | Some cout => (E_OK, found_at bmap64 start cout)
                | None => (ENOENT, 0)
                end)
      end.

Definition ext2fs_find_first_zero_generic_bmap : generic_bitmap → Z → Z → M (errcode * Z) :=
  find_first_bmap false.
Definition ext2fs_find_first_set_generic_bmap : generic_bitmap → Z → Z → M (errcode * Z) :=
  find_first_bmap true.
