(* ===== verification/GenBitmapSpec.v ===== *)
(** * GenBitmapSpec: the contract of the generic bitmaps

    [generic_at gen B] says that the bitmap [gen], of either kind, is allocated
    and holds the set [B] of bits.  The lemmas give the effect of every
    function of GenBitmap on that set: single bits, clearing, ranges of blocks
    (rounded to clusters), searches, allocation, copy and release, resizing
    and moving the end.  The 64-bit side is proved against [BitmapImpl] alone,
    so it holds for the red-black tree and for the bit array. *)
From S2P Require Import Prelude.
From S2P Require Import Bytes.
From S2P Require Import Super.
From S2P Require Import Blknum.
From S2P Require Import Mem.
From S2P Require Import SepLogic.
From S2P Require Import ExtMem.
From S2P Require Import BitOps.
From S2P Require Import Bitmap.
From S2P Require Import BlkmapRB.
From S2P Require Import BlkmapBA.
From S2P Require Import GenBitmap.
#[local] Open Scope Z_scope.

(** ** Specifications

    [generic_at gen B]: the bitmap [gen] is allocated and holds the set [B] of
    bits.  For a 64-bit bitmap this rests on the contract [BitmapImpl] of its
    table of methods alone. *)
Definition view32 (bm : bitmap32) : bmap64 :=
  Bmap64 (m32_start bm) (m32_end bm) (m32_real_end bm) 0.

(** The bounds of a bitmap, and the bit of a block. *)
Definition gen_view (gen : generic_bitmap) : bmap64 :=
  match gen with
  | NullBitmap => Bmap64 0 0 0 0
  | IsBitmap32 bm => view32 bm
  | IsBitmap64 bm => m64_bmap bm
  end.

Definition gen_cluster_bits (gen : generic_bitmap) : Z :=
  match gen with IsBitmap64 bm => m64_cluster_bits bm | _ => 0 end.

(** Whether the bitmap is a red-black tree. *)
Definition gen_tree {ML : Malloc} (gen : generic_bitmap) : bool :=
  match gen with IsBitmap64 bm => is_tree (m64_ops bm) | _ => false end.

Definition gen_bit (gen : generic_bitmap) (arg : Z) : Z := Z.shiftr arg (gen_cluster_bits gen).

Definition gen_in (gen : generic_bitmap) (arg : Z) : Prop :=
  b_start (gen_view gen) ≤ gen_bit gen arg ≤ b_end (gen_view gen).

#[export] Instance gen_in_dec gen arg : Decision (gen_in gen arg).
Proof. unfold gen_in. apply _. Defined.

Definition bounds32 (bm : bitmap32) : Prop :=
  0 ≤ m32_start bm ∧ m32_start bm ≤ m32_end bm ∧ m32_end bm ≤ m32_real_end bm ∧
  m32_real_end bm + 1 < 2^32.

Definition bitmap32_ok (bm : bitmap32) : Prop :=
  bounds32 bm ∧ EXT2FS_IS_32_BITMAP (m32_magic bm) = true ∧ m32_bitmap bm ≠ 0 ∧
  m32_real_end bm - m32_start bm < 8 * Z.of_nat (m32_size bm).

Section generic.
Context {ML : Malloc}.

Definition descr_at (d : option description) : hProp :=
  match d with
  | Some d => ⌜d_addr d ≠ 0⌝ ∗ owns_block (d_addr d) 1 (d_size d)
  | None => emp
  end.

Definition struct_at (addr : Z) (d : option description) : hProp :=
  ⌜addr ≠ 0⌝ ∗ owns_block addr 8 bitmap_words ∗ descr_at d.

Definition bitmap32_at (bm : bitmap32) (B : gset Z) : hProp :=
  ∃ A, ⌜bitmap32_ok bm ∧ B = ba_bits (view32 bm) A⌝ ∗
    struct_at (m32_addr bm) (m32_descr bm) ∗ bits_at (m32_bitmap bm) (m32_size bm) A.

Definition bitmap64_at (bm : bitmap64) (B : gset Z) : hProp :=
  ∃ I : BitmapImpl (m64_ops bm),
    ⌜EXT2FS_IS_64_BITMAP (m64_magic bm) = true ∧ 0 ≤ m64_cluster_bits bm < 31⌝ ∗
    struct_at (m64_addr bm) (m64_descr bm) ∗ bm_at (m64_bmap bm) B.

Definition generic_at (gen : generic_bitmap) (B : gset Z) : hProp :=
  match gen with
  | NullBitmap => False
  | IsBitmap32 bm => bitmap32_at bm B
  | IsBitmap64 bm => bitmap64_at bm B
  end.

Lemma magic_64_32 m : EXT2FS_IS_64_BITMAP m = true → EXT2FS_IS_32_BITMAP m = false.
Proof.
  unfold EXT2FS_IS_64_BITMAP, EXT2FS_IS_32_BITMAP. rewrite bool_decide_eq_true bool_decide_eq_false.
  by intros [->|[->| ->]] [?|[?|?]].
Qed.

Lemma bitmap64_acc bm B :
  bitmap64_at bm B ⊢ ∃ I : BitmapImpl (m64_ops bm),
    ⌜EXT2FS_IS_64_BITMAP (m64_magic bm) = true ∧ EXT2FS_IS_32_BITMAP (m64_magic bm) = false ∧
     0 ≤ m64_cluster_bits bm < 31 ∧ bounds_ok (m64_bmap bm) ∧ B ⊆ positions (m64_bmap bm)⌝ ∗
    bm_at (m64_bmap bm) B ∗ (∀ B', bm_at (m64_bmap bm) B' -∗ bitmap64_at bm B').
Proof.
  iIntros "(%I & (%H64 & %Hc) & Hst & Hbm)". iExists I.
  iDestruct (bm_at_facts with "Hbm") as %[Hok Hsub]. iFrame "Hbm". iSplit.
  - iPureIntro. split_and!; try done; try lia. by apply magic_64_32.
  - iIntros (B') "Hbm". iExists I. by iFrame.
Qed.

Lemma bitmap32_acc bm B :
  bitmap32_at bm B ⊢ ∃ A,
    ⌜bitmap32_ok bm ∧ B = ba_bits (view32 bm) A⌝ ∗ bits_at (m32_bitmap bm) (m32_size bm) A ∗
    (∀ A', bits_at (m32_bitmap bm) (m32_size bm) A' -∗ bitmap32_at bm (ba_bits (view32 bm) A')).
Proof.
  iIntros "(%A & %H & Hst & Harr)". iExists A. iFrame "Harr". iSplit; [done|].
  iIntros (A') "Harr". iExists A'. iFrame. iPureIntro. naive_solver.
Qed.

(** ** Bits *)
Lemma shiftr_range x c : 0 ≤ x < 2^64 → 0 ≤ c → 0 ≤ Z.shiftr x c < 2^64.
Proof.
  intros Hx Hc. rewrite Z.shiftr_div_pow2 //. pose proof (Z.pow_pos_nonneg 2 c).
  split; [apply Z.div_pos; lia|]. apply Z.div_lt_upper_bound; nia.
Qed.

(** Masking with the bits [k] to [n + k]. *)
Lemma land_high x n k :
  0 ≤ n → 0 ≤ k → 0 ≤ x < 2^(n + k) → Z.land x (Z.shiftl (Z.ones n) k) = x / 2^k * 2^k.
Proof.
  intros Hn Hk Hx. rewrite -Z.shiftl_mul_pow2 // -Z.shiftr_div_pow2 //.
  apply Z.bits_inj'. intros i Hi.
  rewrite Z.land_spec (Z.shiftl_spec (Z.ones n)) // (Z.shiftl_spec (Z.shiftr x k)) //.
  destruct (decide (i < k)).
  - assert (Hneg : ∀ a, Z.testbit a (i - k) = false) by (intros; apply Z.testbit_neg_r; lia).
    by rewrite !Hneg andb_false_r.
  - rewrite Z.shiftr_spec; [|lia]. replace (i - k + k) with i by lia.
    destruct (decide (i < n + k)).
    + rewrite Z.ones_spec_low ?andb_true_r //. lia.
    + rewrite -(Z.mod_small x (2^(n + k))) // Z.mod_pow2_bits_high //. lia.
Qed.

Lemma above_32_spec x : 0 ≤ x < 2^64 → above_32 x = bool_decide (2^32 ≤ x).
Proof.
  intros Hx. unfold above_32. apply bool_decide_ext.
  change (2^64 - 2^32) with (Z.shiftl (Z.ones 32) 32). rewrite land_high //.
  pose proof (Z.div_mod x (2^32)). pose proof (Z.mod_pos_bound x (2^32)). lia.
Qed.

(** [gen] is a bitmap with the bit operation [R] on its 64-bit positions: what
    a function of the old interface promises for 32-bit positions, the new one
    promises for all. *)
Definition marked (gen : generic_bitmap) (arg : Z) (B : gset Z) : gset Z :=
  if decide (gen_in gen arg) then {[gen_bit gen arg]} ∪ B else B.

Definition unmarked (gen : generic_bitmap) (arg : Z) (B : gset Z) : gset Z :=
  if decide (gen_in gen arg) then B ∖ {[gen_bit gen arg]} else B.

Lemma marked_in gen arg B : gen_in gen arg → marked gen arg B = {[gen_bit gen arg]} ∪ B.
Proof. intros. unfold marked. by rewrite decide_True. Qed.
Lemma marked_out gen arg B : ¬ gen_in gen arg → marked gen arg B = B.
Proof. intros. unfold marked. by rewrite decide_False. Qed.
Lemma unmarked_in gen arg B : gen_in gen arg → unmarked gen arg B = B ∖ {[gen_bit gen arg]}.
Proof. intros. unfold unmarked. by rewrite decide_True. Qed.
Lemma unmarked_out gen arg B : ¬ gen_in gen arg → unmarked gen arg B = B.
Proof. intros. unfold unmarked. by rewrite decide_False. Qed.

Lemma gen_bit_32 bm arg : gen_bit (IsBitmap32 bm) arg = arg.
Proof. unfold gen_bit. simpl. apply Z.shiftr_0_r. Qed.
Lemma gen_in_32_iff bm arg : gen_in (IsBitmap32 bm) arg ↔ m32_start bm ≤ arg ≤ m32_end bm.
Proof. unfold gen_in. by rewrite gen_bit_32. Qed.
Lemma gen_in_64_iff bm arg :
  gen_in (IsBitmap64 bm) arg ↔
  b_start (m64_bmap bm) ≤ Z.shiftr arg (m64_cluster_bits bm) ≤ b_end (m64_bmap bm).
Proof. done. Qed.

(** What unmarking a block returns: whether it was used or, in a tree, the bit
    after its own is. *)
Definition says_used (v : Z) (gen : generic_bitmap) (arg : Z) (B : gset Z) : Prop :=
  v ≠ 0 ↔ gen_in gen arg ∧
    (gen_bit gen arg ∈ B ∨ (gen_tree gen = true ∧ gen_bit gen arg + 1 ∈ B)).

Lemma bmap64_test_spec bm B arg Φ :
  0 ≤ arg < 2^64 →
  bitmap64_at bm B -∗
  (∀ v, ⌜v ≠ 0 ↔ gen_in (IsBitmap64 bm) arg ∧ gen_bit (IsBitmap64 bm) arg ∈ B⌝ -∗
     bitmap64_at bm B -∗ Φ v) -∗
  wp (bmap64_test bm arg) Φ.
Proof.
  iIntros (Harg) "Hg HΦ". unfold gen_in, gen_bit. simpl.
  iDestruct (bitmap64_acc with "Hg") as "(%I & (_ & _ & %Hc & %Hok & %Hsub) & Hbm & Hcl)".
  destruct Hok as (? & ? & ? & ?). unfold bmap64_test. case_bool_decide as Hr.
  - wp_steps. iApply ("HΦ" with "[%]"); [lia|]. by iApply "Hcl".
  - iApply (bm_test with "Hbm"); [lia|]. iIntros (v) "[%Hv Hbm]".
    iApply ("HΦ" with "[%]"); [|by iApply "Hcl"]. rewrite Hv. split; [|by intros [_ ?]].
    intros ?; split; [lia|done].
Qed.

Lemma bmap64_mark_spec bm B arg Φ :
  0 ≤ arg < 2^64 →
  bitmap64_at bm B -∗
  (∀ v, ⌜v ≠ 0 ↔ gen_in (IsBitmap64 bm) arg ∧ gen_bit (IsBitmap64 bm) arg ∈ B⌝ -∗
     bitmap64_at bm (marked (IsBitmap64 bm) arg B) -∗ Φ v) -∗
  wp (bmap64_mark bm arg) Φ.
Proof.
  iIntros (Harg) "Hg HΦ". 
  iDestruct (bitmap64_acc with "Hg") as "(%I & (_ & _ & %Hc & %Hok & %Hsub) & Hbm & Hcl)".
  destruct Hok as (? & ? & ? & ?). unfold bmap64_mark. case_bool_decide as Hr.
  - wp_steps. rewrite marked_out; [|rewrite gen_in_64_iff; lia]. iApply ("HΦ" with "[%]"); [rewrite gen_in_64_iff; lia|]. by iApply "Hcl".
  - iApply (bm_mark with "Hbm"); [lia|]. iIntros (v) "[%Hv Hbm]". rewrite marked_in; [|rewrite gen_in_64_iff; lia].
    iApply ("HΦ" with "[%]"); [|by iApply "Hcl"]. rewrite Hv gen_in_64_iff. split; [|by intros [_ ?]].
    intros ?; split; [lia|done].
Qed.

Lemma bmap64_unmark_spec bm B arg Φ :
  0 ≤ arg < 2^64 →
  bitmap64_at bm B -∗
  (∀ v, ⌜says_used v (IsBitmap64 bm) arg B⌝ -∗
     bitmap64_at bm (unmarked (IsBitmap64 bm) arg B) -∗ Φ v) -∗
  wp (bmap64_unmark bm arg) Φ.
Proof.
  iIntros (Harg) "Hg HΦ". 
  iDestruct (bitmap64_acc with "Hg") as "(%I & (_ & _ & %Hc & %Hok & %Hsub) & Hbm & Hcl)".
  destruct Hok as (? & ? & ? & ?). unfold bmap64_unmark. case_bool_decide as Hr.
  - wp_steps. rewrite unmarked_out; [|rewrite gen_in_64_iff; lia]. iApply ("HΦ" with "[%]"); [unfold says_used; rewrite gen_in_64_iff; lia|]. by iApply "Hcl".
  - iApply (bm_unmark with "Hbm"); [lia|]. iIntros (v) "[%Hv Hbm]". rewrite unmarked_in; [|rewrite gen_in_64_iff; lia].
    iApply ("HΦ" with "[%]"); [|by iApply "Hcl"]. unfold says_used. rewrite Hv gen_in_64_iff.
    unfold gen_bit. simpl. split; [|by intros [_ ?]]. intros ?. split; [lia|done].
Qed.

(** The old interface, on both kinds of bitmap. *)
Lemma test_generic_bitmap_spec gen B arg Φ :
  0 ≤ arg < 2^32 →
  generic_at gen B -∗
  (∀ v, ⌜v ≠ 0 ↔ gen_in gen arg ∧ gen_bit gen arg ∈ B⌝ -∗ generic_at gen B -∗ Φ v) -∗
  wp (ext2fs_test_generic_bitmap gen arg) Φ.
Proof.
  iIntros (Harg) "Hg HΦ". unfold ext2fs_test_generic_bitmap. destruct gen as [|bm|bm]; [done|..]; simpl.
  - iDestruct (bitmap32_acc with "Hg") as "(%A & (%Hok & ->) & Harr & Hcl)".
    pose proof Hok as ((? & ? & ? & ?) & H32 & ? & ?).
    wp_steps. rewrite H32. simpl. wp_steps. unfold gen_in, gen_bit. simpl. rewrite Z.shiftr_0_r.
    case_bool_decide as Hr.
    { wp_steps. iApply ("HΦ" with "[%]"); [lia|]. by iApply "Hcl". }
    rewrite test_bit_64. wrap. iApply (wp_test_bit64 with "Harr"); [lia|]. iIntros "Harr".
    iApply ("HΦ" with "[%]"); [|by iApply "Hcl"].
    rewrite (ba_bits_test (view32 bm)); [|simpl; lia]. split; [|by intros [_ ?]].
    intros ?; split; [lia|done].
  - iDestruct (bitmap64_acc with "Hg") as "(%I & (%H64 & %H32 & _) & Hbm & Hcl)".
    wp_steps. rewrite H32 H64. simpl. wp_steps.
    iApply (bmap64_test_spec with "[Hbm Hcl]"); [lia|by iApply "Hcl"|done].
Qed.

Lemma mark_generic_bitmap_spec gen B arg Φ :
  0 ≤ arg < 2^32 →
  generic_at gen B -∗
  (∀ v, ⌜v ≠ 0 ↔ gen_in gen arg ∧ gen_bit gen arg ∈ B⌝ -∗ generic_at gen (marked gen arg B) -∗ Φ v) -∗
  wp (ext2fs_mark_generic_bitmap gen arg) Φ.
Proof.
  iIntros (Harg) "Hg HΦ". unfold ext2fs_mark_generic_bitmap. destruct gen as [|bm|bm]; [done|..]; simpl.
  - iDestruct (bitmap32_acc with "Hg") as "(%A & (%Hok & ->) & Harr & Hcl)".
    pose proof Hok as ((? & ? & ? & ?) & H32 & ? & ?).
    wp_steps. rewrite H32. simpl. wp_steps.
    case_bool_decide as Hr.
    { wp_steps. rewrite marked_out; [|rewrite gen_in_32_iff; lia]. iApply ("HΦ" with "[%]"); [rewrite gen_in_32_iff; lia|]. by iApply "Hcl". }
    rewrite set_bit_64. wrap. iApply (wp_set_bit64 with "Harr"); [lia|]. iIntros "Harr".
    rewrite marked_in; [|rewrite gen_in_32_iff; lia]. iApply ("HΦ" with "[%]").
    + rewrite gen_in_32_iff gen_bit_32 (ba_bits_test (view32 bm)); [|simpl; lia]. split; [|by intros [_ ?]].
      intros ?; split; [lia|done].
    + rewrite gen_bit_32 -(ba_bits_set (view32 bm)); [|simpl; lia]. by iApply "Hcl".
  - iDestruct (bitmap64_acc with "Hg") as "(%I & (%H64 & %H32 & _) & Hbm & Hcl)".
    wp_steps. rewrite H32 H64. simpl. wp_steps.
    iApply (bmap64_mark_spec with "[Hbm Hcl]"); [lia|by iApply "Hcl"|done].
Qed.

Lemma unmark_generic_bitmap_spec gen B arg Φ :
  0 ≤ arg < 2^32 →
  generic_at gen B -∗
  (∀ v, ⌜says_used v gen arg B⌝ -∗ generic_at gen (unmarked gen arg B) -∗ Φ v) -∗
  wp (ext2fs_unmark_generic_bitmap gen arg) Φ.
Proof.
  iIntros (Harg) "Hg HΦ". unfold ext2fs_unmark_generic_bitmap. destruct gen as [|bm|bm]; [done|..]; simpl.
  - iDestruct (bitmap32_acc with "Hg") as "(%A & (%Hok & ->) & Harr & Hcl)".
    pose proof Hok as ((? & ? & ? & ?) & H32 & ? & ?).
    wp_steps. rewrite H32. simpl. wp_steps.
    case_bool_decide as Hr.
    { wp_steps. rewrite unmarked_out; [|rewrite gen_in_32_iff; lia]. iApply ("HΦ" with "[%]"); [unfold says_used; rewrite gen_in_32_iff; lia|]. by iApply "Hcl". }
    rewrite clear_bit_64. wrap. iApply (wp_clear_bit64 with "Harr"); [lia|]. iIntros "Harr".
    rewrite unmarked_in; [|rewrite gen_in_32_iff; lia]. iApply ("HΦ" with "[%]").
    + unfold says_used. rewrite gen_in_32_iff gen_bit_32 (ba_bits_test (view32 bm)); [|simpl; lia].
      cbn [gen_tree]. naive_solver lia.
    + rewrite gen_bit_32 -(ba_bits_clear (view32 bm)). by iApply "Hcl".
  - iDestruct (bitmap64_acc with "Hg") as "(%I & (%H64 & %H32 & _) & Hbm & Hcl)".
    wp_steps. rewrite H32 H64. simpl. wp_steps.
    iApply (bmap64_unmark_spec with "[Hbm Hcl]"); [lia|by iApply "Hcl"|done].
Qed.

(** A block of 33 bits is outside of every 32-bit bitmap. *)
Lemma gen_in_32 bm B arg :
  2^32 ≤ arg → bitmap32_at bm B ⊢ ⌜¬ gen_in (IsBitmap32 bm) arg⌝.
Proof.
  iIntros (Harg) "(%A & (%Hok & _) & _)". destruct Hok as ((? & ? & ? & ?) & _).
  iPureIntro. unfold gen_in, gen_bit. simpl. rewrite Z.shiftr_0_r. lia.
Qed.

Lemma generic_magic gen B :
  generic_at gen B ⊢ ∃ m, ⌜magic_of gen = mret m ∧
    match gen with
    | NullBitmap => False
    | IsBitmap32 _ => EXT2FS_IS_32_BITMAP m = true
    | IsBitmap64 _ => EXT2FS_IS_32_BITMAP m = false ∧ EXT2FS_IS_64_BITMAP m = true
    end⌝.
Proof.
  destruct gen as [|bm|bm]; simpl; [by iIntros "?"|..]; iIntros "H".
  - iDestruct "H" as "(%A & (%Hok & _) & _)". destruct Hok as (_ & ? & _). by iExists _.
  - iDestruct (bitmap64_acc with "H") as "(%I & (%H64 & %H32 & _) & _)". by iExists _.
Qed.

(** The new interface. *)
Lemma test_generic_bmap_spec gen B arg Φ :
  0 ≤ arg < 2^64 →
  generic_at gen B -∗
  (∀ v, ⌜v ≠ 0 ↔ gen_in gen arg ∧ gen_bit gen arg ∈ B⌝ -∗ generic_at gen B -∗ Φ v) -∗
  wp (ext2fs_test_generic_bmap gen arg) Φ.
Proof.
  iIntros (Harg) "Hg HΦ". iDestruct (generic_magic with "Hg") as %(m & Hm & Hk).
  unfold ext2fs_test_generic_bmap. rewrite Hm.
  destruct gen as [|bm|bm]; [done|..]; simpl; wp_steps.
  - rewrite Hk above_32_spec //. decide_case (2^32 ≤ arg) as Hbig.
    + iDestruct (gen_in_32 with "Hg") as %Hout; [done|]. wp_steps. iApply ("HΦ" with "[%] Hg"). naive_solver.
    + wrap. iApply (test_generic_bitmap_spec (IsBitmap32 bm) with "Hg HΦ"). lia.
  - destruct Hk as [-> ->]. simpl. wp_steps. by iApply (bmap64_test_spec with "Hg").
Qed.

Lemma mark_generic_bmap_spec gen B arg Φ :
  0 ≤ arg < 2^64 →
  generic_at gen B -∗
  (∀ v, ⌜v ≠ 0 ↔ gen_in gen arg ∧ gen_bit gen arg ∈ B⌝ -∗ generic_at gen (marked gen arg B) -∗ Φ v) -∗
  wp (ext2fs_mark_generic_bmap gen arg) Φ.
Proof.
  iIntros (Harg) "Hg HΦ". iDestruct (generic_magic with "Hg") as %(m & Hm & Hk).
  unfold ext2fs_mark_generic_bmap. rewrite Hm.
  destruct gen as [|bm|bm]; [done|..]; simpl; wp_steps.
  - rewrite Hk above_32_spec //. decide_case (2^32 ≤ arg) as Hbig.
    + iDestruct (gen_in_32 with "Hg") as %Hout; [done|]. wp_steps.
      iSpecialize ("HΦ" $! 0). rewrite marked_out //.
      iApply ("HΦ" with "[%] Hg"). naive_solver.
    + wrap. iApply (mark_generic_bitmap_spec (IsBitmap32 bm) with "Hg HΦ"). lia.
  - destruct Hk as [-> ->]. simpl. wp_steps. by iApply (bmap64_mark_spec with "Hg").
Qed.

Lemma unmark_generic_bmap_spec gen B arg Φ :
  0 ≤ arg < 2^64 →
  generic_at gen B -∗
  (∀ v, ⌜says_used v gen arg B⌝ -∗ generic_at gen (unmarked gen arg B) -∗ Φ v) -∗
  wp (ext2fs_unmark_generic_bmap gen arg) Φ.
Proof.
  iIntros (Harg) "Hg HΦ". iDestruct (generic_magic with "Hg") as %(m & Hm & Hk).
  unfold ext2fs_unmark_generic_bmap. rewrite Hm.
  destruct gen as [|bm|bm]; [done|..]; simpl; wp_steps.
  - rewrite Hk above_32_spec //. decide_case (2^32 ≤ arg) as Hbig.
    + iDestruct (gen_in_32 with "Hg") as %Hout; [done|]. wp_steps.
      iSpecialize ("HΦ" $! 0). rewrite unmarked_out //.
      iApply ("HΦ" with "[%] Hg"). unfold says_used. tauto.
    + wrap. iApply (unmark_generic_bitmap_spec (IsBitmap32 bm) with "Hg HΦ"). lia.
  - destruct Hk as [-> ->]. simpl. wp_steps. by iApply (bmap64_unmark_spec with "Hg").
Qed.

(** ** Clearing *)
Lemma wp_memset_clear p n A j Φ :
  (j ≤ n)%nat →
  bits_at p n A -∗ (bits_at p n (A ∖ zrange 0 (8 * Z.of_nat j)) -∗ Φ tt) -∗
  wp (memset p 0 j) Φ.
Proof.
  iIntros (Hj) "(%bs & (%Hlen & %Hb) & H) HΦ".
  rewrite -(take_drop j bs) array_at_app. iDestruct "H" as "[H1 H2]".
  assert (length (take j bs) = j) as Hl by (rewrite length_take; lia). rewrite Hl.
  iDestruct (array_owns_block with "H1") as "H1". rewrite Hl.
  iApply (wp_memset with "H1"). iIntros "H1". iApply "HΦ".
  iExists (replicate j 0 ++ drop j bs). rewrite array_at_app length_replicate. iFrame.
  iPureIntro. split; [rewrite length_app length_replicate length_drop; lia|].
  rewrite -(take_drop j bs) in Hb. apply bytes_bits_app in Hb as (_ & Hb & Hr). rewrite Hl in Hb, Hr.
  apply bytes_bits_app. rewrite length_replicate. split_and!.
  - replace (A ∖ zrange 0 (8 * Z.of_nat j) ∩ zrange 0 (8 * Z.of_nat j)) with (∅ : gset Z) by set_solver.
    apply zero_bytes_bits.
  - replace (range_part (8 * Z.of_nat j) (8 * Z.of_nat (length (drop j bs))) (A ∖ zrange 0 (8 * Z.of_nat j)))
      with (range_part (8 * Z.of_nat j) (8 * Z.of_nat (length (drop j bs))) A); [done|].
    apply set_eq. intros x. rewrite !elem_of_range_part elem_of_difference elem_of_zrange. clear. mem_lia.
  - intros x. rewrite elem_of_difference. intros [Hx _]. by apply Hr.
Qed.

Lemma clear_generic_bitmap_spec gen B Φ :
  generic_at gen B -∗ (generic_at gen ∅ -∗ Φ tt) -∗ wp (ext2fs_clear_generic_bitmap gen) Φ.
Proof.
  iIntros "Hg HΦ". unfold ext2fs_clear_generic_bitmap. destruct gen as [|bm|bm]; [done|..]; simpl.
  - iDestruct (bitmap32_acc with "Hg") as "(%A & (%Hok & ->) & Harr & Hcl)".
    pose proof Hok as ((? & ? & ? & ?) & H32 & ? & ?). wp_steps. rewrite H32. simpl. wp_steps.
    pose proof (Z.div_mod (m32_real_end bm - m32_start bm) 8).
    pose proof (Z.mod_pos_bound (m32_real_end bm - m32_start bm) 8). wrap.
    iApply (wp_memset_clear with "Harr"); [lia|]. iIntros "Harr". iApply "HΦ".
    iDestruct ("Hcl" with "Harr") as "H".
    match goal with |- context [ba_bits _ ?X] => replace (ba_bits (view32 bm) X) with (∅ : gset Z); [done|] end.
    apply set_eq. intros x. rewrite elem_of_ba_bits elem_of_difference elem_of_zrange elem_of_empty.
    simpl. rewrite Z2Nat.id; [|lia]. split; [done|]. intros [[_ Hn] ?]. apply Hn. lia.
  - iDestruct (bitmap64_acc with "Hg") as "(%I & (%H64 & %H32 & _) & Hbm & Hcl)".
    wp_steps. rewrite H32 H64. simpl. wp_steps. unfold bmap64_clear.
    iApply (bm_clear with "Hbm"). iIntros (v) "Hbm". destruct v. iApply "HΦ". by iApply "Hcl".
Qed.

Lemma clear_generic_bmap_spec gen B Φ :
  generic_at gen B -∗ (generic_at gen ∅ -∗ Φ tt) -∗ wp (ext2fs_clear_generic_bmap gen) Φ.
Proof.
  iIntros "Hg HΦ". iDestruct (generic_magic with "Hg") as %(m & Hm & Hk).
  unfold ext2fs_clear_generic_bmap. rewrite Hm. destruct gen as [|bm|bm]; [done|..]; simpl; wp_steps.
  - rewrite Hk. by iApply (clear_generic_bitmap_spec (IsBitmap32 bm) with "Hg").
  - destruct Hk as [-> _]. wp_steps.
    iDestruct (bitmap64_acc with "Hg") as "(%I & _ & Hbm & Hcl)". unfold bmap64_clear.
    iApply (bm_clear with "Hbm"). iIntros (v) "Hbm". destruct v. iApply "HΦ". by iApply "Hcl".
Qed.

(** ** Ranges of blocks *)
#[local] Arguments to_clusters : simpl never.
#[local] Arguments outside : simpl never.

(** The bits of the blocks [block] to [block + num - 1]. *)
Definition gen_range (gen : generic_bitmap) (block num : Z) : gset Z :=
  zrange (gen_bit gen block) (gen_bit gen (block + num - 1) - gen_bit gen block + 1).

Definition range_in (gen : generic_bitmap) (block num : Z) : Prop :=
  0 ≤ block ∧ 1 ≤ num < 2^31 ∧ block + num + 2^31 < 2^64 ∧
  gen_in gen block ∧ gen_in gen (block + num - 1).

Lemma gen_bit_mono gen x y : 0 ≤ gen_cluster_bits gen → x ≤ y → gen_bit gen x ≤ gen_bit gen y.
Proof.
  intros Hc Hxy. unfold gen_bit. rewrite !Z.shiftr_div_pow2 //. apply Z.div_le_mono; [|done].
  apply Z.pow_pos_nonneg; lia.
Qed.

Lemma elem_of_gen_range gen block num c :
  1 ≤ num → 0 ≤ gen_cluster_bits gen →
  c ∈ gen_range gen block num ↔ ∃ x, block ≤ x < block + num ∧ gen_bit gen x = c.
Proof.
  intros Hn Hc. unfold gen_range. rewrite elem_of_zrange.
  set (p := 2 ^ gen_cluster_bits gen). assert (0 < p) by (apply Z.pow_pos_nonneg; lia).
  assert (Hg : ∀ x, gen_bit gen x = x / p) by (intros; by apply Z.shiftr_div_pow2).
  clearbody p. rewrite !Hg. split.
  - intros Hcr. exists (Z.max block (p * c)).
    pose proof (Z.div_mod block p). pose proof (Z.mod_pos_bound block p).
    pose proof (Z.div_mod (block + num - 1) p). pose proof (Z.mod_pos_bound (block + num - 1) p).
    split; [nia|]. rewrite Hg. apply div_interval; [done|]. nia.
  - intros (x & Hx & <-). rewrite Hg. split; [apply Z.div_le_mono; lia|].
    assert (x / p ≤ (block + num - 1) / p) by (apply Z.div_le_mono; lia). lia.
Qed.

Lemma to_clusters_eq bm block num :
  0 ≤ m64_cluster_bits bm < 31 → 0 ≤ block → 1 ≤ num < 2^31 → block + num + 2^31 < 2^64 →
  to_clusters bm block num =
    (gen_bit (IsBitmap64 bm) block,
     gen_bit (IsBitmap64 bm) (block + num - 1) - gen_bit (IsBitmap64 bm) block + 1) ∧
  1 ≤ gen_bit (IsBitmap64 bm) (block + num - 1) - gen_bit (IsBitmap64 bm) block + 1 ≤ num ∧
  0 ≤ gen_bit (IsBitmap64 bm) block ≤ block.
Proof.
  intros Hc Hb Hn Ho. unfold to_clusters, gen_bit. simpl.
  rewrite Z.shiftl_1_l !Z.shiftr_div_pow2; [|lia..]. set (p := 2 ^ m64_cluster_bits bm).
  assert (1 ≤ p ≤ 2^30) as Hp.
  { unfold p. split; [|apply Z.pow_le_mono_r; lia].
    change 1 with (2^0). apply Z.pow_le_mono_r; lia. }
  clearbody p. rewrite (s32_small p); [|lia]. rewrite (s32_small (p - 1)); [|lia].
  rewrite (u64_small (block + num)); [|lia]. rewrite (u64_small (_ + (p - 1))); [|lia].
  replace (block + num + (p - 1)) with ((block + num - 1) + 1 * p) by lia.
  rewrite Z.div_add; [|lia].
  pose proof (Z.div_mod block p). pose proof (Z.mod_pos_bound block p).
  pose proof (Z.div_mod (block + num - 1) p). pose proof (Z.mod_pos_bound (block + num - 1) p).
  assert (block / p ≤ (block + num - 1) / p) by (apply Z.div_le_mono; lia).
  assert ((block + num - 1) / p - block / p + 1 ≤ num).
  { assert (block + num - 1 < block + p * num); [nia|].
    assert ((block + num - 1) / p ≤ (block + (num - 1) * p) / p) as Hle by (apply Z.div_le_mono; nia).
    rewrite Z.div_add in Hle; lia. }
  assert (0 ≤ block / p ≤ block) by (split; [apply Z.div_pos|apply Z.div_le_upper_bound]; nia).
  rewrite (u64_small (_ + 1 - _)); [|lia]. rewrite u32_small; [|lia].
  split; [|lia]. f_equal. lia.
Qed.

Lemma gen_range_32 bm block num : gen_range (IsBitmap32 bm) block num = zrange block num.
Proof.
  unfold gen_range. rewrite !gen_bit_32. by replace (block + num - 1 - block + 1) with num by lia.
Qed.

(** In a range, testing uses the range of clusters, of at least one bit. *)
Lemma bitmap64_range bm block num :
  0 ≤ m64_cluster_bits bm < 31 → bounds_ok (m64_bmap bm) → range_in (IsBitmap64 bm) block num →
  let c := to_clusters bm block num in
  outside (m64_bmap bm) c.1 c.2 = false ∧ gen_range (IsBitmap64 bm) block num = zrange c.1 c.2 ∧
  b_start (m64_bmap bm) ≤ c.1 ∧ 0 ≤ c.2 < 2^31 ∧ c.1 + c.2 ≤ b_real_end (m64_bmap bm) + 1.
Proof.
  intros Hc (? & ? & ? & ?) (Hb & Hn & Ho & Hs & He).
  destruct (to_clusters_eq bm block num) as (-> & Hle & ?); [done..|]. cbn [fst snd].
  rewrite !gen_in_64_iff in Hs, He. unfold gen_bit in *. cbn [gen_cluster_bits] in *.
  split_and!; try lia; [|done]. unfold outside. rewrite bool_decide_eq_false.
  rewrite (u64_small (_ + _)); [|lia]. rewrite u64_small; [|lia]. lia.
Qed.

(** [v] says whether no bit of the range is set. *)
Definition says_clear (v : Z) (gen : generic_bitmap) (block num : Z) (B : gset Z) : Prop :=
  v ≠ 0 ↔ gen_range gen block num ## B.

(** The tests of ranges are for block bitmaps. *)
Definition block_kind (gen : generic_bitmap) : Prop :=
  match gen with
  | IsBitmap32 bm => m32_magic bm = EXT2_ET_MAGIC_BLOCK_BITMAP
  | _ => True
  end.

(** The 32-bit branch of the functions that mark and unmark ranges. *)
Lemma range_in_32 bm B block num :
  range_in (IsBitmap32 bm) block num →
  bitmap32_at bm B ⊢ ⌜m32_start bm ≤ block ∧ block + num ≤ m32_end bm + 1 ∧ block + num < 2^32 ∧
    EXT2FS_IS_32_BITMAP (m32_magic bm) = true ∧ EXT2FS_IS_64_BITMAP (m32_magic bm) = false ∧
    above_32 block = false ∧ above_32 (u64 (u64 (block + num) - 1)) = false⌝.
Proof.
  iIntros ((Hb & Hn & Ho & Hs & He)) "(%A & (%Hok & _) & _)". destruct Hok as ((?&?&?&?)&H32&_).
  rewrite !gen_in_32_iff in Hs, He. iPureIntro. rewrite (u64_small (block + num)); [|lia].
  rewrite u64_small; [|lia]. rewrite !above_32_spec; [|lia..].
  rewrite !bool_decide_eq_false_2; [|lia..]. split_and!; [lia..|done| |done|done].
  destruct (EXT2FS_IS_64_BITMAP _) eqn:E; [|done]. apply magic_64_32 in E. congruence.
Qed.

Lemma test_clear_range32_spec bm B block num Φ :
  m32_start bm ≤ block → 0 ≤ num < 2^32 → block + num ≤ m32_real_end bm + 1 →
  bitmap32_at bm B -∗
  (∀ v, ⌜v ≠ 0 ↔ zrange block num ## B⌝ -∗ bitmap32_at bm B -∗ Φ v) -∗
  wp (ext2fs_test_clear_generic_bitmap_range bm block num) Φ.
Proof.
  iIntros (Hb Hn He) "Hg HΦ". iDestruct (bitmap32_acc with "Hg") as "(%A & (%Hok & ->) & Harr & Hcl)".
  pose proof Hok as ((? & ? & ? & ?) & H32 & ? & ?).
  unfold ext2fs_test_clear_generic_bitmap_range. wrap.
  iApply (test_clear_bits_spec with "Harr"); [lia..|]. iIntros "Harr".
  iApply ("HΦ" with "[%]"); [|by iApply "Hcl"].
  pose proof (ba_bits_disjoint (view32 bm) A block num) as Hd. simpl in Hd.
  specialize (Hd ltac:(lia) ltac:(lia)). case_decide; split; try done; try lia; tauto.
Qed.

Lemma test_block_bitmap_range2_spec gen B block num Φ :
  block_kind gen → range_in gen block num →
  generic_at gen B -∗
  (∀ v, ⌜says_clear v gen block num B⌝ -∗ generic_at gen B -∗ Φ v) -∗
  wp (ext2fs_test_block_bitmap_range2 gen block num) Φ.
Proof.
  iIntros (Hk Hr) "Hg HΦ". pose proof Hr as (Hb & Hn & Ho & Hs & He).
  unfold ext2fs_test_block_bitmap_range2. iAssert ⌜gen ≠ NullBitmap⌝%I as %Hnn; [by destruct gen; try iDestruct "Hg" as "[]"|].
  assert (is_null gen = false) as -> by (by destruct gen).
  decide_case (num = 1) as Hone.
  { subst num. wp_apply (test_generic_bmap_spec with "Hg"); [lia|]. iIntros (v Hv) "Hg".
    wp_steps. iApply ("HΦ" with "[%] Hg"). unfold says_clear, gen_range.
    replace (block + 1 - 1) with block by lia. replace (gen_bit gen block - gen_bit gen block + 1) with 1 by lia.
    assert (v = 0 ↔ gen_bit gen block ∉ B) as Hv' by (destruct (decide (v = 0)); tauto).
    assert (zrange (gen_bit gen block) 1 ## B ↔ gen_bit gen block ∉ B) as ->.
    { split; [intros Hd HB; apply (Hd (gen_bit gen block)); [apply elem_of_zrange; lia|done]|].
      intros HB x Hx%elem_of_zrange HxB. by replace x with (gen_bit gen block) in HxB by lia. }
    rewrite -Hv'. case_bool_decide; split; try done; lia. }
  destruct gen as [|bm|bm]; [done|..]; cbn [is_null magic_of generic_at]; wp_steps.
  - iDestruct (range_in_32 with "Hg") as %(? & ? & ? & -> & _ & -> & ->); [done|]. simpl in *.
    iAssert ⌜m32_real_end bm + 1 < 2^32 ∧ m32_end bm ≤ m32_real_end bm⌝%I as %[Hre Hee].
    { iDestruct "Hg" as "(%A & (%Hok & _) & _)". destruct Hok as ((?&?&?&?)&_). iPureIntro. lia. }
    unfold ext2fs_test_block_bitmap_range. simpl. wp_steps. rewrite bool_decide_eq_false_2; [|by intros []].
    wp_steps. wrap. rewrite bool_decide_eq_false_2; [|lia].
    iApply (test_clear_range32_spec with "Hg"); [lia..|]. iIntros (v Hv) "Hg".
    iApply ("HΦ" with "[%] Hg"). unfold says_clear. by rewrite gen_range_32.
  - iDestruct (bitmap64_acc with "Hg") as "(%I & (%H64 & %H32 & %Hc & %Hok & %Hsub) & Hbm & Hcl)".
    rewrite H32 H64. cbn [negb andb as_bitmap64]. wp_steps.
    destruct (bitmap64_range bm block num Hc Hok Hr) as (Ho1 & Hrg & ? & ? & ?).
    rewrite Ho1. set (c := to_clusters bm block num) in *. clearbody c. iApply (bm_test_clear_extent with "Hbm"); [lia..|].
    iIntros (v) "[[%H01 %Hv] Hbm]". iApply ("HΦ" with "[%]"); [|by iApply "Hcl"].
    unfold says_clear. rewrite Hrg -Hv. lia.
Qed.

Lemma mark_range32_spec bm B block num Φ :
  m32_start bm ≤ block → 0 ≤ num < 2^31 → block + num ≤ m32_end bm + 1 → block ≤ m32_end bm → 1 ≤ num →
  bitmap32_at bm B -∗ (bitmap32_at bm (zrange block num ∪ B) -∗ Φ tt) -∗
  wp (ext2fs_mark_block_bitmap_range (IsBitmap32 bm) block num) Φ.
Proof.
  iIntros (Hb Hn He Hbe H1) "Hg HΦ".
  iDestruct (bitmap32_acc with "Hg") as "(%A & (%Hok & ->) & Harr & Hcl)".
  pose proof Hok as ((? & ? & ? & ?) & H32 & ? & ?).
  unfold ext2fs_mark_block_bitmap_range. simpl. wp_steps. wrap.
  rewrite bool_decide_eq_false_2; [|lia].
  iApply (wp_wand with "[Harr]").
  { iApply (wp_for_range (λ i, bits_at (m32_bitmap bm) (m32_size bm) (zrange (block - m32_start bm) i ∪ A))%I).
    { iIntros (i Hi) "Harr". wrap. rewrite fast_set_bit_64. iApply (wp_fast_set_bit64 with "Harr"); [lia|].
      iIntros "Harr". replace (zrange (block - m32_start bm) (i + 1) ∪ A) with
        ({[block + i - m32_start bm]} ∪ (zrange (block - m32_start bm) i ∪ A)); [done|]. set_lia. }
    rewrite zrange_empty // left_id_L. iFrame. }
  iIntros ([]) "Harr". rewrite Z.add_0_l Z2Nat.id; [|lia]. iApply "HΦ".
  iDestruct ("Hcl" with "Harr") as "H".
  match goal with |- context [ba_bits _ (_ ∪ A)] =>
    replace (ba_bits (view32 bm) (zrange (block - m32_start bm) num ∪ A))
      with (zrange block num ∪ ba_bits (view32 bm) A); [done|] end.
  apply set_eq. intros x. rewrite elem_of_union !elem_of_ba_bits elem_of_union !elem_of_zrange. simpl.
  split; [intros [?|[? ?]]|intros [[?|?] ?]]; try (right; done); try (left; lia).
  - split; [left; lia|lia].
  - split; [by right|done].
Qed.

Lemma unmark_range32_spec bm B block num Φ :
  m32_start bm ≤ block → 0 ≤ num < 2^31 → block + num ≤ m32_end bm + 1 → block ≤ m32_end bm → 1 ≤ num →
  bitmap32_at bm B -∗ (bitmap32_at bm (B ∖ zrange block num) -∗ Φ tt) -∗
  wp (ext2fs_unmark_block_bitmap_range (IsBitmap32 bm) block num) Φ.
Proof.
  iIntros (Hb Hn He Hbe H1) "Hg HΦ".
  iDestruct (bitmap32_acc with "Hg") as "(%A & (%Hok & ->) & Harr & Hcl)".
  pose proof Hok as ((? & ? & ? & ?) & H32 & ? & ?).
  unfold ext2fs_unmark_block_bitmap_range. simpl. wp_steps. wrap.
  rewrite bool_decide_eq_false_2; [|lia].
  iApply (wp_wand with "[Harr]").
  { iApply (wp_for_range (λ i, bits_at (m32_bitmap bm) (m32_size bm) (A ∖ zrange (block - m32_start bm) i))%I).
    { iIntros (i Hi) "Harr". wrap. rewrite fast_clear_bit_64. iApply (wp_fast_clear_bit64 with "Harr"); [lia|].
      iIntros "Harr". replace (A ∖ zrange (block - m32_start bm) (i + 1)) with
        ((A ∖ zrange (block - m32_start bm) i) ∖ {[block + i - m32_start bm]}); [done|]. set_lia. }
    rewrite zrange_empty // difference_empty_L. iFrame. }
  iIntros ([]) "Harr". rewrite Z.add_0_l Z2Nat.id; [|lia]. iApply "HΦ".
  iDestruct ("Hcl" with "Harr") as "H".
  match goal with |- context [ba_bits _ (A ∖ _)] =>
    replace (ba_bits (view32 bm) (A ∖ zrange (block - m32_start bm) num))
      with (ba_bits (view32 bm) A ∖ zrange block num); [done|] end.
  apply set_eq. intros x. rewrite elem_of_difference !elem_of_ba_bits elem_of_difference !elem_of_zrange. simpl.
  clear. mem_lia.
Qed.

Lemma mark_block_bitmap_range2_spec gen B block num Φ :
  range_in gen block num →
  generic_at gen B -∗ (generic_at gen (gen_range gen block num ∪ B) -∗ Φ tt) -∗
  wp (ext2fs_mark_block_bitmap_range2 gen block num) Φ.
Proof.
  iIntros (Hr) "Hg HΦ". pose proof Hr as (Hb & Hn & Ho & _).
  unfold ext2fs_mark_block_bitmap_range2. destruct gen as [|bm|bm]; [done|..]; cbn [is_null magic_of generic_at]; wp_steps.
  - iDestruct (range_in_32 with "Hg") as %(? & ? & ? & -> & -> & -> & ->); [done|]. simpl. wrap.
    wp_apply (mark_range32_spec with "Hg"); [lia..|]. iIntros "Hg". wp_steps.
    iApply "HΦ". by rewrite gen_range_32.
  - iDestruct (bitmap64_acc with "Hg") as "(%I & (%H64 & %H32 & %Hc & %Hok & %Hsub) & Hbm & Hcl)".
    rewrite H32 H64. cbn [negb andb as_bitmap64]. wp_steps.
    destruct (bitmap64_range bm block num Hc Hok Hr) as (Ho1 & Hrg & ? & ? & ?).
    rewrite Ho1. set (c := to_clusters bm block num) in *. clearbody c. iApply (bm_mark_extent with "Hbm"); [lia..|].
    iIntros (v) "Hbm". destruct v. iApply "HΦ". rewrite Hrg. by iApply "Hcl".
Qed.

Lemma unmark_block_bitmap_range2_spec gen B block num Φ :
  range_in gen block num →
  generic_at gen B -∗ (generic_at gen (B ∖ gen_range gen block num) -∗ Φ tt) -∗
  wp (ext2fs_unmark_block_bitmap_range2 gen block num) Φ.
Proof.
  iIntros (Hr) "Hg HΦ". pose proof Hr as (Hb & Hn & Ho & _).
  unfold ext2fs_unmark_block_bitmap_range2. destruct gen as [|bm|bm]; [done|..]; cbn [is_null magic_of generic_at]; wp_steps.
  - iDestruct (range_in_32 with "Hg") as %(? & ? & ? & -> & -> & -> & ->); [done|]. simpl. wrap.
    wp_apply (unmark_range32_spec with "Hg"); [lia..|]. iIntros "Hg". wp_steps.
    iApply "HΦ". by rewrite gen_range_32.
  - iDestruct (bitmap64_acc with "Hg") as "(%I & (%H64 & %H32 & %Hc & %Hok & %Hsub) & Hbm & Hcl)".
    rewrite H32 H64. cbn [negb andb as_bitmap64]. wp_steps.
    destruct (bitmap64_range bm block num Hc Hok Hr) as (Ho1 & Hrg & ? & ? & ?).
    rewrite Ho1. set (c := to_clusters bm block num) in *. clearbody c. iApply (bm_unmark_extent with "Hbm"); [lia..|].
    iIntros (v) "Hbm". destruct v. iApply "HΦ". rewrite Hrg. by iApply "Hcl".
Qed.

(** ** Searching *)

(** What a search for a set ([want]) or clear bit looks for, among blocks. *)
Definition wanted (want : bool) (gen : generic_bitmap) (B : gset Z) (x : Z) : Prop :=
  if want then gen_bit gen x ∈ B else gen_bit gen x ∉ B.

Definition found_block (want : bool) (gen : generic_bitmap) (B : gset Z) (s e : Z)
    (r : errcode * Z) : Prop :=
  if decide (want = false ∧ gen_tree gen = true ∧ B = ∅) then r.1 = ENOENT
  else is_first (wanted want gen B) s e r.

Lemma found_block_first want gen B s e r :
  want = true ∨ gen_tree gen = false ∨ B ≠ ∅ →
  found_block want gen B s e r → is_first (wanted want gen B) s e r.
Proof. intros Hw. unfold found_block. rewrite decide_False //. intros (? & ? & ?). intuition congruence. Qed.

Lemma wanted_test want (B : gset Z) c v :
  (v ≠ 0 ↔ c ∈ B) → bool_decide (bool_decide (v ≠ 0) = want) = true ↔ (if want then c ∈ B else c ∉ B).
Proof.
  intros Hv. rewrite bool_decide_eq_true. destruct want.
  - by rewrite bool_decide_eq_true.
  - rewrite bool_decide_eq_false. tauto.
Qed.

(** From the bits to the blocks. *)
Lemma is_first_blocks bm P s e r :
  0 ≤ m64_cluster_bits bm → 0 ≤ s ≤ e → e < 2^64 →
  is_first P (gen_bit (IsBitmap64 bm) s) (gen_bit (IsBitmap64 bm) e) r →
  is_first (λ x, P (gen_bit (IsBitmap64 bm) x)) s e
    (if decide (r.1 = E_OK) then (E_OK, found_at bm s r.2) else (r.1, 0)).
Proof.
  intros Hc Hs He.
  assert (Hmono : ∀ x y, x ≤ y → gen_bit (IsBitmap64 bm) x ≤ gen_bit (IsBitmap64 bm) y).
  { intros. by apply gen_bit_mono. }
  intros [(Hr & Hrange & HP & Hfirst)|[Hr Hnone]].
  - rewrite decide_True //. left. simpl.
    unfold found_at. rewrite Z.shiftl_mul_pow2 //.
    assert (Hg : ∀ x, gen_bit (IsBitmap64 bm) x = x / 2 ^ m64_cluster_bits bm)
      by (intros; by apply Z.shiftr_div_pow2).
    set (p := 2 ^ m64_cluster_bits bm) in *. assert (0 < p) by (apply Z.pow_pos_nonneg; lia).
    clearbody p. rewrite !Hg in Hrange.
    assert (Hpe : r.2 * p ≤ e).
    { pose proof (Z.div_mod e p). pose proof (Z.mod_pos_bound e p). nia. }
    assert (0 ≤ s / p) by (apply Z.div_pos; lia). assert (0 ≤ r.2 * p) by nia.
    rewrite u64_small; [|lia].
    assert (Hx : ∀ x, x = (if bool_decide (s ≤ r.2 * p) then r.2 * p else s) →
      s ≤ x ≤ e ∧ x / p = r.2 ∧ ∀ y, s ≤ y < x → s / p ≤ y / p < r.2).
    { intros x ->. case_bool_decide as Hsr.
      - split; [lia|]. rewrite Z.div_mul; [|lia]. split; [done|]. intros y Hy.
        split; [apply Z.div_le_mono; lia|]. apply Z.div_lt_upper_bound; lia.
      - split; [lia|]. split; [|lia]. apply Z.le_antisymm; [lia|].
        apply Z.div_le_lower_bound; lia. }
    destruct (Hx _ eq_refl) as (? & Hxp & Hy). split_and!; [done|lia|lia| |].
    + by rewrite Hg Hxp.
    + intros y Hyr. rewrite Hg. apply Hfirst. rewrite Hg. by apply Hy.
  - right. rewrite decide_False; [|by rewrite Hr]. split; [done|]. intros x Hx.
    apply Hnone. split; apply Hmono; lia.
Qed.

Lemma find_first32_spec want bm B s e Φ :
  0 ≤ s < 2^32 → 0 ≤ e < 2^32 →
  bitmap32_at bm B -∗
  (∀ r, ⌜if decide (m32_start bm ≤ s ≤ e ∧ e ≤ m32_end bm)
         then is_first (wanted want (IsBitmap32 bm) B) s e r else r.1 = EINVAL⌝ -∗
     bitmap32_at bm B -∗ Φ r) -∗
  wp (find_first32 want (IsBitmap32 bm) s e) Φ.
Proof.
  iIntros (Hs He) "Hg HΦ". unfold find_first32. simpl. wp_steps. case_bool_decide as Hr.
  { wp_steps. iApply ("HΦ" with "[%] Hg"). rewrite decide_False //. lia. }
  iDestruct (bitmap32_acc with "Hg") as "(%A & (%Hok & ->) & Harr & Hcl)".
  pose proof Hok as ((? & ? & ? & ?) & H32 & ? & ?).
  (* the positions before [x] are not wanted *)
  set (W := wanted want (IsBitmap32 bm) (ba_bits (view32 bm) A)).
  assert (Hloop : ∀ m x, m = Z.to_nat (e + 1 - x) → s ≤ x ≤ e + 1 → (∀ y, s ≤ y < x → ¬ W y) →
    ⊢ bits_at (m32_bitmap bm) (m32_size bm) A -∗
      (∀ r, ⌜is_first W s e r⌝ -∗ bits_at (m32_bitmap bm) (m32_size bm) A -∗ Φ r) -∗
      wp (loop (find_step32 bm want e) x) Φ).
  { induction m as [|m IH]; iIntros (x Hm Hx Hnone) "Harr HΦ"; wp_loop find_step32.
    - rewrite bool_decide_eq_false_2; [|lia]. wp_steps. iApply ("HΦ" with "[%] Harr").
      right. split; [done|]. intros y Hy. apply Hnone. lia.
    - rewrite bool_decide_eq_true_2; [|lia]. rewrite test_bit_64. wrap.
      wp_apply (wp_test_bit64 with "Harr"); [lia|]. iIntros "Harr".
      assert (HW : bool_decide (bool_decide (mask_of A (x - m32_start bm) ≠ 0) = want) = true ↔ W x).
      { unfold W, wanted. rewrite gen_bit_32. apply wanted_test.
        apply (ba_bits_test (view32 bm)). simpl. lia. }
      destruct (bool_decide _) eqn:Eb.
      + wp_steps. iApply ("HΦ" with "[%] Harr"). left. simpl. split_and!; [done|lia|lia|tauto|done].
      + wp_steps. wrap. iApply (IH with "Harr"); [lia|lia| |done].
        intros y Hy. destruct (decide (y = x)) as [->|]; [|apply Hnone; lia].
        intros HWx. by apply HW in HWx. }
  iApply (Hloop with "Harr"); [done|lia|lia|]. iIntros (r Hf) "Harr".
  iApply ("HΦ" with "[%]"); [|by iApply "Hcl"]. rewrite decide_True //. lia.
Qed.

Lemma find_loop_spec (want : bool) bm (I : BitmapImpl (m64_ops bm)) (B : gset Z) s e Φ :
  b_start (m64_bmap bm) ≤ s ≤ e → e ≤ b_real_end (m64_bmap bm) → 0 ≤ s → e + 1 < 2^64 →
  bm_at (m64_bmap bm) B -∗
  (∀ r, ⌜is_first (λ c : Z, if want then c ∈ B else c ∉ B) s e
          (match r with Some c => (E_OK, c) | None => (ENOENT, 0) end)⌝ -∗
     bm_at (m64_bmap bm) B -∗ Φ r) -∗
  wp (loop (find_loop_step bm want e) s) Φ.
Proof.
  intros Hs He H0 H64. set (W := λ c : Z, if want then c ∈ B else c ∉ B).
  assert (Hloop : ∀ m x, m = Z.to_nat (e + 1 - x) → s ≤ x ≤ e + 1 → (∀ y, s ≤ y < x → ¬ W y) →
    ⊢ bm_at (m64_bmap bm) B -∗
      (∀ r, ⌜is_first W s e (match r with Some c => (E_OK, c) | None => (ENOENT, 0) end)⌝ -∗
         bm_at (m64_bmap bm) B -∗ Φ r) -∗
      wp (loop (find_loop_step bm want e) x) Φ).
  { induction m as [|m IH]; iIntros (x Hm Hx Hnone) "Hbm HΦ"; wp_loop find_loop_step.
    - rewrite bool_decide_eq_false_2; [|lia]. wp_steps. iApply ("HΦ" with "[%] Hbm").
      right. split; [done|]. intros y Hy. apply Hnone. lia.
    - rewrite bool_decide_eq_true_2; [|lia]. wp_apply (bm_test with "Hbm"); [lia|].
      iIntros (v) "[%Hv Hbm]". pose proof (wanted_test want B x v Hv) as HW.
      destruct (bool_decide (bool_decide _ = want)) eqn:Eb.
      + wp_steps. iApply ("HΦ" with "[%] Hbm"). left. simpl. split_and!; [done|lia|lia|tauto|done].
      + wp_steps. wrap. iApply (IH with "Hbm"); [lia|lia| |done].
        intros y Hy. destruct (decide (y = x)) as [->|]; [|apply Hnone; lia].
        intros HWx. by apply HW in HWx. }
  iIntros "Hbm HΦ". iApply (Hloop with "Hbm"); [done|lia|lia|done].
Qed.

(** A search in range finds the first block wanted; one out of range is an
    error. *)
Lemma find_first_bmap_spec want gen B s e Φ :
  0 ≤ s < 2^64 → 0 ≤ e < 2^64 →
  generic_at gen B -∗
  (∀ r, ⌜if decide (s ≤ e ∧ gen_in gen s ∧ gen_in gen e) then found_block want gen B s e r
         else r.1 = EINVAL⌝ -∗
     generic_at gen B -∗ Φ r) -∗
  wp (find_first_bmap want gen s e) Φ.
Proof.
  iIntros (Hs He) "Hg HΦ". unfold find_first_bmap. destruct gen as [|bm|bm]; [done|..].
  - iAssert ⌜bitmap32_ok bm⌝%I as %Hok; [by iDestruct "Hg" as "(%A & (%Hok & _) & _)"|].
    destruct Hok as ((? & ? & ? & ?) & H32 & _). cbn [is_null magic_of]. wp_steps. rewrite H32.
    rewrite !above_32_spec; [|lia..].
    decide_case (2^32 ≤ s) as Hbs; [|decide_case (2^32 ≤ e) as Hbe]; simpl.
    1,2: wp_steps; iApply ("HΦ" with "[%] Hg"); rewrite decide_False //;
      rewrite !gen_in_32_iff; lia.
    rewrite (u32_small s); [|lia]. rewrite (u32_small e); [|lia].
    iApply (find_first32_spec with "Hg"); [lia..|]. iIntros (r Hr) "Hg".
    iApply ("HΦ" with "[%] Hg"). pose proof (gen_in_32_iff bm s). pose proof (gen_in_32_iff bm e).
    destruct (decide (s ≤ e ∧ _)) as [Hd|Hd];
      destruct (decide (m32_start bm ≤ s ≤ e ∧ e ≤ m32_end bm)) as [Hd'|Hd'].
    + unfold found_block. rewrite decide_False //. by intros (_ & ? & _).
    + exfalso. apply Hd'. split; [|tauto]. split; tauto.
    + exfalso. apply Hd. split_and!; [lia|..]; [apply H3|apply H4]; lia.
    + done.
  - iDestruct (bitmap64_acc with "Hg") as "(%I & (%H64 & %H32 & %Hc & %Hok & %Hsub) & Hbm & Hcl)".
    destruct Hok as (? & ? & ? & ?). cbn [is_null magic_of]. wp_steps. rewrite H32 H64.
    cbn [negb as_bitmap64]. wp_steps.
    change (Z.shiftr s (m64_cluster_bits bm)) with (gen_bit (IsBitmap64 bm) s).
    change (Z.shiftr e (m64_cluster_bits bm)) with (gen_bit (IsBitmap64 bm) e).
    pose proof (shiftr_range e (m64_cluster_bits bm) He) as Hre.
    change (Z.shiftr e (m64_cluster_bits bm)) with (gen_bit (IsBitmap64 bm) e) in Hre.
    assert (Hmono : s ≤ e → gen_bit (IsBitmap64 bm) s ≤ gen_bit (IsBitmap64 bm) e).
    { intros. apply gen_bit_mono; [simpl; lia|done]. }
    case_bool_decide as Hout.
    { wp_steps. iApply ("HΦ" with "[%]"); [|by iApply "Hcl"]. rewrite decide_False //.
      unfold gen_in. simpl. lia. }
    assert (Hin : s ≤ e ∧ gen_in (IsBitmap64 bm) s ∧ gen_in (IsBitmap64 bm) e)
      by (unfold gen_in; simpl; lia).
    set (tree := is_tree (m64_ops bm)).
    assert (Hfound : ∀ r, (if decide (want = false ∧ tree = true ∧ B = ∅) then r.1 = ENOENT else
        is_first (λ c : Z, if want then c ∈ B else c ∉ B)
          (gen_bit (IsBitmap64 bm) s) (gen_bit (IsBitmap64 bm) e) r) →
      found_block want (IsBitmap64 bm) B s e
        (if decide (r.1 = E_OK) then (E_OK, found_at bm s r.2) else (r.1, 0))).
    { intros r Hf. unfold found_block. cbn [gen_tree]. fold tree.
      destruct (decide (want = false ∧ tree = true ∧ B = ∅)).
      - destruct (decide (r.1 = E_OK)); [congruence|done].
      - apply (is_first_blocks bm) in Hf; [|lia..]. eapply is_first_ext; [|exact Hf].
        intros x Hx. by destruct want. }
    destruct ((if want then find_first_set else find_first_zero) (m64_ops bm)) as [f|] eqn:Ef.
    + iApply wp_bind. iApply (wp_wand _ (λ r,
        ⌜if decide (want = false ∧ tree = true ∧ B = ∅) then r.1 = ENOENT else
         is_first (λ c : Z, if want then c ∈ B else c ∉ B)
          (gen_bit (IsBitmap64 bm) s) (gen_bit (IsBitmap64 bm) e) r⌝ ∗ bm_at (m64_bmap bm) B)%I
        with "[Hbm]").
      { destruct want.
        - iApply (bm_find_first_set with "Hbm"); [done|lia..|]. iIntros (r) "[% $]". iPureIntro.
          case_decide as Hd; [by destruct Hd|done].
        - iApply (bm_find_first_zero with "Hbm"); [done|lia..|]. iIntros (r) "[%Hr $]". iPureIntro.
          fold tree in Hr. destruct (decide (tree = true ∧ B = ∅)) as [[??]|Hno].
          + case_decide as Hd; [done|by destruct Hd].
          + case_decide as Hd; [|done]. destruct Hno. tauto. }
      iIntros (r) "[%Hr Hbm]". apply Hfound in Hr.
      decide_case (r.1 ≠ E_OK) as Hrok; wp_steps; (iApply ("HΦ" with "[%]"); [|by iApply "Hcl"]).
      * rewrite decide_True //. by rewrite decide_False in Hr.
      * rewrite decide_True //. by destruct (decide (r.1 = E_OK)).
    + wp_apply (find_loop_spec with "Hbm"); [lia..|]. iIntros (r Hr) "Hbm". wp_steps.
      iApply ("HΦ" with "[%]"); [|by iApply "Hcl"].
      rewrite decide_True //. assert (¬ (want = false ∧ tree = true ∧ B = ∅)) as Hno.
      { intros (-> & Ht & _). apply bm_tree_search in Ht as [? Ht]. congruence. }
      destruct r as [c|]; [apply (Hfound (E_OK, c))|apply (Hfound (ENOENT, 0))];
        (case_decide as Hd; [by destruct (Hno Hd)|exact Hr]).
Qed.

(** ** Allocation and release *)
Lemma wp_store_bytes p bs k Φ :
  (length bs ≤ k)%nat →
  owns_block p 1 k -∗ (owns_block p 1 k -∗ Φ tt) -∗ wp (store_bytes p bs) Φ.
Proof.
  revert p k Φ. induction bs as [|b bs IH]; iIntros (p k Φ Hk) "H HΦ"; simpl.
  - wp_steps. by iApply "HΦ".
  - destruct k as [|k]; simpl in *; [lia|]. iDestruct "H" as "[Hp H]". wp_store.
    iApply (IH with "H"); [lia|]. iIntros "H". iApply "HΦ". iFrame. by iApply pointsto_owns.
Qed.

Lemma new_description_spec extra prefix text Φ :
  (length prefix < extra)%nat →
  ((∀ d, ⌜d_text d = prefix ++ text⌝ -∗ descr_at (Some d) -∗ Φ (E_OK, Some d)) ∧
   (⌜malloc_can_fail⌝ -∗ Φ (EXT2_ET_NO_MEMORY, None))) -∗
  wp (new_description extra prefix text) Φ.
Proof.
  iIntros (Hl) "HΦ". unfold new_description. wp_apply wp_get_mem; [done|]. iSplit.
  - iIntros (p [Hp _]) "Hp". simpl. wp_apply (wp_store_bytes with "Hp").
    { rewrite !length_app /=. lia. }
    iIntros "Hp". wp_steps. iDestruct "HΦ" as "[HΦ _]". iApply ("HΦ" with "[%]"); [done|].
    simpl. iFrame. iPureIntro. lia.
  - iIntros (Hf). simpl. wp_steps. iDestruct "HΦ" as "[_ HΦ]". by iApply "HΦ".
Qed.

Lemma copy_description_spec descr Φ :
  ((∀ d, ⌜d_text <$> d = descr⌝ -∗ descr_at d -∗ Φ (E_OK, d)) ∧
   (⌜malloc_can_fail⌝ -∗ Φ (EXT2_ET_NO_MEMORY, None))) -∗
  wp (copy_description descr) Φ.
Proof.
  iIntros "HΦ". destruct descr as [text|]; simpl.
  - iApply new_description_spec; [simpl; lia|]. iSplit.
    + iIntros (d Hd) "Hd". iDestruct "HΦ" as "[HΦ _]". iApply ("HΦ" with "[%] Hd"). by rewrite /= Hd.
    + iDestruct "HΦ" as "[_ HΦ]". done.
  - wp_steps. iDestruct "HΦ" as "[HΦ _]". by iApply ("HΦ" $! None).
Qed.

Lemma free_description_spec d Φ : descr_at d -∗ Φ tt -∗ wp (free_description d) Φ.
Proof.
  iIntros "Hd HΦ". destruct d as [d|]; simpl; [|by wp_steps].
  iDestruct "Hd" as "[%Hd Hd]". unfold ext2fs_free_mem. iApply wp_free; [done|done|]. iFrame.
Qed.

Lemma array_size32_spec s re :
  0 ≤ s ≤ re → re + 1 < 2^32 →
  re - s < 8 * array_size32 s re ∧ 0 ≤ array_size32 s re < 2^33.
Proof.
  intros Hs Hr. unfold array_size32.
  pose proof (Z.div_mod (re - s) 8). pose proof (Z.mod_pos_bound (re - s) 8).
  change (2^64 - 4) with (Z.shiftl (Z.ones 62) 2). wrap.
  rewrite land_high; [|lia..]. change (2^2) with 4.
  pose proof (Z.div_mod ((re - s) / 8 + 1 + 7) 4). pose proof (Z.mod_pos_bound ((re - s) / 8 + 1 + 7) 4). lia.
Qed.

(** The array is filled from [P]. *)
Lemma make_generic_bitmap_spec magic s e re descr init A (P : hProp) Φ :
  0 ≤ s ≤ e → e ≤ re → re + 1 < 2^32 → EXT2FS_IS_32_BITMAP magic = true →
  (∀ a Ψ, owns_block a 1 (Z.to_nat (array_size32 s re)) -∗ P -∗
     (bits_at a (Z.to_nat (array_size32 s re)) A -∗ P -∗ Ψ tt) -∗
     wp (if bool_decide (init ≠ 0) then memcpy 1 a init (Z.to_nat (array_size32 s re))
         else memset a 0 (Z.to_nat (array_size32 s re))) Ψ) →
  P -∗
  ((∀ bm, ⌜view32 bm = Bmap64 s e re 0 ∧ m32_magic bm = magic ∧ d_text <$> m32_descr bm = descr ∧
       m32_size bm = Z.to_nat (array_size32 s re)⌝ -∗
      bitmap32_at bm (ba_bits (Bmap64 s e re 0) A) -∗ P -∗ Φ (E_OK, IsBitmap32 bm)) ∧
   (⌜malloc_can_fail⌝ -∗ P -∗ Φ (EXT2_ET_NO_MEMORY, NullBitmap))) -∗
  wp (ext2fs_make_generic_bitmap magic s e re descr init) Φ.
Proof.
  iIntros (Hs He Hr Hmag Hfill) "HP HΦ". destruct (array_size32_spec s re) as [Hsz _]; [lia..|].
  unfold ext2fs_make_generic_bitmap. wp_apply wp_get_mem; [done|]. iSplit; last first.
  { iIntros (Hf). simpl. wp_steps. iDestruct "HΦ" as "[_ HΦ]". by iApply ("HΦ" with "[%]"). }
  iIntros (addr [Haddr _]) "Haddr". simpl. wp_apply copy_description_spec. iSplit; last first.
  { iIntros (Hf). simpl. unfold ext2fs_free_mem. iApply wp_bind. iApply wp_free; [done|lia|]. iFrame "Haddr".
    wp_steps. iDestruct "HΦ" as "[_ HΦ]". by iApply ("HΦ" with "[%]"). }
  iIntros (d Hd) "Hd". simpl. wp_apply wp_get_mem; [done|]. iSplit; last first.
  { iIntros (Hf). simpl. iApply wp_bind. iApply (free_description_spec with "Hd").
    unfold ext2fs_free_mem. iApply wp_bind. iApply wp_free; [done|lia|]. iFrame "Haddr".
    wp_steps. iDestruct "HΦ" as "[_ HΦ]". by iApply ("HΦ" with "[%]"). }
  iIntros (a [Ha _]) "Ha". simpl. wp_apply (Hfill with "Ha HP"). iIntros "Ha HP". wp_steps.
  iDestruct "HΦ" as "[HΦ _]". iApply ("HΦ" with "[%] [-HP] HP"); [done|].
  iExists A. iFrame "Ha". iSplit.
  { iPureIntro. split; [|done]. unfold bitmap32_ok, bounds32. simpl. split_and!; try done; try lia. }
  iFrame. iPureIntro. simpl. lia.
Qed.

(** A new 32-bit bitmap is empty. *)
Lemma make_empty_bitmap_spec magic s e re descr Φ :
  0 ≤ s ≤ e → e ≤ re → re + 1 < 2^32 → EXT2FS_IS_32_BITMAP magic = true →
  ((∀ bm, ⌜view32 bm = Bmap64 s e re 0 ∧ m32_magic bm = magic ∧ d_text <$> m32_descr bm = descr ∧
       m32_size bm = Z.to_nat (array_size32 s re)⌝ -∗
      bitmap32_at bm ∅ -∗ Φ (E_OK, IsBitmap32 bm)) ∧
   (⌜malloc_can_fail⌝ -∗ Φ (EXT2_ET_NO_MEMORY, NullBitmap))) -∗
  wp (ext2fs_make_generic_bitmap magic s e re descr 0) Φ.
Proof.
  iIntros (????) "HΦ". iApply (make_generic_bitmap_spec _ _ _ _ _ _ ∅ emp%I with "[//]"); [done..| |].
  - iIntros (a Ψ) "Ha _ HΨ". rewrite bool_decide_eq_false_2; [|lia].
    iApply (wp_memset_zero with "Ha"). iIntros "Ha". by iApply ("HΨ" with "Ha").
  - rewrite ba_bits_empty. iSplit.
    + iIntros (bm Hbm) "Hbm _". iDestruct "HΦ" as "[HΦ _]". by iApply ("HΦ" with "[%]").
    + iIntros (Hf) "_". iDestruct "HΦ" as "[_ HΦ]". by iApply "HΦ".
Qed.

Lemma free_generic_bitmap_spec bm B Φ :
  bitmap32_at bm B -∗ Φ tt -∗ wp (ext2fs_free_generic_bitmap (IsBitmap32 bm)) Φ.
Proof.
  iIntros "(%A & (%Hok & _) & (%Ha & Ha & Hd) & Harr) HΦ". destruct Hok as (_ & H32 & Hp & _).
  unfold ext2fs_free_generic_bitmap, check_magic. simpl. wp_steps. rewrite H32. simpl. wp_steps.
  iApply (free_description_spec with "Hd"). rewrite bool_decide_eq_true_2 //.
  unfold ext2fs_free_mem. rewrite bits_at_owns. iApply wp_bind. iApply wp_free; [done|done|]. iFrame "Harr".
  iApply wp_free; [done|done|]. iFrame.
Qed.

Lemma free_generic_bmap_spec gen B Φ :
  generic_at gen B -∗ Φ tt -∗ wp (ext2fs_free_generic_bmap gen) Φ.
Proof.
  iIntros "Hg HΦ". unfold ext2fs_free_generic_bmap. destruct gen as [|bm|bm]; [done|..]; simpl; wp_steps.
  - iAssert ⌜EXT2FS_IS_32_BITMAP (m32_magic bm) = true⌝%I as %->.
    { iDestruct "Hg" as "(%A & (%Hok & _) & _)". by destruct Hok as (_ & ? & _). }
    by iApply (free_generic_bitmap_spec with "Hg").
  - iDestruct "Hg" as "(%I & (%H64 & %Hc) & (%Ha & Ha & Hd) & Hbm)".
    rewrite H64 magic_64_32 //. simpl. wp_steps. wp_apply (bm_free with "Hbm"). iIntros (v) "_".
    iApply wp_bind. iApply (free_description_spec with "Hd").
    unfold ext2fs_free_mem. iApply wp_free; [done|done|]. iFrame.
Qed.

(** A new 64-bit bitmap is empty, whichever implementation the type names. *)
Lemma alloc_generic_bmap_spec fs magic type s e re descr ops (I : BitmapImpl ops) Φ :
  0 ≤ s ≤ e → e ≤ re → re + 1 < 2^64 → EXT2FS_IS_64_BITMAP magic = true →
  0 ≤ fs_cluster_ratio_bits fs < 31 →
  bmap64_ops_of_type fs type = Some (Some ops) →
  ((∀ bm, ⌜m64_magic bm = magic ∧ m64_ops bm = ops ∧
       m64_bmap bm = Bmap64 s e re (b_private (m64_bmap bm)) ∧ d_text <$> m64_descr bm = descr ∧
       m64_cluster_bits bm =
         if bool_decide (magic = EXT2_ET_MAGIC_BLOCK_BITMAP64) then fs_cluster_ratio_bits fs else 0⌝ -∗
      bitmap64_at bm ∅ -∗ Φ (E_OK, IsBitmap64 bm)) ∧
   (⌜malloc_can_fail⌝ -∗ Φ (EXT2_ET_NO_MEMORY, NullBitmap))) -∗
  wp (ext2fs_alloc_generic_bmap fs magic type s e re descr) Φ.
Proof.
  iIntros (Hs He Hr Hmag Hc Hops) "HΦ". unfold ext2fs_alloc_generic_bmap. rewrite Hops.
  wp_apply wp_get_memzero; [done|]. iSplit; last first.
  { iIntros (Hf). simpl. wp_steps. iDestruct "HΦ" as "[_ HΦ]". by iApply ("HΦ" with "[%]"). }
  iIntros (addr [Haddr _]) "Haddr". simpl. wp_apply copy_description_spec. iSplit; last first.
  { iIntros (Hf). simpl. unfold ext2fs_free_mem. iApply wp_bind. iApply wp_free; [done|lia|]. iFrame "Haddr".
    wp_steps. iDestruct "HΦ" as "[_ HΦ]". by iApply ("HΦ" with "[%]"). }
  iIntros (d Hd) "Hd". simpl. wp_apply bm_new; [unfold bounds_ok; simpl; lia|done|].
  iIntros ([err b]) "[[[%Hok %Hb] Hbm]|[%Herr %Hf]]"; simpl in *; subst; simpl.
  - wp_steps. iDestruct "HΦ" as "[HΦ _]". iApply ("HΦ" with "[%]").
    { simpl. rewrite Hb. done. }
    iExists I. simpl. iFrame. iPureIntro. split; [|lia]. split; [done|]. case_bool_decide; lia.
  - iApply wp_bind. iApply (free_description_spec with "Hd").
    unfold ext2fs_free_mem. iApply wp_bind. iApply wp_free; [done|lia|]. iFrame "Haddr".
    wp_steps. iDestruct "HΦ" as "[_ HΦ]". by iApply ("HΦ" with "[%]").
Qed.

(** The copy reads a padded array: see [copy_after_resize_fault]. *)
Definition copy_ok (gen : generic_bitmap) : Prop :=
  match gen with
  | IsBitmap32 bm => array_size32 (m32_start bm) (m32_real_end bm) ≤ Z.of_nat (m32_size bm)
  | _ => True
  end.

Definition same_bitmap (gen gen' : generic_bitmap) : Prop :=
  match gen, gen' with
  | IsBitmap32 bm, IsBitmap32 bm' =>
      view32 bm' = view32 bm ∧ m32_magic bm' = m32_magic bm ∧
      m32_size bm' = Z.to_nat (array_size32 (m32_start bm') (m32_real_end bm'))
  | IsBitmap64 bm, IsBitmap64 bm' =>
      m64_ops bm' = m64_ops bm ∧ m64_magic bm' = m64_magic bm ∧
      m64_cluster_bits bm' = m64_cluster_bits bm ∧
      m64_bmap bm' = set_private (m64_bmap bm) (b_private (m64_bmap bm'))
  | _, _ => False
  end.

Lemma bits_at_take p n k A :
  (k ≤ n)%nat →
  bits_at p n A ⊢ ∃ bs, ⌜length bs = k ∧ bytes_bits bs (A ∩ zrange 0 (8 * Z.of_nat k))⌝ ∗
    array_at p 1 bs ∗ (array_at p 1 bs -∗ bits_at p n A).
Proof.
  iIntros (Hk) "(%bs & (%Hlen & %Hb) & H)". assert (length (take k bs) = k) as Hl by (rewrite length_take; lia).
  iExists (take k bs). iSplit.
  { iPureIntro. split; [done|]. pose proof Hb as Hb'. rewrite -(take_drop k bs) in Hb'.
    apply bytes_bits_app in Hb' as (Hb' & _). by rewrite Hl in Hb'. }
  iAssert (array_at p 1 (take k bs ++ drop k bs)) with "[H]" as "H"; [by rewrite take_drop|].
  rewrite array_at_app. iDestruct "H" as "[$ H2]". iIntros "H1".
  iAssert (array_at p 1 (take k bs ++ drop k bs)) with "[H1 H2]" as "H"; [rewrite array_at_app; iFrame|].
  rewrite take_drop. iExists bs. by iFrame.
Qed.

Lemma copy_generic_bmap_spec gen B Φ :
  copy_ok gen →
  generic_at gen B -∗
  ((∀ gen', ⌜same_bitmap gen gen'⌝ -∗ generic_at gen B -∗ generic_at gen' B -∗ Φ (E_OK, gen')) ∧
   (⌜malloc_can_fail⌝ -∗ generic_at gen B -∗ Φ (EXT2_ET_NO_MEMORY, NullBitmap))) -∗
  wp (ext2fs_copy_generic_bmap gen) Φ.
Proof.
  iIntros (Hco) "Hg HΦ". unfold ext2fs_copy_generic_bmap. destruct gen as [|bm|bm]; [done|..]; simpl; wp_steps.
  - iDestruct "Hg" as "(%A & (%Hok & ->) & Hst & Harr)". pose proof Hok as ((? & ? & ? & ?) & H32 & Hp & ?).
    destruct (array_size32_spec (m32_start bm) (m32_real_end bm)) as [Hsz _]; [lia..|].
    rewrite H32. unfold ext2fs_copy_generic_bitmap. simpl. wp_steps.
    set (k := Z.to_nat (array_size32 (m32_start bm) (m32_real_end bm))).
    iApply (make_generic_bitmap_spec _ _ _ _ _ _ (A ∩ zrange 0 (8 * Z.of_nat k))
      (bits_at (m32_bitmap bm) (m32_size bm) A) with "Harr"); [lia..|done| |].
    + iIntros (a Ψ) "Ha Harr HΨ". rewrite bool_decide_eq_true_2 //. fold k.
      iDestruct (bits_at_take _ _ k with "Harr") as "(%bs & [%Hl %Hb] & Harr & Hcl)"; [cbn [copy_ok] in Hco; unfold k; lia|].
      rewrite -Hl. iApply (wp_memcpy with "Ha Harr"). iIntros "Ha Harr".
      iApply ("HΨ" with "[Ha]"); [|by iApply "Hcl"]. rewrite Hl. iExists bs. by iFrame.
    + iSplit.
      * iIntros (bm' (Hv & Hm & Hd & Hs)) "Hbm Harr". iDestruct "HΦ" as "[HΦ _]".
        iApply ("HΦ" $! (IsBitmap32 bm') with "[%] [Hst Harr] [Hbm]");
          [unfold same_bitmap; rewrite Hv; injection Hv as Hv1 _ Hv3; by rewrite Hv1 Hv3 Hs|by iExists A; iFrame|].
        simpl.
        replace (ba_bits (view32 bm) A) with
          (ba_bits (Bmap64 (m32_start bm) (m32_end bm) (m32_real_end bm) 0) (A ∩ zrange 0 (8 * Z.of_nat k)));
          [done|].
        apply set_eq. intros x. rewrite !elem_of_ba_bits elem_of_intersection elem_of_zrange. simpl.
        split; [tauto|]. intros [??]. split; [split; [done|unfold k; lia]|done].
      * iIntros (Hf) "Harr". iDestruct "HΦ" as "[_ HΦ]". iApply ("HΦ" with "[//]"). iExists A. by iFrame.
  - iDestruct "Hg" as "(%I & (%H64 & %Hc) & (%Ha & Ha & Hd) & Hbm)".
    rewrite H64 magic_64_32 //. simpl. wp_steps. wp_apply wp_get_memzero; [done|]. iSplit; last first.
    { iIntros (Hf). simpl. wp_steps. iDestruct "HΦ" as "[_ HΦ]". iApply ("HΦ" with "[//]"). iExists I. by iFrame. }
    iIntros (addr [Haddr _]) "Haddr". simpl.
    iApply wp_bind. iApply (wp_wand _ (λ r, (⌜r.1 = E_OK⌝ ∗ descr_at r.2) ∨
        ⌜r.1 = EXT2_ET_NO_MEMORY ∧ malloc_can_fail⌝)%I with "[]").
    { destruct (m64_descr bm) as [d|]; [|wp_steps; by iLeft].
      iApply new_description_spec; [simpl; lia|]. iSplit.
      - iIntros (d' Hd') "Hd'". iLeft. by iFrame.
      - iIntros (Hf). by iRight. }
    iIntros ([err d']) "[[%Herr Hd']|[%Herr %Hf]]"; simpl in *; subst; simpl; last first.
    { unfold ext2fs_free_mem. iApply wp_bind. iApply wp_free; [done|lia|]. iFrame "Haddr".
      wp_steps. iDestruct "HΦ" as "[_ HΦ]". iApply ("HΦ" with "[//]"). iExists I. by iFrame. }
    wp_apply (bm_copy with "Hbm"); [done..|].
    iIntros ([err b]) "[Hbm [[[%Hok %Hb] Hb]|[%Herr %Hf]]]"; simpl in *; subst; simpl.
    + wp_steps. iDestruct "HΦ" as "[HΦ _]".
      iApply ("HΦ" $! (IsBitmap64 (Bitmap64 addr (m64_magic bm) (m64_ops bm) b (m64_cluster_bits bm) d'))
        with "[%] [Ha Hd Hbm] [Haddr Hd' Hb]").
      * simpl. split_and!; try done.
      * iExists I. by iFrame.
      * iExists I. simpl. iFrame. iPureIntro. split; [done|lia].
    + iApply wp_bind. iApply (free_description_spec with "Hd'").
      unfold ext2fs_free_mem. iApply wp_bind. iApply wp_free; [done|lia|]. iFrame "Haddr".
      wp_steps. iDestruct "HΦ" as "[_ HΦ]". iApply ("HΦ" with "[//]"). iExists I. by iFrame.
Qed.

(** ** Resizing *)
Lemma wp_memset_tail p n m k A Φ :
  (k ≤ n)%nat →
  bits_at p n A -∗ owns_block (p + Z.of_nat n) 1 m -∗
  (bits_at p (n + m) (A ∩ zrange 0 (8 * Z.of_nat k)) -∗ Φ tt) -∗
  wp (memset (p + Z.of_nat k) 0 (n + m - k)) Φ.
Proof.
  iIntros (Hk) "H Ho HΦ". replace n with (k + (n - k))%nat at 1 by lia.
  iDestruct (bits_at_bounds with "H") as %HA. rewrite bits_at_split.
  iDestruct "H" as "(_ & H1 & H2)". rewrite (bits_at_owns (p + Z.of_nat k)).
  iAssert (owns_block (p + Z.of_nat k) 1 (n + m - k)) with "[H2 Ho]" as "H2".
  { replace (n + m - k)%nat with ((n - k) + m)%nat by lia. rewrite owns_block_app. iFrame "H2".
    by replace (p + Z.of_nat k + 1 * Z.of_nat (n - k)) with (p + Z.of_nat n) by lia. }
  iApply (wp_memset_zero with "H2"). iIntros "H2". iApply "HΦ".
  replace (n + m)%nat with (k + (n + m - k))%nat by lia. rewrite bits_at_split. iSplit.
  { iPureIntro. intros x. rewrite elem_of_intersection elem_of_zrange. lia. }
  replace (A ∩ zrange 0 (8 * Z.of_nat k) ∩ zrange 0 (8 * Z.of_nat k))
    with (A ∩ zrange 0 (8 * Z.of_nat k)) by set_solver.
  iFrame "H1". rewrite range_part_out; [|].
  { by replace (k + (n + m - k) - k)%nat with (n + m - k)%nat by lia. }
  intros x. rewrite elem_of_intersection elem_of_zrange. lia.
Qed.

Lemma clear_loop32_spec start end_ arr n A bitno Φ :
  0 ≤ start ≤ end_ → end_ ≤ bitno < 2^32 → bitno - start < 8 * Z.of_nat n →
  bits_at arr n A -∗
  (bits_at arr n (A ∖ zrange (end_ + 1 - start) (bitno - end_)) -∗ Φ tt) -∗
  wp (loop (clear_step32 start end_ arr) bitno) Φ.
Proof.
  remember (Z.to_nat (bitno - end_)) as m eqn:Hm. revert bitno A Hm.
  induction m as [|m IH]; iIntros (bitno A Hm Hs He Hn) "H HΦ"; wp_loop clear_step32.
  - rewrite bool_decide_eq_false_2; [|lia]. wp_steps.
    rewrite zrange_empty; [|lia]. rewrite difference_empty_L. by iApply "HΦ".
  - rewrite bool_decide_eq_true_2; [|lia]. wrap. rewrite clear_bit_64.
    wp_apply (wp_clear_bit64 with "H"); [lia|]. iIntros "H". wp_steps.
    iApply (IH with "H"); [lia..|].
    replace (A ∖ zrange (end_ + 1 - start) (bitno - end_)) with
      ((A ∖ {[bitno - start]}) ∖ zrange (end_ + 1 - start) (bitno - 1 - end_)); [done|]. set_lia.
Qed.

(** The array after the resize: [size] and [nsize] bytes are in use. *)
Lemma resize_array32_spec p n size nsize A Φ :
  p ≠ 0 → (size ≤ n)%nat → (1 ≤ nsize)%nat → Z.of_nat nsize < 2^32 → Z.of_nat size < 2^32 →
  bits_at p n A -∗
  ((∀ q n' A', ⌜q ≠ 0 ∧ n' = (if decide (size = nsize) then n else nsize) ∧
       (∀ x, x ∈ A' ↔ x ∈ A ∧ x < 8 * Z.of_nat n' ∧ (x < 8 * Z.of_nat size ∨ (nsize ≤ size)%nat))⌝ -∗
      bits_at q n' A' -∗ Φ (E_OK, q)) ∧
   (⌜malloc_can_fail⌝ -∗ bits_at p n A -∗ Φ (EXT2_ET_NO_MEMORY, p))) -∗
  wp (resize_array32 p n (Z.of_nat size) (Z.of_nat nsize)) Φ.
Proof.
  iIntros (Hp Hn H1 Hl Hl') "H HΦ". iDestruct (bits_at_bounds with "H") as %HA. unfold resize_array32. rewrite Nat2Z.id.
  decide_case (Z.of_nat size ≠ Z.of_nat nsize) as Hne; last first.
  { wp_steps. simpl. rewrite bool_decide_eq_false_2; [|lia]. wp_steps. iDestruct "HΦ" as "[HΦ _]".
    iApply ("HΦ" $! p n A with "[%] H"). split; [done|]. rewrite decide_True; [|lia].
    split; [done|]. intros x. specialize (HA x). split; [intros Hx; apply HA in Hx as ?|tauto].
    split; [done|]. lia. }
  wp_apply (wp_resize_bits with "H"); [done|]. iSplit; last first.
  { iIntros (Hf) "H". simpl. wp_steps. iDestruct "HΦ" as "[_ HΦ]". by iApply ("HΦ" with "[//]"). }
  iIntros (q Hq) "Hq Ho". simpl. iDestruct "HΦ" as "[HΦ _]".
  decide_case (Z.of_nat size < Z.of_nat nsize) as Hlt.
  - assert (Hmin : (size ≤ n `min` nsize)%nat) by lia.
    replace (Z.to_nat (Z.of_nat nsize - Z.of_nat size))
      with (n `min` nsize + (nsize - n) - size)%nat by lia.
    wp_apply (wp_memset_tail with "Hq Ho"); [done|]. iIntros "Hq". wp_steps.
    replace (n `min` nsize + (nsize - n))%nat with nsize by lia.
    iApply ("HΦ" with "[%] Hq"). split; [lia|]. rewrite decide_False; [|lia]. split; [done|].
    intros x. rewrite !elem_of_intersection !elem_of_zrange. specialize (HA x).
    split; [intros [[? ?] ?]|intros (Hx & ? & ?)]; [split; [done|lia]|].
    apply HA in Hx as ?. split; [split; [done|lia]|lia].
  - wp_steps. replace (n `min` nsize)%nat with nsize by lia.
    iApply ("HΦ" with "[%] Hq"). split; [lia|]. rewrite decide_False; [|lia]. split; [done|].
    intros x. rewrite elem_of_intersection elem_of_zrange. specialize (HA x).
    split; [intros [? ?]|intros (Hx & ? & ?)]; [split; [done|lia]|].
    apply HA in Hx as ?. split; [done|lia].
Qed.

(** The new bounds of a bitmap. *)
Definition gen_resized (gen : generic_bitmap) (ne nre : Z) (gen' : generic_bitmap) : Prop :=
  gen_view gen' = set_private (set_ends (gen_view gen) ne nre) (b_private (gen_view gen')) ∧
  gen_cluster_bits gen' = gen_cluster_bits gen.

(** The positions that the kind of bitmap can have. *)
Definition gen_limit (gen : generic_bitmap) : Z :=
  match gen with IsBitmap64 _ => 2^64 | _ => 2^32 end.

Lemma resize_generic_bitmap_spec bm B ne nre Φ :
  m32_start bm ≤ ne ≤ nre → nre + 1 < 2^32 →
  ne ≤ m32_real_end bm ∨ (m32_real_end bm + 1 - m32_start bm) mod 8 = 0 →
  bitmap32_at bm B -∗
  ((∀ bm' B', ⌜gen_resized (IsBitmap32 bm) ne nre (IsBitmap32 bm') ∧
       ∀ x, x ≤ ne → (x ∈ B' ↔ x ∈ B ∧ x ≤ m32_end bm)⌝ -∗
      bitmap32_at bm' B' -∗ Φ (E_OK, IsBitmap32 bm')) ∧
   (∀ B', ⌜malloc_can_fail⌝ -∗ bitmap32_at bm B' -∗ Φ (EXT2_ET_NO_MEMORY, IsBitmap32 bm))) -∗
  wp (ext2fs_resize_generic_bitmap (m32_magic bm) ne nre (IsBitmap32 bm)) Φ.
Proof.
  iIntros (Hne Hnre Hgrow) "(%A & (%Hok & ->) & Hst & Harr) HΦ".
  pose proof Hok as ((? & ? & ? & ?) & H32 & Hp & Hsz).
  unfold ext2fs_resize_generic_bitmap. cbn [is_null magic_of as_bitmap32]. wp_steps.
  rewrite bool_decide_eq_false_2; [|by intros []]. wp_steps.
  (* the bits after the old end are cleared *)
  iApply (wp_wand _ (λ _, ∃ A1,
    ⌜∀ x, x ≤ Z.min ne (m32_real_end bm) →
       x - m32_start bm ∈ A1 ↔ x - m32_start bm ∈ A ∧ x ≤ m32_end bm⌝ ∗
    bits_at (m32_bitmap bm) (m32_size bm) A1)%I with "[Harr]").
  { decide_case (m32_end bm < ne) as Hlt.
    - set (bitno := if bool_decide (ne < m32_real_end bm) then ne else m32_real_end bm).
      assert (bitno = Z.min ne (m32_real_end bm)) as -> by (unfold bitno; case_bool_decide; lia).
      iApply (clear_loop32_spec with "Harr"); [lia..|]. iIntros "Harr". iFrame. iPureIntro.
      intros x Hx. rewrite elem_of_difference elem_of_zrange. clear -Hx. mem_lia.
    - wp_steps. iFrame. iPureIntro. intros x Hx. clear -Hx Hlt. mem_lia. }
  iIntros ([]) "(%A1 & %HA1 & Harr)". iDestruct (bits_at_bounds with "Harr") as %Hbd.
  decide_case (nre = m32_real_end bm) as Heq.
  { wp_steps. subst nre. iDestruct "HΦ" as "[HΦ _]".
    iApply ("HΦ" $! (set_end32 bm ne) (ba_bits (view32 (set_end32 bm ne)) A1) with "[%]").
    - split; [done|]. intros x Hx. rewrite !elem_of_ba_bits /=. specialize (HA1 x ltac:(lia)).
      clear -HA1 Hx Hne H H0 H1. mem_lia.
    - iExists A1. iFrame. iPureIntro. split; [|done]. unfold bitmap32_ok, bounds32. simpl.
      split_and!; done || lia. }
  pose proof (Z.div_mod (m32_real_end bm - m32_start bm) 8) as Hd1.
  pose proof (Z.mod_pos_bound (m32_real_end bm - m32_start bm) 8) as Hm1.
  pose proof (Z.div_mod (nre - m32_start bm) 8) as Hd2.
  pose proof (Z.mod_pos_bound (nre - m32_start bm) 8) as Hm2.
  wrap. set (size := Z.to_nat ((m32_real_end bm - m32_start bm) / 8 + 1)).
  set (nsize := Z.to_nat ((nre - m32_start bm) / 8 + 1)).
  replace ((m32_real_end bm - m32_start bm) / 8 + 1) with (Z.of_nat size) by lia.
  replace ((nre - m32_start bm) / 8 + 1) with (Z.of_nat nsize) by lia.
  assert (Hs8 : m32_real_end bm - m32_start bm < 8 * Z.of_nat size ≤ m32_real_end bm - m32_start bm + 8) by lia.
  assert (Hn8 : nre - m32_start bm < 8 * Z.of_nat nsize ≤ nre - m32_start bm + 8) by lia.
  clearbody size nsize. clear Hd1 Hm1 Hd2 Hm2.
  wp_apply (resize_array32_spec with "Harr"); [done|lia..|]. iSplit; last first.
  { iIntros (Hf) "Harr". simpl. wp_steps. iDestruct "HΦ" as "[_ HΦ]". iApply ("HΦ" with "[//]").
    iExists A1. iFrame. done. }
  iIntros (q n' A' (Hq & Hn' & HA')) "Harr". cbn [fst snd].
  rewrite (bool_decide_eq_false_2 (E_OK ≠ E_OK)); [|by intros []]. wp_steps. iDestruct "HΦ" as "[HΦ _]".
  assert (Hsize : (if bool_decide (Z.of_nat size ≠ Z.of_nat nsize) then nsize
                   else m32_size bm) = n').
  { rewrite Hn'. case_bool_decide; case_decide; done || lia. }
  rewrite Hsize. set (bm' := set_array32 bm ne nre q n').
  assert (Hn8' : nre - m32_start bm < 8 * Z.of_nat n') by (rewrite Hn'; case_decide; lia).
  iApply ("HΦ" $! bm' (ba_bits (view32 bm') A') with "[%]").
  - split; [done|]. intros x Hx. rewrite !elem_of_ba_bits /= HA'. specialize (HA1 x).
    destruct (decide (x ≤ m32_real_end bm)) as [Hxr|Hxr].
    + specialize (HA1 ltac:(lia)). clear -HA1 Hx Hxr Hne H H0 H1 Hs8 Hn8 Hn8'. mem_lia.
    + split; [|lia]. intros [(_ & _ & Hin) ?]. exfalso.
      pose proof (Z.div_mod (m32_real_end bm + 1 - m32_start bm) 8). lia.
  - iExists A'. iFrame. iPureIntro. split; [|done]. unfold bitmap32_ok, bounds32, bm'. simpl.
    split_and!; done || lia.
Qed.

Lemma resize_generic_bmap_spec gen B ne nre Φ :
  b_start (gen_view gen) ≤ ne ≤ nre → nre + 1 < gen_limit gen →
  ne ≤ b_real_end (gen_view gen) ∨
    (b_real_end (gen_view gen) + 1 - b_start (gen_view gen)) mod 8 = 0 →
  generic_at gen B -∗
  ((∀ gen' B', ⌜gen_resized gen ne nre gen' ∧
       ∀ x, x ≤ ne → (x ∈ B' ↔ x ∈ B ∧ x ≤ b_end (gen_view gen))⌝ -∗
      generic_at gen' B' -∗ Φ (E_OK, gen')) ∧
   (∀ B', ⌜malloc_can_fail⌝ -∗ generic_at gen B' -∗ Φ (EXT2_ET_NO_MEMORY, gen))) -∗
  wp (ext2fs_resize_generic_bmap gen ne nre) Φ.
Proof.
  iIntros (Hne Hnre Hgrow) "Hg HΦ". unfold ext2fs_resize_generic_bmap.
  destruct gen as [|bm|bm]; [done|..]; cbn [gen_limit is_null magic_of as_bitmap64] in *; wp_steps.
  - iAssert ⌜bitmap32_ok bm⌝%I as %Hok; [by iDestruct "Hg" as "(%A & (%Hok & _) & _)"|].
    destruct Hok as ((? & ? & ? & ?) & H32 & _). simpl in Hne, Hgrow. rewrite H32. wrap.
    iApply (resize_generic_bitmap_spec with "Hg"); [lia|lia|done|]. iSplit.
    + iIntros (bm' B' HB') "Hg". iDestruct "HΦ" as "[HΦ _]". by iApply ("HΦ" $! (IsBitmap32 bm') with "[%]").
    + iIntros (B' Hf) "Hg". iDestruct "HΦ" as "[_ HΦ]". by iApply ("HΦ" with "[//]").
  - iDestruct "Hg" as "(%I & (%H64 & %Hc) & Hst & Hbm)".
    iDestruct (bm_at_facts with "Hbm") as %[Hok Hsub]. destruct Hok as (? & ? & ? & ?).
    rewrite H64 magic_64_32 //. cbn [negb]. wp_steps. simpl in Hne, Hgrow.
    wp_apply (bm_resize with "Hbm"); [unfold bounds_ok; simpl; lia|done|].
    iIntros ([err b]) "[([%He %Hb] & %B' & %HB' & Hbm)|((%He & %Hb & %Hf) & %B' & Hbm)]"; simpl in *; subst; wp_steps.
    + iDestruct "HΦ" as "[HΦ _]".
      iApply ("HΦ" $! (IsBitmap64 (set_bmap bm (set_ends (m64_bmap bm) ne nre))) with "[%]"); [done|].
      iExists I. by iFrame.
    + iDestruct "HΦ" as "[_ HΦ]". replace (set_bmap bm (m64_bmap bm)) with bm by (by destruct bm).
      iApply ("HΦ" with "[//]"). iExists I. by iFrame.
Qed.

Lemma fudge_generic_bmap_end_spec gen B neq end_ Φ :
  b_start (gen_view gen) ≤ end_ < gen_limit gen →
  generic_at gen B -∗
  (∀ r, ⌜if decide (end_ ≤ b_real_end (gen_view gen))
         then r.1.1 = E_OK ∧ r.2 = Some (b_end (gen_view gen)) ∧
              gen_resized gen end_ (b_real_end (gen_view gen)) r.1.2
         else r = (neq, gen, None)⌝ -∗ generic_at r.1.2 B -∗ Φ r) -∗
  wp (ext2fs_fudge_generic_bmap_end gen neq end_) Φ.
Proof.
  iIntros (He) "Hg HΦ". unfold ext2fs_fudge_generic_bmap_end.
  destruct gen as [|bm|bm]; [done|..]; cbn [gen_limit is_null magic_of as_bitmap64] in *; wp_steps.
  - iDestruct "Hg" as "(%A & (%Hok & ->) & Hst & Harr)".
    pose proof Hok as ((? & ? & ? & ?) & H32 & Hp & Hsz). simpl in He. rewrite H32. wrap.
    unfold ext2fs_fudge_generic_bitmap_end. cbn [magic_of as_bitmap32]. wp_steps.
    rewrite bool_decide_eq_false_2; [|by intros []]. wp_steps. case_bool_decide as Hout; wp_steps.
    + iApply ("HΦ" with "[%]"); [rewrite decide_False //; simpl; lia|]. iExists A. by iFrame.
    + iApply ("HΦ" with "[%]"); [rewrite decide_True //; simpl; lia|]. iExists A. iFrame. iPureIntro.
      split; [|done]. unfold bitmap32_ok, bounds32. simpl. split_and!; done || lia.
  - iDestruct "Hg" as "(%I & (%H64 & %Hc) & Hst & Hbm)".
    iDestruct (bm_at_facts with "Hbm") as %[Hok Hsub]. destruct Hok as (? & ? & ? & ?).
    rewrite H64 magic_64_32 //. cbn [negb]. wp_steps. simpl in He. case_bool_decide as Hout; wp_steps.
    + iApply ("HΦ" with "[%]"); [rewrite decide_False //; simpl; lia|]. iExists I. by iFrame.
    + iApply ("HΦ" with "[%]"); [rewrite decide_True //; simpl; lia|]. iExists I. iFrame.
      iSplit; [done|]. simpl. iApply (bm_fudge with "Hbm"). lia.
Qed.
End generic.
