(* ===== verification/BitmapProps.v ===== *)
(** * BitmapProps: what the functions on generic bitmaps do

    The theorems on the functions of gen_bitmap.c and gen_bitmap64.c that hold
    for the legacy bitmap, the bit array and the red-black tree alike, stated
    on the representation predicate [generic_at] of GenBitmapSpec, and two
    runs in which resizing a legacy bitmap goes wrong. *)
From S2P Require Import Prelude.
From S2P Require Import Bytes.
From S2P Require Import Super.
From S2P Require Import Mem.
From S2P Require Import SepLogic.
From S2P Require Import ExtMem.
From S2P Require Import BitOps.
From S2P Require Import Bitmap.
From S2P Require Import BlkmapRB.
From S2P Require Import BlkmapBA.
From S2P Require Import GenBitmap.
From S2P Require Import GenBitmapSpec.
#[local] Open Scope Z_scope.

Section props.
Context {ML : Malloc}.

(** An access to a block outside the bitmap, even one that does not fit the
    positions of its kind, returns 0 and changes nothing. *)
Theorem out_of_range_harmless gen B arg :
  0 ≤ arg < 2^64 → ¬ gen_in gen arg →
  hoare (generic_at gen B)
    (t ← ext2fs_test_generic_bmap gen arg;
     m ← ext2fs_mark_generic_bmap gen arg;
     ext2fs_unmark_generic_bmap gen arg ;;
     mret (t, m))
    (λ r, ⌜r = (0, 0)⌝ ∗ generic_at gen B)%I.
Proof.
  intros Harg Hout. apply wp_adequate. iIntros "Hg".
  wp_apply (test_generic_bmap_spec with "Hg"); [done|]. iIntros (t Ht) "Hg".
  wp_apply (mark_generic_bmap_spec with "Hg"); [done|]. iIntros (m Hm) "Hg".
  wp_apply (unmark_generic_bmap_spec with "Hg"); [done|]. iIntros (u _) "Hg". wp_steps.
  rewrite marked_out // unmarked_out //. iFrame "Hg". iPureIntro.
  destruct (decide (t = 0)) as [->|]; [|by destruct (Hout (proj1 (proj1 Ht ltac:(done))))].
  destruct (decide (m = 0)) as [->|]; [done|by destruct (Hout (proj1 (proj1 Hm ltac:(done))))].
Qed.

(** C29: Marking and unmarking ranges of blocks add and remove exactly the clusters
    of those blocks, and the test of a range says whether none of its clusters
    is used. *)
Theorem block_ranges_correct gen B b1 n1 b2 n2 b3 n3 :
  block_kind gen → range_in gen b1 n1 → range_in gen b2 n2 → range_in gen b3 n3 →
  hoare (generic_at gen B)
    (ext2fs_mark_block_bitmap_range2 gen b1 n1 ;;
     ext2fs_unmark_block_bitmap_range2 gen b2 n2 ;;
     ext2fs_test_block_bitmap_range2 gen b3 n3)
    (λ v, let B' := (gen_range gen b1 n1 ∪ B) ∖ gen_range gen b2 n2 in
          ⌜says_clear v gen b3 n3 B'⌝ ∗ generic_at gen B')%I.
Proof.
  intros Hk H1 H2 H3. apply wp_adequate. iIntros "Hg".
  wp_apply (mark_block_bitmap_range2_spec with "Hg"); [done|]. iIntros "Hg".
  wp_apply (unmark_block_bitmap_range2_spec with "Hg"); [done|]. iIntros "Hg".
  wp_apply (test_block_bitmap_range2_spec with "Hg"); [done..|]. iIntros (v Hv) "Hg". by iFrame.
Qed.

(** C28: The searches give the first used and the first free block between two
    blocks, [ENOENT] when there is none, and [EINVAL] when the bounds are not
    in the bitmap or not in order.  One implementation differs, in one case: a
    red-black tree without extents answers [ENOENT] to the search for a free
    block, and all blocks are free then; a legacy bitmap and a bit array give
    the first block. *)
Theorem find_first_correct gen B s e :
  0 ≤ s < 2^64 → 0 ≤ e < 2^64 →
  hoare (generic_at gen B)
    (u ← ext2fs_find_first_set_generic_bmap gen s e;
     f ← ext2fs_find_first_zero_generic_bmap gen s e;
     mret (u, f))
    (λ r, ⌜if decide (s ≤ e ∧ gen_in gen s ∧ gen_in gen e)
           then is_first (λ x, gen_bit gen x ∈ B) s e r.1 ∧
                (if decide (gen_tree gen = true ∧ B = ∅) then r.2.1 = ENOENT
                 else is_first (λ x, gen_bit gen x ∉ B) s e r.2)
           else r.1.1 = EINVAL ∧ r.2.1 = EINVAL⌝ ∗ generic_at gen B)%I.
Proof.
  intros Hs He. apply wp_adequate. iIntros "Hg".
  wp_apply (find_first_bmap_spec true with "Hg"); [done..|]. iIntros (u Hu) "Hg".
  wp_apply (find_first_bmap_spec false with "Hg"); [done..|]. iIntros (f Hf) "Hg". wp_steps.
  iFrame "Hg". iPureIntro. cbn [fst snd]. destruct (decide _); [|done]. split.
  - by apply found_block_first in Hu; [|by left].
  - unfold found_block in Hf.
    destruct (decide (gen_tree gen = true ∧ B = ∅)) as [[Ht HB]|Hno].
    + by rewrite decide_True in Hf.
    + rewrite decide_False in Hf; [exact Hf|]. by intros [_ ?].
Qed.

(** A copy has the bounds, the kind and the contents of the original and
    shares nothing with it: what is done to the copy does not show in the
    original. *)
Theorem copy_independent gen B arg :
  copy_ok gen → 0 ≤ arg < 2^64 →
  hoare (generic_at gen B)
    (r ← ext2fs_copy_generic_bmap gen;
     if bool_decide (r.1 ≠ E_OK) then mret r else
     ext2fs_mark_generic_bmap r.2 arg ;;
     mret r)
    (λ r, (⌜r.1 = E_OK ∧ same_bitmap gen r.2⌝ ∗ generic_at gen B ∗
             generic_at r.2 (marked r.2 arg B)) ∨
          (⌜r = (EXT2_ET_NO_MEMORY, NullBitmap) ∧ malloc_can_fail⌝ ∗ generic_at gen B))%I.
Proof.
  intros Hco Harg. apply wp_adequate. iIntros "Hg".
  wp_apply (copy_generic_bmap_spec with "Hg"); [done|]. iSplit.
  - iIntros (gen' Hsame) "Hg Hg'". simpl.
    wp_apply (mark_generic_bmap_spec with "Hg'"); [done|]. iIntros (v _) "Hg'". wp_steps.
    iLeft. by iFrame.
  - iIntros (Hf) "Hg". simpl. wp_steps. iRight. by iFrame.
Qed.

(** Resizing keeps the used bits below the new end and leaves the new ones
    clear, provided a bitmap that grows beyond its real end ends with a whole
    byte; when memory runs out the bitmap keeps its bounds. *)
Theorem resize_correct gen B ne nre :
  b_start (gen_view gen) ≤ ne ≤ nre → nre + 1 < gen_limit gen →
  (ne ≤ b_real_end (gen_view gen) ∨
   (b_real_end (gen_view gen) + 1 - b_start (gen_view gen)) mod 8 = 0) →
  hoare (generic_at gen B) (ext2fs_resize_generic_bmap gen ne nre)
    (λ r, (∃ B', ⌜r.1 = E_OK ∧ gen_resized gen ne nre r.2 ∧
               ∀ x, x ≤ ne → (x ∈ B' ↔ x ∈ B ∧ x ≤ b_end (gen_view gen))⌝ ∗ generic_at r.2 B') ∨
          (∃ B', ⌜r = (EXT2_ET_NO_MEMORY, gen) ∧ malloc_can_fail⌝ ∗ generic_at gen B'))%I.
Proof.
  intros Hne Hnre Hgrow. apply wp_adequate. iIntros "Hg".
  iApply (resize_generic_bmap_spec with "Hg"); [done..|]. iSplit.
  - iIntros (gen' B' [??]) "Hg". iLeft. iExists B'. by iFrame.
  - iIntros (B' Hf) "Hg". iRight. iExists B'. by iFrame.
Qed.

(** The end in use can be moved anywhere up to the real end, and the old end
    is reported; beyond it the call fails with the caller's error code and
    changes nothing. *)
Theorem fudge_end_correct gen B neq e :
  b_start (gen_view gen) ≤ e < gen_limit gen →
  hoare (generic_at gen B) (ext2fs_fudge_generic_bmap_end gen neq e)
    (λ r, ⌜if decide (e ≤ b_real_end (gen_view gen))
           then r.1.1 = E_OK ∧ r.2 = Some (b_end (gen_view gen)) ∧
                gen_resized gen e (b_real_end (gen_view gen)) r.1.2
           else r = (neq, gen, None)⌝ ∗ generic_at r.1.2 B)%I.
Proof.
  intros He. apply wp_adequate. iIntros "Hg".
  iApply (fudge_generic_bmap_end_spec with "Hg"); [done|]. iIntros (r Hr) "Hg". by iFrame.
Qed.

(** Copying a range of whole bytes with [get_bmap_range] and
    [set_bmap_range], from a bit array to a red-black tree and on from the tree
    to another bit array that is clear there: the tree gets the bits of the
    range that the first array has, and keeps those it had; the second array
    gets the bits of the range the tree has then; the bits outside the range,
    and the source of each copy, stay.  The tree must not stay empty, since
    [rb_get_bmap_range] leaves the buffer alone then (see
    [empty_tree_fills_nothing]). *)
Theorem range_copy_correct a A t T c C s num n buf1 buf2 :
  range_ok a s num n → range_ok t s num n → range_ok c s num n → num mod 8 = 0 →
  let I := A ∩ zrange s num in
  I ∪ T ≠ ∅ → zrange s num ## C →
  hoare (ba_bm_at a A ∗ rb_bm_at t T ∗ ba_bm_at c C ∗ owns_block buf1 1 n ∗ owns_block buf2 1 n)
    (r1 ← ba_get_bmap_range a s num buf1;
     r2 ← rb_set_bmap_range t s num buf1;
     r3 ← rb_get_bmap_range t s num buf2;
     r4 ← ba_set_bmap_range c s num buf2;
     mret (r1, r2, r3, r4))
    (λ r, ⌜r = (E_OK, E_OK, E_OK, E_OK)⌝ ∗ ba_bm_at a A ∗ rb_bm_at t (I ∪ T) ∗
          ba_bm_at c ((I ∪ T) ∩ zrange s num ∪ C))%I.
Proof.
  intros Ha Ht Hc H8 I Hne HC. apply wp_adequate. iIntros "(Ha & Ht & Hc & H1 & H2)".
  assert (Hn : 8 * Z.of_nat n = num).
  { destruct Ht as (_ & ? & _ & _ & _ & ->). pose proof (Z.div_mod num 8).
    replace (num + 7) with (7 + num / 8 * 8) by lia. rewrite Z.div_add // Z.div_small //. lia. }
  pose proof Ht as (Hs & Hnum & Hend & _ & _ & Hn'). iApply wp_bind.
  iApply (ba_get_range_spec with "Ha H1"); [done|]. iIntros (O HO) "Ha H1".
  iDestruct (bits_at_bounds with "H1") as %HO8. rewrite Hn in HO8.
  assert (shift_set s O = I) as HI.
  { apply set_eq. intros x. unfold I. rewrite elem_of_shift_set elem_of_intersection elem_of_zrange.
    specialize (HO (x - s)). replace (s + (x - s)) with x in HO by lia.
    split; [intros Hx; specialize (HO8 _ Hx); split; [apply HO|]; (done || lia)|].
    intros [? ?]. apply HO; [lia|done]. }
  iApply wp_bind. iApply (rb_set_range_spec with "Ht H1"); [done..| |].
  { intros x Hx. rewrite elem_of_zrange. specialize (HO8 _ Hx). lia. }
  iIntros "Ht H1". rewrite HI. iApply wp_bind.
  iApply (rb_get_range_spec with "Ht H2"); [done..|]. iIntros (O2 HO2) "Ht H2".
  iDestruct (bits_at_bounds with "H2") as %HO28. rewrite Hn in HO28. iApply wp_bind.
  iApply (ba_set_range_spec with "Hc H2"); [done| |by rewrite Hn|].
  { intros x Hx. rewrite elem_of_zrange. specialize (HO28 _ Hx). lia. }
  iIntros "Hc H2". wp_steps. iFrame "Ha Ht". iSplit; [done|].
  assert (shift_set s O2 = (I ∪ T) ∩ zrange s num) as ->; [|done].
  apply set_eq. intros x. rewrite elem_of_shift_set elem_of_intersection elem_of_zrange.
  specialize (HO2 (x - s)). replace (s + (x - s)) with x in HO2 by lia.
  split; [intros Hx; specialize (HO28 _ Hx); split; [apply HO2|]; (done || lia)|].
  intros [? ?]. apply HO2; [lia|done].
Qed.
End props.

(** ** Instances *)

(** A legacy bitmap of blocks 0 to 99 whose array was rounded up to 20 bytes,
    and a tree of blocks 0 to 99. *)
Definition legacy_map : generic_bitmap :=
  IsBitmap32 (Bitmap32 4096 EXT2_ET_MAGIC_BLOCK_BITMAP 0 99 127 None 8192 20).

Definition block_map : bitmap64 :=
  Bitmap64 4096 EXT2_ET_MAGIC_BLOCK_BITMAP64 ext2fs_blkmap64_rbtree (Bmap64 0 99 127 8192) 0 None.

Lemma out_of_range_witness :
  hoare (ML := bump_malloc) (generic_at legacy_map {[ 3 ]})
    (t ← ext2fs_test_generic_bmap legacy_map (2^32 + 3);
     m ← ext2fs_mark_generic_bmap legacy_map (2^32 + 3);
     ext2fs_unmark_generic_bmap legacy_map (2^32 + 3) ;;
     mret (t, m))
    (λ r, ⌜r = (0, 0)⌝ ∗ generic_at legacy_map {[ 3 ]})%I.
Proof.
  apply (out_of_range_harmless (ML := bump_malloc) legacy_map {[ 3 ]} (2^32 + 3)); [lia|].
  unfold gen_in. vm_compute. intros [_ []]. reflexivity.
Defined.

Lemma block_ranges_witness :
  hoare (ML := bump_malloc) (generic_at (IsBitmap64 block_map) {[ 3 ]})
    (ext2fs_mark_block_bitmap_range2 (IsBitmap64 block_map) 10 20 ;;
     ext2fs_unmark_block_bitmap_range2 (IsBitmap64 block_map) 12 3 ;;
     ext2fs_test_block_bitmap_range2 (IsBitmap64 block_map) 12 2)
    (λ v, let B' := (gen_range (IsBitmap64 block_map) 10 20 ∪ {[ 3 ]}) ∖
                    gen_range (IsBitmap64 block_map) 12 3 in
          ⌜says_clear v (IsBitmap64 block_map) 12 2 B'⌝ ∗ generic_at (IsBitmap64 block_map) B')%I.
Proof.
  apply (block_ranges_correct (ML := bump_malloc) (IsBitmap64 block_map) {[ 3 ]} 10 20 12 3 12 2);
    [done|by repeat split..].
Defined.

Lemma find_first_witness :
  hoare (ML := bump_malloc) (generic_at (IsBitmap64 block_map) {[ 3; 4 ]})
    (u ← ext2fs_find_first_set_generic_bmap (IsBitmap64 block_map) 0 50;
     f ← ext2fs_find_first_zero_generic_bmap (IsBitmap64 block_map) 0 50;
     mret (u, f))
    (λ r, ⌜if decide (0 ≤ 50 ∧ gen_in (IsBitmap64 block_map) 0 ∧ gen_in (IsBitmap64 block_map) 50)
           then is_first (λ x, gen_bit (IsBitmap64 block_map) x ∈ ({[ 3; 4 ]} : gset Z)) 0 50 r.1 ∧
                (if decide (gen_tree (IsBitmap64 block_map) = true ∧ ({[ 3; 4 ]} : gset Z) = ∅)
                 then r.2.1 = ENOENT
                 else is_first (λ x, gen_bit (IsBitmap64 block_map) x ∉ ({[ 3; 4 ]} : gset Z)) 0 50 r.2)
           else r.1.1 = EINVAL ∧ r.2.1 = EINVAL⌝ ∗ generic_at (IsBitmap64 block_map) {[ 3; 4 ]})%I.
Proof.
  apply (find_first_correct (ML := bump_malloc) (IsBitmap64 block_map) {[ 3; 4 ]} 0 50); lia.
Defined.

Lemma copy_independent_witness :
  hoare (ML := bump_malloc) (generic_at legacy_map {[ 3 ]})
    (r ← ext2fs_copy_generic_bmap legacy_map;
     if bool_decide (r.1 ≠ E_OK) then mret r else
     ext2fs_mark_generic_bmap r.2 5 ;;
     mret r)
    (λ r, (⌜r.1 = E_OK ∧ same_bitmap legacy_map r.2⌝ ∗ generic_at legacy_map {[ 3 ]} ∗
             generic_at r.2 (marked r.2 5 {[ 3 ]})) ∨
          (⌜r = (EXT2_ET_NO_MEMORY, NullBitmap) ∧ malloc_can_fail⌝ ∗ generic_at legacy_map {[ 3 ]}))%I.
Proof.
  apply (copy_independent (ML := bump_malloc) legacy_map {[ 3 ]} 5); [by vm_compute|lia].
Defined.

Lemma resize_witness :
  hoare (ML := bump_malloc) (generic_at (IsBitmap64 block_map) {[ 3; 90 ]})
    (ext2fs_resize_generic_bmap (IsBitmap64 block_map) 199 255)
    (λ r, (∃ B', ⌜r.1 = E_OK ∧ gen_resized (IsBitmap64 block_map) 199 255 r.2 ∧
               ∀ x, x ≤ 199 → (x ∈ B' ↔ x ∈ ({[ 3; 90 ]} : gset Z) ∧ x ≤ 99)⌝ ∗ generic_at r.2 B') ∨
          (∃ B', ⌜r = (EXT2_ET_NO_MEMORY, IsBitmap64 block_map) ∧ malloc_can_fail⌝ ∗
             generic_at (IsBitmap64 block_map) B'))%I.
Proof.
  apply (resize_correct (ML := bump_malloc) (IsBitmap64 block_map) {[ 3; 90 ]} 199 255);
    [by split|by vm_compute|by right].
Defined.

Lemma fudge_end_witness :
  hoare (ML := bump_malloc) (generic_at legacy_map {[ 3 ]})
    (ext2fs_fudge_generic_bmap_end legacy_map EXT2_ET_FUDGE_BLOCK_BITMAP_END 120)
    (λ r, ⌜if decide (120 ≤ 127)
           then r.1.1 = E_OK ∧ r.2 = Some 99 ∧ gen_resized legacy_map 120 127 r.1.2
           else r = (EXT2_ET_FUDGE_BLOCK_BITMAP_END, legacy_map, None)⌝ ∗ generic_at r.1.2 {[ 3 ]})%I.
Proof.
  apply (fudge_end_correct (ML := bump_malloc) legacy_map {[ 3 ]} EXT2_ET_FUDGE_BLOCK_BITMAP_END 120).
  by split.
Defined.

Definition plain_fs : ext2_filsys :=
  Filsys EXT2_ET_MAGIC_EXT2FS_FILSYS (replicate SUPERBLOCK_SIZE 0) 0 1024 1 1 1 0
    EXT2FS_BMAP64_BITARRAY 0 None (λ _, None).

(** A 64-bit bitmap of blocks 0 to 99 with its private data at [p]. *)
Definition at_addr (p : Z) : bmap64 := Bmap64 0 99 127 p.

Lemma range_copy_witness :
  hoare (ML := bump_malloc)
    (ba_bm_at (at_addr 8192) {[ 20; 90 ]} ∗ rb_bm_at (at_addr 8256) {[ 17; 50 ]} ∗ ba_bm_at (at_addr 8320) {[ 3 ]} ∗
     owns_block 100 1 2 ∗ owns_block 200 1 2)
    (r1 ← ba_get_bmap_range (at_addr 8192) 16 16 100;
     r2 ← rb_set_bmap_range (at_addr 8256) 16 16 100;
     r3 ← rb_get_bmap_range (at_addr 8256) 16 16 200;
     r4 ← ba_set_bmap_range (at_addr 8320) 16 16 200;
     mret (r1, r2, r3, r4))
    (λ r, ⌜r = (E_OK, E_OK, E_OK, E_OK)⌝ ∗ ba_bm_at (at_addr 8192) {[ 20; 90 ]} ∗
          rb_bm_at (at_addr 8256) ({[ 20; 90 ]} ∩ zrange 16 16 ∪ {[ 17; 50 ]}) ∗
          ba_bm_at (at_addr 8320) (({[ 20; 90 ]} ∩ zrange 16 16 ∪ {[ 17; 50 ]}) ∩ zrange 16 16 ∪ {[ 3 ]}))%I.
Proof.
  apply (range_copy_correct (ML := bump_malloc) (at_addr 8192) {[ 20; 90 ]} (at_addr 8256) {[ 17; 50 ]}
    (at_addr 8320) {[ 3 ]} 16 16 2 100 200).
  1-3: by repeat split.
  - done.
  - set_solver.
  - intros x. rewrite elem_of_zrange. set_solver by lia.
Defined.

(** ** Reading a range of an empty bitmap *)

(** The first byte of a buffer of ones after a range of a new bitmap of the
    given type was read into it. *)
Definition read_empty {ML : Malloc} (type : Z) : M (errcode * Z) :=
  r ← ext2fs_alloc_generic_bmap plain_fs EXT2_ET_MAGIC_BLOCK_BITMAP64 type 0 99 127 None;
  buf ← malloc 1 2;
  memset buf 255 2 ;;
  e ← ext2fs_get_generic_bmap_range r.2 16 16 buf;
  b ← load buf;
  mret (e, b).

(** The bit array stores zeros; the tree reports success and stores nothing. *)
Example empty_tree_fills_nothing :
  run 100 (read_empty EXT2FS_BMAP64_BITARRAY) = Some (E_OK, 0) ∧
  run 100 (read_empty EXT2FS_BMAP64_RBTREE) = Some (E_OK, 255).
Proof. split; vm_compute; reflexivity. Qed.

(** ** Legacy bitmaps that were resized *)

(** Shrink a legacy bitmap of blocks 0 to 9 to 0 to 8, let it grow again, and
    test block 9, which was used before. *)
Definition shrink_and_grow {ML : Malloc} : M Z :=
  r ← ext2fs_make_generic_bitmap EXT2_ET_MAGIC_BLOCK_BITMAP 0 9 9 None 0;
  ext2fs_mark_generic_bmap r.2 9 ;;
  r ← ext2fs_resize_generic_bmap r.2 8 8;
  r ← ext2fs_resize_generic_bmap r.2 9 9;
  ext2fs_test_generic_bmap r.2 9.

(** The new part of a legacy bitmap that shrank and grew again is not clear,
    although the code says that it makes sure of it. *)
Example resize_leaves_stale_bits : ∃ v, run 100 shrink_and_grow = Some v ∧ v ≠ 0.
Proof. eexists. split; [vm_compute; reflexivity|done]. Qed.

(** Copy a legacy bitmap that was resized. *)
Definition copy_resized {ML : Malloc} : M errcode :=
  r ← ext2fs_make_generic_bitmap EXT2_ET_MAGIC_BLOCK_BITMAP 0 63 63 None 0;
  r ← ext2fs_resize_generic_bmap r.2 100 100;
  c ← ext2fs_copy_generic_bmap r.2;
  mret c.1.

(** The array of a resized legacy bitmap is not rounded up any more, and the
    copy of the bitmap reads past its end. *)
Example copy_of_resized_faults : copy_resized 100%nat ∅ = Fault.
Proof. vm_compute. reflexivity. Qed.

(** Compare two bit arrays of blocks 0 to 99, one of which has a used block. *)
Definition compare_different {ML : Malloc} (fs : ext2_filsys) (x : Z) : M errcode :=
  a ← ext2fs_alloc_generic_bmap fs EXT2_ET_MAGIC_BLOCK_BITMAP64 EXT2FS_BMAP64_BITARRAY 0 99 127 None;
  b ← ext2fs_alloc_generic_bmap fs EXT2_ET_MAGIC_BLOCK_BITMAP64 EXT2FS_BMAP64_BITARRAY 0 99 127 None;
  ext2fs_mark_generic_bmap a.2 x ;;
  ext2fs_compare_generic_bmap EXT2_ET_NEQ_BLOCK_BITMAP a.2 b.2.

(** Of two 64-bit bitmaps only the last bits are compared: a difference at
    block 50 of 100 is not seen, one at block 98 is. *)
Example compare_misses_difference :
  run 100 (compare_different plain_fs 50) = Some E_OK ∧
  run 100 (compare_different plain_fs 98) = Some EXT2_ET_NEQ_BLOCK_BITMAP.
Proof. split; vm_compute; reflexivity. Qed.
