(* ===== verification/Bitmaps.v ===== *)
(** * Bitmaps: lib/ext2fs/bitmaps.c and the inline functions of bitops.h

    The block and inode bitmaps of a file system: their bounds, which of the
    two kinds of bitmap is allocated, the conversion of a per-block bitmap to
    a per-cluster one and the count of used clusters (gen_bitmap64.c), and the
    typed names of the functions on generic bitmaps.  The assignment of
    [fs->write_bitmaps] in the allocation functions is left out: it names the
    function that writes the bitmaps to the device. *)
From S2P Require Import Prelude.
From S2P Require Import Bytes.
From S2P Require Import Super.
From S2P Require Import Blknum.
From S2P Require Import Mem.
From S2P Require Import SepLogic.
From S2P Require Import ExtMem.
From S2P Require Import Bitmap.
From S2P Require Import GenBitmap.
#[local] Open Scope Z_scope.

Definition EXT2_FLAG_64BITS : Z := 131072.
Definition EXT2_INODES_PER_GROUP (sb : list Z) : Z := s_inodes_per_group sb.
Definition EXT2_CLUSTERS_PER_GROUP (sb : list Z) : Z := s_clusters_per_group sb.
Definition EXT2_BLOCKS_PER_GROUP (sb : list Z) : Z := s_blocks_per_group sb.

(** ** Allocation *)
Definition uses_64bit_bitmaps (fs : ext2_filsys) : bool :=
  bool_decide (Z.land (fs_flags fs) EXT2_FLAG_64BITS ≠ 0).

Definition ext2fs_allocate_inode_bitmap {ML : Malloc} (fs : ext2_filsys)
    (descr : option (list Z)) : M (errcode * generic_bitmap) :=
  if bool_decide (fs_magic fs ≠ EXT2_ET_MAGIC_EXT2FS_FILSYS)
  then mret (EXT2_ET_MAGIC_EXT2FS_FILSYS, NullBitmap) else
  let start := 1 in
  let end_ := s_inodes_count (fs_super fs) in
  let real_end := u64 (EXT2_INODES_PER_GROUP (fs_super fs) * fs_group_desc_count fs) in
  if uses_64bit_bitmaps fs then
    ext2fs_alloc_generic_bmap fs EXT2_ET_MAGIC_INODE_BITMAP64 (fs_default_bitmap_type fs)
      start end_ real_end descr
  else if bool_decide (2^32 - 1 < end_ ∨ 2^32 - 1 < real_end)
  then mret (EXT2_ET_CANT_USE_LEGACY_BITMAPS, NullBitmap)
  else ext2fs_make_generic_bitmap EXT2_ET_MAGIC_INODE_BITMAP start end_ real_end descr 0.

Definition ext2fs_allocate_block_bitmap {ML : Malloc} (fs : ext2_filsys)
    (descr : option (list Z)) : M (errcode * generic_bitmap) :=
  if bool_decide (fs_magic fs ≠ EXT2_ET_MAGIC_EXT2FS_FILSYS)
  then mret (EXT2_ET_MAGIC_EXT2FS_FILSYS, NullBitmap) else
  let start := EXT2FS_B2C fs (s_first_data_block (fs_super fs)) in
  let end_ := EXT2FS_B2C fs (u64 (ext2fs_blocks_count (fs_super fs) - 1)) in
  let real_end :=
    u64 (u64 (EXT2_CLUSTERS_PER_GROUP (fs_super fs) * fs_group_desc_count fs) - 1 + start) in
  if uses_64bit_bitmaps fs then
    ext2fs_alloc_generic_bmap fs EXT2_ET_MAGIC_BLOCK_BITMAP64 (fs_default_bitmap_type fs)
      start end_ real_end descr
  else if bool_decide (2^32 - 1 < end_ ∨ 2^32 - 1 < real_end)
  then mret (EXT2_ET_CANT_USE_LEGACY_BITMAPS, NullBitmap)
  else ext2fs_make_generic_bitmap EXT2_ET_MAGIC_BLOCK_BITMAP start end_ real_end descr 0.

Definition ext2fs_allocate_subcluster_bitmap {ML : Malloc} (fs : ext2_filsys)
    (descr : option (list Z)) : M (errcode * generic_bitmap) :=
  if bool_decide (fs_magic fs ≠ EXT2_ET_MAGIC_EXT2FS_FILSYS)
  then mret (EXT2_ET_MAGIC_EXT2FS_FILSYS, NullBitmap)
  else if bool_decide (fs_cluster_ratio_bits fs = 0)
  then ext2fs_allocate_block_bitmap fs descr
  else if negb (uses_64bit_bitmaps fs)
  then mret (EXT2_ET_CANT_USE_LEGACY_BITMAPS, NullBitmap)
  else
    let start := s_first_data_block (fs_super fs) in
    let end_ := u64 (ext2fs_blocks_count (fs_super fs) - 1) in
    let real_end :=
      u64 (u64 (EXT2_BLOCKS_PER_GROUP (fs_super fs) * fs_group_desc_count fs) - 1 + start) in
    r ← ext2fs_alloc_generic_bmap fs EXT2_ET_MAGIC_BLOCK_BITMAP64 (fs_default_bitmap_type fs)
          start end_ real_end descr;
    if bool_decide (r.1 ≠ E_OK) then mret (r.1, NullBitmap) else
    bmap64 ← as_bitmap64 r.2;
    mret (E_OK, IsBitmap64 (set_cluster_bits bmap64 0)).

Definition ext2fs_get_bitmap_granularity (bitmap : generic_bitmap) : M Z :=
  magic ← magic_of bitmap;
  if negb (EXT2FS_IS_64_BITMAP magic) then mret 0 else
  bmap ← as_bitmap64 bitmap;
  mret (m64_cluster_bits bmap).

(** ** Names for block and inode bitmaps *)
Definition ext2fs_free_inode_bitmap : generic_bitmap → M unit := ext2fs_free_generic_bmap.
Definition ext2fs_free_block_bitmap : generic_bitmap → M unit := ext2fs_free_generic_bmap.
Definition ext2fs_copy_bitmap {ML : Malloc} : generic_bitmap → M (errcode * generic_bitmap) :=
  ext2fs_copy_generic_bmap.
Definition ext2fs_set_bitmap_padding : generic_bitmap → M unit := ext2fs_set_generic_bmap_padding.
Definition ext2fs_clear_inode_bitmap : generic_bitmap → M unit := ext2fs_clear_generic_bmap.
Definition ext2fs_clear_block_bitmap : generic_bitmap → M unit := ext2fs_clear_generic_bmap.

Definition ext2fs_fudge_inode_bitmap_end (bitmap : generic_bitmap) (end_ : Z) :
    M (errcode * generic_bitmap * option Z) :=
  r ← ext2fs_fudge_generic_bmap_end bitmap EXT2_ET_FUDGE_INODE_BITMAP_END end_;
  mret (r.1, u32 <$> r.2).
Definition ext2fs_fudge_block_bitmap_end (bitmap : generic_bitmap) (end_ : Z) :
    M (errcode * generic_bitmap * option Z) :=
  ext2fs_fudge_generic_bitmap_end bitmap EXT2_ET_MAGIC_BLOCK_BITMAP
    EXT2_ET_FUDGE_BLOCK_BITMAP_END end_.
Definition ext2fs_fudge_block_bitmap_end2 (bitmap : generic_bitmap) (end_ : Z) :
    M (errcode * generic_bitmap * option Z) :=
  ext2fs_fudge_generic_bmap_end bitmap EXT2_ET_FUDGE_BLOCK_BITMAP_END end_.

Definition ext2fs_resize_inode_bitmap {ML : Malloc} (new_end new_real_end : Z)
    (bmap : generic_bitmap) : M (errcode * generic_bitmap) :=
  ext2fs_resize_generic_bitmap EXT2_ET_MAGIC_INODE_BITMAP new_end new_real_end bmap.
Definition ext2fs_resize_inode_bitmap2 {ML : Malloc} (new_end new_real_end : Z)
    (bmap : generic_bitmap) : M (errcode * generic_bitmap) :=
  ext2fs_resize_generic_bmap bmap new_end new_real_end.
Definition ext2fs_resize_block_bitmap {ML : Malloc} (new_end new_real_end : Z)
    (bmap : generic_bitmap) : M (errcode * generic_bitmap) :=
  ext2fs_resize_generic_bitmap EXT2_ET_MAGIC_BLOCK_BITMAP new_end new_real_end bmap.
Definition ext2fs_resize_block_bitmap2 {ML : Malloc} (new_end new_real_end : Z)
    (bmap : generic_bitmap) : M (errcode * generic_bitmap) :=
  ext2fs_resize_generic_bmap bmap new_end new_real_end.

Definition ext2fs_compare_block_bitmap : generic_bitmap → generic_bitmap → M errcode :=
  ext2fs_compare_generic_bmap EXT2_ET_NEQ_BLOCK_BITMAP.
Definition ext2fs_compare_inode_bitmap : generic_bitmap → generic_bitmap → M errcode :=
  ext2fs_compare_generic_bmap EXT2_ET_NEQ_INODE_BITMAP.

(** The numbers of the [2] functions are a [size_t], cut to [unsigned int]. *)
Definition ext2fs_set_inode_bitmap_range (bmap : generic_bitmap) (start num inp : Z) : M errcode :=
  ext2fs_set_generic_bitmap_range bmap EXT2_ET_MAGIC_INODE_BITMAP start num inp.
Definition ext2fs_set_inode_bitmap_range2 (bmap : generic_bitmap) (start num inp : Z) : M errcode :=
  ext2fs_set_generic_bmap_range bmap start (u32 num) inp.
Definition ext2fs_get_inode_bitmap_range (bmap : generic_bitmap) (start num out : Z) : M errcode :=
  ext2fs_get_generic_bitmap_range bmap EXT2_ET_MAGIC_INODE_BITMAP start num out.
Definition ext2fs_get_inode_bitmap_range2 (bmap : generic_bitmap) (start num out : Z) : M errcode :=
  ext2fs_get_generic_bmap_range bmap start (u32 num) out.
Definition ext2fs_set_block_bitmap_range (bmap : generic_bitmap) (start num inp : Z) : M errcode :=
  ext2fs_set_generic_bitmap_range bmap EXT2_ET_MAGIC_BLOCK_BITMAP start num inp.
Definition ext2fs_set_block_bitmap_range2 (bmap : generic_bitmap) (start num inp : Z) : M errcode :=
  ext2fs_set_generic_bmap_range bmap start (u32 num) inp.
Definition ext2fs_get_block_bitmap_range (bmap : generic_bitmap) (start num out : Z) : M errcode :=
  ext2fs_get_generic_bitmap_range bmap EXT2_ET_MAGIC_BLOCK_BITMAP start num out.
Definition ext2fs_get_block_bitmap_range2 (bmap : generic_bitmap) (start num out : Z) : M errcode :=
  ext2fs_get_generic_bmap_range bmap start (u32 num) out.

(** *** bitops.h *)
Definition ext2fs_mark_block_bitmap : generic_bitmap → Z → M Z := ext2fs_mark_generic_bitmap.
Definition ext2fs_unmark_block_bitmap : generic_bitmap → Z → M Z := ext2fs_unmark_generic_bitmap.
Definition ext2fs_test_block_bitmap : generic_bitmap → Z → M Z := ext2fs_test_generic_bitmap.
Definition ext2fs_mark_inode_bitmap : generic_bitmap → Z → M Z := ext2fs_mark_generic_bitmap.
Definition ext2fs_unmark_inode_bitmap : generic_bitmap → Z → M Z := ext2fs_unmark_generic_bitmap.
Definition ext2fs_test_inode_bitmap : generic_bitmap → Z → M Z := ext2fs_test_generic_bitmap.
Definition ext2fs_fast_mark_block_bitmap (bitmap : generic_bitmap) (block : Z) : M unit :=
  ext2fs_mark_generic_bitmap bitmap block ;; mret tt.
Definition ext2fs_fast_unmark_block_bitmap (bitmap : generic_bitmap) (block : Z) : M unit :=
  ext2fs_unmark_generic_bitmap bitmap block ;; mret tt.
Definition ext2fs_fast_test_block_bitmap : generic_bitmap → Z → M Z := ext2fs_test_generic_bitmap.
Definition ext2fs_fast_mark_inode_bitmap (bitmap : generic_bitmap) (inode : Z) : M unit :=
  ext2fs_mark_generic_bitmap bitmap inode ;; mret tt.
Definition ext2fs_fast_unmark_inode_bitmap (bitmap : generic_bitmap) (inode : Z) : M unit :=
  ext2fs_unmark_generic_bitmap bitmap inode ;; mret tt.
Definition ext2fs_fast_test_inode_bitmap : generic_bitmap → Z → M Z := ext2fs_test_generic_bitmap.
Definition ext2fs_get_block_bitmap_start : generic_bitmap → M Z := ext2fs_get_generic_bitmap_start.
Definition ext2fs_get_inode_bitmap_start : generic_bitmap → M Z := ext2fs_get_generic_bitmap_start.
Definition ext2fs_get_block_bitmap_end : generic_bitmap → M Z := ext2fs_get_generic_bitmap_end.
Definition ext2fs_get_inode_bitmap_end : generic_bitmap → M Z := ext2fs_get_generic_bitmap_end.
Definition ext2fs_fast_test_block_bitmap_range : generic_bitmap → Z → Z → M Z :=
  ext2fs_test_block_bitmap_range.
Definition ext2fs_fast_mark_block_bitmap_range : generic_bitmap → Z → Z → M unit :=
  ext2fs_mark_block_bitmap_range.
Definition ext2fs_fast_unmark_block_bitmap_range : generic_bitmap → Z → Z → M unit :=
  ext2fs_unmark_block_bitmap_range.

Definition ext2fs_mark_block_bitmap2 : generic_bitmap → Z → M Z := ext2fs_mark_generic_bmap.
Definition ext2fs_unmark_block_bitmap2 : generic_bitmap → Z → M Z := ext2fs_unmark_generic_bmap.
Definition ext2fs_test_block_bitmap2 : generic_bitmap → Z → M Z := ext2fs_test_generic_bmap.
Definition ext2fs_mark_inode_bitmap2 : generic_bitmap → Z → M Z := ext2fs_mark_generic_bmap.
Definition ext2fs_unmark_inode_bitmap2 : generic_bitmap → Z → M Z := ext2fs_unmark_generic_bmap.
Definition ext2fs_test_inode_bitmap2 : generic_bitmap → Z → M Z := ext2fs_test_generic_bmap.
Definition ext2fs_fast_mark_block_bitmap2 (bitmap : generic_bitmap) (block : Z) : M unit :=
  ext2fs_mark_generic_bmap bitmap block ;; mret tt.
Definition ext2fs_fast_unmark_block_bitmap2 (bitmap : generic_bitmap) (block : Z) : M unit :=
  ext2fs_unmark_generic_bmap bitmap block ;; mret tt.
Definition ext2fs_fast_test_block_bitmap2 : generic_bitmap → Z → M Z := ext2fs_test_generic_bmap.
Definition ext2fs_fast_mark_inode_bitmap2 (bitmap : generic_bitmap) (inode : Z) : M unit :=
  ext2fs_mark_generic_bmap bitmap inode ;; mret tt.
Definition ext2fs_fast_unmark_inode_bitmap2 (bitmap : generic_bitmap) (inode : Z) : M unit :=
  ext2fs_unmark_generic_bmap bitmap inode ;; mret tt.
Definition ext2fs_fast_test_inode_bitmap2 : generic_bitmap → Z → M Z := ext2fs_test_generic_bmap.

Definition ext2fs_find_first_zero_block_bitmap2 : generic_bitmap → Z → Z → M (errcode * Z) :=
  ext2fs_find_first_zero_generic_bmap.
Definition ext2fs_find_first_set_block_bitmap2 : generic_bitmap → Z → Z → M (errcode * Z) :=
  ext2fs_find_first_set_generic_bmap.
(** Inode numbers are 32-bit. *)
Definition ext2fs_find_first_zero_inode_bitmap2 (bitmap : generic_bitmap) (start end_ : Z) :
    M (errcode * Z) :=
  r ← ext2fs_find_first_zero_generic_bmap bitmap start end_; mret (r.1, u32 r.2).
Definition ext2fs_find_first_set_inode_bitmap2 (bitmap : generic_bitmap) (start end_ : Z) :
    M (errcode * Z) :=
  r ← ext2fs_find_first_set_generic_bmap bitmap start end_; mret (r.1, u32 r.2).

Definition ext2fs_get_block_bitmap_start2 : generic_bitmap → M Z := ext2fs_get_generic_bmap_start.
Definition ext2fs_get_inode_bitmap_start2 (bitmap : generic_bitmap) : M Z :=
  s ← ext2fs_get_generic_bmap_start bitmap; mret (u32 s).
Definition ext2fs_get_block_bitmap_end2 : generic_bitmap → M Z := ext2fs_get_generic_bmap_end.
Definition ext2fs_get_inode_bitmap_end2 (bitmap : generic_bitmap) : M Z :=
  e ← ext2fs_get_generic_bmap_end bitmap; mret (u32 e).
Definition ext2fs_fast_test_block_bitmap_range2 : generic_bitmap → Z → Z → M Z :=
  ext2fs_test_block_bitmap_range2.
Definition ext2fs_fast_mark_block_bitmap_range2 : generic_bitmap → Z → Z → M unit :=
  ext2fs_mark_block_bitmap_range2.
Definition ext2fs_fast_unmark_block_bitmap_range2 : generic_bitmap → Z → Z → M unit :=
  ext2fs_unmark_block_bitmap_range2.

(** ** Clusters (gen_bitmap64.c) *)

(** [while (i < bmap->real_end)]: every used block marks its cluster. *)
Definition convert_step (fs : ext2_filsys) (bmap cmap : bitmap64) (i : Z) : M (Z + unit) :=
  let real_end := b_real_end (m64_bmap bmap) in
  if bool_decide (i < real_end) then
    r ← ext2fs_find_first_set_block_bitmap2 (IsBitmap64 bmap) i real_end;
    if bool_decide (r.1 ≠ E_OK) then break_ tt else
    ext2fs_mark_block_bitmap2 (IsBitmap64 cmap) r.2 ;;
    continue_ (EXT2FS_C2B fs (u64 (EXT2FS_B2C fs r.2 + 1)))
  else break_ tt.

Definition end_at_real_end (bm : bitmap64) : bitmap64 :=
  let b := m64_bmap bm in set_bmap bm (set_ends b (b_real_end b) (b_real_end b)).

Definition ext2fs_convert_subcluster_bitmap {ML : Malloc} (fs : ext2_filsys)
    (gen_bmap : generic_bitmap) : M (errcode * generic_bitmap) :=
  g ← ext2fs_get_bitmap_granularity gen_bmap;
  if bool_decide (fs_cluster_ratio_bits fs = g) then mret (E_OK, gen_bmap) else
  r ← ext2fs_allocate_block_bitmap fs (Some (string_bytes "converted cluster bitmap"));
  if bool_decide (r.1 ≠ E_OK) then mret (r.1, gen_bmap) else
  cmap ← as_bitmap64 r.2;
  bmap ← as_bitmap64 gen_bmap;
  loop (convert_step fs (end_at_real_end bmap) (end_at_real_end cmap)) (b_start (m64_bmap bmap)) ;;
  ext2fs_free_block_bitmap gen_bmap ;;
  mret (E_OK, IsBitmap64 cmap).

(** The state is the position and the number of used blocks before it. *)
Definition count_step (block_map : generic_bitmap) (end_ : Z) (st : Z * Z) :
    M (Z * Z + (errcode * Z)) :=
  let start := st.1 in
  let tot_set := st.2 in
  if bool_decide (start < end_) then
    r ← ext2fs_find_first_set_block_bitmap2 block_map start end_;
    if bool_decide (r.1 ≠ E_OK) then
      break_ (if bool_decide (r.1 = ENOENT) then E_OK else r.1, tot_set)
    else
      let start := r.2 in
      z ← ext2fs_find_first_zero_block_bitmap2 block_map start end_;
      if bool_decide (z.1 = E_OK) then
        continue_ (u64 (z.2 + 1), u64 (tot_set + u64 (z.2 - start)))
      else if bool_decide (z.1 = ENOENT) then
        break_ (E_OK, u64 (tot_set + u64 (u64 (end_ - start) + 1)))
      else break_ (z.1, tot_set)
  else break_ (E_OK, tot_set).

Definition ext2fs_count_used_clusters (fs : ext2_filsys) (block_map : generic_bitmap)
    (start end_ : Z) : M (errcode * Z) :=
  r ← loop (count_step block_map end_) (start, 0);
  mret (r.1, if bool_decide (r.1 = E_OK) then EXT2FS_NUM_B2C fs r.2 else 0).
