(* ===== verification/BitmapTrace.v ===== *)
(** * BitmapTrace: block bitmaps refine a set of clusters

    An abstract machine whose state is a finite set, and the theorem that a
    client of the block bitmap interface, from [ext2fs_allocate_block_bitmap]
    through any sequence of operations to [ext2fs_free_block_bitmap], sees what
    the machine shows.  The legacy bitmap and the bit array show the same of
    every sequence.  The red-black tree shows something else in two cases: it
    finds no clear bit when it is empty, and unmarking a clear bit reports a
    used one when the bit after it is used; the machine has a flag for these
    two, and the theorems are exact in both settings of it. *)
From S2P Require Import Prelude.
From S2P Require Import Bytes.
From S2P Require Import Super.
From S2P Require Import Blknum.
From S2P Require Import Mem.
From S2P Require Import SepLogic.
From S2P Require Import ExtMem.
From S2P Require Import Bitmap.
From S2P Require Import BlkmapRB.
From S2P Require Import BlkmapBA.
From S2P Require Import GenBitmap.
From S2P Require Import GenBitmapSpec.
From S2P Require Import Bitmaps.
#[local] Open Scope Z_scope.

(** ** Operations and what a client sees of them *)
Inductive bop :=
  | Mark (x : Z)
  | Unmark (x : Z)
  | Test (x : Z)
  | Clear
  | MarkRange (x n : Z)
  | UnmarkRange (x n : Z)
  | TestRange (x n : Z)
  | FindSet (s e : Z)
  | FindZero (s e : Z)
  | Copy.

Inductive obs :=
  | Done
  | Bit (b : bool)
  | Found (err : errcode) (x : Z)
  | NoMemory.

Definition bit_obs (v : Z) : obs := Bit (bool_decide (v ≠ 0)).
Definition find_obs (r : errcode * Z) : obs :=
  Found r.1 (if bool_decide (r.1 = E_OK) then r.2 else 0).

Definition exec {ML : Malloc} (gen : generic_bitmap) (op : bop) : M (generic_bitmap * obs) :=
  match op with
  | Mark x => v ← ext2fs_mark_block_bitmap2 gen x; mret (gen, bit_obs v)
  | Unmark x => v ← ext2fs_unmark_block_bitmap2 gen x; mret (gen, bit_obs v)
  | Test x => v ← ext2fs_test_block_bitmap2 gen x; mret (gen, bit_obs v)
  | Clear => ext2fs_clear_block_bitmap gen ;; mret (gen, Done)
  | MarkRange x n => ext2fs_mark_block_bitmap_range2 gen x n ;; mret (gen, Done)
  | UnmarkRange x n => ext2fs_unmark_block_bitmap_range2 gen x n ;; mret (gen, Done)
  | TestRange x n => v ← ext2fs_test_block_bitmap_range2 gen x n; mret (gen, bit_obs v)
  | FindSet s e => r ← ext2fs_find_first_set_block_bitmap2 gen s e; mret (gen, find_obs r)
  | FindZero s e => r ← ext2fs_find_first_zero_block_bitmap2 gen s e; mret (gen, find_obs r)
  | Copy =>
      r ← ext2fs_copy_bitmap gen;
      if bool_decide (r.1 ≠ E_OK) then mret (gen, NoMemory) else
      ext2fs_free_block_bitmap gen ;; mret (r.2, Done)
  end.

Fixpoint exec_all {ML : Malloc} (gen : generic_bitmap) (ops : list bop) :
    M (generic_bitmap * list obs) :=
  match ops with
  | [] => mret (gen, [])
  | op :: ops =>
      r ← exec gen op;
      rs ← exec_all r.1 ops;
      mret (rs.1, r.2 :: rs.2)
  end.

Definition run_client {ML : Malloc} (fs : ext2_filsys) (descr : option (list Z))
    (ops : list bop) : M (errcode * list obs) :=
  r ← ext2fs_allocate_block_bitmap fs descr;
  if bool_decide (r.1 ≠ E_OK) then mret (r.1, []) else
  rs ← exec_all r.2 ops;
  ext2fs_free_block_bitmap rs.1 ;;
  mret (E_OK, rs.2).

(** ** The abstract machine *)
Record geometry := Geometry { g_start : Z; g_end : Z; g_real_end : Z; g_bits : Z }.

Definition g_bit (g : geometry) (x : Z) : Z := Z.shiftr x (g_bits g).
Definition g_in (g : geometry) (x : Z) : Prop := g_start g ≤ g_bit g x ≤ g_end g.
Definition g_range (g : geometry) (x n : Z) : gset Z :=
  zrange (g_bit g x) (g_bit g (x + n - 1) - g_bit g x + 1).

#[export] Instance g_in_dec g x : Decision (g_in g x).
Proof. unfold g_in. apply _. Defined.

(** The first position of [s, e] that satisfies [P]. *)
Definition first_of (P : Z → bool) (s e : Z) : errcode * Z :=
  match head (filter (λ x, P x = true) (seqZ s (e + 1 - s))) with
  | Some x => (E_OK, x)
  | None => (ENOENT, 0)
  end.

Definition abs_find (g : geometry) (P : Z → bool) (s e : Z) : obs :=
  if decide (s ≤ e ∧ g_in g s ∧ g_in g e)
  then find_obs (first_of P s e)
  else Found EINVAL 0.

(** The set after an operation. *)
Definition anext (g : geometry) (B : gset Z) (op : bop) : gset Z :=
  match op with
  | Mark x => if decide (g_in g x) then {[g_bit g x]} ∪ B else B
  | Unmark x => if decide (g_in g x) then B ∖ {[g_bit g x]} else B
  | Clear => ∅
  | MarkRange x n => g_range g x n ∪ B
  | UnmarkRange x n => B ∖ g_range g x n
  | Test _ | TestRange _ _ | FindSet _ _ | FindZero _ _ | Copy => B
  end.

(** The operations of which a red-black tree shows something of its own: a
    search for a clear bit when there is no set one, and unmarking a clear bit
    before a set one. *)
Definition odd_op (g : geometry) (B : gset Z) (op : bop) : Prop :=
  match op with
  | FindZero s e => (s ≤ e ∧ g_in g s ∧ g_in g e) ∧ B = ∅
  | Unmark x => g_in g x ∧ ¬ (g_bit g x ∈ B) ∧ (g_bit g x + 1) ∈ B
  | _ => False
  end.

#[export] Instance odd_op_dec g B op : Decision (odd_op g B op).
Proof. destruct op; apply _. Defined.

(** What an operation shows, in a red-black tree ([tree]) or another bitmap. *)
Definition ashow (tree : bool) (g : geometry) (B : gset Z) (op : bop) : obs :=
  match op with
  | Mark x | Test x => Bit (bool_decide (g_in g x ∧ g_bit g x ∈ B))
  | Unmark x => Bit (bool_decide (g_in g x ∧ (g_bit g x ∈ B) ∨ (tree = true ∧ odd_op g B op)))
  | TestRange x n => Bit (bool_decide (g_range g x n ## B))
  | FindSet s e => abs_find g (λ x, bool_decide (g_bit g x ∈ B)) s e
  | FindZero s e =>
      if decide (tree = true ∧ odd_op g B op) then Found ENOENT 0
      else abs_find g (λ x, bool_decide (g_bit g x ∉ B)) s e
  | Clear | MarkRange _ _ | UnmarkRange _ _ | Copy => Done
  end.

(** An observation is the machine's, unless memory ran out. *)
Definition agrees {ML : Malloc} (op : bop) (o o' : obs) : Prop :=
  o = o' ∨ (op = Copy ∧ o = NoMemory ∧ malloc_can_fail).

Fixpoint trace_ok {ML : Malloc} (tree : bool) (g : geometry) (B : gset Z) (ops : list bop)
    (os : list obs) : Prop :=
  match ops, os with
  | [], [] => True
  | op :: ops, o :: os => agrees op o (ashow tree g B op) ∧ trace_ok tree g (anext g B op) ops os
  | _, _ => False
  end.

(** The arguments of the operations: 64-bit blocks, ranges within bounds. *)
Definition op_ok (g : geometry) (op : bop) : Prop :=
  match op with
  | Mark x | Unmark x | Test x => 0 ≤ x < 2^64
  | MarkRange x n | UnmarkRange x n | TestRange x n =>
      0 ≤ x ∧ 1 ≤ n < 2^31 ∧ x + n + 2^31 < 2^64 ∧ g_in g x ∧ g_in g (x + n - 1)
  | FindSet s e | FindZero s e => 0 ≤ s < 2^64 ∧ 0 ≤ e < 2^64
  | Clear | Copy => True
  end.

(** ** The file systems whose block bitmap can be allocated *)
Definition fs_geometry (fs : ext2_filsys) : geometry :=
  let start := EXT2FS_B2C fs (s_first_data_block (fs_super fs)) in
  let end_ := EXT2FS_B2C fs (u64 (ext2fs_blocks_count (fs_super fs) - 1)) in
  let real_end :=
    u64 (u64 (EXT2_CLUSTERS_PER_GROUP (fs_super fs) * fs_group_desc_count fs) - 1 + start) in
  Geometry start end_ real_end (if uses_64bit_bitmaps fs then fs_cluster_ratio_bits fs else 0).

(** Whether the block bitmap of the file system is a red-black tree. *)
Definition fs_tree {ML : Malloc} (fs : ext2_filsys) : bool :=
  uses_64bit_bitmaps fs &&
  match bmap64_ops_of_type fs (fs_default_bitmap_type fs) with
  | Some (Some ops) => is_tree ops
  | _ => false
  end.

Record client_fs {ML : Malloc} (fs : ext2_filsys) : Prop := {
  cf_magic : fs_magic fs = EXT2_ET_MAGIC_EXT2FS_FILSYS;
  cf_bits : 0 ≤ fs_cluster_ratio_bits fs < 31;
  cf_bounds : 0 ≤ g_start (fs_geometry fs) ≤ g_end (fs_geometry fs);
  cf_end : g_end (fs_geometry fs) ≤ g_real_end (fs_geometry fs);
  cf_limit : g_real_end (fs_geometry fs) + 1 < (if uses_64bit_bitmaps fs then 2^64 else 2^32);
  cf_type : uses_64bit_bitmaps fs = true →
    ∃ ops, bmap64_ops_of_type fs (fs_default_bitmap_type fs) = Some (Some ops);
}.

(** ** Searches *)
Lemma first_of_is_first P s e : is_first (λ x, P x = true) s e (first_of P s e).
Proof.
  unfold first_of. remember (Z.to_nat (e + 1 - s)) as m eqn:Hm. revert s Hm.
  induction m as [|m IH]; intros s Hm.
  - rewrite seqZ_nil; [|lia]. right. split; [done|]. intros; lia.
  - rewrite seqZ_cons; [|lia]. rewrite filter_cons. destruct (decide (P s = true)) as [Hs|Hs].
    + left. simpl. split_and!; [done|lia|lia|done|]. intros; lia.
    + specialize (IH (s + 1) ltac:(lia)).
      replace (Z.succ s) with (s + 1) by lia.
      replace (Z.pred (e + 1 - s)) with (e + 1 - (s + 1)) by lia.
      destruct IH as [(H1 & H2 & H3 & H4)|[H1 H2]]; [left|right].
      * split_and!; [done|lia|lia|done|]. intros x Hx.
        destruct (decide (x = s)) as [->|]; [done|]. apply H4. lia.
      * split; [done|]. intros x Hx. destruct (decide (x = s)) as [->|]; [done|]. apply H2. lia.
Qed.

Lemma is_first_unique P s e r r' : is_first P s e r → is_first P s e r' → find_obs r = find_obs r'.
Proof.
  unfold find_obs.
  intros [(H1 & H2 & H3 & H4)|[H1 H2]] [(H1' & H2' & H3' & H4')|[H1' H2']]; rewrite H1 H1' /=.
  - destruct (Z.lt_trichotomy r.2 r'.2) as [Hlt|[->|Hlt]]; [|done|].
    + destruct (H4' r.2); [lia|done].
    + destruct (H4 r'.2); [lia|done].
  - destruct (H2' r.2); [lia|done].
  - destruct (H2 r'.2); [lia|done].
  - done.
Qed.

Lemma is_first_find_obs P s e r :
  is_first (λ x, P x = true) s e r → find_obs r = find_obs (first_of P s e).
Proof. intros. eapply is_first_unique; [done|apply first_of_is_first]. Qed.

Section trace.
Context {ML : Malloc}.

(** ** The bitmap and the machine *)

(** [gen] has the bounds [g], and its array is as it was allocated. *)
Definition gen_ok (g : geometry) (gen : generic_bitmap) : Prop :=
  gen_view gen = Bmap64 (g_start g) (g_end g) (g_real_end g) (b_private (gen_view gen)) ∧
  gen_cluster_bits gen = g_bits g ∧ block_kind gen ∧
  match gen with
  | IsBitmap32 bm => m32_size bm = Z.to_nat (array_size32 (m32_start bm) (m32_real_end bm))
  | _ => True
  end.

Lemma gen_ok_bit g gen x : gen_ok g gen → gen_bit gen x = g_bit g x.
Proof. intros (_ & Hb & _). unfold gen_bit, g_bit. by rewrite Hb. Qed.

Lemma gen_ok_in g gen x : gen_ok g gen → gen_in gen x ↔ g_in g x.
Proof. intros Hok. unfold gen_in, g_in. rewrite (gen_ok_bit g) //. by destruct Hok as (-> & _). Qed.

Lemma gen_ok_range g gen x n : gen_ok g gen → gen_range gen x n = g_range g x n.
Proof. intros Hok. unfold gen_range, g_range. by rewrite !(gen_ok_bit g). Qed.

Lemma gen_ok_range_in g gen x n :
  gen_ok g gen →
  0 ≤ x ∧ 1 ≤ n < 2^31 ∧ x + n + 2^31 < 2^64 ∧ g_in g x ∧ g_in g (x + n - 1) → range_in gen x n.
Proof. intros Hok. unfold range_in. by rewrite !(gen_ok_in g). Qed.

Lemma gen_ok_marked g gen x B :
  gen_ok g gen → marked gen x B = if decide (g_in g x) then {[g_bit g x]} ∪ B else B.
Proof.
  intros Hok. case_decide as H; rewrite -(gen_ok_in g gen) // in H.
  - by rewrite marked_in // (gen_ok_bit g).
  - by rewrite marked_out.
Qed.

Lemma gen_ok_unmarked g gen x B :
  gen_ok g gen → unmarked gen x B = if decide (g_in g x) then B ∖ {[g_bit g x]} else B.
Proof.
  intros Hok. case_decide as H; rewrite -(gen_ok_in g gen) // in H.
  - by rewrite unmarked_in // (gen_ok_bit g).
  - by rewrite unmarked_out.
Qed.

Lemma bit_obs_iff v P `{!Decision P} : (v ≠ 0 ↔ P) → bit_obs v = Bit (bool_decide P).
Proof. intros Hv. unfold bit_obs. f_equal. by apply bool_decide_ext. Qed.

(** A search shows what the machine shows. *)
Lemma find_agrees g gen (want : bool) B s e r :
  gen_ok g gen →
  (if decide (s ≤ e ∧ gen_in gen s ∧ gen_in gen e) then found_block want gen B s e r
   else r.1 = EINVAL) →
  find_obs r = ashow (gen_tree gen) g B (if want then FindSet s e else FindZero s e).
Proof.
  intros Hok Hr. pose proof (gen_ok_in g gen s Hok). pose proof (gen_ok_in g gen e Hok).
  set (P x := if want then bool_decide (g_bit g x ∈ B) else bool_decide (g_bit g x ∉ B)).
  assert (Hfirst : is_first (wanted want gen B) s e r → find_obs r = find_obs (first_of P s e)).
  { intros Hf. apply is_first_find_obs. eapply is_first_ext; [|exact Hf].
    intros x Hx. simpl. unfold wanted, P. rewrite (gen_ok_bit g) //.
    destruct want; by rewrite bool_decide_eq_true. }
  assert (Hbad : r.1 = EINVAL → find_obs r = Found EINVAL 0) by (unfold find_obs; by intros ->).
  destruct (decide (s ≤ e ∧ gen_in gen s ∧ gen_in gen e)) as [Hd|Hd].
  - assert (s ≤ e ∧ g_in g s ∧ g_in g e) as Hd' by tauto. destruct want; cbn [ashow odd_op].
    + unfold abs_find. rewrite decide_True //. apply Hfirst.
      by apply found_block_first in Hr; [|by left].
    + unfold found_block in Hr. destruct (decide (gen_tree gen = true ∧ _ ∧ B = ∅)) as [(Ht & _ & HB)|Hno].
      * rewrite decide_True // in Hr. unfold find_obs. by rewrite Hr.
      * unfold abs_find. rewrite (decide_True _ _ Hd'). apply Hfirst.
        rewrite decide_False in Hr; [exact Hr|]. tauto.
  - assert (¬ (s ≤ e ∧ g_in g s ∧ g_in g e)) as Hd' by tauto. rewrite Hbad //.
    destruct want; cbn [ashow odd_op]; [|rewrite (decide_False (P := gen_tree gen = true ∧ _)); [|tauto]];
      unfold abs_find; by rewrite (decide_False _ _ Hd').
Qed.

Lemma gen_ok_copy g gen gen' :
  gen_ok g gen → same_bitmap gen gen' → gen_ok g gen' ∧ gen_tree gen' = gen_tree gen.
Proof.
  intros (Hv & Hb & Hk & Hs) Hsame. destruct gen as [|bm|bm], gen' as [|bm'|bm']; try done.
  - destruct Hsame as (Hv' & Hm & Hs'). unfold gen_ok. simpl in *. rewrite Hv' Hm. by split_and!.
  - destruct Hsame as (Ho & Hm & Hc & Hv'). unfold gen_ok. simpl in *. rewrite Hc Ho. split_and!; try done.
    rewrite Hv' Hv. done.
Qed.

(** One operation. *)
Lemma exec_spec g gen B op Φ :
  gen_ok g gen → op_ok g op →
  generic_at gen B -∗
  (∀ gen' o, ⌜(gen_ok g gen' ∧ gen_tree gen' = gen_tree gen) ∧ agrees op o (ashow (gen_tree gen) g B op)⌝ -∗
     generic_at gen' (anext g B op) -∗ Φ (gen', o)) -∗
  wp (exec gen op) Φ.
Proof.
  iIntros (Hok Hop) "Hg HΦ". destruct op as [x|x|x| |x n|x n|x n|s e|s e|]; cbn [exec anext] in *.
  - wp_apply (mark_generic_bmap_spec with "Hg"); [done|]. iIntros (v Hv) "Hg". wp_steps.
    iApply ("HΦ" with "[%]"); [|by rewrite (gen_ok_marked g)].
    split; [done|]. left. apply bit_obs_iff. by rewrite Hv (gen_ok_in g) // (gen_ok_bit g).
  - wp_apply (unmark_generic_bmap_spec with "Hg"); [done|]. iIntros (v Hv) "Hg". wp_steps.
    iApply ("HΦ" with "[%]"); [|by rewrite (gen_ok_unmarked g)]. split; [done|]. left.
    apply bit_obs_iff. unfold says_used in Hv. rewrite Hv (gen_ok_in g) // (gen_ok_bit g) //. simpl.
    destruct (decide (g_bit g x ∈ B)); tauto.
  - wp_apply (test_generic_bmap_spec with "Hg"); [done|]. iIntros (v Hv) "Hg". wp_steps.
    iApply ("HΦ" with "[%] Hg").
    split; [done|]. left. apply bit_obs_iff. by rewrite Hv (gen_ok_in g) // (gen_ok_bit g).
  - wp_apply (clear_generic_bmap_spec with "Hg"). iIntros "Hg". wp_steps.
    iApply ("HΦ" with "[%] Hg"). split; [done|by left].
  - wp_apply (mark_block_bitmap_range2_spec with "Hg"); [by eapply gen_ok_range_in|].
    iIntros "Hg". wp_steps. iApply ("HΦ" with "[%]"); [split; [done|by left]|]. by rewrite (gen_ok_range g).
  - wp_apply (unmark_block_bitmap_range2_spec with "Hg"); [by eapply gen_ok_range_in|].
    iIntros "Hg". wp_steps. iApply ("HΦ" with "[%]"); [split; [done|by left]|]. by rewrite (gen_ok_range g).
  - wp_apply (test_block_bitmap_range2_spec with "Hg"); [by destruct Hok as (_ & _ & ? & _)|by eapply gen_ok_range_in|].
    iIntros (v Hv) "Hg". wp_steps. iApply ("HΦ" with "[%] Hg"). split; [done|]. left.
    apply bit_obs_iff. unfold says_clear in Hv. by rewrite Hv (gen_ok_range g).
  - simpl in Hop. wp_apply (find_first_bmap_spec true with "Hg"); [lia|lia|]. iIntros (r Hr) "Hg". wp_steps.
    iApply ("HΦ" with "[%] Hg"). split; [done|]. left. by apply (find_agrees g gen true).
  - simpl in Hop. wp_apply (find_first_bmap_spec false with "Hg"); [lia|lia|]. iIntros (r Hr) "Hg". wp_steps.
    iApply ("HΦ" with "[%] Hg"). split; [done|]. left. by apply (find_agrees g gen false).
  - wp_apply (copy_generic_bmap_spec with "Hg").
    { destruct gen as [|bm|bm]; try done. destruct Hok as (_ & _ & _ & Hs). simpl in *. rewrite Hs.
      lia. }
    iSplit.
    + iIntros (gen' Hsame) "Hg Hg'". simpl. iApply wp_bind.
      iApply (free_generic_bmap_spec with "Hg"). wp_steps.
      iApply ("HΦ" with "[%] Hg'"). split; [by eapply gen_ok_copy|by left].
    + iIntros (Hf) "Hg". simpl. wp_steps. iApply ("HΦ" with "[%] Hg"). split; [done|]. by right.
Qed.

Lemma exec_all_spec g ops gen B Φ :
  gen_ok g gen → Forall (op_ok g) ops →
  generic_at gen B -∗
  (∀ gen' B' os, ⌜trace_ok (gen_tree gen) g B ops os⌝ -∗ generic_at gen' B' -∗ Φ (gen', os)) -∗
  wp (exec_all gen ops) Φ.
Proof.
  revert gen B Φ. induction ops as [|op ops IH]; iIntros (gen B Φ Hok Hops) "Hg HΦ"; simpl.
  - wp_steps. by iApply ("HΦ" $! gen B with "[%] Hg").
  - apply Forall_cons in Hops as [Hop Hops]. wp_apply (exec_spec with "Hg"); [done..|].
    iIntros (gen' o [[Hok' Ht] Ho]) "Hg". wp_apply (IH with "Hg"); [done..|].
    iIntros (gen'' B'' os Hos) "Hg". wp_steps. rewrite Ht in Hos.
    by iApply ("HΦ" $! gen'' B'' with "[%] Hg").
Qed.

(** The allocation gives an empty bitmap with the geometry of the file system. *)
Lemma allocate_block_bitmap_spec fs descr Φ :
  client_fs fs →
  ((∀ gen, ⌜gen_ok (fs_geometry fs) gen ∧ gen_tree gen = fs_tree fs⌝ -∗ generic_at gen ∅ -∗ Φ (E_OK, gen)) ∧
   (⌜malloc_can_fail⌝ -∗ Φ (EXT2_ET_NO_MEMORY, NullBitmap))) -∗
  wp (ext2fs_allocate_block_bitmap fs descr) Φ.
Proof.
  iIntros ([Hm Hb Hbo He Hl Ht]) "HΦ". unfold ext2fs_allocate_block_bitmap.
  rewrite bool_decide_eq_false_2; [|by rewrite Hm; intros []].
  unfold fs_geometry in *. cbn [g_start g_end g_real_end] in *.
  set (s := EXT2FS_B2C fs _) in *. set (e := EXT2FS_B2C fs (u64 _)) in *.
  set (re := u64 (_ - 1 + _)) in *. clearbody s e re.
  unfold fs_tree. destruct (uses_64bit_bitmaps fs).
  - destruct (Ht eq_refl) as [ops Hops].
    assert (∃ _ : BitmapImpl ops, True) as [I _].
    { clear -Hops. unfold bmap64_ops_of_type in Hops.
      repeat case_bool_decide; simplify_eq; try by eexists (ba_bitmap_impl).
      - by eexists (rb_bitmap_impl).
      - apply bind_Some in Hops as (r & _ & Hops). injection Hops as <-.
        case_bool_decide; [by eexists (ba_bitmap_impl)|by eexists (rb_bitmap_impl)]. }
    iApply alloc_generic_bmap_spec; [lia|lia|lia|done|done|done|]. iSplit.
    + iIntros (bm (Hmag & Ho & Hv & Hd & Hc)) "Hbm". iDestruct "HΦ" as "[HΦ _]".
      iApply ("HΦ" $! (IsBitmap64 bm) with "[%] Hbm"). split; [by split_and!|]. by rewrite Hops -Ho.
    + iDestruct "HΦ" as "[_ HΦ]". done.
  - rewrite bool_decide_eq_false_2; [|lia].
    iApply make_empty_bitmap_spec; [lia|lia|lia|done|]. iSplit.
    + iIntros (bm (Hv & Hmag & Hd & Hs)) "Hbm". iDestruct "HΦ" as "[HΦ _]".
      iApply ("HΦ" $! (IsBitmap32 bm) with "[%] Hbm"). split; [|done]. split_and!; try done.
      injection Hv as <- <- <-. done.
    + iDestruct "HΦ" as "[_ HΦ]". done.
Qed.

Lemma block_bitmap_run fs descr ops :
  client_fs fs → Forall (op_ok (fs_geometry fs)) ops →
  hoare emp (run_client fs descr ops)
    (λ r, ⌜(r.1 = E_OK ∧ trace_ok (fs_tree fs) (fs_geometry fs) ∅ ops r.2) ∨
           (r.1 = EXT2_ET_NO_MEMORY ∧ malloc_can_fail)⌝)%I.
Proof.
  intros Hfs Hops. apply wp_adequate. iIntros "_". unfold run_client.
  wp_apply allocate_block_bitmap_spec; [done|]. iSplit.
  - iIntros (gen [Hok Htree]) "Hg". simpl. wp_apply (exec_all_spec with "Hg"); [done..|].
    iIntros (gen' B' os Hos) "Hg". rewrite Htree in Hos. iApply wp_bind. iApply (free_generic_bmap_spec with "Hg").
    wp_steps. iPureIntro. by left.
  - iIntros (Hf). simpl. wp_steps. iPureIntro. by right.
Qed.

(** C2: A client of the block bitmap, from the allocation to the release: when
    memory does not run out, every operation shows it what the machine of sets
    shows, and every call returns.  The machine is the same for the three
    implementations but for two answers, which are those of the file systems
    that use a red-black tree ([fs_tree]): the search for a clear bit of an
    empty bitmap fails with [ENOENT], and unmarking a clear bit before a used
    one reports a used one. *)
Theorem block_bitmap_refines fs descr ops :
  client_fs fs → Forall (op_ok (fs_geometry fs)) ops →
  hoare emp (run_client fs descr ops)
    (λ r, ⌜(r.1 = E_OK ∧ trace_ok (fs_tree fs) (fs_geometry fs) ∅ ops r.2) ∨
           (r.1 = EXT2_ET_NO_MEMORY ∧ malloc_can_fail)⌝)%I.
Proof. apply block_bitmap_run. Qed.

End trace.

(** ** Telling the implementations apart *)

(** What the machine shows, and its set after some operations. *)
Fixpoint machine (tree : bool) (g : geometry) (B : gset Z) (ops : list bop) : list obs :=
  match ops with
  | [] => []
  | op :: ops => ashow tree g B op :: machine tree g (anext g B op) ops
  end.

Definition set_after (g : geometry) (B : gset Z) (ops : list bop) : gset Z :=
  foldl (anext g) B ops.

Lemma trace_ok_machine {ML : Malloc} tree g B ops os :
  ¬ malloc_can_fail → trace_ok tree g B ops os → os = machine tree g B ops.
Proof.
  intros Hf. revert B os. induction ops as [|op ops IH]; intros B [|o os] Ht; try done.
  destruct Ht as [Ho Ht]. simpl. f_equal; [|by apply IH]. destruct Ho as [Ho|(_ & _ & ?)]; done.
Qed.

Lemma ashow_same tree1 tree2 g B op : ¬ odd_op g B op → ashow tree1 g B op = ashow tree2 g B op.
Proof.
  intros Hodd. destruct op; try done; cbn [ashow].
  - f_equal. apply bool_decide_ext. tauto.
  - by rewrite !decide_False; [|tauto..].
Qed.

Lemma machine_same tree1 tree2 g B ops i op :
  ops !! i = Some op → ¬ odd_op g (set_after g B (take i ops)) op →
  machine tree1 g B ops !! i = machine tree2 g B ops !! i.
Proof.
  revert B i. induction ops as [|op' ops IH]; intros B [|i] Hi Hodd; try done; simpl in *.
  - injection Hi as ->. f_equal. by apply ashow_same.
  - by apply IH.
Qed.

(** C3: Two file systems of the same geometry, with different kinds of bitmap
    (legacy or not) or different implementations, when memory does not run
    out.  If both bitmaps are red-black trees or neither is, as with a legacy
    bitmap and a bit array, a client sees the same of both.  Of a tree and
    another bitmap it sees the same of every operation but the two in which
    trees differ: a search for a clear bit when the bitmap is empty, and what
    unmarking a clear bit before a used one returns. *)
Theorem block_bitmaps_equivalent (ML1 ML2 : Malloc) fs1 fs2 descr1 descr2 ops :
  ¬ @malloc_can_fail ML1 → ¬ @malloc_can_fail ML2 →
  @client_fs ML1 fs1 → @client_fs ML2 fs2 → fs_geometry fs1 = fs_geometry fs2 →
  Forall (op_ok (fs_geometry fs1)) ops →
  ∃ n0 h1 h2 os1 os2,
    (∀ n, (n0 ≤ n)%nat →
      @run_client ML1 fs1 descr1 ops n ∅ = Ok (E_OK, os1) h1 ∧
      @run_client ML2 fs2 descr2 ops n ∅ = Ok (E_OK, os2) h2) ∧
    (@fs_tree ML1 fs1 = @fs_tree ML2 fs2 → os1 = os2) ∧
    (∀ i op, ops !! i = Some op →
      ¬ odd_op (fs_geometry fs1) (set_after (fs_geometry fs1) ∅ (take i ops)) op →
      os1 !! i = os2 !! i).
Proof.
  intros Hf1 Hf2 Hfs1 Hfs2 Hg Hops.
  assert (Hrun : ∀ (ML : Malloc) fs descr, ¬ malloc_can_fail → client_fs fs →
    fs_geometry fs = fs_geometry fs1 →
    ∃ n0 h, ∀ n, (n0 ≤ n)%nat →
      run_client fs descr ops n ∅ = Ok (E_OK, machine (fs_tree fs) (fs_geometry fs1) ∅ ops) h).
  { intros ML fs descr Hf Hfs Hgeo.
    assert (wp_ok := block_bitmap_run fs descr ops Hfs). rewrite Hgeo in wp_ok.
    destruct (wp_ok Hops ∅ I) as (n0 & [(r & h & Hr & Hn)|[? _]]); [|done].
    exists n0, h. intros n Hle. rewrite Hn //. f_equal. destruct r as [err os]. simpl in Hr.
    destruct Hr as [[-> Ht]|[_ ?]]; [|done]. f_equal. by apply trace_ok_machine. }
  destruct (Hrun ML1 fs1 descr1) as (n1 & h1 & H1); [done..|].
  destruct (Hrun ML2 fs2 descr2) as (n2 & h2 & H2); [done..|].
  exists (n1 + n2)%nat, h1, h2, (machine (@fs_tree ML1 fs1) (fs_geometry fs1) ∅ ops),
    (machine (@fs_tree ML2 fs2) (fs_geometry fs1) ∅ ops).
  split; [|split].
  - intros n Hle. split; [apply H1|apply H2]; lia.
  - by intros ->.
  - intros i op. apply machine_same.
Qed.

(** ** Examples *)

(** 100 blocks of 1024 bytes in 4 groups of 32, clusters of two blocks. *)
Definition trace_super : list Z :=
  set32 20 1 (set32 4 100 (set32 32 32 (set32 36 16 (replicate SUPERBLOCK_SIZE 0)))).

Definition trace_fs (type : Z) : ext2_filsys :=
  Filsys EXT2_ET_MAGIC_EXT2FS_FILSYS trace_super EXT2_FLAG_64BITS 1024 4 1 2 1 type 0
    (Some (replicate 128 0)) (λ _, None).

Definition trace_ops : list bop :=
  [FindZero 4 90; Mark 10; Test 11; MarkRange 20 9; FindSet 12 90; Unmark 18; Unmark 30; Copy;
   Unmark 25; TestRange 24 2; TestRange 30 4; FindZero 20 90].

Lemma trace_fs_client type :
  (type = EXT2FS_BMAP64_BITARRAY ∨ type = EXT2FS_BMAP64_RBTREE ∨ type = EXT2FS_BMAP64_AUTODIR) →
  client_fs (ML := bump_malloc) (trace_fs type).
Proof.
  intros Ht.
  assert (Hg : fs_geometry (trace_fs type) = Geometry 0 49 63 1) by reflexivity.
  constructor; rewrite ?Hg; try done.
  intros _. destruct Ht as [->|[->| ->]]; eexists; reflexivity.
Qed.

Lemma trace_ops_ok : Forall (op_ok (Geometry 0 49 63 1)) trace_ops.
Proof. repeat constructor; simpl; unfold g_in, g_bit; simpl; try done. Qed.

Lemma block_bitmap_refines_witness :
  hoare (ML := bump_malloc) emp
    (run_client (ML := bump_malloc) (trace_fs EXT2FS_BMAP64_RBTREE) (Some (string_bytes "map")) trace_ops)
    (λ r, ⌜(r.1 = E_OK ∧
            trace_ok (ML := bump_malloc) true (Geometry 0 49 63 1) ∅ trace_ops r.2) ∨
           (r.1 = EXT2_ET_NO_MEMORY ∧ malloc_can_fail (ML := bump_malloc))⌝)%I.
Proof.
  apply (block_bitmap_refines (ML := bump_malloc) (trace_fs EXT2FS_BMAP64_RBTREE)).
  - apply trace_fs_client. right. by left.
  - exact trace_ops_ok.
Defined.

Lemma block_bitmaps_equivalent_witness :
  ∃ n0 h1 h2 os1 os2,
    (∀ n, (n0 ≤ n)%nat →
      run_client (ML := bump_malloc) (trace_fs EXT2FS_BMAP64_RBTREE) None trace_ops n ∅ = Ok (E_OK, os1) h1 ∧
      run_client (ML := bump_malloc) (trace_fs EXT2FS_BMAP64_BITARRAY) None trace_ops n ∅ = Ok (E_OK, os2) h2) ∧
    (true = false → os1 = os2) ∧
    (∀ i op, trace_ops !! i = Some op →
      ¬ odd_op (Geometry 0 49 63 1) (set_after (Geometry 0 49 63 1) ∅ (take i trace_ops)) op →
      os1 !! i = os2 !! i).
Proof.
  apply (block_bitmaps_equivalent bump_malloc bump_malloc).
  - apply bump_malloc_total.
  - apply bump_malloc_total.
  - apply trace_fs_client. right. by left.
  - apply trace_fs_client. by left.
  - reflexivity.
  - exact trace_ops_ok.
Defined.

(** The same runs, computed: the tree answers otherwise to the first operation
    and to the sixth. *)
Definition trace_obs : list obs :=
  [Found E_OK 4; Bit false; Bit true; Done; Found E_OK 20; Bit false; Bit false; Done;
   Bit true; Bit true; Bit true; Found E_OK 24].

Definition tree_obs : list obs := <[0%nat := Found ENOENT 0]> (<[5%nat := Bit true]> trace_obs).

Example trace_machine : machine false (Geometry 0 49 63 1) ∅ trace_ops = trace_obs.
Proof. vm_compute. reflexivity. Qed.

Example trace_array :
  run 1000 (run_client (trace_fs EXT2FS_BMAP64_BITARRAY) None trace_ops) = Some (E_OK, trace_obs).
Proof. vm_compute. reflexivity. Qed.

(** The empty tree has no clear bit, and clearing bit 9 reports a used bit
    because bit 10 is. *)
Example trace_tree :
  run 1000 (run_client (trace_fs EXT2FS_BMAP64_RBTREE) None trace_ops) = Some (E_OK, tree_obs).
Proof. vm_compute. reflexivity. Qed.
