(* ===== verification/Clusters.v ===== *)
(** * Clusters: counting used clusters and converting per-block bitmaps

    [ext2fs_count_used_clusters] counts the used blocks of a range, up to its
    treatment of the last block; [ext2fs_convert_subcluster_bitmap] turns a
    bitmap of blocks into the bitmap of their clusters. *)
From S2P Require Import Prelude.
From S2P Require Import Bytes.
From S2P Require Import Super.
From S2P Require Import Blknum.
From S2P Require Import Mem.
From S2P Require Import SepLogic.
From S2P Require Import ExtMem.
From S2P Require Import Bitmap.
From S2P Require Import BlkmapRB.
From S2P Require Import BlkmapBA.
From S2P Require Import GenBitmap.
From S2P Require Import GenBitmapSpec.
From S2P Require Import BitmapProps.
From S2P Require Import Bitmaps.
From S2P Require Import BitmapTrace.
#[local] Open Scope Z_scope.

(** ** Counting *)

(** The number of used blocks from [s] to [e]. *)
Definition used (gen : generic_bitmap) (B : gset Z) (x : Z) : Prop := gen_bit gen x ∈ B.

#[export] Instance used_dec gen B x : Decision (used gen B x).
Proof. unfold used. apply _. Defined.

Definition nused (gen : generic_bitmap) (B : gset Z) (s e : Z) : Z :=
  Z.of_nat (length (filter (used gen B) (seqZ s (e + 1 - s)))).

Lemma nused_nil gen B s e : e < s → nused gen B s e = 0.
Proof. intros. unfold nused. rewrite seqZ_nil //. lia. Qed.

Lemma nused_split gen B s m e :
  s ≤ m ≤ e + 1 → nused gen B s e = nused gen B s (m - 1) + nused gen B m e.
Proof.
  intros Hm. unfold nused. replace (e + 1 - s) with ((m - 1 + 1 - s) + (e + 1 - m)) by lia.
  rewrite seqZ_app; [|lia..]. rewrite filter_app length_app.
  replace (s + (m - 1 + 1 - s)) with m by lia. lia.
Qed.

(** A filter that keeps nothing, or everything. *)
Lemma filter_none {A} (P : A → Prop) `{!∀ x, Decision (P x)} l : Forall (λ x, ¬ P x) l → filter P l = [].
Proof. induction 1 as [|x l Hx _ IH]; [done|]. by rewrite filter_cons_False. Qed.

Lemma filter_all {A} (P : A → Prop) `{!∀ x, Decision (P x)} l : Forall P l → filter P l = l.
Proof. induction 1 as [|x l Hx _ IH]; [done|]. by rewrite filter_cons_True // IH. Qed.

Lemma nused_none gen B s e : (∀ x, s ≤ x ≤ e → ¬ used gen B x) → nused gen B s e = 0.
Proof.
  intros Hn. unfold nused. rewrite filter_none //.
  apply Forall_forall. intros x Hx%elem_of_seqZ. apply Hn. lia.
Qed.

Lemma nused_all gen B s e : s ≤ e + 1 → (∀ x, s ≤ x ≤ e → used gen B x) → nused gen B s e = e + 1 - s.
Proof.
  intros Hse Ha. unfold nused. rewrite filter_all.
  - rewrite length_seqZ. lia.
  - apply Forall_forall. intros x Hx%elem_of_seqZ. apply Ha. lia.
Qed.

Lemma nused_bound gen B s e : s ≤ e + 1 → 0 ≤ nused gen B s e ≤ e + 1 - s.
Proof.
  intros Hse. unfold nused. split; [lia|].
  assert (length (filter (used gen B) (seqZ s (e + 1 - s))) ≤ length (seqZ s (e + 1 - s)))%nat
    as Hl by apply length_filter.
  rewrite length_seqZ in Hl. lia.
Qed.

(** The result of the count: all the used blocks, but for the last block when
    the loop stops just before it. *)
Definition counted (gen : generic_bitmap) (B : gset Z) (s e n : Z) : Prop :=
  n = nused gen B s e ∨ (n = nused gen B s (e - 1) ∧ (s = e ∨ ¬ used gen B (e - 1))).

(** What the loop has counted when it stands at [s'], or has left. *)
Lemma counted_step gen B s x z e n :
  s ≤ x ≤ z → z ≤ e → (∀ y, s ≤ y < x → ¬ used gen B y) → (∀ y, x ≤ y < z → used gen B y) →
  ¬ used gen B z → counted gen B (z + 1) e n → counted gen B s e (z - x + n).
Proof.
  intros Hs He Hbefore Hrun Hz Hn.
  assert (Hpre : nused gen B s z = z - x).
  { rewrite (nused_split gen B s x z); [|lia]. rewrite (nused_none gen B s (x - 1)); [|intros; apply Hbefore; lia].
    rewrite (nused_split gen B x z z); [|lia]. rewrite nused_all; [|lia|intros; apply Hrun; lia].
    rewrite nused_none; [lia|]. intros y Hy. by replace y with z by lia. }
  assert (Hsplit : ∀ m, z ≤ m → nused gen B s m = z - x + nused gen B (z + 1) m).
  { intros m Hm. rewrite (nused_split gen B s (z + 1) m); [|lia].
    replace (z + 1 - 1) with z by lia. by rewrite Hpre. }
  destruct Hn as [->|[-> Hlast]]; [left; rewrite Hsplit; lia|].
  destruct (decide (z = e)) as [->|Hne].
  - left. rewrite Hsplit; [|lia]. rewrite !nused_nil; lia.
  - right. split; [rewrite Hsplit; lia|]. right. destruct Hlast as [<-|]; [|done].
    by replace (z + 1 - 1) with z by lia.
Qed.

Section clusters.
Context {ML : Malloc}.

Lemma is_first_ok P s e (r : errcode * Z) :
  is_first P s e r → r.1 = E_OK → s ≤ r.2 ≤ e ∧ P r.2 ∧ ∀ y, s ≤ y < r.2 → ¬ P y.
Proof. intros [(_ & ? & ? & ?)|[-> _]]; done. Qed.

Lemma is_first_ko P s e (r : errcode * Z) :
  is_first P s e r → r.1 ≠ E_OK → r.1 = ENOENT ∧ ∀ y, s ≤ y ≤ e → ¬ P y.
Proof. intros [(? & _)|?]; done. Qed.

Lemma gen_in_between gen s e x :
  0 ≤ gen_cluster_bits gen → gen_in gen s → gen_in gen e → s ≤ x ≤ e → gen_in gen x.
Proof.
  unfold gen_in. intros Hc Hs He Hx.
  pose proof (gen_bit_mono gen s x Hc). pose proof (gen_bit_mono gen x e Hc). lia.
Qed.

Lemma generic_cluster_bits gen B : generic_at gen B -∗ ⌜0 ≤ gen_cluster_bits gen⌝.
Proof.
  iIntros "Hg". destruct gen as [|bm|bm]; [done..|].
  iDestruct "Hg" as "(%I & (_ & %Hc) & _)". iPureIntro. simpl. lia.
Qed.

Lemma count_loop_spec gen B e s tot Φ :
  0 ≤ s ≤ e + 1 → 0 ≤ tot → e + 1 < 2^64 → tot + (e + 1 - s) < 2^64 →
  (s ≤ e → gen_in gen s) → gen_in gen e →
  generic_at gen B -∗
  (∀ n, ⌜counted gen B s e n⌝ -∗ generic_at gen B -∗ Φ (E_OK, tot + n)) -∗
  wp (loop (count_step gen e) (s, tot)) Φ.
Proof.
  iIntros (Hs Ht He Hte Hins Hine) "Hg HΦ". iDestruct (generic_cluster_bits with "Hg") as %Hc.
  remember (Z.to_nat (e + 1 - s)) as m eqn:Hm.
  iInduction (lt_wf m) as [m _ IH] forall (s tot Hs Ht Hte Hins Hm).
  iApply wp_loop. unfold count_step at 2. cbn [fst snd]. decide_case (s < e) as Hse; last first.
  { wp_steps. iSpecialize ("HΦ" $! 0). rewrite Z.add_0_r. iApply ("HΦ" with "[%] Hg").
    destruct (decide (s = e)) as [->|]; [right; split; [by rewrite nused_nil; [|lia]|by left]|].
    left. by rewrite nused_nil; [|lia]. }
  specialize (Hins ltac:(lia)).
  wp_apply (find_first_bmap_spec true with "Hg"); [lia|lia|]. iIntros (r Hr) "Hg".
  rewrite decide_True in Hr; [|split_and!; [lia|done..]]. apply found_block_first in Hr; [|by left].
  decide_case (r.1 ≠ E_OK) as Hro.
  { destruct (is_first_ko _ _ _ _ Hr Hro) as [-> Hnone]. wp_steps.
    iSpecialize ("HΦ" $! 0). rewrite Z.add_0_r. iApply ("HΦ" with "[%] Hg").
    left. by rewrite nused_none. }
  destruct (is_first_ok _ _ _ _ Hr) as (Hx & Hxu & Hxf); [by destruct (decide (r.1 = E_OK))|].
  set (x := r.2) in *. clearbody x.
  wp_apply (find_first_bmap_spec false with "Hg"); [lia|lia|]. iIntros (z Hz) "Hg".
  rewrite decide_True in Hz.
  2: { split_and!; [lia| |done]. eapply (gen_in_between _ s e); done || lia. }
  apply found_block_first in Hz; [|right; right; intros ->; set_solver].
  decide_case (z.1 = E_OK) as Hzo.
  - destruct (is_first_ok _ _ _ _ Hz Hzo) as (Hzr & Hzu & Hzf).
    set (y := z.2) in *. clearbody y.
    assert (x < y) as Hxy.
    { destruct (decide (x = y)) as [<-|]; [exfalso; by apply Hzu|lia]. }
    wp_steps. rewrite !u64_small; [|lia..].
    wrap. iApply ("IH" $! (Z.to_nat (e + 1 - (y + 1))) with "[%] [%] [%] [%] [%] [%] Hg"); [lia..| |lia|].
    { intros. eapply (gen_in_between _ s e); done || lia. }
    iIntros (n Hn) "Hg". rewrite -Z.add_assoc. iApply ("HΦ" with "[%] Hg").
    apply counted_step; try done; try lia.
    intros w Hw. unfold used. specialize (Hzf w Hw). unfold wanted in Hzf.
    destruct (decide (gen_bit gen w ∈ B)); [done|by exfalso; apply Hzf].
  - destruct (is_first_ko _ _ _ _ Hz Hzo) as [-> Hall]. wp_steps.
    rewrite !u64_small; [|lia..]. rewrite (bool_decide_eq_true_2 (ENOENT = ENOENT)) //. wp_steps.
    iApply ("HΦ" $! (e - x + 1) with "[%] Hg"). left.
    rewrite (nused_split gen B s x e); [|lia]. rewrite nused_none; [|intros; apply Hxf; lia].
    rewrite nused_all; [lia|lia|]. intros w Hw. unfold used. specialize (Hall w Hw). unfold wanted in Hall.
    destruct (decide (gen_bit gen w ∈ B)); [done|by exfalso; apply Hall].
Qed.

(** C26: The count of used clusters, from the first to the last block of a range:
    the number of used blocks divided by the cluster size, where the last
    block is missed when a clear block comes just before it. *)
Theorem count_used_clusters_correct fs gen B s e :
  0 ≤ s ≤ e → e + 1 < 2^64 → gen_in gen s → gen_in gen e →
  hoare (generic_at gen B) (ext2fs_count_used_clusters fs gen s e)
    (λ r, ⌜∃ n, r = (E_OK, EXT2FS_NUM_B2C fs n) ∧ counted gen B s e n ∧
             ((used gen B e → s < e ∧ used gen B (e - 1)) → n = nused gen B s e)⌝ ∗
          generic_at gen B)%I.
Proof.
  intros Hs He Hins Hine. apply wp_adequate. iIntros "Hg".
  unfold ext2fs_count_used_clusters.
  wp_apply (count_loop_spec with "Hg"); [lia|lia|lia|lia|done|done|]. iIntros (n Hn) "Hg". wp_steps.
  iFrame "Hg". iPureIntro. exists n. split_and!; [done|done|].
  intros Hlast. destruct Hn as [->|[-> Hn]]; [done|].
  rewrite (nused_split gen B s e e); [|lia]. rewrite (nused_none gen B e e); [lia|].
  intros x Hx Hu. replace x with e in Hu by lia. destruct (Hlast Hu) as [? ?]. destruct Hn; [lia|done].
Qed.
End clusters.

(** ** From blocks to clusters *)
Section convert.
Context {ML : Malloc}.

(** The end in use can be moved to the real end, and back. *)
Lemma end_at_real_end_spec bm B :
  bitmap64_at bm B -∗
  bitmap64_at (end_at_real_end bm) B ∗
  (∀ B', bitmap64_at (end_at_real_end bm) B' -∗ bitmap64_at bm B').
Proof.
  iIntros "(%I & (%H64 & %Hc) & Hst & Hbm)". iDestruct (bm_at_facts with "Hbm") as %[(? & ? & ? & ?) _].
  iSplitL "Hst Hbm".
  - iExists I. iFrame. iSplit; [done|]. iApply (bm_fudge with "Hbm"). lia.
  - iIntros (B') "(%I' & _ & Hst & Hbm)". iExists I'. iFrame. iSplit; [done|].
    iDestruct (bm_fudge _ _ (b_end (m64_bmap bm)) with "Hbm") as "Hbm"; [simpl; lia|].
    destruct bm as [? ? ? [] ? ?]. iExact "Hbm".
Qed.

(** The clusters of [fs] that a bitmap can hold and that have a used block
    before [i]. *)
Definition clusters_upto (fs : ext2_filsys) (cmap : bitmap64) (B : gset Z) (i : Z) : gset Z :=
  filter (λ c, b_start (m64_bmap cmap) ≤ c ≤ b_real_end (m64_bmap cmap))
    (set_map (EXT2FS_B2C fs) (filter (λ b, b < i) B)).

Lemma elem_of_clusters_upto fs cmap B i c :
  c ∈ clusters_upto fs cmap B i ↔
  b_start (m64_bmap cmap) ≤ c ≤ b_real_end (m64_bmap cmap) ∧
  ∃ b, b ∈ B ∧ b < i ∧ EXT2FS_B2C fs b = c.
Proof.
  unfold clusters_upto. rewrite elem_of_filter elem_of_map. split.
  - intros (? & b & -> & Hb%elem_of_filter). naive_solver.
  - intros (? & b & ? & ? & <-). split; [done|]. exists b. by rewrite elem_of_filter.
Qed.

(** After the blocks of cluster [c] have been passed. *)
Lemma clusters_upto_step fs cmap B i r :
  (∀ y, i ≤ y < r → y ∉ B) → i ≤ r → r ∈ B → 0 ≤ fs_cluster_ratio_bits fs →
  clusters_upto fs cmap B (Z.shiftl (EXT2FS_B2C fs r + 1) (fs_cluster_ratio_bits fs)) =
  if decide (b_start (m64_bmap cmap) ≤ EXT2FS_B2C fs r ≤ b_real_end (m64_bmap cmap))
  then {[EXT2FS_B2C fs r]} ∪ clusters_upto fs cmap B i else clusters_upto fs cmap B i.
Proof.
  intros Hnone Hir Hr Hc. unfold EXT2FS_B2C. set (p := 2 ^ fs_cluster_ratio_bits fs).
  assert (0 < p) by (apply Z.pow_pos_nonneg; lia).
  rewrite Z.shiftl_mul_pow2 // Z.shiftr_div_pow2 //. fold p.
  assert (Hin : ∀ c, c ∈ clusters_upto fs cmap B ((r / p + 1) * p) ↔
    c ∈ clusters_upto fs cmap B i ∨
    (c = r / p ∧ b_start (m64_bmap cmap) ≤ c ≤ b_real_end (m64_bmap cmap))).
  { intros c. rewrite !elem_of_clusters_upto. unfold EXT2FS_B2C.
    setoid_rewrite Z.shiftr_div_pow2; [|done..]. fold p.
    pose proof (Z.div_mod r p). pose proof (Z.mod_pos_bound r p). split.
    - intros (Hcr & b & Hb & Hlt & <-). destruct (decide (b < i)) as [?|?].
      + left. split; [done|]. by exists b.
      + right. split; [|done]. assert (r ≤ b) by (destruct (decide (b < r)); [by exfalso; apply (Hnone b); [lia|]|lia]).
        apply Z.le_antisymm; [|by apply Z.div_le_mono].
        apply Z.lt_succ_r, Z.div_lt_upper_bound; lia.
    - intros [(Hcr & b & Hb & Hlt & <-)|[-> Hcr]].
      + split; [done|]. exists b. split_and!; [done| |done]. nia.
      + split; [done|]. exists r. split_and!; [done| |done]. nia. }
  apply set_eq. intros c. rewrite Hin. case_decide; [rewrite elem_of_union elem_of_singleton|]; naive_solver.
Qed.

Lemma convert_loop_spec fs bmap cmap B i Φ :
  let re := b_real_end (m64_bmap bmap) in
  m64_cluster_bits bmap = 0 → m64_cluster_bits cmap = fs_cluster_ratio_bits fs →
  b_end (m64_bmap bmap) = re → b_end (m64_bmap cmap) = b_real_end (m64_bmap cmap) →
  b_start (m64_bmap bmap) ≤ i → re + 2^31 < 2^64 → re mod 2 ^ fs_cluster_ratio_bits fs ≠ 0 →
  (re ≤ i → clusters_upto fs cmap B i = clusters_upto fs cmap B (re + 1)) →
  bitmap64_at bmap B -∗ bitmap64_at cmap (clusters_upto fs cmap B i) -∗
  (bitmap64_at bmap B -∗ bitmap64_at cmap (clusters_upto fs cmap B (re + 1)) -∗ Φ tt) -∗
  wp (loop (convert_step fs bmap cmap) i) Φ.
Proof.
  intros re. iIntros (Hbc Hcc Hbe Hce Hi Hre Hmod Hdone) "Hb Hc HΦ".
  iAssert ⌜bounds_ok (m64_bmap bmap) ∧ B ⊆ positions (m64_bmap bmap) ∧ 0 ≤ fs_cluster_ratio_bits fs < 31 ∧
    bounds_ok (m64_bmap cmap)⌝%I as %((Hb1 & Hb2 & Hb3 & Hb4) & HB & Hcb & Hcm).
  { iDestruct (bitmap64_acc with "Hb") as "(%I & (% & % & % & % & %) & _)".
    iDestruct (bitmap64_acc with "Hc") as "(%I' & (% & % & % & % & %) & _)".
    iPureIntro. rewrite -Hcc. done. }
  fold re in Hb3, Hb4. remember (Z.to_nat (re - i)) as m eqn:Hm.
  iInduction (lt_wf m) as [m _ IH] forall (i Hi Hdone Hm).
  iApply wp_loop. unfold convert_step at 2. fold re. decide_case (i < re) as Hir; last first.
  { wp_steps. rewrite Hdone; [|lia]. iApply ("HΦ" with "Hb Hc"). }
  assert (Hin : ∀ x, i ≤ x ≤ re → gen_in (IsBitmap64 bmap) x).
  { intros x Hx. unfold gen_in, gen_bit. simpl. rewrite Hbc Z.shiftr_0_r Hbe. lia. }
  wp_apply (find_first_bmap_spec true (IsBitmap64 bmap) with "Hb"); [lia|lia|]. iIntros (r Hr) "Hb".
  rewrite decide_True in Hr; [|split_and!; [lia|apply Hin; lia..]]. apply found_block_first in Hr; [|by left].
  assert (Hbit : ∀ x, gen_bit (IsBitmap64 bmap) x = x) by (intros; by rewrite /gen_bit /= Hbc Z.shiftr_0_r).
  assert (Hall : ∀ j, re + 1 ≤ j → clusters_upto fs cmap B j = clusters_upto fs cmap B (re + 1)).
  { intros j Hj. apply set_eq. intros c. rewrite !elem_of_clusters_upto.
    assert (∀ b, b ∈ B → b < re + 1) as Hlt.
    { intros b Hb%HB. unfold positions in Hb. rewrite elem_of_zrange in Hb. fold re in Hb. lia. }
    split; intros (? & b & Hb & ? & ?); (split; [done|]); exists b; split_and!; try done.
    - by apply Hlt.
    - specialize (Hlt b Hb). lia. }
  decide_case (r.1 ≠ E_OK) as Hro.
  { destruct (is_first_ko _ _ _ _ Hr Hro) as [_ Hnone]. wp_steps.
    assert (clusters_upto fs cmap B i = clusters_upto fs cmap B (re + 1)) as ->.
    { apply set_eq. intros c. rewrite !elem_of_clusters_upto.
      split; intros (? & b & Hb & ? & ?); (split; [done|]); exists b; split_and!; try done; [simpl; intros; lia|].
      destruct (decide (i ≤ b)); [|lia]. destruct (Hnone b); [lia|]. simpl. by rewrite Hbit. }
    iApply ("HΦ" with "Hb Hc"). }
  destruct (is_first_ok _ _ _ _ Hr) as (Hx & Hxu & Hxf); [by destruct (decide (r.1 = E_OK))|].
  set (x := r.2) in *. clearbody x. simpl in Hxu. rewrite Hbit in Hxu.
  wp_apply (mark_generic_bmap_spec (IsBitmap64 cmap) with "Hc"); [lia|]. iIntros (v _) "Hc". wp_steps.
  set (p := 2 ^ fs_cluster_ratio_bits fs) in *.
  assert (0 < p ≤ 2^30) as Hp.
  { split; [apply Z.pow_pos_nonneg; lia|apply Z.pow_le_mono_r; lia]. }
  assert (Hdiv : 0 ≤ x / p ≤ x ∧ x < (x / p + 1) * p ≤ x + p).
  { pose proof (Z.div_mod x p). pose proof (Z.mod_pos_bound x p). pose proof (Z.div_pos x p). nia. }
  assert (Hnext : EXT2FS_C2B fs (u64 (EXT2FS_B2C fs x + 1)) = (x / p + 1) * p).
  { unfold EXT2FS_C2B, EXT2FS_B2C. rewrite Z.shiftr_div_pow2; [|lia]. fold p.
    rewrite (u64_small (_ + 1)); [|lia]. rewrite Z.shiftl_mul_pow2; [|lia]. fold p. rewrite u64_small; lia. }
  assert (Hstep : marked (IsBitmap64 cmap) x (clusters_upto fs cmap B i) =
    clusters_upto fs cmap B ((x / p + 1) * p)).
  { pose proof (clusters_upto_step fs cmap B i x) as Hs. unfold EXT2FS_B2C in Hs.
    rewrite Z.shiftl_mul_pow2 ?Z.shiftr_div_pow2 in Hs; [|lia..]. fold p in Hs. rewrite Hs; [| |lia|done|lia].
    - assert (gen_in (IsBitmap64 cmap) x ↔ b_start (m64_bmap cmap) ≤ x / p ≤ b_real_end (m64_bmap cmap)) as Hiff.
      { unfold gen_in, gen_bit. simpl. rewrite Hcc Hce Z.shiftr_div_pow2 //. lia. }
      case_decide as Hd; rewrite -Hiff in Hd.
      + rewrite marked_in // /gen_bit /= Hcc Z.shiftr_div_pow2 //. lia.
      + by rewrite marked_out.
    - intros y Hy Hyb. apply (Hxf y); [lia|]. simpl. by rewrite Hbit. }
  rewrite Hnext Hstep.
  iApply ("IH" $! (Z.to_nat (re - (x / p + 1) * p)) with "[%] [%] [%] [%] Hb Hc HΦ"); [lia|lia| |lia].
  intros Hge. apply Hall. destruct (decide (re = (x / p + 1) * p)) as [Heq|]; [|lia].
  exfalso. apply Hmod. rewrite Heq. apply Z.mod_mul. lia.
Qed.

(** C27: Converting a bitmap of blocks frees it and gives a bitmap of clusters with
    the geometry of the file system, in which the used clusters are those with
    a used block; when memory runs out the bitmap of blocks is kept.  The last
    place of the bitmap of blocks must not be the first block of a cluster: the
    loop stops before it. *)
Theorem convert_subcluster_correct fs bmap B :
  client_fs fs → uses_64bit_bitmaps fs = true → fs_cluster_ratio_bits fs ≠ 0 →
  m64_cluster_bits bmap = 0 →
  b_start (m64_bmap bmap) < b_real_end (m64_bmap bmap) →
  b_real_end (m64_bmap bmap) + 2^31 < 2^64 →
  b_real_end (m64_bmap bmap) mod 2 ^ fs_cluster_ratio_bits fs ≠ 0 →
  hoare (generic_at (IsBitmap64 bmap) B)
    (ext2fs_convert_subcluster_bitmap fs (IsBitmap64 bmap))
    (λ r, (∃ C, ⌜r.1 = E_OK ∧ gen_ok (fs_geometry fs) r.2 ∧
                 ∀ c, c ∈ C ↔ g_start (fs_geometry fs) ≤ c ≤ g_real_end (fs_geometry fs) ∧
                              ∃ b, b ∈ B ∧ EXT2FS_B2C fs b = c⌝ ∗ generic_at r.2 C) ∨
          (⌜r = (EXT2_ET_NO_MEMORY, IsBitmap64 bmap) ∧ malloc_can_fail⌝ ∗
           generic_at (IsBitmap64 bmap) B))%I.
Proof.
  intros Hfs H64 Hcb Hg Hse Hre Hmod. apply wp_adequate. iIntros "Hb".
  unfold ext2fs_convert_subcluster_bitmap.
  iDestruct (bitmap64_acc with "Hb") as "(%I & (%Hm64 & %Hm32 & %Hc & %Hok & %Hsub) & Hb & Hcl)".
  iDestruct ("Hcl" with "Hb") as "Hb".
  unfold ext2fs_get_bitmap_granularity. cbn [magic_of as_bitmap64]. wp_steps. rewrite Hm64. cbn [negb]. wp_steps.
  rewrite Hg bool_decide_eq_false_2 //.
  wp_apply allocate_block_bitmap_spec; [done|]. iSplit; last first.
  { iIntros (Hf). simpl. wp_steps. iRight. by iFrame. }
  iIntros (gen [Hgen _]) "Hc". pose proof Hgen as (Hv & Hbits & _).
  assert (g_bits (fs_geometry fs) = fs_cluster_ratio_bits fs) as Hgb by (unfold fs_geometry; by rewrite H64).
  rewrite Hgb in Hbits. destruct gen as [|cmap|cmap]; [done|by exfalso; apply Hcb|]. simpl in Hv, Hbits.
  cbn [fst snd as_bitmap64]. rewrite (bool_decide_eq_false_2 (E_OK ≠ E_OK)); [|by intros []]. wp_steps.
  iDestruct (end_at_real_end_spec with "Hb") as "[Hb Hbcl]".
  iDestruct (end_at_real_end_spec with "Hc") as "[Hc Hccl]".
  assert (clusters_upto fs (end_at_real_end cmap) B (b_start (m64_bmap bmap)) = ∅) as Hempty.
  { apply set_eq. intros c. rewrite elem_of_clusters_upto. split; [|set_solver].
    intros (_ & b & Hb%Hsub & ? & _). unfold positions in Hb. rewrite elem_of_zrange in Hb. lia. }
  iEval (rewrite -Hempty) in "Hc".
  wp_apply (convert_loop_spec with "Hb Hc"); try done; [simpl; intros; lia|].
  iIntros "Hb Hc". iDestruct ("Hbcl" with "Hb") as "Hb". iDestruct ("Hccl" with "Hc") as "Hc".
  iApply wp_bind. iApply (free_generic_bmap_spec (IsBitmap64 bmap) with "Hb"). wp_steps.
  iLeft. iExists _. iFrame "Hc". iPureIntro. split_and!; [done|done|].
  intros c. rewrite elem_of_clusters_upto. simpl. rewrite Hv. simpl. f_equiv. f_equiv. intros b.
  split; [tauto|]. intros [Hb <-]. split_and!; [done| |done].
  apply Hsub in Hb. unfold positions in Hb. rewrite elem_of_zrange in Hb. lia.
Qed.
End convert.

(** ** Examples *)

(** A file system of 100 blocks without clusters; [trace_fs] has two blocks
    per cluster. *)
Definition blocks_fs : ext2_filsys :=
  Filsys EXT2_ET_MAGIC_EXT2FS_FILSYS trace_super EXT2_FLAG_64BITS 1024 4 1 2 0 EXT2FS_BMAP64_RBTREE 0
    (Some (replicate 128 0)) (λ _, None).

Fixpoint mark_all {ML : Malloc} (gen : generic_bitmap) (l : list Z) : M unit :=
  match l with
  | [] => mret tt
  | x :: l => ext2fs_mark_block_bitmap2 gen x ;; mark_all gen l
  end.

(** Count between [s] and [e] in a bitmap with the given blocks used. *)
Definition count_client {ML : Malloc} (fs : ext2_filsys) (l : list Z) (s e : Z) : M (errcode * Z) :=
  r ← ext2fs_allocate_subcluster_bitmap fs None;
  mark_all r.2 l ;;
  ext2fs_count_used_clusters fs r.2 s e.

(** Convert such a bitmap and run the operations on the result. *)
Definition convert_client {ML : Malloc} (fs : ext2_filsys) (l : list Z) (ops : list bop) :
    M (list obs) :=
  r ← ext2fs_allocate_subcluster_bitmap fs None;
  mark_all r.2 l ;;
  r ← ext2fs_convert_subcluster_bitmap fs r.2;
  rs ← exec_all r.2 ops;
  mret rs.2.

Lemma count_used_clusters_witness :
  hoare (ML := bump_malloc) (generic_at legacy_map {[ 3; 4; 9 ]})
    (ext2fs_count_used_clusters blocks_fs legacy_map 2 20)
    (λ r, ⌜∃ n, r = (E_OK, EXT2FS_NUM_B2C blocks_fs n) ∧ counted legacy_map {[ 3; 4; 9 ]} 2 20 n ∧
             ((used legacy_map {[ 3; 4; 9 ]} 20 → 2 < 20 ∧ used legacy_map {[ 3; 4; 9 ]} (20 - 1)) →
              n = nused legacy_map {[ 3; 4; 9 ]} 2 20)⌝ ∗
          generic_at legacy_map {[ 3; 4; 9 ]})%I ∧
  run 1000 (count_client blocks_fs [3; 4; 9] 2 20) = Some (E_OK, 3).
Proof.
  split; [|vm_compute; reflexivity].
  apply (count_used_clusters_correct (ML := bump_malloc) blocks_fs legacy_map {[ 3; 4; 9 ]} 2 20);
    [lia|lia|by split..].
Defined.

Lemma convert_subcluster_witness :
  hoare (ML := bump_malloc) (generic_at (IsBitmap64 block_map) {[ 5; 9 ]})
    (ext2fs_convert_subcluster_bitmap (ML := bump_malloc) (trace_fs EXT2FS_BMAP64_RBTREE)
       (IsBitmap64 block_map))
    (λ r, (∃ C, ⌜r.1 = E_OK ∧ gen_ok (fs_geometry (trace_fs EXT2FS_BMAP64_RBTREE)) r.2 ∧
                 ∀ c, c ∈ C ↔ 0 ≤ c ≤ 63 ∧ ∃ b, b ∈ ({[ 5; 9 ]} : gset Z) ∧
                   EXT2FS_B2C (trace_fs EXT2FS_BMAP64_RBTREE) b = c⌝ ∗
             generic_at r.2 C) ∨
          (⌜r = (EXT2_ET_NO_MEMORY, IsBitmap64 block_map) ∧ malloc_can_fail (ML := bump_malloc)⌝ ∗
           generic_at (IsBitmap64 block_map) {[ 5; 9 ]}))%I ∧
  run 1000 (convert_client (trace_fs EXT2FS_BMAP64_RBTREE) [5; 9] [Test 4; Test 6; Test 8]) =
    Some [Bit true; Bit false; Bit true].
Proof.
  split; [|vm_compute; reflexivity].
  apply (convert_subcluster_correct (ML := bump_malloc) (trace_fs EXT2FS_BMAP64_RBTREE) block_map {[ 5; 9 ]});
    try done.
  apply trace_fs_client. right. by left.
Defined.

(** Of two used blocks the count sees one: the loop stops at the last block
    when the block before it is clear. *)
Example count_misses_last_block :
  run 1000 (count_client blocks_fs [3; 5] 3 5) = Some (E_OK, 1).
Proof. vm_compute. reflexivity. Qed.
