(* ===== verification/Alloc.v ===== *)
(** * Alloc: allocating inodes and blocks (alloc.c, alloc_stats.c)

    Searching the bitmaps for free inodes and blocks, and the bookkeeping when
    one is taken or given back: the bitmap, the counters and flags of the group
    descriptor, its checksum, and the counters of the super block.

    [alloc_fs] is the part of [struct struct_ext2_filsys] with the bitmaps; a
    function that changes it returns it.  The call-backs that a program can
    install are [alloc_handlers], an argument: functions that the C code calls
    through a pointer, which it clears for the time of the call, so that the
    handler cannot reach itself; here a handler is a function that does not
    know the handlers.  The messages printed for illegal numbers are left out.

    What reads or writes the device is an argument: [ext2fs_read_block_bitmap],
    [io_channel_write_blk64] and [ext2fs_zero_blocks2]. *)
From S2P Require Import Prelude.
From S2P Require Import Bytes.
From S2P Require Import Super.
From S2P Require Import Blknum.
From S2P Require Import Csum.
From S2P Require Import Mem.
From S2P Require Import SepLogic.
From S2P Require Import ExtMem.
From S2P Require Import Bitmap.
From S2P Require Import GenBitmap.
From S2P Require Import Bitmaps.
#[local] Open Scope Z_scope.

(** ** The state *)
Record alloc_fs := AllocFs {
  a_fs : ext2_filsys;
  inode_map : generic_bitmap;
  block_map : generic_bitmap;
}.

Definition set_fs (fs : ext2_filsys) (a : alloc_fs) : alloc_fs :=
  AllocFs fs (inode_map a) (block_map a).

(** [struct blk_alloc_ctx] *)
Record blk_alloc_ctx := BlkAllocCtx {
  bctx_ino : Z;
  bctx_inode : list Z;
  bctx_lblk : Z;
  bctx_flags : Z;
}.

Record alloc_handlers := Handlers {
  get_alloc_block : option (alloc_fs → Z → M (errcode * Z * alloc_fs));
  get_alloc_block2 : option (alloc_fs → Z → option blk_alloc_ctx → M (errcode * Z * alloc_fs));
  new_range : option (alloc_fs → Z → Z → Z → M (errcode * (Z * Z) * alloc_fs));
  block_alloc_stats : option (alloc_fs → Z → Z → M alloc_fs);
  block_alloc_stats_range : option (alloc_fs → Z → Z → Z → M alloc_fs);
}.

Definition no_handlers : alloc_handlers := Handlers None None None None None.

(** A NULL descriptor, or one outside of the descriptors, is not accessed. *)
Definition lift {A} (x : option A) : M A :=
  match x with Some a => mret a | None => m_fault end.

(** ** Constants and small functions *)
Definition EXT2_BG_INODE_UNINIT : Z := 1.
Definition EXT2_BG_BLOCK_UNINIT : Z := 2.
Definition EXT2_FLAG_IB_DIRTY : Z := 16.
Definition EXT2_FLAG_BB_DIRTY : Z := 32.

Definition set_flags (flags : Z) (fs : ext2_filsys) : ext2_filsys :=
  Filsys (fs_magic fs) (fs_super fs) flags (fs_blocksize fs) (fs_group_desc_count fs)
    (fs_desc_blocks fs) (fs_inode_blocks_per_group fs) (fs_cluster_ratio_bits fs)
    (fs_default_bitmap_type fs) (fs_csum_seed fs) (fs_group_desc fs) (fs_io_read fs).

Definition ext2fs_mark_ib_dirty (fs : ext2_filsys) : ext2_filsys :=
  set_flags (Z.lor (fs_flags fs) (Z.lor EXT2_FLAG_IB_DIRTY EXT2_FLAG_CHANGED)) fs.
Definition ext2fs_mark_bb_dirty (fs : ext2_filsys) : ext2_filsys :=
  set_flags (Z.lor (fs_flags fs) (Z.lor EXT2_FLAG_BB_DIRTY EXT2_FLAG_CHANGED)) fs.

Definition ext2fs_group_of_ino (fs : ext2_filsys) (ino : Z) : Z :=
  u32 (ino - 1) / s_inodes_per_group (fs_super fs).

Definition EXT2_FIRST_INO (sb : list Z) : Z :=
  if bool_decide (s_rev_level sb = EXT2_GOOD_OLD_REV) then EXT2_GOOD_OLD_FIRST_INO
  else s_first_ino sb.

Definition s_free_inodes_count_set (sb : list Z) (n : Z) : list Z := set32 16 n sb.

(** ** alloc_stats.c *)

(** What [ext2fs_inode_alloc_stats2] does after the bitmap. *)
Definition inode_stats (fs : ext2_filsys) (group ino inuse isdir : Z) : option ext2_filsys :=
  let ipg := s_inodes_per_group (fs_super fs) in
  n ← ext2fs_bg_free_inodes_count fs group;
  fs ← ext2fs_bg_free_inodes_count_set fs group (u32 (n - inuse));
  fs ← (if bool_decide (isdir ≠ 0) then
          d ← ext2fs_bg_used_dirs_count fs group;
          ext2fs_bg_used_dirs_count_set fs group (u32 (d + inuse))
        else Some fs);
  fs ← ext2fs_bg_flags_clear fs group EXT2_BG_INODE_UNINIT;
  fs ← (if ext2fs_has_group_desc_csum fs then
          unused ← ext2fs_bg_itable_unused fs group;
          let first_unused_inode := u32 (ipg - unused + group * ipg + 1) in
          fs ← (if bool_decide (first_unused_inode ≤ ino) then
                  ext2fs_bg_itable_unused_set fs group (u32 (group * ipg + ipg - ino))
                else Some fs);
          ext2fs_group_desc_csum_set fs group
        else Some fs);
  let sb := fs_super fs in
  let fs := set_super (s_free_inodes_count_set sb (u32 (s_free_inodes_count sb - inuse))) fs in
  Some (ext2fs_mark_ib_dirty (ext2fs_mark_super_dirty fs)).

Definition ext2fs_inode_alloc_stats2 (a : alloc_fs) (ino inuse isdir : Z) : M alloc_fs :=
  let group := ext2fs_group_of_ino (a_fs a) ino in
  if bool_decide (s_inodes_count (fs_super (a_fs a)) < ino) then mret a else
  (if bool_decide (0 < inuse) then ext2fs_mark_inode_bitmap2 (inode_map a) ino
   else ext2fs_unmark_inode_bitmap2 (inode_map a) ino) ;;
  fs ← lift (inode_stats (a_fs a) group ino inuse isdir);
  mret (set_fs fs a).

Definition ext2fs_inode_alloc_stats (a : alloc_fs) (ino inuse : Z) : M alloc_fs :=
  ext2fs_inode_alloc_stats2 a ino inuse 0.

Definition block_stats (fs : ext2_filsys) (group inuse : Z) : option ext2_filsys :=
  n ← ext2fs_bg_free_blocks_count fs group;
  fs ← ext2fs_bg_free_blocks_count_set fs group (u32 (n - inuse));
  fs ← ext2fs_bg_flags_clear fs group EXT2_BG_BLOCK_UNINIT;
  fs ← ext2fs_group_desc_csum_set fs group;
  let fs := set_super (ext2fs_free_blocks_count_add (fs_super fs)
                         (u64 (- inuse * EXT2FS_CLUSTER_RATIO fs))) fs in
  Some (ext2fs_mark_bb_dirty (ext2fs_mark_super_dirty fs)).

Definition ext2fs_block_alloc_stats2 (H : alloc_handlers) (a : alloc_fs) (blk inuse : Z) : M alloc_fs :=
  let group := ext2fs_group_of_blk2 (a_fs a) blk in
  if bool_decide (ext2fs_blocks_count (fs_super (a_fs a)) ≤ blk) then mret a else
  (if bool_decide (0 < inuse) then ext2fs_mark_block_bitmap2 (block_map a) blk
   else ext2fs_unmark_block_bitmap2 (block_map a) blk) ;;
  fs ← lift (block_stats (a_fs a) group inuse);
  match block_alloc_stats H with
  | Some f => f (set_fs fs a) blk inuse
  | None => mret (set_fs fs a)
  end.

Definition ext2fs_block_alloc_stats (H : alloc_handlers) (a : alloc_fs) (blk inuse : Z) : M alloc_fs :=
  ext2fs_block_alloc_stats2 H a (u32 blk) inuse.

(** One group of [while (num)]; [blk_t num] has 32 bits. *)
Definition range_stats_step (inuse : Z) (st : ext2_filsys * Z * Z) :
    option (ext2_filsys * Z * Z + ext2_filsys * Z * Z) :=
  let '(fs, blk, num) := st in
  if bool_decide (num = 0) then Some (inr (fs, blk, num)) else
  let group := ext2fs_group_of_blk2 fs blk in
  let last_blk := ext2fs_group_last_block2 fs group in
  let n := if bool_decide (last_blk < u64 (blk + num)) then u64 (last_blk - blk + 1) else num in
  c ← ext2fs_bg_free_blocks_count fs group;
  fs ← ext2fs_bg_free_blocks_count_set fs group
         (u32 (u64 (c - u64 (inuse * n) / u64 (EXT2FS_CLUSTER_RATIO fs))));
  fs ← ext2fs_bg_flags_clear fs group EXT2_BG_BLOCK_UNINIT;
  fs ← ext2fs_group_desc_csum_set fs group;
  let fs := set_super (ext2fs_free_blocks_count_add (fs_super fs) (u64 (- inuse * n))) fs in
  Some (inl (fs, u64 (blk + n), u32 (num - n))).

Definition ext2fs_block_alloc_stats_range (H : alloc_handlers) (a : alloc_fs) (blk num inuse : Z) :
    M alloc_fs :=
  if bool_decide (ext2fs_blocks_count (fs_super (a_fs a)) < u64 (blk + num)) then mret a else
  if bool_decide (inuse = 0) then mret a else
  (if bool_decide (0 < inuse) then ext2fs_mark_block_bitmap_range2 (block_map a) blk num
   else ext2fs_unmark_block_bitmap_range2 (block_map a) blk num) ;;
  let inuse := if bool_decide (0 < inuse) then 1 else -1 in
  '(fs, blk, num) ← loop (λ st, lift (range_stats_step inuse st)) (a_fs a, blk, num);
  let a := set_fs (ext2fs_mark_bb_dirty (ext2fs_mark_super_dirty fs)) a in
  match block_alloc_stats_range H with
  | Some f => f a blk num inuse
  | None => mret a
  end.

(** The call-backs are set on an open file system only; the old one is
    returned. *)
Definition set_callback {A} (fs : option alloc_fs) (f : option A) (old : option A)
    (set : option A → alloc_handlers → alloc_handlers) (H : alloc_handlers) :
    option (option A) * alloc_handlers :=
  match fs with
  | Some a => if bool_decide (fs_magic (a_fs a) ≠ EXT2_ET_MAGIC_EXT2FS_FILSYS) then (None, H)
              else (Some old, set f H)
  | None => (None, H)
  end.

Definition ext2fs_set_block_alloc_stats_callback (fs : option alloc_fs)
    (func : option (alloc_fs → Z → Z → M alloc_fs)) (H : alloc_handlers) :=
  set_callback fs func (block_alloc_stats H)
    (λ f H, Handlers (get_alloc_block H) (get_alloc_block2 H) (new_range H) f
              (block_alloc_stats_range H)) H.
Definition ext2fs_set_block_alloc_stats_range_callback (fs : option alloc_fs)
    (func : option (alloc_fs → Z → Z → Z → M alloc_fs)) (H : alloc_handlers) :=
  set_callback fs func (block_alloc_stats_range H)
    (λ f H, Handlers (get_alloc_block H) (get_alloc_block2 H) (new_range H) (block_alloc_stats H) f) H.
Definition ext2fs_set_alloc_block_callback (fs : option alloc_fs)
    (func : option (alloc_fs → Z → M (errcode * Z * alloc_fs))) (H : alloc_handlers) :=
  set_callback fs func (get_alloc_block H)
    (λ f H, Handlers f (get_alloc_block2 H) (new_range H) (block_alloc_stats H)
              (block_alloc_stats_range H)) H.
Definition ext2fs_set_new_range_callback (fs : option alloc_fs)
    (func : option (alloc_fs → Z → Z → Z → M (errcode * (Z * Z) * alloc_fs))) (H : alloc_handlers) :=
  set_callback fs func (new_range H)
    (λ f H, Handlers (get_alloc_block H) (get_alloc_block2 H) f (block_alloc_stats H)
              (block_alloc_stats_range H)) H.

(** ** alloc.c: inodes *)
Definition flag_set (flag : Z) (fs : ext2_filsys) (group : Z) : option bool :=
  if bool_decide (fs_group_desc_count fs ≤ group) then Some false else
  if negb (ext2fs_has_group_desc_csum fs) then Some false else
  v ← ext2fs_bg_flags_test fs group flag; Some (bool_decide (v ≠ 0)).

Definition ext2fs_clear_block_uninit (fs : ext2_filsys) (group : Z) : option ext2_filsys :=
  uninit ← flag_set EXT2_BG_BLOCK_UNINIT fs group;
  if negb uninit then Some fs else
  fs ← ext2fs_bg_flags_clear fs group EXT2_BG_BLOCK_UNINIT;
  fs ← ext2fs_group_desc_csum_set fs group;
  Some (ext2fs_mark_bb_dirty (ext2fs_mark_super_dirty fs)).

Definition check_inode_uninit (fs : ext2_filsys) (map : generic_bitmap) (group : Z) : M ext2_filsys :=
  uninit ← lift (flag_set EXT2_BG_INODE_UNINIT fs group);
  if negb uninit then mret fs else
  let ipg := s_inodes_per_group (fs_super fs) in
  for_range (Z.to_nat ipg) (u32 (group * ipg + 1))
    (λ ino, ext2fs_fast_unmark_inode_bitmap2 map (u32 ino)) ;;
  fs ← lift (fs ← ext2fs_bg_flags_clear fs group EXT2_BG_INODE_UNINIT;
             fs ← ext2fs_bg_flags_clear fs group EXT2_BG_BLOCK_UNINIT;
             ext2fs_group_desc_csum_set fs group);
  mret (ext2fs_mark_super_dirty (ext2fs_mark_ib_dirty fs)).

(** One round of [do ... while (i != start_inode)].  The result is the inode
    at which the loop ends, or the error the function returns. *)
Definition new_inode_step (map : generic_bitmap) (start_inode : Z) (st : ext2_filsys * Z) :
    M (ext2_filsys * Z + ext2_filsys * (errcode * Z)) :=
  let '(fs, i) := st in
  let sb := fs_super fs in
  let ipg := EXT2_INODES_PER_GROUP sb in
  let ino_in_group := u32 (i - 1) mod ipg in
  let group := u32 (i - 1) / ipg in
  fs ← check_inode_uninit fs map group;
  let upto := u32 (i + (ipg - ino_in_group)) in
  let upto := if bool_decide (i < start_inode ∧ start_inode ≤ upto) then u32 (start_inode - 1) else upto in
  let upto := if bool_decide (s_inodes_count sb < upto) then s_inodes_count sb else upto in
  r ← ext2fs_find_first_zero_inode_bitmap2 map i upto;
  if bool_decide (r.1 = E_OK) then break_ (fs, (E_OK, r.2)) else
  if bool_decide (r.1 ≠ ENOENT) then break_ (fs, (EXT2_ET_INODE_ALLOC_FAIL, 0)) else
  let i := u32 (upto + 1) in
  let i := if bool_decide (s_inodes_count sb < i) then EXT2_FIRST_INO sb else i in
  if bool_decide (i ≠ start_inode) then continue_ (fs, i) else break_ (fs, (E_OK, i)).

Definition ext2fs_new_inode (a : alloc_fs) (dir mode : Z) (map : generic_bitmap) :
    M (errcode * Z * alloc_fs) :=
  let sb := fs_super (a_fs a) in
  if bool_decide (fs_magic (a_fs a) ≠ EXT2_ET_MAGIC_EXT2FS_FILSYS) then mret (EXT2_ET_MAGIC_EXT2FS_FILSYS, 0, a) else
  let map := if is_null map then inode_map a else map in
  if is_null map then mret (EXT2_ET_NO_INODE_BITMAP, 0, a) else
  let start_inode :=
    if bool_decide (0 < dir) then
      u32 (u32 (u32 (dir - 1) / EXT2_INODES_PER_GROUP sb * EXT2_INODES_PER_GROUP sb) + 1)
    else 0 in
  let start_inode := if bool_decide (start_inode < EXT2_FIRST_INO sb) then EXT2_FIRST_INO sb else start_inode in
  if bool_decide (s_inodes_count sb < start_inode) then mret (EXT2_ET_INODE_ALLOC_FAIL, 0, a) else
  '(fs, r) ← loop (new_inode_step map start_inode) (a_fs a, start_inode);
  let a := set_fs fs a in
  if bool_decide (r.1 ≠ E_OK) then mret (r.1, 0, a) else
  used ← ext2fs_test_inode_bitmap2 map r.2;
  if bool_decide (used ≠ 0) then mret (EXT2_ET_INODE_ALLOC_FAIL, 0, a) else
  mret (E_OK, r.2, a).

(** ** alloc.c: blocks *)

(** Without a handler, or with a map of the caller's. *)
Definition search_block (fs : ext2_filsys) (goal : Z) (map : generic_bitmap) : M (errcode * Z) :=
  let sb := fs_super fs in
  let first := s_first_data_block sb in
  let goal := if bool_decide (goal = 0 ∨ ext2fs_blocks_count sb ≤ goal) then first else goal in
  let goal := Z.land goal (Z.lnot (EXT2FS_CLUSTER_MASK fs)) in
  r ← ext2fs_find_first_zero_block_bitmap2 map goal (u64 (ext2fs_blocks_count sb - 1));
  if bool_decide (r.1 = ENOENT ∧ goal ≠ first)
  then ext2fs_find_first_zero_block_bitmap2 map first (u64 (goal - 1))
  else mret r.

(** After the label [allocated]. *)
Definition block_allocated (a : alloc_fs) (r : errcode * Z) : M (errcode * Z * alloc_fs) :=
  if bool_decide (r.1 = ENOENT) then mret (EXT2_ET_BLOCK_ALLOC_FAIL, 0, a) else
  if bool_decide (r.1 ≠ E_OK) then mret (r.1, 0, a) else
  fs ← lift (ext2fs_clear_block_uninit (a_fs a) (ext2fs_group_of_blk2 (a_fs a) r.2));
  mret (E_OK, r.2, set_fs fs a).

Definition ext2fs_new_block3 (H : alloc_handlers) (a : alloc_fs) (goal : Z) (map : generic_bitmap)
    (ctx : option blk_alloc_ctx) : M (errcode * Z * alloc_fs) :=
  if bool_decide (fs_magic (a_fs a) ≠ EXT2_ET_MAGIC_EXT2FS_FILSYS) then mret (EXT2_ET_MAGIC_EXT2FS_FILSYS, 0, a) else
  match is_null map, get_alloc_block2 H, get_alloc_block H with
  | true, Some gab2, _ => '(e, b, a) ← gab2 a goal ctx; block_allocated a (e, b)
  | true, None, Some gab => '(e, b, a) ← gab a goal; block_allocated a (e, b)
  | _, _, _ =>
      let map := if is_null map then block_map a else map in
      if is_null map then mret (EXT2_ET_NO_BLOCK_BITMAP, 0, a) else
      r ← search_block (a_fs a) goal map;
      block_allocated a r
  end.

Definition ext2fs_new_block2 (H : alloc_handlers) (a : alloc_fs) (goal : Z) (map : generic_bitmap) :
    M (errcode * Z * alloc_fs) := ext2fs_new_block3 H a goal map None.

Definition ext2fs_new_block (H : alloc_handlers) (a : alloc_fs) (goal : Z) (map : generic_bitmap) :
    M (errcode * Z * alloc_fs) :=
  '(e, val, a) ← ext2fs_new_block2 H a (u32 goal) map;
  mret (e, if bool_decide (e = E_OK) then u32 val else 0, a).

Section device.
Context (ext2fs_read_block_bitmap : alloc_fs → M (errcode * alloc_fs)).
Context (io_channel_write_blk64 : alloc_fs → Z → list Z → M errcode).
Context (ext2fs_zero_blocks2 : alloc_fs → Z → Z → M errcode).

(** The block, or the error. *)
Definition alloc_block_find (H : alloc_handlers) (a : alloc_fs) (goal : Z) (ctx : option blk_alloc_ctx) :
    M (errcode * Z * alloc_fs) :=
  match get_alloc_block2 H, get_alloc_block H with
  | Some gab2, _ => gab2 a goal ctx
  | None, Some gab => gab a goal
  | None, None =>
      '(e, a) ← (if is_null (block_map a) then ext2fs_read_block_bitmap a else mret (E_OK, a));
      if bool_decide (e ≠ E_OK) then mret (e, 0, a) else
      ext2fs_new_block3 H a goal NullBitmap ctx
  end.

(** The buffer, when there is one, is zeroed and written. *)
Definition ext2fs_alloc_block3 (H : alloc_handlers) (a : alloc_fs) (goal : Z) (block_buf : option (list Z))
    (ctx : option blk_alloc_ctx) : M (errcode * Z * option (list Z) * alloc_fs) :=
  '(e, block, a) ← alloc_block_find H a goal ctx;
  if bool_decide (e ≠ E_OK) then mret (e, 0, block_buf, a) else
  let n := Z.to_nat (fs_blocksize (a_fs a)) in
  let buf := (λ b : list Z, replicate n 0 ++ drop n b) <$> block_buf in
  e ← match buf with
      | Some b => io_channel_write_blk64 a block (take n b)
      | None => ext2fs_zero_blocks2 a block 1
      end;
  if bool_decide (e ≠ E_OK) then mret (e, 0, buf, a) else
  a ← ext2fs_block_alloc_stats2 H a block 1;
  mret (E_OK, block, buf, a).

Definition ext2fs_alloc_block2 (H : alloc_handlers) (a : alloc_fs) (goal : Z) (block_buf : option (list Z)) :
    M (errcode * Z * option (list Z) * alloc_fs) := ext2fs_alloc_block3 H a goal block_buf None.

Definition ext2fs_alloc_block (H : alloc_handlers) (a : alloc_fs) (goal : Z) (block_buf : option (list Z)) :
    M (errcode * Z * option (list Z) * alloc_fs) :=
  '(e, ret64, buf, a) ← ext2fs_alloc_block3 H a (u32 goal) block_buf None;
  mret (e, if bool_decide (e = E_OK) then u32 ret64 else 0, buf, a).

(** One round of [do ... while (b != finish)]. *)
Definition free_blocks_step (fs : ext2_filsys) (map : generic_bitmap) (start finish num c_ratio b : Z) :
    M (Z + errcode * Z) :=
  let sb := fs_super fs in
  let past := bool_decide (ext2fs_blocks_count sb ≤ u64 (b + num - 1)) in
  if past && bool_decide (start < finish) then break_ (EXT2_ET_BLOCK_ALLOC_FAIL, 0) else
  let b := if past then s_first_data_block sb else b in
  r ← ext2fs_fast_test_block_bitmap_range2 map b (u32 num);
  if bool_decide (r ≠ 0) then break_ (E_OK, b) else
  let b := u64 (b + c_ratio) in
  if bool_decide (b ≠ finish) then continue_ b else break_ (EXT2_ET_BLOCK_ALLOC_FAIL, 0).

Definition ext2fs_get_free_blocks2 (a : alloc_fs) (start finish num : Z) (map : generic_bitmap) :
    M (errcode * Z) :=
  let fs := a_fs a in
  if bool_decide (fs_magic fs ≠ EXT2_ET_MAGIC_EXT2FS_FILSYS) then mret (EXT2_ET_MAGIC_EXT2FS_FILSYS, 0) else
  let map := if is_null map then block_map a else map in
  if is_null map then mret (EXT2_ET_NO_BLOCK_BITMAP, 0) else
  let b := if bool_decide (start = 0) then s_first_data_block (fs_super fs) else start in
  let finish := if bool_decide (finish = 0) then start else finish in
  let num := if bool_decide (num = 0) then 1 else num in
  g ← ext2fs_get_bitmap_granularity map;
  let c_ratio := s32 (Z.shiftl 1 g) in
  let b := Z.land b (Z.lnot (c_ratio - 1)) in
  let finish := Z.land finish (Z.lnot (c_ratio - 1)) in
  loop (free_blocks_step fs map start finish num c_ratio) b.

Definition ext2fs_get_free_blocks (a : alloc_fs) (start finish num : Z) (map : generic_bitmap) :
    M (errcode * Z) :=
  r ← ext2fs_get_free_blocks2 a (u32 start) (u32 finish) num map;
  mret (r.1, if bool_decide (r.1 = E_OK) then u32 r.2 else 0).

(** ** alloc.c: ranges of blocks *)
Definition EXT2_NEWRANGE_FIXED_GOAL : Z := 1.
Definition EXT2_NEWRANGE_MIN_LENGTH : Z := 2.
Definition EXT2_NEWRANGE_ALL_FLAGS : Z := 3.
Definition EXT2_ALLOCRANGE_FIXED_GOAL : Z := 1.
Definition EXT2_ALLOCRANGE_ZERO_BLOCKS : Z := 2.
Definition EXT2_ALLOCRANGE_ALL_FLAGS : Z := 3.

(** Whether a flag word has a flag of a mask. *)
Definition has_flag (flags mask : Z) : bool := bool_decide (Z.land flags mask ≠ 0).

(** One round of [while (!looped || start <= goal)]: it ends with the error of
    the function, or with the range. *)
Definition new_range_step (map : generic_bitmap) (flags goal len max_blocks first : Z) (st : Z * bool) :
    M (Z * bool + (errcode * (Z * Z))) :=
  let '(start, looped) := st in
  if negb (negb looped || bool_decide (start ≤ goal)) then break_ (EXT2_ET_BLOCK_ALLOC_FAIL, (0, 0)) else
  r ← ext2fs_find_first_zero_block_bitmap2 map start (u64 (max_blocks - 1));
  if bool_decide (r.1 = ENOENT) then
    if has_flag flags EXT2_NEWRANGE_FIXED_GOAL || bool_decide (start = first)
    then break_ (EXT2_ET_BLOCK_ALLOC_FAIL, (0, 0)) else continue_ (first, looped)
  else if bool_decide (r.1 ≠ E_OK) then break_ (r.1, (0, 0)) else
  let start := r.2 in
  if has_flag flags EXT2_NEWRANGE_FIXED_GOAL && bool_decide (start ≠ goal)
  then break_ (EXT2_ET_BLOCK_ALLOC_FAIL, (0, 0)) else
  let b := Z.min (u64 (start + len - 1)) (u64 (max_blocks - 1)) in
  r ← ext2fs_find_first_set_block_bitmap2 map start b;
  if bool_decide (r.1 ≠ E_OK ∧ r.1 ≠ ENOENT) then break_ (r.1, (0, 0)) else
  let end_ := if bool_decide (r.1 = ENOENT) then u64 (b + 1) else r.2 in
  if negb (has_flag flags EXT2_NEWRANGE_MIN_LENGTH) || bool_decide (len ≤ u64 (end_ - start))
  then break_ (E_OK, (start, u64 (end_ - start)))
  else if has_flag flags EXT2_NEWRANGE_FIXED_GOAL then break_ (EXT2_ET_BLOCK_ALLOC_FAIL, (0, 0)) else
  let start := end_ in
  if bool_decide (max_blocks ≤ start) then
    if looped then break_ (EXT2_ET_BLOCK_ALLOC_FAIL, (0, 0)) else continue_ (first, true)
  else continue_ (start, looped).

(** [for (b = start; b < end; b += s_blocks_per_group)] *)
Definition clear_uninit_step (end_ : Z) (st : ext2_filsys * Z) : M (ext2_filsys * Z + ext2_filsys) :=
  let '(fs, b) := st in
  if bool_decide (b < end_) then
    fs ← lift (ext2fs_clear_block_uninit fs (ext2fs_group_of_blk2 fs b));
    continue_ (fs, u64 (b + s_blocks_per_group (fs_super fs)))
  else break_ fs.

Definition range_allocated (a : alloc_fs) (start len : Z) : M (errcode * (Z * Z) * alloc_fs) :=
  fs ← loop (clear_uninit_step (u64 (start + len))) (a_fs a, start);
  mret (E_OK, (start, len), set_fs fs a).

Definition ext2fs_new_range (H : alloc_handlers) (a : alloc_fs) (flags goal len : Z) (map : generic_bitmap) :
    M (errcode * (Z * Z) * alloc_fs) :=
  let sb := fs_super (a_fs a) in
  let max_blocks := ext2fs_blocks_count sb in
  if bool_decide (fs_magic (a_fs a) ≠ EXT2_ET_MAGIC_EXT2FS_FILSYS)
  then mret (EXT2_ET_MAGIC_EXT2FS_FILSYS, (0, 0), a) else
  if bool_decide (len = 0) || has_flag flags (Z.lnot EXT2_NEWRANGE_ALL_FLAGS)
  then mret (EXT2_ET_INVALID_ARGUMENT, (0, 0), a) else
  match is_null map, new_range H with
  | true, Some nrf =>
      '(e, r, a) ← nrf a flags goal len;
      if bool_decide (e ≠ E_OK) then mret (e, r, a) else range_allocated a r.1 r.2
  | _, _ =>
      let map := if is_null map then block_map a else map in
      if is_null map then mret (EXT2_ET_NO_BLOCK_BITMAP, (0, 0), a) else
      let first := s_first_data_block sb in
      let goal := if bool_decide (goal = 0 ∨ max_blocks ≤ goal) then first else goal in
      '(e, r) ← loop (new_range_step map flags goal len max_blocks first) (goal, false);
      if bool_decide (e ≠ E_OK) then mret (e, (0, 0), a) else range_allocated a r.1 r.2
  end.

Definition ext2fs_alloc_range (H : alloc_handlers) (a : alloc_fs) (flags goal len : Z) :
    M (errcode * Z * alloc_fs) :=
  if bool_decide (fs_magic (a_fs a) ≠ EXT2_ET_MAGIC_EXT2FS_FILSYS)
  then mret (EXT2_ET_MAGIC_EXT2FS_FILSYS, 0, a) else
  if bool_decide (len = 0) || has_flag flags (Z.lnot EXT2_ALLOCRANGE_ALL_FLAGS)
  then mret (EXT2_ET_INVALID_ARGUMENT, 0, a) else
  let newr_flags := if has_flag flags EXT2_ALLOCRANGE_FIXED_GOAL
                    then Z.lor EXT2_NEWRANGE_MIN_LENGTH EXT2_NEWRANGE_FIXED_GOAL
                    else EXT2_NEWRANGE_MIN_LENGTH in
  '(e, r, a) ← ext2fs_new_range H a newr_flags goal len NullBitmap;
  if bool_decide (e ≠ E_OK) then mret (e, 0, a) else
  if bool_decide (r.2 < len) then mret (EXT2_ET_BLOCK_ALLOC_FAIL, r.1, a) else
  e ← (if has_flag flags EXT2_ALLOCRANGE_ZERO_BLOCKS then ext2fs_zero_blocks2 a r.1 len else mret E_OK);
  if bool_decide (e ≠ E_OK) then mret (e, r.1, a) else
  a ← ext2fs_block_alloc_stats_range H a r.1 len 1;
  mret (E_OK, r.1, a).
End device.

(** ** csum.c: the flags and checksums of all groups *)

(** [for (i = end_ino; i >= start_ino; i--)]: the count of inodes up to the
    last used one. *)
Definition last_inode_step (bitmap : generic_bitmap) (inodes_per_grp start_ino i : Z) : M (Z + Z) :=
  if bool_decide (start_ino ≤ i) then
    used ← ext2fs_fast_test_inode_bitmap2 bitmap i;
    if bool_decide (used ≠ 0) then break_ (u32 (i - start_ino + 1)) else continue_ (u32 (i - 1))
  else break_ inodes_per_grp.

Definition find_last_inode_ingrp (bitmap : generic_bitmap) (inodes_per_grp grp_no : Z) : M Z :=
  let start_ino := u32 (grp_no * inodes_per_grp + 1) in
  let end_ino := u32 (start_ino + inodes_per_grp - 1) in
  loop (last_inode_step bitmap inodes_per_grp start_ino) end_ino.

(** The checksum, the unused inodes, the flags. *)
Definition gdt_view (fs : ext2_filsys) (i : Z) : option (Z * Z * Z) :=
  c ← ext2fs_bg_checksum fs i; u ← ext2fs_bg_itable_unused fs i; f ← ext2fs_bg_flags fs i; Some (c, u, f).

(** One group; the state is the file system and [dirty]. *)
Definition gdt_csum_group (map : generic_bitmap) (i : Z) (st : ext2_filsys * bool) : M (ext2_filsys * bool) :=
  let '(fs, dirty) := st in
  let sb := fs_super fs in
  old ← lift (gdt_view fs i);
  free_inodes ← lift (ext2fs_bg_free_inodes_count fs i);
  free_blocks ← lift (ext2fs_bg_free_blocks_count fs i);
  fs ← (if bool_decide (free_blocks = s_blocks_per_group sb ∧ i ≠ u32 (fs_group_desc_count fs - 1))
        then lift (ext2fs_bg_flags_set fs i EXT2_BG_BLOCK_UNINIT) else mret fs);
  fs ← (if bool_decide (free_inodes = s_inodes_per_group sb) then
          lift (fs ← ext2fs_bg_flags_set fs i EXT2_BG_INODE_UNINIT;
                ext2fs_bg_itable_unused_set fs i (s_inodes_per_group sb))
        else
          last ← find_last_inode_ingrp map (s_inodes_per_group sb) i;
          lift (fs ← ext2fs_bg_flags_clear fs i EXT2_BG_INODE_UNINIT;
                ext2fs_bg_itable_unused_set fs i (u32 (s_inodes_per_group sb - last))));
  fs ← lift (ext2fs_group_desc_csum_set fs i);
  seen ← lift (gdt_view fs i);
  mret (fs, dirty || bool_decide (old ≠ seen)).

Fixpoint gdt_csum_loop (k : nat) (map : generic_bitmap) (i : Z) (st : ext2_filsys * bool) :
    M (ext2_filsys * bool) :=
  match k with
  | O => mret st
  | S k' => st ← gdt_csum_group map i st; gdt_csum_loop k' map (i + 1) st
  end.

Definition gdt_dirty (st : ext2_filsys * bool) : ext2_filsys :=
  if st.2 then ext2fs_mark_super_dirty st.1 else st.1.

Definition ext2fs_set_gdt_csum (a : alloc_fs) : M (errcode * alloc_fs) :=
  if is_null (inode_map a) then mret (EXT2_ET_NO_INODE_BITMAP, a) else
  if negb (ext2fs_has_group_desc_csum (a_fs a)) then mret (E_OK, a) else
  st ← gdt_csum_loop (Z.to_nat (fs_group_desc_count (a_fs a))) (inode_map a) 0 (a_fs a, false);
  mret (E_OK, set_fs (gdt_dirty st) a).
