(* ===== verification/GroupSpec.v ===== *)
(** * GroupSpec: group descriptors as records of numbers

    [gd_val fs gd f g] is the value of the field [f] of the descriptor of group
    [g].  Every accessor of blknum.c reads or writes one such value; the
    lemmas here are what the allocator's proofs use of them: a write gives the
    field its value, cut to its width, and leaves all the others, and storing
    the checksum changes the checksum only.  None of it depends on the free
    counters of the super block ([same_super]). *)
From S2P Require Import Prelude.
From S2P Require Import Bytes.
From S2P Require Import Super.
From S2P Require Import Crc.
From S2P Require Import Blknum.
From S2P Require Import Csum.
From S2P Require Import CsumProps.
#[local] Open Scope Z_scope.

Definition gd_val (fs : ext2_filsys) (gd : list Z) (f : gd_field) (g : Z) : Z :=
  rd_field (ext2fs_has_feature_64bit (fs_super fs)) f (g * EXT2_DESC_SIZE (fs_super fs)) gd.

(** All the fields are those of [gd], but for some fields of group [g]. *)
Definition gd_same_but (fs : ext2_filsys) (gd gd' : list Z) (g : Z) (P : gd_field → Prop) : Prop :=
  ∀ f' g', 0 ≤ g' < fs_group_desc_count fs → g' ≠ g ∨ ¬ P f' → gd_val fs gd' f' g' = gd_val fs gd f' g'.

Lemma gd_same_but_trans fs gd1 gd2 gd3 g P Q :
  gd_same_but fs gd1 gd2 g P → gd_same_but fs gd2 gd3 g Q →
  gd_same_but fs gd1 gd3 g (λ f, P f ∨ Q f).
Proof. intros H1 H2 f' g' Hg Hn. rewrite H2 ?H1 //; tauto. Qed.

Lemma gd_same_but_weaken fs gd gd' g (P Q : gd_field → Prop) :
  (∀ f, P f → Q f) → gd_same_but fs gd gd' g P → gd_same_but fs gd gd' g Q.
Proof. intros HPQ H f' g' Hg Hn. apply H; [done|]. destruct Hn as [?|Hn]; [by left|right; auto]. Qed.

Lemma gd_field_range (b : bool) f gd o : is_bytes gd →
  0 ≤ rd_field b f o gd < 2 ^ (match gd_hi f with
    | Some _ => if b then 2 * (8 * Z.of_nat (gd_k f)) else 8 * Z.of_nat (gd_k f)
    | None => 8 * Z.of_nat (gd_k f) end).
Proof.
  intros Hb. unfold rd_field.
  assert (Hr : ∀ x, 0 ≤ get_le (gd_k f) x gd < 2 ^ (8 * Z.of_nat (gd_k f))).
  { intros x. pose proof (get_le_range (gd_k f) x gd Hb) as H. rewrite Z.pow_mul_r; [|lia..]. exact H. }
  set (k := 8 * Z.of_nat (gd_k f)) in *. assert (0 ≤ k) by lia.
  destruct (gd_hi f) as [h|]; [destruct b|]; [|apply Hr..].
  replace (2 * k) with (k + k) by lia. apply lor_range; [lia|..].
  - pose proof (Hr (o + gd_lo f)). split; [lia|]. eapply Z.lt_le_trans; [apply Hr|].
    apply Z.pow_le_mono_r; lia.
  - pose proof (Hr (o + h)). rewrite Z.shiftl_mul_pow2 // Z.pow_add_r //.
    assert (0 < 2 ^ k) by (apply Z.pow_pos_nonneg; lia). nia.
Qed.

Lemma le_encode_mod k v : le_encode k (v mod 256 ^ Z.of_nat k) = le_encode k v.
Proof.
  rewrite -le_decode_encode -{1}(length_le_encode k v). apply le_encode_decode, le_encode_bytes.
Qed.

Section desc.
Context (fs : ext2_filsys) (gd : list Z) (Hok : gd_ok fs gd).

Lemma gd_val_range f g : 0 ≤ gd_val fs gd f g < 2 ^ gd_bits (fs_super fs) f.
Proof. apply gd_field_range, Hok. Qed.

Lemma gd_read_val f g : 0 ≤ g < fs_group_desc_count fs → gd_read f fs g = Some (gd_val fs gd f g).
Proof. intros Hg. by apply gd_read_eq. Qed.

Lemma gd_write_val w g v : 0 ≤ g < fs_group_desc_count fs →
  0 ≤ gd_result w (gd_val fs gd (gd_target w) g) v < 2 ^ gd_bits (fs_super fs) (gd_target w) →
  ∃ gd', gd_write w fs g v = Some (set_group_desc gd' fs) ∧ gd_ok (set_group_desc gd' fs) gd' ∧
    gd_val fs gd' (gd_target w) g = gd_result w (gd_val fs gd (gd_target w) g) v ∧
    gd_same_but fs gd gd' g (λ f', f' = gd_target w).
Proof.
  intros Hg Hv. pose proof (gd_in_group fs gd Hok g Hg) as Hin. pose proof (gd_ds fs gd Hok) as Hds.
  eexists. split; [by apply gd_write_eq|]. cbv zeta. fold (gd_val fs gd (gd_target w) g).
  set (r := gd_result w _ v) in *. split; [|split].
  - apply (gd_ok_set fs gd Hok); [apply wr_bytes, Hok|]. by apply (length_wr _ (EXT2_DESC_SIZE (fs_super fs))).
  - unfold gd_val at 1. rewrite (rd_wr_eq _ (EXT2_DESC_SIZE (fs_super fs))) //; [|lia].
    apply Z.mod_small. exact Hv.
  - intros f' g' Hg' Hn. unfold gd_val.
    assert (0 < EXT2_DESC_SIZE (fs_super fs)) by (destruct ext2fs_has_feature_64bit; lia).
    assert (Hcmp : g' = g ∨ g' < g ∨ g < g') by lia.
    apply (rd_wr_ne _ (EXT2_DESC_SIZE (fs_super fs))); [done|done|by apply gd_in_group| |].
    + destruct (decide (g' = g)) as [->|]; [left; naive_solver|right; nia].
    + destruct Hcmp as [->|Hcmp]; [by left|right; nia].
Qed.

(** Setting and clearing flags. *)
Lemma gd_flags_clear g flags : 0 ≤ g < fs_group_desc_count fs →
  ∃ gd', ext2fs_bg_flags_clear fs g flags = Some (set_group_desc gd' fs) ∧
    gd_ok (set_group_desc gd' fs) gd' ∧
    gd_val fs gd' GdFlags g = Z.land (gd_val fs gd GdFlags g) (Z.lnot flags) ∧
    gd_same_but fs gd gd' g (λ f', f' = GdFlags).
Proof.
  intros Hg. pose proof (gd_val_range GdFlags g) as Hr.
  apply (gd_write_val ClearFlags g flags Hg). apply land_range; [done|exact Hr].
Qed.

Lemma gd_flags_set g flags : 0 ≤ g < fs_group_desc_count fs → 0 ≤ flags < 2^16 →
  ∃ gd', ext2fs_bg_flags_set fs g flags = Some (set_group_desc gd' fs) ∧
    gd_ok (set_group_desc gd' fs) gd' ∧
    gd_val fs gd' GdFlags g = Z.lor (gd_val fs gd GdFlags g) flags ∧
    gd_same_but fs gd gd' g (λ f', f' = GdFlags).
Proof.
  intros Hg Hf. pose proof (gd_val_range GdFlags g) as Hr.
  apply (gd_write_val SetFlags g flags Hg). apply lor_range; [done|exact Hr|exact Hf].
Qed.

(** Storing the checksum. *)
Lemma gd_csum_set g : super_ok (fs_super fs) → 0 ≤ g < fs_group_desc_count fs →
  ∃ gd', ext2fs_group_desc_csum_set fs g = Some (set_group_desc gd' fs) ∧
    gd_ok (set_group_desc gd' fs) gd' ∧
    ext2fs_group_desc_csum_verify (set_group_desc gd' fs) g = Some true ∧
    gd_same_but fs gd gd' g (λ f', f' = GdChecksum).
Proof.
  intros Hsb Hg.
  destruct (group_desc_csum_stored fs gd g Hok Hsb Hg) as (fs' & gd' & Hset & [-> Hok'] & _ & Hv & _).
  exists gd'. split_and!; [done..|].
  unfold ext2fs_group_desc_csum_set in Hset.
  destruct (negb (ext2fs_has_group_desc_csum fs)).
  { injection Hset as Hset. intros f' g' Hg' _. assert (gd' = gd) as ->; [|done].
    destruct Hok as [Hs _ _ _ _ _ _]. rewrite Hset in Hs. by injection Hs. }
  destruct (ext2fs_group_desc_csum fs g) as [c|]; [|done]. cbn in Hset.
  assert (Hcw : ∃ gd1, gd_write StoreChecksum fs g (u16 c) = Some (set_group_desc gd1 fs) ∧
    gd_same_but fs gd gd1 g (λ f', f' = GdChecksum)).
  { destruct (gd_write_val StoreChecksum g (u16 c) Hg) as (gd1 & ? & _ & _ & ?); [|by exists gd1].
    by apply Z.mod_pos_bound. }
  destruct Hcw as (gd1 & Hw & Hsame). 
  assert (Heq : gd_write StoreChecksum fs g (u16 c) = gd_write StoreChecksum fs g c).
  { cbn. unfold ext2fs_bg_checksum_set, gd_set. rewrite (group_desc_eq fs gd Hok g Hg). cbn.
    case_decide; [|done]. unfold set_le. by rewrite (le_encode_mod 2). }
  rewrite Heq in Hw. cbn in Hw. rewrite Hw in Hset. injection Hset as <-. exact Hsame.
Qed.
End desc.

(** ** The counters of the super block *)

(** The super blocks agree but for the free counters. *)
Record same_super (sb sb' : list Z) : Prop := SameSuper {
  ss_length : length sb = SUPERBLOCK_SIZE;
  ss_length' : length sb' = SUPERBLOCK_SIZE;
  ss_same : ∀ i : nat, Z.of_nat i ∉ seqZ 12 8 ++ seqZ 344 4 → sb' !! i = sb !! i;
}.

Lemma same_super_refl sb : length sb = SUPERBLOCK_SIZE → same_super sb sb.
Proof. by constructor. Qed.

Lemma same_super_trans sb1 sb2 sb3 : same_super sb1 sb2 → same_super sb2 sb3 → same_super sb1 sb3.
Proof. intros [? ? H1] [? ? H2]. constructor; [done..|]. intros i Hi. by rewrite H2 ?H1. Qed.

Lemma same_super_get sb sb' k off : same_super sb sb' → 0 ≤ off →
  off + Z.of_nat k ≤ 12 ∨ 20 ≤ off ∧ off + Z.of_nat k ≤ 344 ∨ 348 ≤ off →
  get_le k off sb' = get_le k off sb.
Proof.
  intros [_ _ H] Hoff Hd. apply get_le_ext; [|done]. intros i Hi. apply H.
  rewrite elem_of_app !elem_of_seqZ. lia.
Qed.

Lemma same_super_set sb off v : length sb = SUPERBLOCK_SIZE → 12 ≤ off ≤ 16 ∨ off = 344 →
  same_super sb (set32 off v sb).
Proof.
  intros Hl Hoff. assert (in_buf 4 off sb) by (apply super_in; [done|lia|lia]).
  constructor; [done|by rewrite length_set_le|]. intros i Hi.
  rewrite elem_of_app !elem_of_seqZ in Hi. apply lookup_set_le_ne; [done|lia].
Qed.

Lemma same_super_64bit sb sb' : same_super sb sb' → ext2fs_has_feature_64bit sb' = ext2fs_has_feature_64bit sb.
Proof. intros H. unfold ext2fs_has_feature_64bit, s_feature_incompat. by rewrite (same_super_get sb sb') //; lia. Qed.

Lemma same_super_counter sb v : length sb = SUPERBLOCK_SIZE → same_super sb (counter_set 12 344 v sb).
Proof.
  intros Hl. unfold counter_set.
  assert (H1 : same_super sb (set32 12 (u32 v) sb)) by (apply same_super_set; [done|lia]).
  destruct (ext2fs_has_feature_64bit _); [|done].
  eapply same_super_trans; [exact H1|]. apply same_super_set; [apply H1|lia].
Qed.

Lemma same_super_ok sb sb' : is_bytes sb' → same_super sb sb' → super_ok sb'.
Proof. intros ? []. by split. Qed.

Section same_super.
Context (sb sb' : list Z) (H : same_super sb sb').

Lemma same_super_uuid : s_uuid sb' = s_uuid sb.
Proof.
  unfold s_uuid. apply list_eq. intros i. destruct (decide (i < 16)%nat).
  - rewrite !lookup_take_lt // !lookup_drop. apply H. rewrite elem_of_app !elem_of_seqZ. lia.
  - rewrite !lookup_take_ge //; lia.
Qed.

Lemma same_super_desc_size : EXT2_DESC_SIZE sb' = EXT2_DESC_SIZE sb.
Proof.
  unfold EXT2_DESC_SIZE, s_desc_size. rewrite (same_super_64bit sb sb') //.
  rewrite (same_super_get sb sb') //; lia.
Qed.

Lemma same_super_metadata_csum :
  ext2fs_has_feature_metadata_csum sb' = ext2fs_has_feature_metadata_csum sb.
Proof.
  unfold ext2fs_has_feature_metadata_csum, s_feature_ro_compat. by rewrite (same_super_get sb sb') //; lia.
Qed.

Lemma same_super_gdt_csum : ext2fs_has_feature_gdt_csum sb' = ext2fs_has_feature_gdt_csum sb.
Proof.
  unfold ext2fs_has_feature_gdt_csum, s_feature_ro_compat. by rewrite (same_super_get sb sb') //; lia.
Qed.
End same_super.

(** A file system with other free counters and flags. *)
Record same_fs (fs fs' : ext2_filsys) : Prop := SameFs {
  sf_super : same_super (fs_super fs) (fs_super fs');
  sf_desc : fs_group_desc fs' = fs_group_desc fs;
  sf_count : fs_group_desc_count fs' = fs_group_desc_count fs;
  sf_seed : fs_csum_seed fs' = fs_csum_seed fs;
}.

Lemma same_fs_gd_ok fs fs' gd : same_fs fs fs' → gd_ok fs gd → gd_ok fs' gd.
Proof.
  intros [Hs Hd Hc _] [? ? ? ? ? ? ?].
  pose proof (same_super_desc_size _ _ Hs) as Hds. pose proof (same_super_64bit _ _ Hs) as H64.
  constructor; rewrite ?Hd ?Hc ?Hds ?H64 //.
Qed.

Lemma same_fs_val fs fs' gd f g : same_fs fs fs' → gd_val fs' gd f g = gd_val fs gd f g.
Proof.
  intros [Hs _ _ _]. unfold gd_val. by rewrite (same_super_desc_size _ _ Hs) (same_super_64bit _ _ Hs).
Qed.

Lemma same_fs_csum fs fs' : same_fs fs fs' → ext2fs_has_group_desc_csum fs' = ext2fs_has_group_desc_csum fs.
Proof.
  intros [Hs _ _ _]. unfold ext2fs_has_group_desc_csum.
  by rewrite (same_super_metadata_csum _ _ Hs) (same_super_gdt_csum _ _ Hs).
Qed.

Lemma same_fs_verify fs fs' gd g : same_fs fs fs' → gd_ok fs gd → 0 ≤ g < fs_group_desc_count fs →
  ext2fs_group_desc_csum_verify fs' g = ext2fs_group_desc_csum_verify fs g.
Proof.
  intros Hsf Hok Hg. pose proof (same_fs_gd_ok fs fs' gd Hsf Hok) as Hok'.
  pose proof (gd_ds fs gd Hok) as Hds.
  assert (Hg' : 0 ≤ g < fs_group_desc_count fs') by by rewrite (sf_count _ _ Hsf).
  assert (32 ≤ EXT2_DESC_SIZE (fs_super fs)) by (destruct ext2fs_has_feature_64bit; lia).
  pose proof (same_super_desc_size _ _ (sf_super _ _ Hsf)) as Hds'.
  unfold ext2fs_group_desc_csum_verify. rewrite (same_fs_csum fs fs' Hsf).
  destruct (ext2fs_has_group_desc_csum fs); [|done].
  unfold ext2fs_bg_checksum. rewrite (gd_get_eq fs gd Hok); [|done|done|unfold bg_checksum; lia].
  rewrite (gd_get_eq fs' gd Hok'); [|done|done|unfold bg_checksum; rewrite Hds'; lia].
  rewrite Hds'.
  unfold ext2fs_group_desc_csum. rewrite (group_desc_eq fs gd Hok g Hg) (group_desc_eq fs' gd Hok' g Hg').
  cbn [mbind option_bind]. rewrite Hds'. case_decide; [|done]. unfold group_desc_csum_bytes.
  by rewrite (same_super_metadata_csum _ _ (sf_super _ _ Hsf)) (same_super_uuid _ _ (sf_super _ _ Hsf)) (sf_seed _ _ Hsf).
Qed.

(** Two changes of the descriptors, one after the other. *)
Lemma same_fs_desc_trans fs gd1 fs1 gd2 fs2 :
  same_fs (set_group_desc gd1 fs) fs1 → same_fs (set_group_desc gd2 fs1) fs2 →
  same_fs (set_group_desc gd2 fs) fs2.
Proof.
  intros [Hs1 _ Hc1 He1] [Hs2 Hd2 Hc2 He2]. cbn [fs_super set_group_desc fs_group_desc fs_group_desc_count fs_csum_seed] in *.
  constructor; cbn [fs_super set_group_desc fs_group_desc fs_group_desc_count fs_csum_seed]; [|done|congruence..].
  by eapply same_super_trans.
Qed.

(** ** The descriptors of the other groups *)

(** An operation on the descriptor of [g] leaves all the other bytes. *)
Definition gd_local (fs : ext2_filsys) (gd : list Z) (g : Z) (fs' : ext2_filsys) : Prop :=
  ∃ gd', same_but_gd fs fs' gd' ∧ outside_same fs g gd gd'.

Lemma gd_local_trans fs gd g fs1 fs2 : gd_local fs gd g fs1 →
  (∀ gd1, gd_ok fs1 gd1 → gd_local fs1 gd1 g fs2) → gd_local fs gd g fs2.
Proof.
  intros (gd1 & [-> Hok1] & H1) H2. destruct (H2 gd1 Hok1) as (gd2 & [-> Hok2] & H12).
  exists gd2. split; [by split|]. intros i Hi. rewrite (H12 i) //. by apply H1.
Qed.

Lemma gd_set_local fs gd g k o v fs' : gd_ok fs gd → 0 ≤ g < fs_group_desc_count fs →
  0 ≤ o → o + Z.of_nat k ≤ EXT2_DESC_SIZE (fs_super fs) → gd_set k o v fs g = Some fs' → gd_local fs gd g fs'.
Proof.
  intros Hok Hg Ho Hk. destruct (gd_set_ok fs gd Hok g Hg k o v Ho Hk) as [-> Hok'].
  intros [= <-]. eexists. split; [by split|]. intros i Hi.
  apply lookup_set_le_ne; [|lia]. by apply (gd_in_field fs gd Hok).
Qed.

Lemma gd_set_hilo_local fs gd g k lo hi sh v fs' : gd_ok fs gd → 0 ≤ g < fs_group_desc_count fs →
  0 ≤ lo → lo + Z.of_nat k ≤ 32 → 32 ≤ hi → hi + Z.of_nat k ≤ 64 →
  gd_set_hilo k lo hi sh v fs g = Some fs' → gd_local fs gd g fs'.
Proof.
  intros Hok Hg ? ? ? ?. pose proof (gd_ds fs gd Hok) as Hds. unfold gd_set_hilo.
  destruct (gd_set k lo v fs g) as [fs1|] eqn:E1; [|done]. cbn [mbind option_bind].
  assert (32 ≤ EXT2_DESC_SIZE (fs_super fs)) by (destruct ext2fs_has_feature_64bit; lia).
  assert (Hl1 : gd_local fs gd g fs1) by (apply (gd_set_local fs gd g k lo v); (done || lia)).
  pose proof Hl1 as (gd1 & [-> Hok1] & _).
  destruct (ext2fs_has_feature_64bit (fs_super (set_group_desc gd1 fs))) eqn:E64; [|by intros [= <-]].
  change (fs_super (set_group_desc gd1 fs)) with (fs_super fs) in E64. rewrite E64 in Hds.
  intros E2. apply (gd_local_trans _ _ _ _ _ Hl1). intros gd2 Hok2.
  apply (gd_set_local _ _ _ k hi _ _ Hok2) in E2; [done|done|lia|cbn [fs_super set_group_desc]; lia].
Qed.

Lemma gd_flags_clear_local fs gd g flags fs' : gd_ok fs gd → 0 ≤ g < fs_group_desc_count fs →
  ext2fs_bg_flags_clear fs g flags = Some fs' → gd_local fs gd g fs'.
Proof.
  intros Hok Hg. pose proof (gd_ds fs gd Hok) as Hds. unfold ext2fs_bg_flags_clear.
  destruct (gd_get 2 bg_flags fs g) as [f|]; [|done]. cbn [mbind option_bind].
  apply gd_set_local; [done..|]. unfold bg_flags. destruct ext2fs_has_feature_64bit; lia.
Qed.

Lemma gd_csum_set_local fs gd g fs' : gd_ok fs gd → 0 ≤ g < fs_group_desc_count fs →
  ext2fs_group_desc_csum_set fs g = Some fs' → gd_local fs gd g fs'.
Proof.
  intros Hok Hg. pose proof (gd_ds fs gd Hok) as Hds. unfold ext2fs_group_desc_csum_set.
  destruct (negb _).
  { intros [= <-]. exists gd. split; [|by intros i]. split; [|done].
    destruct fs, Hok. unfold set_group_desc. cbn in *. by subst. }
  destruct (ext2fs_group_desc_csum fs g) as [c|]; [|done]. cbn [mbind option_bind].
  apply gd_set_local; [done..|]. unfold bg_checksum. destruct ext2fs_has_feature_64bit; lia.
Qed.

(** The checksums of the other groups stay right. *)
Lemma gd_local_verify fs gd g fs' g' : gd_ok fs gd → gd_local fs gd g fs' →
  0 ≤ g < fs_group_desc_count fs → 0 ≤ g' < fs_group_desc_count fs → g' ≠ g →
  ext2fs_group_desc_csum_verify fs' g' = ext2fs_group_desc_csum_verify fs g'.
Proof.
  intros Hok (gd' & [-> Hok'] & Hout) Hg Hg' Hne. pose proof (gd_ds fs gd Hok) as Hds.
  assert (32 ≤ EXT2_DESC_SIZE (fs_super fs)) by (destruct ext2fs_has_feature_64bit; lia).
  set (ds := EXT2_DESC_SIZE (fs_super fs)) in *.
  assert (Hlook : ∀ i : nat, g' * ds ≤ Z.of_nat i < g' * ds + ds → gd' !! i = gd !! i).
  { intros i Hi. apply Hout. fold ds. nia. }
  unfold ext2fs_group_desc_csum_verify.
  change (ext2fs_has_group_desc_csum (set_group_desc gd' fs)) with (ext2fs_has_group_desc_csum fs).
  destruct (ext2fs_has_group_desc_csum fs); [|done].
  unfold ext2fs_bg_checksum. rewrite (gd_get_eq fs gd Hok); [|done|done|unfold bg_checksum; fold ds; lia].
  rewrite (gd_get_eq _ gd' Hok'); [|done|done|unfold bg_checksum; cbn [fs_super set_group_desc]; fold ds; lia].
  unfold ext2fs_group_desc_csum. rewrite (group_desc_eq fs gd Hok g' Hg') (group_desc_eq _ gd' Hok' g' Hg').
  cbn [mbind option_bind fs_super set_group_desc]. fold ds.
  destruct (gd_in_group fs gd Hok g' Hg') as [H1 H2]. fold ds in H1, H2.
  destruct (gd_in_group _ gd' Hok' g' Hg') as [H1' H2']. cbn [fs_super set_group_desc] in H1', H2'. fold ds in H1', H2'.
  rewrite (get_le_ext 2 (g' * ds + bg_checksum) gd gd');
    [|intros i Hi; unfold bg_checksum in Hi; symmetry; apply Hlook; lia|unfold bg_checksum; lia].
  rewrite !decide_True; [|split; lia..].
  assert (take (Z.to_nat ds) (drop (Z.to_nat (g' * ds)) gd') = take (Z.to_nat ds) (drop (Z.to_nat (g' * ds)) gd)) as ->; [|done].
  apply list_eq. intros i. destruct (decide (i < Z.to_nat ds)%nat).
  - rewrite !lookup_take_lt // !lookup_drop. apply Hlook. lia.
  - rewrite !lookup_take_ge //; lia.
Qed.
