(* ===== verification/AllocProps.v ===== *)
(** * AllocProps: the allocator keeps the counters in step with the bitmaps

    [inodes_ok] says that the counters of the descriptors and of the super block
    are the numbers of free inodes that the bitmap shows, and that the inodes
    counted as never used are free.  Taking and giving back inodes preserves it. *)
From S2P Require Import Prelude.
From S2P Require Import Bytes.
From S2P Require Import Super.
From S2P Require Import Crc.
From S2P Require Import Blknum.
From S2P Require Import Csum.
From S2P Require Import CsumProps.
From S2P Require Import Mem.
From S2P Require Import SepLogic.
From S2P Require Import ExtMem.
From S2P Require Import Bitmap.
From S2P Require Import BlkmapRB.
From S2P Require Import GenBitmap.
From S2P Require Import GenBitmapSpec.
From S2P Require Import BitmapProps.
From S2P Require Import Bitmaps.
From S2P Require Import Alloc.
From S2P Require Import GroupSpec.
#[local] Open Scope Z_scope.

(** ** Counting *)
Lemma size_zrange a n : 0 ≤ n → Z.of_nat (size (zrange a n)) = n.
Proof.
  intros Hn. assert (zrange a n = list_to_set (seqZ a n)) as ->.
  { apply set_eq. intros x. by rewrite (elem_of_zrange x a n). }
  rewrite size_list_to_set; [|apply NoDup_seqZ]. rewrite length_seqZ. lia.
Qed.

Definition zsize (A : gset Z) : Z := Z.of_nat (size A).

Lemma zsize_add x (A : gset Z) : x ∉ A → zsize ({[x]} ∪ A) = zsize A + 1.
Proof.
  intros Hx. unfold zsize. rewrite size_union; [|set_solver]. rewrite size_singleton. lia.
Qed.

Lemma zsize_remove x (A : gset Z) : x ∈ A → zsize (A ∖ {[x]}) = zsize A - 1.
Proof.
  intros Hx. assert (A = {[x]} ∪ A ∖ {[x]}) as Heq by (apply set_eq; intros y; destruct (decide (y = x)); set_solver).
  rewrite {2}Heq zsize_add; [lia|set_solver].
Qed.

Lemma zsize_bound a n (A : gset Z) : 0 ≤ n → A ⊆ zrange a n → 0 ≤ zsize A ≤ n.
Proof.
  intros Hn Hsub. split; [unfold zsize; lia|]. rewrite -(size_zrange a n) //.
  unfold zsize. apply inj_le, subseteq_size, Hsub.
Qed.

(** What is free of a range when [x] is taken, or given back. *)
Lemma free_take (R I : gset Z) x : x ∉ I →
  zsize (R ∖ ({[x]} ∪ I)) = zsize (R ∖ I) - (if decide (x ∈ R) then 1 else 0).
Proof.
  intros Hx. case_decide as HR.
  - rewrite -(zsize_remove x); [|set_solver]. f_equal. set_solver.
  - rewrite Z.sub_0_r. f_equal. set_solver.
Qed.

Lemma free_give (R I : gset Z) x : x ∈ I →
  zsize (R ∖ (I ∖ {[x]})) = zsize (R ∖ I) + (if decide (x ∈ R) then 1 else 0).
Proof.
  intros Hx. case_decide as HR.
  - rewrite -(zsize_add x); [|set_solver]. f_equal. apply set_eq. intros y.
    destruct (decide (y = x)) as [->|]; set_solver.
  - rewrite Z.add_0_r. f_equal. apply set_eq. intros y. destruct (decide (y = x)) as [->|]; set_solver.
Qed.

(** ** Inodes *)

(** The inodes of group [g]. *)
Definition group_inodes (fs : ext2_filsys) (g : Z) : gset Z :=
  zrange (g * s_inodes_per_group (fs_super fs) + 1) (s_inodes_per_group (fs_super fs)).

(** The groups partition the inodes, and the counters can hold their number. *)
Record inode_layout (fs : ext2_filsys) : Prop := InodeLayout {
  il_ipg : 0 < s_inodes_per_group (fs_super fs) < 2^16;
  il_groups : 0 ≤ fs_group_desc_count fs;
  il_count : s_inodes_count (fs_super fs) =
    fs_group_desc_count fs * s_inodes_per_group (fs_super fs);
  il_range : s_inodes_count (fs_super fs) < 2^31;
}.

(** The counters are those of the used inodes [I] and the directories [D]. *)
Record inodes_ok (fs : ext2_filsys) (gd : list Z) (I D : gset Z) : Prop := InodesOk {
  io_dirs : D ⊆ I;
  io_free g : 0 ≤ g < fs_group_desc_count fs →
    gd_val fs gd GdFreeInodes g = zsize (group_inodes fs g ∖ I);
  io_used_dirs g : 0 ≤ g < fs_group_desc_count fs →
    gd_val fs gd GdUsedDirs g = zsize (group_inodes fs g ∩ D);
  io_unused g : 0 ≤ g < fs_group_desc_count fs → ext2fs_has_group_desc_csum fs = true →
    gd_val fs gd GdItableUnused g ≤ s_inodes_per_group (fs_super fs) ∧
    ∀ x, (g + 1) * s_inodes_per_group (fs_super fs) - gd_val fs gd GdItableUnused g < x
         ≤ (g + 1) * s_inodes_per_group (fs_super fs) → x ∉ I;
  io_total : s_free_inodes_count (fs_super fs) =
    zsize (zrange 1 (s_inodes_count (fs_super fs)) ∖ I);
}.

Lemma group_of_ino_spec fs ino : inode_layout fs → 1 ≤ ino ≤ s_inodes_count (fs_super fs) →
  0 ≤ ext2fs_group_of_ino fs ino < fs_group_desc_count fs ∧
  ∀ g, ino ∈ group_inodes fs g ↔ g = ext2fs_group_of_ino fs ino.
Proof.
  intros [Hipg Hg Hc Hr] Hino. unfold ext2fs_group_of_ino, group_inodes.
  set (p := s_inodes_per_group (fs_super fs)) in *. rewrite u32_small; [|lia].
  pose proof (Z.div_mod (ino - 1) p). pose proof (Z.mod_pos_bound (ino - 1) p).
  split; [nia|]. intros g. rewrite elem_of_zrange. split; [|intros ->; nia].
  intros Hx. symmetry. apply div_interval; [lia|]. nia.
Qed.

Lemma gd_bits_16 sb f : f = GdFreeInodes ∨ f = GdUsedDirs ∨ f = GdItableUnused ∨ f = GdFreeBlocks → 2^16 ≤ 2 ^ gd_bits sb f.
Proof.
  intros Hf. apply Z.pow_le_mono_r; [lia|].
  destruct Hf as [->|[->|[->| ->]]]; unfold gd_bits; simpl; destruct ext2fs_has_feature_64bit; lia.
Qed.

Lemma same_super_layout fs fs' : same_fs fs fs' → 
  s_inodes_per_group (fs_super fs') = s_inodes_per_group (fs_super fs) ∧
  s_inodes_count (fs_super fs') = s_inodes_count (fs_super fs).
Proof.
  intros [Hs _ _ _]. unfold s_inodes_per_group, s_inodes_count.
  rewrite !(same_super_get (fs_super fs) (fs_super fs')) //; lia.
Qed.

(** The sets after [inuse] is 1 (taken) or -1 (given back). *)
Definition taken (inuse x : Z) (I : gset Z) : gset Z :=
  if decide (0 < inuse) then {[x]} ∪ I else I ∖ {[x]}.

Lemma taken_1 x I : taken 1 x I = {[x]} ∪ I.
Proof. reflexivity. Qed.
Lemma taken_neg x I : taken (-1) x I = I ∖ {[x]}.
Proof. reflexivity. Qed.

(** A use that makes sense: a free inode is taken, a used one given back. *)
Definition use_ok (inuse x : Z) (I : gset Z) : Prop :=
  (inuse = 1 ∧ x ∉ I) ∨ (inuse = -1 ∧ x ∈ I).

Lemma free_taken (R I : gset Z) x inuse : use_ok inuse x I →
  zsize (R ∖ taken inuse x I) = zsize (R ∖ I) - (if decide (x ∈ R) then inuse else 0).
Proof.
  intros [[-> Hx]|[-> Hx]].
  - by rewrite taken_1 free_take.
  - rewrite taken_neg free_give //. case_decide; lia.
Qed.

(** Likewise for the directories, which are counted. *)
Lemma dirs_taken (R D : gset Z) x inuse : use_ok inuse x D →
  zsize (R ∩ taken inuse x D) = zsize (R ∩ D) + (if decide (x ∈ R) then inuse else 0).
Proof.
  intros [[-> Hx]|[-> Hx]]; rewrite ?taken_1 ?taken_neg;
    case_decide as HR.
  - rewrite -(zsize_add x); [|set_solver]. f_equal. set_solver.
  - rewrite Z.add_0_r. f_equal. set_solver.
  - replace (zsize (R ∩ D) + -1) with (zsize (R ∩ D) - 1) by lia.
    rewrite -(zsize_remove x); [|set_solver]. f_equal. set_solver.
  - rewrite Z.add_0_r. f_equal. apply set_eq. intros y. destruct (decide (y = x)) as [->|]; set_solver.
Qed.

Lemma zsize_free fs g I : inode_layout fs → 0 ≤ zsize (group_inodes fs g ∖ I) < 2^16.
Proof.
  intros [Hipg _ _ _]. 
  pose proof (zsize_bound (g * s_inodes_per_group (fs_super fs) + 1) (s_inodes_per_group (fs_super fs))
    (group_inodes fs g ∖ I) ltac:(lia)) as H.
  assert (0 ≤ zsize (group_inodes fs g ∖ I) ≤ s_inodes_per_group (fs_super fs)); [apply H; unfold group_inodes; set_solver|lia].
Qed.

Lemma zsize_dirs fs g D : inode_layout fs → 0 ≤ zsize (group_inodes fs g ∩ D) < 2^16.
Proof.
  intros [Hipg _ _ _]. 
  pose proof (zsize_bound (g * s_inodes_per_group (fs_super fs) + 1) (s_inodes_per_group (fs_super fs))
    (group_inodes fs g ∩ D) ltac:(lia)) as H.
  assert (0 ≤ zsize (group_inodes fs g ∩ D) ≤ s_inodes_per_group (fs_super fs)); [apply H; unfold group_inodes; set_solver|lia].
Qed.

(** The fields that the allocation of an inode writes. *)
Definition inode_fields (f : gd_field) : Prop :=
  f = GdFreeInodes ∨ f = GdUsedDirs ∨ f = GdFlags ∨ f = GdItableUnused ∨ f = GdChecksum.

(** The descriptor of the inode's group, with the count of unused inodes and
    the checksum. *)
Lemma inode_stats_unused fs gd g ino :
  gd_ok fs gd → super_ok (fs_super fs) → inode_layout fs → 0 ≤ g < fs_group_desc_count fs →
  ino ∈ group_inodes fs g → gd_val fs gd GdItableUnused g ≤ s_inodes_per_group (fs_super fs) →
  let ipg := s_inodes_per_group (fs_super fs) in
  let unused := gd_val fs gd GdItableUnused g in
  ∃ gd', (u ← ext2fs_bg_itable_unused fs g;
          fs ← (if bool_decide (u32 (ipg - u + g * ipg + 1) ≤ ino)
                then ext2fs_bg_itable_unused_set fs g (u32 (g * ipg + ipg - ino)) else Some fs);
          ext2fs_group_desc_csum_set fs g) = Some (set_group_desc gd' fs) ∧
    gd_ok (set_group_desc gd' fs) gd' ∧
    ext2fs_group_desc_csum_verify (set_group_desc gd' fs) g = Some true ∧
    gd_val fs gd' GdItableUnused g = Z.min unused ((g + 1) * ipg - ino) ∧
    gd_same_but fs gd gd' g (λ f, f = GdItableUnused ∨ f = GdChecksum).
Proof.
  intros Hok Hsb Hil Hg Hino Hun ipg unused. fold ipg unused in Hun.
  pose proof Hil as [Hipg Hgc Hc Hr]. fold ipg in Hipg, Hc.
  unfold group_inodes in Hino. fold ipg in Hino. rewrite elem_of_zrange in Hino.
  pose proof (gd_val_range fs gd Hok GdItableUnused g) as [Hu0 _]. fold unused in Hu0.
  pose proof (gd_read_val fs gd Hok GdItableUnused g Hg : ext2fs_bg_itable_unused fs g = _) as Hrd. rewrite Hrd. cbn [mbind option_bind].
  fold unused. assert (g * ipg + ipg < 2^31) by nia. assert (0 ≤ g * ipg) by nia.
  rewrite (u32_small (ipg - unused + g * ipg + 1)); [|lia].
  decide_case (ipg - unused + g * ipg + 1 ≤ ino) as Hle.
  - rewrite (u32_small (g * ipg + ipg - ino)); [|lia].
    destruct (gd_write_val fs gd Hok StoreItableUnused g (g * ipg + ipg - ino)) as (gd1 & Hw & Hok1 & Hv1 & Hs1); [done| |].
    { cbn [gd_target gd_result]. split; [lia|]. eapply Z.lt_le_trans; [|apply gd_bits_16; tauto]. lia. }
    cbn [gd_write gd_target gd_result] in *. rewrite Hw. cbn [mbind option_bind].
    destruct (gd_csum_set (set_group_desc gd1 fs) gd1 Hok1 g Hsb Hg) as (gd2 & Hc2 & Hok2 & Hv2 & Hs2).
    exists gd2. split; [exact Hc2|]. split; [exact Hok2|]. split; [exact Hv2|]. split.
    + etrans; [apply Hs2; [done|by right]|]. etrans; [exact Hv1|]. lia.
    + eapply gd_same_but_trans; [exact Hs1|exact Hs2].
  - destruct (gd_csum_set fs gd Hok g Hsb Hg) as (gd2 & Hc2 & Hok2 & Hv2 & Hs2).
    exists gd2. split; [exact Hc2|]. split; [exact Hok2|]. split; [exact Hv2|]. split.
    + etrans; [apply Hs2; [done|by right]|]. fold unused. lia.
    + eapply gd_same_but_weaken; [|exact Hs2]. tauto.
Qed.

(** The number of directories. *)
Lemma inode_stats_dirs fs gd g D D' inuse isdir :
  gd_ok fs gd → inode_layout fs → 0 ≤ g < fs_group_desc_count fs →
  gd_val fs gd GdUsedDirs g = zsize (group_inodes fs g ∩ D) →
  zsize (group_inodes fs g ∩ D') = zsize (group_inodes fs g ∩ D) + (if decide (isdir ≠ 0) then inuse else 0) →
  ∃ gd', (if bool_decide (isdir ≠ 0) then
      d ← ext2fs_bg_used_dirs_count fs g; ext2fs_bg_used_dirs_count_set fs g (u32 (d + inuse))
      else Some fs) = Some (set_group_desc gd' fs) ∧ gd_ok (set_group_desc gd' fs) gd' ∧
      gd_val fs gd' GdUsedDirs g = zsize (group_inodes fs g ∩ D') ∧
      gd_same_but fs gd gd' g (λ f, f = GdUsedDirs).
Proof.
  intros Hok Hil Hg Hold Hdirs. pose proof (zsize_dirs fs g D' Hil) as Hb3.
  decide_case (isdir ≠ 0) as Hd.
  - pose proof (gd_read_val fs gd Hok GdUsedDirs g Hg : ext2fs_bg_used_dirs_count fs g = _) as Hrd1. rewrite Hrd1.
    cbn [mbind option_bind]. rewrite Hold.
    rewrite Hdirs in Hb3. rewrite (u32_small (zsize (group_inodes fs g ∩ D) + inuse)); [|lia].
    destruct (gd_write_val fs gd Hok StoreUsedDirs g (zsize (group_inodes fs g ∩ D) + inuse)) as (gd2 & Hw2 & Hok2 & Hv2 & Hs2); [done| |].
    { cbn [gd_target gd_result]. split; [lia|]. eapply Z.lt_le_trans; [|apply gd_bits_16; tauto]. lia. }
    exists gd2. split; [exact Hw2|]. split; [exact Hok2|]. split; [|exact Hs2].
    etrans; [exact Hv2|]. by rewrite Hdirs.
  - exists gd. assert (set_group_desc gd fs = fs) as Heq.
    { destruct fs, Hok. unfold set_group_desc. cbn in *. by subst. }
    rewrite Heq. split; [done|]. split; [exact Hok|]. split; [|by intros f' g' ? ?].
    rewrite Hold Hdirs. lia.
Qed.

(** The unused inodes and the checksum, when there are checksums. *)
Lemma inode_stats_csum fs gd g ino ipg :
  ipg = s_inodes_per_group (fs_super fs) → gd_ok fs gd → super_ok (fs_super fs) → inode_layout fs → 0 ≤ g < fs_group_desc_count fs →
  ino ∈ group_inodes fs g →
  (ext2fs_has_group_desc_csum fs = true → gd_val fs gd GdItableUnused g ≤ s_inodes_per_group (fs_super fs)) →
  ∃ gd', (if ext2fs_has_group_desc_csum fs then
      u ← ext2fs_bg_itable_unused fs g;
      fs ← (if bool_decide (u32 (ipg - u + g * ipg + 1) ≤ ino)
            then ext2fs_bg_itable_unused_set fs g (u32 (g * ipg + ipg - ino)) else Some fs);
      ext2fs_group_desc_csum_set fs g
      else Some fs) = Some (set_group_desc gd' fs) ∧ gd_ok (set_group_desc gd' fs) gd' ∧
      ext2fs_group_desc_csum_verify (set_group_desc gd' fs) g = Some true ∧
      (ext2fs_has_group_desc_csum fs = true → gd_val fs gd' GdItableUnused g =
         Z.min (gd_val fs gd GdItableUnused g) ((g + 1) * ipg - ino)) ∧
      gd_same_but fs gd gd' g (λ f, f = GdItableUnused ∨ f = GdChecksum).
Proof.
  intros -> Hok Hsb Hil Hg Hino Hun. destruct (ext2fs_has_group_desc_csum fs) eqn:Hcs.
  - destruct (inode_stats_unused fs gd g ino Hok Hsb Hil Hg Hino (Hun eq_refl)) as (gd4 & E & ? & ? & Hv4 & ?).
    exists gd4. split; [exact E|]. by split_and!.
  - exists gd. assert (set_group_desc gd fs = fs) as Heq.
    { destruct fs, Hok. unfold set_group_desc. cbn in *. by subst. }
    rewrite Heq. split_and!; [done|done| |done|by intros f' g' ? ?].
    unfold ext2fs_group_desc_csum_verify. by rewrite Hcs.
Qed.

(** The values after the bookkeeping of an inode. *)
Lemma inode_stats_vals fs gd I D D' ino inuse isdir :
  gd_ok fs gd → super_ok (fs_super fs) → inode_layout fs → inodes_ok fs gd I D →
  1 ≤ ino ≤ s_inodes_count (fs_super fs) → use_ok inuse ino I →
  let g := ext2fs_group_of_ino fs ino in
  zsize (group_inodes fs g ∩ D') = zsize (group_inodes fs g ∩ D) + (if decide (isdir ≠ 0) then inuse else 0) →
  ∃ fs' gd', inode_stats fs g ino inuse isdir = Some fs' ∧
    gd_ok fs' gd' ∧ super_ok (fs_super fs') ∧ same_fs (set_group_desc gd' fs) fs' ∧
    gd_val fs gd' GdFreeInodes g = zsize (group_inodes fs g ∖ I) - inuse ∧
    gd_val fs gd' GdUsedDirs g = zsize (group_inodes fs g ∩ D') ∧
    gd_val fs gd' GdFlags g = Z.land (gd_val fs gd GdFlags g) (Z.lnot EXT2_BG_INODE_UNINIT) ∧
    (ext2fs_has_group_desc_csum fs = true → gd_val fs gd' GdItableUnused g =
       Z.min (gd_val fs gd GdItableUnused g) ((g + 1) * s_inodes_per_group (fs_super fs) - ino)) ∧
    gd_same_but fs gd gd' g inode_fields ∧
    ext2fs_group_desc_csum_verify fs' g = Some true ∧
    s_free_inodes_count (fs_super fs') = u32 (s_free_inodes_count (fs_super fs) - inuse).
Proof.
  intros Hok Hsb Hil Hio Hino Hu g Hdirs.
  destruct (group_of_ino_spec fs ino Hil Hino) as [Hg Hgi]. fold g in Hg, Hgi.
  pose proof Hil as [Hipg Hgc Hc Hr]. set (ipg := s_inodes_per_group (fs_super fs)) in *.
  assert (Hb2 : 0 ≤ zsize (group_inodes fs g ∖ I) - inuse < 2^16).
  { pose proof (zsize_free fs g (taken inuse ino I) Hil) as Hb. rewrite free_taken // decide_True in Hb; [done|by apply Hgi]. }
  unfold inode_stats. fold ipg.
  pose proof (gd_read_val fs gd Hok GdFreeInodes g Hg : ext2fs_bg_free_inodes_count fs g = _) as Hrd. rewrite Hrd. cbn [mbind option_bind].
  rewrite (io_free _ _ _ _ Hio g Hg).
  rewrite (u32_small (zsize (group_inodes fs g ∖ I) - inuse)); [|lia].
  destruct (gd_write_val fs gd Hok StoreFreeInodes g (zsize (group_inodes fs g ∖ I) - inuse)) as (gd1 & Hw1 & Hok1 & Hv1 & Hs1); [done| |].
  { cbn [gd_target gd_result]. split; [lia|]. eapply Z.lt_le_trans; [|apply gd_bits_16; tauto]. lia. }
  cbn [gd_write gd_target gd_result] in *. rewrite Hw1. cbn [mbind option_bind].
  set (fs1 := set_group_desc gd1 fs) in *.
  destruct (inode_stats_dirs fs1 gd1 g D D' inuse isdir) as (gd2 & -> & Hok2 & Hv2 & Hs2);
    [exact Hok1|by constructor|exact Hg| |exact Hdirs|].
  { etrans; [apply (Hs1 GdUsedDirs g); [exact Hg|by right]|]. by apply (io_used_dirs _ _ _ _ Hio). }
  cbn [mbind option_bind]. change (set_group_desc gd2 fs1) with (set_group_desc gd2 fs) in *.
  set (fs2 := set_group_desc gd2 fs) in *.
  destruct (gd_flags_clear fs2 gd2 Hok2 g EXT2_BG_INODE_UNINIT Hg) as (gd3 & -> & Hok3 & Hv3 & Hs3).
  cbn [mbind option_bind]. set (fs3 := set_group_desc gd3 fs) in *.
  change (set_group_desc gd3 fs2) with fs3 in *.
  assert (Hs13 : gd_same_but fs gd gd3 g (λ f, f = GdFreeInodes ∨ f = GdUsedDirs ∨ f = GdFlags)).
  { intros f' g' Hg' Hn. etrans; [apply (Hs3 f' g'); [done|naive_solver]|].
    etrans; [apply (Hs2 f' g'); [done|naive_solver]|]. apply Hs1; [done|naive_solver]. }
  destruct (inode_stats_csum fs3 gd3 g ino ipg) as (gd4 & -> & Hok4 & Hv4 & Hun4 & Hs4);
    [reflexivity|exact Hok3|exact Hsb|by constructor|exact Hg|by apply Hgi| |].
  { intros Hcs. destruct (io_unused _ _ _ _ Hio g Hg Hcs) as [Hun _].
    assert (gd_val fs3 gd3 GdItableUnused g = gd_val fs gd GdItableUnused g) as ->; [|exact Hun].
    apply (Hs13 GdItableUnused g); [exact Hg|right; naive_solver]. }
  cbn [mbind option_bind]. change (set_group_desc gd4 fs3) with (set_group_desc gd4 fs) in *.
  set (fs4 := set_group_desc gd4 fs) in *.
  set (sb' := s_free_inodes_count_set (fs_super fs4) (u32 (s_free_inodes_count (fs_super fs4) - inuse))).
  eexists _, gd4. split; [reflexivity|]. set (fs' := ext2fs_mark_ib_dirty _).
  assert (Hlen : length (fs_super fs) = SUPERBLOCK_SIZE) by apply Hsb.
  assert (Hss : same_super (fs_super fs) sb') by (apply same_super_set; [done|lia]).
  assert (Hsf : same_fs fs4 fs') by (constructor; [exact Hss|done..]).
  split; [exact (same_fs_gd_ok fs4 fs' gd4 Hsf Hok4)|].
  split; [split; [apply set_le_bytes, Hsb|apply Hss]|]. split; [exact Hsf|].
  assert (H4 : ∀ f, f ≠ GdItableUnused → f ≠ GdChecksum → gd_val fs gd4 f g = gd_val fs gd3 f g).
  { intros f ? ?. apply (Hs4 f g); [done|]. right. naive_solver. }
  assert (H3 : ∀ f, f ≠ GdFlags → gd_val fs gd3 f g = gd_val fs gd2 f g).
  { intros f ?. apply (Hs3 f g); [done|by right]. }
  split_and!.
  - rewrite H4 // H3 //. etrans; [apply (Hs2 GdFreeInodes g); [done|by right]|exact Hv1].
  - by rewrite H4 // H3.
  - rewrite H4 //. etrans; [exact Hv3|]. f_equal. etrans; [apply (Hs2 GdFlags g); [done|by right]|].
    apply Hs1; [done|by right].
  - intros Hcs. etrans; [exact (Hun4 Hcs)|]. f_equal. apply (Hs13 GdItableUnused g); [done|right; naive_solver].
  - intros f' g' Hg' Hn. etrans; [apply (Hs4 f' g'); [done|]|apply Hs13; [done|]]; unfold inode_fields in Hn; naive_solver.
  - rewrite (same_fs_verify fs4 fs' gd4) //.
  - unfold fs', s_free_inodes_count, ext2fs_mark_ib_dirty, ext2fs_mark_super_dirty, set_flags. cbn [fs_super set_super].
    unfold sb', s_free_inodes_count_set. rewrite get_set_le; [|by apply super_in].
    change (256 ^ Z.of_nat 4) with (2^32). apply u32_small, u32_range.
Qed.

(** The directories after [ino] is taken or given back. *)
Definition taken_dirs (inuse isdir ino : Z) (D : gset Z) : gset Z :=
  if decide (isdir = 0) then D else taken inuse ino D.

Lemma dirs_taken_dirs (R D : gset Z) ino inuse isdir :
  (isdir ≠ 0 → use_ok inuse ino D) →
  zsize (R ∩ taken_dirs inuse isdir ino D) =
  zsize (R ∩ D) + (if decide (ino ∈ R ∧ isdir ≠ 0) then inuse else 0).
Proof.
  intros Hu. unfold taken_dirs. destruct (decide (isdir = 0)) as [->|Hd].
  - case_decide; [naive_solver|lia].
  - rewrite dirs_taken; [|by apply Hu]. f_equal. repeat case_decide; naive_solver.
Qed.

(** The counters stay in step with the bitmaps. *)
Lemma inode_stats_ok fs gd I D ino inuse isdir :
  gd_ok fs gd → super_ok (fs_super fs) → inode_layout fs → inodes_ok fs gd I D →
  1 ≤ ino ≤ s_inodes_count (fs_super fs) → use_ok inuse ino I →
  (isdir ≠ 0 → use_ok inuse ino D) → (isdir = 0 → ino ∉ D) →
  let g := ext2fs_group_of_ino fs ino in
  ∃ fs' gd', inode_stats fs g ino inuse isdir = Some fs' ∧
    gd_ok fs' gd' ∧ super_ok (fs_super fs') ∧ same_fs (set_group_desc gd' fs) fs' ∧
    inodes_ok fs' gd' (taken inuse ino I) (taken_dirs inuse isdir ino D) ∧
    gd_same_but fs gd gd' g inode_fields ∧
    ext2fs_group_desc_csum_verify fs' g = Some true ∧
    Z.land (gd_val fs gd' GdFlags g) EXT2_BG_INODE_UNINIT = 0.
Proof.
  intros Hok Hsb Hil Hio Hino Hu Hud Hnd g. set (D' := taken_dirs inuse isdir ino D).
  destruct (group_of_ino_spec fs ino Hil Hino) as [Hg Hgi]. fold g in Hg, Hgi.
  destruct (inode_stats_vals fs gd I D D' ino inuse isdir Hok Hsb Hil Hio Hino Hu) as
    (fs' & gd' & Hst & Hok' & Hsb' & Hsf & Hfree & Hdirs & Hflags & Hun & Hsame & Hcs & Htot).
  { fold g. unfold D'. rewrite dirs_taken_dirs //. f_equal. specialize (Hgi g). repeat case_decide; naive_solver. }
  fold g in Hst, Hfree, Hdirs, Hflags, Hun, Hsame, Hcs.
  exists fs', gd'. split_and!; try done; last first.
  { rewrite Hflags -Z.land_assoc. by rewrite (Z.land_comm (Z.lnot _)) Z.land_lnot_diag Z.land_0_r. }
  destruct (same_super_layout _ _ Hsf) as [Eipg Ecount]. cbn [fs_super set_group_desc] in Eipg, Ecount.
  assert (Hval : ∀ f g', gd_val fs' gd' f g' = gd_val fs gd' f g').
  { intros f g'. exact (same_fs_val _ fs' gd' f g' Hsf). }
  assert (Hgrp : ∀ g', group_inodes fs' g' = group_inodes fs g') by (intros; unfold group_inodes; by rewrite Eipg).
  assert (Hcount : fs_group_desc_count fs' = fs_group_desc_count fs) by exact (sf_count _ _ Hsf).
  assert (Hcsum : ext2fs_has_group_desc_csum fs' = ext2fs_has_group_desc_csum fs) by exact (same_fs_csum _ fs' Hsf).
  assert (Hother : ∀ g', g' ≠ g → ino ∉ group_inodes fs g') by (intros g' Hne Hin; by apply Hgi in Hin).
  assert (Hin : ino ∈ group_inodes fs g) by by apply Hgi.
  constructor.
  - unfold D', taken_dirs. pose proof (io_dirs _ _ _ _ Hio) as HDI.
    destruct (decide (isdir = 0)) as [Hd|Hd]; destruct Hu as [[-> ?]|[-> ?]]; rewrite ?taken_1 ?taken_neg; set_solver.
  - intros g' Hg'. rewrite Hcount in Hg'. rewrite Hval Hgrp free_taken //.
    destruct (decide (g' = g)) as [->|Hne].
    + rewrite Hfree decide_True //.
    + rewrite Hsame //; [|by left]. rewrite decide_False; [|by apply Hother]. rewrite Z.sub_0_r.
      by apply (io_free _ _ _ _ Hio).
  - intros g' Hg'. rewrite Hcount in Hg'. rewrite Hval Hgrp. destruct (decide (g' = g)) as [->|Hne]; [done|].
    rewrite Hsame //; [|by left]. unfold D'. rewrite dirs_taken_dirs //.
    rewrite decide_False; [|intros [? _]; by eapply Hother]. rewrite Z.add_0_r. by apply (io_used_dirs _ _ _ _ Hio).
  - intros g' Hg' Hc. rewrite Hcount in Hg'. rewrite Hcsum in Hc. rewrite Hval Eipg.
    destruct (io_unused _ _ _ _ Hio g' Hg' Hc) as [Hle Hfr]. destruct (decide (g' = g)) as [->|Hne].
    + rewrite (Hun Hc). split; [lia|]. intros x Hx. 
      assert (HxI : x ∉ I) by (apply Hfr; lia). destruct Hu as [[-> ?]|[-> ?]]; rewrite ?taken_1 ?taken_neg; [|set_solver].
      rewrite elem_of_union elem_of_singleton. intros [->|?]; [lia|done].
    + rewrite Hsame //; [|by left]. split; [done|]. intros x Hx. specialize (Hfr x Hx).
      destruct Hu as [[-> ?]|[-> ?]]; rewrite ?taken_1 ?taken_neg; [|set_solver].
      rewrite elem_of_union elem_of_singleton. intros [->|?]; [|done].
      apply (Hother g' Hne). unfold group_inodes. rewrite elem_of_zrange.
      pose proof (gd_val_range fs gd Hok GdItableUnused g') as [? _]. lia.
  - rewrite Htot Ecount (io_total _ _ _ _ Hio) free_taken //. rewrite decide_True; [|rewrite elem_of_zrange; lia].
    apply u32_small. pose proof (il_range _ Hil) as Hr32.
    pose proof (zsize_bound 1 (s_inodes_count (fs_super fs)) (zrange 1 (s_inodes_count (fs_super fs)) ∖ taken inuse ino I)
      ltac:(lia) ltac:(set_solver)) as Hb.
    rewrite free_taken // decide_True in Hb; [|rewrite elem_of_zrange; lia]. lia.
Qed.

(** ** Theorems on inodes *)
Section inodes.
Context {ML : Malloc}.

(** The bitmap [map] has the inodes of [fs]. *)
Definition covers_inodes (fs : ext2_filsys) (map : generic_bitmap) : Prop :=
  gen_cluster_bits map = 0 ∧ b_start (gen_view map) ≤ 1 ∧
  s_inodes_count (fs_super fs) ≤ b_end (gen_view map).

Lemma covers_in fs map x : covers_inodes fs map → 1 ≤ x ≤ s_inodes_count (fs_super fs) →
  gen_in map x ∧ gen_bit map x = x.
Proof. intros (Hc & ? & ?) Hx. unfold gen_in, gen_bit. rewrite Hc Z.shiftr_0_r. lia. Qed.

(** C17: Taking a free inode ([inuse] 1) or giving back a used one (-1), with
    [isdir] saying whether it is a directory, changes the bitmap at that inode
    only and keeps all the counters in step with it: the free inodes and
    directories of every group and the free inodes of the file system; the
    inodes counted as never used stay free.  The descriptor of the group is no
    longer marked as uninitialised and its checksum is right; the descriptors
    of the other groups, and the other fields of this one, are untouched. *)
Theorem inode_alloc_stats_correct a gd I D ino inuse isdir :
  gd_ok (a_fs a) gd → super_ok (fs_super (a_fs a)) → inode_layout (a_fs a) →
  inodes_ok (a_fs a) gd I D → covers_inodes (a_fs a) (inode_map a) →
  1 ≤ ino ≤ s_inodes_count (fs_super (a_fs a)) → use_ok inuse ino I →
  (isdir ≠ 0 → use_ok inuse ino D) → (isdir = 0 → ino ∉ D) →
  let g := ext2fs_group_of_ino (a_fs a) ino in
  hoare (generic_at (inode_map a) I) (ext2fs_inode_alloc_stats2 a ino inuse isdir)
    (λ a', ⌜∃ gd', gd_ok (a_fs a') gd' ∧ super_ok (fs_super (a_fs a')) ∧
        inode_map a' = inode_map a ∧ block_map a' = block_map a ∧
        same_fs (set_group_desc gd' (a_fs a)) (a_fs a') ∧
        inodes_ok (a_fs a') gd' (taken inuse ino I) (taken_dirs inuse isdir ino D) ∧
        gd_same_but (a_fs a) gd gd' g inode_fields ∧
        ext2fs_group_desc_csum_verify (a_fs a') g = Some true ∧
        Z.land (gd_val (a_fs a) gd' GdFlags g) EXT2_BG_INODE_UNINIT = 0⌝ ∗
      generic_at (inode_map a) (taken inuse ino I))%I.
Proof.
  intros Hok Hsb Hil Hio Hcov Hino Hu Hud Hnd g. apply wp_adequate. iIntros "Hm".
  destruct (inode_stats_ok (a_fs a) gd I D ino inuse isdir Hok Hsb Hil Hio Hino Hu Hud Hnd)
    as (fs' & gd' & Hst & ? & ? & ? & ? & ? & ? & ?).
  destruct (covers_in _ _ _ Hcov Hino) as [Hin Hbit]. pose proof (il_range _ Hil).
  unfold ext2fs_inode_alloc_stats2. rewrite bool_decide_eq_false_2; [|lia].
  assert (Hpost : ⊢ generic_at (inode_map a) (taken inuse ino I) -∗
    wp (fs ← lift (inode_stats (a_fs a) (ext2fs_group_of_ino (a_fs a) ino) ino inuse isdir); mret (set_fs fs a))
      (λ a', ⌜∃ gd', gd_ok (a_fs a') gd' ∧ super_ok (fs_super (a_fs a')) ∧
        inode_map a' = inode_map a ∧ block_map a' = block_map a ∧
        same_fs (set_group_desc gd' (a_fs a)) (a_fs a') ∧
        inodes_ok (a_fs a') gd' (taken inuse ino I) (taken_dirs inuse isdir ino D) ∧
        gd_same_but (a_fs a) gd gd' g inode_fields ∧
        ext2fs_group_desc_csum_verify (a_fs a') g = Some true ∧
        Z.land (gd_val (a_fs a) gd' GdFlags g) EXT2_BG_INODE_UNINIT = 0⌝ ∗
      generic_at (inode_map a) (taken inuse ino I))%I).
  { iIntros "Hm". rewrite Hst. cbn [lift]. wp_steps. iFrame "Hm". iPureIntro. exists gd'. done. }
  destruct Hu as [[-> Hx]|[-> Hx]].
  - rewrite bool_decide_eq_true_2 //. wp_apply (mark_generic_bmap_spec with "Hm"); [lia|].
    iIntros (v _) "Hm". rewrite marked_in // Hbit -taken_1. by iApply Hpost.
  - rewrite bool_decide_eq_false_2 //. wp_apply (unmark_generic_bmap_spec with "Hm"); [lia|].
    iIntros (v _) "Hm". rewrite unmarked_in // Hbit -taken_neg. by iApply Hpost.
Qed.
End inodes.

(** ** A file system of 4 groups with 16 inodes and 32 blocks each *)
Definition alloc_super : list Z := 
  set32 84 11 (set32 16 61 (set32 12 95 (set32 40 16 (set32 0 64 csum_super)))).

(** A descriptor with these counters, unused inodes and flags. *)
Definition demo_desc (blocks inodes dirs unused flags : Z) : list Z :=
  set16 28 unused (set16 18 flags (set16 16 dirs (set16 14 inodes (set16 12 blocks (replicate 32 0))))).
Definition alloc_gd : list Z :=
  demo_desc 29 13 1 10 0 ++ demo_desc 31 16 0 16 1 ++ demo_desc 32 16 0 16 3 ++ demo_desc 3 16 0 16 1.
Definition alloc_demo : alloc_fs :=
  AllocFs (Filsys EXT2_ET_MAGIC_EXT2FS_FILSYS alloc_super 0 1024 4 1 2 0 0 0x12345678 (Some alloc_gd) (λ _, None))
    (IsBitmap32 (Bitmap32 4096 EXT2_ET_MAGIC_INODE_BITMAP 1 64 64 None 8192 8))
    (IsBitmap64 (Bitmap64 4096 EXT2_ET_MAGIC_BLOCK_BITMAP64 ext2fs_blkmap64_rbtree (Bmap64 1 99 127 8192) 0 None)).
Definition used_inodes : gset Z := {[ 1; 2; 3 ]}.
Definition used_blocks : gset Z := {[ 1; 2; 3; 40 ]}.

Lemma alloc_super_ok : super_ok alloc_super.
Proof. split; [do 5 apply set_le_bytes; apply csum_super_ok|done]. Qed.

Lemma alloc_gd_ok : gd_ok (a_fs alloc_demo) alloc_gd.
Proof. constructor; try done. apply (bool_decide_unpack _). vm_compute. exact I. Qed.

Lemma four_groups (P : Z → Prop) : P 0 → P 1 → P 2 → P 3 → ∀ g, 0 ≤ g < 4 → P g.
Proof. intros ???? g Hg. assert (g = 0 ∨ g = 1 ∨ g = 2 ∨ g = 3) as [->|[->|[->| ->]]] by lia; done. Qed.

Lemma alloc_inodes_ok : inodes_ok (a_fs alloc_demo) alloc_gd used_inodes {[ 2 ]}.
Proof.
  constructor.
  - unfold used_inodes. set_solver.
  - apply four_groups; vm_compute; reflexivity.
  - apply four_groups; vm_compute; reflexivity.
  - assert (∀ g, 0 ≤ g < 4 → gd_val (a_fs alloc_demo) alloc_gd GdItableUnused g ≤ 16 ∧
      3 ≤ (g + 1) * 16 - gd_val (a_fs alloc_demo) alloc_gd GdItableUnused g) as Hun.
    { apply four_groups; vm_compute; split; discriminate. }
    intros g Hg _. change (s_inodes_per_group _) with 16. destruct (Hun g Hg) as [H1 H2]. split; [exact H1|].
    intros x Hx. unfold used_inodes. set_solver by lia.
  - vm_compute; reflexivity.
Qed.

Lemma inode_alloc_stats_witness :
  hoare (ML := bump_malloc) (generic_at (inode_map alloc_demo) used_inodes)
    (ext2fs_inode_alloc_stats2 alloc_demo 4 1 1)
    (λ a', ⌜∃ gd', gd_ok (a_fs a') gd' ∧ super_ok (fs_super (a_fs a')) ∧
        inode_map a' = inode_map alloc_demo ∧ block_map a' = block_map alloc_demo ∧
        same_fs (set_group_desc gd' (a_fs alloc_demo)) (a_fs a') ∧
        inodes_ok (a_fs a') gd' (taken 1 4 used_inodes) (taken_dirs 1 1 4 {[ 2 ]}) ∧
        gd_same_but (a_fs alloc_demo) alloc_gd gd' (ext2fs_group_of_ino (a_fs alloc_demo) 4) inode_fields ∧
        ext2fs_group_desc_csum_verify (a_fs a') (ext2fs_group_of_ino (a_fs alloc_demo) 4) = Some true ∧
        Z.land (gd_val (a_fs alloc_demo) gd' GdFlags (ext2fs_group_of_ino (a_fs alloc_demo) 4))
          EXT2_BG_INODE_UNINIT = 0⌝ ∗
      generic_at (inode_map alloc_demo) (taken 1 4 used_inodes))%I.
Proof.
  apply (inode_alloc_stats_correct (ML := bump_malloc) alloc_demo alloc_gd used_inodes {[ 2 ]} 4 1 1);
    [exact alloc_gd_ok|exact alloc_super_ok|by constructor|exact alloc_inodes_ok|done|done| | |done];
    intros; left; (split; [done|unfold used_inodes; set_solver]).
Defined.
