(* ===== verification/BlockProps.v ===== *)
(** * BlockProps: taking and giving back blocks

    The bookkeeping of alloc_stats.c for blocks, with clusters of any size:
    [blocks_ok] says that the free count of every group is the number of its
    clear clusters and the free count of the super block the number of all
    clear clusters, in blocks.  Both the function for one block and the one for
    a range, which goes over the groups of the range, preserve it. *)
From S2P Require Import Prelude.
From S2P Require Import Bytes.
From S2P Require Import Super.
From S2P Require Import Crc.
From S2P Require Import Blknum.
From S2P Require Import Csum.
From S2P Require Import CsumProps.
From S2P Require Import Mem.
From S2P Require Import SepLogic.
From S2P Require Import ExtMem.
From S2P Require Import Bitmap.
From S2P Require Import BlkmapRB.
From S2P Require Import GenBitmap.
From S2P Require Import GenBitmapSpec.
From S2P Require Import BitmapProps.
From S2P Require Import Bitmaps.
From S2P Require Import Alloc.
From S2P Require Import GroupSpec.
From S2P Require Import AllocProps.
#[local] Open Scope Z_scope.

(** ** Blocks *)
Definition ratio (fs : ext2_filsys) : Z := 2 ^ fs_cluster_ratio_bits fs.

(** The first cluster, the clusters of a group, and the one after the last. *)
Definition first_cluster (fs : ext2_filsys) : Z := s_first_data_block (fs_super fs) / ratio fs.
Definition group_size (fs : ext2_filsys) : Z := s_blocks_per_group (fs_super fs) / ratio fs.
Definition end_cluster (fs : ext2_filsys) : Z := (ext2fs_blocks_count (fs_super fs) - 1) / ratio fs + 1.

Definition group_clusters (fs : ext2_filsys) (g : Z) : gset Z :=
  let start := first_cluster fs + g * group_size fs in
  zrange start (Z.min (group_size fs) (end_cluster fs - start)).

Definition all_clusters (fs : ext2_filsys) : gset Z :=
  zrange (first_cluster fs) (end_cluster fs - first_cluster fs).

(** Groups begin with a cluster, and the counters can hold their numbers. *)
Record block_layout (fs : ext2_filsys) : Prop := BlockLayout {
  bl_layout : layout_ok fs;
  bl_bits : 0 ≤ fs_cluster_ratio_bits fs < 31;
  bl_first : s_first_data_block (fs_super fs) = first_cluster fs * ratio fs;
  bl_group : s_blocks_per_group (fs_super fs) = group_size fs * ratio fs;
  bl_size : group_size fs < 2^16;
  bl_fits : ratio fs * end_cluster fs < if ext2fs_has_feature_64bit (fs_super fs) then 2^63 else 2^32;
}.

Record blocks_ok (fs : ext2_filsys) (gd : list Z) (B : gset Z) : Prop := BlocksOk {
  bo_free g : 0 ≤ g < fs_group_desc_count fs →
    gd_val fs gd GdFreeBlocks g = zsize (group_clusters fs g ∖ B);
  bo_total : ext2fs_free_blocks_count (fs_super fs) = ratio fs * zsize (all_clusters fs ∖ B);
}.

Lemma ratio_pos fs : block_layout fs → 0 < ratio fs < 2^31.
Proof.
  intros [_ Hb _ _ _ _]. unfold ratio. split; [apply Z.pow_pos_nonneg; lia|]. apply Z.pow_lt_mono_r; lia.
Qed.

Lemma cluster_ratio fs : block_layout fs → EXT2FS_CLUSTER_RATIO fs = ratio fs.
Proof.
  intros Hbl. pose proof (ratio_pos fs Hbl). pose proof (bl_bits fs Hbl). unfold EXT2FS_CLUSTER_RATIO.
  rewrite Z.shiftl_mul_pow2; [|lia]. rewrite Z.mul_1_l. apply s32_small. unfold ratio in *. lia.
Qed.

Lemma first_cluster_nonneg fs : block_layout fs → 0 ≤ first_cluster fs.
Proof.
  intros Hbl. pose proof (ratio_pos fs Hbl). apply Z.div_pos; [|lia].
  apply (get32_range 20). apply (bl_layout fs Hbl).
Qed.

Lemma group_size_pos fs : block_layout fs → 0 < group_size fs.
Proof. intros Hbl. pose proof (ratio_pos fs Hbl). destruct Hbl as [[? ? ? ? ?] ? ? ? ? ?]. nia. Qed.

(** The group of a block is the one of its cluster. *)
Lemma group_of_blk_spec fs blk : block_layout fs →
  s_first_data_block (fs_super fs) ≤ blk < ext2fs_blocks_count (fs_super fs) →
  0 ≤ ext2fs_group_of_blk2 fs blk < fs_group_desc_count fs ∧
  blk / ratio fs ∈ all_clusters fs ∧
  ∀ g, blk / ratio fs ∈ group_clusters fs g ↔ g = ext2fs_group_of_blk2 fs blk.
Proof.
  intros Hbl Hblk. pose proof (ratio_pos fs Hbl) as Hr. pose proof (group_size_pos fs Hbl) as Hp.
  pose proof (first_cluster_nonneg fs Hbl) as Hf.
  destruct Hbl as [[? Hbpg Hcnt Hgroups Hgc] Hbits Hfirst Hgroup Hsize Hfits].
  unfold ext2fs_group_of_blk2, group_clusters, all_clusters.
  set (r := ratio fs) in *. set (p := group_size fs) in *. set (f := first_cluster fs) in *.
  assert (He : blk / r < end_cluster fs).
  { unfold end_cluster. fold r. apply Z.lt_succ_r, Z.div_le_mono; lia. }
  assert (Hfc : f ≤ blk / r) by (apply Z.div_le_lower_bound; lia).
  rewrite u64_small; [|lia].
  assert (Hg : (blk - s_first_data_block (fs_super fs)) / s_blocks_per_group (fs_super fs) = (blk / r - f) / p).
  { rewrite Hgroup (Z.mul_comm p) -Z.div_div; [|lia..]. f_equal. rewrite Hfirst.
    replace (blk - f * r) with (blk + (- f) * r) by lia. rewrite Z.div_add; lia. }
  assert (Hq : 0 ≤ (blk - s_first_data_block (fs_super fs)) / s_blocks_per_group (fs_super fs) < fs_group_desc_count fs).
  { rewrite Hgroups. split; [apply Z.div_pos; lia|]. apply Z.lt_succ_r, Z.div_le_mono; lia. }
  rewrite u32_small; [|lia]. split; [exact Hq|]. split; [rewrite elem_of_zrange; lia|].
  intros g. rewrite elem_of_zrange Hg. split.
  - intros Hx. symmetry. apply div_interval; lia.
  - intros ->. pose proof (proj1 (div_interval (blk / r - f) p _ Hp) eq_refl). lia.
Qed.

Lemma block_same_fs fs gd' fs' : same_fs (set_group_desc gd' fs) fs' →
  fs_cluster_ratio_bits fs' = fs_cluster_ratio_bits fs →
  (∀ g, group_clusters fs' g = group_clusters fs g) ∧ all_clusters fs' = all_clusters fs ∧ ratio fs' = ratio fs.
Proof.
  intros [Hs _ _ _] Hbits. cbn [fs_super set_group_desc] in Hs.
  assert (Hr : ratio fs' = ratio fs) by (unfold ratio; by rewrite Hbits).
  assert (Hf : first_cluster fs' = first_cluster fs).
  { unfold first_cluster, s_first_data_block. rewrite Hr (same_super_get (fs_super fs) (fs_super fs')) //; lia. }
  assert (Hg : group_size fs' = group_size fs).
  { unfold group_size, s_blocks_per_group. rewrite Hr (same_super_get (fs_super fs) (fs_super fs')) //; lia. }
  assert (He : end_cluster fs' = end_cluster fs).
  { unfold end_cluster. destruct blocks_count_counter as [-> _]. unfold counter_get.
    rewrite Hr (same_super_64bit (fs_super fs) (fs_super fs')) //.
    rewrite !(same_super_get (fs_super fs) (fs_super fs')) //; lia. }
  split_and!; [|unfold all_clusters; by rewrite He Hf|done]. intros g. unfold group_clusters. by rewrite Hf Hg He.
Qed.

(** The fields that the allocation of blocks writes. *)
Definition block_fields (f : gd_field) : Prop := f = GdFreeBlocks ∨ f = GdFlags ∨ f = GdChecksum.

(** The free count of a group, its flags and its checksum. *)
Lemma group_blocks_set fs gd g n : gd_ok fs gd → super_ok (fs_super fs) → 0 ≤ g < fs_group_desc_count fs →
  0 ≤ n < 2^16 →
  ∃ gd', (fs ← ext2fs_bg_free_blocks_count_set fs g n;
          fs ← ext2fs_bg_flags_clear fs g EXT2_BG_BLOCK_UNINIT;
          ext2fs_group_desc_csum_set fs g) = Some (set_group_desc gd' fs) ∧
    gd_ok (set_group_desc gd' fs) gd' ∧
    ext2fs_group_desc_csum_verify (set_group_desc gd' fs) g = Some true ∧
    gd_val fs gd' GdFreeBlocks g = n ∧ gd_same_but fs gd gd' g block_fields ∧
    Z.land (gd_val fs gd' GdFlags g) EXT2_BG_BLOCK_UNINIT = 0.
Proof.
  intros Hok Hsb Hg Hn.
  destruct (gd_write_val fs gd Hok StoreFreeBlocks g n Hg) as (gd1 & Hw1 & Hok1 & Hv1 & Hs1).
  { cbn [gd_target gd_result]. split; [lia|]. eapply Z.lt_le_trans; [|apply gd_bits_16; tauto]. lia. }
  cbn [gd_write gd_target gd_result] in *. rewrite Hw1. cbn [mbind option_bind].
  destruct (gd_flags_clear _ gd1 Hok1 g EXT2_BG_BLOCK_UNINIT Hg) as (gd2 & -> & Hok2 & Hv2 & Hs2).
  cbn [mbind option_bind].
  destruct (gd_csum_set _ gd2 Hok2 g Hsb Hg) as (gd3 & Hcs & Hok3 & Hv3 & Hs3).
  exists gd3. split; [exact Hcs|]. split; [exact Hok3|]. split; [exact Hv3|]. split; [|split].
  - etrans; [apply (Hs3 GdFreeBlocks g); [done|by right]|]. etrans; [apply (Hs2 GdFreeBlocks g); [done|by right]|done].
  - intros f' g' Hg' Hne. unfold block_fields in Hne.
    etrans; [apply (Hs3 f' g'); [done|naive_solver]|]. etrans; [apply (Hs2 f' g'); [done|naive_solver]|].
    apply Hs1; [done|naive_solver].
  - assert (gd_val fs gd3 GdFlags g = gd_val fs gd2 GdFlags g) as -> by (apply (Hs3 GdFlags g); [done|by right]).
    assert (gd_val fs gd2 GdFlags g = Z.land (gd_val fs gd1 GdFlags g) (Z.lnot EXT2_BG_BLOCK_UNINIT)) as -> by exact Hv2.
    rewrite -Z.land_assoc. by rewrite (Z.land_comm (Z.lnot _)) Z.land_lnot_diag Z.land_0_r.
Qed.

Lemma block_layout_same fs gd' fs' : block_layout fs → super_ok (fs_super fs') →
  same_fs (set_group_desc gd' fs) fs' →
  fs_cluster_ratio_bits fs' = fs_cluster_ratio_bits fs → block_layout fs'.
Proof.
  intros Hbl Hsb' Hsf Hbits. pose proof Hsf as [Hs _ Hc _]. cbn [fs_super set_group_desc fs_group_desc_count] in Hs, Hc.
  assert (Hr : ratio fs' = ratio fs) by (unfold ratio; by rewrite Hbits).
  assert (Ef : s_first_data_block (fs_super fs') = s_first_data_block (fs_super fs)).
  { unfold s_first_data_block. by rewrite (same_super_get (fs_super fs) (fs_super fs')) //; lia. }
  assert (Eg : s_blocks_per_group (fs_super fs') = s_blocks_per_group (fs_super fs)).
  { unfold s_blocks_per_group. by rewrite (same_super_get (fs_super fs) (fs_super fs')) //; lia. }
  assert (Ec : ext2fs_blocks_count (fs_super fs') = ext2fs_blocks_count (fs_super fs)).
  { destruct blocks_count_counter as [-> _]. unfold counter_get. rewrite (same_super_64bit (fs_super fs) (fs_super fs')) //.
    rewrite !(same_super_get (fs_super fs) (fs_super fs')) //; lia. }
  destruct Hbl as [[] ? ? ? ? ?]. unfold first_cluster, group_size, end_cluster in *.
  constructor; unfold first_cluster, group_size, end_cluster;
    rewrite ?Hr ?Ef ?Eg ?Ec ?Hbits ?(same_super_64bit (fs_super fs) (fs_super fs')) //.
  constructor; rewrite ?Ef ?Eg ?Ec ?Hc //. apply Hsb'.
Qed.

(** Clusters taken ([inuse] 1) or given back (-1). *)
Definition taken_set (inuse : Z) (K B : gset Z) : gset Z :=
  if decide (0 < inuse) then K ∪ B else B ∖ K.

Definition use_set_ok (inuse : Z) (K B : gset Z) : Prop :=
  (inuse = 1 ∧ K ## B) ∨ (inuse = -1 ∧ K ⊆ B).

Lemma taken_set_1 K B : taken_set 1 K B = K ∪ B.
Proof. reflexivity. Qed.
Lemma taken_set_neg K B : taken_set (-1) K B = B ∖ K.
Proof. reflexivity. Qed.

Lemma zsize_split (A K : gset Z) : zsize (A ∖ K) = zsize A - zsize (A ∩ K).
Proof.
  unfold zsize. rewrite size_difference_alt. 
  assert (size (A ∩ K) ≤ size A)%nat by (apply subseteq_size; set_solver). lia.
Qed.

Lemma free_taken_set (R K B : gset Z) inuse : use_set_ok inuse K B →
  zsize (R ∖ taken_set inuse K B) = zsize (R ∖ B) - inuse * zsize (R ∩ K).
Proof.
  intros [[-> HK]|[-> HK]].
  - rewrite taken_set_1.
    assert (R ∖ (K ∪ B) = (R ∖ B) ∖ K) as -> by set_solver. rewrite zsize_split.
    assert ((R ∖ B) ∩ K = R ∩ K) as -> by set_solver. lia.
  - rewrite taken_set_neg. pose proof (zsize_split (R ∖ (B ∖ K)) K) as Hs.
    assert ((R ∖ (B ∖ K)) ∖ K = R ∖ B) as E1.
    { apply set_eq. intros x. destruct (decide (x ∈ K)); set_solver. }
    assert ((R ∖ (B ∖ K)) ∩ K = R ∩ K) as E2 by set_solver. rewrite E1 E2 in Hs. lia.
Qed.

Lemma group_in_all fs g : block_layout fs → 0 ≤ g → group_clusters fs g ⊆ all_clusters fs.
Proof.
  intros Hbl Hg x. unfold group_clusters, all_clusters. rewrite !elem_of_zrange.
  pose proof (group_size_pos fs Hbl). nia.
Qed.

Lemma groups_disjoint fs g g' : block_layout fs → g ≠ g' → group_clusters fs g ## group_clusters fs g'.
Proof.
  intros Hbl Hne x. unfold group_clusters. rewrite !elem_of_zrange. pose proof (group_size_pos fs Hbl). nia.
Qed.

Lemma zsize_group fs g B : block_layout fs → 0 ≤ zsize (group_clusters fs g ∖ B) < 2^16.
Proof.
  intros Hbl. pose proof (group_size_pos fs Hbl). pose proof (bl_size fs Hbl).
  pose proof (zsize_bound (first_cluster fs + g * group_size fs) (group_size fs) (group_clusters fs g ∖ B) ltac:(lia)) as Hb.
  assert (0 ≤ zsize (group_clusters fs g ∖ B) ≤ group_size fs); [|lia]. apply Hb.
  intros x. unfold group_clusters. rewrite elem_of_difference !elem_of_zrange. lia.
Qed.

Lemma zsize_all fs B : block_layout fs → 0 ≤ zsize (all_clusters fs ∖ B) ≤ end_cluster fs.
Proof.
  intros Hbl. pose proof (first_cluster_nonneg fs Hbl) as Hf. pose proof (ratio_pos fs Hbl) as Hr.
  assert (0 < end_cluster fs).
  { unfold end_cluster. assert (0 ≤ (ext2fs_blocks_count (fs_super fs) - 1) / ratio fs); [|lia].
    apply Z.div_pos; [|lia]. destruct (bl_layout fs Hbl) as [Hb _ Hc _ _].
    pose proof (get32_range 20 _ Hb). unfold s_first_data_block in Hc. lia. }
  pose proof (zsize_bound 0 (end_cluster fs) (all_clusters fs ∖ B) ltac:(lia)) as Hb. apply Hb.
  intros x. unfold all_clusters. rewrite elem_of_difference !elem_of_zrange. lia.
Qed.

(** The free count of the super block. *)
Definition add_free (fs : ext2_filsys) (d : Z) : ext2_filsys :=
  set_super (ext2fs_free_blocks_count_add (fs_super fs) (u64 d)) fs.

Lemma add_free_spec fs d : super_ok (fs_super fs) → let n := ext2fs_free_blocks_count (fs_super fs) + d in
  0 ≤ n < (if ext2fs_has_feature_64bit (fs_super fs) then 2^63 else 2^32) →
  super_ok (fs_super (add_free fs d)) ∧ same_fs fs (add_free fs d) ∧
  ext2fs_free_blocks_count (fs_super (add_free fs d)) = n.
Proof.
  intros [Hb Hl] n Hn. unfold add_free, ext2fs_free_blocks_count_add. cbn [fs_super set_super].
  destruct free_blocks_count_counter as [Hg Hset].
  assert (Hu : u64 (ext2fs_free_blocks_count (fs_super fs) + u64 d) = n).
  { unfold u64. rewrite Zplus_mod_idemp_r. apply Z.mod_small. destruct ext2fs_has_feature_64bit; lia. }
  rewrite Hu Hset. pose proof (same_super_counter (fs_super fs) n Hl) as Hss. split; [split|split].
  - unfold counter_set. cbv zeta. destruct (ext2fs_has_feature_64bit (set32 _ _ _)); [apply set_le_bytes|]; by apply set_le_bytes.
  - apply Hss.
  - by constructor.
  - rewrite Hg counter_get_set; [|done|lia|lia|destruct ext2fs_has_feature_64bit; lia].
    unfold counter_fits. destruct ext2fs_has_feature_64bit; [done|]. by apply Z.mod_small.
Qed.

(** The clusters [K] of group [g] are taken or given back. *)
Lemma blocks_step fs gd B K g inuse :
  gd_ok fs gd → super_ok (fs_super fs) → block_layout fs → blocks_ok fs gd B →
  0 ≤ g < fs_group_desc_count fs → K ⊆ group_clusters fs g → use_set_ok inuse K B →
  let n := zsize (group_clusters fs g ∖ B) - inuse * zsize K in
  0 ≤ n < 2^16 ∧
  ∃ gd', (fs ← ext2fs_bg_free_blocks_count_set fs g n;
          fs ← ext2fs_bg_flags_clear fs g EXT2_BG_BLOCK_UNINIT;
          ext2fs_group_desc_csum_set fs g) = Some (set_group_desc gd' fs) ∧
    let fs' := add_free (set_group_desc gd' fs) (- inuse * (ratio fs * zsize K)) in
    gd_ok fs' gd' ∧ super_ok (fs_super fs') ∧ same_fs (set_group_desc gd' fs) fs' ∧ block_layout fs' ∧
    blocks_ok fs' gd' (taken_set inuse K B) ∧ gd_same_but fs gd gd' g block_fields ∧
    ext2fs_group_desc_csum_verify fs' g = Some true ∧
    Z.land (gd_val fs gd' GdFlags g) EXT2_BG_BLOCK_UNINIT = 0.
Proof.
  intros Hok Hsb Hbl Hbo Hg HK Hu n.
  assert (Hn : n = zsize (group_clusters fs g ∖ taken_set inuse K B)).
  { rewrite free_taken_set //. assert (group_clusters fs g ∩ K = K) as -> by set_solver. done. }
  pose proof (zsize_group fs g (taken_set inuse K B) Hbl) as Hr. rewrite -Hn in Hr. split; [exact Hr|].
  destruct (group_blocks_set fs gd g n Hok Hsb Hg Hr) as (gd' & Hset & Hok' & Hcs & Hv & Hsame & Hfl).
  exists gd'. split; [exact Hset|]. set (fs1 := set_group_desc gd' fs).
  set (d := - inuse * (ratio fs * zsize K)).
  assert (Htot : ext2fs_free_blocks_count (fs_super fs) + d = ratio fs * zsize (all_clusters fs ∖ taken_set inuse K B)).
  { rewrite (bo_total _ _ _ Hbo) free_taken_set //. pose proof (group_in_all fs g Hbl ltac:(lia)).
    assert (all_clusters fs ∩ K = K) as -> by set_solver. unfold d. lia. }
  pose proof (ratio_pos fs Hbl) as Hrat. pose proof (zsize_all fs (taken_set inuse K B) Hbl) as Hall.
  pose proof (bl_fits fs Hbl) as Hfits.
  destruct (add_free_spec fs1 d) as (Hsb' & Hsf & Hcnt); [exact Hsb| |].
  { cbn [fs1 fs_super set_group_desc]. rewrite Htot. split; [nia|]. eapply Z.le_lt_trans; [|exact Hfits]. nia. }
  change (fs_super fs1) with (fs_super fs) in Hcnt. rewrite Htot in Hcnt.
  destruct (block_same_fs fs gd' (add_free fs1 d) Hsf eq_refl) as (Egrp & Eall & Erat).
  split_and!; [exact (same_fs_gd_ok _ _ gd' Hsf Hok')|exact Hsb'|exact Hsf| | |exact Hsame| |exact Hfl].
  - by apply (block_layout_same fs gd').
  - constructor.
    + intros g' Hg'. change (fs_group_desc_count (add_free fs1 d)) with (fs_group_desc_count fs) in Hg'.
      rewrite (same_fs_val fs1 (add_free fs1 d) gd' _ _ Hsf) Egrp.
      destruct (decide (g' = g)) as [->|Hne]; [etrans; [exact Hv|exact Hn]|].
      etrans; [apply (Hsame GdFreeBlocks g'); [done|by left]|]. rewrite (bo_free _ _ _ Hbo) // free_taken_set //.
      assert (group_clusters fs g' ∩ K = ∅) as ->.
      { pose proof (groups_disjoint fs g' g Hbl Hne). set_solver. }
      unfold zsize at 3. rewrite size_empty. lia.
    + rewrite Hcnt Eall Erat. done.
  - rewrite (same_fs_verify fs1 (add_free fs1 d) gd' g Hsf Hok' Hg). exact Hcs.
Qed.

(** Setting the flags of the file system changes none of this. *)
Lemma dirty_state fs gd B g :
  gd_ok fs gd → super_ok (fs_super fs) → block_layout fs → blocks_ok fs gd B →
  0 ≤ g < fs_group_desc_count fs →
  let fs' := ext2fs_mark_bb_dirty (ext2fs_mark_super_dirty fs) in
  gd_ok fs' gd ∧ super_ok (fs_super fs') ∧ block_layout fs' ∧ blocks_ok fs' gd B ∧
  ext2fs_group_desc_csum_verify fs' g = ext2fs_group_desc_csum_verify fs g.
Proof.
  intros Hok Hsb Hbl Hbo Hg fs'.
  assert (Hsf : same_fs fs fs') by (constructor; [apply same_super_refl, Hsb|done..]).
  split_and!; [exact (same_fs_gd_ok _ _ _ Hsf Hok)|exact Hsb| | |exact (same_fs_verify _ _ _ _ Hsf Hok Hg)].
  - destruct Hbl as [Hl ? ? ? ? ?]. constructor; [|assumption..]. destruct Hl. by constructor.
  - destruct Hbo as [Hf Ht]. constructor; [exact Hf|exact Ht].
Qed.

(** One block: its cluster is taken or given back. *)
Lemma block_stats_ok fs gd B blk inuse :
  gd_ok fs gd → super_ok (fs_super fs) → block_layout fs → blocks_ok fs gd B →
  s_first_data_block (fs_super fs) ≤ blk < ext2fs_blocks_count (fs_super fs) →
  let c := blk / ratio fs in let g := ext2fs_group_of_blk2 fs blk in
  use_set_ok inuse {[c]} B →
  ∃ fs' gd', block_stats fs g inuse = Some fs' ∧
    gd_ok fs' gd' ∧ super_ok (fs_super fs') ∧ block_layout fs' ∧
    blocks_ok fs' gd' (taken_set inuse {[c]} B) ∧ gd_same_but fs gd gd' g block_fields ∧
    ext2fs_group_desc_csum_verify fs' g = Some true ∧
    Z.land (gd_val fs gd' GdFlags g) EXT2_BG_BLOCK_UNINIT = 0.
Proof.
  intros Hok Hsb Hbl Hbo Hblk c g Hu.
  destruct (group_of_blk_spec fs blk Hbl Hblk) as (Hg & _ & Hgi). fold g c in Hg, Hgi.
  assert (HK : {[c]} ⊆ group_clusters fs g) by (pose proof (proj2 (Hgi g) eq_refl); set_solver).
  destruct (blocks_step fs gd B {[c]} g inuse Hok Hsb Hbl Hbo Hg HK Hu) as (Hr & gd' & Hset & H).
  assert (E1 : zsize {[c]} = 1) by (unfold zsize; by rewrite size_singleton).
  cbv zeta in H. rewrite E1 !Z.mul_1_r in Hr, Hset, H.
  destruct H as (Hok' & Hsb' & _ & Hbl' & Hbo' & Hsame & Hcs & Hfl).
  exists (ext2fs_mark_bb_dirty (ext2fs_mark_super_dirty (add_free (set_group_desc gd' fs) (- inuse * ratio fs)))), gd'.
  split.
  - unfold block_stats.
    pose proof (gd_read_val fs gd Hok GdFreeBlocks g Hg : ext2fs_bg_free_blocks_count fs g = _) as Hrd.
    rewrite Hrd. cbn [mbind option_bind]. rewrite (bo_free _ _ _ Hbo g Hg).
    rewrite (u32_small (zsize (group_clusters fs g ∖ B) - inuse)); [|lia].
    destruct (ext2fs_bg_free_blocks_count_set fs g _) as [fs1|]; [|done]. cbn [mbind option_bind] in Hset |- *.
    destruct (ext2fs_bg_flags_clear fs1 g _) as [fs2|]; [|done]. cbn [mbind option_bind] in Hset |- *.
    rewrite Hset. cbn [mbind option_bind].
    change (EXT2FS_CLUSTER_RATIO (set_group_desc gd' fs)) with (EXT2FS_CLUSTER_RATIO fs).
    rewrite (cluster_ratio fs Hbl). reflexivity.
  - destruct (dirty_state _ gd' _ g Hok' Hsb' Hbl' Hbo' Hg) as (? & ? & ? & ? & Hver).
    split_and!; [done..|rewrite Hver; exact Hcs|exact Hfl].
Qed.

Section blocks.
Context {ML : Malloc}.

(** The bitmap [map] has the clusters of [fs]. *)
Definition covers_blocks (fs : ext2_filsys) (map : generic_bitmap) : Prop :=
  gen_cluster_bits map = fs_cluster_ratio_bits fs ∧ b_start (gen_view map) ≤ first_cluster fs ∧
  end_cluster fs - 1 ≤ b_end (gen_view map).

Lemma covers_block fs map blk : block_layout fs → covers_blocks fs map →
  s_first_data_block (fs_super fs) ≤ blk < ext2fs_blocks_count (fs_super fs) →
  gen_in map blk ∧ gen_bit map blk = blk / ratio fs.
Proof.
  intros Hbl (Hc & Hs & He) Hblk. destruct (group_of_blk_spec fs blk Hbl Hblk) as (_ & Hall & _).
  pose proof (bl_bits fs Hbl). unfold all_clusters in Hall. rewrite elem_of_zrange in Hall.
  unfold gen_in, gen_bit. rewrite Hc Z.shiftr_div_pow2; [|lia]. fold (ratio fs). lia.
Qed.

(** C18: Taking a block whose cluster is clear ([inuse] 1), or giving back one whose
    cluster is used (-1), changes the bitmap at that cluster only and keeps
    the counters in step with it: the free clusters of every group and the
    free blocks of the file system.  The descriptor of the group is no longer
    marked as uninitialised and its checksum is right; the descriptors of the
    other groups, and the other fields of this one, are untouched. *)
Theorem block_alloc_stats_correct H a gd B blk inuse :
  block_alloc_stats H = None →
  gd_ok (a_fs a) gd → super_ok (fs_super (a_fs a)) → block_layout (a_fs a) →
  blocks_ok (a_fs a) gd B → covers_blocks (a_fs a) (block_map a) →
  s_first_data_block (fs_super (a_fs a)) ≤ blk < ext2fs_blocks_count (fs_super (a_fs a)) →
  let c := blk / ratio (a_fs a) in let g := ext2fs_group_of_blk2 (a_fs a) blk in
  use_set_ok inuse {[c]} B →
  hoare (generic_at (block_map a) B) (ext2fs_block_alloc_stats2 H a blk inuse)
    (λ a', ⌜∃ gd', gd_ok (a_fs a') gd' ∧ super_ok (fs_super (a_fs a')) ∧ block_layout (a_fs a') ∧
        inode_map a' = inode_map a ∧ block_map a' = block_map a ∧
        blocks_ok (a_fs a') gd' (taken_set inuse {[c]} B) ∧
        gd_same_but (a_fs a) gd gd' g block_fields ∧
        ext2fs_group_desc_csum_verify (a_fs a') g = Some true ∧
        Z.land (gd_val (a_fs a) gd' GdFlags g) EXT2_BG_BLOCK_UNINIT = 0⌝ ∗
      generic_at (block_map a) (taken_set inuse {[c]} B))%I.
Proof.
  intros Hh Hok Hsb Hbl Hbo Hcov Hblk c g Hu. apply wp_adequate. iIntros "Hm".
  lazymatch goal with |- context [wp _ ?Q] => set (Φ := Q) end.
  destruct (block_stats_ok (a_fs a) gd B blk inuse Hok Hsb Hbl Hbo Hblk Hu)
    as (fs' & gd' & Hst & Hok' & Hsb' & Hbl' & Hbo' & Hsame & Hcs & Hfl).
  destruct (covers_block _ _ _ Hbl Hcov Hblk) as [Hin Hbit].
  pose proof (lo_count _ (bl_layout _ Hbl)) as Hcnt.
  pose proof (get32_range 20 _ (lo_super _ (bl_layout _ Hbl))) as [Hf0 _].
  change (get32 20 (fs_super (a_fs a))) with (s_first_data_block (fs_super (a_fs a))) in Hf0.
  unfold ext2fs_block_alloc_stats2. rewrite (bool_decide_eq_false_2 (_ ≤ blk)); [|lia]. rewrite Hh.
  iAssert (generic_at (block_map a) (taken_set inuse {[c]} B) -∗
    wp (fs ← lift (block_stats (a_fs a) (ext2fs_group_of_blk2 (a_fs a) blk) inuse); mret (set_fs fs a)) Φ)%I as "Hpost".
  { iIntros "Hm". rewrite Hst. cbn [lift]. wp_steps. unfold Φ. iFrame "Hm". iPureIntro. exists gd'.
    split_and!; [exact Hok'|exact Hsb'|exact Hbl'|done|done|exact Hbo'|exact Hsame|exact Hcs|exact Hfl]. }
  destruct Hu as [[-> Hx]|[-> Hx]].
  - rewrite (bool_decide_eq_true_2 (0 < 1)) //. wp_apply (mark_generic_bmap_spec with "Hm"); [lia|].
    iIntros (v _) "Hm". rewrite marked_in // Hbit -taken_set_1. by iApply "Hpost".
  - rewrite (bool_decide_eq_false_2 (0 < -1)) //. wp_apply (unmark_generic_bmap_spec with "Hm"); [lia|].
    iIntros (v _) "Hm". rewrite unmarked_in // Hbit -taken_set_neg. by iApply "Hpost".
Qed.
End blocks.

(** ** Instances *)
Lemma alloc_layout_ok : block_layout (a_fs alloc_demo).
Proof. constructor; [|done..]. constructor; try done. apply alloc_super_ok. Qed.

Lemma alloc_blocks_ok : blocks_ok (a_fs alloc_demo) alloc_gd used_blocks.
Proof. constructor; [apply four_groups; vm_compute; reflexivity|vm_compute; reflexivity]. Qed.

Lemma alloc_covers_blocks : covers_blocks (a_fs alloc_demo) (block_map alloc_demo).
Proof. split_and!; vm_compute; congruence. Qed.

Lemma block_alloc_stats_witness :
  hoare (ML := bump_malloc) (generic_at (block_map alloc_demo) used_blocks)
    (ext2fs_block_alloc_stats2 no_handlers alloc_demo 40 (-1))
    (λ a', ⌜∃ gd', gd_ok (a_fs a') gd' ∧ super_ok (fs_super (a_fs a')) ∧ block_layout (a_fs a') ∧
        inode_map a' = inode_map alloc_demo ∧ block_map a' = block_map alloc_demo ∧
        blocks_ok (a_fs a') gd' (taken_set (-1) {[ 40 / ratio (a_fs alloc_demo) ]} used_blocks) ∧
        gd_same_but (a_fs alloc_demo) alloc_gd gd' (ext2fs_group_of_blk2 (a_fs alloc_demo) 40) block_fields ∧
        ext2fs_group_desc_csum_verify (a_fs a') (ext2fs_group_of_blk2 (a_fs alloc_demo) 40) = Some true ∧
        Z.land (gd_val (a_fs alloc_demo) gd' GdFlags (ext2fs_group_of_blk2 (a_fs alloc_demo) 40))
          EXT2_BG_BLOCK_UNINIT = 0⌝ ∗
      generic_at (block_map alloc_demo) (taken_set (-1) {[ 40 / ratio (a_fs alloc_demo) ]} used_blocks))%I.
Proof.
  apply (block_alloc_stats_correct (ML := bump_malloc) no_handlers alloc_demo alloc_gd used_blocks 40 (-1));
    [done|exact alloc_gd_ok|exact alloc_super_ok|exact alloc_layout_ok|exact alloc_blocks_ok|
     exact alloc_covers_blocks|done|].
  right. split; [done|]. change (40 / _) with 40. unfold used_blocks. set_solver.
Defined.
