(* ===== verification/BlockRange.v ===== *)
(** * BlockRange: taking and giving back ranges of blocks

    [ext2fs_block_alloc_stats_range] goes over the groups that its range
    touches.  [range_done] is what a part of the work achieves; parts compose
    ([range_done_trans]), one round of the loop is a part ([range_step_ok]),
    and so is the whole loop, by induction on the blocks left. *)
From S2P Require Import Prelude.
From S2P Require Import Bytes.
From S2P Require Import Super.
From S2P Require Import Crc.
From S2P Require Import Blknum.
From S2P Require Import Csum.
From S2P Require Import CsumProps.
From S2P Require Import Mem.
From S2P Require Import SepLogic.
From S2P Require Import ExtMem.
From S2P Require Import Bitmap.
From S2P Require Import BlkmapRB.
From S2P Require Import GenBitmap.
From S2P Require Import GenBitmapSpec.
From S2P Require Import BitmapProps.
From S2P Require Import Bitmaps.
From S2P Require Import Alloc.
From S2P Require Import GroupSpec.
From S2P Require Import AllocProps.
From S2P Require Import BlockProps.
#[local] Open Scope Z_scope.

(** ** Ranges of blocks *)

(** The block after the last one of the group of [b]: the group after it
    begins there, or the file system ends. *)
Lemma group_last_spec fs b : block_layout fs →
  s_first_data_block (fs_super fs) ≤ b < ext2fs_blocks_count (fs_super fs) →
  let g := ext2fs_group_of_blk2 fs b in let last := ext2fs_group_last_block2 fs g in
  b ≤ last < ext2fs_blocks_count (fs_super fs) ∧
  (∀ x, b ≤ x ≤ last → ext2fs_group_of_blk2 fs x = g) ∧
  ((ratio fs | last + 1) ∨ last = ext2fs_blocks_count (fs_super fs) - 1).
Proof.
  intros Hbl Hb. pose proof (ratio_pos fs Hbl) as Hr. pose proof (first_cluster_nonneg fs Hbl) as Hf.
  destruct Hbl as [[Hsb Hbpg Hcnt Hgroups Hgc] Hbits Hfirst Hgroup Hsize Hfits].
  assert (Hf0 : 0 ≤ s_first_data_block (fs_super fs)) by nia.
  set (n := fs_group_desc_count fs) in *.
  unfold ext2fs_group_of_blk2, ext2fs_group_last_block2, ext2fs_group_first_block2, EXT2_GROUPS_TO_BLOCKS.
  fold n. clearbody n.
  set (p := s_blocks_per_group (fs_super fs)) in *. set (f := s_first_data_block (fs_super fs)) in *.
  set (c := ext2fs_blocks_count (fs_super fs)) in *. set (r := ratio fs) in *. clearbody r.
  set (fc := first_cluster fs) in *. set (gs := group_size fs) in *. clearbody p f c fc gs.
  assert (Hx : ∀ x, f ≤ x < c → u32 (u64 (x - f) / p) = (x - f) / p ∧ 0 ≤ (x - f) / p ≤ n - 1).
  { intros x Hx. rewrite (u64_small (x - f)); [|lia].
    assert (0 ≤ (x - f) / p ≤ n - 1); [|split; [apply u32_small; lia|lia]].
    rewrite Hgroups. split; [apply Z.div_pos; lia|]. 
    assert ((x - f) / p ≤ (c - f - 1) / p) by (apply Z.div_le_mono; lia). lia. }
  destruct (Hx b Hb) as [E Hg]. rewrite E. cbv zeta. set (g := (b - f) / p) in *.
  pose proof (proj1 (div_interval (b - f) p g ltac:(lia)) eq_refl) as Hbg.
  rewrite (u32_small (n - 1)); [|lia]. rewrite (u64_small (c - 1)); [|lia].
  assert (Hlast : bool_decide (g = n - 1) = false → p * g + p ≤ c - f - 1).
  { intros Hne%bool_decide_eq_false. pose proof (proj1 (div_interval (c - f - 1) p (n - 1) ltac:(lia)) ltac:(lia)).
    assert (p * (g + 1) ≤ p * (n - 1)) by (apply Z.mul_le_mono_nonneg_l; lia). lia. }
  destruct (bool_decide (g = n - 1)) eqn:Eg.
  - apply bool_decide_eq_true in Eg. split; [lia|]. split; [|by right].
    pose proof (proj1 (div_interval (c - f - 1) p (n - 1) ltac:(lia)) ltac:(lia)) as Hc.
    intros x Hxr. destruct (Hx x ltac:(lia)) as [-> _]. apply div_interval; lia.
  - specialize (Hlast eq_refl).
    rewrite (u64_small (p * g)); [|lia]. rewrite (u64_small (f + p * g)); [|lia].
    rewrite (u32_small (p - 1)); [|lia]. rewrite u64_small; [|lia].
    split; [lia|]. split.
    + intros x Hxr. destruct (Hx x ltac:(lia)) as [-> _]. apply div_interval; lia.
    + left. exists (fc + gs * (g + 1)). rewrite Hfirst Hgroup. lia.
Qed.

(** The clusters of whole clusters of blocks. *)
Lemma range_in_group fs b n : block_layout fs →
  s_first_data_block (fs_super fs) ≤ b → 0 < n → b + n ≤ ext2fs_blocks_count (fs_super fs) →
  (ratio fs | b) → (ratio fs | n) →
  b + n - 1 ≤ ext2fs_group_last_block2 fs (ext2fs_group_of_blk2 fs b) →
  zrange (b / ratio fs) (n / ratio fs) ⊆ group_clusters fs (ext2fs_group_of_blk2 fs b).
Proof.
  intros Hbl Hb Hn Hc [x ->] [y ->] Hlast. pose proof (ratio_pos fs Hbl) as Hr.
  destruct (group_last_spec fs (x * ratio fs) Hbl ltac:(lia)) as (Hg & Hsame & _).
  destruct (group_of_blk_spec fs (x * ratio fs) Hbl ltac:(lia)) as (_ & _ & H1).
  destruct (group_of_blk_spec fs (x * ratio fs + y * ratio fs - 1) Hbl ltac:(lia)) as (_ & _ & H2).
  pose proof (proj2 (H1 _) eq_refl) as E1. pose proof (proj2 (H2 _) eq_refl) as E2.
  rewrite Hsame in E2; [|lia].
  assert ((x * ratio fs + y * ratio fs - 1) / ratio fs = x + y - 1) as E3.
  { symmetry. apply (Z.div_unique_pos _ _ _ (ratio fs - 1)); lia. }
  rewrite E3 in E2. rewrite !Z.div_mul in E1 |- *; [|lia..]. unfold group_clusters in *.
  intros z. rewrite !elem_of_zrange. rewrite elem_of_zrange in E1. rewrite elem_of_zrange in E2. lia.
Qed.

Lemma u32_u64 x : u32 (u64 x) = u32 x.
Proof. 
  unfold u32, u64. pose proof (Z.div_mod x (2^64) ltac:(done)).
  replace x with (x mod 2^64 + (x / 2^64 * 2^32) * 2^32) at 2 by lia. by rewrite Z.mod_add.
Qed.

(** [inuse * n / EXT2FS_CLUSTER_RATIO(fs)], without a sign. *)
Lemma clusters_unsigned r n k inuse : 0 < r → (∃ s, 0 ≤ s < 31 ∧ r = 2^s) → n = k * r → 0 ≤ n < 2^32 → 0 < n →
  inuse = 1 ∨ inuse = -1 → ∀ c, 0 ≤ c - inuse * k < 2^32 →
  u32 (u64 (c - u64 (inuse * n) / u64 r)) = c - inuse * k.
Proof.
  intros Hr (s & Hs & Hrs) -> Hn Hn0 Hi c Hc.
  assert (0 < k ≤ k * r) by nia.
  assert (r < 2^31) by (rewrite Hrs; apply Z.pow_lt_mono_r; lia).
  rewrite (u64_small r); [|lia]. destruct Hi as [->| ->].
  - rewrite !Z.mul_1_l (u64_small (k * r)); [|lia]. rewrite Z.div_mul; [|lia].
    rewrite u32_u64 u32_small; lia.
  - assert (H64 : 2^64 = 2^(64 - s) * r) by (rewrite Hrs -Z.pow_add_r; [f_equal; lia|lia..]).
    assert (E : u64 (-1 * (k * r)) = (2^(64 - s) - k) * r).
    { unfold u64. symmetry. apply (Z.mod_unique_pos _ _ (-1)); [lia|]. rewrite Z.mul_sub_distr_r -H64. lia. }
    rewrite E Z.div_mul; [|lia]. rewrite u32_u64. unfold u32.
    replace (c - (2^(64 - s) - k)) with (c - -1 * k + (- 2^(32 - s)) * 2^32).
    + rewrite Z.mod_add //. apply Z.mod_small. lia.
    + assert (2^(64 - s) = 2^(32 - s) * 2^32); [|lia]. rewrite -Z.pow_add_r; [f_equal; lia|lia..].
Qed.

(** ** What a part of a range achieves *)

(** The clusters [K] have been taken or given back: [fs] became [fs']. *)
Record range_done (fs : ext2_filsys) (gd : list Z) (B K : gset Z) (inuse : Z)
    (fs' : ext2_filsys) (gd' : list Z) : Prop := RangeDone {
  rd_gd : gd_ok fs' gd';
  rd_super : super_ok (fs_super fs');
  rd_layout : block_layout fs';
  rd_blocks : blocks_ok fs' gd' (taken_set inuse K B);
  rd_same : same_fs (set_group_desc gd' fs) fs';
  rd_ratio : fs_cluster_ratio_bits fs' = fs_cluster_ratio_bits fs;
  rd_fields f g : 0 ≤ g < fs_group_desc_count fs → ¬ block_fields f ∨ group_clusters fs g ## K →
    gd_val fs gd' f g = gd_val fs gd f g;
  rd_csum g : 0 ≤ g < fs_group_desc_count fs →
    ¬ group_clusters fs g ## K ∨ ext2fs_group_desc_csum_verify fs g = Some true →
    ext2fs_group_desc_csum_verify fs' g = Some true;
  rd_init g : 0 ≤ g < fs_group_desc_count fs → ¬ group_clusters fs g ## K →
    Z.land (gd_val fs gd' GdFlags g) EXT2_BG_BLOCK_UNINIT = 0;
}.

Lemma taken_set_union inuse K1 K2 B :
  taken_set inuse K2 (taken_set inuse K1 B) = taken_set inuse (K1 ∪ K2) B.
Proof. unfold taken_set. case_decide; set_solver. Qed.

Lemma use_set_union inuse K1 K2 B : K1 ## K2 → use_set_ok inuse (K1 ∪ K2) B →
  use_set_ok inuse K1 B ∧ use_set_ok inuse K2 (taken_set inuse K1 B).
Proof.
  intros Hd [[-> H]|[-> H]]; rewrite ?taken_set_1 ?taken_set_neg; split.
  1, 2: left; split; [done|set_solver].
  all: right; split; [done|set_solver].
Qed.

Lemma range_done_nil fs gd B inuse : gd_ok fs gd → super_ok (fs_super fs) → block_layout fs →
  blocks_ok fs gd B → range_done fs gd B ∅ inuse fs gd.
Proof.
  intros Hok Hsb Hbl Hbo. assert (taken_set inuse ∅ B = B) as HB by (unfold taken_set; case_decide; set_solver).
  constructor; rewrite ?HB //.
  - constructor; [apply same_super_refl, Hsb| |done..]. by destruct Hok.
  - intros g _ [Hn|?]; [|done]. exfalso. apply Hn. set_solver.
  - intros g _ Hn. exfalso. apply Hn. set_solver.
Qed.

Lemma range_done_trans fs gd B K1 K2 inuse fs1 gd1 fs2 gd2 :
  range_done fs gd B K1 inuse fs1 gd1 →
  range_done fs1 gd1 (taken_set inuse K1 B) K2 inuse fs2 gd2 →
  range_done fs gd B (K1 ∪ K2) inuse fs2 gd2.
Proof.
  intros [Hgd1 Hsb1 Hbl1 Hbo1 Hsf1 Hr1 Hf1 Hc1 Hi1] [Hgd2 Hsb2 Hbl2 Hbo2 Hsf2 Hr2 Hf2 Hc2 Hi2].
  rewrite taken_set_union in Hbo2.
  destruct (block_same_fs fs gd1 fs1 Hsf1 Hr1) as (Hgrp & _ & _).
  pose proof (sf_count _ _ Hsf1) as Hcount. cbn [fs_group_desc_count set_group_desc] in Hcount.
  assert (Hval : ∀ gd f g, gd_val fs1 gd f g = gd_val fs gd f g) by (intros; exact (same_fs_val _ _ _ _ _ Hsf1)).
  constructor; [done..|by eapply same_fs_desc_trans|congruence| | |].
  - intros f g Hg Hn. rewrite -Hval (Hf2 f g); [|by rewrite Hcount|].
    2: { destruct Hn as [?|Hn]; [by left|right]. rewrite Hgrp. set_solver. }
    rewrite Hval. apply Hf1; [done|]. destruct Hn as [?|Hn]; [by left|right]. set_solver.
  - intros g Hg Hn. apply Hc2; [by rewrite Hcount|]. rewrite Hgrp.
    destruct (decide (group_clusters fs g ## K2)) as [H2|H2]; [|by left].
    right. apply Hc1; [done|]. destruct Hn as [Hn|Hn]; [left|by right]. set_solver.
  - intros g Hg Hn. destruct (decide (group_clusters fs g ## K2)) as [H2|H2].
    + rewrite -Hval (Hf2 GdFlags g); [|by rewrite Hcount|right; by rewrite Hgrp].
      rewrite Hval. apply Hi1; [done|]. set_solver.
    + rewrite -Hval. apply Hi2; [by rewrite Hcount|by rewrite Hgrp].
Qed.

(** Clusters of one group. *)
Lemma group_blocks_local fs gd g n fs' : gd_ok fs gd → 0 ≤ g < fs_group_desc_count fs →
  (fs ← ext2fs_bg_free_blocks_count_set fs g n;
   fs ← ext2fs_bg_flags_clear fs g EXT2_BG_BLOCK_UNINIT;
   ext2fs_group_desc_csum_set fs g) = Some fs' → gd_local fs gd g fs'.
Proof.
  intros Hok Hg. destruct (ext2fs_bg_free_blocks_count_set fs g n) as [fs1|] eqn:E1; [|done].
  cbn [mbind option_bind]. destruct (ext2fs_bg_flags_clear fs1 g _) as [fs2|] eqn:E2; [|done].
  cbn [mbind option_bind]. intros E3.
  assert (H1 : gd_local fs gd g fs1) by (eapply gd_set_hilo_local; [done|done| | | | |exact E1]; done).
  assert (Hc1 : fs_group_desc_count fs1 = fs_group_desc_count fs) by by destruct H1 as (? & [-> _] & _).
  apply (gd_local_trans _ _ _ _ _ H1). intros gd1 Hok1.
  assert (H2 : gd_local fs1 gd1 g fs2) by (eapply gd_flags_clear_local; [done|by rewrite Hc1|exact E2]).
  assert (Hc2 : fs_group_desc_count fs2 = fs_group_desc_count fs1) by by destruct H2 as (? & [-> _] & _).
  apply (gd_local_trans _ _ _ _ _ H2). intros gd2 Hok2.
  eapply gd_csum_set_local; [done|by rewrite Hc2 Hc1|exact E3].
Qed.

Lemma group_range_done fs gd B K g inuse :
  gd_ok fs gd → super_ok (fs_super fs) → block_layout fs → blocks_ok fs gd B →
  0 ≤ g < fs_group_desc_count fs → K ⊆ group_clusters fs g → K ≠ ∅ → use_set_ok inuse K B →
  let n := zsize (group_clusters fs g ∖ B) - inuse * zsize K in
  0 ≤ n < 2^16 ∧
  ∃ gd', (fs ← ext2fs_bg_free_blocks_count_set fs g n;
          fs ← ext2fs_bg_flags_clear fs g EXT2_BG_BLOCK_UNINIT;
          ext2fs_group_desc_csum_set fs g) = Some (set_group_desc gd' fs) ∧
    range_done fs gd B K inuse (add_free (set_group_desc gd' fs) (- inuse * (ratio fs * zsize K))) gd'.
Proof.
  intros Hok Hsb Hbl Hbo Hg HK Hne0 Hu n.
  destruct (blocks_step fs gd B K g inuse Hok Hsb Hbl Hbo Hg HK Hu)
    as (Hr & gd' & Hset & Hok' & Hsb' & Hsf & Hbl' & Hbo' & Hsame & Hcs & Hfl).
  fold n in Hr, Hset. split; [done|]. exists gd'. split; [done|].
  pose proof (group_blocks_local fs gd g n _ Hok Hg Hset) as Hloc.
  assert (Hok1 : gd_ok (set_group_desc gd' fs) gd').
  { destruct Hloc as (gd1 & [E Hok1] & _). apply (f_equal fs_group_desc) in E.
    cbn [fs_group_desc set_group_desc] in E. injection E as ->. exact Hok1. }
  assert (Hother : ∀ g', g' ≠ g → group_clusters fs g' ## K).
  { intros g' Hne. pose proof (groups_disjoint fs g' g Hbl Hne). set_solver. }
  constructor; [done..| | | |].
  - reflexivity.
  - intros f g' Hg' Hn. destruct (decide (g' = g)) as [->|Hne]; [|apply Hsame; [done|by left]].
    destruct Hn as [Hn|Hn]; [apply Hsame; [done|by right]|].
    exfalso. apply Hne0. set_solver.
  - intros g' Hg' Hn. destruct (decide (g' = g)) as [->|Hne]; [done|].
    destruct Hn as [Hn|Hn]; [exfalso; by apply Hn, Hother|].
    etrans; [exact (same_fs_verify _ _ gd' g' Hsf Hok1 Hg')|].
    etrans; [exact (gd_local_verify fs gd g _ g' Hok Hloc Hg Hg' Hne)|exact Hn].
  - intros g' Hg' Hn. destruct (decide (g' = g)) as [->|Hne]; [done|]. exfalso; by apply Hn, Hother.
Qed.

(** One round of the loop. *)
Lemma range_step_ok fs gd B b num inuse :
  gd_ok fs gd → super_ok (fs_super fs) → block_layout fs → blocks_ok fs gd B →
  s_first_data_block (fs_super fs) ≤ b → 0 < num < 2^32 → b + num ≤ ext2fs_blocks_count (fs_super fs) →
  (ratio fs | b) → (ratio fs | num) → use_set_ok inuse (zrange (b / ratio fs) (num / ratio fs)) B →
  ∃ n fs' gd', 0 < n ≤ num ∧ (ratio fs | n) ∧
    range_stats_step inuse (fs, b, num) = Some (inl (fs', b + n, num - n)) ∧
    range_done fs gd B (zrange (b / ratio fs) (n / ratio fs)) inuse fs' gd'.
Proof.
  intros Hok Hsb Hbl Hbo Hb Hnum Hend Hdb Hdn Hu. pose proof (ratio_pos fs Hbl) as Hr.
  pose proof (lo_count _ (bl_layout _ Hbl)) as Hcnt.
  destruct (group_of_blk_spec fs b Hbl ltac:(lia)) as (Hg & _ & _).
  destruct (group_last_spec fs b Hbl ltac:(lia)) as (Hlast & _ & Hdl).
  set (g := ext2fs_group_of_blk2 fs b) in *. set (last := ext2fs_group_last_block2 fs g) in *.
  assert (Hb0 : 0 ≤ b).
  { pose proof (get32_range 20 _ (proj1 Hsb)). unfold s_first_data_block in Hb. lia. }
  set (n := if bool_decide (last < u64 (b + num)) then u64 (last - b + 1) else num).
  assert (Hn : n = Z.min num (last - b + 1) ∧ (ratio fs | n)).
  { unfold n. rewrite !u64_small; [|lia..]. case_bool_decide; (split; [lia|]); [|done].
    destruct Hdl as [Hd|Hd]; [|assert (last - b + 1 = num) as -> by lia; done].
    replace (last - b + 1) with (last + 1 - b) by lia. by apply Z.divide_sub_r. }
  destruct Hn as [Hn [k Hk]]. assert (Hk0 : 0 < k) by nia.
  assert (Hnk : n / ratio fs = k) by (rewrite Hk Z.div_mul; lia).
  set (K := zrange (b / ratio fs) (n / ratio fs)).
  assert (HzK : zsize K = k) by (unfold zsize, K; rewrite size_zrange; lia).
  assert (HK : K ⊆ group_clusters fs g) by (apply range_in_group; [done|lia..|done|by exists k|change (b + n - 1 ≤ last); lia]).
  assert (HKne : K ≠ ∅) by (intros HK0; unfold zsize in HzK; rewrite HK0 size_empty in HzK; lia).
  assert (Huk : use_set_ok inuse K B).
  { assert (K ⊆ zrange (b / ratio fs) (num / ratio fs)).
    { intros x. unfold K. rewrite !elem_of_zrange. assert (n / ratio fs ≤ num / ratio fs) by (apply Z.div_le_mono; lia). lia. }
    destruct Hu as [[-> ?]|[-> ?]]; [left|right]; (split; [done|set_solver]). }
  destruct (group_range_done fs gd B K g inuse Hok Hsb Hbl Hbo Hg HK HKne Huk) as (Hrange & gd' & Hset & Hdone).
  rewrite HzK in Hrange, Hset, Hdone.
  exists n, (add_free (set_group_desc gd' fs) (- inuse * n)), gd'.
  assert (Hrk : ratio fs * k = n) by lia. rewrite Hrk in Hdone.
  split; [lia|]. split; [by exists k|]. split; [|exact Hdone]. unfold range_stats_step. rewrite bool_decide_eq_false_2; [|lia].
  fold g last n.
  pose proof (gd_read_val fs gd Hok GdFreeBlocks g Hg : ext2fs_bg_free_blocks_count fs g = _) as Hrd.
  rewrite Hrd (bo_free _ _ _ Hbo g Hg). cbn [mbind option_bind].
  rewrite (cluster_ratio fs Hbl) (clusters_unsigned (ratio fs) n k inuse);
    [|lia|exists (fs_cluster_ratio_bits fs); split; [apply Hbl|done]|done|lia..|by destruct Hu as [[? _]|[? _]]; [left|right]|lia].
  destruct (ext2fs_bg_free_blocks_count_set fs g _) as [fs1|]; [|done]. cbn [mbind option_bind] in Hset |- *.
  destruct (ext2fs_bg_flags_clear fs1 g _) as [fs2|]; [|done]. cbn [mbind option_bind] in Hset |- *.
  rewrite Hset. cbn [mbind option_bind].
  rewrite (u64_small (b + n)); [|lia]. rewrite (u32_small (num - n)); [|lia]. reflexivity.
Qed.

Lemma range_done_same fs gd B K inuse fs' gd' : range_done fs gd B K inuse fs' gd' →
  ratio fs' = ratio fs ∧ s_first_data_block (fs_super fs') = s_first_data_block (fs_super fs) ∧
  ext2fs_blocks_count (fs_super fs') = ext2fs_blocks_count (fs_super fs).
Proof.
  intros [_ _ _ _ [Hs _ _ _] Hr _ _ _]. cbn [fs_super set_group_desc] in Hs.
  split; [unfold ratio; by rewrite Hr|]. split.
  - unfold s_first_data_block. by rewrite (same_super_get (fs_super fs) (fs_super fs')) //; lia.
  - destruct blocks_count_counter as [-> _]. unfold counter_get. rewrite (same_super_64bit (fs_super fs) (fs_super fs')) //.
    rewrite !(same_super_get (fs_super fs) (fs_super fs')) //; lia.
Qed.

Lemma zrange_split a k n : 0 ≤ k ≤ n → zrange a n = zrange a k ∪ zrange (a + k) (n - k).
Proof. intros Hk. apply set_eq. intros x. rewrite elem_of_union !elem_of_zrange. lia. Qed.

Section range.
Context {ML : Malloc}.

(** The loop ends, having gone over the whole range. *)
Lemma range_loop_spec inuse Φ : ∀ (num : nat) fs gd B b,
  gd_ok fs gd → super_ok (fs_super fs) → block_layout fs → blocks_ok fs gd B →
  s_first_data_block (fs_super fs) ≤ b → Z.of_nat num < 2^32 →
  b + Z.of_nat num ≤ ext2fs_blocks_count (fs_super fs) →
  (ratio fs | b) → (ratio fs | Z.of_nat num) →
  use_set_ok inuse (zrange (b / ratio fs) (Z.of_nat num / ratio fs)) B →
  ⊢ (∀ fs' gd', ⌜range_done fs gd B (zrange (b / ratio fs) (Z.of_nat num / ratio fs)) inuse fs' gd'⌝ -∗
       Φ (fs', b + Z.of_nat num, 0)) -∗
    wp (loop (λ st, lift (range_stats_step inuse st)) (fs, b, Z.of_nat num)) Φ.
Proof.
  induction num as [num IH] using (well_founded_induction lt_wf).
  intros fs gd B b Hok Hsb Hbl Hbo Hb Hnum Hend Hdb Hdn Hu. iIntros "HΦ". iApply wp_loop.
  pose proof (ratio_pos fs Hbl) as Hr.
  destruct (decide (num = 0%nat)) as [->|Hne].
  - cbn [range_stats_step]. rewrite bool_decide_eq_true_2 //. cbn [lift]. wp_steps.
    rewrite Z.add_0_r. iApply "HΦ". iPureIntro. rewrite Z.div_0_l; [|lia].
    assert (zrange (b / ratio fs) 0 = ∅) as -> by (apply set_eq; intros x; rewrite elem_of_zrange; set_solver by lia).
    by apply range_done_nil.
  - destruct (range_step_ok fs gd B b (Z.of_nat num) inuse Hok Hsb Hbl Hbo Hb ltac:(lia) Hend Hdb Hdn Hu)
      as (n & fs1 & gd1 & Hn & Hdn1 & -> & Hdone).
    cbn [lift]. wp_steps. destruct (range_done_same _ _ _ _ _ _ _ Hdone) as (Er & Ef & Ec).
    replace (Z.of_nat num - n) with (Z.of_nat (num - Z.to_nat n)) by lia.
    set (num' := (num - Z.to_nat n)%nat) in *. assert (Hnum' : Z.of_nat num' = Z.of_nat num - n) by lia.
    destruct Hdb as [x ->], Hdn1 as [y ->], Hdn as [z Hz].
    assert (Hy : 0 < y ≤ z) by nia.
    assert (Hsplit : zrange (x * ratio fs / ratio fs) (Z.of_nat num / ratio fs) =
      zrange (x * ratio fs / ratio fs) (y * ratio fs / ratio fs) ∪
      zrange ((x * ratio fs + y * ratio fs) / ratio fs) (Z.of_nat num' / ratio fs)).
    { rewrite Hnum' Hz -Z.mul_sub_distr_r -Z.mul_add_distr_r !Z.div_mul; [|lia..]. apply zrange_split. lia. }
    assert (Hdisj : zrange (x * ratio fs / ratio fs) (y * ratio fs / ratio fs) ##
      zrange ((x * ratio fs + y * ratio fs) / ratio fs) (Z.of_nat num' / ratio fs)).
    { rewrite -Z.mul_add_distr_r !Z.div_mul; [|lia..]. intros w. rewrite !elem_of_zrange. lia. }
    rewrite Hsplit in Hu. destruct (use_set_union _ _ _ _ Hdisj Hu) as [_ Hu'].
    iApply (IH num' ltac:(lia) fs1 gd1 _ (x * ratio fs + y * ratio fs) with "[HΦ]").
    + apply Hdone.
    + apply Hdone.
    + apply Hdone.
    + exact (rd_blocks _ _ _ _ _ _ _ Hdone).
    + rewrite Ef. lia.
    + lia.
    + rewrite Ec. lia.
    + rewrite Er. exists (x + y). lia.
    + rewrite Er. exists (z - y). lia.
    + rewrite Er. exact Hu'.
    + iIntros (fs' gd' Hdone'). rewrite Er in Hdone'.
      replace (x * ratio fs + y * ratio fs + Z.of_nat num') with (x * ratio fs + Z.of_nat num) by lia.
      iApply "HΦ". iPureIntro. rewrite Hsplit. by eapply range_done_trans.
Qed.

Lemma range_done_dirty fs gd B K inuse fs' gd' :
  range_done fs gd B K inuse fs' gd' →
  range_done fs gd B K inuse (ext2fs_mark_bb_dirty (ext2fs_mark_super_dirty fs')) gd'.
Proof.
  intros Hd. assert (K = K ∪ ∅) as -> by set_solver. eapply range_done_trans.
  { exact Hd. }
  destruct Hd as [Hgd Hsb Hbl Hbo _ _ _ _ _]. set (fs2 := ext2fs_mark_bb_dirty (ext2fs_mark_super_dirty fs')).
  set (B1 := taken_set inuse K B) in *.
  assert (taken_set inuse ∅ B1 = B1) as HB by (unfold taken_set; case_decide; set_solver).
  assert (Hsf : same_fs fs' fs2) by (constructor; [apply same_super_refl, Hsb|done..]).
  assert (Hd : ∀ g, 0 ≤ g < fs_group_desc_count fs' →
    gd_ok fs2 gd' ∧ super_ok (fs_super fs2) ∧ block_layout fs2 ∧ blocks_ok fs2 gd' B1 ∧
    ext2fs_group_desc_csum_verify fs2 g = ext2fs_group_desc_csum_verify fs' g).
  { intros g Hg. exact (dirty_state fs' gd' B1 g Hgd Hsb Hbl Hbo Hg). }
  assert (Hg0 : 0 ≤ 0 < fs_group_desc_count fs').
  { destruct (bl_layout _ Hbl) as [_ Hbpg Hcnt Hgr _]. rewrite Hgr.
    assert (0 ≤ (ext2fs_blocks_count (fs_super fs') - s_first_data_block (fs_super fs') - 1) /
      s_blocks_per_group (fs_super fs')) by (apply Z.div_pos; lia). lia. }
  destruct (Hd 0 Hg0) as (H1 & H2 & H3 & H4 & _).
  constructor; [exact H1|exact H2|exact H3|by rewrite HB| |reflexivity|intros; reflexivity| |].
  - constructor; [apply same_super_refl, Hsb|exact (gd_some _ _ Hgd)|done..].
  - intros g Hg [Hn|Hv]; [exfalso; exact (Hn (disjoint_empty_r _))|].
    destruct (Hd g Hg) as (_ & _ & _ & _ & E). exact (eq_trans E Hv).
  - intros g Hg Hn. exfalso. exact (Hn (disjoint_empty_r _)).
Qed.

(** The clusters of a range, in the file system and in the bitmap. *)
Lemma covers_range fs map blk num : block_layout fs → covers_blocks fs map →
  s_first_data_block (fs_super fs) ≤ blk → 0 < num < 2^31 → blk + num ≤ ext2fs_blocks_count (fs_super fs) →
  (ratio fs | blk) → (ratio fs | num) →
  range_in map blk num ∧ gen_range map blk num = zrange (blk / ratio fs) (num / ratio fs).
Proof.
  intros Hbl Hcov Hblk Hnum Hend [x ->] [y ->]. pose proof (ratio_pos fs Hbl) as Hr.
  destruct (covers_block fs map (x * ratio fs) Hbl Hcov ltac:(lia)) as [Hin1 E1].
  destruct (covers_block fs map (x * ratio fs + y * ratio fs - 1) Hbl Hcov ltac:(lia)) as [Hin2 E2].
  pose proof (first_cluster_nonneg fs Hbl). pose proof (bl_first fs Hbl). pose proof (bl_fits fs Hbl) as Hf.
  assert (ext2fs_blocks_count (fs_super fs) ≤ ratio fs * end_cluster fs).
  { unfold end_cluster. pose proof (Z.div_mod (ext2fs_blocks_count (fs_super fs) - 1) (ratio fs) ltac:(lia)).
    pose proof (Z.mod_pos_bound (ext2fs_blocks_count (fs_super fs) - 1) (ratio fs) ltac:(lia)). lia. }
  assert (ratio fs * end_cluster fs < 2^63) by (destruct ext2fs_has_feature_64bit; lia).
  split; [split_and!; (done || nia)|]. unfold gen_range. rewrite E1 E2.
  assert ((x * ratio fs + y * ratio fs - 1) / ratio fs = x + y - 1) as ->.
  { symmetry. apply (Z.div_unique_pos _ _ _ (ratio fs - 1)); lia. }
  rewrite !Z.div_mul; [|lia..]. f_equal. lia.
Qed.

(** C19: Taking a range of clear clusters, or giving back a range of used ones, in
    as many groups as the range touches: the loop ends, the bitmap changes at
    those clusters only, and all the counters are again those of the bitmap.
    Every descriptor of the range loses its uninitialised mark and has a right
    checksum; the other descriptors, and other fields, are untouched. *)
Theorem block_alloc_stats_range_correct H a gd B blk num inuse :
  block_alloc_stats_range H = None →
  gd_ok (a_fs a) gd → super_ok (fs_super (a_fs a)) → block_layout (a_fs a) →
  blocks_ok (a_fs a) gd B → covers_blocks (a_fs a) (block_map a) →
  s_first_data_block (fs_super (a_fs a)) ≤ blk → 0 < num < 2^31 →
  blk + num ≤ ext2fs_blocks_count (fs_super (a_fs a)) →
  (ratio (a_fs a) | blk) → (ratio (a_fs a) | num) →
  let K := zrange (blk / ratio (a_fs a)) (num / ratio (a_fs a)) in
  use_set_ok inuse K B →
  hoare (generic_at (block_map a) B) (ext2fs_block_alloc_stats_range H a blk num inuse)
    (λ a', ⌜(∃ gd', range_done (a_fs a) gd B K inuse (a_fs a') gd') ∧
        inode_map a' = inode_map a ∧ block_map a' = block_map a⌝ ∗
      generic_at (block_map a) (taken_set inuse K B))%I.
Proof.
  intros Hh Hok Hsb Hbl Hbo Hcov Hblk Hnum Hend Hdb Hdn K Hu. apply wp_adequate. iIntros "Hm".
  lazymatch goal with |- context [wp _ ?Q] => set (Φ := Q) end.
  destruct (covers_range _ _ blk num Hbl Hcov Hblk Hnum Hend Hdb Hdn) as [Hin Hgr]. fold K in Hgr.
  pose proof (lo_count _ (bl_layout _ Hbl)) as Hcnt.
  pose proof (first_cluster_nonneg _ Hbl). pose proof (bl_first _ Hbl). pose proof (ratio_pos _ Hbl).
  assert (0 ≤ s_first_data_block (fs_super (a_fs a))) by nia.
  unfold ext2fs_block_alloc_stats_range. rewrite u64_small; [|lia].
  rewrite (bool_decide_eq_false_2 (_ < blk + num)); [|lia]. rewrite Hh.
  assert (Hi : inuse = 1 ∨ inuse = -1) by (destruct Hu as [[? _]|[? _]]; [by left|by right]).
  rewrite (bool_decide_eq_false_2 (inuse = 0)); [|lia].
  iAssert (∀ i : Z, ⌜i = inuse⌝ -∗ generic_at (block_map a) (taken_set inuse K B) -∗
    wp ('(fs, blk, num) ← loop (λ st, lift (range_stats_step i st)) (a_fs a, blk, num);
        mret (set_fs (ext2fs_mark_bb_dirty (ext2fs_mark_super_dirty fs)) a)) Φ)%I as "Hpost".
  { iIntros (i ->) "Hm". iApply wp_bind.
    pose proof (range_loop_spec inuse) as Hloop. specialize (λ Φ, Hloop Φ (Z.to_nat num)) as Hloop'.
    rewrite (Z2Nat.id num) in Hloop'; [|lia]. clear Hloop.
    iApply (Hloop' _ (a_fs a) gd B blk); [done|done|done|done|done|lia|done|done|done|exact Hu|].
    iIntros (fs' gd' Hd). wp_steps. unfold Φ. iFrame "Hm". iPureIntro. split; [|done].
    exists gd'. by apply range_done_dirty. }
  destruct Hu as [[-> Hx]|[-> Hx]].
  - rewrite (bool_decide_eq_true_2 (0 < 1)) //. wp_apply (mark_block_bitmap_range2_spec with "Hm"); [done|].
    iIntros "Hm". rewrite Hgr -taken_set_1. by iApply "Hpost".
  - rewrite (bool_decide_eq_false_2 (0 < -1)) //. wp_apply (unmark_block_bitmap_range2_spec with "Hm"); [done|].
    iIntros "Hm". rewrite Hgr -taken_set_neg. by iApply "Hpost".
Qed.
End range.

Lemma block_alloc_stats_range_witness :
  hoare (ML := bump_malloc) (generic_at (block_map alloc_demo) used_blocks)
    (ext2fs_block_alloc_stats_range no_handlers alloc_demo 20 15 1)
    (λ a', ⌜(∃ gd', range_done (a_fs alloc_demo) alloc_gd used_blocks
               (zrange (20 / ratio (a_fs alloc_demo)) (15 / ratio (a_fs alloc_demo))) 1 (a_fs a') gd') ∧
        inode_map a' = inode_map alloc_demo ∧ block_map a' = block_map alloc_demo⌝ ∗
      generic_at (block_map alloc_demo)
        (taken_set 1 (zrange (20 / ratio (a_fs alloc_demo)) (15 / ratio (a_fs alloc_demo))) used_blocks))%I.
Proof.
  apply (block_alloc_stats_range_correct (ML := bump_malloc) no_handlers alloc_demo alloc_gd used_blocks 20 15 1);
    [done|exact alloc_gd_ok|exact alloc_super_ok|exact alloc_layout_ok|exact alloc_blocks_ok|
     exact alloc_covers_blocks|done|done|done|by exists 20|by exists 15|].
  left. split; [done|]. change (20 / _) with 20. change (15 / _) with 15. unfold used_blocks.
  intros x. rewrite elem_of_zrange. set_solver by lia.
Defined.
