(* ===== verification/NewBlock.v ===== *)
(** * NewBlock: finding a free block

    [ext2fs_new_block3] without call-backs finds the first free block from the
    goal on, going round once, and fails only when there is none.  The one
    thing it changes is the mark of the block's group as uninitialised
    ([uninit_cleared]); the bitmap stays as it is. *)
From S2P Require Import Prelude.
From S2P Require Import Bytes.
From S2P Require Import Super.
From S2P Require Import Crc.
From S2P Require Import Blknum.
From S2P Require Import Csum.
From S2P Require Import CsumProps.
From S2P Require Import Mem.
From S2P Require Import SepLogic.
From S2P Require Import ExtMem.
From S2P Require Import Bitmap.
From S2P Require Import BlkmapRB.
From S2P Require Import BlkmapBA.
From S2P Require Import GenBitmap.
From S2P Require Import GenBitmapSpec.
From S2P Require Import BitmapProps.
From S2P Require Import Bitmaps.
From S2P Require Import Alloc.
From S2P Require Import GroupSpec.
From S2P Require Import AllocProps.
From S2P Require Import Clusters.
From S2P Require Import BlockProps.
#[local] Open Scope Z_scope.

(** ** The mark of a group *)

(** The descriptor of [g] is no longer marked; all else is as it was. *)
Record uninit_cleared (fs : ext2_filsys) (gd : list Z) (U : gset Z) (g : Z)
    (fs' : ext2_filsys) (gd' : list Z) : Prop := UninitCleared {
  uc_gd : gd_ok fs' gd';
  uc_super : super_ok (fs_super fs');
  uc_layout : block_layout fs';
  uc_blocks : blocks_ok fs' gd' U;
  uc_same : same_fs (set_group_desc gd' fs) fs';
  uc_ratio : fs_cluster_ratio_bits fs' = fs_cluster_ratio_bits fs;
  uc_fields : gd_same_but fs gd gd' g (λ f, f = GdFlags ∨ f = GdChecksum);
  uc_flag : ext2fs_has_group_desc_csum fs = true → Z.land (gd_val fs gd' GdFlags g) EXT2_BG_BLOCK_UNINIT = 0;
  uc_csum g' : 0 ≤ g' < fs_group_desc_count fs → ext2fs_group_desc_csum_verify fs g' = Some true →
    ext2fs_group_desc_csum_verify fs' g' = Some true;
}.

Lemma uninit_cleared_same fs gd U g : gd_ok fs gd → super_ok (fs_super fs) → block_layout fs → blocks_ok fs gd U →
  (ext2fs_has_group_desc_csum fs = true → Z.land (gd_val fs gd GdFlags g) EXT2_BG_BLOCK_UNINIT = 0) →
  uninit_cleared fs gd U g fs gd.
Proof.
  intros Hok Hsb Hbl Hbo Hfl. constructor; try assumption; try done.
  constructor; [apply same_super_refl, Hsb|exact (gd_some _ _ Hok)|done..].
Qed.

(** Other flags and checksums in the descriptors do not matter to the counters. *)
Lemma blocks_ok_desc fs gd gd' fs' U g : same_fs (set_group_desc gd' fs) fs' →
  fs_cluster_ratio_bits fs' = fs_cluster_ratio_bits fs →
  ext2fs_free_blocks_count (fs_super fs') = ext2fs_free_blocks_count (fs_super fs) →
  gd_same_but fs gd gd' g (λ f, f = GdFlags ∨ f = GdChecksum) → blocks_ok fs gd U → blocks_ok fs' gd' U.
Proof.
  intros Hsf Hr Hfree Hsame [Hg Ht]. destruct (block_same_fs fs gd' fs' Hsf Hr) as (Hgrp & Hall & Hrat).
  constructor; [|by rewrite Hfree Hall Hrat].
  intros g' Hg'. pose proof (sf_count _ _ Hsf) as Hc. cbn [fs_group_desc_count set_group_desc] in Hc. rewrite Hc in Hg'.
  rewrite Hgrp -Hg //. etrans; [exact (same_fs_val _ _ _ _ _ Hsf)|]. apply (Hsame GdFreeBlocks g'); [done|].
  right. naive_solver.
Qed.

Lemma clear_block_uninit_ok fs gd U g :
  gd_ok fs gd → super_ok (fs_super fs) → block_layout fs → blocks_ok fs gd U → 0 ≤ g < fs_group_desc_count fs →
  ∃ fs' gd', ext2fs_clear_block_uninit fs g = Some fs' ∧ uninit_cleared fs gd U g fs' gd'.
Proof.
  intros Hok Hsb Hbl Hbo Hg. unfold ext2fs_clear_block_uninit, flag_set.
  rewrite bool_decide_eq_false_2; [|lia].
  destruct (ext2fs_has_group_desc_csum fs) eqn:Hcs; cbn [negb mbind option_bind].
  2: { exists fs, gd. split; [done|]. apply uninit_cleared_same; (done || congruence). }
  pose proof (gd_read_val fs gd Hok GdFlags g Hg : gd_get 2 bg_flags fs g = _) as Hrd.
  unfold ext2fs_bg_flags_test at 1. rewrite Hrd. cbn [mbind option_bind].
  destruct (bool_decide (Z.land (gd_val fs gd GdFlags g) EXT2_BG_BLOCK_UNINIT ≠ 0)) eqn:Hfl; cbn [negb].
  2: { exists fs, gd. split; [done|]. apply uninit_cleared_same; [done..|]. intros _.
       apply bool_decide_eq_false in Hfl. by destruct (decide (Z.land (gd_val fs gd GdFlags g) EXT2_BG_BLOCK_UNINIT = 0)). }
  destruct (gd_flags_clear fs gd Hok g EXT2_BG_BLOCK_UNINIT Hg) as (gd1 & Hw1 & Hok1 & Hv1 & Hs1).
  pose proof (gd_flags_clear_local fs gd g _ _ Hok Hg Hw1) as Hl1.
  rewrite Hw1. cbn [mbind option_bind].
  destruct (gd_csum_set _ gd1 Hok1 g Hsb Hg) as (gd2 & Hw2 & Hok2 & Hver & Hs2).
  assert (Hl2 : gd_local fs gd g (set_group_desc gd2 fs)).
  { apply (gd_local_trans _ _ _ _ _ Hl1). intros gd1' Hok1'. by eapply gd_csum_set_local. }
  rewrite Hw2. cbn [mbind option_bind].
  change (set_group_desc gd2 (set_group_desc gd1 fs)) with (set_group_desc gd2 fs) in *.
  set (fs2 := set_group_desc gd2 fs) in *.
  assert (Hsame : gd_same_but fs gd gd2 g (λ f, f = GdFlags ∨ f = GdChecksum)).
  { intros f g' Hg' Hn. etrans; [apply (Hs2 f g'); [done|naive_solver]|apply Hs1; [done|naive_solver]]. }
  assert (Hbl2 : block_layout fs2).
  { apply (block_layout_same fs gd2); [done|exact Hsb| |done]. constructor; [apply same_super_refl, Hsb|done..]. }
  assert (Hbo2 : blocks_ok fs2 gd2 U).
  { apply (blocks_ok_desc fs gd gd2 fs2 U g); [|done..]. constructor; [apply same_super_refl, Hsb|done..]. }
  destruct (dirty_state fs2 gd2 U g Hok2 Hsb Hbl2 Hbo2 Hg) as (H1 & H2 & H3 & H4 & _).
  exists (ext2fs_mark_bb_dirty (ext2fs_mark_super_dirty fs2)), gd2. split; [done|].
  constructor; [done..| |done|done| |].
  - constructor; [apply same_super_refl, Hsb|done..].
  - intros _. assert (gd_val fs gd2 GdFlags g = gd_val fs gd1 GdFlags g) as -> by (apply (Hs2 GdFlags g); [done|by right]).
    rewrite Hv1 -Z.land_assoc. by rewrite (Z.land_comm (Z.lnot _)) Z.land_lnot_diag Z.land_0_r.
  - intros g' Hg' Hv. destruct (dirty_state fs2 gd2 U g' Hok2 Hsb Hbl2 Hbo2 Hg') as (_ & _ & _ & _ & E).
    refine (eq_trans E _). destruct (decide (g' = g)) as [->|Hne]; [exact Hver|].
    exact (eq_trans (gd_local_verify fs gd g fs2 g' Hok Hl2 Hg Hg' Hne) Hv).
Qed.

(** ** The search *)
Section search.
Context {ML : Malloc}.

(** A block of the file system whose cluster is clear. *)
Definition free_block (fs : ext2_filsys) (B : gset Z) (b : Z) : Prop :=
  s_first_data_block (fs_super fs) ≤ b < ext2fs_blocks_count (fs_super fs) ∧ b / ratio fs ∉ B.

(** Where the search starts. *)
Definition search_start (fs : ext2_filsys) (goal : Z) : Z :=
  if decide (goal = 0 ∨ ext2fs_blocks_count (fs_super fs) ≤ goal)
  then s_first_data_block (fs_super fs) else goal / ratio fs * ratio fs.

(** [b] is the first free block when one goes round from the start. *)
Definition first_free (fs : ext2_filsys) (B : gset Z) (goal b : Z) : Prop :=
  free_block fs B b ∧
  if decide (search_start fs goal ≤ b)
  then ∀ x, search_start fs goal ≤ x < b → ¬ free_block fs B x
  else ∀ x, x < b ∨ search_start fs goal ≤ x → ¬ free_block fs B x.

Definition no_free_block (fs : ext2_filsys) (B : gset Z) : Prop := ∀ x, ¬ free_block fs B x.

Lemma cluster_align k x : 0 ≤ k → Z.land x (Z.lnot (2 ^ k - 1)) = x / 2 ^ k * 2 ^ k.
Proof.
  intros Hk. assert (2 ^ k - 1 = Z.ones k) as -> by (rewrite Z.ones_equiv; lia).
  rewrite -Z.ldiff_land Z.ldiff_ones_r // Z.shiftl_mul_pow2 // Z.shiftr_div_pow2 //.
Qed.

Lemma search_start_spec fs goal : block_layout fs → goal = 0 ∨ s_first_data_block (fs_super fs) ≤ goal →
  s_first_data_block (fs_super fs) ≤ search_start fs goal < ext2fs_blocks_count (fs_super fs) ∧
  Z.land (if bool_decide (goal = 0 ∨ ext2fs_blocks_count (fs_super fs) ≤ goal)
          then s_first_data_block (fs_super fs) else goal) (Z.lnot (EXT2FS_CLUSTER_MASK fs)) = search_start fs goal.
Proof.
  intros Hbl Hg. pose proof (ratio_pos fs Hbl) as Hr. pose proof (lo_count _ (bl_layout fs Hbl)) as Hc.
  pose proof (bl_first fs Hbl) as Hf. pose proof (first_cluster_nonneg fs Hbl).
  assert (Hal : ∀ x, Z.land x (Z.lnot (EXT2FS_CLUSTER_MASK fs)) = x / ratio fs * ratio fs).
  { intros x. unfold EXT2FS_CLUSTER_MASK. rewrite (cluster_ratio fs Hbl). apply cluster_align, bl_bits, Hbl. }
  rewrite Hal. unfold search_start. case_bool_decide as Hb; [rewrite decide_True //|rewrite decide_False //].
  - rewrite Hf Z.div_mul; [|lia]. split; [lia|done].
  - split; [|done]. pose proof (Z.div_mod goal (ratio fs) ltac:(lia)). pose proof (Z.mod_pos_bound goal (ratio fs) ltac:(lia)).
    split; [|nia]. assert (first_cluster fs ≤ goal / ratio fs); [|nia]. apply Z.div_le_lower_bound; lia.
Qed.

(** One search finds the first free block between two blocks. *)
Lemma find_zero_block_spec fs B map s e Φ : block_layout fs → covers_blocks fs map → B ≠ ∅ →
  s_first_data_block (fs_super fs) ≤ s ≤ e → e < ext2fs_blocks_count (fs_super fs) →
  generic_at map B -∗
  (∀ r, ⌜is_first (free_block fs B) s e r⌝ -∗ generic_at map B -∗ Φ r) -∗
  wp (ext2fs_find_first_zero_block_bitmap2 map s e) Φ.
Proof.
  iIntros (Hbl Hcov HB Hse He) "Hm HΦ".
  pose proof (lo_count _ (bl_layout fs Hbl)) as Hc. pose proof (bl_first fs Hbl) as Hf.
  pose proof (ratio_pos fs Hbl). pose proof (first_cluster_nonneg fs Hbl).
  assert (0 ≤ s_first_data_block (fs_super fs)) by nia.
  destruct (covers_block fs map s Hbl Hcov ltac:(lia)) as [Hs _].
  destruct (covers_block fs map e Hbl Hcov ltac:(lia)) as [Hee _].
  iApply (find_first_bmap_spec false with "Hm"); [lia..|]. iIntros (r Hr) "Hm".
  rewrite decide_True in Hr; [|split; [lia|done]]. iApply ("HΦ" with "[%] Hm").
  apply found_block_first in Hr; [|by right; right]. eapply is_first_ext; [|exact Hr].
  intros x Hx. destruct (covers_block fs map x Hbl Hcov ltac:(lia)) as [_ Hbit].
  unfold free_block. cbn. rewrite Hbit. split; [|by intros [_ ?]]. intros ?. split; [lia|done].
Qed.

Lemma search_block_spec fs B goal map Φ : block_layout fs → covers_blocks fs map → B ≠ ∅ →
  goal = 0 ∨ s_first_data_block (fs_super fs) ≤ goal →
  generic_at map B -∗
  (∀ r, ⌜(r.1 = E_OK ∧ first_free fs B goal r.2) ∨ (r.1 = ENOENT ∧ no_free_block fs B)⌝ -∗
     generic_at map B -∗ Φ r) -∗
  wp (search_block fs goal map) Φ.
Proof.
  iIntros (Hbl Hcov HB Hg) "Hm HΦ". destruct (search_start_spec fs goal Hbl Hg) as [Hs E].
  pose proof (lo_count _ (bl_layout fs Hbl)) as Hc. pose proof (bl_first fs Hbl) as Hf.
  pose proof (ratio_pos fs Hbl). pose proof (first_cluster_nonneg fs Hbl).
  assert (0 ≤ s_first_data_block (fs_super fs)) by nia.
  unfold search_block. rewrite E. rewrite (u64_small (ext2fs_blocks_count (fs_super fs) - 1)); [|lia].
  wp_apply (find_zero_block_spec fs B with "Hm"); [done..|lia|lia|]. iIntros (r Hr) "Hm".
  set (s0 := search_start fs goal) in *.
  destruct (decide (r.1 = E_OK)) as [Hok|Hko].
  { rewrite bool_decide_eq_false_2; [|rewrite Hok; by intros []]. wp_steps. iApply ("HΦ" with "[%] Hm"). left.
    destruct (is_first_ok _ _ _ _ Hr Hok) as (Hin & Hfree & Hbefore). split; [done|]. split; [done|].
    fold s0. by rewrite decide_True; [|lia]. }
  destruct (is_first_ko _ _ _ _ Hr Hko) as [Hno Hnone].
  assert (Hafter : ∀ x, s0 ≤ x → ¬ free_block fs B x).
  { intros x Hx Hfree. apply (Hnone x); [|done]. destruct Hfree. lia. }
  rewrite Hno. destruct (decide (s0 = s_first_data_block (fs_super fs))) as [Heq|Hne].
  { rewrite bool_decide_eq_false_2; [|intros [_ ?]; done]. wp_steps. iApply ("HΦ" with "[%] Hm"). right.
    split; [done|]. intros x Hfree. apply (Hafter x); [|done]. destruct Hfree. lia. }
  rewrite bool_decide_eq_true_2 //. rewrite (u64_small (s0 - 1)); [|lia].
  wp_apply (find_zero_block_spec fs B with "Hm"); [done..|lia|lia|]. iIntros (r' Hr') "Hm".
  iApply ("HΦ" with "[%] Hm"). destruct (decide (r'.1 = E_OK)) as [Hok'|Hko'].
  - left. destruct (is_first_ok _ _ _ _ Hr' Hok') as (Hin & Hfree & Hbefore). split; [done|]. split; [done|].
    fold s0. rewrite decide_False; [|lia]. intros x [Hx|Hx]; [|by apply Hafter].
    intros Hf'. apply (Hbefore x); [|done]. destruct Hf'. lia.
  - right. destruct (is_first_ko _ _ _ _ Hr' Hko') as [-> Hnone']. split; [done|]. intros x Hfree.
    destruct (decide (s0 ≤ x)); [by apply (Hafter x)|]. apply (Hnone' x); [|done]. destruct Hfree. lia.
Qed.
End search.

(** ** [ext2fs_new_block3] *)
Section new_block.
Context {ML : Malloc}.

(** What a call returns: the first free block, whose group is no longer marked
    as uninitialised, or an error and the file system as it was. *)
Definition block_found (a : alloc_fs) (gd : list Z) (B U : gset Z) (goal : Z) (r : errcode * Z * alloc_fs) : Prop :=
  (r.1.1 = E_OK ∧ first_free (a_fs a) B goal r.1.2 ∧
     inode_map r.2 = inode_map a ∧ block_map r.2 = block_map a ∧
     ∃ gd', uninit_cleared (a_fs a) gd U (ext2fs_group_of_blk2 (a_fs a) r.1.2) (a_fs r.2) gd') ∨
  (r = (EXT2_ET_BLOCK_ALLOC_FAIL, 0, a) ∧ no_free_block (a_fs a) B).

Lemma new_block3_spec H a gd B U goal map ctx Φ :
  let m := if is_null map then block_map a else map in
  fs_magic (a_fs a) = EXT2_ET_MAGIC_EXT2FS_FILSYS →
  (is_null map = true → get_alloc_block H = None ∧ get_alloc_block2 H = None) →
  gd_ok (a_fs a) gd → super_ok (fs_super (a_fs a)) → block_layout (a_fs a) → blocks_ok (a_fs a) gd U →
  covers_blocks (a_fs a) m → B ≠ ∅ → goal = 0 ∨ s_first_data_block (fs_super (a_fs a)) ≤ goal →
  generic_at m B -∗ (∀ r, ⌜block_found a gd B U goal r⌝ -∗ generic_at m B -∗ Φ r) -∗
  wp (ext2fs_new_block3 H a goal map ctx) Φ.
Proof.
  iIntros (m Hmag Hh Hok Hsb Hbl Hbo Hcov HB Hgoal) "Hm HΦ".
  iAssert ⌜is_null m = false⌝%I as %Hnn.
  { iDestruct (generic_magic with "Hm") as %(mg & _ & Hk). iPureIntro. clearbody m. by destruct m. }
  unfold ext2fs_new_block3. rewrite bool_decide_eq_false_2; [|by rewrite Hmag; intros []].
  iAssert (wp (if is_null m then mret (EXT2_ET_NO_BLOCK_BITMAP, 0, a)
     else r ← search_block (a_fs a) goal m; block_allocated a r) Φ) with "[Hm HΦ]" as "Hw".
  { rewrite Hnn. wp_apply (search_block_spec (a_fs a) B with "Hm"); [done..|]. iIntros (r Hr) "Hm".
    unfold block_allocated. destruct Hr as [[Hr1 Hfree]|[Hr1 Hno]].
    - rewrite Hr1. rewrite (bool_decide_eq_false_2 (E_OK = ENOENT)); [|done].
      rewrite (bool_decide_eq_false_2 (E_OK ≠ E_OK)); [|by intros []].
      destruct (group_of_blk_spec _ r.2 Hbl (proj1 (proj1 Hfree))) as [Hg _].
      destruct (clear_block_uninit_ok _ gd U _ Hok Hsb Hbl Hbo Hg) as (fs' & gd' & -> & Huc).
      cbn [lift]. wp_steps. iApply ("HΦ" with "[%] Hm"). left. cbn [fst snd]. split_and!; [done..|]. by exists gd'.
    - rewrite Hr1. rewrite bool_decide_eq_true_2 //. wp_steps. iApply ("HΦ" with "[%] Hm"). by right. }
  unfold m. destruct (is_null map) eqn:Hnull; [destruct (Hh eq_refl) as [-> ->]|]; iApply "Hw".
Qed.

(** C21: Without call-backs, or with a bitmap of the caller's, [ext2fs_new_block3]
    finds the first free block from the goal on, going round once; it fails
    exactly when no block is free.  The bitmap must have a used block, since a
    red-black tree without extents finds no clear bit, and does not change, and of the file
    system only the mark of the block's group as uninitialised. *)
Theorem new_block_correct H a gd B U goal map ctx :
  let m := if is_null map then block_map a else map in
  fs_magic (a_fs a) = EXT2_ET_MAGIC_EXT2FS_FILSYS →
  (is_null map = true → get_alloc_block H = None ∧ get_alloc_block2 H = None) →
  gd_ok (a_fs a) gd → super_ok (fs_super (a_fs a)) → block_layout (a_fs a) → blocks_ok (a_fs a) gd U →
  covers_blocks (a_fs a) m → B ≠ ∅ → goal = 0 ∨ s_first_data_block (fs_super (a_fs a)) ≤ goal →
  hoare (generic_at m B) (ext2fs_new_block3 H a goal map ctx)
    (λ r, ⌜block_found a gd B U goal r⌝ ∗ generic_at m B)%I.
Proof.
  intros m Hmag Hh Hok Hsb Hbl Hbo Hcov HB Hgoal. apply wp_adequate. iIntros "Hm".
  iApply (new_block3_spec with "Hm"); [done..|]. iIntros (r Hr) "Hm". by iFrame.
Qed.
End new_block.

Lemma alloc_used_blocks : used_blocks ≠ ∅.
Proof. unfold used_blocks. intros E. assert (1 ∈ (∅ : gset Z)) as Hin by (rewrite -E; set_solver). set_solver. Qed.

Lemma new_block_witness :
  hoare (ML := bump_malloc) (generic_at (block_map alloc_demo) used_blocks)
    (ext2fs_new_block3 no_handlers alloc_demo 40 NullBitmap None)
    (λ r, ⌜block_found alloc_demo alloc_gd used_blocks used_blocks 40 r⌝ ∗
      generic_at (block_map alloc_demo) used_blocks)%I.
Proof.
  apply (new_block_correct (ML := bump_malloc) no_handlers alloc_demo alloc_gd used_blocks used_blocks 40 NullBitmap None);
    [done|done|exact alloc_gd_ok|exact alloc_super_ok|exact alloc_layout_ok|exact alloc_blocks_ok|
     exact alloc_covers_blocks|exact alloc_used_blocks|by right].
Defined.
