(* ===== verification/NewInode.v ===== *)
(** * NewInode: finding a free inode

    [ext2fs_new_inode] goes over the inodes from the parent's group on, in
    steps of about a group, and round to the first usable inode.  On its way it
    clears the bitmap of the groups marked as uninitialised, and their marks
    ([marks_cleared]).  As long as no inode of such a group is in use the bitmap
    does not change, the loop ends, and the first free inode is found. *)
From S2P Require Import Prelude.
From S2P Require Import Bytes.
From S2P Require Import Super.
From S2P Require Import Crc.
From S2P Require Import Blknum.
From S2P Require Import Csum.
From S2P Require Import CsumProps.
From S2P Require Import Mem.
From S2P Require Import SepLogic.
From S2P Require Import ExtMem.
From S2P Require Import Bitmap.
From S2P Require Import BlkmapRB.
From S2P Require Import BlkmapBA.
From S2P Require Import GenBitmap.
From S2P Require Import GenBitmapSpec.
From S2P Require Import BitmapProps.
From S2P Require Import Bitmaps.
From S2P Require Import Alloc.
From S2P Require Import GroupSpec.
From S2P Require Import AllocProps.
From S2P Require Import Clusters.
#[local] Open Scope Z_scope.

(** ** The marks of groups *)

(** Both marks of some groups are cleared; the checksums that were right are
    right. *)
Record marks_cleared (fs : ext2_filsys) (gd : list Z) (fs' : ext2_filsys) (gd' : list Z) : Prop := MarksCleared {
  mc_gd : gd_ok fs' gd';
  mc_super : fs_super fs' = fs_super fs;
  mc_same : same_fs (set_group_desc gd' fs) fs';
  mc_fields f g : 0 ≤ g < fs_group_desc_count fs → f ≠ GdFlags → f ≠ GdChecksum →
    gd_val fs gd' f g = gd_val fs gd f g;
  mc_flags g : 0 ≤ g < fs_group_desc_count fs →
    gd_val fs gd' GdFlags g = gd_val fs gd GdFlags g ∨
    gd_val fs gd' GdFlags g =
      Z.land (gd_val fs gd GdFlags g) (Z.lnot (Z.lor EXT2_BG_INODE_UNINIT EXT2_BG_BLOCK_UNINIT));
  mc_csum g : 0 ≤ g < fs_group_desc_count fs → ext2fs_group_desc_csum_verify fs g = Some true →
    ext2fs_group_desc_csum_verify fs' g = Some true;
}.

Lemma marks_cleared_refl fs gd : gd_ok fs gd → super_ok (fs_super fs) → marks_cleared fs gd fs gd.
Proof.
  intros Hok Hsb. constructor; try done; [|by left].
  constructor; [apply same_super_refl, Hsb|exact (gd_some _ _ Hok)|done..].
Qed.

Lemma marks_cleared_trans fs gd fs1 gd1 fs2 gd2 : super_ok (fs_super fs) →
  marks_cleared fs gd fs1 gd1 → marks_cleared fs1 gd1 fs2 gd2 → marks_cleared fs gd fs2 gd2.
Proof.
  intros Hsb [Hgd1 Hs1 Hsf1 Hf1 Hfl1 Hc1] [Hgd2 Hs2 Hsf2 Hf2 Hfl2 Hc2].
  pose proof (sf_count _ _ Hsf1) as Hcount. cbn [fs_group_desc_count set_group_desc] in Hcount.
  assert (Hval : ∀ gd f g, gd_val fs1 gd f g = gd_val fs gd f g) by (intros; unfold gd_val; by rewrite Hs1).
  constructor; [done|congruence|by eapply same_fs_desc_trans| | |].
  - intros f g Hg Hn1 Hn2. rewrite -Hval Hf2 ?Hcount // Hval. by apply Hf1.
  - intros g Hg. specialize (Hfl2 g). rewrite Hcount !Hval in Hfl2. specialize (Hfl2 Hg).
    destruct Hfl2 as [->| ->]; [by apply Hfl1|]. right. destruct (Hfl1 g Hg) as [->| ->]; [done|].
    by rewrite -Z.land_assoc Z.land_diag.
  - intros g Hg Hv. apply Hc2; [by rewrite Hcount|by apply Hc1].
Qed.

Lemma marks_cleared_inodes fs gd fs' gd' I D : marks_cleared fs gd fs' gd' → inodes_ok fs gd I D → inodes_ok fs' gd' I D.
Proof.
  intros [_ Hs Hsf Hf _ _] [Hd Hfree Hdirs Hun Ht].
  pose proof (sf_count _ _ Hsf) as Hc. cbn [fs_group_desc_count set_group_desc] in Hc.
  assert (Hval : ∀ f g, 0 ≤ g < fs_group_desc_count fs → f ≠ GdFlags → f ≠ GdChecksum →
    gd_val fs' gd' f g = gd_val fs gd f g).
  { intros f g Hg H1 H2. rewrite -(Hf f g Hg H1 H2). unfold gd_val. by rewrite Hs. }
  assert (Hgrp : ∀ g, group_inodes fs' g = group_inodes fs g) by (intros; unfold group_inodes; by rewrite Hs).
  pose proof (same_fs_csum _ _ Hsf : ext2fs_has_group_desc_csum fs' = ext2fs_has_group_desc_csum fs) as Hcs.
  constructor; rewrite ?Hc ?Hs ?Hcs //.
  - intros g Hg. rewrite Hval // Hgrp. by apply Hfree.
  - intros g Hg. rewrite Hval // Hgrp. by apply Hdirs.
  - intros g Hg Hcsum. rewrite Hval //. by apply Hun.
Qed.

(** No inode of a group marked as uninitialised is in use. *)
Definition inodes_init (fs : ext2_filsys) (gd : list Z) (I : gset Z) : Prop :=
  ∀ g, 0 ≤ g < fs_group_desc_count fs → ext2fs_has_group_desc_csum fs = true →
    Z.land (gd_val fs gd GdFlags g) EXT2_BG_INODE_UNINIT ≠ 0 → group_inodes fs g ## I.

Lemma marks_cleared_init fs gd fs' gd' I : marks_cleared fs gd fs' gd' → inodes_init fs gd I → inodes_init fs' gd' I.
Proof.
  intros [_ Hs Hsf _ Hfl _] Hin g Hg Hcsum Hun.
  pose proof (sf_count _ _ Hsf) as Hc. cbn [fs_group_desc_count set_group_desc] in Hc. rewrite Hc in Hg.
  pose proof (same_fs_csum _ _ Hsf : ext2fs_has_group_desc_csum fs' = ext2fs_has_group_desc_csum fs) as Hcs.
  rewrite Hcs in Hcsum. unfold group_inodes. rewrite Hs. apply Hin; [done..|].
  assert (gd_val fs' gd' GdFlags g = gd_val fs gd' GdFlags g) as Hv by (unfold gd_val; by rewrite Hs).
  rewrite Hv in Hun. destruct (Hfl g Hg) as [E|E]; rewrite E in Hun; [done|]. exfalso. apply Hun.
  rewrite -Z.land_assoc. change (Z.land (Z.lnot (Z.lor _ _)) _) with 0. apply Z.land_0_r.
Qed.

(** The descriptor of one group. *)
Lemma uninit_flags_ok fs gd g : gd_ok fs gd → super_ok (fs_super fs) → 0 ≤ g < fs_group_desc_count fs →
  ∃ fs' gd', (fs ← ext2fs_bg_flags_clear fs g EXT2_BG_INODE_UNINIT;
              fs ← ext2fs_bg_flags_clear fs g EXT2_BG_BLOCK_UNINIT;
              ext2fs_group_desc_csum_set fs g) = Some fs' ∧
    marks_cleared fs gd (ext2fs_mark_super_dirty (ext2fs_mark_ib_dirty fs')) gd'.
Proof.
  intros Hok Hsb Hg.
  destruct (gd_flags_clear fs gd Hok g EXT2_BG_INODE_UNINIT Hg) as (gd1 & Hw1 & Hok1 & Hv1 & Hs1).
  pose proof (gd_flags_clear_local fs gd g _ _ Hok Hg Hw1) as Hl1. rewrite Hw1. cbn [mbind option_bind].
  destruct (gd_flags_clear _ gd1 Hok1 g EXT2_BG_BLOCK_UNINIT Hg) as (gd2 & Hw2 & Hok2 & Hv2 & Hs2).
  assert (Hl2 : gd_local fs gd g (set_group_desc gd2 fs)).
  { apply (gd_local_trans _ _ _ _ _ Hl1). intros gd1' Hok1'. by eapply gd_flags_clear_local. }
  rewrite Hw2. cbn [mbind option_bind].
  destruct (gd_csum_set _ gd2 Hok2 g Hsb Hg) as (gd3 & Hw3 & Hok3 & Hver & Hs3).
  assert (Hl3 : gd_local fs gd g (set_group_desc gd3 fs)).
  { apply (gd_local_trans _ _ _ _ _ Hl2). intros gd2' Hok2'. by eapply gd_csum_set_local. }
  set (fs3 := set_group_desc gd3 fs) in *. exists fs3, gd3. split; [exact Hw3|].
  set (fs' := ext2fs_mark_super_dirty (ext2fs_mark_ib_dirty fs3)).
  assert (Hsf : same_fs fs3 fs') by (constructor; [apply same_super_refl, Hsb|done..]).
  assert (Hfl : gd_val fs gd3 GdFlags g = Z.land (gd_val fs gd GdFlags g)
    (Z.lnot (Z.lor EXT2_BG_INODE_UNINIT EXT2_BG_BLOCK_UNINIT))).
  { etrans; [apply (Hs3 GdFlags g); [done|by right]|]. etrans; [exact Hv2|].
    etrans; [exact (f_equal (λ x, Z.land x _) Hv1)|]. by rewrite -Z.land_assoc. }
  constructor; [exact (same_fs_gd_ok _ _ _ Hsf Hok3)|done|exact Hsf| | |].
  - intros f g' Hg' Hn1 Hn2. etrans; [apply (Hs3 f g'); [done|by right]|].
    etrans; [apply (Hs2 f g'); [done|by right]|]. apply Hs1; [done|by right].
  - intros g' Hg'. destruct (decide (g' = g)) as [->|Hne]; [by right|]. left.
    etrans; [apply (Hs3 GdFlags g'); [done|by left]|].
    etrans; [apply (Hs2 GdFlags g'); [done|by left]|]. apply Hs1; [done|by left].
  - intros g' Hg' Hv. refine (eq_trans (same_fs_verify fs3 fs' gd3 g' Hsf Hok3 Hg') _).
    destruct (decide (g' = g)) as [->|Hne]; [exact Hver|].
    exact (eq_trans (gd_local_verify fs gd g fs3 g' Hok Hl3 Hg Hg' Hne) Hv).
Qed.

Section uninit.
Context {ML : Malloc}.

Lemma check_inode_uninit_spec fs gd I map g Φ :
  gd_ok fs gd → super_ok (fs_super fs) → inode_layout fs → covers_inodes fs map → inodes_init fs gd I →
  0 ≤ g < fs_group_desc_count fs →
  generic_at map I -∗
  (∀ fs' gd', ⌜marks_cleared fs gd fs' gd'⌝ -∗ generic_at map I -∗ Φ fs') -∗
  wp (check_inode_uninit fs map g) Φ.
Proof.
  iIntros (Hok Hsb Hil Hcov Hinit Hg) "Hm HΦ". pose proof Hil as [Hipg _ Hc Hr].
  unfold check_inode_uninit, flag_set. rewrite bool_decide_eq_false_2; [|lia].
  destruct (ext2fs_has_group_desc_csum fs) eqn:Hcs; cbn [negb].
  2: { cbn [lift]. wp_steps. cbn [negb]. wp_steps. iApply ("HΦ" $! fs gd with "[%] Hm"). by apply marks_cleared_refl. }
  pose proof (gd_read_val fs gd Hok GdFlags g Hg : gd_get 2 bg_flags fs g = _) as Hrd.
  unfold ext2fs_bg_flags_test at 1. rewrite Hrd. cbn [mbind option_bind lift]. wp_steps.
  destruct (bool_decide (Z.land (gd_val fs gd GdFlags g) EXT2_BG_INODE_UNINIT ≠ 0)) eqn:Hfl; cbn [negb].
  2: { wp_steps. iApply ("HΦ" $! fs gd with "[%] Hm"). by apply marks_cleared_refl. }
  apply bool_decide_eq_true in Hfl. pose proof (Hinit g Hg Hcs Hfl) as Hdis.
  set (ipg := s_inodes_per_group (fs_super fs)) in *.
  assert (g * ipg + ipg ≤ s_inodes_count (fs_super fs)) by nia.
  rewrite (u32_small (g * ipg + 1)); [|nia]. iApply wp_bind.
  iApply (wp_wand with "[Hm]").
  { iApply (wp_for_range (λ _, generic_at map I) with "Hm"). intros i Hi. iIntros "Hm".
    rewrite u32_small; [|nia]. unfold ext2fs_fast_unmark_inode_bitmap2.
    wp_apply (unmark_generic_bmap_spec with "Hm"); [nia|]. iIntros (v _) "Hm".
    destruct (covers_in fs map i Hcov) as [Hin Hbit]; [nia|]. rewrite unmarked_in // Hbit.
    assert (I ∖ {[i]} = I) as ->; [|by wp_steps]. 
    assert (i ∉ I); [|set_solver]. intros HI. apply (Hdis i); [|done].
    unfold group_inodes. fold ipg. rewrite elem_of_zrange. lia. }
  iIntros (_) "Hm". destruct (uninit_flags_ok fs gd g Hok Hsb Hg) as (fs' & gd' & -> & Hmc).
  cbn [lift]. wp_steps. iApply ("HΦ" with "[%] Hm"). exact Hmc.
Qed.
End uninit.

(** ** The search *)
Section search.
Context {ML : Malloc}.
Context (sb : list Z) (start : Z) (I : gset Z).

Abbreviation first := (EXT2_FIRST_INO sb).
Abbreviation final := (s_inodes_count sb).

(** The inodes seen when the search has come from [start] to [i]. *)
Definition seen (i x : Z) : Prop :=
  if decide (start ≤ i) then start ≤ x < i else start ≤ x ≤ final ∨ (first ≤ x < i).

(** What is left of the search. *)
Definition inodes_left (i : Z) : nat :=
  Z.to_nat (if decide (start ≤ i) then final + 1 - i + (start - first) + 1 else start - i).

(** [x] is the first free inode from [start] on, going round. *)
Definition first_free_inode (x : Z) : Prop :=
  (first ≤ x ≤ final) ∧ ¬ x ∈ I ∧ ∀ y, seen x y → y ∈ I.

Definition all_inodes_used : Prop := ∀ y, first ≤ y ≤ final → y ∈ I.

Lemma find_zero_inode_spec fs map s e Φ : fs_super fs = sb → inode_layout fs → covers_inodes fs map → I ≠ ∅ →
  1 ≤ s ≤ e → e ≤ final →
  generic_at map I -∗
  (∀ r, ⌜is_first (λ x, x ∉ I) s e r⌝ -∗ generic_at map I -∗ Φ r) -∗
  wp (ext2fs_find_first_zero_inode_bitmap2 map s e) Φ.
Proof.
  iIntros (<- Hil Hcov HI Hse He) "Hm HΦ". pose proof (il_range _ Hil) as Hr.
  destruct (covers_in fs map s Hcov ltac:(lia)) as [Hs _]. destruct (covers_in fs map e Hcov ltac:(lia)) as [Hee _].
  unfold ext2fs_find_first_zero_inode_bitmap2.
  wp_apply (find_first_bmap_spec false with "Hm"); [lia..|]. iIntros (r Hfr) "Hm".
  rewrite decide_True in Hfr; [|split; [lia|done]]. wp_steps. iApply ("HΦ" with "[%] Hm").
  apply found_block_first in Hfr; [|by right; right].
  assert (is_first (λ x, x ∉ I) s e r) as Hf.
  { eapply is_first_ext; [|exact Hfr]. intros x Hx. destruct (covers_in fs map x Hcov ltac:(lia)) as [_ Hbit].
    cbn. by rewrite Hbit. }
  destruct Hf as [(H1 & H2 & H3)|H1]; [left|by right]. cbn [fst snd]. rewrite u32_small; [done|lia].
Qed.

(** One round: the inodes up to [upto] are seen. *)
Lemma new_inode_window fs i : fs_super fs = sb → inode_layout fs → 1 ≤ first → first ≤ start ≤ final → first ≤ i ≤ final →
  let ipg := s_inodes_per_group sb in
  let upto := u32 (i + (ipg - u32 (i - 1) mod ipg)) in
  let upto := if bool_decide (i < start ∧ start ≤ upto) then u32 (start - 1) else upto in
  let upto := if bool_decide (final < upto) then final else upto in
  let i' := if bool_decide (final < u32 (upto + 1)) then first else u32 (upto + 1) in
  i ≤ upto ≤ final ∧ (i < start → upto < start) ∧
  (∀ x, i ≤ x ≤ upto → ∀ y, seen x y ↔ seen i y ∨ i ≤ y < x) ∧
  first ≤ i' ≤ final ∧
  (if decide (i' = start)
   then ∀ y, first ≤ y ≤ final → seen i y ∨ i ≤ y ≤ upto
   else (inodes_left i' < inodes_left i)%nat ∧ ∀ y, seen i' y → seen i y ∨ i ≤ y ≤ upto).
Proof.
  intros Hsb [Hipg _ Hc Hr] Hf Hst Hi ipg. rewrite Hsb in Hipg, Hc, Hr. fold ipg in Hipg, Hc.
  rewrite (u32_small (i - 1)); [|lia]. pose proof (Z.mod_pos_bound (i - 1) ipg ltac:(lia)) as Hm.
  set (m := (i - 1) mod ipg) in *. clearbody m. rewrite (u32_small (i + (ipg - m))); [|lia].
  rewrite (u32_small (start - 1)); [|lia]. intros u0 upto0 upto.
  assert (Hup : upto = Z.min final (if decide (i < start) then Z.min (start - 1) (i + (ipg - m)) else i + (ipg - m))).
  { assert (upto0 = if decide (i < start) then Z.min (start - 1) (i + (ipg - m)) else i + (ipg - m)) as E0.
    { unfold upto0, u0. case_bool_decide; case_decide; lia. }
    unfold upto. rewrite -E0. case_bool_decide; lia. }
  assert (Hu : i ≤ upto ≤ final ∧ (i < start → upto < start)) by (rewrite Hup; case_decide; lia).
  clearbody upto. clear u0 upto0 Hup. rewrite (u32_small (upto + 1)); [|lia].
  destruct Hu as [Hu1 Hu2]. unfold seen, inodes_left. cbv zeta. set (i' := if bool_decide (final < upto + 1) then first else upto + 1).
  assert (Hi' : i' = if decide (final < upto + 1) then first else upto + 1) by (unfold i'; repeat case_decide; case_bool_decide; (done || lia)).
  clearbody i'. subst i'. split; [done|]. split; [done|]. split.
  - intros x Hx y. repeat case_decide; lia.
  - split; [case_decide; lia|]. repeat case_decide; try lia; (split; [lia|intros y; lia]) || (intros y; lia).
Qed.

Record search_ok (fs : ext2_filsys) (gd : list Z) (map : generic_bitmap) : Prop := SearchOk {
  so_super : fs_super fs = sb;
  so_gd : gd_ok fs gd;
  so_bytes : super_ok sb;
  so_layout : inode_layout fs;
  so_map : covers_inodes fs map;
  so_init : inodes_init fs gd I;
  so_used : I ≠ ∅;
  so_first : 1 ≤ first;
  so_start : first ≤ start ≤ final;
}.

Lemma search_ok_marks fs gd map fs' gd' : search_ok fs gd map → marks_cleared fs gd fs' gd' → search_ok fs' gd' map.
Proof.
  intros [Hs Hok Hb Hil Hcov Hin HI Hf Hst] Hm. pose proof Hm as [Hok' Hs' Hsf _ _ _].
  pose proof (sf_count _ _ Hsf) as Hc. cbn [fs_group_desc_count set_group_desc] in Hc.
  constructor; try done; [by rewrite Hs'| | |by eapply marks_cleared_init].
  - destruct Hil. constructor; by rewrite ?Hs' ?Hc.
  - unfold covers_inodes. by rewrite Hs'.
Qed.

Lemma new_inode_step_spec fs gd map i Φ : search_ok fs gd map → first ≤ i ≤ final → (∀ y, seen i y → y ∈ I) →
  generic_at map I -∗
  (∀ fs' gd' r, ⌜marks_cleared fs gd fs' gd'⌝ -∗
     ⌜match r with
      | inl (fs2, i') => fs2 = fs' ∧ first ≤ i' ≤ final ∧ (inodes_left i' < inodes_left i)%nat ∧ ∀ y, seen i' y → y ∈ I
      | inr (fs2, (e, x)) => fs2 = fs' ∧ e = E_OK ∧ (first_free_inode x ∨ x = start ∧ all_inodes_used)
      end⌝ -∗ generic_at map I -∗ Φ r) -∗
  wp (new_inode_step map start (fs, i)) Φ.
Proof.
  iIntros (Hso Hi Hseen) "Hm HΦ". pose proof Hso as [Hs Hok Hb Hil Hcov Hin HI Hf Hst].
  assert (Hrange : 1 ≤ i ≤ s_inodes_count (fs_super fs)) by (rewrite Hs; lia).
  destruct (group_of_ino_spec fs i Hil Hrange) as [Hg _].
  unfold new_inode_step. rewrite Hs. unfold EXT2_INODES_PER_GROUP.
  assert (u32 (i - 1) / s_inodes_per_group sb = ext2fs_group_of_ino fs i) as -> by (unfold ext2fs_group_of_ino; by rewrite Hs).
  wp_apply (check_inode_uninit_spec fs gd I with "Hm"); [done|by rewrite Hs|done..|]. iIntros (fs' gd' Hm) "Hm".
  destruct (new_inode_window fs i Hs Hil Hf Hst Hi) as (Hup & _ & Hsx & Hi' & Hnext). cbv zeta in Hup, Hsx, Hi', Hnext.
  set (upto := if bool_decide (final < _) then final else _) in *.
  set (i' := if bool_decide (final < u32 (upto + 1)) then first else _) in *.
  pose proof Hm as [_ Hs' _ _ _ _]. rewrite Hs in Hs'.
  pose proof (search_ok_marks _ _ _ _ _ Hso Hm) as [_ _ _ Hil' Hcov' _ _ _ _].
  wp_apply (find_zero_inode_spec fs' with "Hm"); [done..|lia|lia|]. iIntros (r Hr) "Hm".
  destruct (decide (r.1 = E_OK)) as [Ho|Hko].
  - rewrite Ho. rewrite bool_decide_eq_true_2 //. wp_steps. iApply ("HΦ" with "[//] [%] Hm").
    split; [done|]. split; [done|]. left.
    destruct (is_first_ok _ _ _ _ Hr Ho) as (Hx & Hfree & Hbefore). split; [lia|]. split; [done|].
    intros y Hy. apply (Hsx r.2 Hx) in Hy as [Hy|Hy]; [by apply Hseen|].
    destruct (decide (y ∈ I)); [done|]. exfalso. by apply (Hbefore y).
  - destruct (is_first_ko _ _ _ _ Hr Hko) as [E Hnone]. rewrite E.
    assert (Hall : ∀ y, i ≤ y ≤ upto → y ∈ I).
    { intros y Hy. destruct (decide (y ∈ I)); [done|]. exfalso. by apply (Hnone y). }
    rewrite (bool_decide_eq_false_2 (ENOENT = E_OK)); [|done].
    rewrite (bool_decide_eq_false_2 (ENOENT ≠ ENOENT)); [|by intros []].
    destruct (decide (i' = start)) as [Heq|Hne].
    + rewrite bool_decide_eq_false_2; [|by intros []]. wp_steps. iApply ("HΦ" with "[//] [%] Hm").
      split; [done|]. split; [done|]. right. split; [done|]. intros y Hy.
      destruct (Hnext y Hy) as [?|?]; [by apply Hseen|by apply Hall].
    + destruct Hnext as [Hleft Hnext].
      rewrite bool_decide_eq_true_2 //. wp_steps. iApply ("HΦ" with "[//] [%] Hm").
      split_and!; [done|lia..|]. intros y Hy. destruct (Hnext y Hy) as [?|?]; [by apply Hseen|by apply Hall].
Qed.

Lemma new_inode_loop_spec map Φ : ∀ (n : nat) fs gd i, (inodes_left i < n)%nat →
  search_ok fs gd map → first ≤ i ≤ final → (∀ y, seen i y → y ∈ I) →
  ⊢ generic_at map I -∗
  (∀ fs' gd' x, ⌜marks_cleared fs gd fs' gd' ∧ (first_free_inode x ∨ x = start ∧ all_inodes_used)⌝ -∗
     generic_at map I -∗ Φ (fs', (E_OK, x))) -∗
  wp (loop (new_inode_step map start) (fs, i)) Φ.
Proof.
  induction n as [|n IH]; intros fs gd i Hn Hso Hi Hseen; [lia|]. iIntros "Hm HΦ". iApply wp_loop.
  iApply (new_inode_step_spec with "Hm"); [done..|]. iIntros (fs1 gd1 r Hm Hr) "Hm".
  destruct r as [[fs2 i']|[fs2 [e x]]].
  - destruct Hr as (-> & Hi' & Hleft & Hseen').
    iApply (IH fs1 gd1 i' with "Hm"); [lia|by eapply search_ok_marks|done|done|].
    iIntros (fs' gd' x [Hm' Hx]) "Hm". iApply ("HΦ" $! fs' gd' with "[%] Hm"). split; [|done].
    eapply marks_cleared_trans; [|done|done]. rewrite (so_super _ _ _ Hso). apply (so_bytes _ _ _ Hso).
  - destruct Hr as (-> & -> & Hx). iApply ("HΦ" $! fs1 gd1 with "[%] Hm"). done.
Qed.
End search.

(** ** [ext2fs_new_inode] *)

(** The first inode of the parent's group, or the first usable one. *)
Definition inode_start (sb : list Z) (dir : Z) : Z :=
  Z.max (EXT2_FIRST_INO sb)
    (if decide (0 < dir) then (dir - 1) / s_inodes_per_group sb * s_inodes_per_group sb + 1 else 0).

Section new_inode.
Context {ML : Malloc}.

(** The first free inode, an error because all are used, or because the parent
    is beyond the last inode. *)
Definition inode_found (a : alloc_fs) (gd : list Z) (I : gset Z) (dir : Z) (r : errcode * Z * alloc_fs) : Prop :=
  let sb := fs_super (a_fs a) in let start := inode_start sb dir in
  inode_map r.2 = inode_map a ∧ block_map r.2 = block_map a ∧
  (∃ gd', marks_cleared (a_fs a) gd (a_fs r.2) gd') ∧
  ((r.1.1 = E_OK ∧ first_free_inode sb start I r.1.2) ∨
   (r.1 = (EXT2_ET_INODE_ALLOC_FAIL, 0) ∧ (all_inodes_used sb I ∨ s_inodes_count sb < start))).

(** C20: [ext2fs_new_inode] ends, and gives the first free inode from the group of
    [dir] on, going round to the first inode that is not reserved; it fails
    exactly when all of them are used or [dir] is in no group.  The bitmap must
    have a used inode, since a red-black tree without extents finds no clear bit,
    and does not change, and of the descriptors only the marks of groups as
    uninitialised. *)
Theorem new_inode_correct a gd I D dir mode map :
  let m := if is_null map then inode_map a else map in
  fs_magic (a_fs a) = EXT2_ET_MAGIC_EXT2FS_FILSYS →
  gd_ok (a_fs a) gd → super_ok (fs_super (a_fs a)) → inode_layout (a_fs a) →
  inodes_ok (a_fs a) gd I D → inodes_init (a_fs a) gd I → covers_inodes (a_fs a) m → I ≠ ∅ →
  1 ≤ EXT2_FIRST_INO (fs_super (a_fs a)) → 0 ≤ dir < 2^32 →
  hoare (generic_at m I) (ext2fs_new_inode a dir mode map)
    (λ r, ⌜inode_found a gd I dir r ∧ ∃ gd', inodes_ok (a_fs r.2) gd' I D ∧ inodes_init (a_fs r.2) gd' I⌝ ∗
      generic_at m I)%I.
Proof.
  intros m Hmag Hok Hsb Hil Hio Hin Hcov HI Hf Hdir. apply wp_adequate. iIntros "Hm".
  iAssert ⌜is_null m = false⌝%I as %Hnn.
  { iDestruct (generic_magic with "Hm") as %(mg & _ & Hk). iPureIntro. clearbody m. by destruct m. }
  unfold ext2fs_new_inode. rewrite bool_decide_eq_false_2; [|by rewrite Hmag; intros []].
  fold m. rewrite Hnn. set (sb := fs_super (a_fs a)) in *. pose proof Hil as [Hipg _ Hc Hr]. fold sb in Hipg, Hc, Hr.
  unfold EXT2_INODES_PER_GROUP. set (ipg := s_inodes_per_group sb) in *.
  assert (Hst : (if bool_decide ((if bool_decide (0 < dir) then u32 (u32 (u32 (dir - 1) / ipg * ipg) + 1) else 0) < EXT2_FIRST_INO sb)
      then EXT2_FIRST_INO sb else if bool_decide (0 < dir) then u32 (u32 (u32 (dir - 1) / ipg * ipg) + 1) else 0) = inode_start sb dir).
  { unfold inode_start. fold ipg. destruct (decide (0 < dir)) as [Hd|Hd]; [rewrite (bool_decide_eq_true_2 (0 < dir)) //|rewrite (bool_decide_eq_false_2 (0 < dir)) //].
    - pose proof (Z.div_mod (dir - 1) ipg ltac:(lia)). pose proof (Z.mod_pos_bound (dir - 1) ipg ltac:(lia)).
      assert (0 ≤ (dir - 1) / ipg) by (apply Z.div_pos; lia).
      rewrite (u32_small (dir - 1)); [|lia]. rewrite (u32_small ((dir - 1) / ipg * ipg)); [|nia].
      rewrite u32_small; [|nia]. case_bool_decide; lia.
    - case_bool_decide; lia. }
  rewrite Hst. clear Hst. set (start := inode_start sb dir) in *.
  assert (Hkeep : ∀ a' : alloc_fs, (∃ gd', marks_cleared (a_fs a) gd (a_fs a') gd') →
    ∃ gd', inodes_ok (a_fs a') gd' I D ∧ inodes_init (a_fs a') gd' I).
  { intros a' (gd' & Hm). exists gd'. split; [by eapply marks_cleared_inodes|by eapply marks_cleared_init]. }
  assert (Hrefl : ∃ gd', marks_cleared (a_fs a) gd (a_fs a) gd') by (exists gd; by apply marks_cleared_refl).
  destruct (decide (s_inodes_count sb < start)) as [Hbig|Hsmall].
  { rewrite bool_decide_eq_true_2 //. wp_steps. iFrame "Hm". iPureIntro. split; [|by apply Hkeep].
    split_and!; [done..|right]. split; [done|by right]. }
  rewrite (bool_decide_eq_false_2 (s_inodes_count sb < start)) //.
  assert (Hso : search_ok sb start I (a_fs a) gd m) by (constructor; [done..|unfold start, inode_start in *; lia]).
  pose proof (so_start _ _ _ _ _ _ Hso) as Hstart.
  iApply wp_bind. iApply (new_inode_loop_spec sb start I m _ (S (inodes_left sb start start)) with "Hm"); [lia|done|lia| |].
  { intros y. unfold seen. rewrite decide_True; [|lia]. lia. }
  iIntros (fs' gd' x [Hm Hx]) "Hm". wp_steps. rewrite (bool_decide_eq_false_2 (E_OK ≠ E_OK)); [|by intros []].
  assert (Hxr : 1 ≤ x ≤ s_inodes_count (fs_super (a_fs a))).
  { change (fs_super (a_fs a)) with sb. destruct Hx as [[? _]|[-> _]]; lia. }
  destruct (covers_in _ m x Hcov Hxr) as [Hgin Hbit].
  change (fs_super (a_fs a)) with sb in Hxr.
  cbn [fst snd]. unfold ext2fs_test_inode_bitmap2. wp_apply (test_generic_bmap_spec with "Hm"); [lia|]. iIntros (v Hv) "Hm".
  rewrite Hbit in Hv. assert (Hmarks : ∃ gd', marks_cleared (a_fs a) gd (a_fs (set_fs fs' a)) gd') by by exists gd'.
  destruct (decide (x ∈ I)) as [HxI|HxI].
  - rewrite bool_decide_eq_true_2; [|tauto]. wp_steps. iFrame "Hm". iPureIntro. split; [|by apply Hkeep].
    split_and!; [done..|right]. split; [done|left]. destruct Hx as [(_ & ? & _)|[_ ?]]; done.
  - rewrite bool_decide_eq_false_2; [|tauto]. wp_steps. iFrame "Hm". iPureIntro. split; [|by apply Hkeep].
    split_and!; [done..|left]. split; [done|]. destruct Hx as [?|[-> Hall]]; [done|]. exfalso. apply HxI, Hall. lia.
Qed.
End new_inode.

Lemma alloc_layout_inodes : inode_layout (a_fs alloc_demo).
Proof. by constructor. Qed.

Lemma alloc_inodes_init : inodes_init (a_fs alloc_demo) alloc_gd used_inodes.
Proof.
  assert (∀ g, 0 ≤ g < 4 → Z.land (gd_val (a_fs alloc_demo) alloc_gd GdFlags g) EXT2_BG_INODE_UNINIT ≠ 0 → 1 ≤ g) as Hg.
  { apply (four_groups (λ g, Z.land (gd_val (a_fs alloc_demo) alloc_gd GdFlags g) EXT2_BG_INODE_UNINIT ≠ 0 → 1 ≤ g));
      [by vm_compute|intros _; lia..]. }
  intros g Hgr _ Hun. specialize (Hg g Hgr Hun). unfold group_inodes. change (s_inodes_per_group _) with 16.
  intros x. rewrite elem_of_zrange. unfold used_inodes. set_solver by lia.
Qed.

Lemma new_inode_witness :
  hoare (ML := bump_malloc) (generic_at (inode_map alloc_demo) used_inodes)
    (ext2fs_new_inode alloc_demo 2 0 NullBitmap)
    (λ r, ⌜inode_found alloc_demo alloc_gd used_inodes 2 r ∧
        ∃ gd', inodes_ok (a_fs r.2) gd' used_inodes {[ 2 ]} ∧ inodes_init (a_fs r.2) gd' used_inodes⌝ ∗
      generic_at (inode_map alloc_demo) used_inodes)%I.
Proof.
  apply (new_inode_correct (ML := bump_malloc) alloc_demo alloc_gd used_inodes {[ 2 ]} 2 0 NullBitmap);
    [done|exact alloc_gd_ok|exact alloc_super_ok|exact alloc_layout_inodes|exact alloc_inodes_ok|
     exact alloc_inodes_init|done| |by vm_compute|done].
  intros E. assert (1 ∈ (∅ : gset Z)) as Hin by (rewrite -E; unfold used_inodes; set_solver). set_solver.
Defined.
