(* ===== verification/IoManager.v ===== *)
(** * IoManager: channels to devices (io_manager.c, ext2_io.h)

    A channel has a manager, a table of methods; io_manager.c calls the method
    of the wanted width and falls back to the 32-bit ones.  The methods are the
    program's (unix_io.c makes system calls, a test may keep blocks in memory):
    the type [D] of the device's state and the methods are arguments here.
    Errors are numbers, as the methods may return any.

    [Works] is what the code that uses a channel relies on: reads and writes of
    single blocks succeed and act on an array of blocks. *)
From S2P Require Import Prelude.
#[local] Open Scope Z_scope.

Definition EXT2_ET_MAGIC_IO_CHANNEL : Z := EXT2_ET_BASE + 5.
Definition EXT2_ET_UNIMPLEMENTED : Z := EXT2_ET_BASE + 80.
Definition EXT2_ET_OP_NOT_SUPPORTED : Z := EXT2_ET_BASE + 129.
Definition EXT2_ET_IO_CHANNEL_NO_SUPPORT_64 : Z := EXT2_ET_BASE + 135.

(** [struct struct_io_manager]: every method returns an error number, what it
    read, and the device's new state. *)
Record io_manager {D : Type} := IoManager {
  im_read_blk : D → Z → Z → Z * list Z * D;
  im_write_blk : D → Z → Z → list Z → Z * D;
  im_flush : D → Z * D;
  im_write_byte : option (D → Z → Z → list Z → Z * D);
  im_set_option : option (D → list Z → option (list Z) → Z * D);
  im_read_blk64 : option (D → Z → Z → Z * list Z * D);
  im_write_blk64 : option (D → Z → Z → list Z → Z * D);
  im_discard : option (D → Z → Z → Z * D);
  im_cache_readahead : option (D → Z → Z → Z * D);
  im_zeroout : option (D → Z → Z → Z * D);
}.
Arguments io_manager D : clear implicits.

Record io_channel {D : Type} := IoChannel {
  ch_magic : Z;
  ch_manager : io_manager D;
  ch_block_size : Z;
  ch_state : D;
}.
Arguments io_channel D : clear implicits.

Section io.
Context {D : Type}.
Implicit Types ch : io_channel D.

Definition set_state (ch : io_channel D) (d : D) : io_channel D :=
  IoChannel _ (ch_magic ch) (ch_manager ch) (ch_block_size ch) d.

(** [EXT2_CHECK_MAGIC(channel, EXT2_ET_MAGIC_IO_CHANNEL)] *)
Definition bad_channel (ch : io_channel D) : bool :=
  bool_decide (ch_magic ch ≠ EXT2_ET_MAGIC_IO_CHANNEL).

(** Keep the new state of the device. *)
Definition after {A} (ch : io_channel D) (r : A * D) : A * io_channel D := (r.1, set_state ch r.2).

Definition io_channel_write_byte (ch : io_channel D) (offset count : Z) (data : list Z) : Z * io_channel D :=
  if bad_channel ch then (EXT2_ET_MAGIC_IO_CHANNEL, ch) else
  match im_write_byte (ch_manager ch) with
  | Some f => after ch (f (ch_state ch) offset count data)
  | None => (EXT2_ET_UNIMPLEMENTED, ch)
  end.

Definition io_channel_read_blk64 (ch : io_channel D) (block count : Z) : Z * list Z * io_channel D :=
  if bad_channel ch then (EXT2_ET_MAGIC_IO_CHANNEL, [], ch) else
  match im_read_blk64 (ch_manager ch) with
  | Some f => after ch (f (ch_state ch) block count)
  | None =>
      if bool_decide (Z.shiftr block 32 ≠ 0) then (EXT2_ET_IO_CHANNEL_NO_SUPPORT_64, [], ch) else
      after ch (im_read_blk (ch_manager ch) (ch_state ch) block count)
  end.

Definition io_channel_write_blk64 (ch : io_channel D) (block count : Z) (data : list Z) : Z * io_channel D :=
  if bad_channel ch then (EXT2_ET_MAGIC_IO_CHANNEL, ch) else
  match im_write_blk64 (ch_manager ch) with
  | Some f => after ch (f (ch_state ch) block count data)
  | None =>
      if bool_decide (Z.shiftr block 32 ≠ 0) then (EXT2_ET_IO_CHANNEL_NO_SUPPORT_64, ch) else
      after ch (im_write_blk (ch_manager ch) (ch_state ch) block count data)
  end.

Definition io_channel_discard (ch : io_channel D) (block count : Z) : Z * io_channel D :=
  if bad_channel ch then (EXT2_ET_MAGIC_IO_CHANNEL, ch) else
  match im_discard (ch_manager ch) with
  | Some f => after ch (f (ch_state ch) block count)
  | None => (EXT2_ET_UNIMPLEMENTED, ch)
  end.

Definition io_channel_zeroout (ch : io_channel D) (block count : Z) : Z * io_channel D :=
  if bad_channel ch then (EXT2_ET_MAGIC_IO_CHANNEL, ch) else
  match im_zeroout (ch_manager ch) with
  | Some f => after ch (f (ch_state ch) block count)
  | None => (EXT2_ET_UNIMPLEMENTED, ch)
  end.

Definition io_channel_cache_readahead (ch : io_channel D) (block count : Z) : Z * io_channel D :=
  match im_cache_readahead (ch_manager ch) with
  | Some f => after ch (f (ch_state ch) block count)
  | None => (EXT2_ET_OP_NOT_SUPPORTED, ch)
  end.

(** [io_channel_flush(c)], a macro. *)
Definition io_channel_flush (ch : io_channel D) : Z * io_channel D :=
  after ch (im_flush (ch_manager ch) (ch_state ch)).

(** [io_channel_read_blk] and [io_channel_write_blk], macros for 32-bit block numbers. *)
Definition io_channel_read_blk (ch : io_channel D) (block count : Z) : Z * list Z * io_channel D :=
  after ch (im_read_blk (ch_manager ch) (ch_state ch) block count).
Definition io_channel_write_blk (ch : io_channel D) (block count : Z) (data : list Z) : Z * io_channel D :=
  after ch (im_write_blk (ch_manager ch) (ch_state ch) block count data).

(** [strchr]: what is before the first [c], and what is after it. *)
Fixpoint split_at (c : Z) (s : list Z) : list Z * option (list Z) :=
  match s with
  | [] => ([], None)
  | x :: s' => if bool_decide (x = c) then ([], Some s') else
      let '(a, b) := split_at c s' in (x :: a, b)
  end.

(** [while (ptr && *ptr)]; every option uses up a character at least. *)
Fixpoint set_options_loop (fuel : nat)
    (set_option : D → list Z → option (list Z) → Z * D) (ptr : list Z) (retval : Z) (d : D) : Z * D :=
  match fuel with
  | O => (retval, d)
  | S fuel =>
      if bool_decide (ptr = []) then (retval, d) else
      let '(opt, next) := split_at 38 ptr in
      let '(name, arg) := split_at 61 opt in
      let '(retval, d) := set_option d name arg in
      if bool_decide (retval ≠ 0) then (retval, d) else
      match next with Some s => set_options_loop fuel set_option s retval d | None => (retval, d) end
  end.

(** [malloc_ok]: whether the copy of the options could be allocated. *)
Definition io_channel_set_options (ch : io_channel D) (opts : option (list Z)) (malloc_ok : bool) :
    Z * io_channel D :=
  if bad_channel ch then (EXT2_ET_MAGIC_IO_CHANNEL, ch) else
  match opts, im_set_option (ch_manager ch) with
  | None, _ => (0, ch)
  | Some _, None => (errno EXT2_ET_INVALID_ARGUMENT, ch)
  | Some opts, Some f =>
      if negb malloc_ok then (errno EXT2_ET_NO_MEMORY, ch) else
      after ch (set_options_loop (S (length opts)) f opts 0 (ch_state ch))
  end.

(** ** Devices that work *)

(** The contents of block [b]. *)
Context (content : D → Z → list Z).

Class Works (ch : io_channel D) : Prop := {
  works_magic : ch_magic ch = EXT2_ET_MAGIC_IO_CHANNEL;
  works_read d b : 0 ≤ b < 2^64 → ∃ d',
    io_channel_read_blk64 (set_state ch d) b 1 = (0, content d b, set_state ch d') ∧
    ∀ x, content d' x = content d x;
  works_write d b data : 0 ≤ b < 2^64 → ∃ d',
    io_channel_write_blk64 (set_state ch d) b 1 data = (0, set_state ch d') ∧
    ∀ x, content d' x = if decide (x = b) then data else content d x;
  works_flush d : ∃ d', io_channel_flush (set_state ch d) = (0, set_state ch d') ∧
    ∀ x, content d' x = content d x;
}.

(** The same of the macros for 32-bit numbers. *)
Class Works32 (ch : io_channel D) : Prop := {
  works32_read d b : 0 ≤ b < 2^32 → ∃ d',
    io_channel_read_blk (set_state ch d) b 1 = (0, content d b, set_state ch d') ∧
    ∀ x, content d' x = content d x;
  works32_write d b data : 0 ≤ b < 2^32 → ∃ d',
    io_channel_write_blk (set_state ch d) b 1 data = (0, set_state ch d') ∧
    ∀ x, content d' x = if decide (x = b) then data else content d x;
}.

Lemma set_state_same ch : set_state ch (ch_state ch) = ch.
Proof. by destruct ch. Qed.

#[export] Instance works_set_state ch d : Works ch → Works (set_state ch d).
Proof. intros []. by constructor. Qed.
End io.

(** A device of blocks in memory; those never written are zero. *)
Definition mem_device : Type := gmap Z (list Z).
Definition mem_content (size : nat) (d : mem_device) (b : Z) : list Z :=
  default (replicate size 0) (d !! b).
Definition mem_manager (size : nat) : io_manager mem_device :=
  IoManager _ (λ d b _, (0, mem_content size d b, d)) (λ d b _ data, (0, <[b := data]> d)) (λ d, (0, d))
    None None (Some (λ d b _, (0, mem_content size d b, d))) (Some (λ d b _ data, (0, <[b := data]> d)))
    None None None.
Definition mem_channel (size : nat) (d : mem_device) : io_channel mem_device :=
  IoChannel _ EXT2_ET_MAGIC_IO_CHANNEL (mem_manager size) (Z.of_nat size) d.

#[export] Instance mem_works size d : Works (mem_content size) (mem_channel size d).
Proof.
  constructor; [done|intros d0 b _; by exists d0| |intros d0; by exists d0].
  intros d0 b data _. exists (<[b := data]> d0). split; [done|]. intros x. unfold mem_content.
  destruct (decide (x = b)) as [->|]; [by rewrite lookup_insert_eq|by rewrite lookup_insert_ne].
Qed.

#[export] Instance mem_works32 size d : Works32 (mem_content size) (mem_channel size d).
Proof.
  constructor; [intros d0 b _; by exists d0|].
  intros d0 b data _. exists (<[b := data]> d0). split; [done|]. intros x. unfold mem_content.
  destruct (decide (x = b)) as [->|]; [by rewrite lookup_insert_eq|by rewrite lookup_insert_ne].
Qed.
