(* ===== verification/IBlock.v ===== *)
(** * IBlock: the number of blocks that an inode counts (i_block.c)

    [i_blocks] counts sectors of 512 bytes, or blocks when the inode has
    EXT4_HUGE_FILE_FL; with the huge_file feature it has 48 bits.  The functions
    return an error and the inode. *)
From S2P Require Import Prelude.
From S2P Require Import Bytes.
From S2P Require Import Super.
From S2P Require Import Blknum.
#[local] Open Scope Z_scope.

Definition EOVERFLOW : Z := 75.

Definition set_i_blocks (v : Z) (inode : list Z) : list Z := set32 28 v inode.
Definition set_l_i_blocks_hi (v : Z) (inode : list Z) : list Z := set16 116 v inode.

(** The count that is there. *)
Definition iblk_count (fs : ext2_filsys) (inode : list Z) : Z :=
  if ext2fs_has_feature_huge_file (fs_super fs) then u64 (i_blocks inode + Z.shiftl (l_i_blocks_hi inode) 32) else i_blocks inode.

(** A number of clusters as it is counted. *)
Definition iblk_units (fs : ext2_filsys) (inode : list Z) (num_blocks : Z) : Z :=
  let n := if negb (ext2fs_has_feature_huge_file (fs_super fs)) || bool_decide (Z.land (i_flags inode) EXT4_HUGE_FILE_FL = 0)
           then u64 (num_blocks * (fs_blocksize fs / 512)) else num_blocks in
  u64 (n * EXT2FS_CLUSTER_RATIO fs).

Definition ext2fs_iblk_add_blocks (fs : ext2_filsys) (inode : list Z) (num_blocks : Z) : Z * list Z :=
  let b := u64 (iblk_count fs inode + iblk_units fs inode num_blocks) in
  if ext2fs_has_feature_huge_file (fs_super fs)
  then (0, set_i_blocks (Z.land b 0xFFFFFFFF) (set_l_i_blocks_hi (u16 (Z.shiftr b 32)) inode))
  else if bool_decide (0xFFFFFFFF < b) then (EOVERFLOW, inode)
  else (0, set_i_blocks (Z.land b 0xFFFFFFFF) inode).

Definition ext2fs_iblk_sub_blocks (fs : ext2_filsys) (inode : list Z) (num_blocks : Z) : Z * list Z :=
  let b := iblk_count fs inode in
  let n := iblk_units fs inode num_blocks in
  if bool_decide (b < n) then (EOVERFLOW, inode) else
  let b := b - n in
  let inode := if ext2fs_has_feature_huge_file (fs_super fs) then set_l_i_blocks_hi (u16 (Z.shiftr b 32)) inode else inode in
  (0, set_i_blocks (Z.land b 0xFFFFFFFF) inode).

(** The high half is cut to its 16 bits. *)
Definition ext2fs_iblk_set (fs : ext2_filsys) (inode : list Z) (b : Z) : Z * list Z :=
  let b := iblk_units fs inode b in
  let inode := set_i_blocks (Z.land b 0xFFFFFFFF) inode in
  if ext2fs_has_feature_huge_file (fs_super fs) then (0, set_l_i_blocks_hi (u16 (Z.shiftr b 32)) inode)
  else if bool_decide (Z.shiftr b 32 ≠ 0) then (EOVERFLOW, inode) else (0, inode).
