(* ===== verification/Services.v ===== *)
(** * Services: what the functions on files use of the rest of the library

    The functions of extent.c, bmap.c and fileio.c read and write blocks and
    inodes and take and give back blocks.  They are defined here for any state
    with these services, the ones that [fs] gives the C code: the file system's
    structure, its channel, inode.c and alloc.c.  [Serves] is what their theorems
    need: a device that works, and an allocator that gives blocks that are free. *)
From S2P Require Import Prelude.
From S2P Require Import Bytes.
From S2P Require Import Super.
From S2P Require Import Blknum.
From S2P Require Import Alloc.
From S2P Require Import IoManager.
#[local] Open Scope Z_scope.

(** [read_blk], [write_blk] and those with 64 are [io_channel_read_blk] etc. of
    [fs->io] for one block; [io_is_image] is [fs->io == fs->image_io].  The others
    are the functions of inode.c, alloc.c, alloc_stats.c and mkjournal.c. *)
Class Services (W : Type) := {
  sv_fs : W → ext2_filsys;
  io_is_image : bool;
  read_blk : W → Z → Z * list Z * W;
  write_blk : W → Z → list Z → Z * W;
  read_blk64 : W → Z → Z * list Z * W;
  write_blk64 : W → Z → list Z → Z * W;
  sv_read_inode : W → Z → errcode * list Z;
  sv_write_inode : W → Z → list Z → Z * W;
  sv_alloc_block3 : W → Z → option blk_alloc_ctx → Z * Z * W;
  sv_block_alloc_stats2 : W → Z → Z → W;
  sv_zero_blocks2 : W → Z → Z → Z * W;
}.

(** The file system's structure does not change but for its counters. *)
Definition sv_blocksize `{Services W} (s : W) : Z := fs_blocksize (sv_fs s).
Definition sv_super `{Services W} (s : W) : list Z := fs_super (sv_fs s).

(** ** Operations on an object

    An operation on an open object [H] (a handle on extents, a file) gives an
    error or a result, with the object and the state after it, also with an
    error; [None] is a loop out of fuel or an access outside of memory. *)
Section act.
Context {H W : Type}.
Definition act (A : Type) : Type := H → W → option ((Z + A) * H * W).

#[export] Instance act_ret : MRet act := λ A x h s, Some (inr x, h, s).
#[export] Instance act_bind : MBind act := λ A B k m h s,
  '(r, h, s) ← m h s;
  match r with inl e => Some (inl e, h, s) | inr x => k x h s end.

(** [return e], and going on after an error. *)
Definition err {A} (e : Z) : act A := λ h s, Some (inl e, h, s).
Definition attempt {A} (m : act A) : act (Z + A) := λ h s, '(r, h, s) ← m h s; Some (inr r, h, s).
Definition when (b : bool) (e : Z) : act unit := if b then err e else mret tt.
(** [retval = f(); if (retval) return retval;] *)
Definition checked (e : Z) : act unit := when (bool_decide (e ≠ 0)) e.
Definition get_obj : act H := λ h s, Some (inr h, h, s).
Definition modify (f : H → H) : act unit := λ h s, Some (inr tt, f h, s).
Definition get_state : act W := λ h s, Some (inr s, h, s).
Definition lift_opt {A} (x : option A) : act A := λ h s, y ← x; Some (inr y, h, s).
(** A service, with its error. *)
Definition service {A} (f : W → Z * A * W) : act A :=
  λ h s, let '(e, x, s) := f s in Some (if bool_decide (e ≠ 0) then inl e else inr x, h, s).
(** A service with no result. *)
Definition service_ (f : W → Z * W) : act unit := service (λ s, let '(e, s) := f s in (e, tt, s)).

(** The operation ends, and [Q] holds of the result, the object and the state. *)
Definition runs {A} (m : act A) (h : H) (s : W) (Q : Z + A → H → W → Prop) : Prop :=
  ∃ r h' s', m h s = Some (r, h', s') ∧ Q r h' s'.

Lemma runs_mono {A} (m : act A) h s (Q Q' : Z + A → H → W → Prop) :
  runs m h s Q → (∀ r h' s', Q r h' s' → Q' r h' s') → runs m h s Q'.
Proof. intros (r & h' & s' & E & HQ) HQQ. exists r, h', s'. auto. Qed.
Lemma runs_ret {A} (x : A) h s Q : Q (inr x) h s → runs (mret x) h s Q.
Proof. intros HQ. by eexists _, _, _. Qed.
Lemma runs_err {A} e h s (Q : Z + A → H → W → Prop) : Q (inl e) h s → runs (err e) h s Q.
Proof. intros HQ. by eexists _, _, _. Qed.
Lemma runs_bind {A B} (m : act A) (k : A → act B) h s Q :
  runs m h s (λ r h' s', match r with inl e => Q (inl e) h' s' | inr x => runs (k x) h' s' Q end) → runs (m ≫= k) h s Q.
Proof.
  intros (r & h' & s' & E & HQ). unfold runs, mbind, act_bind. rewrite E. cbn. destruct r as [e|x]; [by eexists _, _, _|exact HQ].
Qed.
Lemma runs_attempt {A} (m : act A) h s Q : runs m h s (λ r h' s', Q (inr r) h' s') → runs (attempt m) h s Q.
Proof. intros (r & h' & s' & E & HQ). unfold runs, attempt. rewrite E. by eexists _, _, _. Qed.
Lemma runs_get_obj h s Q : Q (inr h) h s → runs get_obj h s Q.
Proof. intros HQ. by eexists _, _, _. Qed.
Lemma runs_get_state h s Q : Q (inr s) h s → runs get_state h s Q.
Proof. intros HQ. by eexists _, _, _. Qed.
Lemma runs_modify f h s Q : Q (inr tt) (f h) s → runs (modify f) h s Q.
Proof. intros HQ. by eexists _, _, _. Qed.
Lemma runs_service {A} (f : W → Z * A * W) h s e x s' Q : f s = (e, x, s') →
  Q (if bool_decide (e ≠ 0) then inl e else inr x) h s' → runs (service f) h s Q.
Proof. intros E HQ. unfold runs, service. rewrite E. by eexists _, _, _. Qed.
Lemma runs_service_ (f : W → Z * W) h s e s' Q : f s = (e, s') →
  Q (if bool_decide (e ≠ 0) then inl e else inr tt) h s' → runs (service_ f) h s Q.
Proof. intros E HQ. eapply runs_service; [by rewrite E|done]. Qed.
End act.
Arguments act : clear implicits.

(** ** What the services promise

    [content]: the blocks on the device.  [used]: the blocks in use.  [area]: the
    blocks that belong to files, which those with the inodes do not. *)
Section laws.
Context {W : Type} `{!Services W} (content : W → Z → list Z) (used : W → Z → Prop) (area : Z → Prop).

(** Nothing but the contents of blocks, and the counters of the file system, changes. *)
Record keeps (s s' : W) : Prop := Keeps {
  k_used x : used s' x ↔ used s x;
  k_inode ino : sv_read_inode s' ino = sv_read_inode s ino;
  k_blocksize : sv_blocksize s' = sv_blocksize s;
}.
Definition same_blocks (s s' : W) : Prop := ∀ x, area x → content s' x = content s x.

(** A device that works, and an allocator that gives blocks that are free, as zeros. *)
Class Serves : Prop := {
  sv_read s b : area b → b < 2^32 → ∃ s', read_blk s b = (0, content s b, s') ∧ same_blocks s s' ∧ keeps s s';
  sv_read64 s b : area b → ∃ s', read_blk64 s b = (0, content s b, s') ∧ same_blocks s s' ∧ keeps s s';
  sv_write s b buf : area b → b < 2^32 → ∃ s', write_blk s b buf = (0, s') ∧ keeps s s' ∧
    ∀ x, area x → content s' x = if decide (x = b) then buf else content s x;
  sv_write64 s b buf : area b → ∃ s', write_blk64 s b buf = (0, s') ∧ keeps s s' ∧
    ∀ x, area x → content s' x = if decide (x = b) then buf else content s x;
  sv_alloc s goal ctx : ∃ e b s', sv_alloc_block3 s goal ctx = (e, b, s') ∧
    sv_blocksize s' = sv_blocksize s ∧ (∀ ino, sv_read_inode s' ino = sv_read_inode s ino) ∧
    if decide (e = 0)
    then area b ∧ 0 < b < 2^32 ∧ ¬ used s b ∧ (∀ x, used s' x ↔ used s x ∨ x = b) ∧
         ∀ x, area x → content s' x = if decide (x = b) then replicate (Z.to_nat (sv_blocksize s)) 0 else content s x
    else (∀ x, used s' x ↔ used s x) ∧ same_blocks s s';
  sv_inode_written s ino i : ∃ s', sv_write_inode s ino i = (0, s') ∧ same_blocks s s' ∧
    (∀ x, used s' x ↔ used s x) ∧ sv_blocksize s' = sv_blocksize s ∧
    ∀ ino', sv_read_inode s' ino' = if decide (ino' = ino) then (E_OK, i) else sv_read_inode s ino';
}.

(** Giving back a block that is in use. *)
Class Frees : Prop := {
  sv_freed s b : used s b → let s' := sv_block_alloc_stats2 s b (-1) in
    same_blocks s s' ∧ (∀ x, used s' x ↔ used s x ∧ x ≠ b) ∧ sv_blocksize s' = sv_blocksize s ∧
    ∀ ino, sv_read_inode s' ino = sv_read_inode s ino;
}.

Lemma keeps_refl s : keeps s s.
Proof. by constructor. Qed.
Lemma keeps_trans s s' s'' : keeps s s' → keeps s' s'' → keeps s s''.
Proof.
  intros [Hu Hi Hb] [Hu' Hi' Hb']. constructor.
  - intros x. by rewrite Hu' Hu.
  - intros ino. by rewrite Hi' Hi.
  - by rewrite Hb' Hb.
Qed.
Lemma same_blocks_refl s : same_blocks s s.
Proof. done. Qed.
Lemma same_blocks_trans s s' s'' : same_blocks s s' → same_blocks s' s'' → same_blocks s s''.
Proof. intros H H' x Hx. by rewrite H' // H. Qed.
End laws.

(** A property of states that no service changes. *)
Class Invariant {W : Type} `{!Services W} (P : W → Prop) : Prop := {
  inv_read s b : P s → P (read_blk s b).2;
  inv_write s b buf : P s → P (write_blk s b buf).2;
  inv_read64 s b : P s → P (read_blk64 s b).2;
  inv_write64 s b buf : P s → P (write_blk64 s b buf).2;
  inv_alloc s goal ctx : P s → P (sv_alloc_block3 s goal ctx).2;
  inv_write_inode s ino i : P s → P (sv_write_inode s ino i).2;
  inv_zero s b n : P s → P (sv_zero_blocks2 s b n).2;
  inv_stats s b n : P s → P (sv_block_alloc_stats2 s b n);
}.

(** ** Services in memory

    A device of blocks in memory, with the inodes beside it; the blocks below
    [mw_next] are in use but for those given back, which are not used again. *)
Record mem_world := MemWorld { mw_fs : ext2_filsys; mw_device : mem_device; mw_inodes : gmap Z (list Z); mw_next : Z; mw_freed : gset Z }.
Definition mw_blocksize (w : mem_world) : nat := Z.to_nat (fs_blocksize (mw_fs w)).
Definition mw_channel (w : mem_world) : io_channel mem_device := mem_channel (mw_blocksize w) (mw_device w).
Definition mw_set_device (d : mem_device) (w : mem_world) : mem_world := MemWorld (mw_fs w) d (mw_inodes w) (mw_next w) (mw_freed w).
Definition mw_content (w : mem_world) (b : Z) : list Z := mem_content (mw_blocksize w) (mw_device w) b.
Definition mw_used (w : mem_world) (b : Z) : Prop := b < mw_next w ∧ b ∉ mw_freed w.
Definition mw_area (b : Z) : Prop := 0 ≤ b.

Definition mw_alloc (w : mem_world) : Z * Z * mem_world :=
  let b := mw_next w in
  if bool_decide (0 < b < 2^32)
  then (0, b, MemWorld (mw_fs w) (<[b := replicate (mw_blocksize w) 0]> (mw_device w)) (mw_inodes w) (b + 1) (mw_freed w ∖ {[ b ]}))
  else (errno EXT2_ET_BLOCK_ALLOC_FAIL, 0, w).

#[export] Instance mem_services : Services mem_world :=
  {| sv_fs := mw_fs;
     io_is_image := true;
     read_blk w b := let '(e, buf, ch) := io_channel_read_blk (mw_channel w) b 1 in (e, buf, mw_set_device (ch_state ch) w);
     write_blk w b buf := let '(e, ch) := io_channel_write_blk (mw_channel w) b 1 buf in (e, mw_set_device (ch_state ch) w);
     read_blk64 w b := let '(e, buf, ch) := io_channel_read_blk64 (mw_channel w) b 1 in (e, buf, mw_set_device (ch_state ch) w);
     write_blk64 w b buf := let '(e, ch) := io_channel_write_blk64 (mw_channel w) b 1 buf in (e, mw_set_device (ch_state ch) w);
     sv_read_inode w ino := match mw_inodes w !! ino with Some i => (E_OK, i) | None => (ENOENT, []) end;
     sv_write_inode w ino i := (0, MemWorld (mw_fs w) (mw_device w) (<[ino := i]> (mw_inodes w)) (mw_next w) (mw_freed w));
     sv_alloc_block3 w _ _ := mw_alloc w;
     sv_block_alloc_stats2 w b inuse :=
       if bool_decide (inuse = -1) then MemWorld (mw_fs w) (mw_device w) (mw_inodes w) (mw_next w) ({[ b ]} ∪ mw_freed w) else w;
     sv_zero_blocks2 w b _ := (0, mw_set_device (<[b := replicate (mw_blocksize w) 0]> (mw_device w)) w) |}.

Lemma mem_content_insert size d b buf x :
  mem_content size (<[b := buf]> d) x = if decide (x = b) then buf else mem_content size d x.
Proof. unfold mem_content. case_decide as H; [subst; by rewrite lookup_insert_eq|by rewrite lookup_insert_ne]. Qed.

#[export] Instance mem_serves : Serves mw_content mw_used mw_area.
Proof.
  constructor.
  - intros w b _ _. eexists. split; [done|]. split; [done|by constructor].
  - intros w b _. eexists. split; [done|]. split; [done|by constructor].
  - intros w b buf _ _. eexists. split; [done|]. split; [by constructor|]. intros x _. apply mem_content_insert.
  - intros w b buf _. eexists. split; [done|]. split; [by constructor|]. intros x _. apply mem_content_insert.
  - intros w goal ctx. cbn [sv_alloc_block3 mem_services]. unfold mw_alloc. case_bool_decide as Hb.
    + eexists 0, (mw_next w), _. split; [done|]. split; [done|]. split; [done|]. destruct (decide (0 = 0)) as [_|?]; [|done].
      split; [unfold mw_area; lia|]. split; [done|]. split; [unfold mw_used; lia|]. split; [|intros x _; apply mem_content_insert].
      intros x. unfold mw_used. cbn. rewrite not_elem_of_difference elem_of_singleton.
      destruct (decide (x = mw_next w)); [subst; intuition lia|intuition lia].
    + eexists _, 0, w. split; [done|]. split; [done|]. split; [done|]. by destruct (decide (errno EXT2_ET_BLOCK_ALLOC_FAIL = 0)).
  - intros w ino i. eexists. split; [done|]. split; [done|]. split; [done|]. split; [done|].
    intros ino'. cbn. case_decide as H; [subst; by rewrite lookup_insert_eq|by rewrite lookup_insert_ne].
Qed.

#[export] Instance mem_frees : Frees mw_content mw_used mw_area.
Proof.
  constructor. intros w b Hb. cbn. split; [done|]. split; [|done]. intros x. unfold mw_used. cbn. rewrite not_elem_of_union not_elem_of_singleton. tauto.
Qed.

#[export] Instance mem_invariant (P : ext2_filsys → Prop) : Invariant (λ w, P (mw_fs w)).
Proof.
  constructor; intros w; intros; cbn; try done; [unfold mw_alloc; by case_bool_decide|by case_bool_decide].
Qed.
