(* ===== verification/Jbd.v ===== *)
(** * Jbd: the journal's structures and buffers

    The on-disk format of the journal (kernel-jbd.h), whose fields are
    big-endian, the journal in memory (jfs_compat.h), the helper functions of
    jfs_user.h, and the buffers that e2fsck's journal.c gives to the recovery
    code it shares with the kernel.

    The file system and the journal may lie on one device or on two
    ([kdev], [world]).  A buffer is private to the code that got it: [getblk]
    does not cache, reading happens in [wait_on_buffer] and writing in
    [brelse].  The mapping of a journal kept in an inode, ext2fs_bmap2, is an
    argument.  Functions that return an [int] return a negative error. *)
From S2P Require Import Prelude.
From S2P Require Import Bytes.
From S2P Require Import Crc.
From S2P Require Import Csum.
From S2P Require Import IoManager.
#[local] Open Scope Z_scope.

(** ** Big-endian fields *)
Definition get_be (k : nat) (off : Z) (bs : list Z) : Z :=
  le_decode (reverse (take k (drop (Z.to_nat off) bs))).
Definition be_encode (k : nat) (v : Z) : list Z := reverse (le_encode k v).
Definition set_be (k : nat) (off v : Z) (bs : list Z) : list Z :=
  take (Z.to_nat off) bs ++ be_encode k v ++ drop (Z.to_nat off + k) bs.

Abbreviation be16 := (get_be 2).
Abbreviation be32 := (get_be 4).
Abbreviation be64 := (get_be 8).
Abbreviation set_be32 := (set_be 4).

(** One byte. *)
Definition byte_at (off : Z) (bs : list Z) : Z := get_le 1 off bs.

(** ** The format *)
Definition JBD2_MAGIC_NUMBER : Z := 0xc03b3998.
Definition JBD2_DESCRIPTOR_BLOCK : Z := 1.
Definition JBD2_COMMIT_BLOCK : Z := 2.
Definition JBD2_SUPERBLOCK_V1 : Z := 3.
Definition JBD2_SUPERBLOCK_V2 : Z := 4.
Definition JBD2_REVOKE_BLOCK : Z := 5.
Definition JBD2_FC_BLOCK : Z := 6.

Definition JBD2_FLAG_ESCAPE : Z := 1.
Definition JBD2_FLAG_SAME_UUID : Z := 2.
Definition JBD2_FLAG_DELETED : Z := 4.
Definition JBD2_FLAG_LAST_TAG : Z := 8.

Definition JBD2_CRC32_CHKSUM : Z := 1.
Definition JBD2_CRC32_CHKSUM_SIZE : Z := 4.
Definition JBD2_DEFAULT_FAST_COMMIT_BLOCKS : Z := 256.

(** [struct journal_header_s] *)
Definition h_magic : list Z → Z := be32 0.
Definition h_blocktype : list Z → Z := be32 4.
Definition h_sequence : list Z → Z := be32 8.
Definition sizeof_journal_header : Z := 12.

(** [struct commit_header] *)
Definition h_chksum_type : list Z → Z := byte_at 12.
Definition h_chksum_size : list Z → Z := byte_at 13.
Definition h_chksum_off : Z := 16.
Definition h_commit_sec : list Z → Z := be64 48.

(** [struct journal_block_tag_s] and [struct journal_block_tag3_s] at [tagp];
    the flags of the second are the low half of a 32-bit field. *)
Definition t_blocknr (tagp : Z) : list Z → Z := be32 tagp.
Definition t_flags (tagp : Z) : list Z → Z := be16 (tagp + 6).
Definition t_blocknr_high (tagp : Z) : list Z → Z := be32 (tagp + 8).
Definition t_checksum (tagp : Z) : list Z → Z := be16 (tagp + 4).
Definition t_checksum3 (tagp : Z) : list Z → Z := be32 (tagp + 12).
Definition sizeof_journal_block_tag : Z := 12.
Definition sizeof_journal_block_tag3 : Z := 16.

(** [struct jbd2_journal_block_tail] *)
Definition sizeof_journal_block_tail : Z := 4.

(** [struct journal_revoke_header_s] *)
Definition r_count : list Z → Z := be32 12.
Definition sizeof_journal_revoke_header : Z := 16.

(** [struct journal_superblock_s] *)
Definition js_sequence : list Z → Z := be32 24.
Definition js_start : list Z → Z := be32 28.
Definition js_feature_compat : list Z → Z := be32 36.
Definition js_feature_incompat : list Z → Z := be32 40.
Definition js_num_fc_blks : list Z → Z := be32 84.
Definition js_checksum_off : Z := 252.
Definition sizeof_journal_superblock : nat := 1024.

(** ** The journal *)

(** A revoke record and the table of them (revoke.c). *)
Record revoke_record := RevokeRecord { rr_sequence : Z; rr_blocknr : Z }.
Record revoke_table := RevokeTable {
  hash_size : Z;
  hash_shift : Z;
  hash_table : list (list revoke_record);
}.

(** [struct journal_s]; [j_inode] is the number and the contents of the
    journal's inode. *)
Record journal := Journal {
  j_superblock : list Z;
  j_format_version : Z;
  j_tail : Z;
  j_fc_first : Z;
  j_fc_last : Z;
  j_first : Z;
  j_last : Z;
  j_dev_is_fs : bool;
  j_blocksize : Z;
  j_total_len : Z;
  j_inode : option (Z * list Z);
  j_transaction_sequence : Z;
  j_revoke : revoke_table;
  j_failed_commit : Z;
  j_csum_seed : Z;
}.

Definition set_revoke_table (t : revoke_table) (j : journal) : journal :=
  Journal (j_superblock j) (j_format_version j) (j_tail j) (j_fc_first j) (j_fc_last j) (j_first j) (j_last j)
    (j_dev_is_fs j) (j_blocksize j) (j_total_len j) (j_inode j) (j_transaction_sequence j) t
    (j_failed_commit j) (j_csum_seed j).
Definition set_failed_commit (t : Z) (j : journal) : journal :=
  Journal (j_superblock j) (j_format_version j) (j_tail j) (j_fc_first j) (j_fc_last j) (j_first j) (j_last j)
    (j_dev_is_fs j) (j_blocksize j) (j_total_len j) (j_inode j) (j_transaction_sequence j) (j_revoke j)
    t (j_csum_seed j).
Definition set_transaction_sequence (t : Z) (j : journal) : journal :=
  Journal (j_superblock j) (j_format_version j) (j_tail j) (j_fc_first j) (j_fc_last j) (j_first j) (j_last j)
    (j_dev_is_fs j) (j_blocksize j) (j_total_len j) (j_inode j) t (j_revoke j)
    (j_failed_commit j) (j_csum_seed j).
Definition set_tail (t : Z) (j : journal) : journal :=
  Journal (j_superblock j) (j_format_version j) t (j_fc_first j) (j_fc_last j) (j_first j) (j_last j)
    (j_dev_is_fs j) (j_blocksize j) (j_total_len j) (j_inode j) (j_transaction_sequence j) (j_revoke j)
    (j_failed_commit j) (j_csum_seed j).

(** *** Features *)
Definition JBD2_FEATURE_COMPAT_CHECKSUM : Z := 1.
Definition JBD2_FEATURE_INCOMPAT_REVOKE : Z := 1.
Definition JBD2_FEATURE_INCOMPAT_64BIT : Z := 2.
Definition JBD2_FEATURE_INCOMPAT_ASYNC_COMMIT : Z := 4.
Definition JBD2_FEATURE_INCOMPAT_CSUM_V2 : Z := 8.
Definition JBD2_FEATURE_INCOMPAT_CSUM_V3 : Z := 16.
Definition JBD2_FEATURE_INCOMPAT_FAST_COMMIT : Z := 32.

Definition compat_feature (flag : Z) (j : journal) : bool :=
  bool_decide (2 ≤ j_format_version j) && bool_decide (Z.land (js_feature_compat (j_superblock j)) flag ≠ 0).
Definition incompat_feature (flag : Z) (j : journal) : bool :=
  bool_decide (2 ≤ j_format_version j) && bool_decide (Z.land (js_feature_incompat (j_superblock j)) flag ≠ 0).

Definition jbd2_has_feature_checksum : journal → bool := compat_feature JBD2_FEATURE_COMPAT_CHECKSUM.
Definition jbd2_has_feature_revoke : journal → bool := incompat_feature JBD2_FEATURE_INCOMPAT_REVOKE.
Definition jbd2_has_feature_64bit : journal → bool := incompat_feature JBD2_FEATURE_INCOMPAT_64BIT.
Definition jbd2_has_feature_async_commit : journal → bool := incompat_feature JBD2_FEATURE_INCOMPAT_ASYNC_COMMIT.
Definition jbd2_has_feature_csum2 : journal → bool := incompat_feature JBD2_FEATURE_INCOMPAT_CSUM_V2.
Definition jbd2_has_feature_csum3 : journal → bool := incompat_feature JBD2_FEATURE_INCOMPAT_CSUM_V3.
Definition jbd2_has_feature_fast_commit : journal → bool := incompat_feature JBD2_FEATURE_INCOMPAT_FAST_COMMIT.

Definition journal_tag_bytes (j : journal) : Z :=
  if jbd2_has_feature_csum3 j then sizeof_journal_block_tag3 else
  let sz := sizeof_journal_block_tag in
  let sz := if jbd2_has_feature_csum2 j then sz + 2 else sz in
  if jbd2_has_feature_64bit j then sz else sz - 4.

Definition jbd2_journal_has_csum_v2or3 (j : journal) : bool :=
  jbd2_has_feature_csum2 j || jbd2_has_feature_csum3 j.

Definition jbd2_journal_get_num_fc_blks (jsb : list Z) : Z :=
  let n := s32 (js_num_fc_blks jsb) in
  if bool_decide (n ≠ 0) then n else JBD2_DEFAULT_FAST_COMMIT_BLOCKS.

(** Transaction identifiers go round; the comparisons are those of a
    difference with a sign. *)
Definition tid_gt (x y : Z) : bool := bool_decide (0 < s32 (x - y)).
Definition tid_geq (x y : Z) : bool := bool_decide (0 ≤ s32 (x - y)).

(** *** Checksums *)
Definition jbd2_chksum (crc : Z) (p : list Z) : Z := crc32c crc p.
Definition crc32_be (crc : Z) (p : list Z) : Z := ext2fs_crc32_be crc 0 p.

Definition jbd2_descriptor_block_csum_set (j : journal) (buf : list Z) : list Z :=
  if negb (jbd2_journal_has_csum_v2or3 j) then buf else
  let off := j_blocksize j - sizeof_journal_block_tail in
  let buf := set_be32 off 0 buf in
  set_be32 off (jbd2_chksum (j_csum_seed j) (take (Z.to_nat (j_blocksize j)) buf)) buf.

Definition e2fsck_journal_sb_csum (jsb : list Z) : Z :=
  crc32c all_ones (take sizeof_journal_superblock (set_be32 js_checksum_off 0 jsb)).
Definition e2fsck_journal_sb_csum_verify (j : journal) (jsb : list Z) : bool :=
  if negb (jbd2_journal_has_csum_v2or3 j) then true else
  bool_decide (be32 js_checksum_off jsb = e2fsck_journal_sb_csum jsb).
Definition e2fsck_journal_sb_csum_set (j : journal) (jsb : list Z) : list Z :=
  if negb (jbd2_journal_has_csum_v2or3 j) then jsb else
  set_be32 js_checksum_off (e2fsck_journal_sb_csum jsb) jsb.

(** *** The hash of a block number *)
Definition GOLDEN_RATIO_64 : Z := 0x61C8864680B583EB.
Definition hash_64 (val bits : Z) : Z := u32 (Z.shiftr (u64 (val * GOLDEN_RATIO_64)) (64 - bits)).

(** ** Buffers *)
Section buffers.
Context {D : Type}.
Context (ext2fs_bmap2 : Z * list Z → Z → Z * Z).

(** The devices of the file system and of the journal, when it has its own. *)
Record world := World {
  w_fs : io_channel D;
  w_journal : io_channel D;
  w_blocksize : Z;
}.

Inductive kdev := K_DEV_FS | K_DEV_JOURNAL.

#[export] Instance kdev_eq_dec : EqDecision kdev.
Proof. solve_decision. Defined.

Definition j_dev (j : journal) : kdev := if j_dev_is_fs j then K_DEV_FS else K_DEV_JOURNAL.

Definition io_of (d : kdev) (w : world) : io_channel D :=
  match d with K_DEV_FS => w_fs w | K_DEV_JOURNAL => w_journal w end.
Definition set_io (d : kdev) (ch : io_channel D) (w : world) : world :=
  match d with
  | K_DEV_FS => World ch (w_journal w) (w_blocksize w)
  | K_DEV_JOURNAL => World (w_fs w) ch (w_blocksize w)
  end.

Record buffer_head := BufferHead {
  b_dev : kdev;
  b_size : Z;
  b_err : Z;
  b_dirty : bool;
  b_uptodate : bool;
  b_blocknr : Z;
  b_data : list Z;
}.

Definition jbd2_journal_bmap (j : journal) (block : Z) : Z * Z :=
  match j_inode j with
  | None => (0, block)
  | Some inode => let '(retval, pblk) := ext2fs_bmap2 inode block in (s32 (-1 * s32 retval), pblk)
  end.

(** The program ends when there is no memory for a buffer. *)
Definition getblk (w : world) (d : kdev) (blocknr blocksize : Z) : buffer_head :=
  BufferHead d blocksize 0 false false blocknr (replicate (Z.to_nat (w_blocksize w)) 0).

Definition EIO : Z := 5.
Definition EFSBADCRC : Z := EXT2_ET_BASE + 175.
Definition EFSCORRUPTED : Z := EXT2_ET_BASE + 174.

Definition sync_blockdev (w : world) (d : kdev) : Z * world :=
  let '(e, ch) := io_channel_flush (io_of d w) in
  (if bool_decide (e ≠ 0) then - EIO else 0, set_io d ch w).

(** [ll_rw_block(REQ_OP_READ, 0, 1, &bh)] and [ll_rw_block(REQ_OP_WRITE, 0, 1, &bh)] *)
Definition ll_read_block (w : world) (bh : buffer_head) : buffer_head * world :=
  if b_uptodate bh then (bh, w) else
  let '(e, data, ch) := io_channel_read_blk64 (io_of (b_dev bh) w) (b_blocknr bh) 1 in
  let w := set_io (b_dev bh) ch w in
  if bool_decide (e ≠ 0)
  then (BufferHead (b_dev bh) (b_size bh) (s32 e) (b_dirty bh) (b_uptodate bh) (b_blocknr bh) (b_data bh), w)
  else (BufferHead (b_dev bh) (b_size bh) (b_err bh) (b_dirty bh) true (b_blocknr bh) data, w).

Definition ll_write_block (w : world) (bh : buffer_head) : buffer_head * world :=
  if negb (b_dirty bh) then (bh, w) else
  let '(e, ch) := io_channel_write_blk64 (io_of (b_dev bh) w) (b_blocknr bh) 1 (b_data bh) in
  let w := set_io (b_dev bh) ch w in
  if bool_decide (e ≠ 0)
  then (BufferHead (b_dev bh) (b_size bh) (s32 e) (b_dirty bh) (b_uptodate bh) (b_blocknr bh) (b_data bh), w)
  else (BufferHead (b_dev bh) (b_size bh) (b_err bh) false true (b_blocknr bh) (b_data bh), w).

Definition mark_buffer_dirty (bh : buffer_head) : buffer_head :=
  BufferHead (b_dev bh) (b_size bh) (b_err bh) true (b_uptodate bh) (b_blocknr bh) (b_data bh).
Definition mark_buffer_uptodate (bh : buffer_head) (val : bool) : buffer_head :=
  BufferHead (b_dev bh) (b_size bh) (b_err bh) (b_dirty bh) val (b_blocknr bh) (b_data bh).
Definition set_b_data (data : list Z) (bh : buffer_head) : buffer_head :=
  BufferHead (b_dev bh) (b_size bh) (b_err bh) (b_dirty bh) (b_uptodate bh) (b_blocknr bh) data.

Definition brelse (w : world) (bh : buffer_head) : world :=
  if b_dirty bh then (ll_write_block w bh).2 else w.

Definition wait_on_buffer (w : world) (bh : buffer_head) : buffer_head * world :=
  if b_uptodate bh then (bh, w) else ll_read_block w bh.
End buffers.
Arguments world D : clear implicits.
