(* ===== verification/Revoke.v ===== *)
(** * Revoke: the table of revoked blocks (revoke.c)

    During recovery the journal keeps, in a hash table, the last transaction
    that revoked each block.  A list of the table is a list of records, the
    newest first.  [revoked_at] is the map that the table implements
    ([table_ok]): setting a record keeps the later of two transactions, and a
    test compares with it.

    [kmem_ok] says whether the memory for the record of a block could be
    allocated. *)
From S2P Require Import Prelude.
From S2P Require Import Bytes.
From S2P Require Import IoManager.
From S2P Require Import Jbd.
#[local] Open Scope Z_scope.

(** ** The table *)
Section table.
Context (kmem_ok : Z → Z → bool).

Definition hash (j : journal) (block : Z) : Z := s32 (hash_64 block (hash_shift (j_revoke j))).

(** The list of a block. *)
Definition bucket (j : journal) (block : Z) : list revoke_record :=
  default [] (hash_table (j_revoke j) !! Z.to_nat (hash j block)).
Definition set_bucket (j : journal) (block : Z) (l : list revoke_record) : journal :=
  let t := j_revoke j in
  set_revoke_table (RevokeTable (hash_size t) (hash_shift t)
                      (<[Z.to_nat (hash j block) := l]> (hash_table t))) j.

Definition insert_revoke_hash (j : journal) (blocknr seq : Z) : Z * journal :=
  if negb (kmem_ok blocknr seq) then (- errno ENOMEM, j) else
  (0, set_bucket j blocknr (RevokeRecord seq blocknr :: bucket j blocknr)).

(** The position of the record of a block in its list. *)
Fixpoint find_in_list (blocknr : Z) (l : list revoke_record) : option (nat * revoke_record) :=
  match l with
  | [] => None
  | r :: l' => if bool_decide (rr_blocknr r = blocknr) then Some (O, r) else
      match find_in_list blocknr l' with Some (i, r') => Some (S i, r') | None => None end
  end.

Definition find_revoke_record (j : journal) (blocknr : Z) : option (nat * revoke_record) :=
  find_in_list blocknr (bucket j blocknr).

Definition jbd2_journal_set_revoke (j : journal) (blocknr sequence : Z) : Z * journal :=
  match find_revoke_record j blocknr with
  | Some (i, r) =>
      if tid_gt sequence (rr_sequence r)
      then (0, set_bucket j blocknr (<[i := RevokeRecord sequence (rr_blocknr r)]> (bucket j blocknr)))
      else (0, j)
  | None => insert_revoke_hash j blocknr sequence
  end.

Definition jbd2_journal_test_revoke (j : journal) (blocknr sequence : Z) : bool :=
  match find_revoke_record j blocknr with
  | None => false
  | Some (_, r) => negb (tid_gt sequence (rr_sequence r))
  end.

Definition jbd2_journal_clear_revoke (j : journal) : journal :=
  let t := j_revoke j in
  set_revoke_table (RevokeTable (hash_size t) (hash_shift t) ((λ _, []) <$> hash_table t)) j.
End table.

(** [while((tmp >>= 1UL) != 0UL) shift++;] *)
Fixpoint shift_loop (fuel : nat) (tmp shift : Z) : Z :=
  match fuel with
  | O => shift
  | S fuel =>
      let tmp := Z.shiftr tmp 1 in
      if bool_decide (tmp ≠ 0) then shift_loop fuel tmp (shift + 1) else shift
  end.

(** Whether the table and its array could be allocated. *)
Definition jbd2_journal_init_revoke_table (size : Z) (table_ok array_ok : bool) : option revoke_table :=
  if negb table_ok then None else
  let shift := shift_loop 32 size 0 in
  if negb array_ok then None else
  Some (RevokeTable size shift (replicate (Z.to_nat size) [])).

(** The assertion that the lists are empty. *)
Definition jbd2_journal_destroy_revoke_table (t : revoke_table) : bool :=
  forallb (λ l, bool_decide (length l = 0%nat)) (hash_table t).

(** [is_power_of_2] *)
Definition is_power_of_2 (x : Z) : bool :=
  bool_decide (x ≠ 0) && bool_decide (Z.land x (x - 1) = 0).

(** The error and the two tables; [None] when the assertion fails. *)
Definition jbd2_journal_init_revoke (size : Z) (ok0 ok1 : bool * bool) :
    option (Z * option (revoke_table * revoke_table)) :=
  if negb (is_power_of_2 size) then None else
  match jbd2_journal_init_revoke_table size ok0.1 ok0.2, jbd2_journal_init_revoke_table size ok1.1 ok1.2 with
  | Some t0, Some t1 => Some (0, Some (t0, t1))
  | _, _ => Some (- errno ENOMEM, None)
  end.

(** ** Transaction numbers *)
Lemma tid_difference s i k : 0 ≤ i < 2^31 → 0 ≤ k < 2^31 → s32 (u32 (s + i) - u32 (s + k)) = i - k.
Proof.
  intros Hi Hk. pose proof (Z.div_mod (s + i) (2^32) ltac:(done)) as H1.
  pose proof (Z.div_mod (s + k) (2^32) ltac:(done)) as H2.
  unfold s32, u32. replace ((s + i) mod 2^32 - (s + k) mod 2^32 + 2^31)
    with (i - k + 2^31 + ((s + k) / 2^32 - (s + i) / 2^32) * 2^32) by lia.
  rewrite Z.mod_add // Z.mod_small; lia.
Qed.

Lemma tid_gt_spec s i k : 0 ≤ i < 2^31 → 0 ≤ k < 2^31 → tid_gt (u32 (s + i)) (u32 (s + k)) = bool_decide (k < i).
Proof. intros Hi Hk. unfold tid_gt. apply bool_decide_ext. rewrite tid_difference //. lia. Qed.

Lemma tid_geq_spec s i k : 0 ≤ i < 2^31 → 0 ≤ k < 2^31 → tid_geq (u32 (s + i)) (u32 (s + k)) = bool_decide (k ≤ i).
Proof. intros Hi Hk. unfold tid_geq. apply bool_decide_ext. rewrite tid_difference //. lia. Qed.

(** ** The map the table implements *)

Definition revoked_at (j : journal) (b : Z) : option Z :=
  rr_sequence ∘ snd <$> find_revoke_record j b.

Record table_ok (j : journal) : Prop := TableOk {
  to_shift : 0 ≤ hash_shift (j_revoke j) < 31;
  to_length : Z.of_nat (length (hash_table (j_revoke j))) = 2 ^ hash_shift (j_revoke j);
}.

Lemma hash_range j b : table_ok j → 0 ≤ hash j b < 2 ^ hash_shift (j_revoke j).
Proof.
  intros [Hs Hl]. unfold hash, hash_64. set (k := hash_shift (j_revoke j)) in *.
  assert (Hu : 0 ≤ Z.shiftr (u64 (b * GOLDEN_RATIO_64)) (64 - k) < 2 ^ k).
  { rewrite Z.shiftr_div_pow2; [|lia]. pose proof (Z.mod_pos_bound (b * GOLDEN_RATIO_64) (2^64) ltac:(done)) as Hm.
    change ((b * GOLDEN_RATIO_64) mod 2^64) with (u64 (b * GOLDEN_RATIO_64)) in Hm.
    assert (0 < 2 ^ (64 - k)) by (apply Z.pow_pos_nonneg; lia).
    split; [apply Z.div_pos; lia|]. apply Z.div_lt_upper_bound; [lia|]. rewrite -Z.pow_add_r; [|lia..].
    replace (64 - k + k) with 64 by lia. lia. }
  assert (2 ^ k < 2 ^ 31) by (apply Z.pow_lt_mono_r; lia). rewrite u32_small; [|lia]. rewrite s32_small; lia.
Qed.

Lemma lookup_bucket j b b' l : table_ok j →
  bucket (set_bucket j b l) b' = if decide (hash j b' = hash j b) then l else bucket j b'.
Proof.
  intros Hok. pose proof (hash_range j b Hok) as Hb. pose proof (hash_range j b' Hok) as Hb'.
  pose proof (to_length _ Hok) as Hl. unfold bucket, set_bucket. cbn [j_revoke set_revoke_table hash_table].
  change (hash (set_revoke_table _ j) b') with (hash j b').
  case_decide as Hh.
  - rewrite Hh list_lookup_insert_eq //. lia.
  - rewrite list_lookup_insert_ne //. lia.
Qed.

Lemma table_ok_set j b l : table_ok j → table_ok (set_bucket j b l).
Proof. intros [? Hl]. constructor; [done|]. cbn. rewrite length_insert. exact Hl. Qed.

Lemma find_in_list_some b l i r : find_in_list b l = Some (i, r) → l !! i = Some r ∧ rr_blocknr r = b.
Proof.
  revert i. induction l as [|r0 l IH]; intros i; cbn [find_in_list]; [done|].
  case_bool_decide as Hb; [by intros [= <- <-]|].
  destruct (find_in_list b l) as [[i' r']|]; [|done]. intros [= <- <-]. by apply IH.
Qed.

Lemma find_in_list_insert b b' l i r s : find_in_list b l = Some (i, r) →
  find_in_list b' (<[i := RevokeRecord s b]> l) =
    if decide (b' = b) then Some (i, RevokeRecord s b) else find_in_list b' l.
Proof.
  revert i. induction l as [|r0 l IH]; intros i; cbn [find_in_list]; [done|].
  case_bool_decide as Hb.
  - intros [= <- <-]. cbn [insert list_insert find_in_list rr_blocknr].
    case_decide as Hbb; [by rewrite bool_decide_eq_true_2|].
    rewrite !bool_decide_eq_false_2; [done|congruence..].
  - destruct (find_in_list b l) as [[i' r']|]; [|done]. intros [= <- <-].
    cbn [insert list_insert find_in_list]. fold (insert i' (RevokeRecord s b) l).
    rewrite IH //. case_decide as Hbb; [|done]. by rewrite Hbb bool_decide_eq_false_2.
Qed.

(** Setting a record changes the transaction of this block only, to the later
    one. *)
Definition later (old : option Z) (seq : Z) : Z :=
  match old with Some s => if tid_gt seq s then seq else s | None => seq end.

Lemma set_revoke_ok kmem_ok j b seq : table_ok j → (revoked_at j b = None → kmem_ok b seq = true) →
  ∃ j', jbd2_journal_set_revoke kmem_ok j b seq = (0, j') ∧ table_ok j' ∧
    j' = set_revoke_table (j_revoke j') j ∧
    ∀ x, revoked_at j' x = if decide (x = b) then Some (later (revoked_at j b) seq) else revoked_at j x.
Proof.
  intros Hok Hmem. unfold jbd2_journal_set_revoke, revoked_at in *.
  destruct (find_revoke_record j b) as [[i r]|] eqn:Hf; cbn [fmap option_fmap option_map] in *.
  - unfold find_revoke_record in Hf. destruct (find_in_list_some _ _ _ _ Hf) as [Hi Hb].
    cbn [compose snd later]. destruct (tid_gt seq (rr_sequence r)) eqn:Hgt; cbn [rr_sequence].
    + eexists. split; [done|]. split; [by apply table_ok_set|]. split; [done|]. intros x.
      unfold find_revoke_record. rewrite lookup_bucket //. rewrite Hb.
      destruct (decide (hash j x = hash j b)) as [Hh|Hh].
      * rewrite (find_in_list_insert b x _ i r) //. case_decide as Hxb; [by subst|].
        unfold bucket. by rewrite Hh.
      * rewrite decide_False; [done|]. by intros ->.
    + exists j. split; [done|]. split; [done|]. split; [by destruct j|]. intros x. unfold find_revoke_record.
      case_decide as Hxb; [|done]. subst x. by rewrite Hf.
  - unfold insert_revoke_hash. rewrite Hmem //. cbn [negb]. eexists. split; [done|].
    split; [by apply table_ok_set|]. split; [done|]. intros x. unfold find_revoke_record in *.
    rewrite lookup_bucket //. cbn [later]. destruct (decide (hash j x = hash j b)) as [Hh|Hh].
    + cbn [find_in_list rr_blocknr]. case_decide as Hxb; [subst; by rewrite bool_decide_eq_true_2|].
      rewrite bool_decide_eq_false_2; [|congruence]. assert (bucket j b = bucket j x) as -> by (unfold bucket; by rewrite Hh).
      by destruct (find_in_list x (bucket j x)) as [[]|].
    + rewrite decide_False; [done|]. by intros ->.
Qed.

Lemma test_revoke_eq j b seq : jbd2_journal_test_revoke j b seq =
  match revoked_at j b with Some s => negb (tid_gt seq s) | None => false end.
Proof. unfold jbd2_journal_test_revoke, revoked_at. by destruct (find_revoke_record j b) as [[i r]|]. Qed.

Lemma clear_revoke_ok j : table_ok j → table_ok (jbd2_journal_clear_revoke j) ∧
  ∀ x, revoked_at (jbd2_journal_clear_revoke j) x = None.
Proof.
  intros [Hs Hl]. split; [constructor; [done|]; cbn; by rewrite length_fmap|].
  intros x. unfold revoked_at, find_revoke_record, bucket. cbn [j_revoke jbd2_journal_clear_revoke set_revoke_table hash_table].
  rewrite list_lookup_fmap. by destruct (hash_table (j_revoke j) !! _).
Qed.

(** ** The table over time *)
Definition set_revokes (kmem_ok : Z → Z → bool) (s : Z) (l : list (Z * Z)) (j : journal) : Z * journal :=
  foldl (λ '(err, j) '(b, k), if bool_decide (err ≠ 0) then (err, j) else jbd2_journal_set_revoke kmem_ok j b (u32 (s + k)))
    (0, j) l.

(** The last of the transactions that revoke a block. *)
Definition last_revoke (l : list (Z * Z)) (b : Z) : option Z :=
  foldl (λ o '(x, k), if decide (x = b) then Some (Z.max (default k o) k) else o) None l.

Lemma last_revoke_snoc l x k b : last_revoke (l ++ [(x, k)]) b =
  if decide (x = b) then Some (Z.max (default k (last_revoke l b)) k) else last_revoke l b.
Proof. unfold last_revoke. by rewrite foldl_app. Qed.

Lemma last_revoke_spec l b i : Forall (λ p, 0 ≤ p.2) l → (∃ k, last_revoke l b = Some k ∧ i ≤ k) ↔ Exists (λ p, p.1 = b ∧ i ≤ p.2) l.
Proof.
  intros Hl. induction l as [|[x k] l IH] using rev_ind.
  { split; [by intros (k & ? & _)|]. intros He. by apply Exists_nil in He. }
  apply Forall_app in Hl as [Hl _]. specialize (IH Hl). rewrite last_revoke_snoc Exists_app Exists_cons Exists_nil -IH. cbn [fst snd].
  destruct (decide (x = b)) as [->|Hx]; [|split; [by left|intros [?|[[] | []]]; done]].
  destruct (last_revoke l b) as [k0|]; cbn [from_option id].
  - split; [intros (k' & [= <-] & ?); destruct (decide (i ≤ k0)); [left; by exists k0|right; left; split; [done|lia]]|].
    intros [(k' & [= <-] & ?)|[[_ ?] | []]]; (eexists; split; [done|lia]).
  - split; [intros (k' & [= <-] & ?); right; left; split; [done|lia]|]. intros [(k' & [=] & _)|[[_ ?] | []]]. eexists; split; [done|lia].
Qed.

Lemma last_revoke_range l b k n : Forall (λ p, 0 ≤ p.2 < n) l → last_revoke l b = Some k → 0 ≤ k < n.
Proof.
  revert k. induction l as [|[x k'] l IH] using rev_ind; intros k Hl; [done|].
  apply Forall_app in Hl as [Hl Hk]. apply Forall_cons in Hk as [Hk _]. cbn [snd] in Hk. rewrite last_revoke_snoc.
  case_decide; [|by apply IH]. destruct (last_revoke l b) as [k0|]; cbn [from_option id]; intros Hs; injection Hs as Hs.
  - specialize (IH k0 Hl eq_refl). lia.
  - lia.
Qed.

Lemma set_revokes_ok kmem_ok s l j : table_ok j → (∀ b, revoked_at j b = None) → (∀ b k, kmem_ok b k = true) →
  Forall (λ p, 0 ≤ p.2 < 2^31) l →
  ∃ j', set_revokes kmem_ok s l j = (0, j') ∧ table_ok j' ∧ ∀ b, revoked_at j' b = (λ k, u32 (s + k)) <$> last_revoke l b.
Proof.
  intros Hok Hno Hmem Hl. induction l as [|[x k] l IH] using rev_ind; [exists j; split; [done|]; split; [done|apply Hno]|].
  apply Forall_app in Hl as [Hl Hk]. apply Forall_cons in Hk as [Hk _]. cbn [snd] in Hk.
  destruct (IH Hl) as (j1 & Hj1 & Hok1 & Hr1).
  destruct (set_revoke_ok kmem_ok j1 x (u32 (s + k)) Hok1 ltac:(done)) as (j' & Hset & Hok' & _ & Hr').
  exists j'. split; [unfold set_revokes in *; rewrite foldl_app Hj1; exact Hset|]. split; [exact Hok'|].
  intros b. rewrite Hr' last_revoke_snoc. destruct (decide (b = x)) as [->|Hb]; [|rewrite decide_False; [apply Hr1|done]].
  rewrite decide_True // Hr1. destruct (last_revoke l x) as [k0|] eqn:Hk0; cbn [from_option id fmap option_fmap option_map later]; [|do 3 f_equal; lia].
  pose proof (last_revoke_range _ _ _ _ Hl Hk0). rewrite tid_gt_spec //. case_bool_decide; do 3 f_equal; lia.
Qed.

(** C39: After any sequence of revoke records, a block counts as revoked in a
    transaction exactly when the same or a later transaction revoked it. *)
Theorem revoke_table_correct kmem_ok s l j b i :
  table_ok j → (∀ b, revoked_at j b = None) → (∀ b k, kmem_ok b k = true) →
  Forall (λ p, 0 ≤ p.2 < 2^31) l → 0 ≤ i < 2^31 →
  ∃ j', set_revokes kmem_ok s l j = (0, j') ∧
    jbd2_journal_test_revoke j' b (u32 (s + i)) = bool_decide (Exists (λ p, p.1 = b ∧ i ≤ p.2) l).
Proof.
  intros Hok Hno Hmem Hl Hi. destruct (set_revokes_ok kmem_ok s l j Hok Hno Hmem Hl) as (j' & Hset & _ & Hr).
  exists j'. split; [exact Hset|]. rewrite test_revoke_eq Hr.
  assert (Forall (λ p : Z * Z, 0 ≤ p.2) l) as Hl0 by (eapply Forall_impl; [exact Hl|cbn; lia]).
  destruct (last_revoke l b) as [k|] eqn:Hk; cbn.
  - rewrite tid_gt_spec; [|lia|by eapply last_revoke_range]. rewrite -bool_decide_not. apply bool_decide_ext.
    rewrite -(last_revoke_spec l b i Hl0) Hk. split; [intros ?; exists k; split; [done|lia]|]. intros (k' & [= <-] & ?). lia.
  - symmetry. apply bool_decide_eq_false_2. rewrite -(last_revoke_spec l b i Hl0) Hk. by intros (k & ? & _).
Qed.

Lemma revoke_table_correct_witness : let j := Journal [] 2 0 0 0 1 10 true 32 10 None 0 (RevokeTable 4 2 (replicate 4 [])) 0 0 in
  ∃ j', set_revokes (λ _ _, true) (2^32 - 2) [(5, 1); (9, 3); (5, 4)] j = (0, j') ∧ 
    jbd2_journal_test_revoke j' 9 (u32 (2^32 - 2 + 2)) = true.
Proof.
  intros j.
  apply (revoke_table_correct (λ _ _, true) (2^32 - 2) [(5, 1); (9, 3); (5, 4)] j 9 2).
  - by constructor.
  - intros b. unfold revoked_at, find_revoke_record, bucket. destruct (_ !! _) as [l|] eqn:Hl; [|done].
    cbn [j j_revoke hash_table] in Hl. by apply lookup_replicate in Hl as [-> _].
  - done.
  - apply (bool_decide_unpack _). by vm_compute.
  - done.
Defined.
