(* ===== verification/Recovery.v ===== *)
(** * Recovery: replaying the journal (recovery.c)

    Recovery makes three passes over the log: it finds its end, collects the
    revoke records, and writes the blocks of the committed transactions.
    [pass_step] is one round of [do_one_pass]'s [while (1)], which reads one
    descriptor, commit or revoke block; the state of a pass is [pass_state],
    and a round goes on, ends the pass, or fails.  [pass_loop] runs rounds with
    fuel and is [None] without it, as a log need not end (see RecoveryProps).

    Inside a round everything is bounded by the size of a block.  Buffers of the
    journal are never dirty, so that releasing them has no effect and is left
    out; those of the file system are written when they are released.  The
    call-back for fast commits is an argument. *)
From S2P Require Import Prelude.
From S2P Require Import Bytes.
From S2P Require Import Crc.
From S2P Require Import Csum.
From S2P Require Import IoManager.
From S2P Require Import Jbd.
From S2P Require Import Revoke.
#[local] Open Scope Z_scope.

Inductive passtype := PASS_SCAN | PASS_REVOKE | PASS_REPLAY.

#[export] Instance passtype_eq_dec : EqDecision passtype.
Proof. solve_decision. Defined.

Definition JBD2_FC_REPLAY_STOP : Z := 0.
Definition JBD2_FC_REPLAY_CONTINUE : Z := 1.

(** [struct recovery_info] *)
Record recovery_info := RecoveryInfo {
  start_transaction : Z;
  end_transaction : Z;
  nr_replays : Z;
  nr_revokes : Z;
  nr_revoke_hits : Z;
}.

Definition set_start (v : Z) (i : recovery_info) : recovery_info :=
  RecoveryInfo v (end_transaction i) (nr_replays i) (nr_revokes i) (nr_revoke_hits i).
Definition set_end (v : Z) (i : recovery_info) : recovery_info :=
  RecoveryInfo (start_transaction i) v (nr_replays i) (nr_revokes i) (nr_revoke_hits i).
Definition count_replay (i : recovery_info) : recovery_info :=
  RecoveryInfo (start_transaction i) (end_transaction i) (s32 (nr_replays i + 1)) (nr_revokes i) (nr_revoke_hits i).
Definition count_revoke (i : recovery_info) : recovery_info :=
  RecoveryInfo (start_transaction i) (end_transaction i) (nr_replays i) (s32 (nr_revokes i + 1)) (nr_revoke_hits i).
Definition count_hit (i : recovery_info) : recovery_info :=
  RecoveryInfo (start_transaction i) (end_transaction i) (nr_replays i) (nr_revokes i) (s32 (nr_revoke_hits i + 1)).

Section recovery.
Context {D : Type}.
Context (ext2fs_bmap2 : Z * list Z → Z → Z * Z).
Context (kmem_ok : Z → Z → bool).
Context (j_fc_replay_callback : option (journal → world D → buffer_head → passtype → Z → Z → Z * world D)).

(** ** Reading the journal *)

(** The error, or the buffer; [offset] has 32 bits. *)
Definition jread (j : journal) (w : world D) (offset : Z) : Z * option buffer_head * world D :=
  if bool_decide (j_total_len j ≤ u32 offset) then (- EFSCORRUPTED, None, w) else
  let '(err, blocknr) := jbd2_journal_bmap ext2fs_bmap2 j (u32 offset) in
  if bool_decide (err ≠ 0) then (err, None, w) else
  let bh := getblk w (j_dev j) blocknr (j_blocksize j) in
  let '(bh, w) := if b_uptodate bh then (bh, w) else wait_on_buffer w bh in
  if negb (b_uptodate bh) then (- EIO, None, brelse w bh) else (0, Some bh, w).

Definition jbd2_descriptor_block_csum_verify (j : journal) (buf : list Z) : bool :=
  if negb (jbd2_journal_has_csum_v2or3 j) then true else
  let off := j_blocksize j - sizeof_journal_block_tail in
  bool_decide (be32 off buf =
    jbd2_chksum (j_csum_seed j) (take (Z.to_nat (j_blocksize j)) (set_be32 off 0 buf))).

(** The tag at [tagp] ends where the next one begins, or the last one. *)
Definition next_tag (j : journal) (tagp : Z) (buf : list Z) : Z :=
  let tagp' := tagp + journal_tag_bytes j in
  if bool_decide (Z.land (t_flags tagp buf) JBD2_FLAG_SAME_UUID = 0) then tagp' + 16 else tagp'.
Definition last_tag (tagp : Z) (buf : list Z) : bool :=
  bool_decide (Z.land (t_flags tagp buf) JBD2_FLAG_LAST_TAG ≠ 0).

Fixpoint count_tags_loop (fuel : nat) (j : journal) (buf : list Z) (size tagp nr : Z) : Z :=
  match fuel with
  | O => nr
  | S fuel =>
      if bool_decide (tagp + journal_tag_bytes j ≤ size) then
        if last_tag tagp buf then nr + 1
        else count_tags_loop fuel j buf size (next_tag j tagp buf) (nr + 1)
      else nr
  end.

Definition count_tags (j : journal) (buf : list Z) : Z :=
  let size := if jbd2_journal_has_csum_v2or3 j then j_blocksize j - sizeof_journal_block_tail else j_blocksize j in
  count_tags_loop (Z.to_nat (j_blocksize j)) j buf size sizeof_journal_header 0.

(** Go round the log. *)
Definition wrap (j : journal) (var : Z) : Z :=
  let last := if jbd2_has_feature_fast_commit j then j_fc_last j else j_last j in
  if bool_decide (last ≤ var) then u64 (var - u64 (last - j_first j)) else var.

(** [while (next_fc_block <= journal->j_fc_last)] *)
Fixpoint fc_loop (fuel : nat) (callback : journal → world D → buffer_head → passtype → Z → Z → Z * world D)
    (j : journal) (w : world D) (pass : passtype) (expected_commit_id next_fc_block err : Z) : Z * world D :=
  match fuel with
  | O => (err, w)
  | S fuel =>
      if bool_decide (next_fc_block ≤ j_fc_last j) then
        let '(err, bh, w) := jread j w next_fc_block in
        match bh with
        | None => (err, w)
        | Some bh =>
            let '(err, w) := callback j w bh pass (s32 (next_fc_block - j_fc_first j)) expected_commit_id in
            if bool_decide (err < 0 ∨ err = JBD2_FC_REPLAY_STOP) then (err, w)
            else fc_loop fuel callback j w pass expected_commit_id (next_fc_block + 1) 0
        end
      else (err, w)
  end.

Definition fc_do_one_pass (j : journal) (w : world D) (info : recovery_info) (pass : passtype) : Z * world D :=
  match j_fc_replay_callback with
  | None => (0, w)
  | Some callback =>
      fc_loop (S (Z.to_nat (j_fc_last j - j_fc_first j + 1))) callback j w pass (end_transaction info) (j_fc_first j) 0
  end.

Definition read_tag_block (j : journal) (tagp : Z) (buf : list Z) : Z :=
  let block := t_blocknr tagp buf in
  if jbd2_has_feature_64bit j then Z.lor block (Z.shiftl (t_blocknr_high tagp buf) 32) else block.

(** [for (i = 0; i < num_blks; i++)]: the result, the next block of the log,
    the checksum. *)
Fixpoint calc_chksums_loop (k : nat) (j : journal) (w : world D) (next_log_block crc32_sum : Z) :
    Z * Z * Z * world D :=
  match k with
  | O => (0, next_log_block, crc32_sum, w)
  | S k =>
      let io_block := next_log_block in
      let next_log_block := wrap j (u64 (next_log_block + 1)) in
      let '(err, obh, w) := jread j w io_block in
      match obh with
      | None => (1, next_log_block, crc32_sum, w)
      | Some obh =>
          calc_chksums_loop k j w next_log_block
            (crc32_be crc32_sum (take (Z.to_nat (b_size obh)) (b_data obh)))
      end
  end.

Definition calc_chksums (j : journal) (w : world D) (bh : buffer_head) (next_log_block crc32_sum : Z) :
    Z * Z * Z * world D :=
  let num_blks := count_tags j (b_data bh) in
  let crc32_sum := crc32_be crc32_sum (take (Z.to_nat (b_size bh)) (b_data bh)) in
  calc_chksums_loop (Z.to_nat num_blks) j w next_log_block crc32_sum.

Definition jbd2_commit_block_csum_verify (j : journal) (buf : list Z) : bool :=
  if negb (jbd2_journal_has_csum_v2or3 j) then true else
  bool_decide (be32 h_chksum_off buf =
    jbd2_chksum (j_csum_seed j) (take (Z.to_nat (j_blocksize j)) (set_be32 h_chksum_off 0 buf))).

(** The tag is the one at [tagp] of [tags]; [buf] is the block it describes. *)
Definition jbd2_block_tag_csum_verify (j : journal) (tagp : Z) (tags buf : list Z) (sequence : Z) : bool :=
  if negb (jbd2_journal_has_csum_v2or3 j) then true else
  let csum32 := jbd2_chksum (j_csum_seed j) (be_encode 4 sequence) in
  let csum32 := jbd2_chksum csum32 (take (Z.to_nat (j_blocksize j)) buf) in
  if jbd2_has_feature_csum3 j then bool_decide (t_checksum3 tagp tags = csum32)
  else bool_decide (t_checksum tagp tags = u16 csum32).

(** ** The state of a pass *)
Record pass_state := PassState {
  p_journal : journal;
  p_world : world D;
  p_info : recovery_info;
  next_commit_ID : Z;
  next_log_block : Z;
  p_success : Z;
  crc32_sum : Z;
  descr_csum_size : Z;
  block_error : bool;
  need_check_commit_time : bool;
  last_trans_commit_time : Z;
}.

Definition set_journal v s := PassState v (p_world s) (p_info s) (next_commit_ID s) (next_log_block s) (p_success s)
  (crc32_sum s) (descr_csum_size s) (block_error s) (need_check_commit_time s) (last_trans_commit_time s).
Definition set_world v s := PassState (p_journal s) v (p_info s) (next_commit_ID s) (next_log_block s) (p_success s)
  (crc32_sum s) (descr_csum_size s) (block_error s) (need_check_commit_time s) (last_trans_commit_time s).
Definition set_info v s := PassState (p_journal s) (p_world s) v (next_commit_ID s) (next_log_block s) (p_success s)
  (crc32_sum s) (descr_csum_size s) (block_error s) (need_check_commit_time s) (last_trans_commit_time s).
Definition set_next_ID v s := PassState (p_journal s) (p_world s) (p_info s) v (next_log_block s) (p_success s)
  (crc32_sum s) (descr_csum_size s) (block_error s) (need_check_commit_time s) (last_trans_commit_time s).
Definition set_next_block v s := PassState (p_journal s) (p_world s) (p_info s) (next_commit_ID s) v (p_success s)
  (crc32_sum s) (descr_csum_size s) (block_error s) (need_check_commit_time s) (last_trans_commit_time s).
Definition set_success v s := PassState (p_journal s) (p_world s) (p_info s) (next_commit_ID s) (next_log_block s) v
  (crc32_sum s) (descr_csum_size s) (block_error s) (need_check_commit_time s) (last_trans_commit_time s).
Definition set_crc32_sum v s := PassState (p_journal s) (p_world s) (p_info s) (next_commit_ID s) (next_log_block s)
  (p_success s) v (descr_csum_size s) (block_error s) (need_check_commit_time s) (last_trans_commit_time s).
Definition set_descr_csum_size v s := PassState (p_journal s) (p_world s) (p_info s) (next_commit_ID s) (next_log_block s)
  (p_success s) (crc32_sum s) v (block_error s) (need_check_commit_time s) (last_trans_commit_time s).
Definition set_block_error v s := PassState (p_journal s) (p_world s) (p_info s) (next_commit_ID s) (next_log_block s)
  (p_success s) (crc32_sum s) (descr_csum_size s) v (need_check_commit_time s) (last_trans_commit_time s).
Definition set_check_time v s := PassState (p_journal s) (p_world s) (p_info s) (next_commit_ID s) (next_log_block s)
  (p_success s) (crc32_sum s) (descr_csum_size s) (block_error s) v (last_trans_commit_time s).
Definition set_last_time v s := PassState (p_journal s) (p_world s) (p_info s) (next_commit_ID s) (next_log_block s)
  (p_success s) (crc32_sum s) (descr_csum_size s) (block_error s) (need_check_commit_time s) v.

(** Leaving the loop, by [break] or [goto done], or by [goto failed]. *)
Inductive pass_exit :=
  | PassDone (s : pass_state)
  | PassFailed (err : Z) (s : pass_state).

(** ** Revoke blocks *)

(** [while (offset + record_len <= max)] *)
Fixpoint scan_revoke_loop (fuel : nat) (buf : list Z) (record_len max sequence offset : Z)
    (j : journal) (info : recovery_info) : Z * journal * recovery_info :=
  match fuel with
  | O => (0, j, info)
  | S fuel =>
      if bool_decide (offset + record_len ≤ max) then
        let blocknr := if bool_decide (record_len = 4) then be32 offset buf else be64 offset buf in
        let '(err, j) := jbd2_journal_set_revoke kmem_ok j blocknr sequence in
        if bool_decide (err ≠ 0) then (err, j, info) else
        scan_revoke_loop fuel buf record_len max sequence (offset + record_len) j (count_revoke info)
      else (0, j, info)
  end.

Definition scan_revoke_records (j : journal) (bh : buffer_head) (sequence : Z) (info : recovery_info) :
    Z * journal * recovery_info :=
  let rcount := r_count (b_data bh) in
  let csum_size := if jbd2_journal_has_csum_v2or3 j then sizeof_journal_block_tail else 0 in
  if bool_decide (u32 (j_blocksize j - csum_size) < rcount) then (- errno EINVAL, j, info) else
  let max := s32 rcount in
  let record_len := if jbd2_has_feature_64bit j then 8 else 4 in
  scan_revoke_loop (Z.to_nat (j_blocksize j)) (b_data bh) record_len max sequence sizeof_journal_revoke_header j info.

(** ** Descriptor blocks *)

(** The block [obh] that the tag at [tagp] describes, which was read. *)
Definition replay_block (bh obh : buffer_head) (tagp : Z) (s : pass_state) : pass_state :=
  let j := p_journal s in
  let tags := b_data bh in
  let blocknr := read_tag_block j tagp tags in
  if jbd2_journal_test_revoke j blocknr (next_commit_ID s) then set_info (count_hit (p_info s)) s else
  if negb (jbd2_block_tag_csum_verify j tagp tags (b_data obh) (h_sequence tags))
  then set_block_error true (set_success (- EFSBADCRC) s) else
  let nbh := getblk (p_world s) K_DEV_FS blocknr (j_blocksize j) in
  let n := Z.to_nat (j_blocksize j) in
  let data := take n (b_data obh) ++ drop n (b_data nbh) in
  let data := if bool_decide (Z.land (t_flags tagp tags) JBD2_FLAG_ESCAPE ≠ 0)
              then set_be32 0 JBD2_MAGIC_NUMBER data else data in
  let nbh := mark_buffer_dirty (mark_buffer_uptodate (set_b_data data nbh) true) in
  let s := set_info (count_replay (p_info s)) s in
  set_world (brelse (p_world s) nbh) s.

(** One tag: its block is read and replayed; an error in reading is reported at
    the end. *)
Definition replay_tag (bh : buffer_head) (tagp : Z) (s : pass_state) : pass_state :=
  let j := p_journal s in
  let io_block := next_log_block s in
  let s := set_next_block (wrap j (u64 (io_block + 1))) s in
  let '(err, obh, w) := jread j (p_world s) io_block in
  let s := set_world w s in
  match obh with
  | None => set_success err s
  | Some obh => replay_block bh obh tagp s
  end.

Fixpoint replay_loop (fuel : nat) (bh : buffer_head) (tagp : Z) (s : pass_state) : pass_state :=
  match fuel with
  | O => s
  | S fuel =>
      let j := p_journal s in
      if bool_decide (tagp + journal_tag_bytes j ≤ j_blocksize j - descr_csum_size s) then
        let s := replay_tag bh tagp s in
        if last_tag tagp (b_data bh) then s
        else replay_loop fuel bh (next_tag j tagp (b_data bh)) s
      else s
  end.

Definition descriptor_step (pass : passtype) (bh : buffer_head) (s : pass_state) : pass_state + pass_exit :=
  let j := p_journal s in
  let s := if jbd2_journal_has_csum_v2or3 j then set_descr_csum_size sizeof_journal_block_tail s else s in
  let bad := bool_decide (0 < descr_csum_size s) && negb (jbd2_descriptor_block_csum_verify j (b_data bh)) in
  if bad && bool_decide (pass ≠ PASS_SCAN) then inr (PassFailed (- EFSBADCRC) s) else
  let s := if bad then set_check_time true s else s in
  if bool_decide (pass ≠ PASS_REPLAY) then
    if bool_decide (pass = PASS_SCAN) && jbd2_has_feature_checksum j &&
       negb (need_check_commit_time s) && bool_decide (end_transaction (p_info s) = 0) then
      let '(_, next, crc, w) := calc_chksums j (p_world s) bh (next_log_block s) (crc32_sum s) in
      inl (set_world w (set_next_block next (set_crc32_sum crc s)))
    else inl (set_next_block (wrap j (u64 (next_log_block s + count_tags j (b_data bh)))) s)
  else inl (replay_loop (Z.to_nat (j_blocksize j)) bh sizeof_journal_header s).

(** ** Commit blocks *)

(** The transaction is complete. *)
Definition commit_found (pass : passtype) (commit_time : Z) (s : pass_state) : pass_state + pass_exit :=
  let s := if bool_decide (pass = PASS_SCAN) then set_last_time commit_time s else s in
  inl (set_next_ID (u32 (next_commit_ID s + 1)) s).

(** The label [chksum_error].  The [break] leaves the [switch] only. *)
Definition chksum_error (pass : passtype) (commit_time : Z) (s : pass_state) : pass_state + pass_exit :=
  if bool_decide (commit_time < last_trans_commit_time s) then inr (PassDone s) else
  let s := set_info (set_end (next_commit_ID s) (p_info s)) s in
  if negb (jbd2_has_feature_async_commit (p_journal s))
  then inl (set_journal (set_failed_commit (next_commit_ID s) (p_journal s)) s)
  else commit_found pass commit_time s.

Definition commit_step (pass : passtype) (bh : buffer_head) (s : pass_state) : pass_state + pass_exit :=
  let j := p_journal s in
  let buf := b_data bh in
  let commit_time := h_commit_sec buf in
  if need_check_commit_time s then
    if bool_decide (last_trans_commit_time s ≤ commit_time) then inr (PassFailed (- EFSBADCRC) s)
    else inr (PassDone s)
  else
  let check_csum s :=
    if bool_decide (pass = PASS_SCAN) && negb (jbd2_commit_block_csum_verify j buf)
    then chksum_error pass commit_time s else commit_found pass commit_time s in
  if bool_decide (pass = PASS_SCAN) && jbd2_has_feature_checksum j then
    let found_chksum := be32 h_chksum_off buf in
    if bool_decide (end_transaction (p_info s) ≠ 0)
    then inl (set_journal (set_failed_commit (end_transaction (p_info s)) j) s) else
    if bool_decide ((crc32_sum s = found_chksum ∧ h_chksum_type buf = JBD2_CRC32_CHKSUM ∧
                     h_chksum_size buf = JBD2_CRC32_CHKSUM_SIZE) ∨
                    (h_chksum_type buf = 0 ∧ h_chksum_size buf = 0 ∧ found_chksum = 0))
    then check_csum (set_crc32_sum all_ones s)
    else chksum_error pass commit_time s
  else check_csum s.

Definition revoke_step (pass : passtype) (bh : buffer_head) (s : pass_state) : pass_state + pass_exit :=
  let j := p_journal s in
  let s := if bool_decide (pass = PASS_SCAN) && negb (jbd2_descriptor_block_csum_verify j (b_data bh))
           then set_check_time true s else s in
  if bool_decide (pass ≠ PASS_REVOKE) then inl s else
  let '(err, j, info) := scan_revoke_records j bh (next_commit_ID s) (p_info s) in
  let s := set_journal j (set_info info s) in
  if bool_decide (err ≠ 0) then inr (PassFailed err s) else inl s.

(** ** The passes *)
Definition pass_step (pass : passtype) (s : pass_state) : pass_state + pass_exit :=
  let j := p_journal s in
  if bool_decide (pass ≠ PASS_SCAN) && tid_geq (next_commit_ID s) (end_transaction (p_info s))
  then inr (PassDone s) else
  let '(err, bh, w) := jread j (p_world s) (next_log_block s) in
  let s := set_world w s in
  match bh with
  | None => inr (PassFailed err s)
  | Some bh =>
      let s := set_next_block (wrap j (u64 (next_log_block s + 1))) s in
      if bool_decide (h_magic (b_data bh) ≠ JBD2_MAGIC_NUMBER) then inr (PassDone s) else
      if bool_decide (h_sequence (b_data bh) ≠ next_commit_ID s) then inr (PassDone s) else
      let blocktype := s32 (h_blocktype (b_data bh)) in
      if bool_decide (blocktype = JBD2_DESCRIPTOR_BLOCK) then descriptor_step pass bh s else
      if bool_decide (blocktype = JBD2_COMMIT_BLOCK) then commit_step pass bh s else
      if bool_decide (blocktype = JBD2_REVOKE_BLOCK) then revoke_step pass bh s else
      inr (PassDone s)
  end.

Fixpoint pass_loop (fuel : nat) (pass : passtype) (s : pass_state) : option pass_exit :=
  match fuel with
  | O => None
  | S fuel => match pass_step pass s with inl s => pass_loop fuel pass s | inr e => Some e end
  end.

(** What follows the label [done]. *)
Definition pass_done (pass : passtype) (s : pass_state) : Z * journal * world D * recovery_info :=
  let info := p_info s in
  let '(info, success) :=
    if bool_decide (pass = PASS_SCAN) then
      (if bool_decide (end_transaction info = 0) then set_end (next_commit_ID s) info else info, p_success s)
    else
      (info, if bool_decide (end_transaction info ≠ next_commit_ID s) && bool_decide (p_success s = 0)
             then - EIO else p_success s) in
  let '(success, w) :=
    if jbd2_has_feature_fast_commit (p_journal s) && bool_decide (pass ≠ PASS_REVOKE) then
      let '(err, w) := fc_do_one_pass (p_journal s) (p_world s) info pass in
      (if bool_decide (err ≠ 0) then err else success, w)
    else (success, p_world s) in
  let success := if block_error s && bool_decide (success = 0) then - EIO else success in
  (success, p_journal s, w, info).

Definition pass_start (j : journal) (w : world D) (info : recovery_info) (pass : passtype) : pass_state :=
  let first := js_sequence (j_superblock j) in
  let info := if bool_decide (pass = PASS_SCAN) then set_start first info else info in
  PassState j w info first (js_start (j_superblock j)) 0 all_ones 0 false false 0.

Definition do_one_pass (fuel : nat) (j : journal) (w : world D) (info : recovery_info) (pass : passtype) :
    option (Z * journal * world D * recovery_info) :=
  match pass_loop fuel pass (pass_start j w info pass) with
  | None => None
  | Some (PassDone s) => Some (pass_done pass s)
  | Some (PassFailed err s) => Some (err, p_journal s, p_world s, p_info s)
  end.

Definition no_info : recovery_info := RecoveryInfo 0 0 0 0 0.

(** [JBD2_BARRIER] is 0 in user space, so that the devices are not flushed
    again. *)
Definition jbd2_journal_recover (fuel : nat) (j : journal) (w : world D) : option (Z * journal * world D) :=
  let sb := j_superblock j in
  if bool_decide (js_start sb = 0)
  then Some (0, set_transaction_sequence (u32 (js_sequence sb + 1)) j, w) else
  '(err, j, w, info) ← do_one_pass fuel j w no_info PASS_SCAN;
  '(err, j, w, info) ← (if bool_decide (err = 0) then do_one_pass fuel j w info PASS_REVOKE
                        else Some (err, j, w, info));
  '(err, j, w, info) ← (if bool_decide (err = 0) then do_one_pass fuel j w info PASS_REPLAY
                        else Some (err, j, w, info));
  let j := set_transaction_sequence (u32 (end_transaction info + 1)) j in
  let j := jbd2_journal_clear_revoke j in
  let '(err2, w) := sync_blockdev w K_DEV_FS in
  Some (if bool_decide (err = 0) then err2 else err, j, w).

Definition jbd2_journal_skip_recovery (fuel : nat) (j : journal) (w : world D) : option (Z * journal * world D) :=
  '(err, j, w, info) ← do_one_pass fuel j w no_info PASS_SCAN;
  let seq := if bool_decide (err ≠ 0) then u32 (j_transaction_sequence j + 1)
             else u32 (end_transaction info + 1) in
  Some (err, set_tail 0 (set_transaction_sequence seq j), w).
End recovery.
