(* ===== verification/RecoverySpec.v ===== *)
(** * RecoverySpec: logs and what recovery makes of them

    A log, abstractly, is a list of committed transactions; a transaction is a
    list of items, blocks to write and blocks revoked, in the order of the log.
    [replay] is what recovery promises: the transactions' writes in order, but
    for those to blocks that the same or a later transaction revokes.

    [log_at] says that the blocks of the journal hold such a log from a
    position on, by their headers, tags, records and checksums, and
    [uncommitted] what may follow: the blocks of a transaction without a valid
    commit block, and then anything that does not belong to it. *)
From S2P Require Import Prelude.
From S2P Require Import Bytes.
From S2P Require Import Crc.
From S2P Require Import Csum.
From S2P Require Import IoManager.
From S2P Require Import Jbd.
From S2P Require Import Revoke.
From S2P Require Import Recovery.
#[local] Open Scope Z_scope.

(** ** Logs *)
Inductive log_item :=
  | ItemWrites (ws : list (Z * list Z))
  | ItemRevokes (bs : list Z).

Definition item_writes (i : log_item) : list (Z * list Z) :=
  match i with ItemWrites ws => ws | ItemRevokes _ => [] end.
Definition item_revokes (i : log_item) : list Z :=
  match i with ItemWrites _ => [] | ItemRevokes bs => bs end.

Definition transaction : Type := list log_item.
Definition tx_writes (t : transaction) : list (Z * list Z) := t ≫= item_writes.
Definition tx_revokes (t : transaction) : list Z := t ≫= item_revokes.

(** A block is revoked by one of the transactions. *)
Definition revoked (txs : list transaction) (b : Z) : Prop := ∃ t, t ∈ txs ∧ b ∈ tx_revokes t.

#[export] Instance revoked_dec txs b : Decision (revoked txs b).
Proof.
  refine (cast_if (decide (Exists (λ t, b ∈ tx_revokes t) txs)));
    abstract (unfold revoked; rewrite -Exists_exists; tauto).
Defined.

(** The contents of the file system's blocks. *)
Definition disk : Type := Z → list Z.
Definition write_block (d : disk) (w : Z * list Z) : disk := λ x, if decide (x = w.1) then w.2 else d x.

(** The writes that are not held back. *)
Definition apply_writes (keep : Z → bool) (ws : list (Z * list Z)) (d : disk) : disk :=
  foldl (λ d w, if keep w.1 then write_block d w else d) d ws.

Fixpoint replay (txs : list transaction) (d : disk) : disk :=
  match txs with
  | [] => d
  | t :: rest => replay rest (apply_writes (λ b, bool_decide (¬ revoked txs b)) (tx_writes t) d)
  end.

(** ** Logs on disk *)
Section on_disk.
Context (j : journal).
(** The blocks of the journal. *)
Context (J : Z → list Z).

Definition log_last : Z := if jbd2_has_feature_fast_commit j then j_fc_last j else j_last j.
Definition next_pos (p : Z) : Z := wrap j (p + 1).
Definition csum_size : Z := if jbd2_journal_has_csum_v2or3 j then sizeof_journal_block_tail else 0.

(** A block of the log: its kind and its transaction. *)
Definition header (p kind seq : Z) : Prop :=
  h_magic (J p) = JBD2_MAGIC_NUMBER ∧ h_sequence (J p) = seq ∧ s32 (h_blocktype (J p)) = kind.

(** The tags of a descriptor block from [tagp] on. *)
Inductive tags_from (buf : list Z) (limit : Z) : Z → list Z → Prop :=
  | tags_full tagp : limit < tagp + journal_tag_bytes j → tags_from buf limit tagp []
  | tags_last tagp : tagp + journal_tag_bytes j ≤ limit → last_tag tagp buf = true → tags_from buf limit tagp [tagp]
  | tags_more tagp l : tagp + journal_tag_bytes j ≤ limit → last_tag tagp buf = false →
      tags_from buf limit (next_tag j tagp buf) l → tags_from buf limit tagp (tagp :: l).

(** The block that a tag describes is at [p]. *)
Definition tag_write (buf : list Z) (tagp p : Z) : Z * list Z :=
  let data := take (Z.to_nat (j_blocksize j)) (J p) in
  (read_tag_block j tagp buf,
   if bool_decide (Z.land (t_flags tagp buf) JBD2_FLAG_ESCAPE ≠ 0) then set_be32 0 JBD2_MAGIC_NUMBER data else data).

Inductive writes_from (buf : list Z) (seq : Z) : list Z → Z → list (Z * list Z) → Prop :=
  | writes_nil p : writes_from buf seq [] p []
  | writes_cons tagp l p ws : jbd2_block_tag_csum_verify j tagp buf (J p) seq = true →
      writes_from buf seq l (next_pos p) ws → writes_from buf seq (tagp :: l) p (tag_write buf tagp p :: ws).

(** The blocks of a revoke block. *)
Definition record_len : Z := if jbd2_has_feature_64bit j then 8 else 4.
Definition revoke_records (buf : list Z) : list Z :=
  (λ k, let off := sizeof_journal_revoke_header + record_len * k in
        if jbd2_has_feature_64bit j then be64 off buf else be32 off buf) <$>
  seqZ 0 ((r_count buf - sizeof_journal_revoke_header) / record_len).

(** An item at [p], and where the next one begins. *)
Inductive item_at (seq : Z) : Z → log_item → Z → Prop :=
  | writes_at p tagps ws :
      header p JBD2_DESCRIPTOR_BLOCK seq → jbd2_descriptor_block_csum_verify j (J p) = true →
      tags_from (J p) (j_blocksize j - csum_size) sizeof_journal_header tagps →
      Z.of_nat (length tagps) ≤ log_last - j_first j →
      writes_from (J p) seq tagps (next_pos p) ws →
      item_at seq p (ItemWrites ws) (wrap j (next_pos p + Z.of_nat (length tagps)))
  | revokes_at p :
      header p JBD2_REVOKE_BLOCK seq → jbd2_descriptor_block_csum_verify j (J p) = true →
      sizeof_journal_revoke_header ≤ r_count (J p) ≤ j_blocksize j - csum_size →
      item_at seq p (ItemRevokes (revoke_records (J p))) (next_pos p).

Inductive transaction_at (seq : Z) : Z → transaction → Z → Prop :=
  | commit_at p : header p JBD2_COMMIT_BLOCK seq → jbd2_commit_block_csum_verify j (J p) = true →
      transaction_at seq p [] (next_pos p)
  | item_then p i p' t q : item_at seq p i p' → transaction_at seq p' t q → transaction_at seq p (i :: t) q.

(** Transactions have consecutive numbers. *)
Inductive log_at : Z → Z → list transaction → Z → Prop :=
  | log_nil seq p : log_at seq p [] p
  | log_cons seq p t p' txs q : transaction_at seq p t p' → log_at (u32 (seq + 1)) p' txs q → log_at seq p (t :: txs) q.

(** What may follow: the beginning of a transaction that was not committed,
    whose blocks need not be valid.  Of a commit block with a wrong checksum
    the transaction is not known to be complete ([strict] excludes it after an
    invalid block, where recovery gives up). *)
Inductive uncommitted (seq : Z) : bool → Z → Prop :=
  | end_of_log strict p : h_magic (J p) ≠ JBD2_MAGIC_NUMBER ∨ h_sequence (J p) ≠ seq → uncommitted seq strict p
  | end_unknown strict p kind : header p kind seq → kind ≠ JBD2_DESCRIPTOR_BLOCK → kind ≠ JBD2_COMMIT_BLOCK →
      kind ≠ JBD2_REVOKE_BLOCK → uncommitted seq strict p
  | skip_writes strict p tagps : header p JBD2_DESCRIPTOR_BLOCK seq →
      tags_from (J p) (j_blocksize j - csum_size) sizeof_journal_header tagps →
      Z.of_nat (length tagps) ≤ log_last - j_first j →
      uncommitted seq (strict || negb (jbd2_descriptor_block_csum_verify j (J p)))
        (wrap j (next_pos p + Z.of_nat (length tagps))) → uncommitted seq strict p
  | skip_revokes strict p : header p JBD2_REVOKE_BLOCK seq →
      uncommitted seq (strict || negb (jbd2_descriptor_block_csum_verify j (J p))) (next_pos p) →
      uncommitted seq strict p
  | torn_commit p : header p JBD2_COMMIT_BLOCK seq → jbd2_commit_block_csum_verify j (J p) = false →
      jbd2_has_feature_async_commit j = false → uncommitted seq false (next_pos p) → uncommitted seq false p.
End on_disk.
