(* ===== verification/RecoveryProps.v ===== *)
(** * RecoveryProps: recovery replays what was committed

    [recover_replays]: from a device whose journal holds a log, recovery ends
    without an error and leaves the file system's blocks as [replay] says: the
    committed transactions in order, without the revoked blocks, and nothing of
    a transaction that was not committed.  The proof follows the three passes;
    [pass_at] relates the state of a pass to a position in the log. *)
From S2P Require Import Prelude.
From S2P Require Import Bytes.
From S2P Require Import Crc.
From S2P Require Import Csum.
From S2P Require Import IoManager.
From S2P Require Import Jbd.
From S2P Require Import Revoke.
From S2P Require Import Recovery.
From S2P Require Import RecoverySpec.
#[local] Open Scope Z_scope.
#[local] Opaque crc32c.

(** ** Big-endian numbers *)
Lemma get_be_range k off bs : is_bytes bs → 0 ≤ get_be k off bs < 256 ^ Z.of_nat k.
Proof.
  intros Hb. unfold get_be. set (l := reverse _).
  assert (is_bytes l) as Hl by (unfold is_bytes, l; rewrite Forall_reverse; by apply Forall_take, Forall_drop).
  assert (length l ≤ k)%nat as Hlen by (unfold l; rewrite length_reverse length_take; lia).
  pose proof (le_decode_range l Hl) as [? Hlt]. split; [done|].
  eapply Z.lt_le_trans; [exact Hlt|]. apply Z.pow_le_mono_r; lia.
Qed.

Lemma tag_block_range j tagp buf : is_bytes buf → 0 ≤ read_tag_block j tagp buf < 2^64.
Proof.
  intros Hb. unfold read_tag_block, t_blocknr, t_blocknr_high.
  pose proof (get_be_range 4 tagp buf Hb) as H1. pose proof (get_be_range 4 (tagp + 8) buf Hb) as H2.
  change (256 ^ Z.of_nat 4) with (2^32) in *. destruct (jbd2_has_feature_64bit j); [|lia].
  apply lor_range; [done|lia|]. rewrite Z.shiftl_mul_pow2 //. lia.
Qed.

(** ** Devices *)
Section recovery_props.
Context {D : Type} (content : D → Z → list Z).
Context (ext2fs_bmap2 : Z * list Z → Z → Z * Z).
Context (kmem_ok : Z → Z → bool).
Context (callback : option (journal → world D → buffer_head → passtype → Z → Z → Z * world D)).
Context (j0 : journal) (J : Z → list Z).

Abbreviation phys off := (jbd2_journal_bmap ext2fs_bmap2 j0 off).2.
Abbreviation n_bytes := (Z.to_nat (j_blocksize j0)).

(** A journal that can be read, on devices that work; [J] are its blocks. *)
Record journal_ok : Prop := JournalOk {
  jk_first : 0 ≤ j_first j0 < log_last j0;
  jk_len : log_last j0 ≤ j_total_len j0 < 2^32;
  jk_superblock : is_bytes (j_superblock j0);
  jk_blocksize : 0 < j_blocksize j0 < 2^31;
  jk_bmap off : 0 ≤ off < j_total_len j0 →
    (jbd2_journal_bmap ext2fs_bmap2 j0 off).1 = 0 ∧ 0 ≤ phys off < 2^64;
  jk_bytes off : 0 ≤ off < j_total_len j0 → is_bytes (J off);
  jk_no_fast_commit : jbd2_has_feature_fast_commit j0 = false ∨ callback = None;
  jk_no_checksum : jbd2_has_feature_checksum j0 = false;
}.

(** The file system's blocks are those of [d]. *)
Record world_ok (w : world D) (d : disk) : Prop := WorldOk {
  wo_fs : Works content (w_fs w);
  wo_journal : Works content (io_of (j_dev j0) w);
  wo_blocksize : w_blocksize w = j_blocksize j0;
  wo_disk b : content (ch_state (w_fs w)) b = d b;
  wo_log off : 0 ≤ off < j_total_len j0 → content (ch_state (io_of (j_dev j0) w)) (phys off) = J off;
}.

(** The journal during recovery: other revoke records and the number of a
    commit that failed. *)
Definition jstate (t : revoke_table) (f : Z) : journal := set_failed_commit f (set_revoke_table t j0).

Lemma jread_ok t f w d off : journal_ok → world_ok w d → 0 ≤ off < j_total_len j0 →
  ∃ bh w', jread ext2fs_bmap2 (jstate t f) w off = (0, Some bh, w') ∧ b_data bh = J off ∧ world_ok w' d.
Proof.
  intros Hj Hw Hoff. pose proof (jk_len Hj) as Hlen. destruct (jk_bmap Hj off Hoff) as [He Hp].
  unfold jread. change (j_total_len (jstate t f)) with (j_total_len j0).
  change (jbd2_journal_bmap ext2fs_bmap2 (jstate t f)) with (jbd2_journal_bmap ext2fs_bmap2 j0).
  change (j_dev (jstate t f)) with (j_dev j0). change (j_blocksize (jstate t f)) with (j_blocksize j0).
  rewrite u32_small; [|lia]. rewrite bool_decide_eq_false_2; [|lia].
  destruct (jbd2_journal_bmap ext2fs_bmap2 j0 off) as [e p] eqn:Ebm. cbn [fst snd] in He, Hp. subst e.
  rewrite bool_decide_eq_false_2; [|by intros []]. unfold wait_on_buffer, ll_read_block. cbn [getblk b_uptodate b_dev b_blocknr].
  pose proof (wo_journal _ _ Hw) as Hwj. destruct (works_read content (ch_state (io_of (j_dev j0) w)) p Hp) as (d' & Hrd & Hc).
  rewrite set_state_same in Hrd. rewrite Hrd. cbn [getblk b_size b_err b_dirty b_data].
  rewrite (bool_decide_eq_false_2 (0 ≠ 0)); [|by intros []]. cbn [b_uptodate negb].
  eexists _, _. split; [reflexivity|]. cbn [b_data]. split.
  { pose proof (wo_log _ _ Hw off Hoff) as Hl. by rewrite Ebm in Hl. }
  assert (Hjd : ∀ b, content d' b = content (ch_state (io_of (j_dev j0) w)) b) by done.
  destruct Hw as [Hfs _ Hbs Hd Hl]. constructor; [| |by destruct (j_dev j0)| |].
  - destruct (j_dev j0); cbn [set_io w_fs io_of]; [by apply works_set_state|done].
  - destruct (j_dev j0); cbn [set_io w_fs w_journal io_of] in *; by apply works_set_state.
  - intros b. rewrite -Hd. destruct (j_dev j0); cbn [set_io w_fs io_of ch_state set_state] in *; [apply Hjd|done].
  - intros o Ho. rewrite -Hl //. destruct (j_dev j0); cbn [set_io w_fs w_journal io_of ch_state set_state] in *; apply Hjd.
Qed.

(** Writing a block of the file system that is not the journal's. *)
Definition not_journal (b : Z) : Prop := j_dev j0 = K_DEV_FS → ∀ off, 0 ≤ off < j_total_len j0 → phys off ≠ b.

Lemma brelse_ok w d b data : world_ok w d → 0 ≤ b < 2^64 → not_journal b →
  let bh := BufferHead K_DEV_FS (j_blocksize j0) 0 true true b data in
  world_ok (brelse w bh) (write_block d (b, data)).
Proof.
  intros Hw Hb Hnj bh. unfold brelse, ll_write_block. cbn [bh b_dirty b_dev b_blocknr b_data negb io_of].
  pose proof (wo_fs _ _ Hw) as Hwf. destruct (works_write content (ch_state (w_fs w)) b data Hb) as (d' & Hwr & Hc).
  rewrite set_state_same in Hwr. rewrite Hwr. rewrite (bool_decide_eq_false_2 (0 ≠ 0)); [|by intros []].
  destruct Hw as [Hfs Hjw Hbs Hd Hl]. constructor; cbn [set_io w_fs snd w_blocksize ch_state set_state].
  - by apply works_set_state.
  - destruct (j_dev j0); cbn [io_of w_fs w_journal] in *; [by apply works_set_state|done].
  - done.
  - intros x. rewrite Hc. unfold write_block. cbn [fst snd]. case_decide; [done|apply Hd].
  - intros o Ho. rewrite -Hl //. unfold not_journal in Hnj. destruct (j_dev j0); cbn [io_of w_fs w_journal ch_state set_state] in *; [|done].
    rewrite Hc decide_False //. by apply Hnj.
Qed.

(** ** Positions in the log *)
Abbreviation in_log p := (j_first j0 ≤ p < log_last j0).
Abbreviation log_size := (log_last j0 - j_first j0).

Lemma wrap_eq p : journal_ok → 0 ≤ p < j_first j0 + 2 * log_size →
  wrap j0 p = if decide (log_last j0 ≤ p) then p - log_size else p.
Proof.
  intros Hj Hp. pose proof (jk_first Hj). pose proof (jk_len Hj).
  unfold wrap. fold (log_last j0). destruct (decide (log_last j0 ≤ p)).
  - rewrite bool_decide_eq_true_2 //. rewrite (u64_small log_size); [|lia]. rewrite u64_small; lia.
  - by rewrite bool_decide_eq_false_2.
Qed.

Lemma wrap_in_log p k : journal_ok → in_log p → 0 ≤ k ≤ log_size → in_log (wrap j0 (p + k)).
Proof. intros Hj Hp Hk. pose proof (jk_first Hj). rewrite wrap_eq //; [|lia]. case_decide; lia. Qed.

Lemma next_in_log p : journal_ok → in_log p → in_log (next_pos j0 p).
Proof. intros Hj Hp. pose proof (jk_first Hj). apply wrap_in_log; [done..|lia]. Qed.

Lemma in_log_total p : journal_ok → in_log p → 0 ≤ p < j_total_len j0.
Proof. intros Hj Hp. pose proof (jk_first Hj). pose proof (jk_len Hj). lia. Qed.

Lemma next_block_eq p : journal_ok → in_log p → wrap j0 (u64 (p + 1)) = next_pos j0 p.
Proof. intros Hj Hp. pose proof (jk_first Hj). pose proof (jk_len Hj). rewrite u64_small; [done|lia]. Qed.

(** Steps by one are a step by their number. *)
Fixpoint advance (n : nat) (p : Z) : Z :=
  match n with O => p | S n => advance n (next_pos j0 p) end.

Lemma advance_eq n p : journal_ok → in_log p → Z.of_nat n ≤ log_size → advance n p = wrap j0 (p + Z.of_nat n).
Proof.
  intros Hj. pose proof (jk_first Hj). revert p. induction n as [|n IH]; intros p Hp Hn; cbn [advance].
  - rewrite wrap_eq //; [|lia]. case_decide; lia.
  - rewrite IH; [|by apply next_in_log|lia]. pose proof (next_in_log p Hj Hp) as Hn'. unfold next_pos in *.
    pose proof (wrap_eq (p + 1) Hj ltac:(lia)) as Hw. rewrite Hw. rewrite Hw in Hn'.
    destruct (decide (log_last j0 ≤ p + 1)); rewrite !wrap_eq //; try lia; repeat case_decide; lia.
Qed.

(** ** Tags *)
Lemma journal_tag_bytes_min j : 8 ≤ journal_tag_bytes j.
Proof.
  unfold journal_tag_bytes, sizeof_journal_block_tag, sizeof_journal_block_tag3.
  destruct (jbd2_has_feature_csum3 j), (jbd2_has_feature_csum2 j), (jbd2_has_feature_64bit j); lia.
Qed.

Lemma next_tag_min j tagp buf : tagp + 8 ≤ next_tag j tagp buf.
Proof. pose proof (journal_tag_bytes_min j). unfold next_tag. case_bool_decide; lia. Qed.

Lemma count_tags_loop_eq fuel buf limit tagp l nr : tags_from j0 buf limit tagp l → limit ≤ tagp + Z.of_nat fuel →
  count_tags_loop fuel j0 buf limit tagp nr = nr + Z.of_nat (length l).
Proof.
  intros Ht. pose proof (journal_tag_bytes_min j0). revert fuel nr.
  induction Ht as [tagp Hfull|tagp Hfit Hlast|tagp l Hfit Hlast Ht IH]; intros [|fuel] nr Hf; cbn [count_tags_loop length]; try lia.
  - rewrite bool_decide_eq_false_2; lia.
  - rewrite bool_decide_eq_true_2 // Hlast. lia.
  - rewrite bool_decide_eq_true_2 // Hlast. pose proof (next_tag_min j0 tagp buf). rewrite IH; lia.
Qed.

Lemma count_tags_eq buf l : journal_ok →
  tags_from j0 buf (j_blocksize j0 - csum_size j0) sizeof_journal_header l → count_tags j0 buf = Z.of_nat (length l).
Proof.
  intros Hj Ht. pose proof (jk_blocksize Hj). unfold count_tags.
  assert ((if jbd2_journal_has_csum_v2or3 j0 then j_blocksize j0 - sizeof_journal_block_tail else j_blocksize j0)
    = j_blocksize j0 - csum_size j0) as -> by (unfold csum_size; destruct (jbd2_journal_has_csum_v2or3 j0); lia).
  rewrite (count_tags_loop_eq _ _ _ _ l 0 Ht); [lia|].
  assert (0 ≤ csum_size j0) by (unfold csum_size, sizeof_journal_block_tail; destruct (jbd2_journal_has_csum_v2or3 j0); lia).
  unfold sizeof_journal_header. lia.
Qed.

(** ** The records of revoked blocks *)

(** [m] gives the last transaction of the log that revokes a block. *)
Abbreviation seq0 := (js_sequence (j_superblock j0)).
Definition note (i : Z) (bs : list Z) (m : Z → option Z) : Z → option Z :=
  λ b, if decide (b ∈ bs) then Some i else m b.

Record records (m : Z → option Z) (j : journal) : Prop := Records {
  rc_table : table_ok j;
  rc_at b : revoked_at j b = (λ k, u32 (seq0 + k)) <$> m b;
}.

Lemma note_cons i x l m b : note i (x :: l) m b = note i l (note i [x] m) b.
Proof.
  unfold note. destruct (decide (b ∈ x :: l)) as [Hx|Hx], (decide (b ∈ l)), (decide (b ∈ [x])) as [Hs|Hs]; try done;
    rewrite list.elem_of_cons in Hx; rewrite list_elem_of_singleton in Hs; tauto.
Qed.

(** The transactions before [i]. *)
Definition before (i : Z) (m : Z → option Z) : Prop := ∀ b k, m b = Some k → 0 ≤ k < i.

Lemma before_note i bs m : 0 ≤ i → before (i + 1) m → before (i + 1) (note i bs m).
Proof. intros Hi Hm b k. unfold note. case_decide; [intros [= <-]; lia|apply Hm]. Qed.

Lemma records_set m t f i b : (∀ b s, kmem_ok b s = true) → 0 ≤ i < 2^31 → before (i + 1) m →
  records m (jstate t f) →
  ∃ t', jbd2_journal_set_revoke kmem_ok (jstate t f) b (u32 (seq0 + i)) = (0, jstate t' f) ∧
    records (note i [b] m) (jstate t' f).
Proof.
  intros Hmem Hi Hm [Ht Hr]. destruct (set_revoke_ok kmem_ok (jstate t f) b (u32 (seq0 + i)) Ht ltac:(intros; apply Hmem))
    as (j' & Hset & Ht' & Hj' & Hr').
  exists (j_revoke j'). assert (j' = jstate (j_revoke j') f) as Hj'' by exact Hj'.
  rewrite -Hj''. split; [exact Hset|]. split; [exact Ht'|]. intros x. rewrite Hr'. unfold note.
  destruct (decide (x = b)) as [->|Hx].
  - rewrite (decide_True (P := b ∈ [b])); [|by apply list_elem_of_singleton]. cbn. f_equal. rewrite Hr.
    destruct (m b) as [k|] eqn:Hmb; cbn [fmap option_fmap option_map later]; [|done].
    apply Hm in Hmb. rewrite tid_gt_spec; [|lia..]. case_bool_decide; [done|]. f_equal. lia.
  - rewrite (decide_False (P := x ∈ [b])); [apply Hr|]. by rewrite list_elem_of_singleton.
Qed.

Lemma records_ext m m' j : records m j → (∀ b, m' b = m b) → records m' j.
Proof. intros [Ht Hr] He. split; [done|]. intros b. by rewrite He. Qed.

Abbreviation rlen := (record_len j0).

Lemma record_len_pos : 0 < rlen.
Proof. unfold record_len. destruct (jbd2_has_feature_64bit j0); lia. Qed.

Definition record_at (buf : list Z) (k : Z) : Z :=
  let off := sizeof_journal_revoke_header + rlen * k in
  if jbd2_has_feature_64bit j0 then be64 off buf else be32 off buf.

Lemma scan_revoke_loop_ok n k fuel buf max m t f i info :
  (∀ b s, kmem_ok b s = true) → 0 ≤ i < 2^31 → before (i + 1) m → records m (jstate t f) →
  0 ≤ k → max - rlen < sizeof_journal_revoke_header + rlen * (k + Z.of_nat n) ≤ max → (n < fuel)%nat →
  ∃ t' info', scan_revoke_loop kmem_ok fuel buf rlen max (u32 (seq0 + i)) (sizeof_journal_revoke_header + rlen * k)
      (jstate t f) info = (0, jstate t' f, info') ∧
    records (note i (record_at buf <$> seqZ k (Z.of_nat n)) m) (jstate t' f) ∧
    end_transaction info' = end_transaction info.
Proof.
  intros Hmem Hi. pose proof record_len_pos as Hl. revert k fuel m t info.
  induction n as [|n IH]; intros k [|fuel] m t info Hm Hr Hk Hmax Hf; try lia; cbn [scan_revoke_loop].
  - rewrite bool_decide_eq_false_2; [|lia]. eexists _, _. split; [done|]. split; [|done].
    apply (records_ext m); [done|]. intros b. unfold note. case_decide as Hb; [|done].
    by apply elem_of_nil in Hb.
  - rewrite bool_decide_eq_true_2; [|nia].
    assert ((if bool_decide (rlen = 4) then be32 (sizeof_journal_revoke_header + rlen * k) buf
             else be64 (sizeof_journal_revoke_header + rlen * k) buf) = record_at buf k) as ->.
    { unfold record_at, record_len. by destruct (jbd2_has_feature_64bit j0). }
    destruct (records_set m t f i (record_at buf k) Hmem Hi Hm Hr) as (t1 & -> & Hr1). cbv beta iota zeta.
    rewrite (bool_decide_eq_false_2 (0 ≠ 0)); [|by intros []].
    replace (sizeof_journal_revoke_header + rlen * k + rlen) with (sizeof_journal_revoke_header + rlen * (k + 1)) by lia.
    destruct (IH (k + 1) fuel (note i [record_at buf k] m) t1 (count_revoke info)) as (t' & info' & -> & Hr' & He);
      [apply before_note; [lia|done]|done|lia|lia|lia|].
    eexists _, _. split; [done|]. split; [|by rewrite He].
    apply (records_ext _ _ _ Hr'). intros b. rewrite (seqZ_cons k); [|lia].
    replace (Z.succ k) with (k + 1) by lia. replace (Z.pred (Z.of_nat (S n))) with (Z.of_nat n) by lia.
    rewrite fmap_cons. apply note_cons.
Qed.

Lemma scan_revoke_records_ok m t f i bh info : journal_ok →
  (∀ b s, kmem_ok b s = true) → 0 ≤ i < 2^31 → before (i + 1) m → records m (jstate t f) →
  sizeof_journal_revoke_header ≤ r_count (b_data bh) ≤ j_blocksize j0 - csum_size j0 →
  ∃ t' info', scan_revoke_records kmem_ok (jstate t f) bh (u32 (seq0 + i)) info = (0, jstate t' f, info') ∧
    records (note i (revoke_records j0 (b_data bh)) m) (jstate t' f) ∧
    end_transaction info' = end_transaction info.
Proof.
  intros Hj Hmem Hi Hm Hr Hc. pose proof (jk_blocksize Hj). unfold scan_revoke_records.
  change (jbd2_journal_has_csum_v2or3 (jstate t f)) with (jbd2_journal_has_csum_v2or3 j0).
  change (j_blocksize (jstate t f)) with (j_blocksize j0).
  change (jbd2_has_feature_64bit (jstate t f)) with (jbd2_has_feature_64bit j0). fold (csum_size j0) (record_len j0).
  set (n := (r_count (b_data bh) - sizeof_journal_revoke_header) / rlen).
  set (bs := j_blocksize j0) in *. set (rc := r_count (b_data bh)) in *. pose proof record_len_pos as Hl.
  assert (0 ≤ csum_size j0) by (unfold csum_size, sizeof_journal_block_tail; destruct (jbd2_journal_has_csum_v2or3 j0); lia).
  pose proof (Z.div_mod (rc - sizeof_journal_revoke_header) rlen ltac:(lia)) as Hdm.
  pose proof (Z.mod_pos_bound (rc - sizeof_journal_revoke_header) rlen Hl) as Hmod. fold n in Hdm.
  unfold sizeof_journal_revoke_header in Hc, Hdm, Hmod |- *.
  assert (0 ≤ n) by (apply Z.div_pos; unfold sizeof_journal_revoke_header; lia).
  rewrite (u32_small (bs - csum_size j0)); [|lia]. rewrite bool_decide_eq_false_2; [|lia]. rewrite (s32_small rc); [|lia].
  destruct (scan_revoke_loop_ok (Z.to_nat n) 0 (Z.to_nat bs) (b_data bh) rc m t f i info Hmem Hi Hm Hr)
    as (t' & info' & Hs & Hr' & He); unfold sizeof_journal_revoke_header in *; [lia|nia|nia|].
  replace (16 + rlen * 0) with 16 in Hs by lia. eexists _, _. split; [exact Hs|]. split; [|done].
  apply (records_ext _ _ _ Hr'). intros b. unfold note, revoke_records. by rewrite Z2Nat.id.
Qed.

(** ** The state of a pass *)

(** A pass stands at [p] in the transaction [seq]; [strict] when it has seen an
    invalid block, [e] is the end of the log as far as it is known. *)
Record pass_at (m : Z → option Z) (d : disk) (seq p : Z) (strict : bool) (e : Z) (s : pass_state (D:=D)) : Prop := PassAt {
  pa_journal : ∃ t f, p_journal s = jstate t f;
  pa_records : records m (p_journal s);
  pa_world : world_ok (p_world s) d;
  pa_seq : next_commit_ID s = seq;
  pa_block : next_log_block s = p;
  pa_success : p_success s = 0;
  pa_no_error : block_error s = false;
  pa_strict : need_check_commit_time s = strict;
  pa_csum_size : descr_csum_size s = 0 ∨ descr_csum_size s = csum_size j0;
  pa_end : end_transaction (p_info s) = e;
}.

Definition runs (pass : passtype) (s : pass_state (D:=D)) (e : pass_exit (D:=D)) : Prop :=
  ∃ n, ∀ fuel, (n ≤ fuel)%nat → pass_loop ext2fs_bmap2 kmem_ok fuel pass s = Some e.

Abbreviation step := (pass_step (D:=D) ext2fs_bmap2 kmem_ok).

Lemma runs_step pass s s' e : step pass s = inl s' → runs pass s' e → runs pass s e.
Proof.
  intros Hs [n Hn]. exists (S n). intros [|fuel] Hf; [lia|]. cbn [pass_loop]. rewrite Hs. apply Hn. lia.
Qed.

Lemma runs_exit pass s e : step pass s = inr e → runs pass s e.
Proof. intros Hs. exists 1%nat. intros [|fuel] Hf; [lia|]. cbn [pass_loop]. by rewrite Hs. Qed.

(** What a round does with the block it reads. *)
Definition dispatch (pass : passtype) (kind : Z) (bh : buffer_head) (s : pass_state (D:=D)) : pass_state (D:=D) + pass_exit (D:=D) :=
  if bool_decide (kind = JBD2_DESCRIPTOR_BLOCK) then descriptor_step ext2fs_bmap2 pass bh s else
  if bool_decide (kind = JBD2_COMMIT_BLOCK) then commit_step pass bh s else
  if bool_decide (kind = JBD2_REVOKE_BLOCK) then revoke_step kmem_ok pass bh s else inr (PassDone s).

Lemma read_step m d seq p strict e s pass : journal_ok → in_log p → pass_at m d seq p strict e s →
  pass = PASS_SCAN ∨ tid_geq seq e = false →
  ∃ bh s', b_data bh = J p ∧ pass_at m d seq (next_pos j0 p) strict e s' ∧
    step pass s = if bool_decide (h_magic (J p) ≠ JBD2_MAGIC_NUMBER) then inr (PassDone s') else
                  if bool_decide (h_sequence (J p) ≠ seq) then inr (PassDone s') else
                  dispatch pass (s32 (h_blocktype (J p))) bh s'.
Proof.
  intros Hj Hp [[t [f Ej]] Hr Hw Hs Hb ? ? ? ? He] Hgo.
  destruct (jread_ok t f (p_world s) d p Hj Hw (in_log_total p Hj Hp)) as (bh & w' & Hrd & Hdata & Hw').
  exists bh, (set_next_block (next_pos j0 p) (set_world w' s)). split; [done|]. split.
  { constructor; try done. by exists t, f. }
  unfold pass_step. rewrite Hs He.
  assert (bool_decide (pass ≠ PASS_SCAN) && tid_geq seq e = false) as ->.
  { destruct Hgo as [->| ->]; [done|apply andb_false_r]. }
  rewrite Hb Ej Hrd. cbn [next_log_block set_world next_commit_ID set_next_block p_journal].
  change (wrap (jstate t f)) with (wrap j0). rewrite Hdata Hs Hb (next_block_eq p Hj Hp). reflexivity.
Qed.

Lemma header_step m d seq p strict e s pass kind : journal_ok → in_log p → pass_at m d seq p strict e s →
  pass = PASS_SCAN ∨ tid_geq seq e = false → header J p kind seq →
  ∃ bh s', b_data bh = J p ∧ pass_at m d seq (next_pos j0 p) strict e s' ∧ step pass s = dispatch pass kind bh s'.
Proof.
  intros Hj Hp Hs Hgo (Hm & Hq & Hk). destruct (read_step _ _ _ _ _ _ _ pass Hj Hp Hs Hgo) as (bh & s' & Hd & Hs' & ->).
  exists bh, s'. split; [done|]. split; [done|]. rewrite bool_decide_eq_false_2; [|by intros []].
  rewrite bool_decide_eq_false_2; [|by intros []]. by rewrite Hk.
Qed.

(** *** Blocks written *)

(** Whether the transaction [i] still writes the block. *)
Definition keep (m : Z → option Z) (i b : Z) : bool :=
  match m b with Some k => bool_decide (k < i) | None => true end.

Lemma test_revoke_keep m j i b : records m j → before (2^31) m → 0 ≤ i < 2^31 →
  jbd2_journal_test_revoke j b (u32 (seq0 + i)) = negb (keep m i b).
Proof.
  intros Hr Hm Hi. rewrite test_revoke_eq (rc_at _ _ Hr). unfold keep. destruct (m b) as [k|] eqn:Hb; [|done].
  cbn. apply Hm in Hb. by rewrite tid_gt_spec.
Qed.

Lemma replay_tag_ok m d i p strict e s bh tagp : journal_ok → in_log p → 0 ≤ i < 2^31 → before (2^31) m →
  pass_at m d (u32 (seq0 + i)) p strict e s → is_bytes (b_data bh) →
  h_sequence (b_data bh) = u32 (seq0 + i) → not_journal (read_tag_block j0 tagp (b_data bh)) →
  jbd2_block_tag_csum_verify j0 tagp (b_data bh) (J p) (u32 (seq0 + i)) = true →
  ∃ s', replay_tag ext2fs_bmap2 bh tagp s = s' ∧ descr_csum_size s' = descr_csum_size s ∧
    pass_at m (apply_writes (keep m i) [tag_write j0 J (b_data bh) tagp p] d) (u32 (seq0 + i)) (next_pos j0 p) strict e s'.
Proof.
  intros Hj Hp Hi Hm [[t [f Ej]] Hr Hw Hs Hb Hsu Hbe Hst Hcs He] Hbytes Hseq Hnj Hv. eexists. split; [reflexivity|].
  destruct (jread_ok t f (p_world s) d p Hj Hw (in_log_total p Hj Hp)) as (obh & w' & Hrd & Hdata & Hw').
  unfold replay_tag. rewrite Hb. cbn [p_world set_next_block]. rewrite Ej Hrd.
  change (wrap (jstate t f)) with (wrap j0). rewrite (next_block_eq p Hj Hp).
  unfold replay_block. cbn [p_journal set_world set_next_block next_commit_ID]. rewrite Ej Hs Hdata Hseq. rewrite Ej in Hr.
  change (read_tag_block (jstate t f)) with (read_tag_block j0). change (j_blocksize (jstate t f)) with (j_blocksize j0).
  change (jbd2_block_tag_csum_verify (jstate t f)) with (jbd2_block_tag_csum_verify j0).
  rewrite (test_revoke_keep m) // Hv. unfold apply_writes, tag_write. cbn [foldl fst].
  set (b := read_tag_block j0 tagp (b_data bh)) in *.
  destruct (keep m i b); cbn [negb]; (split; [reflexivity|]).
  - constructor; cbn [p_journal p_world set_world set_info set_next_block]; rewrite ?Ej; try done; [by exists t, f|].
    match goal with |- world_ok (brelse _ (mark_buffer_dirty (mark_buffer_uptodate (set_b_data ?x _) _))) _ =>
      set (data := x) end.
    assert (data = (tag_write j0 J (b_data bh) tagp p).2) as Hdt.
    { unfold data, tag_write. cbn [snd getblk b_data]. rewrite (wo_blocksize _ _ Hw').
      rewrite (drop_ge (replicate _ _)); [|by rewrite length_replicate]. by rewrite app_nil_r. }
    unfold tag_write in Hdt. cbn [snd] in Hdt. rewrite -Hdt.
    apply (brelse_ok w' d b data Hw'); [by apply tag_block_range|done].
  - constructor; cbn [p_journal p_world set_world set_info set_next_block]; rewrite ?Ej; try done. by exists t, f.
Qed.

Lemma replay_loop_ok m d i p strict e s bh tagp limit l ws fuel : journal_ok → 0 ≤ i < 2^31 → before (2^31) m →
  is_bytes (b_data bh) → h_sequence (b_data bh) = u32 (seq0 + i) →
  limit = j_blocksize j0 - csum_size j0 → tags_from j0 (b_data bh) limit tagp l →
  writes_from j0 J (b_data bh) (u32 (seq0 + i)) l p ws → (∀ w, w ∈ ws → not_journal w.1) →
  limit ≤ tagp + Z.of_nat fuel → in_log p →
  pass_at m d (u32 (seq0 + i)) p strict e s → descr_csum_size s = csum_size j0 →
  pass_at m (apply_writes (keep m i) ws d) (u32 (seq0 + i)) (advance (length l) p) strict e
    (replay_loop ext2fs_bmap2 fuel bh tagp s).
Proof.
  intros Hj Hi Hm Hbytes Hseq Hlim Ht. pose proof (journal_tag_bytes_min j0) as Hmin. revert p ws d s fuel.
  induction Ht as [tagp Hfull|tagp Hfit Hlast|tagp l Hfit Hlast Ht IH];
    intros p ws d s [|fuel] Hw Hnj Hf Hp Hs Hcs; try lia; cbn [replay_loop];
    destruct (pa_journal _ _ _ _ _ _ _ Hs) as (t & f & Ej); rewrite ?Ej.
  1: by inversion Hw; subst.
  1-3: change (journal_tag_bytes (jstate t f)) with (journal_tag_bytes j0); change (j_blocksize (jstate t f)) with (j_blocksize j0); rewrite Hcs.
  1: rewrite bool_decide_eq_false_2; [|lia]; by inversion Hw; subst.
  all: rewrite bool_decide_eq_true_2; [|lia]; inversion Hw as [|? ? ? ws' Hv Hw']; subst;
    destruct (replay_tag_ok m d i p strict e s bh tagp Hj Hp Hi Hm Hs Hbytes Hseq) as (s' & Hrt & Hcs' & Hs');
    [by apply (Hnj (tag_write j0 J (b_data bh) tagp p)), list_elem_of_here|done|]; rewrite Hrt Hlast.
  - inversion Hw'; subst. exact Hs'.
  - change (next_tag (jstate t f)) with (next_tag j0). pose proof (next_tag_min j0 tagp (b_data bh)).
    apply (IH (next_pos j0 p) ws'); [done| |lia|by apply next_in_log|done|congruence].
    intros w Hin. apply Hnj. by apply list_elem_of_further.
Qed.

(** *** Items *)
Definition pass_notes (pass : passtype) (i : Z) (bs : list Z) (m : Z → option Z) : Z → option Z :=
  match pass with PASS_REVOKE => note i bs m | _ => m end.
Definition pass_disk (pass : passtype) (m : Z → option Z) (i : Z) (ws : list (Z * list Z)) (d : disk) : disk :=
  match pass with PASS_REPLAY => apply_writes (keep m i) ws d | _ => d end.
Definition pass_before (pass : passtype) (i : Z) (m : Z → option Z) : Prop :=
  match pass with PASS_REVOKE => before (i + 1) m | _ => before (2^31) m end.

Lemma pass_at_notes m m' d seq p strict e s : pass_at m d seq p strict e s → (∀ b, m' b = m b) →
  pass_at m' d seq p strict e s.
Proof. intros [] He. constructor; try done. by apply (records_ext m). Qed.

Lemma note_nil i m b : note i [] m b = m b.
Proof. unfold note. case_decide as Hb; [by apply elem_of_nil in Hb|done]. Qed.

Lemma csum_size_range : 0 ≤ csum_size j0 ≤ 4.
Proof. unfold csum_size, sizeof_journal_block_tail. destruct (jbd2_journal_has_csum_v2or3 j0); lia. Qed.

(** The checksum's room is known after the first descriptor block. *)
Lemma descriptor_enter m d seq p strict e s bh : pass_at m d seq p strict e s → ∃ s',
  (if jbd2_journal_has_csum_v2or3 (p_journal s) then set_descr_csum_size sizeof_journal_block_tail s else s) = s' ∧
  pass_at m d seq p strict e s' ∧ descr_csum_size s' = csum_size j0 ∧ p_journal s' = p_journal s ∧
  bool_decide (0 < descr_csum_size s') && negb (jbd2_descriptor_block_csum_verify (p_journal s) bh) =
    negb (jbd2_descriptor_block_csum_verify j0 bh).
Proof.
  intros Hs. eexists. split; [reflexivity|]. destruct Hs as [[t [f Ej]] ? ? ? ? ? ? ? Hcs ?]. rewrite Ej.
  change (jbd2_journal_has_csum_v2or3 (jstate t f)) with (jbd2_journal_has_csum_v2or3 j0).
  change (jbd2_descriptor_block_csum_verify (jstate t f) bh) with (jbd2_descriptor_block_csum_verify j0 bh).
  unfold csum_size in *. destruct (jbd2_journal_has_csum_v2or3 j0) eqn:Hc.
  - split; [constructor; try done; first [by exists t, f|right; unfold csum_size; by rewrite Hc]|]. split; [done|]. split; [done|]. done.
  - assert (descr_csum_size s = 0) as Hz by naive_solver.
    split; [constructor; try done; first [by exists t, f|by left]|]. rewrite Hz.
    split; [done|]. split; [done|]. unfold jbd2_descriptor_block_csum_verify. by rewrite Hc.
Qed.

Lemma next_block_at m d seq p p' strict e s : pass_at m d seq p strict e s →
  pass_at m d seq p' strict e (set_next_block p' s).
Proof. intros []. by constructor. Qed.

Lemma count_tags_jstate t f buf : count_tags (jstate t f) buf = count_tags j0 buf.
Proof.
  unfold count_tags. change (j_blocksize (jstate t f)) with (j_blocksize j0).
  change (jbd2_journal_has_csum_v2or3 (jstate t f)) with (jbd2_journal_has_csum_v2or3 j0).
  generalize (if jbd2_journal_has_csum_v2or3 j0 then j_blocksize j0 - sizeof_journal_block_tail else j_blocksize j0).
  intros size. generalize 0 sizeof_journal_header. induction (Z.to_nat (j_blocksize j0)) as [|n IH]; intros nr tagp; [done|].
  cbn [count_tags_loop]. change (journal_tag_bytes (jstate t f)) with (journal_tag_bytes j0).
  change (next_tag (jstate t f)) with (next_tag j0). by rewrite IH.
Qed.

Lemma count_tags_jump p l : journal_ok → in_log p → Z.of_nat (length l) ≤ log_size →
  tags_from j0 (J p) (j_blocksize j0 - csum_size j0) sizeof_journal_header l →
  wrap j0 (u64 (next_pos j0 p + count_tags j0 (J p))) = wrap j0 (next_pos j0 p + Z.of_nat (length l)).
Proof.
  intros Hj Hp Hl Ht. rewrite (count_tags_eq _ l Hj Ht). pose proof (next_in_log p Hj Hp). pose proof (jk_len Hj).
  pose proof (jk_first Hj). rewrite u64_small; [done|lia].
Qed.

Lemma dispatch_descriptor pass bh s : dispatch pass JBD2_DESCRIPTOR_BLOCK bh s = descriptor_step ext2fs_bmap2 pass bh s.
Proof. done. Qed.
Lemma dispatch_commit pass bh s : dispatch pass JBD2_COMMIT_BLOCK bh s = commit_step pass bh s.
Proof. done. Qed.
Lemma dispatch_revoke pass bh s : dispatch pass JBD2_REVOKE_BLOCK bh s = revoke_step kmem_ok pass bh s.
Proof. done. Qed.

Lemma item_step pass m d i p it p' e s : journal_ok → (∀ b s, kmem_ok b s = true) → 0 ≤ i < 2^31 →
  pass_before pass i m → item_at j0 J (u32 (seq0 + i)) p it p' → in_log p →
  (∀ w, w ∈ item_writes it → not_journal w.1) →
  pass = PASS_SCAN ∨ tid_geq (u32 (seq0 + i)) e = false → pass_at m d (u32 (seq0 + i)) p false e s →
  ∃ s', step pass s = inl s' ∧ in_log p' ∧
    pass_at (pass_notes pass i (item_revokes it) m) (pass_disk pass m i (item_writes it) d)
      (u32 (seq0 + i)) p' false e s'.
Proof.
  intros Hj Hmem Hi Hm Hit Hp Hnj Hgo Hs. pose proof (next_in_log p Hj Hp) as Hn.
  destruct Hit as [p l ws Hh Hv Ht Hl Hw|p Hh Hv Hc]; cbn [item_writes item_revokes] in *;
    destruct (header_step _ _ _ _ _ _ _ pass _ Hj Hp Hs Hgo Hh) as (bh & s1 & Hd & Hs1 & ->);
    rewrite ?dispatch_descriptor ?dispatch_revoke.
  - destruct (descriptor_enter _ _ _ _ _ _ _ (b_data bh) Hs1) as (s2 & He2 & Hs2 & Hcs & Hjs & Hbad).
    unfold descriptor_step. rewrite He2 Hbad Hd Hv. cbn [negb andb].
    destruct (pa_journal _ _ _ _ _ _ _ Hs1) as (t & f & Ej). rewrite Ej.
    change (jbd2_has_feature_checksum (jstate t f)) with (jbd2_has_feature_checksum j0). rewrite (jk_no_checksum Hj) andb_false_r. cbn [andb].
    change (wrap (jstate t f)) with (wrap j0). rewrite count_tags_jstate.
    rewrite (pa_block _ _ _ _ _ _ _ Hs2). rewrite (count_tags_jump p l Hj Hp Hl Ht).
    assert (in_log (wrap j0 (next_pos j0 p + Z.of_nat (length l)))) by (apply wrap_in_log; [done..|lia]).
    destruct pass; cbn; (eexists; split; [reflexivity|]); (split; [done|]).
    1: by eapply next_block_at.
    1: eapply pass_at_notes; [by eapply next_block_at|apply note_nil].
    rewrite -advance_eq //. rewrite -Hd in Ht Hw Hv. destruct Hh as (_ & Hseq & _).
    change (j_blocksize (jstate t f)) with (j_blocksize j0). pose proof csum_size_range.
    eapply (replay_loop_ok m d i _ false e s2 bh _ _ l ws); try done; [|by rewrite Hd|].
    + rewrite Hd. by apply jk_bytes, in_log_total.
    + pose proof (jk_blocksize Hj). unfold sizeof_journal_header. lia.
  - destruct (pa_journal _ _ _ _ _ _ _ Hs1) as (t & f & Ej). unfold revoke_step. rewrite Ej.
    change (jbd2_descriptor_block_csum_verify (jstate t f)) with (jbd2_descriptor_block_csum_verify j0).
    rewrite Hd Hv. cbn [negb]. rewrite andb_false_r.
    destruct pass; [by eexists| |by eexists].
    rewrite (bool_decide_eq_false_2 (PASS_REVOKE ≠ PASS_REVOKE)); [|by intros []].
    rewrite -Hd in Hc |- *.
    pose proof (pa_records _ _ _ _ _ _ _ Hs1) as Hr1. rewrite Ej in Hr1. rewrite (pa_seq _ _ _ _ _ _ _ Hs1).
    destruct (scan_revoke_records_ok m t f i bh (p_info s1) Hj Hmem Hi Hm Hr1 Hc) as (t' & info' & -> & Hr' & He).
    cbv beta iota zeta. rewrite (bool_decide_eq_false_2 (0 ≠ 0)); [|by intros []].
    eexists; split; [reflexivity|]. split; [done|]. destruct Hs1 as [? ? ? ? ? ? ? ? ? He1].
    constructor; try done; [by exists t', f|]. cbn. by rewrite He.
Qed.

(** *** Transactions and logs *)
Lemma note_app i l k m b : note i (l ++ k) m b = note i k (note i l m) b.
Proof.
  unfold note. destruct (decide (b ∈ l ++ k)) as [Hx|Hx], (decide (b ∈ k)), (decide (b ∈ l)); try done;
    rewrite elem_of_app in Hx; tauto.
Qed.

Lemma next_seq i : u32 (u32 (seq0 + i) + 1) = u32 (seq0 + (i + 1)).
Proof. unfold u32. rewrite Zplus_mod_idemp_l. f_equal. lia. Qed.

Lemma pass_before_notes pass i bs m : 0 ≤ i → pass_before pass i m → pass_before pass i (pass_notes pass i bs m).
Proof. destruct pass; cbn; [done| |done]. apply before_note. Qed.

Lemma commit_ok pass m d i p e s : journal_ok → in_log p → header J p JBD2_COMMIT_BLOCK (u32 (seq0 + i)) →
  jbd2_commit_block_csum_verify j0 (J p) = true → pass = PASS_SCAN ∨ tid_geq (u32 (seq0 + i)) e = false →
  pass_at m d (u32 (seq0 + i)) p false e s →
  ∃ s', step pass s = inl s' ∧ pass_at m d (u32 (seq0 + (i + 1))) (next_pos j0 p) false e s'.
Proof.
  intros Hj Hp Hh Hv Hgo Hs.
  destruct (header_step _ _ _ _ _ _ _ pass _ Hj Hp Hs Hgo Hh) as (bh & s1 & Hd & Hs1 & ->). rewrite dispatch_commit.
  destruct (pa_journal _ _ _ _ _ _ _ Hs1) as (t & f & Ej). unfold commit_step. rewrite (pa_strict _ _ _ _ _ _ _ Hs1) Ej.
  change (jbd2_has_feature_checksum (jstate t f)) with (jbd2_has_feature_checksum j0). rewrite (jk_no_checksum Hj) andb_false_r.
  change (jbd2_commit_block_csum_verify (jstate t f)) with (jbd2_commit_block_csum_verify j0). rewrite Hd Hv andb_false_r.
  unfold commit_found. eexists. split; [reflexivity|]. rewrite -next_seq.
  destruct Hs1 as [? ? ? Hseq ? ? ? ? ? ?]. destruct pass; (constructor; try done; cbn; by rewrite Hseq).
Qed.

Lemma tx_writes_cons it t : tx_writes (it :: t) = item_writes it ++ tx_writes t.
Proof. done. Qed.
Lemma tx_revokes_cons it t : tx_revokes (it :: t) = item_revokes it ++ tx_revokes t.
Proof. done. Qed.

Lemma transaction_step pass m d i p t q e s : journal_ok → (∀ b s, kmem_ok b s = true) → 0 ≤ i < 2^31 →
  pass_before pass i m → transaction_at j0 J (u32 (seq0 + i)) p t q → in_log p →
  (∀ w, w ∈ tx_writes t → not_journal w.1) →
  pass = PASS_SCAN ∨ tid_geq (u32 (seq0 + i)) e = false → pass_at m d (u32 (seq0 + i)) p false e s →
  ∃ s', (∀ x, runs pass s' x → runs pass s x) ∧ in_log q ∧
    pass_at (pass_notes pass i (tx_revokes t) m) (pass_disk pass m i (tx_writes t) d)
      (u32 (seq0 + (i + 1))) q false e s'.
Proof.
  intros Hj Hmem Hi Hm Ht. revert m d s Hm. induction Ht as [p Hh Hv|p it p' t q Hit Ht IH]; intros m d s Hm Hp Hnj Hgo Hs.
  - destruct (commit_ok pass m d i p e s Hj Hp Hh Hv Hgo Hs) as (s' & Hst & Hs'). exists s'.
    split; [intros x; by apply runs_step|]. split; [by apply next_in_log|].
    destruct pass; [done| |done]. eapply pass_at_notes; [exact Hs'|apply note_nil].
  - destruct (item_step pass m d i p it p' e s Hj Hmem Hi Hm Hit Hp) as (s1 & Hst & Hp' & Hs1); [|done|done|].
    { intros w Hw. apply Hnj. rewrite tx_writes_cons. apply elem_of_app. by left. }
    destruct (IH _ (pass_disk pass m i (item_writes it) d) s1 (pass_before_notes pass i (item_revokes it) m ltac:(lia) Hm) Hp') as (s' & Hrun & Hq & Hs'); [|done|exact Hs1|].
    { intros w Hw. apply Hnj. rewrite tx_writes_cons. apply elem_of_app. by right. }
    exists s'. split; [intros x Hx; eapply runs_step; [exact Hst|by apply Hrun]|]. split; [done|].
    destruct pass; cbn [pass_notes pass_disk] in Hs' |- *; [done| |].
    + eapply pass_at_notes; [exact Hs'|]. intros b. rewrite tx_revokes_cons. apply note_app.
    + rewrite tx_writes_cons. unfold apply_writes. rewrite foldl_app. exact Hs'.
Qed.

Fixpoint log_notes (i : Z) (txs : list transaction) (m : Z → option Z) : Z → option Z :=
  match txs with [] => m | t :: rest => log_notes (i + 1) rest (note i (tx_revokes t) m) end.
Fixpoint log_disk (m : Z → option Z) (i : Z) (txs : list transaction) (d : disk) : disk :=
  match txs with [] => d | t :: rest => log_disk m (i + 1) rest (apply_writes (keep m i) (tx_writes t) d) end.

Lemma before_weaken i k m : i ≤ k → before i m → before k m.
Proof. intros Hik Hm b x Hb. apply Hm in Hb. lia. Qed.

Lemma before_note_next i bs m : 0 ≤ i → before i m → before (i + 1) (note i bs m).
Proof. intros Hi Hm. apply before_note; [done|]. by eapply before_weaken; [|exact Hm]; lia. Qed.

Lemma log_step pass m d i p txs q e s : journal_ok → (∀ b s, kmem_ok b s = true) → 0 ≤ i →
  i + Z.of_nat (length txs) < 2^31 → (if decide (pass = PASS_REVOKE) then before i m else before (2^31) m) →
  log_at j0 J (u32 (seq0 + i)) p txs q → in_log p →
  (∀ t w, t ∈ txs → w ∈ tx_writes t → not_journal w.1) →
  pass = PASS_SCAN ∨ e = u32 (seq0 + (i + Z.of_nat (length txs))) → pass_at m d (u32 (seq0 + i)) p false e s →
  ∃ s', (∀ x, runs pass s' x → runs pass s x) ∧ in_log q ∧
    pass_at (if decide (pass = PASS_REVOKE) then log_notes i txs m else m)
      (if decide (pass = PASS_REPLAY) then log_disk m i txs d else d)
      (u32 (seq0 + (i + Z.of_nat (length txs)))) q false e s'.
Proof.
  intros Hj Hmem. revert m d i p s. induction txs as [|t txs IH]; intros m d i p s Hi Hlen Hm Hlog Hp Hnj Hgo Hs;
    cbn [length] in *; inversion Hlog as [|? ? ? p' ? ? Ht Hrest]; subst.
  - exists s. split; [done|]. split; [done|]. rewrite Z.add_0_r. by destruct pass.
  - assert (pass = PASS_SCAN ∨ tid_geq (u32 (seq0 + i)) e = false) as Hgo'.
    { destruct Hgo as [?| ->]; [by left|right]. rewrite tid_geq_spec; [|lia..]. apply bool_decide_eq_false_2. lia. }
    assert (pass_before pass i m) as Hm'.
    { destruct pass; cbn in Hm |- *; [exact Hm| |exact Hm]. eapply before_weaken; [|exact Hm]. lia. }
    destruct (transaction_step pass m d i p t p' e s Hj Hmem ltac:(lia) Hm' Ht Hp) as (s1 & Hr1 & Hp' & Hs1); [|done|done|].
    { intros w Hw. eapply Hnj; [|done]. apply list_elem_of_here. }
    rewrite next_seq in Hrest.
    destruct (IH (pass_notes pass i (tx_revokes t) m) (pass_disk pass m i (tx_writes t) d) (i + 1) p' s1
      ltac:(lia) ltac:(lia)) as (s' & Hr' & Hq & Hs'); [|exact Hrest|exact Hp'| | |exact Hs1|].
    + destruct pass; cbn in Hm |- *; [exact Hm|by apply before_note_next|exact Hm].
    + intros t' w Ht' Hw. eapply Hnj; [|done]. by apply list_elem_of_further.
    + destruct Hgo as [?| ->]; [by left|right]. do 2 f_equal. lia.
    + exists s'. split; [auto|]. split; [done|].
      replace (i + Z.of_nat (S (length txs))) with (i + 1 + Z.of_nat (length txs)) by lia. by destruct pass.
Qed.

(** The notes are what [revoked] asks for. *)
Lemma log_notes_old i txs m b : log_notes i txs m b = m b ∨ ∃ k, log_notes i txs m b = Some k ∧ i ≤ k.
Proof.
  revert i m. induction txs as [|t txs IH]; intros i m; cbn [log_notes]; [by left|].
  destruct (IH (i + 1) (note i (tx_revokes t) m)) as [->|(k & -> & Hk)]; [|right; exists k; split; [done|lia]].
  unfold note. case_decide; [right; exists i; split; [done|lia]|by left].
Qed.

Lemma log_notes_before i txs m n : 0 ≤ i → before i m → n = i + Z.of_nat (length txs) → before n (log_notes i txs m).
Proof.
  revert i m. induction txs as [|t txs IH]; intros i m Hi Hm Hn; cbn [log_notes length] in *.
  - by replace n with i by lia.
  - apply (IH (i + 1)); [lia|by apply before_note_next|lia].
Qed.

Lemma log_notes_spec i txs m b n : before i m → 0 ≤ i → (n ≤ length txs)%nat →
  (∃ k, log_notes i txs m b = Some k ∧ i + Z.of_nat n ≤ k) ↔ revoked (drop n txs) b.
Proof.
  revert i m n. induction txs as [|t txs IH]; intros i m n Hm Hi Hn; cbn [length] in Hn; cbn [log_notes].
  - replace n with 0%nat by lia. cbn. split; [intros (k & Hk & ?); apply Hm in Hk; lia|].
    intros (t & Ht & _). by apply elem_of_nil in Ht.
  - pose proof (before_note_next i (tx_revokes t) m Hi Hm) as Hm'. destruct n as [|n].
    + destruct (IH (i + 1) _ 0%nat Hm' ltac:(lia) ltac:(lia)) as [H1 H2]. rewrite drop_0 in H1, H2. rewrite drop_0. split.
      * intros (k & Hk & Hik). destruct (decide (i + 1 ≤ k)).
        { destruct H1 as (t' & ? & ?); [exists k; split; [done|lia]|]. exists t'. split; [by apply list_elem_of_further|done]. }
        destruct (log_notes_old (i + 1) txs (note i (tx_revokes t) m) b) as [Ho|(k' & Hk' & ?)]; [|rewrite Hk in Hk'; injection Hk' as ->; lia].
        rewrite Hk in Ho. unfold note in Ho. case_decide; [|symmetry in Ho; apply Hm in Ho; lia].
        exists t. split; [apply list_elem_of_here|done].
      * intros (t' & Ht' & Hb). apply list.elem_of_cons in Ht' as [->|Ht'].
        { destruct (log_notes_old (i + 1) txs (note i (tx_revokes t) m) b) as [Ho|(k' & Hk' & ?)]; [|exists k'; split; [done|lia]].
          exists i. rewrite Ho. unfold note. rewrite decide_True //. split; [done|lia]. }
        destruct H2 as (k & ? & ?); [by exists t'|]. exists k. split; [done|lia].
    + cbn [drop]. rewrite -(IH (i + 1) _ n Hm' ltac:(lia) ltac:(lia)).
      split; intros (k & ? & ?); (exists k; split; [done|lia]).
Qed.

Lemma apply_writes_ext f g ws d : (∀ b, f b = g b) → apply_writes f ws d = apply_writes g ws d.
Proof. intros He. revert d. induction ws as [|w ws IH]; intros d; [done|]. cbn. rewrite He. apply IH. Qed.

Lemma log_disk_replay m i txs d : (∀ n b, (n ≤ length txs)%nat → (∃ k, m b = Some k ∧ i + Z.of_nat n ≤ k) ↔ revoked (drop n txs) b) →
  log_disk m i txs d = replay txs d.
Proof.
  revert i d. induction txs as [|t txs IH]; intros i d Hm; [done|]. cbn [log_disk replay].
  rewrite (apply_writes_ext _ (λ b, bool_decide (¬ revoked (t :: txs) b))).
  - apply IH. intros n b Hn. rewrite -(Hm (S n) b); [|cbn; lia].
    split; intros (k & ? & ?); (exists k; split; [done|lia]).
  - intros b. pose proof (Hm 0%nat b ltac:(lia)) as Hb. rewrite drop_0 in Hb. unfold keep. destruct (m b) as [k|].
    + apply bool_decide_ext. rewrite -Hb. split; [intros ? (k' & [= <-] & ?); lia|].
      intros Hn. destruct (decide (k < i)); [done|]. destruct Hn. exists k. split; [done|lia].
    + symmetry. apply bool_decide_eq_true_2. rewrite -Hb. by intros (k & ? & ?).
Qed.

(** ** The end of the log *)

(** The scan pass ends there, in the transaction [seq]. *)
Definition scan_ends (m : Z → option Z) (d : disk) (seq : Z) (s : pass_state (D:=D)) : Prop :=
  ∃ s' p strict e, runs PASS_SCAN s (PassDone s') ∧ pass_at m d seq p strict e s' ∧ (e = 0 ∨ e = seq).

Lemma scan_ends_exit m d seq p strict e s s' : step PASS_SCAN s = inr (PassDone s') →
  pass_at m d seq p strict e s' → e = 0 ∨ e = seq → scan_ends m d seq s.
Proof. intros Hst Hs He. exists s', p, strict, e. split; [by apply runs_exit|done]. Qed.

Lemma scan_ends_step m d seq s s' : step PASS_SCAN s = inl s' → scan_ends m d seq s' → scan_ends m d seq s.
Proof. intros Hst (x & p & strict & e & Hr & Hx). exists x, p, strict, e. split; [by eapply runs_step|done]. Qed.

Lemma check_time_at m d seq p strict e s v : pass_at m d seq p strict e s →
  pass_at m d seq p (strict || v) e (if v then set_check_time true s else s).
Proof.
  intros [? ? ? ? ? ? ? Hst ? ?]. destruct v; [|by rewrite orb_false_r; constructor].
  rewrite orb_true_r. by constructor.
Qed.

Lemma torn_commit_step m d seq p e s bh : pass_at m d seq p false e s →
  jbd2_commit_block_csum_verify j0 (b_data bh) = false → jbd2_has_feature_async_commit j0 = false →
  journal_ok → e = 0 ∨ e = seq →
  (∃ s', commit_step PASS_SCAN bh s = inr (PassDone s') ∧ pass_at m d seq p false e s') ∨
  (∃ s', commit_step PASS_SCAN bh s = inl s' ∧ pass_at m d seq p false seq s').
Proof.
  intros [[t [f Ej]] Hrec Hw Hseq ? ? ? Hst ? ?] Hv Ha Hj He. unfold commit_step. rewrite Hst Ej.
  change (jbd2_has_feature_checksum (jstate t f)) with (jbd2_has_feature_checksum j0). rewrite (jk_no_checksum Hj) andb_false_r.
  change (jbd2_commit_block_csum_verify (jstate t f)) with (jbd2_commit_block_csum_verify j0). rewrite Hv.
  change (bool_decide (PASS_SCAN = PASS_SCAN) && negb false) with true. cbv beta iota. unfold chksum_error.
  case_bool_decide; [left|right]; (eexists; split; [try reflexivity|]).
  - constructor; try done. by exists t, f.
  - cbn [p_journal set_info]. rewrite Ej. change (jbd2_has_feature_async_commit (jstate t f)) with (jbd2_has_feature_async_commit j0).
    rewrite Ha. reflexivity.
  - constructor; try done; [by exists t, (next_commit_ID s)|].
    rewrite Ej in Hrec. destruct Hrec as [Ht Hr]. split; cbn [p_journal set_journal]; [constructor; apply Ht|exact Hr].
Qed.

Lemma uncommitted_ends m d seq strict p e s : journal_ok → uncommitted j0 J seq strict p → in_log p →
  pass_at m d seq p strict e s → e = 0 ∨ e = seq → scan_ends m d seq s.
Proof.
  intros Hj Hu. revert e s.
  induction Hu as [strict p Hend|strict p kind Hh Hd Hc Hr|strict p l Hh Ht Hl Hu IH|strict p Hh Hu IH|p Hh Hv Ha Hu IH];
    intros e s Hp Hs He; pose proof (next_in_log p Hj Hp) as Hn.
  1: destruct (read_step _ _ _ _ _ _ _ PASS_SCAN Hj Hp Hs ltac:(by left)) as (bh & s1 & Hdata & Hs1 & Hst).
  2-5: destruct (header_step _ _ _ _ _ _ _ PASS_SCAN _ Hj Hp Hs ltac:(by left) Hh) as (bh & s1 & Hdata & Hs1 & Hst).
  - eapply scan_ends_exit; [|exact Hs1|exact He]. rewrite Hst.
    repeat (case_bool_decide; [reflexivity|]). exfalso. tauto.
  - eapply scan_ends_exit; [|exact Hs1|exact He]. rewrite Hst. unfold dispatch.
    by rewrite !bool_decide_eq_false_2.
  - rewrite dispatch_descriptor in Hst.
    destruct (descriptor_enter _ _ _ _ _ _ _ (b_data bh) Hs1) as (s2 & He2 & Hs2 & Hcs & Hjs & Hbad).
    unfold descriptor_step in Hst. rewrite He2 Hbad Hdata in Hst.
    rewrite andb_false_r in Hst.
    pose proof (check_time_at _ _ _ _ _ _ _ (negb (jbd2_descriptor_block_csum_verify j0 (J p))) Hs2) as Hs3.
    set (s3 := if negb (jbd2_descriptor_block_csum_verify j0 (J p)) then set_check_time true s2 else s2) in *.
    destruct (pa_journal _ _ _ _ _ _ _ Hs1) as (t & f & Ej). rewrite Ej in Hst.
    change (jbd2_has_feature_checksum (jstate t f)) with (jbd2_has_feature_checksum j0) in Hst. rewrite (jk_no_checksum Hj) andb_false_r in Hst. cbn [andb] in Hst.
    change (wrap (jstate t f)) with (wrap j0) in Hst. rewrite count_tags_jstate (pa_block _ _ _ _ _ _ _ Hs3) (count_tags_jump p l Hj Hp Hl Ht) in Hst.
    rewrite bool_decide_eq_true_2 in Hst; [|done]. eapply scan_ends_step; [exact Hst|].
    eapply IH; [apply wrap_in_log; [done..|lia]|by eapply next_block_at|exact He].
  - rewrite dispatch_revoke in Hst. unfold revoke_step in Hst.
    destruct (pa_journal _ _ _ _ _ _ _ Hs1) as (t & f & Ej). rewrite Ej in Hst.
    change (jbd2_descriptor_block_csum_verify (jstate t f)) with (jbd2_descriptor_block_csum_verify j0) in Hst.
    rewrite Hdata in Hst. rewrite (bool_decide_eq_true_2 (PASS_SCAN = PASS_SCAN)) in Hst; [|done].
    rewrite (bool_decide_eq_true_2 (PASS_SCAN ≠ PASS_REVOKE)) in Hst; [|done]. cbn [andb] in Hst.
    eapply scan_ends_step; [exact Hst|]. eapply IH; [done|by eapply check_time_at|exact He].
  - rewrite dispatch_commit in Hst.
    destruct (torn_commit_step m d seq (next_pos j0 p) e s1 bh Hs1) as [(s2 & Hc & Hs2)|(s2 & Hc & Hs2)]; [rewrite Hdata; exact Hv|exact Ha|exact Hj|exact He| |].
    + eapply scan_ends_exit; [by rewrite Hst|exact Hs2|exact He].
    + eapply scan_ends_step; [by rewrite Hst|]. eapply IH; [done|exact Hs2|by right].
Qed.

(** ** The passes *)
Abbreviation one_pass := (do_one_pass ext2fs_bmap2 kmem_ok callback).

Lemma fc_done j w info pass : journal_ok → jbd2_has_feature_fast_commit j = jbd2_has_feature_fast_commit j0 →
  (if jbd2_has_feature_fast_commit j && bool_decide (pass ≠ PASS_REVOKE)
   then let '(err, w) := fc_do_one_pass ext2fs_bmap2 callback j w info pass in (if bool_decide (err ≠ 0) then err else 0, w)
   else (0, w)) = (0, w).
Proof.
  intros Hj ->. destruct (jk_no_fast_commit Hj) as [-> |Hc]; [done|].
  unfold fc_do_one_pass. rewrite Hc. cbn. by case_match.
Qed.

Lemma pass_done_ok m d seq p strict e s pass : journal_ok → pass_at m d seq p strict e s →
  (if decide (pass = PASS_SCAN) then e = 0 ∨ e = seq else e = seq) →
  ∃ info, pass_done ext2fs_bmap2 callback pass s = (0, p_journal s, p_world s, info) ∧ end_transaction info = seq.
Proof.
  intros Hj [[t [f Ej]] ? ? Hseq ? Hsu Hbe ? ? He] Hend. unfold pass_done. rewrite Hseq He Hsu Hbe.
  destruct (decide (pass = PASS_SCAN)) as [->|Hns].
  - rewrite (bool_decide_eq_true_2 (PASS_SCAN = PASS_SCAN)); [|done].
    rewrite (fc_done (p_journal s)); [|done|by rewrite Ej]. eexists. split; [reflexivity|].
    case_bool_decide; [done|]. rewrite He. by destruct Hend.
  - rewrite (bool_decide_eq_false_2 (pass = PASS_SCAN)); [|done]. rewrite Hend in He |- *.
    rewrite (bool_decide_eq_false_2 (seq ≠ seq)); [|by intros []]. cbn [andb].
    rewrite (fc_done (p_journal s)); [|done|by rewrite Ej]. by eexists.
Qed.

Lemma one_pass_runs j w info pass s x : runs pass (pass_start j w info pass) (PassDone s) →
  pass_done ext2fs_bmap2 callback pass s = x →
  ∃ n, ∀ fuel, (n ≤ fuel)%nat → one_pass fuel j w info pass = Some x.
Proof. intros [n Hn] Hx. exists n. intros fuel Hf. unfold do_one_pass. by rewrite Hn // Hx. Qed.

Abbreviation log_start := (js_start (j_superblock j0)).

Lemma seq0_eq : journal_ok → u32 (seq0 + 0) = seq0.
Proof.
  intros Hj. pose proof (get_be_range 4 24 _ (jk_superblock Hj)) as Hr. rewrite Z.add_0_r. apply u32_small.
  unfold js_sequence. change (256 ^ Z.of_nat 4) with (2^32) in Hr. exact Hr.
Qed.

Lemma pass_start_at m d t f w info pass : records m (jstate t f) → world_ok w d →
  pass_at m d seq0 log_start false (end_transaction info) (pass_start (jstate t f) w info pass).
Proof.
  intros Hr Hw. constructor; try done; [by exists t, f|by left|].
  unfold pass_start. cbn [p_info]. by case_bool_decide.
Qed.

(** A log, and what recovery relies on. *)
Record log_ok (txs : list transaction) (q : Z) : Prop := LogOk {
  lk_start : in_log log_start;
  lk_length : Z.of_nat (length txs) < 2^31;
  lk_log : log_at j0 J seq0 log_start txs q;
  lk_end : uncommitted j0 J (u32 (seq0 + Z.of_nat (length txs))) false q;
  lk_writes t w : t ∈ txs → w ∈ tx_writes t → not_journal w.1;
}.

Lemma jstate_same : jstate (j_revoke j0) (j_failed_commit j0) = j0.
Proof. unfold jstate. clear. by destruct j0. Qed.

Section log.
Context (txs : list transaction) (q : Z).
Hypothesis (Hj : journal_ok) (Hlog : log_ok txs q) (Hmem : ∀ b s, kmem_ok b s = true).
Abbreviation seqn := (u32 (seq0 + Z.of_nat (length txs))).
Abbreviation final := (log_notes 0 txs (λ _, None)).

Lemma none_before i : before i (λ _, None).
Proof. by intros b k. Qed.

Lemma final_before : before (2^31) final.
Proof.
  eapply before_weaken; [|eapply (log_notes_before 0 txs); [done|apply none_before|reflexivity]]. apply lk_length in Hlog. lia.
Qed.

Lemma scan_pass_ok t f w d info : records (λ _, None) (jstate t f) → world_ok w d → end_transaction info = 0 →
  ∃ n t' f' w' info', (∀ fuel, (n ≤ fuel)%nat → one_pass fuel (jstate t f) w info PASS_SCAN = Some (0, jstate t' f', w', info')) ∧
    records (λ _, None) (jstate t' f') ∧ world_ok w' d ∧ end_transaction info' = seqn.
Proof.
  intros Hr Hw He. pose proof (pass_start_at _ d t f w info PASS_SCAN Hr Hw) as Hs. destruct Hlog as [Hst Hlen Hl Hu Hnj].
  rewrite -(seq0_eq Hj) in Hs, Hl.
  destruct (log_step PASS_SCAN _ d 0 _ txs q _ _ Hj Hmem ltac:(done) ltac:(lia) (none_before _) Hl Hst Hnj ltac:(by left) Hs) as (s1 & Hr1 & Hq & Hs1).
  rewrite !Z.add_0_l in Hs1. cbn [decide passtype_eq_dec] in Hs1.
  destruct (uncommitted_ends _ _ _ _ _ _ _ Hj Hu Hq Hs1 ltac:(by left)) as (s2 & p & strict & e & Hr2 & Hs2 & He2).
  destruct (pass_done_ok _ _ _ _ _ _ _ PASS_SCAN Hj Hs2 He2) as (info' & Hd & Hend).
  destruct (one_pass_runs _ _ _ _ _ _ (Hr1 _ Hr2) Hd) as (n & Hn).
  destruct (pa_journal _ _ _ _ _ _ _ Hs2) as (t' & f' & Ej). pose proof (pa_records _ _ _ _ _ _ _ Hs2) as Hr'. rewrite Ej in Hn, Hr'.
  exists n, t', f', (p_world s2), info'. split; [exact Hn|]. split; [exact Hr'|]. split; [exact (pa_world _ _ _ _ _ _ _ Hs2)|exact Hend].
Qed.

Lemma log_pass_ok pass m t f w d info : pass ≠ PASS_SCAN →
  (if decide (pass = PASS_REVOKE) then before 0 m else before (2^31) m) →
  records m (jstate t f) → world_ok w d → end_transaction info = seqn →
  ∃ n t' f' w' info', (∀ fuel, (n ≤ fuel)%nat → one_pass fuel (jstate t f) w info pass = Some (0, jstate t' f', w', info')) ∧
    records (if decide (pass = PASS_REVOKE) then log_notes 0 txs m else m) (jstate t' f') ∧
    world_ok w' (if decide (pass = PASS_REPLAY) then log_disk m 0 txs d else d) ∧ end_transaction info' = seqn.
Proof.
  intros Hns Hm Hr Hw He. pose proof (pass_start_at m d t f w info pass Hr Hw) as Hs. destruct Hlog as [Hst Hlen Hl Hu Hnj].
  rewrite -(seq0_eq Hj) in Hs, Hl. rewrite He in Hs.
  destruct (log_step pass m d 0 _ txs q seqn _ Hj Hmem ltac:(done) ltac:(lia) Hm Hl Hst Hnj ltac:(right; by rewrite Z.add_0_l) Hs)
    as (s1 & Hr1 & Hq & Hs1).
  rewrite !Z.add_0_l in Hs1.
  assert (step pass s1 = inr (PassDone s1)) as Hst1.
  { unfold pass_step. rewrite (pa_seq _ _ _ _ _ _ _ Hs1) (pa_end _ _ _ _ _ _ _ Hs1).
    rewrite tid_geq_spec; [|lia..]. rewrite !bool_decide_eq_true_2 //. }
  destruct (pass_done_ok _ _ _ _ _ _ _ pass Hj Hs1 ltac:(by rewrite decide_False)) as (info' & Hd & Hend).
  destruct (one_pass_runs _ _ _ _ _ _ (Hr1 _ (runs_exit _ _ _ Hst1)) Hd) as (n & Hn).
  destruct (pa_journal _ _ _ _ _ _ _ Hs1) as (t' & f' & Ej). pose proof (pa_records _ _ _ _ _ _ _ Hs1) as Hr'. rewrite Ej in Hn, Hr'.
  exists n, t', f', (p_world s1), info'. split; [exact Hn|]. split; [exact Hr'|]. split; [exact (pa_world _ _ _ _ _ _ _ Hs1)|exact Hend].
Qed.

Lemma sync_ok w d : world_ok w d → ∃ w', sync_blockdev w K_DEV_FS = (0, w') ∧ world_ok w' d.
Proof.
  intros [Hfs Hjw Hbs Hd Hl]. destruct (works_flush content (ch := w_fs w) (ch_state (w_fs w))) as (d' & Hfl & Hc). rewrite set_state_same in Hfl.
  unfold sync_blockdev. cbn [io_of]. rewrite Hfl. eexists. split; [reflexivity|].
  constructor; cbn [set_io w_fs w_blocksize ch_state set_state]; [by apply works_set_state| |done|intros b; by rewrite Hc|].
  - destruct (j_dev j0); cbn [io_of w_fs w_journal] in *; [by apply works_set_state|done].
  - intros o Ho. rewrite -Hl //. destruct (j_dev j0); cbn [io_of w_fs w_journal ch_state set_state]; [apply Hc|done].
Qed.

(** C1: Recovery of a journal that holds the log [txs], followed by a finite beginning
    of a transaction that was not committed or by anything else ([uncommitted]),
    without the feature COMPAT_CHECKSUM, ends without an error; the
    file system's blocks are then those that [replay] gives, the next
    transaction gets a number after the log's, and the revoke table is empty. *)
Theorem recover_replays w d : log_start ≠ 0 → table_ok j0 → (∀ b, revoked_at j0 b = None) → world_ok w d →
  ∃ n j w', (∀ fuel, (n ≤ fuel)%nat → jbd2_journal_recover ext2fs_bmap2 kmem_ok callback fuel j0 w = Some (0, j, w')) ∧
    world_ok w' (replay txs d) ∧ j_transaction_sequence j = u32 (seqn + 1) ∧ ∀ b, revoked_at j b = None.
Proof.
  intros Hns Ht Hr Hw. set (t0 := j_revoke j0). set (f0 := j_failed_commit j0).
  assert (j0 = jstate t0 f0) as Ej0 by exact (eq_sym jstate_same).
  assert (records (λ _, None) (jstate t0 f0)) as Hr0 by (rewrite -Ej0; split; [done|intros b; by rewrite Hr]).
  destruct (scan_pass_ok t0 f0 w d no_info Hr0 Hw ltac:(done)) as (n1 & t1 & f1 & w1 & i1 & Hp1 & Hr1 & Hw1 & He1).
  rewrite -Ej0 in Hp1.
  destruct (log_pass_ok PASS_REVOKE _ t1 f1 w1 d i1 ltac:(done) (none_before 0) Hr1 Hw1 He1) as (n2 & t2 & f2 & w2 & i2 & Hp2 & Hr2 & Hw2 & He2).
  change (records final (jstate t2 f2)) in Hr2. change (world_ok w2 d) in Hw2.
  destruct (log_pass_ok PASS_REPLAY final t2 f2 w2 d i2 ltac:(done) final_before Hr2 Hw2 He2) as (n3 & t3 & f3 & w3 & i3 & Hp3 & Hr3 & Hw3 & He3).
  change (records final (jstate t3 f3)) in Hr3. change (world_ok w3 (log_disk final 0 txs d)) in Hw3.
  rewrite log_disk_replay in Hw3; [|intros n b Hn; apply log_notes_spec; [apply none_before|done|done]].
  destruct (sync_ok w3 _ Hw3) as (w4 & Hsync & Hw4).
  assert (table_ok (set_transaction_sequence (u32 (seqn + 1)) (jstate t3 f3))) as Ht3 by (constructor; apply (rc_table _ _ Hr3)).
  destruct (clear_revoke_ok _ Ht3) as [_ Hcl].
  exists (Nat.max n1 (Nat.max n2 n3)), (jbd2_journal_clear_revoke (set_transaction_sequence (u32 (seqn + 1)) (jstate t3 f3))), w4.
  split; [|done]. intros fuel Hf. unfold jbd2_journal_recover. rewrite bool_decide_eq_false_2 //.
  rewrite Hp1; [|lia]. cbn [mbind option_bind].
  rewrite (bool_decide_eq_true_2 (0 = 0)); [|done]. rewrite Hp2; [|lia]. cbn [mbind option_bind].
  rewrite (bool_decide_eq_true_2 (0 = 0)); [|done]. rewrite Hp3; [|lia]. cbn [mbind option_bind].
  rewrite He3 Hsync. done.
Qed.
End log.

(** ** Journals that never end *)

(** C40: A log all of whose blocks claim to hold revoke records of the first
    transaction has no end: the scan goes round it for ever. *)
Theorem scan_diverges w d t f info fuel : journal_ok → world_ok w d → records (λ _, None) (jstate t f) →
  in_log log_start → (∀ p, in_log p → header J p JBD2_REVOKE_BLOCK seq0) →
  one_pass fuel (jstate t f) w info PASS_SCAN = None.
Proof.
  intros Hj Hw Hr Hst Hall. unfold do_one_pass. cut (∀ p strict s, in_log p →
    pass_at (λ _, None) d seq0 p strict (end_transaction info) s → pass_loop ext2fs_bmap2 kmem_ok fuel PASS_SCAN s = None).
  { intros Hc. erewrite Hc; [done|exact Hst|by apply pass_start_at]. }
  induction fuel as [|fuel IH]; intros p strict s Hp Hs; [done|]. cbn [pass_loop].
  destruct (header_step _ _ _ _ _ _ _ PASS_SCAN _ Hj Hp Hs ltac:(by left) (Hall p Hp)) as (bh & s1 & Hdata & Hs1 & ->).
  rewrite dispatch_revoke. unfold revoke_step. destruct (pa_journal _ _ _ _ _ _ _ Hs1) as (t1 & f1 & ->).
  change (jbd2_descriptor_block_csum_verify (jstate t1 f1)) with (jbd2_descriptor_block_csum_verify j0).
  rewrite (bool_decide_eq_true_2 (PASS_SCAN = PASS_SCAN)); [|done].
  rewrite (bool_decide_eq_true_2 (PASS_SCAN ≠ PASS_REVOKE)); [|done]. cbn [andb].
  eapply IH; [by apply next_in_log|by eapply check_time_at].
Qed.
End recovery_props.

(** ** A journal of nine blocks of 32 bytes *)
Definition demo_words (l : list Z) : list Z :=
  take 32 ((l ≫= be_encode 4) ++ replicate 32 0).
Definition demo_header (kind seq : Z) : list Z := [JBD2_MAGIC_NUMBER; kind; seq].
Definition demo_data (x : Z) : list Z := replicate 32 x.

(** The first transaction begins at block 8 and goes on at block 1; the second
    revokes what it wrote; the third has no commit block. *)
Definition demo_log : list (list Z) := [
  demo_words [];
  demo_words (demo_header JBD2_COMMIT_BLOCK 7);
  demo_words (demo_header JBD2_REVOKE_BLOCK 8 ++ [20; 20]);
  demo_words (demo_header JBD2_DESCRIPTOR_BLOCK 8 ++ [21; 10]);
  demo_data 33;
  demo_words (demo_header JBD2_COMMIT_BLOCK 8);
  demo_words (demo_header JBD2_DESCRIPTOR_BLOCK 9 ++ [22; 10]);
  demo_data 44;
  demo_words (demo_header JBD2_DESCRIPTOR_BLOCK 7 ++ [20; 10]);
  demo_data 55].
Definition demo_J (p : Z) : list Z := default [] (demo_log !! Z.to_nat p).

Definition demo_journal (start : Z) : journal :=
  Journal ((replicate 6 0 ++ [7; start] ++ replicate 2 0 ++ [JBD2_FEATURE_INCOMPAT_REVOKE] ++ replicate 245 0) ≫= be_encode 4)
    2 0 0 0 1 10 true 32 10 (Some (8, [])) 0 (RevokeTable 4 2 (replicate 4 [])) 0 0.
(** Block [b] of the journal is block [100 + b] of the file system. *)
Definition demo_bmap (i : Z * list Z) (b : Z) : Z * Z := (0, 100 + b).
Definition demo_device (blocks : list (list Z)) : mem_device := list_to_map (imap (λ k b, (100 + Z.of_nat k, b)) blocks).
Definition demo_world (blocks : list (list Z)) : world mem_device :=
  World (mem_channel 32 (demo_device blocks)) (mem_channel 32 (demo_device blocks)) 32.
Definition demo_txs : list transaction :=
  [[ItemWrites [(20, demo_data 55)]]; [ItemRevokes [20]; ItemWrites [(21, demo_data 33)]]].
Abbreviation demo_disk blocks := (mem_content 32 (demo_device blocks)).
Abbreviation all_kmem := (λ _ _ : Z, true).

Lemma demo_offsets (P : Z → Prop) : Forall P (seqZ 0 10) → ∀ off, 0 ≤ off < 10 → P off.
Proof. rewrite Forall_forall. intros H off Hoff. apply H. apply elem_of_seqZ. lia. Qed.

Lemma demo_journal_ok : journal_ok demo_bmap (None (A := journal → world mem_device → _ → _ → _ → _ → _)) (demo_journal 8) demo_J.
Proof.
  constructor; [done|done|..].
  - apply (bool_decide_unpack _). by vm_compute.
  - done.
  - intros off Hoff. change (0 ≤ off < 10) in Hoff. split; [done|]. change (0 ≤ 100 + off < 2^64). lia.
  - apply demo_offsets. apply (bool_decide_unpack _). by vm_compute.
  - by right.
  - done.
Qed.

Lemma demo_world_ok : world_ok (mem_content 32) demo_bmap (demo_journal 8) demo_J (demo_world demo_log) (demo_disk demo_log).
Proof.
  constructor; [apply mem_works|apply mem_works|done|done|]. 
  apply demo_offsets. apply (bool_decide_unpack _). by vm_compute.
Qed.

Lemma demo_item_writes j J seq p tagps ws p' : header J p JBD2_DESCRIPTOR_BLOCK seq →
  jbd2_descriptor_block_csum_verify j (J p) = true →
  tags_from j (J p) (j_blocksize j - csum_size j) sizeof_journal_header tagps →
  Z.of_nat (length tagps) ≤ log_last j - j_first j → writes_from j J (J p) seq tagps (next_pos j p) ws →
  wrap j (next_pos j p + Z.of_nat (length tagps)) = p' → item_at j J seq p (ItemWrites ws) p'.
Proof. intros ? ? ? ? ? <-. by apply writes_at. Qed.

Lemma demo_one_tag (J : Z → list Z) seq p b data : header J p JBD2_DESCRIPTOR_BLOCK seq →
  last_tag 12 (J p) = true → tag_write (demo_journal 8) J (J p) 12 (next_pos (demo_journal 8) p) = (b, data) →
  item_at (demo_journal 8) J seq p (ItemWrites [(b, data)]) (wrap (demo_journal 8) (next_pos (demo_journal 8) p + 1)).
Proof.
  intros Hh Hl Hw. eapply (demo_item_writes _ _ _ _ [12]); [done|done|by apply tags_last|done| |done].
  rewrite -Hw. apply writes_cons; [done|apply writes_nil].
Qed.

Lemma demo_log_ok : log_ok demo_bmap (demo_journal 8) demo_J demo_txs 6.
Proof.
  constructor; [done|done| | |].
  - eapply (log_cons _ _ _ _ _ 2); [eapply (item_then _ _ _ _ _ 1); [|apply (commit_at (demo_journal 8) demo_J 7 1); [by vm_compute|done]]|].
    { by apply (demo_one_tag demo_J 7 8 20 (demo_data 55)). }
    eapply (log_cons _ _ _ _ _ 6); [|apply log_nil].
    eapply (item_then _ _ _ _ _ 3); [by apply (revokes_at (demo_journal 8) demo_J 8 2)|].
    eapply (item_then _ _ _ _ _ 5); [by apply (demo_one_tag demo_J 8 3 21 (demo_data 33))|].
    by apply (commit_at (demo_journal 8) demo_J 8 5).
  - apply (skip_writes (demo_journal 8) demo_J 9 _ 6 [12]); [by vm_compute|by apply tags_last|done|]. apply end_of_log. right. by vm_compute.
  - cut (Forall (Forall (λ w, w.1 < 100) ∘ tx_writes) demo_txs); [|apply (bool_decide_unpack _); by vm_compute].
    rewrite Forall_forall. intros Hall t w Ht Hw _ off Hoff. specialize (Hall t Ht). cbn in Hall. rewrite Forall_forall in Hall.
    specialize (Hall w Hw). change (0 ≤ off < 10) in Hoff. change (100 + off ≠ w.1). lia.
Qed.

Lemma demo_table_ok : table_ok (demo_journal 8).
Proof. by constructor. Qed.

Lemma demo_no_records b : revoked_at (demo_journal 8) b = None.
Proof.
  unfold revoked_at, find_revoke_record, bucket. destruct (_ !! _) as [l|] eqn:Hl; [|done].
  cbn [demo_journal j_revoke hash_table] in Hl. by apply lookup_replicate in Hl as [-> _].
Qed.

Lemma recover_replays_witness : ∃ n j w', 
  (∀ fuel, (n ≤ fuel)%nat → jbd2_journal_recover demo_bmap all_kmem None fuel (demo_journal 8) (demo_world demo_log) = Some (0, j, w')) ∧
  world_ok (mem_content 32) demo_bmap (demo_journal 8) demo_J w' (replay demo_txs (demo_disk demo_log)) ∧
  j_transaction_sequence j = 10 ∧ ∀ b, revoked_at j b = None.
Proof.
  exact (recover_replays (mem_content 32) demo_bmap all_kmem None (demo_journal 8) demo_J demo_txs 6 demo_journal_ok demo_log_ok
    ltac:(done) (demo_world demo_log) (demo_disk demo_log) ltac:(done) demo_table_ok demo_no_records demo_world_ok).
Defined.

(** Only block 21 is written; block 20 is revoked, and block 22 is not committed. *)
Example demo_recovers :
  (λ r, (r.1.1, j_transaction_sequence r.1.2, hd 0 ∘ mem_content 32 (ch_state (w_fs r.2)) <$> [20; 21; 22])) <$>
  jbd2_journal_recover demo_bmap all_kmem None 20 (demo_journal 8) (demo_world demo_log) = Some (0, 10, [0; 33; 0]).
Proof. by vm_compute. Qed.

(** A device that cannot be written: recovery does not tell. *)
Definition read_only_channel (d : mem_device) : io_channel mem_device :=
  let m := mem_manager 32 in
  IoChannel _ EXT2_ET_MAGIC_IO_CHANNEL
    (IoManager _ (im_read_blk m) (λ d _ _ _, (EIO, d)) (im_flush m) None None (im_read_blk64 m)
       (Some (λ d _ _ _, (EIO, d))) None None None) 32 d.
Example write_errors_are_lost : let ch := read_only_channel (demo_device demo_log) in
  (λ r, (r.1.1, hd 0 ∘ mem_content 32 (ch_state (w_fs r.2)) <$> [20; 21; 22])) <$>
  jbd2_journal_recover demo_bmap all_kmem None 20 (demo_journal 8) (World ch ch 32) = Some (0, [0; 0; 0]).
Proof. by vm_compute. Qed.

Definition loop_log : list (list Z) := demo_words [] :: replicate 9 (demo_words (demo_header JBD2_REVOKE_BLOCK 7 ++ [16])).
Definition loop_J (p : Z) : list Z := default [] (loop_log !! Z.to_nat p).

Lemma scan_diverges_witness : do_one_pass demo_bmap all_kmem None 1000 (demo_journal 8) (demo_world loop_log) no_info PASS_SCAN = None.
Proof.
  apply (scan_diverges (mem_content 32) demo_bmap all_kmem None (demo_journal 8) loop_J (demo_world loop_log) (demo_disk loop_log)
    (RevokeTable 4 2 (replicate 4 [])) 0).
  - constructor; [done|done|..].
    + apply (bool_decide_unpack _). by vm_compute.
    + done.
    + intros off Hoff. change (0 ≤ off < 10) in Hoff. split; [done|]. change (0 ≤ 100 + off < 2^64). lia.
    + apply demo_offsets. apply (bool_decide_unpack _). by vm_compute.
    + by right.
    + done.
  - constructor; [apply mem_works|apply mem_works|done|done|].
    apply demo_offsets. apply (bool_decide_unpack _). by vm_compute.
  - split; [exact demo_table_ok|exact demo_no_records].
  - done.
  - intros p Hp. change (1 ≤ p < 10) in Hp. revert p Hp.
    assert (Forall (λ p, header loop_J p JBD2_REVOKE_BLOCK 7) (seqZ 1 9)) as Hall.
    { apply (bool_decide_unpack _). by vm_compute. }
    intros p Hp. rewrite Forall_forall in Hall. apply (Hall p). apply elem_of_seqZ. lia.
Defined.
