(* ===== verification/BlockIter.v ===== *)
(** * BlockIter: going over the blocks of an inode (block.c, ind_block.c)

    [ext2fs_block_iterate3] calls a function on the blocks of an inode, with the
    number of each in the file and the place of the pointer to it; the function
    may change the pointer, and the blocks of pointers that changed are written
    back.  Here the function gets the channel and its private state and returns
    them; [None] is an error of its own that has no value.

    The blocks of pointers are in buffers of the context, one for each depth; no
    call uses a buffer after the one that filled it, so they are local here.
    The walk over the extents of an inode is in ExtentIter; it, and reading and
    writing inodes (inode.c), are arguments here. *)
From S2P Require Import Prelude.
From S2P Require Import Bytes.
From S2P Require Import Super.
From S2P Require Import Blknum.
From S2P Require Import IoManager.
#[local] Open Scope Z_scope.

Definition EXT2_ET_BAD_IND_BLOCK : Z := EXT2_ET_BASE + 53.
Definition EXT2_ET_BAD_DIND_BLOCK : Z := EXT2_ET_BASE + 54.
Definition EXT2_ET_BAD_TIND_BLOCK : Z := EXT2_ET_BASE + 55.
Definition EXT2_ET_RO_BLOCK_ITERATE : Z := EXT2_ET_BASE + 107.
Definition EXT2_ET_INLINE_DATA_CANT_ITERATE : Z := EXT2_ET_BASE + 157.

Definition BLOCK_CHANGED : Z := 1.
Definition BLOCK_ABORT : Z := 2.
Definition BLOCK_ERROR : Z := 4.
Definition BLOCK_FLAG_APPEND : Z := 1.
Definition BLOCK_FLAG_DEPTH_TRAVERSE : Z := 2.
Definition BLOCK_FLAG_DATA_ONLY : Z := 4.
Definition BLOCK_FLAG_READ_ONLY : Z := 8.
Definition BLOCK_FLAG_NO_LARGE : Z := 0x1000.
Definition BLOCK_COUNT_IND : Z := -1.
Definition BLOCK_COUNT_DIND : Z := -2.
Definition BLOCK_COUNT_TIND : Z := -3.
Definition BLOCK_COUNT_TRANSLATOR : Z := -4.

Definition EXT2_NDIR_BLOCKS : Z := 12.
Definition EXT2_IND_BLOCK : Z := EXT2_NDIR_BLOCKS.
Definition EXT2_DIND_BLOCK : Z := EXT2_IND_BLOCK + 1.
Definition EXT2_TIND_BLOCK : Z := EXT2_DIND_BLOCK + 1.
Definition EXT2_N_BLOCKS : Z := EXT2_TIND_BLOCK + 1.
Definition EXT4_EXTENTS_FL : Z := 0x00080000.
Definition EXT4_INLINE_DATA_FL : Z := 0x10000000.
Definition EXT2_FLAG_IMAGE_FILE : Z := 0x2000.
Definition EXT2_OS_HURD : Z := 1.

Definition s_creator_os (sb : list Z) : Z := get32 72 sb.
Definition h_i_translator (inode : list Z) : Z := get32 36 inode.
Definition set_h_i_translator (v : Z) (inode : list Z) : list Z := set32 36 v inode.
Definition i_block (i : Z) (inode : list Z) : Z := get32 (40 + 4 * i) inode.
Definition set_i_block (i v : Z) (inode : list Z) : list Z := set32 (40 + 4 * i) v inode.

Definition flag (x f : Z) : bool := bool_decide (Z.land x f ≠ 0).

(** The pointers in a block. *)
Definition block_nr (i : Z) (buf : list Z) : Z := get32 (4 * i) buf.
Definition set_block_nr (i v : Z) (buf : list Z) : list Z := set32 (4 * i) v buf.

(** A call-back: the block, its number in the file or what kind it is, the block
    that points to it and the offset there. *)
Definition block_func (D P : Type) : Type :=
  ext2_filsys → Z → Z → Z → Z → io_channel D → P → option (Z * Z * io_channel D * P).

Section iterate.
Context {D P : Type}.
(** [fs->io] is [fs->image_io]. *)
Context (io_is_image : bool).

Definition ext2fs_read_ind_block (fs : ext2_filsys) (ch : io_channel D) (blk : Z) : Z * list Z * io_channel D :=
  if flag (fs_flags fs) EXT2_FLAG_IMAGE_FILE && negb io_is_image
  then (0, replicate (Z.to_nat (fs_blocksize fs)) 0, ch)
  else io_channel_read_blk ch blk 1.

Definition ext2fs_write_ind_block (fs : ext2_filsys) (ch : io_channel D) (blk : Z) (buf : list Z) : Z * io_channel D :=
  if flag (fs_flags fs) EXT2_FLAG_IMAGE_FILE then (0, ch) else io_channel_write_blk ch blk 1 buf.

Context (func : block_func D P).

(** [struct block_context]: what changes of it. *)
Record block_context := BlockContext {
  bc_bcount : Z;
  bc_errcode : Z;
  bc_chan : io_channel D;
  bc_priv : P;
}.

Definition set_bcount (n : Z) (ctx : block_context) : block_context :=
  BlockContext n (bc_errcode ctx) (bc_chan ctx) (bc_priv ctx).
Definition set_errcode (e : Z) (ctx : block_context) : block_context :=
  BlockContext (bc_bcount ctx) e (bc_chan ctx) (bc_priv ctx).
Definition set_chan (e : Z) (ch : io_channel D) (ctx : block_context) : block_context :=
  BlockContext (bc_bcount ctx) e ch (bc_priv ctx).

(** [ctx->bcount += n] *)
Definition add_bcount (n : Z) (ctx : block_context) : block_context := set_bcount (s64 (bc_bcount ctx + n)) ctx.

(** A call, with the new pointer. *)
Definition call_func (fs : ext2_filsys) (blk bcount ref_block ref_offset : Z) (ctx : block_context) :
    option (Z * Z * block_context) :=
  '(ret, blk, ch, p) ← func fs blk bcount ref_block ref_offset (bc_chan ctx) (bc_priv ctx);
  Some (ret, u32 blk, BlockContext (bc_bcount ctx) (bc_errcode ctx) ch p).

(** [check_for_ro_violation_return] and [..._goto]: the condition, and the result. *)
Definition ro_violation (flags ret : Z) : bool := flag flags BLOCK_FLAG_READ_ONLY && flag ret BLOCK_CHANGED.
Definition ro_result (ret : Z) (ctx : block_context) : Z * block_context :=
  (Z.lor ret (Z.lor BLOCK_ABORT BLOCK_ERROR), set_errcode EXT2_ET_RO_BLOCK_ITERATE ctx).

Definition limit (fs : ext2_filsys) : Z := Z.shiftr (fs_blocksize fs) 2.

(** The loop over the pointers of an indirect block, [n] of them left from the
    [i]-th on: what is or-ed into [ret], [changed], the buffer. *)
Fixpoint ind_loop (n : nat) (fs : ext2_filsys) (flags blk i offset changed : Z) (buf : list Z) (ctx : block_context) :
    option (Z * Z * list Z * block_context) :=
  match n with
  | O => Some (0, changed, buf, ctx)
  | S n =>
      if negb (flag flags BLOCK_FLAG_APPEND) && bool_decide (block_nr i buf = 0)
      then ind_loop n fs flags blk (i + 1) (offset + 4) changed buf (add_bcount 1 ctx)
      else
        '(ret, b, ctx) ← call_func fs (block_nr i buf) (bc_bcount ctx) blk offset ctx;
        let buf := set_block_nr i b buf in
        let changed := Z.lor changed ret in
        if flag ret BLOCK_ABORT then Some (BLOCK_ABORT, changed, buf, ctx)
        else ind_loop n fs flags blk (i + 1) (offset + 4) changed buf (add_bcount 1 ctx)
  end.

(** The loop over the pointers of a doubly or triply indirect block.  The
    offset stays where it is when a pointer is skipped. *)
Fixpoint sub_loop (child : Z → Z → Z → block_context → option (Z * Z * block_context)) (skip : Z)
    (n : nat) (flags blk i offset changed : Z) (buf : list Z) (ctx : block_context) :
    option (Z * Z * list Z * block_context) :=
  match n with
  | O => Some (0, changed, buf, ctx)
  | S n =>
      if negb (flag flags BLOCK_FLAG_APPEND) && bool_decide (block_nr i buf = 0)
      then sub_loop child skip n flags blk (i + 1) offset changed buf (add_bcount skip ctx)
      else
        '(ret, b, ctx) ← child (block_nr i buf) blk offset ctx;
        let buf := set_block_nr i b buf in
        let changed := Z.lor changed ret in
        if flag ret (Z.lor BLOCK_ABORT BLOCK_ERROR)
        then Some (Z.land ret (Z.lor BLOCK_ABORT BLOCK_ERROR), changed, buf, ctx)
        else sub_loop child skip n flags blk (i + 1) (offset + 4) changed buf ctx
  end.

(** What the three functions share: [count] is the kind of the block, [skip]
    the number of blocks under it, [bad] the error for a pointer outside the
    file system, and [body] the loop.  They return the flags and the pointer. *)
Definition iterate_block (body : Z → list Z → block_context → option (Z * Z * list Z * block_context)) (count skip bad : Z)
    (fs : ext2_filsys) (flags blk ref_block ref_offset : Z) (ctx : block_context) : option (Z * Z * block_context) :=
  '(ret, blk, ctx) ←
    (if negb (flag flags BLOCK_FLAG_DEPTH_TRAVERSE) && negb (flag flags BLOCK_FLAG_DATA_ONLY)
     then call_func fs blk count ref_block ref_offset ctx else Some (0, blk, ctx));
  if ro_violation flags ret then let '(ret, ctx) := ro_result ret ctx in Some (ret, blk, ctx) else
  if bool_decide (blk = 0) || flag ret BLOCK_ABORT then Some (ret, blk, add_bcount skip ctx) else
  if bool_decide (ext2fs_blocks_count (fs_super fs) ≤ blk ∨ blk < s_first_data_block (fs_super fs))
  then Some (Z.lor ret BLOCK_ERROR, blk, set_errcode bad ctx) else
  let '(err, buf, ch) := ext2fs_read_ind_block fs (bc_chan ctx) blk in
  let ctx := set_chan err ch ctx in
  if bool_decide (err ≠ 0) then Some (Z.lor ret BLOCK_ERROR, blk, ctx) else
  '(r, changed, buf, ctx) ← body blk buf ctx;
  let ret := Z.lor ret r in
  if ro_violation flags changed then let '(ret, ctx) := ro_result changed ctx in Some (ret, blk, ctx) else
  let '(ret, ctx) :=
    if flag changed BLOCK_CHANGED then
      let '(err, ch) := ext2fs_write_ind_block fs (bc_chan ctx) blk buf in
      (if bool_decide (err ≠ 0) then Z.lor ret (Z.lor BLOCK_ERROR BLOCK_ABORT) else ret, set_chan err ch ctx)
    else (ret, ctx) in
  '(ret, blk, ctx) ←
    (if flag flags BLOCK_FLAG_DEPTH_TRAVERSE && negb (flag flags BLOCK_FLAG_DATA_ONLY) && negb (flag ret BLOCK_ABORT)
     then '(r, blk, ctx) ← call_func fs blk count ref_block ref_offset ctx; Some (Z.lor ret r, blk, ctx)
     else Some (ret, blk, ctx));
  if ro_violation flags ret then let '(ret, ctx) := ro_result ret ctx in Some (ret, blk, ctx) else
  Some (ret, blk, ctx).

Definition block_iterate_ind (fs : ext2_filsys) (flags ind_block ref_block ref_offset : Z) (ctx : block_context) :
    option (Z * Z * block_context) :=
  iterate_block (λ blk buf ctx, ind_loop (Z.to_nat (limit fs)) fs flags blk 0 0 0 buf ctx)
    BLOCK_COUNT_IND (limit fs) EXT2_ET_BAD_IND_BLOCK fs flags ind_block ref_block ref_offset ctx.

Definition block_iterate_dind (fs : ext2_filsys) (flags dind_block ref_block ref_offset : Z) (ctx : block_context) :
    option (Z * Z * block_context) :=
  iterate_block (λ blk buf ctx, sub_loop (block_iterate_ind fs flags) (limit fs) (Z.to_nat (limit fs)) flags blk 0 0 0 buf ctx)
    BLOCK_COUNT_DIND (s32 (limit fs * limit fs)) EXT2_ET_BAD_DIND_BLOCK fs flags dind_block ref_block ref_offset ctx.

Definition block_iterate_tind (fs : ext2_filsys) (flags tind_block ref_block ref_offset : Z) (ctx : block_context) :
    option (Z * Z * block_context) :=
  iterate_block (λ blk buf ctx, sub_loop (block_iterate_dind fs flags) (s32 (limit fs * limit fs)) (Z.to_nat (limit fs)) flags blk 0 0 0 buf ctx)
    BLOCK_COUNT_TIND (u64 (limit fs * limit fs * limit fs)) EXT2_ET_BAD_TIND_BLOCK fs flags tind_block ref_block ref_offset ctx.

(** The loop over the pointers in the inode, [n] left from the [i]-th on; with
    whether it was aborted. *)
Fixpoint direct_loop (n : nat) (fs : ext2_filsys) (flags i ret : Z) (inode : list Z) (ctx : block_context) :
    option (Z * bool * list Z * block_context) :=
  match n with
  | O => Some (ret, false, inode, ctx)
  | S n =>
      if bool_decide (i_block i inode ≠ 0) || flag flags BLOCK_FLAG_APPEND then
        '(r, b, ctx) ← call_func fs (i_block i inode) (bc_bcount ctx) 0 i ctx;
        let ret := Z.lor ret r in
        let inode := set_i_block i b inode in
        if flag ret BLOCK_ABORT then Some (ret, true, inode, ctx)
        else direct_loop n fs flags (i + 1) ret inode (add_bcount 1 ctx)
      else direct_loop n fs flags (i + 1) ret inode (add_bcount 1 ctx)
  end.

(** One of the three trees of indirect blocks of the inode. *)
Definition iterate_tree (tree : ext2_filsys → Z → Z → Z → Z → block_context → option (Z * Z * block_context)) (skip i : Z)
    (fs : ext2_filsys) (flags ret : Z) (inode : list Z) (ctx : block_context) : option (Z * bool * list Z * block_context) :=
  if bool_decide (i_block i inode ≠ 0) || flag flags BLOCK_FLAG_APPEND then
    '(r, b, ctx) ← tree fs flags (i_block i inode) 0 i ctx;
    let ret := Z.lor ret r in
    Some (ret, flag ret BLOCK_ABORT, set_i_block i b inode, ctx)
  else Some (ret, false, inode, add_bcount skip ctx).

(** The pointers of the inode and what is under them; the early returns are
    jumps to [abort_exit]. *)
Definition iterate_pointers (fs : ext2_filsys) (flags ret : Z) (inode : list Z) (ctx : block_context) :
    option (Z * list Z * block_context) :=
  '(ret, abort, inode, ctx) ← direct_loop (Z.to_nat EXT2_NDIR_BLOCKS) fs flags 0 ret inode ctx;
  if abort : bool then Some (ret, inode, ctx) else
  if ro_violation flags ret then let '(ret, ctx) := ro_result ret ctx in Some (ret, inode, ctx) else
  '(ret, abort, inode, ctx) ← iterate_tree block_iterate_ind (limit fs) EXT2_IND_BLOCK fs flags ret inode ctx;
  if abort : bool then Some (ret, inode, ctx) else
  '(ret, abort, inode, ctx) ← iterate_tree block_iterate_dind (s32 (limit fs * limit fs)) EXT2_DIND_BLOCK fs flags ret inode ctx;
  if abort : bool then Some (ret, inode, ctx) else
  '(ret, abort, inode, ctx) ← iterate_tree block_iterate_tind 0 EXT2_TIND_BLOCK fs flags ret inode ctx;
  Some (ret, inode, ctx).

(** The block of a translator of the HURD; with whether to jump to [abort_exit]. *)
Definition iterate_translator (fs : ext2_filsys) (flags : Z) (inode : list Z) (ctx : block_context) :
    option (Z * bool * list Z * block_context) :=
  if bool_decide (s_creator_os (fs_super fs) = EXT2_OS_HURD) && negb (flag flags BLOCK_FLAG_DATA_ONLY) &&
     bool_decide (h_i_translator inode ≠ 0)
  then
    '(ret, b, ctx) ← call_func fs (h_i_translator inode) BLOCK_COUNT_TRANSLATOR 0 0 ctx;
    let inode := set_h_i_translator b inode in
    if flag ret BLOCK_ABORT then Some (ret, true, inode, ctx) else
    if ro_violation flags ret then let '(ret, ctx) := ro_result ret ctx in Some (ret, true, inode, ctx) else
    Some (ret, false, inode, ctx)
  else Some (0, false, inode, ctx).

Context (ext2fs_read_inode : ext2_filsys → Z → Z * list Z).
Context (ext2fs_write_inode : ext2_filsys → io_channel D → Z → list Z → Z * io_channel D).
(** The walk over the extents of the inode with a call-back: the new [ret],
    whether the inode is written already, the inode and the context. *)
Context (iterate_extents : block_func D P → ext2_filsys → Z → Z → list Z → Z → block_context → option (Z * bool * list Z * block_context)).

(** [mem_ok]: the buffers could be allocated. *)
Definition ext2fs_block_iterate3 (fs : ext2_filsys) (ch : io_channel D) (ino flags : Z) (mem_ok : bool) (priv : P) :
    option (Z * io_channel D * P) :=
  if bool_decide (fs_magic fs ≠ EXT2_ET_MAGIC_EXT2FS_FILSYS)
  then Some (errno EXT2_ET_MAGIC_EXT2FS_FILSYS, ch, priv) else
  let '(err, inode) := ext2fs_read_inode fs ino in
  if bool_decide (err ≠ 0) then Some (err, ch, priv) else
  if flag (i_flags inode) EXT4_INLINE_DATA_FL then Some (EXT2_ET_INLINE_DATA_CANT_ITERATE, ch, priv) else
  if flag flags BLOCK_FLAG_NO_LARGE && negb (LINUX_S_ISDIR (i_mode inode)) && bool_decide (i_size_high inode ≠ 0)
  then Some (errno EXT2_ET_FILE_TOO_BIG, ch, priv) else
  if negb mem_ok then Some (errno EXT2_ET_NO_MEMORY, ch, priv) else
  '(ret, abort, inode, ctx) ← iterate_translator fs flags inode (BlockContext 0 err ch priv);
  '(ret, done, inode, ctx) ←
    (if abort : bool then Some (ret, false, inode, ctx)
     else if flag (i_flags inode) EXT4_EXTENTS_FL then iterate_extents func fs ino flags inode ret ctx
     else '(ret, inode, ctx) ← iterate_pointers fs flags ret inode ctx; Some (ret, false, inode, ctx));
  let '(ret, ctx) :=
    if negb done && flag ret BLOCK_CHANGED then
      let '(retval, ch) := ext2fs_write_inode fs (bc_chan ctx) ino inode in
      if bool_decide (retval ≠ 0) then (Z.lor ret BLOCK_ERROR, set_chan retval ch ctx)
      else (ret, set_chan (bc_errcode ctx) ch ctx)
    else (ret, ctx) in
  Some (if flag ret BLOCK_ERROR then bc_errcode ctx else 0, bc_chan ctx, bc_priv ctx).
End iterate.
Arguments block_context D P : clear implicits.

(** ** The older interfaces, for 32-bit block numbers *)
Section emulation.
Context {D P : Type} (io_is_image : bool).
Context (ext2fs_read_inode : ext2_filsys → Z → Z * list Z).
Context (ext2fs_write_inode : ext2_filsys → io_channel D → Z → list Z → Z * io_channel D).

(** [xlate64_func] *)
Definition xlate64_func (func : block_func D P) : block_func D P :=
  λ fs blocknr blockcnt ref_blk ref_offset ch priv,
    '(ret, block32, ch, priv) ← func fs (u32 blocknr) blockcnt (u32 ref_blk) ref_offset ch priv;
    Some (ret, u32 block32, ch, priv).

(** [xlate_func]; the number of the block is cut to an [int]. *)
Definition xlate_func (func : ext2_filsys → Z → Z → io_channel D → P → option (Z * Z * io_channel D * P)) : block_func D P :=
  λ fs blocknr blockcnt _ _ ch priv, func fs blocknr (s32 blockcnt) ch priv.

Definition ext2fs_block_iterate2 func iterate_extents (fs : ext2_filsys) (ch : io_channel D) (ino flags : Z) (mem_ok : bool)
    (priv : P) : option (Z * io_channel D * P) :=
  ext2fs_block_iterate3 io_is_image (xlate64_func func) ext2fs_read_inode ext2fs_write_inode iterate_extents fs ch ino flags mem_ok priv.

Definition ext2fs_block_iterate func iterate_extents (fs : ext2_filsys) (ch : io_channel D) (ino flags : Z) (mem_ok : bool)
    (priv : P) : option (Z * io_channel D * P) :=
  ext2fs_block_iterate2 (xlate_func func) iterate_extents fs ch ino (Z.lor BLOCK_FLAG_NO_LARGE flags) mem_ok priv.
End emulation.
