(* ===== verification/FileMap.v ===== *)
(** * FileMap: the blocks of a file, and what going over them does

    The pointers of an inode and of its indirect blocks are trees of four depths.
    [tree_block] is what such a tree maps a block of the file to, and
    [tree_visits] the calls that [ext2fs_block_iterate3] makes: the blocks of data
    with their numbers in the file and, unless the flags leave them out, the
    indirect blocks before or after what is under them.  [iterate_visits] shows
    that the calls are these, for a function that does not change the pointers,
    and [data_visits] that the blocks of data are visited once each, in order. *)
From S2P Require Import Prelude.
From S2P Require Import Bytes.
From S2P Require Import Super.
From S2P Require Import Blknum.
From S2P Require Import IoManager.
From S2P Require Import BlockIter.
#[local] Open Scope Z_scope.

(** A call: the block, its number or its kind, the block that points to it, and where. *)
Record visit := Visit { v_blk : Z; v_count : Z; v_ref : Z; v_off : Z }.

(** ** Trees of blocks *)
Section map.
(** What is in the indirect blocks, and the pointers in one. *)
Context (rd : Z → list Z) (a : Z).

Definition ptr (blk i : Z) : Z := block_nr i (rd blk).

(** The blocks of data under a pointer. *)
Fixpoint span (d : nat) : Z := match d with O => 1 | S d => a * span d end.

(** What a tree of depth [d] at [blk] maps [n] to; 0 is a hole. *)
Fixpoint tree_block (d : nat) (blk n : Z) : Z :=
  if bool_decide (blk = 0) then 0 else
  match d with
  | O => blk
  | S d => tree_block d (ptr blk (n / span d)) (n mod span d)
  end.

(** The place of the [i]-th pointer: its offset in the indirect block. *)
Definition place (d : nat) (blk i : Z) : Z := 4 * i.

(** What block.c gives the function for it.  For a pointer to data this is the
    place; for a pointer to an indirect block the pointers before it that are 0
    do not count, as [offset] is not advanced over them. *)
Definition given_offset (d : nat) (blk i : Z) : Z :=
  if d is O then 4 * i else 4 * Z.of_nat (length (filter (λ j, ptr blk j ≠ 0) (seqZ 0 i))).

(** What kind of block the root of a tree is. *)
Definition kind (d : nat) : Z := - Z.of_nat d.

Section visits.
(** The flags, and which offset a call has. *)
Context (flags : Z) (ofs : nat → Z → Z → Z).
Definition before : bool := negb (flag flags BLOCK_FLAG_DEPTH_TRAVERSE) && negb (flag flags BLOCK_FLAG_DATA_ONLY).
Definition after_ : bool := flag flags BLOCK_FLAG_DEPTH_TRAVERSE && negb (flag flags BLOCK_FLAG_DATA_ONLY).

Fixpoint tree_visits (d : nat) (blk base ref off : Z) : list visit :=
  match d with
  | O => [Visit blk base ref off]
  | S d' =>
      (if before then [Visit blk (kind d) ref off] else []) ++
      concat ((λ i, if bool_decide (ptr blk i = 0) then []
                    else tree_visits d' (ptr blk i) (base + i * span d') blk (ofs d' blk i)) <$> seqZ 0 a) ++
      (if after_ then [Visit blk (kind d) ref off] else [])
  end.

(** The calls for the pointers from the [i]-th on. *)
Definition visits_from (d : nat) (blk base i : Z) : list visit :=
  concat ((λ i, if bool_decide (ptr blk i = 0) then []
                else tree_visits d (ptr blk i) (base + i * span d) blk (ofs d blk i)) <$> seqZ i (a - i)).

Lemma visits_from_next d blk base i : i < a →
  visits_from d blk base i =
    (if bool_decide (ptr blk i = 0) then []
     else tree_visits d (ptr blk i) (base + i * span d) blk (ofs d blk i)) ++ visits_from d blk base (i + 1).
Proof. intros Hi. unfold visits_from. rewrite (seqZ_cons i); [|lia]. cbn [fmap list_fmap concat]. by replace (Z.pred (a - i)) with (a - (i + 1)) by lia. Qed.

Lemma visits_from_end d blk base : visits_from d blk base a = [].
Proof. unfold visits_from. by rewrite Z.sub_diag. Qed.

Lemma tree_visits_S d blk base ref off : tree_visits (S d) blk base ref off =
  (if before then [Visit blk (kind (S d)) ref off] else []) ++ visits_from d blk base 0 ++
  (if after_ then [Visit blk (kind (S d)) ref off] else []).
Proof. unfold visits_from. by rewrite Z.sub_0_r. Qed.
End visits.

Lemma span_pos d : 0 < a → 0 < span d.
Proof. intros Ha. induction d as [|d IH]; cbn [span]; nia. Qed.

Lemma given_offset_next d blk i : 0 ≤ i →
  given_offset (S d) blk (i + 1) = if bool_decide (ptr blk i = 0) then given_offset (S d) blk i else given_offset (S d) blk i + 4.
Proof.
  intros Hi. unfold given_offset. rewrite (seqZ_app 0 i 1) //. rewrite Z.add_0_l filter_app length_app.
  change (seqZ i 1) with [Z.of_nat 0 + i]. cbn [Z.of_nat Z.add]. destruct (bool_decide_reflect (ptr blk i = 0)) as [H0|H0].
  - rewrite filter_cons_False; [|tauto]. cbn. lia.
  - rewrite filter_cons_True; [|done]. cbn. lia.
Qed.

(** ** Blocks of data are visited in order *)
(** The mapped blocks among [n] that begin at [base], with their numbers. *)
Definition mapped (f : Z → Z) (base n : Z) : list (Z * Z) :=
  filter (λ x, x.1 ≠ 0) ((λ i, (f i, base + i)) <$> seqZ 0 n).

Definition data_of (vs : list visit) : list (Z * Z) := (λ v, (v_blk v, v_count v)) <$> filter (λ v, 0 ≤ v_count v) vs.

Lemma data_of_app vs vs' : data_of (vs ++ vs') = data_of vs ++ data_of vs'.
Proof. unfold data_of. by rewrite filter_app fmap_app. Qed.

Lemma data_of_cons v vs : 0 ≤ v_count v → data_of (v :: vs) = (v_blk v, v_count v) :: data_of vs.
Proof. intros Hv. unfold data_of. by rewrite filter_cons_True. Qed.

Lemma data_of_cons_meta v vs : ¬ 0 ≤ v_count v → data_of (v :: vs) = data_of vs.
Proof. intros Hv. unfold data_of. by rewrite filter_cons_False. Qed.

Lemma data_of_meta d blk ref off (b : bool) : data_of (if b then [Visit blk (kind (S d)) ref off] else []) = [].
Proof. destruct b; [|done]. unfold data_of. rewrite filter_cons_False; [done|]. unfold kind. cbn. lia. Qed.

Lemma mapped_app f base n m : 0 ≤ n → 0 ≤ m → mapped f base (n + m) = mapped f base n ++ mapped (λ i, f (n + i)) (base + n) m.
Proof.
  intros Hn Hm. unfold mapped. rewrite seqZ_app // fmap_app filter_app. f_equal. f_equal.
  rewrite Z.add_0_l -{1}(Z.add_0_r n) -fmap_add_seqZ -list_fmap_compose. apply list_fmap_ext. intros _ i _. cbn. f_equal. lia.
Qed.

Lemma mapped_ext f g base n : (∀ i, 0 ≤ i < n → f i = g i) → mapped f base n = mapped g base n.
Proof.
  intros H. unfold mapped. f_equal. apply list_fmap_ext. intros k i Hi. apply list_elem_of_lookup_2, elem_of_seqZ in Hi. by rewrite H.
Qed.

Lemma filter_nil_iff {A} (P : A → Prop) `{!∀ x, Decision (P x)} l : (∀ x, x ∈ l → ¬ P x) → filter P l = [].
Proof.
  induction l as [|x l IH]; intros Hl; [done|]. rewrite filter_cons_False; [|apply Hl; by left]. apply IH. intros y Hy. apply Hl. by right.
Qed.

Lemma mapped_zero f base n : (∀ i, 0 ≤ i < n → f i = 0) → mapped f base n = [].
Proof.
  intros H. unfold mapped. apply filter_nil_iff. intros x (i & -> & Hi%elem_of_seqZ)%list_elem_of_fmap. cbn. rewrite H; [tauto|lia].
Qed.

(** A tree visits what it maps, in order. *)
Lemma tree_data flags ofs d blk base ref off : 0 < a → 0 ≤ base → blk ≠ 0 →
  data_of (tree_visits flags ofs d blk base ref off) = mapped (tree_block d blk) base (span d).
Proof.
  intros Ha. revert blk base ref off. induction d as [|d IH]; intros blk base ref off Hb Hblk.
  - transitivity [(blk, base)].
    + unfold data_of. cbn [tree_visits]. by rewrite filter_cons_True.
    + unfold mapped. cbn [span]. change (seqZ 0 1) with [0]. cbn [fmap list_fmap tree_block]. rewrite bool_decide_eq_false_2 //.
      rewrite filter_cons_True // Z.add_0_r. done.
  - rewrite tree_visits_S !data_of_app !data_of_meta app_nil_r. cbn [app].
    pose proof (span_pos d Ha) as Hs.
    assert (Hmap : ∀ i n, 0 ≤ i → 0 ≤ n < span d → tree_block (S d) blk (i * span d + n) = tree_block d (ptr blk i) n).
    { intros i n Hi Hn. cbn [tree_block]. rewrite bool_decide_eq_false_2 //. rewrite Z.div_add_l; [|lia]. rewrite Z.div_small // Z.add_0_r.
      f_equal. rewrite Z.add_comm Z.mod_add; [|lia]. by apply Z.mod_small. }
    cut (∀ k : nat, Z.of_nat k ≤ a → data_of (visits_from flags ofs d blk base (a - Z.of_nat k)) =
      mapped (λ n, tree_block (S d) blk ((a - Z.of_nat k) * span d + n)) (base + (a - Z.of_nat k) * span d) (Z.of_nat k * span d)).
    { intros Hk. specialize (Hk (Z.to_nat a) ltac:(lia)). rewrite Z2Nat.id in Hk; [|lia]. rewrite Z.sub_diag in Hk.
      rewrite Hk. cbn [span]. rewrite Z.mul_0_l Z.add_0_r. by apply mapped_ext. }
    induction k as [|k IHk]; intros Hka.
    + rewrite Z.sub_0_r visits_from_end. done.
    + rewrite visits_from_next; [|lia]. rewrite data_of_app. replace (a - Z.of_nat (S k) + 1) with (a - Z.of_nat k) by lia.
      rewrite IHk; [|lia]. set (i := a - Z.of_nat (S k)). replace (Z.of_nat (S k) * span d) with (span d + Z.of_nat k * span d) by (rewrite Nat2Z.inj_succ; ring).
      rewrite mapped_app; [|lia|lia]. f_equal.
      * transitivity (mapped (tree_block d (ptr blk i)) (base + i * span d) (span d)).
        -- destruct (bool_decide_reflect (ptr blk i = 0)) as [H0|H0]; [|by apply IH; [nia|]]. rewrite H0. rewrite mapped_zero //. intros n _. by destruct d.
        -- apply mapped_ext. intros n Hn. rewrite Hmap //. lia.
      * replace (base + i * span d + span d) with (base + (a - Z.of_nat k) * span d) by (unfold i; rewrite Nat2Z.inj_succ; ring).
        apply mapped_ext. intros n Hn. f_equal. unfold i. rewrite Nat2Z.inj_succ. ring.
Qed.

(** ** Files *)

(** What block [n] of a file with the pointers of [inode] is mapped to. *)
Definition file_block (inode : list Z) (n : Z) : Z :=
  if bool_decide (n < EXT2_NDIR_BLOCKS) then i_block n inode else
  let n := n - EXT2_NDIR_BLOCKS in
  if bool_decide (n < span 1) then tree_block 1 (i_block EXT2_IND_BLOCK inode) n else
  let n := n - span 1 in
  if bool_decide (n < span 2) then tree_block 2 (i_block EXT2_DIND_BLOCK inode) n else
  tree_block 3 (i_block EXT2_TIND_BLOCK inode) (n - span 2).

(** The blocks that can be mapped. *)
Definition file_span : Z := EXT2_NDIR_BLOCKS + (span 1 + (span 2 + span 3)).

Definition direct_visits (inode : list Z) (i n : Z) : list visit :=
  concat ((λ i, if bool_decide (i_block i inode = 0) then [] else [Visit (i_block i inode) i 0 i]) <$> seqZ i n).

Definition root_visits (flags : Z) (ofs : nat → Z → Z → Z) (d : nat) (i base : Z) (inode : list Z) : list visit :=
  if bool_decide (i_block i inode = 0) then [] else tree_visits flags ofs d (i_block i inode) base 0 i.

Definition file_visits (flags : Z) (ofs : nat → Z → Z → Z) (inode : list Z) : list visit :=
  direct_visits inode 0 EXT2_NDIR_BLOCKS ++
  root_visits flags ofs 1 EXT2_IND_BLOCK EXT2_NDIR_BLOCKS inode ++
  root_visits flags ofs 2 EXT2_DIND_BLOCK (EXT2_NDIR_BLOCKS + span 1) inode ++
  root_visits flags ofs 3 EXT2_TIND_BLOCK (EXT2_NDIR_BLOCKS + span 1 + span 2) inode.

Lemma app_eq_parts {A} (x y x' y' : list A) : x = x' → y = y' → x ++ y = x' ++ y'.
Proof. by intros -> ->. Qed.

Lemma direct_data inode (k : nat) i : 0 ≤ i →
  data_of (direct_visits inode i (Z.of_nat k)) = mapped (λ n, i_block (i + n) inode) i (Z.of_nat k).
Proof.
  revert i. induction k as [|k IH]; intros i Hi; [done|]. rewrite Nat2Z.inj_succ -Z.add_1_l mapped_app; [|lia|lia].
  unfold direct_visits. rewrite seqZ_app; [|lia|lia]. rewrite fmap_app concat_app data_of_app. f_equal.
  - change (seqZ i 1) with [i]. unfold mapped. change (seqZ 0 1) with [0]. cbn [fmap list_fmap concat Z.of_nat Z.add].
    rewrite Z.add_0_r app_nil_r. destruct (bool_decide_reflect (i_block i inode = 0)) as [H0|H0].
    + rewrite filter_cons_False; [done|cbn; tauto].
    + rewrite filter_cons_True //. unfold data_of. rewrite filter_cons_True; [done|cbn; lia].
  - rewrite -/(direct_visits inode (i + 1) (Z.of_nat k)) IH; [|lia]. apply mapped_ext. intros n _. f_equal. lia.
Qed.

Lemma root_data flags ofs d i base inode : 0 < a → 0 ≤ base →
  data_of (root_visits flags ofs d i base inode) = mapped (tree_block d (i_block i inode)) base (span d).
Proof.
  intros Ha Hb. unfold root_visits. destruct (bool_decide_reflect (i_block i inode = 0)) as [->|H0]; [|by apply tree_data].
  rewrite mapped_zero //. intros n _. by destruct d.
Qed.

(** The blocks of data of a file are visited in order, once each. *)
Lemma file_data flags ofs inode : 0 < a → data_of (file_visits flags ofs inode) = mapped (file_block inode) 0 file_span.
Proof.
  intros Ha. pose proof (span_pos 1 Ha). pose proof (span_pos 2 Ha). pose proof (span_pos 3 Ha).
  assert (E12 : EXT2_NDIR_BLOCKS = 12) by done.
  assert (Hd : data_of (direct_visits inode 0 EXT2_NDIR_BLOCKS) = mapped (λ n, i_block (0 + n) inode) 0 EXT2_NDIR_BLOCKS)
    by exact (direct_data inode 12 0 ltac:(lia)).
  unfold file_visits, file_span. rewrite 3!data_of_app !root_data; [|lia..]. rewrite Hd.
  rewrite (mapped_app (file_block inode) 0 EXT2_NDIR_BLOCKS); [|lia|lia]. rewrite (mapped_app _ _ (span 1)); [|lia|lia].
  rewrite (mapped_app _ _ (span 2)); [|lia|lia]. repeat apply app_eq_parts.
  all: rewrite ?Z.add_0_l; apply mapped_ext; intros n Hn; unfold file_block; rewrite E12.
  - rewrite bool_decide_eq_true_2; [done|lia].
  - rewrite bool_decide_eq_false_2; [|lia]. rewrite bool_decide_eq_true_2; [|lia]. f_equal. lia.
  - rewrite bool_decide_eq_false_2; [|lia]. rewrite bool_decide_eq_false_2; [|lia]. rewrite bool_decide_eq_true_2; [|lia]. f_equal. lia.
  - rewrite bool_decide_eq_false_2; [|lia]. rewrite bool_decide_eq_false_2; [|lia]. rewrite bool_decide_eq_false_2; [|lia]. f_equal. lia.
Qed.

(** ** The offsets *)

(** Two calls that are the same, but for the offset that goes with an indirect
    block below the inode. *)
Definition same_call (v v' : visit) : Prop :=
  v_blk v = v_blk v' ∧ v_count v = v_count v' ∧ v_ref v = v_ref v' ∧
  (v_off v = v_off v' ∨ (v_count v < 0 ∧ v_ref v ≠ 0)).

Lemma same_call_refl v : same_call v v.
Proof. by split_and!; [..|left]. Qed.

Lemma Forall2_concat_map {A B} (R : B → B → Prop) (f g : A → list B) l :
  (∀ x, x ∈ l → Forall2 R (f x) (g x)) → Forall2 R (concat (f <$> l)) (concat (g <$> l)).
Proof.
  induction l as [|x l IH]; intros H; [constructor|]. cbn [fmap list_fmap concat].
  apply Forall2_app; [apply H; by left|]. apply IH. intros y Hy. apply H. by right.
Qed.

Lemma concat_map_ext {A B} (f g : A → list B) l :
  (∀ x, x ∈ l → f x = g x) → concat (f <$> l) = concat (g <$> l).
Proof.
  induction l as [|x l IH]; intros H; [done|]. cbn [fmap list_fmap concat].
  rewrite H; [|by left]. f_equal. apply IH. intros y Hy. apply H. by right.
Qed.

Lemma filter_all_id {A} (P : A → Prop) `{!∀ x, Decision (P x)} (l : list A) : (∀ x, x ∈ l → P x) → filter P l = l.
Proof.
  induction l as [|x l IH]; intros Hl; [done|]. rewrite filter_cons_True; [|apply Hl; by left].
  f_equal. apply IH. intros y Hy. apply Hl. by right.
Qed.

Lemma tree_same flags d blk base ref off off' :
  blk ≠ 0 → off = off' ∨ (d ≠ 0%nat ∧ ref ≠ 0) →
  Forall2 same_call (tree_visits flags given_offset d blk base ref off)
    (tree_visits flags place d blk base ref off').
Proof.
  revert blk base ref off off'. induction d as [|d IH]; intros blk base ref off off' Hblk Hoff.
  - destruct Hoff as [->|[]]; [|done]. constructor; [apply same_call_refl|constructor].
  - assert (Hmeta : ∀ b : bool, Forall2 same_call (if b then [Visit blk (kind (S d)) ref off] else [])
      (if b then [Visit blk (kind (S d)) ref off'] else [])).
    { intros []; [|constructor]. constructor; [|constructor]. split_and!; try done. cbn.
      destruct Hoff as [->|[_ ?]]; [by left|]. right. split; [|done]. unfold kind. lia. }
    cbn [tree_visits]. repeat apply Forall2_app; [apply Hmeta| |apply Hmeta].
    apply Forall2_concat_map. intros i _. destruct (bool_decide_reflect (ptr blk i = 0)); [constructor|].
    apply IH; [done|]. destruct d; [by left|by right].
Qed.

(** In the indirect blocks that point to indirect blocks, the pointers that are
    0 come last. *)
Fixpoint tree_dense (d : nat) (blk : Z) : Prop :=
  match d with
  | S (S _ as d) => (∀ i j, 0 ≤ i < j → j < a → ptr blk j ≠ 0 → ptr blk i ≠ 0) ∧
                    ∀ i, 0 ≤ i < a → ptr blk i ≠ 0 → tree_dense d (ptr blk i)
  | _ => True
  end.

Lemma given_place d blk i : 0 ≤ i → (∀ j, 0 ≤ j < i → ptr blk j ≠ 0) → given_offset d blk i = place d blk i.
Proof.
  intros Hi Hp. destruct d; [done|]. unfold given_offset, place.
  rewrite filter_all_id; [rewrite length_seqZ; lia|]. intros j Hj%elem_of_seqZ. apply Hp. lia.
Qed.

Lemma tree_dense_visits flags d blk base ref off :
  tree_dense d blk → tree_visits flags given_offset d blk base ref off = tree_visits flags place d blk base ref off.
Proof.
  revert blk base ref off. induction d as [|d IH]; intros blk base ref off Hd; [done|]. cbn [tree_visits].
  f_equal. f_equal. apply concat_map_ext. intros i Hi%elem_of_seqZ.
  destruct (bool_decide_reflect (ptr blk i = 0)) as [|Hp]; [done|]. destruct d as [|d]; [done|].
  destruct Hd as [Hfirst Hd]. rewrite given_place; [|lia|].
  - apply IH, Hd; [lia|done].
  - intros j Hj. apply (Hfirst j i); [lia..|done].
Qed.

Definition file_dense (inode : list Z) : Prop :=
  tree_dense 2 (i_block EXT2_DIND_BLOCK inode) ∧ tree_dense 3 (i_block EXT2_TIND_BLOCK inode).

Lemma root_same flags d i base inode :
  Forall2 same_call (root_visits flags given_offset d i base inode) (root_visits flags place d i base inode).
Proof.
  unfold root_visits. destruct (bool_decide_reflect (i_block i inode = 0)); [constructor|].
  apply tree_same; [done|by left].
Qed.

(** The offsets of a file: those of the data and of what the inode points to
    are the places; all are when no pointer was skipped. *)
Lemma file_same flags inode :
  Forall2 same_call (file_visits flags given_offset inode) (file_visits flags place inode) ∧
  (file_dense inode → file_visits flags given_offset inode = file_visits flags place inode).
Proof.
  split.
  - unfold file_visits. apply Forall2_app; [|by repeat (apply Forall2_app || apply root_same)].
    generalize (direct_visits inode 0 EXT2_NDIR_BLOCKS). intros l.
    induction l; constructor; [apply same_call_refl|done].
  - intros [H2 H3]. unfold file_visits, root_visits.
    by rewrite !(tree_dense_visits flags 1) // !(tree_dense_visits flags 2) // !(tree_dense_visits flags 3).
Qed.
End map.

(** ** The calls that are made *)
Section exec.
Context {D P : Type} (content : D → Z → list Z) (ch : io_channel D) `{!Works32 content ch}.
Context (io_is_image : bool) (fs : ext2_filsys) (flags : Z).
Context (func : block_func D P).
Abbreviation a := (limit fs).
Context (Hbs : 1024 ≤ fs_blocksize fs ≤ 65536) (Hbs4 : fs_blocksize fs mod 4 = 0).
Context (Hflags : flag flags BLOCK_FLAG_APPEND = false) (Himage : flag (fs_flags fs) EXT2_FLAG_IMAGE_FILE = false).
Context (Meta : Z → Prop) (rd : Z → list Z) (V : visit → Prop).

(** Calls in order, until one aborts; whether one did.  Between them the device
    may change its state, but not what is on it. *)
Inductive runs : list visit → D → P → bool → D → P → Prop :=
  | runs_nil st p : runs [] st p false st p
  | runs_same vs st st1 p ab st' p' : (∀ x, content st1 x = content st x) → runs vs st1 p ab st' p' → runs vs st p ab st' p'
  | runs_abort v vs st p ret st' p' :
      func fs (v_blk v) (v_count v) (v_ref v) (v_off v) (set_state ch st) p = Some (ret, v_blk v, set_state ch st', p') →
      flag ret BLOCK_ABORT = true → runs (v :: vs) st p true st' p'
  | runs_next v vs st p ret st1 p1 ab st' p' :
      func fs (v_blk v) (v_count v) (v_ref v) (v_off v) (set_state ch st) p = Some (ret, v_blk v, set_state ch st1, p1) →
      flag ret BLOCK_ABORT = false → runs vs st1 p1 ab st' p' → runs (v :: vs) st p ab st' p'.

Lemma runs_app_abort vs vs' st p st' p' : runs vs st p true st' p' → runs (vs ++ vs') st p true st' p'.
Proof.
  remember true as ab eqn:Hab. intros H. induction H; cbn; try done.
  - eapply runs_same; eauto.
  - by eapply runs_abort.
  - eapply runs_next; eauto.
Qed.

Lemma runs_app vs vs' st p st1 p1 ab st' p' : runs vs st p false st1 p1 → runs vs' st1 p1 ab st' p' → runs (vs ++ vs') st p ab st' p'.
Proof.
  remember false as ab1 eqn:Hab. intros H H'. induction H; cbn; try done.
  - eapply runs_same; eauto.
  - eapply runs_next; eauto.
Qed.

(** The function works while [Inv] holds of the device and the private state,
    keeps it unless it aborts, and leaves the pointers and the indirect blocks
    alone. *)
Context (Inv : D → P → Prop).
Record read_only : Prop := ReadOnly {
  ro_meta st p x : Inv st p → Meta x → content st x = rd x;
  ro_same st st' p : (∀ x, content st' x = content st x) → Inv st p → Inv st' p;
  ro_call v st p : V v → Inv st p → ∃ ret st' p',
    func fs (v_blk v) (v_count v) (v_ref v) (v_off v) (set_state ch st) p = Some (ret, v_blk v, set_state ch st', p') ∧
    (ret = 0 ∧ Inv st' p' ∨ ret = BLOCK_ABORT);
}.
Context (Hro : read_only).

(** The trees lie in the file system. *)
Fixpoint tree_ok (d : nat) (blk : Z) : Prop :=
  match d with
  | O => 0 ≤ blk < 2^32
  | S d => 0 ≤ blk < 2^32 ∧ Meta blk ∧ s_first_data_block (fs_super fs) ≤ blk < ext2fs_blocks_count (fs_super fs) ∧
      is_bytes (rd blk) ∧ Z.of_nat (length (rd blk)) = fs_blocksize fs ∧
      ∀ i, 0 ≤ i < a → ptr rd blk i ≠ 0 → tree_ok d (ptr rd blk i)
  end.

Lemma tree_ok_range d blk : tree_ok d blk → 0 ≤ blk < 2^32.
Proof. destruct d; [done|]. by intros [? _]. Qed.

(** What a loop or a function does: the calls [vs] from the state on, and [x]. *)
Definition outcome {A} (vs : list visit) (st : D) (p : P) (res : option A) (f : bool → D → P → A → Prop) : Prop :=
  ∃ ab st' p' x, runs vs st p ab st' p' ∧ (ab = false → Inv st' p') ∧ res = Some x ∧ f ab st' p' x.

Lemma outcome_bind {A B} vs vs' st p (res : option A) (k : A → option B) f g :
  outcome vs st p res f →
  (∀ st' p' x, f true st' p' x → ∃ y, k x = Some y ∧ g true st' p' y) →
  (∀ st' p' x, Inv st' p' → f false st' p' x → outcome vs' st' p' (k x) g) →
  outcome (vs ++ vs') st p (res ≫= k) g.
Proof.
  intros (ab & st1 & p1 & x & Hr & Hi & -> & Hx) Ht Hf. cbn. destruct ab.
  - destruct (Ht _ _ _ Hx) as (y & Hy & Hg). exists true, st1, p1, y. split; [by apply runs_app_abort|done].
  - destruct (Hf _ _ _ (Hi eq_refl) Hx) as (ab & st2 & p2 & y & Hr2 & Hi2 & Hy & Hg). exists ab, st2, p2, y.
    split; [by eapply runs_app|done].
Qed.

Lemma outcome_same {A} vs st st1 p (res : option A) f : (∀ x, content st1 x = content st x) →
  outcome vs st1 p res f → outcome vs st p res f.
Proof.
  intros Hs (ab & st' & p' & x & Hr & H). exists ab, st', p', x. split; [by eapply runs_same|done].
Qed.

Lemma outcome_done {A} st p (x : A) (f : bool → D → P → A → Prop) : Inv st p → f false st p x → outcome [] st p (Some x) f.
Proof. intros Hi Hf. exists false, st, p, x. split; [constructor|done]. Qed.

Abbreviation ab_ret ab := (if ab : bool then BLOCK_ABORT else 0).

Lemma call_ok v st p n e : V v → Inv st p → 0 ≤ v_blk v < 2^32 →
  outcome [v] st p
    (call_func func fs (v_blk v) (v_count v) (v_ref v) (v_off v) (BlockContext n e (set_state ch st) p))
    (λ ab st' p' x, x = (ab_ret ab, v_blk v, BlockContext n e (set_state ch st') p')).
Proof.
  intros Hv Hi Hb. destruct (ro_call Hro v st p Hv Hi) as (ret & st' & p' & Hf & Hret). unfold call_func. cbn [bc_chan bc_priv bc_bcount bc_errcode].
  rewrite Hf. cbn [mbind option_bind]. rewrite u32_small //. destruct Hret as [[-> Hi'] | ->].
  - exists false, st', p'. eexists. split; [eapply runs_next; [exact Hf|done|constructor]|done].
  - exists true, st', p'. eexists. split; [by eapply runs_abort|done].
Qed.

Lemma set_same blk i : is_bytes (rd blk) → Z.of_nat (length (rd blk)) = fs_blocksize fs → 0 ≤ i < a →
  set_block_nr i (ptr rd blk i) (rd blk) = rd blk.
Proof.
  intros Hb Hl Hi. unfold set_block_nr, ptr, block_nr. apply set_get_le; [|done]. unfold in_buf, limit in *.
  rewrite Z.shiftr_div_pow2 // in Hi. change (2^2) with 4 in Hi. pose proof (Z.div_mod (fs_blocksize fs) 4 ltac:(done)). lia.
Qed.

Lemma limit_range : 256 ≤ a ≤ 16384.
Proof.
  unfold limit. rewrite Z.shiftr_div_pow2 //. change (2^2) with 4.
  split; [apply Z.div_le_lower_bound; lia|apply Z.div_le_upper_bound; lia].
Qed.

Lemma add_bcount_eq n m e (c : io_channel D) (p : P) : 0 ≤ m + n < 2^63 →
  add_bcount n (BlockContext m e c p) = BlockContext (m + n) e c p.
Proof. intros H. unfold add_bcount, set_bcount. cbn [bc_bcount bc_errcode bc_chan bc_priv]. rewrite s64_small //. lia. Qed.

Abbreviation span d := (span a d).
Abbreviation ptr blk i := (ptr rd blk i).

(** What processing a pointer at depth [d] does. *)
Definition tree_spec (d : nat) (f : Z → Z → Z → block_context D P → option (Z * Z * block_context D P)) : Prop :=
  ∀ blk base ref off st p, tree_ok d blk → blk ≠ 0 → Forall V (tree_visits rd a flags (given_offset rd) d blk base ref off) →
    0 ≤ base → base + span d < 2^62 → Inv st p →
    outcome (tree_visits rd a flags (given_offset rd) d blk base ref off) st p
      (f blk ref off (BlockContext base 0 (set_state ch st) p))
      (λ ab st' p' x, ∃ n, x = (ab_ret ab, blk, BlockContext n 0 (set_state ch st') p') ∧ (ab = false → n = base + span d)).

Lemma ind_loop_ok (k : nat) i blk base st p :
  (Z.of_nat k = a - i) → 0 ≤ i → tree_ok 1 blk → Forall V (visits_from rd a flags (given_offset rd) 0 blk base i) →
  0 ≤ base → base + span 1 < 2^62 → Inv st p →
  outcome (visits_from rd a flags (given_offset rd) 0 blk base i) st p
    (ind_loop func k fs flags blk i (4 * i) 0 (rd blk) (BlockContext (base + i) 0 (set_state ch st) p))
    (λ ab st' p' x, ∃ n, x = (ab_ret ab, ab_ret ab, rd blk, BlockContext n 0 (set_state ch st') p') ∧ (ab = false → n = base + span 1)).
Proof.
  intros Hk Hi Hok Hv Hb Hend Hg. pose proof limit_range as Ha. pose proof Hok as (_ & _ & _ & Hby & Hl & Hsub).
  assert (Hspan : span 1 = a) by (cbn; lia). rewrite Hspan in Hend |- *.
  revert i st p Hk Hi Hv Hg. induction k as [|k IH]; intros i st p Hk Hi Hv Hg.
  - assert (i = a) as -> by lia. rewrite visits_from_end. apply outcome_done; [done|]. by eexists.
  - rewrite visits_from_next in Hv |- *; [|lia]. cbn [ind_loop]. rewrite Hflags. cbn [negb andb].
    rewrite /block_nr -/(block_nr i (rd blk)) -/(ptr blk i).
    replace (4 * i + 4) with (4 * (i + 1)) by lia.
    destruct (bool_decide_reflect (ptr blk i = 0)) as [H0|H0]; cbn [app] in Hv |- *.
    + rewrite add_bcount_eq; [|lia]. rewrite -Z.add_assoc. apply IH; (done || lia).
    + cbn [tree_visits FileMap.span given_offset] in Hv |- *. rewrite Z.mul_1_r in Hv |- *. apply Forall_cons in Hv as [Hv0 Hv].
      eapply (outcome_bind [_]); [apply (call_ok (Visit (ptr blk i) (base + i) blk (4 * i)) st p); [done|done|]| |].
      * apply (Hsub i); [lia|done].
      * cbn. intros st' p' x ->. eexists. split; [reflexivity|]. rewrite set_same //; [|lia]. by eexists.
      * cbn. intros st' p' x Hg' ->. rewrite set_same //; [|lia]. change (flag 0 BLOCK_ABORT) with false. cbv iota.
        change (Z.lor 0 0) with 0.
        rewrite add_bcount_eq; [|lia]. rewrite -Z.add_assoc. apply IH; (done || lia).
Qed.

Lemma sub_loop_ok d child (k : nat) i blk base st p : tree_spec (S d) child →
  (Z.of_nat k = a - i) → 0 ≤ i → tree_ok (S (S d)) blk → Forall V (visits_from rd a flags (given_offset rd) (S d) blk base i) →
  0 ≤ base → base + span (S (S d)) < 2^62 → Inv st p →
  outcome (visits_from rd a flags (given_offset rd) (S d) blk base i) st p
    (sub_loop child (span (S d)) k flags blk i (given_offset rd (S d) blk i) 0 (rd blk) (BlockContext (base + i * span (S d)) 0 (set_state ch st) p))
    (λ ab st' p' x, ∃ n, x = (ab_ret ab, ab_ret ab, rd blk, BlockContext n 0 (set_state ch st') p') ∧
       (ab = false → n = base + span (S (S d)))).
Proof.
  intros Hchild Hk Hi Hok Hv Hb Hend Hg. pose proof limit_range as Ha. pose proof Hok as (_ & _ & _ & Hby & Hl & Hsub).
  assert (Hspan : span (S (S d)) = a * span (S d)) by done. rewrite Hspan in Hend |- *.
  pose proof (span_pos a (S d) ltac:(lia)) as Hs. set (s := span (S d)) in *.
  revert i st p Hk Hi Hv Hg. induction k as [|k IH]; intros i st p Hk Hi Hv Hg.
  - assert (i = a) as -> by lia. rewrite visits_from_end. apply outcome_done; [done|]. by eexists.
  - assert (His : i * s + s ≤ a * s) by (transitivity ((i + 1) * s); [lia|apply Z.mul_le_mono_nonneg_r; lia]).
    assert (Hnext : base + i * s + s = base + (i + 1) * s) by lia. assert (H0is : 0 ≤ i * s) by (apply Z.mul_nonneg_nonneg; lia).
    rewrite visits_from_next in Hv |- *; [|lia]. cbn [sub_loop]. rewrite Hflags. cbn [negb andb].
    rewrite -/(ptr blk i). pose proof (given_offset_next rd d blk i Hi) as Hoff.
    destruct (bool_decide_reflect (ptr blk i = 0)) as [H0|H0]; cbn [app] in Hv |- *.
    + rewrite add_bcount_eq; [|lia]. rewrite Hnext -Hoff. apply IH; (done || lia).
    + apply Forall_app in Hv as [Hv0 Hv]. eapply outcome_bind.
      * apply Hchild; [apply Hsub; [lia|done]|done|done|lia|fold s; lia|done].
      * cbn. intros st' p' x (n & -> & _). eexists. split; [reflexivity|]. cbn. rewrite set_same //; [|lia]. by eexists.
      * cbn. intros st' p' x Hg' (n & -> & Hn). specialize (Hn eq_refl). fold s in Hn. subst n.
        change (flag 0 (Z.lor BLOCK_ABORT BLOCK_ERROR)) with false. cbv iota. change (Z.lor 0 0) with 0.
        rewrite set_same //; [|lia]. rewrite Hnext -Hoff. apply IH; (done || lia).
Qed.

(** The part of [iterate_block] after the block was read. *)
Definition iterate_rest (body : Z → list Z → block_context D P → option (Z * Z * list Z * block_context D P)) (count : Z)
    (blk ref off : Z) (buf : list Z) (ctx : block_context D P) : option (Z * Z * block_context D P) :=
  '(r, changed, buf, ctx) ← body blk buf ctx;
  let ret := Z.lor 0 r in
  if ro_violation flags changed then let '(ret, ctx) := ro_result changed ctx in Some (ret, blk, ctx) else
  let '(ret, ctx) :=
    if flag changed BLOCK_CHANGED then
      let '(err, ch) := ext2fs_write_ind_block fs (bc_chan ctx) blk buf in
      (if bool_decide (err ≠ 0) then Z.lor ret (Z.lor BLOCK_ERROR BLOCK_ABORT) else ret, set_chan err ch ctx)
    else (ret, ctx) in
  '(ret, blk, ctx) ←
    (if flag flags BLOCK_FLAG_DEPTH_TRAVERSE && negb (flag flags BLOCK_FLAG_DATA_ONLY) && negb (flag ret BLOCK_ABORT)
     then '(r, blk, ctx) ← call_func func fs blk count ref off ctx; Some (Z.lor ret r, blk, ctx)
     else Some (ret, blk, ctx));
  if ro_violation flags ret then let '(ret, ctx) := ro_result ret ctx in Some (ret, blk, ctx) else
  Some (ret, blk, ctx).

Lemma no_violation r : flag r BLOCK_CHANGED = false → ro_violation flags r = false.
Proof. intros Hr. unfold ro_violation. by rewrite Hr andb_false_r. Qed.

(** What the loop over the pointers of a block has to do. *)
Definition body_spec (d : nat) (body : Z → list Z → block_context D P → option (Z * Z * list Z * block_context D P)) : Prop :=
  ∀ blk base st p, tree_ok (S d) blk → Forall V (visits_from rd a flags (given_offset rd) d blk base 0) → 0 ≤ base → base + span (S d) < 2^62 → Inv st p →
  outcome (visits_from rd a flags (given_offset rd) d blk base 0) st p (body blk (rd blk) (BlockContext base 0 (set_state ch st) p))
    (λ ab st' p' x, ∃ n, x = (ab_ret ab, ab_ret ab, rd blk, BlockContext n 0 (set_state ch st') p') ∧
       (ab = false → n = base + span (S d))).

Lemma iterate_rest_ok d body blk base ref off st p : body_spec d body →
  let v := Visit blk (kind (S d)) ref off in
  tree_ok (S d) blk → Forall V (visits_from rd a flags (given_offset rd) d blk base 0) → (after_ flags = true → V v) →
  0 ≤ base → base + span (S d) < 2^62 → Inv st p →
  outcome (visits_from rd a flags (given_offset rd) d blk base 0 ++ (if after_ flags then [v] else [])) st p
    (iterate_rest body (kind (S d)) blk ref off (rd blk) (BlockContext base 0 (set_state ch st) p))
    (λ ab st' p' x, ∃ n, x = (ab_ret ab, blk, BlockContext n 0 (set_state ch st') p') ∧ (ab = false → n = base + span (S d))).
Proof.
  intros Hbody v Hok Hv Hva Hb Hend Hi. unfold iterate_rest. fold (after_ flags). eapply outcome_bind; [by apply Hbody| |].
  - intros st' p' x (n & -> & _). cbv beta iota zeta. rewrite no_violation //. change (flag BLOCK_ABORT BLOCK_CHANGED) with false.
    cbv beta iota. change (Z.lor 0 BLOCK_ABORT) with BLOCK_ABORT. change (negb (flag BLOCK_ABORT BLOCK_ABORT)) with false.
    rewrite andb_false_r. cbn [mbind option_bind]. rewrite no_violation //. eexists. split; [reflexivity|]. by eexists.
  - intros st' p' x Hi' (n & -> & Hn). specialize (Hn eq_refl) as ->. cbv beta iota zeta. rewrite no_violation //.
    change (flag 0 BLOCK_CHANGED) with false. cbv beta iota. change (Z.lor 0 0) with 0. change (negb (flag 0 BLOCK_ABORT)) with true.
    rewrite andb_true_r. destruct (after_ flags) eqn:Haf.
    + destruct (call_ok v st' p' (base + span (S d)) 0 (Hva eq_refl) Hi') as (ab & st2 & p2 & x & Hr & Hi2 & Hcall & ->); [by apply Hok|].
      cbn [v v_blk v_count v_ref v_off] in Hcall. rewrite Hcall. cbn [mbind option_bind]. rewrite no_violation; [|by destruct ab].
      exists ab, st2, p2. eexists. do 2 (split; [done|]). split; [reflexivity|]. exists (base + span (S d)). split; [by destruct ab|done].
    + cbn [mbind option_bind]. rewrite no_violation //. apply outcome_done; [done|]. by eexists.
Qed.

Lemma iterate_block_ok d body skip bad : body_spec d body →
  tree_spec (S d) (iterate_block io_is_image func body (kind (S d)) skip bad fs flags).
Proof.
  intros Hbody blk base ref off st p Hok H0 Hv Hb Hend Hi. pose proof Hok as (H32 & Hmeta & Hrange & Hby & Hl & Hsub).
  set (v := Visit blk (kind (S d)) ref off).
  (* from the test of the block on *)
  assert (Hrest : ∀ st p, Inv st p → Forall V (visits_from rd a flags (given_offset rd) d blk base 0) → (after_ flags = true → V v) →
    outcome (visits_from rd a flags (given_offset rd) d blk base 0 ++ (if after_ flags then [v] else [])) st p
      (let ctx := BlockContext base 0 (set_state ch st) p in
       if ro_violation flags 0 then let '(ret, ctx) := ro_result 0 ctx in Some (ret, blk, ctx) else
       if bool_decide (blk = 0) || flag 0 BLOCK_ABORT then Some (0, blk, add_bcount skip ctx) else
       if bool_decide (ext2fs_blocks_count (fs_super fs) ≤ blk ∨ blk < s_first_data_block (fs_super fs))
       then Some (Z.lor 0 BLOCK_ERROR, blk, set_errcode bad ctx) else
       let '(err, buf, c) := ext2fs_read_ind_block io_is_image fs (bc_chan ctx) blk in
       let ctx := set_chan err c ctx in
       if bool_decide (err ≠ 0) then Some (Z.lor 0 BLOCK_ERROR, blk, ctx) else
       iterate_rest body (kind (S d)) blk ref off buf ctx)
      (λ ab st' p' x, ∃ n, x = (ab_ret ab, blk, BlockContext n 0 (set_state ch st') p') ∧ (ab = false → n = base + span (S d)))).
  { clear st p Hi Hv. intros st p Hi Hv Hva. cbv zeta. rewrite no_violation //. rewrite bool_decide_eq_false_2 //. change (flag 0 BLOCK_ABORT) with false.
    cbn [orb]. rewrite bool_decide_eq_false_2; [|lia]. unfold ext2fs_read_ind_block. rewrite Himage. cbn [andb bc_chan].
    destruct (works32_read content st blk H32) as (st1 & -> & Hsame). rewrite (bool_decide_eq_false_2 (0 ≠ 0)); [|tauto].
    rewrite (ro_meta Hro st p blk Hi Hmeta). apply (outcome_same _ st st1); [done|].
    apply iterate_rest_ok; (done || idtac). by eapply (ro_same Hro). }
  rewrite tree_visits_S in Hv |- *. apply Forall_app in Hv as [Hv1 Hv]. apply Forall_app in Hv as [Hv2 Hv3].
  assert (Hva : after_ flags = true → V v) by (intros Haf; rewrite Haf in Hv3; by apply Forall_cons in Hv3 as [? _]).
  unfold iterate_block. fold (before flags). destruct (before flags) eqn:Hbf.
  - apply Forall_cons in Hv1 as [Hvb _]. eapply outcome_bind; [by apply (call_ok v)| |].
    + intros st' p' x ->. cbv beta iota zeta. rewrite no_violation //. change (flag BLOCK_ABORT BLOCK_ABORT) with true.
      rewrite orb_true_r. eexists. split; [reflexivity|]. eexists. split; [reflexivity|done].
    + intros st' p' x Hi' ->. exact (Hrest st' p' Hi' Hv2 Hva).
  - exact (Hrest st p Hi Hv2 Hva).
Qed.

(** The three kinds of trees. *)
Lemma span_1 : span 1 = a.
Proof. apply Z.mul_1_r. Qed.
Lemma span_2 : span 2 = a * a.
Proof. change (span 2) with (a * span 1). by rewrite span_1. Qed.
Lemma s32_span_2 : s32 (a * a) = span 2.
Proof. pose proof limit_range. rewrite span_2. apply s32_small. nia. Qed.
Lemma span_bound d : (d ≤ 3)%nat → span d ≤ 2^42.
Proof.
  pose proof limit_range as Ha. intros Hd. destruct d as [|[|[|[|d]]]]; [done| | | |lia].
  - rewrite span_1. lia.
  - rewrite span_2. nia.
  - change (span 3) with (a * span 2). rewrite span_2. transitivity (16384 * (16384 * 16384)); [|done].
    apply Z.mul_le_mono_nonneg; [lia|lia|nia|nia].
Qed.

Lemma ind_spec : tree_spec 1 (block_iterate_ind io_is_image func fs flags).
Proof.
  apply (iterate_block_ok 0). intros blk base st p Hok Hv Hb Hend Hi. pose proof limit_range.
  pose proof (ind_loop_ok (Z.to_nat a) 0 blk base st p ltac:(lia) ltac:(done) Hok Hv Hb Hend Hi) as Hx.
  by rewrite Z.add_0_r in Hx.
Qed.

Lemma sub_spec d child skip n count bad : n = Z.to_nat a → skip = span (S d) → count = kind (S (S d)) → tree_spec (S d) child → ∀ s,
  tree_spec (S (S d)) (iterate_block io_is_image func (λ blk buf ctx, sub_loop child skip n flags blk 0 0 0 buf ctx) count s bad fs flags).
Proof.
  intros -> -> -> Hchild s. apply iterate_block_ok. intros blk base st p Hok Hv Hb Hend Hi. pose proof limit_range.
  pose proof (sub_loop_ok d child (Z.to_nat a) 0 blk base st p Hchild ltac:(lia) ltac:(done) Hok Hv Hb Hend Hi) as Hx.
  by rewrite Z.mul_0_l Z.add_0_r in Hx.
Qed.

Lemma dind_spec : tree_spec 2 (block_iterate_dind io_is_image func fs flags).
Proof. apply sub_spec; [done|by rewrite span_1|done|apply ind_spec]. Qed.

Lemma tind_spec : tree_spec 3 (block_iterate_tind io_is_image func fs flags).
Proof. apply sub_spec; [done|by rewrite s32_span_2|done|apply dind_spec]. Qed.

(** ** Files *)
Section file.
Context (inode : list Z) (Hinode : is_bytes inode) (Hilen : (128 ≤ length inode)%nat).

Lemma i_block_in i : 0 ≤ i < EXT2_N_BLOCKS → in_buf 4 (40 + 4 * i) inode.
Proof. intros Hi. change EXT2_N_BLOCKS with 15 in Hi. unfold in_buf. lia. Qed.

Lemma i_block_range i : 0 ≤ i_block i inode < 2^32.
Proof. by apply (get_le_range 4). Qed.

Lemma set_i_block_same i : 0 ≤ i < EXT2_N_BLOCKS → set_i_block i (i_block i inode) inode = inode.
Proof. intros Hi. apply set_get_le; [by apply i_block_in|done]. Qed.

Lemma direct_loop_ok (k : nat) i st p : Z.of_nat k = EXT2_NDIR_BLOCKS - i → 0 ≤ i → Forall V (direct_visits inode i (Z.of_nat k)) → Inv st p →
  outcome (direct_visits inode i (Z.of_nat k)) st p (direct_loop func k fs flags i 0 inode (BlockContext i 0 (set_state ch st) p))
    (λ ab st' p' x, ∃ n, x = (ab_ret ab, ab, inode, BlockContext n 0 (set_state ch st') p') ∧ (ab = false → n = EXT2_NDIR_BLOCKS)).
Proof.
  revert i st p. induction k as [|k IH]; intros i st p Hk Hi Hv HI; change EXT2_NDIR_BLOCKS with 12 in *.
  - apply outcome_done; [done|]. exists i. split; [done|]. lia.
  - assert (Hsplit : direct_visits inode i (Z.of_nat (S k)) =
      (if bool_decide (i_block i inode = 0) then [] else [Visit (i_block i inode) i 0 i]) ++ direct_visits inode (i + 1) (Z.of_nat k)).
    { unfold direct_visits. rewrite Nat2Z.inj_succ (seqZ_cons i); [|lia]. by rewrite Z.pred_succ. }
    rewrite Hsplit in Hv |- *. cbn [direct_loop]. rewrite Hflags orb_false_r.
    destruct (bool_decide_reflect (i_block i inode = 0)) as [H0|H0].
    + rewrite bool_decide_eq_false_2; [|tauto]. rewrite add_bcount_eq; [|lia]. apply IH; (done || lia).
    + rewrite bool_decide_eq_true_2 //. apply Forall_cons in Hv as [Hv0 Hv].
      assert (Hset : set_i_block i (i_block i inode) inode = inode) by (apply set_i_block_same; change EXT2_N_BLOCKS with 15; lia).
      eapply (outcome_bind [_]); [apply (call_ok (Visit (i_block i inode) i 0 i)); [done|done|apply i_block_range]| |].
      * cbn [v_blk]. intros st' p' x ->. cbv beta iota zeta. rewrite Hset. change (flag (Z.lor 0 BLOCK_ABORT) BLOCK_ABORT) with true. cbv iota.
        eexists. split; [reflexivity|]. by eexists.
      * cbn [v_blk]. intros st' p' x Hi' ->. cbv beta iota zeta. rewrite Hset. change (flag (Z.lor 0 0) BLOCK_ABORT) with false. cbv iota.
        rewrite add_bcount_eq; [|lia]. apply IH; (done || lia).
Qed.

Lemma iterate_tree_ok d tree skip i base st p : tree_spec d (tree fs flags) → 0 ≤ i < EXT2_N_BLOCKS → 0 ≤ skip < 2^62 →
  (i_block i inode ≠ 0 → tree_ok d (i_block i inode)) → Forall V (root_visits rd a flags (given_offset rd) d i base inode) →
  0 ≤ base → base + span d < 2^62 → Inv st p →
  outcome (root_visits rd a flags (given_offset rd) d i base inode) st p (iterate_tree tree skip i fs flags 0 inode (BlockContext base 0 (set_state ch st) p))
    (λ ab st' p' x, ∃ n, x = (ab_ret ab, ab, inode, BlockContext n 0 (set_state ch st') p') ∧ (ab = false → skip = span d → n = base + span d)).
Proof.
  intros Htree Hi Hskip Hok Hv Hb Hend HI. pose proof (span_pos a d ltac:(pose proof limit_range; lia)). unfold root_visits, iterate_tree in *. rewrite Hflags orb_false_r.
  destruct (bool_decide_reflect (i_block i inode = 0)) as [H0|H0].
  - rewrite bool_decide_eq_false_2; [|tauto]. rewrite add_bcount_eq; [|lia]. apply outcome_done; [done|].
    eexists. split; [reflexivity|]. by intros _ ->.
  - rewrite bool_decide_eq_true_2 //. rewrite -(app_nil_r (tree_visits _ _ _ _ _ _ _ _ _)).
    eapply outcome_bind; [apply (Htree (i_block i inode) base 0 i st p); auto| |].
    + intros st' p' x (n & -> & _). cbv beta iota zeta. rewrite set_i_block_same //. eexists. split; [reflexivity|]. by eexists.
    + intros st' p' x Hi' (n & -> & Hn). cbv beta iota zeta. rewrite set_i_block_same //. apply outcome_done; [done|].
      exists n. split; [done|auto].
Qed.

(** The trees of the inode lie in the file system. *)
Record file_ok : Prop := FileOk {
  fo_ind : i_block EXT2_IND_BLOCK inode ≠ 0 → tree_ok 1 (i_block EXT2_IND_BLOCK inode);
  fo_dind : i_block EXT2_DIND_BLOCK inode ≠ 0 → tree_ok 2 (i_block EXT2_DIND_BLOCK inode);
  fo_tind : i_block EXT2_TIND_BLOCK inode ≠ 0 → tree_ok 3 (i_block EXT2_TIND_BLOCK inode);
}.

Lemma iterate_pointers_ok st p : file_ok → Forall V (file_visits rd a flags (given_offset rd) inode) → Inv st p →
  outcome (file_visits rd a flags (given_offset rd) inode) st p (iterate_pointers io_is_image func fs flags 0 inode (BlockContext 0 0 (set_state ch st) p))
    (λ ab st' p' x, ∃ n, x = (ab_ret ab, inode, BlockContext n 0 (set_state ch st') p')).
Proof.
  intros [H1 H2 H3] Hv HI. pose proof limit_range as Ha. unfold file_visits in *.
  apply Forall_app in Hv as [Hv0 Hv]. apply Forall_app in Hv as [Hv1 Hv]. apply Forall_app in Hv as [Hv2 Hv3].
  pose proof (span_pos a 1 ltac:(lia)). pose proof (span_pos a 2 ltac:(lia)). pose proof (span_pos a 3 ltac:(lia)).
  pose proof (span_bound 1 ltac:(lia)). pose proof (span_bound 2 ltac:(lia)). pose proof (span_bound 3 ltac:(lia)).
  change EXT2_NDIR_BLOCKS with 12 in *.
  unfold iterate_pointers. eapply outcome_bind; [apply (direct_loop_ok 12 0 st p); done| |].
  { intros st1 p1 x (n & -> & _). cbv beta iota zeta. eexists. split; [reflexivity|]. by eexists. }
  intros st1 p1 x I1 (n & -> & Hn). specialize (Hn eq_refl) as ->. cbv beta iota zeta. rewrite no_violation //.
  change EXT2_NDIR_BLOCKS with 12.
  eapply outcome_bind; [apply (iterate_tree_ok 1); [apply ind_spec|done|lia|done|done|lia|lia|done]| |].
  { intros st2 p2 x (n & -> & _). cbv beta iota zeta. eexists. split; [reflexivity|]. by eexists. }
  intros st2 p2 x I2 (n & -> & Hn). specialize (Hn eq_refl (eq_sym span_1)) as ->. cbv beta iota zeta.
  eapply outcome_bind; [apply (iterate_tree_ok 2); [apply dind_spec|done|rewrite s32_span_2; lia|done|done|lia|lia|done]| |].
  { intros st3 p3 x (n & -> & _). cbv beta iota zeta. eexists. split; [reflexivity|]. by eexists. }
  intros st3 p3 x I3 (n & -> & Hn). specialize (Hn eq_refl s32_span_2) as ->. cbv beta iota zeta.
  rewrite -(app_nil_r (root_visits _ _ _ _ 3 _ _ _)).
  eapply outcome_bind; [apply (iterate_tree_ok 3); [apply tind_spec|done|lia|done|done|lia|lia|done]| |].
  { intros st4 p4 x (n & -> & _). cbv beta iota zeta. eexists. split; [reflexivity|]. by eexists. }
  intros st4 p4 x I4 (n & -> & _). cbv beta iota zeta. apply outcome_done; [done|]. by eexists.
Qed.
End file.
End exec.

(** ** [ext2fs_block_iterate3] *)
Section iterate3.
Context {D P : Type} (content : D → Z → list Z) (ch : io_channel D) `{!Works32 content ch} (io_is_image : bool).
Context (func : block_func D P).
Context (ext2fs_read_inode : ext2_filsys → Z → Z * list Z).
Context (ext2fs_write_inode : ext2_filsys → io_channel D → Z → list Z → Z * io_channel D).
Context (iterate_extents : block_func D P → ext2_filsys → Z → Z → list Z → Z → block_context D P → option (Z * bool * list Z * block_context D P)).
Context (fs : ext2_filsys) (ino flags : Z).

(** The iteration makes the calls [vs], for every function that works while an
    invariant holds and leaves the pointers and the indirect blocks [Meta], with
    the contents [rd], alone. *)
Definition iterates (Meta : Z → Prop) (rd : Z → list Z) (vs : list visit) : Prop :=
  ∀ (V : visit → Prop) (Inv : D → P → Prop), read_only content ch fs func Meta rd V Inv → Forall V vs →
    ∀ st p, Inv st p → ∃ ab st' p',
      ext2fs_block_iterate3 io_is_image func ext2fs_read_inode ext2fs_write_inode iterate_extents fs (set_state ch st) ino flags true p =
        Some (0, set_state ch st', p') ∧ runs content ch fs func vs st p ab st' p'.

(** A file whose blocks are mapped by pointers. *)
Record mapped_file (inode : list Z) : Prop := MappedFile {
  mf_read : ext2fs_read_inode fs ino = (0, inode);
  mf_bytes : is_bytes inode;
  mf_length : (128 ≤ length inode)%nat;
  mf_inline : flag (i_flags inode) EXT4_INLINE_DATA_FL = false;
  mf_extents : flag (i_flags inode) EXT4_EXTENTS_FL = false;
  mf_large : flag flags BLOCK_FLAG_NO_LARGE = false ∨ LINUX_S_ISDIR (i_mode inode) = true ∨ i_size_high inode = 0;
  mf_translator : s_creator_os (fs_super fs) ≠ EXT2_OS_HURD ∨ h_i_translator inode = 0;
}.

Lemma mapped_iterates Meta rd inode :
  fs_magic fs = EXT2_ET_MAGIC_EXT2FS_FILSYS → 1024 ≤ fs_blocksize fs ≤ 65536 → fs_blocksize fs mod 4 = 0 →
  flag flags BLOCK_FLAG_APPEND = false → flag (fs_flags fs) EXT2_FLAG_IMAGE_FILE = false →
  mapped_file inode → file_ok fs Meta rd inode →
  iterates Meta rd (file_visits rd (limit fs) flags (given_offset rd) inode).
Proof.
  intros Hmagic Hbs Hbs4 Hap Him [Hread Hby Hlen Hinl Hext Hlarge Htr] Hok.
  intros V Inv Hro Hv st p HI. unfold ext2fs_block_iterate3. rewrite Hmagic Hread Hinl.
  rewrite bool_decide_eq_false_2; [|tauto]. rewrite (bool_decide_eq_false_2 (0 ≠ 0)); [|tauto].
  assert (flag flags BLOCK_FLAG_NO_LARGE && negb (LINUX_S_ISDIR (i_mode inode)) && bool_decide (i_size_high inode ≠ 0) = false) as ->.
  { destruct Hlarge as [-> |[-> | ->]]; rewrite ?andb_false_r //. }
  cbn [negb]. unfold iterate_translator.
  assert (bool_decide (s_creator_os (fs_super fs) = EXT2_OS_HURD) && negb (flag flags BLOCK_FLAG_DATA_ONLY) &&
     bool_decide (h_i_translator inode ≠ 0) = false) as ->.
  { destruct Htr as [Ht|Ht]; [by rewrite bool_decide_eq_false_2|]. rewrite (bool_decide_eq_false_2 (_ ≠ 0)); [by rewrite andb_false_r|tauto]. }
  cbn [mbind option_bind negb andb]. rewrite Hext.
  destruct (iterate_pointers_ok content ch io_is_image fs flags func Hbs Hbs4 Hap Him Meta rd V Inv Hro inode Hby Hlen st p Hok Hv HI)
    as (ab & st' & p' & x & Hr & _ & -> & n & ->). cbn [mbind option_bind].
  assert (flag (if ab then BLOCK_ABORT else 0) BLOCK_CHANGED = false) as -> by by destruct ab.
  exists ab, st', p'. split; [by destruct ab|done].
Qed.

(** C8: For a file mapped by pointers whose indirect blocks lie in the file
    system, and flags that do not ask for appending, [ext2fs_block_iterate3]
    returns 0 after it called the function, until that aborts, on the blocks of
    the file: every mapped block of data once, in order, with its number in the
    file; and the indirect blocks before what they point to, with
    BLOCK_FLAG_DEPTH_TRAVERSE after it, with BLOCK_FLAG_DATA_ONLY not at all.
    Each call has the block that points to the block and, for a block of data
    and for what the inode points to, the place in it.  For an indirect block
    that another one points to the code gives four times the number of pointers
    before it that are not 0 ([given_offset]), which is the place when pointers
    that are 0 come last in the doubly and triply indirect blocks
    ([file_dense]) and too low when there is a gap. *)
Theorem block_iterate_correct Meta rd inode :
  fs_magic fs = EXT2_ET_MAGIC_EXT2FS_FILSYS → 1024 ≤ fs_blocksize fs ≤ 65536 → fs_blocksize fs mod 4 = 0 →
  flag flags BLOCK_FLAG_APPEND = false → flag (fs_flags fs) EXT2_FLAG_IMAGE_FILE = false →
  mapped_file inode → file_ok fs Meta rd inode →
  let vs := file_visits rd (limit fs) flags (given_offset rd) inode in
  let places := file_visits rd (limit fs) flags place inode in
  iterates Meta rd vs ∧ Forall2 same_call vs places ∧ (file_dense rd (limit fs) inode → vs = places) ∧
  data_of vs = mapped (file_block rd (limit fs) inode) 0 (file_span (limit fs)).
Proof.
  intros Hmagic Hbs Hbs4 Hap Him Hm Hok vs places. split; [by apply mapped_iterates|].
  destruct (file_same rd (limit fs) flags inode) as [Hsame Hdense]. split; [exact Hsame|]. split; [exact Hdense|].
  apply file_data. pose proof (limit_range fs flags Hbs). lia.
Qed.
End iterate3.

(** ** A file in memory *)

(** The file system of Blknum's examples, with a file: block 20, an indirect
    block 21 with the blocks 22 and 24, and a doubly indirect block 25 whose
    second pointer is an indirect block 26 of one block. *)
Definition demo_file_fs : ext2_filsys :=
  Filsys EXT2_ET_MAGIC_EXT2FS_FILSYS demo_super 1 1024 4 1 2 0 0 0 None (λ _, None).
Definition demo_inode : list Z :=
  set_i_block EXT2_DIND_BLOCK 25 (set_i_block EXT2_IND_BLOCK 21 (set_i_block 0 20 (replicate 128 0))).
Definition pointers (l : list (Z * Z)) : list Z := foldr (λ x, set_block_nr x.1 x.2) (replicate 1024 0) l.
Definition demo_file_device : mem_device := {[ 21 := pointers [(0, 22); (2, 24)]; 25 := pointers [(1, 26)]; 26 := pointers [(5, 28)] ]}.

(** A call-back that keeps the calls. *)
Definition record_calls : block_func mem_device (list visit) :=
  λ _ blk count ref off ch calls, Some (0, blk, ch, calls ++ [Visit blk count ref off]).

Definition demo_iterate (inode : list Z) (flags : Z) : option (Z * list visit) :=
  '(err, _, calls) ← ext2fs_block_iterate3 false record_calls (λ _ _, (0, inode)) (λ _ ch _ _, (0, ch)) (λ _ _ _ _ _ _ _, None)
     demo_file_fs (mem_channel 1024 demo_file_device) 12 flags true [];
  Some (err, calls).

(** Below the lowest depth [offset] is not advanced over the pointers that are
    skipped: the block 26 is the second pointer of block 25, at offset 4, but the
    call says 0. *)
Example ref_offset_of_skipped : demo_iterate demo_inode 0 =
  Some (0, [Visit 20 0 0 0; Visit 21 (-1) 0 12; Visit 22 12 21 0; Visit 24 14 21 8;
            Visit 25 (-2) 0 13; Visit 26 (-1) 25 0; Visit 28 (12 + 256 + 256 + 5) 26 20]).
Proof. by vm_compute. Qed.

(** An indirect block outside the file system is an error, but the one read
    after it sets the error back to 0, and the iteration returns success; the
    numbers of the blocks after it are wrong by the 256 that were not counted. *)
Example iterate_error_is_lost : demo_iterate (set_i_block EXT2_IND_BLOCK 100000 demo_inode) BLOCK_FLAG_DATA_ONLY =
  Some (0, [Visit 20 0 0 0; Visit 28 (12 + 256 + 5) 26 20]).
Proof. by vm_compute. Qed.

Definition demo_small_inode : list Z := set_i_block EXT2_IND_BLOCK 21 (set_i_block 0 20 (replicate 128 0)).
Abbreviation demo_rd := (mem_content 1024 demo_file_device).

Lemma demo_small_ok : file_ok demo_file_fs (λ x, x = 21) demo_rd demo_small_inode.
Proof.
  constructor.
  - intros _. assert (i_block EXT2_IND_BLOCK demo_small_inode = 21) as -> by by vm_compute.
    assert (is_bytes (demo_rd 21)) as Hb by (apply (bool_decide_unpack _); by vm_compute).
    split; [done|]. split; [done|]. split; [split; by vm_compute|]. split; [done|]. split; [by vm_compute|].
    intros i _ _. by apply (get_le_range 4).
  - intros H. exfalso. apply H. by vm_compute.
  - intros H. exfalso. apply H. by vm_compute.
Qed.

Lemma block_iterate_witness : ∃ st calls,
  ext2fs_block_iterate3 false record_calls (λ _ _, (0, demo_small_inode)) (λ _ ch _ _, (0, ch)) (λ _ _ _ _ _ _ _, None)
    demo_file_fs (set_state (mem_channel 1024 ∅) demo_file_device) 12 0 true [] = Some (0, set_state (mem_channel 1024 ∅) st, calls) ∧
  file_visits demo_rd (limit demo_file_fs) 0 (given_offset demo_rd) demo_small_inode =
    file_visits demo_rd (limit demo_file_fs) 0 place demo_small_inode ∧
  data_of (file_visits demo_rd (limit demo_file_fs) 0 (given_offset demo_rd) demo_small_inode) =
    mapped (file_block demo_rd (limit demo_file_fs) demo_small_inode) 0 (file_span (limit demo_file_fs)).
Proof.
  destruct (block_iterate_correct (mem_content 1024) (mem_channel 1024 ∅) false record_calls (λ _ _, (0, demo_small_inode)) (λ _ ch _ _, (0, ch))
    (λ _ _ _ _ _ _ _, None) demo_file_fs 12 0 (λ x, x = 21) demo_rd demo_small_inode) as (Hit & _ & Hdense & Hdata); [reflexivity|by split|reflexivity|reflexivity|reflexivity| | |].
  - constructor; [done|repeat apply set_le_bytes; by apply Forall_replicate|by apply Nat.leb_le; vm_compute|by vm_compute|by vm_compute|by left|].
    right. by vm_compute.
  - exact demo_small_ok.
  - assert (file_dense demo_rd (limit demo_file_fs) demo_small_inode) as Hd.
    { assert (∀ i, 0 ≤ i < 256 → ptr demo_rd 0 i = 0) as H0.
      { intros i Hi. assert (Forall (λ i, ptr demo_rd 0 i = 0) (seqZ 0 256)) as HF by (apply (bool_decide_unpack _); by vm_compute).
        rewrite Forall_forall in HF. apply HF, elem_of_seqZ. lia. }
      split; (split; [intros i j Hi Hj []; apply H0|intros i Hi []; by apply H0]);
        (change (limit demo_file_fs) with 256 in Hj; lia). }
    specialize (Hdense Hd). revert Hit Hdense Hdata. generalize (file_visits demo_rd (limit demo_file_fs) 0 (given_offset demo_rd) demo_small_inode). intros vs Hit Hdense Hdata.
    destruct (Hit (λ _, True) (λ st _, mem_content 1024 st 21 = demo_rd 21)) with (st := demo_file_device) (p := @nil visit)
      as (ab & st & calls & H & _); [|apply Forall_true; intros _; exact I|reflexivity|].
    + constructor; [by intros st p x Hs ->|by intros st st' p Hs <-|].
      intros v st p _ Hs. exists 0, st. eexists. split; [reflexivity|]. by left.
    + exists st, calls. exact (conj H (conj Hdense Hdata)).
Defined.
