(* ===== verification/Dirent.v ===== *)
(** * Dirent: directories (dir_iterate.c, dirblock.c, link.c, unlink.c, lookup.c, newdir.c)

    A block of a directory is a chain of entries: inode, length of the record,
    length and type of the name, name.  [ext2fs_process_dir_block] reads a block,
    calls a function on every entry, which may change the block, and writes it
    back if it did; linking, unlinking and lookup are such functions.

    A call-back gets the kind of the entry, its offset, the size of the block,
    the block and its private state, and returns its flags, the block and the
    state: [None] when it writes outside the block.  The blocks of a directory
    are gone over by [ext2fs_block_iterate3] of BlockIter.

    Arguments are: reading and writing an inode, the walk over its extents, the
    iteration of a directory kept in its inode, and insertion into hashed
    directories ([dx_link] and what it uses). *)
From S2P Require Import Prelude.
From S2P Require Import Bytes.
From S2P Require Import Super.
From S2P Require Import Crc.
From S2P Require Import Blknum.
From S2P Require Import Csum.
From S2P Require Import IoManager.
From S2P Require Import BlockIter.
#[local] Open Scope Z_scope.

Definition EXT2_ET_RO_FILSYS : Z := EXT2_ET_BASE + 21.
Definition EXT2_ET_DIR_NO_SPACE : Z := EXT2_ET_BASE + 38.
Definition EXT2_ET_BAD_INODE_NUM : Z := EXT2_ET_BASE + 41.
Definition EXT2_ET_CALLBACK_NOTHANDLED : Z := EXT2_ET_BASE + 65.
Definition EXT2_ET_NO_DIRECTORY : Z := EXT2_ET_BASE + 74.
Definition EXT2_ET_FILE_NOT_FOUND : Z := EXT2_ET_BASE + 76.
Definition EXT2_ET_DIR_CSUM_INVALID : Z := EXT2_ET_BASE + 150.

Definition EXT2_FLAG_RW : Z := 1.
Definition EXT2_INDEX_FL : Z := 0x1000.
Definition EXT2_FEATURE_INCOMPAT_FILETYPE : Z := 2.
Definition ext2fs_has_feature_filetype (sb : list Z) : bool :=
  bool_decide (Z.land (s_feature_incompat sb) EXT2_FEATURE_INCOMPAT_FILETYPE ≠ 0).

Definition BLOCK_INLINE_DATA_CHANGED : Z := 8.
Definition DIRENT_CHANGED : Z := 1.
Definition DIRENT_ABORT : Z := 2.
Definition DIRENT_FLAG_INCLUDE_EMPTY : Z := 1.
Definition DIRENT_FLAG_INCLUDE_REMOVED : Z := 2.
Definition DIRENT_FLAG_INCLUDE_CSUM : Z := 4.
Definition DIRENT_FLAG_INCLUDE_INLINE_DATA : Z := 8.
Definition DIRENT_DOT_FILE : Z := 1.
Definition DIRENT_OTHER_FILE : Z := 3.
Definition DIRENT_DELETED_FILE : Z := 4.
Definition DIRENT_CHECKSUM : Z := 5.
Definition EXT2FS_UNLINK_FORCE : Z := 1.
Definition EXT2_FT_DIR : Z := 2.

(** ** Entries

    The fields of [struct ext2_dir_entry] at [d]; [dirent_rec_len] and
    [dirent_name_len], the fields as they are stored, are in Csum. *)
Definition dirent_inode (d : Z) (buf : list Z) : Z := get32 d buf.
Definition set_dirent_inode (d v : Z) (buf : list Z) : list Z := set32 d v buf.
Definition set_dirent_rec_len (d v : Z) (buf : list Z) : list Z := set16 (d + 4) v buf.

Definition ext2fs_dirent_name_len (d : Z) (buf : list Z) : Z := Z.land (dirent_name_len d buf) 0xff.
Definition ext2fs_dirent_set_name_len (d len : Z) (buf : list Z) : list Z :=
  set16 (d + 6) (Z.lor (Z.land (dirent_name_len d buf) 0xff00) (Z.land len 0xff)) buf.
Definition ext2fs_dirent_file_type (d : Z) (buf : list Z) : Z := Z.shiftr (dirent_name_len d buf) 8.
Definition ext2fs_dirent_set_file_type (d type : Z) (buf : list Z) : list Z :=
  set16 (d + 6) (Z.lor (Z.land (dirent_name_len d buf) 0xff) (Z.shiftl type 8)) buf.

(** The name and what follows it. *)
Definition dirent_name (d : Z) (buf : list Z) : list Z := drop (Z.to_nat (d + 8)) buf.

(** [ext2fs_dir_rec_len(name_len, 0)], whose first parameter is a byte. *)
Definition EXT2_DIR_REC_LEN (name_len : Z) : Z := Z.land (u8 name_len + 8 + 3) (Z.lnot 3).

Definition EXT4_MAX_REC_LEN : Z := 2^16 - 1.

(** It always returns 0. *)
Definition ext2fs_get_rec_len (fs : ext2_filsys) (d : Z) (buf : list Z) : Z :=
  let len := dirent_rec_len d buf in
  if bool_decide (fs_blocksize fs < 65536) then len
  else if bool_decide (len = EXT4_MAX_REC_LEN ∨ len = 0) then fs_blocksize fs
  else Z.lor (Z.land len 65532) (Z.shiftl (Z.land len 3) 16).

Definition ext2fs_set_rec_len (fs : ext2_filsys) (len d : Z) (buf : list Z) : Z * list Z :=
  if bool_decide (fs_blocksize fs < len ∨ 2^18 < fs_blocksize fs ∨ Z.land len 3 ≠ 0)
  then (errno EINVAL, buf)
  else if bool_decide (len < 65536) then (0, set_dirent_rec_len d len buf)
  else if bool_decide (len = fs_blocksize fs)
  then (0, set_dirent_rec_len d (if bool_decide (fs_blocksize fs = 65536) then EXT4_MAX_REC_LEN else 0) buf)
  else (0, set_dirent_rec_len d (Z.lor (Z.land len 65532) (Z.land (Z.shiftr len 16) 3)) buf).

(** [EXT2_DIRENT_TAIL(block, blocksize)] *)
Definition EXT2_DIRENT_TAIL (blocksize : Z) : Z := blocksize - sizeof_dirent_tail.

Definition ext2fs_initialize_dirent_tail (fs : ext2_filsys) (t : Z) (buf : list Z) : list Z :=
  let buf := set_le 12 t 0 buf in
  let buf := (ext2fs_set_rec_len fs sizeof_dirent_tail t buf).2 in
  set16 (t + 6) EXT2_DIR_NAME_LEN_CSUM buf.

(** The room a checksum takes at the end of a block. *)
Definition dir_csum_size (fs : ext2_filsys) : Z :=
  if ext2fs_has_feature_metadata_csum (fs_super fs) then sizeof_dirent_tail else 0.

Definition DIRENT_MIN_LENGTH : Z := 12.

Fixpoint ext2fs_validate_entry (fuel : nat) (fs : ext2_filsys) (buf : list Z) (offset final_offset : Z) : bool :=
  match fuel with
  | O => false
  | S fuel =>
      if bool_decide (offset < final_offset ∧ offset ≤ u32 (fs_blocksize fs - DIRENT_MIN_LENGTH)) then
        let rec_len := ext2fs_get_rec_len fs offset buf in
        if bool_decide (rec_len < 8 ∨ rec_len mod 4 ≠ 0 ∨ rec_len < ext2fs_dirent_name_len offset buf + 8) then false
        else ext2fs_validate_entry fuel fs buf (u32 (offset + rec_len)) final_offset
      else bool_decide (offset = final_offset)
  end.

(** [strncmp(s1, s2, n) == 0]; nothing after a NUL is looked at. *)
Fixpoint strncmp_eq (s1 s2 : list Z) (n : nat) : bool :=
  match n with
  | O => true
  | S n =>
      let a := hd 0 s1 in
      if bool_decide (a ≠ hd 0 s2) then false else
      if bool_decide (a = 0) then true else strncmp_eq (tl s1) (tl s2) n
  end.

(** ** Blocks *)
Section blocks.
Context {D : Type}.
Context (ext2fs_read_inode : ext2_filsys → Z → errcode * list Z).

Definition ext2fs_read_dir_block4 (fs : ext2_filsys) (ch : io_channel D) (block ino : Z) :
    Z * list Z * io_channel D :=
  let '(retval, buf, ch) := io_channel_read_blk64 ch block 1 in
  if bool_decide (retval ≠ 0) then (retval, buf, ch) else
  let corrupt := negb (flag (fs_flags fs) EXT2_FLAG_IGNORE_CSUM_ERRORS) &&
                 negb (ext2fs_dir_block_csum_verify ext2fs_read_inode fs ino buf) in
  (if corrupt then EXT2_ET_DIR_CSUM_INVALID else 0, buf, ch).

Definition ext2fs_write_dir_block4 (fs : ext2_filsys) (ch : io_channel D) (block : Z) (buf : list Z) (ino : Z) :
    Z * io_channel D :=
  let '(retval, buf) := ext2fs_dir_block_csum_set ext2fs_read_inode fs ino buf in
  if bool_decide (retval ≠ E_OK) then (errno retval, ch) else
  io_channel_write_blk64 ch block 1 buf.

(** The other versions of the two functions. *)
Definition ext2fs_read_dir_block3 fs ch block : Z * list Z * io_channel D := ext2fs_read_dir_block4 fs ch block 0.
Definition ext2fs_read_dir_block2 fs ch block : Z * list Z * io_channel D := ext2fs_read_dir_block3 fs ch block.
Definition ext2fs_read_dir_block fs ch block : Z * list Z * io_channel D := ext2fs_read_dir_block3 fs ch block.
Definition ext2fs_write_dir_block3 fs ch block buf : Z * io_channel D := ext2fs_write_dir_block4 fs ch block buf 0.
Definition ext2fs_write_dir_block2 fs ch block buf : Z * io_channel D := ext2fs_write_dir_block3 fs ch block buf.
Definition ext2fs_write_dir_block fs ch block buf : Z * io_channel D := ext2fs_write_dir_block3 fs ch block buf.

(** ** Going over the entries of a block *)
Section iterate.
Context {P : Type}.

(** [struct dir_context] *)
Record dir_context := DirContext {
  ctx_dir : Z;
  ctx_flags : Z;
  ctx_buf : list Z;
  ctx_buflen : Z;
  ctx_priv : P;
  ctx_errcode : Z;
}.

Context (func : Z → Z → Z → list Z → P → option (Z * list Z * P)).

(** The variables of the loop. *)
Record dir_scan := DirScan {
  sc_offset : Z;
  sc_next_real_entry : Z;
  sc_entry : Z;
  sc_changed : bool;
  sc_buf : list Z;
  sc_priv : P;
}.

Inductive scan_result :=
  | ScanNext (s : dir_scan)
  | ScanDone (do_abort : bool) (s : dir_scan)
  | ScanCorrupt (s : dir_scan).

(** [while (offset < final_offset && !ext2fs_validate_entry(...)) offset += 4;] *)
Fixpoint skip_invalid (fuel : nat) (fs : ext2_filsys) (buf : list Z) (offset final_offset : Z) : Z :=
  match fuel with
  | O => offset
  | S fuel =>
      if bool_decide (offset < final_offset) &&
         negb (ext2fs_validate_entry (Z.to_nat (fs_blocksize fs)) fs buf offset final_offset)
      then skip_invalid fuel fs buf (u32 (offset + 4)) final_offset
      else offset
  end.

(** The label [next]. *)
Definition dir_next (fs : ext2_filsys) (flags rec_len : Z) (s : dir_scan) : dir_scan :=
  let offset := sc_offset s in
  let next_real_entry := if bool_decide (sc_next_real_entry s = offset)
                         then u32 (sc_next_real_entry s + rec_len) else sc_next_real_entry s in
  let size := Z.land (ext2fs_dirent_name_len offset (sc_buf s) + 11) (Z.lnot 3) in
  let offset' :=
    if flag flags DIRENT_FLAG_INCLUDE_REMOVED && bool_decide (rec_len ≠ size) then
      let final_offset := u32 (offset + rec_len) in
      skip_invalid (Z.to_nat (fs_blocksize fs)) fs (sc_buf s) (u32 (offset + size)) final_offset
    else u32 (offset + rec_len) in
  DirScan offset' next_real_entry (sc_entry s) (sc_changed s) (sc_buf s) (sc_priv s).

(** The call of the function on an entry of the kind [entry]. *)
Definition dir_call (fs : ext2_filsys) (flags buflen rec_len entry : Z) (s : dir_scan) : option scan_result :=
  let offset := sc_offset s in
  let kind := if bool_decide (offset < sc_next_real_entry s) then DIRENT_DELETED_FILE else entry in
  '(ret, buf, priv) ← func kind offset buflen (sc_buf s) (sc_priv s);
  let entry := if bool_decide (entry < DIRENT_OTHER_FILE) then entry + 1 else entry in
  let rec_len := if flag ret DIRENT_CHANGED then ext2fs_get_rec_len fs offset buf else rec_len in
  let s := DirScan offset (sc_next_real_entry s) entry (sc_changed s || flag ret DIRENT_CHANGED) buf priv in
  Some (if flag ret DIRENT_ABORT then ScanDone true s else ScanNext (dir_next fs flags rec_len s)).

Definition dir_step (fs : ext2_filsys) (flags : Z) (inline_data : bool) (buflen csum_size : Z) (s : dir_scan) :
    option scan_result :=
  let offset := sc_offset s in
  let buf := sc_buf s in
  if bool_decide (offset < u32 (buflen - 8)) then
    let rec_len := ext2fs_get_rec_len fs offset buf in
    if bool_decide (buflen < u32 (offset + rec_len) ∨ rec_len < 8 ∨ rec_len mod 4 ≠ 0 ∨
                    rec_len < ext2fs_dirent_name_len offset buf + 8)
    then Some (ScanCorrupt s)
    else if bool_decide (dirent_inode offset buf = 0) then
      if negb inline_data && bool_decide (offset = u32 (buflen - csum_size) ∧ dirent_rec_len offset buf = csum_size ∧
                                          dirent_name_len offset buf = EXT2_DIR_NAME_LEN_CSUM)
      then if negb (flag flags DIRENT_FLAG_INCLUDE_CSUM) then Some (ScanNext (dir_next fs flags rec_len s))
           else dir_call fs flags buflen rec_len DIRENT_CHECKSUM s
      else if negb (flag flags DIRENT_FLAG_INCLUDE_EMPTY) then Some (ScanNext (dir_next fs flags rec_len s))
      else dir_call fs flags buflen rec_len (sc_entry s) s
    else dir_call fs flags buflen rec_len (sc_entry s) s
  else Some (ScanDone false s).

(** [None]: no fuel left, or a write outside the block. *)
Fixpoint dir_loop (fuel : nat) (fs : ext2_filsys) (flags : Z) (inline_data : bool) (buflen csum_size : Z)
    (s : dir_scan) : option scan_result :=
  match fuel with
  | O => None
  | S fuel =>
      r ← dir_step fs flags inline_data buflen csum_size s;
      match r with
      | ScanNext s => dir_loop fuel fs flags inline_data buflen csum_size s
      | _ => Some r
      end
  end.

Definition set_context (buf : list Z) (priv : P) (errcode : Z) (ctx : dir_context) : dir_context :=
  DirContext (ctx_dir ctx) (ctx_flags ctx) buf (ctx_buflen ctx) priv errcode.

(** A round takes 8 bytes of the block at least, unless the function shortens
    its entry to nothing. *)
Definition ext2fs_process_dir_block (fs : ext2_filsys) (ch : io_channel D) (blocknr blockcnt : Z)
    (ctx : dir_context) : option (Z * dir_context * io_channel D) :=
  if bool_decide (blockcnt < 0) then Some (0, ctx, ch) else
  let entry := if bool_decide (blockcnt ≠ 0) then DIRENT_OTHER_FILE else DIRENT_DOT_FILE in
  let inline_data := flag (ctx_flags ctx) DIRENT_FLAG_INCLUDE_INLINE_DATA in
  let '(err, buf, ch) := if inline_data then (ctx_errcode ctx, ctx_buf ctx, ch)
                         else ext2fs_read_dir_block4 fs ch blocknr (ctx_dir ctx) in
  let ctx := set_context buf (ctx_priv ctx) err ctx in
  if negb inline_data && bool_decide (err ≠ 0) then Some (BLOCK_ABORT, ctx, ch) else
  let buflen := if inline_data then ctx_buflen ctx else fs_blocksize fs in
  r ← dir_loop (Z.to_nat buflen) fs (ctx_flags ctx) inline_data buflen (dir_csum_size fs)
        (DirScan 0 0 entry false buf (ctx_priv ctx));
  match r with
  | ScanNext _ => None
  | ScanCorrupt s => Some (BLOCK_ABORT, set_context (sc_buf s) (sc_priv s) (errno EXT2_ET_DIR_CORRUPTED) ctx, ch)
  | ScanDone do_abort s =>
      let ctx := set_context (sc_buf s) (sc_priv s) (ctx_errcode ctx) ctx in
      let abort := if do_abort then BLOCK_ABORT else 0 in
      if negb (sc_changed s) then Some (abort, ctx, ch) else
      if inline_data then Some (Z.lor BLOCK_INLINE_DATA_CHANGED abort, ctx, ch) else
      let '(err, ch) := ext2fs_write_dir_block4 fs ch blocknr (sc_buf s) (ctx_dir ctx) in
      let ctx := set_context (sc_buf s) (sc_priv s) err ctx in
      if bool_decide (err ≠ 0) then Some (BLOCK_ABORT, ctx, ch) else Some (abort, ctx, ch)
  end.

(** The function given to [ext2fs_block_iterate3]. *)
Definition dir_block_func : block_func D dir_context :=
  λ fs blocknr blockcnt _ _ ch ctx,
    '(ret, ctx, ch) ← ext2fs_process_dir_block fs ch blocknr blockcnt ctx; Some (ret, blocknr, ch, ctx).

(** [fs->io] is the channel of an image; what inode.c, extent.c and inline_data.c
    do: writing an inode, the walk over its extents, and the iteration of a
    directory kept in its inode. *)
Context (io_is_image : bool).
Context (ext2fs_write_inode : ext2_filsys → io_channel D → Z → list Z → Z * io_channel D).
Context (iterate_extents : block_func D dir_context → ext2_filsys → Z → Z → list Z → Z → block_context D dir_context →
  option (Z * bool * list Z * block_context D dir_context)).
Context (ext2fs_inline_data_dir_iterate : ext2_filsys → Z → dir_context → option dir_context).
Context (check_directory : option (ext2_filsys → Z → Z)).

(** [ext2fs_read_inode], with its error as a number. *)
Definition read_inode (fs : ext2_filsys) (ino : Z) : Z * list Z :=
  let '(retval, inode) := ext2fs_read_inode fs ino in (errno retval, inode).

Definition ext2fs_check_directory (fs : ext2_filsys) (ino : Z) : Z :=
  if bool_decide (fs_magic fs ≠ EXT2_ET_MAGIC_EXT2FS_FILSYS) then errno EXT2_ET_MAGIC_EXT2FS_FILSYS else
  if bool_decide (s_inodes_count (fs_super fs) < ino) then EXT2_ET_BAD_INODE_NUM else
  let r := match check_directory with Some f => f fs ino | None => EXT2_ET_CALLBACK_NOTHANDLED end in
  if bool_decide (r ≠ EXT2_ET_CALLBACK_NOTHANDLED) then r else
  let '(retval, inode) := ext2fs_read_inode fs ino in
  if bool_decide (retval ≠ E_OK) then errno retval else
  if negb (LINUX_S_ISDIR (i_mode inode)) then EXT2_ET_NO_DIRECTORY else 0.

(** [mem_ok]: a buffer for a block, if none is given, could be allocated. *)
Definition ext2fs_dir_iterate2 (fs : ext2_filsys) (ch : io_channel D) (dir flags : Z) (mem_ok : bool) (priv : P) :
    option (Z * P * io_channel D) :=
  if bool_decide (fs_magic fs ≠ EXT2_ET_MAGIC_EXT2FS_FILSYS)
  then Some (errno EXT2_ET_MAGIC_EXT2FS_FILSYS, priv, ch) else
  let retval := ext2fs_check_directory fs dir in
  if bool_decide (retval ≠ 0) then Some (retval, priv, ch) else
  if negb mem_ok then Some (errno EXT2_ET_NO_MEMORY, priv, ch) else
  let ctx := DirContext dir flags [] 0 priv 0 in
  '(retval, ch, ctx) ← ext2fs_block_iterate3 io_is_image dir_block_func read_inode ext2fs_write_inode iterate_extents
     fs ch dir BLOCK_FLAG_READ_ONLY mem_ok ctx;
  if bool_decide (retval = EXT2_ET_INLINE_DATA_CANT_ITERATE) then
    ctx ← ext2fs_inline_data_dir_iterate fs dir ctx;
    Some (ctx_errcode ctx, ctx_priv ctx, ch)
  else if bool_decide (retval ≠ 0) then Some (retval, ctx_priv ctx, ch)
  else Some (ctx_errcode ctx, ctx_priv ctx, ch).
End iterate.
Arguments dir_context P : clear implicits.
Arguments dir_scan P : clear implicits.
Arguments scan_result P : clear implicits.

(** ** Linking *)

(** [struct link_struct] of link.c; the file system is the argument [fs]. *)
Record link_struct := LinkStruct {
  ls_name : list Z;
  ls_namelen : Z;
  ls_inode : Z;
  ls_flags : Z;
  ls_done : Z;
  ls_err : Z;
}.

Definition ls_fail (err : Z) (ls : link_struct) : link_struct :=
  LinkStruct (ls_name ls) (ls_namelen ls) (ls_inode ls) (ls_flags ls) (ls_done ls) err.
Definition ls_finish (ls : link_struct) : link_struct :=
  LinkStruct (ls_name ls) (ls_namelen ls) (ls_inode ls) (ls_flags ls) (ls_done ls + 1) (ls_err ls).

(** [strncpy(dirent->name, ls->name, ls->namelen)]: the name has no NUL. *)
Definition write_name (d : Z) (name : list Z) (buf : list Z) : option (list Z) :=
  let n := Z.to_nat (d + 8) in
  if bool_decide (n + length name ≤ length buf)%nat
  then Some (take n buf ++ name ++ drop (n + length name) buf) else None.

(** Absorb the next entry when it is not used: the flags of the call so far, the
    length of the record, and an error. *)
Definition absorb_next (fs : ext2_filsys) (offset blocksize : Z) (buf : list Z) : Z * Z * Z * list Z :=
  let curr_rec_len := ext2fs_get_rec_len fs offset buf in
  let next := offset + curr_rec_len in
  if bool_decide (next < blocksize - (8 + dir_csum_size fs) ∧ dirent_inode next buf = 0 ∧
                  next + dirent_rec_len next buf ≤ blocksize)
  then
    let curr_rec_len := curr_rec_len + dirent_rec_len next buf in
    let '(err, buf) := ext2fs_set_rec_len fs curr_rec_len offset buf in
    (DIRENT_CHANGED, curr_rec_len, err, buf)
  else (0, curr_rec_len, 0, buf).

(** The entry is used: make a free one of what it does not need. *)
Definition split_entry (fs : ext2_filsys) (offset ret curr_rec_len rec_len : Z) (buf : list Z) (ls : link_struct) :
    Z * list Z * link_struct :=
  let min_rec_len := EXT2_DIR_REC_LEN (ext2fs_dirent_name_len offset buf) in
  if bool_decide (curr_rec_len < min_rec_len + rec_len) then (ret, buf, ls) else
  let rec_len := curr_rec_len - min_rec_len in
  let '(err, buf) := ext2fs_set_rec_len fs min_rec_len offset buf in
  if bool_decide (err ≠ 0) then (DIRENT_ABORT, buf, ls_fail err ls) else
  let next := offset + dirent_rec_len offset buf in
  let buf := set_dirent_inode next 0 buf in
  let buf := ext2fs_dirent_set_name_len next 0 buf in
  let buf := ext2fs_dirent_set_file_type next 0 buf in
  let '(err, buf) := ext2fs_set_rec_len fs rec_len next buf in
  if bool_decide (err ≠ 0) then (DIRENT_ABORT, buf, ls_fail err ls) else
  (DIRENT_CHANGED, buf, ls).

Definition link_proc (fs : ext2_filsys) (entry offset blocksize : Z) (buf : list Z) (ls : link_struct) :
    option (Z * list Z * link_struct) :=
  if bool_decide (ls_done ls ≠ 0) then Some (DIRENT_ABORT, buf, ls) else
  let rec_len := EXT2_DIR_REC_LEN (ls_namelen ls) in
  let '(ret, curr_rec_len, err, buf) := absorb_next fs offset blocksize buf in
  let ls := ls_fail err ls in
  if bool_decide (err ≠ 0) then Some (DIRENT_ABORT, buf, ls) else
  if bool_decide (dirent_inode offset buf ≠ 0) then Some (split_entry fs offset ret curr_rec_len rec_len buf ls) else
  if bool_decide (curr_rec_len < rec_len) then Some (ret, buf, ls) else
  let buf := set_dirent_inode offset (ls_inode ls) buf in
  let buf := ext2fs_dirent_set_name_len offset (ls_namelen ls) buf in
  buf ← write_name offset (ls_name ls) buf;
  let buf := if ext2fs_has_feature_filetype (fs_super fs)
             then ext2fs_dirent_set_file_type offset (Z.land (ls_flags ls) 7) buf else buf in
  Some (Z.lor DIRENT_ABORT DIRENT_CHANGED, buf, ls_finish ls).

(** ** Unlinking *)

(** [struct link_struct] of unlink.c; [us_prev] is the offset of the entry. *)
Record unlink_struct := UnlinkStruct {
  us_name : option (list Z);
  us_namelen : Z;
  us_inode : Z;
  us_flags : Z;
  us_prev : Z;
  us_done : Z;
}.

Definition unlink_proc (entry offset blocksize : Z) (buf : list Z) (ls : unlink_struct) :
    option (Z * list Z * unlink_struct) :=
  let prev := us_prev ls in
  let ls := UnlinkStruct (us_name ls) (us_namelen ls) (us_inode ls) (us_flags ls) offset (us_done ls) in
  let other_name := match us_name ls with
    | Some name => bool_decide (ext2fs_dirent_name_len offset buf ≠ us_namelen ls) ||
                   negb (strncmp_eq name (dirent_name offset buf) (Z.to_nat (ext2fs_dirent_name_len offset buf)))
    | None => false
    end in
  if other_name then Some (0, buf, ls) else
  let other_inode :=
    if negb (flag (us_flags ls) EXT2FS_UNLINK_FORCE) && bool_decide (us_inode ls ≠ 0)
    then bool_decide (dirent_inode offset buf ≠ us_inode ls)
    else bool_decide (dirent_inode offset buf = 0) in
  if other_inode then Some (0, buf, ls) else
  let buf := if bool_decide (offset ≠ 0)
             then set_dirent_rec_len prev (u16 (dirent_rec_len prev buf + dirent_rec_len offset buf)) buf
             else set_dirent_inode offset 0 buf in
  Some (Z.lor DIRENT_ABORT DIRENT_CHANGED, buf,
        UnlinkStruct (us_name ls) (us_namelen ls) (us_inode ls) (us_flags ls) offset (us_done ls + 1)).

(** ** Looking up *)
Record lookup_struct := LookupStruct {
  lk_name : list Z;
  lk_len : Z;
  lk_inode : Z;
  lk_found : Z;
}.

Definition lookup_proc (entry offset blocksize : Z) (buf : list Z) (ls : lookup_struct) :
    option (Z * list Z * lookup_struct) :=
  if bool_decide (lk_len ls ≠ ext2fs_dirent_name_len offset buf) then Some (0, buf, ls) else
  if negb (strncmp_eq (lk_name ls) (dirent_name offset buf) (Z.to_nat (ext2fs_dirent_name_len offset buf)))
  then Some (0, buf, ls) else
  Some (DIRENT_ABORT, buf, LookupStruct (lk_name ls) (lk_len ls) (dirent_inode offset buf) (lk_found ls + 1)).

(** ** The operations *)
Section operations.
Context (io_is_image : bool).
Context (ext2fs_write_inode : ext2_filsys → io_channel D → Z → list Z → Z * io_channel D).
Context (iterate_extents : ∀ P : Type, block_func D (dir_context P) → ext2_filsys → Z → Z → list Z → Z →
  block_context D (dir_context P) → option (Z * bool * list Z * block_context D (dir_context P))).
Context (ext2fs_inline_data_dir_iterate : ∀ P : Type, ext2_filsys → Z → dir_context P → option (dir_context P)).
Context (check_directory : option (ext2_filsys → Z → Z)).
Context (dx_link : ext2_filsys → io_channel D → Z → list Z → list Z → Z → Z → option (Z * io_channel D)).

(** The name is a C string, [None] is NULL: the bytes before its NUL. *)
Definition ext2fs_link (fs : ext2_filsys) (ch : io_channel D) (dir : Z) (name : option (list Z)) (ino flags : Z)
    (mem_ok : bool) : option (Z * io_channel D) :=
  if bool_decide (fs_magic fs ≠ EXT2_ET_MAGIC_EXT2FS_FILSYS) then Some (errno EXT2_ET_MAGIC_EXT2FS_FILSYS, ch) else
  if negb (flag (fs_flags fs) EXT2_FLAG_RW) then Some (EXT2_ET_RO_FILSYS, ch) else
  let '(retval, inode) := ext2fs_read_inode fs dir in
  if bool_decide (retval ≠ E_OK) then Some (errno retval, ch) else
  if flag (i_flags inode) EXT2_INDEX_FL then
    name ← name; dx_link fs ch dir inode name ino flags
  else
  let ls := LinkStruct (default [] name) (Z.of_nat (length (default [] name))) ino flags 0 0 in
  '(retval, ls, ch) ← ext2fs_dir_iterate2 (link_proc fs) io_is_image ext2fs_write_inode (iterate_extents link_struct)
     (ext2fs_inline_data_dir_iterate link_struct) check_directory fs ch dir DIRENT_FLAG_INCLUDE_EMPTY mem_ok ls;
  Some (if bool_decide (retval ≠ 0) then retval else if bool_decide (ls_err ls ≠ 0) then ls_err ls else
        if bool_decide (ls_done ls = 0) then EXT2_ET_DIR_NO_SPACE else 0, ch).

Definition ext2fs_unlink (fs : ext2_filsys) (ch : io_channel D) (dir : Z) (name : option (list Z)) (ino flags : Z)
    (mem_ok : bool) : option (Z * io_channel D) :=
  if bool_decide (fs_magic fs ≠ EXT2_ET_MAGIC_EXT2FS_FILSYS) then Some (errno EXT2_ET_MAGIC_EXT2FS_FILSYS, ch) else
  if bool_decide (name = None ∧ ino = 0) then Some (errno EXT2_ET_INVALID_ARGUMENT, ch) else
  if negb (flag (fs_flags fs) EXT2_FLAG_RW) then Some (EXT2_ET_RO_FILSYS, ch) else
  let ls := UnlinkStruct name (Z.of_nat (length (default [] name))) ino flags 0 0 in
  '(retval, ls, ch) ← ext2fs_dir_iterate2 unlink_proc io_is_image ext2fs_write_inode (iterate_extents unlink_struct)
     (ext2fs_inline_data_dir_iterate unlink_struct) check_directory fs ch dir DIRENT_FLAG_INCLUDE_EMPTY mem_ok ls;
  Some (if bool_decide (retval ≠ 0) then retval else
        if bool_decide (us_done ls ≠ 0) then 0 else EXT2_ET_DIR_NO_SPACE, ch).

(** With the inode that was found. *)
Definition ext2fs_lookup (fs : ext2_filsys) (ch : io_channel D) (dir : Z) (name : list Z) (namelen : Z) (mem_ok : bool)
    (inode : Z) : option (Z * Z * io_channel D) :=
  if bool_decide (fs_magic fs ≠ EXT2_ET_MAGIC_EXT2FS_FILSYS)
  then Some (errno EXT2_ET_MAGIC_EXT2FS_FILSYS, inode, ch) else
  '(retval, ls, ch) ← ext2fs_dir_iterate2 lookup_proc io_is_image ext2fs_write_inode (iterate_extents lookup_struct)
     (ext2fs_inline_data_dir_iterate lookup_struct) check_directory fs ch dir 0 mem_ok (LookupStruct name namelen inode 0);
  Some (if bool_decide (retval ≠ 0) then retval else
        if bool_decide (lk_found ls ≠ 0) then 0 else EXT2_ET_FILE_NOT_FOUND, lk_inode ls, ch).
End operations.
End blocks.
Arguments dir_context P : clear implicits.
Arguments dir_scan P : clear implicits.
Arguments scan_result P : clear implicits.

(** ** New blocks *)
Definition ext2fs_new_dir_block (fs : ext2_filsys) (dir_ino parent_ino : Z) (mem_ok : bool) : Z * list Z :=
  if bool_decide (fs_magic fs ≠ EXT2_ET_MAGIC_EXT2FS_FILSYS) then (errno EXT2_ET_MAGIC_EXT2FS_FILSYS, []) else
  if negb mem_ok then (errno EXT2_ET_NO_MEMORY, []) else
  let buf := replicate (Z.to_nat (fs_blocksize fs)) 0 in
  let csum_size := dir_csum_size fs in
  let '(retval, buf) := ext2fs_set_rec_len fs (u32 (fs_blocksize fs - csum_size)) 0 buf in
  if bool_decide (retval ≠ 0) then (retval, []) else
  let tail buf := if bool_decide (csum_size ≠ 0)
                  then ext2fs_initialize_dirent_tail fs (EXT2_DIRENT_TAIL (fs_blocksize fs)) buf else buf in
  if bool_decide (dir_ino = 0) then (0, tail buf) else
  let filetype := if ext2fs_has_feature_filetype (fs_super fs) then EXT2_FT_DIR else 0 in
  let buf := set_dirent_inode 0 dir_ino buf in
  let buf := ext2fs_dirent_set_name_len 0 1 buf in
  let buf := ext2fs_dirent_set_file_type 0 filetype buf in
  let buf := set8 8 46 buf in
  let rec_len := fs_blocksize fs - csum_size - EXT2_DIR_REC_LEN 1 in
  let buf := set_dirent_rec_len 0 (EXT2_DIR_REC_LEN 1) buf in
  let dir := dirent_rec_len 0 buf in
  let '(retval, buf) := ext2fs_set_rec_len fs (u32 rec_len) dir buf in
  if bool_decide (retval ≠ 0) then (retval, []) else
  let buf := set_dirent_inode dir parent_ino buf in
  let buf := ext2fs_dirent_set_name_len dir 2 buf in
  let buf := ext2fs_dirent_set_file_type dir filetype buf in
  let buf := set8 (dir + 9) 46 (set8 (dir + 8) 46 buf) in
  (0, tail buf).
