(* ===== verification/DirSpec.v ===== *)
(** * DirSpec: directory blocks as lists of entries

    [chain b hi lo l]: the entries of the block [b] between the offsets [lo] and
    [hi] begin at the offsets [l], each where the one before ends.  [live b l]
    is what they mean: the inode, the type and the name of those that are used.
    [dir_block_ok] is a block as directories have them, up to 32 KiB: a chain
    up to its end or up to the tail entry with the checksum. *)
From S2P Require Import Prelude.
From S2P Require Import Bytes.
From S2P Require Import Super.
From S2P Require Import Csum.
From S2P Require Import CsumProps.
From S2P Require Import IoManager.
From S2P Require Import BlockIter.
From S2P Require Import Dirent.
#[local] Open Scope Z_scope.

(** ** Buffers that agree *)
Definition agree (b b' : list Z) (lo hi : Z) : Prop := ∀ i : nat, lo ≤ Z.of_nat i < hi → b !! i = b' !! i.

Lemma agree_refl b lo hi : agree b b lo hi.
Proof. done. Qed.

Lemma agree_sym b b' lo hi : agree b b' lo hi → agree b' b lo hi.
Proof. intros H i Hi. by rewrite H. Qed.

Lemma agree_trans b b' b'' lo hi : agree b b' lo hi → agree b' b'' lo hi → agree b b'' lo hi.
Proof. intros H H' i Hi. by rewrite H // H'. Qed.

Lemma agree_sub b b' lo hi lo' hi' : agree b b' lo hi → lo ≤ lo' → hi' ≤ hi → agree b b' lo' hi'.
Proof. intros H ? ? i Hi. apply H. lia. Qed.

Lemma agree_set k off v b lo hi : in_buf k off b → hi ≤ off ∨ off + Z.of_nat k ≤ lo → agree b (set_le k off v b) lo hi.
Proof. intros Hin Ho i Hi. rewrite lookup_set_le_ne //. lia. Qed.

Lemma agree_get k off b b' lo hi : agree b b' lo hi → 0 ≤ lo ≤ off → off + Z.of_nat k ≤ hi → get_le k off b = get_le k off b'.
Proof. intros H ? ?. apply get_le_ext; [|lia]. intros i Hi. apply H. lia. Qed.

Lemma agree_slice b b' lo hi off n : agree b b' lo hi → 0 ≤ lo ≤ off → off + Z.of_nat n ≤ hi →
  take n (drop (Z.to_nat off) b) = take n (drop (Z.to_nat off) b').
Proof.
  intros H ? ?. apply list_eq. intros i. destruct (decide (i < n)%nat); [|by rewrite !lookup_take_ge; [done|lia|lia]].
  rewrite !lookup_take_lt // !lookup_drop. apply H. lia.
Qed.

(** ** Entries *)
Record dir_entry := DirEntry { de_inode : Z; de_type : Z; de_name : list Z }.

Definition entry_at (b : list Z) (off : Z) : dir_entry :=
  DirEntry (dirent_inode off b) (ext2fs_dirent_file_type off b)
    (take (Z.to_nat (ext2fs_dirent_name_len off b)) (dirent_name off b)).

Definition used (b : list Z) (off : Z) : Prop := dirent_inode off b ≠ 0.

#[export] Instance used_dec b off : Decision (used b off).
Proof. unfold used. apply _. Defined.

Definition live (b : list Z) (l : list Z) : list dir_entry := entry_at b <$> filter (used b) l.

(** The entry ends by [hi]; one that is used has a name. *)
Definition entry_ok (b : list Z) (hi off : Z) : Prop :=
  12 ≤ dirent_rec_len off b ∧ dirent_rec_len off b mod 4 = 0 ∧ off + dirent_rec_len off b ≤ hi ∧
  ext2fs_dirent_name_len off b + 8 ≤ dirent_rec_len off b ∧ (used b off → 1 ≤ ext2fs_dirent_name_len off b).

Inductive chain (b : list Z) (hi : Z) : Z → list Z → Prop :=
  | chain_nil : chain b hi hi []
  | chain_cons off l : entry_ok b hi off → chain b hi (off + dirent_rec_len off b) l → chain b hi off (off :: l).

Lemma chain_le b hi off l : chain b hi off l → off ≤ hi.
Proof. induction 1 as [|off l (?&?&?&?&?) _ IH]; lia. Qed.

Lemma chain_inv b hi off l : chain b hi off l → off < hi →
  ∃ l', l = off :: l' ∧ entry_ok b hi off ∧ chain b hi (off + dirent_rec_len off b) l'.
Proof. intros [] Hlt; [lia|]. eauto. Qed.

Lemma chain_end b hi l : chain b hi hi l → l = [].
Proof. inversion 1 as [|? ? (?&?&?&?&?)]; [done|subst; lia]. Qed.

Lemma name_len_range off b : is_bytes b → 0 ≤ ext2fs_dirent_name_len off b < 256.
Proof.
  intros Hb. unfold ext2fs_dirent_name_len. change 0xff with (Z.ones 8). rewrite Z.land_ones //.
  apply Z.mod_pos_bound. lia.
Qed.

(** An entry is what its bytes say. *)
Lemma agree_fields b b' off hi : agree b b' off hi → 0 ≤ off → off + 8 ≤ hi →
  dirent_inode off b = dirent_inode off b' ∧ dirent_rec_len off b = dirent_rec_len off b' ∧
  dirent_name_len off b = dirent_name_len off b'.
Proof.
  intros Ha Ho Hhi. unfold dirent_inode, dirent_rec_len, dirent_name_len.
  rewrite !(agree_get _ _ b b' off hi Ha); (done || lia).
Qed.

Lemma agree_entry b b' off hi : agree b b' off (off + dirent_rec_len off b) → 0 ≤ off → entry_ok b hi off →
  dirent_rec_len off b' = dirent_rec_len off b ∧ (used b' off ↔ used b off) ∧ entry_at b' off = entry_at b off ∧ entry_ok b' hi off.
Proof.
  intros Ha Ho (H12 & Hm & Hhi & Hn & Hu).
  destruct (agree_fields _ _ _ _ Ha Ho ltac:(lia)) as (Hi & Hr & Hl).
  assert (Hnl : ext2fs_dirent_name_len off b' = ext2fs_dirent_name_len off b) by (unfold ext2fs_dirent_name_len; by rewrite Hl).
  assert (Hused : used b' off ↔ used b off) by (unfold used; by rewrite Hi).
  split_and!; [done|done| |]; [|rewrite /entry_ok -Hr Hnl; tauto].
  unfold entry_at, ext2fs_dirent_file_type. rewrite -Hi -Hl Hnl. f_equal. unfold dirent_name. symmetry.
  destruct (decide (0 ≤ ext2fs_dirent_name_len off b)); [|by replace (Z.to_nat _) with 0%nat by lia].
  eapply agree_slice; [exact Ha|lia|lia].
Qed.

Lemma chain_agree b b' hi off l : chain b hi off l → agree b b' off hi → 0 ≤ off →
  chain b' hi off l ∧ live b' l = live b l.
Proof.
  intros Hc. induction Hc as [|off l He Hc IH]; intros Ha Ho; [split; [constructor|done]|].
  destruct (agree_entry b b' off hi) as (Hr & Hu & Hent & He'); [|done|done|].
  { destruct He as (?&?&?&?&?). eapply agree_sub; [exact Ha|lia|lia]. }
  destruct IH as [Hc' Hl]; [|destruct He; lia|].
  { destruct He as (?&?&?&?&?). eapply agree_sub; [exact Ha|lia|lia]. }
  split; [constructor; [done|by rewrite Hr]|].
  unfold live in *. rewrite !filter_cons. destruct (decide (used b off)), (decide (used b' off)); try tauto.
  rewrite !fmap_cons Hl. by rewrite Hent.
Qed.

Lemma entry_ok_mono b hi hi' off : entry_ok b hi off → hi ≤ hi' → entry_ok b hi' off.
Proof. intros (?&?&?&?&?) ?. split_and!; (done || lia). Qed.

Lemma chain_app b mid hi off l l' : chain b mid off l → chain b hi mid l' → chain b hi off (l ++ l').
Proof.
  intros H H'. pose proof (chain_le _ _ _ _ H') as Hle. induction H as [|off l He Hc IH]; [done|].
  cbn. constructor; [by eapply entry_ok_mono|done].
Qed.

Lemma live_app b l l' : live b (l ++ l') = live b l ++ live b l'.
Proof. unfold live. by rewrite filter_app fmap_app. Qed.

Lemma live_cons_used b off l : used b off → live b (off :: l) = entry_at b off :: live b l.
Proof. intros Hu. unfold live. by rewrite filter_cons_True. Qed.

Lemma live_cons_free b off l : ¬ used b off → live b (off :: l) = live b l.
Proof. intros Hu. unfold live. by rewrite filter_cons_False. Qed.

(** ** Blocks *)
Section blocks.
Context (fs : ext2_filsys).
Abbreviation bs := (fs_blocksize fs).
Abbreviation last := (fs_blocksize fs - dir_csum_size fs).

(** Records of blocks of 64 KiB have lengths in another form. *)
Definition dir_fs_ok : Prop := 1024 ≤ bs < 65536 ∧ bs mod 4 = 0.

Definition tail_ok (b : list Z) : Prop :=
  ext2fs_has_feature_metadata_csum (fs_super fs) = true →
  dirent_inode last b = 0 ∧ dirent_rec_len last b = 12 ∧ dirent_name_len last b = EXT2_DIR_NAME_LEN_CSUM.

Record dir_block_ok (b : list Z) (l : list Z) : Prop := DirBlockOk {
  db_bytes : is_bytes b;
  db_length : Z.of_nat (length b) = bs;
  db_chain : chain b last 0 l;
  db_tail : tail_ok b;
}.

Lemma dir_csum_size_cases : dir_csum_size fs = 0 ∧ ext2fs_has_feature_metadata_csum (fs_super fs) = false ∨
  dir_csum_size fs = 12 ∧ ext2fs_has_feature_metadata_csum (fs_super fs) = true.
Proof. unfold dir_csum_size, sizeof_dirent_tail. destruct (ext2fs_has_feature_metadata_csum _); auto. Qed.

Lemma tail_agree b b' : dir_fs_ok → tail_ok b → agree b b' last bs → tail_ok b'.
Proof.
  intros [Hbs _] Ht Ha Hm. destruct (Ht Hm) as (Hi & Hr & Hn). destruct dir_csum_size_cases as [[_ Hf]|[Hc _]]; [congruence|].
  destruct (agree_fields b b' last bs Ha) as (<- & <- & <-); [lia|lia|done].
Qed.

Lemma get_rec_len_eq b off : dir_fs_ok → ext2fs_get_rec_len fs off b = dirent_rec_len off b.
Proof. intros [Hbs _]. unfold ext2fs_get_rec_len. by rewrite bool_decide_eq_true_2; [|lia]. Qed.

(** The tail is found where the checksum code looks for it. *)
Lemma chain_walk b l off fuel : chain b last off l → 0 ≤ off → last - off < 8 * Z.of_nat fuel →
  dirent_walk fuel b last off = Some (E_OK, last).
Proof.
  intros Hc. revert fuel. induction Hc as [|off l (H12 & Hm & Hhi & _) Hc IH]; intros [|fuel] Ho Hf; try lia; cbn [dirent_walk].
  - by rewrite bool_decide_eq_false_2; [|lia].
  - rewrite bool_decide_eq_true_2; [|lia]. rewrite bool_decide_eq_false_2; [apply IH; lia|].
    change 3 with (Z.ones 2). rewrite Z.land_ones //. change (2 ^ 2) with 4. lia.
Qed.

Lemma dir_block_tail b l : dir_fs_ok → ext2fs_has_feature_metadata_csum (fs_super fs) = true → dir_block_ok b l →
  __get_dirent_tail fs b = (E_OK, last).
Proof.
  intros [Hbs _] Hm [Hby Hl Hc Ht]. destruct dir_csum_size_cases as [[_ Hf]|[Hcs _]]; [congruence|].
  destruct (Ht Hm) as (Hi & Hr & Hn). unfold __get_dirent_tail, sizeof_dirent_tail. rewrite bool_decide_eq_false_2; [|lia].
  rewrite Hcs in Hc Hi Hr Hn |- *. rewrite -Hcs. rewrite (chain_walk b l 0); [|by rewrite Hcs|done|lia].
  rewrite Hcs. rewrite bool_decide_eq_false_2; [|by intros []]. rewrite bool_decide_eq_false_2; [|lia].
  rewrite bool_decide_eq_false_2; [|by intros []]. rewrite bool_decide_eq_false_2; [done|].
  unfold dirent_inode in Hi. naive_solver.
Qed.
End blocks.
