(* ===== verification/DirProps.v ===== *)
(** * DirProps: what the operations on directories do

    [dir_loop_rule] is the rule for going over the entries of a block with any
    call-back: an invariant at every entry, which the call-back keeps.  Linking,
    unlinking and lookup are instances, and [process_ok] lifts them to blocks on
    the device and [iterate_ok] to directories, lists of blocks. *)
From S2P Require Import Prelude.
From S2P Require Import Bytes.
From S2P Require Import Super.
From S2P Require Import Crc.
From S2P Require Import Csum.
From S2P Require Import CsumProps.
From S2P Require Import IoManager.
From S2P Require Import BlockIter.
From S2P Require Import Dirent.
From S2P Require Import DirSpec.
#[local] Open Scope Z_scope.
#[local] Opaque crc32c.

(** ** Going over the entries *)
Section rule.
Context {P : Type} (func : Z → Z → Z → list Z → P → option (Z * list Z * P)).
Context (fs : ext2_filsys) (flags : Z) (Hfs : dir_fs_ok fs).
Context (Hremoved : flag flags DIRENT_FLAG_INCLUDE_REMOVED = false) (Hcsum : flag flags DIRENT_FLAG_INCLUDE_CSUM = false).
Abbreviation bs := (fs_blocksize fs).
Abbreviation last := (fs_blocksize fs - dir_csum_size fs).
Abbreviation empties := (flag flags DIRENT_FLAG_INCLUDE_EMPTY).

Lemma dir_step_end (s : dir_scan P) : sc_offset s = bs → dir_step func fs flags false bs (dir_csum_size fs) s = Some (ScanDone false s).
Proof. intros Ho. destruct Hfs as [Hbs _]. unfold dir_step. rewrite Ho bool_decide_eq_false_2 // u32_small; lia. Qed.

Lemma dir_next_eq rec_len (s : dir_scan P) : 0 ≤ sc_offset s + rec_len < 2^32 → ∃ nr,
  dir_next fs flags rec_len s = DirScan (sc_offset s + rec_len) nr (sc_entry s) (sc_changed s) (sc_buf s) (sc_priv s).
Proof. intros Hr. unfold dir_next. rewrite Hremoved. cbn [andb]. rewrite (u32_small (sc_offset s + rec_len)); [|lia]. by eexists. Qed.

Lemma dir_step_tail (s : dir_scan P) : sc_offset s = last → last < bs → tail_ok fs (sc_buf s) → is_bytes (sc_buf s) → ∃ nr,
  dir_step func fs flags false bs (dir_csum_size fs) s =
    Some (ScanNext (DirScan bs nr (sc_entry s) (sc_changed s) (sc_buf s) (sc_priv s))).
Proof.
  intros Ho Hlt Ht Hby. destruct Hfs as [Hbs _]. destruct (dir_csum_size_cases fs) as [[Hc _]|[Hc Hm]]; [lia|].
  destruct (Ht Hm) as (Hi & Hr & Hn). unfold dir_step. rewrite Ho.
  rewrite bool_decide_eq_true_2; [|rewrite u32_small; lia]. rewrite get_rec_len_eq // Hr.
  rewrite bool_decide_eq_false_2.
  2:{ unfold ext2fs_dirent_name_len. rewrite Hn. rewrite u32_small; [|lia]. change (Z.land EXT2_DIR_NAME_LEN_CSUM 0xff) with 0. change (12 mod 4) with 0. lia. }
  rewrite (bool_decide_eq_true_2 (dirent_inode last (sc_buf s) = 0)) //.
  rewrite (bool_decide_eq_true_2 (_ ∧ _ ∧ _)); [|rewrite u32_small; [|lia]; split_and!; [done|by rewrite Hc|done]].
  cbn [negb andb]. rewrite Hcsum. cbn [negb]. destruct (dir_next_eq 12 s) as [nr ->]; [lia|].
  exists nr. do 3 f_equal. lia.
Qed.

Lemma dir_step_entry (s : dir_scan P) hi l : sc_offset s < last → 0 ≤ sc_offset s → hi = last → is_bytes (sc_buf s) →
  chain (sc_buf s) hi (sc_offset s) l → ∃ rec_len,
  rec_len = dirent_rec_len (sc_offset s) (sc_buf s) ∧
  dir_step func fs flags false bs (dir_csum_size fs) s =
    if bool_decide (dirent_inode (sc_offset s) (sc_buf s) = 0) && negb empties
    then Some (ScanNext (dir_next fs flags rec_len s)) else dir_call func fs flags bs rec_len (sc_entry s) s.
Proof.
  intros Hlt Ho -> Hby Hc. eexists. split; [reflexivity|]. destruct Hfs as [Hbs _].
  destruct (chain_inv _ _ _ _ Hc Hlt) as (l' & -> & (H12 & Hm & Hhi & Hn & Hu) & _).
  assert (dir_csum_size fs ≤ 12) by (destruct (dir_csum_size_cases fs) as [[? _]|[? _]]; lia).
  assert (0 ≤ dir_csum_size fs) by (destruct (dir_csum_size_cases fs) as [[? _]|[? _]]; lia).
  unfold dir_step. rewrite bool_decide_eq_true_2; [|rewrite u32_small; lia]. rewrite get_rec_len_eq //.
  rewrite bool_decide_eq_false_2; [|rewrite u32_small; lia].
  destruct (bool_decide_reflect (dirent_inode (sc_offset s) (sc_buf s) = 0)); [|done].
  rewrite (bool_decide_eq_false_2 (_ ∧ _)); [|rewrite u32_small; lia]. cbn [negb andb]. by destruct empties.
Qed.

Context (I : Z → list Z → bool → P → Prop) (Q : bool → list Z → bool → P → Prop).
Hypothesis (I_ok : ∀ off b c p, I off b c p → 0 ≤ off ∧ is_bytes b ∧ tail_ok fs b ∧ ∃ l, chain b last off l).
Hypothesis (I_call : ∀ kind off b c p, I off b c p → off < last → used b off ∨ empties = true →
  ∃ ret b' p', func kind off bs b p = Some (ret, b', p') ∧
    (flag ret DIRENT_CHANGED = false → dirent_rec_len off b' = dirent_rec_len off b) ∧
    let c' := c || flag ret DIRENT_CHANGED in
    if flag ret DIRENT_ABORT then Q true b' c' p'
    else 8 ≤ dirent_rec_len off b' ∧ I (off + dirent_rec_len off b') b' c' p').
Hypothesis (I_skip : ∀ off b c p, empties = false → I off b c p → off < last → ¬ used b off → I (off + dirent_rec_len off b) b c p).
Hypothesis (I_end : ∀ b c p, I last b c p → Q false b c p).

Lemma call_case r entry s : I (sc_offset s) (sc_buf s) (sc_changed s) (sc_priv s) → sc_offset s < last →
  used (sc_buf s) (sc_offset s) ∨ empties = true → r = dirent_rec_len (sc_offset s) (sc_buf s) →
  ∃ res, dir_call func fs flags bs r entry s = Some res ∧
    match res with
    | ScanNext s' => I (sc_offset s') (sc_buf s') (sc_changed s') (sc_priv s') ∧ sc_offset s + 8 ≤ sc_offset s'
    | ScanDone ab s' => Q ab (sc_buf s') (sc_changed s') (sc_priv s')
    | ScanCorrupt _ => False
    end.
Proof.
  intros Hi Hlt Hu ->. destruct Hfs as [Hbs _]. destruct (I_ok _ _ _ _ Hi) as (Ho & _).
  unfold dir_call. set (kind := if bool_decide (sc_offset s < sc_next_real_entry s) then DIRENT_DELETED_FILE else entry).
  destruct (I_call kind _ _ _ _ Hi Hlt Hu) as (ret & b' & p' & -> & Hch & Hres). cbn [mbind option_bind].
  eexists. split; [reflexivity|]. rewrite get_rec_len_eq //. cbv zeta in Hres.
  assert ((if flag ret DIRENT_CHANGED then dirent_rec_len (sc_offset s) b' else dirent_rec_len (sc_offset s) (sc_buf s))
    = dirent_rec_len (sc_offset s) b') as -> by (destruct (flag ret DIRENT_CHANGED); [done|by rewrite Hch]).
  destruct (flag ret DIRENT_ABORT); [exact Hres|]. destruct Hres as [H8 Hres].
  destruct (I_ok _ _ _ _ Hres) as (_ & _ & _ & l' & Hc'). pose proof (chain_le _ _ _ _ Hc').
  destruct (dir_next_eq (dirent_rec_len (sc_offset s) b')
    (DirScan (sc_offset s) (sc_next_real_entry s) (if bool_decide (entry < DIRENT_OTHER_FILE) then entry + 1 else entry)
       (sc_changed s || flag ret DIRENT_CHANGED) b' p')) as [nr ->]; cbn [sc_offset] in *; [|split; [exact Hres|cbn; lia]].
  assert (0 ≤ dir_csum_size fs) by (destruct (dir_csum_size_cases fs) as [[? _]|[? _]]; lia). lia.
Qed.

Lemma dir_loop_rule fuel s : I (sc_offset s) (sc_buf s) (sc_changed s) (sc_priv s) →
  bs - sc_offset s < 8 * Z.of_nat fuel →
  ∃ ab s', dir_loop func fuel fs flags false bs (dir_csum_size fs) s = Some (ScanDone ab s') ∧
    Q ab (sc_buf s') (sc_changed s') (sc_priv s').
Proof.
  destruct Hfs as [Hbs _].
  assert (0 ≤ dir_csum_size fs ≤ 12) as Hcs by (destruct (dir_csum_size_cases fs) as [[? _]|[? _]]; lia).
  revert s. induction fuel as [|fuel IH]; intros s Hi Hf; destruct (I_ok _ _ _ _ Hi) as (Ho & Hby & Ht & l & Hc);
    pose proof (chain_le _ _ _ _ Hc) as Hle; [lia|]. cbn [dir_loop].
  assert (Hcase : ∀ r, r = dirent_rec_len (sc_offset s) (sc_buf s) → used (sc_buf s) (sc_offset s) ∨ empties = true →
    sc_offset s < last → ∃ ab s', (res ← dir_call func fs flags bs r (sc_entry s) s;
      match res with ScanNext s => dir_loop func fuel fs flags false bs (dir_csum_size fs) s | _ => Some res end) =
      Some (ScanDone ab s') ∧ Q ab (sc_buf s') (sc_changed s') (sc_priv s')).
  { intros r Hr Hu Hlt. destruct (call_case r (sc_entry s) s Hi Hlt Hu Hr) as (res & -> & Hres). cbn [mbind option_bind].
    destruct res as [s'|ab s'|s']; [|by exists ab, s'|done]. destruct Hres as [Hi' Ho']. apply IH; [done|lia]. }
  destruct (decide (sc_offset s < last)) as [Hlt|Hge].
  - destruct (dir_step_entry s last l Hlt Ho eq_refl Hby Hc) as (r & Hr & ->).
    destruct (chain_inv _ _ _ _ Hc Hlt) as (l' & -> & (H12 & Hm & Hhi & Hn & Hu) & _).
    destruct (bool_decide_reflect (dirent_inode (sc_offset s) (sc_buf s) = 0)) as [Hi0|Hi0]; [|by apply Hcase; auto].
    destruct empties eqn:He; cbn [negb andb]; [by apply Hcase; auto|]. cbn [mbind option_bind].
    destruct (dir_next_eq r s) as [nr ->]; [lia|]. apply IH; cbn [sc_offset sc_buf sc_changed sc_priv]; [|lia].
    rewrite Hr. apply I_skip; [done|done|done|]. unfold used. tauto.
  - assert (sc_offset s = last) as Hol by lia. rewrite Hol in Hi. specialize (I_end _ _ _ Hi).
    destruct (decide (last = bs)) as [Hlb|Hlb].
    + assert (sc_offset s = bs) as Hob by lia. rewrite (dir_step_end s Hob). exists false, s. by split.
    + destruct (dir_step_tail s Hol) as [nr ->]; [lia|done|done|]. cbn [mbind option_bind].
      destruct fuel as [|fuel]; [destruct (dir_csum_size_cases fs) as [[? _]|[? _]]; lia|]. cbn [dir_loop]. rewrite dir_step_end; [|done]. cbn [mbind option_bind].
      eexists _, _. split; [reflexivity|exact I_end].
Qed.
End rule.

(** ** Editing an entry *)
Lemma dir_rec_len_spec n : 0 ≤ n < 256 →
  n + 8 ≤ EXT2_DIR_REC_LEN n ≤ n + 11 ∧ EXT2_DIR_REC_LEN n mod 4 = 0.
Proof.
  intros Hn. unfold EXT2_DIR_REC_LEN. rewrite u8_small; [|lia]. rewrite -Z.ldiff_land.
  change (Z.ldiff (n + 8 + 3) 3) with (Z.ldiff (n + 8 + 3) (Z.ones 2)).
  rewrite Z.ldiff_ones_r; [|done]. rewrite Z.shiftl_mul_pow2; [|done]. rewrite Z.shiftr_div_pow2; [|done].
  change (2 ^ 2) with 4. rewrite Z_mod_mult. pose proof (Z.div_mod (n + 8 + 3) 4 ltac:(done)).
  pose proof (Z.mod_pos_bound (n + 8 + 3) 4 ltac:(done)). split; [|done]. lia.
Qed.

(** [b'] is [b] but for the bytes from [lo] to [hi]. *)
Record edited (b b' : list Z) (lo hi : Z) : Prop := Edited {
  ed_bytes : is_bytes b → is_bytes b';
  ed_length : length b' = length b;
  ed_agree x y : y ≤ lo ∨ hi ≤ x → agree b b' x y;
}.

Lemma edited_refl b lo hi : edited b b lo hi.
Proof. by constructor. Qed.

Lemma edited_trans b b' b'' lo hi : edited b b' lo hi → edited b' b'' lo hi → edited b b'' lo hi.
Proof.
  intros [H1 H2 H3] [H1' H2' H3']. constructor; [by auto|congruence|]. intros x y Hxy.
  eapply agree_trans; [by apply H3|by apply H3'].
Qed.

Lemma edited_wider b b' lo hi lo' hi' : edited b b' lo hi → lo' ≤ lo → hi ≤ hi' → edited b b' lo' hi'.
Proof. intros [H1 H2 H3] ? ?. constructor; [done..|]. intros x y Hxy. apply H3. lia. Qed.

Lemma edited_set k off v b lo hi : in_buf k off b → lo ≤ off → off + Z.of_nat k ≤ hi → edited b (set_le k off v b) lo hi.
Proof.
  intros Hin ? ?. constructor; [apply set_le_bytes|by apply length_set_le|]. intros x y Hxy. apply agree_set; [done|lia].
Qed.

Lemma in_buf_length k off b b' : length b' = length b → in_buf k off b → in_buf k off b'.
Proof. unfold in_buf. by intros ->. Qed.

(** Another record length. *)
Lemma set_rec_len_ok off v b : in_buf 8 off b → 0 ≤ v < 2^16 →
  let b' := set_dirent_rec_len off v b in
  edited b b' (off + 4) (off + 6) ∧ dirent_rec_len off b' = v ∧
  dirent_inode off b' = dirent_inode off b ∧ dirent_name_len off b' = dirent_name_len off b ∧
  entry_at b' off = entry_at b off.
Proof.
  intros Hin Hv b'. assert (Hin2 : in_buf 2 (off + 4) b) by (unfold in_buf in *; lia).
  assert (He : edited b b' (off + 4) (off + 6)) by (apply edited_set; [done|lia|lia]).
  assert (Hi : dirent_inode off b' = dirent_inode off b) by (apply get_set_le_ne; [done|unfold in_buf in *; lia|lia]).
  assert (Hn : dirent_name_len off b' = dirent_name_len off b) by (apply get_set_le_ne; [done|unfold in_buf in *; lia|lia]).
  split; [done|]. split; [unfold dirent_rec_len, b', set_dirent_rec_len; rewrite get_set_le //; by apply Z.mod_small|].
  split; [done|]. split; [done|]. unfold entry_at, ext2fs_dirent_file_type, ext2fs_dirent_name_len. rewrite Hi Hn. f_equal.
  unfold dirent_name. symmetry. eapply (agree_slice b b' (off + 8) (off + 8 + Z.of_nat (Z.to_nat (Z.land (dirent_name_len off b) 255)))); [apply (ed_agree _ _ _ _ He); lia|unfold in_buf in Hin; lia|lia].
Qed.

Lemma set_rec_len_call fs v off b : dir_fs_ok fs → 0 ≤ v ≤ fs_blocksize fs → v mod 4 = 0 →
  ext2fs_set_rec_len fs v off b = (0, set_dirent_rec_len off v b).
Proof.
  intros [Hbs _] Hv Hm. unfold ext2fs_set_rec_len. rewrite bool_decide_eq_false_2.
  - rewrite bool_decide_eq_true_2; [done|lia].
  - change 3 with (Z.ones 2). rewrite Z.land_ones //. change (2 ^ 2) with 4. lia.
Qed.

Section link.
Context (fs : ext2_filsys) (Hfs : dir_fs_ok fs).
Abbreviation bs := (fs_blocksize fs).
Abbreviation last := (fs_blocksize fs - dir_csum_size fs).

Lemma csum_size_bounds : 0 ≤ dir_csum_size fs ≤ 12.
Proof. destruct (dir_csum_size_cases fs) as [[? _]|[? _]]; lia. Qed.

(** The first entry of a chain, and the rest after an edit of the first one. *)
Lemma chain_edit b b' off l v l' : chain b last off l → 0 ≤ off → Z.of_nat (length b) = bs → is_bytes b →
  chain b last (off + v) l' → edited b b' off (off + v) → dirent_rec_len off b' = v → entry_ok b' last off →
  chain b' last off (off :: l') ∧ live b' l' = live b l'.
Proof.
  intros Hc Ho Hl Hb Hc' He Hr Hok. destruct (chain_agree b b' last (off + v) l' Hc') as [Hc'' Hlive].
  - apply (ed_agree _ _ _ _ He). lia.
  - destruct Hok. lia.
  - split; [constructor; [done|by rewrite Hr]|done].
Qed.

Lemma absorb_ok b off l : chain b last off (off :: l) → 0 ≤ off → Z.of_nat (length b) = bs → is_bytes b →
  ∃ ret b' l', absorb_next fs off bs b = (ret, dirent_rec_len off b', 0, b') ∧ chain b' last off (off :: l') ∧
    edited b b' off (off + 8) ∧ dirent_name_len off b' = dirent_name_len off b ∧ entry_at b' off = entry_at b off ∧ (used b' off ↔ used b off) ∧ live b' l' = live b l ∧
    (ret = 0 ∧ b' = b ∧ l' = l ∨
     ret = DIRENT_CHANGED ∧ ∃ next, l = next :: l' ∧ ¬ used b next ∧
       dirent_rec_len off b' = dirent_rec_len off b + dirent_rec_len next b).
Proof.
  intros Hc Ho Hl Hb. pose proof csum_size_bounds. pose proof Hfs as [Hbs _].
  inversion Hc as [|? ? Hok Hrest]; subst. destruct Hok as (H12 & Hm & Hhi & Hn & Hu).
  unfold absorb_next. rewrite get_rec_len_eq //. set (next := off + dirent_rec_len off b) in *.
  decide_case (next < bs - (8 + dir_csum_size fs) ∧ dirent_inode next b = 0 ∧ next + dirent_rec_len next b ≤ bs) as Hcond.
  2:{ exists 0, b, l. split; [done|]. split; [done|]. split; [apply edited_refl|]. split_and!; (done || lia || auto). }
  destruct Hcond as (Hlt & Hfree & _). destruct (chain_inv _ _ _ _ Hrest ltac:(lia)) as (l2 & -> & (H12' & Hm' & Hhi' & Hn' & _) & Hc2).
  set (v := dirent_rec_len off b + dirent_rec_len next b) in *.
  assert (v mod 4 = 0) as Hvm by (unfold v; rewrite Zplus_mod Hm Hm'; done).
  rewrite (set_rec_len_call fs v) //; [|lia].
  destruct (set_rec_len_ok off v b) as (He & Hr & Hi & Hnl & Hent); [unfold in_buf; lia|lia|].
  set (b' := set_dirent_rec_len off v b) in *. exists DIRENT_CHANGED, b', l2. rewrite Hr.
  assert (Hu' : used b' off ↔ used b off) by (unfold used; by rewrite Hi).
  destruct (chain_edit b b' off (off :: next :: l2) v l2 Hc Ho Hl Hb) as [Hc' Hlive].
  - by replace (off + v) with (next + dirent_rec_len next b) by lia.
  - eapply edited_wider; [exact He|lia|lia].
  - done.
  - unfold entry_ok. rewrite Hr Hu'. unfold ext2fs_dirent_name_len in *. rewrite Hnl. split_and!; (done || lia).
  - split; [done|]. split; [done|]. split; [eapply edited_wider; [exact He|lia|lia]|]. split; [done|]. split; [done|]. split; [done|].
    split; [rewrite Hlive live_cons_free; [done|unfold used; tauto]|]. right. split; [done|]. exists next.
    split; [done|]. split; [unfold used; tauto|done].
Qed.

(** The two bytes of the length and the type of a name. *)
Lemma land_255 x : Z.land x 255 = x mod 256.
Proof. change 255 with (Z.ones 8). by rewrite Z.land_ones. Qed.

Lemma set_name_len_bits x len : 0 ≤ x < 2^16 → 0 ≤ len < 256 →
  let y := Z.lor (Z.land x 0xff00) (Z.land len 0xff) in
  0 ≤ y < 2^16 ∧ Z.land y 0xff = len ∧ Z.shiftr y 8 = Z.shiftr x 8.
Proof.
  intros Hx Hl y. assert (Hlen : Z.land len 0xff = len) by (rewrite land_255 Z.mod_small //).
  unfold y. rewrite Hlen. split; [|split].
  - apply lor_range; [done|by apply land_range|lia].
  - rewrite Z.land_lor_distr_l -Z.land_assoc. change (Z.land 0xff00 0xff) with 0. by rewrite Z.land_0_r Z.lor_0_l.
  - rewrite Z.shiftr_lor Z.shiftr_land. change (Z.shiftr 0xff00 8) with 255. rewrite land_255.
    assert (Hs : Z.shiftr len 8 = 0) by (rewrite Z.shiftr_div_pow2 //; by apply Z.div_small).
    rewrite Hs Z.lor_0_r Z.mod_small //. rewrite Z.shiftr_div_pow2 //.
    split; [apply Z.div_pos; lia|]. apply Z.div_lt_upper_bound; lia.
Qed.

Lemma set_type_bits x ty : 0 ≤ ty < 256 →
  let y := Z.lor (Z.land x 0xff) (Z.shiftl ty 8) in
  0 ≤ y < 2^16 ∧ Z.land y 0xff = Z.land x 0xff ∧ Z.shiftr y 8 = ty.
Proof.
  intros Ht y. rewrite /y land_255. pose proof (Z.mod_pos_bound x 256 ltac:(done)) as Hm.
  assert (Hs : Z.shiftl ty 8 = ty * 256) by by rewrite Z.shiftl_mul_pow2.
  split; [|split].
  - apply lor_range; [done|lia|]. rewrite Hs. lia.
  - rewrite Z.land_lor_distr_l !land_255 Hs Z.mod_mul // Z.mod_mod // Z.lor_0_r. done.
  - rewrite Z.shiftr_lor Z.shiftr_shiftl_l //. rewrite Z.shiftl_0_r.
    assert (Hz : Z.shiftr (x mod 256) 8 = 0) by (rewrite Z.shiftr_div_pow2 //; by apply Z.div_small).
    by rewrite Hz Z.lor_0_l.
Qed.

Lemma field_range16 k off b : is_bytes b → k = 2%nat → 0 ≤ get_le k off b < 2^16.
Proof. intros Hb ->. apply (get_le_range 2 off b Hb). Qed.

(** A free entry of length [v] at [off]. *)
Lemma free_entry_ok off v b : in_buf 8 off b → is_bytes b → 0 ≤ v ≤ bs → v mod 4 = 0 → ∃ b',
  ext2fs_set_rec_len fs v off (ext2fs_dirent_set_file_type off 0 (ext2fs_dirent_set_name_len off 0 (set_dirent_inode off 0 b))) = (0, b') ∧
  edited b b' off (off + 8) ∧ dirent_inode off b' = 0 ∧ dirent_rec_len off b' = v ∧ dirent_name_len off b' = 0.
Proof.
  intros Hin Hb Hv Hm. pose proof Hfs as [Hbs _]. rewrite set_rec_len_call //. eexists. split; [reflexivity|].
  assert (Hfld : ∀ k o, off ≤ o → o + Z.of_nat k ≤ off + 8 → in_buf k o b) by (unfold in_buf in *; lia).
  set (b1 := set_dirent_inode off 0 b).
  assert (E1 : edited b b1 off (off + 8)) by (apply edited_set; [apply Hfld; lia|lia|lia]).
  set (b2 := ext2fs_dirent_set_name_len off 0 b1).
  assert (Hin2 : in_buf 2 (off + 6) b1) by (eapply in_buf_length; [apply (ed_length _ _ _ _ E1)|apply Hfld; lia]).
  assert (E2 : edited b1 b2 off (off + 8)) by (apply edited_set; [done|lia|lia]).
  set (b3 := ext2fs_dirent_set_file_type off 0 b2).
  assert (Hin3 : in_buf 2 (off + 6) b2) by (eapply in_buf_length; [apply (ed_length _ _ _ _ E2)|done]).
  assert (E3 : edited b2 b3 off (off + 8)) by (apply edited_set; [done|lia|lia]).
  assert (E03 : edited b b3 off (off + 8)) by (eapply edited_trans; [eapply edited_trans; [exact E1|exact E2]|exact E3]).
  assert (Hin8 : in_buf 8 off b3) by (eapply in_buf_length; [apply (ed_length _ _ _ _ E03)|done]).
  destruct (set_rec_len_ok off v b3 Hin8 ltac:(lia)) as (E4 & Hr & Hi & Hn & _).
  split; [eapply edited_trans; [exact E03|eapply edited_wider; [exact E4|lia|lia]]|].
  split; [|split; [exact Hr|]].
  - assert (I1 : dirent_inode off b1 = 0) by (unfold dirent_inode, b1, set_dirent_inode; rewrite (get_set_le 4); [done|apply Hfld; lia]).
    assert (I2 : dirent_inode off b2 = dirent_inode off b1) by (apply get_set_le_ne; [done|unfold in_buf in *; lia|lia]).
    assert (I3 : dirent_inode off b3 = dirent_inode off b2) by (apply get_set_le_ne; [done|unfold in_buf in *; lia|lia]).
    congruence.
  - assert (Hx : 0 ≤ Z.land (dirent_name_len off b1) 0xff00 < 2^16).
    { apply land_range; [done|]. apply field_range16; [|done]. by apply (ed_bytes _ _ _ _ E1). }
    assert (N2 : dirent_name_len off b2 = Z.land (dirent_name_len off b1) 0xff00).
    { unfold dirent_name_len at 1. unfold b2, ext2fs_dirent_set_name_len. rewrite (get_set_le 2); [|done].
      change (Z.land 0 0xff) with 0. rewrite Z.lor_0_r. by apply Z.mod_small. }
    assert (N3 : dirent_name_len off b3 = Z.land (dirent_name_len off b2) 0xff mod 2^16).
    { unfold dirent_name_len at 1. unfold b3, ext2fs_dirent_set_file_type. rewrite (get_set_le 2); [|done].
      change (Z.shiftl 0 8) with 0. by rewrite Z.lor_0_r. }
    rewrite Hn N3 N2 -Z.land_assoc. change (Z.land 0xff00 0xff) with 0. by rewrite Z.land_0_r.
Qed.

Lemma split_ok b off l ret need ls : chain b last off (off :: l) → 0 ≤ off → Z.of_nat (length b) = bs → is_bytes b →
  used b off → 12 ≤ need → need mod 4 = 0 →
  let min := EXT2_DIR_REC_LEN (ext2fs_dirent_name_len off b) in
  let curr := dirent_rec_len off b in
  split_entry fs off ret curr need b ls = (ret, b, ls) ∧ curr < min + need ∨
  ∃ b', split_entry fs off ret curr need b ls = (DIRENT_CHANGED, b', ls) ∧ min + need ≤ curr ∧
    chain b' last off (off :: off + min :: l) ∧ dirent_rec_len off b' = min ∧ edited b b' off last ∧
    entry_at b' off = entry_at b off ∧ used b' off ∧ ¬ used b' (off + min) ∧ live b' l = live b l ∧
    dirent_rec_len (off + min) b' = curr - min.
Proof.
  intros Hc Ho Hl Hb Hu Hneed Hneedm min curr. pose proof csum_size_bounds. pose proof Hfs as [Hbs _].
  inversion Hc as [|? ? Hok Hrest]; subst. destruct Hok as (H12 & Hm & Hhi & Hn & Hun). fold curr in H12, Hm, Hhi, Hn, Hrest.
  specialize (Hun Hu). pose proof (name_len_range off b Hb) as Hnr.
  destruct (dir_rec_len_spec _ Hnr) as [Hmin Hminm]. fold min in Hmin, Hminm.
  assert (12 ≤ min) as Hmin12 by (pose proof (Z.div_mod min 4 ltac:(done)); lia).
  unfold split_entry. fold min. decide_case (curr < min + need) as Hlt; [by left|right].
  rewrite (set_rec_len_call fs min) //; [|lia]. rewrite (bool_decide_eq_false_2 (0 ≠ 0)); [|by intros []].
  destruct (set_rec_len_ok off min b) as (E1 & Hr1 & Hi1 & Hn1 & Hent1); [unfold in_buf; lia|lia|].
  set (b1 := set_dirent_rec_len off min b) in *. rewrite Hr1.
  assert (Hb1 : is_bytes b1) by by apply (ed_bytes _ _ _ _ E1).
  assert (Hl1 : length b1 = length b) by apply (ed_length _ _ _ _ E1).
  destruct (free_entry_ok (off + min) (curr - min) b1) as (b2 & -> & E2 & Hi2 & Hr2 & Hn2);
    [unfold in_buf; lia|done|lia|by rewrite Zminus_mod Hm Hminm|].
  rewrite (bool_decide_eq_false_2 (0 ≠ 0)); [|by intros []]. exists b2. split; [done|]. split; [lia|].
  assert (E : edited b b2 off (off + min + 8)).
  { eapply edited_trans; [eapply edited_wider; [exact E1|lia|lia]|eapply edited_wider; [exact E2|lia|lia]]. }
  assert (Hok1 : entry_ok b1 last off).
  { unfold entry_ok, used. rewrite Hr1 Hi1. unfold ext2fs_dirent_name_len in *. rewrite Hn1. split_and!; try done; lia. }
  destruct (agree_entry b1 b2 off last) as (Hr & Hu2 & Hent & Hok2); [|done|done|].
  { rewrite Hr1. apply (ed_agree _ _ _ _ E2). lia. }
  destruct (chain_agree b b2 last (off + curr) l Hrest) as [Hc2 Hlive]; [apply (ed_agree _ _ _ _ E); lia|lia|].
  split_and!; [| | | | | |done|].
  - constructor; [done|]. rewrite Hr Hr1. constructor.
    + unfold entry_ok, used, ext2fs_dirent_name_len. rewrite Hr2 Hn2 Hi2. change (Z.land 0 255) with 0.
      split_and!; try lia. by rewrite Zminus_mod Hm Hminm.
    + rewrite Hr2. by replace (off + min + (curr - min)) with (off + curr) by lia.
  - by rewrite Hr.
  - eapply edited_wider; [exact E|lia|lia].
  - by rewrite Hent.
  - apply Hu2. unfold used. by rewrite Hi1.
  - unfold used. rewrite Hi2. by intros [].
  - exact Hr2.
Qed.

Lemma write_name_ok d name b : 0 ≤ d → d + 8 + Z.of_nat (length name) ≤ Z.of_nat (length b) → is_bytes name →
  ∃ b', write_name d name b = Some b' ∧ edited b b' (d + 8) (d + 8 + Z.of_nat (length name)) ∧
    take (length name) (dirent_name d b') = name.
Proof.
  intros Hd Hl Hn. unfold write_name. rewrite bool_decide_eq_true_2; [|lia]. eexists. split; [reflexivity|].
  set (n := Z.to_nat (d + 8)). assert (Htake : length (take n b) = n) by (rewrite length_take; lia). split; [constructor|].
  - intros Hb. unfold is_bytes. rewrite !Forall_app. split; [by apply Forall_take|]. split; [done|by apply Forall_drop].
  - rewrite !length_app length_take length_drop. lia.
  - intros x y Hxy i Hi. destruct (decide (i < n)%nat).
    + rewrite lookup_app_l; [|lia]. rewrite lookup_take_lt //.
    + rewrite lookup_app_r; [|lia]. rewrite Htake lookup_app_r; [|lia]. rewrite lookup_drop. f_equal. lia.
  - unfold dirent_name. fold n. rewrite -{1}Htake drop_app_length. apply take_app_length.
Qed.

Lemma fill_ok b off l name ino flags : chain b last off (off :: l) → 0 ≤ off → Z.of_nat (length b) = bs → is_bytes b →
  is_bytes name → (1 ≤ length name ≤ 255)%nat → 0 < ino < 2^32 →
  EXT2_DIR_REC_LEN (Z.of_nat (length name)) ≤ dirent_rec_len off b →
  ∃ b' ty, (b' ← write_name off name (ext2fs_dirent_set_name_len off (Z.of_nat (length name)) (set_dirent_inode off ino b));
       Some (if ext2fs_has_feature_filetype (fs_super fs)
             then ext2fs_dirent_set_file_type off (Z.land flags 7) b' else b')) = Some b' ∧
    chain b' last off (off :: l) ∧ edited b b' off last ∧ entry_at b' off = DirEntry ino ty name ∧
    used b' off ∧ live b' l = live b l ∧ (ext2fs_has_feature_filetype (fs_super fs) = true → ty = Z.land flags 7).
Proof.
  intros Hc Ho Hl Hb Hname Hlen Hino Hfit. pose proof csum_size_bounds. pose proof Hfs as [Hbs _].
  inversion Hc as [|? ? Hok Hrest]; subst. destruct Hok as (H12 & Hm & Hhi & Hn & Hun).
  set (len := Z.of_nat (length name)) in *. destruct (dir_rec_len_spec len) as [Hneed _]; [lia|].
  assert (Hlr : Z.land len 0xff = len) by (rewrite land_255 Z.mod_small; lia).
  set (b1 := set_dirent_inode off ino b).
  assert (E1 : edited b b1 off (off + 8)) by (apply edited_set; [unfold in_buf; lia|lia|lia]).
  assert (L1 : length b1 = length b) by apply (ed_length _ _ _ _ E1).
  assert (B1 : is_bytes b1) by by apply (ed_bytes _ _ _ _ E1).
  set (b2 := ext2fs_dirent_set_name_len off len b1).
  assert (Hin2 : in_buf 2 (off + 6) b1) by (unfold in_buf; lia).
  assert (E2 : edited b1 b2 off (off + 8)) by (apply edited_set; [done|lia|lia]).
  assert (L2 : length b2 = length b1) by apply (ed_length _ _ _ _ E2).
  destruct (set_name_len_bits (dirent_name_len off b1) len) as (Hy & Hy1 & Hy2); [exact (field_range16 2 (off + 6) b1 B1 eq_refl)|lia|].
  assert (N2 : dirent_name_len off b2 = Z.lor (Z.land (dirent_name_len off b1) 0xff00) (Z.land len 0xff)).
  { unfold dirent_name_len at 1. unfold b2, ext2fs_dirent_set_name_len. rewrite (get_set_le 2) //. by apply Z.mod_small. }
  assert (I1 : dirent_inode off b1 = ino).
  { unfold dirent_inode, b1, set_dirent_inode. rewrite (get_set_le 4); [|unfold in_buf; lia].
    apply Z.mod_small. change (256 ^ Z.of_nat 4) with (2^32). lia. }
  assert (I2 : dirent_inode off b2 = ino) by (rewrite -I1; apply get_set_le_ne; [done|lia|lia]).
  assert (R2 : dirent_rec_len off b2 = dirent_rec_len off b).
  { transitivity (dirent_rec_len off b1); apply get_set_le_ne; try (unfold in_buf; lia); lia. }
  destruct (write_name_ok off name b2) as (b3 & -> & E3 & Hnm3); [lia|lia|done|]. cbn [mbind option_bind].
  assert (L3 : length b3 = length b2) by apply (ed_length _ _ _ _ E3).
  assert (A23 : agree b2 b3 off (off + 8)) by (apply (ed_agree _ _ _ _ E3); lia).
  destruct (agree_fields b2 b3 off (off + 8) A23) as (I3 & R3 & N3); [lia|lia|].
  set (b4 := if ext2fs_has_feature_filetype (fs_super fs) then ext2fs_dirent_set_file_type off (Z.land flags 7) b3 else b3).
  assert (Hin4 : in_buf 2 (off + 6) b3) by (unfold in_buf; lia).
  assert (H7 : 0 ≤ Z.land flags 7 < 256).
  { change 7 with (Z.ones 3). rewrite Z.land_ones //. pose proof (Z.mod_pos_bound flags (2^3) ltac:(done)). lia. }
  destruct (set_type_bits (dirent_name_len off b3) (Z.land flags 7) H7) as (Hz & Hz1 & Hz2).
  assert (E4 : edited b3 b4 (off + 6) (off + 8)).
  { unfold b4. destruct (ext2fs_has_feature_filetype _); [|apply edited_refl]. apply edited_set; [done|lia|lia]. }
  assert (F4 : dirent_inode off b4 = ino ∧ dirent_rec_len off b4 = dirent_rec_len off b ∧
    ext2fs_dirent_name_len off b4 = len ∧
    (ext2fs_has_feature_filetype (fs_super fs) = true → ext2fs_dirent_file_type off b4 = Z.land flags 7)).
  { unfold b4, ext2fs_dirent_name_len, ext2fs_dirent_file_type. destruct (ext2fs_has_feature_filetype _).
    - assert (N4 : dirent_name_len off (ext2fs_dirent_set_file_type off (Z.land flags 7) b3) =
        Z.lor (Z.land (dirent_name_len off b3) 0xff) (Z.shiftl (Z.land flags 7) 8)).
      { unfold dirent_name_len at 1. unfold ext2fs_dirent_set_file_type. rewrite (get_set_le 2) //. by apply Z.mod_small. }
      rewrite N4 Hz1 Hz2 -N3 N2 Hy1. split; [|split; [|done]].
      + rewrite -I2 I3. apply get_set_le_ne; [done|lia|lia].
      + rewrite -R2 R3. apply get_set_le_ne; [done|lia|lia].
    - rewrite -I3 -R3 -N3 N2 Hy1. done. }
  destruct F4 as (I4 & R4 & N4 & T4).
  assert (E : edited b b4 off (off + dirent_rec_len off b)).
  { eapply edited_trans; [eapply edited_wider; [exact E1|lia|lia]|].
    eapply edited_trans; [eapply edited_wider; [exact E2|lia|lia]|].
    eapply edited_trans; [eapply edited_wider; [exact E3|lia|lia]|eapply edited_wider; [exact E4|lia|lia]]. }
  exists b4, (ext2fs_dirent_file_type off b4). split; [done|].
  destruct (chain_edit b b4 off (off :: l) (dirent_rec_len off b) l Hc Ho Hl Hb Hrest E R4) as [Hc' Hlive].
  { unfold entry_ok. rewrite R4 N4. split_and!; try done; lia. }
  split; [done|]. split; [eapply edited_wider; [exact E|lia|lia]|]. split; [|split; [|split; [done|exact T4]]].
  - unfold entry_at. rewrite I4 N4. f_equal. unfold len. rewrite Nat2Z.id -{2}Hnm3. unfold dirent_name.
    eapply (agree_slice b4 b3 (off + 8) (off + 8 + Z.of_nat (length name))); [apply agree_sym, (ed_agree _ _ _ _ E4); lia|lia|lia].
  - unfold used. rewrite I4. lia.
Qed.

(** Room for a record of length [need]. *)
Definition room (need : Z) (b : list Z) (off : Z) : Prop :=
  if bool_decide (used b off) then EXT2_DIR_REC_LEN (ext2fs_dirent_name_len off b) + need ≤ dirent_rec_len off b
  else need ≤ dirent_rec_len off b.

Lemma room_agree need b b' hi off l : chain b hi off l → agree b b' off hi → 0 ≤ off →
  Exists (room need b) l → Exists (room need b') l.
Proof.
  intros Hc. induction Hc as [|off l He Hc IH]; intros Ha Ho; [by intros ?%Exists_nil|].
  destruct He as (H12 & Hm & Hhi & Hn & Hu). pose proof (chain_le _ _ _ _ Hc).
  destruct (agree_fields b b' off hi Ha) as (Hi & Hr & Hl); [lia|lia|].
  rewrite !Exists_cons. intros [Hroom|Hl']; [left|right; apply IH; [eapply agree_sub; [exact Ha|lia|lia]|lia|done]].
  assert (Hu' : used b off ↔ used b' off) by (unfold used; by rewrite Hi).
  unfold room in *. rewrite -Hr. unfold ext2fs_dirent_name_len in *. rewrite -Hl.
  do 2 case_bool_decide; tauto.
Qed.

Lemma rec_len_fits b off : is_bytes b → entry_ok b last off →
  EXT2_DIR_REC_LEN (ext2fs_dirent_name_len off b) ≤ dirent_rec_len off b.
Proof.
  intros Hb (H12 & Hm & Hhi & Hn & Hu). destruct (dir_rec_len_spec _ (name_len_range off b Hb)) as [? Hm'].
  pose proof (Z.div_mod (dirent_rec_len off b) 4 ltac:(done)).
  pose proof (Z.div_mod (EXT2_DIR_REC_LEN (ext2fs_dirent_name_len off b)) 4 ltac:(done)). lia.
Qed.

Section link_one.
Context (name : list Z) (ino flags : Z).
Hypothesis (Hname : is_bytes name) (Hlen : (1 ≤ length name ≤ 255)%nat) (Hino : 0 < ino < 2^32).
Abbreviation ls0 := (LinkStruct name (Z.of_nat (length name)) ino flags 0 0).
Abbreviation need := (EXT2_DIR_REC_LEN (Z.of_nat (length name))).

(** The new entry. *)
Definition new_entry (e : dir_entry) : Prop :=
  de_inode e = ino ∧ de_name e = name ∧
  (ext2fs_has_feature_filetype (fs_super fs) = true → de_type e = Z.land flags 7).

Lemma link_proc_ok kind b off l : chain b last off (off :: l) → 0 ≤ off → Z.of_nat (length b) = bs → is_bytes b →
  ∃ ret b' ls', link_proc fs kind off bs b ls0 = Some (ret, b', ls') ∧ edited b b' off last ∧
    ((flag ret DIRENT_ABORT = false ∧ ls' = ls0 ∧ (flag ret DIRENT_CHANGED = false → b' = b) ∧
      entry_ok b' last off ∧ ∃ l1, chain b' last (off + dirent_rec_len off b') l1 ∧
        live b' (off :: l1) = live b (off :: l) ∧ (Exists (room need b) (off :: l) → Exists (room need b') l1)) ∨
     (flag ret DIRENT_ABORT = true ∧ flag ret DIRENT_CHANGED = true ∧ ls_done ls' = 1 ∧ ls_err ls' = 0 ∧
      ∃ l' e, chain b' last off (off :: l') ∧ new_entry e ∧
        live b' (off :: l') = e :: live b (off :: l))).
Proof.
  intros Hc Ho Hl Hb. pose proof csum_size_bounds. pose proof Hfs as [Hbs _].
  destruct (dir_rec_len_spec (Z.of_nat (length name))) as [Hneed Hneedm]; [lia|].
  assert (Hneed12 : 12 ≤ need) by (pose proof (Z.div_mod need 4 ltac:(done)); lia).
  assert (Hok0 : entry_ok b last off) by by inversion Hc.
  pose proof (rec_len_fits b off Hb Hok0) as Hfit0.
  destruct (absorb_ok b off l Hc Ho Hl Hb) as (ret & b1 & l1 & Habs & Hc1 & E1 & Hnl1 & Hent1 & Hu1 & Hlive1 & Hab).
  assert (Hl1 : Z.of_nat (length b1) = bs) by by rewrite (ed_length _ _ _ _ E1).
  assert (Hb1 : is_bytes b1) by by apply (ed_bytes _ _ _ _ E1).
  assert (Hok1 : entry_ok b1 last off) by by inversion Hc1.
  assert (Hlive1' : live b1 (off :: l1) = live b (off :: l)).
  { destruct (decide (used b off)) as [Hu|Hu].
    - rewrite (live_cons_used b) // (live_cons_used b1); [by rewrite Hent1 Hlive1|by apply Hu1].
    - rewrite (live_cons_free b) // (live_cons_free b1); [done|by rewrite Hu1]. }
  assert (Hret : flag ret DIRENT_ABORT = false) by (destruct Hab as [[-> _]|[-> _]]; done).
  assert (Hunch : flag ret DIRENT_CHANGED = false → b1 = b) by (destruct Hab as [(-> & -> & _)|(-> & _)]; done).
  unfold link_proc. cbn [ls_done ls_namelen ls_name ls_inode ls_flags]. rewrite (bool_decide_eq_false_2 (0 ≠ 0)); [|by intros []].
  rewrite Habs. cbv beta iota zeta. unfold ls_fail at 1 2. cbn [ls_name ls_namelen ls_inode ls_flags ls_done].
  rewrite (bool_decide_eq_false_2 (0 ≠ 0)); [|by intros []].
  (* no room here leaves the room in the rest *)
  assert (Hnone : (used b off → dirent_rec_len off b1 < EXT2_DIR_REC_LEN (ext2fs_dirent_name_len off b) + need) →
    (¬ used b off → dirent_rec_len off b1 < need) → Exists (room need b) (off :: l) → Exists (room need b1) l1).
  { intros Hn1 Hn2 Hex. assert (Hrest : Exists (room need b) l1).
    { destruct Hab as [(_ & -> & ->)|(_ & next & -> & Hfree & Hrec)].
      - apply Exists_cons in Hex as [Hroom|?]; [|done]. unfold room in Hroom. case_bool_decide as Hu; [specialize (Hn1 Hu)|specialize (Hn2 Hu)]; lia.
      - assert (Hr2 : 12 ≤ dirent_rec_len next b) by (inversion Hc as [|? ? _ Hc']; subst; inversion Hc' as [|? ? (?&_) _]; subst; done).
        destruct Hok0 as (H12 & _). rewrite !Exists_cons in Hex. destruct Hex as [Hroom|[Hroom|?]]; [| |done]; exfalso; unfold room in Hroom.
        + case_bool_decide as Hu; [specialize (Hn1 Hu)|specialize (Hn2 Hu)]; lia.
        + rewrite bool_decide_eq_false_2 // in Hroom. destruct (decide (used b off)) as [Hu|Hu]; [specialize (Hn1 Hu)|specialize (Hn2 Hu)]; lia. }
    destruct Hok0 as (H12 & _). destruct Hok1 as (H12' & _).
    assert (Hsub : chain b last (off + dirent_rec_len off b1) l1).
    { destruct Hab as [(_ & -> & ->)|(_ & next & -> & Hfree & Hrec)]; inversion Hc as [|? ? _ Hc']; subst; [done|].
      inversion Hc' as [|? ? _ Hc'']; subst. by rewrite Hrec Z.add_assoc. }
    eapply (room_agree need b b1); [exact Hsub|apply (ed_agree _ _ _ _ E1); lia|lia|done]. }
  assert (Hlast : off + 12 ≤ last) by (destruct Hok0 as (? & _ & ? & _); lia).
  assert (E1' : edited b b1 off last) by (eapply edited_wider; [exact E1|lia|lia]).
  assert (Hc1' : chain b1 last (off + dirent_rec_len off b1) l1) by by inversion Hc1.
  decide_case (dirent_inode off b1 ≠ 0) as Hused.
  - assert (Hub : used b off) by by apply Hu1.
    destruct (split_ok b1 off l1 ret need ls0 Hc1 Ho Hl1 Hb1 Hused Hneed12 Hneedm)
      as [[Hsp Hlt]|(b2 & Hsp & Hge & Hc2 & Hr2 & E2 & Hent2 & Hu2 & Hf2 & Hlive2 & Hrl2)].
    all: assert (Hnl : ext2fs_dirent_name_len off b1 = ext2fs_dirent_name_len off b) by (unfold ext2fs_dirent_name_len; by rewrite Hnl1).
    all: rewrite Hsp; eexists _, _, _; (split; [reflexivity|]).
    + split; [exact E1'|]. left. split; [exact Hret|]. split; [done|]. split; [exact Hunch|]. split; [done|].
      exists l1. split; [done|]. split; [exact Hlive1'|]. apply Hnone; [|done]. intros _. by rewrite -Hnl.
    + split; [eapply edited_trans; [exact E1'|exact E2]|]. left. split; [done|]. split; [done|]. split; [done|].
      set (min := EXT2_DIR_REC_LEN (ext2fs_dirent_name_len off b1)) in *.
      inversion Hc2 as [|? ? Hok2 Hc2']; subst. split; [done|]. exists (off + min :: l1). split; [done|]. split.
      * rewrite -Hlive1' (live_cons_used b2) // (live_cons_free b2) // (live_cons_used b1) //. by rewrite Hent2 Hlive2.
      * intros _. apply Exists_cons. left. unfold room. rewrite bool_decide_eq_false_2 // Hrl2. lia.
  - assert (Hub : ¬ used b off) by (rewrite -Hu1; unfold used; tauto).
    decide_case (dirent_rec_len off b1 < need) as Hshort.
    + eexists _, _, _. split; [reflexivity|]. split; [exact E1'|]. left. split; [exact Hret|]. split; [done|].
      split; [exact Hunch|]. split; [done|]. exists l1. split; [done|]. split; [exact Hlive1'|]. by apply Hnone.
    + destruct (fill_ok b1 off l1 name ino flags Hc1 Ho Hl1 Hb1 Hname Hlen Hino) as (b2 & ty & Hfill & Hc2 & E2 & Hent2 & Hu2 & Hlive2 & Hty); [lia|].
      destruct (write_name _ _ _) as [b3|]; [|done]. cbn [mbind option_bind] in Hfill |- *. injection Hfill as <-.
      eexists _, _, _. split; [reflexivity|]. split; [eapply edited_trans; [exact E1'|exact E2]|]. right.
      split; [done|]. split; [done|]. split; [done|]. split; [done|]. exists l1, (DirEntry ino ty name).
      split; [done|]. split; [done|]. rewrite live_cons_used // Hent2 Hlive2 live_cons_free // Hlive1 //.
Qed.
End link_one.
End link.
