(* ===== verification/DirOps.v ===== *)
(** * DirOps: linking, unlinking and looking up, by block and by directory

    [block_spec] is what a call-back does to a block: a relation between the
    block before, the private state, whether the iteration is aborted, the
    entries after and the new state.  [link_block], [unlink_block] and
    [lookup_block] are the specifications of the three call-backs;
    [process_ok] takes a specification to a block on a device, with its
    checksum, and [iterate_ok] to the blocks of a directory in order. *)
From S2P Require Import Prelude.
From S2P Require Import Bytes.
From S2P Require Import Super.
From S2P Require Import Crc.
From S2P Require Import Blknum.
From S2P Require Import Csum.
From S2P Require Import CsumProps.
From S2P Require Import IoManager.
From S2P Require Import BlockIter.
From S2P Require Import FileMap.
From S2P Require Import Dirent.
From S2P Require Import DirSpec.
From S2P Require Import DirProps.
#[local] Open Scope Z_scope.
#[local] Opaque crc32c.

Section blocks.
Context (fs : ext2_filsys) (Hfs : dir_fs_ok fs).
Abbreviation bs := (fs_blocksize fs).
Abbreviation last := (fs_blocksize fs - dir_csum_size fs).

(** What a call-back does to a block with entries at [l], when it starts with [p]. *)
Definition block_spec (P : Type) : Type := list Z → list Z → P → bool → list dir_entry → P → Prop.

Definition implements {P} (flags : Z) (func : Z → Z → Z → list Z → P → option (Z * list Z * P))
    (Pre : P → Prop) (R : block_spec P) : Prop :=
  ∀ kind b l p, dir_block_ok fs b l → Pre p →
    ∃ ab s l', dir_loop func (Z.to_nat bs) fs flags false bs (dir_csum_size fs) (DirScan 0 0 kind false b p) = Some (ScanDone ab s) ∧
      dir_block_ok fs (sc_buf s) l' ∧ R b l p ab (live (sc_buf s) l') (sc_priv s) ∧ (sc_changed s = false → sc_buf s = b).

(** The entries already passed stay as they are. *)
Lemma passed_agree b b' off pre : chain b off 0 pre → edited b b' off last → 0 ≤ off →
  chain b' off 0 pre ∧ live b' pre = live b pre.
Proof. intros Hc He Ho. apply (chain_agree b b'); [done|apply (ed_agree _ _ _ _ He); lia|lia]. Qed.

Lemma chain_snoc b off pre : chain b off 0 pre → 0 ≤ off → entry_ok b (off + dirent_rec_len off b) off →
  chain b (off + dirent_rec_len off b) 0 (pre ++ [off]).
Proof. intros Hc Ho He. eapply chain_app; [exact Hc|]. constructor; [done|constructor]. Qed.

Lemma entry_ok_self b hi off : entry_ok b hi off → entry_ok b (off + dirent_rec_len off b) off.
Proof. intros (?&?&?&?&?). split_and!; (done || lia). Qed.

(** ** Linking *)
Section link.
Context (name : list Z) (ino flags : Z).
Context (Hname : is_bytes name) (Hlen : (1 ≤ length name ≤ 255)%nat) (Hino : 0 < ino < 2^32).
Abbreviation ls0 := (LinkStruct name (Z.of_nat (length name)) ino flags 0 0).
Abbreviation need := (EXT2_DIR_REC_LEN (Z.of_nat (length name))).

Definition link_block : block_spec link_struct := λ b l _ ab es ls,
  if ab then ls_done ls = 1 ∧ ls_err ls = 0 ∧
    ∃ e l1 l2, new_entry fs name ino flags e ∧ live b l = l1 ++ l2 ∧ es = l1 ++ e :: l2
  else ls = ls0 ∧ es = live b l ∧ ¬ Exists (room need b) l.

Lemma link_implements : implements DIRENT_FLAG_INCLUDE_EMPTY (link_proc fs) (λ ls, ls = ls0) link_block.
Proof.
  intros kind b l p [Hby Hl Hc Ht] ->. destruct (csum_size_bounds fs) as [Hcs0 Hcs]. pose proof Hfs as [Hbs _].
  set (I := λ off b' c ls, ls = ls0 ∧ 0 ≤ off ∧ edited b b' 0 last ∧ (c = false → b' = b) ∧
    ∃ pre rest, chain b' off 0 pre ∧ chain b' last off rest ∧ live b' (pre ++ rest) = live b l ∧
      (Exists (room need b) l → Exists (room need b') rest)).
  set (Q := λ ab b' c ls, edited b b' 0 last ∧ (c = false → b' = b) ∧
    ∃ l', chain b' last 0 l' ∧ link_block b l ls0 ab (live b' l') ls).
  destruct (dir_loop_rule (link_proc fs) fs DIRENT_FLAG_INCLUDE_EMPTY Hfs eq_refl eq_refl I Q) with
    (fuel := Z.to_nat bs) (s := DirScan 0 0 kind false b ls0) as (ab & s' & -> & He & Hun & l' & Hc' & HR).
  - intros off b' c ls (-> & Ho & He & _ & pre & rest & _ & Hr & _). split; [done|].
    split; [by apply (ed_bytes _ _ _ _ He)|]. split; [|by exists rest].
    eapply tail_agree; [done|exact Ht|apply (ed_agree _ _ _ _ He); lia].
  - intros k off b' c ls (-> & Ho & He & Hun & pre & rest & Hp & Hr & HL & Hroom) Hlt _.
    destruct (chain_inv _ _ _ _ Hr Hlt) as (rest' & -> & _).
    assert (Hl' : Z.of_nat (length b') = bs) by by rewrite (ed_length _ _ _ _ He).
    destruct (link_proc_ok fs Hfs name ino flags Hname Hlen Hino k b' off rest' Hr Ho Hl') as (ret & b2 & ls' & -> & E2 & Hcase);
      [by apply (ed_bytes _ _ _ _ He)|].
    destruct (passed_agree b' b2 off pre Hp E2 Ho) as [Hp2 Hpl].
    assert (E02 : edited b b2 0 last) by (eapply edited_trans; [exact He|eapply edited_wider; [exact E2|lia|lia]]).
    exists ret, b2, ls'. split; [done|]. destruct Hcase as [(-> & -> & Hsame & Hok & l1 & Hc1 & Hlive & Hr2)|(-> & -> & Hd & Hee & l1 & e & Hc1 & Hnew & Hlive)].
    + split; [by intros ->%Hsame|]. pose proof Hok as (H12 & _). split; [lia|]. split; [done|]. split; [lia|]. split; [done|].
      split; [intros [Hc0 Hch]%orb_false_iff; by rewrite (Hsame Hch) Hun|].
      exists (pre ++ [off]), l1. split; [apply chain_snoc; [done|done|by eapply entry_ok_self]|]. split; [done|].
      split; [|by intros ?%Hroom%Hr2]. rewrite -assoc live_app. cbn [app]. by rewrite Hpl Hlive -live_app.
    + split; [done|]. split; [done|]. split; [by rewrite orb_true_r|]. exists (pre ++ off :: l1).
      split; [by eapply chain_app|]. split; [done|]. split; [done|]. exists e, (live b' pre), (live b' (off :: rest')).
      split; [done|]. by rewrite -HL !live_app Hpl Hlive.
  - done.
  - intros b' c ls (-> & Ho & He & Hun & pre & rest & Hp & Hr & HL & Hroom).
    rewrite (chain_end _ _ _ Hr) app_nil_r in HL, Hroom. split; [done|]. split; [done|].
    exists pre. split; [done|]. split; [done|]. split; [done|]. by intros ?%Hroom%Exists_nil.
  - split; [done|]. split; [done|]. split; [apply edited_refl|]. split; [done|].
    exists [], l. split; [constructor|]. done.
  - cbn [sc_offset]. lia.
  - exists ab, s', l'. split; [done|]. split; [|done]. constructor; [by apply (ed_bytes _ _ _ _ He)|by rewrite (ed_length _ _ _ _ He)|done|].
    eapply tail_agree; [done|exact Ht|apply (ed_agree _ _ _ _ He); lia].
Qed.
End link.

(** ** Names *)
Lemma strncmp_spec name s : Forall (λ x, x ≠ 0) name →
  strncmp_eq name s (length name) = bool_decide (take (length name) s = name).
Proof.
  intros Hn. revert s. induction Hn as [|x name Hx Hn IH]; intros s; [done|]. cbn [strncmp_eq length hd tl].
  destruct s as [|y s]; cbn [hd tl take].
  - rewrite (bool_decide_eq_true_2 (x ≠ 0)) //.
  - decide_case (x ≠ y) as Hxy; [by rewrite bool_decide_eq_false_2; [|congruence]|].
    assert (x = y) as -> by lia. rewrite (bool_decide_eq_false_2 (y = 0)) // IH.
    apply bool_decide_ext. split; [by intros ->|by intros [= ->]].
Qed.

(** The names of the entry at [off] and of a call are the same. *)
Lemma same_name b off name : Forall (λ x, x ≠ 0) name → is_bytes b → Z.of_nat (length b) = bs → 0 ≤ off → entry_ok b last off →
  bool_decide (ext2fs_dirent_name_len off b ≠ Z.of_nat (length name)) ||
    negb (strncmp_eq name (dirent_name off b) (Z.to_nat (ext2fs_dirent_name_len off b))) =
  negb (bool_decide (de_name (entry_at b off) = name)).
Proof.
  intros Hn Hb Hl Ho (H12 & Hm & Hhi & Hnl & Hu). pose proof (name_len_range off b Hb) as Hr. cbn [de_name entry_at].
  decide_case (ext2fs_dirent_name_len off b ≠ Z.of_nat (length name)) as Hlen; cbn [orb].
  - rewrite bool_decide_eq_false_2 //. intros Heq. apply Hlen. rewrite -Heq length_take /dirent_name length_drop.
    pose proof (csum_size_bounds fs). lia.
  - assert (ext2fs_dirent_name_len off b = Z.of_nat (length name)) as -> by lia. by rewrite Nat2Z.id strncmp_spec.
Qed.

Lemma live_app_cons_used b pre off l : used b off → live b (pre ++ off :: l) = live b pre ++ entry_at b off :: live b l.
Proof. intros Hu. by rewrite live_app live_cons_used. Qed.

(** ** Looking up *)
Section lookup.
Context (name : list Z) (inode : Z) (Hname : Forall (λ x, x ≠ 0) name).
Abbreviation ls0 := (LookupStruct name (Z.of_nat (length name)) inode 0).

Definition lookup_block : block_spec lookup_struct := λ b l _ ab es ls,
  es = live b l ∧
  if ab then lk_found ls = 1 ∧ ∃ e l1 l2, es = l1 ++ e :: l2 ∧ Forall (λ e, de_name e ≠ name) l1 ∧ de_name e = name ∧ lk_inode ls = de_inode e
  else ls = ls0 ∧ Forall (λ e, de_name e ≠ name) es.

Lemma lookup_implements : implements 0 lookup_proc (λ ls, ls = ls0) lookup_block.
Proof.
  intros kind b l p [Hby Hl Hc Ht] ->. destruct (csum_size_bounds fs) as [Hcs0 Hcs]. pose proof Hfs as [Hbs _].
  set (I := λ off b' (c : bool) ls, ls = ls0 ∧ 0 ≤ off ∧ b' = b ∧ c = false ∧
    ∃ pre rest, chain b last off rest ∧ l = pre ++ rest ∧ Forall (λ e, de_name e ≠ name) (live b pre)).
  set (Q := λ ab b' (c : bool) ls, b' = b ∧ c = false ∧ lookup_block b l ls0 ab (live b l) ls).
  destruct (dir_loop_rule lookup_proc fs 0 Hfs eq_refl eq_refl I Q) with
    (fuel := Z.to_nat bs) (s := DirScan 0 0 kind false b ls0) as (ab & s' & -> & Hb' & Hun & HR).
  - intros off b' c ls (-> & Ho & -> & _ & pre & rest & Hr & _). by eauto.
  - intros k off b' c ls (-> & Ho & -> & -> & pre & rest & Hr & -> & Hpre) Hlt [Hu|?]; [|done].
    destruct (chain_inv _ _ _ _ Hr Hlt) as (rest' & -> & Hok & Hr'). unfold lookup_proc. cbn [lk_name lk_len lk_inode lk_found].
    pose proof (same_name b off name Hname Hby Hl Ho Hok) as Hsame.
    rewrite (bool_decide_ext (Z.of_nat (length name) ≠ _) (ext2fs_dirent_name_len off b ≠ Z.of_nat (length name))); [|split; congruence].
    pose proof Hok as (H12 & _).
    assert (Hno : de_name (entry_at b off) ≠ name → ∃ pre0 rest0, chain b last (off + dirent_rec_len off b) rest0 ∧
      pre ++ off :: rest' = pre0 ++ rest0 ∧ Forall (λ e, de_name e ≠ name) (live b pre0)).
    { intros Hne. exists (pre ++ [off]), rest'. split; [done|]. split; [by rewrite -assoc|].
      rewrite live_app Forall_app live_cons_used //. split; [done|]. by apply Forall_cons. }
    destruct (bool_decide _) eqn:Hlen; cbn [orb] in Hsame; [|destruct (negb (strncmp_eq _ _ _)) eqn:Hcmp].
    1,2: symmetry in Hsame; apply negb_true_iff, bool_decide_eq_false in Hsame.
    1,2: eexists _, _, _; split; [reflexivity|]; split; [done|]; (split; [lia|]); repeat split; try lia; by apply Hno.
    symmetry in Hsame. apply negb_false_iff, bool_decide_eq_true in Hsame.
    eexists _, _, _; split; [reflexivity|]. split; [done|]. split; [done|]. split; [done|]. split; [done|]. split; [done|].
    exists (entry_at b off), (live b pre), (live b rest'). rewrite live_app_cons_used //.
  - intros off b' c ls _ (-> & Ho & -> & -> & pre & rest & Hr & -> & Hpre) Hlt Hfree.
    destruct (chain_inv _ _ _ _ Hr Hlt) as (rest' & -> & (H12 & _) & Hr'). repeat split; [lia|].
    exists (pre ++ [off]), rest'. split; [done|]. split; [by rewrite -assoc|]. by rewrite live_app live_cons_free // app_nil_r.
  - intros b' c ls (-> & Ho & -> & -> & pre & rest & Hr & -> & Hpre). unfold Q. rewrite (chain_end _ _ _ Hr) app_nil_r.
    by repeat split.
  - repeat split; [done|]. exists [], l. repeat split; [done|]. constructor.
  - cbn [sc_offset]. lia.
  - exists ab, s', l. rewrite Hb'. split; [done|]. split; [by constructor|]. split; [|done]. done.
Qed.
End lookup.

(** ** Unlinking *)
Lemma chain_snoc_inv b hi lo pre prev : chain b hi lo (pre ++ [prev]) →
  chain b prev lo pre ∧ entry_ok b hi prev ∧ hi = prev + dirent_rec_len prev b.
Proof.
  revert lo. induction pre as [|x pre IH]; intros lo; cbn; inversion 1 as [|? ? Hok Hc]; subst.
  - inversion Hc; subst. split; [constructor|done].
  - destruct (IH _ Hc) as (Hc' & Hok' & ->). split; [|done]. constructor; [|done].
    pose proof (chain_le _ _ _ _ Hc') as Hle. destruct Hok as (?&?&?&?&?). split_and!; (done || lia).
Qed.

(** The entry at [off] becomes part of the one before it. *)
Lemma merge_ok b off pre prev rest : is_bytes b → Z.of_nat (length b) = bs →
  chain b off 0 (pre ++ [prev]) → 0 ≤ prev → chain b last off (off :: rest) →
  let b' := set_dirent_rec_len prev (u16 (dirent_rec_len prev b + dirent_rec_len off b)) b in
  chain b' last 0 (pre ++ prev :: rest) ∧ edited b b' 0 last ∧
  live b' (pre ++ prev :: rest) = live b (pre ++ [prev]) ++ live b rest.
Proof.
  intros Hb Hl Hp Ho Hc. destruct (csum_size_bounds fs) as [Hcs0 Hcs]. pose proof Hfs as [Hbs _].
  destruct (chain_snoc_inv _ _ _ _ _ Hp) as (Hpre & Hok & Hoff). pose proof Hok as (H12 & Hm & _ & Hn & Hu).
  inversion Hc as [|? ? (H12' & Hm' & Hhi' & _) Hrest]; subst off. set (off := prev + dirent_rec_len prev b) in *.
  set (v := dirent_rec_len prev b + dirent_rec_len off b) in *. rewrite (u16_small v); [|lia]. intros b'.
  destruct (set_rec_len_ok prev v b) as (He & Hr & Hi & Hnl & Hent); [unfold in_buf; lia|lia|]. fold b' in He, Hr, Hi, Hnl, Hent.
  assert (E : edited b b' 0 last) by (eapply edited_wider; [exact He|lia|lia]).
  destruct (chain_agree b b' prev 0 pre Hpre) as [Hpre' HLpre]; [apply (ed_agree _ _ _ _ He); lia|done|].
  destruct (chain_agree b b' last (prev + v) rest) as [Hrest' HLrest];
    [by replace (prev + v) with (off + dirent_rec_len off b) by lia|apply (ed_agree _ _ _ _ He); lia|lia|].
  assert (Hused : used b' prev ↔ used b prev) by (unfold used; by rewrite Hi).
  assert (Hvm : v mod 4 = 0) by (unfold v; rewrite Zplus_mod Hm Hm'; done).
  split; [|split; [exact E|]].
  - eapply chain_app; [exact Hpre'|]. constructor; [|by rewrite Hr].
    unfold entry_ok. rewrite Hr Hused. unfold ext2fs_dirent_name_len in *. rewrite Hnl. split_and!; (done || lia).
  - rewrite !live_app HLpre -assoc. f_equal. destruct (decide (used b prev)) as [Hd|Hd].
    + rewrite (live_cons_used b') ?Hused // (live_cons_used b) //. by rewrite Hent HLrest.
    + by rewrite (live_cons_free b') ?Hused // (live_cons_free b).
Qed.

(** The first entry becomes free. *)
Lemma clear_ok b rest : is_bytes b → Z.of_nat (length b) = bs → chain b last 0 (0 :: rest) →
  let b' := set_dirent_inode 0 0 b in
  chain b' last 0 (0 :: rest) ∧ edited b b' 0 last ∧ live b' (0 :: rest) = live b rest.
Proof.
  intros Hb Hl Hc b'. destruct (csum_size_bounds fs) as [Hcs0 Hcs]. pose proof Hfs as [Hbs _].
  inversion Hc as [|? ? Hok Hrest]; subst. pose proof Hok as (H12 & Hm & Hhi & Hn & Hu).
  assert (Hin : in_buf 4 0 b) by (unfold in_buf; lia).
  assert (He : edited b b' 0 4) by (apply edited_set; [done|lia|lia]).
  assert (Hi : dirent_inode 0 b' = 0) by (unfold dirent_inode, b', set_dirent_inode; by rewrite get_set_le).
  assert (Hr : dirent_rec_len 0 b' = dirent_rec_len 0 b) by (apply get_set_le_ne; [done|lia|lia]).
  assert (Hnl : dirent_name_len 0 b' = dirent_name_len 0 b) by (apply get_set_le_ne; [done|lia|lia]).
  destruct (chain_agree b b' last (0 + dirent_rec_len 0 b) rest Hrest) as [Hrest' HL]; [apply (ed_agree _ _ _ _ He); lia|lia|].
  split; [|split; [eapply edited_wider; [exact He|lia|lia]|rewrite live_cons_free //; unfold used; tauto]].
  constructor; [|by rewrite Hr]. unfold entry_ok, used, ext2fs_dirent_name_len in *. rewrite Hr Hi Hnl.
  by split_and!.
Qed.

Section unlink.
Context (name : option (list Z)) (ino flags : Z) (Hname : Forall (λ x, x ≠ 0) (default [] name)).
Abbreviation us prev := (UnlinkStruct name (Z.of_nat (length (default [] name))) ino flags prev 0).

(** The entries a call is about. *)
Definition wanted (e : dir_entry) : Prop :=
  (if name is Some n then de_name e = n else True) ∧
  (if negb (flag flags EXT2FS_UNLINK_FORCE) && bool_decide (ino ≠ 0) then de_inode e = ino else True).

Definition unlink_block : block_spec unlink_struct := λ b l _ ab es ls,
  if ab then us_done ls = 1 ∧ ∃ e l1 l2, live b l = l1 ++ e :: l2 ∧ Forall (λ e, ¬ wanted e) l1 ∧ wanted e ∧ es = l1 ++ l2
  else (∃ prev, ls = us prev) ∧ es = live b l ∧ Forall (λ e, ¬ wanted e) es.

(** Whether the call-back passes over an entry. *)
Lemma unlink_proc_cases kind b off prev : is_bytes b → Z.of_nat (length b) = bs → 0 ≤ off → entry_ok b last off →
  unlink_proc kind off bs b (us prev) = Some (0, b, us off) ∧ (used b off → ¬ wanted (entry_at b off)) ∨
  used b off ∧ wanted (entry_at b off) ∧
  unlink_proc kind off bs b (us prev) = Some (Z.lor DIRENT_ABORT DIRENT_CHANGED,
    if bool_decide (off ≠ 0) then set_dirent_rec_len prev (u16 (dirent_rec_len prev b + dirent_rec_len off b)) b
    else set_dirent_inode off 0 b,
    UnlinkStruct name (Z.of_nat (length (default [] name))) ino flags off 1).
Proof.
  intros Hb Hl Ho Hok. unfold unlink_proc, wanted. cbn [us_name us_namelen us_inode us_flags us_prev us_done].
  set (other := if name is Some _ then _ else false).
  assert (Hother : other = true ∧ ¬ (if name is Some n then de_name (entry_at b off) = n else True) ∨
    other = false ∧ (if name is Some n then de_name (entry_at b off) = n else True)).
  { subst other. destruct name as [n|]; [|by right]. cbn [from_option id] in Hname |- *. rewrite (same_name b off n Hname) //.
    decide_case (de_name (entry_at b off) = n) as Hd; [by right|by left]. }
  destruct Hother as [[-> Hn]|[-> Hn]]; [left; tauto|].
  destruct (negb (flag flags EXT2FS_UNLINK_FORCE) && bool_decide (ino ≠ 0)) eqn:Hmode.
  - apply andb_true_iff in Hmode as [_ Hino%bool_decide_eq_true]. cbn [de_inode entry_at].
    decide_case (dirent_inode off b ≠ ino) as Hi; [left; tauto|right]. unfold used. split; [lia|]. split; [split; [done|lia]|done].
  - decide_case (dirent_inode off b = 0) as Hi; [left; unfold used; tauto|right]. unfold used. tauto.
Qed.

Lemma unlink_implements : implements DIRENT_FLAG_INCLUDE_EMPTY unlink_proc (λ ls, ∃ prev, ls = us prev) unlink_block.
Proof.
  intros kind b l p [Hby Hl Hc Ht] [prev0 ->]. destruct (csum_size_bounds fs) as [Hcs0 Hcs]. pose proof Hfs as [Hbs _].
  set (I := λ off b' (c : bool) ls, 0 ≤ off ∧ b' = b ∧ c = false ∧
    ∃ pre rest, chain b off 0 pre ∧ chain b last off rest ∧ l = pre ++ rest ∧ Forall (λ e, ¬ wanted e) (live b pre) ∧
      (∃ prev, ls = us prev ∧ ∀ pre' x, pre = pre' ++ [x] → x = prev)).
  set (Q := λ ab b' c ls, edited b b' 0 last ∧ (c = false → b' = b) ∧
    ∃ l', chain b' last 0 l' ∧ unlink_block b l (us prev0) ab (live b' l') ls).
  destruct (dir_loop_rule unlink_proc fs DIRENT_FLAG_INCLUDE_EMPTY Hfs eq_refl eq_refl I Q) with
    (fuel := Z.to_nat bs) (s := DirScan 0 0 kind false b (us prev0)) as (ab & s' & -> & He & Hun & l' & Hc' & HR).
  - intros off b' c ls (Ho & -> & _ & pre & rest & _ & Hr & _). by eauto.
  - intros k off b' c ls (Ho & -> & -> & pre & rest & Hp & Hr & -> & Hpre & prev & -> & Hprev) Hlt _.
    destruct (chain_inv _ _ _ _ Hr Hlt) as (rest' & -> & Hok & Hr'). pose proof Hok as (H12 & _).
    destruct (unlink_proc_cases k b off prev Hby Hl Ho Hok) as [[-> Hnw]|(Hu & Hw & ->)].
    + eexists _, _, _. split; [reflexivity|]. split; [done|]. split; [lia|]. split; [lia|]. split; [done|]. split; [done|].
      exists (pre ++ [off]), rest'. split; [apply chain_snoc; [done|done|by eapply entry_ok_self]|]. split; [done|].
      split; [by rewrite -assoc|]. split; [|exists off; split; [done|by intros pre' x [_ ?]%app_inj_tail]].
      rewrite live_app Forall_app. split; [done|]. destruct (decide (used b off)); [|by rewrite live_cons_free].
      rewrite live_cons_used //. apply Forall_cons. auto.
    + eexists _, _, _. split; [reflexivity|]. split; [done|]. cbv zeta. change (flag _ DIRENT_ABORT) with true. cbv iota.
      assert (Hspec : ∀ es, es = live b pre ++ live b rest' → unlink_block b (pre ++ off :: rest') (us prev0) true es
        (UnlinkStruct name (Z.of_nat (length (default [] name))) ino flags off 1)).
      { intros es ->. split; [done|]. exists (entry_at b off), (live b pre), (live b rest'). by rewrite live_app_cons_used. }
      destruct pre as [|x pre] using rev_ind.
      * assert (off = 0) as -> by by inversion Hp. rewrite bool_decide_eq_false_2; [|tauto].
        destruct (clear_ok b rest' Hby Hl Hr) as (Hc' & E & HL). split; [done|]. split; [done|]. exists (0 :: rest'). split; [done|].
        apply Hspec. by rewrite HL.
      * clear IHpre. specialize (Hprev pre x eq_refl) as ->.
        assert (0 ≤ prev) by (destruct (chain_snoc_inv _ _ _ _ _ Hp) as (?%chain_le & _); lia).
        rewrite bool_decide_eq_true_2; [|destruct (chain_snoc_inv _ _ _ _ _ Hp) as (_ & (? & _) & ?); lia].
        destruct (merge_ok b off pre prev rest' Hby Hl Hp) as (Hc' & E & HL); [done|done|]. split; [done|]. split; [done|].
        exists (pre ++ prev :: rest'). split; [done|]. apply Hspec. by rewrite HL.
  - done.
  - intros b' c ls (Ho & -> & -> & pre & rest & Hp & Hr & -> & Hpre & prev & -> & _). unfold Q.
    rewrite (chain_end _ _ _ Hr) app_nil_r. split; [apply edited_refl|]. split; [done|]. exists pre. split; [done|]. split; [by eauto|done].
  - repeat split; [done|]. exists [], l. repeat split; [constructor|done|constructor|]. exists prev0. split; [done|]. by intros [].
  - cbn [sc_offset]. lia.
  - exists ab, s', l'. split; [done|]. split; [|done]. constructor; [by apply (ed_bytes _ _ _ _ He)|by rewrite (ed_length _ _ _ _ He)|done|].
    eapply tail_agree; [done|exact Ht|apply (ed_agree _ _ _ _ He); lia].
Qed.
End unlink.
End blocks.

(** ** Blocks on a device *)
Section device.
Context {D : Type} (content : D → Z → list Z) (ch : io_channel D) `{!Works content ch}.
Context (fs : ext2_filsys) (Hfs : dir_fs_ok fs) (Hseed : seed_ok fs).
Context (ext2fs_read_inode : ext2_filsys → Z → errcode * list Z) (dir : Z) (inode : list Z).
Context (Hread : ext2fs_read_inode fs dir = (E_OK, inode)).
Abbreviation bs := (fs_blocksize fs).
Abbreviation last := (fs_blocksize fs - dir_csum_size fs).
Abbreviation verify := (ext2fs_dir_block_csum_verify ext2fs_read_inode fs dir).

Lemma csum_set_ok b l : dir_block_ok fs b l → ∃ b', ext2fs_dir_block_csum_set ext2fs_read_inode fs dir b = (E_OK, b') ∧
  dir_block_ok fs b' l ∧ live b' l = live b l ∧ verify b' = true.
Proof.
  intros Hok. pose proof Hok as [Hb Hl Hc Ht]. destruct Hfs as [Hbs _].
  destruct (ext2fs_has_feature_metadata_csum (fs_super fs)) eqn:Hm.
  2:{ exists b. unfold ext2fs_dir_block_csum_set, ext2fs_dir_block_csum_verify. by rewrite Hm. }
  pose proof (dir_block_tail fs b l Hfs Hm Hok) as Htail.
  destruct (dir_csum_size_cases fs) as [[_ ?]|[Hcs _]]; [congruence|].
  destruct (dirent_csum_stored ext2fs_read_inode fs dir inode Hread Hm Hseed b last Hb) as (He & Hv & Hlen & Hsame); [lia|exact Htail|].
  assert (Hset : (ext2fs_dir_block_csum_set ext2fs_read_inode fs dir b).2 =
    set32 (det_checksum_off last) (crc32c (inum_gen_csum fs dir (i_generation inode)) (take (Z.to_nat last) b)) b).
  { unfold ext2fs_dir_block_csum_set, ext2fs_dirent_csum_set. rewrite Hm Htail (dirent_csum_eq _ _ _ inode Hread). reflexivity. }
  destruct (ext2fs_dir_block_csum_set ext2fs_read_inode fs dir b) as [e b']. cbn [fst snd] in *.
  assert (Ha : ∀ lo hi, hi ≤ last + 8 → agree b b' lo hi).
  { intros lo hi Hhi i Hi. rewrite Hsame // elem_of_seqZ. unfold det_checksum_off. lia. }
  destruct (chain_agree b b' last 0 l Hc) as [Hc' HL]; [apply Ha; lia|lia|].
  exists b'. split; [by rewrite He|]. split; [|done]. constructor; [rewrite Hset; by apply set_le_bytes|lia|done|].
  intros _. destruct (agree_fields b b' last (last + 8)) as (<- & <- & <-); [apply Ha; lia|lia|lia|]. by apply Ht.
Qed.

(** The block at [blk] has the entries [l], and its checksum is accepted. *)
Record block_at (d : D) (blk : Z) (l : list Z) : Prop := BlockAt {
  ba_number : 0 ≤ blk < 2^64;
  ba_ok : dir_block_ok fs (content d blk) l;
  ba_csum : flag (fs_flags fs) EXT2_FLAG_IGNORE_CSUM_ERRORS = true ∨ verify (content d blk) = true;
}.

Lemma block_at_ext d d' blk l : content d' blk = content d blk → block_at d blk l → block_at d' blk l.
Proof. intros Heq [? ? ?]. constructor; by rewrite ?Heq. Qed.

Lemma read_dir_block_ok d blk l : block_at d blk l → ∃ d',
  ext2fs_read_dir_block4 ext2fs_read_inode fs (set_state ch d) blk dir = (0, content d blk, set_state ch d') ∧
  ∀ x, content d' x = content d x.
Proof.
  intros [Hn _ Hv]. destruct (works_read content d blk Hn) as (d' & Hr & Hsame). exists d'. split; [|done].
  unfold ext2fs_read_dir_block4. rewrite Hr. rewrite (bool_decide_eq_false_2 (0 ≠ 0)); [|by intros []].
  destruct Hv as [-> | ->]; [done|]. by rewrite andb_false_r.
Qed.

Lemma write_dir_block_ok d blk b l : 0 ≤ blk < 2^64 → dir_block_ok fs b l → ∃ d',
  ext2fs_write_dir_block4 ext2fs_read_inode fs (set_state ch d) blk b dir = (0, set_state ch d') ∧
  block_at d' blk l ∧ live (content d' blk) l = live b l ∧ ∀ x, x ≠ blk → content d' x = content d x.
Proof.
  intros Hn Hok. destruct (csum_set_ok b l Hok) as (b' & Hset & Hok' & HL & Hv).
  destruct (works_write content d blk b' Hn) as (d' & Hw & Hsame). exists d'.
  unfold ext2fs_write_dir_block4. rewrite Hset ok_ne Hw. split; [done|].
  assert (Hb : content d' blk = b') by (rewrite Hsame; by destruct (decide _)).
  split; [constructor; rewrite ?Hb; [exact Hn|exact Hok'|by right]|]. rewrite Hb. split; [done|]. intros x Hx. rewrite Hsame. by destruct (decide _).
Qed.

Section process.
Context {P : Type} (flags : Z) (func : Z → Z → Z → list Z → P → option (Z * list Z * P)).
Context (Pre : P → Prop) (R : block_spec P) (Himp : implements fs flags func Pre R).
Context (Hinline : flag flags DIRENT_FLAG_INCLUDE_INLINE_DATA = false).

Lemma process_ok d blk cnt l ctx : block_at d blk l → 0 ≤ cnt → ctx_dir ctx = dir → ctx_flags ctx = flags → Pre (ctx_priv ctx) →
  ∃ (ab : bool) es l' ctx' d', ext2fs_process_dir_block ext2fs_read_inode func fs (set_state ch d) blk cnt ctx =
      Some (if ab then BLOCK_ABORT else 0, ctx', set_state ch d') ∧
    ctx_dir ctx' = dir ∧ ctx_flags ctx' = flags ∧ ctx_errcode ctx' = 0 ∧
    R (content d blk) l (ctx_priv ctx) ab es (ctx_priv ctx') ∧
    block_at d' blk l' ∧ live (content d' blk) l' = es ∧ ∀ x, x ≠ blk → content d' x = content d x.
Proof.
  intros Hba Hcnt Hdir Hfl Hpre. pose proof Hba as [Hn Hok Hv]. unfold ext2fs_process_dir_block.
  rewrite bool_decide_eq_false_2; [|lia]. rewrite Hfl Hinline Hdir.
  destruct (read_dir_block_ok d blk l Hba) as (d1 & -> & Hsame1). cbn [negb andb ctx_priv set_context].
  rewrite (bool_decide_eq_false_2 (0 ≠ 0)); [|by intros []]. cbn [ctx_flags ctx_dir]. rewrite Hfl.
  destruct (Himp (if bool_decide (cnt ≠ 0) then DIRENT_OTHER_FILE else DIRENT_DOT_FILE) _ _ _ Hok Hpre)
    as (ab & s & l' & -> & Hok' & HR & Hun). cbn [mbind option_bind]. destruct (sc_changed s) eqn:Hch; cbn [negb].
  - cbn [ctx_dir]. rewrite Hdir. destruct (write_dir_block_ok d1 blk (sc_buf s) l' Hn Hok') as (d2 & -> & Hba2 & HL2 & Hsame2).
    rewrite (bool_decide_eq_false_2 (0 ≠ 0)); [|by intros []].
    eexists ab, _, l', _, d2. split; [by destruct ab|]. cbn. do 3 (split; [done|]). split; [exact HR|].
    split; [done|]. split; [done|]. intros x Hx. by rewrite Hsame2 // Hsame1.
  - specialize (Hun eq_refl). eexists ab, _, l', _, d1. split; [by destruct ab|]. cbn. do 3 (split; [done|]).
    rewrite Hun in HR, Hok'. split; [exact HR|]. split; [|by rewrite Hsame1].
    apply (block_at_ext d); [apply Hsame1|]. by constructor.
Qed.

(** ** The blocks of a directory *)

(** From the blocks before, to their entries after: a block aborts the
    iteration, or it goes on to the next. *)
Inductive walk : list (list Z * list Z) → P → list (list dir_entry) → P → Prop :=
  | walk_nil p : walk [] p [] p
  | walk_stop b l rest p es p' : R b l p true es p' → walk ((b, l) :: rest) p (es :: ((λ x, live x.1 x.2) <$> rest)) p'
  | walk_next b l rest p es p' ess p'' : R b l p false es p' → walk rest p' ess p'' →
      walk ((b, l) :: rest) p (es :: ess) p''.

(** The blocks [blks] of a directory, with their numbers in it, and the offsets of their entries. *)
Definition dir_at (d : D) (blks : list (Z * Z)) (ls : list (list Z)) : Prop :=
  NoDup blks.*1 ∧ Forall2 (λ x l, block_at d x.1 l ∧ 0 ≤ x.2) blks ls.

Definition dir_contents (d : D) (blks : list (Z * Z)) (ls : list (list Z)) : list (list Z * list Z) :=
  zip_with (λ x l, (content d x.1, l)) blks ls.

Definition dir_entries (d : D) (blks : list (Z * Z)) (ls : list (list Z)) : list (list dir_entry) :=
  (λ x, live x.1 x.2) <$> dir_contents d blks ls.

Lemma dir_at_ext d d' blks ls : (∀ x, x ∈ blks.*1 → content d' x = content d x) → dir_at d blks ls →
  dir_at d' blks ls ∧ dir_contents d' blks ls = dir_contents d blks ls.
Proof.
  intros Hsame [Hnd Hf]. unfold dir_at, dir_contents. induction Hf as [|[x n] l blks ls [Hb Hn] Hf IH]; [done|].
  cbn in *. apply NoDup_cons in Hnd as [Hni Hnd]. destruct IH as [[_ IH1] IH2]; [|done|].
  { intros y Hy. apply Hsame. by right. }
  rewrite (Hsame x); [|by left]. rewrite IH2. split; [|done]. split; [by apply NoDup_cons|]. constructor; [|done].
  split; [|done]. apply (block_at_ext d); [|done]. apply Hsame. by left.
Qed.

(** One block of a directory. *)
Lemma dir_at_block d blks ls x : dir_at d blks ls → x ∈ blks.*1 → ∃ l, block_at d x l ∧
  ∀ d' l', block_at d' x l' → (∀ y, y ≠ x → content d' y = content d y) → ∃ ls', dir_at d' blks ls'.
Proof.
  intros [Hnd Hf] Hx. induction Hf as [|[y n] l blks ls [Hb Hn] Hf IH]; [by apply not_elem_of_nil in Hx|].
  cbn [fmap list_fmap fst] in Hnd, Hx. apply NoDup_cons in Hnd as [Hni Hnd]. destruct (decide (x = y)) as [->|Hne].
  - exists l. split; [done|]. intros d' l' Hb' Hsame. exists (l' :: ls). split; [by apply NoDup_cons|]. constructor; [done|].
    destruct (dir_at_ext d d' blks ls) as [[_ Hf'] _]; [intros z Hz; apply Hsame; congruence|done|done].
  - destruct IH as (l1 & Hb1 & Hback); [done|set_solver|]. exists l1. split; [done|]. intros d' l' Hb' Hsame.
    destruct (Hback d' l' Hb' Hsame) as (ls' & _ & Hf'). exists (l :: ls'). split; [by apply NoDup_cons|]. constructor; [|done].
    split; [|done]. cbn [fst] in *. eapply block_at_ext; [|done]. by apply Hsame.
Qed.

Context (Hpre : ∀ b l p es p', Pre p → R b l p false es p' → Pre p').
Abbreviation dir_func := (dir_block_func ext2fs_read_inode func).

(** The state of the iteration. *)
Definition ctx_ok (ctx : dir_context P) : Prop := ctx_dir ctx = dir ∧ ctx_flags ctx = flags ∧ ctx_errcode ctx = 0.

(** One call of the block iteration. *)
Lemma dir_visit_ok v l d ctx ret d1 ctx1 :
  dir_func fs (v_blk v) (v_count v) (v_ref v) (v_off v) (set_state ch d) ctx = Some (ret, v_blk v, set_state ch d1, ctx1) →
  ctx_ok ctx → Pre (ctx_priv ctx) → 0 ≤ v_count v → block_at d (v_blk v) l →
  ∃ (ab : bool) es l', ret = (if ab then BLOCK_ABORT else 0) ∧ ctx_ok ctx1 ∧
    R (content d (v_blk v)) l (ctx_priv ctx) ab es (ctx_priv ctx1) ∧
    block_at d1 (v_blk v) l' ∧ live (content d1 (v_blk v)) l' = es ∧ ∀ x, x ≠ v_blk v → content d1 x = content d x.
Proof.
  intros Hf (Hd & Hfl & He) Hp Hc Hb.
  destruct (process_ok d (v_blk v) (v_count v) l ctx Hb Hc Hd Hfl Hp) as (ab & es & l1 & ctx2 & d2 & Hpr & Hd2 & Hfl2 & He2 & HR & Hb2 & Hes & Hsame).
  unfold dir_block_func in Hf. rewrite Hpr in Hf. cbn [mbind option_bind] in Hf. injection Hf as <- Hst <-.
  assert (d2 = d1) as -> by exact Hst. exists ab, es, l1. done.
Qed.

Lemma dir_visit_meta v d ctx : v_count v < 0 →
  dir_func fs (v_blk v) (v_count v) (v_ref v) (v_off v) (set_state ch d) ctx = Some (0, v_blk v, set_state ch d, ctx).
Proof. intros Hc. unfold dir_block_func, ext2fs_process_dir_block. by rewrite bool_decide_eq_true_2. Qed.

(** The calls that go over a directory with the blocks [blks]. *)
Lemma dir_runs_ok vs d ctx ab d' ctx' : runs content ch fs dir_func vs d ctx ab d' ctx' → ∀ ls,
  dir_at d (data_of vs) ls → ctx_ok ctx → Pre (ctx_priv ctx) →
  ∃ ls', ctx_errcode ctx' = 0 ∧ dir_at d' (data_of vs) ls' ∧
    walk (dir_contents d (data_of vs) ls) (ctx_priv ctx) (dir_entries d' (data_of vs) ls') (ctx_priv ctx') ∧
    ∀ x, x ∉ (data_of vs).*1 → content d' x = content d x.
Proof.
  intros Hr. induction Hr as [d ctx|vs d d1 ctx ab d' ctx' Hs Hr IH|v vs d ctx ret d' ctx' Hf Hab|v vs d ctx ret d1 ctx1 ab d' ctx' Hf Hab Hr IH];
    intros ls Hat Hctx Hp.
  - destruct Hat as [Hnd Hls]. apply Forall2_nil_inv_l in Hls as ->. exists []. pose proof Hctx as (_ & _ & He).
    split; [done|]. split; [by split|]. split; [constructor|done].
  - destruct (dir_at_ext d d1 (data_of vs) ls) as [Hat1 Hc1]; [intros; apply Hs|done|].
    destruct (IH ls Hat1 Hctx Hp) as (ls' & He & Hat' & Hw & Hout). rewrite Hc1 in Hw.
    exists ls'. split; [done|]. split; [done|]. split; [done|]. intros x Hx. by rewrite Hout // Hs.
  - destruct (decide (0 ≤ v_count v)) as [Hc|Hc].
    2:{ rewrite dir_visit_meta in Hf; [|lia]. injection Hf as <- _ _. by vm_compute in Hab. }
    rewrite data_of_cons // in Hat |- *. destruct Hat as [Hnd Hls]. apply Forall2_cons_inv_l in Hls as (l & ls' & [Hb Hn] & Hls & ->).
    cbn [fst snd fmap list_fmap] in Hb, Hn, Hnd. apply NoDup_cons in Hnd as [Hni Hnd].
    destruct (dir_visit_ok v l d ctx ret d' ctx' Hf Hctx Hp Hc Hb) as (ab & es & l1 & -> & (_ & _ & He1) & HR & Hb1 & Hes & Hsame).
    assert (ab = true) as -> by (destruct ab; [done|by vm_compute in Hab]).
    destruct (dir_at_ext d d' (data_of vs) ls') as [[_ Hls1] Hc1]; [intros y Hy; apply Hsame; congruence|done|].
    exists (l1 :: ls'). split; [done|]. split; [split; [by apply NoDup_cons|by constructor]|]. split.
    + unfold dir_entries. cbn [dir_contents zip_with fmap list_fmap fst snd]. unfold dir_contents in Hc1. rewrite Hc1 Hes. by apply walk_stop.
    + intros y Hy. apply Hsame. cbn in Hy. set_solver.
  - destruct (decide (0 ≤ v_count v)) as [Hc|Hc].
    2:{ rewrite dir_visit_meta in Hf; [|lia]. injection Hf as <- Hst <-. assert (d = d1) as <- by exact Hst.
        rewrite data_of_cons_meta; [|done]. by apply IH; [rewrite data_of_cons_meta in Hat|..]. }
    rewrite data_of_cons // in Hat |- *. destruct Hat as [Hnd Hls]. apply Forall2_cons_inv_l in Hls as (l & ls' & [Hb Hn] & Hls & ->).
    cbn [fst snd fmap list_fmap] in Hb, Hn, Hnd. apply NoDup_cons in Hnd as [Hni Hnd].
    destruct (dir_visit_ok v l d ctx ret d1 ctx1 Hf Hctx Hp Hc Hb) as (ab1 & es & l1 & -> & Hctx1 & HR & Hb1 & Hes & Hsame).
    assert (ab1 = false) as -> by (destruct ab1; [by vm_compute in Hab|done]).
    destruct (dir_at_ext d d1 (data_of vs) ls') as [Hat1 Hc1]; [intros y Hy; apply Hsame; congruence|done|].
    destruct (IH ls' Hat1 Hctx1) as (ls2 & He2 & Hat2 & Hw & Hsame2); [by eapply Hpre|].
    assert (Hx : content d' (v_blk v) = content d1 (v_blk v)) by by apply Hsame2.
    exists (l1 :: ls2). split; [done|]. destruct Hat2 as [_ Hf2].
    split; [split; [by apply NoDup_cons|constructor; [|done]]; split; [by eapply block_at_ext|done]|]. split.
    + unfold dir_entries. cbn [dir_contents zip_with fmap list_fmap fst snd]. rewrite Hx Hes.
      eapply walk_next; [exact HR|]. rewrite -/(dir_contents d (data_of vs) ls') -Hc1. exact Hw.
    + intros y Hy. cbn in Hy. rewrite Hsame2; [|set_solver]. apply Hsame. set_solver.
Qed.

(** The function works on the blocks of a directory, which are no indirect blocks. *)
Lemma dir_read_only Meta rd blks : (∀ x, x ∈ blks.*1 → ¬ Meta x) →
  read_only content ch fs dir_func Meta rd (λ v, v_count v < 0 ∨ v_blk v ∈ blks.*1)
    (λ d ctx, (∃ ls, dir_at d blks ls) ∧ ctx_ok ctx ∧ Pre (ctx_priv ctx) ∧ ∀ x, Meta x → content d x = rd x).
Proof.
  intros Hdis. constructor.
  - intros d ctx x (_ & _ & _ & Hm). apply Hm.
  - intros d d' ctx Hs ((ls & Hat) & Hctx & Hp & Hm). split; [|split; [done|split; [done|intros x Hx; by rewrite Hs Hm]]].
    exists ls. by apply (dir_at_ext d d').
  - intros v d ctx Hv ((ls & Hat) & Hctx & Hp & Hm).
    destruct (decide (0 ≤ v_count v)) as [Hc|Hc].
    2:{ exists 0, d, ctx. rewrite dir_visit_meta; [|lia]. split; [done|]. left. split; [done|]. split; [by exists ls|done]. }
    destruct Hv as [?|Hv]; [lia|].
    destruct (dir_at_block d blks ls (v_blk v) Hat Hv) as (l & Hb & Hback).
    pose proof Hctx as (Hd & Hfl & He).
    destruct (process_ok d (v_blk v) (v_count v) l ctx Hb Hc Hd Hfl Hp) as (ab & es & l1 & ctx1 & d1 & Hpr & Hd1 & Hfl1 & He1 & HR & Hb1 & Hes & Hsame).
    exists (if ab then BLOCK_ABORT else 0), d1, ctx1. unfold dir_block_func. rewrite Hpr. split; [done|].
    destruct ab; [by right|left]. split; [done|]. split; [by eapply Hback|]. split; [done|]. split; [by eapply Hpre|].
    intros x Hx. rewrite Hsame; [by apply Hm|]. intros ->. by destruct (Hdis _ Hv).
Qed.
End process.
End device.

(** ** The calls on a directory *)
Section walks.
Context (fs : ext2_filsys).
Abbreviation before cs := (concat ((λ x : list Z * list Z, live x.1 x.2) <$> cs)).

Lemma link_walk name ino flags cs p ess p' :
  walk (link_block fs name ino flags) cs p ess p' → p = LinkStruct name (Z.of_nat (length name)) ino flags 0 0 →
  (ls_done p' = 1 ∧ ls_err p' = 0 ∧ ∃ e l1 l2, new_entry fs name ino flags e ∧ before cs = l1 ++ l2 ∧ concat ess = l1 ++ e :: l2) ∨
  (ls_done p' = 0 ∧ ls_err p' = 0 ∧ concat ess = before cs ∧
   Forall (λ x, ¬ Exists (room (EXT2_DIR_REC_LEN (Z.of_nat (length name))) x.1) x.2) cs).
Proof.
  induction 1 as [p|b l rest p es p' HR|b l rest p es p' ess p'' HR Hw IH]; intros ->.
  - right. repeat split. constructor.
  - destruct HR as (Hd & He & e & l1 & l2 & Hnew & HL & ->). left. repeat split; [done..|].
    exists e, l1, (l2 ++ before rest). split; [done|]. cbn [fmap list_fmap concat fst snd]. by rewrite HL -!app_assoc.
  - destruct HR as (-> & -> & Hroom). destruct (IH eq_refl) as [(Hd & He & e & l1 & l2 & Hnew & HL & Hess)|(Hd & He & Hess & Hf)].
    + left. repeat split; [done..|]. exists e, (live b l ++ l1), l2. cbn [fmap list_fmap concat fst snd]. by rewrite HL Hess -!app_assoc.
    + right. do 2 (split; [done|]). split; [|by constructor]. cbn [fmap list_fmap concat fst snd]. by rewrite Hess.
Qed.

Lemma unlink_walk name ino flags cs p ess p' : walk (unlink_block name ino flags) cs p ess p' →
  (∃ prev, p = UnlinkStruct name (Z.of_nat (length (default [] name))) ino flags prev 0) →
  (us_done p' = 1 ∧ ∃ e l1 l2, before cs = l1 ++ e :: l2 ∧ Forall (λ e, ¬ wanted name ino flags e) l1 ∧
     wanted name ino flags e ∧ concat ess = l1 ++ l2) ∨
  (us_done p' = 0 ∧ concat ess = before cs ∧ Forall (λ e, ¬ wanted name ino flags e) (before cs)).
Proof.
  induction 1 as [p|b l rest p es p' HR|b l rest p es p' ess p'' HR Hw IH]; intros [prev Hp].
  - right. rewrite Hp. repeat split. constructor.
  - destruct HR as (Hd & e & l1 & l2 & HL & Hno & Hyes & ->). left. split; [done|].
    exists e, l1, (l2 ++ before rest). cbn [fmap list_fmap concat fst snd]. by rewrite HL -!app_assoc.
  - destruct HR as (Hus & -> & Hno). destruct (IH Hus) as [(Hd & e & l1 & l2 & HL & Hno1 & Hyes & Hess)|(Hd & Hess & Hf)].
    + left. split; [done|]. exists e, (live b l ++ l1), l2. cbn [fmap list_fmap concat fst snd]. by rewrite HL Hess -!app_assoc Forall_app.
    + right. cbn [fmap list_fmap concat fst snd]. by rewrite Hess Forall_app.
Qed.

Lemma lookup_walk name inode cs p ess p' : walk (lookup_block name inode) cs p ess p' →
  p = LookupStruct name (Z.of_nat (length name)) inode 0 →
  concat ess = before cs ∧
  ((lk_found p' = 1 ∧ ∃ e l1 l2, before cs = l1 ++ e :: l2 ∧ Forall (λ e, de_name e ≠ name) l1 ∧ de_name e = name ∧ lk_inode p' = de_inode e) ∨
   (lk_found p' = 0 ∧ lk_inode p' = inode ∧ Forall (λ e, de_name e ≠ name) (before cs))).
Proof.
  induction 1 as [p|b l rest p es p' HR|b l rest p es p' ess p'' HR Hw IH]; intros ->.
  - split; [done|]. right. repeat split. constructor.
  - destruct HR as (-> & Hd & e & l1 & l2 & HL & Hno & Hyes & Hi). split; [done|]. left. split; [done|].
    exists e, l1, (l2 ++ before rest). cbn [fmap list_fmap concat fst snd]. by rewrite HL -!app_assoc.
  - destruct HR as (-> & -> & Hno). destruct (IH eq_refl) as [Hess [(Hd & e & l1 & l2 & HL & Hno1 & Hyes & Hi)|(Hd & Hi & Hf)]];
      cbn [fmap list_fmap concat fst snd]; rewrite Hess; (split; [done|]).
    + left. split; [done|]. exists e, (live b l ++ l1), l2. by rewrite HL -!app_assoc Forall_app.
    + right. by rewrite Forall_app.
Qed.
End walks.

Section operations.
Context {D : Type} (content : D → Z → list Z) (ch : io_channel D) `{!Works content ch}.
Context (ext2fs_read_inode : ext2_filsys → Z → errcode * list Z) (io_is_image : bool).
Context (ext2fs_write_inode : ext2_filsys → io_channel D → Z → list Z → Z * io_channel D).
Context (iterate_extents : ∀ P : Type, block_func D (dir_context P) → ext2_filsys → Z → Z → list Z → Z →
  block_context D (dir_context P) → option (Z * bool * list Z * block_context D (dir_context P))).
Context (ext2fs_inline_data_dir_iterate : ∀ P : Type, ext2_filsys → Z → dir_context P → option (dir_context P)).
Context (check_directory : option (ext2_filsys → Z → Z)).

(** The blocks of the directory, and its indirect blocks with their contents. *)
Context (fs : ext2_filsys) (dir : Z) (vs : list visit) (Meta : Z → Prop) (rd : Z → list Z).
Abbreviation blks := (data_of vs).

(** A directory that is a list of blocks: open for writing, not hashed.  The
    iteration over its blocks visits [vs]: for one mapped by pointers that is
    [mapped_iterates]. *)
Record linear_dir : Prop := LinearDir {
  ld_fs : dir_fs_ok fs;
  ld_seed : seed_ok fs;
  ld_magic : fs_magic fs = EXT2_ET_MAGIC_EXT2FS_FILSYS;
  ld_rw : flag (fs_flags fs) EXT2_FLAG_RW = true;
  ld_inode : ∃ inode, ext2fs_read_inode fs dir = (E_OK, inode) ∧ flag (i_flags inode) EXT2_INDEX_FL = false;
  ld_check : ext2fs_check_directory ext2fs_read_inode check_directory fs dir = 0;
  ld_iterates P func : iterates content ch io_is_image (dir_block_func ext2fs_read_inode func) (read_inode ext2fs_read_inode)
    ext2fs_write_inode (iterate_extents P) fs dir BLOCK_FLAG_READ_ONLY Meta rd vs;
  ld_visits : Forall (λ v, v_count v < 0 ∨ v_blk v ∈ blks.*1) vs;
  ld_disjoint x : x ∈ blks.*1 → ¬ Meta x;
}.
Context (Hld : linear_dir).

(** The entries of the directory. *)
Definition dir_is (d : D) (ls : list (list Z)) : Prop :=
  dir_at content fs ext2fs_read_inode dir d blks ls ∧ ∀ x, Meta x → content d x = rd x.
Abbreviation entries d ls := (concat (dir_entries content d blks ls)).

Lemma dir_iterate_ok {P} flags func (Pre : P → Prop) (R : block_spec P) d ls p : implements fs flags func Pre R →
  flag flags DIRENT_FLAG_INCLUDE_INLINE_DATA = false → (∀ b l p es p', Pre p → R b l p false es p' → Pre p') →
  dir_is d ls → Pre p → ∃ p' d' ls',
    ext2fs_dir_iterate2 ext2fs_read_inode func io_is_image ext2fs_write_inode (iterate_extents P) (ext2fs_inline_data_dir_iterate P)
      check_directory fs (set_state ch d) dir flags true p = Some (0, p', set_state ch d') ∧
    dir_is d' ls' ∧ walk R (dir_contents content d blks ls) p (dir_entries content d' blks ls') p' ∧
    ∀ x, x ∉ blks.*1 → content d' x = content d x.
Proof.
  intros Himp Hinl Hpre [Hat Hmeta] Hp. destruct Hld as [Hfs Hseed Hm _ (inode & Hr & _) Hck Hit Hvs Hdis].
  unfold ext2fs_dir_iterate2. rewrite Hm Hck. rewrite bool_decide_eq_false_2; [|tauto].
  rewrite (bool_decide_eq_false_2 (0 ≠ 0)); [|tauto]. cbn [negb].
  destruct (Hit P func _ _ (dir_read_only content ch fs Hfs Hseed ext2fs_read_inode dir inode Hr flags func Pre R Himp Hinl Hpre Meta rd blks Hdis)
    Hvs d (DirContext dir flags [] 0 p 0)) as (ab & d' & ctx' & -> & Hruns); [by split; [exists ls|]|].
  destruct (dir_runs_ok content ch fs Hfs Hseed ext2fs_read_inode dir inode Hr flags func Pre R Himp Hinl Hpre vs d _ ab d' ctx' Hruns ls Hat)
    as (ls' & He & Hat' & Hw & Hsame); [done|done|].
  exists (ctx_priv ctx'), d', ls'. cbn [mbind option_bind]. rewrite He.
  rewrite bool_decide_eq_false_2; [|done]. rewrite bool_decide_eq_false_2; [|tauto]. split; [done|]. split; [|done].
  split; [done|]. intros x Hx. rewrite Hsame; [by apply Hmeta|]. intros Hin. by destruct (Hdis x Hin).
Qed.

Lemma unlink_ok name ino flags d ls : Forall (λ x, x ≠ 0) (default [] name) → name ≠ None ∨ ino ≠ 0 → dir_is d ls →
  ∃ retval d' ls', ext2fs_unlink ext2fs_read_inode io_is_image ext2fs_write_inode iterate_extents ext2fs_inline_data_dir_iterate check_directory
      fs (set_state ch d) dir name ino flags true = Some (retval, set_state ch d') ∧
    dir_is d' ls' ∧ (∀ x, x ∉ blks.*1 → content d' x = content d x) ∧
    ((retval = 0 ∧ ∃ e l1 l2, entries d ls = l1 ++ e :: l2 ∧ Forall (λ e, ¬ wanted name ino flags e) l1 ∧
        wanted name ino flags e ∧ entries d' ls' = l1 ++ l2) ∨
     (retval = EXT2_ET_DIR_NO_SPACE ∧ entries d' ls' = entries d ls ∧ Forall (λ e, ¬ wanted name ino flags e) (entries d ls))).
Proof.
  intros Hn Hsome Hat. destruct Hld as [Hfs _ Hm Hrw _ _ _ _ _].
  unfold ext2fs_unlink. rewrite Hm Hrw. rewrite bool_decide_eq_false_2; [|tauto]. rewrite bool_decide_eq_false_2; [|intros [??]; tauto]. cbn [negb].
  destruct (dir_iterate_ok DIRENT_FLAG_INCLUDE_EMPTY unlink_proc _ _ d ls
    (UnlinkStruct name (Z.of_nat (length (default [] name))) ino flags 0 0) (unlink_implements fs Hfs name ino flags Hn))
    as (p' & d' & ls' & -> & Hat' & Hw & Hsame); [done|by intros b l p es p' _ (? & _)|done|by eexists|].
  cbn [mbind option_bind]. rewrite (bool_decide_eq_false_2 (0 ≠ 0)); [|tauto].
  eexists _, d', ls'. split; [reflexivity|]. split; [done|]. split; [done|].
  destruct (unlink_walk _ _ _ _ _ _ _ Hw) as [(-> & H)|(-> & H)]; [by eexists|left|right]; done.
Qed.

Lemma lookup_ok name inode d ls : Forall (λ x, x ≠ 0) name → dir_is d ls →
  ∃ retval found d' ls', ext2fs_lookup ext2fs_read_inode io_is_image ext2fs_write_inode iterate_extents ext2fs_inline_data_dir_iterate check_directory
      fs (set_state ch d) dir name (Z.of_nat (length name)) true inode = Some (retval, found, set_state ch d') ∧
    dir_is d' ls' ∧ entries d' ls' = entries d ls ∧ (∀ x, x ∉ blks.*1 → content d' x = content d x) ∧
    ((retval = 0 ∧ ∃ e l1 l2, entries d ls = l1 ++ e :: l2 ∧ Forall (λ e, de_name e ≠ name) l1 ∧ de_name e = name ∧ found = de_inode e) ∨
     (retval = EXT2_ET_FILE_NOT_FOUND ∧ found = inode ∧ Forall (λ e, de_name e ≠ name) (entries d ls))).
Proof.
  intros Hn Hat. destruct Hld as [Hfs _ Hm _ _ _ _ _ _].
  unfold ext2fs_lookup. rewrite Hm. rewrite bool_decide_eq_false_2; [|tauto].
  destruct (dir_iterate_ok 0 lookup_proc _ _ d ls
    (LookupStruct name (Z.of_nat (length name)) inode 0) (lookup_implements fs Hfs name inode Hn))
    as (p' & d' & ls' & -> & Hat' & Hw & Hsame); [done|by intros b l p es p' _ (_ & ? & _)|done|done|].
  cbn [mbind option_bind]. rewrite (bool_decide_eq_false_2 (0 ≠ 0)); [|tauto].
  eexists _, _, d', ls'. split; [reflexivity|]. split; [done|].
  destruct (lookup_walk _ _ _ _ _ _ Hw eq_refl) as [Hes [(-> & H)|(-> & -> & H)]]; (split; [done|]); (split; [done|]); [left|right]; done.
Qed.

Context (dx_link : ext2_filsys → io_channel D → Z → list Z → list Z → Z → Z → option (Z * io_channel D)).

Lemma link_ok name ino flags d ls : is_bytes name → (1 ≤ length name ≤ 255)%nat → 0 < ino < 2^32 → dir_is d ls →
  ∃ retval d' ls', ext2fs_link ext2fs_read_inode io_is_image ext2fs_write_inode iterate_extents ext2fs_inline_data_dir_iterate check_directory dx_link
      fs (set_state ch d) dir (Some name) ino flags true = Some (retval, set_state ch d') ∧
    dir_is d' ls' ∧ (∀ x, x ∉ blks.*1 → content d' x = content d x) ∧
    ((retval = 0 ∧ ∃ e l1 l2, new_entry fs name ino flags e ∧ entries d ls = l1 ++ l2 ∧ entries d' ls' = l1 ++ e :: l2) ∨
     (retval = EXT2_ET_DIR_NO_SPACE ∧ entries d' ls' = entries d ls ∧
      Forall (λ x, ¬ Exists (room (EXT2_DIR_REC_LEN (Z.of_nat (length name))) x.1) x.2) (dir_contents content d blks ls))).
Proof.
  intros Hn Hlen Hino Hat. destruct Hld as [Hfs _ Hm Hrw (inode & Hr & Hix) _ _ _ _].
  unfold ext2fs_link. rewrite Hm Hrw Hr Hix. rewrite bool_decide_eq_false_2; [|tauto]. cbn [negb default from_option id]. rewrite ok_ne.
  destruct (dir_iterate_ok DIRENT_FLAG_INCLUDE_EMPTY (link_proc fs) _ _ d ls
    (LinkStruct name (Z.of_nat (length name)) ino flags 0 0) (link_implements fs Hfs name ino flags Hn Hlen Hino))
    as (p' & d' & ls' & -> & Hat' & Hw & Hsame); [done|by intros b l p es p' _ (-> & _)|done|done|].
  cbn [mbind option_bind]. rewrite (bool_decide_eq_false_2 (0 ≠ 0)); [|tauto].
  eexists _, d', ls'. split; [reflexivity|]. split; [done|]. split; [done|].
  destruct (link_walk _ _ _ _ _ _ _ _ Hw eq_refl) as [(-> & -> & e & l1 & l2 & H)|(-> & -> & H)]; [left|right]; by eauto 6.
Qed.
End operations.

(** ** The operations as the program calls them *)

(** The first entry with a name. *)
Definition find_entry (name : list Z) (es : list dir_entry) : option dir_entry :=
  head (filter (λ e, de_name e = name) es).

Lemma find_entry_none name es : Forall (λ e, de_name e ≠ name) es → find_entry name es = None.
Proof. intros H. unfold find_entry. induction H as [|e es He _ IH]; [done|]. by rewrite filter_cons_False. Qed.

Lemma find_entry_app name es e l : Forall (λ e, de_name e ≠ name) es → de_name e = name → find_entry name (es ++ e :: l) = Some e.
Proof.
  intros H He. unfold find_entry. rewrite filter_app. induction H as [|x es Hx _ IH]; cbn [app].
  - by rewrite filter_cons_True.
  - by rewrite filter_cons_False.
Qed.

(** The first element with a property is at one place only. *)
Lemma first_split {A} (P : A → Prop) l1 x l2 m1 y m2 : Forall (λ x, ¬ P x) l1 → P x → Forall (λ x, ¬ P x) m1 → P y →
  l1 ++ x :: l2 = m1 ++ y :: m2 → l1 = m1 ∧ x = y ∧ l2 = m2.
Proof.
  intros Hl Hx Hm Hy Heq. destruct (app_cons_split _ _ _ _ _ _ Heq) as [(m & -> & _)|[(-> & -> & ->)|(m & _ & ->)]]; [| done|].
  - apply Forall_app in Hl as [_ Hl]. apply Forall_cons in Hl. tauto.
  - apply Forall_app in Hm as [_ Hm]. apply Forall_cons in Hm. tauto.
Qed.

Section directory.
Context {D : Type} (content : D → Z → list Z) (ch : io_channel D) `{!Works content ch}.
Context (ext2fs_read_inode : ext2_filsys → Z → errcode * list Z) (io_is_image : bool).
Context (ext2fs_write_inode : ext2_filsys → io_channel D → Z → list Z → Z * io_channel D).
Context (iterate_extents : ∀ P : Type, block_func D (dir_context P) → ext2_filsys → Z → Z → list Z → Z →
  block_context D (dir_context P) → option (Z * bool * list Z * block_context D (dir_context P))).
Context (ext2fs_inline_data_dir_iterate : ∀ P : Type, ext2_filsys → Z → dir_context P → option (dir_context P)).
Context (check_directory : option (ext2_filsys → Z → Z)).
Context (fs : ext2_filsys) (dir : Z) (vs : list visit) (Meta : Z → Prop) (rd : Z → list Z).
Context (Hld : linear_dir content ch ext2fs_read_inode io_is_image ext2fs_write_inode iterate_extents check_directory fs dir vs Meta rd).
Abbreviation blks := (data_of vs).
Abbreviation dir_is d ls := (dir_is content ext2fs_read_inode fs dir vs Meta rd d ls).
Abbreviation entries d ls := (concat (dir_entries content d blks ls)).
Abbreviation outside_same d d' := (∀ x, x ∉ blks.*1 → content d' x = content d x).
Abbreviation unlink d name ino flags := (ext2fs_unlink ext2fs_read_inode io_is_image ext2fs_write_inode
  iterate_extents ext2fs_inline_data_dir_iterate check_directory fs (set_state ch d) dir name ino flags true).
Abbreviation lookup d name inode := (ext2fs_lookup ext2fs_read_inode io_is_image ext2fs_write_inode
  iterate_extents ext2fs_inline_data_dir_iterate check_directory fs (set_state ch d) dir name (Z.of_nat (length name)) true inode).

(** C5: [ext2fs_unlink] takes out the first entry that the call is about (by
    its name, if one is given, and its inode, if one is given and not overridden
    by EXT2FS_UNLINK_FORCE) and nothing else, or returns
    EXT2_ET_DIR_NO_SPACE, with the entries as they were, when there is none.
    The blocks stay well-formed, with accepted checksums, and no other block of
    the device changes. *)
Theorem ext2fs_unlink_correct name ino flags d ls :
  Forall (λ x, x ≠ 0) (default [] name) → name ≠ None ∨ ino ≠ 0 → dir_is d ls →
  ∃ retval d' ls', unlink d name ino flags = Some (retval, set_state ch d') ∧ dir_is d' ls' ∧ outside_same d d' ∧
    ((retval = 0 ∧ ∃ e l1 l2, entries d ls = l1 ++ e :: l2 ∧ Forall (λ e, ¬ wanted name ino flags e) l1 ∧
        wanted name ino flags e ∧ entries d' ls' = l1 ++ l2) ∨
     (retval = EXT2_ET_DIR_NO_SPACE ∧ entries d' ls' = entries d ls ∧ Forall (λ e, ¬ wanted name ino flags e) (entries d ls))).
Proof. by apply unlink_ok. Qed.

(** C22: [ext2fs_lookup] is a search in the list of the entries of the
    directory: it returns the inode of the first entry with the name, or
    EXT2_ET_FILE_NOT_FOUND when there is none, and leaves the entries as they
    are. *)
Theorem ext2fs_lookup_correct name inode d ls : Forall (λ x, x ≠ 0) name → dir_is d ls →
  ∃ d' ls', lookup d name inode =
      Some (match find_entry name (entries d ls) with
            | Some e => (0, de_inode e, set_state ch d')
            | None => (EXT2_ET_FILE_NOT_FOUND, inode, set_state ch d')
            end) ∧
    dir_is d' ls' ∧ entries d' ls' = entries d ls ∧ outside_same d d'.
Proof.
  intros Hn Hat. destruct (lookup_ok content ch _ _ _ _ ext2fs_inline_data_dir_iterate _ fs dir vs Meta rd Hld name inode d ls Hn Hat)
    as (r & f & d' & ls' & -> & Hat' & He & Hsame & Hcase). exists d', ls'. split; [|done].
  destruct Hcase as [(-> & e & l1 & l2 & Hes & Hno & Hyes & ->)|(-> & -> & Hno)].
  - by rewrite Hes find_entry_app.
  - by rewrite find_entry_none.
Qed.

Context (dx_link : ext2_filsys → io_channel D → Z → list Z → list Z → Z → Z → option (Z * io_channel D)).
Abbreviation link d name ino flags := (ext2fs_link ext2fs_read_inode io_is_image ext2fs_write_inode
  iterate_extents ext2fs_inline_data_dir_iterate check_directory dx_link fs (set_state ch d) dir (Some name) ino flags true).

(** C4: On a directory kept as a list of well-formed blocks, on a device
    that works, [ext2fs_link] with a name of 1 to 255 bytes either succeeds, and
    the entries of the directory are those before with one more, which has the
    name, the inode and, with the feature, the type of the call; or returns
    EXT2_ET_DIR_NO_SPACE, with the entries as they were, and then no record of
    any block had room for the new one.  In both cases the blocks are
    well-formed, with accepted checksums, no other block of the device changes,
    and names that were unique stay so if the new one was not there. *)
Theorem ext2fs_link_correct name ino flags d ls :
  is_bytes name → (1 ≤ length name ≤ 255)%nat → 0 < ino < 2^32 → dir_is d ls →
  ∃ retval d' ls', link d name ino flags = Some (retval, set_state ch d') ∧ dir_is d' ls' ∧ outside_same d d' ∧
    ((retval = 0 ∧ ∃ e l1 l2, new_entry fs name ino flags e ∧ entries d ls = l1 ++ l2 ∧ entries d' ls' = l1 ++ e :: l2) ∨
     (retval = EXT2_ET_DIR_NO_SPACE ∧ entries d' ls' = entries d ls ∧
      Forall (λ x, ¬ Exists (room (EXT2_DIR_REC_LEN (Z.of_nat (length name))) x.1) x.2) (dir_contents content d blks ls))) ∧
    (NoDup (de_name <$> entries d ls) → name ∉ de_name <$> entries d ls → NoDup (de_name <$> entries d' ls')).
Proof.
  intros Hn Hl Hi Hat. destruct (link_ok content ch _ _ _ _ ext2fs_inline_data_dir_iterate _ fs dir vs Meta rd Hld dx_link name ino flags d ls Hn Hl Hi Hat)
    as (r & d' & ls' & Hr & Hat' & Hsame & Hcase).
  exists r, d', ls'. do 3 (split; [done|]). split; [exact Hcase|]. destruct Hcase as [(_ & e & l1 & l2 & (_ & Hname & _) & -> & ->)|(_ & -> & _)]; [|done].
  intros Hnd Hni. rewrite !fmap_app fmap_cons Hname in Hnd Hni |- *. rewrite -Permutation_middle. by apply NoDup_cons.
Qed.

(** C6: What is linked can be looked up and unlinked: if the name was not in
    the directory and [ext2fs_link] succeeds, [ext2fs_lookup] then returns the
    inode, and [ext2fs_unlink] of the name and the inode succeeds and leaves the
    entries that were there before, so that a lookup does not find the name
    any more. *)
Theorem link_unlink_roundtrip name ino flags inode d ls d1 :
  is_bytes name → Forall (λ x, x ≠ 0) name → (1 ≤ length name ≤ 255)%nat → 0 < ino < 2^32 → dir_is d ls →
  name ∉ de_name <$> entries d ls → link d name ino flags = Some (0, set_state ch d1) →
  ∃ d2 d3 d4 ls3, lookup d1 name inode = Some (0, ino, set_state ch d2) ∧
    unlink d2 (Some name) ino 0 = Some (0, set_state ch d3) ∧ dir_is d3 ls3 ∧ entries d3 ls3 = entries d ls ∧
    outside_same d d3 ∧ lookup d3 name inode = Some (EXT2_ET_FILE_NOT_FOUND, inode, set_state ch d4).
Proof.
  intros Hn Hnz Hl Hi Hat Hni Hlink.
  assert (Hno : Forall (λ e, de_name e ≠ name) (entries d ls)).
  { apply Forall_forall. intros e He <-. apply Hni. by apply list_elem_of_fmap_2. }
  destruct (link_ok content ch _ _ _ _ ext2fs_inline_data_dir_iterate _ fs dir vs Meta rd Hld dx_link name ino flags d ls Hn Hl Hi Hat)
    as (r & d' & ls1 & Hr & Hat1 & Hs1 & Hcase1). rewrite Hr in Hlink. injection Hlink as -> Hst.
  assert (Hst' : set_state ch d1 = set_state ch d') by (unfold set_state; congruence). rewrite Hst'. clear d1 Hst Hst'.
  destruct Hcase1 as [(_ & e & l1 & l2 & (He1 & He2 & _) & Hb & Ha)|(? & _)]; [|done]. rewrite Hb in Hno. apply Forall_app in Hno as [Hno1 Hno2].
  destruct (lookup_ok content ch _ _ _ _ ext2fs_inline_data_dir_iterate _ fs dir vs Meta rd Hld name inode d' ls1 Hnz Hat1)
    as (r2 & f & d2 & ls2 & HL2 & Hat2 & Hes2 & Hs2 & Hcase2).
  destruct (unlink_ok content ch _ _ _ _ ext2fs_inline_data_dir_iterate _ fs dir vs Meta rd Hld (Some name) ino 0 d2 ls2 Hnz) as (r3 & d3 & ls3 & HU3 & Hat3 & Hs3 & Hcase3);
    [by left|done|].
  destruct (lookup_ok content ch _ _ _ _ ext2fs_inline_data_dir_iterate _ fs dir vs Meta rd Hld name inode d3 ls3 Hnz Hat3)
    as (r4 & f4 & d4 & ls4 & HL4 & _ & _ & _ & Hcase4).
  assert (Hw : wanted (Some name) ino 0 e) by (split; [done|by destruct (_ && _)]).
  rewrite Hes2 Ha in Hcase3. rewrite Ha in Hcase2.
  assert (He : e ∈ l1 ++ e :: l2) by set_solver.
  destruct Hcase2 as [(-> & x & m1 & m2 & Hx & Hm1 & Hxn & ->)|(_ & _ & Hf)]; [|by rewrite Forall_forall in Hf; destruct (Hf e He)].
  destruct (first_split (λ e, de_name e = name) _ _ _ _ _ _ Hno1 He2 Hm1 Hxn Hx) as (_ & <- & _). rewrite He1 in HL2.
  destruct Hcase3 as [(-> & y & m3 & m4 & Hy & Hm3 & Hyn & Hes3)|(_ & _ & Hf)]; [|by rewrite Forall_forall in Hf; destruct (Hf e He)].
  destruct (first_split (wanted (Some name) ino 0) _ _ _ _ _ _ ltac:(eapply Forall_impl; [exact Hno1|by intros z Hz [? _]]) Hw Hm3 Hyn Hy)
    as (<- & _ & <-).
  assert (Hno3 : Forall (λ e, de_name e ≠ name) (entries d3 ls3)) by by rewrite Hes3 Forall_app.
  destruct Hcase4 as [(_ & z & n1 & n2 & Hz & _ & Hzn & _)|(-> & -> & _)].
  { rewrite Hz Forall_app Forall_cons in Hno3. tauto. }
  exists d2, d3, d4, ls3. split; [exact HL2|]. split; [exact HU3|]. split; [done|]. split; [by rewrite Hes3 -Hb|]. split; [|done].
  intros z Hz. by rewrite Hs3 // Hs2 // Hs1.
Qed.
End directory.

(** A directory whose blocks are mapped by pointers, none of its blocks an
    indirect block, is one of these. *)
Lemma mapped_linear_dir {D} (content : D → Z → list Z) (ch : io_channel D) `{!Works32 content ch} ext2fs_read_inode io_is_image
    ext2fs_write_inode iterate_extents check_directory fs dir inode Meta rd :
  dir_fs_ok fs → seed_ok fs → fs_magic fs = EXT2_ET_MAGIC_EXT2FS_FILSYS → flag (fs_flags fs) EXT2_FLAG_RW = true →
  flag (fs_flags fs) EXT2_FLAG_IMAGE_FILE = false → ext2fs_read_inode fs dir = (E_OK, inode) →
  flag (i_flags inode) EXT2_INDEX_FL = false → ext2fs_check_directory ext2fs_read_inode check_directory fs dir = 0 →
  mapped_file (read_inode ext2fs_read_inode) fs dir BLOCK_FLAG_READ_ONLY inode → file_ok fs Meta rd inode →
  let vs := file_visits rd (limit fs) BLOCK_FLAG_READ_ONLY (given_offset rd) inode in
  Forall (λ v, v_count v < 0 ∨ v_blk v ∈ (data_of vs).*1) vs → (∀ x, x ∈ (data_of vs).*1 → ¬ Meta x) →
  linear_dir content ch ext2fs_read_inode io_is_image ext2fs_write_inode iterate_extents check_directory fs dir vs Meta rd.
Proof.
  intros Hfs Hseed Hm Hrw Him Hr Hix Hck Hmf Hok vs Hvs Hdis. pose proof Hfs as [Hbs Hbs4].
  constructor; try done; [by exists inode|]. intros P func. apply mapped_iterates; (done || lia).
Qed.

(** ** A directory in memory *)

(** The file system of CsumProps's examples, with 32 inodes, types in the entries, and open for writing. *)
Definition demo_dir_fs : ext2_filsys :=
  Filsys EXT2_ET_MAGIC_EXT2FS_FILSYS (set32 96 2 (set32 0 32 csum_super)) 1 1024 4 1 2 0 0 0x12345678 (Some demo_gd) (λ _, None).
Definition demo_dir_inode : list Z := set_i_block 0 20 (set16 128 32 (set16 0 0x41ED (replicate 256 0))).
Definition demo_dir_read (fs : ext2_filsys) (inum : Z) : errcode * list Z := (E_OK, demo_dir_inode).
Definition demo_write_inode {D} (fs : ext2_filsys) (ch : io_channel D) (ino : Z) (inode : list Z) : Z * io_channel D := (0, ch).
Definition demo_extents (P : Type) (func : block_func mem_device (dir_context P)) (fs : ext2_filsys) (ino flags : Z) (inode : list Z)
  (ret : Z) (ctx : block_context mem_device (dir_context P)) : option (Z * bool * list Z * block_context mem_device (dir_context P)) := None.
Definition demo_inline (P : Type) (fs : ext2_filsys) (dir : Z) (ctx : dir_context P) : option (dir_context P) := None.
Definition demo_dx_link {D} (fs : ext2_filsys) (ch : io_channel D) (dir : Z) (inode name : list Z) (ino flags : Z) :
    option (Z * io_channel D) := None.

(** The block of a new directory, written to block 20. *)
Definition demo_dir_block : list Z :=
  (ext2fs_dir_block_csum_set demo_dir_read demo_dir_fs 2 (ext2fs_new_dir_block demo_dir_fs 2 2 true).2).2.
Definition demo_dir_device : mem_device := {[ 20 := demo_dir_block ]}.
Definition demo_dir_channel : io_channel mem_device := mem_channel 1024 ∅.

Definition demo_visits : list visit := [Visit 20 0 0 0].

Lemma demo_dir_linear : linear_dir (mem_content 1024) demo_dir_channel demo_dir_read false demo_write_inode demo_extents None
  demo_dir_fs 2 demo_visits (λ _, False) (λ _, []).
Proof.
  assert (Hvs : file_visits (λ _, []) (limit demo_dir_fs) BLOCK_FLAG_READ_ONLY (given_offset (λ _, [])) demo_dir_inode = demo_visits) by by vm_compute.
  rewrite -Hvs. apply (mapped_linear_dir _ _ _ _ _ _ _ _ _ demo_dir_inode); rewrite ?Hvs; try by vm_compute.
  - constructor; [done|repeat apply set_le_bytes; by apply Forall_replicate|by apply Nat.leb_le; vm_compute|by vm_compute|by vm_compute|left; by vm_compute|].
    left. by vm_compute.
  - constructor; [|done]. right. by left.
Qed.

Lemma demo_block_ok : dir_block_ok demo_dir_fs demo_dir_block [0; 12].
Proof.
  constructor.
  - apply (bool_decide_unpack _). by vm_compute.
  - by vm_compute.
  - assert (dirent_rec_len 0 demo_dir_block = 12) as H1 by by vm_compute.
    assert (dirent_rec_len 12 demo_dir_block = 1000) as H2 by by vm_compute.
    constructor; [|rewrite H1; constructor; [|rewrite H2; by constructor]].
    all: repeat split; by vm_compute.
  - intros _. by vm_compute.
Qed.

Abbreviation demo_dir_is := (dir_is (mem_content 1024) demo_dir_read demo_dir_fs 2 demo_visits (λ _, False) (λ _, [])).

Lemma demo_dir_at : demo_dir_is demo_dir_device [[0; 12]].
Proof.
  split; [|by intros x []]. split; [apply NoDup_singleton|]. constructor; [|constructor]. split; [|done].
  assert (Hb : mem_content 1024 demo_dir_device (20, 0).1 = demo_dir_block) by reflexivity.
  constructor; [by split|rewrite Hb; exact demo_block_ok|right; by vm_compute].
Qed.

Definition demo_entries : list dir_entry := [DirEntry 2 2 [46]; DirEntry 2 2 [46; 46]].

Lemma demo_dir_entries : concat (dir_entries (mem_content 1024) demo_dir_device (data_of demo_visits) [[0; 12]]) = demo_entries.
Proof. by vm_compute. Qed.

Definition demo_link (d : mem_device) : option (Z * io_channel mem_device) :=
  ext2fs_link demo_dir_read false demo_write_inode demo_extents demo_inline None demo_dx_link demo_dir_fs (set_state demo_dir_channel d) 2
    (Some [102; 111; 111]) 12 1 true.
Definition demo_linked : mem_device := if demo_link demo_dir_device is Some (_, ch) then ch_state ch else ∅.

Lemma ext2fs_link_witness : ∃ retval d' ls', demo_link demo_dir_device = Some (retval, set_state demo_dir_channel d') ∧
  demo_dir_is d' ls'.
Proof.
  destruct (ext2fs_link_correct (mem_content 1024) demo_dir_channel demo_dir_read false demo_write_inode demo_extents demo_inline None
    demo_dir_fs 2 demo_visits (λ _, False) (λ _, []) demo_dir_linear demo_dx_link [102; 111; 111] 12 1 demo_dir_device [[0; 12]])
    as (retval & d' & ls' & H & Hat & _); [by repeat constructor|cbn; lia|lia|exact demo_dir_at|].
  exists retval, d', ls'. exact (conj H Hat).
Defined.

Lemma ext2fs_unlink_witness : ∃ retval d' ls',
  ext2fs_unlink demo_dir_read false demo_write_inode demo_extents demo_inline None demo_dir_fs (set_state demo_dir_channel demo_dir_device) 2
    (Some [46; 46]) 0 0 true = Some (retval, set_state demo_dir_channel d') ∧
  demo_dir_is d' ls'.
Proof.
  destruct (ext2fs_unlink_correct (mem_content 1024) demo_dir_channel demo_dir_read false demo_write_inode demo_extents demo_inline None
    demo_dir_fs 2 demo_visits (λ _, False) (λ _, []) demo_dir_linear (Some [46; 46]) 0 0 demo_dir_device [[0; 12]])
    as (retval & d' & ls' & H & Hat & _); [by repeat constructor|by left|exact demo_dir_at|].
  exists retval, d', ls'. exact (conj H Hat).
Defined.

Lemma ext2fs_lookup_witness : ∃ d',
  ext2fs_lookup demo_dir_read false demo_write_inode demo_extents demo_inline None demo_dir_fs (set_state demo_dir_channel demo_dir_device) 2
    [46; 46] 2 true 0 = Some (0, 2, set_state demo_dir_channel d').
Proof.
  destruct (ext2fs_lookup_correct (mem_content 1024) demo_dir_channel demo_dir_read false demo_write_inode demo_extents demo_inline None
    demo_dir_fs 2 demo_visits (λ _, False) (λ _, []) demo_dir_linear [46; 46] 0 demo_dir_device [[0; 12]])
    as (d' & ls' & H & _); [by repeat constructor|exact demo_dir_at|].
  exists d'. rewrite demo_dir_entries in H. exact H.
Defined.

Lemma link_unlink_witness : ∃ d2, ext2fs_lookup demo_dir_read false demo_write_inode demo_extents demo_inline None demo_dir_fs
  (set_state demo_dir_channel demo_linked) 2 [102; 111; 111] 3 true 0 = Some (0, 12, set_state demo_dir_channel d2).
Proof.
  destruct (link_unlink_roundtrip (mem_content 1024) demo_dir_channel demo_dir_read false demo_write_inode demo_extents demo_inline None
    demo_dir_fs 2 demo_visits (λ _, False) (λ _, []) demo_dir_linear demo_dx_link [102; 111; 111] 12 1 0 demo_dir_device [[0; 12]] demo_linked)
    as (d2 & _ & _ & _ & H & _); [by repeat constructor|by repeat constructor|cbn; lia|lia|exact demo_dir_at| | |].
  - rewrite demo_dir_entries. cbn. set_solver.
  - by vm_compute.
  - exists d2. exact H.
Defined.

(** The name is cut off at the length of a byte when the room for it is looked
    for, but copied whole: a name of 300 bytes goes over the record it is given
    (of 56 bytes; 52 are looked for, as for a name of 44), here over the next entry. *)
Example link_long_name :
  let b := (ext2fs_set_rec_len demo_dir_fs 956 56 (ext2fs_set_rec_len demo_dir_fs 56 0 (replicate 1024 0)).2).2 in
  EXT2_DIR_REC_LEN 300 = 52 ∧
  (r ← link_proc demo_dir_fs DIRENT_OTHER_FILE 0 1024 (set_dirent_inode 56 11 b) (LinkStruct (replicate 300 97) 300 12 1 0 0);
   Some (dirent_inode 56 r.1.2, r.1.1)) = Some (0x61616161, 3).
Proof. by vm_compute. Qed.

(** ** Blocks that hold anything *)
Section any_block.
Context {P : Type} (func : Z → Z → Z → list Z → P → option (Z * list Z * P)).
Context (fs : ext2_filsys) (flags : Z) (inline_data : bool) (buflen csum_size : Z).
Context (Hbs : 0 ≤ fs_blocksize fs ≤ 65536) (Hlen : 8 ≤ buflen ≤ 65536).

(** A buffer of the right length, and an entry in it: its record and its name end inside. *)
Definition buffer_ok (b : list Z) : Prop := is_bytes b ∧ Z.of_nat (length b) = buflen.
Definition entry_inside (b : list Z) (off : Z) : Prop :=
  0 ≤ off ∧ ext2fs_get_rec_len fs off b mod 4 = 0 ∧ 8 ≤ ext2fs_get_rec_len fs off b ∧ off + ext2fs_get_rec_len fs off b ≤ buflen ∧
  ext2fs_dirent_name_len off b + 8 ≤ ext2fs_get_rec_len fs off b.

(** A call-back that works on the entries of such a buffer, and only there,
    keeps its state in [Inv], and leaves a record not shorter than its fields. *)
Definition safe_callback (Inv : P → Prop) : Prop := ∀ kind b off p, buffer_ok b → entry_inside b off → Inv p →
  ∃ ret b' p', func kind off buflen b p = Some (ret, b', p') ∧ buffer_ok b' ∧ Inv p' ∧
    (flag ret DIRENT_ABORT = false → flag ret DIRENT_CHANGED = true → 8 ≤ ext2fs_get_rec_len fs off b').

Lemma get_rec_len_range b off : is_bytes b → 0 ≤ ext2fs_get_rec_len fs off b < 2^18.
Proof.
  intros Hb. unfold ext2fs_get_rec_len. assert (Hr : 0 ≤ dirent_rec_len off b < 2^16) by by apply (get_le_range 2).
  destruct (bool_decide _); [lia|]. destruct (bool_decide _); [lia|]. apply lor_range; [done| |].
  - pose proof (land_range 16 (dirent_rec_len off b) 65532 ltac:(done) Hr). lia.
  - rewrite Z.shiftl_mul_pow2 //. change 3 with (Z.ones 2). rewrite Z.land_ones //.
    pose proof (Z.mod_pos_bound (dirent_rec_len off b) (2^2) ltac:(done)). lia.
Qed.

Lemma skip_invalid_ge fuel b offset final : 0 ≤ offset → final < 2^31 → offset ≤ skip_invalid fuel fs b offset final.
Proof.
  intros Ho Hf. revert offset Ho. induction fuel as [|fuel IH]; intros offset Ho; cbn [skip_invalid]; [done|].
  destruct (bool_decide (offset < final)) eqn:Hlt; cbn [andb]; [|done]. apply bool_decide_eq_true in Hlt.
  destruct (negb _); [|done]. rewrite (u32_small (offset + 4)); [|lia]. specialize (IH (offset + 4) ltac:(lia)). lia.
Qed.

Lemma name_room n : 0 ≤ n < 256 → 8 ≤ Z.land (n + 11) (Z.lnot 3) ≤ n + 11.
Proof.
  intros Hn. destruct (dir_rec_len_spec n Hn) as [H _]. unfold EXT2_DIR_REC_LEN in H. rewrite u8_small in H; [|lia].
  replace (n + 11) with (n + 8 + 3) by lia. lia.
Qed.

(** The next entry looked at is at least 8 bytes further on. *)
Lemma dir_next_progress rec_len (s : dir_scan P) : is_bytes (sc_buf s) → 0 ≤ sc_offset s < 2^17 → 8 ≤ rec_len < 2^18 →
  let s' := dir_next fs flags rec_len s in sc_buf s' = sc_buf s ∧ sc_offset s + 8 ≤ sc_offset s'.
Proof.
  intros Hb Ho Hr. split; [done|]. cbn [sc_offset dir_next]. rewrite (u32_small (sc_offset s + rec_len)); [|lia].
  pose proof (name_room _ (name_len_range (sc_offset s) (sc_buf s) Hb)) as Hsz.
  pose proof (name_len_range (sc_offset s) (sc_buf s) Hb). destruct (_ && _); [|lia].
  rewrite u32_small; [|lia]. etransitivity; [|apply skip_invalid_ge; lia]. lia.
Qed.

(** What a round ends with. *)
Abbreviation ends r := match r with
  | ScanNext _ => False
  | ScanDone _ s' | ScanCorrupt s' => buffer_ok (sc_buf s')
  end.

Lemma dir_iteration_total Inv (s : dir_scan P) : safe_callback Inv → buffer_ok (sc_buf s) → Inv (sc_priv s) → sc_offset s = 0 →
  ∃ r, dir_loop func (Z.to_nat buflen) fs flags inline_data buflen csum_size s = Some r ∧ ends r.
Proof.
  intros Hsafe Hb Hi Ho. cut (∀ fuel s, buffer_ok (sc_buf s) → Inv (sc_priv s) → 0 ≤ sc_offset s → buflen - sc_offset s < 8 * Z.of_nat fuel → (0 < fuel)%nat →
    ∃ r, dir_loop func fuel fs flags inline_data buflen csum_size s = Some r ∧ ends r).
  { intros H. apply H; (done || lia). }
  clear s Hb Hi Ho. induction fuel as [|fuel IH]; intros s Hb Hi Ho Hf Hpos; [lia|]. cbn [dir_loop].
  unfold dir_step. decide_case (sc_offset s < u32 (buflen - 8)) as Hlt.
  2:{ eexists. by split. }
  rewrite u32_small in Hlt; [|lia]. pose proof (get_rec_len_range (sc_buf s) (sc_offset s) (proj1 Hb)) as Hr.
  set (rec_len := ext2fs_get_rec_len fs (sc_offset s) (sc_buf s)) in *.
  decide_case (buflen < u32 (sc_offset s + rec_len) ∨ rec_len < 8 ∨ rec_len mod 4 ≠ 0 ∨
    rec_len < ext2fs_dirent_name_len (sc_offset s) (sc_buf s) + 8) as Hbad.
  { eexists. by split. }
  rewrite u32_small in Hbad; [|lia].
  assert (Hin : entry_inside (sc_buf s) (sc_offset s)) by (unfold entry_inside; fold rec_len; lia).
  (* the next round, from a later offset *)
  assert (Hnext : ∀ s', buffer_ok (sc_buf s') → Inv (sc_priv s') → sc_offset s + 8 ≤ sc_offset s' →
    ∃ r, dir_loop func fuel fs flags inline_data buflen csum_size s' = Some r ∧ ends r).
  { intros s' Hb' Hi' Ho'. apply IH; (done || lia). }
  assert (Hskip : ∃ r, (r0 ← Some (ScanNext (dir_next fs flags rec_len s));
      match r0 with ScanNext s => dir_loop func fuel fs flags inline_data buflen csum_size s | _ => Some r0 end) = Some r ∧ ends r).
  { cbn [mbind option_bind]. destruct (dir_next_progress rec_len s (proj1 Hb)) as [Hs' Ho']; [lia|lia|].
    apply Hnext; [by rewrite Hs'|done|done]. }
  assert (Hcall : ∀ entry, ∃ r, (r0 ← dir_call func fs flags buflen rec_len entry s;
      match r0 with ScanNext s => dir_loop func fuel fs flags inline_data buflen csum_size s | _ => Some r0 end) = Some r ∧ ends r).
  { intros entry. unfold dir_call.
    destruct (Hsafe (if bool_decide (sc_offset s < sc_next_real_entry s) then DIRENT_DELETED_FILE else entry)
      (sc_buf s) (sc_offset s) (sc_priv s) Hb Hin Hi) as (ret & b' & p' & -> & Hb' & Hi' & Hch). cbn [mbind option_bind].
    destruct (flag ret DIRENT_ABORT); [eexists; by split|]. specialize (Hch eq_refl).
    pose proof (get_rec_len_range b' (sc_offset s) (proj1 Hb')).
    set (rl := if flag ret DIRENT_CHANGED then _ else _). assert (Hrl : 8 ≤ rl < 2^18).
    { subst rl. destruct (flag ret DIRENT_CHANGED); [split; [by apply Hch|lia]|lia]. }
    match goal with |- context [dir_next fs flags rl ?s1] => destruct (dir_next_progress rl s1) as [Hs' Ho']; [exact (proj1 Hb')|cbn; lia|done|] end.
    apply Hnext; [by rewrite Hs'|done|done]. }
  destruct (bool_decide (dirent_inode _ _ = 0)); [|apply Hcall].
  destruct (negb inline_data && _); [destruct (negb _); [apply Hskip|apply Hcall]|].
  destruct (negb _); [apply Hskip|apply Hcall].
Qed.
End any_block.

(** The three call-backs of the program, on any entry inside the block. *)
Section callbacks.
Context (fs : ext2_filsys) (buflen : Z).
Context (Hbs : 1024 ≤ fs_blocksize fs ≤ 65536) (Hlen : 8 ≤ buflen ≤ fs_blocksize fs).
Abbreviation sized := (buffer_ok buflen).

Lemma sized_set k off v b : sized b → 0 ≤ off → off + Z.of_nat k ≤ buflen → sized (set_le k off v b).
Proof.
  intros [Hb Hl] ? ?. split; [by apply set_le_bytes|]. rewrite length_set_le //. unfold in_buf. lia.
Qed.

(** Lengths of records can be read back, those of 64 KiB too. *)
Lemma rec_len_roundtrip v off b : sized b → 0 ≤ off → off + 8 ≤ buflen → 0 < v →
  (∃ e, ext2fs_set_rec_len fs v off b = (e, b) ∧ e ≠ 0) ∨
  ∃ x b', ext2fs_set_rec_len fs v off b = (0, b') ∧ b' = set_dirent_rec_len off x b ∧ v mod 4 = 0 ∧ v ≤ fs_blocksize fs ∧
    ext2fs_get_rec_len fs off b' = v ∧ (v < 65536 → x = v).
Proof.
  intros [Hb Hl] Ho Hend Hv. unfold ext2fs_set_rec_len.
  assert (Hget : ∀ x, 0 ≤ x < 2^16 → dirent_rec_len off (set_dirent_rec_len off x b) = x).
  { intros x Hx. unfold dirent_rec_len, set_dirent_rec_len. rewrite (get_set_le 2); [|unfold in_buf; lia]. by apply Z.mod_small. }
  decide_case (fs_blocksize fs < v ∨ 2^18 < fs_blocksize fs ∨ Z.land v 3 ≠ 0) as Hbad; [left; by eexists|right].
  assert (Hm : v mod 4 = 0).
  { change 3 with (Z.ones 2) in Hbad. rewrite Z.land_ones // in Hbad. change (2^2) with 4 in Hbad. lia. }
  unfold ext2fs_get_rec_len. decide_case (v < 65536) as Hlt.
  - eexists v, _. split; [reflexivity|]. do 3 (split; [done || lia|]). split; [|done]. rewrite Hget; [|lia].
    decide_case (fs_blocksize fs < 65536) as H64; [done|]. rewrite bool_decide_eq_false_2.
    + assert (H3 : Z.land v 3 = 0) by (change 3 with (Z.ones 2); rewrite Z.land_ones //).
      rewrite H3 Z.shiftl_0_l Z.lor_0_r. transitivity (Z.land v (Z.lor 65532 3)); [by rewrite Z.land_lor_distr_r H3 Z.lor_0_r|].
      change (Z.lor 65532 3) with (Z.ones 16). rewrite Z.land_ones // Z.mod_small //. lia.
    + unfold EXT4_MAX_REC_LEN. intros [->| ->]; [by vm_compute in Hm|lia].
  - assert (v = fs_blocksize fs) as -> by lia. assert (fs_blocksize fs = 65536) as -> by lia. cbn.
    eexists _, _. split; [reflexivity|]. do 3 (split; [done|]). split; [|lia]. rewrite Hget //.
Qed.

Lemma get_rec_len_set_ne k o v off b : sized b → 0 ≤ o → o + Z.of_nat k ≤ buflen → 0 ≤ off →
  off + 6 ≤ o ∨ o + Z.of_nat k ≤ off + 4 → ext2fs_get_rec_len fs off (set_le k o v b) = ext2fs_get_rec_len fs off b.
Proof.
  intros [_ Hl] Ho Hk Hoff Hne. unfold ext2fs_get_rec_len, dirent_rec_len. rewrite get_set_le_ne //; [unfold in_buf; lia|lia|lia].
Qed.

Lemma absorb_safe off b : sized b → entry_inside fs buflen b off →
  ∃ ret curr err b', absorb_next fs off buflen b = (ret, curr, err, b') ∧ sized b' ∧ flag ret DIRENT_ABORT = false ∧
    (err = 0 → ext2fs_get_rec_len fs off b' = curr ∧ entry_inside fs buflen b' off).
Proof.
  intros Hb Hin. pose proof Hin as (Ho & Hm & H8 & Hend & Hn). unfold absorb_next.
  set (curr := ext2fs_get_rec_len fs off b) in *. set (next := off + curr).
  decide_case (next < buflen - (8 + dir_csum_size fs) ∧ dirent_inode next b = 0 ∧ next + dirent_rec_len next b ≤ buflen) as Hc.
  2:{ eexists _, _, _, _. split; [reflexivity|]. done. }
  assert (Hr : 0 ≤ dirent_rec_len next b) by (apply (get_le_range 2); apply Hb).
  destruct (rec_len_roundtrip (curr + dirent_rec_len next b) off b Hb Ho) as [(e & -> & He)|(x & b' & -> & Hb' & Hvm & _ & Hget & _)];
    [lia|lia| |]; (eexists _, _, _, _; split; [reflexivity|]); [by split; [|split; [|intros ?]]|].
  split; [rewrite Hb'; apply sized_set; (done || lia)|]. split; [done|]. intros _. split; [done|].
  assert (Hnl : ext2fs_dirent_name_len off b' = ext2fs_dirent_name_len off b).
  { unfold ext2fs_dirent_name_len. f_equal. rewrite Hb'. destruct Hb as [_ Hl]. apply get_set_le_ne; [unfold in_buf; lia|lia|lia]. }
  unfold entry_inside. rewrite Hget Hnl. lia.
Qed.

Lemma split_safe off b ret need ls : sized b → entry_inside fs buflen b off → flag ret DIRENT_ABORT = false → 12 ≤ need →
  ∃ ret' b' ls', split_entry fs off ret (ext2fs_get_rec_len fs off b) need b ls = (ret', b', ls') ∧ sized b' ∧
    ls_name ls' = ls_name ls ∧ ls_namelen ls' = ls_namelen ls ∧
    (flag ret' DIRENT_ABORT = false → 8 ≤ ext2fs_get_rec_len fs off b').
Proof.
  intros Hb Hin Hret Hneed. pose proof Hin as (Ho & Hm & H8 & Hend & Hn). unfold split_entry.
  destruct (dir_rec_len_spec _ (name_len_range off b (proj1 Hb))) as [Hmin Hminm].
  pose proof (name_len_range off b (proj1 Hb)).
  set (min := EXT2_DIR_REC_LEN (ext2fs_dirent_name_len off b)) in *. set (curr := ext2fs_get_rec_len fs off b) in *.
  decide_case (curr < min + need) as Hlt.
  { eexists _, _, _. split; [reflexivity|]. do 3 (split; [done|]). fold curr. lia. }
  destruct (rec_len_roundtrip min off b Hb Ho) as [(e & -> & He)|(x & b1 & -> & Hb1 & _ & _ & Hget & Hx)]; [lia|lia| |].
  { rewrite bool_decide_eq_true_2 //. eexists _, _, _. by split. }
  rewrite (bool_decide_eq_false_2 (0 ≠ 0)); [|tauto]. specialize (Hx ltac:(lia)). subst x.
  assert (S1 : sized b1) by (rewrite Hb1; apply sized_set; (done || lia)).
  assert (Hraw : dirent_rec_len off b1 = min).
  { rewrite Hb1. unfold dirent_rec_len, set_dirent_rec_len. rewrite (get_set_le 2); [|destruct Hb; unfold in_buf; lia]. apply Z.mod_small. lia. }
  rewrite Hraw. set (next := off + min).
  set (b2 := set_dirent_inode next 0 b1). assert (S2 : sized b2) by (apply sized_set; (done || lia)).
  set (b3 := ext2fs_dirent_set_name_len next 0 b2). assert (S3 : sized b3) by (apply sized_set; (done || lia)).
  set (b4 := ext2fs_dirent_set_file_type next 0 b3). assert (S4 : sized b4) by (apply sized_set; (done || lia)).
  assert (G4 : ext2fs_get_rec_len fs off b4 = min).
  { unfold b4, ext2fs_dirent_set_file_type. rewrite get_rec_len_set_ne; [|done|lia|lia|lia|lia].
    unfold b3, ext2fs_dirent_set_name_len. rewrite get_rec_len_set_ne; [|done|lia|lia|lia|lia].
    unfold b2, set_dirent_inode. rewrite get_rec_len_set_ne; [done|done|lia|lia|lia|lia]. }
  destruct (rec_len_roundtrip (curr - min) next b4 S4) as [(e & -> & He)|(x & b5 & -> & Hb5 & _)]; [lia|lia|lia| |].
  { rewrite bool_decide_eq_true_2 //. eexists _, _, _. by split. }
  rewrite (bool_decide_eq_false_2 (0 ≠ 0)); [|tauto]. eexists _, _, _. split; [reflexivity|].
  split; [rewrite Hb5; apply sized_set; (done || lia)|]. do 2 (split; [done|]). intros _. rewrite Hb5.
  rewrite get_rec_len_set_ne; [lia|done|lia|lia|lia|lia].
Qed.

(** The name of the call fits a byte. *)
Definition link_state_ok (ls : link_struct) : Prop :=
  is_bytes (ls_name ls) ∧ ls_namelen ls = Z.of_nat (length (ls_name ls)) ∧ 1 ≤ ls_namelen ls ≤ 255.

Lemma write_name_sized off name b : sized b → 0 ≤ off → is_bytes name → off + 8 + Z.of_nat (length name) ≤ buflen →
  ∃ b', write_name off name b = Some b' ∧ sized b'.
Proof.
  intros [Hb Hl] Ho Hn Hend. destruct (write_name_ok off name b Ho) as (b' & Hw & He & _); [lia|done|].
  exists b'. split; [done|]. split; [by apply (ed_bytes _ _ _ _ He)|by rewrite (ed_length _ _ _ _ He)].
Qed.

Lemma link_proc_safe : safe_callback (link_proc fs) fs buflen link_state_ok.
Proof.
  intros kind b off ls Hb Hin (Hn & Hlen' & Hrange). unfold link_proc.
  destruct (bool_decide (ls_done ls ≠ 0)); [eexists _, _, _; by split|].
  destruct (absorb_safe off b Hb Hin) as (ret & curr & err & b1 & -> & Hb1 & Hret & Hok).
  set (ls1 := ls_fail err ls). assert (Hls1 : link_state_ok ls1) by done.
  decide_case (err ≠ 0) as Herr; [eexists _, _, _; by split|]. destruct (Hok ltac:(lia)) as [Hcurr Hin1]. clear Hok.
  pose proof Hin1 as (Ho & Hm & H8 & Hend & Hnl). destruct (dir_rec_len_spec (ls_namelen ls)) as [Hneed Hneedm]; [lia|].
  assert (H12 : 12 ≤ EXT2_DIR_REC_LEN (ls_namelen ls)) by (pose proof (Z.div_mod (EXT2_DIR_REC_LEN (ls_namelen ls)) 4 ltac:(done)); lia).
  set (need := EXT2_DIR_REC_LEN (ls_namelen ls)) in *.
  destruct (bool_decide (dirent_inode off b1 ≠ 0)).
  { destruct (split_safe off b1 ret need ls1 Hb1 Hin1 Hret H12) as (ret' & b2 & ls2 & Hsp & Hb2 & Hnm & Hnl2 & Hr).
    rewrite -Hcurr Hsp. eexists _, _, _. split; [reflexivity|]. split; [done|]. split; [by rewrite /link_state_ok Hnm Hnl2|auto]. }
  decide_case (curr < need) as Hshort; [eexists _, _, _; split; [reflexivity|]; split; [done|]; split; [done|lia]|].
  cbn [ls_inode ls_namelen ls_name ls_flags ls1 ls_fail].
  set (b2 := set_dirent_inode off (ls_inode ls) b1). assert (S2 : sized b2) by (apply sized_set; (done || lia)).
  set (b3 := ext2fs_dirent_set_name_len off (ls_namelen ls) b2). assert (S3 : sized b3) by (apply sized_set; (done || lia)).
  destruct (write_name_sized off (ls_name ls) b3 S3 Ho Hn) as (b4 & -> & S4); [lia|]. cbn [mbind option_bind].
  eexists _, _, _. split; [reflexivity|]. split; [|split; [done|by intros [=]]].
  destruct (ext2fs_has_feature_filetype _); [apply sized_set; (done || lia)|done].
Qed.

(** The entry before lies in the block. *)
Definition unlink_state_ok (ls : unlink_struct) : Prop := 0 ≤ us_prev ls ∧ us_prev ls + 8 ≤ buflen.

Lemma unlink_proc_safe : safe_callback unlink_proc fs buflen unlink_state_ok.
Proof.
  intros kind b off ls Hb (Ho & Hm & H8 & Hend & Hnl) [Hp Hp']. unfold unlink_proc.
  assert (Hinv : ∀ d, unlink_state_ok (UnlinkStruct (us_name ls) (us_namelen ls) (us_inode ls) (us_flags ls) off d)) by (split; cbn; lia).
  do 2 (lazymatch goal with |- context [if ?c then Some (0, _, _) else _] => destruct c end; [eexists _, _, _; by split|]).
  eexists _, _, _. split; [reflexivity|]. split; [|split; [apply Hinv|by intros [=]]].
  destruct (bool_decide (off ≠ 0)); apply sized_set; (done || lia).
Qed.

Lemma lookup_proc_safe : safe_callback lookup_proc fs buflen (λ _, True).
Proof.
  intros kind b off ls Hb _ _. unfold lookup_proc. repeat case_match; eexists _, _, _; by split.
Qed.

(** C7: Whatever the bytes of a directory's block are, linking (a name of up to
    255 bytes), unlinking and looking up in it end within as many rounds as the
    block has bytes, at the end of the block, at an abort or with the block found
    corrupted, and none of them writes outside the block. *)
Theorem dir_operations_safe flags inline_data csum_size kind b ls us lk : sized b → link_state_ok ls → unlink_state_ok us →
  (∃ r, dir_loop (link_proc fs) (Z.to_nat buflen) fs flags inline_data buflen csum_size (DirScan 0 0 kind false b ls) = Some r ∧
     match r with ScanNext _ => False | ScanDone _ s' | ScanCorrupt s' => sized (sc_buf s') end) ∧
  (∃ r, dir_loop unlink_proc (Z.to_nat buflen) fs flags inline_data buflen csum_size (DirScan 0 0 kind false b us) = Some r ∧
     match r with ScanNext _ => False | ScanDone _ s' | ScanCorrupt s' => sized (sc_buf s') end) ∧
  (∃ r, dir_loop lookup_proc (Z.to_nat buflen) fs flags inline_data buflen csum_size (DirScan 0 0 kind false b lk) = Some r ∧
     match r with ScanNext _ => False | ScanDone _ s' | ScanCorrupt s' => sized (sc_buf s') end).
Proof.
  intros Hb Hls Hus. split_and!.
  - by apply (dir_iteration_total (link_proc fs) fs flags inline_data buflen csum_size ltac:(lia) ltac:(lia) _ _ link_proc_safe).
  - by apply (dir_iteration_total (unlink_proc) fs flags inline_data buflen csum_size ltac:(lia) ltac:(lia) _ _ unlink_proc_safe).
  - by apply (dir_iteration_total (lookup_proc) fs flags inline_data buflen csum_size ltac:(lia) ltac:(lia) _ _ lookup_proc_safe).
Qed.
End callbacks.

Lemma dir_operations_safe_witness : ∃ r,
  dir_loop (link_proc demo_dir_fs) (Z.to_nat 1024) demo_dir_fs 7 false 1024 12
    (DirScan 0 0 DIRENT_OTHER_FILE false (replicate 1024 255) (LinkStruct [97] 1 12 1 0 0)) = Some r ∧
  match r with ScanNext _ => False | ScanDone _ s' | ScanCorrupt s' => buffer_ok 1024 (sc_buf s') end.
Proof.
  apply (dir_operations_safe demo_dir_fs 1024 ltac:(cbn; lia) ltac:(cbn; lia) 7 false 12 DIRENT_OTHER_FILE (replicate 1024 255)
    (LinkStruct [97] 1 12 1 0 0) (UnlinkStruct None 0 12 0 0 0) (LookupStruct [97] 1 0 0)).
  - split; [by apply Forall_replicate|by vm_compute].
  - by repeat constructor.
  - by split.
Defined.

(** ** New blocks *)
Section new_block.
Context (fs : ext2_filsys) (Hfs : dir_fs_ok fs).
Abbreviation bs := (fs_blocksize fs).
Abbreviation last := (fs_blocksize fs - dir_csum_size fs).
Abbreviation sized := (buffer_ok bs).

Lemma edited_sized b b' lo hi : edited b b' lo hi → sized b → sized b'.
Proof. intros E [Hb Hl]. split; [by apply (ed_bytes _ _ _ _ E)|by rewrite (ed_length _ _ _ _ E)]. Qed.

(** The inode, the length and the type of a name, in any order of what was there before. *)
Lemma head_ok b off ino len ty : sized b → 0 ≤ off → off + 8 ≤ bs → 0 ≤ ino < 2^32 → 0 ≤ len < 256 → 0 ≤ ty < 256 →
  let b' := ext2fs_dirent_set_file_type off ty (ext2fs_dirent_set_name_len off len (set_dirent_inode off ino b)) in
  edited b b' off (off + 8) ∧ dirent_inode off b' = ino ∧ dirent_rec_len off b' = dirent_rec_len off b ∧
  ext2fs_dirent_name_len off b' = len ∧ ext2fs_dirent_file_type off b' = ty.
Proof.
  intros [Hb Hl] Ho Hend Hino Hlen Hty.
  set (b1 := set_dirent_inode off ino b).
  assert (E1 : edited b b1 off (off + 8)) by (apply edited_set; [unfold in_buf; lia|lia|lia]).
  destruct (edited_sized _ _ _ _ E1 (conj Hb Hl)) as [B1 L1].
  set (b2 := ext2fs_dirent_set_name_len off len b1).
  assert (E2 : edited b1 b2 off (off + 8)) by (apply edited_set; [unfold in_buf; lia|lia|lia]).
  destruct (edited_sized _ _ _ _ E2 (conj B1 L1)) as [B2 L2].
  set (b3 := ext2fs_dirent_set_file_type off ty b2). intros b'. subst b'.
  assert (E3 : edited b2 b3 off (off + 8)) by (apply edited_set; [unfold in_buf; lia|lia|lia]).
  destruct (set_name_len_bits (dirent_name_len off b1) len) as (Hy & Hy1 & _); [by apply (get_le_range 2)|done|].
  destruct (set_type_bits (dirent_name_len off b2) ty Hty) as (Hz & Hz1 & Hz2).
  assert (N2 : dirent_name_len off b2 = Z.lor (Z.land (dirent_name_len off b1) 0xff00) (Z.land len 0xff)).
  { unfold dirent_name_len at 1. unfold b2, ext2fs_dirent_set_name_len. rewrite (get_set_le 2); [|unfold in_buf; lia]. by apply Z.mod_small. }
  assert (N3 : dirent_name_len off b3 = Z.lor (Z.land (dirent_name_len off b2) 0xff) (Z.shiftl ty 8)).
  { unfold dirent_name_len at 1. unfold b3, ext2fs_dirent_set_file_type. rewrite (get_set_le 2); [|unfold in_buf; lia]. by apply Z.mod_small. }
  split; [eapply edited_trans; [exact E1|eapply edited_trans; [exact E2|exact E3]]|].
  unfold ext2fs_dirent_name_len, ext2fs_dirent_file_type. rewrite N3 Hz1 Hz2 N2 Hy1. split; [|split; [|done]].
  - transitivity (dirent_inode off b2); [apply get_set_le_ne; [unfold in_buf; lia|lia|lia]|].
    transitivity (dirent_inode off b1); [apply get_set_le_ne; [unfold in_buf; lia|lia|lia]|].
    unfold dirent_inode, b1, set_dirent_inode. rewrite (get_set_le 4); [|unfold in_buf; lia]. by apply Z.mod_small.
  - transitivity (dirent_rec_len off b2); [apply get_set_le_ne; [unfold in_buf; lia|lia|lia]|].
    transitivity (dirent_rec_len off b1); apply get_set_le_ne; (unfold in_buf; lia) || lia.
Qed.

(** A byte of a name. *)
Lemma byte_ok b off v : sized b → 0 ≤ off < bs → 0 ≤ v < 256 →
  edited b (set8 off v b) off (off + 1) ∧ set8 off v b !! Z.to_nat off = Some v.
Proof.
  intros [Hb Hl] Ho Hv. split; [apply edited_set; [unfold in_buf; lia|lia|lia]|].
  unfold set8, set_le. rewrite lookup_app_r length_take; [|lia]. replace (_ - _)%nat with 0%nat by lia. cbn.
  f_equal. by apply Z.mod_small.
Qed.

(** The tail of a block. *)
Lemma init_tail_ok b : sized b → dir_csum_size fs ≠ 0 →
  let b' := ext2fs_initialize_dirent_tail fs (EXT2_DIRENT_TAIL bs) b in
  edited b b' last bs ∧ tail_ok fs b'.
Proof.
  intros [Hb Hl] Hc. destruct Hfs as [Hbs Hm]. destruct (dir_csum_size_cases fs) as [[? _]|[Hcs _]]; [done|].
  unfold ext2fs_initialize_dirent_tail, EXT2_DIRENT_TAIL, tail_ok. rewrite Hcs. change sizeof_dirent_tail with 12.
  set (t := bs - 12). set (b1 := set_le 12 t 0 b).
  assert (E1 : edited b b1 t bs) by (apply edited_set; [unfold in_buf; lia|lia|lia]).
  destruct (edited_sized _ _ _ _ E1 (conj Hb Hl)) as [B1 L1].
  rewrite set_rec_len_call //; [|lia]. cbn [snd]. set (b2 := set_dirent_rec_len t 12 b1).
  assert (E2 : edited b1 b2 t bs) by (apply edited_set; [unfold in_buf; lia|lia|lia]).
  destruct (edited_sized _ _ _ _ E2 (conj B1 L1)) as [B2 L2].
  set (b' := set16 (t + 6) EXT2_DIR_NAME_LEN_CSUM b2). cbv zeta.
  assert (E3 : edited b2 b' t bs) by (apply edited_set; [unfold in_buf; lia|lia|lia]).
  split; [eapply edited_trans; [exact E1|eapply edited_trans; [exact E2|exact E3]]|]. intros _.
  assert (I1 : dirent_inode t b1 = 0).
  { unfold dirent_inode, get_le, b1, set_le. rewrite drop_app_length'; [|rewrite length_take; lia]. done. }
  split_and!.
  - transitivity (dirent_inode t b2); [apply get_set_le_ne; [unfold in_buf; lia|lia|lia]|].
    rewrite -I1. apply get_set_le_ne; [unfold in_buf; lia|lia|lia].
  - transitivity (dirent_rec_len t b2); [apply get_set_le_ne; [unfold in_buf; lia|lia|lia]|].
    unfold dirent_rec_len, b2, set_dirent_rec_len. by rewrite (get_set_le 2); [|unfold in_buf; lia].
  - unfold dirent_name_len, b'. by rewrite (get_set_le 2); [|unfold in_buf; lia].
Qed.

Lemma finish_ok b l : sized b → chain b last 0 l →
  let b' := if bool_decide (dir_csum_size fs ≠ 0) then ext2fs_initialize_dirent_tail fs (EXT2_DIRENT_TAIL bs) b else b in
  dir_block_ok fs b' l ∧ live b' l = live b l.
Proof.
  intros Hs Hc. destruct (bool_decide_reflect (dir_csum_size fs ≠ 0)) as [Hcs|Hcs].
  - destruct (init_tail_ok b Hs Hcs) as [E Ht]. destruct (edited_sized _ _ _ _ E Hs) as [B L].
    destruct (chain_agree _ (ext2fs_initialize_dirent_tail fs (EXT2_DIRENT_TAIL bs) b) _ _ _ Hc) as [Hc' HL]; [apply (ed_agree _ _ _ _ E); lia|lia|].
    split; [by constructor|done].
  - split; [|done]. destruct Hs. constructor; [done..|]. intros Hm.
    destruct (dir_csum_size_cases fs) as [[_ ?]|[? _]]; [congruence|lia].
Qed.

Lemma zero_sized : sized (replicate (Z.to_nat bs) 0).
Proof. destruct Hfs. split; [by apply Forall_replicate|rewrite length_replicate; lia]. Qed.

Lemma new_empty_ok : let b := set_dirent_rec_len 0 last (replicate (Z.to_nat bs) 0) in
  sized b ∧ chain b last 0 [0] ∧ live b [0] = [].
Proof.
  intros b. destruct Hfs as [Hbs Hm]. pose proof zero_sized as [Hb Hl]. destruct (csum_size_bounds fs).
  destruct (set_rec_len_ok 0 last (replicate (Z.to_nat bs) 0)) as (E & Hr & Hi & Hn & _); [unfold in_buf; lia|lia|].
  fold b in E, Hr, Hi, Hn. assert (Hz : ∀ k, get_le k 0 (replicate (Z.to_nat bs) 0) = 0 ∧ get_le k 6 (replicate (Z.to_nat bs) 0) = 0).
  { assert (Hd : ∀ n, le_decode (replicate n 0) = 0) by (induction n as [|n IH]; [done|]; cbn [replicate le_decode]; by rewrite IH).
    intros k. unfold get_le. rewrite !drop_replicate !take_replicate. auto. }
  assert (Hu : ¬ used b 0) by (unfold used; rewrite Hi; unfold dirent_inode; rewrite (proj1 (Hz _)); tauto).
  split; [by apply (edited_sized _ _ _ _ E)|]. split; [|by rewrite live_cons_free].
  constructor; [|rewrite Hr; constructor]. unfold entry_ok, ext2fs_dirent_name_len. rewrite Hr Hn.
  unfold dirent_name_len. rewrite (proj2 (Hz _)). change (Z.land 0 255) with 0. split_and!; [lia| |lia|lia|done].
  destruct (dir_csum_size_cases fs) as [[-> _]|[-> _]]; [by rewrite Z.sub_0_r|]. by rewrite Zminus_mod Hm.
Qed.

Lemma last_mod : last mod 4 = 0.
Proof.
  destruct Hfs as [_ Hm]. destruct (dir_csum_size_cases fs) as [[-> _]|[-> _]]; [by rewrite Z.sub_0_r|]. by rewrite Zminus_mod Hm.
Qed.

(** The entries for the directory itself and its parent. *)
Lemma new_dots_ok b0 ino parent ty : sized b0 → dirent_rec_len 0 b0 = last → 0 < ino < 2^32 → 0 < parent < 2^32 → 0 ≤ ty < 256 →
  let b1 := ext2fs_dirent_set_file_type 0 ty (ext2fs_dirent_set_name_len 0 1 (set_dirent_inode 0 ino b0)) in
  let b3 := set_dirent_rec_len 0 12 (set8 8 46 b1) in
  let b4 := set_dirent_rec_len 12 (last - 12) b3 in
  let b5 := ext2fs_dirent_set_file_type 12 ty (ext2fs_dirent_set_name_len 12 2 (set_dirent_inode 12 parent b4)) in
  let b7 := set8 21 46 (set8 20 46 b5) in
  sized b7 ∧ chain b7 last 0 [0; 12] ∧ live b7 [0; 12] = [DirEntry ino ty [46]; DirEntry parent ty [46; 46]].
Proof.
  intros S0 R0 Hino Hpar Hty. destruct Hfs as [Hbs Hm]. destruct (csum_size_bounds fs) as [Hc0 Hc12].
  destruct (head_ok b0 0 ino 1 ty S0) as (E1 & I1 & R1 & N1 & T1); [lia..|]. set (b1 := ext2fs_dirent_set_file_type 0 _ _) in *.
  pose proof (edited_sized _ _ _ _ E1 S0) as S1.
  destruct (byte_ok b1 8 46 S1) as [E2 C2]; [lia|lia|]. set (b2 := set8 8 46 b1) in *. pose proof (edited_sized _ _ _ _ E2 S1) as S2.
  destruct (agree_fields b1 b2 0 8) as (I2 & R2 & N2); [apply (ed_agree _ _ _ _ E2); lia|lia|lia|].
  destruct (set_rec_len_ok 0 12 b2) as (E3 & R3 & I3 & N3 & _); [destruct S2; unfold in_buf; lia|lia|].
  set (b3 := set_dirent_rec_len 0 12 b2) in *. pose proof (edited_sized _ _ _ _ E3 S2) as S3.
  destruct (set_rec_len_ok 12 (last - 12) b3) as (E4 & R4 & _); [destruct S3; unfold in_buf; lia|lia|].
  set (b4 := set_dirent_rec_len 12 (last - 12) b3) in *. pose proof (edited_sized _ _ _ _ E4 S3) as S4.
  destruct (head_ok b4 12 parent 2 ty S4) as (E5 & I5 & R5 & N5 & T5); [lia..|]. set (b5 := ext2fs_dirent_set_file_type 12 _ _) in *.
  pose proof (edited_sized _ _ _ _ E5 S4) as S5.
  destruct (byte_ok b5 20 46 S5) as [E6 C6]; [lia|lia|]. set (b6 := set8 20 46 b5) in *. pose proof (edited_sized _ _ _ _ E6 S5) as S6.
  destruct (byte_ok b6 21 46 S6) as [E7 C7]; [lia|lia|]. cbv zeta. fold b2. fold b3. fold b4. fold b5. fold b6. set (b7 := set8 21 46 b6) in *. pose proof (edited_sized _ _ _ _ E7 S6) as S7.
  (* the first entry *)
  assert (A : agree b3 b7 0 12).
  { eapply agree_trans; [apply (ed_agree _ _ _ _ E4); lia|]. eapply agree_trans; [apply (ed_agree _ _ _ _ E5); lia|].
    eapply agree_trans; [apply (ed_agree _ _ _ _ E6); lia|apply (ed_agree _ _ _ _ E7); lia]. }
  destruct (agree_fields b3 b7 0 12 A) as (I & R & N); [lia|lia|].
  assert (C : b7 !! 8%nat = Some 46) by by rewrite -(A 8%nat) // -(ed_agree _ _ _ _ E3 6 9) //; lia.
  (* the second one *)
  destruct (agree_fields b5 b7 12 20) as (I' & R' & N').
  { eapply agree_trans; [apply (ed_agree _ _ _ _ E6); lia|apply (ed_agree _ _ _ _ E7); lia]. }
  1,2: lia.
  assert (C' : b7 !! 20%nat = Some 46) by by rewrite -(ed_agree _ _ _ _ E7 20 21) //; lia.
  assert (Z1 : ext2fs_dirent_name_len 0 b7 = 1) by by rewrite -N1 /ext2fs_dirent_name_len -N N3 -N2.
  assert (Z2 : ext2fs_dirent_name_len 12 b7 = 2) by by rewrite -N5 /ext2fs_dirent_name_len -N'.
  assert (R12 : dirent_rec_len 0 b7 = 12) by congruence.
  assert (Rl : dirent_rec_len 12 b7 = last - 12) by congruence.
  assert (U1 : dirent_inode 0 b7 = ino) by congruence. assert (U2 : dirent_inode 12 b7 = parent) by congruence.
  split; [exact S7|]. split.
  - constructor; [split_and!; rewrite ?R12 ?Z1; (done || lia)|]. rewrite R12. constructor; [|rewrite Rl].
    + unfold entry_ok. rewrite Rl Z2. split_and!; [lia|by rewrite Zminus_mod last_mod|lia|lia|lia].
    + replace (12 + (last - 12)) with last by lia. apply chain_nil.
  - rewrite live_cons_used; [|unfold used; lia]. rewrite live_cons_used; [|unfold used; lia].
    unfold entry_at. rewrite U1 U2 Z1 Z2. unfold dirent_name.
    change (Z.to_nat (0 + 8)) with 8%nat. change (Z.to_nat (12 + 8)) with 20%nat. change (Z.to_nat 21) with 21%nat in C7.
    rewrite (drop_S b7 46 8 C) (drop_S b7 46 20 C') (drop_S b7 46 21 C7). cbn [take Z.to_nat Pos.to_nat Pos.iter_op].
    assert (ext2fs_dirent_file_type 0 b7 = ty) as -> by by rewrite -T1 /ext2fs_dirent_file_type -N N3 -N2.
    assert (ext2fs_dirent_file_type 12 b7 = ty) as -> by by rewrite -T5 /ext2fs_dirent_file_type -N'.
    done.
Qed.
End new_block.

Section new_directory.
Context {D : Type} (content : D → Z → list Z) (ch : io_channel D) `{!Works content ch}.
Context (fs : ext2_filsys) (Hfs : dir_fs_ok fs) (Hseed : seed_ok fs) (Hmagic : fs_magic fs = EXT2_ET_MAGIC_EXT2FS_FILSYS).
Context (ext2fs_read_inode : ext2_filsys → Z → errcode * list Z) (dir : Z) (inode : list Z).
Context (Hread : ext2fs_read_inode fs dir = (E_OK, inode)).

(** C23: [ext2fs_new_dir_block] makes a well-formed block of a directory: with an
    inode, of the entries "." and ".." for it and its parent, of the type
    directory if entries have types; without one, of no entries.  Once written by
    [ext2fs_write_dir_block4], the block on the device is what was made, and its
    checksum is accepted. *)
Theorem ext2fs_new_dir_block_correct dir_ino parent_ino blk d : 0 ≤ dir_ino < 2^32 → 0 < parent_ino < 2^32 → 0 ≤ blk < 2^64 →
  let ty := if ext2fs_has_feature_filetype (fs_super fs) then EXT2_FT_DIR else 0 in
  ∃ b l d', ext2fs_new_dir_block fs dir_ino parent_ino true = (0, b) ∧
    ext2fs_write_dir_block4 ext2fs_read_inode fs (set_state ch d) blk b dir = (0, set_state ch d') ∧
    dir_block_ok fs b l ∧ block_at content fs ext2fs_read_inode dir d' blk l ∧
    live (content d' blk) l = live b l ∧ (∀ x, x ≠ blk → content d' x = content d x) ∧
    live b l = if bool_decide (dir_ino = 0) then [] else [DirEntry dir_ino ty [46]; DirEntry parent_ino ty [46; 46]].
Proof.
  intros Hino Hpar Hblk ty. pose proof Hfs as [Hbs Hm]. destruct (csum_size_bounds fs) as [Hc0 Hc12].
  assert (Hex : ∃ b l, ext2fs_new_dir_block fs dir_ino parent_ino true = (0, b) ∧ dir_block_ok fs b l ∧
    live b l = if bool_decide (dir_ino = 0) then [] else [DirEntry dir_ino ty [46]; DirEntry parent_ino ty [46; 46]]).
  { pose proof (last_mod fs Hfs) as Hlm.
    destruct (new_empty_ok fs Hfs) as (S0 & C0 & L0).
    unfold ext2fs_new_dir_block. rewrite Hmagic. rewrite bool_decide_eq_false_2; [|tauto]. cbn [negb].
    rewrite u32_small; [|lia]. rewrite set_rec_len_call //; [|lia]. rewrite (bool_decide_eq_false_2 (0 ≠ 0)); [|tauto].
    set (b0 := set_dirent_rec_len 0 _ _) in *.
    decide_case (dir_ino = 0) as Hz.
    - eexists _, [0]. split; [reflexivity|]. destruct (finish_ok fs Hfs b0 [0] S0 C0) as [Hok HL]. split; [exact Hok|]. by rewrite HL.
    - assert (R0 : dirent_rec_len 0 b0 = fs_blocksize fs - dir_csum_size fs).
      { unfold dirent_rec_len, b0, set_dirent_rec_len. destruct (zero_sized fs Hfs) as [_ Hl].
        rewrite (get_set_le 2); [|unfold in_buf; lia]. apply Z.mod_small. change (256 ^ Z.of_nat 2) with 65536. lia. }
      assert (Hty : 0 ≤ ty < 256) by (unfold ty, EXT2_FT_DIR; destruct (ext2fs_has_feature_filetype _); lia).
      destruct (new_dots_ok fs Hfs b0 dir_ino parent_ino ty S0 R0) as (S7 & C7 & L7); [lia|lia|done|].
      change (EXT2_DIR_REC_LEN 1) with 12. cbv zeta.
      fold ty. set (b1 := ext2fs_dirent_set_file_type 0 ty _) in *. set (b3 := set_dirent_rec_len 0 12 _) in *.
      assert (Hb3 : dirent_rec_len 0 b3 = 12).
      { destruct (head_ok fs b0 0 dir_ino 1 ty S0) as (E1 & _); [lia..|]. pose proof (edited_sized fs _ _ _ _ E1 S0) as S1.
        destruct (byte_ok fs b1 8 46 S1) as [E2 _]; [lia|lia|]. destruct (edited_sized fs _ _ _ _ E2 S1) as [_ Hl2].
        unfold dirent_rec_len, b3, set_dirent_rec_len. by rewrite (get_set_le 2); [|unfold in_buf; lia]. }
      rewrite Hb3. rewrite u32_small; [|lia]. rewrite set_rec_len_call //; [|lia|by rewrite Zminus_mod Hlm].
      rewrite (bool_decide_eq_false_2 (0 ≠ 0)); [|tauto].
      eexists _, [0; 12]. split; [reflexivity|]. destruct (finish_ok fs Hfs _ [0; 12] S7 C7) as [Hok HL]. split; [exact Hok|]. by rewrite HL. }
  destruct Hex as (b & l & Hnew & Hok & HL).
  destruct (write_dir_block_ok content ch fs Hfs Hseed ext2fs_read_inode dir inode Hread d blk b l Hblk Hok) as (d' & Hw & Hat & HLd & Hsame).
  by exists b, l, d'.
Qed.
End new_directory.

Lemma new_dir_block_witness : ∃ b l, ext2fs_new_dir_block demo_dir_fs 5 2 true = (0, b) ∧
  live b l = [DirEntry 5 2 [46]; DirEntry 2 2 [46; 46]].
Proof.
  destruct (ext2fs_new_dir_block_correct (mem_content 1024) demo_dir_channel demo_dir_fs (ld_fs _ _ _ _ _ _ _ _ _ _ _ _ demo_dir_linear) csum_seed_ok eq_refl
    demo_dir_read 5 demo_dir_inode eq_refl 5 2 20 ∅) as (b & l & _ & H & _ & _ & _ & _ & _ & HL); [lia|lia|lia|].
  exists b, l. exact (conj H HL).
Defined.
