(* ===== verification/Extent.v ===== *)
(** * Extent: the tree of extents of an inode (extent.c)

    A handle keeps the way from the root, which is in the inode, to the current
    entry: for each level the buffer of its node, the entry and how many are left
    after it.  [p_curr], a pointer into the buffer in the code, is the number of
    the entry; -1 is the place of the header.  The inode that a handle points to
    is part of it, and callers take it back from there.

    The functions that walk and change the tree return the handle and the state
    also with an error: they are operations [act].  A handle that exists has its
    magic number and its path, so those two are not checked again. *)
From S2P Require Import Prelude.
From S2P Require Import Bytes.
From S2P Require Import Super.
From S2P Require Import Blknum.
From S2P Require Import Csum.
From S2P Require Import Alloc.
From S2P Require Import IoManager.
From S2P Require Import BlockIter.
From S2P Require Import Dirent.
From S2P Require Import IBlock.
From S2P Require Import Services.
#[local] Open Scope Z_scope.

Definition EXT2_ET_EXTENT_HEADER_BAD : Z := EXT2_ET_BASE + 119.
Definition EXT2_ET_EXTENT_LEAF_BAD : Z := EXT2_ET_BASE + 121.
Definition EXT2_ET_INODE_NOT_EXTENT : Z := EXT2_ET_BASE + 123.
Definition EXT2_ET_EXTENT_NO_NEXT : Z := EXT2_ET_BASE + 124.
Definition EXT2_ET_EXTENT_NO_PREV : Z := EXT2_ET_BASE + 125.
Definition EXT2_ET_EXTENT_NO_UP : Z := EXT2_ET_BASE + 126.
Definition EXT2_ET_EXTENT_NO_DOWN : Z := EXT2_ET_BASE + 127.
Definition EXT2_ET_NO_CURRENT_NODE : Z := EXT2_ET_BASE + 128.
Definition EXT2_ET_OP_NOT_SUPPORTED : Z := EXT2_ET_BASE + 129.
Definition EXT2_ET_CANT_INSERT_EXTENT : Z := EXT2_ET_BASE + 130.
Definition EXT2_ET_CANT_SPLIT_EXTENT : Z := EXT2_ET_BASE + 131.
Definition EXT2_ET_EXTENT_NOT_FOUND : Z := EXT2_ET_BASE + 132.
Definition EXT2_ET_EXTENT_INVALID_LENGTH : Z := EXT2_ET_BASE + 134.
Definition EXT2_ET_EXTENT_CSUM_INVALID : Z := EXT2_ET_BASE + 148.

Definition EXT2_EXTENT_FLAGS_LEAF : Z := 1.
Definition EXT2_EXTENT_FLAGS_UNINIT : Z := 2.
Definition EXT2_EXTENT_FLAGS_SECOND_VISIT : Z := 4.
Definition EXT2_EXTENT_CURRENT : Z := 0.
Definition EXT2_EXTENT_MOVE_MASK : Z := 15.
Definition EXT2_EXTENT_ROOT : Z := 1.
Definition EXT2_EXTENT_LAST_LEAF : Z := 2.
Definition EXT2_EXTENT_FIRST_SIB : Z := 3.
Definition EXT2_EXTENT_LAST_SIB : Z := 4.
Definition EXT2_EXTENT_NEXT_SIB : Z := 5.
Definition EXT2_EXTENT_PREV_SIB : Z := 6.
Definition EXT2_EXTENT_NEXT_LEAF : Z := 7.
Definition EXT2_EXTENT_PREV_LEAF : Z := 8.
Definition EXT2_EXTENT_NEXT : Z := 9.
Definition EXT2_EXTENT_PREV : Z := 10.
Definition EXT2_EXTENT_UP : Z := 11.
Definition EXT2_EXTENT_DOWN : Z := 12.
Definition EXT2_EXTENT_DOWN_AND_LAST : Z := 13.
Definition EXT2_EXTENT_INSERT_AFTER : Z := 1.
Definition EXT2_EXTENT_INSERT_NOSPLIT : Z := 2.
Definition EXT2_EXTENT_DELETE_KEEP_EMPTY : Z := 1.
Definition EXT2_EXTENT_SET_BMAP_UNINIT : Z := 1.

Definition EXT2_BLOCK_SIZE_BITS (sb : list Z) : Z := u32 (s_log_block_size sb + 10).

Definition EXT3_EXT_MAGIC : Z := 0xf30a.
Definition EXT_INIT_MAX_LEN : Z := 2^15.
Definition EXT_UNINIT_MAX_LEN : Z := EXT_INIT_MAX_LEN - 1.
Definition EXT_MAX_EXTENT_LBLK : Z := 2^32 - 1.
Definition EXT_MAX_EXTENT_PBLK : Z := 2^48 - 1.

(** ** Nodes

    [struct ext3_extent_header] and, at 12 bytes each after it, the entries:
    [struct ext3_extent] in leaves, [struct ext3_extent_idx] above. *)
Definition eh_magic (b : list Z) : Z := get16 0 b.
Definition eh_entries (b : list Z) : Z := get16 2 b.
Definition eh_depth (b : list Z) : Z := get16 6 b.
Definition set_eh_magic (v : Z) (b : list Z) : list Z := set16 0 v b.
Definition set_eh_entries (v : Z) (b : list Z) : list Z := set16 2 v b.
Definition set_eh_max (v : Z) (b : list Z) : list Z := set16 4 v b.
Definition set_eh_depth (v : Z) (b : list Z) : list Z := set16 6 v b.

(** Where entry [k] is. *)
Definition ent (k : Z) : Z := 12 + 12 * k.
Definition ei_block (k : Z) (b : list Z) : Z := get32 (ent k) b.
Definition ei_leaf (k : Z) (b : list Z) : Z := get32 (ent k + 4) b.
Definition ei_leaf_hi (k : Z) (b : list Z) : Z := get16 (ent k + 8) b.
Definition ee_block (k : Z) (b : list Z) : Z := get32 (ent k) b.
Definition ee_len (k : Z) (b : list Z) : Z := get16 (ent k + 4) b.
Definition ee_start_hi (k : Z) (b : list Z) : Z := get16 (ent k + 6) b.
Definition ee_start (k : Z) (b : list Z) : Z := get32 (ent k + 8) b.

(** The block that an index entry points to, and the first block of an extent. *)
Definition idx_pblk (k : Z) (b : list Z) : Z := ei_leaf k b + Z.shiftl (ei_leaf_hi k b) 32.
Definition ext_pblk (k : Z) (b : list Z) : Z := ee_start k b + Z.shiftl (ee_start_hi k b) 32.

(** [EXT_FIRST_EXTENT], [EXT_FIRST_INDEX] and [EXT_LAST_...]. *)
Definition EXT_FIRST_INDEX : Z := 0.
Definition EXT_LAST_INDEX (b : list Z) : Z := eh_entries b - 1.

(** [memcpy] or [memmove] of bytes to an offset of a buffer. *)
Definition put_bytes (off : Z) (l b : list Z) : list Z :=
  take (Z.to_nat off) b ++ l ++ drop (Z.to_nat off + length l) b.
Definition get_bytes (off n : Z) (b : list Z) : list Z := take (Z.to_nat n) (drop (Z.to_nat off) b).

(** [struct ext2fs_extent] *)
Record ext2fs_extent := Extent { e_pblk : Z; e_lblk : Z; e_len : Z; e_flags : Z }.

(** [struct extent_path] and [struct ext2_extent_handle]; [max_paths] is the
    length of the path.  The buffer of the root is in the inode. *)
Record extent_path := ExtentPath {
  p_buf : option (list Z);
  p_entries : Z;
  p_max_entries : Z;
  p_left : Z;
  p_visit_num : Z;
  p_end_blk : Z;
  p_curr : option Z;
}.
Definition empty_path : extent_path := ExtentPath None 0 0 0 0 0 None.

Record handle := Handle {
  h_ino : Z;
  h_inode : list Z;
  h_level : nat;
  h_max_depth : nat;
  h_path : list extent_path;
}.

Definition set_curr (c : option Z) (p : extent_path) : extent_path :=
  ExtentPath (p_buf p) (p_entries p) (p_max_entries p) (p_left p) (p_visit_num p) (p_end_blk p) c.
Definition set_left (n : Z) (p : extent_path) : extent_path :=
  ExtentPath (p_buf p) (p_entries p) (p_max_entries p) n (p_visit_num p) (p_end_blk p) (p_curr p).
Definition set_entries (n : Z) (p : extent_path) : extent_path :=
  ExtentPath (p_buf p) n (p_max_entries p) (p_left p) (p_visit_num p) (p_end_blk p) (p_curr p).
Definition set_max_entries (n : Z) (p : extent_path) : extent_path :=
  ExtentPath (p_buf p) (p_entries p) n (p_left p) (p_visit_num p) (p_end_blk p) (p_curr p).
Definition set_visit (n : Z) (p : extent_path) : extent_path :=
  ExtentPath (p_buf p) (p_entries p) (p_max_entries p) (p_left p) n (p_end_blk p) (p_curr p).
Definition set_end (n : Z) (p : extent_path) : extent_path :=
  ExtentPath (p_buf p) (p_entries p) (p_max_entries p) (p_left p) (p_visit_num p) n (p_curr p).
Definition set_pbuf (b : list Z) (p : extent_path) : extent_path :=
  ExtentPath (Some b) (p_entries p) (p_max_entries p) (p_left p) (p_visit_num p) (p_end_blk p) (p_curr p).

Definition path_at (h : handle) (l : nat) : extent_path := default empty_path (h_path h !! l).
Definition cur (h : handle) : extent_path := path_at h (h_level h).
Definition upd_path (l : nat) (f : extent_path → extent_path) (h : handle) : handle :=
  Handle (h_ino h) (h_inode h) (h_level h) (h_max_depth h) (alter f l (h_path h)).
Definition upd_cur (f : extent_path → extent_path) (h : handle) : handle := upd_path (h_level h) f h.
Definition set_level (l : nat) (h : handle) : handle := Handle (h_ino h) (h_inode h) l (h_max_depth h) (h_path h).
Definition set_inode (i : list Z) (h : handle) : handle := Handle (h_ino h) i (h_level h) (h_max_depth h) (h_path h).
Definition set_max_depth (d : nat) (h : handle) : handle := Handle (h_ino h) (h_inode h) (h_level h) d (h_path h).

(** [i_block], 60 bytes of the inode. *)
Definition i_block_bytes (inode : list Z) : list Z := get_bytes 40 60 inode.
Definition set_i_block_bytes (b inode : list Z) : list Z := put_bytes 40 b inode.

(** [path->buf] *)
Definition buf_at (h : handle) (l : nat) : list Z :=
  match l with O => i_block_bytes (h_inode h) | Datatypes.S _ => default [] (p_buf (path_at h l)) end.
Definition set_buf (l : nat) (b : list Z) (h : handle) : handle :=
  match l with O => set_inode (set_i_block_bytes b (h_inode h)) h | Datatypes.S _ => upd_path l (set_pbuf b) h end.
Definition cur_buf (h : handle) : list Z := buf_at h (h_level h).
Definition upd_buf (f : list Z → list Z) (h : handle) : handle := set_buf (h_level h) (f (cur_buf h)) h.

Definition ext2fs_extent_header_verify (b : list Z) (size : Z) : Z :=
  if bool_decide (eh_magic b ≠ EXT3_EXT_MAGIC) then EXT2_ET_EXTENT_HEADER_BAD else
  if bool_decide (eh_max b < eh_entries b) then EXT2_ET_EXTENT_HEADER_BAD else
  let max := (size - 12) / 12 in
  if bool_decide (max < eh_max b ∨ eh_max b < max - 2) then EXT2_ET_EXTENT_HEADER_BAD else 0.

(** ** Operations on a handle *)
Section ops.
Context {W : Type} `{!Services W}.

Abbreviation op := (act handle W).

(** Whether the handle's file system may be written. *)
Definition writable : op unit :=
  s ← get_state;
  when (negb (flag (fs_flags (sv_fs s)) EXT2_FLAG_RW)) EXT2_ET_RO_FILSYS.

(** [mem_ok]: memory can be allocated. *)
Context (mem_ok : bool).

(** [ext2fs_extent_open2]: the error and the handle; with an error only the
    inode of it means something.  The allocation of the path is not checked. *)
Definition ext2fs_extent_open2 (s : W) (ino : Z) (inode : option (list Z)) : option (Z * handle) :=
  let fs := sv_fs s in
  let fail e i := Some (e, Handle ino i 0 0 []) in
  let given := default [] inode in
  if bool_decide (fs_magic fs ≠ EXT2_ET_MAGIC_EXT2FS_FILSYS) then fail (errno EXT2_ET_MAGIC_EXT2FS_FILSYS) given else
  if bool_decide (inode = None ∧ (ino = 0 ∨ s_inodes_count (fs_super fs) < ino)) then fail EXT2_ET_BAD_INODE_NUM given else
  if negb mem_ok then fail (errno EXT2_ET_NO_MEMORY) given else
  let '(retval, i) := match inode with Some i => (E_OK, i) | None => sv_read_inode s ino end in
  if bool_decide (retval ≠ E_OK) then fail (errno retval) i else
  let i :=
    if forallb (λ k, bool_decide (i_block k i = 0)) (seqZ 0 EXT2_N_BLOCKS) then
      let eh := set_eh_max ((60 - 12) / 12) (set_eh_entries 0 (set_eh_depth 0 (set_eh_magic EXT3_EXT_MAGIC (i_block_bytes i)))) in
      let i := set_i_block_bytes eh i in
      set32 32 (Z.lor (i_flags i) EXT4_EXTENTS_FL) i
    else i in
  if negb (flag (i_flags i) EXT4_EXTENTS_FL) then fail EXT2_ET_INODE_NOT_EXTENT i else
  let eh := i_block_bytes i in
  let retval := ext2fs_extent_header_verify eh 60 in
  if bool_decide (retval ≠ 0) then fail retval i else
  let max_depth := Z.to_nat (eh_depth eh) in
  let end_blk := Z.shiftr (u64 (EXT2_I_SIZE i + fs_blocksize fs - 1)) (EXT2_BLOCK_SIZE_BITS (fs_super fs)) in
  Some (0, Handle ino i 0 max_depth
             (ExtentPath None (eh_entries eh) (eh_max eh) (eh_entries eh) 1 end_blk None :: replicate max_depth empty_path)).

Definition ext2fs_extent_open (s : W) (ino : Z) : option (Z * handle) := ext2fs_extent_open2 s ino None.

(** *** [ext2fs_extent_get] *)

(** The step that NEXT, PREV and LAST_LEAF take from the current place. *)
Definition choose_next (h : handle) : Z + Z * handle :=
  let p := cur h in
  if bool_decide (h_level h < h_max_depth h)%nat && bool_decide (p_visit_num p = 0)
  then inr (EXT2_EXTENT_DOWN, upd_cur (set_visit 1) h)
  else if bool_decide (0 < p_left p) then inr (EXT2_EXTENT_NEXT_SIB, h)
  else if bool_decide (0 < h_level h)%nat then inr (EXT2_EXTENT_UP, h)
  else inl EXT2_ET_EXTENT_NO_NEXT.

Definition choose_prev (h : handle) : Z + Z * handle :=
  let p := cur h in
  if bool_decide (h_level h < h_max_depth h)%nat && bool_decide (0 < p_visit_num p)
  then inr (EXT2_EXTENT_DOWN_AND_LAST, h)
  else if bool_decide (p_left p < p_entries p - 1) then inr (EXT2_EXTENT_PREV_SIB, h)
  else if bool_decide (0 < h_level h)%nat then inr (EXT2_EXTENT_UP, h)
  else inl EXT2_ET_EXTENT_NO_PREV.

Definition choose_last (h : handle) : Z + Z * handle :=
  if bool_decide (h_level h < h_max_depth h)%nat && bool_decide (p_left (cur h) = 0)
  then inr (EXT2_EXTENT_DOWN, h) else inr (EXT2_EXTENT_LAST_SIB, h).

Definition is_op (l : list Z) (o : Z) : bool := bool_decide (o ∈ l).

Definition choose (orig_op : Z) (h : handle) : Z + Z * handle :=
  if is_op [EXT2_EXTENT_NEXT; EXT2_EXTENT_NEXT_LEAF] orig_op then choose_next h
  else if is_op [EXT2_EXTENT_PREV; EXT2_EXTENT_PREV_LEAF] orig_op then choose_prev h
  else if is_op [EXT2_EXTENT_LAST_LEAF] orig_op then choose_last h
  else inr (orig_op, h).

(** NEXT_SIB, to which ROOT and FIRST_SIB fall through. *)
Definition next_sib : op (option Z) :=
  h ← get_obj;
  let p := cur h in
  if bool_decide (p_left p ≤ 0) then err EXT2_ET_EXTENT_NO_NEXT else
  let k := match p_curr p with Some k => k + 1 | None => EXT_FIRST_INDEX end in
  modify (upd_cur (λ p, set_visit 0 (set_curr (Some k) (set_left (p_left p - 1) p))));;
  mret (Some k).

Definition first_sib : op (option Z) :=
  modify (upd_cur (λ p, set_curr None (set_left (p_entries p) p)));; next_sib.

Definition prev_sib : op (option Z) :=
  h ← get_obj;
  let p := cur h in
  match p_curr p with
  | None => err EXT2_ET_EXTENT_NO_PREV
  | Some k =>
      if bool_decide (p_entries p ≤ p_left p + 1) then err EXT2_ET_EXTENT_NO_PREV else
      modify (upd_cur (λ p, let p := set_left (p_left p + 1) (set_curr (Some (k - 1)) p) in
                            if bool_decide (h_level h < h_max_depth h)%nat then set_visit 1 p else p));;
      mret (Some (k - 1))
  end.

Definition last_sib : op (option Z) :=
  h ← get_obj;
  let k := EXT_LAST_INDEX (cur_buf h) in
  modify (upd_cur (λ p, set_visit 0 (set_left 0 (set_curr (Some k) p))));;
  mret (Some k).

Definition go_up (orig_op : Z) : op (option Z) :=
  h ← get_obj;
  match h_level h with
  | O => err EXT2_ET_EXTENT_NO_UP
  | Datatypes.S l =>
      modify (set_level l);;
      (if is_op [EXT2_EXTENT_PREV; EXT2_EXTENT_PREV_LEAF] orig_op then modify (upd_cur (set_visit 0)) else mret tt);;
      mret (p_curr (path_at h l))
  end.

(** The block of the node below is read into the buffer of its level. *)
Definition read_node (blk : Z) (l : nat) : op unit :=
  s ← get_state;
  buf ← (if flag (fs_flags (sv_fs s)) EXT2_FLAG_IMAGE_FILE && negb io_is_image
         then mret (replicate (Z.to_nat (sv_blocksize s)) 0) else service (λ s, read_blk64 s blk));
  modify (upd_path l (set_pbuf buf)).

(** DOWN and DOWN_AND_LAST; with whether the checksum was wrong. *)
Definition go_down (last : bool) : op (option Z * bool) :=
  h ← get_obj;
  let l := h_level h in
  let p := cur h in
  match p_curr p with
  | None => err EXT2_ET_EXTENT_NO_DOWN
  | Some k =>
      if bool_decide (h_max_depth h ≤ l)%nat then err EXT2_ET_EXTENT_NO_DOWN else
      (if bool_decide (p_buf (path_at h (Datatypes.S l)) = None) && negb mem_ok then err (errno EXT2_ET_NO_MEMORY) else mret tt);;
      read_node (idx_pblk k (cur_buf h)) (Datatypes.S l);;
      s ← get_state;
      h' ← get_obj;
      let eh := buf_at h' (Datatypes.S l) in
      checked (ext2fs_extent_header_verify eh (sv_blocksize s));;
      modify (set_level (Datatypes.S l));;
      csum ← (if flag (fs_flags (sv_fs s)) EXT2_FLAG_IGNORE_CSUM_ERRORS then mret true
              else lift_opt (ext2fs_extent_block_csum_verify (λ _ inum, sv_read_inode s inum) (sv_fs s) (h_ino h) eh));
      modify (upd_cur (λ p, set_max_entries (eh_max eh) (set_entries (eh_entries eh) (set_left (eh_entries eh) p))));;
      when (bool_decide (eh_entries eh ≤ 0)) EXT2_ET_EXTENT_NO_DOWN;;
      let end_blk := if bool_decide (0 < p_left p) then ei_block (k + 1) (cur_buf h) else p_end_blk p in
      let deeper := bool_decide (Datatypes.S l < h_max_depth h)%nat in
      modify (upd_cur (λ p,
        let p := set_end end_blk p in
        if last then
          let p := set_left 0 (set_curr (Some (EXT_LAST_INDEX eh)) p) in if deeper then set_visit 1 p else p
        else set_visit 0 (set_left (p_entries p - 1) (set_curr (Some EXT_FIRST_INDEX) p))));;
      mret (Some (if last then EXT_LAST_INDEX eh else EXT_FIRST_INDEX), negb csum)
  end.

(** The [switch]: the entry, and whether the checksum was wrong. *)
Definition move (orig_op o : Z) : op (option Z * bool) :=
  let fine m := k ← m; mret (k, false) in
  if bool_decide (o = EXT2_EXTENT_CURRENT) then h ← get_obj; mret (p_curr (cur h), false) else
  if bool_decide (o = EXT2_EXTENT_ROOT) then modify (set_level 0);; fine first_sib else
  if bool_decide (o = EXT2_EXTENT_FIRST_SIB) then fine first_sib else
  if bool_decide (o = EXT2_EXTENT_NEXT_SIB) then fine next_sib else
  if bool_decide (o = EXT2_EXTENT_PREV_SIB) then fine prev_sib else
  if bool_decide (o = EXT2_EXTENT_LAST_SIB) then fine last_sib else
  if bool_decide (o = EXT2_EXTENT_UP) then fine (go_up orig_op) else
  if bool_decide (o = EXT2_EXTENT_DOWN) then go_down false else
  if bool_decide (o = EXT2_EXTENT_DOWN_AND_LAST) then go_down true else
  err EXT2_ET_OP_NOT_SUPPORTED.

(** An extent of a leaf, and an entry of a node above as an extent. *)
Definition leaf_extent (k : Z) (b : list Z) : ext2fs_extent :=
  let len := ee_len k b in
  if bool_decide (EXT_INIT_MAX_LEN < len)
  then Extent (ext_pblk k b) (ee_block k b) (len - EXT_INIT_MAX_LEN) (Z.lor EXT2_EXTENT_FLAGS_LEAF EXT2_EXTENT_FLAGS_UNINIT)
  else Extent (ext_pblk k b) (ee_block k b) len EXT2_EXTENT_FLAGS_LEAF.
Definition index_extent (k : Z) (b : list Z) (p : extent_path) : ext2fs_extent :=
  let end_blk := if bool_decide (0 < p_left p) then ei_block (k + 1) b else p_end_blk p in
  Extent (idx_pblk k b) (ei_block k b) (u32 (end_blk - ei_block k b)) 0.
Definition entry_extent (h : handle) (k : Z) : ext2fs_extent :=
  let p := cur h in
  let x := if bool_decide (h_level h = h_max_depth h) then leaf_extent k (cur_buf h) else index_extent k (cur_buf h) p in
  if bool_decide (p_visit_num p ≠ 0) then Extent (e_pblk x) (e_lblk x) (e_len x) (Z.lor (e_flags x) EXT2_EXTENT_FLAGS_SECOND_VISIT) else x.

(** [goto retry] *)
Definition again (orig_op : Z) (h : handle) : bool :=
  let interior := bool_decide (h_level h ≠ h_max_depth h) in
  (is_op [EXT2_EXTENT_NEXT_LEAF; EXT2_EXTENT_PREV_LEAF] orig_op && interior) ||
  (is_op [EXT2_EXTENT_LAST_LEAF] orig_op && (interior || bool_decide (p_left (cur h) ≠ 0))).

(** The error and what [*extent] is after it. *)
Fixpoint get_loop (fuel : nat) (orig_op : Z) (failed : bool) (x : ext2fs_extent) (h : handle) (s : W) :
    option (Z * ext2fs_extent * handle * W) :=
  match fuel with
  | O => None
  | Datatypes.S fuel =>
      match choose orig_op h with
      | inl e => Some (e, x, h, s)
      | inr (o, h) =>
          '(r, h, s) ← move orig_op o h s;
          match r with
          | inl e => Some (e, x, h, s)
          | inr (None, _) => Some (EXT2_ET_NO_CURRENT_NODE, x, h, s)
          | inr (Some k, bad) =>
              let x := entry_extent h k in
              let failed := failed || bad in
              if again orig_op h then get_loop fuel orig_op failed x h s
              else Some (if failed then EXT2_ET_EXTENT_CSUM_INVALID else 0, x, h, s)
          end
      end
  end.

(** A retry goes up at most to the root and down at most to a leaf. *)
Definition ext2fs_extent_get (flags : Z) (x : ext2fs_extent) (h : handle) (s : W) : option (Z * ext2fs_extent * handle * W) :=
  get_loop (2 * h_max_depth h + 3) (Z.land flags EXT2_EXTENT_MOVE_MASK) false x h s.

(** The extent, when there is no error. *)
Definition get (flags : Z) : op ext2fs_extent := λ h s,
  '(e, x, h, s) ← ext2fs_extent_get flags (Extent 0 0 0 0) h s;
  Some (if bool_decide (e ≠ 0) then inl e else inr x, h, s).

(** *** [ext2fs_extent_goto2] *)

(** The loop at the level of the leaves, or of what is asked for. *)
Fixpoint goto_at (fuel : nat) (blk : Z) (x : ext2fs_extent) : op unit :=
  match fuel with
  | O => λ _ _, None
  | Datatypes.S fuel =>
      if bool_decide (e_lblk x ≤ blk < u64 (e_lblk x + e_len x)) then mret tt else
      if bool_decide (blk < e_lblk x) then attempt (get EXT2_EXTENT_PREV_SIB);; err EXT2_ET_EXTENT_NOT_FOUND else
      r ← attempt (get EXT2_EXTENT_NEXT_SIB);
      match r with
      | inl e => err (if bool_decide (e = EXT2_ET_EXTENT_NO_NEXT) then EXT2_ET_EXTENT_NOT_FOUND else e)
      | inr x => goto_at fuel blk x
      end
  end.

(** The loop above it: to the last entry that does not start after [blk]. *)
Fixpoint goto_index (fuel : nat) (blk : Z) : op unit :=
  match fuel with
  | O => λ _ _, None
  | Datatypes.S fuel =>
      r ← attempt (get EXT2_EXTENT_NEXT_SIB);
      match r with
      | inl e => if bool_decide (e = EXT2_ET_EXTENT_NO_NEXT) then mret tt else err e
      | inr x =>
          if bool_decide (blk = e_lblk x) then mret tt else
          if bool_decide (e_lblk x < blk) then goto_index fuel blk else
          get EXT2_EXTENT_PREV_SIB;; mret tt
      end
  end.

(** The entries of a node are no more than fit in a block. *)
Definition node_fuel (s : W) : nat := Z.to_nat (sv_blocksize s / 12 + 8).

Fixpoint goto_loop (fuel : nat) (leaf_level blk : Z) (x : ext2fs_extent) : op unit :=
  match fuel with
  | O => λ _ _, None
  | Datatypes.S fuel =>
      h ← get_obj;
      s ← get_state;
      if bool_decide (Z.of_nat (h_max_depth h) - Z.of_nat (h_level h) = leaf_level)
      then goto_at (node_fuel s) blk x
      else goto_index (node_fuel s) blk;; x ← get EXT2_EXTENT_DOWN; goto_loop fuel leaf_level blk x
  end.

Definition ext2fs_extent_goto2 (leaf_level blk : Z) : op unit :=
  r ← attempt (get EXT2_EXTENT_ROOT);
  match r with
  | inl e => err (if bool_decide (e = EXT2_ET_EXTENT_NO_NEXT) then EXT2_ET_EXTENT_NOT_FOUND else e)
  | inr x =>
      h ← get_obj;
      if bool_decide (Z.of_nat (h_max_depth h) < leaf_level) then err EXT2_ET_OP_NOT_SUPPORTED else
      goto_loop (h_max_depth h + 2) leaf_level blk x
  end.

Definition ext2fs_extent_goto (blk : Z) : op unit := ext2fs_extent_goto2 0 blk.

(** *** Changing entries *)

(** [ext2fs_read_inode] as csum.c uses it. *)
Definition csum_inode (s : W) : ext2_filsys → Z → errcode * list Z := λ _ inum, sv_read_inode s inum.

(** Writing back the node at the current level. *)
Definition update_path : op unit :=
  h ← get_obj;
  s ← get_state;
  match h_level h with
  | O => service_ (λ s, sv_write_inode s (h_ino h) (h_inode h))
  | Datatypes.S l =>
      k ← lift_opt (p_curr (path_at h l));
      let blk := idx_pblk k (buf_at h l) in
      r ← lift_opt (ext2fs_extent_block_csum_set (csum_inode s) (sv_fs s) (h_ino h) (cur_buf h));
      modify (set_buf (Datatypes.S l) r.2);;
      checked (errno r.1);;
      service_ (λ s, write_blk64 s blk r.2)
  end.

(** The fields of an entry; a length that does not fit leaves the length alone. *)
Definition set_leaf_start (k : Z) (x : ext2fs_extent) (b : list Z) : list Z :=
  set16 (ent k + 6) (u16 (Z.shiftr (e_pblk x) 32))
    (set32 (ent k + 8) (Z.land (e_pblk x) 0xFFFFFFFF) (set32 (ent k) (u32 (e_lblk x)) b)).
Definition set_leaf_len (k v : Z) (b : list Z) : list Z := set16 (ent k + 4) (u16 v) b.
Definition set_index (k : Z) (x : ext2fs_extent) (b : list Z) : list Z :=
  set16 (ent k + 10) 0
    (set32 (ent k) (u32 (e_lblk x))
       (set16 (ent k + 8) (u16 (Z.shiftr (e_pblk x) 32)) (set32 (ent k + 4) (Z.land (e_pblk x) 0xFFFFFFFF) b))).

(** The error of writing the node is not looked at. *)
Definition ext2fs_extent_replace (x : ext2fs_extent) : op unit :=
  writable;;
  h ← get_obj;
  match p_curr (cur h) with
  | None => err EXT2_ET_NO_CURRENT_NODE
  | Some k =>
      (if bool_decide (h_level h = h_max_depth h) then
         modify (upd_buf (set_leaf_start k x));;
         if flag (e_flags x) EXT2_EXTENT_FLAGS_UNINIT
         then when (bool_decide (EXT_UNINIT_MAX_LEN < e_len x)) EXT2_ET_EXTENT_INVALID_LENGTH;;
              modify (upd_buf (set_leaf_len k (e_len x + EXT_INIT_MAX_LEN)))
         else when (bool_decide (EXT_INIT_MAX_LEN < e_len x)) EXT2_ET_EXTENT_INVALID_LENGTH;;
              modify (upd_buf (set_leaf_len k (e_len x)))
       else modify (upd_buf (set_index k x)));;
      attempt update_path;;
      mret tt
  end.

(** [struct ext2_extent_info] *)
Record ext2_extent_info := ExtentInfo {
  curr_entry : Z;
  curr_level : Z;
  num_entries : Z;
  max_entries : Z;
  max_depth : Z;
  bytes_avail : Z;
  max_lblk : Z;
  max_pblk : Z;
  max_len : Z;
  max_uninit_len : Z;
}.

Definition ext2fs_extent_get_info (h : handle) : ext2_extent_info :=
  let p := cur h in
  ExtentInfo (match p_curr p with Some k => Z.quot (ent k) 12 | None => 0 end) (Z.of_nat (h_level h)) (p_entries p) (p_max_entries p)
    (Z.of_nat (h_max_depth h)) ((p_max_entries p - p_entries p) * 12)
    EXT_MAX_EXTENT_LBLK EXT_MAX_EXTENT_PBLK EXT_INIT_MAX_LEN EXT_UNINIT_MAX_LEN.

(** How far above the leaves the handle is. *)
Definition height (h : handle) : Z :=
  let info := ext2fs_extent_get_info h in max_depth info - curr_level info.

(** The way up while the current entry is the first; [n] is the level. *)
Fixpoint fix_loop (n : nat) (start : Z) : op unit :=
  h ← get_obj;
  let p := cur h in
  match n with
  | O => mret tt
  | Datatypes.S n =>
      if bool_decide (p_left p = p_entries p - 1) then
        x ← get EXT2_EXTENT_UP;
        if bool_decide (e_lblk x = start) then mret tt else
        ext2fs_extent_replace (Extent (e_pblk x) start (u32 (e_len x + (e_lblk x - start))) (e_flags x));;
        attempt update_path;;
        fix_loop n start
      else mret tt
  end.

Definition ext2fs_extent_fix_parents : op unit :=
  writable;;
  h ← get_obj;
  when (bool_decide (p_curr (cur h) = None)) EXT2_ET_NO_CURRENT_NODE;;
  x ← get EXT2_EXTENT_CURRENT;
  let start := e_lblk x in
  let orig_height := height h in
  fix_loop (h_level h) start;;
  ext2fs_extent_goto2 orig_height start.

(** [ext2fs_extent_delete]; a node that gets empty is deleted from the one above.
    The error of that is lost: the one of writing the inode is returned. *)
Fixpoint delete_at (n : nat) (flags : Z) : op unit :=
  writable;;
  h ← get_obj;
  let p := cur h in
  match p_curr p with
  | None => err EXT2_ET_NO_CURRENT_NODE
  | Some k =>
      when (bool_decide (p_left p < 0)) EXT2_ET_EXTENT_LEAF_BAD;;
      (if bool_decide (p_left p ≠ 0)
       then modify (upd_buf (λ b, put_bytes (ent k) (get_bytes (ent (k + 1)) (12 * p_left p) b) b));;
            modify (upd_cur (set_left (p_left p - 1)))
       else modify (upd_cur (set_curr (Some (k - 1)))));;
      modify (upd_cur (λ p, let p := set_entries (p_entries p - 1) p in
                            if bool_decide (p_entries p = 0) then set_curr None p else p));;
      h ← get_obj;
      let p := cur h in
      match n, bool_decide (p_entries p = 0) with
      | Datatypes.S n, true =>
          if flag flags EXT2_EXTENT_DELETE_KEEP_EMPTY then mret tt else
          x ← get EXT2_EXTENT_UP;
          attempt (delete_at n flags);;
          s ← get_state;
          modify (λ h, set_inode (set_i_blocks (u32 (i_blocks (h_inode h) -
                    u32 (sv_blocksize s * EXT2FS_CLUSTER_RATIO (sv_fs s)) / 512)) (h_inode h)) h);;
          h ← get_obj;
          retval ← attempt (service_ (λ s, sv_write_inode s (h_ino h) (h_inode h)));
          service (λ s, (0, tt, sv_block_alloc_stats2 s (e_pblk x) (-1)));;
          match retval with inl e => err e | inr _ => mret tt end
      | _, empty =>
          modify (upd_buf (set_eh_entries (u16 (p_entries p))));;
          (if empty && bool_decide (h_level h = 0%nat)
           then modify (upd_buf (set_eh_depth 0));; modify (set_max_depth 0) else mret tt);;
          update_path
      end
  end.

Definition ext2fs_extent_delete (flags : Z) : op unit := h ← get_obj; delete_at (h_level h) flags.

(** *** Splitting nodes *)

Definition LINUX_S_ISLNK (m : Z) : bool := bool_decide (Z.land m 61440 = 40960).
Definition ext2fs_is_fast_symlink (inode : list Z) : bool :=
  LINUX_S_ISLNK (i_mode inode) && bool_decide (EXT2_I_SIZE inode ≠ 0) && bool_decide (EXT2_I_SIZE inode < 60).

(** The goal that a file with extents gives: after the extent before [lblk]. *)
Definition extent_goal (s : W) (ino : Z) (inode : list Z) (lblk : Z) : option (option Z * list Z * W) :=
  '(e, h) ← ext2fs_extent_open2 s ino (Some inode);
  if bool_decide (e ≠ 0) then Some (None, h_inode h, s) else
  '(r, h, s) ← (ext2fs_extent_goto2 0 lblk;; get EXT2_EXTENT_CURRENT) h s;
  Some (match r with inl _ => None | inr x => Some (u64 (e_pblk x + (lblk - e_lblk x))) end, h_inode h, s).

(** The first block of the group of the inode, or of its flex group. *)
Definition group_goal (fs : ext2_filsys) (ino : Z) : Z :=
  let log_flex := s_log_groups_per_flex (fs_super fs) in
  let group := ext2fs_group_of_ino fs ino in
  let group := if bool_decide (log_flex ≠ 0) then Z.land group (Z.lnot (s32 (Z.shiftl 1 log_flex) - 1)) else group in
  ext2fs_group_first_block2 fs (u32 group).

(** [ext2fs_find_inode_goal] (alloc.c) for an inode that is given. *)
Definition ext2fs_find_inode_goal (s : W) (ino : Z) (inode : list Z) (lblk : Z) : option (Z * list Z * W) :=
  let none i s := Some (group_goal (sv_fs s) ino, i, s) in
  if ext2fs_is_fast_symlink inode || flag (i_flags inode) EXT4_INLINE_DATA_FL then none inode s else
  if flag (i_flags inode) EXT4_EXTENTS_FL then
    '(g, i, s) ← extent_goal s ino inode lblk;
    match g with Some g => Some (g, i, s) | None => none i s end
  else if bool_decide (i_block 0 inode ≠ 0) then Some (i_block 0 inode, inode, s) else none inode s.

Definition splitting_at_eof (h : handle) : bool :=
  bool_decide (h_level h ≠ 0%nat) && forallb (λ l, bool_decide (p_left (path_at h l) = 0)) (seq 0 (Datatypes.S (h_level h))).

(** Where the new node should be: before what the first entry points to. *)
Definition split_goal (fs : ext2_filsys) (h : handle) : Z :=
  let b := cur_buf h in
  let goal := if bool_decide (h_level h = h_max_depth h) then ext_pblk 0 b else idx_pblk 0 b in
  Z.land (u64 (goal - EXT2FS_CLUSTER_RATIO fs)) (Z.lnot (EXT2FS_CLUSTER_MASK fs)).

(** The new node, with the last [tocopy] entries of [eh]. *)
Definition new_node (blocksize tocopy : Z) (eh : list Z) : list Z :=
  let b := put_bytes 0 (get_bytes 0 12 eh) (replicate (Z.to_nat blocksize) 0) in
  let b := set_eh_max (u16 ((blocksize - 12) / 12)) (set_eh_entries (u16 tocopy) b) in
  put_bytes (ent 0) (get_bytes (ent (eh_entries eh - tocopy)) (12 * tocopy) eh) b.

(** What is left of the node; the root gets a level of its own. *)
Definition shrink (tocopy : Z) : op unit :=
  h ← get_obj;
  (if bool_decide (h_level h = 0%nat) then
     modify (λ h, Handle (h_ino h) (h_inode h) (h_level h) (Datatypes.S (h_max_depth h)) (h_path h ++ [empty_path]));;
     modify (upd_cur (λ p, set_left (p_max_entries p - 1) (set_entries 1 p)));;
     modify (upd_buf (set_eh_depth (u16 (Z.of_nat (Datatypes.S (h_max_depth h))))))
   else modify (upd_cur (λ p, set_left (p_left p - tocopy) (set_entries (p_entries p - tocopy) p))));;
  h ← get_obj;
  modify (upd_buf (set_eh_entries (u16 (p_entries (cur h)))));;
  update_path.

(** The new node on the device: its block and the first block it covers. *)
Definition make_node (tocopy : Z) : op (Z * Z) :=
  (if mem_ok then mret tt else err (errno ENOMEM));;
  h ← get_obj;
  s ← get_state;
  let goal := split_goal (sv_fs s) h in
  goal ← (if bool_decide (goal = 0) then
            λ h s, '(g, i, s) ← ext2fs_find_inode_goal s (h_ino h) (h_inode h) 0; Some (inr g, set_inode i h, s)
          else mret goal);
  pblk ← service (λ s, sv_alloc_block3 s goal None);
  let b := new_node (sv_blocksize s) tocopy (cur_buf h) in
  let start := ei_block EXT_FIRST_INDEX b in
  s ← get_state;
  r ← lift_opt (ext2fs_extent_block_csum_set (csum_inode s) (sv_fs s) (h_ino h) b);
  checked (errno r.1);;
  service_ (λ s, write_blk64 s pblk r.2);;
  mret (pblk, start).

(** Room for an entry at the current place; [after] is INSERT_AFTER. *)
Definition make_room (after : bool) : op unit :=
  h ← get_obj;
  let p := cur h in
  let '(k, n) := match p_curr p with
                 | Some k => if after then (k + 1, p_left p - 1) else (k, p_left p)
                 | None => (EXT_FIRST_INDEX, -1)
                 end in
  (if bool_decide (0 ≤ n)
   then modify (upd_buf (λ b, put_bytes (ent (k + 1)) (get_bytes (ent k) (12 * (n + 1)) b) b)) else mret tt);;
  modify (upd_cur (λ p, set_curr (Some k) (set_left (n + 1) (set_entries (p_entries p + 1) p))));;
  h ← get_obj;
  modify (upd_buf (set_eh_entries (u16 (p_entries (cur h))))).

(** [extent_node_split] and [ext2fs_extent_insert] call each other: a split
    inserts into the node above, which it splits first when that is full. *)
Fixpoint extent_node_split (fuel : nat) (expand_allowed : bool) : op unit :=
  match fuel with
  | O => λ _ _, None
  | Datatypes.S fuel =>
      writable;;
      x ← get EXT2_EXTENT_CURRENT;
      h ← get_obj;
      let orig_height := height h in
      let orig_lblk := e_lblk x in
      x ← match h_level h with
          | Datatypes.S l =>
              if bool_decide (p_max_entries (path_at h l) ≤ p_entries (path_at h l)) then
                x ← get EXT2_EXTENT_UP;
                extent_node_split fuel expand_allowed;;
                ext2fs_extent_goto2 orig_height orig_lblk;;
                mret x
              else mret x
          | O => mret x
          end;
      h ← get_obj;
      when (bool_decide (p_curr (cur h) = None)) EXT2_ET_NO_CURRENT_NODE;;
      let no_balance := expand_allowed && splitting_at_eof h in
      let root := bool_decide (h_level h = 0%nat) in
      let tocopy := if root then eh_entries (cur_buf h) else if no_balance then 1 else eh_entries (cur_buf h) / 2 in
      when (root && negb mem_ok) (errno EXT2_ET_NO_MEMORY);;
      when (bool_decide (tocopy = 0) && negb no_balance) EXT2_ET_CANT_SPLIT_EXTENT;;
      n ← make_node tocopy;
      let '(pblk, start) := n in
      shrink tocopy;;
      (if root then
         x ← get EXT2_EXTENT_FIRST_SIB;
         h ← get_obj;
         ext2fs_extent_replace (Extent pblk start (u32 (p_end_blk (path_at h 0) - start)) (e_flags x))
       else
         r ← attempt (get EXT2_EXTENT_UP);
         let x := match r with inr x => x | inl _ => x end in
         let len := u32 (start - e_lblk x) in
         ext2fs_extent_replace (Extent (e_pblk x) (e_lblk x) (u32 (e_len x - len)) (e_flags x));;
         insert_at fuel EXT2_EXTENT_INSERT_AFTER (Extent pblk start len (e_flags x)));;
      ext2fs_extent_goto2 orig_height orig_lblk;;
      s ← get_state;
      modify (λ h, set_inode (ext2fs_iblk_add_blocks (sv_fs s) (h_inode h) 1).2 h);;
      h ← get_obj;
      service_ (λ s, sv_write_inode s (h_ino h) (h_inode h))
  end
with insert_at (fuel : nat) (flags : Z) (x : ext2fs_extent) : op unit :=
  match fuel with
  | O => λ _ _, None
  | Datatypes.S fuel =>
      writable;;
      h ← get_obj;
      (if bool_decide (p_max_entries (cur h) ≤ p_entries (cur h)) then
         if flag flags EXT2_EXTENT_INSERT_NOSPLIT then err EXT2_ET_CANT_INSERT_EXTENT else extent_node_split fuel true
       else mret tt);;
      make_room (flag flags EXT2_EXTENT_INSERT_AFTER);;
      r ← attempt (ext2fs_extent_replace x;; update_path);
      match r with
      | inl e => attempt (ext2fs_extent_delete 0);; err e
      | inr _ => mret tt
      end
  end.

(** Each level is split at most once. *)
Definition split_fuel (h : handle) : nat := 2 * h_max_depth h + 4.
Definition ext2fs_extent_node_split : op unit := h ← get_obj; extent_node_split (split_fuel h) false.
Definition ext2fs_extent_insert (flags : Z) (x : ext2fs_extent) : op unit := h ← get_obj; insert_at (split_fuel h) flags x.

(** *** [ext2fs_extent_set_bmap] *)
Definition is_uninit (x : ext2fs_extent) : bool := flag (e_flags x) EXT2_EXTENT_FLAGS_UNINIT.
Definition with_len (len : Z) (x : ext2fs_extent) : ext2fs_extent := Extent (e_pblk x) (e_lblk x) (u32 len) (e_flags x).
(** One block more before the extent, and the first block less. *)
Definition grow_left (x : ext2fs_extent) : ext2fs_extent :=
  Extent (u64 (e_pblk x - 1)) (u64 (e_lblk x - 1)) (u32 (e_len x + 1)) (e_flags x).
Definition drop_first (x : ext2fs_extent) : ext2fs_extent :=
  Extent (u64 (e_pblk x + 1)) (u64 (e_lblk x + 1)) (u32 (e_len x - 1)) (e_flags x).

(** An extent of one block. *)
Definition one_block (logical physical : Z) (uninit : bool) : ext2fs_extent :=
  Extent physical logical 1 (if uninit then Z.lor EXT2_EXTENT_FLAGS_LEAF EXT2_EXTENT_FLAGS_UNINIT else EXT2_EXTENT_FLAGS_LEAF).

(** Whether the block comes right after or before [x] and can be part of it. *)
Definition joins_after (logical physical : Z) (uninit : bool) (max : Z) (x : ext2fs_extent) : bool :=
  bool_decide (logical = u64 (e_lblk x + e_len x) ∧ physical = u64 (e_pblk x + e_len x)) &&
  Bool.eqb uninit (is_uninit x) && bool_decide (s32 (e_len x) < max - 1).
Definition joins_before (logical physical : Z) (uninit : bool) (max : Z) (x : ext2fs_extent) : bool :=
  bool_decide (logical = u64 (e_lblk x - 1) ∧ physical = u64 (e_pblk x - 1)) &&
  Bool.eqb uninit (is_uninit x) && bool_decide (s32 (e_len x) < max - 1).

(** [ext2fs_extent_goto] where not finding the block is no error. *)
Definition goto_near (logical : Z) : op Z :=
  r ← attempt (ext2fs_extent_goto logical);
  match r with
  | inl e => if bool_decide (e = EXT2_ET_EXTENT_NOT_FOUND) then mret e else err e
  | inr _ => mret 0
  end.
(** A neighbour, when there is one; [none] is the error that says that there is none. *)
Definition neighbour (o none : Z) : op (option ext2fs_extent) :=
  r ← attempt (get o);
  match r with
  | inl e => if bool_decide (e = none) then mret None else err e
  | inr x => mret (Some x)
  end.

(** The branch for a block that is not mapped. *)
Definition map_unmapped (logical physical : Z) (uninit : bool) (max : Z) (new x : ext2fs_extent) (next : option ext2fs_extent) : op unit :=
  (if joins_after logical physical uninit max x then ext2fs_extent_replace (with_len (e_len x + 1) x)
   else if joins_before logical physical uninit max x then ext2fs_extent_replace (grow_left x)
   else if default false (joins_before logical physical uninit max <$> next) then
     nx ← get EXT2_EXTENT_NEXT_LEAF; ext2fs_extent_replace (grow_left nx)
   else if bool_decide (logical < e_lblk x) then ext2fs_extent_insert 0 new
   else ext2fs_extent_insert EXT2_EXTENT_INSERT_AFTER new);;
  ext2fs_extent_fix_parents.

(** The only block of an extent. *)
Definition remap_only (physical : Z) (new : ext2fs_extent) : op unit :=
  if bool_decide (physical ≠ 0) then ext2fs_extent_replace new else
  ext2fs_extent_delete 0;;
  r ← attempt ext2fs_extent_fix_parents;
  match r with
  | inl e => if bool_decide (e = EXT2_ET_NO_CURRENT_NODE) then mret tt else err e
  | inr _ => mret tt
  end.

(** The last block. *)
Definition remap_last (logical physical : Z) (uninit : bool) (max : Z) (new x : ext2fs_extent) (next : option ext2fs_extent) : op unit :=
  x ← (if bool_decide (physical ≠ 0) then
         (if default false (joins_before logical physical uninit max <$> next) then
            nx ← get EXT2_EXTENT_NEXT_LEAF; ext2fs_extent_replace (grow_left nx)
          else ext2fs_extent_insert EXT2_EXTENT_INSERT_AFTER new);;
         ext2fs_extent_fix_parents;;
         ext2fs_extent_goto logical;;
         get EXT2_EXTENT_CURRENT
       else mret x);
  ext2fs_extent_replace (with_len (e_len x - 1) x).

(** The first block. *)
Definition remap_first (logical physical : Z) (uninit : bool) (max : Z) (new x : ext2fs_extent) (prev : option ext2fs_extent) : op unit :=
  x ← (if bool_decide (physical ≠ 0) then
         (if default false (joins_after logical physical uninit max <$> prev) then
            px ← get EXT2_EXTENT_PREV_LEAF; ext2fs_extent_replace (with_len (e_len px + 1) px)
          else ext2fs_extent_insert 0 new);;
         ext2fs_extent_fix_parents;;
         get EXT2_EXTENT_NEXT_LEAF
       else mret x);
  ext2fs_extent_replace (drop_first x);;
  ext2fs_extent_fix_parents.

(** [f] at the extent of a block, when that is found; errors are not looked at. *)
Definition undo_at (lblk : Z) (f : op unit) : op unit :=
  r ← attempt (ext2fs_extent_goto lblk);
  match r with inl _ => mret tt | inr _ => attempt f;; mret tt end.

(** A block in the middle: the extent is split. *)
Definition remap_middle (logical physical : Z) (new x : ext2fs_extent) : op unit :=
  let before := with_len (logical - e_lblk x) x in
  ext2fs_extent_replace before;;
  (if bool_decide (physical ≠ 0) then
     r ← attempt (ext2fs_extent_insert EXT2_EXTENT_INSERT_AFTER new);
     match r with
     | inl e => undo_at (e_lblk x) (ext2fs_extent_replace x);; err e
     | inr _ => mret tt
     end
   else mret tt);;
  let n := u32 (e_len before + 1) in
  r ← attempt (ext2fs_extent_insert EXT2_EXTENT_INSERT_AFTER
        (Extent (u64 (e_pblk x + n)) (u64 (e_lblk x + n)) (u32 (e_len x - e_len before - 1)) (e_flags x)));
  match r with
  | inl e =>
      (if bool_decide (physical ≠ 0) then undo_at (e_lblk new) (ext2fs_extent_delete 0) else mret tt);;
      undo_at (e_lblk x) (ext2fs_extent_replace x);;
      err e
  | inr _ => mret tt
  end.

(** What is between saving the place of the handle and [done]. *)
Definition set_bmap_at (logical physical : Z) (uninit : bool) (new : ext2fs_extent) : op unit :=
  let max := if uninit then EXT_UNINIT_MAX_LEN else EXT_INIT_MAX_LEN in
  retval ← goto_near logical;
  let mapped := bool_decide (retval = 0) in
  if negb mapped && bool_decide (physical = 0) then mret tt else
  x ← get EXT2_EXTENT_CURRENT;
  next ← neighbour EXT2_EXTENT_NEXT_LEAF EXT2_ET_EXTENT_NO_NEXT;
  goto_near logical;;
  prev ← neighbour EXT2_EXTENT_PREV_LEAF EXT2_ET_EXTENT_NO_PREV;
  retval ← goto_near logical;
  if mapped && Bool.eqb uninit (is_uninit x) && bool_decide (u64 (e_pblk x + (logical - e_lblk x)) = physical)
  then checked retval else
  if negb mapped then map_unmapped logical physical uninit max new x next else
  if bool_decide (logical = e_lblk x ∧ e_len x = 1) then remap_only physical new else
  if bool_decide (logical = u64 (e_lblk x + e_len x - 1)) then remap_last logical physical uninit max new x next else
  if bool_decide (logical = e_lblk x) then remap_first logical physical uninit max new x prev else
  remap_middle logical physical new x.

(** [junk]: what [newextent] holds when it is not set; an empty tree gets it
    even when a block is to be unmapped. *)
Definition ext2fs_extent_set_bmap (junk : ext2fs_extent) (logical physical flags : Z) : op unit :=
  writable;;
  h ← get_obj;
  let uninit := flag flags EXT2_EXTENT_SET_BMAP_UNINIT in
  let new := if bool_decide (physical ≠ 0) then one_block logical physical uninit else junk in
  if bool_decide (h_max_depth h = 0%nat) && bool_decide (p_entries (cur h) = 0) then ext2fs_extent_insert 0 new else
  r ← attempt (get EXT2_EXTENT_CURRENT);
  orig_lblk ← match r with
              | inl e => if bool_decide (e = EXT2_ET_NO_CURRENT_NODE) then mret 0 else err e
              | inr x => mret (e_lblk x)
              end;
  h ← get_obj;
  let orig_height := height h in
  retval ← attempt (set_bmap_at logical physical uninit new);
  h ← get_obj;
  attempt (ext2fs_extent_goto2 (Z.min orig_height (Z.of_nat (h_max_depth h))) orig_lblk);;
  match retval with inl e => err e | inr _ => mret tt end.

(** *** Walks over the whole tree *)

(** The loop of [ext2fs_fix_extents_checksums]. *)
Fixpoint fix_csum_loop (fuel : nat) (x : ext2fs_extent) (h : handle) (s : W) : option (Z * handle * W) :=
  match fuel with
  | O => None
  | Datatypes.S fuel =>
      '(e, x, h, s) ← (if flag (e_flags x) EXT2_EXTENT_FLAGS_LEAF then ext2fs_extent_get EXT2_EXTENT_LAST_SIB x h s else Some (0, x, h, s));
      if bool_decide (e ≠ 0) then Some (e, h, s) else
      '(e, x, h, s) ← ext2fs_extent_get EXT2_EXTENT_NEXT x h s;
      '(e, h, s) ← (if bool_decide (e = EXT2_ET_EXTENT_CSUM_INVALID) then
                      '(r, h, s) ← update_path h s; Some (match r with inl e => e | inr _ => 0 end, h, s)
                    else Some (e, h, s));
      if bool_decide (e = 0) then fix_csum_loop fuel x h s else Some (e, h, s)
  end.

(** [noignore] clears EXT2_FLAG_IGNORE_CSUM_ERRORS of [fs->flags], [restore] puts
    the flags back. *)
Definition ext2fs_fix_extents_checksums (noignore restore : W → W) (fuel : nat) (s : W) (ino : Z) (inode : option (list Z)) : option (Z * W) :=
  if negb (ext2fs_has_feature_metadata_csum (sv_super s)) ||
     default false ((λ i, negb (flag (i_flags i) EXT4_EXTENTS_FL)) <$> inode) then Some (0, s) else
  '(e, h) ← ext2fs_extent_open2 s ino inode;
  if bool_decide (e ≠ 0) then Some (if bool_decide (e = EXT2_ET_INODE_NOT_EXTENT) then 0 else e, s) else
  let s := noignore s in
  '(e, x, h, s) ← ext2fs_extent_get EXT2_EXTENT_ROOT (Extent 0 0 0 0) h s;
  '(e, h, s) ← (if bool_decide (e ≠ 0) then Some (e, h, s) else fix_csum_loop fuel x h s);
  Some (if bool_decide (e = EXT2_ET_EXTENT_NO_NEXT) then 0 else e, restore s).

(** [ext2fs_decode_extent] of [len] bytes. *)
Definition ext2fs_decode_extent (addr : list Z) (len : Z) : Z * option ext2fs_extent :=
  if bool_decide (len ≠ 12) then (errno EXT2_ET_INVALID_ARGUMENT, None) else (0, Some (leaf_extent (-1) addr)).

(** The nodes on the way to a leaf that were not seen before. *)
Fixpoint count_nodes (h : handle) (ls : list nat) (n : Z) (seen : list Z) : Z * list Z :=
  match ls with
  | [] => (n, seen)
  | l :: ls =>
      let e := p_end_blk (path_at h l) in
      if bool_decide (seen !! l = Some e) then count_nodes h ls n seen
      else count_nodes h ls (u64 (n + 1)) (<[l := e]> seen)
  end.

Fixpoint count_loop (fuel : nat) (x : ext2fs_extent) (n : Z) (seen : list Z) (h : handle) (s : W) : option (Z * handle * W) :=
  match fuel with
  | O => None
  | Datatypes.S fuel =>
      let '(n, seen) :=
        if flag (e_flags x) EXT2_EXTENT_FLAGS_LEAF
        then count_nodes h (seq 0 (h_level h)) (u64 (n + e_len x)) seen else (n, seen) in
      '(e, x, h, s) ← ext2fs_extent_get EXT2_EXTENT_NEXT x h s;
      if bool_decide (e ≠ 0) then Some (n, h, s) else count_loop fuel x n seen h s
  end.

(** [ext2fs_count_blocks]; [intermediate_nodes] is what the memory holds when it
    is allocated: it is not cleared. *)
Definition ext2fs_count_blocks (intermediate_nodes : list Z) (fuel : nat) (s : W) (ino : Z) (inode : option (list Z)) : option (Z * W) :=
  '(e, h) ← ext2fs_extent_open2 s ino inode;
  if bool_decide (e ≠ 0) then Some (0, s) else
  '(e, x, h, s) ← ext2fs_extent_get EXT2_EXTENT_ROOT (Extent 0 0 0 0) h s;
  if bool_decide (e ≠ 0) || negb mem_ok then Some (0, s) else
  '(n, h, s) ← count_loop fuel x (Z.of_nat (h_level h)) intermediate_nodes h s;
  Some (n, s).

(** [ul_log2], and [ext2fs_max_extent_depth] without its cache of the last result. *)
Definition ul_log2 (arg : Z) : Z := Z.log2 arg.
Definition ext2fs_max_extent_depth (blocksize : Z) : Z :=
  1 + (ul_log2 EXT_MAX_EXTENT_LBLK - ul_log2 ((60 - 12) / 12)) / ul_log2 ((blocksize - 12) / 12).
End ops.
