(* ===== verification/ExtentIter.v ===== *)
(** * ExtentIter: going over the blocks of an inode with extents (block.c)

    The part of [ext2fs_block_iterate3] for inodes with EXT4_EXTENTS_FL: the walk
    over the tree, with a call for every block that an extent maps and, unless
    the flags leave them out, for the nodes.  It is the argument
    [iterate_extents] of BlockIter.  What the services keep is in the state of
    the channel. *)
From S2P Require Import Prelude.
From S2P Require Import Bytes.
From S2P Require Import Super.
From S2P Require Import Blknum.
From S2P Require Import IoManager.
From S2P Require Import BlockIter.
From S2P Require Import Dirent.
From S2P Require Import Services.
From S2P Require Import Extent.
#[local] Open Scope Z_scope.

Section walk.
Context {D P : Type} `{!Services (io_channel D)} (mem_ok : bool) (junk : ext2fs_extent).
Context (func : block_func D P) (fs : ext2_filsys) (flags : Z).
Abbreviation ctx_t := (block_context D P).

(** A call; blocks have 64 bits here. *)
Definition call_func64 (blk bcount : Z) (ctx : ctx_t) : option (Z * Z * ctx_t) :=
  '(ret, blk, ch, p) ← func fs blk bcount 0 0 (bc_chan ctx) (bc_priv ctx);
  Some (ret, blk, BlockContext (bc_bcount ctx) (bc_errcode ctx) ch p).

(** An operation on the handle, with its error in [errcode]. *)
Definition on_handle {A} (m : act handle (io_channel D) A) (h : handle) (ctx : ctx_t) : option ((Z + A) * handle * ctx_t) :=
  '(r, h, ch) ← m h (bc_chan ctx);
  Some (r, h, set_chan (match r with inl e => e | inr _ => 0 end) ch ctx).

(** [next_block_set]: blocks after the last extent, while the function adds some. *)
Fixpoint append_loop (fuel : nat) (ret blockcnt : Z) (h : handle) (ctx : ctx_t) : option (Z * handle * ctx_t) :=
  match fuel with
  | O => None
  | S fuel =>
      '(r, blk, ctx) ← call_func64 0 blockcnt ctx;
      let ret := Z.lor ret r in
      if ro_violation flags ret then let '(ret, ctx) := ro_result ret ctx in Some (ret, h, ctx) else
      if flag r BLOCK_CHANGED then
        '(e, h, ctx) ← on_handle (ext2fs_extent_set_bmap mem_ok junk (u64 blockcnt) blk 0) h ctx;
        if bool_decide (bc_errcode ctx ≠ 0) || flag ret BLOCK_ABORT then Some (ret, h, ctx) else
        if bool_decide (blk ≠ 0) then append_loop fuel ret (s64 (blockcnt + 1)) h ctx else Some (ret, h, ctx)
      else Some (ret, h, ctx)
  end.

(** The blocks of an extent, [n] of them from [blk] on; with whether to go to
    [extent_done]. *)
Fixpoint extent_loop (n : nat) (uninit ret blk blockcnt : Z) (h : handle) (ctx : ctx_t) : option (Z * bool * Z * handle * ctx_t) :=
  match n with
  | O => Some (ret, false, blockcnt, h, ctx)
  | S n =>
      '(r, new_blk, ctx) ← call_func64 blk blockcnt ctx;
      let ret := Z.lor ret r in
      if ro_violation flags ret then let '(ret, ctx) := ro_result ret ctx in Some (ret, true, blockcnt, h, ctx) else
      '(e, h, ctx) ← (if flag r BLOCK_CHANGED
                      then on_handle (ext2fs_extent_set_bmap mem_ok junk (u64 blockcnt) new_blk uninit) h ctx
                      else Some (inr tt, h, ctx));
      if flag r BLOCK_CHANGED && bool_decide (bc_errcode ctx ≠ 0) then Some (ret, true, blockcnt, h, ctx) else
      if flag ret BLOCK_ABORT then Some (ret, true, blockcnt, h, ctx) else
      extent_loop n uninit ret (u64 (blk + 1)) (s64 (blockcnt + 1)) h ctx
  end.

(** A node above the leaves, on the first or the second visit; with whether to stop. *)
Definition index_visit (x : ext2fs_extent) (ret : Z) (h : handle) (ctx : ctx_t) : option (Z * bool * handle * ctx_t) :=
  if flag flags BLOCK_FLAG_DATA_ONLY then Some (ret, false, h, ctx) else
  if Bool.eqb (flag (e_flags x) EXT2_EXTENT_FLAGS_SECOND_VISIT) (flag flags BLOCK_FLAG_DEPTH_TRAVERSE) then
    '(r, blk, ctx) ← call_func64 (e_pblk x) (-1) ctx;
    let ret := Z.lor ret r in
    '(e, h, ctx) ← (if flag ret BLOCK_CHANGED
                    then on_handle (ext2fs_extent_replace (Extent blk (e_lblk x) (e_len x) (e_flags x))) h ctx
                    else Some (inr tt, h, ctx));
    Some (ret, (flag ret BLOCK_CHANGED && bool_decide (bc_errcode ctx ≠ 0)) || flag ret BLOCK_ABORT, h, ctx)
  else Some (ret, false, h, ctx).

(** The loop.  [next]: the extent that is already the current one, else [o] says
    how to go on. *)
Fixpoint walk_loop (fuel : nat) (o : Z) (next : option ext2fs_extent) (ret blockcnt : Z) (h : handle) (ctx : ctx_t) :
    option (Z * handle * ctx_t) :=
  match fuel with
  | O => None
  | S fuel =>
      '(r, h, ctx) ← match next with
                     | Some x => Some (inr x, h, set_errcode 0 ctx)
                     | None => on_handle (get mem_ok o) h ctx
                     end;
      match r with
      | inl e =>
          if bool_decide (e ≠ EXT2_ET_EXTENT_NO_NEXT) then Some (ret, h, ctx) else
          let ctx := set_errcode 0 ctx in
          if negb (flag flags BLOCK_FLAG_APPEND) then Some (ret, h, ctx) else append_loop fuel ret blockcnt h ctx
      | inr x =>
          if negb (flag (e_flags x) EXT2_EXTENT_FLAGS_LEAF) then
            '(ret, stop, h, ctx) ← index_visit x ret h ctx;
            if stop : bool then Some (ret, h, ctx) else walk_loop fuel EXT2_EXTENT_NEXT None ret blockcnt h ctx
          else
            let uninit := if is_uninit x then EXT2_EXTENT_SET_BMAP_UNINIT else 0 in
            '(next, h, ch) ← get mem_ok EXT2_EXTENT_NEXT h (bc_chan ctx);
            let ctx := set_chan (bc_errcode ctx) ch ctx in
            if bool_decide (u64 (e_lblk x + e_len x) ≤ u64 blockcnt)
            then walk_loop fuel EXT2_EXTENT_NEXT None ret blockcnt h ctx else
            let blockcnt := if bool_decide (u64 blockcnt < e_lblk x) then s64 (e_lblk x) else blockcnt in
            let blk := u64 (e_pblk x + u32 (blockcnt - e_lblk x)) in
            '(ret, stop, blockcnt, h, ctx) ← extent_loop (Z.to_nat (e_len x)) uninit ret blk (s64 (e_lblk x)) h ctx;
            if stop : bool then Some (ret, h, ctx) else
            walk_loop fuel EXT2_EXTENT_NEXT (match next with inr x => Some x | inl _ => None end) ret blockcnt h ctx
      end
  end.
End walk.

(** An error of opening the tree is not reported: [ret] has no BLOCK_ERROR then. *)
Definition iterate_extents {D P} `{!Services (io_channel D)} (mem_ok : bool) (junk : ext2fs_extent) (fuel : nat)
    (func : block_func D P) (fs : ext2_filsys) (ino flags : Z) (inode : list Z) (ret : Z) (ctx : block_context D P) :
    option (Z * bool * list Z * block_context D P) :=
  '(e, h) ← ext2fs_extent_open2 mem_ok (bc_chan ctx) ino (Some inode);
  if bool_decide (e ≠ 0) then Some (ret, false, h_inode h, set_errcode e ctx) else
  '(ret, h, ctx) ← walk_loop mem_ok junk func fs flags fuel EXT2_EXTENT_ROOT None ret 0 h (set_errcode 0 ctx);
  Some (Z.lor ret BLOCK_ERROR, true, h_inode h, ctx).
