(* ===== verification/Bmap.v ===== *)
(** * Bmap: from blocks of a file to blocks of the device (bmap.c)

    [ext2fs_bmap2] finds the block that a block of a file is mapped to, sets it,
    or allocates one, for inodes with extents and with pointers.  The functions
    return their error with what they change through pointers: the block, the
    number of blocks allocated, the inode, the state.  The buffers are local: no
    call uses what an earlier one left in them. *)
From S2P Require Import Prelude.
From S2P Require Import Bytes.
From S2P Require Import Super.
From S2P Require Import Blknum.
From S2P Require Import Alloc.
From S2P Require Import IoManager.
From S2P Require Import BlockIter.
From S2P Require Import IBlock.
From S2P Require Import Services.
From S2P Require Import Extent.
#[local] Open Scope Z_scope.

Definition EXT2_ET_SET_BMAP_NO_IND : Z := EXT2_ET_BASE + 95.
Definition EXT2_ET_INLINE_DATA_NO_BLOCK : Z := EXT2_ET_BASE + 166.
Definition BMAP_ALLOC : Z := 1.
Definition BMAP_SET : Z := 2.
Definition BMAP_UNINIT : Z := 4.
Definition BMAP_ZERO : Z := 8.
Definition BMAP_RET_UNINIT : Z := 1.
Definition BLOCK_ALLOC_DATA : Z := 1.

Definition EXT4_FEATURE_RO_COMPAT_BIGALLOC : Z := 0x200.
Definition ext2fs_has_feature_bigalloc (sb : list Z) : bool :=
  bool_decide (Z.land (s_feature_ro_compat sb) EXT4_FEATURE_RO_COMPAT_BIGALLOC ≠ 0).

Section bmap.
Context {W : Type} `{!Services W}.
Abbreviation op := (act handle W).

(** ** Pointers *)

(** [ext2fs_alloc_block], for 32-bit numbers. *)
Definition alloc_block32 (s : W) (goal : Z) : Z * Z * W :=
  let '(e, b, s) := sv_alloc_block3 s (u32 goal) None in (e, u32 b, s).

(** The pointer [nr] of the indirect block [ind]: the error, the block, how many
    blocks are allocated. *)
Definition block_ind_bmap (flags ind nr ret_blk n : Z) (s : W) : Z * Z * Z * W :=
  if bool_decide (ind = 0) then
    if flag flags BMAP_SET then (EXT2_ET_SET_BMAP_NO_IND, ret_blk, n, s) else (0, 0, n, s)
  else
  let '(e, buf, s) := read_blk s ind in
  if bool_decide (e ≠ 0) then (e, ret_blk, n, s) else
  if flag flags BMAP_SET then
    let '(e, s) := write_blk s ind (set_block_nr nr ret_blk buf) in (e, ret_blk, n, s)
  else
  let b := block_nr nr buf in
  if bool_decide (b = 0) && flag flags BMAP_ALLOC then
    let goal := if bool_decide (nr ≠ 0) then block_nr (nr - 1) buf else ind in
    let '(e, b, s) := alloc_block32 s goal in
    if bool_decide (e ≠ 0) then (e, ret_blk, n, s) else
    let '(e, s) := write_blk s ind (set_block_nr nr b buf) in
    if bool_decide (e ≠ 0) then (e, ret_blk, n, s) else (0, b, n + 1, s)
  else (0, b, n, s).

(** The pointer [nr] under a doubly or triply indirect block: that of the level
    above first, for which nothing is set. *)
Definition block_sub_bmap (upper : Z → Z → Z → Z → Z → W → Z * Z * Z * W) (flags root nr ret_blk n : Z) (s : W) : Z * Z * Z * W :=
  let addr_per_block := Z.shiftr (sv_blocksize s) 2 in
  let '(e, b, n, s) := upper (Z.ldiff flags BMAP_SET) root (nr / addr_per_block) 0 n s in
  if bool_decide (e ≠ 0) then (e, ret_blk, n, s) else
  block_ind_bmap flags b (nr mod addr_per_block) ret_blk n s.

Definition block_dind_bmap (flags dind nr ret_blk n : Z) (s : W) : Z * Z * Z * W :=
  block_sub_bmap block_ind_bmap flags dind nr ret_blk n s.
Definition block_tind_bmap (flags tind nr ret_blk n : Z) (s : W) : Z * Z * Z * W :=
  block_sub_bmap block_dind_bmap flags tind nr ret_blk n s.

Definition ext2fs_file_block_offset_too_big (fs : ext2_filsys) (inode : list Z) (offset : Z) : bool :=
  if bool_decide (2^32 - 1 ≤ offset) then true else
  if flag (i_flags inode) EXT4_EXTENTS_FL then false else
  let a := Z.shiftr (fs_blocksize fs) 2 in
  bool_decide (a + a * a + a * a * a + 12 ≤ offset).

(** What the steps of [ext2fs_bmap2] change. *)
Record bmap_state := BmapState {
  b_inode : list Z;
  b_ret_flags : Z;
  b_alloc : Z;
  b_dirty : bool;
  b_phys : Z;
  b_state : W;
}.
Definition b_set_inode (i : list Z) (m : bmap_state) : bmap_state :=
  BmapState i (b_ret_flags m) (b_alloc m) (b_dirty m) (b_phys m) (b_state m).
Definition b_set_alloc (n : Z) (m : bmap_state) : bmap_state :=
  BmapState (b_inode m) (b_ret_flags m) n (b_dirty m) (b_phys m) (b_state m).
Definition b_set_dirty (m : bmap_state) : bmap_state :=
  BmapState (b_inode m) (b_ret_flags m) (b_alloc m) true (b_phys m) (b_state m).
Definition b_set_phys (b : Z) (m : bmap_state) : bmap_state :=
  BmapState (b_inode m) (b_ret_flags m) (b_alloc m) (b_dirty m) b (b_state m).
Definition b_set_state (s : W) (m : bmap_state) : bmap_state :=
  BmapState (b_inode m) (b_ret_flags m) (b_alloc m) (b_dirty m) (b_phys m) s.
Definition b_set_flags (f : Z) (m : bmap_state) : bmap_state :=
  BmapState (b_inode m) f (b_alloc m) (b_dirty m) (b_phys m) (b_state m).

(** [alloc_ctx] *)
Definition data_ctx (ino : Z) (inode : list Z) (lblk : Z) : blk_alloc_ctx := BlkAllocCtx ino inode lblk BLOCK_ALLOC_DATA.

(** A block for the pointer [i] of the inode. *)
Definition alloc_pointer (ino i goal : Z) (m : bmap_state) : Z * bmap_state :=
  let '(e, b, s) := sv_alloc_block3 (b_state m) goal (Some (data_ctx ino (b_inode m) 0)) in
  let m := b_set_state s m in
  if bool_decide (e ≠ 0) then (e, m) else
  (0, b_set_alloc (b_alloc m + 1) (b_set_inode (set_i_block i (u32 b) (b_inode m)) m)).

(** The pointer [nr] of the tree that the pointer [i] of the inode has. *)
Definition walk_tree (tree : Z → Z → Z → Z → Z → W → Z * Z * Z * W) (i flags nr : Z) (m : bmap_state) : Z * bmap_state :=
  let '(e, b, n, s) := tree flags (i_block i (b_inode m)) nr (u32 (b_phys m)) (b_alloc m) (b_state m) in
  let m := b_set_alloc n (b_set_state s m) in
  (e, if bool_decide (e = 0) then b_set_phys b m else m).

(** One of the three trees of indirect blocks. *)
Definition bmap_tree (tree : Z → Z → Z → Z → Z → W → Z * Z * Z * W) (ino i flags nr : Z) (m : bmap_state) : Z * bmap_state :=
  if bool_decide (i_block i (b_inode m) ≠ 0) then walk_tree tree i flags nr m else
  if negb (flag flags BMAP_ALLOC) then (if flag flags BMAP_SET then EXT2_ET_SET_BMAP_NO_IND else 0, m) else
  let '(e, m) := alloc_pointer ino i (i_block (i - 1) (b_inode m)) m in
  if bool_decide (e ≠ 0) then (e, m) else walk_tree tree i flags nr m.

(** ** Extents *)
Context (mem_ok : bool) (junk : ext2fs_extent).

(** [extent_bmap] without flags: the block, or 0. *)
Definition extent_lookup (block phys : Z) : op (Z * Z * Z) :=
  r ← attempt (ext2fs_extent_goto mem_ok block);
  match r with
  | inl e => if bool_decide (e = EXT2_ET_EXTENT_NOT_FOUND) then mret (phys, 0, block) else err e
  | inr _ =>
      x ← get mem_ok EXT2_EXTENT_CURRENT;
      let offset := u32 (block - e_lblk x) in
      mret (if bool_decide (e_lblk x ≤ block ∧ offset ≤ e_len x)
            then (u64 (e_pblk x + offset), if is_uninit x then BMAP_RET_UNINIT else 0, e_lblk x)
            else (phys, 0, e_lblk x))
  end.

(** The other blocks of the cluster of [lblk], [n] of them from the [i]-th on:
    the first that is mapped. *)
Fixpoint implied_loop (n : nat) (base lblk i : Z) : op (option (Z * Z)) :=
  match n with
  | O => mret None
  | Datatypes.S n =>
      if bool_decide (u64 (base + i) = lblk) then implied_loop n base lblk (i + 1) else
      r ← attempt (extent_lookup (u64 (base + i)) 0);
      match r with
      | inr (p, _, _) => if bool_decide (p ≠ 0) then mret (Some (p, i)) else implied_loop n base lblk (i + 1)
      | inl _ => implied_loop n base lblk (i + 1)
      end
  end.

Definition implied_cluster_alloc (lblk phys : Z) : op Z :=
  s ← get_state;
  if negb (ext2fs_has_feature_bigalloc (sv_super s)) then mret phys else
  let base := Z.land lblk (Z.lnot (EXT2FS_CLUSTER_MASK (sv_fs s))) in
  r ← implied_loop (Z.to_nat (EXT2FS_CLUSTER_RATIO (sv_fs s))) base lblk 0;
  mret (match r with Some (p, i) => u64 (p - i + (lblk - base)) | None => phys end).

(** [ext2fs_map_cluster_block]: the error, the block, the inode and the state. *)
Definition ext2fs_map_cluster_block (s : W) (ino : Z) (inode : list Z) (lblk : Z) : option (Z * Z * list Z * W) :=
  if negb (ext2fs_has_feature_bigalloc (sv_super s)) || negb (flag (i_flags inode) EXT4_EXTENTS_FL) then Some (0, 0, inode, s) else
  '(e, h) ← ext2fs_extent_open2 mem_ok s ino (Some inode);
  if bool_decide (e ≠ 0) then Some (e, 0, h_inode h, s) else
  '(r, h, s) ← implied_cluster_alloc lblk 0 h s;
  Some (match r with inl e => (e, 0) | inr b => (0, b) end, h_inode h, s).

(** A block for [block] where nothing is mapped: in its cluster when that is
    allocated, else after the block before, or near the inode. *)
Definition extent_new_block (ino block e_lblk : Z) : op (Z * Z) :=
  blk ← implied_cluster_alloc block 0;
  if bool_decide (blk ≠ 0) then mret (blk, 0) else
  r ← attempt (extent_lookup (u64 (block - 1)) 0);
  goal ← match r with
         | inr (p, _, _) => mret p
         | inl _ => λ h s, '(g, i, s) ← ext2fs_find_inode_goal mem_ok s ino (h_inode h) block; Some (inr g, set_inode i h, s)
         end;
  h ← get_obj;
  b ← service (λ s, sv_alloc_block3 s goal (Some (data_ctx ino (h_inode h) e_lblk)));
  s ← get_state;
  let mask := EXT2FS_CLUSTER_MASK (sv_fs s) in
  mret (u64 (Z.land b (Z.lnot mask) + Z.land mask block), 1).

(** [extent_bmap]: the block, the flags and how many blocks are allocated. *)
Definition extent_bmap (ino flags block phys : Z) : op (Z * Z * Z) :=
  let set_flags := if flag flags BMAP_UNINIT then EXT2_EXTENT_SET_BMAP_UNINIT else 0 in
  if flag flags BMAP_SET then ext2fs_extent_set_bmap mem_ok junk block phys set_flags;; mret (phys, 0, 0) else
  r ← extent_lookup block phys;
  let '(phys, ret_flags, lblk) := r in
  if bool_decide (phys = 0) && flag flags BMAP_ALLOC then
    n ← extent_new_block ino block lblk;
    let '(blk, alloc) := n in
    r ← attempt (ext2fs_extent_set_bmap mem_ok junk block blk set_flags);
    match r with
    | inl e => service (λ s, (0, tt, sv_block_alloc_stats2 s blk (-1)));; err e
    | inr _ =>
        s ← get_state;
        let '(e, i) := sv_read_inode s ino in
        checked (errno e);;
        modify (set_inode i);;
        mret (blk, ret_flags, alloc)
    end
  else mret (phys, ret_flags, 0).

(** ** [ext2fs_bmap2] *)

(** An inode with extents. *)
Definition bmap_extents (ino flags block : Z) (m : bmap_state) : option (Z * bmap_state) :=
  '(e, h) ← ext2fs_extent_open2 mem_ok (b_state m) ino (Some (b_inode m));
  let m := b_set_inode (h_inode h) m in
  if bool_decide (e ≠ 0) then Some (e, m) else
  '(r, h, s) ← extent_bmap ino flags block (b_phys m) h (b_state m);
  let m := b_set_state s (b_set_inode (h_inode h) m) in
  Some (match r with
        | inl e => (e, m)
        | inr (phys, ret_flags, alloc) => (0, b_set_phys phys (b_set_flags ret_flags (b_set_alloc alloc m)))
        end).

(** One of the pointers to data in the inode. *)
Definition bmap_direct (ino flags block : Z) (m : bmap_state) : option (Z * bmap_state) :=
  if flag flags BMAP_SET then Some (0, b_set_dirty (b_set_inode (set_i_block block (u32 (b_phys m)) (b_inode m)) m)) else
  let m := b_set_phys (i_block block (b_inode m)) m in
  '(goal, m) ← (if bool_decide (block ≠ 0) then Some (i_block (block - 1) (b_inode m), m)
                else '(g, i, s) ← ext2fs_find_inode_goal mem_ok (b_state m) ino (b_inode m) block;
                     Some (u32 g, b_set_state s (b_set_inode i m)));
  if bool_decide (b_phys m = 0) && flag flags BMAP_ALLOC then
    let '(e, m) := alloc_pointer ino block goal m in
    Some (e, if bool_decide (e = 0) then b_set_phys (i_block block (b_inode m)) m else m)
  else Some (0, m).

(** The part before [done]. *)
Definition bmap_block (ino flags block : Z) (m : bmap_state) : option (Z * bmap_state) :=
  let a := Z.shiftr (sv_blocksize (b_state m)) 2 in
  if flag (i_flags (b_inode m)) EXT4_EXTENTS_FL then bmap_extents ino flags block m else
  if bool_decide (block < EXT2_NDIR_BLOCKS) then bmap_direct ino flags block m else
  let nr := block - EXT2_NDIR_BLOCKS in
  if bool_decide (nr < a) then Some (bmap_tree block_ind_bmap ino EXT2_IND_BLOCK flags nr m) else
  let nr := nr - a in
  if bool_decide (nr < u32 (a * a)) then Some (bmap_tree block_dind_bmap ino EXT2_DIND_BLOCK flags nr m) else
  Some (bmap_tree block_tind_bmap ino EXT2_TIND_BLOCK flags (nr - u32 (a * a)) m).

(** [done]: zeroing the block, and writing the inode when it changed. *)
Definition bmap_done (ino flags e : Z) (m : bmap_state) : Z * bmap_state :=
  let '(e, m) :=
    if bool_decide (b_phys m ≠ 0 ∧ e = 0) && flag flags BMAP_ZERO
    then let '(e, s) := sv_zero_blocks2 (b_state m) (b_phys m) 1 in (e, b_set_state s m) else (e, m) in
  if bool_decide (e = 0) && (bool_decide (b_alloc m ≠ 0) || b_dirty m) then
    let m := b_set_inode (ext2fs_iblk_add_blocks (sv_fs (b_state m)) (b_inode m) (b_alloc m)).2 m in
    let '(e, s) := sv_write_inode (b_state m) ino (b_inode m) in (e, b_set_state s m)
  else (e, m).

(** The error with what the function changes; without an inode ([None]) it is
    read, and the copy is dropped by the caller. *)
Definition ext2fs_bmap2 (ino : Z) (inode : option (list Z)) (bmap_flags block phys_blk : Z) (s : W) : option (Z * bmap_state) :=
  let phys := if flag bmap_flags BMAP_SET then phys_blk else 0 in
  let '(e, i) := match inode with Some i => (E_OK, i) | None => sv_read_inode s ino end in
  let m := BmapState i 0 0 false phys s in
  if bool_decide (e ≠ E_OK) then Some (errno e, m) else
  if ext2fs_file_block_offset_too_big (sv_fs s) i block then Some (errno EXT2_ET_FILE_TOO_BIG, m) else
  if flag (i_flags i) EXT4_INLINE_DATA_FL then Some (EXT2_ET_INLINE_DATA_NO_BLOCK, m) else
  if negb mem_ok then Some (errno EXT2_ET_NO_MEMORY, m) else
  '(e, m) ← bmap_block ino bmap_flags block m;
  Some (bmap_done ino bmap_flags e m).

(** [ext2fs_bmap]: the error, the block as [*phys_blk] has it, and the rest. *)
Definition ext2fs_bmap (ino : Z) (inode : option (list Z)) (bmap_flags block phys_blk : Z) (s : W) : option (Z * Z * bmap_state) :=
  '(e, m) ← ext2fs_bmap2 ino inode bmap_flags block phys_blk s;
  Some (if bool_decide (e ≠ 0) then (e, phys_blk, m) else
        if bool_decide (2^32 ≤ b_phys m) then (EOVERFLOW, phys_blk, m) else (0, b_phys m, m)).
End bmap.
Arguments bmap_state W : clear implicits.
