(* ===== verification/BmapProps.v ===== *)
(** * BmapProps: the map of a file with pointers, found, set and extended

    A node of such a file is one of its pointers: the [r]-th of the inode, or one
    [k] levels below it.  [node] is the block that it points to.  In a
    well-formed file no block is pointed to twice, so writing a pointer changes
    one node ([write_pointer]).  From that: [ext2fs_bmap2] finds what the map of
    FileMap says, sets exactly one block, and allocates blocks without touching
    what the file has already. *)
From S2P Require Import Prelude.
From S2P Require Import Bytes.
From S2P Require Import Super.
From S2P Require Import Blknum.
From S2P Require Import IoManager.
From S2P Require Import BlockIter.
From S2P Require Import FileMap.
From S2P Require Import IBlock.
From S2P Require Import Services.
From S2P Require Import Extent.
From S2P Require Import Bmap.
#[local] Open Scope Z_scope.

(** ** Nodes *)
Record place := Place { n_root : Z; n_depth : nat; n_index : Z }.
#[export] Instance place_eq_dec : EqDecision place.
Proof. solve_decision. Defined.

(** How many levels are under a pointer of the inode. *)
Definition height (r : Z) : nat := Z.to_nat (r - 11).

Section nodes.
Context (a : Z) (Ha : 0 < a).

Definition valid (p : place) : Prop :=
  0 ≤ n_root p < 15 ∧ (n_depth p ≤ height (n_root p))%nat ∧ 0 ≤ n_index p < span a (n_depth p).
Definition is_leaf (p : place) : Prop := n_depth p = height (n_root p).
Definition parent (p : place) : place := Place (n_root p) (pred (n_depth p)) (n_index p / a).
Definition child (p : place) (j : Z) : place := Place (n_root p) (S (n_depth p)) (n_index p * a + j).

Definition node (rd : Z → list Z) (inode : list Z) (p : place) : Z :=
  tree_block rd a (n_depth p) (i_block (n_root p) inode) (n_index p).

(** From the root down, or from the parent. *)
Lemma tree_block_parent rd d blk m : 0 ≤ m < span a (S d) →
  tree_block rd a (S d) blk m =
  let x := tree_block rd a d blk (m / a) in if bool_decide (x = 0) then 0 else ptr rd x (m mod a).
Proof.
  revert blk m. induction d as [|d IH]; intros blk m Hm; cbv zeta.
  - cbn [tree_block span] in *. case_bool_decide as Hb; [by rewrite bool_decide_eq_true_2|].
    rewrite Z.mul_1_r in Hm. rewrite (bool_decide_eq_false_2 (blk = 0)) // Z.div_1_r (Z.mod_small m a) //.
    by case_bool_decide.
  - change (tree_block rd a (S (S d)) blk m) with
      (if bool_decide (blk = 0) then 0 else tree_block rd a (S d) (ptr rd blk (m / span a (S d))) (m mod span a (S d))).
    change (tree_block rd a (S d) blk (m / a)) with
      (if bool_decide (blk = 0) then 0 else tree_block rd a d (ptr rd blk (m / a / span a d)) ((m / a) mod span a d)).
    pose proof (span_pos a d Ha) as Hs. change (span a (S d)) with (a * span a d) in *.
    case_bool_decide as Hb; [by rewrite bool_decide_eq_true_2|].
    rewrite IH; [|apply Z.mod_pos_bound; cbn [span]; nia]. cbv zeta. cbn [span].
    rewrite Z.div_div //.
    assert ((m mod (a * span a d)) / a = (m / a) mod span a d) as ->.
    { rewrite Z.rem_mul_r; [|lia..]. rewrite Z.add_comm Z.mul_comm Z.div_add_l; [|lia].
      rewrite (Z.div_small (m mod a)); [lia|by apply Z.mod_pos_bound]. }
    assert ((m mod (a * span a d)) mod a = m mod a) as ->; [|done].
    rewrite Z.rem_mul_r; [|lia..]. rewrite (Z.mul_comm a) Z.mod_add; [|lia]. apply Z.mod_mod. lia.
  all: lia.
Qed.

Lemma node_parent rd inode p : valid p → (0 < n_depth p)%nat →
  node rd inode p = let x := node rd inode (parent p) in if bool_decide (x = 0) then 0 else ptr rd x (n_index p mod a).
Proof.
  destruct p as [r [|d] m]; unfold valid, node, parent; cbn [n_root n_depth n_index pred]; [lia|].
  intros (_ & _ & Hm) _. by rewrite tree_block_parent.
Qed.

Lemma node_root rd inode r m : node rd inode (Place r 0 m) = i_block r inode.
Proof. unfold node. cbn. by case_bool_decide. Qed.

Lemma valid_parent p : valid p → valid (parent p).
Proof.
  destruct p as [r d m]. unfold valid, parent; cbn [n_root n_depth n_index]. intros (? & ? & Hm). split; [done|]. split; [lia|].
  destruct d as [|d]; cbn [pred span] in *.
  - assert (m = 0) as -> by lia. by rewrite Z.div_0_l; lia.
  - split; [apply Z.div_pos; lia|]. apply Z.div_lt_upper_bound; lia.
Qed.

Lemma valid_root r : 0 ≤ r < 15 → valid (Place r 0 0).
Proof. intros ?. split; [done|]. cbn. lia. Qed.

Lemma valid_child p j : valid p → ¬ is_leaf p → 0 ≤ j < a → valid (child p j).
Proof.
  destruct p as [r d m]. unfold valid, is_leaf, child; cbn [n_root n_depth n_index]. intros (? & ? & Hm) Hl Hj.
  split; [done|]. split; [lia|]. cbn [span]. nia.
Qed.

Lemma parent_child p j : 0 ≤ j < a → parent (child p j) = p.
Proof.
  intros Hj. destruct p as [r d m]. unfold parent, child; cbn. f_equal. rewrite Z.div_add_l; [|lia]. rewrite Z.div_small //. lia.
Qed.

Lemma child_mod p j : 0 ≤ j < a → n_index (child p j) mod a = j.
Proof. intros Hj. destruct p as [r d m]. cbn. rewrite Z.add_comm Z.mod_add; [|lia]. by apply Z.mod_small. Qed.

(** The parent and the number of the pointer say which node it is. *)
Lemma place_eq p q : valid p → valid q → (0 < n_depth p)%nat → (0 < n_depth q)%nat → parent p = parent q →
  n_index p mod a = n_index q mod a → p = q.
Proof.
  destruct p as [r d m], q as [r' d' m']. unfold parent; cbn [n_root n_depth n_index]. intros _ _ Hd Hd' [= -> Hdd Hm] Hmod.
  f_equal; [lia|]. pose proof (Z.div_mod m a). pose proof (Z.div_mod m' a). lia.
Qed.

(** The nodes on the way from the root down to [q]. *)
Inductive above (q : place) : place → Prop :=
  | above_refl : above q q
  | above_parent p : (0 < n_depth p)%nat → above q p → above q (parent p).

Lemma above_depth q p : above q p → (n_depth p ≤ n_depth q)%nat ∧ n_root p = n_root q ∧ (n_depth p = n_depth q → p = q).
Proof.
  induction 1 as [|p Hd Hp IH]; [done|]. destruct IH as (IH1 & IH2 & IH3). unfold parent. cbn [n_depth n_root].
  split; [lia|]. split; [done|lia].
Qed.

Lemma above_valid q p : valid q → above q p → valid p.
Proof. intros Hq. induction 1; [done|by apply valid_parent]. Qed.

Lemma above_leaf q p : above q p → is_leaf q → is_leaf p → p = q.
Proof. unfold is_leaf. intros Hp Hq Hl. destruct (above_depth q p Hp) as (_ & Hr & He). apply He. rewrite Hl Hr Hq //. Qed.

Lemma above_up q p : (0 < n_depth q)%nat → above (parent q) p → above q p.
Proof. intros Hd. induction 1; [apply above_parent; [done|apply above_refl]|by apply above_parent]. Qed.

Lemma above_root q : valid q → above q (Place (n_root q) 0 0).
Proof.
  destruct q as [r d m]. cbn [n_root]. revert m. induction d as [|d IH]; intros m Hq.
  - destruct Hq as (_ & _ & Hm). cbn in Hm. assert (m = 0) as -> by lia. apply above_refl.
  - apply above_up; [cbn; lia|]. apply (IH (m / a)). by apply (valid_parent (Place r (S d) m)).
Qed.

(** What is on the way to a node that is there, is there. *)
Lemma node_above rd inode q p : valid q → above q p → node rd inode q ≠ 0 → node rd inode p ≠ 0.
Proof.
  intros Hq Hp Hn. induction Hp as [|p Hd Hp IH]; [done|]. intros H0. apply IH.
  rewrite node_parent; [|by eapply above_valid|done]. cbv zeta. by rewrite bool_decide_eq_true_2.
Qed.

(** ** Well-formed files *)

(** The blocks of the pointers are in the area and in use, the indirect ones are
    read as bytes, and no block has two pointers to it. *)
Record file_wf (area used : Z → Prop) (rd : Z → list Z) (inode : list Z) : Prop := FileWf {
  fw_bytes : is_bytes inode;
  fw_length : (128 ≤ length inode)%nat;
  fw_used p : valid p → node rd inode p ≠ 0 → area (node rd inode p) ∧ used (node rd inode p) ∧ 0 < node rd inode p < 2^32;
  fw_node p : valid p → ¬ is_leaf p → node rd inode p ≠ 0 →
    is_bytes (rd (node rd inode p)) ∧ Z.of_nat (length (rd (node rd inode p))) = 4 * a;
  fw_inj p q : valid p → valid q → node rd inode p = node rd inode q → node rd inode p ≠ 0 → p = q;
}.

(** Writing the pointer of the node [p] when there is nothing below it, neither
    before nor after: what becomes of the others. *)
Lemma set_pointer area used rd inode rd' inode' p b :
  file_wf area used rd inode → valid p →
  (∀ r, 0 ≤ r < 15 → p ≠ Place r 0 0 → i_block r inode' = i_block r inode) →
  (n_depth p = 0%nat → i_block (n_root p) inode' = b) →
  ((0 < n_depth p)%nat → node rd inode (parent p) ≠ 0 ∧
     ∀ j, 0 ≤ j < a → ptr rd' (node rd inode (parent p)) j = if bool_decide (j = n_index p mod a) then b else ptr rd (node rd inode (parent p)) j) →
  (∀ q, valid q → ¬ is_leaf q → node rd inode q ≠ 0 → ((0 < n_depth p)%nat → q ≠ parent p) → q ≠ p → rd' (node rd inode q) = rd (node rd inode q)) →
  (is_leaf p ∨ (∀ j, 0 ≤ j < a → node rd inode (child p j) = 0) ∧ (b = 0 ∨ ∀ j, 0 ≤ j < a → ptr rd' b j = 0)) →
  ∀ q, valid q → node rd' inode' q = if bool_decide (q = p) then b else node rd inode q.
Proof.
  intros Hwf Hp Hroot Hroot' Hpar Hrest Hnew [r d m]. revert m. induction d as [|d IH]; intros m Hq.
  - rewrite !node_root. assert (m = 0) as -> by (destruct Hq as (_ & _ & Hm); cbn in Hm; lia). case_bool_decide as H.
    + subst p. by apply Hroot'.
    + apply Hroot; [apply Hq|done].
  - rewrite (node_parent rd' inode') //; [|cbn; lia]. cbv zeta.
    assert (valid (parent (Place r (S d) m))) as Hqp by by apply valid_parent.
    change (parent (Place r (S d) m)) with (Place r d (m / a)) in *. rewrite IH //. set (qp := Place r d (m / a)) in *.
    assert (¬ is_leaf qp) as Hql. { unfold is_leaf. cbn. destruct Hq as (_ & Hd & _). cbn in Hd. lia. }
    assert (parent (Place r (S d) m) = qp) as Hpq by done. assert (n_depth qp = d) as Hqd by done. clearbody qp.
    destruct (decide (qp = p)) as [H|H]; [rewrite !(bool_decide_eq_true_2 (qp = p)) //|rewrite !(bool_decide_eq_false_2 (qp = p)) //].
    + subst p. rewrite (bool_decide_eq_false_2 (Place r (S d) m = _)); [|intros Heq; rewrite -Heq in Hqd; cbn in Hqd; lia].
      destruct Hnew as [|[H0 Hz]]; [done|]. pose proof (Z.mod_pos_bound m a Ha) as Hma.
      assert (child qp (m mod a) = Place r (S d) m) as Hch.
      { rewrite -Hpq. unfold child, parent. cbn. f_equal. pose proof (Z.div_mod m a). lia. }
      rewrite -Hch H0 //. case_bool_decide as Hb0; [done|]. destruct Hz as [?|Hz]; [done|]. apply Hz. by apply Z.mod_pos_bound.
    + rewrite (node_parent rd inode (Place r (S d) m)) //; [|cbn; lia]. cbv zeta. rewrite Hpq.
      cbn [n_index]. pose proof (Z.mod_pos_bound m a Ha) as Hma.
      destruct (decide (node rd inode qp = 0)) as [Hz|Hz].
      { rewrite !(bool_decide_eq_true_2 (node rd inode qp = 0)) //. case_bool_decide as Hqq; [|done]. subst p.
        destruct Hpar as [Hn _]; [cbn; lia|]. by rewrite Hpq in Hn. }
      rewrite !(bool_decide_eq_false_2 (node rd inode qp = 0)) //.
      destruct (decide ((0 < n_depth p)%nat ∧ qp = parent p)) as [[Hd Hpp]|Hnp].
      * destruct Hpar as (_ & Hj); [done|]. rewrite Hpp Hj //.
        case_bool_decide as Hmm.
        -- rewrite bool_decide_eq_true_2; [done|]. apply place_eq; [done|done|cbn; lia|done|by rewrite Hpq|done].
        -- rewrite bool_decide_eq_false_2; [done|]. intros <-. by apply Hmm.
      * rewrite (bool_decide_eq_false_2 (Place r (S d) m = p)).
        -- unfold ptr. rewrite Hrest //. intros Hd ->. by apply Hnp.
        -- intros <-. apply Hnp. split; [cbn; lia|done].
Qed.

(** A pointer to a block that was not there: a new indirect block has no pointers. *)
Lemma write_pointer area used rd inode rd' inode' p b :
  file_wf area used rd inode → valid p →
  (∀ r, 0 ≤ r < 15 → p ≠ Place r 0 0 → i_block r inode' = i_block r inode) →
  (n_depth p = 0%nat → i_block (n_root p) inode' = b) →
  ((0 < n_depth p)%nat → node rd inode (parent p) ≠ 0 ∧
     ∀ j, 0 ≤ j < a → ptr rd' (node rd inode (parent p)) j = if bool_decide (j = n_index p mod a) then b else ptr rd (node rd inode (parent p)) j) →
  (∀ q, valid q → ¬ is_leaf q → node rd inode q ≠ 0 → ((0 < n_depth p)%nat → q ≠ parent p) → q ≠ p → rd' (node rd inode q) = rd (node rd inode q)) →
  (is_leaf p ∨ node rd inode p = 0 ∧ ∀ j, 0 ≤ j < a → ptr rd' b j = 0) →
  ∀ q, valid q → node rd' inode' q = if bool_decide (q = p) then b else node rd inode q.
Proof.
  intros Hwf Hp Hr Hr' Hpar Hrest Hnew. apply (set_pointer area used); [done..|].
  destruct (decide (is_leaf p)) as [Hl|Hl]; [by left|]. destruct Hnew as [?|[H0 Hz]]; [by left|right]. split; [|by right].
  intros j Hj. rewrite node_parent; [|by apply valid_child|cbn; lia]. cbv zeta. by rewrite parent_child // bool_decide_eq_true_2.
Qed.
End nodes.

(** The places of [l] that are new. *)
Definition fresh (f f' : place → Z) (l : list place) : list place := filter (λ p, f p = 0 ∧ f' p ≠ 0) l.

Lemma fresh_ext f f' g g' l : (∀ p, p ∈ l → f p = g p ∧ f' p = g' p) → fresh f f' l = fresh g g' l.
Proof.
  unfold fresh. induction l as [|p l IH]; intros H; [done|]. destruct (H p) as [E E']; [by left|].
  rewrite !filter_cons E E' IH; [done|]. intros q Hq. apply H. by right.
Qed.

Lemma fresh_one f f' p : fresh f f' [p] = if decide (f p = 0 ∧ f' p ≠ 0) then [p] else [].
Proof. done. Qed.

(** ** Adding blocks *)
Section grow.
Context {W : Type} `{!Services W} {content : W → Z → list Z} {used : W → Z → Prop} {area : Z → Prop}.
Context `{!Serves content used area} (a : Z) (Ha : 256 ≤ a ≤ 16384).

Abbreviation N s i := (node a (content s) i).
Definition wf (s : W) (i : list Z) : Prop := file_wf a area (used s) (content s) i ∧ sv_blocksize s = 4 * a.
Abbreviation zeros := (replicate (Z.to_nat (4 * a)) 0).

(** From [s] and the inode [i] on: blocks that were free are added to the file at
    the places [l], [n] of them, and nothing else changes. *)
Record grows (s : W) (i : list Z) (s' : W) (i' : list Z) (l : list place) (n : Z) : Prop := Grows {
  g_wf : wf s' i';
  g_place p : p ∈ l → valid a p;
  g_nodup : NoDup l;
  g_same p : valid a p → p ∉ l → N s' i' p = N s i p;
  g_kept p : valid a p → N s i p ≠ 0 → N s' i' p = N s i p;
  g_free p : valid a p → N s i p = 0 → N s' i' p ≠ 0 → ¬ used s (N s' i' p);
  g_used x : used s x → used s' x;
  g_used_by x : used s' x → used s x ∨ x ≠ 0 ∧ ∃ p, valid a p ∧ N s i p = 0 ∧ N s' i' p = x;
  g_content x : x ≠ 0 → area x → used s x → (∀ p, valid a p → ¬ is_leaf p → N s i p ≠ x) → content s' x = content s x;
  g_inode ino : sv_read_inode s' ino = sv_read_inode s ino;
  g_count : n = Z.of_nat (length (fresh (N s i) (N s' i') l));
}.

Lemma grows_trans s i s1 i1 s2 i2 l1 l2 n1 n2 : (∀ p, p ∈ l1 ++ l2 → valid a p) → (∀ p, p ∈ l1 → p ∉ l2) → wf s i →
  grows s i s1 i1 l1 n1 → grows s1 i1 s2 i2 l2 n2 → grows s i s2 i2 (l1 ++ l2) (n1 + n2).
Proof.
  intros Hv Hd [Hwf _] G1 G2. constructor.
  - apply (g_wf _ _ _ _ _ _ G2).
  - done.
  - apply NoDup_app. split; [apply (g_nodup _ _ _ _ _ _ G1)|]. split; [done|apply (g_nodup _ _ _ _ _ _ G2)].
  - intros p Hp Hl. rewrite elem_of_app in Hl. rewrite (g_same _ _ _ _ _ _ G2) //; [|tauto]. apply (g_same _ _ _ _ _ _ G1); tauto.
  - intros p Hp H0. rewrite (g_kept _ _ _ _ _ _ G2) // (g_kept _ _ _ _ _ _ G1) //.
  - intros p Hp H0 H2 Hu. destruct (decide (N s1 i1 p = 0)) as [H1|H1].
    + apply (g_free _ _ _ _ _ _ G2 p Hp H1 H2). by apply (g_used _ _ _ _ _ _ G1).
    + rewrite (g_kept _ _ _ _ _ _ G2) // in Hu. by apply (g_free _ _ _ _ _ _ G1 p Hp H0 H1).
  - intros x Hx. by apply (g_used _ _ _ _ _ _ G2), (g_used _ _ _ _ _ _ G1).
  - intros x Hx. apply (g_used_by _ _ _ _ _ _ G2) in Hx as [Hx|(Hx & p & Hp & H1 & H2)].
    + apply (g_used_by _ _ _ _ _ _ G1) in Hx as [Hx|(Hx & p & Hp & H0 & H1)]; [by left|right]. split; [done|]. exists p.
      split; [done|]. split; [done|]. rewrite (g_kept _ _ _ _ _ _ G2) //. by rewrite H1.
    + right. split; [done|]. exists p. split; [done|]. split; [|done].
      destruct (decide (N s i p = 0)) as [|H0]; [done|]. by rewrite (g_kept _ _ _ _ _ _ G1) in H1.
  - intros x H0' Ha' Hx Hm. rewrite (g_content _ _ _ _ _ _ G2) //; [by apply (g_content _ _ _ _ _ _ G1)|by apply (g_used _ _ _ _ _ _ G1)|].
    intros p Hp Hl <-. destruct (decide (N s i p = 0)) as [H0|H0].
    + by apply (g_free _ _ _ _ _ _ G1 p Hp H0 H0').
    + apply (Hm p Hp Hl). by rewrite (g_kept _ _ _ _ _ _ G1).
  - intros ino. by rewrite (g_inode _ _ _ _ _ _ G2) (g_inode _ _ _ _ _ _ G1).
  - unfold fresh. rewrite filter_app length_app Nat2Z.inj_add (g_count _ _ _ _ _ _ G1) (g_count _ _ _ _ _ _ G2).
    f_equal; do 2 f_equal; apply fresh_ext; intros p Hp.
    + split; [done|]. symmetry. apply (g_same _ _ _ _ _ _ G2); [|by apply Hd]. apply Hv, elem_of_app. by left.
    + split; [|done]. apply (g_same _ _ _ _ _ _ G1); [|intros H; by apply (Hd p)]. apply Hv, elem_of_app. by right.
Qed.

(** Nothing changes. *)
Lemma grows_refl s i s' l : wf s i → NoDup l → (∀ p, p ∈ l → valid a p) → same_blocks content area s s' → keeps used s s' → grows s i s' i l 0.
Proof.
  intros [Hwf Hb] Hnd Hl Hs [Hu Hi Hbs].
  assert (∀ p, valid a p → N s' i p = N s i p) as Hn.
  { intros [r d m]. revert m. induction d as [|d IH]; intros m Hp; [by rewrite !node_root|].
    rewrite !(node_parent a ltac:(lia) _ _ (Place r (S d) m)) //; [|cbn; lia..]. cbv zeta.
    assert (valid a (parent a (Place r (S d) m))) as Hpp by (apply valid_parent; [lia|done]).
    change (parent a (Place r (S d) m)) with (Place r d (m / a)) in *. rewrite IH //. case_bool_decide as H0; [done|].
    unfold ptr. rewrite Hs //. by apply (fw_used _ _ _ _ _ Hwf). }
  constructor; try done.
  - split; [|by rewrite Hbs]. destruct Hwf as [H1 H2 H3 H4 H5]. constructor; [done..| | |].
    + intros p Hp. rewrite Hn //. intros H0. destruct (H3 p Hp H0) as (? & ? & ?). by rewrite Hu.
    + intros p Hp Hlf. rewrite Hn //. intros H0. rewrite Hs; [by apply H4|by apply H3].
    + intros p q Hp Hq. rewrite !Hn //. by apply H5.
  - intros p Hp _. by apply Hn.
  - intros p Hp _. by apply Hn.
  - intros p Hp H0. by rewrite Hn.
  - intros x. by rewrite Hu.
  - intros x. rewrite Hu. by left.
  - intros x H0 Hx _ _. by apply Hs.
  - unfold fresh. rewrite filter_nil_iff; [done|]. intros p Hp [H0 H1]. apply H1. rewrite Hn //. by apply Hl.
Qed.

(** One block is added. *)
Lemma grow_one s i s' i' q b : wf s i → valid a q → N s i q = 0 → area b → 0 < b < 2^32 → ¬ used s b →
  (∀ x, used s' x ↔ used s x ∨ x = b) → sv_blocksize s' = sv_blocksize s → (∀ ino, sv_read_inode s' ino = sv_read_inode s ino) →
  (∀ p, valid a p → N s' i' p = if bool_decide (p = q) then b else N s i p) →
  is_bytes i' → (128 ≤ length i')%nat → content s' b = zeros →
  (∀ p, valid a p → ¬ is_leaf p → N s i p ≠ 0 → is_bytes (content s' (N s i p)) ∧ Z.of_nat (length (content s' (N s i p))) = 4 * a) →
  (∀ x, area x → used s x → (∀ p, valid a p → ¬ is_leaf p → N s i p ≠ x) → content s' x = content s x) →
  grows s i s' i' [q] 1.
Proof.
  intros [Hwf Hb] Hq Hq0 Ha' Hb0 Hf Hu Hbs Hi Hn H1 H2 Hz Hm Hc. destruct Hwf as [_ _ H3 _ H5].
  assert (∀ p, valid a p → N s i p ≠ b) as Hnb.
  { intros p Hp Hpb. apply Hf. rewrite -Hpb. apply H3; [done|]. lia. }
  constructor.
  - split; [|by rewrite Hbs]. constructor; [done..| | |].
    + intros p Hp. rewrite Hn // Hu. case_bool_decide as H; [by auto|]. intros H0. destruct (H3 p Hp H0) as (? & ? & ?). auto.
    + intros p Hp Hlf. rewrite Hn //. case_bool_decide as H; [|by apply Hm]. intros _. rewrite Hz length_replicate.
      split; [by apply Forall_replicate|lia].
    + intros p p' Hp Hp'. rewrite !Hn //. case_bool_decide as E; case_bool_decide as E'; [by subst|intros Heq..|].
      * by destruct (Hnb p').
      * by destruct (Hnb p).
      * by apply H5.
  - by intros p ->%list_elem_of_singleton.
  - apply NoDup_singleton.
  - intros p Hp Hl. rewrite Hn //. rewrite bool_decide_eq_false_2; [done|]. intros ->. apply Hl. by left.
  - intros p Hp H0. rewrite Hn //. rewrite bool_decide_eq_false_2; [done|]. by intros ->.
  - intros p Hp H0. rewrite Hn //. by case_bool_decide.
  - intros x Hx. rewrite Hu. by left.
  - intros x. rewrite Hu. intros [Hx| ->]; [by left|right]. split; [lia|]. exists q. split; [done|]. split; [done|].
    rewrite Hn //. by rewrite bool_decide_eq_true_2.
  - intros x _. apply Hc.
  - done.
  - rewrite fresh_one decide_True //. split; [done|]. rewrite Hn // bool_decide_eq_true_2 //. lia.
Qed.

Lemma block_nr_set j j' b buf : Z.of_nat (length buf) = 4 * a → 0 ≤ j < a → 0 ≤ j' < a → 0 ≤ b < 2^32 →
  block_nr j' (set_block_nr j b buf) = if bool_decide (j' = j) then b else block_nr j' buf.
Proof.
  intros Hl Hj Hj' Hb. unfold block_nr, set_block_nr. case_bool_decide as H.
  - subst j'. rewrite get_set_le; [by apply Z.mod_small|]. unfold in_buf. lia.
  - apply get_set_le_ne; [unfold in_buf; lia|lia..].
Qed.

Lemma set_block_nr_bytes j b buf : is_bytes buf → Z.of_nat (length buf) = 4 * a → 0 ≤ j < a →
  is_bytes (set_block_nr j b buf) ∧ Z.of_nat (length (set_block_nr j b buf)) = 4 * a.
Proof.
  intros Hb Hl Hj. unfold set_block_nr. split; [by apply set_le_bytes|]. rewrite length_set_le //. unfold in_buf. lia.
Qed.

Lemma zeros_ptr rd b j : rd b = zeros → 0 ≤ j < a → ptr rd b j = 0.
Proof.
  intros Hb Hj. unfold ptr, block_nr. rewrite Hb. unfold get_le. rewrite drop_replicate take_replicate.
  generalize (4 `min` (Z.to_nat (4 * a) - Z.to_nat (4 * j)))%nat. intros n. induction n as [|n IH]; cbn; [done|]. by rewrite IH.
Qed.

(** A pointer of an indirect block is written. *)
Lemma node_write_child s i s' p j b : wf s i → valid a p → ¬ is_leaf p → N s i p ≠ 0 → 0 ≤ j < a → 0 ≤ b < 2^32 →
  content s' (N s i p) = set_block_nr j b (content s (N s i p)) →
  (∀ q, valid a q → ¬ is_leaf q → N s i q ≠ 0 → q ≠ p → q ≠ child a p j → content s' (N s i q) = content s (N s i q)) →
  (is_leaf (child a p j) ∨ N s i (child a p j) = 0 ∧ content s' b = zeros) →
  ∀ q, valid a q → N s' i q = if bool_decide (q = child a p j) then b else N s i q.
Proof.
  intros [Hwf Hbs] Hp Hl H0 Hj Hb Hx Hrest Hnew.
  destruct (fw_node _ _ _ _ _ Hwf p Hp Hl H0) as [Hby Hlen].
  apply (write_pointer a ltac:(lia) area (used s)); [done|apply valid_child; [lia|done..]|done|done| | |].
  - intros _. rewrite parent_child; [|lia|done]. split; [done|].
    intros j' Hj'. rewrite child_mod; [|lia|done]. unfold ptr. rewrite Hx. by apply block_nr_set.
  - intros q Hq Hql Hq0 Hqp Hqc. apply Hrest; [done..| |done]. intros ->. apply Hqp; [cbn; lia|]. by rewrite parent_child; [|lia|].
  - destruct Hnew as [?|[??]]; [by left|right]. split; [done|]. intros j' Hj'. by apply zeros_ptr.
Qed.

Lemma flag_ldiff_set flags : flag (Z.ldiff flags BMAP_SET) BMAP_SET = false.
Proof. unfold flag. rewrite Z.ldiff_land -Z.land_assoc. change (Z.land (Z.lnot BMAP_SET) BMAP_SET) with 0. by rewrite Z.land_0_r. Qed.
Lemma flag_ldiff_alloc flags : flag (Z.ldiff flags BMAP_SET) BMAP_ALLOC = flag flags BMAP_ALLOC.
Proof. unfold flag. rewrite Z.ldiff_land -Z.land_assoc. by change (Z.land (Z.lnot BMAP_SET) BMAP_ALLOC) with BMAP_ALLOC. Qed.

Lemma node_child s i p j : valid a p → ¬ is_leaf p → 0 ≤ j < a →
  N s i (child a p j) = if bool_decide (N s i p = 0) then 0 else block_nr j (content s (N s i p)).
Proof.
  intros Hp Hl Hj. rewrite (node_parent a ltac:(lia)); [|by apply valid_child; [lia|..]|cbn; lia]. cbv zeta.
  by rewrite parent_child ?child_mod; [|lia..].
Qed.

Lemma same_nodes s i s' : wf s i → same_blocks content area s s' → keeps used s s' →
  wf s' i ∧ ∀ p, valid a p → N s' i p = N s i p.
Proof.
  intros Hwf Hs Hk. assert (grows s i s' i [] 0) as G by (apply grows_refl; [done|apply NoDup_nil_2|by intros p Hp%elem_of_nil|done..]).
  split; [apply (g_wf _ _ _ _ _ _ G)|]. intros p Hp. apply (g_same _ _ _ _ _ _ G); [done|]. apply not_elem_of_nil.
Qed.

(** Finding a block. *)
Lemma ind_get_ok s i p j flags ret n : wf s i → valid a p → ¬ is_leaf p → 0 ≤ j < a →
  flag flags BMAP_SET = false → flag flags BMAP_ALLOC = false →
  ∃ s', block_ind_bmap flags (N s i p) j ret n s = (0, N s i (child a p j), n, s') ∧ same_blocks content area s s' ∧ keeps used s s'.
Proof.
  intros [Hwf Hbs] Hp Hl Hj Hset Halloc. unfold block_ind_bmap. rewrite node_child // Hset Halloc.
  case_bool_decide as H0; [by exists s|].
  destruct (fw_used _ _ _ _ _ Hwf p Hp H0) as (Hpa & _ & Hr).
  destruct (sv_read content used area s (N s i p) Hpa ltac:(lia)) as (s' & -> & Hs & Hk). cbv beta iota zeta.
  rewrite (bool_decide_eq_false_2 (0 ≠ 0)) ?andb_false_r; [by exists s'|tauto].
Qed.

Lemma place_child r j : child a (Place r 0 0) j = Place r 1 j.
Proof. done. Qed.

Fixpoint tree_bmap (d : nat) : Z → Z → Z → Z → Z → W → Z * Z * Z * W :=
  match d with O => block_ind_bmap | Datatypes.S d => block_sub_bmap (tree_bmap d) end.

Lemma sub_place r d nr : (S d ≤ height r)%nat → 0 ≤ r < 15 → 0 ≤ nr < span a (S d) →
  valid a (Place r (S d) nr) ∧ valid a (Place r d (nr / a)) ∧ ¬ is_leaf (Place r d (nr / a)) ∧ 0 ≤ nr mod a < a ∧
  child a (Place r d (nr / a)) (nr mod a) = Place r (S d) nr ∧ 0 ≤ nr / a < span a d.
Proof.
  intros Hd Hr Hn. assert (valid a (Place r (S d) nr)) as Hv by by split.
  assert (valid a (Place r d (nr / a))) as Hv' by (apply (valid_parent a ltac:(lia) _ Hv)).
  split; [done|]. split; [done|]. split; [unfold is_leaf; cbn; lia|]. split; [apply Z.mod_pos_bound; lia|]. split; [|apply Hv'].
  unfold child; cbn. f_equal. pose proof (Z.div_mod nr a). lia.
Qed.

Lemma limit_a s i : wf s i → Z.shiftr (sv_blocksize s) 2 = a.
Proof. intros [_ ->]. rewrite Z.shiftr_div_pow2 //. rewrite Z.mul_comm. by apply Z.div_mul. Qed.

Lemma tree_get_ok d s i r flags nr ret n : wf s i → 0 ≤ r < 15 → (S d ≤ height r)%nat → 0 ≤ nr < span a (S d) →
  flag flags BMAP_SET = false → flag flags BMAP_ALLOC = false →
  ∃ s', tree_bmap d flags (i_block r i) nr ret n s = (0, N s i (Place r (S d) nr), n, s') ∧
    same_blocks content area s s' ∧ keeps used s s'.
Proof.
  revert s flags nr ret n. induction d as [|d IH]; intros s flags nr ret n Hwf Hr Hd Hn Hset Halloc.
  - cbn [tree_bmap]. rewrite -(node_root a (content s) i r 0). rewrite -place_child.
    apply ind_get_ok; [done|by apply valid_root|unfold is_leaf; cbn; lia|cbn [span] in Hn; lia|done..].
  - cbn [tree_bmap]. unfold block_sub_bmap. rewrite (limit_a _ _ Hwf).
    destruct (sub_place r (S d) nr) as (Hv & Hv' & Hl & Hm & Hc & Hq); [lia|done..|].
    destruct (IH s (Z.ldiff flags BMAP_SET) (nr / a) 0 n) as (s1 & -> & Hs1 & Hk1);
      [done|done|lia|done|apply flag_ldiff_set|by rewrite flag_ldiff_alloc|]. cbv beta iota zeta.
    rewrite (bool_decide_eq_false_2 (0 ≠ 0)); [|tauto].
    destruct (same_nodes _ _ _ Hwf Hs1 Hk1) as [Hwf1 Hn1]. rewrite -Hn1 // -(Hn1 (Place r (S (S d)) nr)) // -Hc.
    destruct (ind_get_ok s1 i (Place r (S d) (nr / a)) (nr mod a) flags ret n) as (s2 & -> & Hs2 & Hk2); [done..|].
    exists s2. split; [done|]. split; [by eapply same_blocks_trans|by eapply keeps_trans].
Qed.

(** Adding a block.  What the steps that add a block show: with an error nothing was added. *)
Definition added (s : W) (i : list Z) (s' : W) (i' : list Z) (q : place) (e b : Z) : Prop :=
  if decide (e = 0) then b = N s' i' q ∧ b ≠ 0 ∧ (N s i q = 0 → content s' b = zeros) else N s i q = 0 ∧ N s' i' q = 0.

Lemma ind_alloc_ok s i p j flags ret n : wf s i → valid a p → ¬ is_leaf p → N s i p ≠ 0 → 0 ≤ j < a →
  flag flags BMAP_SET = false → flag flags BMAP_ALLOC = true →
  ∃ e b s' k, block_ind_bmap flags (N s i p) j ret n s = (e, b, n + k, s') ∧
    grows s i s' i [child a p j] k ∧ added s i s' i (child a p j) e b.
Proof.
  intros Hw Hp Hl H0 Hj Hset Halloc. pose proof Hw as [Hwf Hbs]. unfold block_ind_bmap. rewrite Hset Halloc.
  rewrite bool_decide_eq_false_2 //. set (X := N s i p) in *. set (q := child a p j).
  assert (valid a q) as Hq by (apply valid_child; [lia|done..]).
  destruct (fw_used _ _ _ _ _ Hwf p Hp H0) as (Hpa & Hpu & Hr).
  destruct (sv_read content used area s X Hpa ltac:(unfold X; lia)) as (s1 & -> & Hs1 & Hk1). cbv beta iota zeta.
  rewrite (bool_decide_eq_false_2 (0 ≠ 0)); [|tauto].
  assert (N s i q = block_nr j (content s X)) as Hqb. { unfold q. rewrite node_child // bool_decide_eq_false_2 //. }
  rewrite -Hqb andb_true_r. case_bool_decide as Hq0; cycle 1.
  { exists 0, (N s i q), s1, 0. split; [by rewrite Z.add_0_r|]. destruct (same_nodes _ _ _ Hw Hs1 Hk1) as [Hw1 Hn1].
    split; [apply grows_refl; [done|apply NoDup_singleton| |done..]|by rewrite /added /= Hn1]. intros p' ->%list_elem_of_singleton. done. }
  unfold alloc_block32. set (goal := if bool_decide _ then _ else _).
  destruct (sv_alloc content used area s1 (u32 goal) None) as (e & b & s2 & -> & Hbs2 & Hi2 & Hcase). cbv beta iota zeta.
  destruct (same_nodes _ _ _ Hw Hs1 Hk1) as [[Hwf1 Hbs1] Hn1]. destruct Hk1 as [Hu1 Hi1 _].
  case_decide as He; cycle 1.
  { rewrite (bool_decide_eq_true_2 (e ≠ 0)) //. exists e, ret, s2, 0. split; [by rewrite Z.add_0_r|].
    destruct Hcase as [Hu2 Hs2].
    assert (same_blocks content area s s2) as Hs by by eapply same_blocks_trans.
    assert (keeps used s s2) as Hk. { constructor; [intros x; by rewrite Hu2 Hu1|intros ino; by rewrite Hi2 Hi1|congruence]. }
    destruct (same_nodes _ _ _ Hw Hs Hk) as [_ Hn2].
    split; [apply grows_refl; [done|apply NoDup_singleton| |done..]|by rewrite /added decide_False // Hn2]. intros p' ->%list_elem_of_singleton. done. }
  subst e. rewrite (bool_decide_eq_false_2 (0 ≠ 0)); [|tauto]. destruct Hcase as (Hba & Hb & Hbf & Hu2 & Hs2).
  rewrite (u32_small b ltac:(lia)). rewrite Hu1 in Hbf.
  destruct (sv_write content used area s2 X (set_block_nr j b (content s X)) Hpa ltac:(unfold X; lia)) as (s3 & -> & Hk3 & Hs3).
  cbv beta iota zeta. rewrite (bool_decide_eq_false_2 (0 ≠ 0)); [|tauto]. destruct Hk3 as [Hu3 Hi3 Hbs3].
  assert (X ≠ b) as Hxb. { intros Hxb. by rewrite -Hxb in Hbf. }
  rewrite Hbs1 in Hs2.
  assert (content s3 b = zeros) as Hz. { rewrite Hs3 // decide_False // Hs2 // decide_True //. }
  assert (∀ x, area x → x ≠ X → x ≠ b → content s3 x = content s x) as Hc.
  { intros x Hx HxX Hxb'. rewrite Hs3 // decide_False // Hs2 // decide_False // Hs1 //. }
  destruct (fw_node _ _ _ _ _ Hwf p Hp Hl H0) as [Hby Hlen].
  assert (∀ q', valid a q' → N s3 i q' = if bool_decide (q' = q) then b else N s i q') as Hn3.
  { apply node_write_child; [done..|lia| | |by right].
    - rewrite Hs3 // decide_True //.
    - intros q' Hq' Hl' Hq'0 Hne _. destruct (fw_used _ _ _ _ _ Hwf q' Hq' Hq'0) as (? & Hu' & ?). apply Hc; [done| |].
      + intros Heq. apply Hne. by apply (fw_inj _ _ _ _ _ Hwf).
      + intros Heq. by rewrite Heq in Hu'. }
  exists 0, b, s3, 1. split; [done|]. split.
  - apply (grow_one s i s3 i q b); [done..| | | | |by apply Hwf|by apply Hwf|done| |].
    + intros x. by rewrite Hu3 Hu2 Hu1.
    + by rewrite Hbs3 Hbs2 Hbs1.
    + intros ino. by rewrite Hi3 Hi2 Hi1.
    + done.
    + intros p' Hp' Hl' Hp'0. destruct (decide (N s i p' = X)) as [HX|HX].
      * rewrite HX Hs3 // decide_True //. by apply set_block_nr_bytes.
      * destruct (fw_used _ _ _ _ _ Hwf p' Hp' Hp'0) as (? & Hu' & ?). rewrite Hc //; [by apply (fw_node _ _ _ _ _ Hwf)|].
        intros Heq. by rewrite Heq in Hu'.
    + intros x Hx Hxu Hxm. apply Hc; [done| |].
      * intros ->. by apply (Hxm p).
      * by intros ->.
  - rewrite /added /=. rewrite Hn3 // bool_decide_eq_true_2 //. split; [done|]. split; [lia|done].
Qed.

(** The places that [tree_bmap] changes are on the way to [q], below the root. *)
Definition on_way (q : place) (l : list place) : Prop := ∀ p, p ∈ l → above a q p ∧ (0 < n_depth p)%nat.

Lemma tree_alloc_ok d s i r flags nr ret n : wf s i → 0 ≤ r < 15 → (S d ≤ height r)%nat → 0 ≤ nr < span a (S d) →
  i_block r i ≠ 0 → flag flags BMAP_SET = false → flag flags BMAP_ALLOC = true →
  ∃ e b s' k l, tree_bmap d flags (i_block r i) nr ret n s = (e, b, n + k, s') ∧
    grows s i s' i l k ∧ added s i s' i (Place r (S d) nr) e b ∧ on_way (Place r (S d) nr) l.
Proof.
  revert s flags nr ret n. induction d as [|d IH]; intros s flags nr ret n Hwf Hr Hd Hn H0 Hset Halloc.
  - cbn [tree_bmap]. rewrite -(node_root a (content s) i r 0) -place_child. rewrite -(node_root a (content s) i r 0) in H0.
    assert (0 ≤ nr < a) as Hnr by (cbn [span] in Hn; lia).
    destruct (ind_alloc_ok s i (Place r 0 0) nr flags ret n) as (e & b & s' & k & -> & G & A);
      [done|by apply valid_root|unfold is_leaf; cbn; lia|done..|].
    exists e, b, s', k, [child a (Place r 0 0) nr]. split; [done|]. split; [done|]. split; [done|].
    intros p ->%list_elem_of_singleton. split; [apply above_refl|cbn; lia].
  - cbn [tree_bmap]. unfold block_sub_bmap. rewrite (limit_a _ _ Hwf).
    destruct (sub_place r (S d) nr) as (Hv & Hv' & Hl & Hm & Hc & Hq); [lia|done..|].
    set (q := Place r (S (S d)) nr) in *. set (p := Place r (S d) (nr / a)) in *.
    destruct (IH s (Z.ldiff flags BMAP_SET) (nr / a) 0 n) as (e1 & b1 & s1 & k1 & l1 & -> & G1 & A1 & W1);
      [done|done|lia|done|done|apply flag_ldiff_set|by rewrite flag_ldiff_alloc|]. cbv beta iota zeta.
    fold p in A1, W1. unfold added in A1.
    assert (q ∉ l1) as Hql. { intros Hin. apply W1 in Hin as (Hin & _). apply above_depth in Hin as (Hin & _). cbn in Hin. lia. }
    assert (on_way q l1) as W1'.
    { intros p' Hp'. destruct (W1 _ Hp') as [Hab ?]. split; [|done]. apply above_up; [cbn; lia|exact Hab]. }
    case_decide as He1; cycle 1.
    { rewrite (bool_decide_eq_true_2 (e1 ≠ 0)) //. exists e1, ret, s1, k1, l1. split; [done|]. split; [done|]. split; [|done].
      rewrite /added decide_False // -Hc !node_child //. destruct A1 as [-> ->]. rewrite bool_decide_eq_true_2 //. }
    subst e1. rewrite (bool_decide_eq_false_2 (0 ≠ 0)); [|tauto]. destruct A1 as (-> & Hb1 & _).
    destruct (ind_alloc_ok s1 i p (nr mod a) flags ret (n + k1)) as (e & b & s2 & k2 & -> & G2 & A2);
      [apply (g_wf _ _ _ _ _ _ G1)|done..|].
    rewrite Hc in G2, A2. exists e, b, s2, (k1 + k2), (l1 ++ [q]). split; [by rewrite Z.add_assoc|].
    assert (∀ p', p' ∈ l1 ++ [q] → valid a p') as Hval.
    { intros p' [Hp'|Hp'%list_elem_of_singleton]%elem_of_app; [|by subst]. apply (g_place _ _ _ _ _ _ G1 _ Hp'). }
    split; [apply (grows_trans s i s1 i s2 i); [done| |done..]|].
    { intros p' Hp' ->%list_elem_of_singleton. done. }
    split.
    + unfold added in *. rewrite (g_same _ _ _ _ _ _ G1) in A2; done.
    + intros p' [Hp'|Hp'%list_elem_of_singleton]%elem_of_app; [by apply W1'|]. subst p'. split; [apply above_refl|cbn; lia].
Qed.

Lemma tree_set_ok d s i r flags nr ret n : wf s i → 0 ≤ r < 15 → S d = height r → 0 ≤ nr < span a (S d) → 0 ≤ ret < 2^32 →
  flag flags BMAP_SET = true → flag flags BMAP_ALLOC = false →
  ∃ e s', tree_bmap d flags (i_block r i) nr ret n s = (e, ret, n, s') ∧ keeps used s s' ∧
    if decide (e = 0) then N s i (Place r d (nr / a)) ≠ 0 ∧ (∀ p, valid a p → N s' i p = if bool_decide (p = Place r (S d) nr) then ret else N s i p) ∧
      ∀ x, area x → content s' x = content s x ∨ x = N s i (Place r d (nr / a)) ∧ is_bytes (content s' x) ∧ Z.of_nat (length (content s' x)) = 4 * a
    else e = EXT2_ET_SET_BMAP_NO_IND ∧ same_blocks content area s s' ∧ N s i (Place r d (nr / a)) = 0.
Proof.
  intros Hw Hr Hd Hn Hret Hset Halloc. destruct (sub_place r d nr) as (Hv & Hv' & Hl & Hm & Hc & Hq); [lia|done..|].
  set (q := Place r (S d) nr) in *. set (p := Place r d (nr / a)) in *.
  assert (∀ s1, keeps used s s1 → same_blocks content area s s1 → wf s1 i → N s1 i p = N s i p → (∀ p, valid a p → N s1 i p = N s i p) →
    ∃ e s', block_ind_bmap flags (N s1 i p) (nr mod a) ret n s1 = (e, ret, n, s') ∧ keeps used s s' ∧
    if decide (e = 0) then N s i p ≠ 0 ∧ (∀ p, valid a p → N s' i p = if bool_decide (p = q) then ret else N s i p) ∧
      ∀ x, area x → content s' x = content s x ∨ x = N s i p ∧ is_bytes (content s' x) ∧ Z.of_nat (length (content s' x)) = 4 * a
    else e = EXT2_ET_SET_BMAP_NO_IND ∧ same_blocks content area s s' ∧ N s i p = 0) as Hind.
  { intros s1 Hk1 Hs1 Hw1 Hpp Hall. unfold block_ind_bmap. rewrite Hset. case_bool_decide as H0.
    { exists EXT2_ET_SET_BMAP_NO_IND, s1. split; [done|]. split; [done|].
      destruct (decide (EXT2_ET_SET_BMAP_NO_IND = 0)) as [?|_]; [done|]. by rewrite -Hpp. }
    destruct (fw_used _ _ _ _ _ (proj1 Hw1) p Hv' H0) as (Hpa & Hpu & Hrange).
    destruct (sv_read content used area s1 (N s1 i p) Hpa ltac:(lia)) as (s2 & -> & Hs2 & Hk2). cbv beta iota zeta.
    rewrite (bool_decide_eq_false_2 (0 ≠ 0)); [|tauto].
    destruct (sv_write content used area s2 (N s1 i p) (set_block_nr (nr mod a) ret (content s1 (N s1 i p))) Hpa ltac:(lia)) as (s3 & -> & Hk3 & Hs3).
    exists 0, s3. split; [done|]. split; [eapply keeps_trans; [exact Hk1|by eapply keeps_trans]|]. destruct (decide (0 = 0)) as [_|?]; [|done].
    split; [by rewrite -Hpp|]. split; cycle 1.
    { intros x Hx. rewrite Hs3 //. case_decide as Hxx; [right|left; by rewrite Hs2 // Hs1]. rewrite Hxx. split; [done|].
      apply set_block_nr_bytes; [by apply (fw_node _ _ _ _ _ (proj1 Hw1))..|done]. }
    intros p' Hp'. rewrite -Hall // -Hc. apply node_write_child; [done|done|done|done|done|done| | | |done].
    - rewrite Hs3 // decide_True //.
    - intros q' Hq' Hl' Hq0 Hne _. destruct (fw_used _ _ _ _ _ (proj1 Hw1) q' Hq' Hq0) as (? & _ & _). rewrite Hs3 // decide_False // ?Hs2 //.
      intros Heq. apply Hne. by apply (fw_inj _ _ _ _ _ (proj1 Hw1)).
    - left. rewrite Hc. by unfold is_leaf. }
  destruct d as [|d].
  - cbn [tree_bmap]. rewrite -(node_root a (content s) i r (nr / a)).
    destruct (Hind s) as (e & s' & H & ?); [by apply keeps_refl|done..|].
    rewrite Z.mod_small in H; [|cbn [span] in Hn; lia]. exists e, s'. by split.
  - cbn [tree_bmap]. unfold block_sub_bmap. rewrite (limit_a _ _ Hw).
    destruct (tree_get_ok d s i r (Z.ldiff flags BMAP_SET) (nr / a) 0 n) as (s1 & -> & Hs1 & Hk1);
      [done|done|lia|done|apply flag_ldiff_set|by rewrite flag_ldiff_alloc|]. cbv beta iota zeta.
    rewrite (bool_decide_eq_false_2 (0 ≠ 0)); [|tauto]. fold p.
    destruct (same_nodes _ _ _ Hw Hs1 Hk1) as [Hw1 Hn1]. rewrite -{1}(Hn1 p) //. apply Hind; [done..| |done]. by apply Hn1.
Qed.

(** ** The blocks of the file *)

(** The place of the pointer to block [n] of the file. *)
Definition leaf_of (n : Z) : place :=
  if bool_decide (n < 12) then Place n 0 0 else
  if bool_decide (n - 12 < span a 1) then Place 12 1 (n - 12) else
  if bool_decide (n - 12 - span a 1 < span a 2) then Place 13 2 (n - 12 - span a 1) else
  Place 14 3 (n - 12 - span a 1 - span a 2).

Lemma leaf_of_ok n : 0 ≤ n < file_span a → valid a (leaf_of n) ∧ is_leaf (leaf_of n).
Proof.
  unfold file_span, leaf_of. change EXT2_NDIR_BLOCKS with 12. intros Hn. unfold valid, is_leaf, height.
  repeat case_bool_decide; cbn [n_root n_depth n_index] in *; (split; [|done || lia]); (split; [lia|]); (split; [lia|]); cbn [span] in *; lia.
Qed.

Lemma file_block_node rd i n : 0 ≤ n → file_block rd a i n = node a rd i (leaf_of n).
Proof.
  intros Hn. unfold file_block, leaf_of. change EXT2_NDIR_BLOCKS with 12.
  case_bool_decide; [by rewrite node_root|]. case_bool_decide; [done|]. by case_bool_decide.
Qed.

Lemma leaf_of_inj n n' : 0 ≤ n → 0 ≤ n' → leaf_of n = leaf_of n' → n = n'.
Proof. intros Hn Hn'. unfold leaf_of. repeat case_bool_decide; intros [= ?]; lia. Qed.

(** What of the inode stays. *)
Definition inode_like (i i' : list Z) : Prop :=
  i_mode i' = i_mode i ∧ i_flags i' = i_flags i ∧ i_size i' = i_size i ∧ i_size_high i' = i_size_high i.

Lemma inode_like_refl i : inode_like i i.
Proof. done. Qed.
Lemma inode_like_trans i i' i'' : inode_like i i' → inode_like i' i'' → inode_like i i''.
Proof. unfold inode_like. intros (-> & -> & -> & ->) (? & ? & ? & ?). done. Qed.

Lemma set_i_block_get r r' v i : (128 ≤ length i)%nat → 0 ≤ r < 15 → 0 ≤ r' < 15 → 0 ≤ v < 2^32 →
  i_block r' (set_i_block r v i) = if bool_decide (r' = r) then v else i_block r' i.
Proof.
  intros Hl Hr Hr' Hv. unfold i_block, set_i_block. case_bool_decide.
  - subst. rewrite get_set_le; [by apply Z.mod_small|unfold in_buf; lia].
  - apply get_set_le_ne; [unfold in_buf; lia|lia..].
Qed.

Lemma set_i_block_ok r v i : is_bytes i → (128 ≤ length i)%nat → 0 ≤ r < 15 →
  is_bytes (set_i_block r v i) ∧ (128 ≤ length (set_i_block r v i))%nat ∧ inode_like i (set_i_block r v i).
Proof.
  intros Hb Hl Hr. assert (in_buf 4 (40 + 4 * r) i) by (unfold in_buf; lia). unfold set_i_block.
  split; [by apply set_le_bytes|]. split; [by rewrite length_set_le|].
  repeat split; apply get_set_le_ne; (done || lia).
Qed.

(** A pointer of the inode is written. *)
Lemma node_write_root s i s' i' r b : wf s i → 0 ≤ r < 15 → 0 ≤ b < 2^32 → i' = set_i_block r b i →
  (∀ q, valid a q → ¬ is_leaf q → N s i q ≠ 0 → q ≠ Place r 0 0 → content s' (N s i q) = content s (N s i q)) →
  (is_leaf (Place r 0 0) ∨ i_block r i = 0 ∧ content s' b = zeros) →
  ∀ q, valid a q → N s' i' q = if bool_decide (q = Place r 0 0) then b else N s i q.
Proof.
  intros [Hwf Hbs] Hr Hb -> Hrest Hnew. destruct Hwf as [Hby Hlen Hus Hno Hinj].
  apply (write_pointer a ltac:(lia) area (used s)); [done|by apply valid_root| | |cbn; lia| |].
  - intros r' Hr' Hne. rewrite set_i_block_get // bool_decide_eq_false_2 //. by intros ->.
  - intros _. cbn [n_root]. rewrite set_i_block_get // bool_decide_eq_true_2 //.
  - intros q Hq Hql Hq0 _ Hne. by apply Hrest.
  - destruct Hnew as [?|[H0 Hz]]; [by left|right]. rewrite node_root. split; [done|]. intros j Hj. by apply zeros_ptr.
Qed.

Definition like_state (m m' : bmap_state W) : Prop := b_dirty m' = b_dirty m ∧ b_ret_flags m' = b_ret_flags m.

Lemma alloc_pointer_ok ino r goal m : wf (b_state m) (b_inode m) → 0 ≤ r < 15 → i_block r (b_inode m) = 0 →
  ∃ e m' k, alloc_pointer ino r goal m = (e, m') ∧ grows (b_state m) (b_inode m) (b_state m') (b_inode m') [Place r 0 0] k ∧
    b_alloc m' = b_alloc m + k ∧ (k = 0 → b_inode m' = b_inode m) ∧ b_phys m' = b_phys m ∧ like_state m m' ∧ inode_like (b_inode m) (b_inode m') ∧
    added (b_state m) (b_inode m) (b_state m') (b_inode m') (Place r 0 0) e (i_block r (b_inode m')).
Proof.
  intros Hw Hr H0. pose proof Hw as [Hwf Hbs]. destruct m as [i fl n di ph s]. cbn [b_state b_inode b_alloc b_phys] in *. unfold alloc_pointer. cbn [b_state b_inode].
  assert (valid a (Place r 0 0)) as Hq by by apply valid_root.
  destruct (sv_alloc content used area s goal (Some (data_ctx ino i 0))) as (e & b & s1 & -> & Hbs1 & Hi1 & Hcase). cbv beta iota zeta.
  case_decide as He; cycle 1.
  { rewrite (bool_decide_eq_true_2 (e ≠ 0)) //. destruct Hcase as [Hu1 Hs1].
    assert (keeps used s s1) as Hk by by constructor. destruct (same_nodes _ _ _ Hw Hs1 Hk) as [_ Hn1].
    eexists e, _, 0. split; [done|]. cbn. split; [apply grows_refl; [done|apply NoDup_singleton| |done..]; by intros p' ->%list_elem_of_singleton|].
    split; [lia|]. split; [done|]. split; [done|]. split; [done|]. split; [done|]. rewrite /added decide_False // Hn1 // node_root //. }
  subst e. rewrite (bool_decide_eq_false_2 (0 ≠ 0)); [|tauto]. destruct Hcase as (Hba & Hb & Hbf & Hu1 & Hs1).
  rewrite (u32_small b ltac:(lia)). rewrite Hbs in Hs1.
  eexists 0, _, 1. split; [done|]. cbn [b_set_alloc b_set_inode b_set_state b_state b_inode b_alloc b_phys b_dirty b_ret_flags].
  destruct (set_i_block_ok r b i) as (Hby & Hlen & Hlike); [apply Hwf..|done|].
  assert (content s1 b = zeros) as Hz by (rewrite Hs1 // decide_True //).
  assert (∀ x, area x → x ≠ b → content s1 x = content s x) as Hc by (intros x Hx Hxb; rewrite Hs1 // decide_False //).
  assert (∀ q, valid a q → N s1 (set_i_block r b i) q = if bool_decide (q = Place r 0 0) then b else N s i q) as Hn1.
  { apply node_write_root; [done|done|lia|done| |by right]. intros q' Hq' Hl' Hq0 Hne.
    destruct (fw_used _ _ _ _ _ Hwf q' Hq' Hq0) as (? & Hu' & ?). apply Hc; [done|]. intros Heq. by rewrite Heq in Hu'. }
  split; [|split; [done|split; [done|split; [done|split; [done|split; [done|]]]]]].
  - apply (grow_one s i s1 _ (Place r 0 0) b); [done|done|by rewrite node_root|done|done|done|done|by rewrite Hbs1|done|done|done|done|done| |].
    + intros p' Hp' Hl' Hp'0. destruct (fw_used _ _ _ _ _ Hwf p' Hp' Hp'0) as (? & Hu' & ?).
      rewrite Hc //; [by apply (fw_node _ _ _ _ _ Hwf)|]. intros Heq. by rewrite Heq in Hu'.
    + intros x Hx Hxu _. apply Hc; [done|]. by intros ->.
  - rewrite /added /= set_i_block_get //; [|apply Hwf|lia]. rewrite bool_decide_eq_true_2 // Hn1 // bool_decide_eq_true_2 //.
    split; [done|]. split; [lia|done].
Qed.

(** ** [bmap_block] *)
Section block.
Context (mem_ok : bool) (junk : ext2fs_extent) (ino flags : Z).

Lemma find_inode_goal_mapped s i lblk : flag (i_flags i) EXT4_EXTENTS_FL = false →
  ∃ g, ext2fs_find_inode_goal mem_ok s ino i lblk = Some (g, i, s).
Proof.
  intros He. unfold ext2fs_find_inode_goal. rewrite He. destruct (_ || _); [by eexists|]. case_bool_decide; by eexists.
Qed.

(** What [bmap_tree] is for each of the roots. *)
Lemma bmap_block_tree m n : wf (b_state m) (b_inode m) → flag (i_flags (b_inode m)) EXT4_EXTENTS_FL = false → 12 ≤ n < file_span a →
  ∃ (d : nat) nr, bmap_block mem_ok junk ino flags n m = Some (bmap_tree (tree_bmap d) ino (Z.of_nat d + 12) flags nr m) ∧
    (d < 3)%nat ∧ 0 ≤ nr < span a (S d) ∧ leaf_of n = Place (Z.of_nat d + 12) (S d) nr.
Proof.
  intros [_ Hbs] He Hn. unfold bmap_block. rewrite He Hbs. assert (Z.shiftr (4 * a) 2 = a) as ->.
  { rewrite Z.shiftr_div_pow2 // Z.mul_comm. by apply Z.div_mul. }
  unfold file_span in Hn. unfold leaf_of. change EXT2_NDIR_BLOCKS with 12 in *. 
  assert (span a 1 = a) as H1 by (cbn; lia). assert (span a 2 = a * a) as H2 by (cbn [span]; lia).
  rewrite H1 H2 in Hn |- *. rewrite (u32_small (a * a) ltac:(nia)).
  rewrite !(bool_decide_eq_false_2 (n < 12)); [|lia..]. case_bool_decide as Ha1; [|case_bool_decide as Ha2].
  - exists 0%nat, (n - 12). split; [done|]. split; [lia|]. split; [rewrite H1; lia|done].
  - exists 1%nat, (n - 12 - a). split; [done|]. split; [lia|]. split; [rewrite H2; lia|done].
  - exists 2%nat, (n - 12 - a - a * a). split; [done|]. split; [lia|]. split; [lia|done].
Qed.

Lemma height_root (d : nat) : (d < 3)%nat → 0 ≤ Z.of_nat d + 12 < 15 ∧ height (Z.of_nat d + 12) = S d.
Proof. unfold height. lia. Qed.

Lemma bmap_block_direct m n : flag (i_flags (b_inode m)) EXT4_EXTENTS_FL = false → n < 12 →
  bmap_block mem_ok junk ino flags n m = bmap_direct mem_ok ino flags n m.
Proof. intros He Hn. unfold bmap_block. rewrite He. change EXT2_NDIR_BLOCKS with 12. rewrite bool_decide_eq_true_2 //. Qed.

(** With an error there is no block. *)
Lemma bmap_tree_phys tree r nr m e m' : bmap_tree tree ino r flags nr m = (e, m') → e ≠ 0 → b_phys m' = b_phys m.
Proof.
  assert (∀ m1 m2, walk_tree tree r flags nr m1 = (e, m2) → e ≠ 0 → b_phys m2 = b_phys m1) as Hw.
  { intros m1 m2. unfold walk_tree. destruct (tree _ _ _ _ _ _) as [[[e' b] k] s']. intros [= <- <-] He. by rewrite bool_decide_eq_false_2. }
  unfold bmap_tree, alloc_pointer. case_bool_decide; [by apply Hw|]. destruct (negb _); [by intros [= <- <-]|].
  destruct (sv_alloc_block3 _ _ _) as [[e1 b] s1]. destruct (bool_decide (e1 ≠ 0)) eqn:He1.
  - rewrite He1. by intros [= <- <-].
  - rewrite bool_decide_eq_false_2; [|tauto]. intros Hb He. by rewrite (Hw _ _ Hb He).
Qed.

Lemma bmap_block_phys n m e m' : flag (i_flags (b_inode m)) EXT4_EXTENTS_FL = false → flag flags BMAP_SET = false → b_phys m = 0 →
  bmap_block mem_ok junk ino flags n m = Some (e, m') → e ≠ 0 → b_phys m' = 0.
Proof.
  intros He Hs H0. unfold bmap_block. rewrite He. repeat case_bool_decide; [|intros [= Hb] Hne; by rewrite (bmap_tree_phys _ _ _ _ _ _ Hb Hne)..].
  unfold bmap_direct. rewrite Hs. set (m1 := b_set_phys _ m).
  assert (∀ goal (m2 : bmap_state W), b_phys m2 = b_phys m1 →
    (if bool_decide (b_phys m2 = 0) && flag flags BMAP_ALLOC then
       let '(e, m) := alloc_pointer ino n goal m2 in Some (e, if bool_decide (e = 0) then b_set_phys (i_block n (b_inode m)) m else m)
     else Some (0, m2)) = Some (e, m') → e ≠ 0 → b_phys m' = 0) as Hrest.
  { intros goal m2 Hm2. destruct (bool_decide (b_phys m2 = 0)) eqn:Hb; [|by intros [= <- <-]]. apply bool_decide_eq_true in Hb.
    destruct (flag flags BMAP_ALLOC); [|by intros [= <- <-]]. cbn [andb]. unfold alloc_pointer.
    destruct (sv_alloc_block3 _ _ _) as [[e1 b] s1]. destruct (bool_decide (e1 ≠ 0)) eqn:He1; intros [= <- <-] Hne; [|done].
    by rewrite bool_decide_eq_false_2. }
  case_bool_decide; cbn [mbind option_bind]; [by apply Hrest|].
  change (b_inode m1) with (b_inode m). destruct (find_inode_goal_mapped (b_state m1) (b_inode m) n He) as [g ->]. cbn [mbind option_bind].
  by apply Hrest.
Qed.

(** Finding: the block, and the state. *)
Lemma block_get_ok m n : wf (b_state m) (b_inode m) → flag (i_flags (b_inode m)) EXT4_EXTENTS_FL = false → 0 ≤ n < file_span a →
  b_phys m = 0 → flag flags BMAP_SET = false → flag flags BMAP_ALLOC = false →
  ∃ s', bmap_block mem_ok junk ino flags n m =
      Some (0, b_set_phys (file_block (content (b_state m)) a (b_inode m) n) (b_set_state s' m)) ∧
    same_blocks content area (b_state m) s' ∧ keeps used (b_state m) s'.
Proof.
  intros Hw He Hn Hph Hset Halloc. rewrite file_block_node; [|lia]. destruct m as [i fl al di ph s]. cbn [b_state b_inode b_phys] in *.
  destruct (decide (n < 12)) as [Hd|Hd].
  - rewrite bmap_block_direct // /bmap_direct Hset. cbn [b_state b_inode].
    assert (N s i (leaf_of n) = i_block n i) as ->. { unfold leaf_of. rewrite bool_decide_eq_true_2 // node_root //. }
    exists s. split; [|done]. case_bool_decide as Hn0; cbn; rewrite ?Halloc ?andb_false_r; [done|].
    destruct (find_inode_goal_mapped s i n He) as [g ->]. cbn. by rewrite ?Halloc ?andb_false_r.
  - destruct (bmap_block_tree (BmapState i fl al di ph s) n Hw He ltac:(lia)) as (d & nr & -> & Hd3 & Hnr & ->).
    destruct (height_root d Hd3) as [Hr Hh]. unfold bmap_tree, walk_tree. cbn [b_state b_inode b_phys b_alloc]. rewrite Hset Halloc.
    destruct (tree_get_ok d s i (Z.of_nat d + 12) flags nr (u32 ph) al Hw Hr ltac:(lia) Hnr Hset Halloc) as (s' & -> & Hs & Hk).
    case_bool_decide as H0.
    + exists s'. split; [done|done].
    + exists s. split; [|done]. cbn. unfold b_set_phys. cbn. rewrite Hph. unfold node. cbn [n_depth n_root n_index].
      assert (i_block (Z.of_nat d + 12) i = 0) as H0' by by destruct (decide (i_block (Z.of_nat d + 12) i = 0)).
      rewrite H0'. cbn. done.
Qed.

(** Adding: the places that changed are on the way to [leaf_of n]. *)
Lemma block_alloc_ok m n : wf (b_state m) (b_inode m) → flag (i_flags (b_inode m)) EXT4_EXTENTS_FL = false → 0 ≤ n < file_span a →
  b_phys m = 0 → flag flags BMAP_SET = false → flag flags BMAP_ALLOC = true →
  ∃ e m' l k, bmap_block mem_ok junk ino flags n m = Some (e, m') ∧ grows (b_state m) (b_inode m) (b_state m') (b_inode m') l k ∧
    b_alloc m' = b_alloc m + k ∧ (k = 0 → b_inode m' = b_inode m) ∧ like_state m m' ∧ inode_like (b_inode m) (b_inode m') ∧
    added (b_state m) (b_inode m) (b_state m') (b_inode m') (leaf_of n) e (b_phys m') ∧
    (∀ p, p ∈ l → above a (leaf_of n) p).
Proof.
  intros Hw He Hn Hph Hset Halloc. destruct (leaf_of_ok n Hn) as [Hv Hlf].
  destruct (decide (n < 12)) as [Hd|Hd].
  - rewrite bmap_block_direct // /bmap_direct Hset. assert (leaf_of n = Place n 0 0) as Hl. { unfold leaf_of. rewrite bool_decide_eq_true_2 //. }
    rewrite Hl in Hv, Hlf |- *. 
    assert (∀ (goal : Z) (m1 : bmap_state W), m1 = b_set_phys (i_block n (b_inode m)) m →
      ∃ e m' l k, (if bool_decide (b_phys m1 = 0) && flag flags BMAP_ALLOC then
                     let '(e, m) := alloc_pointer ino n goal m1 in
                     Some (e, if bool_decide (e = 0) then b_set_phys (i_block n (b_inode m)) m else m)
                   else Some (0, m1)) = Some (e, m') ∧ grows (b_state m) (b_inode m) (b_state m') (b_inode m') l k ∧
        b_alloc m' = b_alloc m + k ∧ (k = 0 → b_inode m' = b_inode m) ∧ like_state m m' ∧ inode_like (b_inode m) (b_inode m') ∧
        added (b_state m) (b_inode m) (b_state m') (b_inode m') (Place n 0 0) e (b_phys m') ∧
        (∀ p, p ∈ l → above a (Place n 0 0) p)) as Hrest.
    { intros goal m1 ->. cbn [b_set_phys b_phys]. rewrite Halloc andb_true_r. case_bool_decide as H0.
      - destruct (alloc_pointer_ok ino n goal (b_set_phys (i_block n (b_inode m)) m)) as (e & m' & k & -> & G & Hal & Hk0 & Hp & Hls & Hil & A);
          [done|lia|done|]. cbn in G, Hal, Hil, A, Hls, Hk0. eexists e, _, [Place n 0 0], k. split; [done|].
        case_bool_decide as Hee; cbn; (split; [done|]; split; [done|]; split; [done|]; split; [done|]; split; [done|]; split; [|intros p ->%list_elem_of_singleton; apply above_refl]).
        + done.
        + unfold added in *. by rewrite !decide_False // in A |- *.
      - eexists 0, _, [], 0. split; [done|]. cbn. split; [apply grows_refl; [done|apply NoDup_nil_2|by intros p ?%elem_of_nil|done|done]|].
        split; [lia|]. split; [done|]. split; [done|]. split; [done|]. split; [|by intros p ?%elem_of_nil].
        rewrite /added /= node_root. split; [done|]. split; [done|]. by intros ?. }
    case_bool_decide as Hn0; cbn [mbind option_bind]; [by apply Hrest|].
    change (b_inode (b_set_phys _ m)) with (b_inode m). change (b_state (b_set_phys _ m)) with (b_state m).
    destruct (find_inode_goal_mapped (b_state m) (b_inode m) n He) as [g ->]. cbn [mbind option_bind]. apply Hrest. by destruct m.
  - destruct (bmap_block_tree m n Hw He ltac:(lia)) as (d & nr & -> & Hd3 & Hnr & Hl). rewrite Hl.
    destruct (height_root d Hd3) as [Hr Hh]. unfold bmap_tree. set (r := Z.of_nat d + 12) in *. rewrite Halloc. cbn [negb].
    assert (∀ m1, wf (b_state m1) (b_inode m1) → i_block r (b_inode m1) ≠ 0 →
      ∃ e m' l k, walk_tree (tree_bmap d) r flags nr m1 = (e, m') ∧
        grows (b_state m1) (b_inode m1) (b_state m') (b_inode m') l k ∧ b_alloc m' = b_alloc m1 + k ∧ like_state m1 m' ∧
        b_inode m' = b_inode m1 ∧ added (b_state m1) (b_inode m1) (b_state m') (b_inode m') (Place r (S d) nr) e (b_phys m') ∧
        on_way (Place r (S d) nr) l) as Hwalk.
    { intros m1 Hw1 H0. unfold walk_tree. destruct (tree_alloc_ok d (b_state m1) (b_inode m1) r flags nr (u32 (b_phys m1)) (b_alloc m1))
        as (e & b & s' & k & l & -> & G & A & W1); [done|done|lia|done|done|done|done|].
      eexists e, _, l, k. split; [done|].
      case_bool_decide as Hee; cbn; (split; [done|]; split; [done|]; split; [done|]; split; [done|]; split; [|done]).
      - done.
      - unfold added in *. by rewrite !decide_False // in A |- *. }
    case_bool_decide as H0.
    + destruct (Hwalk m Hw) as (e & m' & l & k & -> & G & Hal & Hls & Hi & A & Hle); [done|].
      exists e, m', l, k. split; [done|]. split; [done|]. split; [done|]. split; [done|]. split; [done|]. split; [by rewrite Hi|]. split; [done|].
      intros p Hp. by apply Hle.
    + assert (i_block r (b_inode m) = 0) as H0' by (destruct (decide (i_block r (b_inode m) = 0)); [done|by destruct H0]).
      destruct (alloc_pointer_ok ino r (i_block (r - 1) (b_inode m)) m Hw Hr H0') as (e1 & m1 & k1 & -> & G1 & Hal1 & Hk1 & Hp1 & Hls1 & Hil1 & A1).
      cbn beta iota zeta. unfold added in A1. case_decide as He1; cycle 1.
      { rewrite (bool_decide_eq_true_2 (e1 ≠ 0)) //. exists e1, m1, [Place r 0 0], k1. split; [done|]. split; [done|]. split; [done|].
        split; [done|]. split; [done|]. split; [done|]. split.
        - rewrite /added decide_False //. destruct A1 as [Ha0 Ha1]. rewrite node_root in Ha0. rewrite node_root in Ha1.
          unfold node. cbn [n_depth n_root n_index]. rewrite Ha0 Ha1. done.
        - intros p ->%list_elem_of_singleton. apply (above_root a ltac:(lia) (Place r (S d) nr)). by rewrite -Hl. }
      subst e1. rewrite (bool_decide_eq_false_2 (0 ≠ 0)); [|tauto]. destruct A1 as (_ & Hb1 & _).
      destruct (Hwalk m1) as (e & m' & l & k & -> & G & Hal & Hls & Hi & A & Hle); [apply (g_wf _ _ _ _ _ _ G1)|done|].
      assert (valid a (Place r 0 0)) as Hv0 by by apply valid_root.
      exists e, m', ([Place r 0 0] ++ l), (k1 + k). split; [done|]. split; [|split; [lia|split; [|split; [|split; [|split]]]]].
      * apply (grows_trans _ _ (b_state m1) (b_inode m1)); [| |done..].
        -- intros p [->%list_elem_of_singleton|Hp]%elem_of_app; [done|]. apply (g_place _ _ _ _ _ _ G _ Hp).
        -- intros p ->%list_elem_of_singleton Hp. apply Hle in Hp as [_ Hp]. cbn in Hp. lia.
      * intros Hkk. rewrite Hi. apply Hk1. pose proof (g_count _ _ _ _ _ _ G). pose proof (g_count _ _ _ _ _ _ G1). lia.
      * destruct Hls as [? ?], Hls1 as [? ?]. split; congruence.
      * by rewrite Hi.
      * unfold added in *. rewrite (g_same _ _ _ _ _ _ G1) in A; [done|by rewrite -Hl|by intros ?%list_elem_of_singleton].
      * intros p [->%list_elem_of_singleton|Hp]%elem_of_app; [|by apply Hle]. apply (above_root a ltac:(lia) (Place r (S d) nr)). by rewrite -Hl.
Qed.

(** Setting: one pointer is changed, or there is no block with the pointer. *)
Lemma block_set_ok m n : wf (b_state m) (b_inode m) → flag (i_flags (b_inode m)) EXT4_EXTENTS_FL = false → 0 ≤ n < file_span a →
  0 ≤ b_phys m < 2^32 → flag flags BMAP_SET = true → flag flags BMAP_ALLOC = false →
  ∃ e m', bmap_block mem_ok junk ino flags n m = Some (e, m') ∧ b_phys m' = b_phys m ∧ b_alloc m' = b_alloc m ∧
    inode_like (b_inode m) (b_inode m') ∧ is_bytes (b_inode m') ∧ (128 ≤ length (b_inode m'))%nat ∧ keeps used (b_state m) (b_state m') ∧
    (b_dirty m' = false → b_dirty m = false ∧ b_inode m' = b_inode m) ∧
    if decide (e = 0)
    then ((0 < n_depth (leaf_of n))%nat → N (b_state m) (b_inode m) (parent a (leaf_of n)) ≠ 0) ∧
      (∀ p, valid a p → N (b_state m') (b_inode m') p = if bool_decide (p = leaf_of n) then b_phys m else N (b_state m) (b_inode m) p) ∧
      ∀ x, area x → content (b_state m') x = content (b_state m) x ∨
        (0 < n_depth (leaf_of n))%nat ∧ x = N (b_state m) (b_inode m) (parent a (leaf_of n)) ∧ is_bytes (content (b_state m') x) ∧ Z.of_nat (length (content (b_state m') x)) = 4 * a
    else e = EXT2_ET_SET_BMAP_NO_IND ∧ N (b_state m) (b_inode m) (parent a (leaf_of n)) = 0 ∧ (0 < n_depth (leaf_of n))%nat ∧
         b_inode m' = b_inode m ∧ same_blocks content area (b_state m) (b_state m').
Proof.
  intros Hw He Hn Hph Hset Halloc. pose proof Hw as [Hwf _]. destruct Hwf as [Hby Hlen _ _ _].
  destruct (leaf_of_ok n Hn) as [Hv Hlf]. destruct m as [i fl al di v s]. cbn [b_state b_inode b_phys b_alloc b_dirty] in *.
  destruct (decide (n < 12)) as [Hd|Hd].
  - rewrite bmap_block_direct // /bmap_direct Hset. cbn [b_phys b_inode]. rewrite (u32_small v Hph).
    assert (leaf_of n = Place n 0 0) as Hl. { unfold leaf_of. rewrite bool_decide_eq_true_2 //. } rewrite Hl in Hv, Hlf |- *.
    destruct (set_i_block_ok n v i) as (Hby' & Hlen' & Hlike); [done|done|lia|].
    eexists 0, _. split; [done|]. cbn. do 6 (split; [done|]). split; [done|].
    destruct (decide (0 = 0)) as [_|?]; [|done]. split; [cbn; lia|]. split; [|by left]. apply (node_write_root s i s _ n v); [done|lia|done|done|done|by left].
  - destruct (bmap_block_tree (BmapState i fl al di v s) n Hw He ltac:(lia)) as (d & nr & -> & Hd3 & Hnr & ->).
    destruct (height_root d Hd3) as [Hr Hh]. unfold bmap_tree, walk_tree. cbn [b_state b_inode b_phys b_alloc].
    rewrite Hset Halloc (u32_small v Hph). set (r := Z.of_nat d + 12) in *. case_bool_decide as H0.
    + destruct (tree_set_ok d s i r flags nr v al) as (e & s' & -> & Hk & Hcase); [done|done|lia|done|done|done|done|].
      eexists e, _. split; [done|]. cbn [b_set_alloc b_set_state b_set_phys b_phys b_inode b_alloc b_dirty b_state].
      case_decide as Hee.
      * rewrite (bool_decide_eq_true_2 (e = 0)) //. cbn [b_phys b_inode b_alloc b_dirty b_state]. do 7 (split; [done|]).
        destruct Hcase as (Hc0 & Hc1 & Hc2). split; [done|]. split; [done|]. intros x Hx. destruct (Hc2 x Hx) as [?|?]; [by left|right]. split; [cbn; lia|done].
      * rewrite (bool_decide_eq_false_2 (e = 0)) //. cbn [b_phys b_inode b_alloc b_dirty b_state]. do 7 (split; [done|]).
        destruct Hcase as (-> & Hs & Hp0). split; [done|]. split; [exact Hp0|]. cbn. split; [lia|done].
    + eexists EXT2_ET_SET_BMAP_NO_IND, _. split; [done|]. cbn [b_phys b_inode b_alloc b_dirty b_state].
      do 5 (split; [done|]). split; [by apply keeps_refl|]. split; [done|].
      destruct (decide (EXT2_ET_SET_BMAP_NO_IND = 0)) as [?|_]; [done|]. split; [done|]. split; [|cbn; split; [lia|done]].
      assert (i_block r i = 0) as H0' by (destruct (decide (i_block r i = 0)); [done|by destruct H0]).
      unfold node, parent. cbn [n_depth n_root n_index pred]. rewrite H0'. by destruct d.
Qed.
End block.

(** ** The end *)
Lemma iblk_fields_ok i : is_bytes i → (128 ≤ length i)%nat →
  (∀ v, is_bytes (set_i_blocks v i) ∧ (128 ≤ length (set_i_blocks v i))%nat ∧ inode_like i (set_i_blocks v i) ∧
    ∀ r, 0 ≤ r < 15 → i_block r (set_i_blocks v i) = i_block r i) ∧
  (∀ v, is_bytes (set_l_i_blocks_hi v i) ∧ (128 ≤ length (set_l_i_blocks_hi v i))%nat ∧ inode_like i (set_l_i_blocks_hi v i) ∧
    ∀ r, 0 ≤ r < 15 → i_block r (set_l_i_blocks_hi v i) = i_block r i).
Proof.
  intros Hb Hl. assert (in_buf 4 28 i) by (unfold in_buf; lia). assert (in_buf 2 116 i) by (unfold in_buf; lia).
  split; intros v; unfold set_i_blocks, set_l_i_blocks_hi; (split; [by apply set_le_bytes|]); (split; [by rewrite length_set_le|]);
    (split; [repeat split; apply get_set_le_ne; (done || lia)|]); intros r Hr; (apply get_set_le_ne; [done|lia..]).
Qed.

Lemma iblk_add_ok fs i n : is_bytes i → (128 ≤ length i)%nat →
  is_bytes (ext2fs_iblk_add_blocks fs i n).2 ∧ (128 ≤ length (ext2fs_iblk_add_blocks fs i n).2)%nat ∧
  inode_like i (ext2fs_iblk_add_blocks fs i n).2 ∧ ∀ r, 0 ≤ r < 15 → i_block r (ext2fs_iblk_add_blocks fs i n).2 = i_block r i.
Proof.
  intros Hb Hl. unfold ext2fs_iblk_add_blocks. set (b := u64 _). destruct (iblk_fields_ok i Hb Hl) as [H1 H2].
  destruct (ext2fs_has_feature_huge_file _); [|case_bool_decide; [done|by apply H1]]. cbn [snd].
  destruct (H2 (u16 (Z.shiftr b 32))) as (A & B & C & D). destruct (iblk_fields_ok _ A B) as [H1' _].
  destruct (H1' (Z.land b 0xFFFFFFFF)) as (A' & B' & C' & D'). split; [done|]. split; [done|].
  split; [by eapply inode_like_trans|]. intros r Hr. by rewrite D' // D.
Qed.

(** How high the count of blocks can be. *)
Definition iblk_limit (fs : ext2_filsys) : Z := if ext2fs_has_feature_huge_file (fs_super fs) then 2^48 else 2^32.

Lemma iblk_count_nonneg fs i : is_bytes i → 0 ≤ iblk_count fs i.
Proof.
  intros Hb. unfold iblk_count. destruct (ext2fs_has_feature_huge_file _); [apply Z.mod_pos_bound; lia|by apply (get_le_range 4)].
Qed.

Lemma iblk_units_nonneg fs i n : 0 ≤ iblk_units fs i n.
Proof. unfold iblk_units. apply Z.mod_pos_bound. lia. Qed.

Lemma iblk_units_0 fs i : iblk_units fs i 0 = 0.
Proof. unfold iblk_units. rewrite Z.mul_0_l. change (u64 0) with 0. by destruct (_ || _). Qed.

Lemma iblk_count_limit fs i : is_bytes i → iblk_count fs i < iblk_limit fs.
Proof.
  intros Hb. pose proof (get_le_range 4 28 i Hb). pose proof (get_le_range 2 116 i Hb). unfold iblk_count, iblk_limit, i_blocks, l_i_blocks_hi.
  change (256 ^ Z.of_nat 4) with (2^32) in *. change (256 ^ Z.of_nat 2) with (2^16) in *.
  destruct (ext2fs_has_feature_huge_file _); [|lia]. rewrite Z.shiftl_mul_pow2 // u64_small; lia.
Qed.

(** A count that is stored is read back, as long as there are bits for it. *)
Lemma iblk_count_stored fs i c : (128 ≤ length i)%nat → 0 ≤ c < iblk_limit fs →
  iblk_count fs (set_i_blocks (Z.land c 0xFFFFFFFF)
    (if ext2fs_has_feature_huge_file (fs_super fs) then set_l_i_blocks_hi (u16 (Z.shiftr c 32)) i else i)) = c.
Proof.
  intros Hl Hc. assert (in_buf 4 28 i) by (unfold in_buf; lia). assert (in_buf 2 116 i) by (unfold in_buf; lia).
  unfold iblk_count, iblk_limit, set_i_blocks, set_l_i_blocks_hi, i_blocks, l_i_blocks_hi in *.
  change 0xFFFFFFFF with (Z.ones 32). rewrite Z.land_ones //.
  destruct (ext2fs_has_feature_huge_file (fs_super fs)).
  - assert (in_buf 4 28 (set16 116 (u16 (Z.shiftr c 32)) i)) by by apply in_buf_set.
    rewrite get_set_le // (get_set_le_ne 2 116 4 28); [|done|lia..]. rewrite get_set_le //.
    rewrite !Z.shiftr_div_pow2 // !Z.shiftl_mul_pow2 //. change (256 ^ Z.of_nat 4) with (2^32). change (256 ^ Z.of_nat 2) with (2^16).
    unfold u16. rewrite (Z.mod_small (c mod 2^32)); [|apply Z.mod_pos_bound; lia].
    assert (0 ≤ c / 2^32 < 2^16) by (split; [apply Z.div_pos; lia|apply Z.div_lt_upper_bound; lia]).
    rewrite !(Z.mod_small (c / 2^32)) //. rewrite u64_small; pose proof (Z.div_mod c (2^32)); pose proof (Z.mod_pos_bound c (2^32)); lia.
  - rewrite get_set_le //. change (256 ^ Z.of_nat 4) with (2^32). rewrite Z.mod_mod // Z.mod_small //.
Qed.

(** What is added is counted, as long as there are bits for it. *)
Lemma iblk_add_count fs i n : is_bytes i → (128 ≤ length i)%nat → iblk_count fs i + iblk_units fs i n < iblk_limit fs →
  iblk_count fs (ext2fs_iblk_add_blocks fs i n).2 = iblk_count fs i + iblk_units fs i n.
Proof.
  intros Hb Hl Hc. pose proof (iblk_count_nonneg fs i Hb) as H0. pose proof (iblk_units_nonneg fs i n) as H1.
  pose proof (iblk_count_stored fs i (iblk_count fs i + iblk_units fs i n) Hl ltac:(lia)) as Hs.
  unfold ext2fs_iblk_add_blocks, iblk_limit in *. rewrite (u64_small (_ + _)); [|revert Hc; destruct (ext2fs_has_feature_huge_file _); lia].
  revert Hc Hs. destruct (ext2fs_has_feature_huge_file (fs_super fs)); [done|]. intros Hc Hs. rewrite bool_decide_eq_false_2; [done|lia].
Qed.

(** What is subtracted is not counted any more. *)
Lemma iblk_sub_count fs i n : is_bytes i → (128 ≤ length i)%nat → (ext2fs_iblk_sub_blocks fs i n).1 = 0 →
  iblk_count fs (ext2fs_iblk_sub_blocks fs i n).2 = iblk_count fs i - iblk_units fs i n.
Proof.
  intros Hb Hl. pose proof (iblk_count_limit fs i Hb) as Hc. pose proof (iblk_units_nonneg fs i n) as H1.
  unfold ext2fs_iblk_sub_blocks. case_bool_decide as Hlt; [done|]. intros _. cbv zeta. cbn [snd]. apply iblk_count_stored; [done|lia].
Qed.

(** The count does not depend on the pointers, nor on the counters of the file system. *)
Definition same_count (i i' : list Z) : Prop := i_blocks i' = i_blocks i ∧ l_i_blocks_hi i' = l_i_blocks_hi i.
Definition same_units (fs fs' : ext2_filsys) : Prop :=
  ext2fs_has_feature_huge_file (fs_super fs') = ext2fs_has_feature_huge_file (fs_super fs) ∧
  fs_blocksize fs' = fs_blocksize fs ∧ EXT2FS_CLUSTER_RATIO fs' = EXT2FS_CLUSTER_RATIO fs.

Lemma iblk_same fs fs' i i' n : same_units fs fs' → same_count i i' → i_flags i' = i_flags i →
  iblk_count fs' i' = iblk_count fs i ∧ iblk_units fs' i' n = iblk_units fs i n ∧ iblk_limit fs' = iblk_limit fs.
Proof. unfold iblk_count, iblk_units, iblk_limit. by intros (-> & -> & ->) (-> & ->) ->. Qed.

Lemma set_i_block_count r v i : (128 ≤ length i)%nat → 0 ≤ r < 15 → same_count i (set_i_block r v i).
Proof.
  intros Hl Hr. assert (in_buf 4 (40 + 4 * r) i) by (unfold in_buf; lia). unfold set_i_block.
  split; apply get_set_le_ne; (done || lia).
Qed.

Lemma alloc_pointer_count ino r goal m e m' : (128 ≤ length (b_inode m))%nat → 0 ≤ r < 15 →
  alloc_pointer ino r goal m = (e, m') → same_count (b_inode m) (b_inode m').
Proof.
  intros Hl Hr. unfold alloc_pointer. destruct (sv_alloc_block3 _ _ _) as [[e1 b] s1].
  case_bool_decide; intros [= <- <-]; [done|]. by apply set_i_block_count.
Qed.

Lemma bmap_tree_count ino tree r flags nr m e m' : (128 ≤ length (b_inode m))%nat → 0 ≤ r < 15 →
  bmap_tree tree ino r flags nr m = (e, m') → same_count (b_inode m) (b_inode m').
Proof.
  intros Hl Hr. assert (∀ m1 e1 m2, walk_tree tree r flags nr m1 = (e1, m2) → b_inode m2 = b_inode m1) as Hw.
  { intros m1 e1 m2. unfold walk_tree. destruct (tree _ _ _ _ _ _) as [[[e' b] k] s']. intros [= <- <-]. by case_bool_decide. }
  unfold bmap_tree. case_bool_decide; [intros ->%Hw; done|]. destruct (negb _); [by intros [= <- <-]|].
  destruct (alloc_pointer ino r _ m) as [e1 m1] eqn:Ha1. apply alloc_pointer_count in Ha1; [|done..].
  case_bool_decide; [by intros [= <- <-]|]. by intros ->%Hw.
Qed.

Lemma block_count_same mem_ok junk ino flags n m e m' : (128 ≤ length (b_inode m))%nat → 0 ≤ n →
  flag (i_flags (b_inode m)) EXT4_EXTENTS_FL = false → flag flags BMAP_SET = false →
  bmap_block mem_ok junk ino flags n m = Some (e, m') → same_count (b_inode m) (b_inode m').
Proof.
  intros Hl Hn He Hs. unfold bmap_block. rewrite He. change EXT2_NDIR_BLOCKS with 12.
  repeat case_bool_decide; [|by intros [= Hb]; eapply bmap_tree_count in Hb..].
  unfold bmap_direct. rewrite Hs. set (m1 := b_set_phys _ m).
  assert (∀ goal (m2 : bmap_state W), b_inode m2 = b_inode m →
    (if bool_decide (b_phys m2 = 0) && flag flags BMAP_ALLOC then
       let '(e, m) := alloc_pointer ino n goal m2 in Some (e, if bool_decide (e = 0) then b_set_phys (i_block n (b_inode m)) m else m)
     else Some (0, m2)) = Some (e, m') → same_count (b_inode m) (b_inode m')) as Hrest.
  { intros goal m2 Hm2. destruct (_ && _); [|by intros [= <- <-]; rewrite Hm2].
    destruct (alloc_pointer ino n goal m2) as [e1 m3] eqn:Ha1. apply alloc_pointer_count in Ha1; [|by rewrite Hm2|lia].
    rewrite Hm2 in Ha1. intros [= <- <-]. by case_bool_decide. }
  case_bool_decide; cbn [mbind option_bind]; [by apply Hrest|].
  change (b_inode m1) with (b_inode m). destruct (find_inode_goal_mapped mem_ok ino (b_state m1) (b_inode m) n He) as [g ->]. cbn [mbind option_bind].
  by apply Hrest.
Qed.

(** The nodes depend on the pointers of the inode and the blocks only. *)
Lemma node_ext s i s' i' : wf s i → (∀ r, 0 ≤ r < 15 → i_block r i' = i_block r i) → same_blocks content area s s' →
  ∀ p, valid a p → N s' i' p = N s i p.
Proof.
  intros [Hwf _] Hi Hs [r d m]. revert m. induction d as [|d IH]; intros m Hp.
  - rewrite !node_root. apply Hi, Hp.
  - rewrite !(node_parent a ltac:(lia) _ _ (Place r (S d) m)) //; [|cbn; lia..]. cbv zeta.
    assert (valid a (parent a (Place r (S d) m))) as Hpp by (apply valid_parent; [lia|done]).
    change (parent a (Place r (S d) m)) with (Place r d (m / a)) in *. rewrite IH //. case_bool_decide as H0; [done|].
    unfold ptr. rewrite Hs //. by apply (fw_used _ _ _ _ _ Hwf).
Qed.

Lemma wf_ext s i s' i' : wf s i → (∀ r, 0 ≤ r < 15 → i_block r i' = i_block r i) → same_blocks content area s s' →
  (∀ x, used s' x ↔ used s x) → sv_blocksize s' = sv_blocksize s → is_bytes i' → (128 ≤ length i')%nat → wf s' i'.
Proof.
  intros Hw Hi Hs Hu Hb Hby Hlen. pose proof (node_ext _ _ _ _ Hw Hi Hs) as Hn. destruct Hw as [[_ _ H3 H4 H5] Hbs].
  split; [|by rewrite Hb]. constructor; [done..| | |].
  - intros p Hp. rewrite Hn // Hu. by apply H3.
  - intros p Hp Hlf. rewrite Hn //. intros H0. rewrite Hs; [by apply H4|by apply H3].
  - intros p q Hp Hq. rewrite !Hn //. by apply H5.
Qed.

Lemma bmap_done_err ino flags e m : e ≠ 0 → bmap_done ino flags e m = (e, m).
Proof. clear Ha. intros He. unfold bmap_done. rewrite bool_decide_eq_false_2; [|by intros [_ ?]]. cbn. by rewrite bool_decide_eq_false_2. Qed.

(** The inode is written when something changed. *)
Lemma bmap_done_ok ino flags m : is_bytes (b_inode m) → (128 ≤ length (b_inode m))%nat → flag flags BMAP_ZERO = false →
  ∃ m', bmap_done ino flags 0 m = (0, m') ∧ b_phys m' = b_phys m ∧ b_alloc m' = b_alloc m ∧ b_ret_flags m' = b_ret_flags m ∧
    same_blocks content area (b_state m) (b_state m') ∧ (∀ x, used (b_state m') x ↔ used (b_state m) x) ∧
    sv_blocksize (b_state m') = sv_blocksize (b_state m) ∧
    is_bytes (b_inode m') ∧ (128 ≤ length (b_inode m'))%nat ∧ inode_like (b_inode m) (b_inode m') ∧
    (∀ r, 0 ≤ r < 15 → i_block r (b_inode m') = i_block r (b_inode m)) ∧
    if bool_decide (b_alloc m ≠ 0) || b_dirty m
    then b_inode m' = (ext2fs_iblk_add_blocks (sv_fs (b_state m)) (b_inode m) (b_alloc m)).2 ∧
      ∀ ino', sv_read_inode (b_state m') ino' = if decide (ino' = ino) then (E_OK, b_inode m') else sv_read_inode (b_state m) ino'
    else m' = m.
Proof.
  intros Hb Hl Hz. unfold bmap_done. rewrite Hz andb_false_r. rewrite (bool_decide_eq_true_2 (0 = 0)) //. cbn [andb].
  destruct (_ || _) eqn:Hch; [|by exists m].
  destruct (iblk_add_ok (sv_fs (b_state m)) (b_inode m) (b_alloc m) Hb Hl) as (A & B & C & D).
  set (i' := (ext2fs_iblk_add_blocks _ _ _).2) in *. cbn [b_set_inode b_state b_inode].
  destruct (sv_inode_written content used area (b_state m) ino i') as (s' & -> & Hs & Hu & Hbs & Hr).
  eexists. split; [done|]. cbn [b_set_state b_phys b_ret_flags b_state b_inode]. repeat (split; [done|]). done.
Qed.
End grow.

(** ** [ext2fs_bmap2] *)
Section theorems.
Context {W : Type} `{!Services W} (content : W → Z → list Z) (used : W → Z → Prop) (area : Z → Prop).
Context `{!Serves content used area} (junk : ext2fs_extent) (ino : Z).

(** A file with pointers, in a file system with blocks of 1 to 64 KiB. *)
Record plain_file (s : W) (i : list Z) : Prop := PlainFile {
  pf_block : 1024 ≤ sv_blocksize s ≤ 65536;
  pf_block4 : sv_blocksize s mod 4 = 0;
  pf_wf : file_wf (sv_blocksize s / 4) area (used s) (content s) i;
  pf_extents : flag (i_flags i) EXT4_EXTENTS_FL = false;
  pf_inline : flag (i_flags i) EXT4_INLINE_DATA_FL = false;
}.
(** What block [n] of the file is mapped to, and how many blocks there can be. *)
Definition plain_block (s : W) (i : list Z) (n : Z) : Z := file_block (content s) (sv_blocksize s / 4) i n.
Definition max_blocks (s : W) : Z := Z.min (file_span (sv_blocksize s / 4)) (2^32 - 1).
Definition indirect (s : W) (i : list Z) (x : Z) : Prop :=
  ∃ p, valid (sv_blocksize s / 4) p ∧ ¬ is_leaf p ∧ node (sv_blocksize s / 4) (content s) i p = x.

Lemma plain_limit s i : plain_file s i → 256 ≤ sv_blocksize s / 4 ≤ 16384 ∧ sv_blocksize s = 4 * (sv_blocksize s / 4).
Proof. intros [Hb Hb4 _ _ _]. pose proof (Z.div_mod (sv_blocksize s) 4). lia. Qed.

Lemma plain_wf s i : plain_file s i → wf (content := content) (used := used) (area := area) (sv_blocksize s / 4) s i.
Proof. intros Hp. split; [apply Hp|]. by destruct (plain_limit s i Hp). Qed.

Lemma max_blocks_span s n : n < max_blocks s → n < file_span (sv_blocksize s / 4).
Proof. unfold max_blocks. lia. Qed.

Lemma too_big_ok s i n : plain_file s i → 0 ≤ n →
  ext2fs_file_block_offset_too_big (sv_fs s) i n = bool_decide (max_blocks s ≤ n).
Proof.
  intros Hp Hn. destruct (plain_limit s i Hp) as [Ha Hb]. unfold ext2fs_file_block_offset_too_big, max_blocks, file_span.
  rewrite (pf_extents _ _ Hp). fold (sv_blocksize s). change EXT2_NDIR_BLOCKS with 12. cbn [span].
  rewrite Z.shiftr_div_pow2 //. change (2^2) with 4. set (a := sv_blocksize s / 4) in *. clearbody a.
  case_bool_decide as H1; symmetry; [apply bool_decide_eq_true_2; lia|]. apply bool_decide_ext. lia.
Qed.

(** Finding a block of the file. *)
Lemma bmap_finds s i n phys : plain_file s i → 0 ≤ n < max_blocks s →
  ∃ s', ext2fs_bmap2 true junk ino (Some i) 0 n phys s = Some (0, BmapState i 0 0 false (plain_block s i n) s') ∧
    same_blocks content area s s' ∧ keeps used s s'.
Proof.
  intros Hp Hn. destruct (plain_limit s i Hp) as [Ha Hb]. unfold ext2fs_bmap2. cbn [flag].
  change (flag 0 BMAP_SET) with false. cbn iota beta. rewrite (bool_decide_eq_false_2 (E_OK ≠ E_OK)); [|tauto].
  rewrite (too_big_ok s i n Hp); [|lia]. rewrite bool_decide_eq_false_2; [|lia]. rewrite (pf_inline _ _ Hp). cbn [negb].
  destruct (block_get_ok (content := content) (used := used) (area := area) (sv_blocksize s / 4) Ha true junk ino 0 (BmapState i 0 0 false 0 s) n)
    as (s' & -> & Hs & Hk); [by apply plain_wf|apply Hp|split; [lia|apply max_blocks_span; lia]|done..|].
  cbn [mbind option_bind]. exists s'. split; [|done]. unfold bmap_done. cbn.
  change (flag 0 BMAP_ZERO) with false. by rewrite andb_false_r.
Qed.

(** Nothing else can be mapped. *)
Lemma bmap_too_big s i n flags phys : plain_file s i → max_blocks s ≤ n →
  ∃ m, ext2fs_bmap2 true junk ino (Some i) flags n phys s = Some (errno EXT2_ET_FILE_TOO_BIG, m) ∧ b_inode m = i ∧ b_state m = s.
Proof.
  intros Hp Hn. destruct (plain_limit s i Hp) as [Ha _]. unfold ext2fs_bmap2. rewrite (bool_decide_eq_false_2 (E_OK ≠ E_OK)); [|tauto].
  rewrite (too_big_ok s i n Hp); [|unfold max_blocks, file_span in Hn; pose proof (span_pos (sv_blocksize s / 4) 1); pose proof (span_pos (sv_blocksize s / 4) 2); pose proof (span_pos (sv_blocksize s / 4) 3); change EXT2_NDIR_BLOCKS with 12 in Hn; lia].
  rewrite bool_decide_eq_true_2 //. eexists. done.
Qed.

(** What an allocation for block [n] adds to the file: at the places [l], on the
    way to the pointer to the block, blocks that were free, zeroed but for the
    pointer to the next of them; nothing else that is in use changes. *)
Record adds (s : W) (i : list Z) (s' : W) (i' : list Z) (n : Z) (l : list place) : Prop := Adds {
  ad_nodup : NoDup l;
  ad_way p : p ∈ l → above (sv_blocksize s / 4) (leaf_of (sv_blocksize s / 4) n) p;
  ad_new p : p ∈ l ↔ valid (sv_blocksize s / 4) p ∧ node (sv_blocksize s / 4) (content s) i p = 0 ∧ node (sv_blocksize s / 4) (content s') i' p ≠ 0;
  ad_kept p : valid (sv_blocksize s / 4) p → node (sv_blocksize s / 4) (content s) i p ≠ 0 →
    node (sv_blocksize s / 4) (content s') i' p = node (sv_blocksize s / 4) (content s) i p;
  ad_free p : p ∈ l → ¬ used s (node (sv_blocksize s / 4) (content s') i' p);
  ad_used x : used s' x ↔ used s x ∨ ∃ p, p ∈ l ∧ node (sv_blocksize s / 4) (content s') i' p = x;
  ad_zero p : p ∈ l → if decide (is_leaf p)
    then content s' (node (sv_blocksize s / 4) (content s') i' p) = replicate (Z.to_nat (sv_blocksize s)) 0
    else ∀ j, 0 ≤ j < sv_blocksize s / 4 → block_nr j (content s' (node (sv_blocksize s / 4) (content s') i' p)) =
      if decide (child (sv_blocksize s / 4) p j ∈ l) then node (sv_blocksize s / 4) (content s') i' (child (sv_blocksize s / 4) p j) else 0;
  ad_content x : x ≠ 0 → area x → used s x → ¬ indirect s i x → content s' x = content s x;
}.

Lemma grows_adds s i s1 i1 s' i' n l k e b : let a := sv_blocksize s / 4 in
  plain_file s i → 0 ≤ n < max_blocks s →
  grows (content := content) (used := used) (area := area) a s i s1 i1 l k → (∀ p, p ∈ l → above a (leaf_of a n) p) →
  added (content := content) a s i s1 i1 (leaf_of a n) e b →
  sv_blocksize s' = sv_blocksize s1 → same_blocks content area s1 s' → (∀ x, used s' x ↔ used s1 x) →
  (∀ p, valid a p → node a (content s') i' p = node a (content s1) i1 p) →
  adds s i s' i' n (fresh (node a (content s) i) (node a (content s1) i1) l).
Proof.
  intros a Hp Hn G Hl A Hbs Hs Hu Hnd. destruct (plain_limit s i Hp) as [Ha Hb]. fold a in Ha.
  assert (0 ≤ n < file_span a) as Hn' by (split; [lia|apply max_blocks_span; lia]). destruct (leaf_of_ok a n Hn') as [Hlv Hlf].
  destruct (g_wf _ _ _ _ _ _ _ G) as [Hw1 Hbs1].
  set (l' := fresh _ _ l).
  assert (∀ p, p ∈ l' ↔ valid a p ∧ node a (content s) i p = 0 ∧ node a (content s') i' p ≠ 0) as Hl'.
  { intros p. unfold l', fresh. rewrite list_elem_of_filter. split.
    - intros [[Hp0 Hp1] Hpl]. apply (g_place _ _ _ _ _ _ _ G) in Hpl. by rewrite Hnd.
    - intros (Hpv & Hp0 & Hp1). rewrite Hnd // in Hp1. split; [done|]. destruct (decide (p ∈ l)) as [|Hpl]; [done|].
      by rewrite (g_same _ _ _ _ _ _ _ G) in Hp1. }
  constructor; fold a.
  - apply NoDup_filter, (g_nodup _ _ _ _ _ _ _ G).
  - intros p Hpl. apply Hl. apply list_elem_of_filter in Hpl. by destruct Hpl.
  - exact Hl'.
  - intros p Hpv H0. rewrite Hnd //. by apply (g_kept _ _ _ _ _ _ _ G).
  - intros p (Hpv & H0 & H1)%Hl'. rewrite Hnd // in H1 |- *. by apply (g_free _ _ _ _ _ _ _ G).
  - intros x. rewrite Hu. split.
    + intros [Hx|(Hx & p & Hpv & H0 & H1)]%(g_used_by _ _ _ _ _ _ _ G); [by left|right]. exists p.
      rewrite Hl' Hnd // H1. done.
    + intros [Hx|(p & (Hpv & H0 & H1)%Hl' & <-)]; [by apply (g_used _ _ _ _ _ _ _ G)|]. rewrite Hnd // in H1 |- *.
      by apply (fw_used _ _ _ _ _ Hw1).
  - intros p Hpl. pose proof Hpl as (Hpv & H0 & H1)%Hl'. rewrite Hnd // in H1. rewrite Hnd //.
    destruct (fw_used _ _ _ _ _ Hw1 p Hpv H1) as (Hpa & _ & _). rewrite Hs //. case_decide as Hpf.
    + assert (p = leaf_of a n) as ->.
      { apply (above_leaf a); [|done|done]. apply Hl. apply list_elem_of_filter in Hpl. by destruct Hpl. }
      unfold added in A. destruct (decide (e = 0)); [|by destruct A as [_ ?]]. destruct A as (-> & _ & A). rewrite A //. by rewrite -Hb.
    + intros j Hj. assert (valid a (child a p j)) as Hcv by (apply valid_child; [lia|done..]).
      assert (node a (content s) i (child a p j) = 0) as Hc0.
      { rewrite (node_parent a ltac:(lia)); [|done|cbn; lia]. cbv zeta. rewrite parent_child; [|lia|done]. by rewrite bool_decide_eq_true_2. }
      assert (block_nr j (content s1 (node a (content s1) i1 p)) = node a (content s') i' (child a p j)) as Hcb.
      { rewrite Hnd // (node_parent a ltac:(lia) _ _ (child a p j)); [|done|cbn; lia]. cbv zeta.
        rewrite parent_child; [|lia|done]. rewrite bool_decide_eq_false_2 //. rewrite child_mod; [done|lia|done]. }
      rewrite Hcb. case_decide as Hcl; [done|].
      destruct (decide (node a (content s') i' (child a p j) = 0)) as [|Hcn]; [done|]. destruct Hcl. by apply Hl'.
  - intros x H0 Hx Hxu Hxm. rewrite Hs //. apply (g_content _ _ _ _ _ _ _ G); [done..|]. intros p Hpv Hpl Hpx. apply Hxm. by exists p.
Qed.

(** Allocating: the result of [block_alloc_ok] with the inode written. *)
Lemma bmap_allocates s i n phys : plain_file s i → 0 ≤ n < max_blocks s →
  ∃ e m l k, ext2fs_bmap2 true junk ino (Some i) BMAP_ALLOC n phys s = Some (e, m) ∧ b_ret_flags m = 0 ∧
    (adds s i (b_state m) (b_inode m) n l ∧ b_alloc m = k ∧ k = Z.of_nat (length l)) ∧
    let s' := b_state m in let i' := b_inode m in
    plain_file s' i' ∧ sv_blocksize s' = sv_blocksize s ∧ inode_like i i' ∧
    (∀ n', 0 ≤ n' < max_blocks s → n' ≠ n → plain_block s' i' n' = plain_block s i n') ∧
    (∀ x, used s x → used s' x) ∧
    (∀ p, valid (sv_blocksize s / 4) p →
       node (sv_blocksize s / 4) (content s') i' p = node (sv_blocksize s / 4) (content s) i p ∨ ¬ used s (node (sv_blocksize s / 4) (content s') i' p)) ∧
    (∀ x, x ≠ 0 → area x → used s x → ¬ indirect s i x → content s' x = content s x) ∧
    (if decide (e = 0)
     then b_phys m = plain_block s' i' n ∧ b_phys m ≠ 0 ∧
       (if decide (plain_block s i n = 0) then ¬ used s (b_phys m) ∧ content s' (b_phys m) = replicate (Z.to_nat (sv_blocksize s)) 0
        else b_phys m = plain_block s i n) ∧
       (if decide (k = 0) then i' = i ∧ ∀ ino', sv_read_inode s' ino' = sv_read_inode s ino'
        else ∀ ino', sv_read_inode s' ino' = if decide (ino' = ino) then (E_OK, i') else sv_read_inode s ino')
     else b_phys m = 0 ∧ plain_block s i n = 0 ∧ plain_block s' i' n = 0 ∧ ∀ ino', sv_read_inode s' ino' = sv_read_inode s ino').
Proof.
  intros Hp Hn. destruct (plain_limit s i Hp) as [Ha Hb]. unfold ext2fs_bmap2.
  change (flag BMAP_ALLOC BMAP_SET) with false. cbn iota beta. rewrite (bool_decide_eq_false_2 (E_OK ≠ E_OK)); [|tauto].
  rewrite (too_big_ok s i n Hp); [|lia]. rewrite bool_decide_eq_false_2; [|lia]. rewrite (pf_inline _ _ Hp). cbn [negb].
  set (a := sv_blocksize s / 4) in *. assert (0 ≤ n < file_span a) as Hn' by (split; [lia|apply max_blocks_span; lia]).
  destruct (block_alloc_ok (content := content) (used := used) (area := area) a Ha true junk ino BMAP_ALLOC (BmapState i 0 0 false 0 s) n)
    as (e & m1 & l & k & Hm1 & G & Hal & Hk0 & [Hd Hf] & Hil & A & Hl); [by apply plain_wf|apply Hp|done..|].
  pose proof (bmap_block_phys a Ha true junk ino BMAP_ALLOC n _ _ _ (pf_extents _ _ Hp : flag (i_flags (b_inode (BmapState i 0 0 false 0 s))) _ = false) eq_refl eq_refl Hm1) as Hph0.
  rewrite Hm1. clear Hm1. cbn [b_state b_inode b_alloc b_dirty b_ret_flags] in *. cbn [mbind option_bind].
  assert (∀ x, x ≠ 0 → area x → used s x → ¬ indirect s i x → content (b_state m1) x = content s x) as Hcont.
  { intros x H0 Hx Hxu Hxm. apply (g_content _ _ _ _ _ _ _ G); [done..|]. intros p Hpv Hpl Hpx. apply Hxm. by exists p. }
  destruct (leaf_of_ok a n Hn') as [Hlv Hlf].
  assert (∀ n', 0 ≤ n' < max_blocks s → n' ≠ n → node a (content (b_state m1)) (b_inode m1) (leaf_of a n') = node a (content s) i (leaf_of a n')) as Hoth.
  { intros n' Hn1 Hne. destruct (leaf_of_ok a n') as [Hlv' Hlf']; [split; [lia|apply max_blocks_span; lia]|].
    apply (g_same _ _ _ _ _ _ _ G); [done|]. intros Hin. apply Hne. apply (leaf_of_inj a); [lia|lia|]. apply (above_leaf a); [by apply Hl|done|done]. }
  pose proof (g_wf _ _ _ _ _ _ _ G) as Hw1. pose proof (proj2 Hw1) as Hbs1.
  assert (sv_blocksize (b_state m1) = sv_blocksize s) as Hbs by lia.
  assert (∀ s' i', sv_blocksize s' = sv_blocksize s → wf (content := content) (used := used) (area := area) a s' i' → inode_like i i' → plain_file s' i') as Hplain.
  { intros s' i' Hbs' [Hw' _] (_ & Hfl & _ & _). constructor; [by rewrite Hbs'; apply Hp|by rewrite Hbs'; apply Hp|by rewrite Hbs'|by rewrite Hfl; apply Hp|by rewrite Hfl; apply Hp]. }
  assert (∀ p, valid a p → node a (content (b_state m1)) (b_inode m1) p = node a (content s) i p ∨ ¬ used s (node a (content (b_state m1)) (b_inode m1) p)) as Hnew.
  { intros p Hpv. destruct (decide (node a (content s) i p = 0)) as [H0|H0]; [|left; by apply (g_kept _ _ _ _ _ _ _ G)].
    destruct (decide (node a (content (b_state m1)) (b_inode m1) p = 0)) as [H1|H1]; [left; by rewrite H0|right; by apply (g_free _ _ _ _ _ _ _ G)]. }
  unfold plain_block.
  destruct (decide (e = 0)) as [->|He]; cycle 1.
  { exists e, m1, (fresh (node a (content s) i) (node a (content (b_state m1)) (b_inode m1)) l), k. split; [by rewrite bmap_done_err|].
    split; [done|]. split; [split; [by eapply grows_adds|split; [lia|apply (g_count _ _ _ _ _ _ _ G)]]|]. split; [by apply Hplain|]. split; [done|]. split; [done|]. rewrite Hbs. split; [|split; [|split; [done|split; [done|]]]].
    - intros n' Hn1 Hne. rewrite !file_block_node; [|lia..]. by apply Hoth.
    - apply (g_used _ _ _ _ _ _ _ G).
    - rewrite !file_block_node; [|lia..]. unfold added in A. destruct (decide (e = 0)) as [?|_]; [done|]. destruct A as [? ?]. split; [by apply Hph0|]. split; [done|]. split; [done|].
      apply (g_inode _ _ _ _ _ _ _ G). }
  destruct (bmap_done_ok (content := content) (used := used) (area := area) ino BMAP_ALLOC m1) as (m & -> & Hph & Hal2 & Hrf & Hs2 & Hu2 & Hbs2 & Hby2 & Hlen2 & Hil2 & Hib2 & Hch);
    [apply Hw1|apply Hw1|done|].
  pose proof (node_ext a Ha _ _ _ _ Hw1 Hib2 Hs2) as Hn2. pose proof (wf_ext a Ha _ _ _ _ Hw1 Hib2 Hs2 Hu2 Hbs2 Hby2 Hlen2) as Hw2.
  assert (sv_blocksize (b_state m) = sv_blocksize s) as Hbs3 by by rewrite Hbs2.
  exists 0, m, (fresh (node a (content s) i) (node a (content (b_state m1)) (b_inode m1)) l), k. split; [done|]. split; [by rewrite Hrf|].
  split; [split; [by eapply grows_adds|split; [rewrite Hal2; lia|apply (g_count _ _ _ _ _ _ _ G)]]|].
  split; [apply Hplain; [done|done|by eapply inode_like_trans]|].
  split; [done|]. split; [by eapply inode_like_trans|]. rewrite Hbs3. fold a. split; [|split; [|split; [|split]]].
  - intros n' Hn1 Hne. rewrite !file_block_node; [|lia..]. rewrite Hn2; [by apply Hoth|]. apply leaf_of_ok. split; [lia|apply max_blocks_span; lia].
  - intros x Hx. apply Hu2. by apply (g_used _ _ _ _ _ _ _ G).
  - intros p Hpv. rewrite Hn2 //. by apply Hnew.
  - intros x H0 Hx Hxu Hxm. rewrite Hs2 //. by apply Hcont.
  - unfold added in A. destruct (decide (0 = 0)) as [_|?] in A; [|done]. destruct A as (A1 & A2 & A3). destruct (decide (0 = 0)) as [_|?]; [|done].
    rewrite !file_block_node; [|lia..]. rewrite Hn2 // Hph. split; [done|]. split; [done|]. split.
    + destruct (decide (node a (content s) i (leaf_of a n) = 0)) as [H0|H0].
      * split. { rewrite A1. apply (g_free _ _ _ _ _ _ _ G); [done|done|by rewrite -A1]. }
        rewrite Hs2; [rewrite A3 //; do 2 f_equal; lia|]. destruct Hw1 as [Hw1 _]. rewrite A1. apply (fw_used _ _ _ _ _ Hw1); [done|by rewrite -A1].
      * rewrite A1. by apply (g_kept _ _ _ _ _ _ _ G).
    + rewrite Hal Hd orb_false_r Z.add_0_l in Hch. destruct (decide (k = 0)) as [Hk|Hk].
      * rewrite bool_decide_eq_false_2 in Hch; [|tauto]. subst m. split; [by apply Hk0|]. apply (g_inode _ _ _ _ _ _ _ G).
      * rewrite bool_decide_eq_true_2 // in Hch. destruct Hch as [_ Hch]. intros ino'. rewrite Hch. by rewrite (g_inode _ _ _ _ _ _ _ G).
Qed.

(** The file with its pointer to block [n] set to [v], which is 0 or a block
    that is in use but not by this file. *)
Definition not_of_file (s : W) (i : list Z) (v : Z) : Prop :=
  v = 0 ∨ area v ∧ used s v ∧ 0 < v < 2^32 ∧ ∀ p, valid (sv_blocksize s / 4) p → node (sv_blocksize s / 4) (content s) i p ≠ v.

(** The indirect block that has the pointer to block [n] is missing. *)
Definition no_indirect (s : W) (i : list Z) (n : Z) : Prop :=
  (0 < n_depth (leaf_of (sv_blocksize s / 4) n))%nat ∧
  node (sv_blocksize s / 4) (content s) i (parent (sv_blocksize s / 4) (leaf_of (sv_blocksize s / 4) n)) = 0.
#[export] Instance no_indirect_dec s i n : Decision (no_indirect s i n).
Proof. unfold no_indirect. apply _. Defined.

Lemma bmap_sets s i n v : plain_file s i → 0 ≤ n < max_blocks s → not_of_file s i v →
  ∃ e m, ext2fs_bmap2 true junk ino (Some i) BMAP_SET n v s = Some (e, m) ∧
    e = (if decide (no_indirect s i n) then EXT2_ET_SET_BMAP_NO_IND else 0) ∧
    plain_file (b_state m) (b_inode m) ∧ sv_blocksize (b_state m) = sv_blocksize s ∧
    if decide (e = 0)
    then (∀ n', 0 ≤ n' < max_blocks s → plain_block (b_state m) (b_inode m) n' = if decide (n' = n) then v else plain_block s i n') ∧
      ∀ x, x ≠ 0 → area x → ¬ indirect s i x → content (b_state m) x = content s x
    else plain_block s i n = 0 ∧ b_inode m = i ∧ same_blocks content area s (b_state m).
Proof.
  intros Hp Hn Hv. destruct (plain_limit s i Hp) as [Ha Hb]. unfold ext2fs_bmap2.
  change (flag BMAP_SET BMAP_SET) with true. cbn iota beta. rewrite (bool_decide_eq_false_2 (E_OK ≠ E_OK)); [|tauto].
  rewrite (too_big_ok s i n Hp); [|lia]. rewrite bool_decide_eq_false_2; [|lia]. rewrite (pf_inline _ _ Hp). cbn [negb].
  pose proof (plain_wf s i Hp) as Hw. unfold not_of_file, plain_block in *.
  set (a := sv_blocksize s / 4) in *. assert (0 ≤ n < file_span a) as Hn' by (split; [lia|apply max_blocks_span; lia]).
  destruct (leaf_of_ok a n Hn') as [Hlv Hlf].
  destruct (block_set_ok (content := content) (used := used) (area := area) a Ha true junk ino BMAP_SET (BmapState i 0 0 false v s) n)
    as (e & m1 & -> & Hph & Hal & Hil & Hby & Hlen & Hk & Hdirty & Hcase); [done|apply Hp|done|cbn; lia|done|done|].
  cbn [b_state b_inode b_alloc b_dirty b_phys mbind option_bind] in *.
  destruct Hk as [Hu Hri Hbs].
  assert (∀ s' i', sv_blocksize s' = sv_blocksize s → wf (content := content) (used := used) (area := area) a s' i' → inode_like i i' → plain_file s' i') as Hplain.
  { intros s' i' Hbs' [Hw' _] (_ & Hfl & _ & _). constructor; [by rewrite Hbs'; apply Hp|by rewrite Hbs'; apply Hp|by rewrite Hbs'|by rewrite Hfl; apply Hp|by rewrite Hfl; apply Hp]. }
  destruct (decide (e = 0)) as [->|He]; cycle 1.
  { destruct Hcase as (-> & Hpar & Hd & Hi & Hs). exists EXT2_ET_SET_BMAP_NO_IND, m1. split; [by rewrite bmap_done_err|].
    rewrite Hi in Hil |- *. destruct (same_nodes (content := content) (used := used) (area := area) a Ha s i (b_state m1)) as [Hw1 _]; [done|done|by constructor|].
    split; [by rewrite decide_True|]. split; [by apply Hplain|]. split; [done|].
    destruct (decide (EXT2_ET_SET_BMAP_NO_IND = 0)) as [?|_]; [done|]. split; [|done].
    rewrite file_block_node; [|lia]. rewrite (node_parent a ltac:(lia)) //. cbv zeta. by rewrite bool_decide_eq_true_2. }
  destruct Hcase as (Hind & Hn1 & Hc1).
  assert (wf (content := content) (used := used) (area := area) a (b_state m1) (b_inode m1)) as Hw1.
  { destruct Hw as [[_ _ H3 H4 H5] _]. split; [|by rewrite Hbs]. constructor; [done|done| | |].
    - intros p Hpv. rewrite Hn1 // Hu. case_bool_decide; [|by apply H3]. intros H0. destruct Hv as [?|(? & ? & ? & _)]; [done|]. done.
    - intros p Hpv Hpl. rewrite Hn1 //. rewrite bool_decide_eq_false_2; [|by intros ->]. intros H0.
      destruct (H3 p Hpv H0) as (Hpa & _ & _). destruct (Hc1 _ Hpa) as [->|(_ & _ & ? & ?)]; [by apply H4|done].
    - intros p q Hpv Hqv. rewrite !Hn1 //. case_bool_decide as E; case_bool_decide as E'; [by subst|intros Heq H0..|].
      + exfalso. destruct Hv as [?|(_ & _ & _ & Hv)]; [done|]. by apply (Hv q).
      + exfalso. destruct Hv as [Hv|(_ & _ & _ & Hv)]; [by rewrite Heq in H0|]. by apply (Hv p).
      + by apply H5. }
  destruct (bmap_done_ok (content := content) (used := used) (area := area) ino BMAP_SET m1) as (m & -> & Hph2 & Hal2 & Hrf & Hs2 & Hu2 & Hbs2 & Hby2 & Hlen2 & Hil2 & Hib2 & _);
    [done|done|done|].
  pose proof (node_ext a Ha _ _ _ _ Hw1 Hib2 Hs2) as Hn2. pose proof (wf_ext a Ha _ _ _ _ Hw1 Hib2 Hs2 Hu2 Hbs2 Hby2 Hlen2) as Hw2.
  assert (sv_blocksize (b_state m) = sv_blocksize s) as Hbs3 by by rewrite Hbs2.
  exists 0, m. split; [done|]. split; [rewrite decide_False //; intros [Hdp H0]; by apply Hind|].
  split; [apply Hplain; [done|done|by eapply inode_like_trans]|]. split; [done|].
  destruct (decide (0 = 0)) as [_|?]; [|done]. rewrite Hbs3. fold a. split.
  - intros n' Hn1'. rewrite !file_block_node; [|lia..].
    assert (valid a (leaf_of a n')) as Hlv' by (apply leaf_of_ok; split; [lia|apply max_blocks_span; lia]).
    rewrite Hn2 // Hn1 //. case_bool_decide as E; case_decide as E'; [done| | |done].
    + exfalso. apply E'. apply (leaf_of_inj a); [lia|lia|done].
    + exfalso. apply E. by rewrite E'.
  - intros x H0 Hx Hxm. rewrite Hs2 //. destruct (Hc1 x Hx) as [?|(Hd & -> & _ & _)]; [done|]. exfalso. apply Hxm.
    exists (parent a (leaf_of a n)). split; [by apply valid_parent; [lia|]|]. split; [|done].
    intros Hpl. unfold is_leaf, parent in *. cbn in Hpl. lia.
Qed.

(** The same file in another state: its indirect blocks have the same contents. *)
Lemma plain_congr s i s' i' : plain_file s i → sv_blocksize s' = sv_blocksize s → (∀ x, used s x → used s' x) →
  (∀ x, x ≠ 0 → indirect s i x → content s' x = content s x) →
  is_bytes i' → (128 ≤ length i')%nat → i_flags i' = i_flags i → (∀ r, 0 ≤ r < 15 → i_block r i' = i_block r i) →
  plain_file s' i' ∧ ∀ p, valid (sv_blocksize s / 4) p → node (sv_blocksize s / 4) (content s') i' p = node (sv_blocksize s / 4) (content s) i p.
Proof.
  intros Hp Hbs Hu Hc Hby Hlen Hfl Hib. destruct (plain_limit s i Hp) as [Ha _]. unfold indirect in Hc. set (a := sv_blocksize s / 4) in *.
  assert (∀ p, valid a p → node a (content s') i' p = node a (content s) i p) as Hn.
  { intros [r d m]. revert m. induction d as [|d IH]; intros m Hv; [rewrite !node_root; apply Hib, Hv|].
    rewrite !(node_parent a ltac:(lia) _ _ (Place r (S d) m)) //; [|cbn; lia..]. cbv zeta.
    assert (valid a (parent a (Place r (S d) m))) as Hpp by (apply valid_parent; [lia|done]).
    change (parent a (Place r (S d) m)) with (Place r d (m / a)) in *. rewrite IH //. case_bool_decide as H0; [done|].
    unfold ptr. rewrite Hc //. exists (Place r d (m / a)). split; [done|]. split; [|done].
    destruct Hv as (_ & Hd & _). unfold is_leaf. cbn in *. lia. }
  split; [|done]. destruct Hp as [H1 H2 [_ _ H5 H6 H7] H8 H9]. constructor; [by rewrite Hbs|by rewrite Hbs| |by rewrite Hfl|by rewrite Hfl].
  rewrite Hbs. fold a. constructor; [done|done| | |].
  - intros p Hv. rewrite Hn //. intros H0. destruct (H5 p Hv H0) as (? & ? & ?). auto.
  - intros p Hv Hl. rewrite Hn //. intros H0. rewrite Hc //; [by apply H6|by exists p].
  - intros p q Hv Hv'. rewrite !Hn //. by apply H7.
Qed.

(** The blocks of data: in the area, in use, each of one block of the file, and not indirect. *)
Lemma plain_block_ok s i n : plain_file s i → 0 ≤ n < max_blocks s → plain_block s i n ≠ 0 →
  area (plain_block s i n) ∧ used s (plain_block s i n) ∧ 0 < plain_block s i n < 2^32 ∧ ¬ indirect s i (plain_block s i n) ∧
  ∀ n', 0 ≤ n' < max_blocks s → plain_block s i n' = plain_block s i n → n' = n.
Proof.
  intros Hp Hn H0. destruct (plain_limit s i Hp) as [Ha _]. unfold plain_block in *. rewrite !file_block_node in H0 |- *; [|lia..].
  destruct (leaf_of_ok (sv_blocksize s / 4) n) as [Hv Hl]; [split; [lia|apply max_blocks_span; lia]|].
  pose proof (pf_wf _ _ Hp) as Hw. destruct (fw_used _ _ _ _ _ Hw _ Hv H0) as (H1 & H2 & H3). split; [done|]. split; [done|]. split; [done|]. split.
  - intros (q & Hqv & Hql & Hq). apply Hql. rewrite (fw_inj _ _ _ _ _ Hw q _ Hqv Hv Hq) //. by rewrite Hq.
  - intros n' Hn' Heq. rewrite file_block_node in Heq; [|lia]. apply (leaf_of_inj (sv_blocksize s / 4)); [lia|lia|].
    destruct (leaf_of_ok (sv_blocksize s / 4) n') as [Hv' _]; [split; [lia|apply max_blocks_span; lia]|].
    apply (fw_inj _ _ _ _ _ Hw); [done|done|done|by rewrite Heq].
Qed.

(** What every service keeps, [ext2fs_bmap2] keeps. *)
Section invariant.
Context (P : W → Prop) `{!Invariant P}.

Lemma ind_bmap_inv flags ind nr ret n s : P s → P (block_ind_bmap flags ind nr ret n s).2.
Proof.
  intros HP. unfold block_ind_bmap, alloc_block32. case_bool_decide; [by destruct (flag _ _)|].
  pose proof (inv_read s ind HP) as H1. destruct (read_blk s ind) as [[e buf] s1]. cbn [snd] in H1. case_bool_decide; [done|].
  destruct (flag flags BMAP_SET).
  - pose proof (inv_write s1 ind (set_block_nr nr ret buf) H1). by destruct (write_blk s1 ind _).
  - destruct (_ && _); [|done].
    match goal with |- context [sv_alloc_block3 s1 ?g None] => pose proof (inv_alloc s1 g None H1) as H2; destruct (sv_alloc_block3 s1 g None) as [[e2 b2] s2] end.
    cbn [snd] in H2. case_bool_decide; [done|]. pose proof (inv_write s2 ind (set_block_nr nr (u32 b2) buf) H2) as H5.
    destruct (write_blk s2 ind _) as [e3 s3]. cbn [snd] in H5. by case_bool_decide.
Qed.
Lemma sub_bmap_inv upper flags root nr ret n s : (∀ fl r k v c s, P s → P (upper fl r k v c s).2) → P s → P (block_sub_bmap upper flags root nr ret n s).2.
Proof.
  intros Hup HP. unfold block_sub_bmap.
  match goal with |- context [upper ?f root ?k 0 n s] => pose proof (Hup f root k 0 n s HP) as H1; destruct (upper f root k 0 n s) as [[[e b] c] s1] end.
  cbn [snd] in H1. case_bool_decide; [done|]. by apply ind_bmap_inv.
Qed.
Lemma dind_bmap_inv flags root nr ret n s : P s → P (block_dind_bmap flags root nr ret n s).2.
Proof. apply sub_bmap_inv. intros. by apply ind_bmap_inv. Qed.
Lemma tind_bmap_inv flags root nr ret n s : P s → P (block_tind_bmap flags root nr ret n s).2.
Proof. apply sub_bmap_inv. intros. by apply dind_bmap_inv. Qed.
Lemma bmap_tree_inv tree r flags nr m : (∀ fl r k v c s, P s → P (tree fl r k v c s).2) → P (b_state m) → P (b_state (bmap_tree tree ino r flags nr m).2).
Proof.
  intros Ht HP. assert (∀ m, P (b_state m) → P (b_state (walk_tree tree r flags nr m).2)) as Hw.
  { intros m' HP'. unfold walk_tree.
    match goal with |- context [tree ?f ?r ?k ?v ?c ?s] => pose proof (Ht f r k v c s HP') as H1; destruct (tree f r k v c s) as [[[e b] n] s1] end.
    cbn [snd] in *. by case_bool_decide. }
  unfold bmap_tree, alloc_pointer. case_bool_decide; [by apply Hw|]. destruct (negb _); [done|].
  match goal with |- context [sv_alloc_block3 ?s ?g ?c] => pose proof (inv_alloc s g c HP) as H2; destruct (sv_alloc_block3 s g c) as [[e2 b2] s2] end.
  cbn [snd] in H2. destruct (bool_decide (e2 ≠ 0)) eqn:He; [by rewrite He|]. rewrite bool_decide_eq_false_2; [|tauto]. by apply Hw.
Qed.

Lemma block_inv i flags n m0 : flag (i_flags i) EXT4_EXTENTS_FL = false → b_inode m0 = i → P (b_state m0) →
  ∃ e1 m1, bmap_block true junk ino flags n m0 = Some (e1, m1) ∧ P (b_state m1).
Proof.
  intros He Hi H0. unfold bmap_block. rewrite Hi He.
  repeat case_bool_decide; [|(eexists _, _; split; [apply f_equal, surjective_pairing|];
    apply bmap_tree_inv; [|done]; intros; by first [apply ind_bmap_inv|apply dind_bmap_inv|apply tind_bmap_inv])..].
  unfold bmap_direct. rewrite Hi. destruct (flag flags BMAP_SET); [by eexists _, _|].
  set (m1 := b_set_phys _ m0). assert (P (b_state m1)) as H1 by done. assert (b_inode m1 = i) as Hi1 by done. clearbody m1. rewrite Hi1.
  assert (∃ g, (if bool_decide (n ≠ 0) then Some (i_block (n - 1) i, m1)
            else '(g, i, s) ← ext2fs_find_inode_goal true (b_state m1) ino i n; Some (u32 g, b_set_state s (b_set_inode i m1))) = Some (g, m1)) as [g ->].
  { case_bool_decide; [by eexists|]. destruct (find_inode_goal_mapped true ino (b_state m1) i n He) as [g ->].
    eexists. cbn. do 2 f_equal. destruct m1. cbn in *. by subst. }
  cbn [mbind option_bind]. destruct (_ && _); [|by eexists _, _]. unfold alloc_pointer.
  match goal with |- context [sv_alloc_block3 ?s ?g ?c] => pose proof (inv_alloc s g c H1) as H2; destruct (sv_alloc_block3 s g c) as [[e2 b2] s2] end.
  cbn [snd] in H2. destruct (bool_decide (e2 ≠ 0)); eexists _, _; (split; [done|]); by case_bool_decide.
Qed.

Lemma bmap_inv s i flags n phys e m : plain_file s i → P s → ext2fs_bmap2 true junk ino (Some i) flags n phys s = Some (e, m) → P (b_state m).
Proof.
  intros Hp HP. unfold ext2fs_bmap2. rewrite (bool_decide_eq_false_2 (E_OK ≠ E_OK)); [|tauto].
  destruct (ext2fs_file_block_offset_too_big _ _ _); [by intros [= <- <-]|]. rewrite (pf_inline _ _ Hp). cbn [negb].
  set (m0 := BmapState i 0 0 false _ s). assert (P (b_state m0)) as H0 by done. assert (b_inode m0 = i) as Hi by done. clearbody m0. clear phys.
  destruct (block_inv i flags n m0 (pf_extents _ _ Hp) Hi H0) as (e1 & m1 & -> & H1).
  cbn [mbind option_bind]. intros [= Hd]. revert Hd. unfold bmap_done.
  assert (∃ e2 m2, (if bool_decide (b_phys m1 ≠ 0 ∧ e1 = 0) && flag flags BMAP_ZERO
    then let '(e, s) := sv_zero_blocks2 (b_state m1) (b_phys m1) 1 in (e, b_set_state s m1) else (e1, m1)) = (e2, m2) ∧ P (b_state m2)) as (e2 & m2 & -> & H2).
  { destruct (_ && _); [|by eexists _, _]. pose proof (inv_zero (b_state m1) (b_phys m1) 1 H1) as H2. destruct (sv_zero_blocks2 _ _ _). by eexists _, _. }
  destruct (_ && _); [|by intros [= <- <-]]. cbn [b_set_inode b_state b_inode].
  match goal with |- context [sv_write_inode ?s ino ?c] => pose proof (inv_write_inode s ino c H2) as H3; destruct (sv_write_inode s ino c) end.
  by intros [= <- <-].
Qed.
End invariant.

(** The blocks that were added are counted. *)
Lemma bmap_counts s i n phys m : plain_file s i → 0 ≤ n < max_blocks s → Invariant (λ s', same_units (sv_fs s) (sv_fs s')) →
  ext2fs_bmap2 true junk ino (Some i) BMAP_ALLOC n phys s = Some (0, m) →
  iblk_count (sv_fs s) i + iblk_units (sv_fs s) i (b_alloc m) < iblk_limit (sv_fs s) →
  iblk_count (sv_fs s) (b_inode m) = iblk_count (sv_fs s) i + iblk_units (sv_fs s) i (b_alloc m).
Proof.
  intros Hp Hn HI. destruct (plain_limit s i Hp) as [Ha Hb]. unfold ext2fs_bmap2.
  change (flag BMAP_ALLOC BMAP_SET) with false. cbn iota beta. rewrite (bool_decide_eq_false_2 (E_OK ≠ E_OK)); [|tauto].
  rewrite (too_big_ok s i n Hp); [|lia]. rewrite bool_decide_eq_false_2; [|lia]. rewrite (pf_inline _ _ Hp). cbn [negb].
  set (a := sv_blocksize s / 4) in *. assert (0 ≤ n < file_span a) as Hn' by (split; [lia|apply max_blocks_span; lia]).
  destruct (block_alloc_ok (content := content) (used := used) (area := area) a Ha true junk ino BMAP_ALLOC (BmapState i 0 0 false 0 s) n)
    as (e & m1 & l & k & Hm1 & G & Hal & Hk0 & [Hd Hf] & Hil & _); [by apply plain_wf|apply Hp|done..|].
  destruct (block_inv _ i BMAP_ALLOC n (BmapState i 0 0 false 0 s) (pf_extents _ _ Hp) eq_refl) as (e' & m1' & Hm1' & HP); [done|].
  rewrite Hm1 in Hm1'. injection Hm1' as <- <-. cbv beta in HP. pose proof (pf_wf _ _ Hp) as Hw0.
  pose proof (block_count_same true junk ino BMAP_ALLOC n _ e m1 (fw_length _ _ _ _ _ Hw0 : (128 ≤ length (b_inode (BmapState i 0 0 false 0 s)))%nat)
    (proj1 Hn) (pf_extents _ _ Hp) eq_refl Hm1) as Hsc.
  rewrite Hm1. cbn [mbind option_bind b_inode] in *. intros [= Hdone].
  destruct (decide (e = 0)) as [->|He]; [|rewrite bmap_done_err // in Hdone; by injection Hdone].
  destruct (g_wf _ _ _ _ _ _ _ G) as [Hw1 _].
  destruct (bmap_done_ok (content := content) (used := used) (area := area) ino BMAP_ALLOC m1)
    as (m' & Hdone' & _ & Hal2 & _ & _ & _ & _ & _ & _ & _ & _ & Hch); [apply Hw1|apply Hw1|done|].
  rewrite Hdone in Hdone'. injection Hdone' as <-. rewrite Hal2.
  destruct (iblk_same (sv_fs s) (sv_fs (b_state m1)) i (b_inode m1) (b_alloc m1) HP Hsc) as (E1 & E2 & E3); [apply Hil|].
  rewrite -E1 -E2 -E3. intros Hlim. destruct (bool_decide (b_alloc m1 ≠ 0) || b_dirty m1) eqn:Hb1.
  - destruct Hch as [-> _].
    rewrite -(iblk_add_count (sv_fs (b_state m1))) //; [|apply Hw1|apply Hw1].
    destruct HP as (H1 & _). unfold iblk_count. by rewrite H1.
  - apply orb_false_elim in Hb1 as [Hb1 _]. apply bool_decide_eq_false in Hb1.
    assert (b_alloc m1 = 0) as -> by (destruct (decide (b_alloc m1 = 0)); [done|by destruct Hb1]). subst m.
    rewrite iblk_units_0 Z.add_0_r E1. apply (iblk_same _ _ i (b_inode m1) 0); [done|done|apply Hil].
Qed.

(** C12: For a file with pointers, [ext2fs_bmap2] without flags finds the block that
    the map of the file has.  With BMAP_ALLOC it then has a block for block [n],
    the one that was there or a new one: the blocks that are added are those that
    are missing on the way to block [n] ([adds]), each was free and is in use then, and
    is zeroed but for the pointer to the next; the map of all other blocks and the
    contents of every block in use but the indirect ones of the file stay.
    [i_blocks] grows by the number of new blocks in its units, if it has the bits
    for it, and the inode is written when blocks were added.  With an error
    block [n] is not mapped; what was added on the way stays in the inode of the
    caller.  The features, the block size and the cluster ratio of the file system
    are taken not to change. *)
Theorem ext2fs_bmap2_correct s i n phys : plain_file s i → 0 ≤ n < max_blocks s → Invariant (λ s', same_units (sv_fs s) (sv_fs s')) →
  (∃ s', ext2fs_bmap2 true junk ino (Some i) 0 n phys s = Some (0, BmapState i 0 0 false (plain_block s i n) s') ∧
     same_blocks content area s s' ∧ keeps used s s') ∧
  ∃ e m l, ext2fs_bmap2 true junk ino (Some i) BMAP_ALLOC n phys s = Some (e, m) ∧
    let a := sv_blocksize s / 4 in let fs := sv_fs s in let s' := b_state m in let i' := b_inode m in
    plain_file s' i' ∧ inode_like i i' ∧ adds s i s' i' n l ∧ b_alloc m = Z.of_nat (length l) ∧
    (∀ n', 0 ≤ n' < max_blocks s → n' ≠ n → plain_block s' i' n' = plain_block s i n') ∧
    (if decide (e = 0)
     then b_phys m = plain_block s' i' n ∧ b_phys m ≠ 0 ∧ (plain_block s i n ≠ 0 → b_phys m = plain_block s i n) ∧
       (∀ p, p ∈ l ↔ above a (leaf_of a n) p ∧ node a (content s) i p = 0) ∧
       (iblk_count fs i + iblk_units fs i (Z.of_nat (length l)) < iblk_limit fs →
        iblk_count fs i' = iblk_count fs i + iblk_units fs i (Z.of_nat (length l))) ∧
       (l ≠ [] → sv_read_inode s' ino = (E_OK, i')) ∧ (l = [] → i' = i)
     else plain_block s i n = 0 ∧ plain_block s' i' n = 0).
Proof.
  intros Hp Hn HI. split; [by apply bmap_finds|].
  destruct (bmap_allocates s i n phys Hp Hn) as (e & m & l & k & He & _ & (Had & Hk & Hkl) & Hp' & Hbs & Hil & Hoth & _ & _ & _ & Hcase).
  exists e, m, l. split; [done|]. cbv zeta. split; [done|]. split; [done|]. split; [done|]. split; [lia|]. split; [done|].
  destruct (decide (e = 0)) as [->|H0]; [|by destruct Hcase as (_ & ? & ? & _)].
  destruct Hcase as (H1 & H2 & H3 & Hri). split; [done|]. split; [done|].
  split; [intros H0; by rewrite decide_False in H3|]. split; [|split; [|split]].
  - intros p. destruct (plain_limit s i Hp) as [Ha _].
    destruct (leaf_of_ok (sv_blocksize s / 4) n) as [Hlv _]; [split; [lia|apply max_blocks_span; lia]|].
    split; [intros Hpl; split; [by apply (ad_way _ _ _ _ _ _ Had)|by apply (ad_new _ _ _ _ _ _ Had)]|].
    intros [Hab Hp0]. apply (ad_new _ _ _ _ _ _ Had). split; [by eapply above_valid; [lia|..]|]. split; [done|].
    eapply node_above; [lia|exact Hlv|exact Hab|]. rewrite -file_block_node; [|lia]. unfold plain_block in H1. rewrite Hbs in H1. by rewrite -H1.
  - rewrite -Hkl -Hk. by apply (bmap_counts s i n phys).
  - intros Hne. destruct (decide (k = 0)) as [Hk0|Hk0]; [destruct l; [done|cbn in Hkl; lia]|]. rewrite Hri decide_True //.
  - intros ->. cbn in Hkl. rewrite Hkl in Hri. by destruct Hri.
Qed.

(** C13: What BMAP_SET sets is found: block [n] is mapped to [v] after it, every other
    block as before, and nothing but indirect blocks of the file is written.  It
    fails exactly when the indirect block for the pointer is missing, and changes
    nothing then. *)
Theorem bmap_set_get s i n v : plain_file s i → 0 ≤ n < max_blocks s → not_of_file s i v →
  ∃ e m, ext2fs_bmap2 true junk ino (Some i) BMAP_SET n v s = Some (e, m) ∧
    e = (if decide (no_indirect s i n) then EXT2_ET_SET_BMAP_NO_IND else 0) ∧
    (e ≠ 0 → b_inode m = i ∧ same_blocks content area s (b_state m)) ∧
    (∀ x, x ≠ 0 → area x → ¬ indirect s i x → content (b_state m) x = content s x) ∧
    ∀ n', 0 ≤ n' < max_blocks s → ∃ s',
      ext2fs_bmap2 true junk ino (Some (b_inode m)) 0 n' 0 (b_state m) =
        Some (0, BmapState (b_inode m) 0 0 false (if decide (e = 0 ∧ n' = n) then v else plain_block s i n') s').
Proof.
  intros Hp Hn Hv. destruct (bmap_sets s i n v Hp Hn Hv) as (e & m & -> & He & Hp' & Hbs & Hcase).
  assert (max_blocks (b_state m) = max_blocks s) as Hmax by by rewrite /max_blocks Hbs. exists e, m. split; [done|].
  split; [done|]. split; [intros H0; rewrite decide_False // in Hcase; by destruct Hcase as (_ & ? & ?)|]. split.
  { intros x H0 Hx Hxm. destruct (decide (e = 0)); [by apply Hcase|]. destruct Hcase as (_ & _ & Hs). by apply Hs. }
  intros n' Hn'. destruct (bmap_finds _ _ n' 0 Hp') as (s' & -> & _); [by rewrite Hmax|]. exists s'. do 3 f_equal. clear He.
  destruct (decide (e = 0)) as [->|He].
  - destruct Hcase as [Hcase _]. rewrite Hcase //. destruct (decide (n' = n)) as [->|]; [by rewrite decide_True|by rewrite decide_False; [|tauto]].
  - rewrite decide_False; [|tauto]. destruct Hcase as (_ & Hi & Hs). unfold plain_block. rewrite Hi.
    rewrite Hbs. destruct (plain_limit s i Hp) as [Ha _]. rewrite !file_block_node; [|lia..].
    apply (node_ext _ Ha _ _ _ _ (plain_wf s i Hp)); [done|done|]. apply leaf_of_ok. split; [lia|apply max_blocks_span; lia].
Qed.
End theorems.

(** ** A file in memory: block 20, and no other *)
Definition demo_bmap_inode : list Z := set_i_block 0 20 (replicate 128 0).
Definition demo_bmap_world : mem_world := MemWorld demo_file_fs ∅ ∅ 100 ∅.

Lemma demo_bmap_node a rd p : 0 < a → valid a p →
  node a rd demo_bmap_inode p = if bool_decide (p = Place 0 0 0) then 20 else 0.
Proof.
  intros Ha (Hr & Hd & Hm). destruct p as [r d m]. cbn [n_root n_depth n_index] in *.
  assert (i_block r demo_bmap_inode = if bool_decide (r = 0) then 20 else 0) as Hi.
  { assert (Forall (λ r, i_block r demo_bmap_inode = if bool_decide (r = 0) then 20 else 0) (seqZ 0 15)) as HF
      by (apply (bool_decide_unpack _); by vm_compute).
    rewrite Forall_forall in HF. apply HF, elem_of_seqZ. lia. }
  unfold node. cbn [n_root n_depth n_index]. rewrite Hi. case_bool_decide as Hr0.
  - subst r. unfold height in Hd. assert (d = 0%nat) as -> by lia. cbn in Hm. assert (m = 0) as -> by lia.
    rewrite (bool_decide_eq_true_2 (Place 0 0 0 = _)) //.
  - rewrite (bool_decide_eq_false_2 (Place r d m = _)); [|by intros [= ? _ _]]. by destruct d.
Qed.

Lemma demo_bmap_plain : plain_file mw_content mw_used mw_area demo_bmap_world demo_bmap_inode.
Proof.
  assert (sv_blocksize demo_bmap_world = 1024) as Hb by done.
  constructor; [rewrite Hb; lia|by rewrite Hb| |by vm_compute|by vm_compute].
  rewrite Hb. change (1024 / 4) with 256. constructor.
  - apply set_le_bytes. by apply Forall_replicate.
  - by apply Nat.leb_le; vm_compute.
  - intros p Hp. rewrite demo_bmap_node //. case_bool_decide; [|done]. intros _. split; [done|]. by split.
  - intros p Hp Hl. rewrite demo_bmap_node //. case_bool_decide; [|done]. subst p. by destruct Hl.
  - intros p q Hp Hq. rewrite !demo_bmap_node //. by repeat case_bool_decide; subst.
Qed.

(** Block 300 is below the doubly indirect block: three blocks are added, and
    six sectors are counted. *)
Lemma ext2fs_bmap2_witness : ∃ m (l : list place),
  ext2fs_bmap2 true (Extent 0 0 0 0) 12 (Some demo_bmap_inode) BMAP_ALLOC 300 0 demo_bmap_world = Some (0, m) ∧
  b_phys m = plain_block mw_content (b_state m) (b_inode m) 300 ∧ b_alloc m = Z.of_nat (length l) ∧ length l = 3%nat ∧
  iblk_count demo_file_fs (b_inode m) = 6.
Proof.
  destruct (ext2fs_bmap2_correct mw_content mw_used mw_area (Extent 0 0 0 0) 12 demo_bmap_world demo_bmap_inode 300 0)
    as [_ (e & m & l & He & Hrest)]; [exact demo_bmap_plain|split; [done|by vm_compute]|exact (mem_invariant (same_units demo_file_fs))|].
  assert ((λ x, x.1) <$> ext2fs_bmap2 true (Extent 0 0 0 0) 12 (Some demo_bmap_inode) BMAP_ALLOC 300 0 demo_bmap_world = Some 0) as H0 by by vm_compute.
  assert ((λ x, b_alloc x.2) <$> ext2fs_bmap2 true (Extent 0 0 0 0) 12 (Some demo_bmap_inode) BMAP_ALLOC 300 0 demo_bmap_world = Some 3) as H3 by by vm_compute.
  rewrite He in H0, H3. cbn in H0, H3. injection H0 as ->. injection H3 as H3. cbn zeta in Hrest.
  destruct Hrest as (_ & _ & _ & Hl & _ & Hcase). destruct (decide (0 = 0)) as [_|?]; [|done].
  destruct Hcase as (Hp & _ & _ & _ & Hcount & _). rewrite -Hl H3 in Hcount.
  exists m, l. split; [done|]. split; [done|]. split; [done|]. split; [lia|].
  change (sv_fs demo_bmap_world) with demo_file_fs in Hcount. rewrite Hcount; vm_compute; reflexivity.
Defined.

(** Block 0 is replaced by block 30. *)
Lemma bmap_set_get_witness : ∃ m s',
  ext2fs_bmap2 true (Extent 0 0 0 0) 12 (Some demo_bmap_inode) BMAP_SET 0 30 demo_bmap_world = Some (0, m) ∧
  ext2fs_bmap2 true (Extent 0 0 0 0) 12 (Some (b_inode m)) 0 0 0 (b_state m) =
    Some (0, BmapState (b_inode m) 0 0 false 30 s').
Proof.
  destruct (bmap_set_get mw_content mw_used mw_area (Extent 0 0 0 0) 12 demo_bmap_world demo_bmap_inode 0 30)
    as (e & m & He & Hok & _ & _ & Hget); [exact demo_bmap_plain|split; [done|by vm_compute]| |].
  - right. split; [done|]. split; [done|]. split; [lia|]. intros p Hp. rewrite demo_bmap_node //. by case_bool_decide.
  - destruct (Hget 0) as (s' & Hs); [split; [done|by vm_compute]|].
    destruct (decide _) as [[Hd _]|_] in Hok; [exfalso; revert Hd; apply Nat.lt_irrefl|]. subst e.
    exists m, s'. split; [exact He|exact Hs].
Defined.
