(* ===== verification/Punch.v ===== *)
(** * Punch: giving back the blocks of a range of a file (punch.c)

    [ext2fs_punch] takes the blocks from [start] to [end_] out of the map of an
    inode and gives them back, for inodes with pointers (with the indirect blocks
    that get empty) and with extents.  The functions return their error, the
    inode and the state; the buffers are local. *)
From S2P Require Import Prelude.
From S2P Require Import Bytes.
From S2P Require Import Super.
From S2P Require Import Blknum.
From S2P Require Import Alloc.
From S2P Require Import IoManager.
From S2P Require Import BlockIter.
From S2P Require Import IBlock.
From S2P Require Import Services.
From S2P Require Import Extent.
From S2P Require Import Bmap.
#[local] Open Scope Z_scope.

Definition EXT4_MIN_INLINE_DATA_SIZE : Z := 60.
Definition BLK_T_MAX : Z := 2^32 - 1.

(** This function returns 1 if the specified block is all zeros. *)
Definition check_zero_block (buf : list Z) : bool := forallb (λ x, bool_decide (x = 0)) buf.

Section punch.
Context {W : Type} `{!Services W}.

(** ** Pointers *)

Definition read_ind_block (s : W) (blk : Z) : Z * list Z * W :=
  if flag (fs_flags (sv_fs s)) EXT2_FLAG_IMAGE_FILE && negb io_is_image
  then (0, replicate (Z.to_nat (sv_blocksize s)) 0, s)
  else read_blk s blk.
Definition write_ind_block (s : W) (blk : Z) (buf : list Z) : Z * W :=
  if flag (fs_flags (sv_fs s)) EXT2_FLAG_IMAGE_FILE then (0, s) else write_blk s blk buf.

(** What a call of [ind_punch] changes; the pointers are those of the inode from
    the [r]-th on ([Some r]) or those of the block in the buffer ([None]). *)
Record punch_state := PunchState {
  u_inode : list Z;
  u_buf : list Z;
  u_freed : Z;
  u_state : W;
}.
Definition ptr_at (w : option Z) (k : Z) (m : punch_state) : Z :=
  match w with Some r => i_block (r + k) (u_inode m) | None => block_nr k (u_buf m) end.
(** The block is given back: [*p = 0; freed++]. *)
Definition free_ptr (w : option Z) (k b : Z) (m : punch_state) : punch_state :=
  let s := sv_block_alloc_stats2 (u_state m) b (-1) in
  match w with
  | Some r => PunchState (set_i_block (r + k) 0 (u_inode m)) (u_buf m) (u_freed m + 1) s
  | None => PunchState (u_inode m) (set_block_nr k 0 (u_buf m)) (u_freed m + 1) s
  end.

(** The call for the level below: start, count, inode and state, to the buffer
    of the block with the rest. *)
Abbreviation sub_punch := (Z → Z → list Z → list Z → W → Z * list Z * list Z * W).

(** An indirect block: the error, and whether there is still something in it. *)
Definition punch_below (sub : sub_punch) (b offset start count : Z) (m : punch_state) : Z * bool * punch_state :=
  let '(e, buf, s) := read_ind_block (u_state m) b in
  if bool_decide (e ≠ 0) then (e, true, PunchState (u_inode m) (u_buf m) (u_freed m) s) else
  let start2 := if bool_decide (offset < start) then u32 (start - offset) else 0 in
  let '(e, i, buf, s) := sub start2 (u64 (count - offset)) (u_inode m) buf s in
  if bool_decide (e ≠ 0) then (e, true, PunchState i (u_buf m) (u_freed m) s) else
  let '(e, s) := write_ind_block s b buf in
  (e, negb (check_zero_block buf), PunchState i (u_buf m) (u_freed m) s).

Definition punch_step (sub : option sub_punch) (w : option Z) (k offset incr start count : Z) (m : punch_state) : Z * punch_state :=
  let b := ptr_at w k m in
  if bool_decide (b = 0) || bool_decide (u64 (offset + incr) ≤ start) then (0, m) else
  let '(e, keep, m) := match sub with Some sub => punch_below sub b offset start count m | None => (0, false, m) end in
  if bool_decide (e ≠ 0) then (e, m) else
  if keep then (0, m) else (0, free_ptr w k b m).

(** The loop over [n] pointers from the [k]-th on. *)
Fixpoint punch_loop (sub : option sub_punch) (w : option Z) (incr start count : Z) (n : nat) (k offset : Z) (m : punch_state) : Z * punch_state :=
  match n with
  | O => (0, m)
  | Datatypes.S n =>
      if bool_decide (u64 (start + count) ≤ offset) then (0, m) else
      let '(e, m) := punch_step sub w k offset incr start count m in
      if bool_decide (e ≠ 0) then (e, m) else
      punch_loop sub w incr start count n (k + 1) (u64 (offset + incr)) m
  end.

Definition punch_incr (s : W) (level : nat) : Z :=
  u64 (Z.shiftl 1 (u32 (u32 (EXT2_BLOCK_SIZE_BITS (sv_super s) - 2) * Z.of_nat level))).

Fixpoint ind_punch (level : nat) (w : option Z) (start count : Z) (max : nat) (inode buf : list Z) (s : W) : Z * list Z * list Z * W :=
  let sub := match level with
             | O => None
             | Datatypes.S level => Some (λ start2 count2 inode buf s,
                 ind_punch level None start2 count2 (Z.to_nat (Z.shiftr (sv_blocksize s) 2)) inode buf s)
             end in
  let '(e, m) := punch_loop sub w (punch_incr s level) start count max 0 0 (PunchState inode buf 0 s) in
  if bool_decide (e ≠ 0) then (e, u_inode m, u_buf m, u_state m) else
  let '(e, i) := ext2fs_iblk_sub_blocks (sv_fs (u_state m)) (u_inode m) (u_freed m) in
  (e, i, u_buf m, u_state m).

(** The levels from [level] on: [num] pointers of the inode from the [bp]-th on,
    for [max] blocks of the file. *)
Fixpoint punch_levels (n level : nat) (bp num max start count : Z) (inode : list Z) (s : W) : Z * list Z * W :=
  match n with
  | O => (0, inode, s)
  | Datatypes.S n =>
      let addr_per_block := Z.shiftr (u32 (sv_blocksize s)) 2 in
      let max' := u64 ((if bool_decide (level = 0%nat) then 1 else max) * addr_per_block) in
      if bool_decide (start < max) then
        let '(e, i, _, s) := ind_punch level (Some bp) start count (Z.to_nat num) inode [] s in
        if bool_decide (e ≠ 0) then (e, i, s) else
        if bool_decide (max < count)
        then punch_levels n (Datatypes.S level) (bp + num) 1 max' 0 (u32 (count - (max - start))) i s
        else (0, i, s)
      else punch_levels n (Datatypes.S level) (bp + num) 1 max' (start - max) count inode s
  end.

Context (mem_ok : bool).

(** Start and end are of 64 bits, the count of 32. *)
Definition ext2fs_punch_ind (start end_ : Z) (inode : list Z) (s : W) : Z * list Z * W :=
  if bool_decide (BLK_T_MAX < start) then (0, inode, s) else
  let count := if bool_decide (BLK_T_MAX ≤ end_) || bool_decide (BLK_T_MAX ≤ u64 (end_ - start + 1))
               then BLK_T_MAX - start else u32 (end_ - start + 1) in
  if negb mem_ok then (errno EXT2_ET_NO_MEMORY, inode, s) else
  punch_levels 4 0 0 EXT2_NDIR_BLOCKS EXT2_NDIR_BLOCKS start count inode s.

(** ** Extents *)
Abbreviation op := (act handle W).

(** Blocks, and the first blocks of clusters, are given back one by one. *)
Fixpoint free_run (n : nat) (b step : Z) (s : W) : W :=
  match n with O => s | Datatypes.S n => free_run n (u64 (b + step)) step (sv_block_alloc_stats2 s b (-1)) end.

(** The cluster of a block that is given back when no block of it is mapped any
    more: how many are given back. *)
Definition free_if_unmapped (lblk b : Z) : op Z :=
  h ← get_obj;
  s ← get_state;
  r ← lift_opt (ext2fs_map_cluster_block mem_ok s (h_ino h) (h_inode h) lblk);
  let '(e, pblk, i, s) := r in
  modify (set_inode i);;
  service_ (λ _, (e, s));;
  if bool_decide (pblk = 0) then service (λ s, (0, 1, sv_block_alloc_stats2 s b (-1))) else mret 0.

(** Free a range of blocks, respecting cluster boundaries. *)
Definition punch_extent_blocks (lfree_start free_start free_count : Z) : op Z :=
  s ← get_state;
  let ratio := EXT2FS_CLUSTER_RATIO (sv_fs s) in
  if bool_decide (ratio = 1) then service (λ s, (0, free_count, free_run (Z.to_nat free_count) free_start 1 s)) else
  let off := Z.land free_start (EXT2FS_CLUSTER_MASK (sv_fs s)) in
  let head := if bool_decide (off ≠ 0) then Z.min (u32 (ratio - off)) free_count else 0 in
  n1 ← (if bool_decide (off ≠ 0) then free_if_unmapped lfree_start free_start else mret 0);
  let middle := (free_count - head) / ratio in
  let start := u64 (free_start + head) in
  n2 ← service (λ s, (0, middle, free_run (Z.to_nat middle) start ratio s));
  n3 ← (if bool_decide (0 < (free_count - head) mod ratio)
        then free_if_unmapped (u64 (lfree_start + head + middle * ratio)) (u64 (start + middle * ratio)) else mret 0);
  mret (n1 + n2 + n3).

(** What becomes of an extent that is cut: what is left of it before or after the
    range, what is inserted after it, and the blocks that are given back. *)
Record cut := Cut { cut_left : ext2fs_extent; cut_new : option ext2fs_extent; cut_lfree : Z; cut_free : Z; cut_count : Z }.

(** Start of deleted region before extent; adjust beginning of extent. *)
Definition cut_begin (end_ next : Z) (x : ext2fs_extent) : cut :=
  let n := u32 (if bool_decide (end_ < next) then end_ - e_lblk x + 1 else e_len x) in
  Cut (Extent (u64 (e_pblk x + n)) (u64 (e_lblk x + n)) (u32 (e_len x - n)) (e_flags x)) None (e_lblk x) (e_pblk x) n.
(** End of deleted region after extent; adjust end of extent. *)
Definition cut_end (start : Z) (x : ext2fs_extent) : cut :=
  let newlen := u32 (start - e_lblk x) in
  Cut (with_len newlen x) None (u64 (e_lblk x + newlen)) (u64 (e_pblk x + newlen)) (u32 (e_len x - newlen)).
(** The hard case; we need to split the extent. *)
Definition cut_middle (start end_ next : Z) (x : ext2fs_extent) : cut :=
  let newlen := u32 (start - e_lblk x) in
  Cut (with_len newlen x)
    (Some (Extent (u64 (e_pblk x + (end_ + 1 - e_lblk x))) (u64 (end_ + 1)) (u32 (next - end_ - 1)) (e_flags x)))
    (u64 (e_lblk x + newlen)) (u64 (e_pblk x + newlen)) (u32 (end_ - start + 1)).

(** The end of the range is before the extent ([None]), the extent is before the
    range ([Some None]), or it is cut. *)
Definition cut_extent (start end_ : Z) (x : ext2fs_extent) : option (option cut) :=
  let next := u64 (e_lblk x + e_len x) in
  if bool_decide (start ≤ e_lblk x) then
    if bool_decide (end_ < e_lblk x) then None else Some (Some (cut_begin end_ next x))
  else if bool_decide (u64 (next - 1) ≤ end_) then
    if bool_decide (next ≤ start) then Some None else Some (Some (cut_end start x))
  else Some (Some (cut_middle start end_ next x)).

(** The extent is taken out; the handle comes to the one after it. *)
Definition delete_extent : op unit :=
  x ← get mem_ok EXT2_EXTENT_CURRENT;
  let old_lblk := e_lblk x in
  r ← attempt (get mem_ok EXT2_EXTENT_NEXT_LEAF);
  next_lblk ← match r with
              | inl e => if bool_decide (e = EXT2_ET_EXTENT_NO_NEXT) then mret old_lblk else err e
              | inr x => mret (e_lblk x)
              end;
  ext2fs_extent_goto mem_ok old_lblk;;
  ext2fs_extent_delete mem_ok 0;;
  r ← attempt (ext2fs_extent_fix_parents mem_ok);
  match r with inl e => when (bool_decide (e ≠ EXT2_ET_NO_CURRENT_NODE)) e | inr _ => mret tt end;;
  attempt (ext2fs_extent_goto mem_ok next_lblk);;
  mret tt.

(** The extent is cut, with what is next. *)
Definition apply_cut (c : cut) : op Z :=
  match cut_new c with
  | Some x => ext2fs_extent_insert mem_ok EXT2_EXTENT_INSERT_AFTER x;;
              ext2fs_extent_fix_parents mem_ok;;
              ext2fs_extent_goto mem_ok (e_lblk (cut_left c))
  | None => mret tt
  end;;
  if bool_decide (e_len (cut_left c) ≠ 0)
  then ext2fs_extent_replace (cut_left c);; ext2fs_extent_fix_parents mem_ok;; mret EXT2_EXTENT_NEXT_LEAF
  else delete_extent;; mret EXT2_EXTENT_CURRENT.

(** The loop over the extents: how many blocks are given back. *)
Fixpoint punch_extent_loop (fuel : nat) (start end_ : Z) (x : ext2fs_extent) (freed : Z) : op Z :=
  match fuel with
  | O => λ _ _, None
  | Datatypes.S fuel =>
      match cut_extent start end_ x with
      | None => mret freed
      | Some c =>
          r ← match c with
              | None => mret (EXT2_EXTENT_NEXT_LEAF, 0)
              | Some c => o ← apply_cut c; n ← punch_extent_blocks (cut_lfree c) (cut_free c) (cut_count c); mret (o, n)
              end;
          let '(o, n) := r in
          x ← attempt (get mem_ok o);
          match x with
          | inl e => if bool_decide (e = EXT2_ET_EXTENT_NO_NEXT ∨ e = EXT2_ET_NO_CURRENT_NODE) then mret (freed + n) else err e
          | inr x => punch_extent_loop fuel start end_ x (freed + n)
          end
      end
  end.

Definition punch_extents (fuel : nat) (start end_ : Z) : op unit :=
  attempt (ext2fs_extent_goto mem_ok start);;
  r ← attempt (get mem_ok EXT2_EXTENT_CURRENT);
  match r with
  | inl e => when (bool_decide (e ≠ EXT2_ET_NO_CURRENT_NODE)) e
  | inr x =>
      freed ← punch_extent_loop fuel start end_ x 0;
      h ← get_obj;
      s ← get_state;
      let '(e, i) := ext2fs_iblk_sub_blocks (sv_fs s) (h_inode h) freed in
      modify (set_inode i);;
      checked e
  end.

Definition ext2fs_punch_extent (fuel : nat) (ino start end_ : Z) (inode : list Z) (s : W) : option (Z * list Z * W) :=
  '(e, h) ← ext2fs_extent_open2 mem_ok s ino (Some inode);
  if bool_decide (e ≠ 0) then Some (e, h_inode h, s) else
  '(r, h, s) ← punch_extents fuel start end_ h s;
  Some (match r with inl e => e | inr _ => 0 end, h_inode h, s).

(** ** [ext2fs_punch] *)
Context (ext2fs_inline_data_ea_remove : W → Z → Z * W).

Definition ext2fs_punch_inline_data (ino start : Z) (inode : list Z) (s : W) : Z * list Z * W :=
  if bool_decide (0 < start) then (0, inode, s) else
  let i := set32 4 0 (set_i_block_bytes (replicate (Z.to_nat EXT4_MIN_INLINE_DATA_SIZE) 0) inode) in
  let '(e, s) := sv_write_inode s ino i in
  if bool_decide (e ≠ 0) then (e, i, s) else
  let '(e, s) := ext2fs_inline_data_ea_remove s ino in (e, i, s).

(** Deallocate all logical blocks starting at start to end, inclusive. *)
Definition ext2fs_punch (fuel : nat) (s : W) (ino : Z) (inode : option (list Z)) (start end_ : Z) : option (Z * list Z * W) :=
  let '(e, i) := match inode with Some i => (E_OK, i) | None => sv_read_inode s ino end in
  if bool_decide (end_ < start) then Some (errno EINVAL, i, s) else
  if bool_decide (e ≠ E_OK) then Some (errno e, i, s) else
  if flag (i_flags i) EXT4_INLINE_DATA_FL then Some (ext2fs_punch_inline_data ino start i s) else
  '(e, i, s) ← (if flag (i_flags i) EXT4_EXTENTS_FL then ext2fs_punch_extent fuel ino start end_ i s
                else Some (ext2fs_punch_ind start end_ i s));
  if bool_decide (e ≠ 0) then Some (e, i, s) else
  let '(e, s) := sv_write_inode s ino i in Some (e, i, s).
End punch.
Arguments punch_state W : clear implicits.
