(* ===== verification/PunchProps.v ===== *)
(** * PunchProps: truncating a file gives back its blocks

    For a file with pointers, in a file system with blocks of up to 4 KiB:
    [ext2fs_punch] from a block on to the end unmaps the blocks from there on and
    no others, gives back exactly the blocks that are not mapped any more, with the
    indirect blocks that get empty, and writes no block but indirect blocks of the
    file.  While it is below an indirect block, that block is in a buffer: the
    file is then the map with the buffers in place of the blocks ([rd] below).
    Other ranges come out differently; examples show it. *)
From S2P Require Import Prelude.
From S2P Require Import Bytes.
From S2P Require Import Super.
From S2P Require Import Blknum.
From S2P Require Import IoManager.
From S2P Require Import BlockIter.
From S2P Require Import FileMap.
From S2P Require Import IBlock.
From S2P Require Import Services.
From S2P Require Import Extent.
From S2P Require Import Bmap.
From S2P Require Import BmapProps.
From S2P Require Import Punch.
#[local] Open Scope Z_scope.

(** ** Places below a place *)
Section places.
Context (a : Z) (Ha : 0 < a).

(** The levels below a place, the number of its first block in the tree, and the
    places below it. *)
Definition level (p : place) : nat := (height (n_root p) - n_depth p)%nat.
Definition first (p : place) : Z := n_index p * span a (level p).
Definition under (p q : place) : Prop :=
  n_root q = n_root p ∧ (n_depth p < n_depth q)%nat ∧ n_index q / span a (n_depth q - n_depth p) = n_index p.

Lemma span_add d e : span a (d + e) = span a d * span a e.
Proof. induction d as [|d IH]; cbn [Nat.add span]; [lia|]. rewrite IH. lia. Qed.
Lemma span_mono d e : (d ≤ e)%nat → span a d ≤ span a e.
Proof. intros H. replace e with (d + (e - d))%nat by lia. rewrite span_add. pose proof (span_pos a d Ha). pose proof (span_pos a (e - d) Ha). nia. Qed.

Lemma leaf_level p : valid a p → is_leaf p ↔ level p = 0%nat.
Proof. intros (_ & H & _). unfold is_leaf, level. lia. Qed.
Lemma level_child p j n : level p = S n → level (child a p j) = n.
Proof. unfold level, child. cbn. lia. Qed.
Lemma level_not_leaf p n : level p = S n → ¬ is_leaf p.
Proof. unfold level, is_leaf. lia. Qed.
Lemma first_child p j n : level p = S n → first (child a p j) = first p + j * span a n.
Proof. intros H. unfold first. rewrite H (level_child p j n H). cbn [child n_index span]. lia. Qed.

(** The places below: the children and what is below them. *)
Lemma under_child p q : valid a q → under p q ↔ ∃ j, 0 ≤ j < a ∧ (q = child a p j ∨ under (child a p j) q).
Proof.
  destruct p as [r d m], q as [r' d' m']. intros (_ & _ & Hm'). unfold under, child. cbn [n_root n_depth n_index] in *. split.
  - intros (-> & Hd & Hm). exists (m' / span a (d' - S d) - m * a).
    assert (d' - d = S (d' - S d))%nat as Hdd by lia. rewrite Hdd in Hm. cbn [span] in Hm. pose proof (span_pos a (d' - S d) Ha) as Hs.
    assert (m' / span a (d' - S d) / a = m) as Hq by (rewrite Z.div_div; [|lia..]; by rewrite Z.mul_comm).
    set (x := m' / span a (d' - S d)) in *. pose proof (Z.div_mod x a). pose proof (Z.mod_pos_bound x a).
    split; [rewrite -Hq; lia|]. replace (m * a + (x - m * a)) with x by lia.
    destruct (decide (d' = S d)) as [->|Hne]; [left|right; split; [done|split; [lia|done]]].
    unfold x. rewrite Nat.sub_diag. cbn [span]. by rewrite Z.div_1_r.
  - intros (j & Hj & [[= -> -> ->]|(-> & Hd & Hm)]).
    + split; [done|]. split; [lia|]. replace (S d - d)%nat with 1%nat by lia. cbn [span]. rewrite Z.mul_1_r Z.div_add_l; [|lia].
      rewrite Z.div_small; lia.
    + split; [done|]. split; [lia|]. replace (d' - d)%nat with (S (d' - S d)) by lia. cbn [span]. pose proof (span_pos a (d' - S d) Ha).
      rewrite Z.mul_comm -Z.div_div; [|lia..]. rewrite Hm Z.div_add_l; [|lia]. rewrite Z.div_small; lia.
Qed.

Lemma under_first p q : valid a q → under p q → first p ≤ first q < first p + span a (level p) ∧ first q + span a (level q) ≤ first p + span a (level p).
Proof.
  destruct p as [r d m], q as [r' d' m']. intros (_ & Hv & Hm') (Hr & Hd & Hm). unfold first, level. cbn [n_root n_depth n_index] in *. subst r'.
  replace (height r - d)%nat with ((d' - d) + (height r - d'))%nat by lia. rewrite span_add.
  pose proof (span_pos a (d' - d) Ha) as Hs1. pose proof (span_pos a (height r - d') Ha) as Hs2.
  pose proof (Z.div_mod m' (span a (d' - d))). pose proof (Z.mod_pos_bound m' (span a (d' - d)) Hs1). rewrite Hm in H. nia.
Qed.

Lemma under_trans p q q' : valid a q' → under p q → under q q' → under p q'.
Proof.
  destruct p as [r d m], q as [r' d' m'], q' as [r'' d'' m'']. unfold under. cbn [n_root n_depth n_index].
  intros (_ & _ & H0) (-> & Hd & Hm) (-> & Hd' & Hm'). split; [done|]. split; [lia|].
  replace (d'' - d)%nat with ((d'' - d') + (d' - d))%nat by lia. rewrite span_add.
  pose proof (span_pos a (d'' - d') Ha). pose proof (span_pos a (d' - d) Ha). rewrite -Z.div_div; [|lia..]. by rewrite Hm' Hm.
Qed.

Lemma under_irrefl p : ¬ under p p.
Proof. intros (_ & H & _). lia. Qed.
Lemma child_under p j : 0 ≤ j < a → valid a (child a p j) → under p (child a p j).
Proof. intros Hj Hv. apply under_child; [done|]. exists j. auto. Qed.

(** Below a hole there are holes. *)
Lemma under_hole rd i p q : valid a q → under p q → node a rd i p = 0 → node a rd i q = 0.
Proof.
  intros Hq Hu H0. remember (n_depth q - S (n_depth p))%nat as n eqn:Hn. revert q Hq Hu Hn. induction n as [|n IH]; intros q Hq Hu Hn.
  - pose proof Hu as (Hr & Hd & Hm). rewrite node_parent //; [|lia]. cbv zeta. assert (parent a q = p) as ->; [|by rewrite bool_decide_eq_true_2].
    destruct p as [r d m], q as [r' d' m']. unfold parent. cbn [n_root n_depth n_index] in *. replace (d' - d)%nat with 1%nat in Hm by lia.
    cbn [span] in Hm. rewrite Z.mul_1_r in Hm. f_equal; [done|lia|done].
  - pose proof Hu as (Hr & Hd & Hm). rewrite node_parent //; [|lia]. cbv zeta. rewrite IH; [done|by apply valid_parent| |].
    + destruct p as [r d m], q as [r' d' m']. unfold under, parent. cbn [n_root n_depth n_index] in *. split; [done|]. split; [lia|].
      replace (d' - d)%nat with (S (Nat.pred d' - d)) in Hm by lia. cbn [span] in Hm. pose proof (span_pos a (Nat.pred d' - d) Ha).
      rewrite -Z.div_div in Hm; lia.
    + unfold parent. cbn. lia.
Qed.

(** Different pointers have nothing below them in common. *)
Lemma under_child_inj p j j' q : 0 ≤ j < a → 0 ≤ j' < a → (q = child a p j ∨ under (child a p j) q) → (q = child a p j' ∨ under (child a p j') q) →
  valid a q → j = j'.
Proof.
  intros Hj Hj' Hq Hq' Hv.
  assert (∀ k, 0 ≤ k < a → (q = child a p k ∨ under (child a p k) q) → n_index q / span a (n_depth q - S (n_depth p)) = n_index p * a + k) as H.
  { intros k Hk [->|(_ & _ & H)]; [|done]. cbn. rewrite Nat.sub_diag. cbn. by rewrite Z.div_1_r. }
  pose proof (H j Hj Hq). pose proof (H j' Hj' Hq'). lia.
Qed.
End places.

(** ** Taking blocks out of a file *)
Section shrink.
Context (a : Z) (Ha : 256 ≤ a ≤ 16384) (area : Z → Prop).

(** Blocks of the places [D] are taken out of the file; indirect blocks of the
    places [T] are rewritten. *)
Definition freed (rd : Z → list Z) (i : list Z) (rd' : Z → list Z) (i' : list Z) (x : Z) : Prop :=
  x ≠ 0 ∧ ∃ p, valid a p ∧ node a rd i p = x ∧ node a rd' i' p = 0.

Record shrinks (u : Z → Prop) (rd : Z → list Z) (i : list Z) (u' : Z → Prop) (rd' : Z → list Z) (i' : list Z) (D T : place → Prop) : Prop := Shrinks {
  h_wf : file_wf a area u' rd' i';
  h_same p : valid a p → ¬ D p → node a rd' i' p = node a rd i p;
  h_zero p : valid a p → node a rd' i' p = node a rd i p ∨ node a rd' i' p = 0;
  h_used x : u' x ↔ u x ∧ ¬ freed rd i rd' i' x;
  h_read x : x ≠ 0 → (∀ p, valid a p → ¬ is_leaf p → T p → node a rd i p ≠ x) → rd' x = rd x;
  h_like : inode_like i i';
}.

Lemma shrinks_refl u rd i D T : file_wf a area u rd i → shrinks u rd i u rd i D T.
Proof.
  intros Hw. constructor; [done|done|by left| |done|done]. intros x. split; [|tauto]. intros Hx. split; [done|]. intros (H0 & p & _ & <- & H). done.
Qed.

Lemma shrinks_trans u rd i u1 rd1 i1 u2 rd2 i2 D T : shrinks u rd i u1 rd1 i1 D T → shrinks u1 rd1 i1 u2 rd2 i2 D T → shrinks u rd i u2 rd2 i2 D T.
Proof.
  intros H1 H2. constructor.
  - apply H2.
  - intros p Hp Hd. rewrite (h_same _ _ _ _ _ _ _ _ H2) //. by apply H1.
  - intros p Hp. destruct (h_zero _ _ _ _ _ _ _ _ H2 p Hp) as [-> | ->]; [by apply H1|by right].
  - intros x. rewrite (h_used _ _ _ _ _ _ _ _ H2) (h_used _ _ _ _ _ _ _ _ H1). split.
    + intros [[Hu Hf1] Hf2]. split; [done|]. intros (H0 & p & Hp & Hx & Hz).
      destruct (h_zero _ _ _ _ _ _ _ _ H1 p Hp) as [E|E]; [apply Hf2|apply Hf1]; (split; [done|]); exists p; (split; [done|]); [by rewrite E|done].
    + intros [Hu Hf]. split; [split; [done|]|]; intros (H0 & p & Hp & Hx & Hz); apply Hf; (split; [done|]); exists p; (split; [done|]).
      * split; [done|]. destruct (h_zero _ _ _ _ _ _ _ _ H2 p Hp) as [E|E]; [by rewrite E|done].
      * split; [|done]. destruct (h_zero _ _ _ _ _ _ _ _ H1 p Hp) as [E|E]; [by rewrite -E|by rewrite E in Hx; subst x].
  - intros x H0 Hx. rewrite (h_read _ _ _ _ _ _ _ _ H2) //; [by apply H1|]. intros p Hp Hl HT Hpx.
    destruct (h_zero _ _ _ _ _ _ _ _ H1 p Hp) as [E|E]; [by apply (Hx p); [..|rewrite -E]|by rewrite E in Hpx; subst x].
  - eapply inode_like_trans; [apply H1|apply H2].
Qed.

Lemma shrinks_weaken u rd i u' rd' i' (D T D' T' : place → Prop) : (∀ p, valid a p → D p → D' p) → (∀ p, valid a p → T p → T' p) → shrinks u rd i u' rd' i' D T → shrinks u rd i u' rd' i' D' T'.
Proof.
  intros Hd Ht [? Hsame ? ? Hread ?]. constructor; [done| |done|done| |done]; [intros p Hp HD; apply Hsame; auto|intros x H0 Hx; apply Hread; auto].
Qed.

(** A pointer with nothing below it is cleared, and its block given back. *)
Lemma shrinks_clear (u u' : Z → Prop) rd i rd' i' p : file_wf a area u rd i → valid a p → node a rd i p ≠ 0 →
  (is_leaf p ∨ ∀ j, 0 ≤ j < a → node a rd i (child a p j) = 0) →
  (∀ x, u' x ↔ u x ∧ x ≠ node a rd i p) → is_bytes i' → (128 ≤ length i')%nat → inode_like i i' →
  (∀ r, 0 ≤ r < 15 → p ≠ Place r 0 0 → i_block r i' = i_block r i) → (n_depth p = 0%nat → i_block (n_root p) i' = 0) →
  ((0 < n_depth p)%nat → node a rd i (parent a p) ≠ 0 ∧
    rd' (node a rd i (parent a p)) = set_block_nr (n_index p mod a) 0 (rd (node a rd i (parent a p)))) →
  (∀ x, ((0 < n_depth p)%nat → x ≠ node a rd i (parent a p)) → rd' x = rd x) →
  shrinks u rd i u' rd' i' (λ q, q = p) (λ q, (0 < n_depth p)%nat ∧ q = parent a p) ∧ node a rd' i' p = 0.
Proof.
  intros Hw Hp H0 Hbelow Hu Hby Hl Hlike Hroot Hroot0 Hpar Hrest. pose proof Hw as [_ _ Hus Hno Hinj].
  assert ((0 < n_depth p)%nat → valid a (parent a p) ∧ ¬ is_leaf (parent a p)) as Hpp.
  { intros Hd. split; [apply valid_parent; [lia|done]|]. destruct Hp as (_ & Hh & _). unfold is_leaf, parent. cbn. lia. }
  assert (∀ q, valid a q → node a rd' i' q = if bool_decide (q = p) then 0 else node a rd i q) as Hn.
  { apply (set_pointer a ltac:(lia) area u); [done..| | |].
    - intros Hd. destruct (Hpar Hd) as [H1 Hrd]. split; [done|]. intros j Hj. unfold ptr. rewrite Hrd. destruct (Hpp Hd) as [Hv Hlf].
      destruct (Hno _ Hv Hlf H1) as [_ Hlen]. apply (block_nr_set a); first [done|lia|apply Z.mod_pos_bound; lia].
    - intros q Hq Hql Hq0 Hqp Hqq. apply Hrest. intros Hd Heq. destruct (Hpp Hd) as [Hv _]. by apply (Hqp Hd), Hinj.
    - destruct Hbelow as [?|Hb]; [by left|right]. split; [done|by left]. }
  assert (∀ q, valid a q → q ≠ p → node a rd i q ≠ 0 → node a rd i q ≠ node a rd i p) as Hne.
  { intros q Hq Hqp Hq0 Heq. by apply Hqp, Hinj. }
  split; [constructor|].
  - constructor; [done..| | |].
    + intros q Hq. rewrite Hn //. case_bool_decide as Hqp; [done|]. intros Hq0. destruct (Hus q Hq Hq0) as (? & ? & ?).
      split; [done|]. split; [|done]. apply Hu. split; [done|by apply Hne].
    + intros q Hq Hql. rewrite Hn //. case_bool_decide as Hqp; [done|]. intros Hq0. destruct (Hno q Hq Hql Hq0) as [Hb Hlen].
      destruct (decide ((0 < n_depth p)%nat ∧ node a rd i q = node a rd i (parent a p))) as [[Hd Heq]|Hno'].
      * destruct (Hpar Hd) as [_ Hrd]. rewrite Heq Hrd -Heq. apply set_block_nr_bytes; first [done|lia|apply Z.mod_pos_bound; lia].
      * rewrite Hrest //. intros Hd Heq. by apply Hno'.
    + intros q q' Hq Hq'. rewrite !Hn //. case_bool_decide as E; case_bool_decide as E'; try done. by apply Hinj.
  - intros q Hq Hqp. by rewrite Hn // bool_decide_eq_false_2.
  - intros q Hq. rewrite Hn //. case_bool_decide; auto.
  - intros x. rewrite Hu. split; intros [Hx Hf]; (split; [done|]).
    + intros (Hx0 & q & Hq & Hqx & Hqz). rewrite Hn // in Hqz. case_bool_decide as E; [subst q; by apply Hf|]. by rewrite Hqz in Hqx; subst x.
    + intros ->. apply Hf. split; [done|]. exists p. split; [done|]. split; [done|]. by rewrite Hn // bool_decide_eq_true_2.
  - intros x Hx Hxt. apply Hrest. intros Hd ->. destruct (Hpp Hd) as [Hv Hlf]. by apply (Hxt (parent a p)).
  - done.
  - by rewrite Hn // bool_decide_eq_true_2.
Qed.

(** Another inode with the same pointers. *)
Lemma shrinks_inode u rd i i' D T : file_wf a area u rd i → is_bytes i' → (128 ≤ length i')%nat → inode_like i i' →
  (∀ r, 0 ≤ r < 15 → i_block r i' = i_block r i) → shrinks u rd i u rd i' D T ∧ ∀ p, valid a p → node a rd i' p = node a rd i p.
Proof.
  intros Hw Hby Hl Hlike Hib. assert (∀ p, valid a p → node a rd i' p = node a rd i p) as Hn.
  { intros p Hp. unfold node. by rewrite Hib; [|apply Hp]. }
  split; [|done]. destruct Hw as [_ _ Hus Hno Hinj]. constructor; [constructor; [done|done|..]|by intros p Hp _; apply Hn|by intros p Hp; left; apply Hn| |done|done].
  - intros p Hp. rewrite Hn //. by apply Hus.
  - intros p Hp. rewrite Hn //. by apply Hno.
  - intros p q Hp Hq. rewrite !Hn //. by apply Hinj.
  - intros x. split; [|tauto]. intros Hx. split; [done|]. intros (H0 & p & Hp & Hpx & Hpz). rewrite Hn // Hpx in Hpz. done.
Qed.
End shrink.

(** ** How many blocks a file has *)
#[export] Instance place_countable : Countable place.
Proof. by apply (inj_countable' (λ p, (n_root p, n_depth p, n_index p)) (λ '(r, d, m), Place r d m)); intros []. Qed.

Section total.
Context (a : Z) (Ha : 0 < a).

(** All places, and those with a block. *)
Definition places : gset place :=
  list_to_set (seqZ 0 15 ≫= λ r, seq 0 (S (height r)) ≫= λ d, (λ m, Place r d m) <$> seqZ 0 (span a d)).
Definition mapped_places (rd : Z → list Z) (i : list Z) : gset place := filter (λ p, node a rd i p ≠ 0) places.
Definition total (rd : Z → list Z) (i : list Z) : Z := Z.of_nat (size (mapped_places rd i)).

Lemma elem_of_places p : p ∈ places ↔ valid a p.
Proof.
  unfold places, valid. rewrite elem_of_list_to_set list_elem_of_bind. destruct p as [r d m]. cbn [n_root n_depth n_index]. split.
  - intros (r' & Hr & Hr'). rewrite list_elem_of_bind in Hr. destruct Hr as (d' & Hd & Hd'). rewrite list_elem_of_fmap in Hd.
    destruct Hd as (m' & [= -> -> ->] & Hm). rewrite elem_of_seqZ in Hr'. rewrite elem_of_seqZ in Hm. rewrite elem_of_seq in Hd'. lia.
  - intros (Hr & Hd & Hm). exists r. rewrite elem_of_seqZ list_elem_of_bind. split; [|lia]. exists d. rewrite elem_of_seq list_elem_of_fmap.
    split; [|lia]. exists m. by rewrite elem_of_seqZ.
Qed.

Lemma elem_of_mapped_places rd i p : p ∈ mapped_places rd i ↔ valid a p ∧ node a rd i p ≠ 0.
Proof. unfold mapped_places. rewrite elem_of_filter elem_of_places. tauto. Qed.

Lemma total_same rd i rd' i' : (∀ p, valid a p → node a rd' i' p = node a rd i p) → total rd' i' = total rd i.
Proof.
  intros H. unfold total. do 2 f_equal. apply set_eq. intros p. rewrite !elem_of_mapped_places. split; intros [Hp ?]; (split; [done|]); [by rewrite -H|by rewrite H].
Qed.

Lemma total_clear rd i rd' i' p : valid a p → node a rd i p ≠ 0 → node a rd' i' p = 0 →
  (∀ q, valid a q → q ≠ p → node a rd' i' q = node a rd i q) → total rd i = total rd' i' + 1.
Proof.
  intros Hp H0 Hz Hq. unfold total. assert (mapped_places rd i = {[ p ]} ∪ mapped_places rd' i') as ->.
  { apply set_eq. intros q. rewrite elem_of_union elem_of_singleton !elem_of_mapped_places. destruct (decide (q = p)) as [->|Hne]; [tauto|].
    split; [intros [Hv ?]; right; split; [done|by rewrite Hq]|intros [?|[Hv Hn]]; [done|]; split; [done|by rewrite -Hq]]. }
  rewrite size_union; [rewrite size_singleton; lia|]. apply disjoint_singleton_l. rewrite elem_of_mapped_places. tauto.
Qed.

(** The blocks that are not mapped any more. *)
Lemma total_freed u area rd i rd' i' : file_wf a area u rd i → (∀ p, valid a p → node a rd' i' p = node a rd i p ∨ node a rd' i' p = 0) →
  ∃ l : list Z, NoDup l ∧ (∀ x, x ∈ l ↔ freed a rd i rd' i' x) ∧ total rd i = total rd' i' + Z.of_nat (length l).
Proof.
  intros Hw Hz. set (D := mapped_places rd i ∖ mapped_places rd' i').
  assert (∀ p, p ∈ D ↔ valid a p ∧ node a rd i p ≠ 0 ∧ node a rd' i' p = 0) as HD.
  { intros p. unfold D. rewrite elem_of_difference !elem_of_mapped_places. destruct (decide (node a rd' i' p = 0)); tauto. }
  clearbody D. exists (node a rd i <$> elements D). split; [|split].
  - apply NoDup_fmap_2_strong; [|apply NoDup_elements]. intros p q. rewrite !elem_of_elements !HD. intros (Hp & H0 & _) (Hq & _) E. by apply (fw_inj _ _ _ _ _ Hw).
  - intros x. rewrite list_elem_of_fmap. unfold freed. split.
    + intros (p & -> & Hp%elem_of_elements%HD). split; [tauto|]. exists p. tauto.
    + intros (H0 & p & Hp & <- & Hpz). exists p. split; [done|]. by rewrite elem_of_elements HD.
  - rewrite length_fmap. change (length (elements D)) with (size D). unfold total. assert (mapped_places rd i = D ∪ mapped_places rd' i') as ->; [|rewrite size_union; [lia|]; apply elem_of_disjoint; intros p (_ & _ & Hz0)%HD [_ ?]%elem_of_mapped_places; done].
    apply set_eq. intros p. rewrite elem_of_union HD !elem_of_mapped_places. destruct (decide (node a rd' i' p = 0)) as [E|E]; [tauto|].
    split; [tauto|]. intros [?|[Hp _]]; [tauto|]. split; [done|]. destruct (Hz p Hp) as [<-|?]; tauto.
Qed.
End total.

(** ** Blocks of zeros *)
Lemma le_decode_zero l : is_bytes l → le_decode l = 0 → Forall (λ b, b = 0) l.
Proof.
  induction 1 as [|b l Hb Hl IH]; cbn [le_decode]; intros H0; constructor; pose proof (le_decode_range l Hl); [lia|]. apply IH. lia.
Qed.

Lemma check_zero_block_zeros buf : check_zero_block buf = true ↔ Forall (λ x, x = 0) buf.
Proof.
  unfold check_zero_block. induction buf as [|x buf IH]; cbn [forallb]; [by split|]. rewrite andb_true_iff bool_decide_eq_true IH Forall_cons. done.
Qed.

Lemma check_zero_pointers a buf : is_bytes buf → Z.of_nat (length buf) = 4 * a →
  check_zero_block buf = true ↔ ∀ j, 0 ≤ j < a → block_nr j buf = 0.
Proof.
  intros Hb Hl. rewrite check_zero_block_zeros. split.
  - intros H j Hj. unfold block_nr, get_le.
    assert (Forall (λ x, x = 0) (take 4 (drop (Z.to_nat (4 * j)) buf))) as H0 by by apply Forall_take, Forall_drop.
    revert H0. generalize (take 4 (drop (Z.to_nat (4 * j)) buf)). intros l. induction 1 as [|x l -> _ IH]; [done|]. cbn [le_decode]. by rewrite IH.
  - intros H. apply Forall_lookup. intros k x Hx. pose proof (lookup_lt_Some _ _ _ Hx) as Hk. assert (0 ≤ Z.of_nat k / 4 < a) as Hj.
    { split; [apply Z.div_pos; lia|]. apply Z.div_lt_upper_bound; lia. }
    specialize (H _ Hj). unfold block_nr, get_le in H. apply le_decode_zero in H; [|by apply Forall_take, Forall_drop].
    rewrite Forall_lookup in H. apply (H (Z.to_nat (Z.of_nat k mod 4))). pose proof (Z.div_mod (Z.of_nat k) 4). pose proof (Z.mod_pos_bound (Z.of_nat k) 4).
    rewrite lookup_take_lt; [|lia]. rewrite lookup_drop. replace (_ + _)%nat with k by lia. done.
Qed.

(** ** Truncation *)
Section truncate.
Context {W : Type} `{!Services W} (content : W → Z → list Z) (used : W → Z → Prop) (area : Z → Prop).
Context `{!Serves content used area} `{!Frees content used area} (a : Z) (Ha : 256 ≤ a ≤ 1024).
(** The file system as it is counted in: blocks of [4 * a] bytes. *)
Context (fs0 : ext2_filsys) (Hbs0 : fs_blocksize fs0 = 4 * a) (Hratio : 0 ≤ EXT2FS_CLUSTER_RATIO fs0 < 2^31).

(** Not an image, the super block has the size of the blocks, and blocks are
    counted as in [fs0]. *)
Definition plain_fs (s : W) : Prop :=
  flag (fs_flags (sv_fs s)) EXT2_FLAG_IMAGE_FILE = false ∧ sv_blocksize s = 2^EXT2_BLOCK_SIZE_BITS (sv_super s) ∧
  same_units fs0 (sv_fs s).
Context `{!Invariant plain_fs}.

Record stays (s s' : W) : Prop := Stays {
  st_fs : plain_fs s → plain_fs s';
  st_blocksize : sv_blocksize s' = sv_blocksize s;
  st_inode ino : sv_read_inode s' ino = sv_read_inode s ino;
}.
Lemma stays_refl s : stays s s.
Proof. by constructor. Qed.
Lemma stays_trans s s1 s2 : stays s s1 → stays s1 s2 → stays s s2.
Proof. intros [H1 H2 H3] [H1' H2' H3']. constructor; [auto|congruence|]. intros ino. by rewrite H3' H3. Qed.

(** The device has the blocks of [rd], but for those in buffers. *)
Definition agrees (s : W) (rd : Z → list Z) (F : Z → Prop) : Prop := ∀ x, area x → x ≠ 0 → ¬ F x → content s x = rd x.

Lemma read_ind_ok s b : plain_fs s → area b → b < 2^32 →
  ∃ s', read_ind_block s b = (0, content s b, s') ∧ same_blocks content area s s' ∧ (∀ x, used s' x ↔ used s x) ∧ stays s s'.
Proof.
  intros Hp Hb Hlt. unfold read_ind_block. rewrite (proj1 Hp). cbn [andb]. destruct (sv_read content used area s b Hb Hlt) as (s' & E & Hs & [Hu Hi Hbs]).
  exists s'. split; [done|]. split; [done|]. split; [done|]. constructor; [|done|done]. intros H. pose proof (inv_read s b H) as H'. by rewrite E in H'.
Qed.

Lemma write_ind_ok s b buf : plain_fs s → area b → b < 2^32 →
  ∃ s', write_ind_block s b buf = (0, s') ∧ (∀ x, area x → content s' x = if decide (x = b) then buf else content s x) ∧
    (∀ x, used s' x ↔ used s x) ∧ stays s s'.
Proof.
  intros Hp Hb Hlt. unfold write_ind_block. rewrite (proj1 Hp). destruct (sv_write content used area s b buf Hb Hlt) as (s' & E & [Hu Hi Hbs] & Hs).
  exists s'. split; [done|]. split; [done|]. split; [done|]. constructor; [|done|done]. intros H. pose proof (inv_write s b buf H) as H'. by rewrite E in H'.
Qed.

Lemma free_ok s b : used s b → let s' := sv_block_alloc_stats2 s b (-1) in
  same_blocks content area s s' ∧ (∀ x, used s' x ↔ used s x ∧ x ≠ b) ∧ stays s s'.
Proof.
  intros Hb s'. destruct (sv_freed content used area s b Hb) as (Hs & Hu & Hbs & Hi). split; [done|]. split; [done|].
  constructor; [|done|done]. apply inv_stats.
Qed.

Lemma incr_ok s l : plain_fs s → sv_blocksize s = 4 * a → (l ≤ 3)%nat → punch_incr s l = span a l ∧ span a l ≤ 2^30.
Proof.
  intros (_ & Hb & _) Hbs Hl. rewrite Hbs in Hb. unfold punch_incr. set (k := EXT2_BLOCK_SIZE_BITS (sv_super s)) in *.
  assert (0 ≤ k) as Hk by by apply Z.mod_pos_bound. assert (10 ≤ k ≤ 12) as Hk'.
  { split; apply Z.nlt_ge; intros Hlt.
    - assert (2^k ≤ 2^9) by (apply Z.pow_le_mono_r; lia). lia.
    - assert (2^13 ≤ 2^k) by (apply Z.pow_le_mono_r; lia). lia. }
  assert (a = 2^(k - 2)) as Hak. { replace k with ((k - 2) + 2) in Hb by lia. rewrite Z.pow_add_r in Hb; lia. }
  assert (span a l = 2^((k - 2) * Z.of_nat l)) as ->.
  { clear Hl. induction l as [|l IH]; [by rewrite Z.mul_0_r|]. cbn [span]. rewrite IH Nat2Z.inj_succ Z.mul_succ_r Z.pow_add_r; [|nia|lia]. rewrite -Hak. lia. }
  rewrite (u32_small (k - 2)); [|lia]. rewrite u32_small; [|nia]. rewrite Z.shiftl_mul_pow2; [|lia]. rewrite Z.mul_1_l.
  assert (2^((k - 2) * Z.of_nat l) ≤ 2^30) as Hle by (apply Z.pow_le_mono_r; nia).
  split; [|done]. apply u64_small. lia.
Qed.

(** What [i_blocks] has beyond the blocks of the file, of which [f] were given back
    and are not subtracted yet. *)
Definition due (rd : Z → list Z) (i : list Z) (f : Z) : Z := iblk_count fs0 i - iblk_units fs0 i 1 * (total a rd i + f).

Lemma units_mul i n : 0 ≤ n ≤ 2^20 → iblk_units fs0 i n = iblk_units fs0 i 1 * n.
Proof.
  intros Hn. unfold iblk_units. rewrite Hbs0. assert (0 ≤ 4 * a / 512 ≤ 8) as Hd by (split; [apply Z.div_pos; lia|apply Z.div_le_upper_bound; lia]).
  set (d := 4 * a / 512) in *. set (q := EXT2FS_CLUSTER_RATIO fs0) in *. clearbody d q.
  assert (0 ≤ n * q ≤ 2^20 * 2^31) by nia. assert (0 ≤ n * d ≤ 2^20 * 8) by nia. assert (0 ≤ n * d * q ≤ 2^20 * 8 * 2^31) by nia. assert (0 ≤ 1 * d * q ≤ 8 * 2^31) by nia.
  destruct (_ || _); rewrite !u64_small; lia.
Qed.

Lemma units_like i i' n : inode_like i i' → iblk_units fs0 i' n = iblk_units fs0 i n.
Proof. intros (_ & Hf & _). unfold iblk_units. by rewrite Hf. Qed.

Lemma due_shift rd i f : due rd i f = due rd i 0 - iblk_units fs0 i 1 * f.
Proof. unfold due. lia. Qed.
Lemma due_mono rd i f : 0 ≤ f → due rd i 0 < 0 → due rd i f < 0.
Proof. intros Hf Hd. rewrite due_shift. pose proof (iblk_units_nonneg fs0 i 1). nia. Qed.

(** What a call gives: only a count of blocks of the inode that is too low can be
    in the way. *)
Definition in_order (d e : Z) (G : Prop) : Prop := (e = 0 ∨ e = EOVERFLOW ∧ d < 0) ∧ (e = 0 → G).

Abbreviation N := (node a).
Abbreviation sh s rd i s' rd' i' := (shrinks a area (used s) rd i (used s') rd' i').

(** In the tree below [p], which begins at [offset], what is from [start] on is unmapped. *)
Definition cut_at (rd : Z → list Z) (i : list Z) (rd' : Z → list Z) (i' : list Z) (start offset : Z) (p q : place) : Prop :=
  (start ≤ offset + (first a q - first a p) → N rd' i' q = 0) ∧
  (is_leaf q → offset + (first a q - first a p) < start → N rd' i' q = N rd i q).

(** An indirect block in a buffer, the device having the others. *)
Record in_buffer (c : place) (i buf : list Z) (s : W) (rd : Z → list Z) (F : Z → Prop) : Prop := InBuffer {
  ib_valid : valid a c;
  ib_wf : file_wf a area (used s) rd i;
  ib_node : N rd i c ≠ 0;
  ib_here : F (N rd i c);
  ib_buf : rd (N rd i c) = buf;
  ib_agrees : agrees s rd F;
  ib_below q : valid a q → under a c q → N rd i q ≠ 0 → ¬ F (N rd i q);
  ib_fs : plain_fs s;
  ib_blocksize : sv_blocksize s = 4 * a;
}.

Definition punches (c : place) (start : Z) (i : list Z) (s : W) (rd : Z → list Z) (F : Z → Prop) (i' buf' : list Z) (s' : W) : Prop :=
  ∃ rd', sh s rd i s' rd' i' (under a c) (λ q, q = c ∨ under a c q) ∧ rd' (N rd i c) = buf' ∧ agrees s' rd' F ∧ stays s s' ∧
    due rd' i' 0 = due rd i 0 ∧ ∀ q, valid a q → under a c q → cut_at rd i rd' i' start 0 c q.

(** What the recursive call does to the pointers of the block in the buffer. *)
Definition sub_ok (l : nat) (f : Z → Z → list Z → list Z → W → Z * list Z * list Z * W) : Prop := ∀ c start count i buf s rd F,
  in_buffer c i buf s rd F → level c = S l → 0 ≤ start < 2^32 → span a (S l) ≤ count < 2^32 →
  let '(e, i', buf', s') := f start count i buf s in in_order (due rd i 0) e (punches c start i s rd F i' buf' s').

Lemma wf_used_iff (u u' : Z → Prop) rd i : (∀ x, u' x ↔ u x) → file_wf a area u rd i → file_wf a area u' rd i.
Proof. intros Hu [H1 H2 H3 H4 H5]. constructor; [done..| |done|done]. intros p Hp H0. rewrite Hu. by apply H3. Qed.

Lemma shrinks_used_iff (u0 u u1 u' : Z → Prop) rd i rd' i' D T : (∀ x, u x ↔ u0 x) → (∀ x, u' x ↔ u1 x) →
  shrinks a area u rd i u1 rd' i' D T → shrinks a area u0 rd i u' rd' i' D T.
Proof.
  intros H0 H1 [Hw ? ? Hu ? ?]. constructor; [|done|done| |done|done]; [by apply (wf_used_iff u1)|]. intros x. by rewrite H1 Hu H0.
Qed.

Lemma node_below rd i c j : valid a c → ¬ is_leaf c → N rd i c ≠ 0 → 0 ≤ j < a → N rd i (child a c j) = block_nr j (rd (N rd i c)).
Proof.
  intros Hc Hl H0 Hj. rewrite (node_parent a ltac:(lia)); [|by apply valid_child; [lia|..]|cbn; lia]. cbv zeta.
  by rewrite parent_child ?child_mod ?(bool_decide_eq_false_2 (_ = 0)); [|lia..].
Qed.

(** An indirect block, of the place [c] at [offset]. *)
Definition below_done (c : place) (start offset : Z) (rd : Z → list Z) (F : Z → Prop) (m : punch_state W) (keep : bool) (m' : punch_state W) : Prop :=
  ∃ rd', sh (u_state m) rd (u_inode m) (u_state m') rd' (u_inode m') (under a c) (λ q, q = c ∨ under a c q) ∧
    u_buf m' = u_buf m ∧ u_freed m' = u_freed m ∧ agrees (u_state m') rd' F ∧ stays (u_state m) (u_state m') ∧
    due rd' (u_inode m') (u_freed m') = due rd (u_inode m) (u_freed m) ∧ (∀ q, valid a q → under a c q → cut_at rd (u_inode m) rd' (u_inode m') start offset c q) ∧
    (keep = false ↔ ∀ j, 0 ≤ j < a → N rd' (u_inode m') (child a c j) = 0).

(** The pointer [c] with what is below it is on the device. *)
Record on_device (c : place) (i : list Z) (s : W) (rd : Z → list Z) (F : Z → Prop) : Prop := OnDevice {
  od_valid : valid a c;
  od_wf : file_wf a area (used s) rd i;
  od_agrees : agrees s rd F;
  od_below q : valid a q → q = c ∨ under a c q → N rd i q ≠ 0 → ¬ F (N rd i q);
  od_fs : plain_fs s;
  od_blocksize : sv_blocksize s = 4 * a;
}.

Lemma on_device_read c l i s rd F s' : on_device c i s rd F → level c = S l → N rd i c ≠ 0 → same_blocks content area s s' → (∀ x, used s' x ↔ used s x) → stays s s' →
  in_buffer c i (content s (N rd i c)) s' rd (λ x, F x ∨ x = N rd i c).
Proof.
  intros [Hc Hw Hag Hb Hp Hbs] Hl H0 Hs Hu [Hst1 Hst2 _]. constructor; [done|by apply (wf_used_iff (used s))|done|by right| | | |by apply Hst1|congruence].
  - symmetry. destruct (fw_used _ _ _ _ _ Hw c Hc H0) as (? & _). apply Hag; [done|done|]. apply Hb; [done|by left|done].
  - intros x Hx Hx0 HF. rewrite Hs //. apply Hag; [done|done|]. intros ?. apply HF. by left.
  - intros q Hq Hcq Hq0 [HF|Heq]; [by apply (Hb q Hq); [right|..]|]. rewrite (fw_inj _ _ _ _ _ Hw q c Hq Hc Heq Hq0) in Hcq. by apply under_irrefl in Hcq.
Qed.

Lemma cut_at_offset rd i rd' i' start offset c q : valid a q → under a c q → 0 ≤ offset →
  cut_at rd i rd' i' (if bool_decide (offset < start) then start - offset else 0) 0 c q → cut_at rd i rd' i' start offset c q.
Proof.
  intros Hq Hcq Hoff [H1 H2]. destruct (under_first a ltac:(lia) c q Hq Hcq) as [Hf _]. unfold cut_at. case_bool_decide.
  - split; [intros; apply H1; lia|]. intros Hl Hlt. apply H2; [done|lia].
  - split; [intros; apply H1; lia|lia].
Qed.

Lemma below_ok l f c offset start count m rd F : sub_ok l f → on_device c (u_inode m) (u_state m) rd F → level c = S l → N rd (u_inode m) c ≠ 0 →
  0 ≤ offset → 0 ≤ start < 2^32 → span a (S l) ≤ count - offset → count < 2^32 → 0 ≤ u_freed m →
  let '(e, keep, m') := punch_below f (N rd (u_inode m) c) offset start count m in in_order (due rd (u_inode m) (u_freed m)) e (below_done c start offset rd F m keep m').
Proof.
  intros Hf Hod Hl H0 Hoff Hst Hcnt Hcnt' Hfr. pose proof Hod as [Hc Hw Hag Hb Hp Hbs]. set (i := u_inode m) in *. set (s := u_state m) in *. set (b := N rd i c) in *.
  destruct (fw_used _ _ _ _ _ Hw c Hc H0) as (Hba & _ & Hb32). fold b in Hba, Hb32. pose proof (span_pos a (S l) ltac:(lia)) as Hsp.
  unfold punch_below. fold i s. destruct (read_ind_ok s b Hp Hba ltac:(lia)) as (s1 & -> & Hs1 & Hu1 & Hst1).
  rewrite (bool_decide_eq_false_2 (0 ≠ 0)); [|tauto]. rewrite (u64_small (count - offset)); [|lia].
  set (start2 := if bool_decide (offset < start) then u32 (start - offset) else 0).
  assert (start2 = if bool_decide (offset < start) then start - offset else 0) as Hs2 by (unfold start2; case_bool_decide; [rewrite u32_small; lia|done]).
  specialize (Hf c start2 (count - offset) i (content s b) s1 rd (λ x, F x ∨ x = b)).
  destruct (f _ _ _ _ _) as [[[e i'] buf'] s2]. destruct Hf as [He Hf]; [by apply (on_device_read c l)|done|rewrite Hs2; case_bool_decide; lia|lia|].
  assert (e = 0 ∨ e = EOVERFLOW ∧ due rd i (u_freed m) < 0) as He' by (destruct He as [?|[? ?]]; [by left|right; split; [done|by apply due_mono]]).
  destruct (decide (e = 0)) as [->|He0]; [|by rewrite bool_decide_eq_true_2].
  rewrite (bool_decide_eq_false_2 (0 ≠ 0)); [|tauto].
  destruct (Hf eq_refl) as (rd' & Hsh & Hbuf & Hag2 & Hst2 & Hdue & Hcut).
  assert (stays s s2) as Hss2 by by eapply stays_trans. destruct (write_ind_ok s2 b buf') as (s3 & -> & Hc3 & Hu3 & Hst3); [by apply Hss2|done|lia|].
  assert (N rd' i' c = b) as Hnc by (apply (h_same _ _ _ _ _ _ _ _ _ _ Hsh); [done|apply under_irrefl]).
  split; [by left|]. intros _. exists rd'. cbn [u_state u_inode u_buf u_freed]. fold i s.
  split; [by eapply shrinks_used_iff|]. split; [done|]. split; [done|]. split; [|split; [by eapply stays_trans|split; [|split]]].
  - intros x Hx Hx0 HF. rewrite Hc3 //. destruct (decide (x = b)) as [E|E]; [rewrite E; by symmetry|]. apply Hag2; [done|done|]. by intros [?|?].
  - rewrite due_shift (due_shift rd) Hdue. by rewrite (units_like i i' 1 (h_like _ _ _ _ _ _ _ _ _ _ Hsh)).
  - intros q Hq Hcq. apply cut_at_offset; [done..|]. rewrite -Hs2. by apply Hcut.
  - pose proof (level_not_leaf c l Hl) as Hlf. assert (N rd' i' c ≠ 0) as H0' by by rewrite Hnc.
    destruct (fw_node _ _ _ _ _ (h_wf _ _ _ _ _ _ _ _ _ _ Hsh) c Hc Hlf H0') as [Hby Hlen]. rewrite Hnc Hbuf in Hby, Hlen.
    rewrite negb_false_iff (check_zero_pointers a) //. split; intros H j Hj; specialize (H j Hj).
    + by rewrite node_below // Hnc Hbuf.
    + by rewrite node_below // Hnc Hbuf in H.
Qed.

(** ** The pointers of a block, or some of the inode *)
Section array.
Context (P : option place) (r max : Z) (F : Z → Prop).

Definition pl (k : Z) : place := match P with Some c => child a c k | None => Place (r + k) 0 0 end.
Definition whence : option Z := match P with Some _ => None | None => Some r end.
Definition at_or_under (k : Z) (q : place) : Prop := q = pl k ∨ under a (pl k) q.
Definition touched (q : place) : Prop := P = Some q ∨ ∃ k, 0 ≤ k < max ∧ at_or_under k q.

Record array_ok (m : punch_state W) (rd : Z → list Z) : Prop := ArrayOk {
  ar_wf : file_wf a area (used (u_state m)) rd (u_inode m);
  ar_agrees : agrees (u_state m) rd F;
  ar_fs : plain_fs (u_state m);
  ar_freed : 0 ≤ u_freed m;
  ar_blocksize : sv_blocksize (u_state m) = 4 * a;
  ar_parent : match P with
              | Some c => valid a c ∧ ¬ is_leaf c ∧ N rd (u_inode m) c ≠ 0 ∧ F (N rd (u_inode m) c) ∧ rd (N rd (u_inode m) c) = u_buf m ∧ max = a
              | None => 0 ≤ r ∧ r + max ≤ 15
              end;
  ar_below k q : 0 ≤ k < max → valid a q → at_or_under k q → N rd (u_inode m) q ≠ 0 → ¬ F (N rd (u_inode m) q);
}.

Lemma pl_valid m rd k : array_ok m rd → 0 ≤ k < max → valid a (pl k).
Proof.
  intros [_ _ _ _ _ Hp _] Hk. unfold pl. destruct P as [c|]; [|apply valid_root; lia]. destruct Hp as (? & ? & _ & _ & _ & ->). apply valid_child; [lia|done..].
Qed.

Lemma ptr_at_ok m rd k : array_ok m rd → 0 ≤ k < max → ptr_at whence k m = N rd (u_inode m) (pl k).
Proof.
  intros [_ _ _ _ _ Hp _] Hk. unfold ptr_at, whence, pl. destruct P as [c|]; [|by rewrite node_root].
  destruct Hp as (? & ? & ? & _ & <- & ->). by rewrite node_below.
Qed.

Lemma pl_disjoint m rd j k q : array_ok m rd → 0 ≤ j < max → 0 ≤ k < max → valid a q → at_or_under j q → at_or_under k q → j = k.
Proof.
  intros [_ _ _ _ _ Hp _] Hj Hk Hq H1 H2. unfold at_or_under, pl in *. destruct P as [c|].
  - destruct Hp as (_ & _ & _ & _ & _ & ->). by apply (under_child_inj a c j k q).
  - assert (∀ x, q = Place (r + x) 0 0 ∨ under a (Place (r + x) 0 0) q → n_root q = r + x) as H by (intros x [->|[H _]]; done).
    pose proof (H j H1). pose proof (H k H2). lia.
Qed.

Lemma parent_not_under m rd c k : array_ok m rd → P = Some c → 0 ≤ k < max → ¬ at_or_under k c.
Proof.
  intros Har HP Hk. unfold at_or_under, pl. rewrite HP. intros [H|(_ & H & _)]; [|cbn in H; lia]. apply (f_equal n_depth) in H. cbn in H. lia.
Qed.

(** What happens below a pointer leaves the array as it is. *)
Lemma array_shrinks m rd k m' rd' : array_ok m rd → 0 ≤ k < max →
  sh (u_state m) rd (u_inode m) (u_state m') rd' (u_inode m') (under a (pl k)) (at_or_under k) → u_buf m' = u_buf m → agrees (u_state m') rd' F →
  stays (u_state m) (u_state m') → u_freed m' = u_freed m → array_ok m' rd'.
Proof.
  intros Har Hk Hsh Hbuf Hag [Hst1 Hst2 _] Hfr. pose proof Har as [Hw _ Hfs Hf0 Hbs Hp Hb]. constructor; [apply Hsh|done|by apply Hst1|by rewrite Hfr|congruence| |].
  - destruct P as [c|] eqn:HP; [|done]. destruct Hp as (Hc & Hl & H0 & HF & Hrd & Hmax). pose proof (parent_not_under m rd c k Har HP Hk) as Hnu.
    assert (N rd' (u_inode m') c = N rd (u_inode m) c) as ->. { apply (h_same _ _ _ _ _ _ _ _ _ _ Hsh); [done|]. intros ?. apply Hnu. by right. }
    do 4 (split; [done|]). split; [|done]. rewrite Hbuf -Hrd. apply (h_read _ _ _ _ _ _ _ _ _ _ Hsh); [done|].
    intros q Hq Hql HT Heq. apply Hnu. assert (q = c) as <-; [|done]. apply (fw_inj _ _ _ _ _ Hw); [done|done|done|by rewrite Heq].
  - intros j q Hj Hq Hjq. destruct (h_zero _ _ _ _ _ _ _ _ _ _ Hsh q Hq) as [-> | ->]; [by apply (Hb j)|done].
Qed.

Lemma due_clear rd i rd' i' p f : valid a p → N rd i p ≠ 0 → N rd' i' p = 0 → inode_like i i' → same_count i i' →
  (∀ q, valid a q → q ≠ p → N rd' i' q = N rd i q) → due rd' i' (f + 1) = due rd i f.
Proof.
  intros Hp H0 Hz Hlike Hc Hq. unfold due. rewrite (units_like i i') // (total_clear a rd i rd' i' p) //.
  destruct (iblk_same fs0 fs0 i i' 0) as [-> _]; [done|done|apply Hlike|lia].
Qed.

(** A pointer with nothing below it is cleared. *)
Lemma free_ptr_ok m rd k : array_ok m rd → 0 ≤ k < max → N rd (u_inode m) (pl k) ≠ 0 →
  (is_leaf (pl k) ∨ ∀ j, 0 ≤ j < a → N rd (u_inode m) (child a (pl k) j) = 0) →
  let m' := free_ptr whence k (N rd (u_inode m) (pl k)) m in
  ∃ rd', sh (u_state m) rd (u_inode m) (u_state m') rd' (u_inode m') (λ q, q = pl k) touched ∧
    N rd' (u_inode m') (pl k) = 0 ∧ array_ok m' rd' ∧ stays (u_state m) (u_state m') ∧
    due rd' (u_inode m') (u_freed m') = due rd (u_inode m) (u_freed m) ∧ u_freed m' = u_freed m + 1.
Proof.
  intros Har Hk H0 Hbelow m'. pose proof Har as [Hw Hag Hfs Hf0 Hbs Hp Hb]. pose proof (pl_valid m rd k Har Hk) as Hv.
  destruct (fw_used _ _ _ _ _ Hw (pl k) Hv H0) as (Hab & Hub & Hr). destruct (free_ok (u_state m) _ Hub) as (Hs & Hu & Hst).
  set (b := N rd (u_inode m) (pl k)) in *. set (s' := sv_block_alloc_stats2 (u_state m) b (-1)) in *. assert (u_state m' = s') as Hm's by (unfold m', free_ptr; by destruct whence).
  set (rd' := match P with Some c => λ x, if decide (x = N rd (u_inode m) c) then set_block_nr k 0 (rd x) else rd x | None => rd end).
  assert (shrinks a area (used (u_state m)) rd (u_inode m) (used s') rd' (u_inode m') (λ q, q = pl k) (λ q, (0 < n_depth (pl k))%nat ∧ q = parent a (pl k)) ∧
    N rd' (u_inode m') (pl k) = 0) as [Hsh Hz].
  { unfold m', free_ptr, whence, rd', pl in *. pose proof (fw_bytes _ _ _ _ _ Hw) as Hby. pose proof (fw_length _ _ _ _ _ Hw) as Hlen. destruct P as [c|].
    - destruct Hp as (Hc & Hlf & Hc0 & HF & Hbuf & Hmax). cbn [u_inode]. apply shrinks_clear; try done; try lia.
      + intros _. rewrite parent_child; [|lia|lia]. rewrite child_mod; [|lia|lia]. by rewrite decide_True.
      + intros x Hx. rewrite decide_False //. rewrite parent_child in Hx; [|lia|lia]. apply Hx. cbn. lia.
    - cbn [u_inode]. destruct (set_i_block_ok (r + k) 0 (u_inode m)) as (Hb1 & Hb2 & Hb3); [done|done|lia|]. apply shrinks_clear; try done; try (cbn; lia).
      + intros r' Hr' Hne. rewrite set_i_block_get // ?bool_decide_eq_false_2 //; [|lia]. by intros ->.
      + intros _. cbn [n_root]. rewrite set_i_block_get //; [|lia..]. by rewrite bool_decide_eq_true_2. }
  assert (u_freed m' = u_freed m + 1) as Hfr by (unfold m', free_ptr; by destruct whence).
  assert (due rd' (u_inode m') (u_freed m') = due rd (u_inode m) (u_freed m)) as Hdue.
  { rewrite Hfr. apply (due_clear _ _ _ _ (pl k)); try done; [by apply (h_like _ _ _ _ _ _ _ _ _ _ Hsh)| |].
    - unfold m', free_ptr. pose proof (fw_length _ _ _ _ _ Hw). unfold whence. destruct P as [c|]; [done|]. apply set_i_block_count; [done|lia].
    - intros q Hq Hqk. by apply (h_same _ _ _ _ _ _ _ _ _ _ Hsh). }
  exists rd'. rewrite Hm's. assert (∀ q, (0 < n_depth (pl k))%nat ∧ q = parent a (pl k) → P = Some q) as HT.
  { intros q [Hd ->]. unfold pl in *. destruct P as [c|]; [|cbn in Hd; lia]. destruct Hp as (_ & _ & _ & _ & _ & Hmax). by rewrite parent_child; [|lia|lia]. }
  split; [|split; [done|split; [|split; [done|split; [done|done]]]]].
  { eapply shrinks_weaken; [| |exact Hsh]; [done|]. intros q _ Hq. left. by apply HT. }
  constructor; rewrite ?Hm's; [apply Hsh| |by apply Hst|lia|by rewrite (st_blocksize _ _ Hst)| |].
  - intros x Hx Hx0 HF. rewrite Hs // Hag //. unfold rd'. destruct P as [c|]; [|done]. destruct Hp as (_ & _ & _ & HFc & _). rewrite decide_False //. by intros ->.
  - destruct P as [c|] eqn:HP; [|done]. destruct Hp as (Hc & Hlf & Hc0 & HF & Hbuf & Hmax). pose proof (parent_not_under m rd c k Har HP Hk) as Hnu.
    assert (N rd' (u_inode m') c = N rd (u_inode m) c) as ->. { apply (h_same _ _ _ _ _ _ _ _ _ _ Hsh); [done|]. intros ->. apply Hnu. by left. }
    do 4 (split; [done|]). split; [|done]. unfold rd'. rewrite decide_True // Hbuf. unfold m', free_ptr, whence. by rewrite HP.
  - intros j q Hj Hq Hjq. destruct (h_zero _ _ _ _ _ _ _ _ _ _ Hsh q Hq) as [-> | ->]; [by apply (Hb j)|done].
Qed.

(** *** One pointer, and all of them *)
Definition sub_for (l : nat) (sub : option (Z → Z → list Z → list Z → W → Z * list Z * list Z * W)) : Prop :=
  match l, sub with O, None => True | S l, Some f => sub_ok l f | _, _ => False end.

Definition step_done (start offset : Z) (k : Z) (m : punch_state W) (rd : Z → list Z) (m' : punch_state W) : Prop :=
  ∃ rd', sh (u_state m) rd (u_inode m) (u_state m') rd' (u_inode m') (at_or_under k) touched ∧ array_ok m' rd' ∧ stays (u_state m) (u_state m') ∧
    due rd' (u_inode m') (u_freed m') = due rd (u_inode m) (u_freed m) ∧ u_freed m ≤ u_freed m' ≤ u_freed m + 1 ∧
    ∀ q, valid a q → at_or_under k q → cut_at rd (u_inode m) rd' (u_inode m') start offset (pl k) q.

Lemma touched_under k q : 0 ≤ k < max → at_or_under k q → touched q.
Proof. intros Hk Hq. right. by exists k. Qed.

(** The pointer is cleared after what is below it. *)
Lemma step_free m1 rd1 k m rd start offset : array_ok m rd → 0 ≤ k < max → 
  sh (u_state m) rd (u_inode m) (u_state m1) rd1 (u_inode m1) (under a (pl k)) (at_or_under k) → array_ok m1 rd1 → stays (u_state m) (u_state m1) →
  due rd1 (u_inode m1) (u_freed m1) = due rd (u_inode m) (u_freed m) → u_freed m1 = u_freed m →
  N rd1 (u_inode m1) (pl k) ≠ 0 → (is_leaf (pl k) → start ≤ offset) → (is_leaf (pl k) ∨ ∀ j, 0 ≤ j < a → N rd1 (u_inode m1) (child a (pl k) j) = 0) →
  (∀ q, valid a q → under a (pl k) q → cut_at rd (u_inode m) rd1 (u_inode m1) start offset (pl k) q) →
  step_done start offset k m rd (free_ptr whence k (N rd1 (u_inode m1) (pl k)) m1).
Proof.
  intros Har Hk Hsh Har1 Hst Hdue1 Hfr1 H0 Hleaf Hbelow Hcut. destruct (free_ptr_ok m1 rd1 k Har1 Hk H0 Hbelow) as (rd2 & Hsh2 & Hz & Har2 & Hst2 & Hdue2 & Hfr2).
  set (m2 := free_ptr _ _ _ _) in *. exists rd2. split; [|split; [done|split; [by eapply stays_trans|split; [congruence|split; [lia|]]]]].
  - eapply shrinks_trans; (eapply shrinks_weaken; [| |done]); [by right|intros q _; by apply touched_under|by left|done].
  - intros q Hq [->|Hqk].
    + split; [done|]. intros Hl Hlt. specialize (Hleaf Hl). lia.
    + assert (N rd2 (u_inode m2) q = N rd1 (u_inode m1) q) as Hn.
      { apply (h_same _ _ _ _ _ _ _ _ _ _ Hsh2); [done|]. intros ->. by apply under_irrefl in Hqk. }
      unfold cut_at. rewrite Hn. by apply Hcut.
Qed.

Lemma punch_step_ok l sub m rd k start count : sub_for l sub → array_ok m rd → (∀ k, 0 ≤ k < max → level (pl k) = l) → (l ≤ 3)%nat → span a l ≤ 2^30 →
  0 ≤ k < max → 0 ≤ start < 2^32 → max * span a l ≤ count → count < 2^32 →
  let '(e, m') := punch_step sub whence k (k * span a l) (span a l) start count m in in_order (due rd (u_inode m) (u_freed m)) e (step_done start (k * span a l) k m rd m').
Proof.
  intros Hsub Har Hlev Hl3 Hsp Hk Hst Hc Hc'. specialize (Hlev k Hk). pose proof (span_pos a l ltac:(lia)) as Hs0. set (off := k * span a l).
  assert (off + span a l ≤ count) as Hfit by (unfold off; nia). assert (0 ≤ off) as Hoff by (unfold off; nia).
  pose proof (pl_valid m rd k Har Hk) as Hv. unfold punch_step. rewrite (ptr_at_ok m rd) //. set (b := N rd (u_inode m) (pl k)).
  rewrite (u64_small (off + span a l)); [|lia].
  assert (sh (u_state m) rd (u_inode m) (u_state m) rd (u_inode m) (under a (pl k)) (at_or_under k)) as Hrefl by (apply shrinks_refl; [lia|apply Har]).
  destruct (decide (b = 0 ∨ off + span a l ≤ start)) as [Hskip|Hgo].
  { replace (bool_decide (b = 0) || bool_decide (off + span a l ≤ start)) with true.
    2: { symmetry. apply orb_true_iff. rewrite !bool_decide_eq_true. done. }
    split; [by left|]. intros _. exists rd. split; [apply shrinks_refl; [lia|apply Har]|]. split; [done|]. split; [apply stays_refl|]. split; [done|]. split; [lia|]. intros q Hq Hqk. split; [|done].
    intros Hle. destruct Hskip as [Hb|Hs]; [destruct Hqk as [->|Hqk]; [done|by apply (under_hole a ltac:(lia) rd (u_inode m) (pl k))]|].
    exfalso. destruct Hqk as [->|Hqk]; [lia|]. destruct (under_first a ltac:(lia) _ _ Hq Hqk) as [Hf _]. rewrite Hlev in Hf. lia. }
  replace (bool_decide (b = 0) || bool_decide (off + span a l ≤ start)) with false.
  2: { symmetry. apply orb_false_iff. rewrite !bool_decide_eq_false. tauto. }
  assert (b ≠ 0 ∧ start < off + span a l) as [Hb Hlt] by lia. destruct sub as [f|], l as [|l]; try done.
  - assert (on_device (pl k) (u_inode m) (u_state m) rd F) as Hod.
    { destruct Har as [? ? ? ? ? ? Hbel]. constructor; [done..| |done|done]. intros q Hq Hqk. by apply (Hbel k). }
    pose proof (below_ok l f (pl k) off start count m rd F Hsub Hod Hlev Hb Hoff Hst ltac:(lia) Hc' (ar_freed _ _ Har)) as Hbel. fold b in Hbel.
    destruct (punch_below f b off start count m) as [[e keep] m1]. destruct Hbel as [He Hbel].
    destruct (decide (e = 0)) as [->|He0]; [|by rewrite bool_decide_eq_true_2]. rewrite (bool_decide_eq_false_2 (0 ≠ 0)); [|tauto].
    destruct (Hbel eq_refl) as (rd1 & Hsh & Hbuf & Hfr1 & Hag & Hst1 & Hdue1 & Hcut & Hkeep).
    pose proof (array_shrinks m rd k m1 rd1 Har Hk Hsh Hbuf Hag Hst1 Hfr1) as Har1.
    assert (N rd1 (u_inode m1) (pl k) = b) as Hn1 by (apply (h_same _ _ _ _ _ _ _ _ _ _ Hsh); [done|apply under_irrefl]).
    pose proof (level_not_leaf _ _ Hlev) as Hnl. destruct keep; (split; [by left|intros _]).
    + exists rd1. split; [eapply shrinks_weaken; [| |done]; [by right|intros q _; by apply touched_under]|]. split; [done|]. split; [done|]. split; [done|]. split; [lia|].
      intros q Hq [->|Hqk]; [|by apply Hcut]. split; [|done]. intros Hle. exfalso. assert (true = false) as ?; [|done]. apply Hkeep. intros j Hj.
      assert (valid a (child a (pl k) j)) as Hvc by (apply valid_child; [lia|done..]). apply Hcut; [done|by apply child_under; [lia|..]|].
      rewrite (first_child a _ _ _ Hlev). pose proof (span_pos a l ltac:(lia)). nia.
    + rewrite -Hn1. eapply step_free; try done; [by rewrite Hn1|right; by apply Hkeep].
  - split; [by left|]. intros _. apply (step_free m rd k m rd start off Har Hk Hrefl Har (stays_refl _) eq_refl eq_refl Hb); [|left; by apply (leaf_level a)|].
    + intros _. cbn [span] in Hlt. lia.
    + intros q (_ & Hd & _) (Hr & Hd' & _). exfalso. unfold level in Hlev. rewrite Hr in Hd. lia.
Qed.

(** From the [k]-th pointer on. *)
Definition loop_done (start incr k : Z) (m : punch_state W) (rd : Z → list Z) (m' : punch_state W) : Prop :=
  ∃ rd', sh (u_state m) rd (u_inode m) (u_state m') rd' (u_inode m') (λ q, ∃ j, k ≤ j < max ∧ at_or_under j q) touched ∧ array_ok m' rd' ∧
    stays (u_state m) (u_state m') ∧ due rd' (u_inode m') (u_freed m') = due rd (u_inode m) (u_freed m) ∧
    u_freed m ≤ u_freed m' ≤ u_freed m + (max - k) ∧
    ∀ j q, k ≤ j < max → valid a q → at_or_under j q → cut_at rd (u_inode m) rd' (u_inode m') start (j * incr) (pl j) q.

Lemma loop_cons start incr k m rd m1 m2 : array_ok m rd → 0 ≤ k < max → step_done start (k * incr) k m rd m1 →
  (∀ rd1, array_ok m1 rd1 → loop_done start incr (k + 1) m1 rd1 m2) → loop_done start incr k m rd m2.
Proof.
  intros Har Hk (rd1 & Hsh1 & Har1 & Hst1 & Hdue1 & Hfr1 & Hcut1) Hnext.
  destruct (Hnext rd1 Har1) as (rd2 & Hsh2 & Har2 & Hst2 & Hdue2 & Hfr2 & Hcut2).
  exists rd2. split; [|split; [done|split; [by eapply stays_trans|split; [congruence|split; [lia|]]]]].
  - eapply shrinks_trans; (eapply shrinks_weaken; [| |done]); [|done| |done].
    + intros q _ Hq. exists k. split; [lia|done].
    + intros q _ (j & Hj & Hq). exists j. split; [lia|done].
  - intros j q Hj Hq Hjq. destruct (decide (j = k)) as [->|Hne].
    + assert (N rd2 (u_inode m2) q = N rd1 (u_inode m1) q) as Hn.
      { apply (h_same _ _ _ _ _ _ _ _ _ _ Hsh2); [done|]. intros (j & Hj' & Hjq'). pose proof (pl_disjoint m rd j k q Har ltac:(lia) Hk Hq Hjq' Hjq). lia. }
      unfold cut_at. rewrite Hn. by apply Hcut1.
    + assert (N rd1 (u_inode m1) q = N rd (u_inode m) q) as Hn.
      { apply (h_same _ _ _ _ _ _ _ _ _ _ Hsh1); [done|]. intros Hkq. by pose proof (pl_disjoint m rd j k q Har ltac:(lia) Hk Hq Hjq Hkq). }
      unfold cut_at. rewrite -Hn. apply Hcut2; [lia|done..].
Qed.

Lemma punch_loop_ok l sub start count n : sub_for l sub → (∀ k, 0 ≤ k < max → level (pl k) = l) → (l ≤ 3)%nat → span a l ≤ 2^30 →
  0 ≤ start < 2^32 → max * span a l ≤ count → count < 2^32 → ∀ k m rd, array_ok m rd → 0 ≤ k → k + Z.of_nat n = max →
  let '(e, m') := punch_loop sub whence (span a l) start count n k (k * span a l) m in in_order (due rd (u_inode m) (u_freed m)) e (loop_done start (span a l) k m rd m').
Proof.
  intros Hsub Hlev Hl3 Hsp Hst Hc Hc'. pose proof (span_pos a l ltac:(lia)) as Hs0. induction n as [|n IH]; intros k m rd Har Hk Hn; cbn [punch_loop].
  { split; [by left|]. intros _. exists rd. split; [apply shrinks_refl; [lia|apply Har]|]. split; [done|]. split; [apply stays_refl|]. split; [done|]. split; [lia|]. intros j q Hj. lia. }
  rewrite (u64_small (start + count)); [|lia]. rewrite bool_decide_eq_false_2; [|nia].
  pose proof (punch_step_ok l sub m rd k start count Hsub Har Hlev Hl3 Hsp ltac:(lia) Hst Hc Hc') as Hstep.
  destruct (punch_step _ _ _ _ _ _ _ _) as [e m1]. destruct Hstep as [He Hstep].
  destruct (decide (e = 0)) as [->|He0]; [|by rewrite bool_decide_eq_true_2]. rewrite (bool_decide_eq_false_2 (0 ≠ 0)); [|tauto]. specialize (Hstep eq_refl).
  rewrite u64_small; [|nia]. replace (k * span a l + span a l) with ((k + 1) * span a l) by lia.
  pose proof Hstep as (rd1 & _ & Har1 & _ & Hdue1 & _). pose proof (λ rd, IH (k + 1) m1 rd) as IH'. destruct (punch_loop _ _ _ _ _ _ _ _ _) as [e2 m2].
  destruct (IH' rd1 Har1 ltac:(lia) ltac:(lia)) as [He2 _]. rewrite Hdue1 in He2. split; [done|]. intros ->.
  apply (loop_cons _ _ _ _ _ m1); [done|lia|done|]. intros rd2 Har2. by apply (IH' rd2 Har2 ltac:(lia) ltac:(lia)).
Qed.

Lemma iblk_sub_ok fs i n : is_bytes i → (128 ≤ length i)%nat →
  let '(e, i') := ext2fs_iblk_sub_blocks fs i n in (e = 0 ∨ e = EOVERFLOW ∧ iblk_count fs i < iblk_units fs i n) ∧
    is_bytes i' ∧ (128 ≤ length i')%nat ∧ inode_like i i' ∧ (∀ r, 0 ≤ r < 15 → i_block r i' = i_block r i) ∧
    (e = 0 → iblk_count fs i' = iblk_count fs i - iblk_units fs i n).
Proof.
  intros Hb Hl. pose proof (iblk_sub_count fs i n Hb Hl) as Hc. unfold ext2fs_iblk_sub_blocks in *.
  destruct (iblk_fields_ok i Hb Hl) as [H1 H2]. case_bool_decide; [split; [by right|done]|]. cbv zeta in *. cbn [fst snd] in Hc. split; [by left|].
  destruct (ext2fs_has_feature_huge_file _); [|by split_and!; [apply H1..|]]. set (v := u16 _) in *. destruct (H2 v) as (A & B & C & D).
  destruct (iblk_fields_ok _ A B) as [H1' _]. destruct (H1' (Z.land (iblk_count fs i - iblk_units fs i n) 0xFFFFFFFF)) as (A' & B' & C' & D').
  split; [done|]. split; [done|]. split; [by eapply inode_like_trans|]. split; [|done]. intros r' Hr. by rewrite D' // D.
Qed.

(** Subtracting what was given back. *)
Lemma due_sub rd s i n : plain_fs s → 0 ≤ n ≤ 2^20 →
  (iblk_count (sv_fs s) i < iblk_units (sv_fs s) i n → due rd i n < 0) ∧
  ∀ i', inode_like i i' → (∀ q, valid a q → N rd i' q = N rd i q) → iblk_count (sv_fs s) i' = iblk_count (sv_fs s) i - iblk_units (sv_fs s) i n →
    due rd i' 0 = due rd i n.
Proof.
  intros (_ & _ & Hfs) Hn. destruct (iblk_same fs0 (sv_fs s) i i n Hfs) as (-> & -> & _); [done..|]. rewrite units_mul //.
  assert (0 ≤ total a rd i) by (unfold total; lia). pose proof (iblk_units_nonneg fs0 i 1). split; [unfold due; nia|].
  intros i' Hlike Hq Hc. unfold due. rewrite (units_like i i') // (total_same a rd i rd i') //.
  destruct (iblk_same fs0 (sv_fs s) i' i' n Hfs) as (<- & _); [done..|]. rewrite Hc. lia.
Qed.

(** All pointers of the array. *)
Definition array_done (start incr : Z) (rd : Z → list Z) (i buf : list Z) (s : W) (i' buf' : list Z) (s' : W) : Prop :=
  ∃ rd', sh s rd i s' rd' i' (λ q, ∃ j, 0 ≤ j < max ∧ at_or_under j q) touched ∧ array_ok (PunchState i' buf' 0 s') rd' ∧ stays s s' ∧ due rd' i' 0 = due rd i 0 ∧
    ∀ j q, 0 ≤ j < max → valid a q → at_or_under j q → cut_at rd i rd' i' start (j * incr) (pl j) q.

Lemma array_inode m rd i' n : array_ok m rd → 0 ≤ n → is_bytes i' → (128 ≤ length i')%nat → inode_like (u_inode m) i' →
  (∀ r, 0 ≤ r < 15 → i_block r i' = i_block r (u_inode m)) → array_ok (PunchState i' (u_buf m) n (u_state m)) rd ∧
  sh (u_state m) rd (u_inode m) (u_state m) rd i' (λ q, ∃ j, 0 ≤ j < max ∧ at_or_under j q) touched ∧ ∀ q, valid a q → N rd i' q = N rd (u_inode m) q.
Proof.
  intros [Hw Hag Hfs Hf0 Hbs Hp Hb] Hn0 Hby Hl Hlike Hib. 
  destruct (shrinks_inode a ltac:(lia) area (used (u_state m)) rd (u_inode m) i' (λ q, ∃ j, 0 ≤ j < max ∧ at_or_under j q) touched Hw Hby Hl Hlike Hib) as [Hsh Hn].
  split; [|done]. constructor; cbn [u_inode u_buf u_state u_freed]; [apply Hsh|done..| |].
  - destruct P as [c|]; [|done]. destruct Hp as (Hc & ?). by rewrite Hn.
  - intros k q Hk Hq. rewrite Hn //. by apply (Hb k).
Qed.

Lemma ind_punch_array_ok l sub start count i buf s rd : sub_for l sub → (∀ k, 0 ≤ k < max → level (pl k) = l) → (l ≤ 3)%nat →
  0 ≤ start < 2^32 → max * span a l ≤ count → count < 2^32 → 0 ≤ max ≤ 2^20 → array_ok (PunchState i buf 0 s) rd →
  let '(e, i', buf', s') := (let '(e, m) := punch_loop sub whence (punch_incr s l) start count (Z.to_nat max) 0 0 (PunchState i buf 0 s) in
    if bool_decide (e ≠ 0) then (e, u_inode m, u_buf m, u_state m) else
    let '(e, i) := ext2fs_iblk_sub_blocks (sv_fs (u_state m)) (u_inode m) (u_freed m) in (e, i, u_buf m, u_state m)) in
  in_order (due rd i 0) e (array_done start (span a l) rd i buf s i' buf' s').
Proof.
  intros Hsub Hlev Hl3 Hst Hc Hc' Hmax Har. destruct (incr_ok s l (ar_fs _ _ Har) (ar_blocksize _ _ Har) Hl3) as [-> Hsp].
  pose proof (punch_loop_ok l sub start count (Z.to_nat max) Hsub Hlev Hl3 Hsp Hst Hc Hc' 0 _ rd Har ltac:(lia) ltac:(lia)) as H. rewrite Z.mul_0_l in H.
  destruct (punch_loop _ _ _ _ _ _ _ _ _) as [e m]. destruct H as [He H].
  destruct (decide (e = 0)) as [->|He0]; [|by rewrite bool_decide_eq_true_2]. rewrite (bool_decide_eq_false_2 (0 ≠ 0)); [|tauto].
  destruct (H eq_refl) as (rd' & Hsh & Har' & Hstay & Hdue & Hfr & Hcut). pose proof (ar_wf _ _ Har') as Hw. cbn [u_inode u_freed] in Hdue, Hfr.
  pose proof (iblk_sub_ok (sv_fs (u_state m)) (u_inode m) (u_freed m) (fw_bytes _ _ _ _ _ Hw) (fw_length _ _ _ _ _ Hw)) as Hi.
  destruct (ext2fs_iblk_sub_blocks _ _ _) as [e2 i2]. destruct Hi as (He2 & Hby & Hl & Hlike & Hib & Hsub2).
  destruct (array_inode m rd' i2 0 Har' ltac:(lia) Hby Hl Hlike Hib) as (Har2 & Hsh2 & Hn).
  destruct (due_sub rd' (u_state m) (u_inode m) (u_freed m) (ar_fs _ _ Har') ltac:(lia)) as [Hlow Hpay].
  split; [destruct He2 as [?|[? ?]]; [by left|right; split; [done|]]; rewrite -Hdue; by apply Hlow|]. intros ->.
  exists rd'. split; [by eapply shrinks_trans|]. split; [done|]. split; [done|]. split; [rewrite -Hdue; by apply Hpay; [..|apply Hsub2]|].
  intros j q Hj Hq Hjq. unfold cut_at. rewrite Hn //. by apply Hcut.
Qed.
End array.

(** ** [ind_punch] *)
Definition sub_punch_of (l : nat) : option (Z → Z → list Z → list Z → W → Z * list Z * list Z * W) :=
  match l with
  | O => None
  | S l => Some (λ start2 count2 inode buf s, ind_punch l None start2 count2 (Z.to_nat (Z.shiftr (sv_blocksize s) 2)) inode buf s)
  end.

Lemma ind_punch_eq l w start count max i buf s : ind_punch l w start count max i buf s =
  let '(e, m) := punch_loop (sub_punch_of l) w (punch_incr s l) start count max 0 0 (PunchState i buf 0 s) in
  if bool_decide (e ≠ 0) then (e, u_inode m, u_buf m, u_state m) else
  let '(e, i) := ext2fs_iblk_sub_blocks (sv_fs (u_state m)) (u_inode m) (u_freed m) in (e, i, u_buf m, u_state m).
Proof. by destruct l. Qed.

Lemma ind_punch_sub l : (l ≤ 2)%nat → sub_for l (sub_punch_of l) → sub_for (S l) (sub_punch_of (S l)).
Proof.
  intros Hl3 Hsub c start count i buf s rd F [Hc Hw H0 HF Hbuf Hag Hbel Hfs Hbs] Hl Hst Hcnt. pose proof (level_not_leaf c l Hl) as Hlf.
  rewrite ind_punch_eq Hbs. assert (Z.shiftr (4 * a) 2 = a) as -> by (rewrite Z.shiftr_div_pow2 // Z.mul_comm; by apply Z.div_mul).
  assert (array_ok (Some c) 0 a F (PunchState i buf 0 s) rd) as Har.
  { constructor; try done. cbn [u_inode u_state]. intros k q Hk Hq Hkq. apply Hbel; [done|]. apply (under_child a ltac:(lia)); [done|]. by exists k. }
  pose proof (ind_punch_array_ok (Some c) 0 a F l (sub_punch_of l) start count i buf s rd Hsub) as H. cbn [whence] in H.
  destruct (let '(e, m) := _ in _) as [[[e i'] buf'] s']. destruct H as [He H];
    [intros k _; by apply level_child|lia|done|cbn [span] in Hcnt; lia|lia|lia|done|]. cbn [u_inode u_freed] in *. split; [done|]. intros E.
  destruct (H E) as (rd' & Hsh & [_ Hag' _ _ _ (_ & _ & _ & _ & Hbuf' & _) _] & Hstay & Hdue & Hcut). cbn [u_inode u_state u_buf] in *.
  assert (∀ q, valid a q → (∃ j, 0 ≤ j < a ∧ at_or_under (Some c) 0 j q) ↔ under a c q) as Hun.
  { intros q Hq. symmetry. by apply (under_child a ltac:(lia)). }
  assert (N rd' i' c = N rd i c) as Hn.
  { apply (h_same _ _ _ _ _ _ _ _ _ _ Hsh); [done|]. intros Hx. apply Hun in Hx; [|done]. by apply under_irrefl in Hx. }
  exists rd'. split; [|split; [by rewrite -Hn|split; [done|split; [done|split; [done|]]]]].
  - eapply shrinks_weaken; [| |exact Hsh]; [intros q Hq Hx; by apply Hun|]. intros q Hq [[= ->]|Hq']; [by left|right; by apply Hun].
  - intros q Hq Hcq. apply Hun in Hcq as (j & Hj & Hjq); [|done]. destruct (Hcut j q Hj Hq Hjq) as [H1 H2]. cbn [pl] in H1, H2.
    rewrite (first_child a _ _ _ Hl) in H1, H2. split; [intros; apply H1; lia|]. intros Hlq ?. apply H2; [done|lia].
Qed.

Lemma ind_punch_subs l : (l ≤ 3)%nat → sub_for l (sub_punch_of l).
Proof. induction l as [|l IH]; intros Hl; [done|]. apply ind_punch_sub; [lia|]. apply IH. lia. Qed.

(** ** The levels *)
Definition level_root (l : nat) : Z := if decide (l = 0%nat) then 0 else 11 + Z.of_nat l.
Definition level_num (l : nat) : Z := if decide (l = 0%nat) then 12 else 1.
Fixpoint level_base (l : nat) : Z := match l with O => 0 | S l => level_base l + level_num l * span a l end.
(** The first block of the file that is below a place. *)
Definition first_block (q : place) : Z :=
  level_base (height (n_root q)) + (if decide (height (n_root q) = 0%nat) then n_root q else 0) + first a q.

Lemma level_bounds l : (l ≤ 3)%nat → 0 ≤ level_base l ∧ 0 < level_num l * span a l ≤ 2^30 ∧ level_base l + 2 * (level_num l * span a l) < 2^32 - 1.
Proof.
  intros Hl. assert (0 < a * a ≤ 2^20) as H2 by nia. assert (0 < a * (a * a) ≤ 2^30) as H3 by nia.
  assert (a * a ≤ 2^20 ∧ a ≤ 2^10) as H4 by lia.
  destruct l as [|[|[|[|l]]]]; [..|lia]; unfold level_num; cbn [level_base span]; unfold level_num; cbn [span];
    repeat (destruct (decide _); [try lia|]); try lia.
Qed.

(** The pointers of a level. *)
Lemma level_place l q : (l ≤ 3)%nat → valid a q → height (n_root q) = l ↔ 0 ≤ n_root q - level_root l < level_num l.
Proof. intros Hl (Hr & _). unfold height, level_root, level_num. destruct (decide (l = 0%nat)); lia. Qed.

Lemma root_under r q : valid a q → n_root q = r → q = Place r 0 0 ∨ under a (Place r 0 0) q.
Proof.
  destruct q as [r' d m]. intros (_ & _ & Hm) <-. cbn [n_root n_depth n_index] in *. destruct d as [|d].
  - left. f_equal. cbn in Hm. lia.
  - right. unfold under. cbn [n_root n_depth n_index]. split; [done|]. split; [lia|]. rewrite Nat.sub_0_r. by apply Z.div_small.
Qed.

Lemma level_block l k q : (l ≤ 3)%nat → valid a q → height (n_root q) = l → n_root q = level_root l + k →
  first_block q = level_base l + k * span a l + (first a q - first a (Place (level_root l + k) 0 0)).
Proof.
  intros Hl (Hr & _) Hh Hk. unfold first_block. rewrite Hh. assert (first a (Place (level_root l + k) 0 0) = 0) as -> by (unfold first; cbn [n_index]; apply Z.mul_0_l).
  unfold level_root, height in *.
  destruct (decide (l = 0%nat)) as [->|Hne]; [cbn [span]; lia|]. assert (k = 0) as -> by lia. lia.
Qed.

Definition levels_done (l : nat) (start : Z) (rd : Z → list Z) (i : list Z) (s : W) (i' : list Z) (s' : W) : Prop :=
  ∃ rd', sh s rd i s' rd' i' (λ q, (l ≤ height (n_root q))%nat) (λ _, True) ∧ agrees s' rd' (λ _, False) ∧ stays s s' ∧ due rd' i' 0 = due rd i 0 ∧
    ∀ q, valid a q → (l ≤ height (n_root q))%nat → (start ≤ first_block q → N rd' i' q = 0) ∧ (is_leaf q → first_block q < start → N rd' i' q = N rd i q).

(** One level. *)
Lemma level_ok l start count i s rd : (l ≤ 3)%nat → file_wf a area (used s) rd i → agrees s rd (λ _, False) → plain_fs s → sv_blocksize s = 4 * a →
  0 ≤ start < 2^32 → level_num l * span a l ≤ count → count < 2^32 →
  let '(e, i', _, s') := ind_punch l (Some (level_root l)) start count (Z.to_nat (level_num l)) i [] s in
  in_order (due rd i 0) e (∃ rd', sh s rd i s' rd' i' (λ q, height (n_root q) = l) (λ _, True) ∧ agrees s' rd' (λ _, False) ∧ stays s s' ∧ due rd' i' 0 = due rd i 0 ∧
    ∀ q, valid a q → height (n_root q) = l →
      (start + level_base l ≤ first_block q → N rd' i' q = 0) ∧ (is_leaf q → first_block q < start + level_base l → N rd' i' q = N rd i q)).
Proof.
  intros Hl Hw Hag Hfs Hbs Hst Hc Hc'. rewrite ind_punch_eq.
  assert (0 ≤ level_root l ∧ level_root l + level_num l ≤ 15 ∧ 0 ≤ level_num l ≤ 2^20) as (H1 & H2 & H3) by (unfold level_root, level_num; destruct (decide _); lia).
  assert (array_ok None (level_root l) (level_num l) (λ _, False) (PunchState i [] 0 s) rd) as Har by (constructor; try done; auto).
  pose proof (ind_punch_array_ok None (level_root l) (level_num l) (λ _, False) l (sub_punch_of l) start count i [] s rd (ind_punch_subs l Hl)) as H. cbn [whence] in H.
  destruct (let '(e, m) := _ in _) as [[[e i'] buf'] s']. destruct H as [He H]; [|done|done|done|done|done|done|].
  { intros k Hk. unfold level, pl. cbn [n_root n_depth]. rewrite Nat.sub_0_r.
    apply (level_place l (Place (level_root l + k) 0 0)); [done|apply valid_root; lia|cbn; lia]. }
  split; [done|]. intros E. destruct (H E) as (rd' & Hsh & [_ Hag' _ _ _ _ _] & Hstay & Hdue & Hcut). cbn [u_inode u_state] in *.
  assert (∀ q, valid a q → height (n_root q) = l → let k := n_root q - level_root l in 0 ≤ k < level_num l ∧ at_or_under None (level_root l) k q ∧ n_root q = level_root l + k) as Hroot.
  { intros q Hq Hh k. apply level_place in Hh; [|done|done]. split; [done|]. split; [|lia]. unfold at_or_under, pl. apply root_under; [done|lia]. }
  exists rd'. split; [|split; [done|split; [done|split; [done|]]]].
  - eapply shrinks_weaken; [| |exact Hsh]; [|done]. intros q Hq (j & Hj & Hjq). apply level_place; [done|done|].
    unfold at_or_under, pl in Hjq. destruct Hjq as [->|[Hr _]]; [cbn; lia|]. cbn in Hr. lia.
  - intros q Hq Hh. destruct (Hroot q Hq Hh) as (Hk & Hkq & Hr). destruct (Hcut _ q Hk Hq Hkq) as [A B]. cbn [pl] in A, B.
    rewrite (level_block l _ q Hl Hq Hh Hr). split; [intros; apply A; lia|]. intros Hlf ?. apply B; [done|lia].
Qed.

Lemma height_le q : valid a q → (height (n_root q) ≤ 3)%nat.
Proof. intros (Hr & _). unfold height. lia. Qed.

Lemma levels_skip l start rd i s : (l ≤ 3)%nat → level_num l * span a l ≤ start →
  ∀ i' s', levels_done (S l) (start + level_base l) rd i s i' s' → levels_done l (start + level_base l) rd i s i' s'.
Proof.
  intros Hl Hge i' s' (rd' & Hsh & Hag & Hst & Hdue & Hcut). exists rd'. split; [|split; [done|split; [done|split; [done|]]]].
  - eapply shrinks_weaken; [| |exact Hsh]; [|done]. intros q _ Hq. cbv beta in Hq |- *. lia.
  - intros q Hq Hlq. destruct (decide (height (n_root q) = l)) as [Hh|Hh]; [|apply Hcut; [done|lia]].
    assert (N rd' i' q = N rd i q) as Hn by (apply (h_same _ _ _ _ _ _ _ _ _ _ Hsh); [done|cbv beta; lia]).
    split; [|done]. intros Hle. exfalso. pose proof Hh as Hk. apply level_place in Hk; [|done|done].
    assert (∃ k, n_root q = level_root l + k) as [k Hr] by (exists (n_root q - level_root l); lia).
    pose proof (level_block l k q Hl Hq Hh Hr) as Hb. assert (0 ≤ k < level_num l) as Hk' by lia.
    destruct (root_under (level_root l + k) q Hq Hr) as [Hqr|Hqr].
    + rewrite {2}Hqr in Hb. pose proof (span_pos a l ltac:(lia)). nia.
    + destruct (under_first a ltac:(lia) _ _ Hq Hqr) as [Hf _]. assert (level (Place (level_root l + k) 0 0) = l) as Hlv.
      { unfold level. cbn [n_root n_depth]. rewrite Nat.sub_0_r. apply (level_place l (Place (level_root l + k) 0 0)); [done|apply valid_root|cbn; lia].
        unfold level_root, level_num in *. destruct (decide _); lia. }
      rewrite Hlv in Hf. pose proof (span_pos a l ltac:(lia)). nia.
Qed.

Lemma levels_cons l start rd i s i1 s1 rd1 : 
  sh s rd i s1 rd1 i1 (λ q, height (n_root q) = l) (λ _, True) → stays s s1 → due rd1 i1 0 = due rd i 0 →
  (∀ q, valid a q → height (n_root q) = l → (start ≤ first_block q → N rd1 i1 q = 0) ∧ (is_leaf q → first_block q < start → N rd1 i1 q = N rd i q)) →
  ∀ start' i' s', (∀ q, valid a q → (S l ≤ height (n_root q))%nat → start ≤ first_block q ↔ start' ≤ first_block q) → levels_done (S l) start' rd1 i1 s1 i' s' → levels_done l start rd i s i' s'.
Proof.
  intros Hsh1 Hst1 Hdue1 Hcut1 start' i' s' Heq (rd2 & Hsh2 & Hag & Hst2 & Hdue2 & Hcut2). exists rd2.
  split; [|split; [done|split; [by eapply stays_trans|split; [congruence|]]]].
  - eapply shrinks_trans; (eapply shrinks_weaken; [| |done]); [|done| |done]; intros q _ Hq; cbv beta in Hq |- *; lia.
  - intros q Hq Hlq. destruct (decide (height (n_root q) = l)) as [Hh|Hh].
    + assert (N rd2 i' q = N rd1 i1 q) as -> by (apply (h_same _ _ _ _ _ _ _ _ _ _ Hsh2); [done|cbv beta; lia]). by apply Hcut1.
    + assert (N rd1 i1 q = N rd i q) as <- by (apply (h_same _ _ _ _ _ _ _ _ _ _ Hsh1); [done|cbv beta; lia]).
      destruct (Hcut2 q Hq ltac:(lia)) as [A B]. pose proof (Heq q Hq ltac:(lia)) as He. split; [intros; apply A; by apply He|].
      intros Hl Hlt. apply B; [done|]. apply Z.nle_gt. intros Hle. apply He in Hle. lia.
Qed.

(** What is in a higher level comes later. *)
Lemma level_base_mono l l' : (l ≤ l')%nat → level_base l ≤ level_base l'.
Proof.
  induction 1 as [|l' _ IH]; [done|]. cbn [level_base]. pose proof (span_pos a l' ltac:(lia)). unfold level_num. destruct (decide _); lia.
Qed.

Lemma first_block_level l q : valid a q → (S l ≤ height (n_root q))%nat → level_base (S l) ≤ first_block q.
Proof.
  intros (Hr & _ & Hm) Hl. unfold first_block, first. pose proof (level_base_mono _ _ Hl). pose proof (span_pos a (level q) ltac:(lia)).
  destruct (decide _); [lia|]. nia.
Qed.

Lemma addr_ok s : sv_blocksize s = 4 * a → Z.shiftr (u32 (sv_blocksize s)) 2 = a.
Proof. intros ->. rewrite u32_small; [|lia]. rewrite Z.shiftr_div_pow2 // Z.mul_comm. by apply Z.div_mul. Qed.

Lemma punch_levels_ok n : ∀ l start i s rd, (l + n = 4)%nat → file_wf a area (used s) rd i → agrees s rd (λ _, False) → plain_fs s → sv_blocksize s = 4 * a →
  0 ≤ start → start + level_base l ≤ 2^32 - 1 →
  let '(e, i', s') := punch_levels n l (level_root l) (level_num l) (level_num l * span a l) start (2^32 - 1 - level_base l - start) i s in
  in_order (due rd i 0) e (levels_done l (start + level_base l) rd i s i' s').
Proof.
  induction n as [|n IH]; intros l start i s rd Hn Hw Hag Hfs Hbs Hst Hle; cbn [punch_levels].
  { split; [by left|]. intros _. exists rd. split; [apply shrinks_refl; [lia|done]|]. split; [done|]. split; [apply stays_refl|]. split; [done|].
    intros q Hq Hl. pose proof (height_le q Hq). lia. }
  destruct (level_bounds l) as (Hb0 & Hmax & Hbig); [lia|]. rewrite addr_ok //.
  assert (∀ st ct i s, punch_levels n (S l) (level_root l + level_num l) 1 (u64 ((if bool_decide (l = 0%nat) then 1 else level_num l * span a l) * a)) st ct i s =
    punch_levels n (S l) (level_root (S l)) (level_num (S l)) (level_num (S l) * span a (S l)) st ct i s) as Hnext.
  { intros st ct i0 s0. assert (level_root (S l) = level_root l + level_num l ∧ level_num (S l) = 1) as [-> ->] by (unfold level_root, level_num; repeat destruct (decide _); lia).
    f_equal. unfold level_num in *. cbn [span]. destruct (decide (l = 0%nat)) as [->|Hl0].
    - rewrite bool_decide_eq_true_2 // u64_small; cbn [span]; lia.
    - rewrite bool_decide_eq_false_2 // u64_small; [lia|]. split; [nia|]. assert (span a l * a ≤ 2^30 * 2^10) by nia. lia. }
  set (M := level_num l * span a l) in *.
  assert (level_base (S l) = level_base l + M) as Hbase by done. destruct (decide (start < M)) as [Hlt|Hlt].
  - rewrite (bool_decide_eq_true_2 (start < M)) //. pose proof (level_ok l start (2^32 - 1 - level_base l - start) i s rd ltac:(lia) Hw Hag Hfs Hbs ltac:(lia) ltac:(fold M; lia) ltac:(lia)) as H.
    destruct (ind_punch _ _ _ _ _ _ _ _) as [[[e i1] b1] s1]. destruct H as [He H].
    destruct (decide (e = 0)) as [->|He0]; [|by rewrite bool_decide_eq_true_2]. rewrite (bool_decide_eq_false_2 (0 ≠ 0)); [|tauto].
    destruct (H eq_refl) as (rd1 & Hsh & Hag1 & Hstay & Hdue & Hcut). rewrite bool_decide_eq_true_2; [|lia].
    rewrite u32_small; [|lia]. replace (2^32 - 1 - level_base l - start - (M - start)) with (2^32 - 1 - level_base (S l) - 0) by lia.
    pose proof (IH (S l) 0 i1 s1 rd1 ltac:(lia) (h_wf _ _ _ _ _ _ _ _ _ _ Hsh) Hag1 (st_fs _ _ Hstay Hfs) ltac:(by rewrite (st_blocksize _ _ Hstay)) ltac:(lia) ltac:(lia)) as H2.
    rewrite Hnext. destruct (punch_levels _ _ _ _ _ _ _ _ _) as [[e2 i2] s2]. destruct H2 as [He2 H2]. rewrite Hdue in He2. split; [done|]. intros E.
    apply (levels_cons l (start + level_base l) rd i s i1 s1 rd1 Hsh Hstay Hdue Hcut (0 + level_base (S l))); [|by apply H2].
    intros q Hq Hl. pose proof (first_block_level l q Hq Hl). lia.
  - rewrite (bool_decide_eq_false_2 (start < M)) //. replace (2^32 - 1 - level_base l - start) with (2^32 - 1 - level_base (S l) - (start - M)) by lia.
    pose proof (IH (S l) (start - M) i s rd ltac:(lia) Hw Hag Hfs Hbs ltac:(lia) ltac:(lia)) as H2.
    rewrite Hnext. destruct (punch_levels _ _ _ _ _ _ _ _ _) as [[e2 i2] s2]. destruct H2 as [He2 H2]. split; [done|]. intros E.
    apply levels_skip; [lia|lia|]. specialize (H2 E). by replace (start - M + level_base (S l)) with (start + level_base l) in H2 by lia.
Qed.

(** ** [ext2fs_punch] to the end of the file *)
Lemma node_agrees u rd rd' i : file_wf a area u rd i → (∀ x, area x → x ≠ 0 → rd' x = rd x) →
  file_wf a area u rd' i ∧ ∀ p, valid a p → N rd' i p = N rd i p.
Proof.
  intros Hw Hrd. assert (∀ p, valid a p → N rd' i p = N rd i p) as Hn.
  { intros [r d m]. revert m. induction d as [|d IH]; intros m Hp; [by rewrite !node_root|].
    rewrite !(node_parent a ltac:(lia) _ _ (Place r (S d) m)) //; [|cbn; lia..]. cbv zeta.
    assert (valid a (parent a (Place r (S d) m))) as Hpp by (apply valid_parent; [lia|done]).
    change (parent a (Place r (S d) m)) with (Place r d (m / a)) in *. rewrite IH //. case_bool_decide as H0; [done|].
    unfold ptr. rewrite Hrd //. by apply (fw_used _ _ _ _ _ Hw). }
  split; [|done]. pose proof Hw as [H1 H2 H3 H4 H5]. constructor; [done..| | |].
  - intros p Hp. rewrite Hn //. by apply H3.
  - intros p Hp Hl. rewrite Hn //. intros H0. rewrite Hrd; [by apply H4|by apply H3|done].
  - intros p q Hp Hq. rewrite !Hn //. by apply H5.
Qed.

(** After truncation: the blocks before [start] are mapped as before, the others
    are not; blocks are given back exactly when they are not mapped any more, and
    [i_blocks] goes down by their number; indirect blocks are left only where there
    are blocks before [start]; only indirect blocks of the file are written. *)
Record truncated (s : W) (i : list Z) (start : Z) (s' : W) (i' : list Z) : Prop := Truncated {
  tr_wf : file_wf a area (used s') (content s') i';
  tr_like : inode_like i i';
  tr_cut q : valid a q → start ≤ first_block q → N (content s') i' q = 0;
  tr_kept q : valid a q → is_leaf q → first_block q < start → N (content s') i' q = N (content s) i q;
  tr_used x : used s' x ↔ used s x ∧ ¬ freed a (content s) i (content s') i' x;
  tr_content x : area x → x ≠ 0 → (∀ q, valid a q → ¬ is_leaf q → N (content s) i q ≠ x) → content s' x = content s x;
  tr_blocksize : sv_blocksize s' = sv_blocksize s;
  tr_count : ∃ l : list Z, NoDup l ∧ (∀ x, x ∈ l ↔ freed a (content s) i (content s') i' x) ∧
    iblk_count fs0 i' = iblk_count fs0 i - iblk_units fs0 i 1 * Z.of_nat (length l);
}.

Lemma truncated_refl s i start : file_wf a area (used s) (content s) i → (∀ q, valid a q → first_block q < start) → truncated s i start s i.
Proof.
  intros Hw Hlt. assert (∀ x, ¬ freed a (content s) i (content s) i x) as Hno by (intros x (H0 & p & _ & <- & H); done).
  constructor; try done; [intros q Hq; specialize (Hlt q Hq); lia| |].
  - intros x. split; [|tauto]. intros Hx. by split.
  - exists []. split; [constructor|]. split; [|cbn; lia]. intros x. split; [by intros ?%elem_of_nil|]. by intros ?%Hno.
Qed.

(** Writing the inode changes nothing of it. *)
Lemma truncated_after s i start s1 s2 i' : truncated s i start s1 i' → same_blocks content area s1 s2 → (∀ x, used s2 x ↔ used s1 x) →
  sv_blocksize s2 = sv_blocksize s1 → truncated s i start s2 i'.
Proof.
  intros [Hw Hl Hc Hk Hu Hco Hb Hn] Hs Hus Hbs.
  destruct (node_agrees (used s1) (content s1) (content s2) i' Hw) as [Hw' Hq]; [intros x Hx _; by apply Hs|].
  assert (∀ x, freed a (content s) i (content s2) i' x ↔ freed a (content s) i (content s1) i' x) as Hf.
  { intros x. unfold freed. split; intros (Hx0 & p & Hp & Hpx & Hpz); (split; [done|]); exists p; (split; [done|]); (split; [done|]); [by rewrite -Hq|by rewrite Hq]. }
  constructor; [by apply (wf_used_iff (used s1))|done| | | | |congruence|].
  - intros q Hv Hle. rewrite Hq //. by apply Hc.
  - intros q Hv ? ?. rewrite Hq //. by apply Hk.
  - intros x. by rewrite Hus Hu Hf.
  - intros x Hx H0 Hi. rewrite Hs //. by apply Hco.
  - destruct Hn as (l & ? & Hl' & ?). exists l. split; [done|]. split; [|done]. intros x. by rewrite Hf.
Qed.

Lemma first_block_bound q : valid a q → first_block q < 2^32 - 1.
Proof.
  intros Hq. pose proof Hq as (Hr & Hd & Hm). pose proof (height_le q Hq) as Hh. destruct (level_bounds _ Hh) as (H1 & H2 & H3).
  unfold first_block, first. assert (span a (height (n_root q)) = span a (n_depth q) * span a (level q)) as Hs.
  { rewrite -span_add. f_equal. unfold level. lia. }
  pose proof (span_pos a (level q) ltac:(lia)). assert (n_index q * span a (level q) < span a (height (n_root q))) by nia.
  unfold level_num, height in *. destruct (decide _); [|nia]. lia.
Qed.

Lemma punch_ind_ok s i start : file_wf a area (used s) (content s) i → plain_fs s → sv_blocksize s = 4 * a → 0 ≤ start < 2^64 →
  let '(e, i', s') := ext2fs_punch_ind true start (2^64 - 1) i s in
  in_order (due (content s) i 0) e (truncated s i start s' i' ∧ ∀ ino, sv_read_inode s' ino = sv_read_inode s ino).
Proof.
  intros Hw Hfs Hbs Hst. unfold ext2fs_punch_ind. change BLK_T_MAX with (2^32 - 1). case_bool_decide as Hbig.
  { split; [by left|]. intros _. split; [|done]. apply truncated_refl; [done|]. intros q Hq. pose proof (first_block_bound q Hq). lia. }
  rewrite (bool_decide_eq_true_2 (2^32 - 1 ≤ 2^64 - 1)) //. cbn [orb negb]. change EXT2_NDIR_BLOCKS with 12.
  pose proof (punch_levels_ok 4 0 start i s (content s) ltac:(done) Hw ltac:(done) Hfs Hbs ltac:(lia)) as H. cbn [level_base] in H.
  change (level_root 0) with 0 in H. change (level_num 0 * span a 0) with 12 in H. change (level_num 0) with 12 in H. rewrite Z.add_0_r Z.sub_0_r in H.
  destruct (punch_levels _ _ _ _ _ _ _ _ _) as [[e i'] s']. destruct H as [He H]; [lia|]. split; [done|]. intros E.
  destruct (H E) as (rd' & Hsh & Hag & [_ Hb Hi] & Hdue & Hcut). split; [|done].
  destruct (node_agrees (used s') rd' (content s') i') as [Hw' Hn]; [apply Hsh|intros x Hx Hx0; apply Hag; [done|done|tauto]|].
  constructor; [done|apply Hsh| | | | |done|].
  - intros q Hq Hle. rewrite Hn //. apply Hcut; [done|lia|done].
  - intros q Hq Hl Hlt. rewrite Hn //. apply Hcut; [done|lia|done..].
  - intros x. rewrite (h_used _ _ _ _ _ _ _ _ _ _ Hsh). unfold freed. split; intros [Hx Hf]; (split; [done|]); intros (Hx0 & p & Hp & Hpx & Hpz); apply Hf;
      (split; [done|]); exists p; (split; [done|]); (split; [done|]); first [by rewrite Hn|by rewrite -Hn].
  - intros x Hx Hx0 Hq. rewrite Hag //; [|tauto]. apply (h_read _ _ _ _ _ _ _ _ _ _ Hsh); [done|]. intros q Hqv Hql _. by apply Hq.
  - destruct (total_freed a (used s) area (content s) i (content s') i' Hw) as (l & Hnd & Hl & Htot).
    { intros p Hp. rewrite Hn //. by apply (h_zero _ _ _ _ _ _ _ _ _ _ Hsh). }
    exists l. split; [done|]. split; [done|]. revert Hdue. unfold due. rewrite (units_like i i' 1 (h_like _ _ _ _ _ _ _ _ _ _ Hsh)).
    rewrite (total_same a rd' i' (content s') i' Hn) in Htot. rewrite Htot. lia.
Qed.

Lemma level_base_values : level_base 0 = 0 ∧ level_base 1 = 12 ∧ level_base 2 = 12 + a ∧ level_base 3 = 12 + a + a * a.
Proof. unfold level_base, level_num. cbn [span]. repeat (destruct (decide _) as [|]; [try lia|]); lia. Qed.

Lemma first_block_leaf n : 0 ≤ n < file_span a → first_block (leaf_of a n) = n.
Proof.
  unfold file_span, leaf_of. change EXT2_NDIR_BLOCKS with 12. intros Hn. destruct level_base_values as (H0 & H1 & H2 & H3). unfold first_block, first, level.
  repeat case_bool_decide; cbn [n_root n_depth n_index].
  - assert (height n = 0%nat) as -> by (unfold height; lia). destruct (decide (0 = 0)%nat); [|done]. rewrite H0. cbn [Nat.sub span]. lia.
  - change (height 12) with 1%nat. destruct (decide (1 = 0)%nat); [done|]. rewrite H1. cbn [Nat.sub span]. lia.
  - change (height 13) with 2%nat. destruct (decide (2 = 0)%nat); [done|]. rewrite H2. cbn [Nat.sub span] in *. lia.
  - change (height 14) with 3%nat. destruct (decide (3 = 0)%nat); [done|]. rewrite H3. cbn [Nat.sub span] in *. lia.
Qed.

(** A file with pointers: what its blocks are after [ext2fs_punch] to the end. *)
Lemma punch_plain ea_remove fuel s ino i start : file_wf a area (used s) (content s) i → plain_fs s → sv_blocksize s = 4 * a →
  flag (i_flags i) EXT4_EXTENTS_FL = false → flag (i_flags i) EXT4_INLINE_DATA_FL = false → 0 ≤ start < 2^64 →
  ∃ e i' s', ext2fs_punch true ea_remove fuel s ino (Some i) start (2^64 - 1) = Some (e, i', s') ∧
    in_order (due (content s) i 0) e (truncated s i start s' i' ∧ sv_read_inode s' ino = (E_OK, i')).
Proof.
  intros Hw Hfs Hbs Hext Hinl Hst. unfold ext2fs_punch. rewrite bool_decide_eq_false_2; [|lia].
  rewrite (bool_decide_eq_false_2 (E_OK ≠ E_OK)); [|tauto]. rewrite Hinl Hext. cbn [mbind option_bind].
  pose proof (punch_ind_ok s i start Hw Hfs Hbs Hst) as H. destruct (ext2fs_punch_ind true start (2^64 - 1) i s) as [[e i'] s1].
  destruct H as [He H]. destruct (decide (e = 0)) as [->|He0].
  - rewrite (bool_decide_eq_false_2 (0 ≠ 0)); [|tauto]. destruct (H eq_refl) as [Htr _].
    destruct (sv_inode_written content used area s1 ino i') as (s2 & -> & Hs & Hu & Hbs2 & Hri). exists 0, i', s2. split; [done|].
    split; [by left|]. intros _. split; [by apply (truncated_after s i start s1)|]. by rewrite Hri decide_True.
  - rewrite bool_decide_eq_true_2 //. exists e, i', s1. split; [done|]. by split.
Qed.

End truncate.

(** ** The theorem *)
Section punch.
Context {W : Type} `{!Services W} (content : W → Z → list Z) (used : W → Z → Prop) (area : Z → Prop).
Context `{!Serves content used area} `{!Frees content used area}.

End punch.

(** ** Files in memory *)

(** A file with blocks 0, 11 and 12; block 12 is below the indirect block. *)
Definition punch_inode : list Z := set_i_blocks 8 (set_i_block 12 22 (set_i_block 11 21 (set_i_block 0 20 (replicate 128 0)))).
Definition punch_world : mem_world := MemWorld demo_file_fs {[ 22 := set_block_nr 0 23 (replicate 1024 0) ]} ∅ 100 ∅.

Definition punch_node (p : place) : Z :=
  if bool_decide (p = Place 0 0 0) then 20 else if bool_decide (p = Place 11 0 0) then 21 else
  if bool_decide (p = Place 12 0 0) then 22 else if bool_decide (p = Place 12 1 0) then 23 else 0.

Lemma punch_root r : 0 ≤ r < 15 → i_block r punch_inode =
  if bool_decide (r = 0) then 20 else if bool_decide (r = 11) then 21 else if bool_decide (r = 12) then 22 else 0.
Proof.
  intros Hr. assert (Forall (λ r, i_block r punch_inode =
    if bool_decide (r = 0) then 20 else if bool_decide (r = 11) then 21 else if bool_decide (r = 12) then 22 else 0) (seqZ 0 15)) as HF
    by (apply (bool_decide_unpack _); by vm_compute).
  rewrite Forall_forall in HF. apply HF, elem_of_seqZ. lia.
Qed.

Lemma punch_indirect m : 0 ≤ m < 256 → block_nr m (mw_content punch_world 22) = if bool_decide (m = 0) then 23 else 0.
Proof.
  intros Hm. assert (Forall (λ m, block_nr m (mw_content punch_world 22) = if bool_decide (m = 0) then 23 else 0) (seqZ 0 256)) as HF
    by (apply (bool_decide_unpack _); by vm_compute).
  rewrite Forall_forall in HF. apply HF, elem_of_seqZ. lia.
Qed.

Lemma punch_node_ok p : valid 256 p → node 256 (mw_content punch_world) punch_inode p = punch_node p.
Proof.
  intros (Hr & Hd & Hm). destruct p as [r d m]. cbn [n_root n_depth n_index] in *. unfold node, punch_node. cbn [n_root n_depth n_index].
  rewrite punch_root //. unfold height in Hd. destruct (decide (r = 12)) as [->|Hne].
  - destruct d as [|[|d]]; [| |lia].
    + cbn in Hm. assert (m = 0) as -> by lia. by vm_compute.
    + cbn [span] in Hm. change (bool_decide (12 = 0)) with false. change (bool_decide (12 = 11)) with false. change (bool_decide (12 = 12)) with true. cbv iota.
      assert (tree_block (mw_content punch_world) 256 1 22 m = block_nr m (mw_content punch_world 22)) as ->.
      { cbn [tree_block]. rewrite bool_decide_eq_false_2; [|lia]. cbn [span]. rewrite Z.div_1_r. unfold ptr. by case_bool_decide. }
      rewrite punch_indirect; [|lia]. repeat case_bool_decide; subst; congruence.
  - rewrite (bool_decide_eq_false_2 (r = 12)) //. destruct d as [|d].
    + cbn in Hm. assert (m = 0) as -> by lia. cbn [tree_block]. repeat case_bool_decide; subst; congruence.
    + rewrite (bool_decide_eq_false_2 (r = 0)); [|lia]. rewrite (bool_decide_eq_false_2 (r = 11)); [|lia].
      transitivity 0; [done|]. repeat case_bool_decide; congruence.
Qed.

Lemma punch_file : plain_file mw_content mw_used mw_area punch_world punch_inode.
Proof.
  assert (sv_blocksize punch_world = 1024) as Hb by done.
  constructor; [rewrite Hb; lia|by rewrite Hb| |by vm_compute|by vm_compute].
  rewrite Hb. change (1024 / 4) with 256. constructor.
  - do 4 apply set_le_bytes. by apply Forall_replicate.
  - by apply Nat.leb_le; vm_compute.
  - intros p Hp. rewrite punch_node_ok //. unfold punch_node, mw_area, mw_used, punch_world. cbn [mw_next mw_freed].
    repeat case_bool_decide; try done; intros _; (split; [lia|]); (split; [|lia]); (split; [lia|set_solver]).
  - intros p Hp Hl. rewrite punch_node_ok //. unfold punch_node. repeat case_bool_decide; subst; try done; try (by destruct Hl).
    intros _. split; [apply set_le_bytes; by apply Forall_replicate|by vm_compute].
  - intros p q Hp Hq. rewrite !punch_node_ok //. unfold punch_node. repeat case_bool_decide; subst; done.
Qed.


(** Blocks 5 to 12 are punched: blocks 11 goes, but not block 12, since the loop
    over the levels ends when the count is not above 12. *)
Definition punched (s : mem_world) (i : list Z) (start end_ : Z) : option (Z * list Z * mem_world) := ext2fs_punch true (λ s _, (0, s)) 0 s 12 (Some i) start end_.

Example punch_stops_early :
  (λ '(e, i, s), (e, i_block 11 i, i_block 12 i, block_nr 0 (mw_content s 22))) <$> punched punch_world punch_inode 5 12 = Some (0, 0, 22, 23).
Proof. vm_compute. reflexivity. Qed.

(** A file with the first blocks under the second block below the doubly indirect
    block, blocks 524 to 533 of the file. *)
Definition punch_dind_world : mem_world :=
  MemWorld demo_file_fs (<[ 30 := set_block_nr 1 31 (replicate 1024 0) ]>
    {[ 31 := foldr (λ k buf, set_block_nr k (40 + k) buf) (replicate 1024 0) (seqZ 0 10) ]}) ∅ 100 ∅.
Definition punch_dind_inode : list Z := set_i_blocks 24 (set_i_block 13 30 (replicate 128 0)).

(** Block 527 is punched: all blocks from there on are given back. *)
Example punch_frees_too_many :
  (λ '(e, i, s), (e, (λ k, block_nr k (mw_content s 31)) <$> seqZ 0 10)) <$> punched punch_dind_world punch_dind_inode 527 527 =
  Some (0, [40; 41; 42; 0; 0; 0; 0; 0; 0; 0]).
Proof. vm_compute. reflexivity. Qed.
