(* ===== verification/FileIo.v ===== *)
(** * FileIo: reading and writing files (fileio.c)

    An open file has a buffer of one block, with its number in the file, its
    block on the device, and the flags that say whether it is valid and whether
    it was changed.  The functions are operations on the file.

    Punching holes is that of Punch.  Arguments are what other parts do: files kept in
    the inode (inline_data.c), and the table of blocks by their digest (hashmap.c,
    sha512.c) that mke2fs uses to share blocks. *)
From S2P Require Import Prelude.
From S2P Require Import Bytes.
From S2P Require Import Super.
From S2P Require Import Blknum.
From S2P Require Import IoManager.
From S2P Require Import BlockIter.
From S2P Require Import Dirent.
From S2P Require Import IBlock.
From S2P Require Import Services.
From S2P Require Import Extent.
From S2P Require Import Bmap.
From S2P Require Import Punch.
#[local] Open Scope Z_scope.

Definition EXT2_ET_FILE_RO : Z := EXT2_ET_BASE + 77.
Definition EXT2_ET_INLINE_DATA_NO_SPACE : Z := EXT2_ET_BASE + 167.
Definition EXT2_FILE_WRITE : Z := 1.
Definition EXT2_FILE_CREATE : Z := 2.
Definition EXT2_FILE_MASK : Z := 0xFF.
Definition EXT2_FILE_BUF_DIRTY : Z := 0x4000.
Definition EXT2_FILE_BUF_VALID : Z := 0x2000.
Definition EXT2_SEEK_SET : Z := 0.
Definition EXT2_SEEK_CUR : Z := 1.
Definition EXT2_SEEK_END : Z := 2.
Definition EXT2_FLAG_SHARE_DUP : Z := 0x400000.

(** [struct ext2_file]; its magic number is right and [fs] is part of the state.
    [f_buf] is the first third of [buf], the rest is space for [ext2fs_bmap2]. *)
Record ext2_file := File {
  f_ino : Z;
  f_inode : list Z;
  f_flags : Z;
  f_pos : Z;
  f_blockno : Z;
  f_physblock : Z;
  f_buf : list Z;
}.

Definition f_set_inode (i : list Z) (f : ext2_file) : ext2_file :=
  File (f_ino f) i (f_flags f) (f_pos f) (f_blockno f) (f_physblock f) (f_buf f).
Definition f_set_flags (x : Z) (f : ext2_file) : ext2_file :=
  File (f_ino f) (f_inode f) x (f_pos f) (f_blockno f) (f_physblock f) (f_buf f).
Definition f_set_pos (x : Z) (f : ext2_file) : ext2_file :=
  File (f_ino f) (f_inode f) (f_flags f) x (f_blockno f) (f_physblock f) (f_buf f).
Definition f_set_blockno (x : Z) (f : ext2_file) : ext2_file :=
  File (f_ino f) (f_inode f) (f_flags f) (f_pos f) x (f_physblock f) (f_buf f).
Definition f_set_physblock (x : Z) (f : ext2_file) : ext2_file :=
  File (f_ino f) (f_inode f) (f_flags f) (f_pos f) (f_blockno f) x (f_buf f).
Definition f_set_buf (b : list Z) (f : ext2_file) : ext2_file :=
  File (f_ino f) (f_inode f) (f_flags f) (f_pos f) (f_blockno f) (f_physblock f) b.

Definition f_clear (x : Z) (f : ext2_file) : ext2_file := f_set_flags (Z.ldiff (f_flags f) x) f.
Definition f_set (x : Z) (f : ext2_file) : ext2_file := f_set_flags (Z.lor (f_flags f) x) f.

Section fileio.
Context {W : Type} `{!Services W}.
Abbreviation fop := (act ext2_file W).
Context (mem_ok : bool) (junk : ext2fs_extent).

(** [garbage]: what the buffer holds when it is allocated. *)
Definition ext2fs_file_open2 (garbage : list Z) (s : W) (ino : Z) (inode : option (list Z)) (flags : Z) : Z * option ext2_file :=
  if flag flags (Z.lor EXT2_FILE_WRITE EXT2_FILE_CREATE) && negb (flag (fs_flags (sv_fs s)) EXT2_FLAG_RW)
  then (EXT2_ET_RO_FILSYS, None) else
  if negb mem_ok then (errno EXT2_ET_NO_MEMORY, None) else
  let '(e, i) := match inode with Some i => (E_OK, i) | None => sv_read_inode s ino end in
  if bool_decide (e ≠ E_OK) then (errno e, None) else
  (0, Some (File ino i (Z.land flags EXT2_FILE_MASK) 0 0 0 (take (Z.to_nat (sv_blocksize s)) garbage))).

Definition ext2fs_file_open (garbage : list Z) (s : W) (ino flags : Z) : Z * option ext2_file :=
  ext2fs_file_open2 garbage s ino None flags.

Definition ext2fs_file_get_inode (f : ext2_file) : list Z := f_inode f.
Definition ext2fs_file_get_inode_num (f : ext2_file) : Z := f_ino f.

(** [ext2fs_bmap2] with the file's inode: the flags it returns.  [store]: the
    block goes to [physblock], also with an error, and not to a variable that
    nobody reads. *)
Definition file_bmap (store : bool) (flags phys : Z) : fop Z := λ f s,
  '(e, m) ← ext2fs_bmap2 mem_ok junk (f_ino f) (Some (f_inode f)) flags (f_blockno f) phys s;
  let f := f_set_inode (b_inode m) f in
  Some (if bool_decide (e ≠ 0) then inl e else inr (b_ret_flags m), if store then f_set_physblock (b_phys m) f else f, b_state m).

Definition f_flag (x : Z) (f : ext2_file) : bool := flag (f_flags f) x.

(** The block that the buffer is written to, for one that is there: marked as
    initialised when it was not. *)
Definition flush_uninit : fop unit :=
  f ← get_obj;
  if bool_decide (f_physblock f ≠ 0) && flag (i_flags (f_inode f)) EXT4_EXTENTS_FL then
    ret_flags ← file_bmap false 0 0;
    if flag ret_flags BMAP_RET_UNINIT then file_bmap true BMAP_SET (f_physblock f);; mret tt else mret tt
  else mret tt.

(** And one that is allocated. *)
Definition flush_alloc : fop unit :=
  f ← get_obj;
  if bool_decide (f_physblock f = 0) then
    file_bmap true (if bool_decide (f_ino f ≠ 0) then BMAP_ALLOC else 0) 0;; mret tt
  else mret tt.

Definition ext2fs_file_flush : fop unit :=
  f ← get_obj;
  if negb (f_flag EXT2_FILE_BUF_VALID f) || negb (f_flag EXT2_FILE_BUF_DIRTY f) then mret tt else
  flush_uninit;;
  flush_alloc;;
  f ← get_obj;
  service_ (λ s, write_blk64 s (f_physblock f) (f_buf f));;
  modify (f_clear EXT2_FILE_BUF_DIRTY).

Definition sync_buffer_position : fop unit :=
  f ← get_obj;
  s ← get_state;
  let b := f_pos f / sv_blocksize s in
  (if bool_decide (b ≠ f_blockno f) then ext2fs_file_flush;; modify (f_clear EXT2_FILE_BUF_VALID) else mret tt);;
  modify (f_set_blockno b).

Definition load_buffer (dontfill : bool) : fop unit :=
  f ← get_obj;
  if f_flag EXT2_FILE_BUF_VALID f then mret tt else
  ret_flags ← file_bmap true 0 0;
  (if dontfill then mret tt else
   f ← get_obj;
   buf ← (if bool_decide (f_physblock f ≠ 0) && negb (flag ret_flags BMAP_RET_UNINIT) then service (λ s, read_blk64 s (f_physblock f))
          else s ← get_state; mret (replicate (Z.to_nat (sv_blocksize s)) 0));
   modify (f_set_buf buf));;
  modify (f_set EXT2_FILE_BUF_VALID).

(** The memory of the file is freed. *)
Definition ext2fs_file_close : fop unit := ext2fs_file_flush.

(** ** Reading *)
Context (ext2fs_inline_data_get : W → Z → list Z → Z * list Z).
Context (ext2fs_inline_data_set : W → Z → list Z → list Z → Z * list Z * W).
Context (ext2fs_inline_data_expand : W → Z → Z * W).

(** The contents of the inode come to the start of the buffer. *)
Definition fill_buffer (data : list Z) (f : ext2_file) : ext2_file :=
  f_set_buf (take (length (f_buf f)) (data ++ drop (length data) (f_buf f))) f.

Definition ext2fs_file_read_inline_data (wanted : Z) : fop (list Z) :=
  f ← get_obj;
  s ← get_state;
  let '(e, data) := ext2fs_inline_data_get s (f_ino f) (f_inode f) in
  checked e;;
  modify (fill_buffer data);;
  let size := Z.of_nat (length data) in
  if bool_decide (size ≤ f_pos f) then mret [] else
  let count := Z.min (u32 (size - f_pos f)) wanted in
  modify (f_set_pos (u64 (f_pos f + count)));;
  mret (get_bytes (f_pos f) count data).

(** The bytes of one round: up to the end of the block or of the file. *)
Definition read_part (wanted : Z) : fop (list Z) :=
  sync_buffer_position;;
  load_buffer false;;
  f ← get_obj;
  s ← get_state;
  let start := f_pos f mod sv_blocksize s in
  let c := Z.min (Z.min (sv_blocksize s - start) wanted) (EXT2_I_SIZE (f_inode f) - f_pos f) in
  modify (f_set_pos (u64 (f_pos f + c)));;
  mret (get_bytes start c (f_buf f)).

(** The loop, with what was read already: the error and the data. *)
Fixpoint read_loop (fuel : nat) (wanted : Z) (data : list Z) : fop (Z * list Z) :=
  match fuel with
  | O => λ _ _, None
  | S fuel =>
      f ← get_obj;
      if bool_decide (f_pos f < EXT2_I_SIZE (f_inode f) ∧ 0 < wanted) then
        r ← attempt (read_part wanted);
        match r with
        | inl e => mret (e, data)
        | inr l => read_loop fuel (wanted - Z.of_nat (length l)) (data ++ l)
        end
      else mret (0, data)
  end.

(** Every round but the first and the last reads a block. *)
Definition io_fuel (blocksize n : Z) : nat := Z.to_nat (n / blocksize + 3).

(** The error and what is in the caller's buffer. *)
Definition ext2fs_file_read (wanted : Z) : fop (Z * list Z) :=
  f ← get_obj;
  s ← get_state;
  if flag (i_flags (f_inode f)) EXT4_INLINE_DATA_FL then data ← ext2fs_file_read_inline_data wanted; mret (0, data) else
  read_loop (io_fuel (sv_blocksize s) wanted) wanted [].

(** ** Positions and sizes *)
Definition ext2fs_file_llseek (offset whence : Z) : fop Z :=
  f ← get_obj;
  (if bool_decide (whence = EXT2_SEEK_SET) then modify (f_set_pos offset)
   else if bool_decide (whence = EXT2_SEEK_CUR) then modify (f_set_pos (u64 (f_pos f + offset)))
   else if bool_decide (whence = EXT2_SEEK_END) then modify (f_set_pos (u64 (EXT2_I_SIZE (f_inode f) + offset)))
   else err (errno EXT2_ET_INVALID_ARGUMENT));;
  f ← get_obj;
  mret (f_pos f).

(** With 32-bit positions. *)
Definition ext2fs_file_lseek (offset whence : Z) : fop Z :=
  pos ← ext2fs_file_llseek (u64 (s32 offset)) whence; mret (s32 pos).

Definition ext2fs_file_get_lsize (f : ext2_file) : Z := EXT2_I_SIZE (f_inode f).
Definition ext2fs_file_get_size (f : ext2_file) : Z :=
  let size := ext2fs_file_get_lsize f in
  if bool_decide (Z.shiftr size 32 ≠ 0) then 0 else s32 size.

(** The rest of the block that the file ends in is zeroed on the device. *)
Definition ext2fs_file_zero_past_offset (offset : Z) : fop unit :=
  s ← get_state;
  let off := offset mod sv_blocksize s in
  if bool_decide (off = 0) then mret tt else
  sync_buffer_position;;
  f ← get_obj;
  s ← get_state;
  r ← lift_opt (ext2fs_bmap2 mem_ok junk (f_ino f) None 0 (offset / sv_blocksize s) 0 s);
  let '(e, m) := r in
  service_ (λ _, (e, b_state m));;
  if bool_decide (b_phys m = 0) || flag (b_ret_flags m) BMAP_RET_UNINIT then mret tt else
  (if mem_ok then mret tt else err (errno EXT2_ET_NO_MEMORY));;
  b ← service (λ s, read_blk64 s (b_phys m));
  service_ (λ s, write_blk64 s (b_phys m) (put_bytes off (replicate (Z.to_nat (sv_blocksize s - off)) 0) b)).

(** [ext2fs_punch] from a block of the file on; [punch_fuel] bounds the extents
    that it visits. *)
Context (ext2fs_inline_data_ea_remove : W → Z → Z * W) (punch_fuel : nat).
Context (sv_set_fs : ext2_filsys → W → W).

Definition file_punch (start : Z) : fop unit := λ f s,
  '(e, i, s) ← ext2fs_punch mem_ok ext2fs_inline_data_ea_remove punch_fuel s (f_ino f) (Some (f_inode f)) start (2^64 - 1);
  Some (if bool_decide (e ≠ 0) then inl e else inr tt, f_set_inode i f, s).

(** [size] is signed. *)
Definition ext2fs_file_set_size2 (size : Z) : fop unit :=
  f ← get_obj;
  s ← get_state;
  let bs := sv_blocksize s in
  let bits := EXT2_BLOCK_SIZE_BITS (sv_super s) in
  when (bool_decide (size ≠ 0) && ext2fs_file_block_offset_too_big (sv_fs s) (f_inode f) (u64 (Z.quot (size - 1) bs)))
    (errno EXT2_ET_FILE_TOO_BIG);;
  let truncate_block := u64 (Z.shiftr (size + bs - 1) bits) in
  let old_truncate := u64 (Z.shiftr (EXT2_I_SIZE (f_inode f) + bs - 1) bits) in
  let '(e, fs, i) := ext2fs_inode_size_set (sv_fs s) (f_inode f) size in
  service_ (λ s, (errno e, sv_set_fs fs s));;
  modify (f_set_inode i);;
  (if bool_decide (f_ino f ≠ 0) then service_ (λ s, sv_write_inode s (f_ino f) i) else mret tt);;
  ext2fs_file_zero_past_offset size;;
  if bool_decide (old_truncate ≤ truncate_block) then mret tt else file_punch truncate_block.

Definition ext2fs_file_set_size (size : Z) : fop unit := ext2fs_file_set_size2 (s32 size).

(** ** Writing *)

(** The error and how much was written.  The number of bytes is what the
    position leaves of the request, not of the data. *)
Definition ext2fs_file_write_inline_data (data : list Z) : fop (Z * Z) :=
  f ← get_obj;
  s ← get_state;
  let expand : fop (Z * Z) :=
    service_ (λ s, ext2fs_inline_data_expand s (f_ino f));;
    s ← get_state;
    let '(e, i) := sv_read_inode s (f_ino f) in
    modify (f_set_inode i);;
    checked (errno e);;
    err EXT2_ET_INLINE_DATA_NO_SPACE in
  let '(e, old) := ext2fs_inline_data_get s (f_ino f) (f_inode f) in
  checked e;;
  modify (fill_buffer old);;
  if bool_decide (f_pos f < Z.of_nat (length old)) then
    let count := u32 (Z.of_nat (length data) - f_pos f) in
    if bool_decide (Z.of_nat (length data) < count) then lift_opt None else
    let buf := put_bytes (f_pos f) (take (Z.to_nat count) data) old in
    modify (fill_buffer buf);;
    let '(e, i, s) := ext2fs_inline_data_set s (f_ino f) (f_inode f) (take (Z.to_nat count) buf) in
    modify (f_set_inode i);;
    service_ (λ _, (0, s));;
    if bool_decide (e = EXT2_ET_INLINE_DATA_NO_SPACE) then expand else
    checked e;;
    modify (f_set_pos (u64 (f_pos f + count)));;
    f ← get_obj;
    (if bool_decide (count ≠ 0 ∧ EXT2_I_SIZE (f_inode f) < f_pos f) then attempt (ext2fs_file_set_size2 (s64 (f_pos f)));; mret tt else mret tt);;
    mret (0, count)
  else expand.

(** The table of blocks by their digest. *)
Context (hashmap_lookup : W → list Z → option Z).
Context (hashmap_add : W → list Z → Z → Z * W).

(** A block for the buffer: one with the same contents when blocks are shared. *)
Definition write_alloc : fop unit :=
  f ← get_obj;
  s ← get_state;
  let share := flag (fs_flags (sv_fs s)) EXT2_FLAG_SHARE_DUP in
  let bmap_flags := if bool_decide (f_ino f ≠ 0) then BMAP_ALLOC else 0 in
  when (share && negb mem_ok) (errno EXT2_ET_NO_MEMORY);;
  let old := if share then hashmap_lookup s (f_buf f) else None in
  match old with
  | Some b =>
      modify (f_set_physblock b);;
      file_bmap true (Z.lor bmap_flags BMAP_SET) b;;
      s ← get_state;
      modify (λ f, f_set_inode (ext2fs_iblk_add_blocks (sv_fs s) (f_inode f) 1).2 f);;
      f ← get_obj;
      attempt (service_ (λ s, sv_write_inode s (f_ino f) (f_inode f)));;
      mret tt
  | None =>
      file_bmap true bmap_flags 0;;
      if share then
        f ← get_obj;
        r ← attempt (service_ (λ s, hashmap_add s (f_buf f) (f_physblock f)));
        match r with inl _ => err (errno EXT2_ET_NO_MEMORY) | inr _ => mret tt end
      else mret tt
  end.

(** One round: as much as goes into the block. *)
Definition write_part (data : list Z) : fop Z :=
  sync_buffer_position;;
  f ← get_obj;
  s ← get_state;
  let start := f_pos f mod sv_blocksize s in
  let c := Z.min (sv_blocksize s - start) (Z.of_nat (length data)) in
  load_buffer (bool_decide (c = sv_blocksize s));;
  modify (f_set EXT2_FILE_BUF_DIRTY);;
  modify (λ f, f_set_buf (put_bytes start (take (Z.to_nat c) data) (f_buf f)) f);;
  f ← get_obj;
  (if bool_decide (f_physblock f = 0) then write_alloc else mret tt);;
  modify (λ f, f_set_pos (u64 (f_pos f + c)) f);;
  mret c.

(** The loop: the error and how much was written. *)
Fixpoint write_loop (fuel : nat) (data : list Z) (count : Z) : fop (Z * Z) :=
  match fuel with
  | O => λ _ _, None
  | S fuel =>
      if bool_decide (data = []) then mret (0, count) else
      r ← attempt (write_part data);
      match r with
      | inl e => mret (e, count)
      | inr c => write_loop fuel (drop (Z.to_nat c) data) (count + c)
      end
  end.

Definition write_blocks (data : list Z) : fop (Z * Z) :=
  s ← get_state;
  r ← write_loop (io_fuel (sv_blocksize s) (Z.of_nat (length data))) data 0;
  let '(e, count) := r in
  f ← get_obj;
  if bool_decide (count ≠ 0 ∧ EXT2_I_SIZE (f_inode f) < f_pos f) then
    r ← attempt (ext2fs_file_set_size2 (s64 (f_pos f)));
    mret (if bool_decide (e = 0) then match r with inl rc => rc | inr _ => 0 end else e, count)
  else mret (e, count).

(** The error and how much was written. *)
Definition ext2fs_file_write (data : list Z) : fop (Z * Z) :=
  f ← get_obj;
  if negb (f_flag EXT2_FILE_WRITE f) then err EXT2_ET_FILE_RO else
  if flag (i_flags (f_inode f)) EXT4_INLINE_DATA_FL then
    r ← attempt (ext2fs_file_write_inline_data data);
    match r with
    | inl e => if bool_decide (e = EXT2_ET_INLINE_DATA_NO_SPACE) then write_blocks data else err e
    | inr r => mret r
    end
  else write_blocks data.
End fileio.
