(* ===== verification/FileIoProps.v ===== *)
(** * FileIoProps: what is read from a file and what is written to it

    The contents of an open file are its buffer, for the block that is in it, and
    the blocks on the device for the others, with zeros for the holes ([view]).
    For files with pointers: reading gives these bytes and changes none of them,
    writing changes the bytes of its range and no others, whatever blocks have to
    be read, written back and allocated for it; blocks in use outside of the file
    stay as they are ([frame]).  What was written is there after closing the file
    and opening it again. *)
From S2P Require Import Prelude.
From S2P Require Import Bytes.
From S2P Require Import Super.
From S2P Require Import Blknum.
From S2P Require Import IoManager.
From S2P Require Import BlockIter.
From S2P Require Import FileMap.
From S2P Require Import Dirent.
From S2P Require Import IBlock.
From S2P Require Import Services.
From S2P Require Import Extent.
From S2P Require Import Bmap.
From S2P Require Import BmapProps.
From S2P Require Import FileIo.
#[local] Open Scope Z_scope.

(** ** The flags of the file *)
Lemma flag_testbit x k : 0 ≤ k → flag x (2^k) = Z.testbit x k.
Proof.
  intros Hk. unfold flag. destruct (Z.testbit x k) eqn:E.
  - apply bool_decide_eq_true_2. intros H0. apply (f_equal (λ y, Z.testbit y k)) in H0. by rewrite Z.land_spec E Z.pow2_bits_true // Z.bits_0 in H0.
  - apply bool_decide_eq_false_2. intros H0. apply H0. apply Z.bits_inj'. intros j Hj. rewrite Z.land_spec Z.bits_0.
    destruct (decide (j = k)) as [->|Hne]; [by rewrite E|]. by rewrite Z.pow2_bits_false ?andb_false_r.
Qed.

Lemma f_flag_set_eq k f : 0 ≤ k → f_flag (2^k) (f_set (2^k) f) = true.
Proof. intros Hk. unfold f_flag, f_set. cbn [f_set_flags f_flags]. rewrite flag_testbit // Z.lor_spec Z.pow2_bits_true // orb_true_r //. Qed.
Lemma f_flag_set_ne k j f : 0 ≤ k → 0 ≤ j → k ≠ j → f_flag (2^j) (f_set (2^k) f) = f_flag (2^j) f.
Proof.
  intros Hk Hj Hne. unfold f_flag, f_set. cbn [f_set_flags f_flags]. rewrite !flag_testbit // Z.lor_spec Z.pow2_bits_false ?orb_false_r //.
Qed.
Lemma f_flag_clear_eq k f : 0 ≤ k → f_flag (2^k) (f_clear (2^k) f) = false.
Proof. intros Hk. unfold f_flag, f_clear. cbn [f_set_flags f_flags]. rewrite flag_testbit // Z.ldiff_spec Z.pow2_bits_true // andb_false_r //. Qed.
Lemma f_flag_clear_ne k j f : 0 ≤ k → 0 ≤ j → k ≠ j → f_flag (2^j) (f_clear (2^k) f) = f_flag (2^j) f.
Proof.
  intros Hk Hj Hne. unfold f_flag, f_clear. cbn [f_set_flags f_flags]. rewrite !flag_testbit // Z.ldiff_spec Z.pow2_bits_false //. by rewrite andb_true_r.
Qed.

Abbreviation VALID := EXT2_FILE_BUF_VALID.
Abbreviation DIRTY := EXT2_FILE_BUF_DIRTY.
Lemma valid_set f : f_flag VALID (f_set VALID f) = true. Proof. by apply (f_flag_set_eq 13). Qed.
Lemma dirty_set f : f_flag DIRTY (f_set DIRTY f) = true. Proof. by apply (f_flag_set_eq 14). Qed.
Lemma dirty_set_valid f : f_flag DIRTY (f_set VALID f) = f_flag DIRTY f. Proof. by apply (f_flag_set_ne 13 14). Qed.
Lemma valid_set_dirty f : f_flag VALID (f_set DIRTY f) = f_flag VALID f. Proof. by apply (f_flag_set_ne 14 13). Qed.
Lemma write_set_valid f : f_flag EXT2_FILE_WRITE (f_set VALID f) = f_flag EXT2_FILE_WRITE f. Proof. by apply (f_flag_set_ne 13 0). Qed.
Lemma write_set_dirty f : f_flag EXT2_FILE_WRITE (f_set DIRTY f) = f_flag EXT2_FILE_WRITE f. Proof. by apply (f_flag_set_ne 14 0). Qed.
Lemma valid_clear f : f_flag VALID (f_clear VALID f) = false. Proof. by apply (f_flag_clear_eq 13). Qed.
Lemma dirty_clear f : f_flag DIRTY (f_clear DIRTY f) = false. Proof. by apply (f_flag_clear_eq 14). Qed.
Lemma dirty_clear_valid f : f_flag DIRTY (f_clear VALID f) = f_flag DIRTY f. Proof. by apply (f_flag_clear_ne 13 14). Qed.
Lemma valid_clear_dirty f : f_flag VALID (f_clear DIRTY f) = f_flag VALID f. Proof. by apply (f_flag_clear_ne 14 13). Qed.
Lemma write_clear_valid f : f_flag EXT2_FILE_WRITE (f_clear VALID f) = f_flag EXT2_FILE_WRITE f. Proof. by apply (f_flag_clear_ne 13 0). Qed.
Lemma write_clear_dirty f : f_flag EXT2_FILE_WRITE (f_clear DIRTY f) = f_flag EXT2_FILE_WRITE f. Proof. by apply (f_flag_clear_ne 14 0). Qed.

(** ** The contents of a file *)
Section file.
Context {W : Type} `{!Services W} (content : W → Z → list Z) (used : W → Z → Prop) (area : Z → Prop).
Context `{!Serves content used area} (junk : ext2fs_extent).

(** Blocks are not shared between files by their contents. *)
Definition no_share (s : W) : Prop := flag (fs_flags (sv_fs s)) EXT2_FLAG_SHARE_DUP = false.
Context `{!Invariant no_share}.

Abbreviation plain := (plain_file content used area).
Abbreviation blk := (plain_block content).

Definition disk_block (s : W) (i : list Z) (n : Z) : list Z :=
  if decide (blk s i n = 0) then replicate (Z.to_nat (sv_blocksize s)) 0 else content s (blk s i n).
Definition view (s : W) (f : ext2_file) (n : Z) : list Z :=
  if f_flag VALID f && bool_decide (n = f_blockno f) then f_buf f else disk_block s (f_inode f) n.

(** Blocks in use that are not of the file. *)
Definition outside (s : W) (i : list Z) (x : Z) : Prop :=
  x ≠ 0 ∧ area x ∧ used s x ∧ ∀ p, valid (sv_blocksize s / 4) p → node (sv_blocksize s / 4) (content s) i p ≠ x.
Definition frame (s : W) (i : list Z) (s' : W) (i' : list Z) : Prop :=
  ∀ x, outside s i x → outside s' i' x ∧ content s' x = content s x.

(** An open file: its map is well-formed, its blocks are blocks, and a valid
    buffer is for the block it says, with what the device has unless it is dirty. *)
Record open_file (s : W) (f : ext2_file) : Prop := OpenFile {
  of_plain : plain s (f_inode f);
  of_disk n : 0 ≤ n < max_blocks s → Z.of_nat (length (disk_block s (f_inode f) n)) = sv_blocksize s;
  of_buf : Z.of_nat (length (f_buf f)) = sv_blocksize s;
  of_valid : f_flag VALID f = true → 0 ≤ f_blockno f < max_blocks s ∧ f_physblock f = blk s (f_inode f) (f_blockno f) ∧
    (f_flag DIRTY f = false → f_buf f = disk_block s (f_inode f) (f_blockno f));
  of_dirty : f_flag DIRTY f = true → f_flag VALID f = true;
  of_size : EXT2_I_SIZE (f_inode f) ≤ max_blocks s * sv_blocksize s;
  of_pos : 0 ≤ f_pos f < 2^64;
}.

(** A dirty buffer has its block; the inode is on the device as it is in memory. *)
Definition settled (f : ext2_file) : Prop := f_flag VALID f = true → f_flag DIRTY f = true → f_physblock f ≠ 0.
Definition stored (s : W) (f : ext2_file) : Prop := sv_read_inode s (f_ino f) = (E_OK, f_inode f).

(** What the operations keep: all but the position, the buffer and the contents. *)
Record goes (s : W) (f : ext2_file) (s' : W) (f' : ext2_file) : Prop := Goes {
  go_open : open_file s' f';
  go_blocksize : sv_blocksize s' = sv_blocksize s;
  go_share : no_share s → no_share s';
  go_like : inode_like (f_inode f) (f_inode f');
  go_ino : f_ino f' = f_ino f;
  go_write : f_flag EXT2_FILE_WRITE f' = f_flag EXT2_FILE_WRITE f;
  go_frame : frame s (f_inode f) s' (f_inode f');
}.
Definition same_view (s : W) (f : ext2_file) (s' : W) (f' : ext2_file) : Prop :=
  ∀ n, 0 ≤ n < max_blocks s → view s' f' n = view s f n.

Lemma max_blocks_eq s s' : sv_blocksize s' = sv_blocksize s → max_blocks s' = max_blocks s.
Proof. unfold max_blocks. by intros ->. Qed.

Lemma frame_refl s i : frame s i s i.
Proof. by intros x Hx. Qed.
Lemma frame_trans s i s1 i1 s2 i2 : frame s i s1 i1 → frame s1 i1 s2 i2 → frame s i s2 i2.
Proof. intros H1 H2 x Hx. destruct (H1 x Hx) as [Hx1 E1]. destruct (H2 x Hx1) as [Hx2 E2]. split; [done|]. by rewrite E2. Qed.

Lemma goes_refl s f : open_file s f → goes s f s f.
Proof. intros Ho. constructor; done. Qed.
Lemma goes_trans s f s1 f1 s2 f2 : goes s f s1 f1 → goes s1 f1 s2 f2 → goes s f s2 f2.
Proof.
  intros [? ? ? ? ? ? ?] [? ? ? ? ? ? ?]. constructor; first [congruence|by auto|by eapply inode_like_trans|by eapply frame_trans].
Qed.
Lemma same_view_trans s f s1 f1 s2 f2 : sv_blocksize s1 = sv_blocksize s → same_view s f s1 f1 → same_view s1 f1 s2 f2 → same_view s f s2 f2.
Proof. intros Hb H1 H2 n Hn. rewrite H2; [by apply H1|]. by rewrite (max_blocks_eq _ _ Hb). Qed.

Lemma blocksize_pos s i : plain s i → 0 < sv_blocksize s ∧ 0 < max_blocks s < 2^32 ∧ sv_blocksize s ≤ 65536.
Proof.
  intros Hp. destruct (plain_limit _ _ _ s i Hp) as [Ha Hb]. pose proof (pf_block _ _ _ _ _ Hp). split; [lia|]. split; [|lia].
  unfold max_blocks, file_span. pose proof (span_pos (sv_blocksize s / 4) 1). pose proof (span_pos (sv_blocksize s / 4) 2).
  pose proof (span_pos (sv_blocksize s / 4) 3). change EXT2_NDIR_BLOCKS with 12. lia.
Qed.

(** A file whose inode and whose blocks stay what they were. *)
Lemma congr_view s i s' i' : plain s i → sv_blocksize s' = sv_blocksize s → (∀ x, used s x → used s' x) →
  (∀ x, x ≠ 0 → indirect content s i x → content s' x = content s x) →
  is_bytes i' → (128 ≤ length i')%nat → i_flags i' = i_flags i → (∀ r, 0 ≤ r < 15 → i_block r i' = i_block r i) →
  plain s' i' ∧ (∀ n, 0 ≤ n < max_blocks s → blk s' i' n = blk s i n) ∧
  (∀ x, outside s i x → outside s' i' x).
Proof.
  intros Hp Hbs Hu Hc Hby Hlen Hfl Hib. destruct (plain_congr content used area s i s' i') as [Hp' Hn]; [done..|].
  destruct (plain_limit _ _ _ s i Hp) as [Ha _].
  split; [done|]. split.
  - intros n Hn'. unfold plain_block. rewrite Hbs. rewrite !file_block_node; [|lia..]. apply Hn. apply leaf_of_ok. split; [lia|apply max_blocks_span; lia].
  - intros x (H0 & Hx & Hux & Hnx). split; [done|]. split; [done|]. split; [by apply Hu|]. rewrite Hbs. intros p Hpv. rewrite Hn //. by apply Hnx.
Qed.

(** A device that does not change. *)
Lemma quiet_view s i s' : plain s i → same_blocks content area s s' → keeps used s s' →
  plain s' i ∧ (∀ n, 0 ≤ n < max_blocks s → disk_block s' i n = disk_block s i n ∧ blk s' i n = blk s i n) ∧ frame s i s' i.
Proof.
  intros Hp Hs [Hu Hi Hb]. pose proof (pf_wf _ _ _ _ _ Hp) as Hw. destruct (congr_view s i s' i) as (Hp' & Hblk & Ho); [done|done|by intros x; apply Hu| |apply Hw|apply Hw|done|done|].
  { intros x H0 (p & Hpv & Hpl & <-). apply Hs. by apply (fw_used _ _ _ _ _ Hw). }
  split; [done|]. split.
  - intros n Hn. split; [|by apply Hblk]. unfold disk_block. rewrite Hblk // Hb. case_decide as H0; [done|]. apply Hs. by apply (plain_block_ok content used area s i n).
  - intros x Hx. split; [by apply Ho|]. by apply Hs, Hx.
Qed.

(** Only the device and the buffer change, with the device the same to look at. *)
Lemma goes_quiet s f s' f' : open_file s f → same_blocks content area s s' → keeps used s s' → (no_share s → no_share s') →
  f_inode f' = f_inode f → f_ino f' = f_ino f → f_pos f' = f_pos f → f_flag EXT2_FILE_WRITE f' = f_flag EXT2_FILE_WRITE f →
  Z.of_nat (length (f_buf f')) = sv_blocksize s →
  (f_flag VALID f' = true → 0 ≤ f_blockno f' < max_blocks s ∧ f_physblock f' = blk s (f_inode f) (f_blockno f') ∧
    (f_flag DIRTY f' = false → f_buf f' = disk_block s (f_inode f) (f_blockno f'))) →
  (f_flag DIRTY f' = true → f_flag VALID f' = true) →
  goes s f s' f' ∧ ∀ n, 0 ≤ n < max_blocks s → disk_block s' (f_inode f') n = disk_block s (f_inode f) n.
Proof.
  intros Ho Hs Hk Hsh Hi Hino Hpos Hw Hbuf Hv Hdv. destruct (quiet_view s (f_inode f) s' (of_plain _ _ Ho) Hs Hk) as (Hp' & Hd & Hf).
  pose proof (k_blocksize _ _ _ Hk) as Hb. rewrite Hi. split; [|by apply Hd]. constructor; try done; try by rewrite Hi.
  constructor; rewrite ?Hi ?Hb ?(max_blocks_eq _ _ Hb); [done| |done| |done|apply Ho|by rewrite Hpos; apply Ho].
  - intros n Hn. destruct (Hd n Hn) as [-> _]. by apply Ho.
  - intros Hval. destruct (Hv Hval) as (H1 & H2 & H3). destruct (Hd _ H1) as [Hd1 Hd2]. split; [done|]. by rewrite Hd1 Hd2.
Qed.

(** ** [ext2fs_bmap2] for the file *)
Lemma f_set_inode_same f : f_set_inode (f_inode f) f = f.
Proof. by destruct f. Qed.

Lemma file_bmap_finds store s f : open_file s f → 0 ≤ f_blockno f < max_blocks s →
  ∃ s', file_bmap true junk store 0 0 f s = Some (inr 0, if store then f_set_physblock (blk s (f_inode f) (f_blockno f)) f else f, s') ∧
    same_blocks content area s s' ∧ keeps used s s' ∧ (no_share s → no_share s').
Proof.
  intros Ho Hn. pose proof (of_plain _ _ Ho) as Hp. unfold file_bmap.
  destruct (bmap_finds content used area junk (f_ino f) s (f_inode f) (f_blockno f) 0 Hp Hn) as (s' & E & Hs & Hk). rewrite E. cbn.
  rewrite f_set_inode_same. exists s'. split; [done|]. split; [done|]. split; [done|].
  intros Hsh. by apply (bmap_inv content used area junk (f_ino f) no_share _ _ _ _ _ _ _ Hp Hsh E).
Qed.

Lemma file_bmap_too_big flags s f : open_file s f → max_blocks s ≤ f_blockno f →
  ∃ e p, file_bmap true junk true flags 0 f s = Some (inl e, f_set_physblock p f, s) ∧ e ≠ 0.
Proof.
  intros Ho Hn. pose proof (of_plain _ _ Ho) as Hp. unfold file_bmap.
  destruct (bmap_too_big content used area junk (f_ino f) s (f_inode f) (f_blockno f) flags 0 Hp Hn) as (m & -> & Hi & Hs). cbn.
  rewrite Hi Hs f_set_inode_same. by eexists _, _.
Qed.

(** Allocating a block changes no contents: the new block has the zeros of the hole. *)
Lemma file_bmap_allocates s f : open_file s f → 0 ≤ f_blockno f < max_blocks s →
  ∃ r i' p s', file_bmap true junk true BMAP_ALLOC 0 f s = Some (r, f_set_physblock p (f_set_inode i' f), s') ∧
    plain s' i' ∧ sv_blocksize s' = sv_blocksize s ∧ inode_like (f_inode f) i' ∧ (no_share s → no_share s') ∧
    (∀ n, 0 ≤ n < max_blocks s → disk_block s' i' n = disk_block s (f_inode f) n) ∧
    p = blk s' i' (f_blockno f) ∧ frame s (f_inode f) s' i' ∧
    match r with inl e => e ≠ 0 ∧ p = 0 ∧ blk s (f_inode f) (f_blockno f) = 0
            | inr r => r = 0 ∧ p ≠ 0 ∧ (sv_read_inode s (f_ino f) = (E_OK, f_inode f) → sv_read_inode s' (f_ino f) = (E_OK, i')) end.
Proof.
  intros Ho Hn. pose proof (of_plain _ _ Ho) as Hp. unfold file_bmap. set (i := f_inode f) in *. set (n := f_blockno f) in *.
  destruct (bmap_allocates content used area junk (f_ino f) s i n 0 Hp Hn) as (e & m & l & k & E & Hfl & _ & Hp' & Hbs & Hil & Hoth & Hu & Hnew & Hc & Hcase).
  rewrite E. cbn [mbind option_bind]. cbv beta zeta iota. eexists _, (b_inode m), (b_phys m), (b_state m). split; [done|].
  split; [done|]. split; [done|]. split; [done|].
  split. { intros Hsh. by apply (bmap_inv content used area junk (f_ino f) no_share _ _ _ _ _ _ _ Hp Hsh E). }
  assert (∀ n', 0 ≤ n' < max_blocks s → blk s i n' ≠ 0 → blk (b_state m) (b_inode m) n' = blk s i n' →
    disk_block (b_state m) (b_inode m) n' = disk_block s i n') as Hsame.
  { intros n' Hn' H0 Heq. unfold disk_block. rewrite Heq !(decide_False _ _ H0).
    destruct (plain_block_ok content used area s i n' Hp Hn' H0) as (H1 & H2 & H3 & H4 & _). by apply Hc. }
  assert (frame s i (b_state m) (b_inode m)) as Hfr.
  { intros x (H0 & Hx & Hux & Hnx). split; [|apply Hc; [done..|]; by intros (p & Hpv & _ & Hpx); apply (Hnx p)].
    split; [done|]. split; [done|]. split; [by apply Hu|]. rewrite Hbs. intros p Hpv. destruct (Hnew p Hpv) as [-> |Hfr]; [by apply Hnx|]. by intros Heq; rewrite Heq in Hfr. }
  assert (∀ n', 0 ≤ n' < max_blocks s → n' ≠ n → disk_block (b_state m) (b_inode m) n' = disk_block s i n') as Hothers.
  { intros n' Hn' Hne. destruct (decide (blk s i n' = 0)) as [H0|H0]; [|by apply Hsame; [..|apply Hoth]].
    unfold disk_block. rewrite Hoth // H0 Hbs. done. }
  destruct (decide (e = 0)) as [->|He].
  - destruct Hcase as (H1 & H2 & H3 & H5). rewrite (bool_decide_eq_false_2 (0 ≠ 0)); [|tauto]. split; [|split; [done|split; [done|]]].
    + intros n' Hn'. destruct (decide (n' = n)) as [->|Hne]; [|by apply Hothers].
      destruct (decide (blk s i n = 0)) as [H0|H0]; [|by apply Hsame; [..|rewrite -H1]].
      destruct H3 as [_ H3]. unfold disk_block. rewrite -H1 H0. rewrite (decide_False _ _ H2) H3. by destruct (decide (0 = 0)).
    + rewrite Hfl. split; [done|]. split; [done|]. intros Hst. destruct (decide (k = 0)).
      * destruct H5 as [-> ->]. done.
      * rewrite H5 decide_True //.
  - destruct Hcase as (H1 & H2 & H3 & _). rewrite (bool_decide_eq_true_2 (e ≠ 0)) //. split; [|split; [by rewrite H1 H3|split; [done|done]]].
    intros n' Hn'. destruct (decide (n' = n)) as [->|Hne]; [|by apply Hothers]. unfold disk_block. by rewrite H2 H3 Hbs.
Qed.

(** Writing a block of data. *)
Lemma write_data s i n buf s' : plain s i → 0 ≤ n < max_blocks s → blk s i n ≠ 0 → keeps used s s' →
  (∀ x, area x → content s' x = if decide (x = blk s i n) then buf else content s x) →
  plain s' i ∧ (∀ n', 0 ≤ n' < max_blocks s → blk s' i n' = blk s i n') ∧
  (∀ n', 0 ≤ n' < max_blocks s → disk_block s' i n' = if decide (n' = n) then buf else disk_block s i n') ∧ frame s i s' i.
Proof.
  intros Hp Hn H0 [Hu Hi Hb] Hc. pose proof (pf_wf _ _ _ _ _ Hp) as Hw.
  destruct (plain_block_ok content used area s i n Hp Hn H0) as (Ha & Hub & Hr & Hni & Hinj).
  destruct (congr_view s i s' i) as (Hp' & Hblk & Ho); [done|done|by intros x; apply Hu| |apply Hw|apply Hw|done|done|].
  { intros x Hx0 Hxi. pose proof Hxi as (p & Hpv & Hpl & Hpx). rewrite Hc; [by apply decide_False; intros ->|]. rewrite -Hpx. by apply (fw_used _ _ _ _ _ Hw); [|rewrite Hpx]. }
  split; [done|]. split; [done|]. split.
  - intros n' Hn'. unfold disk_block. rewrite Hblk // Hb. destruct (decide (n' = n)) as [->|Hne]; [rewrite (decide_False _ _ H0) Hc // decide_True //|].
    case_decide as Hz; [done|]. destruct (plain_block_ok content used area s i n' Hp Hn' Hz) as (Ha' & _). rewrite Hc //.
    rewrite decide_False //. intros Heq. apply Hne. by apply Hinj.
  - intros x Hx. split; [by apply Ho|]. rewrite Hc; [|apply Hx]. rewrite decide_False //. intros ->. destruct Hx as (_ & _ & _ & Hx).
    destruct (plain_limit _ _ _ s i Hp) as [Hlim _]. destruct (leaf_of_ok (sv_blocksize s / 4) n) as [Hv _]; [split; [lia|apply max_blocks_span; lia]|].
    apply (Hx _ Hv). unfold plain_block. by rewrite file_block_node; [|lia].
Qed.

(** ** Flushing the buffer *)
Lemma size_like i i' : inode_like i i' → EXT2_I_SIZE i' = EXT2_I_SIZE i.
Proof. intros (_ & _ & H1 & H2). unfold EXT2_I_SIZE. by rewrite H1 H2. Qed.

Lemma goes_inode s f s' i' p : open_file s f → plain s' i' → sv_blocksize s' = sv_blocksize s → inode_like (f_inode f) i' → (no_share s → no_share s') →
  (∀ n, 0 ≤ n < max_blocks s → disk_block s' i' n = disk_block s (f_inode f) n) → frame s (f_inode f) s' i' →
  (f_flag VALID f = true → p = blk s' i' (f_blockno f)) →
  goes s f s' (f_set_physblock p (f_set_inode i' f)) ∧ same_view s f s' (f_set_physblock p (f_set_inode i' f)).
Proof.
  intros Ho Hp Hb Hil Hsh Hd Hfr Hph. destruct f as [ino i fl pos bn ph buf]. unfold f_set_physblock, f_set_inode. cbn [f_ino f_inode f_flags f_pos f_blockno f_physblock f_buf] in *.
  destruct Ho as [H1 H2 H3 H4 HD H5 H6]. cbn [f_ino f_inode f_flags f_pos f_blockno f_physblock f_buf] in *. unfold f_flag in *. cbn [f_flags] in *. split.
  - constructor; try done. constructor; cbn [f_ino f_inode f_flags f_pos f_blockno f_physblock f_buf]; rewrite ?Hb ?(max_blocks_eq _ _ Hb); [done| |done| |done| |done].
    + intros n Hn. rewrite Hd //. by apply H2.
    + unfold f_flag. cbn [f_flags]. intros Hv. destruct (H4 Hv) as (H7 & H8 & H9). split; [done|]. rewrite Hd //. split; [by apply Hph|done].
    + by rewrite (size_like _ _ Hil).
  - intros n Hn. unfold view, f_flag. cbn [f_flags f_blockno f_buf f_inode]. by rewrite Hd.
Qed.

Lemma flush_alloc_ok s f : open_file s f → f_flag VALID f = true → f_ino f ≠ 0 →
  runs (flush_alloc true junk) f s (λ r f' s', goes s f s' f' ∧ same_view s f s' f' ∧ f_pos f' = f_pos f ∧ f_blockno f' = f_blockno f ∧ f_flags f' = f_flags f ∧ f_buf f' = f_buf f ∧
    match r with inl e => e ≠ 0 ∧ f_physblock f = 0 ∧ f_physblock f' = 0 | inr _ => f_physblock f' ≠ 0 ∧ (stored s f → stored s' f') end).
Proof.
  intros Ho Hv Hino. unfold flush_alloc. apply runs_bind, runs_get_obj. destruct (of_valid _ _ Ho Hv) as (Hn & Hph & _).
  case_bool_decide as H0; [|apply runs_ret; split; [by apply goes_refl|done]].
  rewrite bool_decide_eq_true_2 //. apply runs_bind.
  destruct (file_bmap_allocates s f Ho Hn) as (r & i' & p & s' & E & Hp & Hb & Hil & Hsh & Hd & Hpb & Hfr & Hr).
  destruct (goes_inode s f s' i' p Ho Hp Hb Hil Hsh Hd Hfr ltac:(done)) as [Hg Hvw].
  eexists _, _, _. split; [exact E|]. destruct r as [e|r].
  - split; [done|]. split; [done|]. do 4 (split; [done|]). by destruct Hr as (? & ? & _).
  - apply runs_ret. split; [done|]. split; [done|]. do 4 (split; [done|]). by destruct Hr as (_ & ? & ?).
Qed.

Lemma flush_uninit_plain s f : open_file s f → flush_uninit true junk f s = Some (inr tt, f, s).
Proof.
  intros Ho. unfold flush_uninit, get_obj, mbind, act_bind. cbn. rewrite (pf_extents _ _ _ _ _ (of_plain _ _ Ho)). by rewrite andb_false_r.
Qed.

(** The buffer of a file that has a block for it is written to it. *)
Lemma flush_write s f s' : open_file s f → f_flag VALID f = true → f_physblock f ≠ 0 → keeps used s s' → (no_share s → no_share s') →
  (∀ x, area x → content s' x = if decide (x = f_physblock f) then f_buf f else content s x) →
  goes s f s' (f_clear DIRTY f) ∧ same_view s f s' (f_clear DIRTY f).
Proof.
  intros Ho Hv H0 Hk Hsh Hc. destruct (of_valid _ _ Ho Hv) as (Hn & Hph & _). rewrite Hph in H0, Hc.
  destruct (write_data s (f_inode f) (f_blockno f) (f_buf f) s' (of_plain _ _ Ho) Hn H0 Hk Hc) as (Hp & Hblk & Hd & Hfr).
  pose proof (k_blocksize _ _ _ Hk) as Hb. split.
  - constructor; try done; [|by rewrite write_clear_dirty].
    constructor; cbn [f_clear f_set_flags f_inode f_blockno f_physblock f_buf f_pos]; rewrite ?Hb ?(max_blocks_eq _ _ Hb); [done| |apply Ho| | |apply Ho|apply Ho].
    + intros n Hn'. rewrite Hd //. case_decide; apply Ho; done.
    + intros _. split; [done|]. rewrite Hblk // Hd // decide_True //.
    + change (f_flag DIRTY (f_clear DIRTY f) = true → f_flag VALID (f_clear DIRTY f) = true). by rewrite dirty_clear.
  - intros n Hn'. unfold view. rewrite valid_clear_dirty Hv. cbn [f_clear f_set_flags f_inode f_blockno f_buf andb]. rewrite Hd //.
    case_bool_decide as Hnn; [done|]. rewrite decide_False //.
Qed.

Definition clean (f : ext2_file) : Prop := f_flag VALID f && f_flag DIRTY f = false.

Lemma clean_settled f : clean f → settled f.
Proof. unfold clean, settled. intros H Hv Hd. by rewrite Hv Hd in H. Qed.

Lemma clean_view s f n : open_file s f → clean f → 0 ≤ n < max_blocks s → view s f n = disk_block s (f_inode f) n.
Proof.
  intros Ho Hc Hn. unfold view. destruct (f_flag VALID f) eqn:Hv; [|done]. unfold clean in Hc. rewrite Hv in Hc.
  case_bool_decide as Hnn; [|done]. subst n. by apply (of_valid _ _ Ho).
Qed.

Lemma flush_ok s f : open_file s f → f_ino f ≠ 0 →
  runs (ext2fs_file_flush true junk) f s (λ r f' s', goes s f s' f' ∧ same_view s f s' f' ∧ f_pos f' = f_pos f ∧ f_blockno f' = f_blockno f ∧ f_flag VALID f' = f_flag VALID f ∧
    match r with inl e => e ≠ 0 ∧ ¬ settled f | inr _ => clean f' ∧ (stored s f → stored s' f') end).
Proof.
  intros Ho Hino. unfold ext2fs_file_flush. apply runs_bind, runs_get_obj.
  destruct (f_flag VALID f) eqn:Hv; destruct (f_flag DIRTY f) eqn:Hd; cbn [negb orb];
    [|apply runs_ret; split; [by apply goes_refl|]; split; [done|]; split; [done|]; split; [done|]; rewrite /clean Hv ?Hd; done..].
  apply runs_bind. eexists _, _, _. split; [by apply flush_uninit_plain|]. apply runs_bind. eapply runs_mono; [by apply flush_alloc_ok|].
  intros r f1 s1 (Hg & Hvw & Hpos & Hbn & Hfl & Hbuf & Hr). cbv beta in Hr. destruct r as [e|r].
  { split; [done|]. split; [done|]. split; [done|]. split; [done|]. split; [by rewrite -Hv /f_flag Hfl|]. split; [apply Hr|]. intros Hs. by apply (Hs Hv Hd), Hr. }
  destruct Hr as [H0 Hst]. apply runs_bind, runs_get_obj, runs_bind. pose proof (go_open _ _ _ _ Hg) as Ho1.
  assert (f_flag VALID f1 = true) as Hv1 by by rewrite /f_flag Hfl. destruct (of_valid _ _ Ho1 Hv1) as (Hn1 & Hph1 & _).
  assert (blk s1 (f_inode f1) (f_blockno f1) ≠ 0) as Hb1 by by rewrite -Hph1.
  destruct (plain_block_ok content used area s1 _ _ (of_plain _ _ Ho1) Hn1 Hb1) as (Ha1 & _).
  destruct (sv_write64 content used area s1 (f_physblock f1) (f_buf f1)) as (s2 & E & Hk & Hc); [by rewrite Hph1|].
  eapply runs_service_; [exact E|]. rewrite (bool_decide_eq_false_2 (0 ≠ 0)); [|tauto]. apply runs_modify.
  assert (no_share s1 → no_share s2) as Hsh. { intros Hs1. pose proof (inv_write64 s1 (f_physblock f1) (f_buf f1) Hs1) as H. by rewrite E in H. }
  destruct (flush_write s1 f1 s2 Ho1 Hv1 H0 Hk Hsh Hc) as [Hg2 Hvw2].
  split; [by eapply goes_trans|]. split; [eapply same_view_trans; [apply (go_blocksize _ _ _ _ Hg)|done..]|]. split; [done|]. split; [done|].
  rewrite valid_clear_dirty. split; [done|]. split; [by rewrite /clean dirty_clear andb_false_r|]. intros Hs. unfold stored. cbn [f_clear f_set_flags f_inode f_ino].
  rewrite (k_inode _ _ _ Hk). by apply Hst.
Qed.

Lemma sync_position_ok s f : open_file s f → f_ino f ≠ 0 →
  runs (sync_buffer_position true junk) f s (λ r f' s', goes s f s' f' ∧ same_view s f s' f' ∧ f_pos f' = f_pos f ∧
    match r with inl e => e ≠ 0 ∧ ¬ settled f
            | inr _ => f_blockno f' = f_pos f / sv_blocksize s ∧ (stored s f → stored s' f') ∧ (settled f → settled f') end).
Proof.
  intros Ho Hino. unfold sync_buffer_position. apply runs_bind, runs_get_obj, runs_bind, runs_get_state, runs_bind.
  case_bool_decide as Hbn.
  - apply runs_bind. eapply runs_mono; [by apply flush_ok|]. intros r f1 s1 (Hg & Hvw & Hpos & Hbn1 & Hv1 & Hr). cbv beta in Hr. destruct r as [e|r].
    { split; [done|]. split; [done|]. split; [done|]. by destruct Hr. }
    destruct Hr as [Hcl Hst]. apply runs_modify, runs_modify. pose proof (go_open _ _ _ _ Hg) as Ho1.
    assert (goes s1 f1 s1 (f_set_blockno (f_pos f / sv_blocksize s) (f_clear VALID f1))) as Hg2.
    { apply goes_quiet; try done; [apply (write_clear_valid f1)|apply Ho1| |].
      - intros Hv. change (f_flag VALID (f_clear VALID f1) = true) in Hv. by rewrite valid_clear in Hv.
      - change (f_flag DIRTY (f_clear VALID f1) = true → f_flag VALID (f_clear VALID f1) = true). rewrite dirty_clear_valid.
        intros Hd. pose proof (of_dirty _ _ Ho1 Hd) as Hv. unfold clean in Hcl. by rewrite Hv Hd in Hcl. }
    split; [by eapply goes_trans|]. split; [eapply same_view_trans; [apply (go_blocksize _ _ _ _ Hg)|done|]|split; [done|split; [done|split]]].
    + intros n Hn. rewrite (clean_view s1 f1) //. unfold view. change (f_flag VALID (f_set_blockno _ (f_clear VALID f1))) with (f_flag VALID (f_clear VALID f1)).
      by rewrite valid_clear.
    + intros Hs. by apply Hst.
    + intros _ Hv. change (f_flag VALID (f_clear VALID f1) = true) in Hv. by rewrite valid_clear in Hv.
  - assert (f_pos f / sv_blocksize s = f_blockno f) as Hq by (destruct (decide (f_pos f / sv_blocksize s = f_blockno f)); [done|by destruct Hbn]).
    apply runs_ret, runs_modify. rewrite Hq. assert (f_set_blockno (f_blockno f) f = f) as -> by by destruct f.
    split; [by apply goes_refl|]. done.
Qed.

(** ** Loading the buffer *)
Lemma load_ok df s f : open_file s f → 0 ≤ f_blockno f < max_blocks s →
  runs (load_buffer true junk df) f s (λ r f' s', r = inr tt ∧ same_blocks content area s s' ∧ keeps used s s' ∧ (no_share s → no_share s') ∧
    f' = if f_flag VALID f then f
         else f_set VALID (f_set_buf (if df then f_buf f else disk_block s (f_inode f) (f_blockno f)) (f_set_physblock (blk s (f_inode f) (f_blockno f)) f))).
Proof.
  intros Ho Hn. unfold load_buffer. apply runs_bind, runs_get_obj. destruct (f_flag VALID f) eqn:Hv; [apply runs_ret; repeat split; auto|].
  apply runs_bind. destruct (file_bmap_finds true s f Ho Hn) as (s1 & E & Hs & Hk & Hsh). eexists _, _, _. split; [exact E|].
  set (f1 := f_set_physblock (blk s (f_inode f) (f_blockno f)) f). apply runs_bind. destruct df.
  { apply runs_ret, runs_modify. repeat (split; [done|]). by destruct f. }
  apply runs_bind, runs_get_obj, runs_bind. change (flag 0 BMAP_RET_UNINIT) with false. cbn [negb]. rewrite andb_true_r.
  change (f_physblock f1) with (blk s (f_inode f) (f_blockno f)). case_bool_decide as H0.
  - destruct (plain_block_ok content used area s _ _ (of_plain _ _ Ho) Hn H0) as (Ha & _).
    destruct (sv_read64 content used area s1 _ Ha) as (s2 & E2 & Hs2 & Hk2). eapply runs_service; [exact E2|].
    rewrite (bool_decide_eq_false_2 (0 ≠ 0)); [|tauto]. apply runs_modify, runs_modify. split; [done|].
    split; [by eapply same_blocks_trans|]. split; [by eapply keeps_trans|]. split.
    { intros Hsh1. pose proof (inv_read64 s1 (blk s (f_inode f) (f_blockno f)) (Hsh Hsh1)) as H. by rewrite E2 in H. }
    unfold disk_block. rewrite (decide_False _ _ H0) Hs //.
  - apply runs_bind, runs_get_state, runs_ret, runs_modify, runs_modify. split; [done|]. split; [done|]. split; [done|]. split; [done|].
    unfold disk_block. rewrite decide_True; [|by destruct (decide (blk s (f_inode f) (f_blockno f) = 0))]. by rewrite (k_blocksize _ _ _ Hk).
Qed.

Lemma load_too_big df s f : open_file s f → max_blocks s ≤ f_blockno f →
  runs (load_buffer true junk df) f s (λ r f' s', s' = s ∧ (∃ p, f' = f_set_physblock p f) ∧ f_flag VALID f = false ∧ ∃ e, r = inl e ∧ e ≠ 0).
Proof.
  intros Ho Hn. unfold load_buffer. apply runs_bind, runs_get_obj. destruct (f_flag VALID f) eqn:Hv.
  { destruct (of_valid _ _ Ho Hv) as [? _]. lia. }
  apply runs_bind. destruct (file_bmap_too_big 0 s f Ho Hn) as (e & p & E & He). eexists _, _, _. split; [exact E|].
  split; [done|]. split; [by eexists|]. split; [done|]. by eexists.
Qed.

Lemma load_view s f : open_file s f → 0 ≤ f_blockno f < max_blocks s →
  runs (load_buffer true junk false) f s (λ r f' s', goes s f s' f' ∧ same_view s f s' f' ∧ f_pos f' = f_pos f ∧ r = inr tt ∧
    f_buf f' = view s f (f_blockno f) ∧ (stored s f → stored s' f') ∧ (settled f → settled f')).
Proof.
  intros Ho Hn. eapply runs_mono; [by apply load_ok|]. intros r f' s' (-> & Hs & Hk & Hsh & ->). cbv beta.
  assert (∀ f', f_inode f' = f_inode f → f_ino f' = f_ino f → stored s f → stored s' f') as Hst.
  { intros g Hi Hino Hst. unfold stored. by rewrite Hi Hino (k_inode _ _ _ Hk). }
  destruct (f_flag VALID f) eqn:Hv.
  - destruct (goes_quiet s f s' f) as [Hg Hd]; try done; [apply Ho|by apply Ho|].
    split; [done|]. split; [|split; [done|split; [done|split; [|by auto]]]].
    + intros n Hn'. unfold view. by rewrite Hd.
    + unfold view. rewrite Hv bool_decide_eq_true_2 //.
  - set (b := disk_block s (f_inode f) (f_blockno f)). set (f1 := f_set_buf _ _).
    assert (f_flag DIRTY f1 = false) as Hd1.
    { change (f_flag DIRTY f1) with (f_flag DIRTY f). destruct (f_flag DIRTY f) eqn:Hd; [|done]. by rewrite (of_dirty _ _ Ho Hd) in Hv. }
    destruct (goes_quiet s f s' (f_set VALID f1)) as [Hg Hd]; try done; [apply (write_set_valid f1)|by apply (of_disk _ _ Ho)|by rewrite valid_set|].
    split; [done|]. split; [|split; [done|split; [done|split; [|split; [by apply Hst|]]]]].
    + intros n Hn'. unfold view. rewrite valid_set Hv. cbn [andb]. case_bool_decide as H; [by rewrite H|by rewrite Hd].
    + unfold view. rewrite Hv. done.
    + intros _ _ H. by rewrite dirty_set_valid Hd1 in H.
Qed.

(** ** Reading *)
Definition file_byte (s : W) (f : ext2_file) (k : Z) : Z :=
  view s f (k / sv_blocksize s) !!! Z.to_nat (k mod sv_blocksize s).
Definition file_bytes (s : W) (f : ext2_file) (pos n : Z) : list Z := file_byte s f <$> seqZ pos n.

Lemma get_bytes_seq start c (b : list Z) : 0 ≤ start → start + c ≤ Z.of_nat (length b) →
  get_bytes start c b = (λ k, b !!! Z.to_nat k) <$> seqZ start c.
Proof.
  intros Hs Hc. apply list_eq. intros j. unfold get_bytes. rewrite list_lookup_fmap.
  destruct (decide (Z.of_nat j < c)) as [Hj|Hj].
  - rewrite lookup_take_lt; [|lia]. rewrite lookup_drop lookup_seqZ_lt; [|lia]. cbn.
    rewrite list_lookup_total_alt. destruct (lookup_lt_is_Some_2 b (Z.to_nat start + j)) as [x Hx]; [lia|].
    replace (Z.to_nat (start + Z.of_nat j)) with (Z.to_nat start + j)%nat by lia. by rewrite Hx.
  - rewrite lookup_take_ge; [|lia]. rewrite lookup_seqZ_ge //. lia.
Qed.

Lemma file_bytes_block s f pos c : 0 < sv_blocksize s → pos mod sv_blocksize s + c ≤ sv_blocksize s →
  Z.of_nat (length (view s f (pos / sv_blocksize s))) = sv_blocksize s →
  get_bytes (pos mod sv_blocksize s) c (view s f (pos / sv_blocksize s)) = file_bytes s f pos c.
Proof.
  intros Hb Hc Hl. pose proof (Z.mod_pos_bound pos (sv_blocksize s) Hb) as Hm. pose proof (Z.div_mod pos (sv_blocksize s)).
  rewrite get_bytes_seq; [|lia|lia]. apply list_eq. intros j. unfold file_bytes. rewrite 2!list_lookup_fmap.
  destruct (decide (Z.of_nat j < c)) as [Hj|Hj]; cycle 1.
  { rewrite lookup_seqZ_ge; [|lia]. rewrite lookup_seqZ_ge; [done|lia]. }
  rewrite lookup_seqZ_lt; [|lia]. rewrite lookup_seqZ_lt; [|lia]. cbn. unfold file_byte. f_equal.
  assert ((pos + Z.of_nat j) / sv_blocksize s = pos / sv_blocksize s ∧ (pos + Z.of_nat j) mod sv_blocksize s = pos mod sv_blocksize s + Z.of_nat j) as [-> ->]; [|done].
  apply Z.div_mod_unique with (b := sv_blocksize s); [left; apply Z.mod_pos_bound; lia|lia|].
  rewrite -Z.div_mod; [|lia]. lia.
Qed.

Lemma file_bytes_app s f pos a b : 0 ≤ a → 0 ≤ b → file_bytes s f pos (a + b) = file_bytes s f pos a ++ file_bytes s f (pos + a) b.
Proof. intros Ha Hb. unfold file_bytes. by rewrite seqZ_app // fmap_app. Qed.

Lemma file_bytes_same s f s' f' pos n : sv_blocksize s' = sv_blocksize s → 0 < sv_blocksize s → same_view s f s' f' →
  0 ≤ pos → pos + n ≤ max_blocks s * sv_blocksize s → file_bytes s' f' pos n = file_bytes s f pos n.
Proof.
  intros Hb H0 Hv Hp Hn. apply list_fmap_ext. intros j k Hk%lookup_seqZ. unfold file_byte. rewrite Hb Hv //.
  split; [apply Z.div_pos; lia|]. apply Z.div_lt_upper_bound; lia.
Qed.
Lemma length_file_bytes s f pos n : 0 ≤ n → Z.of_nat (length (file_bytes s f pos n)) = n.
Proof. intros Hn. unfold file_bytes. rewrite length_fmap length_seqZ. lia. Qed.

Lemma view_length s f n : open_file s f → 0 ≤ n < max_blocks s → Z.of_nat (length (view s f n)) = sv_blocksize s.
Proof. intros Ho Hn. unfold view. destruct (_ && _); [apply Ho|by apply (of_disk _ _ Ho)]. Qed.

Lemma goes_set_pos s f s' f' p : goes s f s' f' → 0 ≤ p < 2^64 → goes s f s' (f_set_pos p f').
Proof. intros [[? ? ? ? ? ? ?] ? ? ? ? ? ?] Hp. constructor; [|done..]. by constructor. Qed.

(** What a reading operation keeps. *)
Record reads (s : W) (f : ext2_file) (s' : W) (f' : ext2_file) : Prop := Reads {
  rd_goes : goes s f s' f';
  rd_view : same_view s f s' f';
  rd_settled : settled f → settled f';
  rd_stored : stored s f → stored s' f';
}.
Lemma reads_refl s f : open_file s f → reads s f s f.
Proof. intros Ho. constructor; [by apply goes_refl|done..]. Qed.
Lemma reads_trans s f s1 f1 s2 f2 : reads s f s1 f1 → reads s1 f1 s2 f2 → reads s f s2 f2.
Proof.
  intros [? ? ? ?] [? ? ? ?]. constructor; [by eapply goes_trans| |by auto|by auto].
  eapply same_view_trans; [by eapply go_blocksize|done..].
Qed.

Lemma pos_in_file s f k : open_file s f → 0 ≤ k < max_blocks s * sv_blocksize s → 0 ≤ k / sv_blocksize s < max_blocks s.
Proof.
  intros Ho Hk. destruct (blocksize_pos _ _ (of_plain _ _ Ho)) as (Hb & Hm & _). split; [apply Z.div_pos; lia|]. apply Z.div_lt_upper_bound; lia.
Qed.

(** The positions that a file can have are far from the end of their type. *)
Lemma max_pos s i : plain s i → max_blocks s * sv_blocksize s < 2^49.
Proof. intros Hp. destruct (blocksize_pos _ _ Hp) as (Hb & Hm & Hb'). nia. Qed.

Lemma read_part_ok wanted s f : open_file s f → settled f → f_ino f ≠ 0 → f_pos f < EXT2_I_SIZE (f_inode f) → 0 < wanted →
  let c := Z.min (Z.min (sv_blocksize s - f_pos f mod sv_blocksize s) wanted) (EXT2_I_SIZE (f_inode f) - f_pos f) in
  runs (read_part true junk wanted) f s (λ r f' s', reads s f s' f' ∧ f_pos f' = f_pos f + c ∧ r = inr (file_bytes s f (f_pos f) c)).
Proof.
  intros Ho Hse Hino Hpos Hw c. unfold read_part. destruct (blocksize_pos _ _ (of_plain _ _ Ho)) as (Hb & Hmax & _).
  pose proof (of_pos _ _ Ho) as Hp0. pose proof (of_size _ _ Ho) as Hsz. pose proof (max_pos _ _ (of_plain _ _ Ho)) as Hmp.
  pose proof (Z.mod_pos_bound (f_pos f) (sv_blocksize s) Hb) as Hmod.
  destruct (pos_in_file s f (f_pos f) Ho) as [Hq1 Hq2]; [lia|].
  apply runs_bind. eapply runs_mono; [by apply sync_position_ok|]. intros r f1 s1 (Hg1 & Hv1 & Hp1 & Hr). cbv beta in Hr. destruct r as [e|r]; [by destruct Hr|].
  destruct Hr as (Hbn & Hst1 & Hse1). pose proof (go_open _ _ _ _ Hg1) as Ho1. pose proof (go_blocksize _ _ _ _ Hg1) as Hbs1.
  apply runs_bind. eapply runs_mono; [apply load_view; [done|]; by rewrite Hbn (max_blocks_eq _ _ Hbs1)|].
  intros r2 f2 s2 (Hg2 & Hv2 & Hp2 & -> & Hbuf & Hst2 & Hse2). cbv beta. apply runs_bind, runs_get_obj, runs_bind, runs_get_state.
  pose proof (go_blocksize _ _ _ _ Hg2) as Hbs2. assert (sv_blocksize s2 = sv_blocksize s) as Hbs by congruence.
  assert (EXT2_I_SIZE (f_inode f2) = EXT2_I_SIZE (f_inode f)) as Hsize.
  { rewrite (size_like _ _ (go_like _ _ _ _ Hg2)). apply (size_like _ _ (go_like _ _ _ _ Hg1)). }
  rewrite Hbs Hsize Hp2 Hp1. fold c. apply runs_bind, runs_modify, runs_ret. rewrite (u64_small (f_pos f + c) ltac:(lia)).
  assert (reads s f s2 f2) as Hrd.
  { apply (reads_trans _ _ s1 f1); constructor; auto. }
  split.
  { destruct Hrd as [Hg Hv H1 H2]. constructor; [apply goes_set_pos; [done|lia]|done|done|done]. }
  split; [done|]. f_equal. rewrite Hbuf Hbn. rewrite Hv1; [|done]. apply file_bytes_block; [done|lia|by apply view_length].
Qed.

Lemma read_loop_ok fuel wanted data s f : open_file s f → settled f → f_ino f ≠ 0 → 0 ≤ wanted →
  (f_pos f < EXT2_I_SIZE (f_inode f) → 0 < wanted → f_pos f mod sv_blocksize s + wanted ≤ sv_blocksize s * (Z.of_nat fuel - 1)) → (0 < fuel)%nat →
  let n := Z.max 0 (Z.min wanted (EXT2_I_SIZE (f_inode f) - f_pos f)) in
  runs (read_loop true junk fuel wanted data) f s (λ r f' s', reads s f s' f' ∧ f_pos f' = f_pos f + n ∧ r = inr (0, data ++ file_bytes s f (f_pos f) n)).
Proof.
  revert wanted data s f. induction fuel as [|fuel IH]; intros wanted data s f Ho Hse Hino Hw Hf Hf0 n; [lia|]. cbn [read_loop].
  apply runs_bind, runs_get_obj. case_bool_decide as Hc; cycle 1.
  { assert (n = 0) as -> by lia. apply runs_ret. split; [by apply reads_refl|]. split; [lia|]. by rewrite /file_bytes /= app_nil_r. }
  destruct Hc as [Hc1 Hc2]. apply runs_bind, runs_attempt. eapply runs_mono; [by apply read_part_ok|].
  set (c := Z.min (Z.min (sv_blocksize s - f_pos f mod sv_blocksize s) wanted) (EXT2_I_SIZE (f_inode f) - f_pos f)).
  intros r f1 s1 (Hrd & Hp1 & ->). cbv beta iota. destruct (blocksize_pos _ _ (of_plain _ _ Ho)) as (Hb & Hmax & _).
  pose proof (Z.mod_pos_bound (f_pos f) (sv_blocksize s) Hb) as Hmod. pose proof (of_pos _ _ Ho) as Hp0. pose proof (of_size _ _ Ho) as Hsz.
  destruct Hrd as [Hg Hv Hse1 Hst1]. pose proof (go_blocksize _ _ _ _ Hg) as Hbs.
  pose proof (size_like _ _ (go_like _ _ _ _ Hg)) as Hsize. rewrite length_file_bytes; [|lia].
  eapply runs_mono; [apply IH; [apply Hg|by auto|by rewrite (go_ino _ _ _ _ Hg)|lia| |]|].
  - specialize (Hf Hc1 Hc2). rewrite Hbs Hp1 Hsize. intros Hlt Hw2.
    assert (c = sv_blocksize s - f_pos f mod sv_blocksize s) as Hcc by lia.
    assert ((f_pos f + c) mod sv_blocksize s = 0) as ->; [|nia]. rewrite Hcc. pose proof (Z.div_mod (f_pos f) (sv_blocksize s)).
    replace (f_pos f + (sv_blocksize s - f_pos f mod sv_blocksize s)) with ((f_pos f / sv_blocksize s + 1) * sv_blocksize s) by lia. apply Z.mod_mul; lia.
  - specialize (Hf Hc1 Hc2). nia.
  - intros r2 f2 s2 (Hrd2 & Hp2 & ->). rewrite Hsize Hp1 in Hp2 |- *.
    split; [apply (reads_trans _ _ s1 f1); [by constructor|done]|]. split; [lia|]. do 2 f_equal. rewrite -app_assoc. f_equal.
    set (n2 := Z.max 0 (Z.min (wanted - c) (EXT2_I_SIZE (f_inode f) - (f_pos f + c)))). replace n with (c + n2) by lia.
    rewrite file_bytes_app; [|lia..]. f_equal. apply file_bytes_same; [done|done|done|lia|lia].
Qed.

(** ** Writing *)

(** What is in the range of the data is the data, everything else as before. *)
Definition written (s : W) (f : ext2_file) (s' : W) (f' : ext2_file) (pos : Z) (data : list Z) : Prop :=
  ∀ k, 0 ≤ k < max_blocks s * sv_blocksize s →
    file_byte s' f' k = if decide (pos ≤ k < pos + Z.of_nat (length data)) then data !!! Z.to_nat (k - pos) else file_byte s f k.
(** The buffer has data for which there is no block on the device. *)
Definition unplaced (f : ext2_file) : Prop := f_flag VALID f = true ∧ f_flag DIRTY f = true ∧ f_physblock f = 0.

Lemma length_put_bytes start d (b : list Z) : 0 ≤ start → start + Z.of_nat (length d) ≤ Z.of_nat (length b) → length (put_bytes start d b) = length b.
Proof. intros Hs Hl. unfold put_bytes. rewrite !length_app length_take length_drop. lia. Qed.

Lemma put_bytes_get start d (b : list Z) j : 0 ≤ start → start + Z.of_nat (length d) ≤ Z.of_nat (length b) → 0 ≤ j →
  put_bytes start d b !!! Z.to_nat j = if decide (start ≤ j < start + Z.of_nat (length d)) then d !!! Z.to_nat (j - start) else b !!! Z.to_nat j.
Proof.
  intros Hs Hl Hj. unfold put_bytes. rewrite !list_lookup_total_alt.
  assert (length (take (Z.to_nat start) b) = Z.to_nat start) as Ht by (rewrite length_take; lia).
  case_decide as H.
  - rewrite lookup_app_r; [|lia]. rewrite lookup_app_l; [|lia]. do 2 f_equal. lia.
  - destruct (decide (j < start)) as [Hlt|Hge].
    + rewrite lookup_app_l; [|lia]. by rewrite lookup_take_lt; [|lia].
    + rewrite lookup_app_r; [|lia]. rewrite lookup_app_r; [|lia]. rewrite lookup_drop. do 2 f_equal. lia.
Qed.

Lemma put_bytes_whole d (b b' : list Z) : length d = length b → length d = length b' → put_bytes 0 d b = put_bytes 0 d b'.
Proof. intros H1 H2. unfold put_bytes. cbn. rewrite !drop_ge //; lia. Qed.

Lemma put_view s f s' f' pos d : open_file s f → sv_blocksize s' = sv_blocksize s → 0 ≤ pos →
  pos / sv_blocksize s < max_blocks s → pos mod sv_blocksize s + Z.of_nat (length d) ≤ sv_blocksize s →
  (∀ n, 0 ≤ n < max_blocks s → view s' f' n = if decide (n = pos / sv_blocksize s) then put_bytes (pos mod sv_blocksize s) d (view s f n) else view s f n) →
  written s f s' f' pos d.
Proof.
  intros Ho Hbs Hp Hm Hd Hv k Hk. destruct (blocksize_pos _ _ (of_plain _ _ Ho)) as (Hb & _ & _).
  destruct (pos_in_file s f k Ho Hk) as [Hk1 Hk2]. pose proof (Z.mod_pos_bound pos (sv_blocksize s) Hb) as Hmod.
  pose proof (Z.mod_pos_bound k (sv_blocksize s) Hb) as Hkm. pose proof (Z.div_mod pos (sv_blocksize s)). pose proof (Z.div_mod k (sv_blocksize s)).
  unfold file_byte. rewrite Hbs Hv //. case_decide as Hn.
  - rewrite put_bytes_get; [|lia|rewrite view_length //|lia]. case_decide as H1; case_decide as H2; [|lia|lia|done]. f_equal. lia.
  - rewrite decide_False //. intros [H1 H2]. apply Hn. apply Z.le_antisymm; [|apply Z.div_le_mono; lia].
    assert (k < (pos / sv_blocksize s + 1) * sv_blocksize s) as Hlt by nia. apply Z.lt_succ_r. apply Z.div_lt_upper_bound; lia.
Qed.

Context (hashmap_lookup : W → list Z → option Z) (hashmap_add : W → list Z → Z → Z * W).

Lemma put_buffer s f s1 f1 d start : open_file s f → 0 ≤ f_blockno f < max_blocks s → same_blocks content area s s1 → keeps used s s1 →
  (no_share s → no_share s1) → 0 ≤ start → start + Z.of_nat (length d) ≤ sv_blocksize s →
  f1 = (if f_flag VALID f then f
        else f_set VALID (f_set_buf (if bool_decide (Z.of_nat (length d) = sv_blocksize s) then f_buf f else disk_block s (f_inode f) (f_blockno f))
                            (f_set_physblock (blk s (f_inode f) (f_blockno f)) f))) →
  let f2 := f_set_buf (put_bytes start d (f_buf (f_set DIRTY f1))) (f_set DIRTY f1) in
  goes s f s1 f2 ∧ f_blockno f2 = f_blockno f ∧ f_pos f2 = f_pos f ∧ f_flag VALID f2 = true ∧ f_flag DIRTY f2 = true ∧
  (∀ n, 0 ≤ n < max_blocks s → view s1 f2 n = if decide (n = f_blockno f) then put_bytes start d (view s f n) else view s f n).
Proof.
  intros Ho Hn Hs Hk Hsh Hst Hd Hf1 f2.
  assert (f_inode f1 = f_inode f ∧ f_ino f1 = f_ino f ∧ f_pos f1 = f_pos f ∧ f_blockno f1 = f_blockno f ∧ f_flag VALID f1 = true ∧
    f_flag EXT2_FILE_WRITE f1 = f_flag EXT2_FILE_WRITE f ∧ f_physblock f1 = blk s (f_inode f) (f_blockno f) ∧ Z.of_nat (length (f_buf f1)) = sv_blocksize s ∧
    put_bytes start d (f_buf f1) = put_bytes start d (view s f (f_blockno f))) as (Hi & Hino & Hp & Hbn & Hv & Hw & Hph & Hl & Hput).
  { subst f1. pose proof (of_disk _ _ Ho _ Hn) as Hld. destruct (f_flag VALID f) eqn:Hv.
    - repeat (split; [done|]). split; [by apply (of_valid _ _ Ho)|]. split; [apply Ho|]. unfold view. by rewrite Hv bool_decide_eq_true_2.
    - rewrite valid_set. set (g := f_set_buf _ _). split; [done|]. split; [done|]. split; [done|]. split; [done|]. split; [done|].
      split; [apply (write_set_valid g)|]. split; [done|]. cbn [f_set f_set_flags f_buf g f_set_buf]. unfold view. rewrite Hv. cbn [andb].
      case_bool_decide as Hw; [|done]. split; [apply Ho|]. assert (start = 0) as -> by lia.
      pose proof (of_buf _ _ Ho). apply put_bytes_whole; lia. }
  clear Hf1. assert (f_flag VALID f2 = true) as Hv2 by (change (f_flag VALID (f_set DIRTY f1) = true); by rewrite valid_set_dirty).
  assert (f_flag DIRTY f2 = true) as Hd2 by (change (f_flag DIRTY (f_set DIRTY f1) = true); by rewrite dirty_set).
  assert (f_buf f2 = put_bytes start d (view s f (f_blockno f))) as Hb2 by exact Hput.
  destruct (goes_quiet s f s1 f2 Ho Hs Hk Hsh) as [Hg Hdk]; [done|done|done| | |by rewrite Hd2; change (f_blockno f2) with (f_blockno f1); rewrite Hbn|by intros _|].
  - change (f_flag EXT2_FILE_WRITE (f_set DIRTY f1) = f_flag EXT2_FILE_WRITE f). by rewrite write_set_dirty.
  - rewrite Hb2 length_put_bytes; [by apply view_length|lia|]. by rewrite view_length.
  - split; [done|]. split; [done|]. split; [done|]. split; [done|]. split; [done|]. intros n Hn'.
    unfold view at 1. rewrite Hv2. cbn [andb]. change (f_blockno f2) with (f_blockno f1). rewrite Hbn. case_decide as Hnn.
    + rewrite bool_decide_eq_true_2 // Hb2 Hnn //.
    + rewrite bool_decide_eq_false_2 // Hdk // /view. rewrite (bool_decide_eq_false_2 (n = f_blockno f)) // andb_false_r //.
Qed.

Lemma write_alloc_ok s f : open_file s f → f_flag VALID f = true → f_ino f ≠ 0 → no_share s →
  runs (write_alloc true junk hashmap_lookup hashmap_add) f s (λ r f' s', goes s f s' f' ∧ same_view s f s' f' ∧ f_pos f' = f_pos f ∧ f_blockno f' = f_blockno f ∧
    f_flags f' = f_flags f ∧ match r with inl e => e ≠ 0 ∧ f_physblock f' = 0 | inr _ => f_physblock f' ≠ 0 ∧ (stored s f → stored s' f') end).
Proof.
  intros Ho Hv Hino Hsh. unfold write_alloc. apply runs_bind, runs_get_obj, runs_bind, runs_get_state. cbv zeta. unfold no_share in Hsh. rewrite Hsh.
  cbn [andb]. apply runs_bind. apply runs_ret. rewrite (bool_decide_eq_true_2 (f_ino f ≠ 0)) //. apply runs_bind. destruct (of_valid _ _ Ho Hv) as (Hn & _ & _).
  destruct (file_bmap_allocates s f Ho Hn) as (r & i' & p & s' & E & Hp & Hb & Hil & Hsh' & Hd & Hpb & Hfr & Hr).
  destruct (goes_inode s f s' i' p Ho Hp Hb Hil Hsh' Hd Hfr ltac:(done)) as [Hg Hvw].
  eexists _, _, _. split; [exact E|]. destruct r as [e|r].
  - split; [done|]. split; [done|]. do 3 (split; [done|]). by destruct Hr as (? & ? & _).
  - apply runs_ret. split; [done|]. split; [done|]. do 3 (split; [done|]). by destruct Hr as (_ & ? & ?).
Qed.

(** How a round of writing ends: [c] bytes of the data are in the buffer, dirty, for a block
    that is there; or an error, and either nothing has changed or they are in the
    buffer all the same, for which there is no block. *)
Definition part_ends (s : W) (f : ext2_file) (d : list Z) (r : Z + Z) (f' : ext2_file) (s' : W) : Prop :=
  goes s f s' f' ∧
  match r with
  | inr c => c = Z.of_nat (length d) ∧ f_pos f / sv_blocksize s < max_blocks s ∧ f_pos f' = f_pos f + c ∧ f_blockno f' = f_pos f / sv_blocksize s ∧
      f_flag VALID f' = true ∧ f_flag DIRTY f' = true ∧ f_physblock f' ≠ 0 ∧ (stored s f → stored s' f') ∧ written s f s' f' (f_pos f) d
  | inl e => e ≠ 0 ∧ f_pos f' = f_pos f ∧
      (written s f s' f' (f_pos f) [] ∨ written s f s' f' (f_pos f) d ∧ unplaced f')
  end.

Lemma same_view_byte s f s' f' k : open_file s f → sv_blocksize s' = sv_blocksize s → same_view s f s' f' → 0 ≤ k < max_blocks s * sv_blocksize s →
  file_byte s' f' k = file_byte s f k.
Proof. intros Ho Hb Hv Hk. unfold file_byte. rewrite Hb Hv //. by apply (pos_in_file s f). Qed.

Lemma written_nil s f s' f' pos :
  (∀ k, 0 ≤ k < max_blocks s * sv_blocksize s → file_byte s' f' k = file_byte s f k) → written s f s' f' pos [].
Proof. intros H k Hk. rewrite decide_False; [by apply H|]. cbn. lia. Qed.

(** The end of the round, after a block was allocated for the buffer or not. *)
Lemma part_done s f s3 f3 d s4 f4 (r : Z + unit) : open_file s f → goes s f s3 f3 → f_pos f3 = f_pos f → f_blockno f3 = f_pos f / sv_blocksize s →
  f_pos f / sv_blocksize s < max_blocks s → f_pos f mod sv_blocksize s + Z.of_nat (length d) ≤ sv_blocksize s →
  f_flag VALID f3 = true → f_flag DIRTY f3 = true → (stored s f → stored s3 f3) → written s f s3 f3 (f_pos f) d →
  goes s3 f3 s4 f4 → same_view s3 f3 s4 f4 → f_pos f4 = f_pos f3 → f_blockno f4 = f_blockno f3 → f_flags f4 = f_flags f3 →
  match r with inl e => e ≠ 0 ∧ f_physblock f4 = 0 | inr _ => f_physblock f4 ≠ 0 ∧ (stored s3 f3 → stored s4 f4) end →
  match r with
  | inl e => part_ends s f d (inl e) f4 s4
  | inr _ => part_ends s f d (inr (Z.of_nat (length d))) (f_set_pos (u64 (f_pos f4 + Z.of_nat (length d))) f4) s4
  end.
Proof.
  intros Ho Hg3 Hp3 Hbn3 Hq Hfit Hv Hd Hst Hw Hg4 Hvw4 Hp4 Hbn4 Hfl4 Hr. set (c := Z.of_nat (length d)) in *.
  destruct (blocksize_pos _ _ (of_plain _ _ Ho)) as (Hb & _). pose proof (max_pos _ _ (of_plain _ _ Ho)). pose proof (of_pos _ _ Ho) as Hp0.
  pose proof (Z.div_mod (f_pos f) (sv_blocksize s)). pose proof (go_blocksize _ _ _ _ Hg3) as Hb3.
  assert (goes s f s4 f4) as Hg by by eapply goes_trans.
  assert (∀ k, 0 ≤ k < max_blocks s * sv_blocksize s → file_byte s4 f4 k = file_byte s3 f3 k) as Hby.
  { intros k Hk. apply same_view_byte; [apply Hg3|apply Hg4|done|]. by rewrite (max_blocks_eq s s3) // Hb3. }
  destruct r as [e|_].
  - destruct Hr as [He Hph]. split; [done|]. split; [done|]. split; [congruence|]. right. split; [intros k Hk; by rewrite Hby // Hw|].
    split; [by rewrite -Hv /f_flag /= Hfl4|]. split; [by rewrite -Hd /f_flag /= Hfl4|done].
  - destruct Hr as [Hph4 Hst4]. assert (f_pos f4 = f_pos f) as -> by congruence. rewrite (u64_small (f_pos f + c)); [|nia].
    split; [apply goes_set_pos; [done|nia]|]. split; [done|]. split; [done|]. split; [done|]. split; [cbn; congruence|].
    split; [by rewrite -Hv /f_flag /= Hfl4|]. split; [by rewrite -Hd /f_flag /= Hfl4|]. split; [done|]. split; [by auto|].
    intros k Hk. change (file_byte s4 (f_set_pos (f_pos f + c) f4) k) with (file_byte s4 f4 k). rewrite Hby //. by apply Hw.
Qed.

(** One block of the data. *)
Lemma write_part_ok data s f : open_file s f → f_ino f ≠ 0 → no_share s → data ≠ [] →
  let c := Z.min (sv_blocksize s - f_pos f mod sv_blocksize s) (Z.of_nat (length data)) in
  runs (write_part true junk hashmap_lookup hashmap_add data) f s (part_ends s f (take (Z.to_nat c) data)).
Proof.
  intros Ho Hino Hsh Hne c. unfold write_part. set (start := f_pos f mod sv_blocksize s) in *. set (d := take (Z.to_nat c) data).
  destruct (blocksize_pos _ _ (of_plain _ _ Ho)) as (Hb & Hmax & _).
  pose proof (of_pos _ _ Ho) as Hp0. pose proof (Z.mod_pos_bound (f_pos f) (sv_blocksize s) Hb) as Hmod. fold start in Hmod.
  assert (0 < Z.of_nat (length data)) as Hdl by (destruct data; [done|cbn; lia]).
  assert (Z.of_nat (length d) = c) as Hld by (unfold d; rewrite length_take; lia).
  assert (0 ≤ f_pos f / sv_blocksize s) as Hq0 by (apply Z.div_pos; lia).
  apply runs_bind. eapply runs_mono; [by apply sync_position_ok|]. intros r f1 s1 (Hg1 & Hv1 & Hp1 & Hr). cbv beta in Hr.
  pose proof (go_open _ _ _ _ Hg1) as Ho1. pose proof (go_blocksize _ _ _ _ Hg1) as Hbs1. destruct r as [e|r].
  { split; [done|]. split; [by destruct Hr|]. split; [done|]. left. apply written_nil. intros k Hk. by apply same_view_byte. }
  destruct Hr as (Hbn & Hst1 & _). apply runs_bind, runs_get_obj, runs_bind, runs_get_state. cbv zeta. rewrite Hp1 Hbs1. fold start c.
  apply runs_bind. destruct (decide (f_pos f / sv_blocksize s < max_blocks s)) as [Hlt|Hge]; cycle 1.
  { eapply runs_mono; [apply load_too_big; [done|by rewrite Hbn (max_blocks_eq _ _ Hbs1); lia]|].
    intros r2 f2 s2 (-> & (p & ->) & Hv & e & -> & He). cbv beta iota.
    destruct (goes_quiet s1 f1 s1 (f_set_physblock p f1)) as [Hg2 Hd2]; try done; [apply Ho1|by change (f_flag VALID (f_set_physblock p f1)) with (f_flag VALID f1); rewrite Hv|by apply Ho1|].
    split; [by eapply goes_trans|]. split; [done|]. split; [done|]. left. apply written_nil. intros k Hk. by rewrite -(same_view_byte s f s1 f1). }
  eapply runs_mono; [apply load_ok; [done|by rewrite Hbn (max_blocks_eq _ _ Hbs1)]|].
  intros r2 f2 s2 (-> & Hs2 & Hk2 & Hsh2 & Hf2). cbv beta iota.
  destruct (put_buffer s1 f1 s2 f2 d start) as (Hg2 & Hbn2 & Hp2 & Hv2 & Hd2 & Hvw2);
    [done|by rewrite Hbn (max_blocks_eq _ _ Hbs1)|done|done|done|lia|lia|by rewrite Hld Hbs1|].
  apply runs_bind, runs_modify, runs_bind, runs_modify, runs_bind, runs_get_obj, runs_bind. fold d.
  set (f3 := f_set_buf (put_bytes start d (f_buf (f_set DIRTY f2))) (f_set DIRTY f2)) in *.
  assert (written s f s2 f3 (f_pos f) d) as Hw.
  { apply put_view; [done|rewrite (go_blocksize _ _ _ _ Hg2) //|lia|done|rewrite Hld; fold start; lia|].
    intros n Hn. rewrite Hvw2; [|by rewrite (max_blocks_eq _ _ Hbs1)]. by rewrite Hbn Hv1. }
  assert (goes s f s2 f3) as Hg3 by by eapply goes_trans.
  assert (stored s f → stored s2 f3) as Hst3.
  { intros Hst. specialize (Hst1 Hst). unfold stored in *. change (f_ino f3) with (f_ino f2). change (f_inode f3) with (f_inode f2).
    rewrite (k_inode _ _ _ Hk2) Hf2. by destruct (f_flag VALID f1). }
  pose proof (λ s4 f4 r, part_done s f s2 f3 d s4 f4 r Ho Hg3 ltac:(congruence) ltac:(congruence) Hlt ltac:(fold start; lia) Hv2 Hd2 Hst3 Hw) as Hdone.
  rewrite Hld in Hdone. destruct (decide (f_physblock f3 = 0)) as [Hph|Hph].
  - rewrite (bool_decide_eq_true_2 _ Hph). eapply runs_mono; [apply write_alloc_ok; [apply Hg3|done|by rewrite (go_ino _ _ _ _ Hg3)|by apply (go_share _ _ _ _ Hg3)]|].
    intros r4 f4 s4 (Hg4 & Hvw4 & Hp4 & Hbn4 & Hfl4 & Hr4). cbv beta iota. specialize (Hdone s4 f4 r4 Hg4 Hvw4 Hp4 Hbn4 Hfl4 Hr4). destruct r4 as [e|[]]; [done|].
    by apply runs_bind, runs_modify, runs_ret.
  - rewrite (bool_decide_eq_false_2 _ Hph). apply runs_ret, runs_bind, runs_modify, runs_ret. apply (Hdone s2 f3 (inr tt)); [by apply goes_refl, Hg3|done..].
Qed.

(** ** The size

    The file system's structure can be replaced by one with blocks of the same size. *)
Class Sets (sv_set_fs : ext2_filsys → W → W) : Prop := {
  set_fs_get fs s : sv_fs (sv_set_fs fs s) = fs;
  set_fs_same fs s : fs_blocksize fs = sv_blocksize s → same_blocks content area s (sv_set_fs fs s) ∧ keeps used s (sv_set_fs fs s);
}.
Context (ea_remove : W → Z → Z * W) (punch_fuel : nat) (sv_set_fs : ext2_filsys → W → W) `{!Sets sv_set_fs}.

(** What writing keeps: the size can change, too. *)
Record updates (s : W) (f : ext2_file) (s' : W) (f' : ext2_file) : Prop := Updates {
  up_open : open_file s' f';
  up_blocksize : sv_blocksize s' = sv_blocksize s;
  up_share : no_share s → no_share s';
  up_mode : i_mode (f_inode f') = i_mode (f_inode f);
  up_ino : f_ino f' = f_ino f;
  up_write : f_flag EXT2_FILE_WRITE f' = f_flag EXT2_FILE_WRITE f;
  up_frame : frame s (f_inode f) s' (f_inode f');
}.
Lemma goes_updates s f s' f' : goes s f s' f' → updates s f s' f'.
Proof. intros [? ? ? [? _] ? ? ?]. by constructor. Qed.
Lemma updates_trans s f s1 f1 s2 f2 : updates s f s1 f1 → updates s1 f1 s2 f2 → updates s f s2 f2.
Proof. intros [? ? ? ? ? ? ?] [? ? ? ? ? ? ?]. constructor; first [congruence|by auto|by eapply frame_trans]. Qed.

Lemma size_set_ok fs i size : LINUX_S_ISREG (i_mode i) = true → is_bytes i → (128 ≤ length i)%nat → 0 ≤ size < 2^63 →
  ∃ fs' i', ext2fs_inode_size_set fs i size = (E_OK, fs', i') ∧ fs_blocksize fs' = fs_blocksize fs ∧
    flag (fs_flags fs') EXT2_FLAG_SHARE_DUP = flag (fs_flags fs) EXT2_FLAG_SHARE_DUP ∧
    is_bytes i' ∧ (128 ≤ length i')%nat ∧ EXT2_I_SIZE i' = size ∧ i_mode i' = i_mode i ∧ i_flags i' = i_flags i ∧
    ∀ r, 0 ≤ r < 15 → i_block r i' = i_block r i.
Proof.
  intros Hreg Hby Hl Hs. unfold ext2fs_inode_size_set. rewrite bool_decide_eq_false_2; [|lia]. rewrite Hreg.
  destruct (set_size_roundtrip i size) as (Hsz & Hm & Hne); [unfold in_buf; lia|lia|].
  assert (flag (Z.lor (fs_flags fs) (Z.lor EXT2_FLAG_DIRTY EXT2_FLAG_CHANGED)) EXT2_FLAG_SHARE_DUP = flag (fs_flags fs) EXT2_FLAG_SHARE_DUP) as Hfl.
  { rewrite !(flag_testbit _ 22) // Z.lor_spec. change (Z.testbit (Z.lor EXT2_FLAG_DIRTY EXT2_FLAG_CHANGED) 22) with false. by rewrite orb_false_r. }
  set (i' := set32 108 _ _) in *.
  assert (is_bytes i' ∧ (128 ≤ length i')%nat) as [Hby' Hl'].
  { split; [by apply set_le_bytes, set_le_bytes|]. unfold i'. rewrite !length_set_le; [done|unfold in_buf; lia|].
    apply in_buf_set; unfold in_buf; lia. }
  assert (i_flags i' = i_flags i ∧ ∀ r, 0 ≤ r < 15 → i_block r i' = i_block r i) as [Hif Hib] by (split; [|intros r Hr]; apply Hne; lia).
  destruct (ext2fs_needs_large_file_feature size); [destruct (ext2fs_has_feature_large_file (fs_super fs))|];
    eexists _, i'; (split; [done|]); (split; [|split; [|done]]); try done; case_bool_decide; try done;
    unfold ext2fs_update_dynamic_rev; by case_bool_decide.
Qed.

(** Another inode with the same map. *)
Lemma size_inode s f s' i' : open_file s f → same_blocks content area s s' → (∀ x, used s' x ↔ used s x) → sv_blocksize s' = sv_blocksize s →
  (no_share s → no_share s') → is_bytes i' → (128 ≤ length i')%nat → EXT2_I_SIZE i' ≤ max_blocks s * sv_blocksize s →
  i_mode i' = i_mode (f_inode f) → i_flags i' = i_flags (f_inode f) → (∀ r, 0 ≤ r < 15 → i_block r i' = i_block r (f_inode f)) →
  updates s f s' (f_set_inode i' f) ∧ same_view s f s' (f_set_inode i' f).
Proof.
  intros Ho Hs Hu Hb Hsh Hby Hl Hsz Hm Hfl Hib. pose proof (of_plain _ _ Ho) as Hp. pose proof (pf_wf _ _ _ _ _ Hp) as Hw.
  destruct (congr_view s (f_inode f) s' i') as (Hp' & Hblk & Hout); [done|done|by intros x; apply Hu| |done..|].
  { intros x H0 (p & Hpv & Hpl & <-). apply Hs. by apply (fw_used _ _ _ _ _ Hw). }
  assert (∀ n, 0 ≤ n < max_blocks s → disk_block s' i' n = disk_block s (f_inode f) n) as Hd.
  { intros n Hn. unfold disk_block. rewrite Hblk // Hb. case_decide as H0; [done|]. apply Hs. by apply (plain_block_ok content used area s (f_inode f) n). }
  destruct Ho as [H1 H2 H3 H4 HD H5 H6]. split.
  - constructor; try done.
    + constructor; cbn [f_set_inode f_inode f_buf f_blockno f_physblock f_pos]; rewrite ?Hb ?(max_blocks_eq _ _ Hb); [done| |done| |done|done|done].
      * intros n Hn. rewrite Hd //. by apply H2.
      * intros Hv. destruct (H4 Hv) as (H7 & H8 & H9). split; [done|]. by rewrite Hd // Hblk.
    + intros x Hx. split; [by apply Hout|]. by apply Hs, Hx.
  - intros n Hn. unfold view. change (f_flag VALID (f_set_inode i' f)) with (f_flag VALID f). cbn [f_set_inode f_inode f_buf f_blockno]. by rewrite Hd.
Qed.

(** The position is at the end of a block, or in the block of the buffer, which is dirty. *)
Definition at_tail (s : W) (f : ext2_file) : Prop :=
  f_pos f mod sv_blocksize s = 0 ∨
  f_flag VALID f = true ∧ f_flag DIRTY f = true ∧ f_physblock f ≠ 0 ∧ f_blockno f = f_pos f / sv_blocksize s.

Lemma sync_position_stays s f : f_blockno f = f_pos f / sv_blocksize s → sync_buffer_position true junk f s = Some (inr tt, f, s).
Proof.
  intros Hbn. unfold sync_buffer_position, get_obj, get_state, modify, mbind, act_bind. cbn. rewrite Hbn bool_decide_eq_false_2; [|tauto].
  cbn. f_equal. f_equal. f_equal. rewrite -Hbn. by destruct f.
Qed.

Lemma bmap_reads_inode ino s i flags n phys : sv_read_inode s ino = (E_OK, i) →
  ext2fs_bmap2 true junk ino None flags n phys s = ext2fs_bmap2 true junk ino (Some i) flags n phys s.
Proof. intros H. unfold ext2fs_bmap2. by rewrite H. Qed.

(** A block under a dirty buffer does not show. *)
Lemma under_buffer s f s' d : open_file s f → f_flag VALID f = true → f_flag DIRTY f = true → f_physblock f ≠ 0 → keeps used s s' → (no_share s → no_share s') →
  Z.of_nat (length d) = sv_blocksize s → (∀ x, area x → content s' x = if decide (x = f_physblock f) then d else content s x) →
  goes s f s' f ∧ same_view s f s' f.
Proof.
  intros Ho Hv Hdt H0 Hk Hsh Hl Hc. destruct (of_valid _ _ Ho Hv) as (Hn & Hph & _). rewrite Hph in H0, Hc.
  destruct (write_data s (f_inode f) (f_blockno f) d s' (of_plain _ _ Ho) Hn H0 Hk Hc) as (Hp & Hblk & Hd & Hfr).
  pose proof (k_blocksize _ _ _ Hk) as Hb. split.
  - constructor; try done. constructor; rewrite ?Hb ?(max_blocks_eq _ _ Hb); [done| |apply Ho| |apply Ho|apply Ho|apply Ho].
    + intros n Hn'. rewrite Hd //. case_decide; [done|by apply Ho].
    + intros _. split; [done|]. rewrite Hblk //. split; [done|]. by rewrite Hdt.
  - intros n Hn'. unfold view. rewrite Hv. cbn [andb]. case_bool_decide as Hnn; [done|]. rewrite Hd // decide_False //.
Qed.

Lemma zero_past_ok s f : open_file s f → stored s f → at_tail s f →
  runs (ext2fs_file_zero_past_offset true junk (f_pos f)) f s (λ r f' s', r = inr tt ∧ f' = f ∧ goes s f s' f ∧ same_view s f s' f ∧ stored s' f).
Proof.
  intros Ho Hst Htail. unfold ext2fs_file_zero_past_offset. apply runs_bind, runs_get_state. cbv zeta. set (off := f_pos f mod sv_blocksize s).
  destruct (blocksize_pos _ _ (of_plain _ _ Ho)) as (Hb & _ & _). pose proof (Z.mod_pos_bound (f_pos f) (sv_blocksize s) Hb) as Hoff. fold off in Hoff.
  case_bool_decide as Hz; [apply runs_ret; split; [done|]; split; [done|]; split; [by apply goes_refl|by split]|].
  destruct Htail as [?|(Hv & Hd & Hph & Hbn)]; [done|]. destruct (of_valid _ _ Ho Hv) as (Hn & Hphb & _).
  apply runs_bind. eexists _, _, _. split; [by apply sync_position_stays|]. apply runs_bind, runs_get_obj, runs_bind, runs_get_state, runs_bind.
  rewrite -Hbn. destruct (bmap_finds content used area junk (f_ino f) s (f_inode f) (f_blockno f) 0 (of_plain _ _ Ho) Hn) as (s1 & E1 & Hs1 & Hk1).
  eexists _, _, _. split. { unfold lift_opt. rewrite (bmap_reads_inode _ _ _ _ _ _ Hst) E1. done. } cbv beta zeta iota.
  assert (no_share s → no_share s1) as Hsh1. { intros Hsh. by apply (bmap_inv content used area junk (f_ino f) no_share _ _ _ _ _ _ _ (of_plain _ _ Ho) Hsh E1). }
  apply runs_bind. eapply runs_service_; [done|]. cbn [b_phys b_ret_flags b_state]. rewrite (bool_decide_eq_false_2 (0 ≠ 0)); [|tauto].
  rewrite -Hphb. rewrite (bool_decide_eq_false_2 (f_physblock f = 0)) //. change (flag 0 BMAP_RET_UNINIT) with false. cbn [orb].
  assert (blk s (f_inode f) (f_blockno f) ≠ 0) as Hb0 by by rewrite -Hphb.
  destruct (plain_block_ok content used area s _ _ (of_plain _ _ Ho) Hn Hb0) as (Ha & _). rewrite -Hphb in Ha.
  apply runs_bind, runs_ret, runs_bind. destruct (sv_read64 content used area s1 _ Ha) as (s2 & E2 & Hs2 & Hk2). eapply runs_service; [exact E2|].
  rewrite (bool_decide_eq_false_2 (0 ≠ 0)); [|tauto]. rewrite (Hs1 _ Ha). set (d := put_bytes off (replicate (Z.to_nat (sv_blocksize s2 - off)) 0) (content s (f_physblock f))).
  destruct (sv_write64 content used area s2 (f_physblock f) d Ha) as (s3 & E3 & Hk3 & Hc). eapply runs_service_; [exact E3|].
  rewrite (bool_decide_eq_false_2 (0 ≠ 0)); [|tauto]. assert (keeps used s s3) as Hk by (eapply keeps_trans; [|done]; by eapply keeps_trans).
  destruct (under_buffer s f s3 d Ho Hv Hd Hph Hk) as [Hg Hvw].
  - intros Hsh. pose proof (inv_read64 s1 (f_physblock f) (Hsh1 Hsh)) as H. rewrite E2 in H. pose proof (inv_write64 s2 (f_physblock f) d H) as H'. by rewrite E3 in H'.
  - pose proof (of_disk _ _ Ho _ Hn) as Hl. unfold disk_block in Hl. rewrite (decide_False _ _ Hb0) -Hphb in Hl.
    unfold d. rewrite (k_blocksize _ _ _ Hk2) (k_blocksize _ _ _ Hk1). rewrite length_put_bytes //; [lia|]. rewrite length_replicate. lia.
  - intros x Hx. rewrite Hc // Hs2 // Hs1 //.
  - split; [done|]. split; [done|]. split; [done|]. split; [done|]. unfold stored. by rewrite (k_inode _ _ _ Hk).
Qed.

Lemma truncate_le bits bs a b : 0 ≤ bits → 0 < bs < 2^62 → 0 ≤ a ≤ b → b < 2^62 → u64 (Z.shiftr (a + bs - 1) bits) ≤ u64 (Z.shiftr (b + bs - 1) bits).
Proof.
  intros Hbits Hbs Hab Hb. rewrite !Z.shiftr_div_pow2; [|lia..]. assert (0 < 2^bits) as Hp by (apply Z.pow_pos_nonneg; lia).
  assert (∀ x, 0 ≤ x ≤ b → 0 ≤ (x + bs - 1) / 2^bits < 2^64) as Hx.
  { intros x Hx. split; [apply Z.div_pos; lia|]. apply Z.div_lt_upper_bound; [done|]. generalize dependent (2^bits). intros p Hp. lia. }
  rewrite !u64_small; [apply Z.div_le_mono; lia|apply Hx; lia..].
Qed.

(** A file grows to the position. *)
Lemma set_size_ok s f : open_file s f → f_ino f ≠ 0 → LINUX_S_ISREG (i_mode (f_inode f)) = true → at_tail s f →
  EXT2_I_SIZE (f_inode f) < f_pos f → f_pos f ≤ max_blocks s * sv_blocksize s → 0 ≤ EXT2_I_SIZE (f_inode f) →
  runs (ext2fs_file_set_size2 true junk ea_remove punch_fuel sv_set_fs (f_pos f)) f s (λ r f' s', r = inr tt ∧ updates s f s' f' ∧ same_view s f s' f' ∧
    EXT2_I_SIZE (f_inode f') = f_pos f ∧ f_pos f' = f_pos f ∧ stored s' f' ∧ f_flags f' = f_flags f ∧ f_physblock f' = f_physblock f).
Proof.
  intros Ho Hino Hreg Htail Hlt Hle Hsz0. unfold ext2fs_file_set_size2. apply runs_bind, runs_get_obj, runs_bind, runs_get_state. cbv zeta.
  pose proof (of_plain _ _ Ho) as Hp. destruct (blocksize_pos _ _ Hp) as (Hb & Hmax & Hb'). pose proof (max_pos _ _ Hp) as Hmp.
  rewrite Z.quot_div_nonneg; [|lia..]. assert (0 ≤ (f_pos f - 1) / sv_blocksize s < max_blocks s) as Hq.
  { split; [apply Z.div_pos; lia|apply Z.div_lt_upper_bound; lia]. }
  rewrite (u64_small ((f_pos f - 1) / sv_blocksize s)); [|lia]. rewrite (too_big_ok content used area s _ _ Hp); [|lia]. rewrite (bool_decide_eq_false_2 (max_blocks s ≤ _)); [|lia].
  rewrite andb_false_r. apply runs_bind, runs_ret. pose proof (pf_wf _ _ _ _ _ Hp) as Hw.
  destruct (size_set_ok (sv_fs s) (f_inode f) (f_pos f) Hreg) as (fs' & i' & E & Hbs & Hfl & Hby & Hl & Hsz & Hm & Hif & Hib); [apply Hw|apply Hw|lia|].
  rewrite E. cbv beta iota. destruct (set_fs_same fs' s Hbs) as [Hs1 Hk1]. apply runs_bind. eapply runs_service_; [done|]. cbn [errno].
  change (if bool_decide (errno E_OK ≠ 0) then inl (errno E_OK) else inr tt : Z + unit) with (inr tt : Z + unit). cbv iota.
  apply runs_bind, runs_modify. rewrite (bool_decide_eq_true_2 (f_ino f ≠ 0)) //.
  destruct (sv_inode_written content used area (sv_set_fs fs' s) (f_ino f) i') as (s2 & E2 & Hs2 & Hu2 & Hb2 & Hi2).
  apply runs_bind. eapply runs_service_; [exact E2|]. rewrite (bool_decide_eq_false_2 (0 ≠ 0)); [|tauto].
  assert (sv_blocksize s2 = sv_blocksize s) as Hbs2 by (rewrite Hb2; apply Hk1).
  assert (no_share s → no_share s2) as Hsh.
  { intros Hs. assert (no_share (sv_set_fs fs' s)) as H by (by rewrite /no_share set_fs_get Hfl).
    pose proof (inv_write_inode (sv_set_fs fs' s) (f_ino f) i' H) as H'. by rewrite E2 in H'. }
  destruct (size_inode s f s2 i' Ho) as [Hup Hvw]; try done; [by eapply same_blocks_trans|intros x; rewrite Hu2; apply Hk1|lia|].
  apply runs_bind. eapply runs_mono; [apply (zero_past_ok s2 (f_set_inode i' f)); [apply Hup|by rewrite /stored Hi2 decide_True|by rewrite /at_tail Hbs2]|].
  intros r f3 s3 (-> & -> & Hg3 & Hv3 & Hst3). cbv beta. rewrite bool_decide_eq_true_2; [|apply truncate_le; [by apply Z.mod_pos_bound|lia..]].
  apply runs_ret. split; [done|]. split; [eapply updates_trans; [done|by apply goes_updates]|]. split; [by eapply same_view_trans|]. done.
Qed.

(** ** The loop of writing *)

(** What was written of the data, when [n] bytes were counted: these, and nothing
    else of the file has changed; or these and the data for the rest of one more
    block, which is in the dirty buffer but could not get a block on the device. *)
Definition wrote (s : W) (f : ext2_file) (s' : W) (f' : ext2_file) (pos n : Z) (data : list Z) : Prop :=
  written s f s' f' pos (take (Z.to_nat n) data) ∨
  let c := Z.min (sv_blocksize s - (pos + n) mod sv_blocksize s) (Z.of_nat (length data) - n) in
  written s f s' f' pos (take (Z.to_nat (n + c)) data) ∧ unplaced f'.

Lemma wrote_same s f s' f' pos data : sv_blocksize s' = sv_blocksize s → open_file s f → same_view s f s' f' → wrote s f s' f' pos 0 data.
Proof. intros Hb Ho Hv. left. apply written_nil. intros k Hk. by apply same_view_byte. Qed.

Lemma wrote_view s f s1 f1 s2 f2 pos n data : sv_blocksize s1 = sv_blocksize s → sv_blocksize s2 = sv_blocksize s1 → open_file s1 f1 → wrote s f s1 f1 pos n data → same_view s1 f1 s2 f2 →
  f_flags f2 = f_flags f1 → f_physblock f2 = f_physblock f1 → wrote s f s2 f2 pos n data.
Proof.
  intros Hb1 Hb2 Ho1 Hw Hv Hfl Hph.
  assert (∀ d, written s f s1 f1 pos d → written s f s2 f2 pos d) as Hwd.
  { intros d Hd k Hk. assert (file_byte s2 f2 k = file_byte s1 f1 k) as ->; [|by apply Hd].
    apply same_view_byte; [done..|]. by rewrite (max_blocks_eq _ _ Hb1) Hb1. }
  destruct Hw as [Hw|[Hw Hd]]; [left; by apply Hwd|right]. split; [by apply Hwd|].
  unfold unplaced, f_flag. rewrite Hfl Hph. exact Hd.
Qed.

Lemma written_app s f s1 f1 s2 f2 pos c n data : sv_blocksize s1 = sv_blocksize s → 0 ≤ c ≤ Z.of_nat (length data) → 0 ≤ n →
  written s f s1 f1 pos (take (Z.to_nat c) data) → written s1 f1 s2 f2 (pos + c) (take (Z.to_nat n) (drop (Z.to_nat c) data)) →
  written s f s2 f2 pos (take (Z.to_nat (c + n)) data).
Proof.
  intros Hb Hc Hn Hw1 Hw2 k Hk. specialize (Hw1 k Hk). specialize (Hw2 k). rewrite (max_blocks_eq _ _ Hb) Hb in Hw2.
  rewrite (Hw2 Hk) Hw1 !length_take length_drop. clear Hw1 Hw2 Hk.
  repeat case_decide; try (exfalso; lia); try done;
    rewrite !list_lookup_total_alt !lookup_take_lt ?lookup_drop; try lia; do 2 f_equal; lia.
Qed.

Lemma wrote_cons s f s1 f1 s2 f2 pos c n data : sv_blocksize s1 = sv_blocksize s → 0 < sv_blocksize s → 0 ≤ c →
  0 ≤ n ≤ Z.of_nat (length data) - c →
  written s f s1 f1 pos (take (Z.to_nat c) data) → wrote s1 f1 s2 f2 (pos + c) n (drop (Z.to_nat c) data) →
  wrote s f s2 f2 pos (c + n) data.
Proof.
  intros Hb Hb0 Hc Hn Hw1 [Hw2|[Hw2 Hd]]; [left; eapply written_app; [done|lia|lia|done|done]|right].
  pose proof (Z.mod_pos_bound (pos + (c + n)) (sv_blocksize s) Hb0). split; [|done].
  rewrite Hb length_drop -Z.add_assoc in Hw2. rewrite -Z.add_assoc. eapply written_app; [done|lia|lia|done|].
  replace (Z.of_nat (length data) - (c + n)) with (Z.of_nat (length data - Z.to_nat c) - n) by lia. exact Hw2.
Qed.

Lemma wrote_err s f s' f' pos data : let c := Z.min (sv_blocksize s - pos mod sv_blocksize s) (Z.of_nat (length data)) in
  written s f s' f' pos [] ∨ written s f s' f' pos (take (Z.to_nat c) data) ∧ unplaced f' → wrote s f s' f' pos 0 data.
Proof. intros c [Hw|[Hw Hd]]; [by left|right]. cbv zeta. rewrite Z.add_0_r Z.sub_0_r. by split. Qed.

(** After a part, the position is at a tail, and at the end of a block when there is more to write. *)
Lemma part_tail pos bs len : 0 < bs → 0 ≤ pos → 0 ≤ len → let c := Z.min (bs - pos mod bs) len in
  (c < len → (pos + c) mod bs = 0) ∧ ((pos + c) mod bs = 0 ∨ (pos + c) / bs = pos / bs) ∧ pos + c ≤ (pos / bs + 1) * bs.
Proof.
  intros Hb Hp Hl c. pose proof (Z.mod_pos_bound pos bs Hb) as Hm. pose proof (Z.div_mod pos bs) as Hd.
  assert (c = bs - pos mod bs → (pos + c) mod bs = 0) as Hend.
  { intros ->. replace (pos + (bs - pos mod bs)) with ((pos / bs + 1) * bs) by lia. apply Z.mod_mul; lia. }
  split; [intros Hc; apply Hend; lia|]. split; [|lia].
  destruct (decide (c = bs - pos mod bs)) as [Hc|Hc]; [left; by apply Hend|right].
  symmetry. apply (Z.div_unique _ _ _ (pos mod bs + c)); [left; lia|lia].
Qed.

Definition loop_ends (s : W) (f : ext2_file) (data : list Z) (s' : W) (f' : ext2_file) (e n : Z) : Prop :=
  0 ≤ n ≤ Z.of_nat (length data) ∧ f_pos f' = f_pos f + n ∧ wrote s f s' f' (f_pos f) n data ∧
  (e = 0 → n = Z.of_nat (length data) ∧ stored s' f' ∧ settled f') ∧
  (f_pos f mod sv_blocksize s = 0 ∨ data = [] ∧ at_tail s f ∨ 0 < n → at_tail s' f') ∧
  (f_pos f ≤ max_blocks s * sv_blocksize s ∨ 0 < n → f_pos f' ≤ max_blocks s * sv_blocksize s).

Lemma write_loop_ok fuel data count s f : open_file s f → f_ino f ≠ 0 → no_share s → stored s f → settled f →
  (data ≠ [] → f_pos f mod sv_blocksize s + Z.of_nat (length data) ≤ sv_blocksize s * (Z.of_nat fuel - 1)) → (0 < fuel)%nat →
  runs (write_loop true junk hashmap_lookup hashmap_add fuel data count) f s (λ r f' s', goes s f s' f' ∧
    ∃ e n, r = inr (e, count + n) ∧ loop_ends s f data s' f' e n).
Proof.
  revert data count s f. induction fuel as [|fuel IH]; intros data count s f Ho Hino Hsh Hst Hse Hf Hf0; [lia|]. cbn [write_loop].
  case_bool_decide as Hne.
  { apply runs_ret. split; [by apply goes_refl|]. exists 0, 0. split; [do 2 f_equal; lia|]. unfold loop_ends. rewrite Hne. cbn. split; [lia|]. split; [lia|].
    split; [by apply wrote_same|]. split; [done|]. split; [intros [?|[[_ ?]|?]]; [by left|done|lia]|lia]. }
  specialize (Hf Hne). destruct (blocksize_pos _ _ (of_plain _ _ Ho)) as (Hb & Hmax & _). pose proof (of_pos _ _ Ho) as Hp0.
  pose proof (Z.mod_pos_bound (f_pos f) (sv_blocksize s) Hb) as Hmod. assert (0 < Z.of_nat (length data)) as Hl by (destruct data; [done|cbn; lia]).
  destruct (part_tail (f_pos f) (sv_blocksize s) (Z.of_nat (length data))) as (Hfull & Htl & Hend); [lia..|].
  apply runs_bind, runs_attempt. eapply runs_mono; [by apply write_part_ok|].
  set (c := Z.min (sv_blocksize s - f_pos f mod sv_blocksize s) (Z.of_nat (length data))) in *.
  intros r f1 s1 [Hg Hr]. cbv beta iota in Hr |- *. assert (Z.of_nat (length (take (Z.to_nat c) data)) = c) as Hlt by (rewrite length_take; lia). rewrite Hlt in Hr.
  pose proof (go_blocksize _ _ _ _ Hg) as Hbs. destruct r as [e|c'].
  { apply runs_ret. split; [done|]. exists e, 0. destruct Hr as (He & Hp1 & Hk). split; [do 2 f_equal; lia|]. split; [lia|]. split; [lia|].
    split; [by apply wrote_err|]. split; [done|]. rewrite Hp1. split; [|lia].
    intros [?|[[? _]|?]]; [|done|lia]. left. by rewrite Hp1 Hbs. }
  destruct Hr as (-> & Hq & Hp1 & Hbn1 & Hv1 & Hd1 & Hph1 & Hst1 & Hw1).
  assert (f_pos f1 ≤ max_blocks s * sv_blocksize s) as Hle by nia.
  assert (at_tail s1 f1) as Ht1. { unfold at_tail. rewrite Hbs Hp1 Hbn1. destruct Htl as [->| ->]; [by left|by right]. }
  eapply runs_mono; [apply IH; [apply Hg|by rewrite (go_ino _ _ _ _ Hg)|by apply Hg|by apply Hst1|by intros _ _| |]|].
  - rewrite length_drop Hbs Hp1. intros Hne2. assert (c < Z.of_nat (length data)) as Hc.
    { destruct (decide (c < Z.of_nat (length data))); [done|]. destruct Hne2. apply drop_ge. lia. }
    rewrite Hfull //. nia.
  - nia.
  - intros r f2 s2 [Hg2 (e & n & -> & Hn & Hp2 & Hw2 & He & Ht2 & Hm2)]. rewrite Hbs (max_blocks_eq _ _ Hbs) Hp1 in Ht2, Hm2. rewrite length_drop in Hn, He.
    split; [by eapply goes_trans|]. exists e, (c + n). split; [do 2 f_equal; lia|]. split; [lia|]. split; [lia|]. split; [|split; [|split]].
    + rewrite Hp1 in Hw2. eapply wrote_cons; [done|lia|lia|lia|done|done].
    + intros E. destruct (He E) as (-> & ? & ?). split; [lia|done].
    + intros _. apply Ht2. destruct (decide (c < Z.of_nat (length data))) as [Hc|Hc]; [left; by apply Hfull|right; left].
      split; [apply drop_ge; lia|done].
    + intros _. apply Hm2. left. by rewrite -Hp1.
Qed.

Lemma io_fuel_enough bs start n : 0 ≤ start < bs → 0 ≤ n → start + n ≤ bs * (Z.of_nat (io_fuel bs n) - 1) ∧ (0 < io_fuel bs n)%nat.
Proof.
  intros Hs Hn. unfold io_fuel. assert (0 ≤ n / bs) by (apply Z.div_pos; lia). pose proof (Z.div_mod n bs). pose proof (Z.mod_pos_bound n bs).
  split; [|lia]. rewrite Z2Nat.id; [|lia]. nia.
Qed.

(** The end of a write: the error and the number of bytes, and the file after it. *)
Definition write_ends (s : W) (f : ext2_file) (data : list Z) (s' : W) (f' : ext2_file) (e n : Z) : Prop :=
  0 ≤ n ≤ Z.of_nat (length data) ∧ f_pos f' = f_pos f + n ∧
  EXT2_I_SIZE (f_inode f') = (if decide (n = 0) then EXT2_I_SIZE (f_inode f) else Z.max (EXT2_I_SIZE (f_inode f)) (f_pos f + n)) ∧
  wrote s f s' f' (f_pos f) n data ∧ (e = 0 → n = Z.of_nat (length data) ∧ stored s' f' ∧ settled f').

Lemma settled_same f f' : f_flags f' = f_flags f → f_physblock f' = f_physblock f → settled f → settled f'.
Proof. unfold settled, f_flag. by intros -> ->. Qed.

Lemma write_blocks_ok data s f : open_file s f → f_ino f ≠ 0 → no_share s → stored s f → settled f →
  LINUX_S_ISREG (i_mode (f_inode f)) = true → 0 ≤ EXT2_I_SIZE (f_inode f) →
  runs (write_blocks true junk ea_remove punch_fuel sv_set_fs hashmap_lookup hashmap_add data) f s (λ r f' s', updates s f s' f' ∧
    ∃ e n, r = inr (e, n) ∧ write_ends s f data s' f' e n).
Proof.
  intros Ho Hino Hsh Hst Hse Hreg Hsz. unfold write_blocks. apply runs_bind, runs_get_state, runs_bind.
  destruct (blocksize_pos _ _ (of_plain _ _ Ho)) as (Hb & Hmax & _). pose proof (max_pos _ _ (of_plain _ _ Ho)) as Hmp.
  destruct (io_fuel_enough (sv_blocksize s) (f_pos f mod sv_blocksize s) (Z.of_nat (length data))) as [Hfu Hfu0]; [apply Z.mod_pos_bound; lia|lia|].
  eapply runs_mono; [by apply write_loop_ok|]. intros r f1 s1 [Hg (e & n & -> & Hn & Hp1 & Hw & He & Ht & Hm)]. cbv beta iota. replace (0 + n) with n by lia.
  pose proof (go_blocksize _ _ _ _ Hg) as Hbs. pose proof (go_open _ _ _ _ Hg) as Ho1. pose proof (size_like _ _ (go_like _ _ _ _ Hg)) as Hsize.
  pose proof (of_pos _ _ Ho) as Hp0. apply runs_bind, runs_get_obj. case_bool_decide as Hc.
  - destruct Hc as [Hn0 Hgt]. rewrite Hsize in Hgt. specialize (Ht ltac:(lia)). specialize (Hm ltac:(lia)).
    assert (s64 (f_pos f1) = f_pos f1) as -> by (unfold s64; rewrite Z.mod_small; lia).
    apply runs_bind, runs_attempt. eapply runs_mono.
    { apply set_size_ok; [done|by rewrite (go_ino _ _ _ _ Hg)| |done|lia|by rewrite (max_blocks_eq _ _ Hbs) Hbs|lia]. by destruct (go_like _ _ _ _ Hg) as [-> _]. }
    intros r f2 s2 (-> & Hup & Hvw & Hsz2 & Hp2 & Hst2 & Hfl2 & Hph2). cbv beta iota. apply runs_ret.
    split; [eapply updates_trans; [by apply goes_updates|done]|]. exists e, n. split; [by case_bool_decide as H; [rewrite H|]|].
    split; [done|]. split; [lia|]. rewrite Hsz2 (decide_False _ _ Hn0). split; [lia|].
    split; [by eapply wrote_view; [| |exact Ho1|exact Hw|exact Hvw|exact Hfl2|exact Hph2]; [|apply Hup]|].
    intros E. destruct (He E) as (? & _ & Hs1). split; [done|]. split; [done|]. by eapply settled_same.
  - apply runs_ret. split; [by apply goes_updates|]. exists e, n. split; [done|]. split; [done|]. split; [done|]. rewrite Hsize in Hc |- *.
    split; [|done]. case_decide; lia.
Qed.

Lemma size_nonneg s i : plain s i → 0 ≤ EXT2_I_SIZE i.
Proof.
  intros Hp. assert (is_bytes i) as Hby by apply (pf_wf _ _ _ _ _ Hp). unfold EXT2_I_SIZE. apply Z.lor_nonneg. split; [by apply (get_le_range 4)|].
  apply Z.shiftl_nonneg. by apply (get_le_range 4).
Qed.

Lemma read_ok ext2fs_inline_data_get wanted s f : open_file s f → settled f → f_ino f ≠ 0 → 0 ≤ wanted →
  let n := Z.max 0 (Z.min wanted (EXT2_I_SIZE (f_inode f) - f_pos f)) in
  runs (ext2fs_file_read true junk ext2fs_inline_data_get wanted) f s (λ r f' s', reads s f s' f' ∧ f_pos f' = f_pos f + n ∧ r = inr (0, file_bytes s f (f_pos f) n)).
Proof.
  intros Ho Hse Hino Hw n. unfold ext2fs_file_read. apply runs_bind, runs_get_obj, runs_bind, runs_get_state. rewrite (pf_inline _ _ _ _ _ (of_plain _ _ Ho)).
  destruct (blocksize_pos _ _ (of_plain _ _ Ho)) as (Hb & _ & _).
  destruct (io_fuel_enough (sv_blocksize s) (f_pos f mod sv_blocksize s) wanted) as [Hfu Hfu0]; [apply Z.mod_pos_bound; lia|done|].
  by apply read_loop_ok.
Qed.

Lemma write_ok get set expand data s f : open_file s f → f_ino f ≠ 0 → no_share s → stored s f → settled f →
  LINUX_S_ISREG (i_mode (f_inode f)) = true → f_flag EXT2_FILE_WRITE f = true →
  runs (ext2fs_file_write true junk get set expand ea_remove punch_fuel sv_set_fs hashmap_lookup hashmap_add data) f s (λ r f' s', updates s f s' f' ∧
    ∃ e n, r = inr (e, n) ∧ write_ends s f data s' f' e n).
Proof.
  intros Ho Hino Hsh Hst Hse Hreg Hwr. unfold ext2fs_file_write. apply runs_bind, runs_get_obj. rewrite Hwr (pf_inline _ _ _ _ _ (of_plain _ _ Ho)). cbn [negb].
  apply write_blocks_ok; [done..|]. by eapply size_nonneg, of_plain.
Qed.

(** A file that is opened shows what is on the device. *)
Lemma open_ok garbage s f : open_file s f → clean f → stored s f → sv_blocksize s ≤ Z.of_nat (length garbage) →
  ∃ f', ext2fs_file_open true garbage s (f_ino f) 0 = (0, Some f') ∧ open_file s f' ∧ settled f' ∧ f_inode f' = f_inode f ∧ f_ino f' = f_ino f ∧
    same_view s f s f'.
Proof.
  intros Ho Hcl Hst Hg. unfold ext2fs_file_open, ext2fs_file_open2. change (flag 0 _) with false. cbn [andb negb]. rewrite Hst.
  rewrite bool_decide_eq_false_2; [|tauto]. eexists. split; [done|]. split; [|split; [done|split; [done|split; [done|]]]].
  - constructor; cbn [f_inode f_buf f_pos]; [apply Ho|apply Ho| |done|done|apply Ho|lia].
    destruct (blocksize_pos _ _ (of_plain _ _ Ho)). rewrite length_take. lia.
  - intros n Hn. by rewrite (clean_view s f).
Qed.

Lemma llseek_set pos f (s : W) : ext2fs_file_llseek pos EXT2_SEEK_SET f s = Some (inr pos, f_set_pos pos f, s).
Proof. done. Qed.

Lemma written_bytes s f s' f' pos data : sv_blocksize s' = sv_blocksize s → 0 < sv_blocksize s → 0 ≤ pos → pos + Z.of_nat (length data) ≤ max_blocks s * sv_blocksize s →
  wrote s f s' f' pos (Z.of_nat (length data)) data → file_bytes s' f' pos (Z.of_nat (length data)) = data.
Proof.
  intros Hb Hb0 Hp Hl Hw. assert (written s f s' f' pos data) as Hd.
  { pose proof (Z.mod_pos_bound (pos + Z.of_nat (length data)) (sv_blocksize s) Hb0).
    destruct Hw as [Hw|[Hw _]]; rewrite take_ge in Hw; (done || lia). }
  apply list_eq. intros j. unfold file_bytes. rewrite list_lookup_fmap. destruct (decide (j < length data)%nat) as [Hj|Hj].
  - rewrite lookup_seqZ_lt; [|lia]. cbn. rewrite (Hd (pos + Z.of_nat j)); [|lia]. rewrite decide_True; [|lia]. rewrite list_lookup_total_alt.
    replace (Z.to_nat (pos + Z.of_nat j - pos)) with j by lia. destruct (lookup_lt_is_Some_2 data j Hj) as [x ->]. done.
  - rewrite lookup_seqZ_ge; [|lia]. rewrite lookup_ge_None_2 //. lia.
Qed.

(** C11: Reading gives the bytes of the file from the position on, as many as asked
    for or as there are, and moves the position behind them.  It never fails for
    a file that is open, whose dirty buffer has a block, and neither the contents
    nor the inode nor other blocks in use change, whatever has to be written back. *)
Theorem ext2fs_file_read_correct ext2fs_inline_data_get wanted s f : open_file s f → settled f → f_ino f ≠ 0 → 0 ≤ wanted →
  let n := Z.max 0 (Z.min wanted (EXT2_I_SIZE (f_inode f) - f_pos f)) in
  ∃ f' s', ext2fs_file_read true junk ext2fs_inline_data_get wanted f s = Some (inr (0, file_bytes s f (f_pos f) n), f', s') ∧
    f_pos f' = f_pos f + n ∧ reads s f s' f'.
Proof.
  intros Ho Hse Hino Hw n. destruct (read_ok ext2fs_inline_data_get wanted s f Ho Hse Hino Hw) as (r & f' & s' & E & Hr & Hp & ->). by exists f', s'.
Qed.

(** C9: Writing to a regular file always ends, with an error and a number of bytes:
    as many bytes of the data are in the file at the position, which is behind
    them, and the size is that of a file that holds them; without an error it is
    all of the data, and the inode on the device is the one in memory.  No other
    byte of the file changes, with holes read as zeros before and after blocks are
    allocated for them, but in one case: after an error the data for the rest of
    the next block, which is not counted, can be in the buffer, which is dirty
    then and has no block on the device.  The blocks in use that are not of the file stay as they are. *)
Theorem ext2fs_file_write_correct get set expand data s f : open_file s f → f_ino f ≠ 0 → no_share s → stored s f → settled f →
  LINUX_S_ISREG (i_mode (f_inode f)) = true → f_flag EXT2_FILE_WRITE f = true →
  ∃ e n f' s', ext2fs_file_write true junk get set expand ea_remove punch_fuel sv_set_fs hashmap_lookup hashmap_add data f s = Some (inr (e, n), f', s') ∧
    updates s f s' f' ∧ write_ends s f data s' f' e n.
Proof.
  intros Ho Hino Hsh Hst Hse Hreg Hwr. destruct (write_ok get set expand data s f) as (r & f' & s' & E & Hu & e & n & -> & He); [done..|].
  by exists e, n, f', s'.
Qed.

(** C10: For a regular file with pointers, in a file system that does not share
    blocks (EXT2_FLAG_SHARE_DUP): what was written without an error is what is
    read from the file after closing it, opening it again and going to the
    position of the write. *)
Theorem write_close_open_read get set expand garbage data s f : open_file s f → f_ino f ≠ 0 → no_share s → stored s f → settled f →
  LINUX_S_ISREG (i_mode (f_inode f)) = true → f_flag EXT2_FILE_WRITE f = true → sv_blocksize s ≤ Z.of_nat (length garbage) →
  ∃ e n f1 s1, ext2fs_file_write true junk get set expand ea_remove punch_fuel sv_set_fs hashmap_lookup hashmap_add data f s = Some (inr (e, n), f1, s1) ∧
    (e = 0 → ∃ f2 s2 f3, ext2fs_file_close true junk f1 s1 = Some (inr tt, f2, s2) ∧
      ext2fs_file_open true garbage s2 (f_ino f) 0 = (0, Some f3) ∧
      runs (ext2fs_file_llseek (f_pos f) EXT2_SEEK_SET;; ext2fs_file_read true junk get (Z.of_nat (length data))) f3 s2 (λ r _ _, r = inr (0, data))).
Proof.
  intros Ho Hino Hsh Hst Hse Hreg Hwr Hgb. destruct (write_ok get set expand data s f) as (r & f1 & s1 & E & Hu & e & n & -> & Hn & Hp1 & Hsz1 & Hw & He); [done..|].
  exists e, n, f1, s1. split; [done|]. intros E0. destruct (He E0) as (-> & Hst1 & Hse1). pose proof (up_open _ _ _ _ Hu) as Ho1. pose proof (up_blocksize _ _ _ _ Hu) as Hb1.
  destruct (flush_ok s1 f1 Ho1) as (r2 & f2 & s2 & E2 & Hg2 & Hv2 & _ & _ & _ & Hr2); [by rewrite (up_ino _ _ _ _ Hu)|].
  destruct r2 as [e2|[]]; [by destruct Hr2|]. destruct Hr2 as [Hcl2 Hst2]. specialize (Hst2 Hst1). pose proof (go_open _ _ _ _ Hg2) as Ho2.
  pose proof (go_blocksize _ _ _ _ Hg2) as Hb2. assert (f_ino f2 = f_ino f) as Hino2 by (rewrite (go_ino _ _ _ _ Hg2); apply Hu).
  destruct (open_ok garbage s2 f2 Ho2 Hcl2 Hst2) as (f3 & E3 & Ho3 & Hse3 & Hi3 & Hino3 & Hv3); [by rewrite Hb2 Hb1|].
  exists f2, s2, f3. split; [done|]. split; [by rewrite -Hino2|]. apply runs_bind. eexists _, _, _. split; [apply llseek_set|]. cbv beta iota.
  pose proof (of_pos _ _ Ho) as Hp0. assert (open_file s2 (f_set_pos (f_pos f) f3)) as Ho4 by (destruct Ho3 as [? ? ? ? ? ? ?]; by constructor).
  eapply runs_mono; [apply (read_ok get _ _ _ Ho4); [done|by rewrite Hino3 Hino2|lia]|]. intros r4 f4 s4 (_ & _ & ->). do 2 f_equal.
  pose proof (size_like _ _ (go_like _ _ _ _ Hg2)) as Hsz2. cbn [f_set_pos f_pos f_inode]. rewrite Hi3 Hsz2.
  destruct (decide (data = [])) as [->|Hne]; [by rewrite Z.max_l; [|cbn; lia]|].
  assert (Z.of_nat (length data) ≠ 0) as Hl0 by (destruct data; [done|cbn; lia]). rewrite (decide_False _ _ Hl0) in Hsz1.
  replace (Z.max 0 _) with (Z.of_nat (length data)) by lia. pose proof (of_size _ _ Ho1) as Hmx. rewrite (max_blocks_eq _ _ Hb1) Hb1 in Hmx.
  destruct (blocksize_pos _ _ (of_plain _ _ Ho)) as (Hb & _ & _).
  change (file_bytes s2 (f_set_pos (f_pos f) f3)) with (file_bytes s2 f3). rewrite -(written_bytes s f s1 f1 (f_pos f) data) //; [|lia..].
  rewrite length_file_bytes; [|lia]. transitivity (file_bytes s2 f2 (f_pos f) (Z.of_nat (length data))).
  - apply file_bytes_same; [done|lia|done|lia|rewrite (max_blocks_eq _ _ Hb2) (max_blocks_eq _ _ Hb1) Hb2 Hb1; lia].
  - apply file_bytes_same; [done|lia|done|lia|rewrite (max_blocks_eq _ _ Hb1) Hb1; lia].
Qed.
End file.

(** ** A file in memory: 1500 bytes, with a hole for the second block *)
Definition mw_set_fs (fs : ext2_filsys) (w : mem_world) : mem_world := MemWorld fs (mw_device w) (mw_inodes w) (mw_next w) (mw_freed w).
#[export] Instance mem_sets : Sets mw_content mw_used mw_area mw_set_fs.
Proof.
  constructor; [done|]. intros fs s Hb. split; [|by constructor]. intros x _. unfold mw_content, mw_blocksize. cbn. by rewrite Hb.
Qed.
#[export] Instance mem_no_share : Invariant (W := mem_world) no_share.
Proof. apply (mem_invariant (λ fs, flag (fs_flags fs) EXT2_FLAG_SHARE_DUP = false)). Qed.

Definition demo_io_inode : list Z := set32 4 1500 (set16 0 0x81a4 demo_bmap_inode).
Definition demo_io_world : mem_world := MemWorld demo_file_fs {[ 20 := (λ j, Z.of_nat j mod 256) <$> seq 0 1024 ]} {[ 12 := demo_io_inode ]} 100 ∅.
Definition demo_io_file : ext2_file := File 12 demo_io_inode EXT2_FILE_WRITE 1020 0 0 (replicate 1024 0).

Lemma demo_io_plain : plain_file mw_content mw_used mw_area demo_io_world demo_io_inode ∧
  ∀ n, 0 ≤ n < max_blocks demo_io_world → plain_block mw_content demo_io_world demo_io_inode n = if bool_decide (n = 0) then 20 else 0.
Proof.
  destruct (plain_congr mw_content mw_used mw_area demo_bmap_world demo_bmap_inode demo_io_world demo_io_inode) as [Hp Hn].
  - exact demo_bmap_plain.
  - done.
  - done.
  - intros x H0 (p & Hv & Hl & <-). rewrite demo_bmap_node // in H0. case_bool_decide as Hpp; [|done]. subst p. by destruct Hl.
  - apply set_le_bytes, set_le_bytes. apply demo_bmap_plain.
  - by apply Nat.leb_le; vm_compute.
  - by vm_compute.
  - intros r Hr. unfold demo_io_inode. unfold i_block. assert (length demo_bmap_inode = 128%nat) as Hl by by vm_compute.
    rewrite get_set_le_ne; [rewrite get_set_le_ne //|apply in_buf_set|lia|lia]; (lia || unfold in_buf; rewrite Hl; lia).
  - split; [done|]. intros n Hn'. unfold plain_block. change (sv_blocksize demo_io_world / 4) with 256.
    destruct (leaf_of_ok 256 n) as [Hv _]; [split; [lia|]; change 256 with (sv_blocksize demo_io_world / 4); apply (max_blocks_span demo_io_world), Hn'|].
    rewrite file_block_node; [|lia]. change (sv_blocksize demo_bmap_world / 4) with 256 in Hn. rewrite Hn // demo_bmap_node //.
    case_bool_decide as H; case_bool_decide as H'; try done; [|by subst n; destruct H].
    destruct H'. apply (leaf_of_inj 256); [lia|lia|]. rewrite H. done.
Qed.

Lemma demo_io_open : open_file mw_content mw_used mw_area demo_io_world demo_io_file.
Proof.
  destruct demo_io_plain as [Hp Hb]. constructor; [done| |done|done|done|by vm_compute|by vm_compute].
  intros n Hn. unfold disk_block. change (f_inode demo_io_file) with demo_io_inode. rewrite Hb //. by case_bool_decide; vm_compute.
Qed.

(** Ten bytes at the end of the first block: four of them, and the zeros of a hole. *)
Lemma ext2fs_file_read_witness : ∃ f' s',
  ext2fs_file_read true (Extent 0 0 0 0) (λ _ _ _, (0, [])) 10 demo_io_file demo_io_world =
    Some (inr (0, [252; 253; 254; 255; 0; 0; 0; 0; 0; 0]), f', s') ∧ f_pos f' = 1030.
Proof.
  destruct (ext2fs_file_read_correct mw_content mw_used mw_area (Extent 0 0 0 0) (λ _ _ _, (0, [])) 10 demo_io_world demo_io_file)
    as (f' & s' & E & Hp & _); [exact demo_io_open|done|done|lia|].
  exists f', s'. rewrite E. split; [by vm_compute|]. rewrite Hp. by vm_compute.
Defined.

(** 600 bytes: four in the first block and the others in a block for the hole. *)
Definition demo_io_data : list Z := replicate 600 7.
Abbreviation demo_io_write :=
  (ext2fs_file_write (W := mem_world) true (Extent 0 0 0 0) (λ _ _ _, (0, [])) (λ w _ _ _, (0, [], w)) (λ w _, (0, w)) (λ w _, (0, w)) 10 mw_set_fs
    (λ _ _, None) (λ w _ _, (0, w)) demo_io_data).
Lemma demo_io_result : (λ x, x.1.1) <$> demo_io_write demo_io_file demo_io_world = Some (inr (0, 600)).
Proof. by vm_compute. Qed.

Lemma ext2fs_file_write_witness : ∃ f' s', demo_io_write demo_io_file demo_io_world = Some (inr (0, 600), f', s') ∧
  EXT2_I_SIZE (f_inode f') = 1620 ∧ f_pos f' = 1620.
Proof.
  destruct (ext2fs_file_write_correct mw_content mw_used mw_area (Extent 0 0 0 0) (λ _ _, None) (λ w _ _, (0, w)) (λ w _, (0, w)) 10 mw_set_fs
    (λ _ _ _, (0, [])) (λ w _ _ _, (0, [], w)) (λ w _, (0, w)) demo_io_data demo_io_world demo_io_file)
    as (e & n & f' & s' & E & _ & _ & Hp & Hsz & _); [exact demo_io_open|done|done|done|done|done|done|].
  pose proof demo_io_result as Hr. rewrite E in Hr. injection Hr as -> ->.
  exists f', s'. split; [done|]. rewrite Hsz Hp. split; vm_compute; reflexivity.
Defined.

Lemma write_close_open_read_witness : ∃ f1 s1 f2 s2 f3, demo_io_write demo_io_file demo_io_world = Some (inr (0, 600), f1, s1) ∧
  ext2fs_file_close true (Extent 0 0 0 0) f1 s1 = Some (inr tt, f2, s2) ∧
  ext2fs_file_open true (replicate 3072 5) s2 12 0 = (0, Some f3) ∧
  runs (ext2fs_file_llseek 1020 EXT2_SEEK_SET;; ext2fs_file_read true (Extent 0 0 0 0) (λ _ _ _, (0, [])) 600) f3 s2 (λ r _ _, r = inr (0, demo_io_data)).
Proof.
  destruct (write_close_open_read mw_content mw_used mw_area (Extent 0 0 0 0) (λ _ _, None) (λ w _ _, (0, w)) (λ w _, (0, w)) 10 mw_set_fs
    (λ _ _ _, (0, [])) (λ w _ _ _, (0, [], w)) (λ w _, (0, w)) (replicate 3072 5) demo_io_data demo_io_world demo_io_file)
    as (e & n & f1 & s1 & E & Hrest); [exact demo_io_open|done|done|done|done|done|done|by vm_compute|].
  pose proof demo_io_result as Hr. rewrite E in Hr. injection Hr as -> ->.
  destruct (Hrest eq_refl) as (f2 & s2 & f3 & E2 & E3 & Hread). change (f_ino demo_io_file) with 12 in E3.
  change (f_pos demo_io_file) with 1020 in Hread. change (Z.of_nat (length demo_io_data)) with 600 in Hread.
  exists f1, s1, f2, s2, f3. split; [exact E|]. split; [exact E2|]. split; [exact E3|exact Hread].
Defined.

(** Ten bytes to the hole when no block can be allocated: the write says that
    nothing was written, but the bytes are in the buffer and are read from it. *)
Definition full_io_world : mem_world := MemWorld demo_file_fs (mw_device demo_io_world) {[ 12 := demo_io_inode ]} (2^32) ∅.
Definition hole_io_file : ext2_file := File 12 demo_io_inode EXT2_FILE_WRITE 1024 0 0 (replicate 1024 0).

Example failed_write_is_read :
  match ext2fs_file_write (W := mem_world) true (Extent 0 0 0 0) (λ _ _ _, (0, [])) (λ w _ _ _, (0, [], w)) (λ w _, (0, w)) (λ w _, (0, w)) 10 mw_set_fs
    (λ _ _, None) (λ w _ _, (0, w)) (replicate 10 7) hole_io_file full_io_world with
  | Some (r, f, w) => r = inr (errno EXT2_ET_BLOCK_ALLOC_FAIL, 0) ∧
      (λ x, x.1.1) <$> ext2fs_file_read true (Extent 0 0 0 0) (λ _ _ _, (0, [])) 10 f w = Some (inr (0, replicate 10 7))
  | None => False
  end.
Proof. vm_compute. by split. Qed.
